(* ===== verification/_CoqProject ===== *)
-Q . S2P
Prelude.v
GoHeap.v
Types.v
TxQueue.v
TxAccount.v
Intrinsic.v
TxPool.v
TxPoolInv.v
TxPoolSpec.v
Runtime.v
Crypto.v
EvmState.v
EvmInstr.v
EvmRun.v
EvmWord.v
EvmMemory.v
EvmLogic.v
EvmSafe.v
EvmMeta.v
EvmSpec.v
StateTxn.v
StateTxnSpec.v
Bloom.v
Blake2f.v
Precompiled.v
Signer.v
Rlp.v
RlpTypes.v
ChainStorage.v
Trie.v
TrieSpec.v
TrieHash.v
TrieMap.v
TrieState.v
TrieStateSpec.v
StateCommit.v
BuildRoot.v
BuildRootSpec.v
Blockchain.v
BlockchainSpec.v
BlockchainFork.v
TrieExample.v
ChainExample.v
Executor.v
ExecutorInv.v
ExecutorSpec.v
ExecutorBlock.v
ExecutorExample.v
Text.v
Validators.v
Snapshot.v
SnapshotSpec.v
IbftSigner.v
IbftSignerSpec.v
Staking.v
StakingSpec.v
ContractStore.v
IbftFork.v
IbftForkSpec.v
Ibft.v
IbftSpec.v
IbftOperator.v
IbftBuild.v
ExecutorFrame.v
IbftBuildSpec.v
IbftExample.v
Syncer.v
SyncerSpec.v
Archive.v
ArchiveSpec.v
GoHeapIndex.v
JsonTypes.v
Filters.v
FiltersSpec.v
EthEndpoint.v
EthEndpointSpec.v
Tracer.v
Network.v
NetworkSpec.v
NodeExample.v
