(* ===== verification/Prelude.v ===== *)
(** * nxchain: pool, virtual machine, state, chain, consensus, network and JSON-RPC

    This library models the part of the node (a polygon-edge fork, in Go) that
    decides what a block does and which blocks there are: the pool that collects
    transactions, the signers that say who sent them, the executor that applies
    them, the virtual machine and the precompiled contracts they run on, the
    overlay of accounts they change, the trie it is committed to, the roots and
    encodings of blocks, the chain they are verified against and written to,
    the IBFT engine that builds, seals and judges them with its validator sets,
    the peers the node keeps connections to, and the JSON-RPC endpoints through
    which clients read what it has.  The Go files are named relative to [src/].

    ** The parts and how they interact

    A transaction enters the pool ([txpool]), which recovers its sender
    ([crypto/txsigner.go]), validates it and orders it by nonce and gas price.
    A block takes transactions from the pool; [state/executor.go] applies them
    one by one to a [Txn] ([state/txn.go]), an overlay with snapshots over the
    committed state.  A call runs on a precompiled contract
    ([state/runtime/precompiled]) or on the machine ([state/runtime/evm]),
    whose host is the executor's [Transition] again: nested calls come back
    through [Callx].  Each transaction leaves a receipt with a bloom filter of
    its logs ([types/receipt.go]).  [Trie.Commit] ([state/immutable-trie]) writes
    the overlay to the Merkle trie, whose root the header carries with those of
    the transactions and receipts ([types/buildroot]).  [blockchain] executes a
    block again to verify it, then stores its header, body and receipts in RLP
    ([types/rlp_*.go]) and moves its head, or keeps it as a fork.

    Consensus is IBFT ([consensus/ibft]).  The validators of a height come from
    votes in the headers ([validators/store/snapshot]) or from the staking
    contract ([validators/store/contract], predeployed by [helper/staking]); the
    fork manager ([consensus/ibft/fork]) says which, with the signer
    ([consensus/ibft/signer]) and the hooks of the height.  The proposer builds a
    block from the pool, the others judge it, and the seals of a quorum make it
    final: they are in its extra data, which every node verifies.

    A node is connected to peers ([network]): it dials them from a queue, found by
    discovery or configured as bootnodes, and a handshake with each makes it an entry of the
    table of peers, under limits for each direction.  A node that is behind asks
    its best peer for blocks ([syncer]), verifies them and writes them.  Clients
    ask for blocks, accounts, calls and gas estimates, and poll or subscribe to
    filters, which the events of the chain fill, and trace transactions ([jsonrpc],
    with the hub of [server/server.go] to the state).  An operator exports a chain to a file and restores it on
    another node ([archive], with the export service of [server]), proposes and lists
    candidates for the validator set ([consensus/ibft/operator_service.go]) and
    switches a chain to other validators or another consensus ([command/ibft/switch]).

    ** Conventions

    A [uint64] is an integer of [Z] with the wrap-around written out ([u64],
    [add64], [sub64], [mul64]), an [int64] one with [s64]; a [big.Int] is an
    integer; an address or a hash is the integer its bytes spell, a byte string
    a [list Z].  A Go error is a [result] ([let?]); code that may panic returns
    an [outcome] ([Ret], [Panic], [NoFuel]; [let~]).  The machine's
    instructions are in a state monad over the machine and its host ([let!]).
    Out-of-range indices and slices and nil dereferences are [Panic].  Code of
    other packages is a class of operations: [External] (RLP writer, keccak),
    [RlpReader] (RLP parser), [Secp256k1] (btcec), [PrecompiledCrypto] (bn256,
    SHA-256, RIPEMD-160), [LRU] (golang-lru), [GoRuntime] (how much [append]
    over-allocates), [MachinePool] (what a [sync.Pool] hands out), [BLS]
    (kryptology), [EthgoAbi] (ethgo), [ProtoIBFT] (go-ibft's messages),
    [RoutingTable] (go-libp2p-kbucket); the radix tree
    of go-immutable-radix is any [FinMap].  What is relied on of them is a second
    class of laws ([RlpLaws]: what is written is read back; [RlpFormat]: the
    bytes are those of the format; [Secp256k1Laws], [PrecompiledLaws],
    [LRULaws], [MachinePoolLaws]), instantiated in the example files.  The
    interfaces of [blockchain] (consensus engine, executor, signer) are the class
    [ChainDeps], that of the endpoints to the pool [EthPool].  Keccak is never assumed injective: a theorem that needs the
    hashes of a run apart says so.

    ** Files

    - [Prelude]: results, machine integers, sums over lists and maps, tactics
      ([bool_props], [go_cases]) and the hint database [go].
    - [Types], [Runtime], [Crypto]: data of [types], the fork schedule
      of [chain/params.go], contracts, results and the interface [Host] of
      [state/runtime/runtime.go], signature checks and keys of
      [crypto/crypto.go].
    - [GoHeap]: the algorithms of Go's [container/heap].  [TxQueue], [TxAccount],
      [TxPool]: [txpool/queue.go], [account.go], [txpool.go] with the gauge and
      the index; the requests in flight between its goroutines are lists, and
      every critical section is one operation.  [Intrinsic]:
      [TransactionGasCost].  [TxPoolInv]: the pool's invariant, kept by every
      handler.  [TxPoolSpec]: the pool as a transition system and its
      properties.
    - [EvmState], [EvmInstr], [EvmRun]: [state.go] and [bitmap.go],
      [instructions.go], [dispatch_table.go] and [evm.go] of the machine.
      [EvmWord], [EvmMemory]: the meaning of the word instructions, of the byte
      loops and of the jump bitmap.  [EvmLogic]: weakest preconditions, the
      machine's invariant and [HostLaws], what a host promises.  [EvmSafe]: one
      safety lemma per instruction.  [EvmMeta]: the table and the loop.
      [EvmSpec]: memory, jumps and concrete runs.
    - [StateTxn], [StateTxnSpec]: [state/state.go] and [state/txn.go], and the
      effect of each operation on accounts, balances and snapshots.
    - [Bloom]: receipts and bloom filters.  [Blake2f], [Precompiled]: the
      precompiled contracts.  [Signer]: [crypto/txsigner.go].
    - [Executor]: [state/executor.go].  [ExecutorInv]: the invariant of a
      running transaction; the [Transition] keeps [HostLaws] at every depth.
      [ExecutorSpec], [ExecutorBlock]: transactions and blocks.
      [ExecutorExample]: instances of all classes, concrete transactions.
    - [Rlp]: values of the RLP reader, its laws, the format.  [RlpTypes]:
      [types/rlp_marshal.go], [rlp_unmarshal.go] and their storage forms,
      [header_hash.go].
    - [Trie]: [trie.go], [hasher.go], [encoding.go] and the nodes of
      [storage.go] of [state/immutable-trie].  [TrieSpec]: well-formed nodes and
      what they hold.  [TrieHash]: hashing, and nodes read back from storage.
      [TrieMap]: the trie as a finite map, with its root.  [TrieState]: its
      [state.go], [snapshot.go], the storages and [Trie.Commit]; [TrieStateSpec]:
      what a commit leaves.  [StateCommit]: a [Txn] over a snapshot, committed
      and read again.  [BuildRoot], [BuildRootSpec]: [types/buildroot].
    - [ChainStorage]: [blockchain/storage], as keys and bytes and as the records
      its interface promises.  [Blockchain]: [blockchain/blockchain.go],
      [subscription.go] and the genesis header.  [BlockchainSpec]: the node as an
      append-only ledger, verification, gas limits.  [BlockchainFork]: headers
      off the head and the choice of the head.
    - [TrieExample], [ChainExample]: instances of the classes (with an RLP writer
      and reader that keep the laws of both classes), concrete tries, blocks and
      chains.
    - [Text]: [helper/hex], [types/encoding.go] and the text forms of
      [types/types.go].  [Validators]: [validators].
    - [Snapshot], [SnapshotSpec]: votes and snapshots, and the poll per height
      they implement.
    - [IbftSigner], [IbftSignerSpec]: the extra data, the seals and the two kinds
      of signers.
    - [Staking], [StakingSpec]: the predeployed contract.
      [ContractStore]: [contracts/staking] and [validators/store/contract].
    - [IbftFork], [IbftForkSpec]: forks, hooks and the fork manager.  [Ibft],
      [IbftSpec]: quorums, proposers, header verification, messages.
    - [IbftBuild]: building, judging and inserting blocks.  [ExecutorFrame]: what a transaction does, does not depend on what the
      block tried before.  [IbftBuildSpec]: built blocks are valid, and the pool
      implements the interface of the proposer.
    - [IbftOperator]: the command [ibft switch] and the operator service, with their
      properties.  [IbftExample]: instances of the classes and a small network.
    - [Syncer], [SyncerSpec]: [syncer], its map of peers, what it serves and what
      it receives, and the turns of its loop.  [Archive], [ArchiveSpec]:
      [archive], [Export] of [server/system_service.go] and [helper/progress].
    - [GoHeapIndex]: Go's heap over items that know their index.  [JsonTypes]:
      the values, block numbers and queries of [jsonrpc/types.go], [codec.go],
      [query.go].  [Filters]: [filter_manager.go], each critical section one
      operation, and the requests of [dispatcher.go]; [FiltersSpec]: its runs, and
      batches.  [EthEndpoint]: [eth_endpoint.go], [txpool_endpoint.go], [helper.go]
      and the hub; [EthEndpointSpec]: what they answer.
    - [Tracer]: [state/runtime/tracer/structtracer], the executor and the interpreter
      with a tracer, [debug_endpoint.go] and the traces of the hub, with their
      properties.
    - [Network]: [connections.go], [dial], [bootnodes.go], [server*.go],
      [identity] and [discovery] of [network]; the handler of a connection is cut
      where other goroutines may run.  [NetworkSpec]: its interleavings.
    - [NodeExample]: two nodes, one ahead of the other, their endpoints and traces.

    ** What the theorems show

    - Pool: in every reachable state the promoted transactions of an account
      have consecutive nonces up to the next expected one, the gauge and the
      counters are the sums they stand for, no promotion is lost and no handler
      meets a missing account; [promote], [reset], [Prepare], [Drop] and
      [validateTx] do exactly what they are for.
    - Machine: the word instructions compute 256-bit arithmetic; valid jumps are
      exactly the [JUMPDEST] bytes outside push data; only seven instructions
      can panic; every run ends, spends at most its gas and gives its buffers
      back clear.
    - State: reads see writes; a revert restores everything whatever came
      between.  The trie answers as a finite map under any run of operations, its
      root is a function of that map and, unless hashes collide, determines it;
      what a block leaves in its [Txn] is what the next one reads at the root
      [Commit] returns.  The fast hasher of lists computes the trie's root.
    - Chain: a node that verifies blocks, writes them, reads and restarts in any
      order is an append-only list of linked blocks, which its database, its
      caches and its reads all tell; a block it accepts is stored with receipts
      that match its header; given headers in any order [WriteHeaders] returns
      and the head is the heaviest; the gas limit converges to the target.  The
      key-value database returns what was written to each record, and blocks
      decode to what was encoded.
    - Transactions: applying one ends; gas used and left add up; the money in
      all accounts never grows; a failed transaction only pays; a refused one
      leaves no trace in the state.  Blocks: gas within the limit, receipts that
      add up, no new money.
    - Consensus: a block built by a proposer, whatever transactions it tried and
      gave up, is valid for every validator at the same parent; two final headers
      of a height share more signers than may be faulty; a header sealed by its
      proposer and a quorum verifies and keeps its hash; proposers take turns.
    - Validator sets: the store of snapshots, sparse, searched by bisection and
      pruned, reads at every height as the poll of that height; snapshots stay
      well typed; a set changes by one candidate and by a majority of its members.
      A proposal that the operator service accepts becomes the vote of the node, and a
      switch of consensus changes no height before it.
      Under proof of stake the set is the contract's answer at the end of the
      epoch before, and the predeployed storage is laid out as Solidity expects.
    - Synchronisation: a node that asks a peer ahead of it ends with the ledger of
      the peer; peers that announce more than they deliver are given up one by
      one, so a peer that delivers is reached after at most one turn per peer.
      Archives: a chain exported, written to a file and restored on a node that
      has a prefix of it is the chain again.
    - JSON-RPC: on a node that holds a ledger the endpoints answer with its blocks,
      transactions and receipts, and with the accounts, code and storage that a
      committed block left; an estimate of gas ends, the gas it answers suffices
      and one unit less does not; a query for logs gives exactly the logs that
      match; however filters are polled, each block and each matching log since
      the filter was made is told once and in order, and the heap of timeouts,
      the map of filters and their indices agree in every state; a batch of
      requests is its requests one after the other; the endpoints of the pool show
      what it holds.
    - Traces: a transaction with a tracer does what it does without, and the result
      of the trace is its result; the trace of a block is those of its
      transactions, applied one after the other.
    - Network: whatever the handlers of connections, disconnections and dials do in
      between, the counters are the numbers of connections and handshakes there
      are, and every peer in the table has shaken hands on the same chain; the
      limits hold up to the handlers between check and mark; the dial queue
      hands out the most urgent task.
    - Text: bytes, numbers, hashes and addresses are read back from their text.
    - Contracts and signatures: BLAKE2b equals RFC 7693, modular exponentiation
      is exact, prices are kept exactly; the recovered sender is the signer; the
      bloom filter misses no log.
    - Divergences, as theorems about concrete runs: a test of the bloom filter
      that looks at the wrong bit, panics of [RETURNDATACOPY] and of calls, a
      refund counter that wraps, a code cache that outlives its contract, a gas
      pool drained by refused transactions, signature checks on byte strings of
      different lengths, a canonical index left behind by a deep reorganisation,
      an average gas price below zero, a trie deletion that takes another key, a
      header without parent seals that panics, an oversized transaction that
      leaves a receipt without a transaction, legacy quorums that do not meet, a
      missing status that panics the syncer, a skipped peer that is never asked
      again, archives whose sizes panic the reader or whose end is made up, limits
      that two handlers at once exceed, a wake-up of the dial queue that is lost,
      a deleted peer that is dialed, a search for bootnodes that spins, a null query
      and a short subscription that stop the node, a request for a trace that calls
      a nil function, traces that swap slots and values, leak refunds, lose
      timeouts, senders and a failure, a switch to an empty validator set, a
      snapshot of two heights, queued transactions that are not shown.

    ** Bounds and fuel

    [Run_loop] takes as many turns as fuel: every turn that goes on has paid at
    least one unit ([Run_turn_spec]), so fuel above the gas is enough
    ([Run_loop_ends]) and more changes nothing ([Run_loop_fuel]); the executor
    gives [S gas].  Before EIP-150 the price of a call wraps (a theorem of
    [EvmSpec]), so this is proved for the rules from EIP-150 on.  [Callx] takes
    1026: a transaction's call is at depth 1 and depth 1026 is refused
    ([Callx_ok]).  Gas is below 2^63, as the block's limit goes through an
    [int64]; the total of all balances is below 2^256.  The loops of the pool
    and of the bitmap consume a list, whose length is their fuel.

    The recursions of the trie take [trie_fuel], twice the length of the key and
    three: a turn that loads a node from storage consumes none of the key, but
    the node loaded is not a reference again.  An epoch of the trie, a [uint32],
    counts the commits, fewer than 2^32.  [groups] has eight rounds, for the 128
    values of the fast hasher.  [handleReorg] walks at most as many headers as
    the greater number of the two heads, which is enough where numbers go up by
    one ([walk_down_ok], [walk_both_ok]), and [GetHashHelper] counts its own
    number down.  The bisections of the snapshots have the length of their list.
    The loop of [writeTransactions] takes as many turns as pass before its
    deadline, any number: the theorems hold for all of them.

    [Export] has two turns more than the number of the head, and the reader of
    an archive one more than there are bytes, since a value has at least one.  The
    messages a stream still takes ([room], [accepted]) and the blocks read before
    an interrupt ([patience]) are arguments; the theorems ask for enough of them.
    A slice of 2^48 bytes or more cannot be made ([maxAlloc], the limit of the
    Go runtime on 64-bit systems).

    The loop over the blocks of a query has two turns more than the head's number,
    and a walk over the stream of blocks one more than it has elements.  The search
    of [EstimateGas] has 66 turns, enough for ceilings below 2^63, whose range it
    halves.  The search for a bootnode takes one random number per turn, any list
    of them: it may go on for ever.

    ** Not modelled

    [PostHook] (nothing sets it), logging and metrics.  When the timeout of a
    trace passes: the theorems are about traces that are not cancelled.  Memory
    exhaustion.  Goroutine scheduling inside a critical section.  I/O errors of
    LevelDB: a database is a finite map.  A header is a value: no caller of
    [blockchain] writes to a header after handing it over.  The rounds of IBFT
    are those of go-ibft, another package: the development has the backend it
    calls, not the goroutine that starts it ([consensus.go], [transport.go]).
    JSON, the files of the snapshots and gRPC are input and output.
    Of synchronisation and archives the gossip, the gRPC streams and the
    goroutines are not modelled.  Of the network the host of libp2p (sockets,
    encryption, the peer store), gossip, gRPC and the event bus are not: they are
    third-party code, and what they tell is an argument.  Of JSON-RPC the JSON
    text, the sockets and the reflection that finds an endpoint and decodes its
    parameters are not: requests come decoded, and a service is a map of
    functions.  The rest of the command line, the development engines and the
    secrets are files, timers and services around the parts above. *)
From stdpp Require Export prelude gmap list sorting.
From Stdlib Require Export ZArith Lia.

#[global] Open Scope Z_scope.
#[global] Set Default Goal Selector "!".

Declare Scope go_scope.
Delimit Scope go_scope with go.

(** ** Fallible code *)

(** A Go function returning [(T, error)]. *)
Inductive result (E A : Type) :=
| Ok (a : A)
| Err (e : E).
Arguments Ok {E A} a.
Arguments Err {E A} e.

Definition is_ok {E A} (r : result E A) : bool :=
  match r with Ok _ => true | Err _ => false end.

Notation "'let?' x ':=' r 'in' k" :=
  (match r with Ok x => k | Err e => Err e end)
  (at level 10, x pattern, r at level 100, k at level 200) : go_scope.
#[global] Open Scope go_scope.

(** ** Machine integers *)

Definition M64 : Z := 2 ^ 64.
Definition u64 (z : Z) : Z := z mod M64.
Definition add64 (a b : Z) : Z := u64 (a + b).
Definition sub64 (a b : Z) : Z := u64 (a - b).
Definition mul64 (a b : Z) : Z := u64 (a * b).
Definition is_u64 (z : Z) : Prop := 0 <= z < M64.

#[global] Instance is_u64_dec z : Decision (is_u64 z) := _.

Create HintDb go.

Lemma M64_pos : 0 < M64.
Proof. done. Qed.

Lemma u64_range z : is_u64 (u64 z).
Proof. apply Z.mod_pos_bound, M64_pos. Qed.

Lemma u64_small z : is_u64 z → u64 z = z.
Proof. apply Z.mod_small. Qed.

Lemma u64_idemp z : u64 (u64 z) = u64 z.
Proof. apply u64_small, u64_range. Qed.

Lemma u64_add_l a b : u64 (u64 a + b) = u64 (a + b).
Proof. apply Z.add_mod_idemp_l. done. Qed.

Lemma u64_add_r a b : u64 (a + u64 b) = u64 (a + b).
Proof. apply Z.add_mod_idemp_r. done. Qed.

Lemma u64_sub_l a b : u64 (u64 a - b) = u64 (a - b).
Proof. apply Zminus_mod_idemp_l. Qed.

Lemma u64_sub_r a b : u64 (a - u64 b) = u64 (a - b).
Proof. apply Zminus_mod_idemp_r. Qed.

Lemma sub64_ge a b : is_u64 a → is_u64 b → b ≤ a → sub64 a b = a - b.
Proof. unfold sub64, is_u64. intros. apply u64_small. unfold is_u64. lia. Qed.

#[export] Hint Resolve u64_range M64_pos : go.
#[export] Hint Rewrite u64_idemp u64_add_l u64_add_r u64_sub_l u64_sub_r : u64.

(** ** Tactics *)

(** Turn the boolean tests of the code into propositions. *)
Ltac bool_props :=
  repeat match goal with
  | H : _ && _ = true |- _ => apply andb_true_iff in H; destruct H
  | H : _ || _ = false |- _ => apply orb_false_iff in H; destruct H
  | H : negb _ = true |- _ => apply negb_true_iff in H
  | H : negb _ = false |- _ => apply negb_false_iff in H
  | H : (_ <? _) = true |- _ => apply Z.ltb_lt in H
  | H : (_ <? _) = false |- _ => apply Z.ltb_ge in H
  | H : (_ <=? _) = true |- _ => apply Z.leb_le in H
  | H : (_ <=? _) = false |- _ => apply Z.leb_gt in H
  | H : (_ =? _) = true |- _ => apply Z.eqb_eq in H
  | H : (_ =? _) = false |- _ => apply Z.eqb_neq in H
  | H : (_ >? _) = _ |- _ => rewrite Z.gtb_ltb in H
  | H : (_ >=? _) = _ |- _ => rewrite Z.geb_leb in H
  | H : bool_decide _ = true |- _ => apply bool_decide_eq_true in H
  | H : bool_decide _ = false |- _ => apply bool_decide_eq_false in H
  end.

(** Case analysis on the control flow of the goal and of the hypotheses. *)
Ltac go_cases := repeat (case_match; simplify_eq/=; try done); bool_props.

(** ** Sums over lists *)

Definition sumZ {A} (f : A → Z) (l : list A) : Z := foldr (λ x acc, f x + acc) 0 l.

Section sumZ.
Context {A : Type} (f : A → Z).

Lemma sumZ_app l k : sumZ f (l ++ k) = sumZ f l + sumZ f k.
Proof. induction l as [|x l IH]; simpl; [done|]. fold (sumZ f). rewrite IH. lia. Qed.

Lemma sumZ_cons x l : sumZ f (x :: l) = f x + sumZ f l.
Proof. done. Qed.

Lemma sumZ_nonneg l : (∀ x, x ∈ l → 0 ≤ f x) → 0 ≤ sumZ f l.
Proof.
  induction l as [|x l IH]; intros H; [done|].
  rewrite sumZ_cons. pose proof (H x ltac:(set_solver)).
  assert (0 ≤ sumZ f l) by (apply IH; set_solver). lia.
Qed.

Lemma sumZ_ext (g : A → Z) l : (∀ x, x ∈ l → f x = g x) → sumZ f l = sumZ g l.
Proof.
  induction l as [|x l IH]; intros H; [done|].
  rewrite !sumZ_cons. simpl. rewrite (H x), IH; set_solver.
Qed.

#[global] Instance sumZ_Permutation : Proper ((≡ₚ) ==> (=)) (sumZ f).
Proof.
  induction 1; rewrite ?sumZ_cons; try done; try lia; congruence.
Qed.
End sumZ.

(** ** Intervals of integers *)

(** The part of an interval at or above a bound. *)
Lemma filter_seqZ_ge (n lo len : Z) :
  0 ≤ len → filter (λ x, n ≤ x) (seqZ lo len) = seqZ (lo `max` n) (lo + len - lo `max` n).
Proof.
  intros Hlen. revert lo. pattern len. apply natlike_ind; [|clear len Hlen|done].
  - intros lo. unfold seqZ at 2. rewrite Z2Nat.nonpos by lia. done.
  - intros len Hlen IH lo. rewrite (seqZ_cons lo) by lia. rewrite filter_cons.
    replace (Z.pred (Z.succ len)) with len by lia.
    rewrite IH. case_decide.
    + rewrite (Z.max_l lo n), (Z.max_l (Z.succ lo) n) by lia.
      symmetry. rewrite seqZ_cons by lia. f_equal. f_equal; lia.
    + rewrite (Z.max_r lo n), (Z.max_r (Z.succ lo) n) by lia. f_equal; lia.
Qed.

(** ** Filtering lists *)

Lemma filter_all {A} (P : A → Prop) `{!∀ x, Decision (P x)} (l : list A) :
  (∀ x, x ∈ l → P x) → filter P l = l.
Proof.
  induction l as [|x l IH]; intros Hl; [done|].
  rewrite filter_cons_True by set_solver. f_equal. set_solver.
Qed.

Lemma filter_none {A} (P : A → Prop) `{!∀ x, Decision (P x)} (l : list A) :
  (∀ x, x ∈ l → ¬ P x) → filter P l = [].
Proof.
  induction l as [|x l IH]; intros Hl; [done|].
  rewrite filter_cons_False by set_solver. set_solver.
Qed.

(** ** Signed 64-bit integers *)

Definition s64 (z : Z) : Z := (z + 2 ^ 63) mod M64 - 2 ^ 63.

Lemma s64_small z : - 2 ^ 63 ≤ z < 2 ^ 63 → s64 z = z.
Proof. intros. unfold s64, M64. rewrite Z.mod_small; lia. Qed.

Lemma s64_add_l a b : s64 (s64 a + b) = s64 (a + b).
Proof.
  unfold s64. f_equal. replace (_ - 2 ^ 63 + b + 2 ^ 63) with ((a + 2 ^ 63) mod M64 + b) by lia.
  rewrite Z.add_mod_idemp_l by done. f_equal. lia.
Qed.

(** ** Sums over finite maps *)

Definition mapsum `{MapFold K V MV} (f : V → Z) (m : MV) : Z :=
  sumZ (λ kv, f kv.2) (map_to_list m).

Section mapsum.
Context `{FinMap K M} {V : Type} (f : V → Z).

Lemma mapsum_empty : mapsum f (∅ : M V) = 0.
Proof. unfold mapsum. by rewrite map_to_list_empty. Qed.

Lemma mapsum_insert_None (m : M V) k v :
  m !! k = None → mapsum f (<[k:=v]> m) = f v + mapsum f m.
Proof. intros Hk. unfold mapsum. by rewrite map_to_list_insert. Qed.

Lemma mapsum_delete (m : M V) k v :
  m !! k = Some v → mapsum f m = f v + mapsum f (delete k m).
Proof. intros Hk. unfold mapsum. by rewrite <- (map_to_list_delete m k v). Qed.

Lemma mapsum_insert_Some (m : M V) k v w :
  m !! k = Some v → mapsum f (<[k:=w]> m) = mapsum f m - f v + f w.
Proof.
  intros Hk. rewrite (mapsum_delete m k v Hk).
  rewrite <- insert_delete_eq, mapsum_insert_None by apply lookup_delete_eq. lia.
Qed.
End mapsum.
