(* ===== verification/GoHeap.v ===== *)
(** The binary heap of Go's standard library [container/heap], which
    [txpool/queue.go] instantiates twice.  [Init], [Push], [Pop], [up] and
    [down] are the library's loops on a slice, parametric in the slice's
    [Less]; the theorems say that on a strict weak order they implement a
    priority queue on multisets. *)
From S2P Require Import Prelude.

Local Open Scope nat_scope.

(** What [Less] has to satisfy for the heap to be a priority queue. *)
Class StrictWeakOrder {A} (less : A → A → bool) : Prop := {
  less_asym x y : less x y = true → less y x = false;
  less_negtrans x y z : less x y = false → less y z = false → less x z = false;
}.

Section heap.
Context {A : Type} (less : A → A → bool).

(** [h.Less(i, j)]; out of range indices do not occur (see [parent_lt]). *)
Definition lessAt (h : list A) (i j : nat) : bool :=
  match h !! i, h !! j with
  | Some x, Some y => less x y
  | _, _ => false
  end.

(** [h.Swap(i, j)]. *)
Definition swap (i j : nat) (h : list A) : list A :=
  match h !! i, h !! j with
  | Some x, Some y => <[i:=y]> (<[j:=x]> h)
  | _, _ => h
  end.

Definition parent (j : nat) : nat := (j - 1) / 2.

Fixpoint up (fuel j : nat) (h : list A) : list A :=
  match fuel with
  | O => h
  | S fuel =>
      let i := parent j in
      if (i =? j) || negb (lessAt h j i) then h
      else up fuel i (swap i j h)
  end.

(** [j := j1; if j2 := j1 + 1; j2 < n && h.Less(j2, j1) { j = j2 }]. *)
Definition min_child (i n : nat) (h : list A) : nat :=
  let j1 := 2 * i + 1 in
  let j2 := j1 + 1 in
  if (j2 <? n) && lessAt h j2 j1 then j2 else j1.

Fixpoint down (fuel i n : nat) (h : list A) : list A :=
  match fuel with
  | O => h
  | S fuel =>
      if n <=? 2 * i + 1 then h
      else
        let j := min_child i n h in
        if negb (lessAt h j i) then h
        else down fuel j n (swap i j h)
  end.

(** [for i := n/2 - 1; i >= 0; i-- { down(h, i, n) }]. *)
Fixpoint init_loop (k n : nat) (h : list A) : list A :=
  match k with
  | O => h
  | S i => init_loop i n (down n i n h)
  end.
Definition Init (h : list A) : list A :=
  init_loop (length h / 2) (length h) h.

Definition Push (x : A) (h : list A) : list A :=
  up (S (length h)) (length h) (h ++ [x]).

(** Returns the popped element and the remaining slice; [None] stands for
    the index panic of popping an empty slice. *)
Definition Pop (h : list A) : option (A * list A) :=
  let n := length h - 1 in
  let h' := down n 0 n (swap 0 n h) in
  x ← h' !! n; Some (x, take n h').

(** The heap property: no element is less than its parent. *)
Definition heap (h : list A) : Prop :=
  ∀ c, 0 < c → lessAt h c (parent c) = false.

(** ** Index arithmetic and swaps *)

Lemma parent_lt c : 0 < c → parent c < c.
Proof using. intros. unfold parent. apply Nat.Div0.div_lt_upper_bound; lia. Qed.

Lemma parent_children c i : 0 < c → parent c = i → c = 2 * i + 1 ∨ c = 2 * i + 2.
Proof using.
  unfold parent. intros Hc <-.
  pose proof (Nat.div_mod_eq (c - 1) 2). pose proof (Nat.mod_upper_bound (c - 1) 2).
  lia.
Qed.

Lemma parent_left i : parent (2 * i + 1) = i.
Proof using. unfold parent. rewrite Nat.add_sub, Nat.mul_comm. apply Nat.div_mul. lia. Qed.
Lemma parent_right i : parent (2 * i + 2) = i.
Proof using.
  unfold parent. replace (2 * i + 2 - 1) with (1 + i * 2) by lia.
  rewrite Nat.div_add by lia. reflexivity.
Qed.

(** The transposition of two indices. *)
Definition tr (i j k : nat) : nat :=
  if k =? i then j else if k =? j then i else k.

Lemma swap_lookup i j k h :
  i < length h → j < length h → swap i j h !! k = h !! tr i j k.
Proof using.
  intros [x Hx]%lookup_lt_is_Some_2 [y Hy]%lookup_lt_is_Some_2.
  unfold swap, tr. rewrite Hx, Hy.
  destruct (Nat.eqb_spec k i) as [->|]; [|destruct (Nat.eqb_spec k j) as [->|]].
  - rewrite list_lookup_insert_eq; [done|].
    rewrite length_insert. by eapply lookup_lt_Some.
  - rewrite list_lookup_insert_ne, list_lookup_insert_eq; [done| |done].
    by eapply lookup_lt_Some.
  - by rewrite !list_lookup_insert_ne by done.
Qed.

Lemma length_swap i j h : length (swap i j h) = length h.
Proof using. unfold swap. by repeat case_match; rewrite ?length_insert. Qed.

Lemma swap_Permutation i j h : swap i j h ≡ₚ h.
Proof using.
  unfold swap.
  destruct (h !! i) eqn:?; [|done]. destruct (h !! j) eqn:?; [|done].
  by apply Permutation_insert_swap.
Qed.

Lemma lessAt_swap i j a b h :
  i < length h → j < length h →
  lessAt (swap i j h) a b = lessAt h (tr i j a) (tr i j b).
Proof using. intros. unfold lessAt. by rewrite !swap_lookup. Qed.

(** ** Order facts on indices *)

Context `{!StrictWeakOrder less}.

Lemma less_irrefl x : less x x = false.
Proof using StrictWeakOrder0.
  destruct (less x x) eqn:E; [|done]. rewrite <- E. by apply less_asym.
Qed.

Lemma lessAt_irrefl h i : lessAt h i i = false.
Proof using StrictWeakOrder0. unfold lessAt. case_match; auto using less_irrefl. Qed.

Lemma lessAt_asym h i j : lessAt h i j = true → lessAt h j i = false.
Proof using StrictWeakOrder0.
  unfold lessAt. repeat case_match; auto using less_asym; done.
Qed.

Lemma lessAt_negtrans h i j k :
  j < length h → lessAt h i j = false → lessAt h j k = false → lessAt h i k = false.
Proof using StrictWeakOrder0.
  intros [y Hy]%lookup_lt_is_Some_2. unfold lessAt. rewrite Hy.
  repeat case_match; eauto using less_negtrans.
Qed.

Lemma lessAt_range h i j : lessAt h i j = true → i < length h ∧ j < length h.
Proof using.
  unfold lessAt. destruct (h !! i) eqn:?, (h !! j) eqn:?; try done.
  eauto using lookup_lt_Some.
Qed.

(** ** Sifting up *)

(** Every edge is ordered except the one above [j], and the children of [j]
    are ordered with respect to the parent of [j]. *)
Definition up_inv (h : list A) (j : nat) : Prop :=
  (∀ c, 0 < c → c ≠ j → lessAt h c (parent c) = false) ∧
  (∀ c, 0 < c → 0 < j → parent c = j → lessAt h c (parent j) = false).

Lemma up_inv_step h j :
  j < length h → lessAt h j (parent j) = true → up_inv h j →
  up_inv (swap (parent j) j h) (parent j).
Proof using StrictWeakOrder0.
  intros Hj Hlt [Hedge Hgrand].
  assert (0 < j).
  { destruct j; [|lia]. change (parent 0) with 0 in Hlt. by rewrite lessAt_irrefl in Hlt. }
  pose proof (parent_lt j ltac:(done)) as Hpj.
  set (i := parent j) in *.
  split.
  - intros c Hc Hci. rewrite lessAt_swap by lia. unfold tr.
    pose proof (parent_lt c Hc). specialize (Hedge c Hc).
    destruct (Nat.eqb_spec c i) as [|_]; [done|].
    destruct (Nat.eqb_spec c j) as [->|Hcj].
    { destruct (Nat.eqb_spec (parent j) i) as [_|]; [|done]. by apply lessAt_asym. }
    specialize (Hedge Hcj).
    destruct (Nat.eqb_spec (parent c) i) as [Hpc|].
    { rewrite Hpc in Hedge. apply (lessAt_negtrans _ _ i); [lia|done|by apply lessAt_asym]. }
    destruct (Nat.eqb_spec (parent c) j) as [Hpc|]; [|done]. by apply Hgrand.
  - intros c Hc Hi Hpc. rewrite lessAt_swap by lia. unfold tr.
    pose proof (parent_lt i Hi).
    destruct (Nat.eqb_spec (parent i) i), (Nat.eqb_spec (parent i) j); [lia..|].
    pose proof (parent_lt c Hc).
    destruct (Nat.eqb_spec c i); [lia|].
    destruct (Nat.eqb_spec c j) as [->|Hcj]; [apply Hedge; lia|].
    apply (lessAt_negtrans _ _ i); [lia| |apply Hedge; lia].
    specialize (Hedge c Hc Hcj). by rewrite Hpc in Hedge.
Qed.

Lemma up_heap fuel j h :
  j < fuel → j < length h → up_inv h j → heap (up fuel j h).
Proof using StrictWeakOrder0.
  revert j h. induction fuel as [|fuel IH]; intros j h Hf Hj Hinv; [lia|]. simpl.
  destruct (Nat.eqb_spec (parent j) j) as [Hpj|Hpj]; simpl.
  { assert (j = 0) as ->. { destruct j; [done|]. pose proof (parent_lt (S j)); lia. }
    intros c Hc. apply Hinv; lia. }
  destruct (lessAt h j (parent j)) eqn:Hlt; simpl.
  - apply IH; [|rewrite length_swap|by apply up_inv_step];
      destruct j; try done; pose proof (parent_lt (S j)); lia.
  - intros c Hc. destruct (decide (c = j)) as [->|]; [done|]. by apply Hinv.
Qed.

Lemma up_Permutation fuel j h : up fuel j h ≡ₚ h.
Proof using.
  revert j h. induction fuel as [|fuel IH]; intros j h; simpl; [done|].
  case_match; [done|]. by rewrite IH, swap_Permutation.
Qed.

(** ** Sifting down *)

(** Below bound [n] every edge is ordered except those from [i] to its
    children, which are ordered with respect to the parent of [i]. *)
Definition down_inv (h : list A) (i n : nat) : Prop :=
  (∀ c, 0 < c < n → parent c ≠ i → lessAt h c (parent c) = false) ∧
  (∀ c, 0 < c < n → 0 < i → parent c = i → lessAt h c (parent i) = false).

(** The child [down] compares with is minimal among the children. *)
Lemma down_child h i n :
  let j := min_child i n h in
  2 * i + 1 < n →
  i < j < n ∧ parent j = i ∧
  ∀ c, 0 < c < n → parent c = i → lessAt h c j = false.
Proof using StrictWeakOrder0.
  intros j Hj1. subst j. unfold min_child. set (j1 := 2 * i + 1) in *.
  destruct (Nat.ltb_spec (j1 + 1) n); simpl;
    [destruct (lessAt h (j1 + 1) j1) eqn:Hl|].
  - split; [lia|]. split.
    { subst j1. rewrite <- Nat.add_assoc. apply parent_right. }
    intros c Hc Hp. destruct (parent_children c i) as [->| ->]; [lia|done|..].
    + by apply lessAt_asym.
    + replace (2 * i + 2) with (j1 + 1) by lia. apply lessAt_irrefl.
  - split; [lia|]. split; [apply parent_left|].
    intros c Hc Hp. destruct (parent_children c i) as [->| ->]; [lia|done|..].
    + apply lessAt_irrefl.
    + by replace (2 * i + 2) with (j1 + 1) by lia.
  - split; [lia|]. split; [apply parent_left|].
    intros c Hc Hp. destruct (parent_children c i) as [->| ->]; [lia|done|..].
    + apply lessAt_irrefl.
    + lia.
Qed.

Lemma down_inv_step h i j n :
  n ≤ length h → i < j < n → parent j = i →
  (∀ c, 0 < c < n → parent c = i → lessAt h c j = false) →
  lessAt h j i = true → down_inv h i n → down_inv (swap i j h) j n.
Proof using StrictWeakOrder0.
  intros Hn Hij Hpj Hmin Hlt [Hedge Hgrand]. split.
  - intros c Hc Hpc. rewrite lessAt_swap by lia. unfold tr.
    pose proof (parent_lt c ltac:(lia)).
    destruct (Nat.eqb_spec (parent c) j); [done|].
    destruct (Nat.eqb_spec c i) as [->|].
    { destruct (Nat.eqb_spec (parent i) i); [lia|]. apply Hgrand; lia. }
    destruct (Nat.eqb_spec c j) as [->|].
    { destruct (Nat.eqb_spec (parent j) i); [|done]. by apply lessAt_asym. }
    destruct (Nat.eqb_spec (parent c) i); [by apply Hmin|by apply Hedge].
  - intros c Hc _ Hpc. rewrite lessAt_swap by lia. unfold tr.
    pose proof (parent_lt c ltac:(lia)).
    destruct (Nat.eqb_spec (parent j) i); [|done].
    destruct (Nat.eqb_spec c i); [lia|]. destruct (Nat.eqb_spec c j); [lia|].
    rewrite <- Hpc. apply Hedge; lia.
Qed.

(** The heap property of the first [n] elements. *)
Definition heap_below (h : list A) (n : nat) : Prop :=
  ∀ c, 0 < c < n → lessAt h c (parent c) = false.

Lemma down_heap fuel i n h :
  n ≤ fuel + i → n ≤ length h → down_inv h i n → heap_below (down fuel i n h) n.
Proof using StrictWeakOrder0.
  revert i h. induction fuel as [|fuel IH]; intros i h Hf Hn Hinv; cbn [down].
  { intros c Hc. apply Hinv; [done|]. pose proof (parent_lt c); lia. }
  destruct (Nat.leb_spec n (2 * i + 1)).
  { intros c Hc. destruct (decide (parent c = i)) as [Hp|]; [|by apply Hinv].
    destruct (parent_children c i); lia. }
  destruct (down_child h i n) as (Hij & Hpj & Hmin); [done|].
  set (j := min_child i n h) in *.
  destruct (lessAt h j i) eqn:Hlt; cbn [negb].
  - apply IH; [lia|by rewrite length_swap|]. by apply down_inv_step.
  - intros c Hc. destruct (decide (parent c = i)) as [Hp|]; [|by apply Hinv].
    rewrite Hp. apply (lessAt_negtrans _ _ j); [lia|by apply Hmin|done].
Qed.

Lemma down_Permutation fuel i n h : down fuel i n h ≡ₚ h.
Proof using.
  revert i h. induction fuel as [|fuel IH]; intros i h; cbn [down]; [done|].
  case_match; [done|]. case_match; [done|]. by rewrite IH, swap_Permutation.
Qed.

Lemma length_down fuel i n h : length (down fuel i n h) = length h.
Proof using. by rewrite down_Permutation. Qed.

(** [down] leaves the elements at and above its bound in place. *)
Lemma down_lookup_ge fuel i n h k :
  n ≤ length h → n ≤ k → i < n → down fuel i n h !! k = h !! k.
Proof using StrictWeakOrder0.
  revert i h. induction fuel as [|fuel IH]; intros i h Hn Hk Hi; cbn [down]; [done|].
  destruct (Nat.leb_spec n (2 * i + 1)); [done|].
  destruct (down_child h i n) as (Hij & Hpj & _); [done|].
  set (j := min_child i n h) in *.
  case_match; [done|]. rewrite IH, swap_lookup by (rewrite ?length_swap; lia).
  unfold tr. by destruct (Nat.eqb_spec k i), (Nat.eqb_spec k j); try lia.
Qed.

(** ** The priority queue *)

Lemma heap_below_all h : heap_below h (length h) → heap h.
Proof using.
  intros Hb c Hc. destruct (decide (c < length h)); [by apply Hb|].
  unfold lessAt. by rewrite lookup_ge_None_2 by lia.
Qed.

(** The root of a heap is minimal. *)
Lemma heap_root h x y : heap h → h !! 0 = Some x → y ∈ h → less y x = false.
Proof using StrictWeakOrder0.
  intros Hh Hx [c Hy]%list_elem_of_lookup.
  revert y Hy. induction (lt_wf c) as [c _ IH]. intros y Hy.
  destruct (decide (c = 0)) as [->|]. { simplify_eq. apply less_irrefl. }
  pose proof (parent_lt c ltac:(lia)).
  destruct (lookup_lt_is_Some_2 h (parent c)) as [p Hp].
  { apply lookup_lt_Some in Hy. lia. }
  apply less_negtrans with p; [|by apply (IH (parent c))].
  specialize (Hh c ltac:(lia)). unfold lessAt in Hh. by rewrite Hy, Hp in Hh.
Qed.

Lemma heap_nil : heap [].
Proof using. intros c _. done. Qed.

Lemma Push_Permutation x h : Push x h ≡ₚ x :: h.
Proof using.
  unfold Push. rewrite up_Permutation. symmetry. apply Permutation_cons_append.
Qed.

Lemma Push_heap x h : heap h → heap (Push x h).
Proof using StrictWeakOrder0.
  intros Hh. apply up_heap; [lia|rewrite length_app; simpl; lia|]. split.
  - intros c Hc Hne. specialize (Hh c Hc). revert Hh. unfold lessAt.
    pose proof (parent_lt c Hc).
    destruct (decide (c < length h)).
    + by rewrite !lookup_app_l by lia.
    + by rewrite (lookup_ge_None_2 (h ++ [x]) c) by (rewrite length_app; simpl; lia).
  - intros c Hc _ Hp. pose proof (parent_lt c Hc). unfold lessAt.
    by rewrite (lookup_ge_None_2 (h ++ [x]) c) by (rewrite length_app; simpl; lia).
Qed.

(** Popping a non-empty heap returns a minimal element and a heap of the
    others: the contract of [container/heap]. *)
Lemma Pop_spec h :
  h ≠ [] → heap h →
  ∃ x h', Pop h = Some (x, h') ∧ h !! 0 = Some x ∧ h ≡ₚ x :: h' ∧ heap h' ∧
          (∀ y, y ∈ h → less y x = false).
Proof using StrictWeakOrder0.
  intros Hne Hh. set (n := length h - 1).
  assert (Hlen : length h = S n) by (destruct h; [done|simpl in *; lia]).
  destruct (lookup_lt_is_Some_2 h 0) as [x Hx]; [lia|].
  set (h2 := down n 0 n (swap 0 n h)).
  assert (Hl2 : length h2 = S n) by (unfold h2; by rewrite length_down, length_swap).
  assert (Hlast : h2 !! n = Some x).
  { unfold h2. destruct (decide (n = 0)) as [Hn0|].
    - rewrite Hn0. unfold swap. cbn [down]. rewrite Hx. by rewrite !list_insert_id by (by rewrite ?list_insert_id).
    - rewrite down_lookup_ge, swap_lookup by (rewrite ?length_swap; lia).
      unfold tr. destruct (Nat.eqb_spec n 0); [lia|]. by rewrite Nat.eqb_refl. }
  exists x, (take n h2). split; [|split; [done|split; [|split]]].
  - unfold Pop. fold n. fold h2. by rewrite Hlast.
  - trans h2; [unfold h2; by rewrite down_Permutation, swap_Permutation|].
    rewrite <- (take_drop_middle h2 n x Hlast) at 1.
    rewrite drop_ge by lia. symmetry. apply Permutation_cons_append.
  - apply heap_below_all. rewrite length_take_le by lia. intros c Hc.
    assert (Hb : heap_below h2 n).
    { apply down_heap; [lia|rewrite length_swap; lia|]. split; [|lia].
      intros d Hd Hpd. rewrite lessAt_swap by lia. pose proof (parent_lt d). unfold tr.
      destruct (Nat.eqb_spec d 0), (Nat.eqb_spec d n), (Nat.eqb_spec (parent d) 0),
        (Nat.eqb_spec (parent d) n); try lia. apply Hh. lia. }
    specialize (Hb c Hc). pose proof (parent_lt c). revert Hb. unfold lessAt.
    by rewrite !lookup_take_lt by lia.
  - intros y Hy. by eapply heap_root.
Qed.

Lemma Pop_nil : Pop [] = None.
Proof using. done. Qed.

End heap.

#[export] Hint Resolve heap_nil Push_heap : go.
