(* ===== verification/Types.v ===== *)
(** The data of package [types]: addresses, hashes, transactions, headers,
    and the byte conversions the other components use; then the fork schedule of
    [chain/params.go].

    An [Address] ([[20]byte]) and a [Hash] ([[32]byte]) are the integers their
    bytes spell in big-endian order; a byte is an integer in [0, 255].  Keccak
    and the RLP writer ([fastrlp]) live outside the repository: they are the
    fields of the class [External]. *)
From S2P Require Import Prelude.

Abbreviation Address := Z (only parsing).
Abbreviation Hash := Z (only parsing).
Abbreviation bytes := (list Z) (only parsing).

Definition HashLength : nat := 32.
Definition AddressLength : nat := 20.
Definition ZeroAddress : Address := 0.
Definition ZeroHash : Hash := 0.

(** ** Big-endian bytes *)

(** [big.Int.SetBytes]. *)
Definition SetBytes (b : bytes) : Z := foldl (λ acc d, acc * 256 + d) 0 b.

(** The [n] low bytes of [z], most significant first. *)
Fixpoint be_bytes (n : nat) (z : Z) : bytes :=
  match n with
  | O => []
  | S n => be_bytes n (z / 256) ++ [z mod 256]
  end.

(** [big.Int.BitLen] and [Bytes]: both ignore the sign. *)
Definition BitLen (z : Z) : Z := if z =? 0 then 0 else Z.log2 (Z.abs z) + 1.
Definition Bytes (z : Z) : bytes := be_bytes (Z.to_nat ((BitLen z + 7) / 8)) (Z.abs z).

(** [copy(h[32-min:], b[len(b)-min:])] on a zeroed array: the last bytes of
    [b], padded on the left. *)
Definition BytesToHash (b : bytes) : Hash :=
  SetBytes (drop (length b - HashLength) b).
Definition BytesToAddress (b : bytes) : Address :=
  SetBytes (drop (length b - AddressLength) b).

Definition HashBytes (h : Hash) : bytes := be_bytes HashLength h.
Definition AddressBytes (a : Address) : bytes := be_bytes AddressLength a.

(** ** The RLP writer *)

(** The values built with [fastrlp.Arena], one constructor per call. *)
Inductive rlp :=
| NewBytes (b : bytes)
| NewUint (n : Z)
| NewBigInt (z : option Z)
| NewNull
| NewNullArray
| NewArray (l : list rlp).

Class External := {
  (** [fastrlp.Value.MarshalTo]. *)
  MarshalTo : rlp → bytes;
  (** [keccak.Keccak256]. *)
  Keccak256 : bytes → Hash;
}.

(** ** Transactions *)

(** [types.Transaction].  The field [size], an atomic cache of [Size], is the
    function [Size] below. *)
Record Transaction := mkTransaction {
  tx_Nonce : Z;
  tx_GasPrice : Z;
  tx_Gas : Z;
  tx_To : option Address;
  tx_Value : Z;
  tx_Input : bytes;
  tx_V : option Z;
  tx_R : option Z;
  tx_S : option Z;
  tx_Hash : Hash;
  tx_From : Address;
}.

#[global] Instance Transaction_eq_dec : EqDecision Transaction.
Proof. solve_decision. Defined.

Definition set_Hash (h : Hash) (t : Transaction) : Transaction :=
  mkTransaction (tx_Nonce t) (tx_GasPrice t) (tx_Gas t) (tx_To t) (tx_Value t)
    (tx_Input t) (tx_V t) (tx_R t) (tx_S t) h (tx_From t).
Definition set_From (a : Address) (t : Transaction) : Transaction :=
  mkTransaction (tx_Nonce t) (tx_GasPrice t) (tx_Gas t) (tx_To t) (tx_Value t)
    (tx_Input t) (tx_V t) (tx_R t) (tx_S t) (tx_Hash t) a.

Definition IsContractCreation (t : Transaction) : bool :=
  match tx_To t with None => true | Some _ => false end.

Definition Cost (t : Transaction) : Z := tx_GasPrice t * tx_Gas t + tx_Value t.

Definition ExceedsBlockGasLimit (t : Transaction) (blockGasLimit : Z) : bool :=
  tx_Gas t >? blockGasLimit.

Definition IsUnderpriced (t : Transaction) (priceLimit : Z) : bool :=
  tx_GasPrice t <? priceLimit.

(** [Transaction.MarshalRLPWith]. *)
Definition tx_MarshalRLPWith (t : Transaction) : rlp :=
  NewArray [
    NewUint (tx_Nonce t);
    NewBigInt (Some (tx_GasPrice t));
    NewUint (tx_Gas t);
    match tx_To t with Some a => NewBytes (AddressBytes a) | None => NewNull end;
    NewBigInt (Some (tx_Value t));
    NewBytes (tx_Input t);
    NewBigInt (tx_V t);
    NewBigInt (tx_R t);
    NewBigInt (tx_S t) ].

Section transaction.
Context `{External}.

Definition tx_MarshalRLP (t : Transaction) : bytes := MarshalTo (tx_MarshalRLPWith t).
Definition Size (t : Transaction) : Z := Z.of_nat (length (tx_MarshalRLP t)).
Definition ComputeHash (t : Transaction) : Transaction :=
  set_Hash (Keccak256 (MarshalTo (tx_MarshalRLPWith t))) t.
End transaction.

(** ** Headers and blocks *)

Record Header := mkHeader {
  hd_ParentHash : Hash;
  hd_Sha3Uncles : Hash;
  hd_Miner : bytes;
  hd_StateRoot : Hash;
  hd_TxRoot : Hash;
  hd_ReceiptsRoot : Hash;
  hd_LogsBloom : bytes;
  hd_Difficulty : Z;
  hd_Number : Z;
  hd_GasLimit : Z;
  hd_GasUsed : Z;
  hd_Timestamp : Z;
  hd_ExtraData : bytes;
  hd_MixHash : Hash;
  hd_Nonce : bytes;
  hd_Hash : Hash;
}.

Record Block := mkBlock {
  bk_Header : Header;
  bk_Transactions : list Transaction;
  bk_Uncles : list Header;
}.

(** [big.Int.Uint64]: the low 64 bits of the absolute value. *)
Definition Uint64 (z : Z) : Z := u64 (Z.abs z).
(** [big.Int.IsUint64]. *)
Definition IsUint64 (z : Z) : bool := (0 <=? z) && (z <? M64).

(** ** Bytes and integers *)

Lemma length_be_bytes n z : length (be_bytes n z) = n.
Proof. revert z. induction n as [|n IH]; intros z; simpl; [done|]. rewrite length_app, IH. simpl. lia. Qed.

Lemma SetBytes_snoc b d : SetBytes (b ++ [d]) = SetBytes b * 256 + d.
Proof. unfold SetBytes. by rewrite foldl_app. Qed.

Lemma SetBytes_be_bytes n z : SetBytes (be_bytes n z) = z mod 256 ^ Z.of_nat n.
Proof.
  revert z. induction n as [|n IH]; intros z; cbn [be_bytes]; [by rewrite Z.mod_1_r|].
  rewrite SetBytes_snoc, IH. rewrite Nat2Z.inj_succ, Z.pow_succ_r by lia.
  rewrite Z.rem_mul_r by lia. lia.
Qed.

Definition byte_range (d : Z) : Prop := 0 ≤ d < 256.

Lemma be_bytes_range n z : Forall byte_range (be_bytes n z).
Proof.
  revert z. induction n as [|n IH]; intros z; simpl; [done|].
  apply Forall_app. split; [done|]. repeat constructor; apply Z.mod_pos_bound; lia.
Qed.

Lemma SetBytes_range b : Forall byte_range b → 0 ≤ SetBytes b < 256 ^ Z.of_nat (length b).
Proof.
  induction b as [|d b IH] using rev_ind; intros Hb; [done|].
  apply Forall_app in Hb as [Hb Hd]. inversion Hd as [|? ? [? ?] _]; subst.
  rewrite SetBytes_snoc, length_app. simpl.
  rewrite Nat2Z.inj_add, Z.pow_add_r by lia. change (256 ^ Z.of_nat 1) with 256.
  specialize (IH Hb). nia.
Qed.

Lemma be_bytes_SetBytes b : Forall byte_range b → be_bytes (length b) (SetBytes b) = b.
Proof.
  induction b as [|d b IH] using rev_ind; intros Hb; [done|].
  apply Forall_app in Hb as [Hb Hd]. inversion Hd as [|? ? [? ?] _]; subst.
  rewrite SetBytes_snoc, length_app.
  replace (length b + length [d])%nat with (S (length b)) by (simpl; lia). cbn [be_bytes].
  rewrite Z.div_add_l, (Z.div_small d), Z.add_0_r by lia. simpl. rewrite IH by done.
  rewrite Z.add_comm, Z.mod_add, Z.mod_small by lia. done.
Qed.

Lemma be_bytes_app n m z : be_bytes (n + m) z = be_bytes n (z / 256 ^ Z.of_nat m) ++ be_bytes m z.
Proof.
  revert z. induction m as [|m IH]; intros z.
  { rewrite Nat.add_0_r, Z.div_1_r. simpl. by rewrite app_nil_r. }
  rewrite Nat.add_succ_r. cbn [be_bytes]. rewrite IH, app_assoc. do 3 f_equal.
  rewrite Z.div_div by lia. f_equal. rewrite Nat2Z.inj_succ, Z.pow_succ_r by lia. done.
Qed.

Lemma BitLen_ltb n x : 0 ≤ n → (n <? BitLen x) = (2 ^ n <=? Z.abs x).
Proof.
  intros Hn. unfold BitLen. destruct (Z.eqb_spec x 0) as [->|Hx].
  - pose proof (Z.pow_pos_nonneg 2 n ltac:(lia) Hn).
    rewrite (proj2 (Z.ltb_ge n 0)), (proj2 (Z.leb_gt (2 ^ n) (Z.abs 0))); simpl; try done; lia.
  - pose proof (Z.log2_le_pow2 (Z.abs x) n ltac:(lia)).
    apply eq_true_iff_eq. rewrite Z.ltb_lt, Z.leb_le. lia.
Qed.

Lemma BitLen_nonneg x : 0 ≤ BitLen x.
Proof. unfold BitLen. pose proof (Z.log2_nonneg (Z.abs x)). case_match; lia. Qed.

Lemma Bytes_value z : 0 ≤ z → SetBytes (Bytes z) = z.
Proof.
  intros Hz. unfold Bytes. rewrite SetBytes_be_bytes, Z.abs_eq by done.
  pose proof (BitLen_nonneg z) as Hn. set (k := (BitLen z + 7) / 8).
  assert (BitLen z ≤ 8 * k).
  { unfold k. pose proof (Z.mul_succ_div_gt (BitLen z + 7) 8 ltac:(lia)). lia. }
  assert (0 ≤ k) by (apply Z.div_pos; lia).
  rewrite Z2Nat.id by done. change 256 with (2 ^ 8). rewrite <- Z.pow_mul_r by lia.
  apply Z.mod_small. split; [done|]. pose proof (BitLen_ltb (8 * k) z ltac:(lia)) as Hb.
  rewrite (proj2 (Z.ltb_ge _ _)), Z.abs_eq in Hb by lia. symmetry in Hb. bool_props. done.
Qed.

Lemma Bytes_length z n : 0 ≤ z < 256 ^ Z.of_nat n → (length (Bytes z) ≤ n)%nat.
Proof.
  intros Hz. unfold Bytes. rewrite length_be_bytes.
  assert (BitLen z ≤ 8 * Z.of_nat n).
  { apply Z.ltb_ge. rewrite BitLen_ltb, Z.abs_eq by lia. apply Z.leb_gt.
    rewrite Z.pow_mul_r by lia. apply Hz. }
  pose proof (Z.div_lt_upper_bound (BitLen z + 7) 8 (Z.of_nat n + 1) ltac:(lia) ltac:(lia)).
  pose proof (BitLen_nonneg z). pose proof (Z.div_pos (BitLen z + 7) 8 ltac:(lia) ltac:(lia)). lia.
Qed.

Lemma Bytes_range z : Forall byte_range (Bytes z).
Proof. apply be_bytes_range. Qed.

Lemma length_HashBytes h : length (HashBytes h) = 32%nat.
Proof. apply length_be_bytes. Qed.

(** ** Hashes *)

Definition hash_ok (h : Hash) : Prop := 0 ≤ h < 256 ^ 32.

Lemma BytesToHash_HashBytes h : BytesToHash (HashBytes h) = h mod 256 ^ 32.
Proof. unfold BytesToHash, HashBytes. rewrite length_be_bytes, Nat.sub_diag, drop_0. apply SetBytes_be_bytes. Qed.

Lemma BytesToHash_id h : hash_ok h → BytesToHash (HashBytes h) = h.
Proof. intros Hh. rewrite BytesToHash_HashBytes. by apply Z.mod_small. Qed.

Lemma HashBytes_BytesToHash b : length b = 32%nat → Forall byte_range b →
  HashBytes (BytesToHash b) = b ∧ hash_ok (BytesToHash b).
Proof.
  intros Hl Hb. unfold BytesToHash, HashBytes, HashLength, hash_ok. rewrite Hl, Nat.sub_diag, drop_0.
  rewrite <- Hl at 1. split; [by apply be_bytes_SetBytes|]. pose proof (SetBytes_range b Hb) as Hr. by rewrite Hl in Hr.
Qed.

Lemma HashBytes_inj h h' : hash_ok h → hash_ok h' → HashBytes h = HashBytes h' → h = h'.
Proof. intros Hh Hh' E. rewrite <- (BytesToHash_id h), <- (BytesToHash_id h') by done. by rewrite E. Qed.

Lemma HashBytes_range h : Forall byte_range (HashBytes h).
Proof. apply be_bytes_range. Qed.

Definition addr_ok (a : Address) : Prop := 0 ≤ a < 256 ^ 20.

Lemma length_AddressBytes a : length (AddressBytes a) = 20%nat.
Proof. apply length_be_bytes. Qed.

Lemma BytesToAddress_id a : addr_ok a → BytesToAddress (AddressBytes a) = a.
Proof.
  intros Ha. unfold BytesToAddress, AddressBytes. rewrite length_be_bytes, Nat.sub_diag, drop_0, SetBytes_be_bytes.
  by apply Z.mod_small.
Qed.

(** ** Package [chain]: the schedule of forks and the rules active at a block *)

(** A [Fork] is the block number it activates at; an absent fork is never
    active. *)
Definition Active (f block : Z) : bool := block >=? f.

Record Forks := mkForks {
  f_Homestead : option Z;
  f_Byzantium : option Z;
  f_Constantinople : option Z;
  f_Petersburg : option Z;
  f_Istanbul : option Z;
  f_EIP150 : option Z;
  f_EIP158 : option Z;
  f_EIP155 : option Z;
}.

Record ForksInTime := mkForksInTime {
  Homestead : bool;
  Byzantium : bool;
  Constantinople : bool;
  Petersburg : bool;
  Istanbul : bool;
  EIP150 : bool;
  EIP158 : bool;
  EIP155 : bool;
}.

(** [Forks.active]. *)
Definition active (ff : option Z) (block : Z) : bool :=
  match ff with
  | None => false
  | Some f => Active f block
  end.

Definition At (f : Forks) (block : Z) : ForksInTime :=
  mkForksInTime
    (active (f_Homestead f) block) (active (f_Byzantium f) block)
    (active (f_Constantinople f) block) (active (f_Petersburg f) block)
    (active (f_Istanbul f) block) (active (f_EIP150 f) block)
    (active (f_EIP158 f) block) (active (f_EIP155 f) block).

Definition AllForksEnabled : Forks :=
  mkForks (Some 0) (Some 0) (Some 0) (Some 0) (Some 0) (Some 0) (Some 0) (Some 0).

(** A fork stays active. *)
Lemma active_mono ff b b' : b ≤ b' → active ff b = true → active ff b' = true.
Proof. unfold active, Active. destruct ff; [|done]. rewrite !Z.geb_le. lia. Qed.

Lemma At_AllForksEnabled block :
  0 ≤ block →
  At AllForksEnabled block = mkForksInTime true true true true true true true true.
Proof. intros. unfold At, active, Active; simpl. by rewrite (proj2 (Z.geb_le block 0)). Qed.
