(* ===== verification/TxQueue.v ===== *)
(** The transaction queues of [txpool/queue.go]: the per-account queue ordered
    by nonce ([accountQueue]) and the queue of executables ordered by gas price
    ([pricedQueue]), both binary heaps on a slice.  The locks only serialise
    the callers and carry no data. *)
From S2P Require Import Prelude GoHeap Types.

(** ** Transactions sorted by nonce *)
Module minNonceQueue.

(** The higher gas price comes first if the nonces are the same. *)
Definition Less (x y : Transaction) : bool :=
  if tx_Nonce x =? tx_Nonce y then tx_GasPrice x >? tx_GasPrice y
  else tx_Nonce x <? tx_Nonce y.

#[global] Instance Less_order : StrictWeakOrder Less.
Proof. split; unfold Less; intros; go_cases; lia. Qed.

Lemma Less_false_nonce x y : Less x y = false → tx_Nonce y ≤ tx_Nonce x.
Proof. unfold Less. intros; go_cases; lia. Qed.

Lemma Less_false_price x y :
  Less x y = false → tx_Nonce x = tx_Nonce y → tx_GasPrice x ≤ tx_GasPrice y.
Proof. unfold Less. intros; go_cases; lia. Qed.
End minNonceQueue.

Module accountQueue.
Import minNonceQueue.

(** The field [queue]; [wLock] is the lock's own flag. *)
Definition newAccountQueue : list Transaction := Init Less [].

Definition length (q : list Transaction) : Z := Z.of_nat (base.length q).

Definition peek (q : list Transaction) : option Transaction := q !! 0%nat.

Definition push (tx : Transaction) (q : list Transaction) : list Transaction :=
  Push Less tx q.

(** [None] on an empty queue, as the code's [nil]. *)
Definition pop (q : list Transaction) : option (Transaction * list Transaction) :=
  if length q =? 0 then None else Pop Less q.

(** The loop of [prune]: pop while the head has a lower nonce.  Every turn
    removes an element, so [fuel] is the length of the queue. *)
Fixpoint prune_loop (fuel : nat) (nonce : Z) (q : list Transaction)
    : list Transaction * list Transaction :=
  match fuel with
  | O => ([], q)
  | S fuel =>
      match peek q with
      | None => ([], q)
      | Some tx =>
          if nonce <=? tx_Nonce tx then ([], q)
          else match pop q with
               | None => ([], q)
               | Some (x, q') =>
                   let '(pruned, q'') := prune_loop fuel nonce q' in
                   (x :: pruned, q'')
               end
      end
  end.

Definition prune (nonce : Z) (q : list Transaction) : list Transaction * list Transaction :=
  prune_loop (base.length q) nonce q.

(** Returns the removed transactions and the empty queue. *)
Definition clear (q : list Transaction) : list Transaction * list Transaction := (q, []).

Abbreviation wf := (heap Less).

Lemma peek_None q : peek q = None → q = [].
Proof. by destruct q. Qed.

Lemma pop_spec q tx :
  wf q → peek q = Some tx →
  ∃ q', pop q = Some (tx, q') ∧ wf q' ∧ q ≡ₚ tx :: q'.
Proof.
  intros Hwf Hp. destruct (Pop_spec Less q) as (x & q' & Hpop & Hx & Hperm & Hwf' & _);
    [by destruct q|done|].
  exists q'. unfold pop, length. rewrite Hpop. unfold peek in Hp. simplify_eq.
  by destruct q.
Qed.

Lemma peek_min q tx y :
  wf q → peek q = Some tx → y ∈ q → tx_Nonce tx ≤ tx_Nonce y.
Proof.
  intros Hwf Hp Hy. apply Less_false_nonce. by apply (heap_root Less q).
Qed.

(** Among the transactions of the lowest nonce the head has the best price. *)
Lemma peek_best_price q tx y :
  wf q → peek q = Some tx → y ∈ q → tx_Nonce y = tx_Nonce tx →
  tx_GasPrice y ≤ tx_GasPrice tx.
Proof.
  intros Hwf Hp Hy. apply Less_false_price. by apply (heap_root Less q).
Qed.

Lemma push_wf tx q : wf q → wf (push tx q).
Proof. apply Push_heap, _. Qed.

Lemma push_Permutation tx q : push tx q ≡ₚ tx :: q.
Proof. apply Push_Permutation. Qed.

(** [prune] splits the queue at the nonce. *)
Record pruned_at (nonce : Z) (q pruned q' : list Transaction) : Prop := {
  pruned_perm : q ≡ₚ pruned ++ q';
  pruned_wf : wf q';
  pruned_low : Forall (λ tx, tx_Nonce tx < nonce) pruned;
  pruned_high : Forall (λ tx, nonce ≤ tx_Nonce tx) q';
}.

Lemma prune_loop_spec fuel nonce q :
  wf q → (base.length q ≤ fuel)%nat →
  let '(pruned, q') := prune_loop fuel nonce q in pruned_at nonce q pruned q'.
Proof.
  revert q. induction fuel as [|fuel IH]; intros q Hwf Hlen; simpl.
  { destruct q; [|simpl in Hlen; lia]. by split; auto. }
  destruct (peek q) as [tx|] eqn:Hp.
  2: { apply peek_None in Hp as ->. by split; auto. }
  destruct (Z.leb_spec nonce (tx_Nonce tx)).
  - split; [done|done|by constructor|]. apply Forall_forall. intros y Hy.
    pose proof (peek_min q tx y Hwf Hp Hy). lia.
  - destruct (pop_spec q tx Hwf Hp) as (q' & -> & Hwf' & Hperm).
    specialize (IH q' Hwf'). rewrite Hperm in Hlen. simpl in Hlen.
    destruct (prune_loop fuel nonce q') as [pr q''].
    destruct IH as [Hp' ? ? ?]; [lia|].
    split; [by rewrite Hperm, Hp'|done|by constructor|done].
Qed.

Lemma prune_spec nonce q :
  wf q → let '(pruned, q') := prune nonce q in pruned_at nonce q pruned q'.
Proof. intros. by apply prune_loop_spec. Qed.

(** What stays is exactly what is not below the nonce. *)
Lemma pruned_at_elem nonce q pruned q' tx :
  pruned_at nonce q pruned q' →
  (tx ∈ q' ↔ tx ∈ q ∧ nonce ≤ tx_Nonce tx) ∧ (tx ∈ pruned ↔ tx ∈ q ∧ tx_Nonce tx < nonce).
Proof.
  intros [Hp _ Hlow Hhigh]. rewrite Hp, !elem_of_app.
  rewrite Forall_forall in Hlow, Hhigh.
  pose proof (Hlow tx). pose proof (Hhigh tx).
  split; split; intuition lia.
Qed.
End accountQueue.

(** ** Transactions sorted by gas price *)
Module maxPriceQueue.

Definition Less (x y : Transaction) : bool :=
  Uint64 (tx_GasPrice x) >? Uint64 (tx_GasPrice y).

#[global] Instance Less_order : StrictWeakOrder Less.
Proof. split; unfold Less; intros; bool_props; rewrite ?Z.gtb_ltb, ?Z.ltb_ge; lia. Qed.
End maxPriceQueue.

Module pricedQueue.
Import maxPriceQueue.

Definition newPricedQueue : list Transaction := Init Less [].
Definition length (q : list Transaction) : Z := Z.of_nat (base.length q).
Definition clear (q : list Transaction) : list Transaction := [].
Definition push (tx : Transaction) (q : list Transaction) : list Transaction :=
  Push Less tx q.
Definition pop (q : list Transaction) : option (Transaction * list Transaction) :=
  if length q =? 0 then None else Pop Less q.

Abbreviation wf := (heap Less).

Lemma priced_pop_spec q :
  wf q → q ≠ [] →
  ∃ tx q', pop q = Some (tx, q') ∧ wf q' ∧ q ≡ₚ tx :: q' ∧
           ∀ y, y ∈ q → Uint64 (tx_GasPrice y) ≤ Uint64 (tx_GasPrice tx).
Proof.
  intros Hwf Hne. destruct (Pop_spec Less q Hne Hwf) as (x & q' & Hpop & _ & Hperm & Hwf' & Hmin).
  exists x, q'. unfold pop, length. rewrite Hpop. split; [by destruct q|].
  split_and!; auto. intros y Hy. specialize (Hmin y Hy). unfold Less in Hmin.
  bool_props. lia.
Qed.

Lemma priced_push_wf tx q : wf q → wf (push tx q).
Proof. apply Push_heap, _. Qed.

Lemma priced_push_Permutation tx q : push tx q ≡ₚ tx :: q.
Proof. apply Push_Permutation. Qed.

Lemma pop_nil : pop [] = None.
Proof. done. Qed.
End pricedQueue.
