(* ===== verification/TxAccount.v ===== *)
(** One account of the pool ([txpool/account.go]): an [enqueued] and a
    [promoted] queue separated by the account's next expected nonce. *)
From S2P Require Import Prelude GoHeap Types TxQueue.

(** [txpool.Err...], the errors a transaction is refused with. *)
Inductive txErr :=
| ErrIntrinsicGas | ErrBlockLimitExceeded | ErrNegativeValue | ErrExtractSignature
| ErrInvalidSender | ErrTxPoolOverflow | ErrUnderpriced | ErrNonceTooLow
| ErrInsufficientFunds | ErrInvalidAccountState | ErrAlreadyKnown | ErrOversizedData
| ErrMaxEnqueuedLimitReached | ErrRejectFutureTx | ErrSmartContractRestricted
| ErrIntrinsicGasOverflow.

(** [init] runs the constructor once; the map operation [initOnce] of the pool
    models it. *)
Record account := mkAccount {
  enqueued : list Transaction;
  promoted : list Transaction;
  nextNonce : Z;
  demotions : Z;
  skips : Z;
  maxEnqueued : Z;
}.

Definition set_enqueued q (a : account) :=
  mkAccount q (promoted a) (nextNonce a) (demotions a) (skips a) (maxEnqueued a).
Definition set_promoted q (a : account) :=
  mkAccount (enqueued a) q (nextNonce a) (demotions a) (skips a) (maxEnqueued a).
Definition setNonce n (a : account) :=
  mkAccount (enqueued a) (promoted a) n (demotions a) (skips a) (maxEnqueued a).
Definition set_demotions n (a : account) :=
  mkAccount (enqueued a) (promoted a) (nextNonce a) n (skips a) (maxEnqueued a).
Definition set_skips n (a : account) :=
  mkAccount (enqueued a) (promoted a) (nextNonce a) (demotions a) n (maxEnqueued a).

(** The account [accountsMap.initOnce] stores. *)
Definition newAccount (maxEnqueuedLimit nonce : Z) : account :=
  mkAccount accountQueue.newAccountQueue accountQueue.newAccountQueue
    nonce 0 0 maxEnqueuedLimit.

Definition resetDemotions : account → account := set_demotions 0.
Definition incrementDemotions (a : account) : account :=
  set_demotions (add64 (demotions a) 1) a.
Definition resetSkips : account → account := set_skips 0.
Definition incrementSkips (a : account) : account := set_skips (add64 (skips a) 1) a.

(** [reset]: the pruned promoted and enqueued transactions, the account whose
    promotion is signalled, and the account. *)
Definition reset (nonce : Z) (a : account)
    : list Transaction * list Transaction * option Address * account :=
  let '(prunedPromoted, prom) := accountQueue.prune nonce (promoted a) in
  let a := set_promoted prom a in
  if nonce <=? nextNonce a then (prunedPromoted, [], None, a)
  else
    let '(prunedEnqueued, enq) := accountQueue.prune nonce (enqueued a) in
    let a := setNonce nonce (set_enqueued enq a) in
    let signal :=
      match accountQueue.peek enq with
      | Some first => if tx_Nonce first =? nonce then Some (tx_From first) else None
      | None => None
      end in
    (prunedPromoted, prunedEnqueued, signal, a).

Definition enqueue (tx : Transaction) (a : account) : result txErr account :=
  if accountQueue.length (enqueued a) =? maxEnqueued a then Err ErrMaxEnqueuedLimitReached
  else if tx_Nonce tx <? nextNonce a then Err ErrNonceTooLow
  else Ok (set_enqueued (accountQueue.push tx (enqueued a)) a).

(** The loop of [promote]; every turn pops an enqueued transaction.  Returns
    the promoted and pruned lists, the two queues and [nextNonce]. *)
Fixpoint promote_loop (fuel : nat) (next : Z) (enq prom : list Transaction)
    : list Transaction * list Transaction * list Transaction * list Transaction * Z :=
  match fuel with
  | O => ([], [], enq, prom, next)
  | S fuel =>
      match accountQueue.peek enq with
      | None => ([], [], enq, prom, next)
      | Some tx =>
          if negb (tx_Nonce tx =? next) then ([], [], enq, prom, next)
          else
            match accountQueue.pop enq with
            | None => ([], [], enq, prom, next)
            | Some (tx, enq') =>
                let prom' := accountQueue.push tx prom in
                let next' := add64 (tx_Nonce tx) 1 in
                let '(pr, enq'') := accountQueue.prune next' enq' in
                let '(txs, prs, enq3, prom3, next3) :=
                  promote_loop fuel next' enq'' prom' in
                (tx :: txs, pr ++ prs, enq3, prom3, next3)
            end
      end
  end.

Definition promote (a : account) : list Transaction * list Transaction * account :=
  let currentNonce := nextNonce a in
  match accountQueue.peek (enqueued a) with
  | None => ([], [], a)
  | Some first =>
      if tx_Nonce first >? currentNonce then ([], [], a)
      else
        let '(txs, pruned, enq, prom, next) :=
          promote_loop (length (enqueued a)) (tx_Nonce first) (enqueued a) (promoted a) in
        let a := set_promoted prom (set_enqueued enq a) in
        (txs, pruned, if next >? currentNonce then setNonce next a else a)
  end.

(** The transaction with the lowest nonce; neither queue is popped. *)
Definition getLowestTx (a : account) : option Transaction :=
  match accountQueue.peek (promoted a) with
  | Some tx => Some tx
  | None => accountQueue.peek (enqueued a)
  end.

(** ** The account invariant *)

(** The nonces of [l] are the consecutive ones ending just below [next]: no
    gap and no duplicate. *)
Definition consecutive (next : Z) (l : list Transaction) : Prop :=
  tx_Nonce <$> l ≡ₚ seqZ (next - Z.of_nat (length l)) (Z.of_nat (length l)).

(** Both queues are heaps; every enqueued transaction is at or above the next
    nonce (and below the largest 64-bit one, whose successor wraps around);
    the promoted nonces are consecutive and end just below the next nonce. *)
Record acc_inv (a : account) : Prop := {
  inv_enq_heap : accountQueue.wf (enqueued a);
  inv_prom_heap : accountQueue.wf (promoted a);
  inv_nonce : 0 ≤ nextNonce a < M64;
  inv_enq_nonce : Forall (λ tx, nextNonce a ≤ tx_Nonce tx < M64 - 1) (enqueued a);
  inv_prom_nonce : consecutive (nextNonce a) (promoted a);
  inv_prom_low : Z.of_nat (length (promoted a)) ≤ nextNonce a;
  inv_enq_bound : Z.of_nat (length (enqueued a)) ≤ maxEnqueued a;
}.

Lemma consecutive_nil next : consecutive next [].
Proof. unfold consecutive. done. Qed.
#[export] Hint Resolve consecutive_nil : go.

Lemma newAccount_inv m n : 0 ≤ m → 0 ≤ n < M64 → acc_inv (newAccount m n).
Proof. intros. split; simpl; try done; auto with go. lia. Qed.

(** What one run of the promotion loop moves. *)
Record promotion (next : Z) (enq prom txs prs enq' prom' : list Transaction) (next' : Z)
    : Prop := {
  promo_enq_heap : accountQueue.wf enq';
  promo_prom_heap : accountQueue.wf prom';
  promo_nonces : tx_Nonce <$> txs = seqZ next (Z.of_nat (length txs));
  promo_next : next' = next + Z.of_nat (length txs) ∧ next' < M64;
  promo_enq : enq ≡ₚ txs ++ prs ++ enq';
  promo_prom : prom' ≡ₚ txs ++ prom;
  promo_rest : Forall (λ tx, next' < tx_Nonce tx < M64 - 1) enq';
  promo_pruned : Forall (λ y, ∃ x, x ∈ txs ∧ tx_Nonce x = tx_Nonce y ∧
                                   tx_GasPrice y ≤ tx_GasPrice x) prs;
}.

Lemma promote_loop_spec fuel next enq prom :
  accountQueue.wf enq → accountQueue.wf prom → (length enq ≤ fuel)%nat →
  0 ≤ next < M64 → Forall (λ tx, next ≤ tx_Nonce tx < M64 - 1) enq →
  let '(txs, prs, enq', prom', next') := promote_loop fuel next enq prom in
  promotion next enq prom txs prs enq' prom' next'.
Proof.
  revert next enq prom.
  induction fuel as [|fuel IH]; intros next enq prom Henq Hprom Hlen Hnext Hall; simpl.
  { destruct enq; [|simpl in Hlen; lia]. split; simpl; try done; lia. }
  destruct (accountQueue.peek enq) as [tx|] eqn:Hp.
  2: { apply accountQueue.peek_None in Hp as ->. split; simpl; try done; lia. }
  assert (Hmin : ∀ y, y ∈ enq → tx_Nonce tx ≤ tx_Nonce y)
    by eauto using accountQueue.peek_min.
  assert (Hin : tx ∈ enq) by (by eapply list_elem_of_lookup_2).
  rewrite Forall_forall in Hall. pose proof (Hall tx Hin).
  destruct (Z.eqb_spec (tx_Nonce tx) next) as [Htx|]; simpl.
  2: { split; simpl; try done; [lia|]. apply Forall_forall. intros y Hy.
       pose proof (Hmin y Hy). pose proof (Hall y Hy). lia. }
  destruct (accountQueue.pop_spec enq tx Henq Hp) as (enq1 & -> & Henq1 & Hperm).
  assert (Hnx : add64 (tx_Nonce tx) 1 = next + 1).
  { unfold add64. rewrite u64_small; [lia|]. unfold is_u64. lia. }
  rewrite Hnx.
  pose proof (accountQueue.prune_spec (next + 1) enq1 Henq1) as Hpr.
  destruct (accountQueue.prune (next + 1) enq1) as [pr enq2].
  destruct Hpr as [Hp1 Henq2 Hlow Hhigh].
  specialize (IH (next + 1) enq2 (accountQueue.push tx prom) Henq2
                (accountQueue.push_wf _ _ Hprom)).
  destruct (promote_loop fuel (next + 1) enq2 _) as [[[[txs prs] enq'] prom'] next'].
  rewrite Forall_forall in Hlow, Hhigh.
  destruct IH as [? ? Hn [Hx ?] He Hpm Hr Hpd].
  - rewrite Hperm, Hp1 in Hlen. simpl in Hlen. rewrite length_app in Hlen. lia.
  - lia.
  - apply Forall_forall. intros y Hy. pose proof (Hhigh y Hy).
    assert (y ∈ enq) by (rewrite Hperm, Hp1; set_solver).
    pose proof (Hall y ltac:(done)). lia.
  - split; auto.
    + rewrite fmap_cons, Hn, Htx. cbn [length]. rewrite (seqZ_cons next) by lia. do 2 f_equal; lia.
    + cbn [length]. lia.
    + rewrite Hperm, Hp1, He. simpl. constructor. solve_Permutation.
    + rewrite Hpm, accountQueue.push_Permutation. simpl. by rewrite Permutation_middle.
    + apply Forall_app. split.
      * apply Forall_forall. intros y Hy. exists tx.
        assert (y ∈ enq) by (rewrite Hperm, Hp1; set_solver).
        pose proof (Hmin y ltac:(done)). pose proof (Hlow y Hy).
        split_and!; [set_solver|lia|].
        apply (accountQueue.peek_best_price enq); [done..|lia].
      * eapply Forall_impl; [exact Hpd|]. set_solver.
Qed.

(** ** Consecutive nonces *)

Lemma consecutive_elem next l tx :
  consecutive next l → tx ∈ l →
  next - Z.of_nat (length l) ≤ tx_Nonce tx < next.
Proof.
  intros Hc Hin.
  assert (tx_Nonce tx ∈ tx_Nonce <$> l) as Hn by (by apply list_elem_of_fmap_2).
  rewrite Hc in Hn. apply elem_of_seqZ in Hn. lia.
Qed.

Lemma consecutive_prune next l nonce pruned l' :
  consecutive next l → accountQueue.pruned_at nonce l pruned l' → consecutive next l'.
Proof.
  intros Hc [Hp _ Hlow Hhigh].
  assert (Hf : tx_Nonce <$> l' ≡ₚ filter (λ x, nonce ≤ x) (tx_Nonce <$> l)).
  { rewrite Hp, fmap_app, filter_app.
    rewrite (filter_none _ (tx_Nonce <$> pruned)).
    2: { intros x (tx & -> & Htx)%list_elem_of_fmap. rewrite Forall_forall in Hlow.
         specialize (Hlow tx Htx). lia. }
    rewrite filter_all; [done|].
    intros x (tx & -> & Htx)%list_elem_of_fmap. rewrite Forall_forall in Hhigh. auto. }
  rewrite Hc, filter_seqZ_ge in Hf by lia.
  unfold consecutive. rewrite Hf.
  assert (Hl : length l' = Z.to_nat (next - (next - Z.of_nat (length l)) `max` nonce)).
  { apply Permutation_length in Hf. rewrite length_fmap, length_seqZ in Hf. lia. }
  destruct (decide (length l' = 0%nat)) as [H0|]; [|apply reflexive_eq; f_equal; lia].
  unfold seqZ. rewrite H0, !Z2Nat.nonpos by lia. done.
Qed.

Lemma consecutive_pop next q tx q' :
  consecutive next q → q ≡ₚ tx :: q' → (∀ y, y ∈ q → tx_Nonce tx ≤ tx_Nonce y) →
  consecutive next q'.
Proof.
  intros Hc Hp Hmin. pose proof (Permutation_length Hp) as Hl. simpl in Hl.
  set (lo := next - Z.of_nat (length q)).
  assert (Hlo : tx_Nonce tx = lo).
  { assert (lo ∈ tx_Nonce <$> q) as (y & Hy & Hin)%list_elem_of_fmap.
    { rewrite Hc. apply elem_of_seqZ. lia. }
    pose proof (Hmin y Hin).
    pose proof (consecutive_elem next q tx Hc ltac:(rewrite Hp; set_solver)). lia. }
  unfold consecutive in Hc. rewrite Hp, fmap_cons, Hlo, <- Hp in Hc.
  rewrite (seqZ_cons (next - _)) in Hc by lia. fold lo in Hc.
  apply Permutation_cons_inv in Hc. unfold consecutive. rewrite Hc.
  apply reflexive_eq. f_equal; lia.
Qed.

Lemma consecutive_promote next l txs l' :
  consecutive next l → l' ≡ₚ txs ++ l →
  tx_Nonce <$> txs = seqZ next (Z.of_nat (length txs)) →
  consecutive (next + Z.of_nat (length txs)) l'.
Proof.
  intros Hc Hp Hn. unfold consecutive. rewrite Hp, fmap_app, Hn, Hc, length_app.
  rewrite Permutation_app_comm. apply reflexive_eq.
  rewrite Nat2Z.inj_add.
  replace (next + _ - _) with (next - Z.of_nat (length l)) by lia.
  rewrite (Z.add_comm (Z.of_nat (length txs))), seqZ_app by lia. do 2 f_equal; lia.
Qed.

(** ** Operations on one account *)

Lemma enqueue_inv tx a a' :
  acc_inv a → enqueue tx a = Ok a' → tx_Nonce tx < M64 - 1 → acc_inv a'.
Proof.
  unfold enqueue, accountQueue.length. intros [? ? ? Hn ? ? Hb] He Htx.
  destruct (Z.eqb_spec (Z.of_nat (length (enqueued a))) (maxEnqueued a)); [done|].
  destruct (Z.ltb_spec (tx_Nonce tx) (nextNonce a)); [done|]. simplify_eq.
  split; simpl; auto using accountQueue.push_wf.
  - rewrite accountQueue.push_Permutation. constructor; [lia|done].
  - rewrite accountQueue.push_Permutation. simpl. lia.
Qed.

Lemma promote_spec a :
  acc_inv a →
  let '(txs, pruned, a') := promote a in
  acc_inv a' ∧
  promotion (nextNonce a) (enqueued a) (promoted a)
    txs pruned (enqueued a') (promoted a') (nextNonce a').
Proof.
  intros Hinv. destruct Hinv as [He Hp Hn Hen Hpn Hpl Hb] eqn:E. clear E.
  pose proof Hen as Hen'. rewrite Forall_forall in Hen'. unfold promote.
  destruct (accountQueue.peek (enqueued a)) as [first|] eqn:Hpk.
  2: { apply accountQueue.peek_None in Hpk. rewrite Hpk.
       split; [done|split; simpl; try done; lia]. }
  assert (Hin : first ∈ enqueued a) by (by eapply list_elem_of_lookup_2).
  pose proof (Hen' first Hin).
  destruct (Z.gtb_spec (tx_Nonce first) (nextNonce a)).
  { split; [done|split; simpl; try done; [lia|]]. apply Forall_forall. intros y Hy.
    pose proof (Hen' y Hy). pose proof (accountQueue.peek_min _ _ y He Hpk Hy). lia. }
  assert (tx_Nonce first = nextNonce a) as -> by lia.
  pose proof (promote_loop_spec (length (enqueued a)) (nextNonce a) (enqueued a)
    (promoted a) He Hp ltac:(done) Hn Hen) as Hs.
  destruct (promote_loop _ _ _ _) as [[[[txs prs] enq'] prom'] next'].
  assert (Hnx : (if next' >? nextNonce a
    then setNonce next' (set_promoted prom' (set_enqueued enq' a))
    else set_promoted prom' (set_enqueued enq' a))
    = setNonce next' (set_promoted prom' (set_enqueued enq' a))).
  { destruct (Z.gtb_spec next' (nextNonce a)); [done|].
    destruct Hs as [_ _ _ [? _] _ _ _ _]. assert (next' = nextNonce a) as -> by lia. done. }
  rewrite Hnx. split; [|done].
  destruct Hs as [? ? Hns [-> ?] Hpe Hpp Hr _]. split; simpl; auto.
  - lia.
  - eapply Forall_impl; [exact Hr|]. simpl. lia.
  - by eapply consecutive_promote.
  - rewrite Hpp, length_app. lia.
  - rewrite Hpe, !length_app in Hb. lia.
Qed.

Lemma reset_spec nonce a :
  acc_inv a → 0 ≤ nonce < M64 →
  let '(pp, pe, _, a') := reset nonce a in
  acc_inv a' ∧ nextNonce a' = nextNonce a `max` nonce ∧
  accountQueue.pruned_at nonce (promoted a) pp (promoted a') ∧
  accountQueue.pruned_at nonce (enqueued a) pe (enqueued a').
Proof.
  intros [He Hp Hn Hen Hpn Hpl Hb] Hnonce. unfold reset.
  pose proof (accountQueue.prune_spec nonce (promoted a) Hp) as Hpp.
  destruct (accountQueue.prune nonce (promoted a)) as [pp prom].
  pose proof (consecutive_prune _ _ _ _ _ Hpn Hpp) as Hpn'.
  rewrite Forall_forall in Hen. simpl.
  destruct (Z.leb_spec nonce (nextNonce a)).
  - split_and!; [split; simpl; try done|simpl; lia|done|].
    + by destruct Hpp.
    + by apply Forall_forall.
    + destruct Hpp as [Hpp _ _ _]. rewrite Hpp, length_app in Hpl. lia.
    + split; simpl; try done. apply Forall_forall. intros y Hy. pose proof (Hen y Hy). lia.
  - pose proof (accountQueue.prune_spec nonce (enqueued a) He) as Hpe.
    destruct (accountQueue.prune nonce (enqueued a)) as [pe enq]. simpl.
    split_and!; [split; simpl; try done|lia|done|done].
    + by destruct Hpe.
    + by destruct Hpp.
    + apply Forall_forall. intros y Hy.
      apply (proj1 (accountQueue.pruned_at_elem _ _ _ _ y Hpe)) in Hy as [Hy ?].
      pose proof (Hen y Hy). lia.
    + (* every promoted nonce was below the new one *)
      assert (prom = []) as ->; [|auto with go].
      destruct prom as [|y prom]; [done|].
      destruct (proj1 (proj1 (accountQueue.pruned_at_elem _ _ _ _ y Hpp)) ltac:(set_solver)) as [Hy ?].
      pose proof (consecutive_elem _ _ _ Hpn Hy). lia.
    + destruct Hpp as [Hpp _ _ _]. rewrite Hpp, length_app in Hpl. lia.
    + destruct Hpe as [Hpe _ _ _]. rewrite Hpe, length_app in Hb. lia.
Qed.
