(* ===== verification/Intrinsic.v ===== *)
(** [TransactionGasCost] of [state/executor.go]: the gas a transaction pays
    before it runs, computed on 64-bit integers with explicit overflow checks.
    The pool's validation and the executor both call it. *)
From S2P Require Import Prelude Types TxAccount.

Definition TxGas : Z := 21000.
Definition TxGasContractCreation : Z := 53000.
Definition MaxUint64 : Z := M64 - 1.

(** The loop counting the zero bytes of the payload. *)
Definition count_zeros (payload : bytes) : Z :=
  Z.of_nat (length (filter (λ b, b = 0) payload)).

Definition TransactionGasCost (msg : Transaction) (isHomestead isIstanbul : bool)
    : result txErr Z :=
  let cost := if IsContractCreation msg && isHomestead then TxGasContractCreation else TxGas in
  let payload := tx_Input msg in
  if 0 <? Z.of_nat (length payload) then
    let zeros := count_zeros payload in
    let nonZeros := sub64 (Z.of_nat (length payload)) zeros in
    let nonZeroCost := if isIstanbul then 16 else 68 in
    if (MaxUint64 - cost) / nonZeroCost <? nonZeros then Err ErrIntrinsicGasOverflow
    else
      let cost := add64 cost (mul64 nonZeros nonZeroCost) in
      if (MaxUint64 - cost) / 4 <? zeros then Err ErrIntrinsicGasOverflow
      else Ok (add64 cost (mul64 zeros 4))
  else Ok cost.

(** ** The cost over unbounded integers *)

Definition intrinsic_cost (msg : Transaction) (isHomestead isIstanbul : bool) : Z :=
  (if IsContractCreation msg && isHomestead then 53000 else 21000) +
  sumZ (λ b, if b =? 0 then 4 else if isIstanbul then 16 else 68) (tx_Input msg).

Lemma count_zeros_range payload : 0 ≤ count_zeros payload ≤ Z.of_nat (length payload).
Proof. unfold count_zeros. pose proof (length_filter (λ b, b = 0) payload). lia. Qed.

Lemma sum_costs c payload :
  sumZ (λ b, if b =? 0 then 4 else c) payload =
  (Z.of_nat (length payload) - count_zeros payload) * c + count_zeros payload * 4.
Proof.
  unfold count_zeros. induction payload as [|b l IH]; [simpl; lia|].
  rewrite sumZ_cons, IH, filter_cons. cbn [length].
  destruct (Z.eqb_spec b 0); case_decide; try done; cbn [length]; lia.
Qed.

Lemma div_ltb_iff a c n : 0 < c → a / c < n ↔ a < n * c.
Proof.
  intros Hc. split; intros H.
  - destruct (Z.lt_ge_cases a (n * c)) as [|Hge]; [done|].
    assert (n ≤ a / c) by (apply Z.div_le_lower_bound; lia). lia.
  - apply Z.div_lt_upper_bound; lia.
Qed.

(** The checks are exact: the cost is computed without wrap-around, and an
    error is returned only when the true cost exceeds 64 bits. *)
Lemma TransactionGasCost_exact msg h i :
  Z.of_nat (length (tx_Input msg)) < M64 →
  TransactionGasCost msg h i =
  if intrinsic_cost msg h i <? M64 then Ok (intrinsic_cost msg h i)
  else Err ErrIntrinsicGasOverflow.
Proof.
  intros Hlen. unfold TransactionGasCost, intrinsic_cost, TxGas, TxGasContractCreation.
  set (c0 := if IsContractCreation msg && h then 53000 else 21000).
  assert (Hc0 : 0 ≤ c0 ≤ 53000) by (subst c0; case_match; lia).
  set (payload := tx_Input msg) in *. set (w := if i then 16 else 68).
  assert (Hw : 16 ≤ w ≤ 68) by (subst w; case_match; lia).
  rewrite sum_costs. fold w.
  pose proof (count_zeros_range payload) as Hz. set (z := count_zeros payload) in *.
  destruct (Z.ltb_spec 0 (Z.of_nat (length payload))) as [Hpos|Hempty].
  2: { assert (Z.of_nat (length payload) = 0) as -> by lia. assert (z = 0) as -> by lia.
       replace (c0 + _) with c0 by lia.
       destruct (Z.ltb_spec c0 M64); [done|]. unfold M64 in *; lia. }
  rewrite sub64_ge by (unfold is_u64; lia). set (nz := Z.of_nat (length payload) - z) in *.
  assert (0 ≤ nz) by lia. unfold MaxUint64.
  assert (H0 : 0 ≤ nz * w) by nia.
  destruct (Z.ltb_spec ((M64 - 1 - c0) / w) nz) as [H1|H1].
  { apply div_ltb_iff in H1; [|lia]. destruct (Z.ltb_spec (c0 + (nz * w + z * 4)) M64); [lia|done]. }
  assert (nz * w ≤ M64 - 1 - c0).
  { destruct (Z.le_gt_cases (nz * w) (M64 - 1 - c0)) as [|H2]; [done|].
    apply div_ltb_iff in H2; lia. }
  assert (add64 c0 (mul64 nz w) = c0 + nz * w) as ->.
  { unfold add64, mul64. rewrite (u64_small (nz * w)) by (unfold is_u64; lia).
    apply u64_small. unfold is_u64. lia. }
  destruct (Z.ltb_spec ((M64 - 1 - (c0 + nz * w)) / 4) z) as [H3|H3].
  { apply div_ltb_iff in H3; [|lia]. destruct (Z.ltb_spec (c0 + (nz * w + z * 4)) M64); [lia|done]. }
  assert (z * 4 ≤ M64 - 1 - (c0 + nz * w)).
  { destruct (Z.le_gt_cases (z * 4) (M64 - 1 - (c0 + nz * w))) as [|H4]; [done|].
    apply div_ltb_iff in H4; lia. }
  destruct (Z.ltb_spec (c0 + (nz * w + z * 4)) M64); [|lia].
  unfold add64, mul64. rewrite (u64_small (z * 4)) by (unfold is_u64; lia).
  rewrite u64_small by (unfold is_u64; lia). f_equal. lia.
Qed.
