(* ===== verification/TxPool.v ===== *)
(** The transaction pool ([txpool/txpool.go], [slot_gauge.go], [lookup_map.go],
    [query.go] and the account map of [account.go]): its state, every handler
    of its event loop, and the operations consensus calls.

    A handler runs atomically here: the code serialises them per account with
    the queue locks.  The requests in flight between goroutines (the two
    channels of the event loop) are part of the state. *)
From S2P Require Import Prelude GoHeap Types TxQueue TxAccount Intrinsic.

(** [proto.EventType]. *)
Inductive EventType :=
| ADDED | ENQUEUED | PROMOTED | DROPPED | DEMOTED | PRUNED_PROMOTED | PRUNED_ENQUEUED.

(** The store and signer interfaces the pool is built with: the latest header,
    the world state and the block store of [blockchain], and [crypto]'s
    signature recovery. *)
Record store := mkStore {
  Header_StateRoot : Hash;
  Header_GasLimit : Z;
  GetNonce : Hash → Address → Z;
  GetBalance : Hash → Address → option Z;
  GetBlockByHash : Hash → option (list Transaction);
  Sender : Transaction → option Address;
}.

(** The fields fixed at construction. *)
Record Conf := mkConf {
  gauge_max : Z;
  priceLimit : Z;
  maxEnqueuedLimit : Z;
  deploymentWhitelist : gset Address;
  Homestead : bool;
  Istanbul : bool;
}.

(** The pool.  [count] is the account map's; [height] is the gauge's; [events]
    are the calls of [signalEvent]; [enqueueReqs], [promoteReqs] and [pruneReq]
    are the requests sent on the channels and not yet handled. *)
Record TxPool := mkTxPool {
  accounts : gmap Address account;
  count : Z;
  executables : list Transaction;
  index : gmap Hash Transaction;
  height : Z;
  pending : Z;
  events : list (EventType * list Hash);
  enqueueReqs : list Transaction;
  promoteReqs : list Address;
  pruneReq : bool;
  sealing : bool;
  conf : Conf;
}.

Definition set_accounts m (p : TxPool) : TxPool :=
  mkTxPool m (count p) (executables p) (index p) (height p) (pending p) (events p)
    (enqueueReqs p) (promoteReqs p) (pruneReq p) (sealing p) (conf p).
Definition set_count c (p : TxPool) : TxPool :=
  mkTxPool (accounts p) c (executables p) (index p) (height p) (pending p) (events p)
    (enqueueReqs p) (promoteReqs p) (pruneReq p) (sealing p) (conf p).
Definition set_executables e (p : TxPool) : TxPool :=
  mkTxPool (accounts p) (count p) e (index p) (height p) (pending p) (events p)
    (enqueueReqs p) (promoteReqs p) (pruneReq p) (sealing p) (conf p).
Definition set_index i (p : TxPool) : TxPool :=
  mkTxPool (accounts p) (count p) (executables p) i (height p) (pending p) (events p)
    (enqueueReqs p) (promoteReqs p) (pruneReq p) (sealing p) (conf p).
Definition set_height h (p : TxPool) : TxPool :=
  mkTxPool (accounts p) (count p) (executables p) (index p) h (pending p) (events p)
    (enqueueReqs p) (promoteReqs p) (pruneReq p) (sealing p) (conf p).
Definition set_pending n (p : TxPool) : TxPool :=
  mkTxPool (accounts p) (count p) (executables p) (index p) (height p) n (events p)
    (enqueueReqs p) (promoteReqs p) (pruneReq p) (sealing p) (conf p).
Definition set_events e (p : TxPool) : TxPool :=
  mkTxPool (accounts p) (count p) (executables p) (index p) (height p) (pending p) e
    (enqueueReqs p) (promoteReqs p) (pruneReq p) (sealing p) (conf p).
Definition set_enqueueReqs r (p : TxPool) : TxPool :=
  mkTxPool (accounts p) (count p) (executables p) (index p) (height p) (pending p)
    (events p) r (promoteReqs p) (pruneReq p) (sealing p) (conf p).
Definition set_promoteReqs r (p : TxPool) : TxPool :=
  mkTxPool (accounts p) (count p) (executables p) (index p) (height p) (pending p)
    (events p) (enqueueReqs p) r (pruneReq p) (sealing p) (conf p).
Definition set_pruneReq b (p : TxPool) : TxPool :=
  mkTxPool (accounts p) (count p) (executables p) (index p) (height p) (pending p)
    (events p) (enqueueReqs p) (promoteReqs p) b (sealing p) (conf p).
Definition SetSealing b (p : TxPool) : TxPool :=
  mkTxPool (accounts p) (count p) (executables p) (index p) (height p) (pending p)
    (events p) (enqueueReqs p) (promoteReqs p) (pruneReq p) b (conf p).

Record Config := mkConfig {
  cfg_PriceLimit : Z;
  cfg_MaxSlots : Z;
  cfg_MaxAccountEnqueued : Z;
  cfg_DeploymentWhitelist : list Address;
}.

Definition NewTxPool (homestead istanbul : bool) (config : Config) : TxPool :=
  mkTxPool ∅ 0 pricedQueue.newPricedQueue ∅ 0 0 [] [] [] false false
    (mkConf (cfg_MaxSlots config) (cfg_PriceLimit config) (cfg_MaxAccountEnqueued config)
       (list_to_set (cfg_DeploymentWhitelist config)) homestead istanbul).

(** The whitelist's [allowed]: an empty whitelist admits every address. *)
Definition allowed (w : gset Address) (addr : Address) : bool :=
  if decide (size w = 0%nat) then true else bool_decide (addr ∈ w).

Definition txSlotSize : Z := 32 * 1024.
Definition txMaxSize : Z := 128 * 1024.
Definition maxAccountDemotions : Z := 10.
Definition maxAccountSkips : Z := 10.
Definition highPressureMark : Z := 80.

(** ** The gauge *)
Section gauge.
Context `{External}.

Definition slots (tx : Transaction) : Z := sub64 (add64 (Size tx) txSlotSize) 1 / txSlotSize.

Definition slotsRequired (txs : list Transaction) : Z :=
  foldl (λ n tx, add64 n (slots tx)) 0 txs.
End gauge.

Definition increase (n : Z) (p : TxPool) : TxPool := set_height (add64 (height p) n) p.
(** [atomic.AddUint64(&g.height, ^(slots - 1))]. *)
Definition decrease (n : Z) (p : TxPool) : TxPool :=
  set_height (add64 (height p) (u64 (Z.lnot (sub64 n 1)))) p.
Definition highPressure (p : TxPool) : bool :=
  height p >? mul64 highPressureMark (gauge_max (conf p)) / 100.

(** ** The lookup map *)

Definition index_add (tx : Transaction) (p : TxPool) : bool * TxPool :=
  match index p !! tx_Hash tx with
  | Some _ => (false, p)
  | None => (true, set_index (<[tx_Hash tx := tx]> (index p)) p)
  end.
Definition index_remove (txs : list Transaction) (p : TxPool) : TxPool :=
  set_index (foldl (λ m tx, delete (tx_Hash tx) m) (index p) txs) p.

(** ** Small steps shared by the handlers *)

Definition updatePending (i : Z) (p : TxPool) : TxPool := set_pending (s64 (pending p + i)) p.
Definition signalEvent (e : EventType) (hs : list Hash) (p : TxPool) : TxPool :=
  set_events (events p ++ [(e, hs)]) p.
Definition toHash (txs : list Transaction) : list Hash := tx_Hash <$> txs.
Definition update_account (addr : Address) (a : account) (p : TxPool) : TxPool :=
  set_accounts (<[addr := a]> (accounts p)) p.
Definition send_promote (req : option Address) (p : TxPool) : TxPool :=
  match req with
  | Some addr => set_promoteReqs (promoteReqs p ++ [addr]) p
  | None => p
  end.

(** [createAccountOnce], with [accountsMap.initOnce]. *)
Definition createAccountOnce (st : store) (addr : Address) (p : TxPool) : TxPool :=
  match accounts p !! addr with
  | Some _ => p
  | None =>
      let stateNonce := GetNonce st (Header_StateRoot st) addr in
      set_count (add64 (count p) 1)
        (update_account addr (newAccount (maxEnqueuedLimit (conf p)) stateNonce) p)
  end.

Section handlers.
Context `{External}.

(** ** Validation *)

(** Returns the transaction with its sender filled in. *)
Definition validateTx (st : store) (tx : Transaction) (p : TxPool)
    : result txErr Transaction :=
  if txMaxSize <? Z.of_nat (length (tx_MarshalRLP tx)) then Err ErrOversizedData
  else if tx_Value tx <? 0 then Err ErrNegativeValue
  else
    match Sender st tx with
    | None => Err ErrExtractSignature
    | Some from =>
        if negb (tx_From tx =? ZeroAddress) && negb (tx_From tx =? from)
        then Err ErrInvalidSender
        else
          let tx := if tx_From tx =? ZeroAddress then set_From from tx else tx in
          if IsContractCreation tx && negb (allowed (deploymentWhitelist (conf p)) (tx_From tx))
          then Err ErrSmartContractRestricted
          else if IsUnderpriced tx (priceLimit (conf p)) then Err ErrUnderpriced
          else
            let stateRoot := Header_StateRoot st in
            if GetNonce st stateRoot (tx_From tx) >? tx_Nonce tx then Err ErrNonceTooLow
            else
              match GetBalance st stateRoot (tx_From tx) with
              | None => Err ErrInvalidAccountState
              | Some accountBalance =>
                  if accountBalance <? Cost tx then Err ErrInsufficientFunds
                  else
                    let? intrinsicGas :=
                      TransactionGasCost tx (Homestead (conf p)) (Istanbul (conf p)) in
                    if tx_Gas tx <? intrinsicGas then Err ErrIntrinsicGas
                    else if tx_Gas tx >? Header_GasLimit st then Err ErrBlockLimitExceeded
                    else Ok tx
              end
    end.

(** ** Adding a transaction *)

(** The non-blocking send of [signalPruning]: [ready] says whether the pruning
    goroutine is receiving (it may be active or in its cool-down). *)
Definition signalPruning (ready : bool) (p : TxPool) : TxPool :=
  if ready then set_pruneReq true p else p.

Definition addTx (st : store) (ready : bool) (tx : Transaction) (p : TxPool)
    : TxPool * option txErr :=
  match validateTx st tx p with
  | Err e => (p, Some e)
  | Ok tx =>
      let pressure := highPressure p in
      let p := if pressure then signalPruning ready p else p in
      let future :=
        match accounts p !! tx_From tx with
        | Some a => tx_Nonce tx >? nextNonce a
        | None => false
        end in
      if pressure && future then (p, Some ErrRejectFutureTx)
      else if add64 (height p) (slotsRequired [tx]) >? gauge_max (conf p)
      then (p, Some ErrTxPoolOverflow)
      else
        let tx := ComputeHash tx in
        let '(ok, p) := index_add tx p in
        if negb ok then (p, Some ErrAlreadyKnown)
        else
          let p := createAccountOnce st (tx_From tx) p in
          let p := set_enqueueReqs (enqueueReqs p ++ [tx]) p in
          (signalEvent ADDED [tx_Hash tx] p, None)
  end.

(** ** The event loop's handlers *)

(** [None] is the nil dereference of an account that does not exist. *)
Definition handleEnqueueRequest (tx : Transaction) (p : TxPool) : option TxPool :=
  let addr := tx_From tx in
  a ← accounts p !! addr;
  match enqueue tx a with
  | Err _ => Some (index_remove [tx] p)
  | Ok a =>
      let p := update_account addr a p in
      let p := increase (slotsRequired [tx]) p in
      let p := signalEvent ENQUEUED [tx_Hash tx] p in
      if tx_Nonce tx >? nextNonce a then Some p
      else Some (send_promote (Some addr) p)
  end.

Definition handlePromoteRequest (addr : Address) (p : TxPool) : option TxPool :=
  a ← accounts p !! addr;
  let '(promoted, pruned, a) := promote a in
  let p := update_account addr a p in
  let p := index_remove pruned p in
  let p := decrease (slotsRequired pruned) p in
  let p := updatePending (Z.of_nat (length promoted)) p in
  Some (signalEvent PROMOTED (toHash promoted) p).

(** One turn of [pruneAccountsWithNonceHoles]'s [Range]. *)
Definition pruneHole (addr : Address) (p : TxPool) : TxPool :=
  match accounts p !! addr with
  | None => p
  | Some a =>
      match accountQueue.peek (enqueued a) with
      | None => p
      | Some firstTx =>
          if tx_Nonce firstTx =? nextNonce a then p
          else
            let '(removed, enq) := accountQueue.clear (enqueued a) in
            let p := update_account addr (set_enqueued enq a) p in
            let p := index_remove removed p in
            decrease (slotsRequired removed) p
      end
  end.

Definition pruneAccountsWithNonceHoles (p : TxPool) : TxPool :=
  foldl (λ p addr, pruneHole addr p) p (map_to_list (accounts p)).*1.

(** ** Building blocks *)

Definition getPrimaries (m : gmap Address account) : list Transaction :=
  omap (λ kv, accountQueue.peek (promoted kv.2)) (map_to_list m).

Definition Prepare (p : TxPool) : TxPool :=
  let p := if negb (pricedQueue.length (executables p) =? 0)
           then set_executables (pricedQueue.clear (executables p)) p else p in
  set_executables
    (foldl (λ q tx, pricedQueue.push tx q) (executables p) (getPrimaries (accounts p))) p.

Definition Peek (p : TxPool) : option Transaction * TxPool :=
  match pricedQueue.pop (executables p) with
  | None => (None, p)
  | Some (tx, q) => (Some tx, set_executables q p)
  end.

Definition Pop (tx : Transaction) (p : TxPool) : option TxPool :=
  a ← accounts p !! tx_From tx;
  let prom := match accountQueue.pop (promoted a) with
              | Some (_, q) => q
              | None => promoted a
              end in
  let a := resetDemotions (set_promoted prom a) in
  let p := update_account (tx_From tx) a p in
  let p := decrease (slotsRequired [tx]) p in
  let p := updatePending (-1) p in
  Some match accountQueue.peek (promoted a) with
       | Some tx => set_executables (pricedQueue.push tx (executables p)) p
       | None => p
       end.

(** [clearAccountQueue] of [Drop]. *)
Definition clearAccountQueue (txs : list Transaction) (p : TxPool) : TxPool :=
  decrease (slotsRequired txs) (index_remove txs p).

Definition Drop (tx : Transaction) (p : TxPool) : option TxPool :=
  a ← accounts p !! tx_From tx;
  let a := setNonce (tx_Nonce tx) a in
  let '(dropped, prom) := accountQueue.clear (promoted a) in
  let p := clearAccountQueue dropped p in
  let p := updatePending (-1 * Z.of_nat (length dropped)) p in
  let '(dropped, enq) := accountQueue.clear (enqueued a) in
  let p := clearAccountQueue dropped p in
  let p := update_account (tx_From tx) (set_enqueued enq (set_promoted prom a)) p in
  Some (signalEvent DROPPED [tx_Hash tx] p).

Definition Demote (tx : Transaction) (p : TxPool) : option TxPool :=
  a ← accounts p !! tx_From tx;
  if demotions a >=? maxAccountDemotions then
    p ← Drop tx p;
    a ← accounts p !! tx_From tx;
    Some (update_account (tx_From tx) (resetDemotions a) p)
  else
    let p := update_account (tx_From tx) (incrementDemotions a) p in
    Some (signalEvent DEMOTED [tx_Hash tx] p).

(** ** Following the chain *)

(** One turn of [resetAccounts]' loop, with the pruned lists so far. *)
Definition resetAccount (acc : list Transaction * list Transaction * TxPool)
    (kv : Address * Z) : list Transaction * list Transaction * TxPool :=
  let '(allPrunedPromoted, allPrunedEnqueued, p) := acc in
  let '(addr, newNonce) := kv in
  match accounts p !! addr with
  | None => acc
  | Some a =>
      let '(prunedPromoted, prunedEnqueued, signal, a) := reset newNonce a in
      let p := update_account addr (resetDemotions a) p in
      (allPrunedPromoted ++ prunedPromoted, allPrunedEnqueued ++ prunedEnqueued,
       send_promote signal p)
  end.

(** The callback [cleanup]. *)
Definition cleanup (stale : list Transaction) (p : TxPool) : TxPool :=
  decrease (slotsRequired stale) (index_remove stale p).

Definition resetAccounts (stateNonces : gmap Address Z) (p : TxPool) : TxPool :=
  if decide (size stateNonces = 0%nat) then p
  else
    let '(pp, pe, p) := foldl resetAccount ([], [], p) (map_to_list stateNonces) in
    let p := if (0 <? length pp)%nat
             then updatePending (-1 * Z.of_nat (length pp))
                    (signalEvent PRUNED_PROMOTED (toHash pp) (cleanup pp p))
             else p in
    if (0 <? length pe)%nat
    then signalEvent PRUNED_ENQUEUED (toHash pe) (cleanup pe p)
    else p.

(** One turn of [updateAccountSkipsCounts]' [Range]. *)
Definition updateAccountSkips (latestActive : gmap Address Z) (addr : Address)
    (p : TxPool) : option TxPool :=
  match accounts p !! addr with
  | None => Some p
  | Some a =>
      match latestActive !! addr with
      | Some _ => Some (update_account addr (resetSkips a) p)
      | None =>
          match getLowestTx a with
          | None => Some p
          | Some firstTx =>
              let a := incrementSkips a in
              let p := update_account addr a p in
              if skips a <? maxAccountSkips then Some p
              else
                p ← Drop firstTx p;
                a ← accounts p !! addr;
                Some (update_account addr (resetSkips a) p)
          end
      end
  end.

Definition updateAccountSkipsCounts (latestActive : gmap Address Z) (p : TxPool)
    : option TxPool :=
  foldl (λ p addr, p ≫= updateAccountSkips latestActive addr) (Some p)
    (map_to_list (accounts p)).*1.

(** The inner loop over a new block's transactions: the latest nonce of every
    account seen first here, and the old transactions still to return. *)
Definition collectNonce (st : store) (acc : gmap Address Z * gmap Hash Transaction)
    (tx : Transaction) : gmap Address Z * gmap Hash Transaction :=
  let '(stateNonces, oldTxs) := acc in
  match (if tx_From tx =? ZeroAddress then Sender st tx else Some (tx_From tx)) with
  | None => acc
  | Some addr =>
      match stateNonces !! addr with
      | Some _ => acc
      | None =>
          (<[addr := GetNonce st (Header_StateRoot st) addr]> stateNonces,
           delete (tx_Hash tx) oldTxs)
      end
  end.

Definition collectHeader (st : store)
    (acc : gmap Address Z * gmap Hash Transaction * TxPool) (hash : Hash)
    : gmap Address Z * gmap Hash Transaction * TxPool :=
  let '(nonces, oldTxs, p) := acc in
  match GetBlockByHash st hash with
  | None => acc
  | Some txs =>
      (foldl (collectNonce st) (nonces, oldTxs) txs, index_remove txs p)
  end.

Definition collectOld (st : store) (oldTxs : gmap Hash Transaction) (hash : Hash)
    : gmap Hash Transaction :=
  match GetBlockByHash st hash with
  | None => oldTxs
  | Some txs => foldl (λ m tx, <[tx_Hash tx := tx]> m) oldTxs txs
  end.

(** The event's chains are given by their header hashes. *)
Definition processEvent (st : store) (ready : bool) (oldChain newChain : list Hash)
    (p : TxPool) : option TxPool :=
  let oldTxs := foldl (collectOld st) ∅ oldChain in
  let '(stateNonces, oldTxs, p) := foldl (collectHeader st) (∅, oldTxs, p) newChain in
  let p := foldl (λ p kv, (addTx st ready kv.2 p).1) p (map_to_list oldTxs) in
  let p := resetAccounts stateNonces p in
  if negb (sealing p) then updateAccountSkipsCounts stateNonces p else Some p.

Definition ResetWithHeaders (st : store) (ready : bool) (headers : list Hash) (p : TxPool)
    : option TxPool := processEvent st ready [] headers p.

(** ** Queries *)

Definition pool_GetNonce (st : store) (addr : Address) (p : TxPool) : Z :=
  match accounts p !! addr with
  | None => GetNonce st (Header_StateRoot st) addr
  | Some a => nextNonce a
  end.
Definition GetCapacity (p : TxPool) : Z * Z := (height p, gauge_max (conf p)).
Definition GetPendingTx (hash : Hash) (p : TxPool) : option Transaction := index p !! hash.
Definition Length (p : TxPool) : Z :=
  foldl (λ total kv, add64 total (accountQueue.length (promoted kv.2))) 0
    (map_to_list (accounts p)).

Definition GetTxs (inclQueued : bool) (p : TxPool)
    : gmap Address (list Transaction) * gmap Address (list Transaction) :=
  let pick (sel : account → list Transaction) :=
    omap (λ a, if accountQueue.length (sel a) =? 0 then None else Some (sel a)) (accounts p) in
  (pick promoted, if inclQueued then pick enqueued else ∅).
End handlers.
