(* ===== verification/TxPoolInv.v ===== *)
(** The invariant of the transaction pool and its preservation by every
    handler: the accounts are well formed, the gauge and the pending counter
    are the sums they stand for, no request refers to a missing account, and
    no promotable transaction waits without a promotion request in flight. *)
From S2P Require Import Prelude GoHeap Types TxQueue TxAccount Intrinsic TxPool.

Section invariant.
Context `{External}.

Definition acc_slots (a : account) : Z := sumZ slots (enqueued a) + sumZ slots (promoted a).
Definition acc_promoted (a : account) : Z := Z.of_nat (length (promoted a)).

Record acc_ok (addr : Address) (a : account) : Prop := {
  ok_inv : acc_inv a;
  ok_from_enq : Forall (λ tx, tx_From tx = addr) (enqueued a);
  ok_from_prom : Forall (λ tx, tx_From tx = addr) (promoted a);
}.

(** The head of the enqueued queue is the expected transaction. *)
Definition promotable (a : account) : Prop :=
  ∃ tx, accountQueue.peek (enqueued a) = Some tx ∧ tx_Nonce tx = nextNonce a.

(** The invariant up to a slack: [dh] slots and [dp] promoted transactions are
    still to be subtracted, and the accounts in [X] are allowed to lack their
    promotion request.  Between two handlers the slack is zero. *)
Record pool_slack (X : gset Address) (dh dp : Z) (p : TxPool) : Prop := {
  pool_acc addr a : accounts p !! addr = Some a → acc_ok addr a;
  pool_height : height p = u64 (mapsum acc_slots (accounts p) + dh);
  pool_pending : pending p = s64 (mapsum acc_promoted (accounts p) + dp);
  pool_enq : Forall (λ tx, is_Some (accounts p !! tx_From tx) ∧ tx_Nonce tx < M64 - 1)
               (enqueueReqs p);
  pool_prom : Forall (λ addr, is_Some (accounts p !! addr)) (promoteReqs p);
  pool_wake addr a :
    accounts p !! addr = Some a → promotable a → addr ∈ promoteReqs p ∨ addr ∈ X;
  pool_exec : pricedQueue.wf (executables p);
  pool_count : count p = u64 (Z.of_nat (size (accounts p)));
  pool_conf : 0 ≤ maxEnqueuedLimit (conf p);
}.

Definition pool_inv : TxPool → Prop := pool_slack ∅ 0 0.

(** ** The gauge *)

Lemma slotsRequired_sum txs : slotsRequired txs = u64 (sumZ slots txs).
Proof using.
  unfold slotsRequired.
  assert (Hg : ∀ n, foldl (λ n tx, add64 n (slots tx)) (u64 n) txs = u64 (n + sumZ slots txs)).
  { induction txs as [|tx txs IH]; intros n; simpl; [f_equal; lia|].
    unfold add64. rewrite u64_add_l, IH. f_equal. fold (sumZ slots txs). lia. }
  exact (Hg 0).
Qed.

Lemma decrease_height n p : height (decrease n p) = u64 (height p - n).
Proof using.
  unfold decrease, add64, sub64, Z.lnot. simpl. rewrite u64_add_r.
  replace (height p + Z.pred (- u64 (n - 1))) with (height p - 1 - u64 (n - 1)) by lia.
  rewrite u64_sub_r. f_equal. lia.
Qed.

(** ** Frame lemmas: how each elementary step moves the slack *)

Lemma slack_decrease X dh dp txs p :
  pool_slack X dh dp p → pool_slack X (dh - sumZ slots txs) dp (decrease (slotsRequired txs) p).
Proof using.
  intros []. split; try done.
  rewrite decrease_height, slotsRequired_sum, u64_sub_r, pool_height0, u64_sub_l.
  f_equal. simpl. lia.
Qed.

Lemma slack_increase X dh dp txs p :
  pool_slack X dh dp p → pool_slack X (dh + sumZ slots txs) dp (increase (slotsRequired txs) p).
Proof using.
  intros []. split; try done. simpl. unfold add64.
  rewrite slotsRequired_sum, u64_add_r, pool_height0, u64_add_l. f_equal. lia.
Qed.

Lemma slack_pending X dh dp i p :
  pool_slack X dh dp p → pool_slack X dh (dp + i) (updatePending i p).
Proof using.
  intros []. split; try done. simpl. rewrite pool_pending0, s64_add_l. f_equal. lia.
Qed.

Lemma slack_index X dh dp txs p : pool_slack X dh dp p → pool_slack X dh dp (index_remove txs p).
Proof using. by intros []. Qed.

Lemma slack_event X dh dp e hs p : pool_slack X dh dp p → pool_slack X dh dp (signalEvent e hs p).
Proof using. by intros []. Qed.

Lemma slack_exec X dh dp q p :
  pricedQueue.wf q → pool_slack X dh dp p → pool_slack X dh dp (set_executables q p).
Proof using. by intros ? []. Qed.

Lemma slack_send_promote X dh dp o p :
  pool_slack X dh dp p →
  (∀ addr, o = Some addr → is_Some (accounts p !! addr)) →
  pool_slack (X ∖ option_to_set o) dh dp (send_promote o p).
Proof using.
  intros [] Ho. destruct o as [addr|].
  - split; try done; simpl.
    + apply Forall_app. split; [done|]. constructor; [by apply Ho|done].
    + intros b a Hb Hp. rewrite elem_of_app, list_elem_of_singleton, elem_of_difference,
        elem_of_singleton.
      destruct (decide (b = addr)); [by auto|].
      destruct (pool_wake0 b a Hb Hp); auto.
  - split; try done. simpl. by rewrite difference_empty_L.
Qed.

Lemma slack_update X dh dp addr a a' p :
  pool_slack X dh dp p → accounts p !! addr = Some a → acc_ok addr a' →
  (promotable a' → addr ∈ promoteReqs p ∨ addr ∈ X) →
  pool_slack X (dh + acc_slots a - acc_slots a') (dp + acc_promoted a - acc_promoted a')
    (update_account addr a' p).
Proof using.
  intros [] Ha Hok Hw. split; try done; simpl.
  - intros b c. rewrite lookup_insert. case_decide as Heq; [|apply pool_acc0].
    destruct Heq. intros; by simplify_eq.
  - rewrite pool_height0, (mapsum_insert_Some _ _ _ a) by done. f_equal. lia.
  - rewrite pool_pending0, (mapsum_insert_Some _ _ _ a) by done. f_equal. lia.
  - eapply Forall_impl; [exact pool_enq0|]. intros tx [? ?]. split; [|done].
    rewrite lookup_insert. case_decide; eauto.
  - eapply Forall_impl; [exact pool_prom0|]. intros b ?. cbn.
    rewrite lookup_insert. case_decide; eauto.
  - intros b c. rewrite lookup_insert. case_decide as Heq; [|apply pool_wake0].
    subst. intros ? Hp. simplify_eq. by apply Hw.
  - rewrite map_size_insert_Some by eauto. done.
Qed.

(** Adjusting the slack by an equation. *)
Lemma slack_eq X dh dp dh' dp' p :
  pool_slack X dh dp p → dh = dh' → dp = dp' → pool_slack X dh' dp' p.
Proof using. by intros ? -> ->. Qed.

Lemma slack_weaken X Y dh dp p : pool_slack X dh dp p → X ⊆ Y → pool_slack Y dh dp p.
Proof using. intros [] ?. split; try done. intros. edestruct pool_wake0; eauto. Qed.

Lemma slack_close X addr a dh dp p :
  pool_slack X dh dp p → accounts p !! addr = Some a → ¬ promotable a →
  pool_slack (X ∖ {[addr]}) dh dp p.
Proof using.
  intros [] Ha Hn. split; try done. intros b c Hb Hp.
  rewrite elem_of_difference, elem_of_singleton.
  destruct (decide (b = addr)) as [->|]; [by simplify_eq|].
  destruct (pool_wake0 b c Hb Hp); auto.
Qed.

(** ** Accounts *)

Lemma promotable_iff a :
  acc_inv a → promotable a ↔ ∃ tx, tx ∈ enqueued a ∧ tx_Nonce tx = nextNonce a.
Proof using.
  intros [Hwf _ _ Hn _ _ _]. rewrite Forall_forall in Hn. split.
  - intros (tx & Hp & ?). exists tx. split; [|done]. by eapply list_elem_of_lookup_2.
  - intros (tx & Hin & Heq). destruct (accountQueue.peek (enqueued a)) as [h|] eqn:Hp.
    + exists h. split; [done|]. pose proof (accountQueue.peek_min _ _ tx Hwf Hp Hin).
      assert (h ∈ enqueued a) as Hh by (by eapply list_elem_of_lookup_2).
      pose proof (Hn h Hh). lia.
    + apply accountQueue.peek_None in Hp. rewrite Hp in Hin. by apply elem_of_nil in Hin.
Qed.

Lemma empty_not_promotable a : enqueued a = [] → ¬ promotable a.
Proof using. intros He (tx & Hp & _). by rewrite He in Hp. Qed.

(** Changing only the counters of an account. *)
Lemma acc_ok_counters addr a a' :
  acc_ok addr a → enqueued a' = enqueued a → promoted a' = promoted a →
  nextNonce a' = nextNonce a → maxEnqueued a' = maxEnqueued a → acc_ok addr a'.
Proof using.
  intros [[] ? ?] He Hp Hn Hm. split; rewrite ?He, ?Hp; try done.
  split; by rewrite ?He, ?Hp, ?Hn, ?Hm.
Qed.

Lemma slack_counters X dh dp addr a a' p :
  pool_slack X dh dp p → accounts p !! addr = Some a →
  enqueued a' = enqueued a → promoted a' = promoted a →
  nextNonce a' = nextNonce a → maxEnqueued a' = maxEnqueued a →
  pool_slack X dh dp (update_account addr a' p).
Proof using.
  intros Hs Ha He Hp Hn Hm.
  assert (Hok : acc_ok addr a) by (by eapply pool_acc).
  eapply slack_eq; [eapply (slack_update X dh dp addr a a')|..]; try done.
  - by eapply acc_ok_counters.
  - unfold promotable. rewrite He, Hn. by eapply pool_wake.
  - unfold acc_slots. rewrite He, Hp. lia.
  - unfold acc_promoted. rewrite Hp. lia.
Qed.

(** ** Adding *)

(** The 64-bit nonces a well-typed store returns. *)
Definition store_ok (st : store) : Prop := ∀ root addr, is_u64 (GetNonce st root addr).

Lemma createAccountOnce_slack X dh dp st addr p :
  store_ok st → pool_slack X dh dp p → pool_slack X dh dp (createAccountOnce st addr p).
Proof using.
  intros Hst []. unfold createAccountOnce. destruct (accounts p !! addr) eqn:Ha; [by split|].
  set (a := newAccount _ _). split; try done; simpl.
  - intros b c. rewrite lookup_insert. case_decide as Heq; [|apply pool_acc0].
    subst b. intros. simplify_eq. split; [|by constructor..].
    apply newAccount_inv; [done|apply Hst].
  - by rewrite mapsum_insert_None, pool_height0 by done.
  - by rewrite mapsum_insert_None, pool_pending0 by done.
  - eapply Forall_impl; [exact pool_enq0|]. intros tx [? ?]. split; [|done].
    rewrite lookup_insert. case_decide; eauto.
  - eapply Forall_impl; [exact pool_prom0|]. intros b ?. cbn.
    rewrite lookup_insert. case_decide; eauto.
  - intros b c. rewrite lookup_insert. case_decide as Heq; [|apply pool_wake0].
    intros [= <-] Hp. exfalso. by apply (empty_not_promotable a).
  - rewrite map_size_insert_None by done. unfold add64.
    rewrite pool_count0, u64_add_l. f_equal. lia.
Qed.

Lemma createAccountOnce_exists st addr p :
  is_Some (accounts (createAccountOnce st addr p) !! addr).
Proof using.
  unfold createAccountOnce. destruct (accounts p !! addr) eqn:Ha; [by eauto|].
  simpl. rewrite lookup_insert_eq. eauto.
Qed.

Lemma validateTx_nonce st tx tx' p : validateTx st tx p = Ok tx' → tx_Nonce tx' = tx_Nonce tx.
Proof using. unfold validateTx. intros Hv. by go_cases. Qed.

Lemma addTx_slack X dh dp st ready tx p :
  store_ok st → tx_Nonce tx < M64 - 1 → pool_slack X dh dp p →
  pool_slack X dh dp (addTx st ready tx p).1.
Proof using.
  intros Hst Htx Hs. unfold addTx.
  destruct (validateTx st tx p) as [tx'|] eqn:Hv; [|done].
  apply validateTx_nonce in Hv.
  assert (Hs' : pool_slack X dh dp (if highPressure p then signalPruning ready p else p)).
  { unfold signalPruning. destruct (highPressure p), ready; try done. by destruct Hs. }
  revert Hs'. generalize (if highPressure p then signalPruning ready p else p). clear Hs.
  intros q Hs. destruct (highPressure p && _); [done|].
  destruct (_ >? _); [done|]. unfold index_add. simpl.
  destruct (index q !! _); [done|]. simpl.
  apply slack_event. set (q1 := set_index _ q).
  assert (Hs1 : pool_slack X dh dp q1) by (by destruct Hs).
  pose proof (createAccountOnce_slack X dh dp st (tx_From tx') q1 Hst Hs1) as [].
  split; try done. simpl. apply Forall_app. split; [done|].
  constructor; [|done]. simpl. split; [apply createAccountOnce_exists|lia].
Qed.

(** ** The handlers *)

Lemma handleEnqueueRequest_slack X dh dp tx p :
  pool_slack X dh dp p → is_Some (accounts p !! tx_From tx) → tx_Nonce tx < M64 - 1 →
  ∃ p', handleEnqueueRequest tx p = Some p' ∧ pool_slack X dh dp p'.
Proof using.
  intros Hs [a Ha] Htx. unfold handleEnqueueRequest. rewrite Ha. simpl.
  pose proof (pool_acc _ _ _ _ Hs _ _ Ha) as [Hinv Hfe Hfp].
  destruct (enqueue tx a) as [a'|e] eqn:He; [|eauto using slack_index].
  pose proof (enqueue_inv tx a a' Hinv He Htx) as Hinv'.
  assert (a' = set_enqueued (accountQueue.push tx (enqueued a)) a) as ->
    by (unfold enqueue in He; by go_cases).
  set (a' := set_enqueued _ a) in *.
  assert (Hok' : acc_ok (tx_From tx) a').
  { split; [done| |done]. simpl. rewrite accountQueue.push_Permutation. by constructor. }
  assert (Hsl : acc_slots a' = acc_slots a + sumZ slots [tx]).
  { unfold acc_slots. simpl. rewrite accountQueue.push_Permutation, sumZ_cons. lia. }
  assert (Hup : ∀ Y, (promotable a' → tx_From tx ∈ promoteReqs p ∨ tx_From tx ∈ Y) → X ⊆ Y →
    pool_slack Y dh dp (signalEvent ENQUEUED [tx_Hash tx]
      (increase (slotsRequired [tx]) (update_account (tx_From tx) a' p)))).
  { intros Y Hw HXY. apply slack_event. eapply slack_eq.
    - apply slack_increase. apply (slack_update Y dh dp _ a); try done. by eapply slack_weaken.
    - rewrite Hsl. lia.
    - unfold acc_promoted. simpl. lia. }
  destruct (Z.gtb_spec (tx_Nonce tx) (nextNonce a')) as [Hgt|Hle]; eexists; (split; [done|]).
  - apply Hup; [|done]. intros (y & Hy & Hn)%promotable_iff; [|done].
    simpl in Hy, Hgt. rewrite accountQueue.push_Permutation, elem_of_cons in Hy.
    destruct Hy as [->|Hy]; [simpl in *; lia|].
    apply (pool_wake _ _ _ _ Hs _ a Ha). apply promotable_iff; eauto.
  - set (q := signalEvent _ _ _).
    assert (Hq : pool_slack (X ∪ {[tx_From tx]}) dh dp q) by (apply Hup; set_solver).
    eapply slack_weaken; [apply (slack_send_promote _ _ _ (Some (tx_From tx)) _ Hq)|].
    + intros addr [= <-]. simpl. rewrite lookup_insert_eq. eauto.
    + simpl. set_solver.
Qed.

Lemma handlePromoteRequest_slack X dh dp addr p :
  pool_slack (X ∪ {[addr]}) dh dp p → is_Some (accounts p !! addr) →
  ∃ p', handlePromoteRequest addr p = Some p' ∧ pool_slack X dh dp p'.
Proof using.
  intros Hs [a Ha]. unfold handlePromoteRequest. rewrite Ha. simpl.
  pose proof (pool_acc _ _ _ _ Hs _ _ Ha) as [Hinv Hfe Hfp].
  pose proof (promote_spec a Hinv) as Hp. destruct (promote a) as [[txs pruned] a'].
  destruct Hp as [Hinv' [_ _ _ _ He Hpr Hrest _]].
  eexists. split; [done|]. apply slack_event.
  assert (Hok : acc_ok addr a').
  { rewrite He, !Forall_app in Hfe. split; [done|tauto|].
    rewrite Hpr, Forall_app. tauto. }
  eapply slack_weaken; [eapply (slack_close (X ∪ {[addr]}) addr a')|set_solver].
  - eapply slack_eq.
    + apply slack_pending, slack_decrease, slack_index.
      by apply (slack_update (X ∪ {[addr]}) dh dp addr a a' p Hs Ha Hok); set_solver.
    + unfold acc_slots. rewrite He, Hpr, !sumZ_app. lia.
    + unfold acc_promoted. rewrite Hpr, length_app. lia.
  - simpl. by rewrite lookup_insert_eq.
  - rewrite promotable_iff by done. intros (tx & Htx & Heq).
    rewrite Forall_forall in Hrest. pose proof (Hrest tx Htx). lia.
Qed.

(** An account emptied of its enqueued queue, or of both. *)
Lemma acc_ok_clear_enqueued addr a : acc_ok addr a → acc_ok addr (set_enqueued [] a).
Proof using.
  intros [[] ? ?]. split; [|by constructor|done]. split; simpl; try done; auto with go. lia.
Qed.

Lemma acc_ok_clear addr a n :
  acc_ok addr a → is_u64 n → acc_ok addr (set_enqueued [] (set_promoted [] (setNonce n a))).
Proof using.
  intros [[] ? ?] [? ?]. split; [|by constructor..]. split; simpl; try done; auto with go. lia.
Qed.

Lemma pruneHole_slack X dh dp addr p :
  pool_slack X dh dp p → pool_slack X dh dp (pruneHole addr p).
Proof using.
  intros Hs. unfold pruneHole. destruct (accounts p !! addr) as [a|] eqn:Ha; [|done].
  destruct (accountQueue.peek _) as [tx|]; [|done]. destruct (_ =? _); [done|]. simpl.
  eapply slack_eq.
  - apply slack_decrease, slack_index, (slack_update X dh dp addr a); try done.
    + by eapply acc_ok_clear_enqueued, pool_acc.
    + intros Hp. by apply empty_not_promotable in Hp.
  - unfold acc_slots. simpl. lia.
  - unfold acc_promoted. simpl. lia.
Qed.

Lemma pruneAccountsWithNonceHoles_slack X dh dp p :
  pool_slack X dh dp p → pool_slack X dh dp (pruneAccountsWithNonceHoles p).
Proof using.
  unfold pruneAccountsWithNonceHoles. generalize ((map_to_list (accounts p)).*1).
  intros l. revert p. induction l as [|addr l IH]; intros p Hs; simpl; [done|].
  apply IH. by apply pruneHole_slack.
Qed.

(** ** Building blocks *)

Lemma foldl_push_wf l q :
  pricedQueue.wf q → pricedQueue.wf (foldl (λ q tx, pricedQueue.push tx q) q l).
Proof using. revert q. induction l; simpl; eauto using pricedQueue.priced_push_wf. Qed.

Lemma Prepare_slack X dh dp p : pool_slack X dh dp p → pool_slack X dh dp (Prepare p).
Proof using.
  intros Hs. unfold Prepare.
  assert (Hs' : pool_slack X dh dp (if negb (pricedQueue.length (executables p) =? 0)
    then set_executables (pricedQueue.clear (executables p)) p else p)).
  { case_match; [|done]. apply slack_exec; [apply heap_nil|done]. }
  apply slack_exec; [|done]. by eapply foldl_push_wf, pool_exec.
Qed.

Lemma Peek_slack X dh dp p : pool_slack X dh dp p → pool_slack X dh dp (Peek p).2.
Proof using.
  intros Hs. unfold Peek. destruct (pricedQueue.pop _) as [[tx q]|] eqn:Hp; [|done].
  simpl. apply slack_exec; [|done].
  destruct (pricedQueue.priced_pop_spec (executables p)) as (? & ? & Hp' & ? & _).
  - by eapply pool_exec.
  - intros He. by rewrite He in Hp.
  - by simplify_eq.
Qed.

Lemma Pop_slack X dh dp tx a p :
  pool_slack X dh dp p → accounts p !! tx_From tx = Some a →
  accountQueue.peek (promoted a) = Some tx →
  ∃ p', Pop tx p = Some p' ∧ pool_slack X dh dp p'.
Proof using.
  intros Hs Ha Hpk. unfold Pop. rewrite Ha. simpl.
  pose proof (pool_acc _ _ _ _ Hs _ _ Ha) as [[He Hp Hn Hen Hpn Hpl Hb] Hfe Hfp].
  destruct (accountQueue.pop_spec _ _ Hp Hpk) as (q & Hpop & Hq & Hperm). rewrite Hpop.
  set (a' := resetDemotions _).
  set (p1 := updatePending _ _).
  assert (Hs1 : pool_slack X dh dp p1).
  { eapply slack_eq.
    - apply slack_pending, slack_decrease, (slack_update X dh dp (tx_From tx) a); try done.
      + rewrite Hperm in Hfp. inversion Hfp; subst. split; try done. split; try done.
        * apply (consecutive_pop _ (promoted a) tx); [done..|].
          intros y Hy. exact (accountQueue.peek_min _ _ _ Hp Hpk Hy).
        * simpl. rewrite Hperm in Hpl. simpl in Hpl. lia.
      + by apply (pool_wake _ _ _ _ Hs _ a Ha).
    - unfold acc_slots. simpl. rewrite Hperm, sumZ_cons. lia.
    - unfold acc_promoted. simpl. rewrite Hperm. simpl. lia. }
  eexists. split; [done|]. destruct (accountQueue.peek q); [|done].
  apply slack_exec; [|done]. by eapply pricedQueue.priced_push_wf, pool_exec.
Qed.

Lemma Drop_slack X dh dp tx p :
  pool_slack X dh dp p → is_Some (accounts p !! tx_From tx) → is_u64 (tx_Nonce tx) →
  ∃ p', Drop tx p = Some p' ∧ pool_slack X dh dp p' ∧
        is_Some (accounts p' !! tx_From tx).
Proof using.
  intros Hs [a Ha] Hn. unfold Drop. rewrite Ha. simpl. eexists. split; [done|].
  split; [|simpl; rewrite lookup_insert_eq; eauto].
  pose proof (pool_acc _ _ _ _ Hs _ _ Ha) as Hok. apply slack_event. eapply slack_eq.
  - eapply (slack_update X _ _ (tx_From tx) a).
    + apply slack_decrease, slack_index, slack_pending, slack_decrease, slack_index. exact Hs.
    + done.
    + by apply acc_ok_clear.
    + intros Hp. by apply empty_not_promotable in Hp.
  - unfold acc_slots. simpl. lia.
  - unfold acc_promoted. simpl. lia.
Qed.

Lemma Demote_slack X dh dp tx p :
  pool_slack X dh dp p → is_Some (accounts p !! tx_From tx) → is_u64 (tx_Nonce tx) →
  ∃ p', Demote tx p = Some p' ∧ pool_slack X dh dp p'.
Proof using.
  intros Hs [a Ha] Hn. unfold Demote. rewrite Ha. simpl. destruct (_ >=? _).
  - destruct (Drop_slack X dh dp tx p Hs ltac:(eauto) Hn) as (p' & -> & Hs' & a' & Ha').
    simpl. rewrite Ha'. simpl. eexists. split; [done|]. by eapply slack_counters.
  - eexists. split; [done|]. apply slack_event. by eapply slack_counters.
Qed.

(** ** Following the chain *)

(** A promotable account is signalled by [reset], or was promotable before. *)
Lemma reset_signal addr n a pp pe sig a' :
  acc_ok addr a → reset n a = (pp, pe, sig, a') →
  (sig = None ∨ sig = Some addr) ∧ (promotable a' → sig = Some addr ∨ promotable a).
Proof using.
  intros [[He _ _ _ _ _ _] Hfe _] Hr. unfold reset in Hr.
  destruct (accountQueue.prune n (promoted a)) as [pp' prom].
  pose proof (accountQueue.prune_spec n (enqueued a) He) as Hpe. simpl in Hr.
  destruct (n <=? nextNonce a); [by simplify_eq; auto|].
  destruct (accountQueue.prune n (enqueued a)) as [pe' enq]. simplify_eq.
  unfold promotable. simpl.
  destruct (accountQueue.peek enq) as [first|] eqn:Hp; [|naive_solver].
  assert (tx_From first = addr) as ->.
  { rewrite Forall_forall in Hfe. apply Hfe.
    apply (proj1 (accountQueue.pruned_at_elem _ _ _ _ first Hpe)).
    by eapply list_elem_of_lookup_2. }
  destruct (Z.eqb_spec (tx_Nonce first) n); naive_solver.
Qed.

Lemma resetAccount_slack X dh dp pp pe p kv :
  pool_slack X (dh + sumZ slots pp + sumZ slots pe) (dp + Z.of_nat (length pp)) p →
  is_u64 kv.2 →
  let '(pp', pe', p') := resetAccount (pp, pe, p) kv in
  pool_slack X (dh + sumZ slots pp' + sumZ slots pe') (dp + Z.of_nat (length pp')) p'.
Proof using.
  destruct kv as [addr n]. simpl. intros Hs Hn.
  destruct (accounts p !! addr) as [a|] eqn:Ha; [|done].
  pose proof (pool_acc _ _ _ _ Hs _ _ Ha) as Hok. pose proof Hok as [Hinv Hfe Hfp].
  pose proof (reset_spec n a Hinv Hn) as Hr.
  destruct (reset n a) as [[[pp1 pe1] sig] a1] eqn:Hra.
  destruct (reset_signal addr n a pp1 pe1 sig a1 Hok Hra) as [Hsig Hw].
  destruct Hr as (Hinv1 & _ & [Hpp _ _ _] & [Hpe _ _ _]).
  assert (Hup : pool_slack (X ∪ option_to_set sig)
    (dh + sumZ slots (pp ++ pp1) + sumZ slots (pe ++ pe1))
    (dp + Z.of_nat (length (pp ++ pp1))) (update_account addr (resetDemotions a1) p)).
  { eapply slack_eq.
    - apply (slack_update _ (dh + sumZ slots pp + sumZ slots pe)
        (dp + Z.of_nat (length pp)) addr a); [|done|..].
      + eapply slack_weaken; [done|set_solver].
      + rewrite Hpe, Forall_app in Hfe. rewrite Hpp, Forall_app in Hfp.
        split; [by destruct Hinv1|tauto..].
      + intros Hp. destruct (Hw Hp) as [->|Hp']; [simpl; set_solver|].
        destruct (pool_wake _ _ _ _ Hs _ a Ha Hp'); set_solver.
    - unfold acc_slots. simpl. rewrite Hpp, Hpe, !sumZ_app. lia.
    - unfold acc_promoted. simpl. rewrite Hpp, !length_app. lia. }
  eapply slack_weaken; [apply (slack_send_promote _ _ _ sig _ Hup)|].
  - intros b ->. destruct Hsig as [|[= ->]]; [done|]. simpl. rewrite lookup_insert_eq. eauto.
  - set_solver.
Qed.

Lemma foldl_resetAccount_slack X dh dp l pp pe p :
  Forall (λ kv : Address * Z, is_u64 kv.2) l →
  pool_slack X (dh + sumZ slots pp + sumZ slots pe) (dp + Z.of_nat (length pp)) p →
  let '(pp', pe', p') := foldl resetAccount (pp, pe, p) l in
  pool_slack X (dh + sumZ slots pp' + sumZ slots pe') (dp + Z.of_nat (length pp')) p'.
Proof using.
  intros Hl. revert pp pe p. induction Hl as [|kv l Hkv Hl IH]; intros pp pe p Hs; [done|].
  cbn [foldl]. pose proof (resetAccount_slack X dh dp pp pe p kv Hs Hkv) as Hs1.
  destruct (resetAccount (pp, pe, p) kv) as [[pp1 pe1] p1]. by apply IH.
Qed.

Lemma cleanup_slack X dh dp txs p :
  pool_slack X (dh + sumZ slots txs) dp p → pool_slack X dh dp (cleanup txs p).
Proof using.
  intros Hs. eapply slack_eq; [by apply slack_decrease, slack_index|lia|done].
Qed.

Lemma resetAccounts_slack X dh dp nonces p :
  (∀ addr n, nonces !! addr = Some n → is_u64 n) → pool_slack X dh dp p →
  pool_slack X dh dp (resetAccounts nonces p).
Proof using.
  intros Hn Hs. unfold resetAccounts. case_decide; [done|].
  pose proof (foldl_resetAccount_slack X dh dp (map_to_list nonces) [] [] p) as Hf.
  destruct (foldl resetAccount ([], [], p) (map_to_list nonces)) as [[pp pe] q].
  assert (Hq : pool_slack X (dh + sumZ slots pe + sumZ slots pp) (dp + Z.of_nat (length pp)) q).
  { eapply slack_eq; [apply Hf|lia..].
    - apply Forall_forall. intros [addr n] ?%elem_of_map_to_list. by eapply Hn.
    - eapply slack_eq; [done|simpl; lia..]. }
  clear Hf. set (q1 := if (0 <? length pp)%nat then _ else q).
  assert (Hq1 : pool_slack X (dh + sumZ slots pe) dp q1).
  { subst q1. destruct pp as [|tx pp]; simpl.
    - eapply slack_eq; [exact Hq|simpl; lia..].
    - eapply slack_eq; [apply slack_pending, slack_event, cleanup_slack; exact Hq|done|].
      simpl. lia. }
  destruct pe as [|tx pe]; simpl.
  - eapply slack_eq; [exact Hq1|simpl; lia..].
  - by apply slack_event, cleanup_slack.
Qed.

(** The lowest transaction of an account is one of its own. *)
Lemma getLowestTx_ok addr a tx :
  acc_ok addr a → getLowestTx a = Some tx → tx_From tx = addr ∧ is_u64 (tx_Nonce tx).
Proof using.
  intros [[_ _ Hn Hen Hpn Hpl _] Hfe Hfp] Hl. unfold getLowestTx in Hl.
  rewrite Forall_forall in Hfe, Hfp, Hen.
  destruct (accountQueue.peek (promoted a)) as [t|] eqn:Hp; simplify_eq.
  - assert (tx ∈ promoted a) as Hin by (by eapply list_elem_of_lookup_2).
    split; [by apply Hfp|]. pose proof (consecutive_elem _ _ _ Hpn Hin). unfold is_u64. lia.
  - assert (tx ∈ enqueued a) as Hin by (by eapply list_elem_of_lookup_2).
    split; [by apply Hfe|]. pose proof (Hen _ Hin). unfold is_u64. lia.
Qed.

Lemma updateAccountSkips_slack X dh dp latest addr p :
  pool_slack X dh dp p →
  ∃ p', updateAccountSkips latest addr p = Some p' ∧ pool_slack X dh dp p'.
Proof using.
  intros Hs. unfold updateAccountSkips.
  destruct (accounts p !! addr) as [a|] eqn:Ha; [|eauto].
  destruct (latest !! addr); [eexists; split; [done|by eapply slack_counters]|].
  destruct (getLowestTx a) as [tx|] eqn:Hl; [|eauto].
  set (p1 := update_account addr (incrementSkips a) p).
  assert (Hs1 : pool_slack X dh dp p1) by (by eapply slack_counters).
  destruct (_ <? _); [eauto|].
  destruct (getLowestTx_ok addr a tx) as [<- Hn]; [exact (pool_acc _ _ _ _ Hs _ _ Ha)|done|].
  destruct (Drop_slack X dh dp tx p1 Hs1) as (p2 & -> & Hs2 & a2 & Ha2); [|done|].
  { subst p1. simpl. rewrite lookup_insert_eq. eauto. }
  simpl. rewrite Ha2. simpl. eexists. split; [done|]. by eapply slack_counters.
Qed.

Lemma updateAccountSkipsCounts_slack X dh dp latest p :
  pool_slack X dh dp p →
  ∃ p', updateAccountSkipsCounts latest p = Some p' ∧ pool_slack X dh dp p'.
Proof using.
  unfold updateAccountSkipsCounts. generalize ((map_to_list (accounts p)).*1).
  intros l. revert p. induction l as [|addr l IH]; intros p Hs; simpl; [eauto|].
  destruct (updateAccountSkips_slack X dh dp latest addr p Hs) as (p' & -> & Hs').
  by apply IH.
Qed.

Lemma collectNonce_step st acc tx :
  collectNonce st acc tx = acc ∨
  ∃ addr, collectNonce st acc tx =
    (<[addr := GetNonce st (Header_StateRoot st) addr]> acc.1, delete (tx_Hash tx) acc.2).
Proof using.
  destruct acc as [m o]. unfold collectNonce.
  destruct (if _ =? _ then _ else _) as [addr|]; [|by left].
  destruct (m !! addr); [by left|]. right. by exists addr.
Qed.

(** The nonces collected from the new blocks come from the store. *)
Lemma collectNonce_u64 st l acc :
  store_ok st → (∀ a n, acc.1 !! a = Some n → is_u64 n) →
  ∀ a n, (foldl (collectNonce st) acc l).1 !! a = Some n → is_u64 n.
Proof using.
  intros Hst. revert acc. induction l as [|tx l IH]; intros acc Hm; cbn [foldl]; [done|].
  apply IH. destruct (collectNonce_step st acc tx) as [->|[addr ->]]; [done|].
  cbn [fst]. intros a n. rewrite lookup_insert.
  case_decide; [|apply Hm]. intros [= <-]. apply Hst.
Qed.

(** Every old transaction's nonce is below the largest one. *)
Definition txs_ok (m : gmap Hash Transaction) : Prop :=
  ∀ h tx, m !! h = Some tx → tx_Nonce tx < M64 - 1.
Definition blocks_ok (st : store) : Prop :=
  ∀ h txs tx, GetBlockByHash st h = Some txs → tx ∈ txs → tx_Nonce tx < M64 - 1.

Lemma collectNonce_txs st l acc :
  txs_ok acc.2 → txs_ok (foldl (collectNonce st) acc l).2.
Proof using.
  revert acc. induction l as [|tx l IH]; intros acc Ho; cbn [foldl]; [done|].
  apply IH. destruct (collectNonce_step st acc tx) as [->|[addr ->]]; [done|].
  cbn [snd]. intros h t. rewrite lookup_delete. case_decide; [done|]. apply Ho.
Qed.

Lemma collectOld_ok st m h : blocks_ok st → txs_ok m → txs_ok (collectOld st m h).
Proof using.
  intros Hb Hm. unfold collectOld. destruct (GetBlockByHash st h) as [txs|] eqn:E; [|done].
  assert (Hl : Forall (λ tx, tx_Nonce tx < M64 - 1) txs).
  { apply Forall_forall. intros tx. by eapply Hb. }
  clear E Hb. revert m Hm. induction Hl as [|tx l Htx Hl IH]; intros m Hm; simpl; [done|].
  apply IH. intros k t. rewrite lookup_insert. case_decide; [by intros [= <-]|apply Hm].
Qed.

Lemma foldl_collectHeader st X dh dp l nonces olds p :
  store_ok st → pool_slack X dh dp p → txs_ok olds →
  (∀ a n, nonces !! a = Some n → is_u64 n) →
  let '(nonces', olds', p') := foldl (collectHeader st) (nonces, olds, p) l in
  pool_slack X dh dp p' ∧ txs_ok olds' ∧ ∀ a n, nonces' !! a = Some n → is_u64 n.
Proof using.
  intros Hst. revert nonces olds p. induction l as [|h l IH]; intros nonces olds p Hs Ho Hn;
    [done|]. cbn [foldl collectHeader].
  destruct (GetBlockByHash st h) as [txs|]; [|by apply IH].
  pose proof (collectNonce_u64 st txs (nonces, olds) Hst Hn) as Hn'.
  pose proof (collectNonce_txs st txs (nonces, olds) Ho) as Ho'.
  destruct (foldl (collectNonce st) (nonces, olds) txs) as [n' o'].
  apply IH; [by apply slack_index|done|done].
Qed.

Lemma processEvent_slack X dh dp st ready olds news p :
  store_ok st → blocks_ok st → pool_slack X dh dp p →
  ∃ p', processEvent st ready olds news p = Some p' ∧ pool_slack X dh dp p'.
Proof using.
  intros Hst Hb Hs. unfold processEvent.
  assert (Ho : txs_ok (foldl (collectOld st) ∅ olds)).
  { assert (H0 : txs_ok ∅) by (intros ? ?; by rewrite lookup_empty).
    revert H0. generalize (∅ : gmap Hash Transaction).
    induction olds as [|h olds IH]; intros m Hm; simpl; [done|]. by apply IH, collectOld_ok. }
  pose proof (foldl_collectHeader st X dh dp news ∅ _ p Hst Hs Ho) as Hf.
  destruct (foldl (collectHeader st) _ news) as [[nonces oldTxs] p1].
  destruct Hf as (Hs1 & Ho1 & Hn1); [intros ? ?; by rewrite lookup_empty|].
  set (p2 := foldl _ p1 _).
  assert (Hs2 : pool_slack X dh dp p2).
  { subst p2. assert (Hl : Forall (λ kv : Hash * Transaction, tx_Nonce kv.2 < M64 - 1)
      (map_to_list oldTxs)).
    { apply Forall_forall. intros [h tx] ?%elem_of_map_to_list. by eapply Ho1. }
    clear Ho1. revert p1 Hs1. induction Hl as [|kv l Hkv Hl IH]; intros q Hq; simpl; [done|].
    apply IH. by apply addTx_slack. }
  apply (resetAccounts_slack X dh dp nonces p2 Hn1) in Hs2.
  case_match; [by apply updateAccountSkipsCounts_slack|eauto].
Qed.
End invariant.
