(* ===== verification/TxPoolSpec.v ===== *)
(** The transaction pool as a transition system, and its properties. *)
From S2P Require Import Prelude GoHeap Types TxQueue TxAccount Intrinsic TxPool TxPoolInv.

Section spec.
Context `{External}.

(** One step of the pool: a call from the network or from consensus, or one of
    the requests in flight, picked in any order by the scheduler. *)
Inductive step (p : TxPool) : TxPool → Prop :=
| step_add st ready tx :
    store_ok st → tx_Nonce tx < M64 - 1 → step p (addTx st ready tx p).1
| step_enqueue l1 tx l2 p' :
    enqueueReqs p = l1 ++ tx :: l2 →
    handleEnqueueRequest tx (set_enqueueReqs (l1 ++ l2) p) = Some p' → step p p'
| step_promote l1 addr l2 p' :
    promoteReqs p = l1 ++ addr :: l2 →
    handlePromoteRequest addr (set_promoteReqs (l1 ++ l2) p) = Some p' → step p p'
| step_prune :
    pruneReq p = true → step p (pruneAccountsWithNonceHoles (set_pruneReq false p))
| step_prepare : step p (Prepare p)
| step_peek : step p (Peek p).2
| step_pop tx a p' :
    accounts p !! tx_From tx = Some a → accountQueue.peek (promoted a) = Some tx →
    Pop tx p = Some p' → step p p'
| step_drop tx p' : is_u64 (tx_Nonce tx) → Drop tx p = Some p' → step p p'
| step_demote tx p' : is_u64 (tx_Nonce tx) → Demote tx p = Some p' → step p p'
| step_event st ready olds news p' :
    store_ok st → blocks_ok st → processEvent st ready olds news p = Some p' → step p p'
| step_sealing b : step p (SetSealing b p).

Definition reachable (p : TxPool) : Prop :=
  ∃ homestead istanbul config,
    0 ≤ cfg_MaxAccountEnqueued config ∧ rtc step (NewTxPool homestead istanbul config) p.

Lemma NewTxPool_inv homestead istanbul config :
  0 ≤ cfg_MaxAccountEnqueued config → pool_inv (NewTxPool homestead istanbul config).
Proof using. intros. split; try done; auto with go. Qed.

Lemma Drop_account tx p p' : Drop tx p = Some p' → is_Some (accounts p !! tx_From tx).
Proof using. unfold Drop. destruct (accounts p !! tx_From tx); by eauto. Qed.
Lemma Demote_account tx p p' : Demote tx p = Some p' → is_Some (accounts p !! tx_From tx).
Proof using. unfold Demote. destruct (accounts p !! tx_From tx); by eauto. Qed.

(** Taking a request out of its channel. *)
Lemma take_enqueue p l1 tx l2 :
  pool_inv p → enqueueReqs p = l1 ++ tx :: l2 →
  pool_inv (set_enqueueReqs (l1 ++ l2) p) ∧
  is_Some (accounts p !! tx_From tx) ∧ tx_Nonce tx < M64 - 1.
Proof using.
  intros [] E. rewrite E in pool_enq. apply Forall_app in pool_enq as [H1 H2].
  inversion H2; subst. split; [|done]. split; try done. simpl. by apply Forall_app.
Qed.

Lemma take_promote p l1 addr l2 :
  pool_inv p → promoteReqs p = l1 ++ addr :: l2 →
  pool_slack (∅ ∪ {[addr]}) 0 0 (set_promoteReqs (l1 ++ l2) p) ∧ is_Some (accounts p !! addr).
Proof using.
  intros [] E. rewrite E in pool_prom. apply Forall_app in pool_prom as [H1 H2].
  inversion H2; subst. split; [|done]. split; try done; simpl.
  - by apply Forall_app.
  - intros b a Hb Hp. destruct (pool_wake b a Hb Hp) as [Hin|Hin]; [|set_solver].
    rewrite E, elem_of_app, elem_of_cons in Hin. rewrite elem_of_app. set_solver.
Qed.

Lemma step_inv p p' : pool_inv p → step p p' → pool_inv p'.
Proof using.
  unfold pool_inv. intros Hp Hstep. destruct Hstep.
  - by apply addTx_slack.
  - destruct (take_enqueue p l1 tx l2) as (Hs & Ha & Hn); [done..|].
    destruct (handleEnqueueRequest_slack ∅ 0 0 tx _ Hs Ha Hn) as (? & ? & ?). by simplify_eq.
  - destruct (take_promote p l1 addr l2) as (Hs & Ha); [done..|].
    destruct (handlePromoteRequest_slack ∅ 0 0 addr _ Hs Ha) as (? & ? & ?). by simplify_eq.
  - apply pruneAccountsWithNonceHoles_slack. by destruct Hp.
  - by apply Prepare_slack.
  - by apply Peek_slack.
  - destruct (Pop_slack ∅ 0 0 tx a p) as (? & ? & ?); [done..|]. by simplify_eq.
  - destruct (Drop_slack ∅ 0 0 tx p) as (? & ? & ? & ?); [by eauto using Drop_account..|].
    by simplify_eq.
  - destruct (Demote_slack ∅ 0 0 tx p) as (? & ? & ?); [by eauto using Demote_account..|].
    by simplify_eq.
  - destruct (processEvent_slack ∅ 0 0 st ready olds news p) as (? & ? & ?); [done..|].
    by simplify_eq.
  - by destruct Hp.
Qed.

Lemma reachable_inv p : reachable p → pool_inv p.
Proof using.
  intros (h & i & c & Hc & Hr). apply (NewTxPool_inv h i) in Hc.
  induction Hr; eauto using step_inv.
Qed.

Lemma mapsum_promoted_nonneg (m : gmap Address account) : 0 ≤ mapsum acc_promoted m.
Proof using. apply sumZ_nonneg. intros. unfold acc_promoted. lia. Qed.

Lemma Length_sum p : Length p = u64 (mapsum acc_promoted (accounts p)).
Proof using.
  unfold Length, mapsum. generalize (map_to_list (accounts p)). intros l.
  assert (Hg : ∀ n, foldl (λ total (kv : Address * account),
      add64 total (accountQueue.length (promoted kv.2))) (u64 n) l
    = u64 (n + sumZ (λ kv, acc_promoted kv.2) l)).
  { induction l as [|kv l IH]; intros n; simpl; [f_equal; lia|].
    unfold add64. rewrite u64_add_l, IH. f_equal. unfold acc_promoted, accountQueue.length. lia. }
  exact (Hg 0).
Qed.

(** ** Properties of every reachable pool *)


(** In every reachable pool the gauge is the number of slots the queued
    transactions occupy, the pending counter is the number of promoted
    transactions, and so is [Length] (each up to the width of the counter). *)
Theorem reachable_gauge_and_pending p :
  reachable p →
  height p = u64 (mapsum (λ a, sumZ slots (enqueued a ++ promoted a)) (accounts p)) ∧
  pending p = s64 (mapsum (λ a, Z.of_nat (length (promoted a))) (accounts p)) ∧
  Length p = u64 (mapsum (λ a, Z.of_nat (length (promoted a))) (accounts p)).
Proof using.
  intros Hr%reachable_inv. split_and!; [| |apply Length_sum].
  - rewrite (pool_height _ _ _ _ Hr). f_equal. rewrite Z.add_0_r.
    apply sumZ_ext. intros. unfold acc_slots. by rewrite sumZ_app.
  - rewrite (pool_pending _ _ _ _ Hr). f_equal. rewrite Z.add_0_r. done.
Qed.

(** C34.  No promotion is lost: in every reachable pool, an account whose
    expected transaction sits in the enqueued queue has a promotion request in
    flight; once the requests are drained no such account is left. *)
Theorem reachable_no_lost_promotion p addr a tx :
  reachable p → accounts p !! addr = Some a →
  tx ∈ enqueued a → tx_Nonce tx = nextNonce a → addr ∈ promoteReqs p.
Proof using.
  intros Hr%reachable_inv Ha Htx Hn.
  destruct (pool_acc _ _ _ _ Hr _ _ Ha) as [Hinv _ _].
  destruct (pool_wake _ _ _ _ Hr _ a Ha) as [|[]%not_elem_of_empty]; [|done].
  apply promotable_iff; eauto.
Qed.

(** The event loop never dereferences a missing account: in every
    reachable pool every request in flight is handled. *)
Theorem reachable_requests_handled p :
  reachable p →
  (∀ l1 tx l2, enqueueReqs p = l1 ++ tx :: l2 →
     is_Some (handleEnqueueRequest tx (set_enqueueReqs (l1 ++ l2) p))) ∧
  (∀ l1 addr l2, promoteReqs p = l1 ++ addr :: l2 →
     is_Some (handlePromoteRequest addr (set_promoteReqs (l1 ++ l2) p))) ∧
  (∀ st ready olds news, store_ok st → blocks_ok st →
     is_Some (processEvent st ready olds news p)).
Proof using.
  intros Hr%reachable_inv. split_and!.
  - intros l1 tx l2 E. destruct (take_enqueue p l1 tx l2 Hr E) as (Hs & Ha & Hn).
    destruct (handleEnqueueRequest_slack ∅ 0 0 tx _ Hs Ha Hn) as (? & ? & ?). eauto.
  - intros l1 addr l2 E. destruct (take_promote p l1 addr l2 Hr E) as (Hs & Ha).
    destruct (handlePromoteRequest_slack ∅ 0 0 addr _ Hs Ha) as (? & ? & ?). eauto.
  - intros st ready olds news Hst Hb.
    destruct (processEvent_slack ∅ 0 0 st ready olds news p Hst Hb Hr) as (? & ? & ?). eauto.
Qed.

(** ** Operations on one account *)

(** [promote] moves the maximal run of expected transactions: the promoted
    ones carry the consecutive nonces from the next expected one, the next
    nonce advances past them, a pruned transaction was beaten by a promoted one
    of the same nonce at no lower a price, nothing is lost or invented, and the
    new expected nonce is not in the queue any more. *)
Theorem promote_moves_expected_run a :
  acc_inv a →
  let '(txs, pruned, a') := promote a in
  tx_Nonce <$> txs = seqZ (nextNonce a) (Z.of_nat (length txs)) ∧
  nextNonce a' = nextNonce a + Z.of_nat (length txs) ∧
  enqueued a ≡ₚ txs ++ pruned ++ enqueued a' ∧
  promoted a' ≡ₚ txs ++ promoted a ∧
  Forall (λ y, ∃ x, x ∈ txs ∧ tx_Nonce x = tx_Nonce y ∧ tx_GasPrice y ≤ tx_GasPrice x) pruned ∧
  Forall (λ tx, nextNonce a' < tx_Nonce tx) (enqueued a').
Proof using.
  intros Hinv. pose proof (promote_spec a Hinv) as Hp.
  destruct (promote a) as [[txs pruned] a']. destruct Hp as [_ [? ? ? [? ?] ? ? Hr ?]].
  split_and!; try done. eapply Forall_impl; [exact Hr|]. simpl. lia.
Qed.

(** [reset] removes exactly the transactions below the new nonce from both
    queues, never lowers the next expected nonce, keeps the account well formed
    and signals the promotion of the account that became promotable. *)
Theorem reset_prunes_stale addr nonce a :
  acc_ok addr a → 0 ≤ nonce < M64 →
  let '(pp, pe, signal, a') := reset nonce a in
  acc_inv a' ∧ nextNonce a' = nextNonce a `max` nonce ∧
  (∀ tx, tx ∈ promoted a' ↔ tx ∈ promoted a ∧ nonce ≤ tx_Nonce tx) ∧
  (∀ tx, tx ∈ enqueued a' ↔ tx ∈ enqueued a ∧ nonce ≤ tx_Nonce tx) ∧
  promoted a ≡ₚ pp ++ promoted a' ∧ enqueued a ≡ₚ pe ++ enqueued a' ∧
  (promotable a' → ¬ promotable a → signal = Some addr).
Proof using.
  intros Hok Hn. pose proof (reset_spec nonce a (ok_inv _ _ Hok) Hn) as Hr.
  destruct (reset nonce a) as [[[pp pe] sig] a'] eqn:E.
  destruct (reset_signal addr nonce a pp pe sig a' Hok E) as [_ Hw].
  destruct Hr as (? & ? & Hpp & Hpe).
  split_and!; try done; [..|by destruct Hpp|by destruct Hpe|tauto]; intros tx.
  - by apply (accountQueue.pruned_at_elem _ _ _ _ tx Hpp).
  - by apply (accountQueue.pruned_at_elem _ _ _ _ tx Hpe).
Qed.

(** ** Block building *)

Lemma foldl_push_Permutation l q :
  foldl (λ q tx, pricedQueue.push tx q) q l ≡ₚ l ++ q.
Proof using.
  revert q. induction l as [|tx l IH]; intros q; simpl; [done|].
  rewrite IH, pricedQueue.priced_push_Permutation. by rewrite Permutation_middle.
Qed.

Lemma Prepare_executables p : executables (Prepare p) ≡ₚ getPrimaries (accounts p).
Proof using.
  unfold Prepare, pricedQueue.length. simpl. rewrite foldl_push_Permutation.
  destruct (Z.eqb_spec (Z.of_nat (length (executables p))) 0) as [E|E]; simpl.
  - destruct (executables p); [|simpl in E; lia]. by rewrite app_nil_r.
  - by rewrite app_nil_r.
Qed.

Lemma elem_of_primaries m tx :
  tx ∈ getPrimaries m ↔ ∃ addr a, m !! addr = Some a ∧ accountQueue.peek (promoted a) = Some tx.
Proof using.
  unfold getPrimaries. rewrite list_elem_of_omap. split.
  - intros ([addr a] & Hin%elem_of_map_to_list & Hp). eauto.
  - intros (addr & a & Hm & Hp). exists (addr, a). by rewrite elem_of_map_to_list.
Qed.

(** After [Prepare], [Peek] returns the first promoted transaction of some
    account, of the highest gas price (as 64-bit integers) among the first
    promoted transactions of all accounts, or nothing when no account has one. *)
Theorem Prepare_Peek_best_price p :
  reachable p →
  match (Peek (Prepare p)).1 with
  | Some tx =>
      (∃ addr a, accounts p !! addr = Some a ∧ accountQueue.peek (promoted a) = Some tx) ∧
      (∀ addr a y, accounts p !! addr = Some a → accountQueue.peek (promoted a) = Some y →
         Uint64 (tx_GasPrice y) ≤ Uint64 (tx_GasPrice tx))
  | None => ∀ addr a, accounts p !! addr = Some a → promoted a = []
  end.
Proof using.
  intros Hr%reachable_inv. pose proof (Prepare_executables p) as Hperm.
  apply Prepare_slack in Hr. apply pool_exec in Hr. unfold Peek.
  destruct (executables (Prepare p)) as [|t q] eqn:E.
  - simpl. intros addr a Ha.
    destruct (accountQueue.peek (promoted a)) as [tx|] eqn:Hp; [|by apply accountQueue.peek_None].
    assert (tx ∈ getPrimaries (accounts p)) as Hin by (apply elem_of_primaries; eauto).
    rewrite <- Hperm in Hin. by apply elem_of_nil in Hin.
  - destruct (pricedQueue.priced_pop_spec (t :: q)) as (tx & q' & -> & _ & Hp & Hbest); [done..|].
    simpl. split.
    + apply elem_of_primaries. rewrite <- Hperm, Hp. set_solver.
    + intros addr a y Ha Hy. apply Hbest. rewrite Hperm. apply elem_of_primaries; eauto.
Qed.

Lemma foldl_delete_lookup l (m : gmap Hash Transaction) h :
  foldl (λ m tx, delete (tx_Hash tx) m) m l !! h =
  if decide (h ∈ tx_Hash <$> l) then None else m !! h.
Proof using.
  revert m. induction l as [|tx l IH]; intros m; cbn [foldl].
  { case_decide as Hh; [by apply elem_of_nil in Hh|done]. }
  rewrite IH, lookup_delete, fmap_cons. repeat case_decide; set_solver.
Qed.

Lemma clearAccountQueue_height txs p :
  height (clearAccountQueue txs p) = u64 (height p - sumZ slots txs).
Proof using.
  unfold clearAccountQueue. by rewrite decrease_height, slotsRequired_sum, u64_sub_r.
Qed.

(** [Drop] empties the account of the transaction, rolls its next nonce
    back to the transaction's, gives back exactly its slots, and forgets its
    transactions' hashes; the other accounts are untouched. *)
Theorem Drop_clears_account tx p a :
  accounts p !! tx_From tx = Some a →
  ∃ p', Drop tx p = Some p' ∧
    accounts p' = <[tx_From tx := mkAccount [] [] (tx_Nonce tx) (demotions a) (skips a)
                                    (maxEnqueued a)]> (accounts p) ∧
    height p' = u64 (height p - sumZ slots (promoted a ++ enqueued a)) ∧
    pending p' = s64 (pending p - Z.of_nat (length (promoted a))) ∧
    (∀ h, index p' !! h = if decide (h ∈ tx_Hash <$> promoted a ++ enqueued a)
                          then None else index p !! h).
Proof using.
  intros Ha. unfold Drop. rewrite Ha. cbn [mbind option_bind accountQueue.clear promoted enqueued setNonce].
  eexists. split; [done|]. split_and!; try done.
  - change (height (clearAccountQueue (enqueued a) (updatePending
      (-1 * Z.of_nat (length (promoted a))) (clearAccountQueue (promoted a) p)))
      = u64 (height p - sumZ slots (promoted a ++ enqueued a))).
    rewrite clearAccountQueue_height. cbn [updatePending height set_pending].
    rewrite clearAccountQueue_height, u64_sub_l, sumZ_app. f_equal. lia.
  - intros h. simpl. rewrite !foldl_delete_lookup, fmap_app.
    repeat case_decide; set_solver.
Qed.

(** ** Admission *)

(** The transaction as it enters the pool: its sender is the signer. *)
Definition with_sender (from : Address) (tx : Transaction) : Transaction :=
  if tx_From tx =? ZeroAddress then set_From from tx else tx.

(** What a transaction has to satisfy to be admitted. *)
Record admissible (st : store) (c : Conf) (tx : Transaction) (from : Address) : Prop := {
  adm_size : Size tx ≤ txMaxSize;
  adm_value : 0 ≤ tx_Value tx;
  adm_sender : Sender st tx = Some from;
  adm_from : tx_From tx = ZeroAddress ∨ tx_From tx = from;
  adm_deploy : tx_To tx = None → allowed (deploymentWhitelist c) (tx_From (with_sender from tx)) = true;
  adm_price : priceLimit c ≤ tx_GasPrice tx;
  adm_nonce : GetNonce st (Header_StateRoot st) (tx_From (with_sender from tx)) ≤ tx_Nonce tx;
  adm_funds : ∃ b, GetBalance st (Header_StateRoot st) (tx_From (with_sender from tx)) = Some b ∧
                   tx_GasPrice tx * tx_Gas tx + tx_Value tx ≤ b;
  adm_gas : intrinsic_cost tx (Homestead c) (Istanbul c) ≤ tx_Gas tx ≤ Header_GasLimit st;
}.

(** A rejecting branch: some condition of [admissible] fails. *)
#[local] Ltac reject :=
  split; [done|intros (? & [] & _); destruct_and?; simplify_eq;
    first [lia | naive_solver lia]].

Lemma admissible_deploy st c tx from :
  admissible st c tx from →
  IsContractCreation tx && negb (allowed (deploymentWhitelist c) (tx_From (with_sender from tx)))
  = false.
Proof using.
  intros []. unfold IsContractCreation. destruct (tx_To tx); [done|]. simpl.
  by rewrite adm_deploy0.
Qed.

(** Filling in the sender changes nothing else. *)
Lemma with_sender_fields from tx :
  tx_Input (with_sender from tx) = tx_Input tx ∧ tx_To (with_sender from tx) = tx_To tx ∧
  tx_GasPrice (with_sender from tx) = tx_GasPrice tx ∧ tx_Gas (with_sender from tx) = tx_Gas tx ∧
  tx_Value (with_sender from tx) = tx_Value tx ∧ tx_Nonce (with_sender from tx) = tx_Nonce tx.
Proof. unfold with_sender; by case_match. Qed.

Lemma with_sender_cost from tx hs is_ :
  intrinsic_cost (with_sender from tx) hs is_ = intrinsic_cost tx hs is_.
Proof.
  destruct (with_sender_fields from tx) as (Hi & Ht & _).
  unfold intrinsic_cost, IsContractCreation. by rewrite Hi, Ht.
Qed.

(** [validateTx] accepts exactly the admissible transactions, and returns
    them with their sender filled in. *)
Theorem validateTx_admissible st tx p tx' :
  Z.of_nat (length (tx_Input tx)) < M64 →
  is_u64 (tx_Gas tx) →
  validateTx st tx p = Ok tx' ↔
  ∃ from, admissible st (conf p) tx from ∧ tx' = with_sender from tx.
Proof using.
  intros Hin Hgas. unfold validateTx. fold (Size tx).
  destruct (Sender st tx) as [from|] eqn:Hs.
  2: { split; [by intros; go_cases|]. intros (from & [] & _). congruence. }
  fold (with_sender from tx).
  destruct (with_sender_fields from tx) as (Hwi & Hwt & Hwp & Hwg & Hwv & Hwn).
  rewrite TransactionGasCost_exact by by rewrite Hwi.
  rewrite with_sender_cost. unfold IsUnderpriced, Cost, IsContractCreation.
  rewrite Hwt, Hwp, Hwg, Hwv, Hwn.
  destruct (Z.ltb_spec txMaxSize (Size tx)); [reject|].
  destruct (Z.ltb_spec (tx_Value tx) 0); [reject|].
  destruct (Z.eqb_spec (tx_From tx) ZeroAddress) as [Hz|Hz];
    [|destruct (Z.eqb_spec (tx_From tx) from) as [Hf|Hf]; [|reject]]; cbn [negb andb].
  all: fold (IsContractCreation tx).
  all: destruct (IsContractCreation tx
      && negb (allowed (deploymentWhitelist (conf p)) (tx_From (with_sender from tx)))) eqn:Hd;
    [split; [done|]; intros (f & Hadm & _); pose proof (admissible_deploy _ _ _ _ Hadm);
     destruct Hadm; congruence|].
  all: destruct (Z.ltb_spec (tx_GasPrice tx) (priceLimit (conf p))); [reject|].
  all: destruct (Z.gtb_spec (GetNonce st (Header_StateRoot st) (tx_From (with_sender from tx)))
      (tx_Nonce tx)); [reject|].
  all: destruct (GetBalance st (Header_StateRoot st) (tx_From (with_sender from tx)))
      as [b|] eqn:Hb; [|reject].
  all: destruct (Z.ltb_spec b (tx_GasPrice tx * tx_Gas tx + tx_Value tx)); [reject|].
  all: unfold is_u64 in Hgas.
  all: destruct (Z.ltb_spec (intrinsic_cost tx (Homestead (conf p)) (Istanbul (conf p))) M64);
    [|reject].
  all: destruct (Z.ltb_spec (tx_Gas tx)
      (intrinsic_cost tx (Homestead (conf p)) (Istanbul (conf p)))); [reject|].
  all: destruct (Z.gtb_spec (tx_Gas tx) (Header_GasLimit st)); [reject|].
  all: split; [intros [= <-]; exists from; split; [|done]|
               intros (f & [] & ->); simplify_eq; done].
  all: split; eauto; try lia; by intros Ht; unfold IsContractCreation in Hd; rewrite Ht in Hd; apply negb_false_iff in Hd.
Qed.
End spec.

(** ** Concrete runs *)
Module Toy.

(** An RLP writer and a hash that only keep the nonce. *)
Definition ext : External := {|
  MarshalTo v := match v with NewArray (NewUint n :: _) => [n] | _ => [] end;
  Keccak256 b := SetBytes b + 1;
|}.
#[local] Existing Instance ext.

Definition st : store :=
  mkStore 0 10000000 (λ _ _, 0) (λ _ _, Some 1000000000000) (λ _, None) (λ _, Some 7).
Definition cfg : Config := mkConfig 1 1 128 [].
Definition tx (n : Z) : Transaction :=
  mkTransaction n 5 30000 (Some 1) 0 [] None None None 0 0.

Lemma st_ok : store_ok st.
Proof. intros root addr. by vm_compute. Qed.
Lemma st_blocks : blocks_ok st.
Proof. done. Qed.

(** Two transactions are added before either is enqueued. *)
Definition p0 : TxPool := NewTxPool true true cfg.
Definition p1 : TxPool := (addTx st false (tx 0) p0).1.
Definition p2 : TxPool := (addTx st false (tx 1) p1).1.
Definition after (o : option TxPool) : TxPool := default p0 o.
Definition dequeue (p : TxPool) : TxPool := set_enqueueReqs (tail (enqueueReqs p)) p.
Definition handle (p : TxPool) : TxPool :=
  after (tx ← head (enqueueReqs p); handleEnqueueRequest tx (dequeue p)).
Definition p3 : TxPool := handle p2.
Definition p4 : TxPool := handle p3.
Definition p5 : TxPool := after (handlePromoteRequest 7 (set_promoteReqs [] p4)).

Lemma reach2 : reachable p2.
Proof.
  exists true, true, cfg. split; [by vm_compute|].
  eapply rtc_l; [apply (step_add p0 st false (tx 0)); [apply st_ok|by vm_compute]|].
  eapply rtc_l; [apply (step_add _ st false (tx 1)); [apply st_ok|by vm_compute]|].
  apply rtc_refl.
Qed.

Lemma reach_step p p' : reachable p → step p p' → reachable p'.
Proof. intros (h & i & c & ? & ?) ?. exists h, i, c. split; [done|]. by eapply rtc_r. Qed.

Lemma reach4 : reachable p4.
Proof.
  apply reach_step with p3; [apply reach_step with p2; [apply reach2|]|].
  - eapply (step_enqueue p2 [] _ _ p3); vm_compute; reflexivity.
  - eapply (step_enqueue p3 [] _ _ p4); vm_compute; reflexivity.
Qed.

Lemma reach5 : reachable p5.
Proof.
  apply reach_step with p4; [apply reach4|].
  eapply (step_promote p4 [] 7 []); vm_compute; reflexivity.
Qed.

(** The limit is checked before the gauge moves, so transactions in flight
    together overshoot it: here one slot is allowed and two are taken. *)
Theorem gauge_limit_is_soft :
  ∃ p, reachable p ∧ gauge_max (conf p) < height p.
Proof. exists p4. split; [apply reach4|by vm_compute]. Qed.

Definition a5 : account := default (newAccount 0 0) (accounts p5 !! 7).
Definition a4 : account := default (newAccount 0 0) (accounts p4 !! 7).

Lemma lookup5 : accounts p5 !! 7 = Some a5.
Proof. vm_compute. reflexivity. Qed.
Lemma lookup4 : accounts p4 !! 7 = Some a4.
Proof. vm_compute. reflexivity. Qed.
Lemma a4_ok : acc_ok 7 a4.
Proof. exact (pool_acc _ _ _ _ (reachable_inv p4 reach4) 7 a4 lookup4). Qed.
End Toy.

Module Witness.
Import Toy.
#[local] Existing Instance ext.


Lemma reachable_gauge_and_pending_witness :
  height p5 = 2 ∧
  height p5 = u64 (mapsum (λ a, sumZ slots (enqueued a ++ promoted a)) (accounts p5)).
Proof.
  split; [vm_compute; reflexivity|]. apply (reachable_gauge_and_pending p5 reach5).
Defined.

Lemma reachable_no_lost_promotion_witness :
  ∃ tx, tx ∈ enqueued a4 ∧ tx_Nonce tx = nextNonce a4 ∧ 7 ∈ promoteReqs p4.
Proof.
  assert (Hin : default (tx 9) (head (enqueued a4)) ∈ enqueued a4)
    by (vm_compute; constructor).
  exists (default (tx 9) (head (enqueued a4))).
  split; [exact Hin|]. split; [vm_compute; reflexivity|].
  apply (reachable_no_lost_promotion p4 7 a4 _ reach4 lookup4 Hin).
  vm_compute. reflexivity.
Defined.

Lemma reachable_requests_handled_witness :
  length (enqueueReqs p2) = 2%nat ∧ is_Some (processEvent st false [] [1] p2).
Proof.
  split; [vm_compute; reflexivity|].
  apply (reachable_requests_handled p2 reach2); [apply st_ok|apply st_blocks].
Defined.

Lemma promote_moves_expected_run_witness :
  let '(txs, pruned, a') := promote a4 in
  length txs = 2%nat ∧ nextNonce a' = nextNonce a4 + Z.of_nat (length txs).
Proof.
  pose proof (promote_moves_expected_run a4 (ok_inv _ _ a4_ok)) as Hp.
  destruct (promote a4) as [[txs pruned] a'] eqn:E. destruct Hp as (_ & Hn & _).
  split; [|exact Hn]. vm_compute in E. injection E as <- <- <-. reflexivity.
Defined.

Lemma reset_prunes_stale_witness :
  let '(pp, pe, signal, a') := reset 1 a4 in nextNonce a' = nextNonce a4 `max` 1.
Proof.
  pose proof (reset_prunes_stale 7 1 a4 a4_ok ltac:(by vm_compute)) as Hr.
  destruct (reset 1 a4) as [[[pp pe] sig] a']. apply Hr.
Defined.

Lemma Prepare_Peek_best_price_witness :
  (Peek (Prepare p5)).1 = head (promoted a5) ∧
  match (Peek (Prepare p5)).1 with
  | Some tx => ∃ addr a, accounts p5 !! addr = Some a ∧ accountQueue.peek (promoted a) = Some tx
  | None => True
  end.
Proof.
  split; [vm_compute; reflexivity|].
  pose proof (Prepare_Peek_best_price p5 reach5) as Hp.
  destruct ((Peek (Prepare p5)).1); [apply Hp|exact I].
Defined.

Lemma Drop_clears_account_witness :
  ∃ p', Drop (set_From 7 (tx 0)) p5 = Some p' ∧ height p' = u64 (height p5 - 2).
Proof.
  destruct (Drop_clears_account (set_From 7 (tx 0)) p5 a5 lookup5) as (p' & Hd & _ & Hh & _).
  exists p'. split; [exact Hd|]. rewrite Hh. vm_compute. reflexivity.
Defined.

Lemma validateTx_admissible_witness :
  ∃ from, admissible st (conf p0) (tx 0) from ∧ set_From 7 (tx 0) = with_sender from (tx 0).
Proof.
  apply (validateTx_admissible st (tx 0) p0 (set_From 7 (tx 0)));
    [by vm_compute|by vm_compute|]. vm_compute. reflexivity.
Defined.
End Witness.
