(* ===== verification/Runtime.v ===== *)
(** Package [state/runtime]: what the virtual machine and its host exchange.

    The host is a class of operations over an abstract host state, so that the
    machine's theorems are proved against the interface ([HostLaws]) and the
    state transition discharges it. *)
From S2P Require Import Prelude Types.

(** Code that may panic, or that the model may cut short. *)
Inductive outcome (A : Type) :=
| Ret (a : A)
| Panic
| NoFuel.
Arguments Ret {A} a.
Arguments Panic {A}.
Arguments NoFuel {A}.

Definition obind {A B} (m : outcome A) (k : A → outcome B) : outcome B :=
  match m with
  | Ret a => k a
  | Panic => Panic
  | NoFuel => NoFuel
  end.
Notation "'let~' x ':=' m 'in' k" := (obind m (λ x, k))
  (at level 10, x pattern, m at level 100, k at level 200) : go_scope.

Record TxContext := mkTxContext {
  ctx_GasPrice : Hash;
  ctx_Origin : Address;
  ctx_Coinbase : Address;
  ctx_Number : Z;
  ctx_Timestamp : Z;
  ctx_GasLimit : Z;
  ctx_ChainID : Z;
  ctx_Difficulty : Hash;
}.

Inductive StorageStatus :=
| StorageUnchanged
| StorageModified
| StorageModifiedAgain
| StorageAdded
| StorageDeleted.

(** The errors of [runtime] and of [evm], and those of the precompiled
    contracts ([ErrPrecompiled]). *)
Inductive vmError :=
| ErrOutOfGas
| ErrStackOverflow
| ErrStackUnderflow
| ErrNotEnoughFunds
| ErrInsufficientBalance
| ErrMaxCodeSizeExceeded
| ErrContractAddressCollision
| ErrDepth
| ErrExecutionReverted
| ErrCodeStoreOutOfGas
| errGasUintOverflow
| errWriteProtection
| errInvalidJump
| errOpCodeNotFound
| errReturnDataOutOfBounds
| ErrPrecompiled (what : Z).

#[global] Instance vmError_eq_dec : EqDecision vmError.
Proof. solve_decision. Defined.

Record ExecutionResult := mkResult {
  ReturnValue : bytes;
  GasLeft : Z;
  GasUsed : Z;
  ExecErr : option vmError;
}.

Definition Succeeded (r : ExecutionResult) : bool := bool_decide (ExecErr r = None).
Definition Failed (r : ExecutionResult) : bool := negb (Succeeded r).
Definition Reverted (r : ExecutionResult) : bool :=
  bool_decide (ExecErr r = Some ErrExecutionReverted).

(** [ExecutionResult.UpdateGasUsed]. *)
Definition UpdateGasUsed (gasLimit refund : Z) (r : ExecutionResult) : ExecutionResult :=
  let used := sub64 gasLimit (GasLeft r) in
  let maxRefund := used / 2 in
  let refund := if refund >? maxRefund then maxRefund else refund in
  mkResult (ReturnValue r) (add64 (GasLeft r) refund) (sub64 used refund) (ExecErr r).

Inductive CallType := CallT | CallCodeT | DelegateCallT | StaticCallT | CreateT | Create2T.
#[global] Instance CallType_eq_dec : EqDecision CallType.
Proof. solve_decision. Defined.

Record Contract := mkContract {
  c_Code : bytes;
  c_Type : CallType;
  c_CodeAddress : Address;
  c_Address : Address;
  c_Origin : Address;
  c_Caller : Address;
  c_Depth : Z;
  c_Value : option Z;
  c_Input : bytes;
  c_Gas : Z;
  c_Static : bool;
}.

(** [NewContract], [NewContractCreation] and [NewContractCall]. *)
Definition NewContract (depth : Z) (origin from to : Address) (value : option Z) (gas : Z)
    (code : bytes) : Contract :=
  mkContract code CallT to to origin from depth value [] gas false.
Definition NewContractCreation := NewContract.
Definition NewContractCall (depth : Z) (origin from to : Address) (value : option Z) (gas : Z)
    (code input : bytes) : Contract :=
  let c := NewContract depth origin from to value gas code in
  mkContract (c_Code c) (c_Type c) (c_CodeAddress c) (c_Address c) (c_Origin c) (c_Caller c)
    (c_Depth c) (c_Value c) input (c_Gas c) (c_Static c).

Definition set_Type ty (c : Contract) : Contract :=
  mkContract (c_Code c) ty (c_CodeAddress c) (c_Address c) (c_Origin c) (c_Caller c)
    (c_Depth c) (c_Value c) (c_Input c) (c_Gas c) (c_Static c).
Definition set_Static b (c : Contract) : Contract :=
  mkContract (c_Code c) (c_Type c) (c_CodeAddress c) (c_Address c) (c_Origin c) (c_Caller c)
    (c_Depth c) (c_Value c) (c_Input c) (c_Gas c) b.
Definition set_Address a (c : Contract) : Contract :=
  mkContract (c_Code c) (c_Type c) (c_CodeAddress c) a (c_Origin c) (c_Caller c)
    (c_Depth c) (c_Value c) (c_Input c) (c_Gas c) (c_Static c).
Definition set_Parent v a (c : Contract) : Contract :=
  mkContract (c_Code c) (c_Type c) (c_CodeAddress c) (c_Address c) (c_Origin c) a
    (c_Depth c) v (c_Input c) (c_Gas c) (c_Static c).

(** The interface [Host].  Reading code goes through a cache, so it may change
    the host; a nested call may panic like the code that makes it. *)
Class Host (H : Type) := {
  h_AccountExists : Address → H → bool;
  h_GetStorage : Address → Hash → H → Hash;
  h_SetStorage : Address → Hash → Hash → ForksInTime → H → StorageStatus * H;
  h_GetBalance : Address → H → Z;
  h_GetCodeSize : Address → H → Z * H;
  h_GetCodeHash : Address → H → Hash;
  h_GetCode : Address → H → bytes * H;
  h_Selfdestruct : Address → Address → H → H;
  h_GetTxContext : H → TxContext;
  h_GetBlockHash : Z → H → Hash;
  h_EmitLog : Address → list Hash → bytes → H → H;
  h_Callx : Contract → H → outcome (ExecutionResult * H);
  h_Empty : Address → H → bool;
  h_GetNonce : Address → H → Z;
}.
