(* ===== verification/Crypto.v ===== *)
(** Package [crypto]: addresses of new contracts, the checks on signature
    values, recovery of public keys.  The curve itself ([btcec]) is the class
    [Secp256k1]. *)
From S2P Require Import Prelude Types.

Class Secp256k1 := {
  PrivateKey : Type;
  (** The point of a private key. *)
  PublicKey : PrivateKey → Z * Z;
  (** [btcec.RecoverCompact]: from a header byte, [r] and [s], and a hash. *)
  RecoverCompact : bytes → bytes → option (Z * Z);
  (** [btcec.SignCompact], for an uncompressed key. *)
  SignCompact : PrivateKey → bytes → option bytes;
}.

(** What [btcec] documents: the compact signature is a header byte and two
    32-byte numbers, and it gives the key back. *)
Class Secp256k1Laws `{Secp256k1} : Prop := {
  SignCompact_shape k h sig : SignCompact k h = Some sig →
    length sig = 65%nat ∧ Forall byte_range sig;
  RecoverCompact_SignCompact k h sig : SignCompact k h = Some sig →
    RecoverCompact sig h = Some (PublicKey k);
}.

Section crypto.
Context `{External}.

Definition CreateAddress (addr : Address) (nonce : Z) : Address :=
  let dst := MarshalTo (NewArray [NewBytes (AddressBytes addr); NewUint nonce]) in
  BytesToAddress (drop 12 (HashBytes (Keccak256 dst))).

Definition create2Prefix : bytes := [0xff].

Definition CreateAddress2 (addr : Address) (salt : Hash) (inithash : bytes) : Address :=
  BytesToAddress (drop 12 (HashBytes (Keccak256
    (create2Prefix ++ AddressBytes addr ++ HashBytes salt ++ HashBytes (Keccak256 inithash))))).
End crypto.

(** ** Signature values *)

(** [bytes.Compare]: lexicographic order. *)
Fixpoint bytes_Compare (a b : bytes) : Z :=
  match a, b with
  | [], [] => 0
  | [], _ => -1
  | _, [] => 1
  | x :: a, y :: b => if x <? y then -1 else if y <? x then 1 else bytes_Compare a b
  end.

(** The loop stops on the last byte at the latest, and keeps it. *)
Fixpoint trimLeftZeros (b : bytes) : bytes :=
  match b with
  | [] => []
  | d :: rest =>
      if negb (d =? 0) then b
      else match rest with [] => b | _ => trimLeftZeros rest end
  end.

Definition secp256k1N_value : Z :=
  0xfffffffffffffffffffffffffffffffebaaedce6af48a03bbfd25e8cd0364141.
Definition secp256k1N : bytes := Bytes secp256k1N_value.
Definition one : bytes := [0x01].

Definition ValidateSignatureValues (v : Z) (r s : option Z) : bool :=
  match r, s with
  | Some r, Some s =>
      if v >? 1 then false
      else
        let rr := trimLeftZeros (Bytes r) in
        if (bytes_Compare rr secp256k1N >=? 0) || (bytes_Compare rr one <? 0) then false
        else
          let ss := trimLeftZeros (Bytes s) in
          if (bytes_Compare ss secp256k1N >=? 0) || (bytes_Compare ss one <? 0) then false
          else true
  | _, _ => false
  end.

(** ** Keys *)

(** [MarshalPublicKey]: [elliptic.Marshal] on a 256-bit curve. *)
Definition MarshalPublicKey (pub : Z * Z) : bytes := 4 :: be_bytes 32 pub.1 ++ be_bytes 32 pub.2.

Section keys.
Context `{Secp256k1}.

Definition RecoverPubkey (signature hash : bytes) : option (Z * Z) :=
  let size := length signature in
  if (size <? 1)%nat then None
  else
    let term := if nth (size - 1) signature 0 =? 1 then 28 else 27 in
    let sig := term :: take (size - 1) signature in
    RecoverCompact sig hash.

Definition Ecrecover (hash sig : bytes) : option bytes :=
  match RecoverPubkey sig hash with
  | None => None
  | Some pub => Some (MarshalPublicKey pub)
  end.

Definition Sign (priv : PrivateKey) (hash : bytes) : option bytes :=
  match SignCompact priv hash with
  | None => None
  | Some sig =>
      let term := if nth 0 sig 0 =? 28 then 1 else 0 in
      Some (drop 1 (sig ++ [term]))
  end.
End keys.
