(* ===== verification/EvmState.v ===== *)
(** Package [state/runtime/evm], the machine: its state, its gas meter, its
    stack, its memory and the map of its jump destinations ([state.go],
    [bitmap.go]).

    An instruction is a computation over the machine and its host that may
    panic.  The stack is the list of live words, top first: the slots above
    [sp] only hold integers to be overwritten, and no two slots share one. *)
From S2P Require Import Prelude Types Runtime.

(** ** Byte slices *)

(** A slice and the rest of its backing array, up to its capacity. *)
Record slice := mkSlice {
  vis : bytes;
  spare : bytes;
}.
Definition sl_cap (b : slice) : Z := Z.of_nat (length (vis b) + length (spare b)).

(** How much more than asked [append] allocates is left to the Go runtime. *)
Class GoRuntime := {
  append_spare : nat → nat → nat;
}.

Definition zeros (n : nat) : bytes := replicate n 0.

(** [copy(dst, src)]. *)
Definition go_copy (dst src : bytes) : bytes :=
  take (length dst) src ++ drop (length src) dst.

Section slices.
Context `{GoRuntime}.

Definition extendByteSlice (b : slice) (needLen : nat) : slice :=
  let full := vis b ++ spare b in
  if (length full <? needLen)%nat
  then mkSlice (full ++ zeros (needLen - length full))
               (zeros (append_spare (length full) needLen))
  else mkSlice (take needLen full) (drop needLen full).
End slices.

(** ** Jump destinations *)

Definition bitmapSize : Z := 8.
Definition isPushOp (i : Z) : bool := Z.shiftr i 5 =? 3.

Definition bitmap_isSet (buf : bytes) (i : Z) : outcome bool :=
  match buf !! Z.to_nat (i / bitmapSize) with
  | Some b => Ret (negb (Z.land b (Z.shiftl 1 (i mod bitmapSize)) =? 0))
  | None => Panic
  end.

Definition bitmap_set (i : Z) (buf : bytes) : bytes :=
  alter (λ b, Z.lor b (Z.shiftl 1 (i mod bitmapSize))) (Z.to_nat (i / bitmapSize)) buf.

(** The loop of [setCode] from position [i]; each turn advances. *)
Fixpoint setCode_loop (fuel : nat) (code : bytes) (i : Z) (buf : bytes) : bytes :=
  match fuel with
  | O => buf
  | S fuel =>
      match code !! Z.to_nat i with
      | None => buf
      | Some c =>
          if isPushOp c then setCode_loop fuel code (i + (c - 0x60 + 2)) buf
          else setCode_loop fuel code (i + 1) (if c =? 0x5B then bitmap_set i buf else buf)
      end
  end.

(** ** The machine *)

Record state := mkState {
  ip : Z;
  code : bytes;
  msg : Contract;
  config : ForksInTime;
  memory : slice;
  lastGasCost : Z;
  stack : list Z;
  err : option vmError;
  stop : bool;
  gas : Z;
  currentConsumedGas : Z;
  bitmap : slice;
  returnData : bytes;
  ret : bytes;
}.

Definition set_ip x (c : state) : state :=
  mkState x (code c) (msg c) (config c) (memory c) (lastGasCost c) (stack c) (err c) (stop c)
    (gas c) (currentConsumedGas c) (bitmap c) (returnData c) (ret c).
Definition set_memory x (c : state) : state :=
  mkState (ip c) (code c) (msg c) (config c) x (lastGasCost c) (stack c) (err c) (stop c)
    (gas c) (currentConsumedGas c) (bitmap c) (returnData c) (ret c).
Definition set_lastGasCost x (c : state) : state :=
  mkState (ip c) (code c) (msg c) (config c) (memory c) x (stack c) (err c) (stop c)
    (gas c) (currentConsumedGas c) (bitmap c) (returnData c) (ret c).
Definition set_stack x (c : state) : state :=
  mkState (ip c) (code c) (msg c) (config c) (memory c) (lastGasCost c) x (err c) (stop c)
    (gas c) (currentConsumedGas c) (bitmap c) (returnData c) (ret c).
Definition set_exit e (c : state) : state :=
  mkState (ip c) (code c) (msg c) (config c) (memory c) (lastGasCost c) (stack c) e true
    (gas c) (currentConsumedGas c) (bitmap c) (returnData c) (ret c).
Definition set_gas x (c : state) : state :=
  mkState (ip c) (code c) (msg c) (config c) (memory c) (lastGasCost c) (stack c) (err c)
    (stop c) x (currentConsumedGas c) (bitmap c) (returnData c) (ret c).
Definition set_consumed x (c : state) : state :=
  mkState (ip c) (code c) (msg c) (config c) (memory c) (lastGasCost c) (stack c) (err c)
    (stop c) (gas c) x (bitmap c) (returnData c) (ret c).
Definition set_returnData x (c : state) : state :=
  mkState (ip c) (code c) (msg c) (config c) (memory c) (lastGasCost c) (stack c) (err c)
    (stop c) (gas c) (currentConsumedGas c) (bitmap c) x (ret c).
Definition set_ret x (c : state) : state :=
  mkState (ip c) (code c) (msg c) (config c) (memory c) (lastGasCost c) (stack c) (err c)
    (stop c) (gas c) (currentConsumedGas c) (bitmap c) (returnData c) x.

(** ** Instructions as computations *)

Definition M (HS A : Type) : Type := state → HS → outcome (A * state * HS).

Definition ret_ {HS A} (a : A) : M HS A := λ c h, Ret (a, c, h).
Definition panic {HS A} : M HS A := λ _ _, Panic.
Definition mbind_ {HS A B} (m : M HS A) (k : A → M HS B) : M HS B := λ c h,
  match m c h with
  | Ret (a, c, h) => k a c h
  | Panic => Panic
  | NoFuel => NoFuel
  end.
Notation "'let!' x ':=' m 'in' k" := (mbind_ m (λ x, k))
  (at level 10, x pattern, m at level 100, k at level 200) : go_scope.
Notation "m ';;!' k" := (mbind_ m (λ _, k))
  (at level 100, right associativity) : go_scope.

Definition gets {HS A} (f : state → A) : M HS A := λ c h, Ret (f c, c, h).
Definition modify {HS} (f : state → state) : M HS unit := λ c h, Ret (tt, f c, h).
Definition asks {HS A} (f : HS → A) : M HS A := λ c h, Ret (f h, c, h).
Definition host_do {HS A} (f : HS → A * HS) : M HS A := λ c h, let '(a, h) := f h in Ret (a, c, h).
(** The value of a pointer or of an indexing that may fail. *)
Definition deref {HS A} (o : option A) : M HS A :=
  match o with Some a => ret_ a | None => panic end.

Section machine.
Context `{GoRuntime} {HS : Type}.

(** ** Control *)

Definition Halt : M HS unit := modify (λ c, set_exit (err c) c).
Definition exit (e : vmError) : M HS unit := modify (set_exit (Some e)).

Definition validJumpdest (dest : Z) : M HS bool :=
  let! cd := gets code in
  let udest := Uint64 dest in
  if (BitLen dest >=? 63) || (udest >=? Z.of_nat (length cd)) then ret_ false
  else
    let! b := gets (λ c, vis (bitmap c)) in
    λ c h, match bitmap_isSet b udest with
           | Ret r => Ret (r, c, h)
           | Panic => Panic
           | NoFuel => NoFuel
           end.

(** ** The stack *)

Definition push (val : Z) : M HS unit := modify (λ c, set_stack (val :: stack c) c).

Definition stackAtLeast (n : Z) : M HS bool :=
  gets (λ c, Z.of_nat (length (stack c)) >=? n).

(** [pop] and [top] return nil on an empty stack. *)
Definition pop_nil : M HS (option Z) := λ c h,
  match stack c with
  | [] => Ret (None, c, h)
  | x :: s => Ret (Some x, set_stack s c, h)
  end.
Definition top_nil : M HS (option Z) := gets (λ c, head (stack c)).
(** Their result dereferenced. *)
Definition pop : M HS Z := let! x := pop_nil in deref x.
Definition top : M HS Z := let! x := top_nil in deref x.
(** An assignment to the integer that [top] returned. *)
Definition set_top (v : Z) : M HS unit := modify (λ c, set_stack (v :: tail (stack c)) c).

Definition bigToHash (b : Z) : Hash := BytesToHash (Bytes b).
Definition popHash : M HS Hash := let! x := pop in ret_ (bigToHash x).
Definition popAddr : M HS Address :=
  let! b := pop_nil in
  ret_ match b with None => ZeroAddress | Some b => BytesToAddress (Bytes b) end.

Definition peekAt (n : nat) : M HS Z :=
  let! s := gets stack in deref (s !! (n - 1)%nat).

Definition swap (n : nat) : M HS unit :=
  let! s := gets stack in
  let! x := deref (s !! 0%nat) in
  let! y := deref (s !! n) in
  modify (set_stack (<[0%nat := y]> (<[n := x]> s))).

(** ** Gas *)

Definition consumeGas (amount : Z) : M HS bool :=
  modify (λ c, set_consumed (add64 (currentConsumedGas c) amount) c);;!
  let! g := gets gas in
  if g <? amount then exit ErrOutOfGas;;! ret_ false
  else modify (set_gas (sub64 g amount));;! ret_ true.

(** ** Memory *)

Definition Len : M HS Z := gets (λ c, Z.of_nat (length (vis (memory c)))).

(** The price of [w] words of memory, in 64-bit arithmetic. *)
Definition memoryCost (w : Z) : Z := add64 (mul64 3 w) (mul64 w w / 512).

Definition allocateMemory (offset size : Z) : M HS bool :=
  if negb (IsUint64 offset) || negb (IsUint64 size) then
    exit errGasUintOverflow;;! ret_ false
  else if size =? 0 then ret_ true
  else
    let o := Uint64 offset in
    let s := Uint64 size in
    if (o >? 0xffffffffe0) || (s >? 0xffffffffe0) then
      exit errGasUintOverflow;;! ret_ false
    else
      let newSize := add64 o s in
      let! currentSize := Len in
      if currentSize <? newSize then
        let w := add64 newSize 31 / 32 in
        let newCost := memoryCost w in
        let! last := gets lastGasCost in
        let cost := sub64 newCost last in
        modify (set_lastGasCost newCost);;!
        let! ok := consumeGas cost in
        if negb ok then exit ErrOutOfGas;;! ret_ false
        else
          modify (λ c, set_memory (extendByteSlice (memory c) (Z.to_nat (mul64 w 32))) c);;!
          ret_ true
      else ret_ true.

(** The slice expression [c.memory[lo:hi]], read. *)
Definition mem_slice (lo hi : Z) : M HS bytes :=
  let! m := gets memory in
  if (lo <=? hi) && (hi <=? sl_cap m)
  then ret_ (take (Z.to_nat (hi - lo)) (drop (Z.to_nat lo) (vis m ++ spare m)))
  else panic.

(** The slice expression [c.memory[lo:]], read, and its contents replaced. *)
Definition mem_from (lo : Z) : M HS bytes :=
  let! m := gets memory in
  if lo <=? Z.of_nat (length (vis m)) then ret_ (drop (Z.to_nat lo) (vis m)) else panic.
Definition mem_replace (lo : Z) (b : bytes) : M HS unit :=
  modify (λ c, set_memory (mkSlice (take (Z.to_nat lo) (vis (memory c)) ++ b)
                                   (spare (memory c))) c).

(** [copy(c.memory[lo:hi], src)]. *)
Definition mem_copy (lo hi : Z) (src : bytes) : M HS unit :=
  let! dst := mem_slice lo hi in
  modify (λ c,
    let n := length (vis (memory c)) in
    let full := vis (memory c) ++ spare (memory c) in
    let full := take (Z.to_nat lo) full ++ go_copy dst src ++ drop (Z.to_nat hi) full in
    set_memory (mkSlice (take n full) (drop n full)) c).

Definition get2 (offset len : Z) : M HS (option bytes) :=
  if len =? 0 then ret_ (Some [])
  else
    let! ok := allocateMemory offset len in
    if negb ok then ret_ None
    else
      let o := Uint64 offset in
      let l := Uint64 len in
      let! b := mem_slice o (add64 o l) in
      ret_ (Some b).

Definition resetReturnData : M HS unit := modify (set_returnData []).
End machine.

Definition inStaticCall (c : state) : bool := c_Static (msg c).
