(* ===== verification/EvmInstr.v ===== *)
(** Package [state/runtime/evm], the instructions ([instructions.go]). *)
From S2P Require Import Prelude Types Runtime Crypto EvmState.

(** ** Words *)

Definition tt256 : Z := Z.shiftl 1 256.
Definition tt256m1 : Z := tt256 - 1.

Definition toU256 (x : Z) : Z :=
  if (Z.sgn x <? 0) || (BitLen x >? 256) then Z.land x tt256m1 else x.

Definition to256 (x : Z) : Z := if BitLen x >? 255 then x - tt256 else x.

Definition b2z (b : bool) : Z := if b then 1 else 0.

(** [big.Int.Bits]: the 64-bit words of the absolute value, lowest first. *)
Fixpoint Bits_loop (n : nat) (z : Z) : list Z :=
  match n with
  | O => []
  | S n => z mod M64 :: Bits_loop n (z / M64)
  end.
Definition Bits (z : Z) : list Z :=
  Bits_loop (Z.to_nat ((BitLen z + 63) / 64)) (Z.abs z).

(** [big.Int.Int64]: the low 64 bits, as a signed integer. *)
Definition Int64 (z : Z) : Z := s64 z.
Definition IsInt64 (z : Z) : bool := (- 2 ^ 63 <=? z) && (z <? 2 ^ 63).

Definition wordSize : Z := 32.
Definition sha3WordGas : Z := 6.
Definition copyGas : Z := 3.

(** ** Opcodes the factories branch on *)

Definition CREATE : Z := 0xF0.
Definition CALL : Z := 0xF1.
Definition CALLCODE : Z := 0xF2.
Definition RETURN : Z := 0xF3.
Definition DELEGATECALL : Z := 0xF4.
Definition CREATE2 : Z := 0xF5.
Definition STATICCALL : Z := 0xFA.
Definition REVERT : Z := 0xFD.

Section instructions.
Context `{External} `{GoRuntime} `{Host HS}.

Abbreviation instruction := (M HS unit) (only parsing).

(** ** Arithmetic *)

Definition opAdd : instruction :=
  let! a := pop in
  let! b := top in
  set_top (toU256 (a + b)).

Definition opMul : instruction :=
  let! a := pop in
  let! b := top in
  set_top (toU256 (a * b)).

Definition opSub : instruction :=
  let! a := pop in
  let! b := top in
  set_top (toU256 (a - b)).

(** [big.Int.Div] and [Mod] are Euclidean; the divisors below are positive. *)
Definition opDiv : instruction :=
  let! a := pop in
  let! b := top in
  if Z.sgn b =? 0 then set_top 0 else set_top (toU256 (a / b)).

Definition opSDiv : instruction :=
  let! a := pop in
  let a := to256 a in
  let! b := top in
  let b := to256 b in
  if Z.sgn b =? 0 then set_top 0
  else
    let neg := negb (Z.sgn a =? Z.sgn b) in
    let q := Z.abs a / Z.abs b in
    set_top (toU256 (if neg then - q else q)).

Definition opMod : instruction :=
  let! a := pop in
  let! b := top in
  if Z.sgn b =? 0 then set_top 0 else set_top (toU256 (a mod b)).

Definition opSMod : instruction :=
  let! a := pop in
  let a := to256 a in
  let! b := top in
  let b := to256 b in
  if Z.sgn b =? 0 then set_top 0
  else
    let neg := Z.sgn a <? 0 in
    let r := Z.abs a mod Z.abs b in
    set_top (toU256 (if neg then - r else r)).

(** The inner loop over the [_W] bits of one word of the exponent, and the
    outer loop over its words; the base is squared on the way. *)
Fixpoint exp_bits (n : nat) (d : Z) (zx : Z * Z) : Z * Z :=
  match n with
  | O => zx
  | S n =>
      let '(z, x) := zx in
      let z := if Z.land d 1 =? 1 then toU256 (z * x) else z in
      exp_bits n (Z.shiftr d 1) (z, toU256 (x * x))
  end.
Definition exp_words (x y : Z) : Z :=
  (foldl (λ zx d, exp_bits 64 d zx) (1, x) (Bits y)).1.

Definition opExp : instruction :=
  let! x := pop in
  let! y := top in
  let! cfg := gets config in
  let gas := if EIP158 cfg then 50 else 10 in
  let gasCost := mul64 ((BitLen y + 7) / 8) gas in
  let! ok := consumeGas gasCost in
  if negb ok then ret_ tt
  else set_top (exp_words x y).

Definition opAddMod : instruction :=
  let! a := pop in
  let! b := pop in
  let! z := top in
  if Z.sgn z =? 0 then set_top 0 else set_top (toU256 ((a + b) mod z)).

Definition opMulMod : instruction :=
  let! a := pop in
  let! b := pop in
  let! z := top in
  if Z.sgn z =? 0 then set_top 0 else set_top (toU256 ((a * b) mod z)).

(** ** Bits and comparisons *)

Definition opAnd : instruction :=
  let! a := pop in
  let! b := top in
  set_top (Z.land a b).

Definition opOr : instruction :=
  let! a := pop in
  let! b := top in
  set_top (Z.lor a b).

Definition opXor : instruction :=
  let! a := pop in
  let! b := top in
  set_top (Z.lxor a b).

Definition opByteMask : Z := 255.

(** [uint(sh)] of a negative shift is a shift by at least 2^63. *)
Definition opByte : instruction :=
  let! x := pop in
  let! y := top in
  let indx := Int64 x in
  if indx >? 31 then set_top 0
  else
    let sh := s64 ((31 - indx) * 8) in
    set_top (Z.land (Z.shiftr y (u64 sh)) opByteMask).

Definition opNot : instruction :=
  let! a := top in
  set_top (toU256 (Z.lnot a)).

Definition opIsZero : instruction :=
  let! a := top in
  set_top (b2z (Z.sgn a =? 0)).

Definition opEq : instruction :=
  let! a := pop in
  let! b := top in
  set_top (b2z (a =? b)).

Definition opLt : instruction :=
  let! a := pop in
  let! b := top in
  set_top (b2z (a <? b)).

Definition opGt : instruction :=
  let! a := pop in
  let! b := top in
  set_top (b2z (a >? b)).

Definition opSlt : instruction :=
  let! a := pop in
  let! b := top in
  set_top (b2z (to256 a <? to256 b)).

Definition opSgt : instruction :=
  let! a := pop in
  let! b := top in
  set_top (b2z (to256 a >? to256 b)).

Definition opSignExtension : instruction :=
  let! ext := pop in
  let! x := top_nil in
  if ext >? wordSize then ret_ tt
  else
    match x with
    | None => ret_ tt
    | Some x =>
        let bit := add64 (mul64 (Uint64 ext) 8) 7 in
        let mask := Z.shiftl 1 bit - 1 in
        set_top (toU256 (if Z.testbit x bit then Z.lor x (Z.lnot mask) else Z.land x mask))
    end.

Definition equalOrOverflowsUint256 (b : Z) : bool := BitLen b >? 8.

Definition opShl : instruction :=
  let! cfg := gets config in
  if negb (Constantinople cfg) then exit errOpCodeNotFound
  else
    let! shift := pop in
    let! value := top in
    if equalOrOverflowsUint256 shift then set_top 0
    else set_top (toU256 (Z.shiftl value (Uint64 shift))).

Definition opShr : instruction :=
  let! cfg := gets config in
  if negb (Constantinople cfg) then exit errOpCodeNotFound
  else
    let! shift := pop in
    let! value := top in
    if equalOrOverflowsUint256 shift then set_top 0
    else set_top (toU256 (Z.shiftr value (Uint64 shift))).

Definition opSar : instruction :=
  let! cfg := gets config in
  if negb (Constantinople cfg) then exit errOpCodeNotFound
  else
    let! shift := pop in
    let! value := top in
    let value := to256 value in
    if equalOrOverflowsUint256 shift
    then set_top (if Z.sgn value >=? 0 then 0 else tt256m1)
    else set_top (toU256 (Z.shiftr value (Uint64 shift))).

(** ** Memory *)

Definition opMload : instruction :=
  let! offset := pop in
  let! tmp := get2 offset wordSize in
  match tmp with
  | None => ret_ tt
  | Some tmp => push (SetBytes tmp)
  end.

(** [buf[i]] is filled from its end with the bytes of [val]'s words, 8 per
    word; [None] when the index runs below 0. *)
Fixpoint store_word (j : nat) (d : Z) (ibuf : nat * bytes) : option (nat * bytes) :=
  match j with
  | O => Some ibuf
  | S j =>
      match ibuf with
      | (O, _) => None
      | (S i, buf) => store_word j (Z.shiftr d 8) (i, <[i := d mod 256]> buf)
      end
  end.
Fixpoint store_words (ws : list Z) (ibuf : nat * bytes) : option (nat * bytes) :=
  match ws with
  | [] => Some ibuf
  | d :: ws => match store_word 8 d ibuf with
               | Some ibuf => store_words ws ibuf
               | None => None
               end
  end.
Fixpoint fill_zeros (i : nat) (buf : bytes) : bytes :=
  match i with
  | O => buf
  | S i => fill_zeros i (<[i := 0]> buf)
  end.
Definition store32 (val : Z) (buf : bytes) : option bytes :=
  match store_words (Bits val) (32%nat, buf) with
  | Some (i, buf) => Some (fill_zeros i buf)
  | None => None
  end.

Definition opMStore : instruction :=
  let! offset := pop in
  let! val := pop in
  let! ok := allocateMemory offset wordSize in
  if negb ok then ret_ tt
  else
    let o := Uint64 offset in
    let! buf := mem_slice o (add64 o 32) in
    let! buf := deref (store32 val buf) in
    let! rest := mem_from (add64 o 32) in
    mem_replace o (buf ++ rest).

Definition opMStore8 : instruction :=
  let! offset := pop in
  let! val := pop in
  let! ok := allocateMemory offset 1 in
  if negb ok then ret_ tt
  else
    let! dst := mem_from (Uint64 offset) in
    match dst with
    | [] => panic
    | _ :: rest => mem_replace (Uint64 offset) (Z.land (Uint64 val) 0xff :: rest)
    end.

(** ** Storage *)

Definition opSload : instruction :=
  let! loc := top in
  let! cfg := gets config in
  let gas := if Istanbul cfg then 800 else if EIP150 cfg then 200 else 50 in
  let! ok := consumeGas gas in
  if negb ok then ret_ tt
  else
    let! m := gets msg in
    let! val := asks (h_GetStorage (c_Address m) (bigToHash loc)) in
    set_top (SetBytes (HashBytes val)).

Definition sstoreCost (cfg : ForksInTime) (status : StorageStatus) : Z :=
  let legacyGasMetering := negb (Istanbul cfg) && (Petersburg cfg || negb (Constantinople cfg)) in
  match status with
  | StorageUnchanged => if Istanbul cfg then 800 else if legacyGasMetering then 5000 else 200
  | StorageModified => 5000
  | StorageModifiedAgain => if Istanbul cfg then 800 else if legacyGasMetering then 5000 else 200
  | StorageAdded => 20000
  | StorageDeleted => 5000
  end.

Definition opSStore : instruction :=
  let! static := gets inStaticCall in
  let! cfg := gets config in
  let! g := gets gas in
  if static then exit errWriteProtection
  else if Istanbul cfg && (g <=? 2300) then exit ErrOutOfGas
  else
    let! key := popHash in
    let! val := popHash in
    let! m := gets msg in
    let! status := host_do (h_SetStorage (c_Address m) key val cfg) in
    let! ok := consumeGas (sstoreCost cfg status) in
    ret_ tt.

Definition opSha3 : instruction :=
  let! offset := pop in
  let! length := pop in
  let! tmp := get2 offset length in
  match tmp with
  | None => ret_ tt
  | Some tmp =>
      let size := Uint64 length in
      let! ok := consumeGas (mul64 (add64 size 31 / 32) sha3WordGas) in
      if negb ok then ret_ tt
      else push (SetBytes (HashBytes (Keccak256 tmp)))
  end.

Definition opPop : instruction := let! x := pop_nil in ret_ tt.

(** ** Context *)

Definition opAddress : instruction :=
  let! m := gets msg in push (SetBytes (AddressBytes (c_Address m))).

Definition opBalance : instruction :=
  let! addr := popAddr in
  let! cfg := gets config in
  let gas := if Istanbul cfg then 700 else if EIP150 cfg then 400 else 20 in
  let! ok := consumeGas gas in
  if negb ok then ret_ tt
  else let! b := asks (h_GetBalance addr) in push b.

Definition opSelfBalance : instruction :=
  let! cfg := gets config in
  if negb (Istanbul cfg) then exit errOpCodeNotFound
  else
    let! m := gets msg in
    let! b := asks (h_GetBalance (c_Address m)) in push b.

Definition opChainID : instruction :=
  let! cfg := gets config in
  if negb (Istanbul cfg) then exit errOpCodeNotFound
  else let! ctx := asks h_GetTxContext in push (u64 (ctx_ChainID ctx)).

Definition opOrigin : instruction :=
  let! ctx := asks h_GetTxContext in push (SetBytes (AddressBytes (ctx_Origin ctx))).

Definition opCaller : instruction :=
  let! m := gets msg in push (SetBytes (AddressBytes (c_Caller m))).

Definition opCallValue : instruction :=
  let! m := gets msg in push (default 0 (c_Value m)).

(** [for i := 0; i < n; i++ { dst[i] = 0 }]. *)
Fixpoint zero_loop (n : nat) (dst : bytes) : option bytes :=
  match n, dst with
  | O, _ => Some dst
  | S n, _ :: dst => cons 0 <$> zero_loop n dst
  | S _, [] => None
  end.

(** [setBytes]: the new contents of [dst]. *)
Definition setBytes (dst input : bytes) (size dataOffset : Z) : option bytes :=
  if negb (IsUint64 dataOffset) then zero_loop (Z.to_nat size) dst
  else
    let inputSize := Z.of_nat (length input) in
    let begin := Z.min (Uint64 dataOffset) inputSize in
    let copySize := Z.min size (inputSize - begin) in
    let src := take (Z.to_nat copySize) (drop (Z.to_nat begin) input) in
    let dst := if copySize >? 0 then go_copy dst src else dst in
    if size - copySize >? 0 then
      app (take (Z.to_nat copySize) dst) <$>
        zero_loop (Z.to_nat (size - copySize)) (drop (Z.to_nat copySize) dst)
    else Some dst.

Definition opCallDataLoad : instruction :=
  let! offset := top in
  let! m := gets msg in
  let! buf := deref (setBytes (zeros 32) (c_Input m) 32 offset) in
  set_top (SetBytes buf).

Definition opCallDataSize : instruction :=
  let! m := gets msg in push (Z.of_nat (length (c_Input m))).

Definition opCodeSize : instruction :=
  let! cd := gets code in push (Z.of_nat (length cd)).

Definition opExtCodeSize : instruction :=
  let! addr := popAddr in
  let! cfg := gets config in
  let! ok := consumeGas (if EIP150 cfg then 700 else 20) in
  if negb ok then ret_ tt
  else let! n := host_do (h_GetCodeSize addr) in push (u64 n).

Definition opGasPrice : instruction :=
  let! ctx := asks h_GetTxContext in push (SetBytes (HashBytes (ctx_GasPrice ctx))).

Definition opReturnDataSize : instruction :=
  let! cfg := gets config in
  if negb (Byzantium cfg) then exit errOpCodeNotFound
  else let! d := gets returnData in push (Z.of_nat (length d)).

Definition opExtCodeHash : instruction :=
  let! cfg := gets config in
  if negb (Constantinople cfg) then exit errOpCodeNotFound
  else
    let! address := popAddr in
    let! ok := consumeGas (if Istanbul cfg then 700 else 400) in
    if negb ok then ret_ tt
    else
      let! empty := asks (h_Empty address) in
      if empty : bool then push 0
      else
        let! h := asks (h_GetCodeHash address) in
        push (SetBytes (HashBytes h)).

Definition opPC : instruction := let! i := gets ip in push (u64 i).

Definition opMSize : instruction := let! n := Len in push n.

Definition opGas : instruction := let! g := gets gas in push g.

(** The bytes [src] from [dataOffset] are written to memory at [memOffset]. *)
Definition copyToMemory (memOffset : Z) (src : bytes) (size dataOffset : Z) : instruction :=
  let! dst := mem_from (Uint64 memOffset) in
  let! dst := deref (setBytes dst src size dataOffset) in
  mem_replace (Uint64 memOffset) dst.

Definition opExtCodeCopy : instruction :=
  let! address := popAddr in
  let! memOffset := pop in
  let! codeOffset := pop in
  let! length := pop in
  let! ok := allocateMemory memOffset length in
  if negb ok then ret_ tt
  else
    let size := Uint64 length in
    let! ok := consumeGas (mul64 (add64 size 31 / 32) copyGas) in
    if negb ok then ret_ tt
    else
      let! cfg := gets config in
      let! ok := consumeGas (if EIP150 cfg then 700 else 20) in
      if negb ok then ret_ tt
      else
        let! cd := host_do (h_GetCode address) in
        if negb (size =? 0) then copyToMemory memOffset cd size codeOffset else ret_ tt.

Definition opCallDataCopy : instruction :=
  let! memOffset := pop in
  let! dataOffset := pop in
  let! length := pop in
  let! ok := allocateMemory memOffset length in
  if negb ok then ret_ tt
  else
    let size := Uint64 length in
    let! ok := consumeGas (mul64 (add64 size 31 / 32) copyGas) in
    if negb ok then ret_ tt
    else
      let! m := gets msg in
      if negb (size =? 0) then copyToMemory memOffset (c_Input m) size dataOffset else ret_ tt.

Definition opReturnDataCopy : instruction :=
  let! cfg := gets config in
  if negb (Byzantium cfg) then exit errOpCodeNotFound
  else
    let! memOffset := pop in
    let! dataOffset := pop in
    let! len := pop in
    let! ok := allocateMemory memOffset len in
    if negb ok then ret_ tt
    else if negb (IsUint64 dataOffset) then exit errGasUintOverflow
    else
      let! ok := consumeGas (mul64 (add64 (Uint64 len) 31 / 32) copyGas) in
      if negb ok then ret_ tt
      else
        let dataEnd := dataOffset + len in
        if negb (IsUint64 dataEnd) then exit errReturnDataOutOfBounds
        else
          let dataEndIndex := Uint64 dataEnd in
          let! rd := gets returnData in
          if Z.of_nat (length rd) <? dataEndIndex then exit errReturnDataOutOfBounds
          else
            let data := take (Z.to_nat (dataEndIndex - Uint64 dataOffset))
                          (drop (Z.to_nat (Uint64 dataOffset)) rd) in
            let! dst := mem_from (Uint64 memOffset) in
            mem_replace (Uint64 memOffset) (go_copy dst data).

Definition opCodeCopy : instruction :=
  let! memOffset := pop in
  let! dataOffset := pop in
  let! length := pop in
  let! ok := allocateMemory memOffset length in
  if negb ok then ret_ tt
  else
    let size := Uint64 length in
    let! ok := consumeGas (mul64 (add64 size 31 / 32) copyGas) in
    if negb ok then ret_ tt
    else
      let! cd := gets code in
      if negb (size =? 0) then copyToMemory memOffset cd size dataOffset else ret_ tt.

(** ** Block information *)

Definition opBlockHash : instruction :=
  let! num := top in
  if negb (IsInt64 num) then set_top 0
  else
    let n := Int64 num in
    let! ctx := asks h_GetTxContext in
    let lastBlock := ctx_Number ctx in
    if (s64 (lastBlock - 257) <? n) && (n <? lastBlock) then
      let! h := asks (h_GetBlockHash n) in
      set_top (SetBytes (HashBytes h))
    else set_top 0.

Definition opCoinbase : instruction :=
  let! ctx := asks h_GetTxContext in push (SetBytes (AddressBytes (ctx_Coinbase ctx))).
Definition opTimestamp : instruction :=
  let! ctx := asks h_GetTxContext in push (ctx_Timestamp ctx).
Definition opNumber : instruction :=
  let! ctx := asks h_GetTxContext in push (ctx_Number ctx).
Definition opDifficulty : instruction :=
  let! ctx := asks h_GetTxContext in push (SetBytes (HashBytes (ctx_Difficulty ctx))).
Definition opGasLimit : instruction :=
  let! ctx := asks h_GetTxContext in push (ctx_GasLimit ctx).

Definition opSelfDestruct : instruction :=
  let! static := gets inStaticCall in
  if static : bool then exit errWriteProtection
  else
    let! address := popAddr in
    let! cfg := gets config in
    let! m := gets msg in
    let! empty := asks (h_Empty address) in
    let! balance := asks (h_GetBalance (c_Address m)) in
    let! exists_ := asks (h_AccountExists address) in
    let gas :=
      if EIP150 cfg then
        if EIP158 cfg then
          if empty && negb (Z.sgn balance =? 0) then 5000 + 25000 else 5000
        else if negb exists_ then 5000 + 25000 else 5000
      else 0 in
    let! ok := consumeGas gas in
    if negb ok then ret_ tt
    else
      host_do (λ h, (tt, h_Selfdestruct (c_Address m) address h));;!
      Halt.

(** ** Jumps *)

(** [c.ip = int(dest.Uint64() - 1)]. *)
Definition jumpTo (dest : Z) : instruction :=
  let! ok := validJumpdest dest in
  if ok : bool then modify (set_ip (s64 (sub64 (Uint64 dest) 1)))
  else exit errInvalidJump.

Definition opJump : instruction :=
  let! dest := pop in jumpTo dest.

Definition opJumpi : instruction :=
  let! dest := pop in
  let! cond := pop in
  if negb (Z.sgn cond =? 0) then jumpTo dest else ret_ tt.

Definition opJumpDest : instruction := ret_ tt.

(** ** Stack *)

(** Past the end of the code, [n] zero bytes are appended to what is left. *)
Definition opPush (n : nat) : instruction :=
  let! ins := gets code in
  let! i := gets ip in
  let rest := drop (Z.to_nat (i + 1)) ins in
  push (SetBytes (if i + 1 + Z.of_nat n >? Z.of_nat (length ins)
                  then rest ++ zeros n else take n rest));;!
  modify (λ c, set_ip (ip c + Z.of_nat n) c).

Definition opDup (n : nat) : instruction :=
  let! ok := stackAtLeast (Z.of_nat n) in
  if negb ok then exit ErrStackUnderflow
  else let! val := peekAt n in push val.

Definition opSwap (n : nat) : instruction :=
  let! ok := stackAtLeast (Z.of_nat n + 1) in
  if negb ok then exit ErrStackUnderflow
  else swap n.

Fixpoint popTopics (size : nat) : M HS (list Hash) :=
  match size with
  | O => ret_ []
  | S size =>
      let! t := pop in
      let! ts := popTopics size in
      ret_ (bigToHash t :: ts)
  end.

(** [opLog(size)] is called with the number of topics plus one. *)
Definition opLog (n : nat) : instruction :=
  let size := (n - 1)%nat in
  let! static := gets inStaticCall in
  if static : bool then exit errWriteProtection
  else
    let! ok := stackAtLeast (2 + Z.of_nat size) in
    if negb ok then exit ErrStackUnderflow
    else
      let! mStart := pop in
      let! mSize := pop in
      let! topics := popTopics size in
      let! tmp := get2 mStart mSize in
      match tmp with
      | None => ret_ tt
      | Some tmp =>
          let! m := gets msg in
          host_do (λ h, (tt, h_EmitLog (c_Address m) topics tmp h));;!
          let! ok := consumeGas (mul64 (Z.of_nat size) 375) in
          if negb ok then ret_ tt
          else let! ok := consumeGas (mul64 (Uint64 mSize) 8) in ret_ tt
      end.

Definition opStop : instruction := Halt.

(** ** Calls and creations *)

(** What [buildCallContract] and [buildCreateContract] return: nothing (the
    machine has stopped), an error with perhaps a contract, or a contract with
    the range of memory that receives its result. *)
Inductive built :=
| NoContract
| BadContract (c : option Contract)
| GoodContract (c : Contract) (offset size : Z).

Definition transfersValue (op : Z) (value : option Z) : bool :=
  ((op =? CALL) || (op =? CALLCODE)) &&
  match value with Some v => negb (Z.sgn v =? 0) | None => false end.

(** The part of the cost of a call that does not go to the callee. *)
Definition callBaseCost (op : Z) (cfg : ForksInTime) (transfers empty exists_ : bool) : Z :=
  let gasCost := if EIP150 cfg then 700 else 40 in
  let gasCost :=
    if op =? CALL then
      if EIP158 cfg then if transfers && empty then gasCost + 25000 else gasCost
      else if negb exists_ then gasCost + 25000 else gasCost
    else gasCost in
  if transfers then gasCost + 9000 else gasCost.

(** The gas handed to the callee; [None] when the machine runs out of gas. *)
Definition calleeGas (cfg : ForksInTime) (gas gasCost initialGas : Z) : option Z :=
  if EIP150 cfg then
    let availableGas := sub64 gas gasCost in
    let availableGas := sub64 availableGas (availableGas / 64) in
    if negb (IsUint64 initialGas) || (availableGas <? Uint64 initialGas)
    then Some availableGas else Some (Uint64 initialGas)
  else if negb (IsUint64 initialGas) then None
  else Some (Uint64 initialGas).

(** The contract built for a call: [NewContractCall] and the assignments to its
    fields. *)
Definition callContract (op : Z) (parent : Contract) (addr : Address) (value : option Z)
    (gas : Z) (cd args : bytes) : Contract :=
  let contract := NewContractCall (c_Depth parent + 1) (c_Origin parent)
                    (c_Address parent) addr value gas cd args in
  let contract := if (op =? STATICCALL) || c_Static parent
                  then set_Static true contract else contract in
  if (op =? CALLCODE) || (op =? DELEGATECALL) then
    let contract := set_Address (c_Address parent) contract in
    if op =? DELEGATECALL
    then set_Parent (c_Value parent) (c_Caller parent) contract else contract
  else contract.

Definition buildCallContract (op : Z) : M HS built :=
  let! initialGas := pop in
  let! addr := popAddr in
  let! value := (if (op =? CALL) || (op =? CALLCODE)
                 then let! v := pop in ret_ (Some v) else ret_ None) in
  let! inOffset := pop in
  let! inSize := pop in
  let! retOffset := pop in
  let! retSize := pop in
  let! args := get2 inOffset inSize in
  match args with
  | None => ret_ NoContract
  | Some args =>
      let! ok := allocateMemory retOffset retSize in
      if negb ok then ret_ NoContract
      else
        let! cfg := gets config in
        let transfers := transfersValue op value in
        let! empty := asks (h_Empty addr) in
        let! exists_ := asks (h_AccountExists addr) in
        let gasCost := callBaseCost op cfg transfers empty exists_ in
        let! g := gets gas in
        match calleeGas cfg g gasCost initialGas with
        | None => exit ErrOutOfGas;;! ret_ NoContract
        | Some gas =>
            let! ok := consumeGas (add64 gasCost gas) in
            if negb ok then ret_ NoContract
            else
              let gas := if transfers then add64 gas 2300 else gas in
              let! parent := gets msg in
              let! cd := host_do (h_GetCode addr) in
              let contract := callContract op parent addr value gas cd args in
              let! balance := asks (h_GetBalance (c_Address parent)) in
              if transfers && (balance <? default 0 value)
              then ret_ (BadContract (Some contract))
              else ret_ (GoodContract contract (Uint64 retOffset) (Uint64 retSize))
        end
  end.

Definition buildCreateContract (op : Z) : M HS built :=
  let! value := pop in
  let! offset := pop in
  let! length := pop in
  let! salt := (if op =? CREATE2 then pop else ret_ 0) in
  let hasTransfer := negb (Z.sgn value =? 0) in
  let! input := get2 offset length in
  match input with
  | None => ret_ NoContract
  | Some input =>
      let! ok := consumeGas 0 in
      if negb ok then ret_ NoContract
      else
        let! m := gets msg in
        let! balance := asks (h_GetBalance (c_Address m)) in
        if hasTransfer && (balance <? value) then ret_ (BadContract None)
        else
          let! ok := (if op =? CREATE2
                      then consumeGas (mul64 (add64 (Uint64 length) 31 / 32) sha3WordGas)
                      else ret_ true) in
          if negb ok then ret_ NoContract
          else
            let! cfg := gets config in
            let! g := gets gas in
            let gas := if EIP150 cfg || (op =? CREATE2) then sub64 g (g / 64) else g in
            let! ok := consumeGas gas in
            if negb ok then ret_ NoContract
            else
              let! nonce := asks (h_GetNonce (c_Address m)) in
              let address := if op =? CREATE then CreateAddress (c_Address m) nonce
                             else CreateAddress2 (c_Address m) (bigToHash salt) input in
              ret_ (GoodContract (NewContractCreation (c_Depth m + 1) (c_Origin m) (c_Address m)
                                    address (Some value) gas input) 0 0)
  end.

Definition addGas (amount : Z) : instruction := modify (λ c, set_gas (add64 (gas c) amount) c).

(** [c.host.Callx(contract, c.host)]. *)
Definition callx (contract : Contract) : M HS ExecutionResult := λ c h,
  match h_Callx contract h with
  | Ret (r, h) => Ret (r, c, h)
  | Panic => Panic
  | NoFuel => NoFuel
  end.

Definition opCreate (op : Z) : instruction :=
  let! static := gets inStaticCall in
  let! cfg := gets config in
  if static : bool then exit errWriteProtection
  else if (op =? CREATE2) && negb (Constantinople cfg) then exit errOpCodeNotFound
  else
    resetReturnData;;!
    let! b := buildCreateContract op in
    match b with
    | NoContract => ret_ tt
    | BadContract contract =>
        push 0;;!
        match contract with Some contract => addGas (c_Gas contract) | None => ret_ tt end
    | GoodContract contract _ _ =>
        let! result := callx (set_Type CreateT contract) in
        let storeOutOfGas := bool_decide (ExecErr result = Some ErrCodeStoreOutOfGas) in
        push (if (op =? CREATE) && Homestead cfg && storeOutOfGas then 0
              else if Failed result && negb storeOutOfGas then 0
              else SetBytes (AddressBytes (c_Address contract)));;!
        addGas (GasLeft result);;!
        if Reverted result then modify (set_returnData (ReturnValue result)) else ret_ tt
    end.

Definition callType (op : Z) : option CallType :=
  if op =? CALL then Some CallT
  else if op =? CALLCODE then Some CallCodeT
  else if op =? DELEGATECALL then Some DelegateCallT
  else if op =? STATICCALL then Some StaticCallT
  else None.

(** The part of [opCall] after its guards. *)
Definition doCall (op : Z) (ty : CallType) : instruction :=
  let! b := buildCallContract op in
  match b with
  | NoContract => ret_ tt
  | BadContract contract =>
      push 0;;!
      match contract with Some contract => addGas (c_Gas contract) | None => ret_ tt end
  | GoodContract contract offset size =>
      let! result := callx (set_Type ty contract) in
      push (b2z (Succeeded result));;!
      (if (Succeeded result || Reverted result) &&
          negb (Z.of_nat (length (ReturnValue result)) =? 0)
       then mem_copy offset (add64 offset size) (ReturnValue result)
       else ret_ tt);;!
      addGas (GasLeft result);;!
      modify (set_returnData (ReturnValue result))
  end.

Definition opCall (op : Z) : instruction :=
  resetReturnData;;!
  let! static := gets inStaticCall in
  let! write := (if (op =? CALL) && static
                 then let! val := peekAt 3 in ret_ (BitLen val >? 0) else ret_ false) in
  let! cfg := gets config in
  if write : bool then exit errWriteProtection
  else if (op =? DELEGATECALL) && negb (Homestead cfg) then exit errOpCodeNotFound
  else if (op =? STATICCALL) && negb (Byzantium cfg) then exit errOpCodeNotFound
  else
    let! ty := deref (callType op) in
    doCall op ty.

Definition opHalt (op : Z) : instruction :=
  let! cfg := gets config in
  if (op =? REVERT) && negb (Byzantium cfg) then exit errOpCodeNotFound
  else
    let! offset := pop in
    let! size := pop in
    let! r := get2 offset size in
    modify (set_ret (default [] r));;!
    match r with
    | None => ret_ tt
    | Some _ => if op =? REVERT then exit ErrExecutionReverted else Halt
    end.
End instructions.
