(* ===== verification/EvmRun.v ===== *)
(** Package [state/runtime/evm]: the dispatch table ([dispatch_table.go]), the
    interpreter loop ([state.Run]) and the runtime's entry point ([EVM.Run]). *)
From S2P Require Import Prelude Types Runtime Crypto EvmState EvmInstr.

(** ** Opcodes *)

Definition STOP : Z := 0x00.
Definition ADD : Z := 0x01.
Definition MUL : Z := 0x02.
Definition SUB : Z := 0x03.
Definition DIV : Z := 0x04.
Definition SDIV : Z := 0x05.
Definition MOD : Z := 0x06.
Definition SMOD : Z := 0x07.
Definition ADDMOD : Z := 0x08.
Definition MULMOD : Z := 0x09.
Definition EXP : Z := 0x0A.
Definition SIGNEXTEND : Z := 0x0B.
Definition LT : Z := 0x10.
Definition GT : Z := 0x11.
Definition SLT : Z := 0x12.
Definition SGT : Z := 0x13.
Definition EQ : Z := 0x14.
Definition ISZERO : Z := 0x15.
Definition AND : Z := 0x16.
Definition OR : Z := 0x17.
Definition XOR : Z := 0x18.
Definition NOT : Z := 0x19.
Definition BYTE : Z := 0x1A.
Definition SHL : Z := 0x1B.
Definition SHR : Z := 0x1C.
Definition SAR : Z := 0x1D.
Definition SHA3 : Z := 0x20.
Definition ADDRESS : Z := 0x30.
Definition BALANCE : Z := 0x31.
Definition ORIGIN : Z := 0x32.
Definition CALLER : Z := 0x33.
Definition CALLVALUE : Z := 0x34.
Definition CALLDATALOAD : Z := 0x35.
Definition CALLDATASIZE : Z := 0x36.
Definition CALLDATACOPY : Z := 0x37.
Definition CODESIZE : Z := 0x38.
Definition CODECOPY : Z := 0x39.
Definition GASPRICE : Z := 0x3A.
Definition EXTCODESIZE : Z := 0x3B.
Definition EXTCODECOPY : Z := 0x3C.
Definition RETURNDATASIZE : Z := 0x3D.
Definition RETURNDATACOPY : Z := 0x3E.
Definition EXTCODEHASH : Z := 0x3F.
Definition BLOCKHASH : Z := 0x40.
Definition COINBASE : Z := 0x41.
Definition TIMESTAMP : Z := 0x42.
Definition NUMBER : Z := 0x43.
Definition DIFFICULTY : Z := 0x44.
Definition GASLIMIT : Z := 0x45.
Definition CHAINID : Z := 0x46.
Definition SELFBALANCE : Z := 0x47.
Definition POP : Z := 0x50.
Definition MLOAD : Z := 0x51.
Definition MSTORE : Z := 0x52.
Definition MSTORE8 : Z := 0x53.
Definition SLOAD : Z := 0x54.
Definition SSTORE : Z := 0x55.
Definition JUMP : Z := 0x56.
Definition JUMPI : Z := 0x57.
Definition PC : Z := 0x58.
Definition MSIZE : Z := 0x59.
Definition GAS : Z := 0x5A.
Definition JUMPDEST : Z := 0x5B.
Definition PUSH1 : Z := 0x60.
Definition PUSH32 : Z := 0x7F.
Definition DUP1 : Z := 0x80.
Definition DUP16 : Z := 0x8F.
Definition SWAP1 : Z := 0x90.
Definition SWAP16 : Z := 0x9F.
Definition LOG0 : Z := 0xA0.
Definition LOG4 : Z := 0xA4.
Definition SELFDESTRUCT : Z := 0xFF.

Definition stackSize : Z := 1024.

Section run.
Context `{External} `{GoRuntime} `{Host HS}.

Record handler := mkHandler {
  inst : M HS unit;
  stack_ : Z;
  gas_ : Z;
}.

(** The table under construction; [None] once an opcode is registered twice. *)
Definition register (t : option (gmap Z handler)) (e : Z * handler) : option (gmap Z handler) :=
  t ← t;
  match t !! e.1 with
  | Some _ => None
  | None => Some (<[e.1 := e.2]> t)
  end.

(** The calls of [registerRange]: the factory is given 1, 2, ... *)
Definition registerRange (from to : Z) (factory : nat → M HS unit) (gas : Z)
    : list (Z * handler) :=
  (λ k, (from + Z.of_nat k, mkHandler (factory (S k)) 0 gas)) <$> seq 0 (Z.to_nat (to - from + 1)).

(** The registrations of [init], in its order. *)
Definition registrations : list (Z * handler) := [
    (STOP, mkHandler opStop 0 0);
    (ADD, mkHandler opAdd 2 3);
    (SUB, mkHandler opSub 2 3);
    (MUL, mkHandler opMul 2 5);
    (DIV, mkHandler opDiv 2 5);
    (SDIV, mkHandler opSDiv 2 5);
    (MOD, mkHandler opMod 2 5);
    (SMOD, mkHandler opSMod 2 5);
    (EXP, mkHandler opExp 2 10)] ++
  registerRange PUSH1 PUSH32 opPush 3 ++
  registerRange DUP1 DUP16 opDup 3 ++
  registerRange SWAP1 SWAP16 opSwap 3 ++
  registerRange LOG0 LOG4 opLog 375 ++ [
    (ADDMOD, mkHandler opAddMod 3 8);
    (MULMOD, mkHandler opMulMod 3 8);
    (AND, mkHandler opAnd 2 3);
    (OR, mkHandler opOr 2 3);
    (XOR, mkHandler opXor 2 3);
    (BYTE, mkHandler opByte 2 3);
    (NOT, mkHandler opNot 1 3);
    (ISZERO, mkHandler opIsZero 1 3);
    (EQ, mkHandler opEq 2 3);
    (LT, mkHandler opLt 2 3);
    (GT, mkHandler opGt 2 3);
    (SLT, mkHandler opSlt 2 3);
    (SGT, mkHandler opSgt 2 3);
    (SIGNEXTEND, mkHandler opSignExtension 1 5);
    (SHL, mkHandler opShl 2 3);
    (SHR, mkHandler opShr 2 3);
    (SAR, mkHandler opSar 2 3);
    (CREATE, mkHandler (opCreate CREATE) 3 32000);
    (CREATE2, mkHandler (opCreate CREATE2) 4 32000);
    (CALL, mkHandler (opCall CALL) 7 0);
    (CALLCODE, mkHandler (opCall CALLCODE) 7 0);
    (DELEGATECALL, mkHandler (opCall DELEGATECALL) 6 0);
    (STATICCALL, mkHandler (opCall STATICCALL) 6 0);
    (REVERT, mkHandler (opHalt REVERT) 2 0);
    (RETURN, mkHandler (opHalt RETURN) 2 0);
    (MLOAD, mkHandler opMload 1 3);
    (MSTORE, mkHandler opMStore 2 3);
    (MSTORE8, mkHandler opMStore8 2 3);
    (SLOAD, mkHandler opSload 1 0);
    (SSTORE, mkHandler opSStore 2 0);
    (SHA3, mkHandler opSha3 2 30);
    (POP, mkHandler opPop 1 2);
    (EXTCODEHASH, mkHandler opExtCodeHash 1 0);
    (ADDRESS, mkHandler opAddress 0 2);
    (BALANCE, mkHandler opBalance 1 0);
    (SELFBALANCE, mkHandler opSelfBalance 0 5);
    (ORIGIN, mkHandler opOrigin 0 2);
    (CALLER, mkHandler opCaller 0 2);
    (CALLVALUE, mkHandler opCallValue 0 2);
    (CALLDATALOAD, mkHandler opCallDataLoad 1 3);
    (CALLDATASIZE, mkHandler opCallDataSize 0 2);
    (CODESIZE, mkHandler opCodeSize 0 2);
    (EXTCODESIZE, mkHandler opExtCodeSize 1 0);
    (GASPRICE, mkHandler opGasPrice 0 2);
    (RETURNDATASIZE, mkHandler opReturnDataSize 0 2);
    (CHAINID, mkHandler opChainID 0 2);
    (PC, mkHandler opPC 0 2);
    (MSIZE, mkHandler opMSize 0 2);
    (GAS, mkHandler opGas 0 2);
    (EXTCODECOPY, mkHandler opExtCodeCopy 4 0);
    (CALLDATACOPY, mkHandler opCallDataCopy 3 3);
    (RETURNDATACOPY, mkHandler opReturnDataCopy 3 3);
    (CODECOPY, mkHandler opCodeCopy 3 3);
    (BLOCKHASH, mkHandler opBlockHash 1 20);
    (COINBASE, mkHandler opCoinbase 0 2);
    (TIMESTAMP, mkHandler opTimestamp 0 2);
    (NUMBER, mkHandler opNumber 0 2);
    (DIFFICULTY, mkHandler opDifficulty 0 2);
    (GASLIMIT, mkHandler opGasLimit 0 2);
    (SELFDESTRUCT, mkHandler opSelfDestruct 1 0);
    (JUMP, mkHandler opJump 1 8);
    (JUMPI, mkHandler opJumpi 2 10);
    (JUMPDEST, mkHandler opJumpDest 0 1)].

Definition init : option (gmap Z handler) := foldl register (Some ∅) registrations.
Definition dispatchTable : gmap Z handler := default ∅ init.

(** ** The interpreter loop *)

Definition CurrentOpCode (c : state) : outcome (Z * bool) :=
  if ip c >=? Z.of_nat (length (code c)) then Ret (STOP, false)
  else if ip c <? 0 then Panic
  else match code c !! Z.to_nat (ip c) with
       | Some op => Ret (op, true)
       | None => Panic
       end.

(** How one turn of the loop ends. *)
Inductive turn := Break | Continue.

Definition Run_turn : M HS turn := λ c h,
  match CurrentOpCode c with
  | Panic => Panic
  | NoFuel => NoFuel
  | Ret (op, ok) =>
      (if negb ok then Halt;;! ret_ Break
       else
         match dispatchTable !! op with
         | None => exit errOpCodeNotFound;;! ret_ Break
         | Some i =>
             let! sp := gets (λ c, Z.of_nat (length (stack c))) in
             if sp <? stack_ i then exit ErrStackUnderflow;;! ret_ Break
             else
               let! ok := consumeGas (gas_ i) in
               if negb ok then exit ErrOutOfGas;;! ret_ Break
               else
                 inst i;;!
                 let! sp := gets (λ c, Z.of_nat (length (stack c))) in
                 if sp >? stackSize then exit ErrStackOverflow;;! ret_ Break
                 else modify (λ c, set_ip (ip c + 1) c);;! ret_ Continue
         end) c h
  end.

Fixpoint Run_loop (fuel : nat) (c : state) (h : HS) : outcome (state * HS) :=
  if stop c then Ret (c, h)
  else
    match fuel with
    | O => NoFuel
    | S fuel =>
        match Run_turn c h with
        | Ret (Break, c, h) => Ret (c, h)
        | Ret (Continue, c, h) => Run_loop fuel c h
        | Panic => Panic
        | NoFuel => NoFuel
        end
    end.

(** ** The runtime *)

(** [acquireState] returns a machine released by [releaseState], of which only
    the backing arrays are left: those of the memory and of the bitmap. *)
Definition acquireState (mem bm : bytes) (c : Contract) (cfg : ForksInTime) : state :=
  mkState 0 (c_Code c) c cfg (mkSlice [] mem) 0 [] None false (c_Gas c) 0 (mkSlice [] bm) [] [].

(** [reset]: what is left of a machine in the pool. *)
Definition releaseState (c : state) : bytes * bytes :=
  (zeros (length (vis (memory c))) ++ spare (memory c),
   zeros (length (vis (bitmap c))) ++ spare (bitmap c)).

Definition set_bitmap x (c : state) : state :=
  mkState (ip c) (code c) (msg c) (config c) (memory c) (lastGasCost c) (stack c) (err c)
    (stop c) (gas c) (currentConsumedGas c) x (returnData c) (ret c).

(** [bitmap.setCode]. *)
Definition setCode (cd : bytes) (b : slice) : slice :=
  let b := extendByteSlice b (Z.to_nat (Z.of_nat (length cd) / bitmapSize + 1)) in
  mkSlice (setCode_loop (length cd) cd 0 (vis b)) (spare b).

Definition start (mem bm : bytes) (c : Contract) (cfg : ForksInTime) : state :=
  let s := acquireState mem bm c cfg in
  set_bitmap (setCode (c_Code c) (bitmap s)) s.

Definition finish (c : Contract) (s : state) : ExecutionResult :=
  let gasLeft := match err s with
                 | None => gas s
                 | Some e => if decide (e = ErrExecutionReverted) then gas s else 0
                 end in
  mkResult (ret s) gasLeft (sub64 (c_Gas c) gasLeft) (err s).

(** [EVM.Run] on a machine from the pool, with [fuel] turns at most. *)
Definition EVM_Run (fuel : nat) (mem bm : bytes) (c : Contract) (cfg : ForksInTime) (h : HS)
    : outcome (ExecutionResult * (bytes * bytes) * HS) :=
  match Run_loop fuel (start mem bm c cfg) h with
  | Ret (s, h) => Ret (finish c s, releaseState s, h)
  | Panic => Panic
  | NoFuel => NoFuel
  end.
End run.
