(* ===== verification/EvmWord.v ===== *)
(** The word instructions compute the functions of the machine's words: the
    in-place operations on big integers of [instructions.go] against arithmetic
    modulo 2^256. *)
From S2P Require Import Prelude Types Runtime Crypto EvmState EvmInstr.

(** ** Words *)

Definition W : Z := 2 ^ 256.
Definition word (z : Z) : Prop := 0 ≤ z < W.
#[global] Instance word_dec z : Decision (word z) := _.

(** The word as a two's complement integer, and back. *)
Definition signed (z : Z) : Z := if z <? 2 ^ 255 then z else z - W.
Definition wrap (z : Z) : Z := z mod W.

Lemma wrap_word z : word (wrap z).
Proof. apply Z.mod_pos_bound. done. Qed.
Lemma wrap_small z : word z → wrap z = z.
Proof. apply Z.mod_small. Qed.
Lemma word_0 : word 0.
Proof. done. Qed.
Lemma word_b2z b : word (b2z b).
Proof. by destruct b. Qed.
#[export] Hint Resolve wrap_word word_0 word_b2z : go.

Lemma toU256_wrap x : toU256 x = wrap x.
Proof.
  unfold toU256, wrap. rewrite Z.gtb_ltb, BitLen_ltb by done.
  change (Z.land x tt256m1) with (Z.land x (Z.ones 256)). rewrite Z.land_ones by done.
  change (2 ^ 256) with W.
  destruct (Z.ltb_spec (Z.sgn x) 0); simpl; [done|].
  destruct (Z.leb_spec W (Z.abs x)); [done|].
  symmetry. apply Z.mod_small. lia.
Qed.

Lemma to256_signed x : word x → to256 x = signed x.
Proof.
  intros [? ?]. unfold to256, signed. rewrite Z.gtb_ltb, BitLen_ltb by done.
  rewrite Z.abs_eq by done. change tt256 with W.
  rewrite Z.leb_antisym. by destruct (x <? 2 ^ 255).
Qed.

Lemma signed_range x : word x → - 2 ^ 255 ≤ signed x < 2 ^ 255.
Proof. unfold word, signed, W. intros. destruct (Z.ltb_spec x (2 ^ 255)); lia. Qed.

Lemma wrap_signed x : word x → wrap (signed x) = x.
Proof.
  intros Hx. unfold signed. case_match; [by apply wrap_small|].
  unfold wrap. rewrite <- (Z_mod_plus_full (x - W) 1).
  replace (x - W + 1 * W) with x by lia. by apply Z.mod_small.
Qed.

Lemma word_land a b : word a → word b → word (Z.land a b).
Proof.
  intros [? ?] [? ?]. assert (0 ≤ Z.land a b) by (apply Z.land_nonneg; lia).
  split; [done|]. apply Z.le_lt_trans with a; [|done]. apply Z.ldiff_le; [done|].
  apply Z.bits_inj'. intros n Hn. rewrite Z.ldiff_spec, Z.land_spec, Z.bits_0.
  destruct (Z.testbit a n), (Z.testbit b n); done.
Qed.

Lemma word_log2 z : 0 ≤ z → word z ↔ Z.log2 z < 256.
Proof.
  intros Hz. unfold word, W. destruct (Z.eq_dec z 0) as [->|]; [done|].
  rewrite (Z.log2_lt_pow2 z 256) by lia. lia.
Qed.

Lemma word_lor a b : word a → word b → word (Z.lor a b).
Proof.
  intros Ha Hb. pose proof (proj1 Ha). pose proof (proj1 Hb).
  apply word_log2; [by apply Z.lor_nonneg|]. rewrite Z.log2_lor by done.
  apply word_log2 in Ha, Hb; [|done..]. lia.
Qed.

Lemma word_lxor a b : word a → word b → word (Z.lxor a b).
Proof.
  intros Ha Hb. pose proof (proj1 Ha). pose proof (proj1 Hb).
  apply word_log2; [by apply Z.lxor_nonneg; tauto|].
  pose proof (Z.log2_lxor a b ltac:(done) ltac:(done)).
  apply word_log2 in Ha, Hb; [|done..]. lia.
Qed.
#[export] Hint Resolve word_land word_lor word_lxor : go.

(** ** Signed division *)

Lemma sdiv_quot a b :
  b ≠ 0 →
  (if negb (Z.sgn a =? Z.sgn b) then - (Z.abs a / Z.abs b) else Z.abs a / Z.abs b)
  = Z.quot a b.
Proof.
  intros Hb. rewrite Z.quot_div by done.
  destruct (Z.eqb_spec (Z.sgn a) (Z.sgn b)) as [->|Hs]; simpl.
  - destruct b; simpl; lia.
  - destruct (Z.eq_dec a 0) as [->|Ha]; [by rewrite Z.div_0_l by lia|].
    destruct a, b; simpl in *; try lia; done.
Qed.

Lemma smod_rem a b :
  b ≠ 0 →
  (if Z.sgn a <? 0 then - (Z.abs a mod Z.abs b) else Z.abs a mod Z.abs b) = Z.rem a b.
Proof.
  intros Hb. rewrite Z.rem_mod by done.
  destruct (Z.ltb_spec (Z.sgn a) 0) as [Ha|Ha].
  - destruct a; simpl in *; lia.
  - destruct (Z.eq_dec a 0) as [->|Ha']; [by rewrite Z.mod_0_l by lia|].
    destruct a; simpl in *; lia.
Qed.

Lemma sgn_eqb_0 z : (Z.sgn z =? 0) = (z =? 0).
Proof. by destruct z. Qed.

Lemma signed_0 z : word z → (signed z =? 0) = (z =? 0).
Proof. unfold signed, word, W. intros. case_match; bool_props; lia. Qed.

(** ** Exponentiation *)

Lemma wrap_mul_l a b : wrap (wrap a * b) = wrap (a * b).
Proof. by apply Z.mul_mod_idemp_l. Qed.
Lemma wrap_mul_r a b : wrap (a * wrap b) = wrap (a * b).
Proof. by apply Z.mul_mod_idemp_r. Qed.
Lemma wrap_pow a n : wrap (wrap a ^ n) = wrap (a ^ n).
Proof. apply Z.mod_pow_l. Qed.
Lemma wrap_idemp a : wrap (wrap a) = wrap a.
Proof. by apply Z.mod_mod. Qed.

(** One more bit of an exponent. *)
Lemma pow_bit x d n :
  0 ≤ d → x ^ (d mod 2 ^ Z.of_nat (S n)) =
  (if Z.land d 1 =? 1 then x else 1) * (x * x) ^ (Z.shiftr d 1 mod 2 ^ Z.of_nat n).
Proof.
  intros Hd. rewrite Z.shiftr_div_pow2 by done. change (Z.land d 1) with (Z.land d (Z.ones 1)).
  rewrite Z.land_ones by done. change (2 ^ 1) with 2.
  rewrite Nat2Z.inj_succ, Z.pow_succ_r by lia. rewrite Z.rem_mul_r by lia.
  pose proof (Z.mod_pos_bound d 2 ltac:(lia)).
  pose proof (Z.mod_pos_bound (d / 2) (2 ^ Z.of_nat n) ltac:(lia)).
  rewrite Z.pow_add_r, Z.pow_mul_r by lia. replace (x ^ 2) with (x * x) by lia.
  destruct (Z.eqb_spec (d mod 2) 1) as [->|]; [lia|].
  replace (d mod 2) with 0 by lia. lia.
Qed.

Lemma exp_bits_spec n d z x :
  0 ≤ d → exp_bits n d (wrap z, wrap x) =
  (wrap (z * x ^ (d mod 2 ^ Z.of_nat n)), wrap (x ^ (2 ^ Z.of_nat n))).
Proof.
  revert d z x. induction n as [|n IH]; intros d z x Hd.
  { simpl. by rewrite Z.mod_1_r, Z.mul_1_r, Z.pow_1_r. }
  cbn [exp_bits]. rewrite !toU256_wrap, wrap_mul_l, wrap_mul_r.
  rewrite wrap_mul_l, wrap_mul_r. rewrite pow_bit by done.
  replace (if Z.land d 1 =? 1 then wrap (z * x) else wrap z)
    with (wrap (z * if Z.land d 1 =? 1 then x else 1)) by (case_match; f_equal; lia).
  rewrite IH by (by apply Z.shiftr_nonneg). f_equal; [f_equal; lia|]. f_equal.
  rewrite Nat2Z.inj_succ, Z.pow_succ_r, Z.pow_mul_r by lia. f_equal. lia.
Qed.

Lemma Bits_loop_exp n y z x :
  0 ≤ y → foldl (λ zx d, exp_bits 64 d zx) (wrap z, wrap x) (Bits_loop n y) =
  (wrap (z * x ^ (y mod 2 ^ (64 * Z.of_nat n))), wrap (x ^ (2 ^ (64 * Z.of_nat n)))).
Proof.
  revert y z x. induction n as [|n IH]; intros y z x Hy.
  { change (64 * Z.of_nat 0) with 0. by rewrite Z.mod_1_r, Z.mul_1_r, Z.pow_1_r. }
  cbn [Bits_loop foldl].
  rewrite exp_bits_spec by (apply Z.mod_pos_bound; done).
  rewrite IH by (apply Z.div_pos; done).
  change (2 ^ Z.of_nat 64) with M64. rewrite Z.mod_mod by done.
  replace (64 * Z.of_nat (S n)) with (64 + 64 * Z.of_nat n) by lia.
  rewrite Z.pow_add_r by lia. change (2 ^ 64) with M64. set (k := 2 ^ (64 * Z.of_nat n)).
  assert (0 < k) by (apply Z.pow_pos_nonneg; lia).
  rewrite Z.rem_mul_r by (try done; lia).
  pose proof (Z.mod_pos_bound y M64 M64_pos). pose proof (Z.mod_pos_bound (y / M64) k ltac:(lia)).
  rewrite Z.pow_add_r, !Z.pow_mul_r by (pose proof M64_pos; lia).
  split_and?; f_equal; f_equal; lia.
Qed.

Lemma exp_words_spec x y : word x → 0 ≤ y → exp_words x y = wrap (x ^ y).
Proof.
  intros Hx Hy. unfold exp_words, Bits. rewrite Z.abs_eq by done.
  change 1 with (wrap 1) at 1. rewrite <- (wrap_small x) at 1 by done.
  rewrite Bits_loop_exp by done. cbn [fst]. rewrite Z.mul_1_l. do 2 f_equal.
  pose proof (BitLen_nonneg y) as Hn.
  set (k := (BitLen y + 63) / 64). assert (BitLen y ≤ 64 * k) as Hk.
  { unfold k. pose proof (Z.mul_succ_div_gt (BitLen y + 63) 64 ltac:(lia)). lia. }
  rewrite Z2Nat.id by (apply Z.div_pos; lia).
  apply Z.mod_small. split; [done|].
  pose proof (BitLen_ltb (64 * k) y ltac:(lia)) as Hb.
  rewrite (proj2 (Z.ltb_ge _ _) Hk), Z.abs_eq in Hb by done. symmetry in Hb. bool_props. done.
Qed.

(** ** Shifts, bytes and sign extension *)

Lemma shift_overflow a : word a → equalOrOverflowsUint256 a = (256 <=? a).
Proof.
  intros [? ?]. unfold equalOrOverflowsUint256. rewrite Z.gtb_ltb, BitLen_ltb by done.
  by rewrite Z.abs_eq.
Qed.

Lemma pow2_W a : 256 ≤ a → ∃ k, 0 < k ∧ 2 ^ a = k * W.
Proof.
  intros. exists (2 ^ (a - 256)). split; [lia|]. unfold W. rewrite <- Z.pow_add_r by lia. f_equal. lia.
Qed.

Lemma Uint64_word a : 0 ≤ a < M64 → Uint64 a = a.
Proof. intros. unfold Uint64. rewrite Z.abs_eq by lia. by apply u64_small. Qed.

Lemma small_u64 a : 0 ≤ a ≤ 2 ^ 63 → 0 ≤ a < M64.
Proof. unfold M64. lia. Qed.

(** Words shifted left, right, and right with their sign; any shift is allowed. *)
Lemma shl_spec a b :
  word a → (if equalOrOverflowsUint256 a then 0 else wrap (Z.shiftl b (Uint64 a)))
           = wrap (b * 2 ^ a).
Proof.
  intros Ha. rewrite shift_overflow by done. destruct (Z.leb_spec 256 a) as [Hl|Hl].
  - destruct (pow2_W a Hl) as (k & _ & ->). unfold wrap.
    by rewrite Z.mul_assoc, Z.mod_mul.
  - destruct Ha. rewrite Uint64_word by (apply small_u64; lia). by rewrite Z.shiftl_mul_pow2.
Qed.

Lemma shr_spec a b :
  word a → word b → (if equalOrOverflowsUint256 a then 0 else wrap (Z.shiftr b (Uint64 a)))
                    = b / 2 ^ a.
Proof.
  intros Ha [Hb ?]. rewrite shift_overflow by done. destruct (Z.leb_spec 256 a) as [Hl|Hl].
  - destruct (pow2_W a Hl) as (k & ? & ->). symmetry. apply Z.div_small. unfold word in *. nia.
  - destruct Ha as [Ha _]. rewrite Uint64_word by (apply small_u64; lia).
    rewrite Z.shiftr_div_pow2 by done. apply wrap_small. split; [by apply Z.div_pos; lia|].
    apply Z.le_lt_trans with b; [|done]. apply Z.div_le_upper_bound; nia.
Qed.

Lemma sar_spec a b :
  word a → word b →
  (if equalOrOverflowsUint256 a then (if Z.sgn (signed b) >=? 0 then 0 else tt256m1)
   else wrap (Z.shiftr (signed b) (Uint64 a)))
  = wrap (signed b / 2 ^ a).
Proof.
  intros Ha Hb. rewrite shift_overflow by done. pose proof (signed_range b Hb).
  destruct (Z.leb_spec 256 a) as [Hl|Hl].
  - destruct (pow2_W a Hl) as (k & ? & Hk).
    rewrite Z.geb_leb. destruct (Z.leb_spec 0 (Z.sgn (signed b))).
    + rewrite Z.div_small; [done|]. rewrite Hk. unfold W. lia.
    + replace (signed b / 2 ^ a) with (-1); [done|].
      apply (Z.div_unique_pos _ _ _ (signed b + 2 ^ a)); rewrite Hk; unfold W; lia.
  - destruct Ha as [Ha _]. rewrite Uint64_word by (apply small_u64; lia).
    by rewrite Z.shiftr_div_pow2.
Qed.

(** The low [8 * (ext + 1)] bits as a two's complement integer. *)
Definition sign_extend (ext x : Z) : Z :=
  if ext <? 31
  then let n := 8 * (ext + 1) in wrap ((x + 2 ^ (n - 1)) mod 2 ^ n - 2 ^ (n - 1))
  else x.

Lemma sign_extend_bit bit x :
  0 ≤ bit →
  (x + 2 ^ bit) mod 2 ^ (bit + 1) - 2 ^ bit =
  if Z.testbit x bit then x mod 2 ^ bit - 2 ^ bit else x mod 2 ^ bit.
Proof.
  intros Hb. rewrite Z.testbit_eqb by done.
  assert (0 < 2 ^ bit) as Hp by lia. set (p := 2 ^ bit) in *.
  replace (2 ^ (bit + 1)) with (p * 2) by (unfold p; rewrite Z.pow_add_r by lia; lia).
  pose proof (Z.div_mod x p ltac:(lia)) as Hx. pose proof (Z.mod_pos_bound x p Hp).
  pose proof (Z.div_mod (x / p) 2 ltac:(lia)) as Hq.
  pose proof (Z.mod_pos_bound (x / p) 2 ltac:(lia)).
  set (q := x / p) in *. set (r := x mod p) in *.
  destruct (Z.eqb_spec (q mod 2) 1).
  - rewrite <- (Z.mod_unique_pos (x + p) (p * 2) (q / 2 + 1) r); nia.
  - rewrite <- (Z.mod_unique_pos (x + p) (p * 2) (q / 2) (r + p)); nia.
Qed.
Lemma lor_lnot_ones x n : 0 ≤ n → Z.lor x (Z.lnot (Z.ones n)) = x mod 2 ^ n - 2 ^ n.
Proof.
  intros Hn. assert (0 < 2 ^ n) by lia.
  rewrite <- (Z.lnot_involutive x) at 1. rewrite <- Z.lnot_land, Z.land_ones by done.
  unfold Z.lnot.
  replace (Z.pred (- x) mod 2 ^ n) with (2 ^ n - 1 - x mod 2 ^ n); [lia|].
  pose proof (Z.mod_pos_bound x (2 ^ n) ltac:(lia)).
  apply (Z.mod_unique_pos _ _ (- (x / 2 ^ n) - 1)); [lia|].
  pose proof (Z.div_mod x (2 ^ n) ltac:(lia)). lia.
Qed.

Lemma sign_extend_spec ext x bit mask :
  0 ≤ ext ≤ 32 → word x → bit = 8 * ext + 7 → mask = Z.ones bit →
  wrap (if Z.testbit x bit then Z.lor x (Z.lnot mask) else Z.land x mask) = sign_extend ext x.
Proof.
  intros Hext Hx Hbit ->. unfold sign_extend.
  rewrite lor_lnot_ones, Z.land_ones by lia.
  replace (8 * (ext + 1) - 1) with bit by lia. replace (8 * (ext + 1)) with (bit + 1) by lia.
  rewrite <- sign_extend_bit by lia. destruct (Z.ltb_spec ext 31); [done|].
  assert (2 ^ 255 ≤ 2 ^ bit) by (apply Z.pow_le_mono_r; lia).
  rewrite sign_extend_bit by lia. destruct Hx as [Hx0 HW].
  rewrite Z.testbit_eqb by lia. destruct (decide (bit = 255)) as [->|].
  - replace (if _ : bool then _ else _) with (signed x); [by apply wrap_signed|].
    unfold signed. change W with (2 ^ 255 * 2) in *.
    destruct (Z.ltb_spec x (2 ^ 255)) as [Hs|Hs].
    + by rewrite Z.div_small, (Z.mod_small x).
    + rewrite <- (Z.div_unique_pos x (2 ^ 255) 1 (x - 2 ^ 255)) by lia.
      rewrite <- (Z.mod_unique_pos x (2 ^ 255) 1 (x - 2 ^ 255)) by lia. simpl. lia.
  - assert (2 ^ 256 ≤ 2 ^ bit) by (apply Z.pow_le_mono_r; lia). unfold W in HW.
    rewrite Z.div_small, (Z.mod_small x) by lia. by apply wrap_small.
Qed.

(** ** Two operands *)

Section words.
Context `{External} `{GoRuntime} `{Host HS}.

(** [op] replaces the two top words by [f] of them, and changes nothing else. *)
Definition computes2 (op : M HS unit) (f : Z → Z → Z) : Prop :=
  ∀ c h a b s, word a → word b → stack c = a :: b :: s →
  op c h = Ret (tt, set_stack (f a b :: s) c, h).

Definition binary_words : list (M HS unit * (Z → Z → Z)) := [
  (opAdd, λ a b, wrap (a + b));
  (opMul, λ a b, wrap (a * b));
  (opSub, λ a b, wrap (a - b));
  (opDiv, λ a b, if b =? 0 then 0 else a / b);
  (opSDiv, λ a b, if b =? 0 then 0 else wrap (Z.quot (signed a) (signed b)));
  (opMod, λ a b, if b =? 0 then 0 else a mod b);
  (opSMod, λ a b, if b =? 0 then 0 else wrap (Z.rem (signed a) (signed b)));
  (opAnd, Z.land);
  (opOr, Z.lor);
  (opXor, Z.lxor);
  (opEq, λ a b, b2z (a =? b));
  (opLt, λ a b, b2z (a <? b));
  (opGt, λ a b, b2z (b <? a));
  (opSlt, λ a b, b2z (signed a <? signed b));
  (opSgt, λ a b, b2z (signed b <? signed a)) ].

(** Run an instruction that only touches the stack. *)
#[local] Ltac on_stack :=
  intros c h a b s Ha Hb Hs; destruct c; simpl in Hs; subst;
  cbv [opAdd opMul opSub opDiv opSDiv opMod opSMod opAnd opOr opXor opEq opLt opGt opSlt opSgt
       opShl opShr opSar mbind_ pop top pop_nil top_nil deref ret_ gets modify set_top set_stack
       stack head tail ip code msg config memory lastGasCost err stop gas currentConsumedGas
       bitmap returnData ret];
  rewrite ?sgn_eqb_0, ?toU256_wrap, ?to256_signed, ?Z.gtb_ltb by done.

Lemma div_word a b : word a → word b → b ≠ 0 → word (a / b).
Proof.
  unfold word. intros. pose proof (Z.div_le_upper_bound a b a ltac:(lia) ltac:(nia)).
  pose proof (Z.div_pos a b ltac:(lia) ltac:(lia)). lia.
Qed.

Lemma mod_word a b : word a → word b → b ≠ 0 → word (a mod b).
Proof. unfold word. intros. pose proof (Z.mod_pos_bound a b ltac:(lia)). lia. Qed.


(** The shifts multiply, divide, and divide the signed word by the power of
    two, whatever the shift (256 and more included). *)
Theorem shifts_correct c (h : HS) a b s :
  word a → word b → stack c = a :: b :: s → Constantinople (config c) = true →
  opShl c h = Ret (tt, set_stack (wrap (b * 2 ^ a) :: s) c, h) ∧
  opShr c h = Ret (tt, set_stack (b / 2 ^ a :: s) c, h) ∧
  opSar c h = Ret (tt, set_stack (wrap (signed b / 2 ^ a) :: s) c, h).
Proof using.
  intros Ha Hb Hs Hc. rewrite <- shl_spec, <- (shr_spec a b), <- sar_spec by done.
  destruct c; simpl in *; subst. unfold opShl, opShr, opSar, mbind_; simpl. rewrite Hc; simpl.
  rewrite !toU256_wrap, to256_signed by done. by destruct (equalOrOverflowsUint256 a).
Qed.

(** [EXP] charges its price per byte of the exponent and leaves the power
    modulo 2^256, or runs out of gas. *)
Theorem opExp_correct c (h : HS) x y s :
  word x → word y → stack c = x :: y :: s →
  let cost := (BitLen y + 7) / 8 * (if EIP158 (config c) then 50 else 10) in
  opExp c h =
    if gas c <? cost
    then Ret (tt, set_exit (Some ErrOutOfGas)
                    (set_consumed (add64 (currentConsumedGas c) cost) (set_stack (y :: s) c)), h)
    else Ret (tt, set_gas (sub64 (gas c) cost)
                    (set_consumed (add64 (currentConsumedGas c) cost)
                       (set_stack (wrap (x ^ y) :: s) c)), h).
Proof using.
  intros Hx Hy Hs cost. rewrite <- exp_words_spec by (try done; apply Hy).
  assert (Hcost : mul64 ((BitLen y + 7) / 8) (if EIP158 (config c) then 50 else 10) = cost).
  { apply u64_small. pose proof (BitLen_nonneg y).
    assert (BitLen y ≤ 256).
    { apply Z.ltb_ge. rewrite BitLen_ltb by done. apply Z.leb_gt. unfold word, W in Hy. lia. }
    pose proof (Z.div_pos (BitLen y + 7) 8 ltac:(lia) ltac:(lia)).
    pose proof (Z.div_le_upper_bound (BitLen y + 7) 8 33 ltac:(lia) ltac:(lia)).
    unfold cost. split; case_match; unfold M64; lia. }
  destruct c; simpl in *; subst. unfold opExp, consumeGas, mbind_; simpl. rewrite Hcost.
  by destruct (gas <? cost).
Qed.

(** [SIGNEXTEND] extends the sign of the low [ext + 1] bytes, and leaves the
    word alone from byte 31 on. *)
Theorem opSignExtension_correct c (h : HS) ext x s :
  word ext → word x → stack c = ext :: x :: s →
  opSignExtension c h = Ret (tt, set_stack (sign_extend ext x :: s) c, h).
Proof using.
  intros [? ?] Hx Hs. destruct c; simpl in *; subst. unfold opSignExtension, mbind_; simpl.
  rewrite Z.gtb_ltb. destruct (Z.ltb_spec wordSize ext) as [Hw|Hw]; unfold wordSize in Hw.
  - unfold sign_extend. by rewrite (proj2 (Z.ltb_ge ext 31)) by lia.
  - simpl. rewrite toU256_wrap. unfold modify, set_stack; simpl.
    rewrite (Uint64_word ext) by (apply small_u64; lia).
    replace (add64 (mul64 ext 8) 7) with (8 * ext + 7).
    2:{ unfold add64, mul64. rewrite u64_add_l. symmetry. rewrite u64_small; [lia|].
        unfold is_u64, M64. lia. }
    by rewrite (sign_extend_spec ext) by
      (try done; rewrite ?Z.ones_equiv, ?Z.shiftl_mul_pow2; lia).
Qed.

(** [BYTE] selects the byte of its index counted from the most significant
    one, and 0 past the word, as long as the index is below 2^63. *)
Theorem opByte_correct c (h : HS) x y s :
  0 ≤ x < 2 ^ 63 → word y → stack c = x :: y :: s →
  opByte c h =
    Ret (tt, set_stack ((if x <? 32 then y / 256 ^ (31 - x) mod 256 else 0) :: s) c, h).
Proof using.
  intros Hx Hy Hs. assert (Hi : Int64 x = x).
  { unfold Int64, s64. rewrite Z.mod_small; unfold M64; lia. }
  destruct c; simpl in *; subst. unfold opByte, mbind_; simpl. rewrite Hi, Z.gtb_ltb.
  destruct (Z.ltb_spec 31 x), (Z.ltb_spec x 32); try lia; [done|].
  unfold set_top, modify; simpl. do 3 f_equal. unfold set_stack; simpl. do 2 f_equal.
  change opByteMask with (Z.ones 8). rewrite Z.land_ones by done.
  replace (u64 (s64 ((31 - x) * 8))) with (8 * (31 - x)).
  2:{ unfold s64. rewrite Z.mod_small by (unfold M64; lia).
      rewrite u64_small by (unfold is_u64, M64; lia). lia. }
  rewrite Z.shiftr_div_pow2, Z.pow_mul_r by lia. done.
Qed.
End words.
