(* ===== verification/EvmMemory.v ===== *)
(** Memory, call data and jump destinations of the machine: the byte loops of
    [instructions.go] and [bitmap.go] against their meaning. *)
From S2P Require Import Prelude Types Runtime Crypto EvmState EvmInstr EvmRun EvmWord.

(** ** Storing a word *)

Lemma be_bytes_mod n z : be_bytes n (z mod 256 ^ Z.of_nat n) = be_bytes n z.
Proof.
  rewrite <- SetBytes_be_bytes. rewrite <- (length_be_bytes n z) at 1.
  apply be_bytes_SetBytes, be_bytes_range.
Qed.

Lemma be_bytes_0 n : be_bytes n 0 = zeros n.
Proof.
  induction n as [|n IH]; [done|]. cbn [be_bytes].
  change (0 / 256) with 0. rewrite IH. unfold zeros. by rewrite replicate_S_end.
Qed.

Lemma be_bytes_pad k n z : 0 ≤ z < 256 ^ Z.of_nat n → be_bytes (k + n) z = zeros k ++ be_bytes n z.
Proof. intros. by rewrite be_bytes_app, Z.div_small, be_bytes_0. Qed.

Lemma take_insert_last {A} i (x : A) (l : list A) :
  (i < length l)%nat → take (S i) (<[i:=x]> l) = take i l ++ [x].
Proof.
  intros. rewrite (take_S_r _ _ x) by (apply list_lookup_insert_eq; done).
  by rewrite take_insert_ge.
Qed.

Lemma store_word_spec j d i buf :
  (j ≤ i ≤ length buf)%nat →
  store_word j d (i, buf) =
    Some ((i - j)%nat, take (i - j) buf ++ be_bytes j d ++ drop i buf).
Proof.
  revert d i buf. induction j as [|j IH]; intros d i buf Hi.
  { simpl. by rewrite Nat.sub_0_r, take_drop. }
  destruct i as [|i]; [lia|]. cbn [store_word]. rewrite IH by (rewrite length_insert; lia).
  simpl (S i - S j)%nat. do 2 f_equal. rewrite take_insert_ge by lia. f_equal.
  cbn [be_bytes]. rewrite Z.shiftr_div_pow2 by done. rewrite <- app_assoc. f_equal.
  rewrite drop_insert_ge, Nat.sub_diag by lia.
  destruct (drop i buf) as [|y l] eqn:E.
  { apply (f_equal length) in E. rewrite length_drop in E. simpl in E. lia. }
  simpl. f_equal. rewrite <- Nat.add_1_r, <- drop_drop, E. done.
Qed.

Lemma store_words_spec n z i buf :
  (8 * n ≤ i ≤ length buf)%nat → 0 ≤ z →
  store_words (Bits_loop n z) (i, buf) =
    Some ((i - 8 * n)%nat, take (i - 8 * n) buf ++ be_bytes (8 * n) z ++ drop i buf).
Proof.
  revert z i buf. induction n as [|n IH]; intros z i buf Hi Hz.
  { simpl. by rewrite Nat.sub_0_r, take_drop. }
  cbn [Bits_loop store_words]. rewrite store_word_spec by lia.
  rewrite IH; [|rewrite !length_app, length_take, length_be_bytes, length_drop; lia|
                by apply Z.div_pos].
  replace (i - 8 - 8 * n)%nat with (i - 8 * S n)%nat by lia. do 2 f_equal.
  rewrite take_app_le, take_take by (rewrite length_take; lia). f_equal; [f_equal; lia|].
  rewrite drop_app_length' by (rewrite length_take; lia).
  replace (8 * S n)%nat with (8 * n + 8)%nat by lia. rewrite be_bytes_app, <- app_assoc.
  change (256 ^ Z.of_nat 8) with M64. do 2 f_equal.
  change M64 with (256 ^ Z.of_nat 8). by rewrite be_bytes_mod.
Qed.

Lemma fill_zeros_spec i buf :
  (i ≤ length buf)%nat → fill_zeros i buf = zeros i ++ drop i buf.
Proof.
  revert buf. induction i as [|i IH]; intros buf Hi; [done|]. cbn [fill_zeros].
  rewrite IH by (rewrite length_insert; lia). unfold zeros. rewrite replicate_S_end, <- app_assoc.
  f_equal. destruct (drop i buf) as [|y l] eqn:E.
  { apply (f_equal length) in E. rewrite length_drop in E. simpl in E. lia. }
  rewrite drop_insert_ge, Nat.sub_diag, E by lia. simpl. f_equal.
  by rewrite <- Nat.add_1_r, <- drop_drop, E.
Qed.

Lemma Bits_count v : word v → (Z.to_nat ((BitLen v + 63) / 64) ≤ 4)%nat.
Proof.
  intros [? ?]. assert (BitLen v ≤ 256).
  { apply Z.ltb_ge. rewrite BitLen_ltb by done. apply Z.leb_gt. unfold W in *. lia. }
  pose proof (Z.div_lt_upper_bound (BitLen v + 63) 64 5 ltac:(lia) ltac:(lia)).
  pose proof (BitLen_nonneg v). pose proof (Z.div_pos (BitLen v + 63) 64 ltac:(lia) ltac:(lia)). lia.
Qed.

Lemma Bits_bound v :
  word v → v < 256 ^ Z.of_nat (8 * Z.to_nat ((BitLen v + 63) / 64)).
Proof.
  intros [Hv _]. pose proof (BitLen_nonneg v).
  set (k := (BitLen v + 63) / 64). assert (0 ≤ k) by (apply Z.div_pos; lia).
  assert (BitLen v ≤ 64 * k).
  { unfold k. pose proof (Z.mul_succ_div_gt (BitLen v + 63) 64 ltac:(lia)). lia. }
  replace (256 ^ Z.of_nat (8 * Z.to_nat k)) with (2 ^ (64 * k)).
  - pose proof (BitLen_ltb (64 * k) v ltac:(lia)) as Hb.
    rewrite (proj2 (Z.ltb_ge _ _)), Z.abs_eq in Hb by lia. symmetry in Hb. bool_props. done.
  - change 256 with (2 ^ 8). rewrite <- Z.pow_mul_r by lia. f_equal. lia.
Qed.

(** The loops of [opMStore] write the 32 bytes of the word, and never run off
    the buffer. *)
Lemma store32_spec v buf :
  word v → length buf = 32%nat → store32 v buf = Some (be_bytes 32 v).
Proof.
  intros Hv Hl. unfold store32, Bits. pose proof (Bits_count v Hv) as Hc.
  pose proof (Bits_bound v Hv) as Hb. set (n := Z.to_nat _) in *.
  rewrite Z.abs_eq by apply Hv. rewrite store_words_spec by (try apply Hv; lia).
  rewrite fill_zeros_spec by (rewrite !length_app, length_take, length_be_bytes, length_drop; lia).
  f_equal. rewrite drop_app_length' by (rewrite length_take; lia).
  rewrite (drop_ge buf) by lia. rewrite app_nil_r, <- be_bytes_pad by (split; [apply Hv|done]).
  f_equal. lia.
Qed.

(** ** Copying call data, code and return data *)

(** The [size] bytes of [input] from [off], zero past its end. *)
Definition padded (input : bytes) (off : Z) (size : nat) : bytes :=
  (λ i, default 0 (if off + Z.of_nat i <? M64 then input !! Z.to_nat (off + Z.of_nat i) else None))
    <$> seq 0 size.

Lemma zero_loop_spec n dst :
  (n ≤ length dst)%nat → zero_loop n dst = Some (zeros n ++ drop n dst).
Proof.
  revert dst. induction n as [|n IH]; intros dst Hn; [by destruct dst|].
  destruct dst as [|d dst]; simpl in Hn; [lia|]. simpl. by rewrite IH by lia.
Qed.

Lemma zero_loop_None n dst : (length dst < n)%nat → zero_loop n dst = None.
Proof.
  revert dst. induction n as [|n IH]; intros dst Hn; [lia|].
  destruct dst as [|d dst]; [done|]. simpl in *. by rewrite IH by lia.
Qed.

Lemma padded_length input off size : length (padded input off size) = size.
Proof. unfold padded. by rewrite length_fmap, length_seq. Qed.

Lemma padded_overflow input off size : M64 ≤ off → padded input off size = zeros size.
Proof.
  intros Ho. unfold padded, zeros. apply list_eq. intros i.
  rewrite list_lookup_fmap. destruct (decide (i < size)%nat).
  - rewrite lookup_seq_lt, lookup_replicate_2 by done. simpl.
    by rewrite (proj2 (Z.ltb_ge _ _)) by lia.
  - rewrite lookup_seq_ge, (lookup_ge_None_2 (replicate size 0)); [done| |lia].
    rewrite length_replicate. lia.
Qed.

Lemma padded_take_drop input off size :
  0 ≤ off < M64 → Z.of_nat (length input) < M64 →
  let b := Z.to_nat (Z.min off (Z.of_nat (length input))) in
  let n := (size `min` (length input - b))%nat in
  padded input off size = take n (drop b input) ++ zeros (size - n).
Proof.
  intros Ho Hl b n. unfold padded, zeros. apply list_eq. intros i.
  assert (length (take n (drop b input)) = n) as Hn by (rewrite length_take, length_drop; lia).
  rewrite list_lookup_fmap. destruct (decide (i < size)%nat) as [Hi|Hi].
  - rewrite lookup_seq_lt by done. simpl. destruct (decide (i < n)%nat) as [Hin|Hin].
    + rewrite lookup_app_l, lookup_take_lt, lookup_drop by lia.
      rewrite (proj2 (Z.ltb_lt _ _)) by lia.
      replace (Z.to_nat (off + Z.of_nat i)) with (b + i)%nat by lia.
      destruct (lookup_lt_is_Some_2 input (b + i)) as [x ->]; [lia|done].
    + rewrite lookup_app_r, lookup_replicate_2 by lia.
      case_match; [|done]. rewrite lookup_ge_None_2; [done|lia].
  - rewrite lookup_seq_ge, lookup_ge_None_2; [done| |lia].
    rewrite length_app, Hn, length_replicate. lia.
Qed.

(** [setBytes] writes the [size] bytes of the input from the offset, zero past
    the end of the input, and keeps the rest of the destination. *)
Lemma setBytes_spec dst input size off :
  0 ≤ off → 0 ≤ size ≤ Z.of_nat (length dst) → Z.of_nat (length input) < M64 →
  setBytes dst input size off =
    Some (padded input off (Z.to_nat size) ++ drop (Z.to_nat size) dst).
Proof.
  intros Ho Hs Hl. unfold setBytes, IsUint64. rewrite (proj2 (Z.leb_le 0 off)) by done. simpl.
  destruct (Z.ltb_spec off M64) as [Hlt|Hge]; simpl.
  2:{ rewrite padded_overflow, zero_loop_spec by lia. done. }
  rewrite Uint64_word by lia. rewrite padded_take_drop by lia.
  set (b := Z.min off (Z.of_nat (length input))).
  set (n := (Z.to_nat size `min` (length input - Z.to_nat b))%nat).
  replace (Z.min size (Z.of_nat (length input) - b)) with (Z.of_nat n) by lia.
  rewrite Nat2Z.id. set (src := take n (drop (Z.to_nat b) input)).
  assert (length src = n) as Hsrc by (unfold src; rewrite length_take, length_drop; lia).
  assert ((if Z.of_nat n >? 0 then go_copy dst src else dst) = src ++ drop n dst) as ->.
  { unfold go_copy. rewrite (take_ge src) by lia. rewrite Hsrc. rewrite Z.gtb_ltb.
    destruct (Z.ltb_spec 0 (Z.of_nat n)); [done|]. replace n with 0%nat in * by lia.
    destruct src; [done|]. simpl in Hsrc. lia. }
  rewrite Z.gtb_ltb. destruct (Z.ltb_spec 0 (size - Z.of_nat n)).
  - rewrite take_app_length', drop_app_length' by done.
    rewrite zero_loop_spec by (rewrite length_drop; lia). simpl. f_equal.
    rewrite <- app_assoc, drop_drop. do 3 f_equal; lia.
  - replace (Z.to_nat size) with n by lia. by rewrite Nat.sub_diag, app_nil_r.
Qed.

(** ** Jump destinations *)

(** The positions of the instructions of a piece of code: after an opcode come
    the bytes it pushes, which are not instructions. *)
Definition push_len (c : Z) : nat := if isPushOp c then Z.to_nat (c - 0x5F) else 0.

Inductive op_at (cd : bytes) : nat → nat → Prop :=
| op_at_here i : op_at cd i i
| op_at_next i c j : cd !! i = Some c → op_at cd (i + 1 + push_len c) j → op_at cd i j.

Definition jumpdest (cd : bytes) (j : nat) : Prop := op_at cd 0 j ∧ cd !! j = Some 0x5B.

Lemma isPushOp_iff c : isPushOp c = true ↔ 0x60 ≤ c < 0x80.
Proof.
  unfold isPushOp. rewrite Z.eqb_eq, Z.shiftr_div_pow2 by done. change (2 ^ 5) with 32.
  pose proof (Z.div_mod c 32 ltac:(lia)). pose proof (Z.mod_pos_bound c 32 ltac:(lia)). lia.
Qed.

Definition bitset (buf : bytes) (j : nat) : Prop :=
  ∃ b, buf !! (j / 8)%nat = Some b ∧ Z.testbit b (Z.of_nat j mod 8) = true.

Lemma land_bit b k : 0 ≤ k → negb (Z.land b (Z.shiftl 1 k) =? 0) = Z.testbit b k.
Proof.
  intros Hk. rewrite Z.shiftl_1_l, Z.land_comm.
  destruct (Z.testbit b k) eqn:E.
  - apply negb_true_iff, Z.eqb_neq. intros Hz. apply (f_equal (λ z, Z.testbit z k)) in Hz.
    rewrite Z.land_spec, Z.pow2_bits_true, E, Z.bits_0 in Hz by done. done.
  - apply negb_false_iff, Z.eqb_eq. apply Z.bits_inj'. intros n Hn.
    rewrite Z.land_spec, Z.bits_0, Z.pow2_bits_eqb by done.
    destruct (Z.eqb_spec k n); [by subst|done].
Qed.

Lemma Z_div8 j : Z.to_nat (Z.of_nat j / 8) = (j / 8)%nat.
Proof. rewrite <- (Nat2Z.id (j / 8)), Nat2Z.inj_div. done. Qed.

Lemma bitmap_isSet_spec buf j :
  (j / 8 < length buf)%nat →
  ∃ r, bitmap_isSet buf (Z.of_nat j) = Ret r ∧ (r = true ↔ bitset buf j).
Proof.
  intros Hj. unfold bitmap_isSet, bitset, bitmapSize. rewrite Z_div8.
  destruct (lookup_lt_is_Some_2 buf (j / 8) Hj) as [b ->].
  eexists. split; [done|]. rewrite land_bit by (apply Z.mod_pos_bound; lia). naive_solver.
Qed.

Lemma bitmap_set_length i buf : length (bitmap_set i buf) = length buf.
Proof. apply length_alter. Qed.

Lemma bitmap_set_spec i buf j :
  (i / 8 < length buf)%nat →
  bitset (bitmap_set (Z.of_nat i) buf) j ↔ j = i ∨ bitset buf j.
Proof.
  intros Hi. unfold bitset, bitmap_set, bitmapSize. rewrite Z_div8.
  destruct (decide (i / 8 = j / 8)%nat) as [E|E].
  - rewrite <- E, list_lookup_alter_eq.
    destruct (lookup_lt_is_Some_2 buf (i / 8) Hi) as [b ->]. simpl.
    assert (j = i ↔ Z.of_nat i mod 8 = Z.of_nat j mod 8) as Hij.
    { pose proof (Nat.div_mod i 8). pose proof (Nat.div_mod j 8).
      rewrite <- !(Nat2Z.inj_mod _ 8). lia. }
    rewrite Hij. set (k := Z.of_nat i mod 8). set (m := Z.of_nat j mod 8).
    assert (0 ≤ k) by (apply Z.mod_pos_bound; lia). assert (0 ≤ m) by (apply Z.mod_pos_bound; lia).
    assert (Z.testbit (Z.lor b (Z.shiftl 1 k)) m = Z.testbit b m || (k =? m)) as Hb.
    { by rewrite Z.shiftl_1_l, Z.lor_spec, Z.pow2_bits_eqb. }
    split.
    + intros (? & [= <-] & Ht). rewrite Hb in Ht. apply orb_true_iff in Ht as [Ht|Ht]; [eauto|].
      left. by apply Z.eqb_eq.
    + intros [->|(? & [= <-] & Ht)]; eexists; (split; [done|]); rewrite Hb, orb_true_iff;
        [right; apply Z.eqb_refl|by left].
  - rewrite list_lookup_alter_ne by done. split; [by eauto|]. intros [->|]; done.
Qed.

Lemma setCode_loop_length fuel cd i buf : length (setCode_loop fuel cd i buf) = length buf.
Proof.
  revert i buf. induction fuel as [|fuel IH]; intros i buf; simpl; [done|].
  repeat case_match; rewrite ?IH, ?bitmap_set_length; done.
Qed.

Lemma op_at_ge cd i j : op_at cd i j → (i ≤ j)%nat.
Proof. induction 1; lia. Qed.

Lemma op_at_inv cd i c j :
  cd !! i = Some c → op_at cd i j ↔ i = j ∨ op_at cd (i + 1 + push_len c) j.
Proof.
  intros Hc. split.
  - inversion 1; subst; [by left|]. simplify_eq. by right.
  - intros [->|?]; [constructor|by econstructor].
Qed.

Lemma setCode_loop_spec fuel cd i buf j :
  (length cd ≤ fuel + i)%nat → (length cd / 8 < length buf)%nat →
  bitset (setCode_loop fuel cd (Z.of_nat i) buf) j ↔
    bitset buf j ∨ (op_at cd i j ∧ cd !! j = Some 0x5B).
Proof.
  revert i buf. induction fuel as [|fuel IH]; intros i buf Hf Hb; cbn [setCode_loop].
  { split; [by left|]. intros [?|[Ho%op_at_ge Hj]]; [done|].
    apply lookup_lt_Some in Hj. lia. }
  rewrite Nat2Z.id. destruct (cd !! i) as [c|] eqn:Hc.
  2:{ split; [by left|]. intros [?|[Ho%op_at_ge Hj]]; [done|].
      apply lookup_lt_Some in Hj. apply lookup_ge_None in Hc. lia. }
  pose proof (lookup_lt_Some _ _ _ Hc) as Hi. rewrite (op_at_inv cd i c j Hc).
  unfold push_len. destruct (isPushOp c) eqn:Hp.
  - pose proof (proj1 (isPushOp_iff c) Hp).
    replace (Z.of_nat i + (c - 96 + 2)) with (Z.of_nat (i + 1 + Z.to_nat (c - 95))) by lia.
    rewrite IH by lia. split; [naive_solver|]. intros [?|[[->|?] Hj]]; [by left| |by right].
    rewrite Hc in Hj. injection Hj as ->. done.
  - replace (Z.of_nat i + 1) with (Z.of_nat (i + 1 + 0)) by lia.
    rewrite IH by (repeat case_match; rewrite ?bitmap_set_length; lia).
    destruct (Z.eqb_spec c 0x5B) as [->|Hne].
    + rewrite bitmap_set_spec; [naive_solver|].
      apply Nat.le_lt_trans with (length cd / 8)%nat; [|done]. apply Nat.Div0.div_le_mono. lia.
    + split; [naive_solver|]. intros [?|[[->|?] Hj]]; [by left|congruence|by right].
Qed.
