(* ===== verification/EvmLogic.v ===== *)
(** A program logic for the machine: the invariant every instruction keeps,
    what the host promises, and a rule for each primitive. *)
From S2P Require Import Prelude Types Runtime Crypto EvmState EvmInstr EvmRun EvmWord EvmMemory.

(** ** Weakest preconditions *)

(** [m] run from [c] and [h] ends in [Q], or panics where [P] allows it; it
    never runs out of fuel. *)
Definition wp {HS A} (P : Prop) (m : M HS A) (Q : A → state → HS → Prop) (c : state) (h : HS)
    : Prop :=
  match m c h with
  | Ret (a, c, h) => Q a c h
  | Panic => P
  | NoFuel => False
  end.

Section wp.
Context {HS : Type} (P : Prop).

Lemma wp_bind {A B} (m : M HS A) (k : A → M HS B) Q c h :
  wp P m (λ a, wp P (k a) Q) c h → wp P (mbind_ m k) Q c h.
Proof. unfold wp, mbind_. by destruct (m c h) as [[[a c'] h']| |]. Qed.

Lemma wp_mono {A} (m : M HS A) (Q R : A → state → HS → Prop) c h :
  wp P m R c h → (∀ a c h, R a c h → Q a c h) → wp P m Q c h.
Proof. unfold wp. destruct (m c h) as [[[a c'] h']| |]; eauto. Qed.

Lemma wp_ret {A} (a : A) Q c (h : HS) : Q a c h → wp P (ret_ a) Q c h.
Proof. done. Qed.

Lemma wp_gets {A} (f : state → A) Q c (h : HS) : Q (f c) c h → wp P (gets f) Q c h.
Proof. done. Qed.

Lemma wp_asks {A} (f : HS → A) Q c h : Q (f h) c h → wp P (asks f) Q c h.
Proof. done. Qed.

Lemma wp_modify (f : state → state) Q c (h : HS) : Q tt (f c) h → wp P (modify f) Q c h.
Proof. done. Qed.

Lemma wp_deref {A} (a : A) Q c (h : HS) : Q a c h → wp P (deref (Some a)) Q c h.
Proof. done. Qed.

Lemma wp_panic_any (Q : Prop) {A} (m : M HS A) R c h : wp P m R c h → (P → Q) → wp Q m R c h.
Proof. unfold wp. destruct (m c h) as [[[a c'] h']| |]; eauto. Qed.
End wp.

(** ** The machine's invariant *)

(** A byte string as Go holds it. *)
Definition go_bytes (b : bytes) : Prop :=
  Forall byte_range b ∧ Z.of_nat (length b) < 2 ^ 63.

(** Gas amounts stay below the limit of a block, a signed 64-bit integer. *)
Definition gas_ok (z : Z) : Prop := 0 ≤ z < 2 ^ 63.

(** What a machine is given to run. *)
Record contract_ok (c : Contract) : Prop := {
  ct_code : go_bytes (c_Code c);
  ct_input : go_bytes (c_Input c);
  ct_gas : gas_ok (c_Gas c);
  ct_value : ∀ v, c_Value c = Some v → word v;
}.

Lemma go_bytes_nil : go_bytes [].
Proof. split; [constructor|done]. Qed.
#[export] Hint Resolve go_bytes_nil : go.

Record mach (c : state) : Prop := {
  m_gas : gas_ok (gas c);
  m_stack : Forall word (stack c);
  m_mem : Forall byte_range (vis (memory c));
  m_spare : Forall (eq 0) (spare (memory c));
  m_memlen : Z.of_nat (length (vis (memory c))) ≤ 2 ^ 41;
  m_code : go_bytes (code c);
  m_msg : contract_ok (msg c);
  m_bitmap : (length (code c) / 8 < length (vis (bitmap c)))%nat;
  m_rd : go_bytes (returnData c);
  m_ret : go_bytes (ret c);
}.

(** What no instruction touches. *)
Record same (c0 c : state) : Prop := {
  s_code : code c = code c0;
  s_msg : msg c = msg c0;
  s_config : config c = config c0;
  s_bitmap : bitmap c = bitmap c0;
}.

(** Inside an instruction started in [c0]: [n] words at least on the stack, [g]
    units of gas at most, [m] bytes of memory at least. *)
Record ok (c0 : state) (n : nat) (g m : Z) (c : state) : Prop := {
  k_mach : mach c;
  k_same : same c0 c;
  k_ip : ip c = ip c0;
  k_gas : gas c ≤ g;
  k_stack : (n ≤ length (stack c))%nat;
  k_mem : m ≤ Z.of_nat (length (vis (memory c)));
}.

(** After an instruction started in [c0] whose price is at least [e]: an
    instruction that goes on has paid it.  The stack holds words, unless the
    code has ended inside a [PUSH]. *)
Record fin (c0 : state) (e : Z) (c : state) : Prop := {
  f_mach : mach c ∨ Z.of_nat (length (code c)) ≤ ip c ∧ mach (set_stack [] c);
  f_same : same c0 c;
  f_ip : -1 ≤ ip c;
  f_gas : gas c ≤ gas c0;
  f_paid : stop c = false → gas c ≤ gas c0 - e;
}.

Lemma same_refl c : same c c.
Proof. done. Qed.
#[export] Hint Resolve same_refl : go.

Lemma ok_weaken c0 n g m c n' g' m' :
  ok c0 n g m c → (n' ≤ n)%nat → g ≤ g' → m' ≤ m → ok c0 n' g' m' c.
Proof. intros []. split; try done; lia. Qed.

Lemma ok_start c : mach c → ok c (length (stack c)) (gas c) 0 c.
Proof. intros. split; try done; lia. Qed.

(** ** The host *)

(** What the machine relies on: its host, in any state satisfying [Inv], has
    words for balances and byte strings for code, and a nested call at depth
    [D] or deeper ends and returns no more gas than it was given. *)
Class HostLaws {HS} `{Host HS} (D : Z) (Inv : HS → Prop) : Prop := {
  law_balance a h : Inv h → word (h_GetBalance a h);
  law_ctx h : Inv h → 0 ≤ ctx_Number (h_GetTxContext h) < 2 ^ 63 ∧
                      0 ≤ ctx_Timestamp (h_GetTxContext h) < 2 ^ 63 ∧
                      0 ≤ ctx_GasLimit (h_GetTxContext h) < 2 ^ 63;
  law_code a h : Inv h → go_bytes (h_GetCode a h).1 ∧ Inv (h_GetCode a h).2;
  law_codesize a h : Inv h → Inv (h_GetCodeSize a h).2;
  law_set a k v cfg h : Inv h → Inv (h_SetStorage a k v cfg h).2;
  law_selfdestruct a b h : Inv h → Inv (h_Selfdestruct a b h);
  law_log a ts d h : Inv h → Inv (h_EmitLog a ts d h);
  law_callx c h : Inv h → D ≤ c_Depth c → contract_ok c →
    match h_Callx c h with
    | Ret (r, h) => 0 ≤ GasLeft r ≤ c_Gas c ∧ go_bytes (ReturnValue r) ∧ Inv h
    | Panic => True
    | NoFuel => False
    end;
}.

(** ** Rules *)

(** Open an [ok] state and rebuild it around a change of some fields. *)
Ltac ok_open := intros [[] [] ? ? ? ?].
Ltac ok_rebuild := split; [split|split|..]; simpl; try done; try lia.

Section rules.
Context {HS : Type} (P : Prop).
Implicit Types (h : HS) (c : state).

Lemma wp_pop_nil c0 n g m c h (Q : option Z → state → HS → Prop) :
  ok c0 (S n) g m c → (∀ x c', word x → ok c0 n g m c' → Q (Some x) c' h) → wp P pop_nil Q c h.
Proof using.
  intros [[] [] ? ? Hs ?] HQ. unfold wp, pop_nil. destruct (stack c) as [|x s]; simpl in *; [lia|].
  inversion m_stack0; subst. apply HQ; [done|]. ok_rebuild.
Qed.

Lemma wp_pop c0 n g m c h (Q : Z → state → HS → Prop) :
  ok c0 (S n) g m c → (∀ x c', word x → ok c0 n g m c' → Q x c' h) → wp P pop Q c h.
Proof using.
  intros Hok HQ. apply wp_bind. eapply wp_pop_nil; [done|]. intros. apply wp_deref. eauto.
Qed.

Lemma wp_top_nil c0 n g m c h (Q : option Z → state → HS → Prop) :
  ok c0 n g m c →
  (∀ v, word v → ok c0 (1 `max` n) g m c → Q (Some v) c h) → (n = O → Q None c h) →
  wp P top_nil Q c h.
Proof using.
  intros [[] ? ? ? Hs ?] HS1 HS2. unfold wp, top_nil, gets.
  destruct (stack c) as [|v s] eqn:E; simpl in *; [apply HS2; lia|].
  inversion m_stack0; subst. apply HS1; [done|]. split; try done; [split; try done|].
  - rewrite E. by constructor.
  - rewrite E. simpl. lia.
Qed.

Lemma wp_top c0 n g m c h (Q : Z → state → HS → Prop) :
  ok c0 (S n) g m c → (∀ x, word x → Q x c h) → wp P top Q c h.
Proof using.
  intros Hok HQ. apply wp_bind. eapply wp_top_nil; [done| |done]. intros v Hv _.
  apply wp_deref. eauto.
Qed.

Lemma wp_set_top c0 n g m c h v (Q : unit → state → HS → Prop) :
  ok c0 (S n) g m c → word v → (∀ c', ok c0 (S n) g m c' → Q tt c' h) → wp P (set_top v) Q c h.
Proof using.
  intros [[] [] ? ? Hs ?] Hv HQ. apply HQ. destruct (stack c); simpl in *; [lia|].
  inversion m_stack0; subst. ok_rebuild. by constructor.
Qed.

Lemma wp_push c0 n g m c h v (Q : unit → state → HS → Prop) :
  ok c0 n g m c → word v → (∀ c', ok c0 (S n) g m c' → Q tt c' h) → wp P (push v) Q c h.
Proof using.
  intros [[] [] ? ? Hs ?] Hv HQ. apply HQ. ok_rebuild. by constructor.
Qed.

Lemma ok_exit c0 n g m c e : ok c0 n g m c → ok c0 n g m (set_exit e c).
Proof using. ok_open. ok_rebuild. Qed.

Lemma ok_consumed c0 n g m c e : ok c0 n g m c → ok c0 n g m (set_consumed e c).
Proof using. ok_open. ok_rebuild. Qed.

Lemma ok_gas c0 n g m c g' x : ok c0 n g m c → 0 ≤ x ≤ gas c → x ≤ g' → ok c0 n g' m (set_gas x c).
Proof using.
  ok_open. intros ? ?. ok_rebuild. destruct m_gas0. split; lia.
Qed.

Lemma wp_exit c0 n g m c h e (Q : unit → state → HS → Prop) :
  ok c0 n g m c → (∀ c', ok c0 n g m c' → stop c' = true → Q tt c' h) → wp P (exit e) Q c h.
Proof using. intros Hok HQ. apply HQ; [by apply ok_exit|done]. Qed.

Lemma wp_Halt c0 n g m c h (Q : unit → state → HS → Prop) :
  ok c0 n g m c → (∀ c', ok c0 n g m c' → stop c' = true → Q tt c' h) → wp P Halt Q c h.
Proof using. intros Hok HQ. apply HQ; [by apply ok_exit|done]. Qed.

Lemma wp_set_returnData c0 n g m c h d (Q : unit → state → HS → Prop) :
  ok c0 n g m c → go_bytes d → (∀ c', ok c0 n g m c' → stop c' = stop c → Q tt c' h) →
  wp P (modify (set_returnData d)) Q c h.
Proof using. intros [[] [] ? ? ? ?] ? HQ. apply wp_modify, HQ; [|done]. ok_rebuild. Qed.

Lemma wp_set_ret c0 n g m c h d (Q : unit → state → HS → Prop) :
  ok c0 n g m c → go_bytes d → (∀ c', ok c0 n g m c' → stop c' = stop c → Q tt c' h) →
  wp P (modify (set_ret d)) Q c h.
Proof using. intros [[] [] ? ? ? ?] ? HQ. apply wp_modify, HQ; [|done]. ok_rebuild. Qed.

Lemma wp_consumeGas c0 n g m c h a (Q : bool → state → HS → Prop) :
  ok c0 n g m c → 0 ≤ a →
  (∀ c', ok c0 n (g - a) m c' → 0 ≤ a → gas c' = gas c - a → memory c' = memory c →
     Q true c' h) →
  (∀ c', ok c0 n g m c' → stop c' = true → Q false c' h) →
  wp P (consumeGas a) Q c h.
Proof using.
  intros Hok Ha Ht Hf. pose proof (m_gas _ (k_mach _ _ _ _ _ Hok)) as Hg.
  pose proof (k_gas _ _ _ _ _ Hok). unfold consumeGas. apply wp_bind, wp_modify, wp_bind, wp_gets.
  simpl. destruct (Z.ltb_spec (gas c) a).
  - apply wp_bind, wp_modify, wp_ret, Hf; [|done]. by apply ok_exit, ok_consumed.
  - apply wp_bind, wp_modify, wp_ret.
    assert (sub64 (gas c) a = gas c - a) as -> by (apply u64_small; unfold is_u64, gas_ok, M64 in *; lia).
    apply Ht; [|done..]. eapply ok_gas; [by apply ok_consumed|simpl; lia..].
Qed.
End rules.

(** ** Memory *)

Lemma zeros_range n : Forall byte_range (zeros n).
Proof. apply Forall_replicate. done. Qed.
Lemma zeros_0 n : Forall (eq 0) (zeros n).
Proof. by apply Forall_replicate. Qed.
Lemma eq0_zeros b : Forall (eq 0) b → b = zeros (length b).
Proof. induction 1; simpl; [done|]. subst. unfold zeros in *. simpl. by f_equal. Qed.
Lemma eq0_range b : Forall (eq 0) b → Forall byte_range b.
Proof. intros Hb. eapply Forall_impl; [exact Hb|]. intros ? <-. done. Qed.
#[export] Hint Resolve zeros_range zeros_0 eq0_range be_bytes_range : go.

Section memory.
Context `{GoRuntime} {HS : Type} (P : Prop).
Implicit Types (h : HS) (c : state).

(** Extending a slice whose spare part is clear appends zeros. *)
Lemma extendByteSlice_vis b n :
  Forall (eq 0) (spare b) → (length (vis b) ≤ n)%nat →
  vis (extendByteSlice b n) = vis b ++ zeros (n - length (vis b)).
Proof using.
  intros Hs Hn. unfold extendByteSlice. rewrite length_app.
  apply eq0_zeros in Hs. set (k := length (spare b)) in *. rewrite Hs.
  destruct (Nat.ltb_spec (length (vis b) + k) n); simpl.
  - rewrite <- app_assoc. f_equal. unfold zeros. rewrite <- replicate_add. f_equal. lia.
  - rewrite take_app_ge by done. f_equal. unfold zeros. rewrite take_replicate. f_equal. lia.
Qed.

Lemma extendByteSlice_spare b n :
  Forall (eq 0) (spare b) → (length (vis b) ≤ n)%nat →
  Forall (eq 0) (spare (extendByteSlice b n)).
Proof using.
  intros Hs Hn. unfold extendByteSlice. case_match; simpl; [apply zeros_0|].
  rewrite drop_app_ge by done. by apply Forall_drop.
Qed.

(** The new size in words of a memory access. *)
Lemma access_words o s :
  0 ≤ o ≤ 0xffffffffe0 → 0 ≤ s ≤ 0xffffffffe0 →
  add64 o s = o + s ∧
  mul64 (add64 (o + s) 31 / 32) 32 = (o + s + 31) / 32 * 32 ∧
  o + s ≤ (o + s + 31) / 32 * 32 ≤ 2 ^ 41.
Proof using.
  intros. unfold add64, mul64. rewrite !(u64_small (o + s)), (u64_small (o + s + 31)) by
    (unfold is_u64, M64; lia).
  pose proof (Z.div_mod (o + s + 31) 32 ltac:(lia)).
  pose proof (Z.mod_pos_bound (o + s + 31) 32 ltac:(lia)).
  rewrite u64_small by (unfold is_u64, M64; lia). lia.
Qed.

Lemma wp_allocateMemory c0 n g m c h o s (Q : bool → state → HS → Prop) :
  ok c0 n g m c → 0 ≤ o → 0 ≤ s →
  (∀ c' m', ok c0 n g m' c' → m ≤ m' → (s = 0 ∨ o + s ≤ m') → 0 ≤ o < M64 → 0 ≤ s < M64 →
     (s ≠ 0 → o ≤ 2 ^ 40 ∧ s ≤ 2 ^ 40) → Q true c' h) →
  (∀ c', ok c0 n g m c' → stop c' = true → Q false c' h) →
  wp P (allocateMemory o s) Q c h.
Proof using.
  intros Hok Ho Hs Ht Hf. pose proof (k_mem _ _ _ _ _ Hok). unfold allocateMemory, IsUint64.
  rewrite (proj2 (Z.leb_le 0 o)), (proj2 (Z.leb_le 0 s)) by done. simpl.
  destruct (Z.ltb_spec o M64), (Z.ltb_spec s M64); simpl;
    try (apply wp_bind; eapply wp_exit; [done|]; intros; by apply wp_ret, Hf).
  destruct (Z.eqb_spec s 0) as [->|]; [apply wp_ret; eapply Ht; eauto; lia|].
  rewrite !Uint64_word by lia. rewrite !Z.gtb_ltb.
  destruct (Z.ltb_spec 0xffffffffe0 o), (Z.ltb_spec 0xffffffffe0 s); simpl;
    try (apply wp_bind; eapply wp_exit; [done|]; intros; by apply wp_ret, Hf).
  destruct (access_words o s ltac:(lia) ltac:(lia)) as (-> & -> & Hw).
  set (w := (o + s + 31) / 32 * 32) in *.
  apply wp_bind, wp_gets. destruct (Z.ltb_spec (Z.of_nat (length (vis (memory c)))) (o + s)).
  2:{ apply wp_ret. eapply (Ht _ (m `max` (o + s))); try lia.
      destruct Hok. split; try done; lia. }
  apply wp_bind, wp_gets, wp_bind, wp_modify, wp_bind.
  eapply (wp_consumeGas _ c0 n g m); [by revert Hok; ok_open; ok_rebuild|apply u64_range| |].
  2:{ intros c' Hok' Hst. simpl. apply wp_bind. eapply wp_exit; [done|]. intros. by apply wp_ret, Hf. }
  intros c' Hok' _ _ Hmem. simpl in *. apply wp_bind, wp_modify, wp_ret.
  eapply (Ht _ w); try lia.
  revert Hok'. intros [[] [] ? ? ? ?]. rewrite Hmem in *.
  pose proof (extendByteSlice_vis (memory c) (Z.to_nat w) m_spare0 ltac:(lia)) as Hv.
  pose proof (extendByteSlice_spare (memory c) (Z.to_nat w) m_spare0 ltac:(lia)) as Hsp.
  assert (0 ≤ sub64 (memoryCost (add64 (o + s) 31 / 32)) (lastGasCost c)) by apply u64_range.
  split; [split|split|..]; simpl; rewrite ?Hmem, ?Hv; try done; try lia.
  - apply Forall_app; split; [done|apply zeros_range].
  - rewrite length_app. unfold zeros. rewrite length_replicate. lia.
  - rewrite length_app. unfold zeros. rewrite length_replicate. lia.
Qed.

Lemma mem_len c0 n g m c : ok c0 n g m c → Z.of_nat (length (vis (memory c))) ≤ 2 ^ 41.
Proof using. intros Hok. apply (k_mach _ _ _ _ _ Hok). Qed.

Lemma wp_mem_slice c0 n g m c h lo hi (Q : bytes → state → HS → Prop) :
  ok c0 n g m c → 0 ≤ lo ≤ hi → hi ≤ m →
  (∀ b, go_bytes b → Z.of_nat (length b) = hi - lo → Q b c h) →
  wp P (mem_slice lo hi) Q c h.
Proof using.
  intros Hok Hlo Hhi HQ. pose proof (mem_len _ _ _ _ _ Hok). destruct Hok as [[] ? ? ? ? ?].
  unfold mem_slice, sl_cap. apply wp_bind, wp_gets.
  rewrite (proj2 (Z.leb_le lo hi)), (proj2 (Z.leb_le hi _)) by lia. simpl. apply wp_ret.
  assert (length (take (Z.to_nat (hi - lo)) (drop (Z.to_nat lo)
    (vis (memory c) ++ spare (memory c)))) = Z.to_nat (hi - lo)) as Hl
    by (rewrite length_take, length_drop, length_app; lia).
  apply HQ; [|lia]. split; [|lia].
  apply Forall_take, Forall_drop, Forall_app. split; [done|by apply eq0_range].
Qed.

Lemma wp_mem_from c0 n g m c h lo (Q : bytes → state → HS → Prop) :
  ok c0 n g m c → 0 ≤ lo ≤ m →
  (∀ b, Forall byte_range b → Z.of_nat (length b) = Z.of_nat (length (vis (memory c))) - lo →
     Q b c h) →
  wp P (mem_from lo) Q c h.
Proof using.
  intros [[] ? ? ? ? ?] Hlo HQ. unfold mem_from. apply wp_bind, wp_gets.
  rewrite (proj2 (Z.leb_le lo _)) by lia. apply wp_ret, HQ; [by apply Forall_drop|].
  rewrite length_drop. lia.
Qed.

Lemma wp_mem_replace c0 n g m c h lo b (Q : unit → state → HS → Prop) :
  ok c0 n g m c → 0 ≤ lo ≤ m → Forall byte_range b →
  Z.of_nat (length b) = Z.of_nat (length (vis (memory c))) - lo →
  (∀ c', ok c0 n g m c' → Q tt c' h) → wp P (mem_replace lo b) Q c h.
Proof using.
  intros [[] [] ? ? ? ?] Hlo Hb Hl HQ. apply wp_modify, HQ. ok_rebuild.
  - apply Forall_app. split; [by apply Forall_take|done].
  - rewrite length_app, length_take. lia.
  - rewrite length_app, length_take. lia.
Qed.

Lemma wp_get2 c0 n g m c h o l (Q : option bytes → state → HS → Prop) :
  ok c0 n g m c → 0 ≤ o → 0 ≤ l →
  (∀ b c', go_bytes b → Z.of_nat (length b) = l → ok c0 n g m c' → Q (Some b) c' h) →
  (∀ c', ok c0 n g m c' → stop c' = true → Q None c' h) →
  wp P (get2 o l) Q c h.
Proof using.
  intros Hok Ho Hl Ht Hf. unfold get2. destruct (Z.eqb_spec l 0); [by apply wp_ret, Ht|].
  apply wp_bind. eapply wp_allocateMemory; [done..| |].
  - intros c' m' Hok' Hm Hle Ho' Hl' Hb. specialize (Hb ltac:(done)). simpl.
    rewrite !Uint64_word by lia.
    assert (add64 o l = o + l) as -> by (apply u64_small; unfold is_u64, M64; lia).
    apply wp_bind. eapply wp_mem_slice; [done|lia..|]. intros. apply wp_ret, Ht; [done|lia|].
    by eapply ok_weaken.
  - intros c' Hok' Hst. simpl. by apply wp_ret, Hf.
Qed.

Lemma padded_range input off n : Forall byte_range input → Forall byte_range (padded input off n).
Proof using.
  intros Hi. apply Forall_fmap, Forall_true. intros i. simpl. case_match; [|done].
  destruct (input !! _) as [x|] eqn:E; [|done]. by eapply Forall_lookup_1.
Qed.

Lemma go_bytes_u64 b : go_bytes b → Z.of_nat (length b) < M64.
Proof using. intros [_ ?]. unfold M64. lia. Qed.

Lemma wp_copyToMemory c0 n g m c h o src size off (Q : unit → state → HS → Prop) :
  ok c0 n g m c → 0 ≤ o < M64 → 0 ≤ size → o + size ≤ m → 0 ≤ off → go_bytes src →
  (∀ c', ok c0 n g m c' → Q tt c' h) → wp P (copyToMemory o src size off) Q c h.
Proof using.
  intros Hok Ho Hs Hm Hoff Hsrc HQ. pose proof (k_mem _ _ _ _ _ Hok). unfold copyToMemory.
  rewrite Uint64_word by lia. apply wp_bind. eapply wp_mem_from; [done|lia|]. intros b Hb Hl.
  rewrite setBytes_spec by (try lia; by apply go_bytes_u64).
  apply wp_bind, wp_deref. eapply wp_mem_replace; [done|lia| | |done].
  - apply Forall_app. split; [by apply padded_range, Hsrc|by apply Forall_drop].
  - rewrite length_app, padded_length, length_drop. lia.
Qed.
End memory.
