(* ===== verification/EvmSafe.v ===== *)
(** Every instruction keeps the machine's invariant and pays for itself. *)
From S2P Require Import Prelude Types Runtime Crypto EvmState EvmInstr EvmRun EvmWord EvmMemory EvmLogic.

(** The hints that solve the side conditions of the instructions. *)
Create HintDb vm.

(** ** Words that instructions leave *)

Lemma word_toU256 x : word (toU256 x).
Proof. rewrite toU256_wrap. apply wrap_word. Qed.

Lemma word_small z : 0 ≤ z < 2 ^ 64 → word z.
Proof. unfold word, W. lia. Qed.

Lemma word_u64 z : word (u64 z).
Proof. apply word_small. apply u64_range. Qed.

Lemma word_SetBytes b : Forall byte_range b → (length b ≤ 32)%nat → word (SetBytes b).
Proof.
  intros Hb Hl. pose proof (SetBytes_range b Hb). unfold word.
  assert (256 ^ Z.of_nat (length b) ≤ W); [|lia].
  change W with (256 ^ 32). apply Z.pow_le_mono_r; lia.
Qed.

Lemma word_SetBytes32 b : go_bytes b → Z.of_nat (length b) = wordSize → word (SetBytes b).
Proof. intros [? _]. unfold wordSize. intros. apply word_SetBytes; [done|lia]. Qed.

Lemma word_Hash h : word (SetBytes (HashBytes h)).
Proof. apply word_SetBytes; [apply be_bytes_range|]. unfold HashBytes. by rewrite length_be_bytes. Qed.

Lemma word_Address a : word (SetBytes (AddressBytes a)).
Proof.
  apply word_SetBytes; [apply be_bytes_range|].
  unfold AddressBytes. rewrite length_be_bytes. unfold AddressLength. lia.
Qed.

Lemma word_byte z : word (Z.land z opByteMask).
Proof.
  change opByteMask with (Z.ones 8). rewrite Z.land_ones by done. apply word_small.
  pose proof (Z.mod_pos_bound z (2 ^ 8)). lia.
Qed.

Lemma word_tt256m1 : word tt256m1.
Proof. done. Qed.

Lemma word_length (b : bytes) : go_bytes b → word (Z.of_nat (length b)).
Proof. intros [_ ?]. apply word_small. lia. Qed.

Lemma word_exp x y : word x → word y → word (exp_words x y).
Proof. intros Hx [? _]. rewrite exp_words_spec by done. apply wrap_word. Qed.

Lemma word_nonneg z : word z → 0 ≤ z.
Proof. by intros []. Qed.

Lemma mul64_nonneg a b : 0 ≤ mul64 a b.
Proof. apply u64_range. Qed.
Lemma add64_nonneg a b : 0 ≤ add64 a b.
Proof. apply u64_range. Qed.

#[export] Hint Resolve go_bytes_nil word_SetBytes32 mul64_nonneg add64_nonneg : vm.
#[export] Hint Resolve word_toU256 word_u64 word_Hash word_Address word_byte word_tt256m1
  word_length word_exp word_nonneg word_land word_lor word_lxor word_b2z word_0 : vm.

(** ** The proof of an instruction *)

Section safe.
Context `{External} `{GoRuntime} `{Host HS} (D : Z) (Inv : HS → Prop) `{!HostLaws D Inv}.

(** The state an instruction taking [n] words runs in. *)
Record pre (n : nat) (c : state) : Prop := {
  p_mach : mach c;
  p_ip : 0 ≤ ip c < Z.of_nat (length (code c));
  p_stack : (n ≤ length (stack c))%nat;
  p_depth : D ≤ c_Depth (msg c) + 1;
  p_eip150 : EIP150 (config c) = true;
}.

(** [i], which takes [n] words and whose own price is [e] at least, is safe:
    it may panic only where [P] says so. *)
Definition safe (P : Prop) (i : M HS unit) (n : nat) (e : Z) : Prop :=
  ∀ c h, pre n c → Inv h → wp P i (λ _ c' h', fin c e c' ∧ Inv h') c h.

Lemma fin_ok c0 n g m c e :
  ok c0 n g m c → 0 ≤ ip c0 → 0 ≤ e → g ≤ gas c0 - e → fin c0 e c.
Proof using. intros [] ? ? ?. split; [by left|done|lia|lia|intros; lia]. Qed.

Lemma fin_stop c0 n g m c e :
  ok c0 n g m c → 0 ≤ ip c0 → stop c = true → g ≤ gas c0 → fin c0 e c.
Proof using. intros [] ? ? ?. split; [by left|done|lia|lia|congruence]. Qed.

Lemma ok_pre n c : pre n c → ok c n (gas c) 0 c.
Proof using. intros []. split; try done; lia. Qed.

Lemma wp_popAddr P c0 n g m c h (Q : Address → state → HS → Prop) :
  ok c0 (S n) g m c → (∀ x c', ok c0 n g m c' → Q x c' h) → wp P popAddr Q c h.
Proof using. intros Hok HQ. apply wp_bind. eapply wp_pop_nil; [done|]. intros. apply wp_ret. eauto. Qed.

Lemma wp_popHash P c0 n g m c h (Q : Hash → state → HS → Prop) :
  ok c0 (S n) g m c → (∀ x c', ok c0 n g m c' → Q x c' h) → wp P popHash Q c h.
Proof using. intros Hok HQ. apply wp_bind. eapply wp_pop; [done|]. intros. apply wp_ret. eauto. Qed.

Lemma wp_host_do {A} P c h (f : HS → A * HS) (Q : A → state → HS → Prop) :
  Q (f h).1 c (f h).2 → wp P (host_do f) Q c h.
Proof using. unfold wp, host_do. by destruct (f h). Qed.
End safe.

(** Side conditions: words, prices, bounds. *)
Ltac vm_side :=
  first [ assumption
        | solve [eauto with vm]
        | lia
        | solve [repeat case_match; eauto with vm; try lia; apply u64_range] ].

(** One step of the machine. *)
Ltac vm_step :=
  lazymatch goal with
  | |- wp _ (mbind_ _ _) _ _ _ => apply wp_bind
  | |- wp _ (ret_ _) _ _ _ => apply wp_ret
  | |- wp _ (gets _) _ _ _ => apply wp_gets
  | |- wp _ (asks _) _ _ _ => apply wp_asks
  | |- wp _ Len _ _ _ => apply wp_gets
  | |- wp _ pop _ _ _ => eapply wp_pop; [eassumption|intros ? ? ? ?]
  | |- wp _ top _ _ _ => eapply wp_top; [eassumption|intros ? ?]
  | |- wp _ popAddr _ _ _ => eapply wp_popAddr; [eassumption|intros ? ? ?]
  | |- wp _ popHash _ _ _ => eapply wp_popHash; [eassumption|intros ? ? ?]
  | |- wp _ pop_nil _ _ _ => eapply wp_pop_nil; [eassumption|intros ? ? ? ?]
  | |- wp _ (set_top _) _ _ _ => eapply wp_set_top; [eassumption|vm_side|intros ? ?]
  | |- wp _ (push _) _ _ _ => eapply wp_push; [eassumption|vm_side|intros ? ?]
  | |- wp _ (exit _) _ _ _ => eapply wp_exit; [eassumption|intros ? ? ?]
  | |- wp _ Halt _ _ _ => eapply wp_Halt; [eassumption|intros ? ? ?]
  | |- wp _ (consumeGas _) _ _ _ =>
      eapply wp_consumeGas; [eassumption|vm_side|intros ? ? ? _ _|intros ? ? ?]; cbn [negb]
  | |- wp _ (allocateMemory _ _) _ _ _ =>
      eapply wp_allocateMemory;
        [eassumption|vm_side|vm_side|intros ? ? ? ? ? ? ? ?|intros ? ? ?]; cbn [negb]
  | |- wp _ (get2 _ _) _ _ _ =>
      eapply wp_get2; [eassumption|vm_side|vm_side|intros ? ? ? ? ?|intros ? ? ?]
  | |- wp _ (modify (set_returnData _)) _ _ _ =>
      eapply wp_set_returnData; [eassumption|vm_side|intros ? ? ?]
  | |- wp _ resetReturnData _ _ _ =>
      eapply wp_set_returnData; [eassumption|apply go_bytes_nil|intros ? ? ?]
  | |- wp _ (modify (set_ret _)) _ _ _ =>
      eapply wp_set_ret; [eassumption|cbn [default]; vm_side|intros ? ? ?]
  | |- wp _ (host_do _) _ _ _ => apply wp_host_do
  | |- wp _ (if ?b then _ else _) _ _ _ => destruct b eqn:?
  | |- wp _ (match ?x with _ => _ end) _ _ _ => destruct x eqn:?
  | |- _ ∧ _ => split; [|eauto; fail]
  | |- fin _ _ _ =>
      first [ eapply fin_ok; [eassumption|lia|lia|first [lia|repeat case_match; lia]]
            | eapply fin_stop; [eassumption|lia|congruence|first [lia|repeat case_match; lia]] ]
  end.

(** Start the proof of [safe]. *)
Ltac vm_start op :=
  intros c0 h0 Hpre Hinv; pose proof (ok_pre _ _ _ Hpre) as Hok;
  pose proof (p_ip _ _ _ Hpre) as Hip; pose proof (p_eip150 _ _ _ Hpre) as H150; unfold op.

(** Facts about a state inside an instruction. *)
Section facts.
Context {c0 : state} {n : nat} {g m : Z} {c : state} (Hok : ok c0 n g m c).

Lemma ok_word_gas : word (gas c).
Proof using Hok. pose proof (m_gas _ (k_mach _ _ _ _ _ Hok)) as []. apply word_small. lia. Qed.
Lemma ok_word_mem : word (Z.of_nat (length (vis (memory c)))).
Proof using Hok. pose proof (mem_len _ _ _ _ _ Hok). apply word_small. lia. Qed.
Lemma ok_code : go_bytes (code c).
Proof using Hok. apply (k_mach _ _ _ _ _ Hok). Qed.
Lemma ok_input : go_bytes (c_Input (msg c)).
Proof using Hok. apply (k_mach _ _ _ _ _ Hok). Qed.
Lemma ok_rd : go_bytes (returnData c).
Proof using Hok. apply (k_mach _ _ _ _ _ Hok). Qed.
Lemma ok_value : word (default 0 (c_Value (msg c))).
Proof using Hok.
  destruct (c_Value (msg c)) as [v|] eqn:E; [|done].
  by apply (ct_value _ (m_msg _ (k_mach _ _ _ _ _ Hok))).
Qed.
End facts.
#[export] Hint Resolve ok_word_gas ok_word_mem ok_code ok_input ok_rd ok_value : vm.

Section instructions.
Context `{External} `{GoRuntime} `{Host HS} (D : Z) (Inv : HS → Prop) `{!HostLaws D Inv}.

Abbreviation safe := (safe D Inv).

(** The host's laws, as hints. *)
Lemma inv_balance a h : Inv h → word (h_GetBalance a h).
Proof. apply law_balance. Qed.
Lemma inv_ctx h : Inv h → word (ctx_Number (h_GetTxContext h)) ∧
  word (ctx_Timestamp (h_GetTxContext h)) ∧ word (ctx_GasLimit (h_GetTxContext h)).
Proof. intros Hh. destruct (law_ctx h Hh) as (? & ? & ?). split_and!; apply word_small; lia. Qed.
Lemma inv_number h : Inv h → word (ctx_Number (h_GetTxContext h)).
Proof. apply inv_ctx. Qed.
Lemma inv_timestamp h : Inv h → word (ctx_Timestamp (h_GetTxContext h)).
Proof. apply inv_ctx. Qed.
Lemma inv_gaslimit h : Inv h → word (ctx_GasLimit (h_GetTxContext h)).
Proof. apply inv_ctx. Qed.
Lemma inv_code a h : Inv h → go_bytes (h_GetCode a h).1.
Proof. intros Hh. apply (law_code a h Hh). Qed.
Lemma inv_code_host a h : Inv h → Inv (h_GetCode a h).2.
Proof. intros Hh. apply (law_code a h Hh). Qed.
Lemma inv_codesize a h : Inv h → Inv (h_GetCodeSize a h).2.
Proof. apply law_codesize. Qed.
Lemma inv_set a k v cfg h : Inv h → Inv (h_SetStorage a k v cfg h).2.
Proof. apply law_set. Qed.
Lemma inv_selfdestruct a b h : Inv h → Inv ((), h_Selfdestruct a b h).2.
Proof. apply law_selfdestruct. Qed.
Lemma inv_log a ts d h : Inv h → Inv ((), h_EmitLog a ts d h).2.
Proof. apply law_log. Qed.
#[local] Hint Resolve inv_balance inv_number inv_timestamp inv_gaslimit inv_code inv_code_host
  inv_codesize inv_set inv_selfdestruct inv_log : vm.

#[local] Ltac vm_run op := vm_start op; repeat (vm_step || (split; [|solve [eauto with vm]])).

(** The instructions the rules handle alone: the words they take and their
    price. *)
Definition simple : list (M HS unit * nat * Z) := [
  (opStop, 0%nat, 1); (opAdd, 2%nat, 0); (opSub, 2%nat, 0); (opMul, 2%nat, 0); (opDiv,
  2%nat, 0); (opSDiv, 2%nat, 0); (opMod, 2%nat, 0); (opSMod, 2%nat, 0); (opExp, 2%nat, 0);
  (opAddMod, 3%nat, 0); (opMulMod, 3%nat, 0); (opAnd, 2%nat, 0); (opOr, 2%nat, 0); (opXor,
  2%nat, 0); (opByte, 2%nat, 0); (opNot, 1%nat, 0); (opIsZero, 1%nat, 0); (opEq, 2%nat, 0);
  (opLt, 2%nat, 0); (opGt, 2%nat, 0); (opSlt, 2%nat, 0); (opSgt, 2%nat, 0); (opShl, 2%nat,
  0); (opShr, 2%nat, 0); (opSar, 2%nat, 0); (opMload, 1%nat, 0); (opSload, 1%nat, 1);
  (opSha3, 2%nat, 0); (opPop, 1%nat, 0); (opExtCodeHash, 1%nat, 1); (opAddress, 0%nat, 0);
  (opBalance, 1%nat, 1); (opSelfBalance, 0%nat, 0); (opOrigin, 0%nat, 0); (opCaller, 0%nat,
  0); (opCallValue, 0%nat, 0); (opCallDataSize, 0%nat, 0); (opCodeSize, 0%nat, 0);
  (opExtCodeSize, 1%nat, 1); (opGasPrice, 0%nat, 0); (opReturnDataSize, 0%nat, 0);
  (opChainID, 0%nat, 0); (opPC, 0%nat, 0); (opMSize, 0%nat, 0); (opGas, 0%nat, 0);
  (opBlockHash, 1%nat, 0); (opCoinbase, 0%nat, 0); (opTimestamp, 0%nat, 0); (opNumber,
  0%nat, 0); (opDifficulty, 0%nat, 0); (opGasLimit, 0%nat, 0); (opSelfDestruct, 1%nat, 1);
  (opJumpDest, 0%nat, 0)].

Lemma simple_safe : Forall (λ p, safe False p.1.1 p.1.2 p.2) simple.
Proof.
  unfold simple. repeat (apply Forall_cons; split); [..|constructor]; cbn [fst snd].
  all: intros c0 h0 Hpre Hinv; pose proof (ok_pre _ _ _ Hpre) as Hok;
    pose proof (p_ip _ _ _ Hpre) as Hip; unfold
    opStop, opAdd, opSub, opMul, opDiv, opSDiv, opMod, opSMod, opExp, opAddMod, opMulMod,
    opAnd, opOr, opXor, opByte, opNot, opIsZero, opEq, opLt, opGt, opSlt, opSgt, opShl,
    opShr, opSar, opMload, opSload, opSha3, opPop, opExtCodeHash, opAddress, opBalance,
    opSelfBalance, opOrigin, opCaller, opCallValue, opCallDataSize, opCodeSize,
    opExtCodeSize, opGasPrice, opReturnDataSize, opChainID, opPC, opMSize, opGas,
    opBlockHash, opCoinbase, opTimestamp, opNumber, opDifficulty, opGasLimit,
    opSelfDestruct, opJumpDest;
    repeat (vm_step || (split; [|solve [eauto with vm]])).
Qed.

Lemma sstoreCost_pos cfg status : 1 ≤ sstoreCost cfg status.
Proof. unfold sstoreCost. destruct status; repeat case_match; lia. Qed.

Lemma safe_opSStore : safe False opSStore 2 1.
Proof.
  vm_run @opSStore.
  all: lazymatch goal with |- wp _ (consumeGas (sstoreCost ?cfg ?s)) _ _ _ =>
    pose proof (sstoreCost_pos cfg s) end.
  all: repeat (vm_step || (split; [|solve [eauto with vm]])).
Qed.

Lemma safe_opSignExtension : safe False opSignExtension 1 0.
Proof.
  vm_run @opSignExtension. eapply wp_top_nil; [eassumption| |]; intros; repeat vm_step.
Qed.

Lemma safe_opMStore : safe False opMStore 2 0.
Proof.
  vm_run @opMStore. destruct_or?; [done|]. unfold wordSize in *. rewrite Uint64_word by lia.
  assert (add64 x 32 = x + 32) as -> by (apply u64_small; unfold is_u64, M64; lia).
  eapply wp_mem_slice; [eassumption|lia..|]. intros b Hb Hl. vm_step.
  rewrite store32_spec by (try done; lia). apply wp_deref. vm_step.
  eapply wp_mem_from; [eassumption|lia|]. intros r Hr Hlr.
  eapply wp_mem_replace; [eassumption|lia|..].
  - apply Forall_app. eauto with go.
  - rewrite length_app, length_be_bytes. lia.
  - intros. repeat vm_step.
Qed.

Lemma safe_opMStore8 : safe False opMStore8 2 0.
Proof.
  vm_run @opMStore8. destruct_or?; [done|]. rewrite (Uint64_word x) by lia.
  match goal with Hk : ok _ _ _ _ ?c |- wp _ _ _ ?c _ => pose proof (k_mem _ _ _ _ _ Hk) end.
  eapply wp_mem_from; [eassumption|lia|]. intros r Hr Hlr. destruct r as [|d r]; simpl in Hlr; [lia|].
  inversion Hr; subst. eapply wp_mem_replace; [eassumption|lia|..].
  - constructor; [|done]. change 255 with (Z.ones 8). rewrite Z.land_ones by done.
    apply Z.mod_pos_bound. done.
  - simpl. lia.
  - intros. repeat vm_step.
Qed.

Lemma safe_opCallDataLoad : safe False opCallDataLoad 1 0.
Proof.
  vm_run @opCallDataLoad. pose proof (ok_input Hok) as Hin.
  rewrite setBytes_spec; [|by apply word_nonneg|done|by apply go_bytes_u64].
  apply wp_deref. eapply wp_set_top; [eassumption| |intros; repeat vm_step].
  apply word_SetBytes; [|by rewrite length_app, padded_length].
  apply Forall_app. split; [apply padded_range, Hin|done].
Qed.

Lemma safe_opCallDataCopy : safe False opCallDataCopy 3 0.
Proof.
  vm_run @opCallDataCopy. rewrite Uint64_word in * by lia. bool_props.
  eapply wp_copyToMemory; [eassumption|lia|lia|lia|vm_side|vm_side|intros; repeat vm_step].
Qed.

Lemma safe_opCodeCopy : safe False opCodeCopy 3 0.
Proof.
  vm_run @opCodeCopy. rewrite Uint64_word in * by lia. bool_props.
  eapply wp_copyToMemory; [eassumption|lia|lia|lia|vm_side|vm_side|intros; repeat vm_step].
Qed.

Lemma safe_opExtCodeCopy : safe False opExtCodeCopy 4 1.
Proof.
  vm_run @opExtCodeCopy. rewrite Uint64_word in * by lia. bool_props.
  eapply wp_copyToMemory; [eassumption|lia|lia|lia|vm_side|vm_side|].
  intros. split; [vm_step|eauto with vm].
Qed.

Lemma go_copy_spec dst src :
  Forall byte_range dst → Forall byte_range src →
  Forall byte_range (go_copy dst src) ∧ length (go_copy dst src) = length dst.
Proof.
  intros. unfold go_copy. split.
  - apply Forall_app. split; [by apply Forall_take|by apply Forall_drop].
  - rewrite length_app, length_take, length_drop. lia.
Qed.

(** [RETURNDATACOPY] of no bytes to an offset past the memory panics. *)
Lemma safe_opReturnDataCopy : safe True opReturnDataCopy 3 0.
Proof.
  vm_run @opReturnDataCopy. rewrite Uint64_word by lia.
  match goal with Hk : ok _ _ _ _ ?c |- wp _ _ _ ?c _ =>
    pose proof (ok_rd Hk) as [Hrd _]; pose proof (k_mem _ _ _ _ _ Hk); set (c1 := c) in * end.
  destruct (decide (x ≤ Z.of_nat (length (vis (memory c1))))) as [Hle|Hgt].
  2:{ unfold wp, mem_from, mbind_, gets. by rewrite (proj2 (Z.leb_gt _ _)) by lia. }
  eapply (wp_mem_from True c0 0 (gas c0) (Z.of_nat (length (vis (memory c1))))); [|lia|].
  { match goal with Hk : ok _ _ _ _ c1 |- _ => destruct Hk; split; try done; lia end. }
  intros b Hb Hlb.
  match goal with |- wp _ (mem_replace _ (go_copy _ ?d)) _ _ _ =>
    destruct (go_copy_spec b d Hb) as [Hc Hlc]; [by apply Forall_take, Forall_drop|] end.
  eapply (wp_mem_replace True c0 0 (gas c0) (Z.of_nat (length (vis (memory c1)))));
    [|lia|done|lia|intros; repeat vm_step].
  match goal with Hk : ok _ _ _ _ c1 |- _ => destruct Hk; split; try done; lia end.
Qed.

(** ** Jumps and the stack *)

Lemma fin_ip c0 n g m c i :
  ok c0 n g m c → -1 ≤ i → g ≤ gas c0 → fin c0 0 (set_ip i c).
Proof.
  intros [[] [] ? ? ? ?] ? ?.
  split; [left|split|..]; simpl; try done; try lia; intros; lia.
Qed.

Lemma wp_validJumpdest P c0 n g m c (h : HS) dest (Q : bool → state → HS → Prop) :
  ok c0 n g m c → word dest →
  (∀ b, (b = true → 0 ≤ dest < 2 ^ 63) → Q b c h) → wp P (validJumpdest dest) Q c h.
Proof.
  intros Hok Hd HQ. unfold validJumpdest. apply wp_bind, wp_gets.
  destruct ((BitLen dest >=? 63) || _) eqn:E; [by apply wp_ret, HQ|]. bool_props.
  assert (0 ≤ dest < 2 ^ 63).
  { split; [apply Hd|]. pose proof (BitLen_ltb 63 dest ltac:(done)) as Hb.
    rewrite (proj2 (Z.ltb_ge _ _)), Z.abs_eq in Hb by (try apply Hd; lia).
    symmetry in Hb. bool_props. lia. }
  apply wp_bind, wp_gets. rewrite Uint64_word in * by (unfold M64; lia).
  destruct (bitmap_isSet_spec (vis (bitmap c)) (Z.to_nat dest)) as (r & Hr & _).
  { pose proof (m_bitmap _ (k_mach _ _ _ _ _ Hok)).
    apply Nat.le_lt_trans with (length (code c) / 8)%nat; [|done].
    apply Nat.Div0.div_le_mono. lia. }
  rewrite Z2Nat.id in Hr by lia. unfold wp. rewrite Hr. by apply HQ.
Qed.

Lemma wp_jumpTo P c0 n g m c h dest :
  ok c0 n g m c → word dest → 0 ≤ ip c0 → g ≤ gas c0 → Inv h →
  wp P (jumpTo dest) (λ _ c' h', fin c0 0 c' ∧ Inv h') c h.
Proof.
  intros Hok Hd Hip Hg Hh. unfold jumpTo. apply wp_bind. eapply wp_validJumpdest; [done..|].
  intros [] Hb; [|repeat vm_step]. specialize (Hb eq_refl). apply wp_modify. split; [|done].
  eapply fin_ip; [done| |done]. rewrite Uint64_word by (unfold M64; lia).
  unfold s64, sub64, u64. rewrite Z.add_mod_idemp_l by done.
  replace (dest - 1 + 2 ^ 63) with (dest + (2 ^ 63 - 1)) by lia.
  rewrite Z.mod_small by (unfold M64; lia). lia.
Qed.

Lemma safe_opJump : safe False opJump 1 0.
Proof. vm_run @opJump. eapply wp_jumpTo; [eassumption|done|lia|lia|done]. Qed.

Lemma safe_opJumpi : safe False opJumpi 2 0.
Proof. vm_run @opJumpi. eapply wp_jumpTo; [eassumption|done|lia|lia|done]. Qed.

Lemma safe_opPush n : (n ≤ 32)%nat → safe False (opPush n) 0 0.
Proof.
  intros Hn. vm_run @opPush.
  revert Hok. intros [[] [] ? ? ? ?]. split; simpl; try lia; try done.
  rewrite Z.gtb_ltb.
  destruct (Z.ltb_spec (Z.of_nat (length (code c0))) (ip c0 + 1 + Z.of_nat n)).
  - right. split; [lia|]. split; simpl; try done.
  - left. split; simpl; try done. constructor; [|done].
    apply word_SetBytes; [|rewrite length_take; lia].
    apply Forall_take, Forall_drop, m_code.
Qed.

Lemma safe_opDup n : (1 ≤ n)%nat → safe False (opDup n) 0 0.
Proof.
  intros Hn. vm_start @opDup. unfold stackAtLeast. do 2 vm_step.
  vm_step; [repeat vm_step|]. bool_props. unfold peekAt. do 3 vm_step.
  destruct (lookup_lt_is_Some_2 (stack c0) (n - 1)) as [v Hv]; [lia|]. rewrite Hv.
  apply wp_deref. eapply wp_push; [eassumption| |intros; repeat vm_step].
  eapply Forall_lookup_1; [|exact Hv]. apply (p_mach _ _ _ Hpre).
Qed.

Lemma safe_opSwap n : safe False (opSwap n) 0 0.
Proof.
  vm_start @opSwap. unfold stackAtLeast. do 2 vm_step.
  vm_step; [repeat vm_step|]. bool_props. unfold swap. do 3 vm_step.
  pose proof (m_stack _ (p_mach _ _ _ Hpre)) as Hw.
  destruct (lookup_lt_is_Some_2 (stack c0) 0) as [x Hx]; [lia|].
  destruct (lookup_lt_is_Some_2 (stack c0) n) as [y Hy]; [lia|].
  rewrite Hx, Hy. apply wp_deref. vm_step. apply wp_deref, wp_modify. split; [|done].
  apply fin_ok with (n := O) (g := gas c0) (m := 0); [|lia..].
  revert Hok. intros [[] [] ? ? ? ?]. ok_rebuild.
  do 2 (apply Forall_insert; [|by eapply Forall_lookup_1]). done.
Qed.

Lemma wp_popTopics k c0 n g m c h (Q : list Hash → state → HS → Prop) :
  ok c0 (k + n) g m c → (∀ ts c', ok c0 n g m c' → Q ts c' h) → wp False (popTopics k) Q c h.
Proof.
  revert c Q. induction k as [|k IH]; intros c Q Hok HQ; cbn [popTopics]; [by apply wp_ret, HQ|].
  vm_step. eapply wp_pop; [exact Hok|]. intros x c' _ Hok'. vm_step.
  eapply IH; [done|]. intros. by apply wp_ret, HQ.
Qed.

Lemma safe_opLog n : safe False (opLog n) 0 0.
Proof.
  vm_start @opLog. unfold stackAtLeast. do 2 vm_step. vm_step; [repeat vm_step|].
  do 2 vm_step. vm_step; [repeat vm_step|]. bool_props.
  assert (ok c0 (S (S (n - 1 + 0))) (gas c0) 0 c0) as Hok'
    by (destruct Hok; split; try done; lia).
  clear Hok. do 4 vm_step. vm_step. eapply wp_popTopics; [eassumption|]. intros ts c2 Hok2.
  repeat (vm_step || (split; [|solve [eauto with vm]])).
Qed.

(** ** Calls and creations *)

Lemma safe_opHalt op : safe False (opHalt op) 2 1.
Proof.
  vm_run @opHalt.
Qed.

Lemma wp_addGas P c0 n g m c (h : HS) a (Q : unit → state → HS → Prop) :
  ok c0 n g m c → 0 ≤ a → g + a ≤ gas c0 → gas_ok (gas c0) →
  (∀ c', ok c0 n (g + a) m c' → stop c' = stop c → Q tt c' h) → wp P (addGas a) Q c h.
Proof.
  intros [[] [] ? ? ? ?] Ha Hg Hu HQ. apply wp_modify. apply HQ; [|done].
  assert (add64 (gas c) a = gas c + a) as -> by (apply u64_small; unfold is_u64, gas_ok, M64 in *; lia).
  ok_rebuild. unfold gas_ok in *. lia.
Qed.

Lemma wp_callx c h ct (Q : ExecutionResult → state → HS → Prop) :
  Inv h → D ≤ c_Depth ct → contract_ok ct →
  (∀ r h', 0 ≤ GasLeft r ≤ c_Gas ct → go_bytes (ReturnValue r) → Inv h' → Q r c h') →
  wp True (callx ct) Q c h.
Proof.
  intros Hh Hd Hc HQ. unfold wp, callx. pose proof (law_callx ct h Hh Hd Hc).
  destruct (h_Callx ct h) as [[r h']| |]; [|done..]. apply HQ; tauto.
Qed.

Lemma contract_ok_Type ty c : contract_ok c → contract_ok (set_Type ty c).
Proof. by intros []. Qed.

(** The gas of a created contract has left the machine. *)
Lemma wp_buildCreateContract op c0 g m c h (Q : built → state → HS → Prop) :
  ok c0 (if op =? CREATE2 then 4 else 3) g m c → D ≤ c_Depth (msg c) + 1 →
  (∀ c', ok c0 0 g m c' → stop c' = true → Q NoContract c' h) →
  (∀ c', ok c0 0 g m c' → Q (BadContract None) c' h) →
  (∀ ct o s c', contract_ok ct → D ≤ c_Depth ct → ok c0 0 (g - c_Gas ct) m c' →
     Q (GoodContract ct o s) c' h) →
  wp True (buildCreateContract op) Q c h.
Proof.
  intros Hok Hd HN HB HG. unfold buildCreateContract.
  assert (Hm : ∀ n g m c', ok c0 n g m c' → c_Depth (msg c') = c_Depth (msg c)).
  { intros ? ? ? c' Hk. by rewrite (s_msg _ _ (k_same _ _ _ _ _ Hk)), (s_msg _ _ (k_same _ _ _ _ _ Hok)). }
  assert (ok c0 (S (S (S (if op =? CREATE2 then 1 else 0)))) g m c) as Hok'
    by (by destruct (op =? CREATE2)). clear Hok.
  do 6 vm_step. vm_step. eapply (wp_mono _ _ _ (λ salt c' h', word salt ∧ ok c0 0 g m c' ∧ h' = h)).
  { destruct (op =? CREATE2); repeat vm_step; eauto with vm. }
  intros salt c4 h' (Hsalt & Hok4 & ->). vm_step. vm_step; [|vm_step; by apply HN].
  do 2 vm_step; [|vm_step; by apply HN]. do 4 vm_step.
  vm_step. { vm_step. apply HB. eapply ok_weaken; [eassumption|lia..]. }
  vm_step. eapply (wp_mono _ _ _ (λ ok' c' h', h' = h ∧
    if ok' : bool then ok c0 0 g m c' else ok c0 0 g m c' ∧ stop c' = true)).
  { destruct (op =? CREATE2).
    - eapply wp_consumeGas; [eassumption|vm_side|intros ? Hk ? _ _|intros ? Hk ?]; split; try done.
      + eapply ok_weaken; [eassumption|lia..].
      + split; [|done]. eapply ok_weaken; [eassumption|lia..].
    - vm_step. split; [done|]. eapply ok_weaken; [eassumption|lia..]. }
  intros [] c5 h' (-> & Hok5); cbn [negb]; [|destruct Hok5; vm_step; by apply HN].
  do 5 vm_step.
  match goal with |- wp _ (consumeGas ?a) _ _ _ => set (cg := a) end.
  pose proof (m_gas _ (k_mach _ _ _ _ _ Hok5)) as Hg5.
  assert (gas_ok cg) as Hcg.
  { unfold cg, gas_ok in *. destruct (EIP150 _ || _); [|done].
    pose proof (Z.div_pos (gas c5) 64 ltac:(lia) ltac:(lia)).
    pose proof (Z.div_le_upper_bound (gas c5) 64 (gas c5) ltac:(lia) ltac:(lia)).
    unfold sub64. rewrite u64_small by (unfold is_u64, M64; lia). lia. }
  eapply wp_consumeGas; [eassumption|apply Hcg|intros c6 Hok6 _ _ _|intros c6 Hok6 Hst]; cbn [negb];
    [|vm_step; by apply HN].
  do 2 vm_step. vm_step. apply HG; simpl.
  - split; simpl; try done. by intros ? [= <-].
  - match goal with |- _ ≤ c_Depth (msg ?c') + 1 =>
      match goal with Hk : ok _ _ _ _ c' |- _ => by rewrite (Hm _ _ _ _ Hk) end end.
  - done.
Qed.

Lemma safe_opCreate op :
  op = CREATE ∨ op = CREATE2 → safe True (opCreate op) (if op =? CREATE2 then 4 else 3) 0.
Proof.
  intros Hop. vm_start @opCreate. pose proof (p_depth _ _ _ Hpre) as Hd.
  pose proof (m_gas _ (p_mach _ _ _ Hpre)) as Hu. do 4 vm_step.
  vm_step; [repeat vm_step|]. vm_step; [repeat vm_step|]. do 3 vm_step.
  eapply wp_buildCreateContract; [eassumption| |intros; repeat vm_step..|].
  { match goal with Hk : ok _ _ _ _ ?c' |- _ ≤ c_Depth (msg ?c') + 1 =>
      by rewrite (s_msg _ _ (k_same _ _ _ _ _ Hk)) end. }
  intros ct o s c2 Hct Hcd Hok2. vm_step.
  eapply wp_callx; [done..|by apply contract_ok_Type|]. intros r h' Hg Hrv Hh'. simpl in Hg.
  do 2 vm_step. vm_step. eapply wp_addGas; [eassumption|lia|lia|done|].
  intros c3 Hok3 _. repeat vm_step.
Qed.

(** ** Calls *)

(** The price of a call, and what its callee may spend of it. *)
Lemma calleeGas_bound cfg g cost initial cg :
  EIP150 cfg = true → gas_ok g → 0 ≤ cost ≤ 2 ^ 16 → 0 ≤ initial →
  calleeGas cfg g cost initial = Some cg → is_u64 cg ∧ add64 cost cg = cost + cg.
Proof.
  unfold calleeGas, sub64. intros -> Hg Hc Hi Hs.
  assert (is_u64 g) by (unfold gas_ok, is_u64, M64 in *; lia).
  set (a := u64 (g - cost)) in *. pose proof (u64_range (g - cost)) as Ha. fold a in Ha.
  assert (u64 (a - a / 64) = a - a / 64) as Hav.
  { apply u64_small. unfold is_u64 in *. pose proof (Z.div_pos a 64 ltac:(lia) ltac:(lia)).
    pose proof (Z.div_le_upper_bound a 64 a ltac:(lia) ltac:(lia)). lia. }
  rewrite Hav in Hs. assert (0 ≤ cg ≤ a - a / 64) as Hcg.
  { unfold is_u64 in *. pose proof (Z.div_le_upper_bound a 64 a ltac:(lia) ltac:(lia)).
    unfold IsUint64 in Hs. rewrite (proj2 (Z.leb_le 0 initial)) in Hs by done.
    destruct (Z.ltb_spec initial M64) as [Hl|Hl]; simpl in Hs; [|simplify_eq; lia].
    rewrite Uint64_word in Hs by lia. destruct (Z.ltb_spec (a - a / 64) initial); simplify_eq; lia. }
  pose proof (Z.div_pos a 64 ltac:(unfold is_u64 in *; lia) ltac:(lia)).
  split; [unfold is_u64 in *; lia|]. apply u64_small. split; [lia|].
  destruct (decide (cost ≤ g)) as [Hle|Hgt].
  - assert (a = g - cost) by (apply u64_small; unfold is_u64 in *; lia). unfold is_u64 in *. lia.
  - pose proof (Z.div_mod a 64 ltac:(lia)). pose proof (Z.mod_pos_bound a 64 ltac:(lia)).
    unfold is_u64, M64 in *. lia.
Qed.

Lemma callBaseCost_bound op cfg transfers empty exists_ :
  EIP150 cfg = true →
  700 ≤ callBaseCost op cfg transfers empty exists_ ≤ 34700 ∧
  (transfers = true → 9700 ≤ callBaseCost op cfg transfers empty exists_).
Proof. intros He. unfold callBaseCost. rewrite He. repeat case_match; split; intros; try lia; done. Qed.

(** The number of words a call takes. *)
Definition callArgs (op : Z) : nat := if (op =? CALL) || (op =? CALLCODE) then 7 else 6.

Lemma wp_callValue op c0 n g m c h (Q : option Z → state → HS → Prop) :
  ok c0 ((if (op =? CALL) || (op =? CALLCODE) then 1 else 0) + n) g m c →
  (∀ v c', (∀ x, v = Some x → word x) → ok c0 n g m c' → Q v c' h) →
  wp True (if (op =? CALL) || (op =? CALLCODE)
           then let! v := pop in ret_ (Some v) else ret_ None) Q c h.
Proof.
  intros Hok HQ. destruct ((op =? CALL) || (op =? CALLCODE)); simpl in Hok.
  - vm_step. eapply wp_pop; [exact Hok|]. intros x c' Hx Hk. apply wp_ret, HQ; [|done].
    by intros ? [= <-].
  - by apply wp_ret, HQ.
Qed.

Lemma callContract_ok op parent addr value gas cd args :
  contract_ok parent → (∀ x, value = Some x → word x) → gas_ok gas → go_bytes cd → go_bytes args →
  contract_ok (callContract op parent addr value gas cd args) ∧
  c_Gas (callContract op parent addr value gas cd args) = gas ∧
  c_Depth (callContract op parent addr value gas cd args) = c_Depth parent + 1.
Proof.
  intros [] Hv Hg Hc Ha. unfold callContract.
  destruct ((op =? STATICCALL) || c_Static parent), ((op =? CALLCODE) || (op =? DELEGATECALL)),
    (op =? DELEGATECALL); by split_and!.
Qed.

Lemma wp_buildCallContract op c0 g m c h (Q : built → state → HS → Prop) :
  ok c0 (callArgs op) g m c → Inv h → D ≤ c_Depth (msg c) + 1 → EIP150 (config c0) = true →
  (∀ c', ok c0 0 g m c' → stop c' = true → Q NoContract c' h) →
  (∀ ct c' h', 0 ≤ c_Gas ct → ok c0 0 (g - c_Gas ct - 1) m c' → Inv h' →
     Q (BadContract (Some ct)) c' h') →
  (∀ ct o s c' m' h', contract_ok ct → D ≤ c_Depth ct → ok c0 0 (g - c_Gas ct - 1) m' c' →
     (s = 0 ∨ o + s ≤ m') → 0 ≤ o < M64 → 0 ≤ s → (s ≠ 0 → o ≤ 2 ^ 40 ∧ s ≤ 2 ^ 40) → Inv h' →
     Q (GoodContract ct o s) c' h') →
  wp True (buildCallContract op) Q c h.
Proof.
  intros Hok Hh Hd He HN HB HG. unfold buildCallContract.
  assert (ok c0 (S (S ((if (op =? CALL) || (op =? CALLCODE) then 1 else 0) + 4))) g m c) as Hok'
    by (unfold callArgs in Hok; by destruct ((op =? CALL) || (op =? CALLCODE))).
  do 4 vm_step. vm_step. eapply wp_callValue; [eassumption|]. intros value c3 Hv Hok3.
  do 8 vm_step. vm_step. vm_step; [|vm_step; by apply HN].
  vm_step. vm_step; [|vm_step; by apply HN]. do 8 vm_step.
  match goal with Hk : ok _ _ _ ?mm ?c' |- wp _ _ _ ?c' _ =>
    rename c' into c8; rename mm into m8; pose proof Hk as Hok8 end.
  pose proof (s_config _ _ (k_same _ _ _ _ _ Hok8)) as Hcfg. rewrite <- Hcfg in He.
  set (cost := callBaseCost _ _ _ _ _). set (tr := transfersValue op value) in *.
  destruct (callBaseCost_bound op (config c8) tr (h_Empty x0 h) (h_AccountExists x0 h) He)
    as [Hb Hbt]. fold cost in Hb, Hbt.
  pose proof (m_gas _ (k_mach _ _ _ _ _ Hok8)) as Hg8.
  destruct (calleeGas _ _ _ _) as [cg|] eqn:Hcg.
  2:{ repeat vm_step. apply HN; [|done]. eapply ok_weaken; [eassumption|lia..]. }
  eapply calleeGas_bound in Hcg as [Hcgu Hadd]; [|done|done|lia|vm_side].
  rewrite Hadd. vm_step.
  eapply wp_consumeGas; [exact Hok8|unfold is_u64 in *; lia| |]; cbn [negb].
  2:{ intros. vm_step. apply HN; [|done]. eapply ok_weaken; [eassumption|lia..]. }
  intros c9 Hok9 _ Hgas9 _. do 4 vm_step.
  set (cg' := if tr then add64 cg 2300 else cg).
  assert (0 ≤ gas c9) as Hpos by apply (m_gas _ (k_mach _ _ _ _ _ Hok9)).
  assert (gas_ok cg' ∧ cg' + 1 ≤ cost + cg) as [Hcg' Hle].
  { unfold cg', gas_ok, is_u64 in *. destruct tr; [|lia]. specialize (Hbt eq_refl).
    unfold add64. rewrite u64_small by (unfold is_u64, M64; lia). lia. }
  pose proof (m_msg _ (k_mach _ _ _ _ _ Hok9)) as Hmsg.
  assert (c_Depth (msg c9) = c_Depth (msg c)) as Hdepth.
  { by rewrite (s_msg _ _ (k_same _ _ _ _ _ Hok9)), (s_msg _ _ (k_same _ _ _ _ _ Hok)). }
  vm_step.
  match goal with |- context [callContract op (msg c9) ?a value cg' ?cd ?args] =>
    destruct (callContract_ok op (msg c9) a value cg' cd args) as (Hct & Hctg & Hctd);
    [done..|by apply inv_code|done|]; pose proof (inv_code_host a h Hh);
    set (ct := callContract _ _ _ _ _ _ _) in * end.
  vm_step. vm_step.
  - vm_step. apply HB; [unfold gas_ok in *; lia|eapply ok_weaken; [exact Hok9|lia..]|done].
  - vm_step. rewrite !Uint64_word by lia.
    eapply HG; try done; [lia|eapply ok_weaken; [exact Hok9|lia..]|lia].
Qed.

(** Copying the callee's result: an empty range past the capacity panics. *)
Lemma wp_mem_copy c0 n g m c (h : HS) lo size src (Q : unit → state → HS → Prop) :
  ok c0 n g m c → 0 ≤ lo < M64 → 0 ≤ size → (size = 0 ∨ lo + size ≤ m) → go_bytes src →
  (∀ c', ok c0 n g m c' → Q tt c' h) → wp True (mem_copy lo (add64 lo size) src) Q c h.
Proof.
  intros Hok Hlo Hsz Hm [Hsrc _] HQ. pose proof (mem_len _ _ _ _ _ Hok).
  revert Hok. intros [[] [] ? ? ? ?].
  assert (add64 lo size = lo + size) as ->.
  { apply u64_small. destruct Hm as [->|]; unfold is_u64, M64 in *; lia. }
  unfold mem_copy, mem_slice, wp, mbind_, gets, ret_, modify, sl_cap.
  destruct ((lo <=? lo + size) && _) eqn:E; [|done]. bool_props. apply HQ.
  set (v := vis (memory c)) in *. set (sp := spare (memory c)) in *.
  set (dst := take _ (drop _ (v ++ sp))).
  assert (length dst = Z.to_nat size) as Hdst.
  { unfold dst. rewrite length_take, length_drop, length_app. lia. }
  assert (length (go_copy dst src) = Z.to_nat size) as Hgc.
  { unfold go_copy. rewrite length_app, length_take, length_drop. lia. }
  set (full := take _ (v ++ sp) ++ go_copy dst src ++ drop _ (v ++ sp)).
  assert (take (length v) full ++ drop (length v) full = full) as _ by apply take_drop.
  assert (length (take (length v) full) = length v) as Hlv.
  { unfold full. rewrite length_take, !length_app, length_take, length_drop, length_app. lia. }
  assert (Forall byte_range full ∧ drop (length v) full = sp) as [Hfull Hsp].
  { destruct Hm as [->|Hm].
    - assert (full = v ++ sp) as ->; [|split; [apply Forall_app; split; [done|by apply eq0_range]|
        by rewrite drop_app_length]].
      unfold full. rewrite Z.add_0_r. destruct (go_copy dst src); [|simpl in Hgc; lia].
      apply take_drop.
    - unfold full. rewrite take_app_le, drop_app_le by lia. split.
      + rewrite !Forall_app. split_and!; [by apply Forall_take| |by apply Forall_drop|by apply eq0_range].
        apply go_copy_spec; [|done]. apply Forall_take, Forall_drop, Forall_app.
        split; [done|by apply eq0_range].
      + rewrite !app_assoc, drop_app_length'; [done|].
        rewrite !length_app, length_take, length_drop, Hgc. lia. }
  ok_rebuild; fold v sp full; rewrite ?Hlv, ?Hsp; try done.
  by apply Forall_take.
Qed.

Lemma safe_doCall op ty c0 c h :
  ok c0 (callArgs op) (gas c0) 0 c → Inv h → 0 ≤ ip c0 → D ≤ c_Depth (msg c0) + 1 →
  EIP150 (config c0) = true → gas_ok (gas c0) →
  wp True (doCall op ty) (λ _ c' h', fin c0 1 c' ∧ Inv h') c h.
Proof.
  intros Hok Hh Hip Hd He Hu. unfold doCall. vm_step.
  eapply wp_buildCallContract; [done..| |done| | |].
  { by rewrite (s_msg _ _ (k_same _ _ _ _ _ Hok)). }
  - intros. repeat vm_step.
  - intros ct c' h' Hg Hok' Hh'. do 2 vm_step.
    eapply wp_addGas; [eassumption|lia|lia|done|]. intros. repeat vm_step.
  - intros ct o s c' m' h' Hct Hcd Hok' Hm Ho Hs Hb Hh'. vm_step.
    eapply wp_callx; [done..|by apply contract_ok_Type|]. intros r h2 Hg Hrv Hh2. simpl in Hg.
    do 3 vm_step. eapply (wp_mono _ _ _ (λ _ c1 h1, h1 = h2 ∧ ok c0 1 (gas c0 - c_Gas ct - 1) m' c1)).
    { case_match; [|by vm_step]. eapply wp_mem_copy; [eassumption|done..|]. done. }
    intros _ c2 h3 [-> Hok2]. vm_step. eapply wp_addGas; [eassumption|lia|lia|done|].
    intros. repeat vm_step.
Qed.

Lemma safe_opCall op :
  op ∈ [CALL; CALLCODE; DELEGATECALL; STATICCALL] → safe True (opCall op) (callArgs op) 1.
Proof.
  intros Hop. vm_start @opCall. pose proof (p_depth _ _ _ Hpre) as Hd.
  pose proof (m_gas _ (p_mach _ _ _ Hpre)) as Hu. do 5 vm_step.
  match goal with Hk : ok c0 _ _ _ ?c |- wp _ _ _ ?c _ => rename c into c1; rename Hk into Hok1 end.
  eapply (wp_mono _ _ _ (λ _ c h, c = c1 ∧ h = h0)).
  { case_match; [|by vm_step]. unfold peekAt. do 3 vm_step.
    destruct (stack c1 !! (3 - 1)%nat); [|done]. apply wp_deref. by vm_step. }
  intros w c h [-> ->]. do 2 vm_step. do 3 (vm_step; [repeat vm_step|]). vm_step.
  assert (∃ ty, callType op = Some ty) as [ty ->].
  { rewrite !elem_of_cons in Hop. destruct Hop as [->|[->|[->|[->|[]%elem_of_nil]]]]; by eexists. }
  apply wp_deref. apply safe_doCall; try done; lia.
Qed.
End instructions.
