(* ===== verification/EvmMeta.v ===== *)
(** The interpreter as a whole: the dispatch table is well formed, every turn
    of the loop keeps the machine's invariant and pays, so [EVM.Run] ends. *)
From S2P Require Import Prelude Types Runtime Crypto EvmState EvmInstr EvmRun EvmWord EvmMemory EvmLogic EvmSafe.

Section meta.
Context `{External} `{GoRuntime} `{Host HS} (D : Z) (Inv : HS → Prop) `{!HostLaws D Inv}.

(** The opcodes whose instruction can panic. *)
Definition may_panic : list Z :=
  [RETURNDATACOPY; CREATE; CREATE2; CALL; CALLCODE; DELEGATECALL; STATICCALL].

(** A code with one of these bytes. *)
Definition panicky (code : bytes) : Prop := Exists (.∈ may_panic) code.

(** ** The table *)

Lemma register_spec (t : gmap Z (handler (HS:=HS))) l :
  NoDup l.*1 → (∀ k, k ∈ l.*1 → t !! k = None) →
  ∃ t', foldl register (Some t) l = Some t' ∧
    ∀ op i, t' !! op = Some i ↔ t !! op = Some i ∨ (op, i) ∈ l.
Proof using.
  revert t. induction l as [|[k v] l IH]; intros t Hnd Hfresh; cbn [foldl].
  { exists t. split; [done|]. intros. rewrite elem_of_nil. tauto. }
  cbn in Hnd. apply NoDup_cons in Hnd as [Hk Hnd].
  unfold register at 2. cbn [mbind option_bind fst snd].
  rewrite Hfresh by (cbn; apply list_elem_of_here).
  destruct (IH (<[k:=v]> t)) as (t' & -> & Ht'); [done| |].
  { intros k' Hk'. rewrite lookup_insert_ne by (intros ->; done).
    apply Hfresh. cbn. by apply list_elem_of_further. }
  exists t'. split; [done|]. intros op i. rewrite Ht', elem_of_cons.
  destruct (decide (op = k)) as [->|Hne].
  - rewrite lookup_insert_eq, (Hfresh k) by (cbn; apply list_elem_of_here).
    split; [naive_solver|]. intros [|[?|Hin]]; [done|by simplify_eq; left|].
    exfalso. apply Hk, list_elem_of_fmap. by exists (k, i).
  - rewrite lookup_insert_ne by done. naive_solver.
Qed.

Lemma registrations_NoDup : NoDup (registrations (HS:=HS)).*1.
Proof.
  assert (bool_decide (NoDup (registrations (HS:=HS)).*1) = true) as Hb by (vm_compute; reflexivity).
  by apply bool_decide_eq_true in Hb.
Qed.

Lemma dispatch_iff op i : dispatchTable !! op = Some i ↔ (op, i) ∈ registrations (HS:=HS).
Proof using.
  unfold dispatchTable, init.
  destruct (register_spec ∅ registrations registrations_NoDup) as (t & -> & Ht).
  { intros. apply lookup_empty. }
  simpl. rewrite Ht, lookup_empty. naive_solver.
Qed.

(** No opcode is registered twice, so the table builds, and its bytes are
    exactly the registered ones. *)
Theorem init_registers_once :
  is_Some (init (HS:=HS)) ∧
  ∀ op i, dispatchTable !! op = Some i ↔ (op, i) ∈ registrations (HS:=HS).
Proof using.
  split; [|apply dispatch_iff]. unfold init.
  destruct (register_spec ∅ registrations registrations_NoDup) as (t & -> & _); [|by eexists].
  intros. apply lookup_empty.
Qed.

(** ** Every instruction of the table *)

Definition price (i : handler (HS:=HS)) : Z := if gas_ i =? 0 then 1 else 0.

Definition handler_safe (e : Z * handler (HS:=HS)) : Prop :=
  safe D Inv (e.1 ∈ may_panic) (inst e.2) (Z.to_nat (stack_ e.2)) (price e.2) ∧
  0 ≤ stack_ e.2 ∧ 0 ≤ gas_ e.2.

Lemma safe_weaken (P Q : Prop) i n e : (P → Q) → safe D Inv P i n e → safe D Inv Q i n e.
Proof using. intros HPQ Hs c h Hp Hh. eapply wp_panic_any; [by apply Hs|done]. Qed.

Lemma range_safe from to f (g : Z) :
  0 < g → (∀ n, (1 ≤ n ≤ Z.to_nat (to - from + 1))%nat → safe D Inv False (f n) 0 0) →
  Forall handler_safe (registerRange from to f g).
Proof using.
  intros Hg Hf. unfold registerRange. rewrite Forall_fmap, Forall_forall. intros k Hk.
  apply elem_of_seq in Hk. unfold handler_safe, price; simpl.
  rewrite (proj2 (Z.eqb_neq g 0)) by lia. split; [|lia].
  apply safe_weaken with False; [done|]. apply Hf. lia.
Qed.

#[local] Ltac in_list := repeat first [apply list_elem_of_here | apply list_elem_of_further].

(** Compute the number of words and the price in the goal. *)
#[local] Ltac compute_args :=
  lazymatch goal with |- safe _ _ _ _ ?n ?e =>
    let n' := eval vm_compute in n in let e' := eval vm_compute in e in
    change n with n'; change e with e'
  end.

#[local] Ltac solve_safe :=
  split; [|done]; cbn [fst snd inst stack_ gas_ price]; compute_args;
  lazymatch goal with
  | Hs : safe _ _ False ?i _ _ |- safe _ _ _ ?i _ _ => apply safe_weaken with False; [done|exact Hs]
  | |- safe _ _ _ (opCall _) _ _ =>
      apply safe_weaken with True; [intros _; unfold may_panic; in_list|apply (safe_opCall D Inv); in_list]
  | |- safe _ _ _ (opCreate _) _ _ =>
      apply safe_weaken with True; [intros _; unfold may_panic; in_list|apply (safe_opCreate D Inv); auto]
  | |- safe _ _ _ opReturnDataCopy _ _ =>
      apply safe_weaken with True; [intros _; unfold may_panic; in_list|apply (safe_opReturnDataCopy D Inv)]
  | |- safe _ _ _ (opHalt _) _ _ =>
      apply safe_weaken with False; [done|apply safe_opHalt]
  end.

Lemma registrations_safe : Forall handler_safe registrations.
Proof.
  unfold registrations. rewrite !Forall_app.
  pose proof (simple_safe D Inv) as Hall. unfold simple in Hall.
  repeat (apply Forall_cons in Hall as [? Hall]; cbn [fst snd] in * ).
  pose proof (safe_opSStore D Inv). pose proof (safe_opSignExtension D Inv).
  pose proof (safe_opMStore D Inv). pose proof (safe_opMStore8 D Inv).
  pose proof (safe_opCallDataLoad D Inv). pose proof (safe_opCallDataCopy D Inv).
  pose proof (safe_opCodeCopy D Inv). pose proof (safe_opExtCodeCopy D Inv).
  pose proof (safe_opJump D Inv). pose proof (safe_opJumpi D Inv).
  split_and!.
  - repeat (apply Forall_cons; split); [..|constructor]; solve_safe.
  - apply range_safe; [done|]. intros. apply safe_opPush. unfold PUSH1, PUSH32 in *. lia.
  - apply range_safe; [done|]. intros. apply safe_opDup. lia.
  - apply range_safe; [done|]. intros. apply safe_opSwap.
  - apply range_safe; [done|]. intros. apply (safe_opLog D Inv).
  - repeat (apply Forall_cons; split); [..|constructor]; solve_safe.
Qed.

Lemma dispatch_safe op i : dispatchTable !! op = Some i → handler_safe (op, i).
Proof.
  intros Hi. apply dispatch_iff in Hi. eapply Forall_forall in Hi; [|exact registrations_safe].
  exact Hi.
Qed.

#[local] Opaque dispatchTable.

(** ** One turn of the loop *)

(** The machine between two turns: its stack is within bounds and holds words,
    unless the code has ended inside a [PUSH]. *)
Record between (c : state) : Prop := {
  b_mach : mach c ∨ Z.of_nat (length (code c)) ≤ ip c ∧ mach (set_stack [] c);
  b_ip : 0 ≤ ip c;
  b_stack : Z.of_nat (length (stack c)) ≤ stackSize;
  b_depth : D ≤ c_Depth (msg c) + 1;
  b_eip150 : EIP150 (config c) = true;
}.

(** What holds of a machine the loop has left. *)
Record left_ (c0 c : state) : Prop := {
  l_gas : 0 ≤ gas c ≤ gas c0;
  l_mem : Forall (eq 0) (spare (memory c));
  l_bitmap : bitmap c = bitmap c0;
  l_ret : go_bytes (ret c);
}.

Lemma weak_left c c0 :
  mach c ∨ mach (set_stack [] c) → gas c ≤ gas c0 → bitmap c = bitmap c0 → left_ c0 c.
Proof. intros [[]|[]] ? ?; unfold gas_ok in *; split; simpl in *; try done; lia. Qed.

Lemma left_exit c0 c e : left_ c0 c → left_ c0 (set_exit e c).
Proof. by intros []. Qed.
Lemma left_ip c0 c i : left_ c0 c → left_ c0 (set_ip i c).
Proof. by intros []. Qed.
Lemma left_between c : between c → left_ c c.
Proof. intros [[?|[_ ?]] ? ? ? ?]; apply weak_left; auto; done. Qed.

Lemma fin_left c0 c1 c e : fin c1 e c → gas c1 ≤ gas c0 → bitmap c1 = bitmap c0 → left_ c0 c.
Proof.
  intros [[?|[_ ?]] [] ? ? ?] ? ?; apply weak_left; auto; try lia; congruence.
Qed.

Lemma mach_ip c i : mach c → mach (set_ip i c).
Proof. by intros []. Qed.

(** The loop goes on only after the machine has paid at least one unit. *)
Lemma Run_turn_spec c h :
  between c → Inv h → stop c = false →
  wp (panicky (code c)) Run_turn (λ t c' h', Inv h' ∧ left_ c c' ∧
    (t = Continue → between c' ∧ code c' = code c ∧ (stop c' = false → gas c' < gas c))) c h.
Proof.
  intros Hb Hh Hstop. pose proof (left_between c Hb) as Hl.
  unfold Run_turn, CurrentOpCode, wp.
  rewrite Z.geb_leb. destruct (Z.leb_spec (Z.of_nat (length (code c))) (ip c)) as [Hend|Hip].
  { simpl. split_and!; [done|by apply left_exit|done]. }
  rewrite (proj2 (Z.ltb_ge _ _)) by apply Hb.
  destruct (lookup_lt_is_Some_2 (code c) (Z.to_nat (ip c))) as [op Hop]; [destruct Hb; lia|].
  rewrite Hop.
  cbn [negb]. destruct (dispatchTable !! op) as [i|] eqn:Hi;
    [|simpl; split_and!; [done|by apply left_exit|done]].
  destruct (dispatch_safe op i Hi) as (Hs & Hst & Hgi); cbn [fst snd] in *.
  assert (mach c) as Hm by (destruct Hb as [[?|[? ?]]]; [done|lia]).
  unfold mbind_ at 1, gets at 1.
  destruct (Z.ltb_spec (Z.of_nat (length (stack c))) (stack_ i)) as [Hlt|Hge].
  { simpl. split_and!; [done|by apply left_exit|done]. }
  match goal with |- match ?m c h with _ => _ end => change (wp (panicky (code c)) m (λ t c' h', Inv h' ∧ left_ c c' ∧
    (t = Continue → between c' ∧ code c' = code c ∧ (stop c' = false → gas c' < gas c))) c h) end.
  apply wp_bind. eapply wp_consumeGas; [by apply ok_start|done| |]; cbn [negb].
  2:{ intros c1 Hok1 _. apply wp_bind, wp_modify, wp_ret. split_and!; [done| |done].
      apply left_exit, weak_left; [left; apply Hok1|apply Hok1|apply Hok1]. }
  intros c1 Hok1 _ Hg1 _. pose proof (k_same _ _ _ _ _ Hok1) as [Hc1 Hm1 Hf1 Hb1].
  apply wp_bind. eapply wp_mono; [apply wp_panic_any with (op ∈ may_panic); [apply Hs|]|].
  - destruct Hb. split; [apply Hok1| | |by rewrite Hm1|by rewrite Hf1].
    + rewrite (k_ip _ _ _ _ _ Hok1), Hc1. lia.
    + destruct Hok1. lia.
  - done.
  - intros Hin. apply Exists_exists. exists op. split; [by eapply list_elem_of_lookup_2|done].
  - intros _ c2 h2 [Hfin Hh2].
    assert (left_ c c2) as Hl2 by (eapply fin_left; [exact Hfin|lia|done]).
    apply wp_bind, wp_gets. rewrite Z.gtb_ltb.
    destruct (Z.ltb_spec stackSize (Z.of_nat (length (stack c2)))) as [Hov|Hfit].
    + apply wp_bind, wp_modify, wp_ret. split_and!; [done|by apply left_exit|done].
    + apply wp_bind, wp_modify, wp_ret. split_and!; [done|by apply left_ip|]. intros _.
      destruct Hfin as [Hfm [Hc2 Hm2 Hf2 _] Hfi Hfg Hfp]. split_and!.
      * destruct Hb. split; cbn [set_ip ip stack msg config];
          [|lia|lia|by rewrite Hm2, Hm1|by rewrite Hf2, Hf1].
        destruct Hfm as [?|[? ?]]; [left; by apply mach_ip|right; split; [simpl; lia|]].
        by apply (mach_ip (set_stack [] c2)).
      * simpl. congruence.
      * simpl. intros Hns. specialize (Hfp Hns). unfold price in Hfp.
        destruct (Z.eqb_spec (gas_ i) 0); lia.
Qed.

(** ** The loop and the runtime *)

Lemma left_trans c0 c1 c2 : left_ c0 c1 → left_ c1 c2 → left_ c0 c2.
Proof. intros [] []. split; [lia|done|congruence|done]. Qed.

(** With more fuel than gas, the loop ends, and only a panicky code panics. *)
Lemma Run_loop_ends fuel c h :
  between c → Inv h → (stop c = false → gas c < Z.of_nat fuel) →
  match Run_loop fuel c h with
  | Ret (c', h') => left_ c c' ∧ Inv h'
  | Panic => panicky (code c)
  | NoFuel => False
  end.
Proof.
  revert c h. induction fuel as [|fuel IH]; intros c h Hb Hh Hf; cbn [Run_loop].
  - destruct (stop c); [split; [by apply left_between|done]|].
    specialize (Hf eq_refl). pose proof (l_gas _ _ (left_between c Hb)). lia.
  - destruct (stop c) eqn:Hs; [split; [by apply left_between|done]|].
    pose proof (Run_turn_spec c h Hb Hh Hs) as Ht. unfold wp in Ht.
    destruct (Run_turn c h) as [[[[] c1] h1]| |]; [..|done|done].
    + destruct Ht as (? & ? & _). done.
    + destruct Ht as (Hh1 & Hl & Hc). destruct (Hc eq_refl) as (Hb1 & Ec & Hg).
      specialize (IH c1 h1 Hb1 Hh1 ltac:(intros Hs1; specialize (Hg Hs1); specialize (Hf eq_refl); lia)).
      destruct (Run_loop fuel c1 h1) as [[c2 h2]| |]; [|by rewrite <- Ec|done].
      destruct IH. split; [by eapply left_trans|done].
Qed.

(** More fuel changes nothing. *)
Lemma Run_loop_fuel fuel fuel' c (h : HS) :
  (fuel ≤ fuel')%nat → Run_loop fuel c h ≠ NoFuel → Run_loop fuel' c h = Run_loop fuel c h.
Proof.
  revert fuel' c h. induction fuel as [|fuel IH]; intros fuel' c h Hle Hn.
  - cbn [Run_loop] in *. destruct fuel'; cbn [Run_loop]; destruct (stop c); done.
  - destruct fuel' as [|fuel']; [lia|]. cbn [Run_loop] in *. destruct (stop c); [done|].
    destruct (Run_turn c h) as [[[[] c1] h1]| |]; [done| |done..]. apply IH; [lia|done].
Qed.

Lemma start_between mem bm c cfg :
  Forall (eq 0) mem → Forall (eq 0) bm → contract_ok c → D ≤ c_Depth c + 1 →
  EIP150 cfg = true → between (start mem bm c cfg).
Proof.
  intros Hm Hbm [] Hd He. unfold start, acquireState. split; simpl; try done. left.
  split; simpl; try done; try constructor. unfold setCode; simpl.
  rewrite setCode_loop_length.
  rewrite extendByteSlice_vis by (simpl; try done; lia). simpl. unfold zeros. rewrite length_replicate.
  replace (Z.of_nat (length (c_Code c)) / bitmapSize) with (Z.of_nat (length (c_Code c) / 8))
    by (by rewrite Nat2Z.inj_div).
  match goal with |- (_ < ?n)%nat => change (length (c_Code c) / 8 < n)%nat end. lia.
Qed.

Lemma start_bitmap_spare mem bm c cfg :
  Forall (eq 0) bm → Forall (eq 0) (spare (bitmap (start mem bm c cfg))).
Proof. intros Hbm. apply (extendByteSlice_spare (mkSlice [] bm)); simpl; [done|lia]. Qed.

Lemma EVM_Run_post fuel mem bm c cfg h :
  contract_ok c → Inv h → D ≤ c_Depth c + 1 → EIP150 cfg = true →
  Forall (eq 0) mem → Forall (eq 0) bm → c_Gas c < Z.of_nat fuel →
  match EVM_Run fuel mem bm c cfg h with
  | Ret (r, (mem', bm'), h') =>
      0 ≤ GasLeft r ≤ c_Gas c ∧ GasUsed r = c_Gas c - GasLeft r ∧
      go_bytes (ReturnValue r) ∧ Forall (eq 0) mem' ∧ Forall (eq 0) bm' ∧ Inv h'
  | Panic => panicky (c_Code c)
  | NoFuel => False
  end.
Proof.
  intros Hc Hh Hd He Hm Hbm Hf. unfold EVM_Run.
  pose proof (start_between mem bm c cfg Hm Hbm Hc Hd He) as Hb.
  pose proof (Run_loop_ends fuel _ h Hb Hh (λ _, Hf)) as Hl.
  destruct (Run_loop fuel _ h) as [[s h']| |]; [|done..].
  destruct Hl as [[Hg Hmem Hbs Hret] Hh']. unfold releaseState, finish; simpl in *.
  assert (is_u64 (c_Gas c)) as Hu by (pose proof (ct_gas _ Hc) as []; unfold is_u64, M64; lia).
  assert (0 ≤ match err s with
              | None => gas s
              | Some e => if decide (e = ErrExecutionReverted) then gas s else 0
              end ≤ c_Gas c) as Hleft by (repeat case_match; unfold is_u64 in *; lia).
  split_and!; try done; try apply Hleft.
  - apply sub64_ge; [done| |]; unfold is_u64 in *; lia.
  - apply Forall_app. split; [apply zeros_0|done].
  - rewrite Hbs. apply Forall_app. split; [apply zeros_0|by apply (start_bitmap_spare mem bm c cfg)].
Qed.

(** C9.  Running a contract always ends: with more turns than gas, [EVM.Run]
    returns, the gas left is between 0 and the gas given and the gas used is
    the rest, and the buffers given back to the pool are clear.  It can only
    panic if the code has one of the seven bytes of [may_panic]. *)
Theorem EVM_Run_ends fuel mem bm c cfg h :
  contract_ok c → Inv h → D ≤ c_Depth c + 1 → EIP150 cfg = true →
  Forall (eq 0) mem → Forall (eq 0) bm → c_Gas c < Z.of_nat fuel →
  match EVM_Run fuel mem bm c cfg h with
  | Ret (r, (mem', bm'), h') =>
      0 ≤ GasLeft r ≤ c_Gas c ∧ GasUsed r = c_Gas c - GasLeft r ∧
      go_bytes (ReturnValue r) ∧ Forall (eq 0) mem' ∧ Forall (eq 0) bm' ∧ Inv h'
  | Panic => panicky (c_Code c)
  | NoFuel => False
  end.
Proof. apply EVM_Run_post. Qed.

(** Only [RETURNDATACOPY] and the instructions that run another contract
    can panic: any other instruction, on a well-formed machine deep enough in
    words, does not. *)
Theorem plain_instructions_never_panic op i c h :
  dispatchTable !! op = Some i → op ∉ may_panic →
  pre D (Z.to_nat (stack_ i)) c → Inv h → inst i c h ≠ Panic.
Proof.
  intros Hi Hop Hp Hh Hpanic. destruct (dispatch_safe op i Hi) as [Hs _].
  specialize (Hs c h Hp Hh). unfold wp in Hs. cbn [fst snd] in Hs.
  rewrite Hpanic in Hs. exact (Hop Hs).
Qed.
End meta.
