(* ===== verification/EvmSpec.v ===== *)
(** What the machine's memory and jumps mean, and concrete runs of it. *)
From S2P Require Import Prelude Types Runtime Crypto EvmState EvmInstr EvmRun EvmWord EvmMemory EvmLogic EvmSafe EvmMeta.

#[local] Opaque be_bytes.

Section spec.
Context `{External} `{GoRuntime} `{Host HS}.

(** ** Jumps *)

Lemma bitset_zeros buf j : Forall (eq 0) buf → ¬ bitset buf j.
Proof.
  intros Hb (b & Hl & Ht). eapply Forall_lookup_1 in Hl; [|done]. subst. by rewrite Z.bits_0 in Ht.
Qed.

(** A machine started on a contract accepts a jump exactly to the positions
    of its code that hold a [JUMPDEST] instruction: neither a byte pushed by a
    [PUSH] nor a position outside of the code, whatever the 256-bit target. *)
Theorem validJumpdest_exact mem bm c cfg (h : HS) dest :
  Forall (eq 0) bm → Z.of_nat (length (c_Code c)) ≤ 2 ^ 62 → word dest →
  ∃ b, validJumpdest dest (start mem bm c cfg) h = Ret (b, start mem bm c cfg, h) ∧
       (b = true ↔ jumpdest (c_Code c) (Z.to_nat dest)).
Proof.
  intros Hbm Hcode Hd. set (s := start mem bm c cfg).
  assert (length (c_Code c) / 8 < length (vis (bitmap s)))%nat as Hlen.
  { unfold s, start, setCode; simpl. rewrite setCode_loop_length.
    rewrite extendByteSlice_vis by (simpl; try done; lia). simpl. unfold zeros.
    rewrite length_replicate.
    replace (Z.of_nat (length (c_Code c)) / bitmapSize) with (Z.of_nat (length (c_Code c) / 8))
      by (by rewrite Nat2Z.inj_div).
    match goal with |- (_ < ?n)%nat => change (length (c_Code c) / 8 < n)%nat end. lia. }
  assert (∀ j, bitset (vis (bitmap s)) j ↔ jumpdest (c_Code c) j) as Hset.
  { intros j. unfold s, start, setCode; cbn [bitmap set_bitmap vis acquireState].
    unfold s, start, setCode in Hlen; cbn [bitmap set_bitmap vis acquireState] in Hlen.
    rewrite setCode_loop_length in Hlen. rewrite (setCode_loop_spec _ _ 0) by (try done; lia).
    unfold jumpdest. split; [|by right]. intros [Hz|]; [|done]. exfalso. revert Hz.
    apply bitset_zeros. rewrite extendByteSlice_vis by (simpl; try done; lia). apply zeros_0. }
  unfold validJumpdest, mbind_, gets; cbn [code]. change (code s) with (c_Code c).
  destruct ((BitLen dest >=? 63) || (Uint64 dest >=? Z.of_nat (length (c_Code c)))) eqn:E.
  - exists false. split; [done|]. split; [done|]. intros [_ Hj]. exfalso.
    apply lookup_lt_Some in Hj. destruct Hd as [Hd0 _].
    apply orb_true_iff in E as [E|E]; bool_props.
    + pose proof (BitLen_ltb 62 dest ltac:(done)) as Hb. rewrite Z.abs_eq in Hb by done.
      rewrite (proj2 (Z.ltb_lt 62 _)) in Hb by lia. symmetry in Hb. bool_props. lia.
    + rewrite Uint64_word in E by (unfold M64; lia). lia.
  - bool_props. assert (dest < 2 ^ 63).
    { pose proof (BitLen_ltb 63 dest ltac:(done)) as Hb. destruct Hd as [Hd0 _].
      rewrite (proj2 (Z.ltb_ge 63 _)), Z.abs_eq in Hb by (done || lia).
      symmetry in Hb. bool_props. done. }
    destruct Hd as [Hd0 _]. rewrite Uint64_word in * by (unfold M64; lia).
    destruct (bitmap_isSet_spec (vis (bitmap s)) (Z.to_nat dest)) as (r & Hr & Hrs).
    { apply Nat.le_lt_trans with (length (c_Code c) / 8)%nat; [|done].
      apply Nat.Div0.div_le_mono. lia. }
    rewrite Z2Nat.id in Hr by done. rewrite Hr. exists r. split; [done|]. by rewrite Hrs.
Qed.

(** ** Memory *)

Lemma allocateMemory_enough c (h : HS) o s :
  0 ≤ o ≤ 0xffffffffe0 → 0 < s ≤ 0xffffffffe0 → o + s ≤ Z.of_nat (length (vis (memory c))) →
  allocateMemory o s c h = Ret (true, c, h).
Proof.
  intros Ho Hs Hl. unfold allocateMemory, IsUint64.
  rewrite (proj2 (Z.leb_le 0 o)), (proj2 (Z.leb_le 0 s)) by lia.
  rewrite (proj2 (Z.ltb_lt o M64)), (proj2 (Z.ltb_lt s M64)) by (unfold M64; lia). simpl.
  rewrite (proj2 (Z.eqb_neq s 0)) by lia. rewrite !Uint64_word by (unfold M64; lia).
  rewrite !Z.gtb_ltb, (proj2 (Z.ltb_ge 0xffffffffe0 o)), (proj2 (Z.ltb_ge 0xffffffffe0 s)) by lia.
  destruct (access_words o s ltac:(lia) ltac:(lia)) as (-> & _ & _).
  unfold mbind_, Len, gets; simpl. by rewrite (proj2 (Z.ltb_ge _ _)) by lia.
Qed.

Lemma allocateMemory_limits P c (h : HS) o s :
  0 ≤ o → 0 < s →
  wp P (allocateMemory o s) (λ b c' h', h' = h ∧ stack c' = stack c ∧
    if b then stop c' = stop c ∧ o ≤ 0xffffffffe0 ∧ s ≤ 0xffffffffe0 else stop c' = true) c h.
Proof.
  intros Ho Hs. unfold allocateMemory, IsUint64.
  rewrite (proj2 (Z.leb_le 0 o)), (proj2 (Z.leb_le 0 s)) by lia.
  destruct (Z.ltb_spec o M64), (Z.ltb_spec s M64); simpl; try done.
  rewrite (proj2 (Z.eqb_neq s 0)) by lia. rewrite !Uint64_word by lia. rewrite !Z.gtb_ltb.
  destruct (Z.ltb_spec 0xffffffffe0 o), (Z.ltb_spec 0xffffffffe0 s); simpl; try done.
  apply wp_bind, wp_gets. case_match; [|by apply wp_ret].
  apply wp_bind, wp_gets, wp_bind, wp_modify, wp_bind, wp_bind, wp_modify, wp_bind, wp_gets.
  case_match; apply wp_bind, wp_modify, wp_ret; simpl; apply wp_bind, wp_modify, wp_ret; done.
Qed.

Lemma wp_and {A} P (m : M HS A) Q R c h :
  wp P m Q c h → wp P m R c h → wp P m (λ a c h, Q a c h ∧ R a c h) c h.
Proof. unfold wp. by destruct (m c h) as [[[a c'] h']| |]. Qed.

Lemma take_drop_middle3 {A} (l b : list A) o n :
  length b = n → (o + n ≤ length l)%nat → take n (drop o (take o l ++ b ++ drop (o + n) l)) = b.
Proof.
  intros Hb Hl. rewrite drop_app_length' by (rewrite length_take; lia).
  by rewrite take_app_length'.
Qed.

(** The memory after [MSTORE]. *)
Lemma opMStore_memory c (h : HS) o v s :
  mach c → stack c = o :: v :: s →
  wp False opMStore (λ _ c' h', h' = h ∧ stack c' = s ∧
    (stop c' = true ∨ stop c' = stop c ∧ o ≤ 0xffffffffe0 ∧
       o + 32 ≤ Z.of_nat (length (vis (memory c'))) ∧
       take 32 (drop (Z.to_nat o) (vis (memory c'))) = be_bytes 32 v)) c h.
Proof.
  intros Hm Hs. pose proof (m_stack _ Hm) as Hw. rewrite Hs in Hw.
  inversion Hw as [|? ? Ho Hw']; subst. inversion Hw' as [|? ? Hv Hw'']; subst.
  set (c2 := set_stack s c).
  assert (ok c2 0 (gas c2) 0 c2) as Hok by (apply (ok_weaken _ _ _ _ _ _ _ _ (ok_start c2
    ltac:(destruct Hm; by split))); lia).
  match goal with |- wp _ _ ?Q _ _ => assert (wp False
    (let! ok := allocateMemory o wordSize in
     if negb ok then ret_ tt
     else let! buf := mem_slice (Uint64 o) (add64 (Uint64 o) 32) in
          let! buf := deref (store32 v buf) in
          let! rest := mem_from (add64 (Uint64 o) 32) in
          mem_replace (Uint64 o) (buf ++ rest)) Q c2 h) as Hwp end.
  2:{ unfold wp in *. destruct c; simpl in Hs; subst. exact Hwp. }
  destruct Ho as [Ho0 HoW]. apply wp_bind.
  eapply wp_mono; [apply wp_and; [apply (allocateMemory_limits _ c2 h o wordSize); done|]|].
  { eapply (wp_allocateMemory _ _ _ _ _ _ _ _ _ (λ b c' h', b = true → ∃ m', ok c2 0 (gas c2) m' c'
      ∧ o + 32 ≤ m')); [exact Hok|done|done| |done].
    intros c' m' Hok' _ [?|?] _ _ _; [done|]. intros _. eauto. }
  intros [] c3 h3 [(-> & Hst & Hb) Hok3]; cbn [negb]; [|apply wp_ret; auto].
  destruct Hb as (Hstop & Hlim & _). destruct (Hok3 eq_refl) as (m' & Hk & Hle). clear Hok3.
  rewrite Uint64_word by (unfold M64; lia).
  assert (add64 o 32 = o + 32) as -> by (apply u64_small; unfold is_u64, M64; lia).
  apply wp_bind. eapply wp_mem_slice; [exact Hk|lia..|]. intros b Hb Hlb. apply wp_bind.
  rewrite store32_spec by (done || lia). apply wp_deref, wp_bind.
  pose proof (k_mem _ _ _ _ _ Hk) as Hmem.
  unfold wp, mem_from, mbind_, gets, ret_.
  rewrite (proj2 (Z.leb_le _ _)) by lia. unfold mem_replace, modify; simpl.
  split_and!; [done|done|]. right. replace (Z.to_nat (o + 32)) with (Z.to_nat o + 32)%nat by lia.
  split_and!; try done; [|apply take_drop_middle3; [apply length_be_bytes|lia]].
  rewrite !length_app, length_take, length_be_bytes, length_drop. lia.
Qed.

(** [MLOAD] after [MSTORE] at the same offset gives the word back, for no
    more memory gas: the memory is not changed and no gas is spent. *)
Theorem mstore_mload c (h : HS) o v s :
  mach c → stack c = o :: v :: s → stop c = false →
  match opMStore c h with
  | Ret (_, c1, h1) =>
      stop c1 = true ∨ opMload (set_stack (o :: stack c1) c1) h1 = Ret (tt, set_stack (v :: s) c1, h)
  | _ => False
  end.
Proof.
  intros Hm Hs Hns. pose proof (opMStore_memory c h o v s Hm Hs) as Hw. unfold wp in Hw.
  destruct (opMStore c h) as [[[[] c1] h1]| |]; [|done..].
  destruct Hw as (-> & Hst & [?|(_ & Ho & Hlen & Hb)]); [by left|]. right.
  pose proof (m_stack _ Hm) as Hw. rewrite Hs in Hw. inversion Hw as [|? ? [Ho0 _] Hw']; subst.
  inversion Hw' as [|? ? Hv _]; subst.
  unfold opMload, pop, get2, mbind_ at 1 2, pop_nil; simpl.
  unfold mbind_. rewrite allocateMemory_enough by (simpl; unfold wordSize; lia). simpl.
  rewrite !Uint64_word by (unfold wordSize, M64; lia).
  assert (add64 o wordSize = o + 32) as -> by (apply u64_small; unfold wordSize, is_u64, M64; lia).
  unfold mem_slice, mbind_, gets, sl_cap, ret_; simpl.
  rewrite (proj2 (Z.leb_le o (o + 32))), (proj2 (Z.leb_le (o + 32) _)) by lia. simpl.
  replace (Z.to_nat (o + 32 - o)) with 32%nat by lia.
  rewrite drop_app_le, take_app_le by (rewrite ?length_drop; lia). rewrite Hb.
  rewrite SetBytes_be_bytes, Z.mod_small by apply Hv. done.
Qed.
End spec.

(** ** The price of memory *)

(** Below 2^32 words (128 GiB) the price of memory is the quadratic one of
    the protocol and grows with the size; at 2^32 words the 64-bit square wraps
    and the price falls. *)
Theorem memoryCost_exact :
  (∀ w, 0 ≤ w < 2 ^ 32 → memoryCost w = 3 * w + w * w / 512) ∧
  memoryCost (2 ^ 32) < memoryCost (2 ^ 32 - 1).
Proof.
  split; [|by vm_compute]. intros w Hw. unfold memoryCost, add64, mul64.
  rewrite !(u64_small (w * w)), !(u64_small (3 * w)) by (unfold is_u64, M64; nia).
  apply u64_small. pose proof (Z.div_pos (w * w) 512 ltac:(nia) ltac:(lia)).
  pose proof (Z.div_le_upper_bound (w * w) 512 (2 ^ 55) ltac:(lia) ltac:(nia)).
  unfold is_u64, M64. lia.
Qed.

(** ** Concrete runs *)

Module ToyHost.
Definition rt : GoRuntime := {| append_spare _ _ := 0%nat |}.
Definition ext : External := {| MarshalTo _ := []; Keccak256 b := SetBytes b |}.
#[local] Existing Instances rt ext.

(** A host with rich empty accounts whose contracts return one byte. *)
Definition host : Host unit := {|
  h_AccountExists _ _ := true;
  h_GetStorage _ _ _ := 0;
  h_SetStorage _ _ _ _ h := (StorageAdded, h);
  h_GetBalance _ _ := 100;
  h_GetCodeSize _ h := (0, h);
  h_GetCodeHash _ _ := 0;
  h_GetCode _ h := ([], h);
  h_Selfdestruct _ _ h := h;
  h_GetTxContext _ := mkTxContext 1 2 3 4 5 6 7 8;
  h_GetBlockHash _ _ := 0;
  h_EmitLog _ _ _ h := h;
  h_Callx c h := Ret (mkResult [1] (c_Gas c) 0 None, h);
  h_Empty _ _ := false;
  h_GetNonce _ _ := 0;
|}.
#[local] Existing Instance host.

Lemma host_laws : HostLaws 0 (λ _ : unit, True).
Proof.
  split; intros; simpl; try done; try (split_and!; try done; apply go_bytes_nil).
  match goal with Hc : contract_ok _ |- _ => destruct Hc end. unfold gas_ok in *.
  split_and!; try lia; try done. by repeat constructor.
Qed.

Definition forks : ForksInTime := At AllForksEnabled 0.
Definition contract (cd : bytes) (gas : Z) : Contract := mkContract cd CallT 9 9 2 2 1 (Some 0) [] gas false.
Definition machine (s : list Z) : state :=
  set_stack s (start [] [] (contract [0x5B; 0x60; 0x5B] 1000) forks).

Lemma contract_is_ok cd gas : go_bytes cd → gas_ok gas → contract_ok (contract cd gas).
Proof. intros. split; simpl; try done. by intros ? [= <-]. Qed.

Lemma machine_mach s : Forall word s → mach (machine s).
Proof.
  intros Hs. assert (go_bytes [0x5B; 0x60; 0x5B]) by (split; [repeat constructor; done|done]).
  split; [done|exact Hs|constructor|constructor|done|done|by apply contract_is_ok| |apply go_bytes_nil
    |apply go_bytes_nil].
  apply Nat.ltb_lt. vm_compute. reflexivity.
Qed.

(** [2 + 3] stored in memory and returned. *)
Definition sum_code : bytes := [0x60; 2; 0x60; 3; 0x01; 0x60; 0; 0x52; 0x60; 32; 0x60; 0; 0xF3].

(** A contract can make the node panic: [RETURNDATACOPY] of zero bytes to an
    offset beyond the memory slices the memory out of range. *)
Theorem RETURNDATACOPY_panics :
  EVM_Run 10 [] [] (contract [0x60; 0; 0x60; 0; 0x60; 1; 0x3E] 1000) forks tt = Panic.
Proof. vm_compute. reflexivity. Qed.

(** So can a [STATICCALL] whose callee returns data into an empty range
    that lies beyond the memory. *)
Theorem STATICCALL_panics :
  EVM_Run 20 [] []
    (contract [0x60; 0; 0x60; 1; 0x60; 0; 0x60; 0; 0x60; 4; 0x5A; 0xFA] 100000) forks tt = Panic.
Proof. vm_compute. reflexivity. Qed.

(** [BYTE] takes the low 64 bits of its index: past 2^64 it returns a byte
    of the word where the instruction means 0. *)
Theorem opByte_wraps :
  opByte (machine [2 ^ 64 + 31; 0xAB]) tt = Ret (tt, machine [0xAB], tt).
Proof. vm_compute. reflexivity. Qed.

(** Before EIP-150 the price of a call wraps: a machine with 100 units of
    gas hands its callee almost 2^64. *)
Theorem call_price_wraps_before_EIP150 :
  let cfg := mkForksInTime true true true true true false true true in
  let c := set_stack [2 ^ 64 - 40; 4; 0; 0; 0; 0] (start [] [] (contract [] 100) cfg) in
  ∃ ct o s c', buildCallContract STATICCALL c tt = Ret (GoodContract ct o s, c', tt) ∧
               gas c' = 100 ∧ c_Gas ct = 2 ^ 64 - 40.
Proof. vm_compute. repeat eexists. Qed.
End ToyHost.

Module WitnessEvm.
Import ToyHost.
#[local] Existing Instances rt ext host host_laws.


Lemma shifts_correct_witness :
  opSar (machine [1; W - 8]) tt = Ret (tt, machine [W - 4], tt).
Proof. apply (shifts_correct (machine [1; W - 8]) tt 1 (W - 8) []); [done|done|reflexivity|reflexivity]. Defined.

Lemma opExp_correct_witness :
  opExp (machine [3; 5]) tt =
    Ret (tt, set_gas 950 (set_consumed 50 (machine [243])), tt).
Proof. apply (opExp_correct (machine [3; 5]) tt 3 5 []); [done|done|reflexivity]. Defined.

Lemma opSignExtension_correct_witness :
  opSignExtension (machine [0; 0xFF]) tt = Ret (tt, machine [W - 1], tt).
Proof. apply (opSignExtension_correct (machine [0; 0xFF]) tt 0 0xFF []); [done|done|reflexivity]. Defined.

Lemma opByte_correct_witness :
  opByte (machine [30; 0xABCD]) tt = Ret (tt, machine [0xAB], tt).
Proof. apply (opByte_correct (machine [30; 0xABCD]) tt 30 0xABCD []); [done|done|reflexivity]. Defined.

Lemma validJumpdest_exact_witness :
  ∃ b, validJumpdest 2 (machine []) tt = Ret (b, machine [], tt) ∧
       (b = true ↔ jumpdest [0x5B; 0x60; 0x5B] 2).
Proof.
  apply (validJumpdest_exact [] [] (contract [0x5B; 0x60; 0x5B] 1000) forks tt 2);
    [constructor|done|done].
Defined.

Lemma mstore_mload_witness :
  match opMStore (machine [64; 7]) tt with
  | Ret (_, c1, h1) =>
      stop c1 = true ∨
      opMload (set_stack (64 :: stack c1) c1) h1 = Ret (tt, set_stack [7] c1, tt)
  | _ => False
  end.
Proof.
  apply (mstore_mload (machine [64; 7]) tt 64 7 []); [|reflexivity|reflexivity].
  apply machine_mach. repeat constructor; done.
Defined.

Lemma EVM_Run_ends_witness :
  match EVM_Run 1001 [] [] (contract sum_code 1000) forks tt with
  | Ret (r, _, _) => GasUsed r = 1000 - GasLeft r ∧ SetBytes (ReturnValue r) = 5
  | _ => False
  end.
Proof.
  pose proof (EVM_Run_ends 0 (λ _, True) 1001 [] [] (contract sum_code 1000) forks tt) as Hr.
  assert (is_Some (match EVM_Run 1001 [] [] (contract sum_code 1000) forks tt with
    | Ret (r, b, _) => if SetBytes (ReturnValue r) =? 5 then Some tt else None
    | _ => None end)) as Hs by (vm_compute; by eexists).
  destruct (EVM_Run 1001 [] [] (contract sum_code 1000) forks tt) as [[[r [m b]] h]| |].
  2,3: by destruct Hs.
  destruct (Z.eqb_spec (SetBytes (ReturnValue r)) 5); [|by destruct Hs].
  split; [|done].
  apply Hr; [|exact I|done|reflexivity|constructor|constructor|done].
  apply contract_is_ok; [|done]. split; [repeat constructor; done|done].
Defined.

Lemma plain_instructions_never_panic_witness :
  opAdd (machine [1; 2]) tt ≠ Panic.
Proof.
  apply (plain_instructions_never_panic 0 (λ _, True) ADD (mkHandler opAdd 2 3) (machine [1; 2]) tt).
  - apply dispatch_iff. unfold registrations. do 1 apply list_elem_of_further. apply list_elem_of_here.
  - intros Hin. by repeat (apply elem_of_cons in Hin as [?|Hin]; [done|]); apply elem_of_nil in Hin.
  - split; [apply machine_mach; repeat constructor; done|done|simpl; lia|done|done].
  - done.
Defined.
End WitnessEvm.
