(* ===== verification/StateTxn.v ===== *)
(** Package [state]: the accounts a block is working on ([state.go], [txn.go]).

    A [Txn] overlays the committed state (a [readSnapshot]) with the objects
    changed so far.  They live in a go-immutable-radix tree, which is any finite
    map here: its 20-byte keys hold objects, and two 32-byte keys hold the logs
    and the refund, so the one tree is a map and two optional entries.  The
    objects are copied when they are read, so they are values.  The code cache
    is an LRU cache of another package, the class [LRU]. *)
From S2P Require Import Prelude Types Runtime Crypto.

(** golang-lru: what [Get] returns was [Add]ed under the same key. *)
Class LRU := {
  cache : Type → Type;
  lru_New {A} : cache A;
  lru_Get {A} : Z → cache A → option A * cache A;
  lru_Add {A} : Z → A → cache A → cache A;
}.

Definition lru_all `{LRU} {A} (P : Z → A → Prop) (c : cache A) : Prop :=
  ∀ a v, (lru_Get a c).1 = Some v → P a v.

Class LRULaws `{LRU} : Prop := {
  lru_all_New {A} (P : Z → A → Prop) : lru_all P lru_New;
  lru_all_Get {A} (P : Z → A → Prop) a c : lru_all P c → lru_all P (lru_Get a c).2;
  lru_all_Add {A} (P : Z → A → Prop) a v c : lru_all P c → P a v → lru_all P (lru_Add a v c);
}.

(** ** Accounts and objects *)

Record Account := mkAcc {
  acc_Nonce : Z;
  acc_Balance : Z;
  acc_Root : Hash;
  acc_CodeHash : Hash;
}.

(** [Account.Copy]: the balance goes through its bytes. *)
Definition acc_Copy (a : Account) : Account :=
  mkAcc (acc_Nonce a) (Z.abs (acc_Balance a)) (acc_Root a) (acc_CodeHash a).

Record Log := mkLog {
  log_Address : Address;
  log_Topics : list Hash;
  log_Data : bytes;
}.

Definition emptyStateHash : Hash :=
  0x56e81f171bcc55a6ff8345e692c0f86e5b48e01b996cadc001622fb5e363b421.

Section txn.
Context `{External} `{LRU} `{FinMap Z RT}.

(** The object's storage changes: [None] deletes the slot. *)
Record StateObject := mkObj {
  o_Account : Account;
  o_Code : bytes;
  o_Suicide : bool;
  o_Deleted : bool;
  o_DirtyCode : bool;
  o_Txn : option (RT (option Hash));
}.

Definition emptyCodeHash : Hash := Keccak256 [].

Definition obj_Empty (s : StateObject) : bool :=
  (acc_Nonce (o_Account s) =? 0) && (Z.sgn (acc_Balance (o_Account s)) =? 0) &&
  (acc_CodeHash (o_Account s) =? emptyCodeHash).

Definition obj_Copy (s : StateObject) : StateObject :=
  mkObj (acc_Copy (o_Account s)) (o_Code s) (o_Suicide s) (o_Deleted s) (o_DirtyCode s) (o_Txn s).

Definition set_acc (a : Account) (s : StateObject) : StateObject :=
  mkObj a (o_Code s) (o_Suicide s) (o_Deleted s) (o_DirtyCode s) (o_Txn s).
Definition set_Balance (b : Z) (s : StateObject) : StateObject :=
  set_acc (mkAcc (acc_Nonce (o_Account s)) b (acc_Root (o_Account s)) (acc_CodeHash (o_Account s))) s.
Definition set_Nonce (n : Z) (s : StateObject) : StateObject :=
  set_acc (mkAcc n (acc_Balance (o_Account s)) (acc_Root (o_Account s)) (acc_CodeHash (o_Account s))) s.

(** The interface [readSnapshot]: the accounts committed at a state root, the
    storage under a storage root, the code under its hash. *)
Record readSnapshot := mkSnapshot {
  snap_accounts : RT Account;
  snap_GetStorage : Address → Hash → Hash → Hash;
  snap_GetCode : Hash → option bytes;
}.

(** The radix tree. *)
Record radix := mkRadix {
  objs : RT StateObject;
  logs : option (list Log);
  refund : option Z;
}.

Record Txn := mkTxn {
  snapshot : readSnapshot;
  snapshots : list radix;
  txn : radix;
  codeCache : cache bytes;
}.

Definition newTxn (snap : readSnapshot) : Txn := mkTxn snap [] (mkRadix ∅ None None) lru_New.

Definition set_txn (r : radix) (t : Txn) : Txn := mkTxn (snapshot t) (snapshots t) r (codeCache t).
Definition set_objs (m : RT StateObject) (t : Txn) : Txn :=
  set_txn (mkRadix m (logs (txn t)) (refund (txn t))) t.
Definition set_logs (l : option (list Log)) (t : Txn) : Txn :=
  set_txn (mkRadix (objs (txn t)) l (refund (txn t))) t.
Definition set_refund (r : option Z) (t : Txn) : Txn :=
  set_txn (mkRadix (objs (txn t)) (logs (txn t)) r) t.

(** ** Snapshots *)

Definition Snapshot (t : Txn) : nat * Txn :=
  (length (snapshots t), mkTxn (snapshot t) (snapshots t ++ [txn t]) (txn t) (codeCache t)).

(** [None]: the panics on an unknown snapshot. *)
Definition RevertToSnapshot (id : nat) (t : Txn) : option Txn :=
  tree ← snapshots t !! id; Some (set_txn tree t).

(** ** Objects *)

Definition getStateObject (addr : Address) (t : Txn) : option StateObject :=
  match objs (txn t) !! addr with
  | Some obj => if o_Deleted obj then None else Some (obj_Copy obj)
  | None =>
      match snap_accounts (snapshot t) !! addr with
      | None => None
      | Some account => Some (mkObj (acc_Copy account) [] false false false None)
      end
  end.

Definition newStateObject : StateObject :=
  mkObj (mkAcc 0 0 emptyStateHash emptyCodeHash) [] false false false None.

(** [upsertAccount(addr, true, f)]. *)
Definition upsertAccount (addr : Address) (f : StateObject → StateObject) (t : Txn) : Txn :=
  let object := default newStateObject (getStateObject addr t) in
  set_objs (<[addr := f object]> (objs (txn t))) t.

Definition AddSealingReward (addr : Address) (balance : Z) : Txn → Txn :=
  upsertAccount addr (λ object,
    if o_Suicide object then set_Balance (Z.abs balance) newStateObject
    else set_Balance (acc_Balance (o_Account object) + balance) object).

Definition AddBalance (addr : Address) (balance : Z) : Txn → Txn :=
  upsertAccount addr (λ object, set_Balance (acc_Balance (o_Account object) + balance) object).

Definition GetBalance (addr : Address) (t : Txn) : Z :=
  match getStateObject addr t with
  | None => 0
  | Some object => acc_Balance (o_Account object)
  end.

Definition SubBalance (addr : Address) (amount : Z) (t : Txn) : result vmError Txn :=
  if Z.sgn amount =? 0 then Ok t
  else if GetBalance addr t <? amount then Err ErrNotEnoughFunds
  else Ok (upsertAccount addr
             (λ object, set_Balance (acc_Balance (o_Account object) - amount) object) t).

Definition SetBalance (addr : Address) (balance : Z) : Txn → Txn :=
  upsertAccount addr (set_Balance (Z.abs balance)).

Definition EmitLog (addr : Address) (topics : list Hash) (data : bytes) (t : Txn) : Txn :=
  set_logs (Some (default [] (logs (txn t)) ++ [mkLog addr topics data])) t.

Definition AddLog (log : Log) (t : Txn) : Txn :=
  set_logs (Some (default [] (logs (txn t)) ++ [log])) t.

Definition Logs (t : Txn) : option (list Log) * Txn :=
  match logs (txn t) with
  | None => (None, t)
  | Some l => (Some l, set_logs None t)
  end.

(** ** Refunds *)

Definition GetRefund (t : Txn) : Z := default 0 (refund (txn t)).
Definition AddRefund (gas : Z) (t : Txn) : Txn := set_refund (Some (add64 (GetRefund t) gas)) t.
Definition SubRefund (gas : Z) (t : Txn) : Txn := set_refund (Some (sub64 (GetRefund t) gas)) t.

(** ** Storage *)

Definition GetState (addr : Address) (key : Hash) (t : Txn) : Hash :=
  match getStateObject addr t with
  | None => ZeroHash
  | Some object =>
      match m ← o_Txn object; m !! key with
      | Some val => default ZeroHash val
      | None => snap_GetStorage (snapshot t) addr (acc_Root (o_Account object)) key
      end
  end.

Definition GetCommittedState (addr : Address) (key : Hash) (t : Txn) : Hash :=
  match getStateObject addr t with
  | None => ZeroHash
  | Some obj => snap_GetStorage (snapshot t) addr (acc_Root (o_Account obj)) key
  end.

Definition SetState (addr : Address) (key value : Hash) : Txn → Txn :=
  upsertAccount addr (λ object,
    mkObj (o_Account object) (o_Code object) (o_Suicide object) (o_Deleted object)
      (o_DirtyCode object)
      (Some (<[key := if value =? ZeroHash then None else Some value]>
               (default ∅ (o_Txn object))))).

Definition SetStorage (addr : Address) (key value : Hash) (config : ForksInTime) (t : Txn)
    : StorageStatus * Txn :=
  let oldValue := GetState addr key t in
  if oldValue =? value then (StorageUnchanged, t)
  else
    let current := oldValue in
    let original := GetCommittedState addr key t in
    let t := SetState addr key value t in
    let legacyGasMetering :=
      negb (Istanbul config) && (Petersburg config || negb (Constantinople config)) in
    if legacyGasMetering then
      if oldValue =? ZeroHash then (StorageAdded, t)
      else if value =? ZeroHash then (StorageDeleted, AddRefund 15000 t)
      else (StorageModified, t)
    else if original =? current then
      if original =? ZeroHash then (StorageAdded, t)
      else if value =? ZeroHash then (StorageDeleted, AddRefund 15000 t)
      else (StorageModified, t)
    else
      let t := if negb (original =? ZeroHash) then
                 if current =? ZeroHash then SubRefund 15000 t
                 else if value =? ZeroHash then AddRefund 15000 t else t
               else t in
      let t := if original =? value then
                 if original =? ZeroHash
                 then AddRefund (if Istanbul config then 19200 else 19800) t
                 else AddRefund (if Istanbul config then 4200 else 4800) t
               else t in
      (StorageModifiedAgain, t).

(** ** Nonces and code *)

Definition IncrNonce (addr : Address) : Txn → Txn :=
  upsertAccount addr (λ object, set_Nonce (add64 (acc_Nonce (o_Account object)) 1) object).
Definition SetNonce (addr : Address) (nonce : Z) : Txn → Txn :=
  upsertAccount addr (set_Nonce nonce).
Definition GetNonce (addr : Address) (t : Txn) : Z :=
  match getStateObject addr t with
  | None => 0
  | Some object => acc_Nonce (o_Account object)
  end.

Definition SetCode (addr : Address) (code : bytes) : Txn → Txn :=
  upsertAccount addr (λ object,
    mkObj (mkAcc (acc_Nonce (o_Account object)) (acc_Balance (o_Account object))
             (acc_Root (o_Account object)) (Keccak256 code))
      code (o_Suicide object) (o_Deleted object) true (o_Txn object)).

Definition set_codeCache (c : cache bytes) (t : Txn) : Txn :=
  mkTxn (snapshot t) (snapshots t) (txn t) c.

Definition GetCode (addr : Address) (t : Txn) : bytes * Txn :=
  match getStateObject addr t with
  | None => ([], t)
  | Some object =>
      if o_DirtyCode object then (o_Code object, t)
      else
        match lru_Get addr (codeCache t) with
        | (Some v, c) => (v, set_codeCache c t)
        | (None, c) =>
            let code := default [] (snap_GetCode (snapshot t) (acc_CodeHash (o_Account object))) in
            (code, set_codeCache (lru_Add addr code c) t)
        end
  end.

Definition GetCodeSize (addr : Address) (t : Txn) : Z * Txn :=
  let '(code, t) := GetCode addr t in (Z.of_nat (length code), t).

Definition GetCodeHash (addr : Address) (t : Txn) : Hash :=
  match getStateObject addr t with
  | None => ZeroHash
  | Some object => acc_CodeHash (o_Account object)
  end.

(** ** Life and death of accounts *)

(** [Suicide]; its result is not used. *)
Definition Suicide (addr : Address) (t : Txn) : Txn :=
  match getStateObject addr t with
  | None => t
  | Some object =>
      let object := mkObj (o_Account object) (o_Code object) true (o_Deleted object)
                      (o_DirtyCode object) (o_Txn object) in
      set_objs (<[addr := set_Balance 0 object]> (objs (txn t))) t
  end.

Definition HasSuicided (addr : Address) (t : Txn) : bool :=
  match getStateObject addr t with
  | None => false
  | Some object => o_Suicide object
  end.

Definition TouchAccount (addr : Address) : Txn → Txn := upsertAccount addr id.

Definition Exist (addr : Address) (t : Txn) : bool :=
  match getStateObject addr t with None => false | Some _ => true end.

Definition Empty (addr : Address) (t : Txn) : bool :=
  match getStateObject addr t with None => true | Some obj => obj_Empty obj end.

Definition CreateAccount (addr : Address) (t : Txn) : Txn :=
  let obj := match getStateObject addr t with
             | Some prev => set_Balance (Z.abs (acc_Balance (o_Account prev))) newStateObject
             | None => newStateObject
             end in
  set_objs (<[addr := obj]> (objs (txn t))) t.

(** The suicided and, on request, the empty objects are marked deleted. *)
Definition mark_deleted (deleteEmptyObjects : bool) (a : StateObject) : StateObject :=
  if o_Suicide a || obj_Empty a && deleteEmptyObjects then
    let obj2 := obj_Copy a in
    mkObj (o_Account obj2) (o_Code obj2) (o_Suicide obj2) true (o_DirtyCode obj2) (o_Txn obj2)
  else a.

Definition CleanDeleteObjects (deleteEmptyObjects : bool) (t : Txn) : Txn :=
  set_refund None (set_objs (mark_deleted deleteEmptyObjects <$> objs (txn t)) t).

(** ** Committing *)

(** An [Object]: the object's address is its key; the storage is the list of
    its changed slots, in no particular order. *)
Record Object := mkObject {
  ob_Account : Account;
  ob_Deleted : bool;
  ob_DirtyCode : bool;
  ob_Code : bytes;
  ob_Storage : list (Hash * option Hash);
}.

Definition commit_object (a : StateObject) : Object :=
  mkObject (o_Account a) (o_Deleted a) (o_DirtyCode a) (o_Code a)
    (if o_Deleted a then []
     else match o_Txn a with Some m => map_to_list m | None => [] end).

Definition Commit (deleteEmptyObjects : bool) (t : Txn) : RT Object * Txn :=
  let t := CleanDeleteObjects deleteEmptyObjects t in
  (commit_object <$> objs (txn t), t).
End txn.
