(* ===== verification/StateTxnSpec.v ===== *)
(** The accounts of a block: what each operation of [StateTxn] does to the
    objects, to the balances, and to the open snapshots. *)
From S2P Require Import Prelude Types Runtime Crypto EvmState EvmWord EvmLogic StateTxn.

Section spec.
Context `{External} `{LRU} `{FinMap Z RT}.
Implicit Types (t : Txn (RT:=RT)) (r : radix (RT:=RT)) (s : readSnapshot (RT:=RT)) (o : StateObject (RT:=RT)).

(** ** Objects *)

(** [set_object]: what every change of an account comes down to. *)
Definition set_object (a : Address) o t : Txn := set_objs (<[a := o]> (objs (txn t))) t.

Lemma upsertAccount_set a f t :
  upsertAccount a f t = set_object a (f (default newStateObject (getStateObject a t))) t.
Proof. done. Qed.

Lemma getStateObject_set_eq a o t :
  o_Deleted o = false → getStateObject a (set_object a o t) = Some (obj_Copy o).
Proof. intros Ho. unfold getStateObject; simpl. by rewrite lookup_insert_eq, Ho. Qed.

Lemma getStateObject_set_ne a b o t :
  a ≠ b → getStateObject b (set_object a o t) = getStateObject b t.
Proof. intros Hab. unfold getStateObject; simpl. by rewrite lookup_insert_ne by done. Qed.

(** An object read from the state is not deleted and its balance is not
    negative. *)
Lemma getStateObject_ok a t o :
  getStateObject a t = Some o → o_Deleted o = false ∧ 0 ≤ acc_Balance (o_Account o).
Proof. unfold getStateObject. intros. repeat case_match; simplify_eq/=; split; try done; lia. Qed.

Lemma current_ok a t :
  o_Deleted (default newStateObject (getStateObject a t)) = false ∧
  acc_Balance (o_Account (default newStateObject (getStateObject a t))) = GetBalance a t ∧
  acc_Nonce (o_Account (default newStateObject (getStateObject a t))) = GetNonce a t.
Proof.
  unfold GetBalance, GetNonce. destruct (getStateObject a t) as [o|] eqn:E; [|done].
  by destruct (getStateObject_ok a t o E).
Qed.

Lemma GetBalance_nonneg a t : 0 ≤ GetBalance a t.
Proof.
  unfold GetBalance. destruct (getStateObject a t) as [o|] eqn:E; [|done].
  by apply (getStateObject_ok a t).
Qed.

(** ** Balances *)

(** The balances of a tree over the committed accounts. *)
Definition balance_of (o : option (StateObject (RT:=RT))) (a : option Account) : option Z :=
  match o with
  | Some o => if o_Deleted o then None else Some (Z.abs (acc_Balance (o_Account o)))
  | None => (λ a, Z.abs (acc_Balance a)) <$> a
  end.
Definition balances s r : RT Z := merge balance_of (objs r) (snap_accounts s).

(** All the money. *)
Definition total s r : Z := mapsum id (balances s r).

Lemma lookup_balances s r a : balances s r !! a = balance_of (objs r !! a) (snap_accounts s !! a).
Proof. unfold balances. rewrite lookup_merge. by destruct (objs r !! a), (snap_accounts s !! a). Qed.

Lemma GetBalance_balances a t : GetBalance a t = default 0 (balances (snapshot t) (txn t) !! a).
Proof.
  rewrite lookup_balances. unfold GetBalance, getStateObject, balance_of.
  destruct (objs (txn t) !! a) as [o|]; [by destruct (o_Deleted o)|].
  by destruct (snap_accounts (snapshot t) !! a).
Qed.

Lemma balances_nonneg s r a z : balances s r !! a = Some z → 0 ≤ z.
Proof.
  rewrite lookup_balances. unfold balance_of. intros. repeat case_match; simplify_eq/=; try lia.
  destruct (snap_accounts s !! a); simplify_eq/=. lia.
Qed.

Lemma mapsum_nonneg (m : RT Z) : (∀ a z, m !! a = Some z → 0 ≤ z) → 0 ≤ mapsum id m.
Proof.
  intros Hm. apply sumZ_nonneg. intros [a z] Hin. apply elem_of_map_to_list in Hin. by apply (Hm a).
Qed.

Lemma mapsum_insert (m : RT Z) a z : mapsum id (<[a := z]> m) = mapsum id m - default 0 (m !! a) + z.
Proof.
  destruct (m !! a) as [v|] eqn:E.
  - by rewrite (mapsum_insert_Some id m a v z E).
  - rewrite (mapsum_insert_None id m a z E). simpl. lia.
Qed.

Lemma total_nonneg s r : 0 ≤ total s r.
Proof. apply mapsum_nonneg. apply balances_nonneg. Qed.

(** No balance exceeds the total. *)
Lemma GetBalance_le_total a t : GetBalance a t ≤ total (snapshot t) (txn t).
Proof.
  rewrite GetBalance_balances. unfold total. set (m := balances _ _).
  destruct (m !! a) as [v|] eqn:E; [|apply total_nonneg].
  rewrite (mapsum_delete id m a v E). simpl.
  enough (0 ≤ mapsum id (delete a m)) by (unfold id in *; lia).
  apply mapsum_nonneg. intros b z Hb. apply lookup_delete_Some in Hb as [_ Hb].
  by apply (balances_nonneg _ _ _ _ Hb).
Qed.

Lemma total_set_object a o t :
  o_Deleted o = false →
  total (snapshot t) (txn (set_object a o t)) =
  total (snapshot t) (txn t) - GetBalance a t + Z.abs (acc_Balance (o_Account o)).
Proof.
  intros Ho. rewrite GetBalance_balances. unfold total.
  rewrite <- mapsum_insert. f_equal. apply map_eq. intros b.
  rewrite lookup_balances. simpl. destruct (decide (b = a)) as [->|Hne].
  - rewrite !lookup_insert_eq. simpl. by rewrite Ho.
  - rewrite !lookup_insert_ne by done. by rewrite lookup_balances.
Qed.

(** ** The money after each operation *)

Definition tot t : Z := total (snapshot t) (txn t).

Lemma tot_upsert a f t :
  o_Deleted (f (default newStateObject (getStateObject a t))) = false →
  tot (upsertAccount a f t) =
  tot t - GetBalance a t +
  Z.abs (acc_Balance (o_Account (f (default newStateObject (getStateObject a t))))).
Proof. intros Hd. exact (total_set_object a _ t Hd). Qed.

(** A change of an account that keeps its balance. *)
Definition keeps_balance (f : StateObject (RT:=RT) → StateObject (RT:=RT)) : Prop :=
  ∀ o, o_Deleted (f o) = o_Deleted o ∧ acc_Balance (o_Account (f o)) = acc_Balance (o_Account o).

Lemma tot_upsert_keep a f t : keeps_balance f → tot (upsertAccount a f t) = tot t.
Proof.
  intros Hf. destruct (current_ok a t) as (Hd & Hb & _). set (o := default _ _) in *.
  destruct (Hf o) as [Hfd Hfb]. rewrite tot_upsert by (fold o; by rewrite Hfd).
  fold o. rewrite Hfb, Hb. pose proof (GetBalance_nonneg a t). lia.
Qed.

Lemma tot_AddBalance a x t : 0 ≤ x → tot (AddBalance a x t) = tot t + x.
Proof.
  intros Hx. unfold AddBalance. destruct (current_ok a t) as (Hd & Hb & _).
  rewrite tot_upsert by done. simpl. rewrite Hb. pose proof (GetBalance_nonneg a t). lia.
Qed.

Lemma SubBalance_Ok a x t t' :
  0 ≤ x → SubBalance a x t = Ok t' →
  x ≤ GetBalance a t ∧
  (t' = t ∧ x = 0 ∨
   t' = upsertAccount a (λ o, set_Balance (acc_Balance (o_Account o) - x) o) t ∧ 0 < x).
Proof.
  intros Hx. unfold SubBalance. rewrite sgn_eqb_0. pose proof (GetBalance_nonneg a t).
  destruct (Z.eqb_spec x 0); [intros; simplify_eq; auto|].
  destruct (Z.ltb_spec (GetBalance a t) x); intros; simplify_eq. split; [lia|right; split; [done|lia]].
Qed.

Lemma tot_SubBalance a x t t' : 0 ≤ x → SubBalance a x t = Ok t' → tot t' = tot t - x.
Proof.
  intros Hx Hs. apply SubBalance_Ok in Hs as [Hle [[-> ->]|[-> ?]]]; [lia| |done].
  destruct (current_ok a t) as (Hd & Hb & _). rewrite tot_upsert by done. simpl. rewrite Hb. lia.
Qed.

Lemma tot_CreateAccount a t : tot (CreateAccount a t) = tot t.
Proof.
  unfold CreateAccount. match goal with |- tot (set_objs (<[_:=?o]> _) _) = _ => set (ob := o) end.
  assert (o_Deleted ob = false) as Hd by (unfold ob; by case_match).
  change (tot (set_object a ob t) = tot t). unfold tot at 1.
  rewrite (total_set_object a ob t Hd : total (snapshot (set_object a ob t)) _ = _).
  unfold GetBalance, ob, tot. destruct (getStateObject a t) as [o|] eqn:E; simpl; [|lia].
  destruct (getStateObject_ok a t o E). lia.
Qed.

Lemma tot_Suicide a t : tot (Suicide a t) = tot t - GetBalance a t.
Proof.
  unfold Suicide, GetBalance. destruct (getStateObject a t) as [o|] eqn:E; [|lia].
  destruct (getStateObject_ok a t o E) as [Hd _].
  match goal with |- tot (set_objs (<[_:=?ob]> _) _) = _ =>
    pose proof (total_set_object a ob t Hd) as Ht end.
  unfold GetBalance in Ht. rewrite E in Ht. simpl in Ht. unfold tot. simpl. etransitivity; [exact Ht|]. lia.
Qed.

Lemma mapsum_subseteq (m1 m2 : RT Z) :
  m1 ⊆ m2 → (∀ a z, m2 !! a = Some z → 0 ≤ z) → mapsum id m1 ≤ mapsum id m2.
Proof.
  intros Hsub Hpos. unfold mapsum.
  destruct (submseteq_Permutation _ _ (map_to_list_submseteq _ _ Hsub)) as [k Hk].
  rewrite (sumZ_Permutation _ _ _ Hk), sumZ_app.
  enough (0 ≤ sumZ (λ kv : Z * Z, id kv.2) k) by lia.
  apply sumZ_nonneg. intros [a z] Hin. apply (Hpos a). apply elem_of_map_to_list.
  rewrite Hk. apply elem_of_app. by right.
Qed.

(** The suicided accounts take their balances away. *)
Lemma tot_CleanDeleteObjects d t : tot (CleanDeleteObjects d t) ≤ tot t.
Proof.
  apply mapsum_subseteq; [|apply balances_nonneg].
  apply map_subseteq_spec. intros a z. rewrite !lookup_balances. simpl. rewrite lookup_fmap.
  destruct (objs (txn t) !! a) as [o|]; simpl; [|done].
  unfold mark_deleted. destruct (o_Suicide o || obj_Empty o && d); simpl; [done|done].
Qed.

Lemma tot_SetState a k v t : tot (SetState a k v t) = tot t.
Proof. by apply tot_upsert_keep. Qed.
Lemma tot_IncrNonce a t : tot (IncrNonce a t) = tot t.
Proof. by apply tot_upsert_keep. Qed.
Lemma tot_SetCode a c t : tot (SetCode a c t) = tot t.
Proof. by apply tot_upsert_keep. Qed.
Lemma tot_TouchAccount a t : tot (TouchAccount a t) = tot t.
Proof. by apply tot_upsert_keep. Qed.

Lemma SetStorage_tree a k v cfg t :
  objs (txn (SetStorage a k v cfg t).2) = objs (txn (SetState a k v t)) ∨
  objs (txn (SetStorage a k v cfg t).2) = objs (txn t).
Proof.
  unfold SetStorage. destruct (_ =? v); [by right|left]. by repeat case_match.
Qed.

(** ** Reading what was written *)

Lemma GetState_SetState_eq a k v t : GetState a k (SetState a k v t) = v.
Proof.
  unfold SetState. rewrite upsertAccount_set. unfold GetState.
  rewrite getStateObject_set_eq by apply current_ok. simpl. rewrite lookup_insert_eq.
  destruct (Z.eqb_spec v ZeroHash); [by subst|done].
Qed.

Lemma GetState_SetState_ne_key a k k' v t :
  k ≠ k' → Exist a t = true → GetState a k' (SetState a k v t) = GetState a k' t.
Proof.
  intros Hk He. unfold SetState. rewrite upsertAccount_set. unfold GetState.
  rewrite getStateObject_set_eq by apply current_ok. unfold Exist in He.
  destruct (getStateObject a t) as [o|]; [|done]. simpl. rewrite lookup_insert_ne by done.
  destruct (o_Txn o); simpl; [done|]. by rewrite lookup_empty.
Qed.

(** Reading a slot after writing it gives the value written, zero included;
    the other slots of the contract, and those of the other accounts, keep
    theirs. *)
Theorem storage_read_write a k v a' k' t :
  Exist a t = true →
  GetState a' k' (SetState a k v t) =
  if bool_decide (a' = a ∧ k' = k) then v else GetState a' k' t.
Proof.
  intros He. case_bool_decide as Hd; [destruct Hd; subst; apply GetState_SetState_eq|].
  destruct (decide (a' = a)) as [->|Ha].
  - apply GetState_SetState_ne_key; [naive_solver|done].
  - unfold SetState, GetState. rewrite upsertAccount_set.
    by rewrite getStateObject_set_ne by done.
Qed.

(** The status of a write of storage is right: it is [StorageUnchanged]
    exactly for the value the slot has, and afterwards the slot has the value
    written. *)
Theorem SetStorage_writes a k v cfg t :
  GetState a k (SetStorage a k v cfg t).2 = v ∧
  ((SetStorage a k v cfg t).1 = StorageUnchanged ↔ GetState a k t = v).
Proof.
  unfold SetStorage. destruct (Z.eqb_spec (GetState a k t) v) as [Heq|Hne]; [done|].
  pose proof (GetState_SetState_eq a k v t) as Hv.
  split; [|split; [|done]]; repeat case_match; try done; exact Hv.
Qed.

Lemma GetBalance_upsert a b f t :
  o_Deleted (f (default newStateObject (getStateObject a t))) = false →
  GetBalance b (upsertAccount a f t) =
  if decide (b = a) then Z.abs (acc_Balance (o_Account (f (default newStateObject (getStateObject a t)))))
  else GetBalance b t.
Proof.
  intros Hd. rewrite upsertAccount_set. unfold GetBalance at 1.
  destruct (decide (b = a)) as [->|Hne]; [by rewrite getStateObject_set_eq|].
  by rewrite getStateObject_set_ne by done.
Qed.

Lemma GetBalance_AddBalance a b x t :
  0 ≤ x → GetBalance b (AddBalance a x t) = GetBalance b t + (if decide (b = a) then x else 0).
Proof.
  intros Hx. destruct (current_ok a t) as (Hd & Hb & _). unfold AddBalance.
  rewrite GetBalance_upsert by done. case_decide; subst; [|lia]. simpl. rewrite Hb.
  pose proof (GetBalance_nonneg a t). lia.
Qed.

Lemma GetBalance_SubBalance a b x t t' :
  0 ≤ x → SubBalance a x t = Ok t' →
  GetBalance b t' = GetBalance b t - (if decide (b = a) then x else 0).
Proof.
  intros Hx Hs. apply SubBalance_Ok in Hs as [Hle [[-> ->]|[-> ?]]]; [case_decide; lia| |done].
  destruct (current_ok a t) as (Hd & Hb & _). rewrite GetBalance_upsert by done.
  case_decide; subst; [|lia]. simpl. rewrite Hb. lia.
Qed.

(** ** Snapshots *)

(** Every way the executor and the machine change a [Txn]. *)
Inductive txn_step : Txn (RT:=RT) → Txn (RT:=RT) → Prop :=
| step_AddSealingReward a x t : txn_step t (AddSealingReward a x t)
| step_AddBalance a x t : txn_step t (AddBalance a x t)
| step_SubBalance a x t t' : SubBalance a x t = Ok t' → txn_step t t'
| step_SetBalance a x t : txn_step t (SetBalance a x t)
| step_EmitLog a ts d t : txn_step t (EmitLog a ts d t)
| step_AddLog l t : txn_step t (AddLog l t)
| step_Logs t : txn_step t (Logs t).2
| step_AddRefund g t : txn_step t (AddRefund g t)
| step_SubRefund g t : txn_step t (SubRefund g t)
| step_SetState a k v t : txn_step t (SetState a k v t)
| step_SetStorage a k v cfg t : txn_step t (SetStorage a k v cfg t).2
| step_IncrNonce a t : txn_step t (IncrNonce a t)
| step_SetNonce a n t : txn_step t (SetNonce a n t)
| step_SetCode a c t : txn_step t (SetCode a c t)
| step_GetCode a t : txn_step t (GetCode a t).2
| step_Suicide a t : txn_step t (Suicide a t)
| step_TouchAccount a t : txn_step t (TouchAccount a t)
| step_CreateAccount a t : txn_step t (CreateAccount a t)
| step_CleanDeleteObjects d t : txn_step t (CleanDeleteObjects d t)
| step_Snapshot t : txn_step t (Snapshot t).2
| step_RevertToSnapshot id t t' : RevertToSnapshot id t = Some t' → txn_step t t'.

Lemma SetStorage_snapshots a k v cfg t :
  snapshot (SetStorage a k v cfg t).2 = snapshot t ∧
  snapshots (SetStorage a k v cfg t).2 = snapshots t ∧
  codeCache (SetStorage a k v cfg t).2 = codeCache t.
Proof. unfold SetStorage. by repeat case_match. Qed.

Lemma GetCode_tree a t :
  snapshot (GetCode a t).2 = snapshot t ∧ snapshots (GetCode a t).2 = snapshots t ∧
  txn (GetCode a t).2 = txn t.
Proof. unfold GetCode. by repeat case_match. Qed.

Lemma step_keeps_snapshots t t' :
  txn_step t t' → snapshot t' = snapshot t ∧ snapshots t `prefix_of` snapshots t'.
Proof.
  destruct 1 as [| |a x t t' Hs| | | | | | | | a k v cfg t| | | |a t|a t| | | | |id t t' Hr];
    try done.
  - unfold SubBalance in Hs. by repeat case_match; simplify_eq.
  - unfold Logs. by case_match.
  - destruct (SetStorage_snapshots a k v cfg t) as (-> & -> & _). done.
  - destruct (GetCode_tree a t) as (-> & -> & _). done.
  - unfold Suicide. by case_match.
  - split; [done|]. simpl. by exists [txn t].
  - unfold RevertToSnapshot in Hr. by destruct (snapshots t !! id); simplify_eq/=.
Qed.

Lemma steps_keep_snapshots t t' :
  rtc txn_step t t' → snapshot t' = snapshot t ∧ snapshots t `prefix_of` snapshots t'.
Proof.
  induction 1 as [|t1 t2 t3 Hs _ [IH1 IH2]]; [done|].
  destruct (step_keeps_snapshots _ _ Hs). split; [congruence|by etransitivity].
Qed.

End spec.
