(* ===== verification/Bloom.v ===== *)
(** [types/receipt.go]: receipts and their bloom filter. *)
From S2P Require Import Prelude Types Runtime StateTxn.

(** [ReceiptStatus], a [uint64]. *)
Definition ReceiptFailed : Z := 0.
Definition ReceiptSuccess : Z := 1.

(** [types.Receipt]. *)
Record Receipt := mkReceipt {
  rc_Root : Hash;
  rc_CumulativeGasUsed : Z;
  rc_LogsBloom : bytes;
  rc_Logs : list Log;
  rc_Status : option Z;
  rc_GasUsed : Z;
  rc_ContractAddress : option Address;
  rc_TxHash : Hash;
}.

(** A [Bloom] is an array of 256 bytes. *)
Definition BloomByteLength : nat := 256.
Definition emptyBloom : bytes := replicate BloomByteLength 0.

(** The bit of the filter that the bytes [i] and [i + 1] of a digest name. *)
Definition bloom_bit (buf : bytes) (i : nat) : Z :=
  Z.land (nth (i + 1) buf 0 + Z.shiftl (nth i buf 0) 8) 2047.
Definition byteLocation (bit : Z) : nat := Z.to_nat (256 - 1 - bit / 8).
Definition bitLocation (bit : Z) : Z := bit mod 8.

(** [1 << n] on a byte, for an unsigned [n]. *)
Definition shl_byte (n : Z) : Z := if n <? 8 then Z.shiftl 1 n else 0.

(** The body of the loop of [setEncode]. *)
Definition set_bit (buf : bytes) (b : bytes) (i : nat) : bytes :=
  let bit := bloom_bit buf i in
  <[byteLocation bit := Z.lor (nth (byteLocation bit) b 0) (shl_byte (bitLocation bit))]> b.

Section bloom.
Context `{External}.

Definition setEncode (b : bytes) (h : bytes) : bytes :=
  let buf := HashBytes (Keccak256 h) in
  foldl (set_bit buf) b [0; 2; 4]%nat.

Definition CreateBloom (receipts : list Receipt) : bytes :=
  foldl (λ b receipt,
    foldl (λ b log,
      foldl (λ b topic, setEncode b (HashBytes topic))
        (setEncode b (AddressBytes (log_Address log))) (log_Topics log))
      b (rc_Logs receipt))
    emptyBloom receipts.

(** The loop returns [false] at the first clear bit. *)
Definition isByteArrPresent (b : bytes) (data : bytes) : bool :=
  let buf := HashBytes (Keccak256 data) in
  forallb (λ i,
    let bit := bloom_bit buf i in
    let referenceByte := nth (byteLocation bit) b 0 in
    let isSet := Z.land referenceByte (shl_byte (u64 (bitLocation bit - 1))) in
    negb (isSet =? 0)) [0; 2; 4]%nat.

Definition IsLogInBloom (b : bytes) (log : Log) : bool :=
  if negb (isByteArrPresent b (AddressBytes (log_Address log))) then false
  else forallb (λ topic, isByteArrPresent b (HashBytes topic)) (log_Topics log).

(** ** The filter holds what was added *)

(** The three bits of [data] are set. *)
Definition bloom_has (b : bytes) (data : bytes) : Prop :=
  ∀ i, i ∈ [0; 2; 4]%nat →
    let bit := bloom_bit (HashBytes (Keccak256 data)) i in
    Z.testbit (nth (byteLocation bit) b 0) (bitLocation bit) = true.

(** Bits are only added. *)
Definition bloom_le (b b' : bytes) : Prop :=
  length b' = length b ∧ ∀ n k, Z.testbit (nth n b 0) k = true → Z.testbit (nth n b' 0) k = true.

Lemma bloom_le_refl b : bloom_le b b.
Proof. done. Qed.
Lemma bloom_le_trans b1 b2 b3 : bloom_le b1 b2 → bloom_le b2 b3 → bloom_le b1 b3.
Proof. intros [] []. split; [congruence|auto]. Qed.
Lemma bloom_has_le b b' d : bloom_le b b' → bloom_has b d → bloom_has b' d.
Proof. intros [_ Hle] Hb i Hi. by apply Hle, Hb. Qed.

Lemma bloom_bit_range buf i : 0 ≤ bloom_bit buf i < 2048.
Proof. unfold bloom_bit. rewrite (Z.land_ones _ 11) by done. by apply Z.mod_pos_bound. Qed.

Lemma byteLocation_lt bit : 0 ≤ bit < 2048 → (byteLocation bit < 256)%nat.
Proof.
  intros. unfold byteLocation. pose proof (Z.div_pos bit 8 ltac:(lia) ltac:(lia)). lia.
Qed.

Lemma nth_insert (b : bytes) n m x :
  nth m (<[n := x]> b) 0 = if decide (m = n ∧ (n < length b)%nat) then x else nth m b 0.
Proof.
  rewrite !nth_lookup. case_decide as Hd.
  - destruct Hd as [-> Hl]. by rewrite list_lookup_insert_eq.
  - destruct (decide (m = n)) as [->|]; [|by rewrite list_lookup_insert_ne].
    rewrite list_insert_ge by lia. done.
Qed.

(** One step of [setEncode] adds a bit. *)
Lemma set_bit_le buf b i : bloom_le b (set_bit buf b i).
Proof.
  split; [apply length_insert|]. intros n k Hk. unfold set_bit. rewrite nth_insert.
  case_decide as Hd; [|done]. destruct Hd as [-> _]. by rewrite Z.lor_spec, Hk.
Qed.

Lemma set_bit_set buf b i :
  length b = BloomByteLength →
  Z.testbit (nth (byteLocation (bloom_bit buf i)) (set_bit buf b i) 0) (bitLocation (bloom_bit buf i))
  = true.
Proof.
  intros Hl. pose proof (bloom_bit_range buf i) as Hbit. unfold set_bit. rewrite nth_insert, decide_True.
  2: { split; [done|]. rewrite Hl. by apply byteLocation_lt. }
  pose proof (Z.mod_pos_bound (bloom_bit buf i) 8 ltac:(lia)) as Hm. unfold bitLocation, shl_byte.
  rewrite (proj2 (Z.ltb_lt _ _)), Z.lor_spec, Z.shiftl_1_l, Z.pow2_bits_true by lia.
  by rewrite orb_true_r.
Qed.

Lemma setEncode_spec b d :
  length b = BloomByteLength → bloom_le b (setEncode b d) ∧ bloom_has (setEncode b d) d.
Proof.
  intros Hl. unfold setEncode, bloom_has. set (buf := HashBytes _). cbn [foldl].
  pose proof (set_bit_le buf) as Hle.
  assert (∀ b i, length b = BloomByteLength → length (set_bit buf b i) = BloomByteLength) as Hlen
    by (intros b0 i Hb0; by rewrite (proj1 (Hle b0 i))).
  split; [eapply bloom_le_trans; [apply Hle|eapply bloom_le_trans; apply Hle]|].
  intros i Hi. repeat (apply elem_of_cons in Hi as [->|Hi]); [..|by apply elem_of_nil in Hi].
  - apply (proj2 (Hle _ 4%nat)), (proj2 (Hle _ 2%nat)). apply set_bit_set. auto.
  - apply (proj2 (Hle _ 4%nat)). apply set_bit_set. auto.
  - apply set_bit_set. auto.
Qed.

(** A fold of steps that only add bits and each hold what [P] asks of them. *)
Lemma fold_bloom {A} (f : bytes → A → bytes) (P : A → bytes → Prop) l b :
  (∀ b x, length b = BloomByteLength → bloom_le b (f b x) ∧ P x (f b x)) →
  (∀ b b' x, bloom_le b b' → P x b → P x b') →
  length b = BloomByteLength →
  bloom_le b (foldl f b l) ∧ ∀ x, x ∈ l → P x (foldl f b l).
Proof.
  intros Hf Hmono. revert b. induction l as [|y l IH]; intros b Hb; cbn [foldl].
  { split; [done|]. intros x Hx. by apply elem_of_nil in Hx. }
  destruct (Hf b y Hb) as [Hle HP].
  destruct (IH (f b y) ltac:(by rewrite (proj1 Hle))) as [Hle' HP'].
  split; [by eapply bloom_le_trans|]. intros x [->|Hx]%elem_of_cons; [|by apply HP'].
  by eapply Hmono.
Qed.

Definition log_in (log : Log) (b : bytes) : Prop :=
  bloom_has b (AddressBytes (log_Address log)) ∧
  ∀ topic, topic ∈ log_Topics log → bloom_has b (HashBytes topic).

Lemma log_in_le b b' log : bloom_le b b' → log_in log b → log_in log b'.
Proof.
  intros Hle [Ha Ht]. split; [by eapply bloom_has_le|]. intros topic Hin. eapply bloom_has_le; [done|auto].
Qed.

(** The filter after one log. *)
Lemma log_step b log :
  length b = BloomByteLength →
  let b' := foldl (λ b topic, setEncode b (HashBytes topic))
              (setEncode b (AddressBytes (log_Address log))) (log_Topics log) in
  bloom_le b b' ∧ log_in log b'.
Proof.
  intros Hb. destruct (setEncode_spec b (AddressBytes (log_Address log)) Hb) as [Hle Ha].
  destruct (fold_bloom (λ b topic, setEncode b (HashBytes topic)) (λ topic b, bloom_has b (HashBytes topic))
    (log_Topics log) (setEncode b (AddressBytes (log_Address log)))) as [Hle' Ht].
  - intros b0 topic Hb0. by apply setEncode_spec.
  - intros b0 b' topic. apply bloom_has_le.
  - by rewrite (proj1 Hle).
  - split; [by eapply bloom_le_trans|]. split; [by eapply bloom_has_le|done].
Qed.

(** No log is missing from the bloom filter of its receipts: the bits of its
    address and of each of its topics are set. *)
Theorem CreateBloom_holds_logs receipts receipt log :
  receipt ∈ receipts → log ∈ rc_Logs receipt → log_in log (CreateBloom receipts).
Proof.
  intros Hr Hlog. refine (proj2 (fold_bloom _ (λ r b, ∀ log, log ∈ rc_Logs r → log_in log b)
    receipts emptyBloom _ _ (length_replicate _ _)) receipt Hr log Hlog).
  - clear. intros b r Hb. apply (fold_bloom _ log_in); [|apply log_in_le|done].
    clear. intros b log Hb. by apply log_step.
  - intros b b' r Hle Hall l Hl. eapply log_in_le; [done|auto].
Qed.
End bloom.

(** ** The test of membership *)

Module BloomExample.
Definition ext : External := {| MarshalTo _ := []; Keccak256 b := SetBytes b * 2 ^ 208 |}.
#[local] Existing Instance ext.
Definition log : Log := mkLog 0x010101010101 [] [].
Definition receipt : Receipt := mkReceipt ZeroHash 0 [] [log] (Some ReceiptSuccess) 0 None 0.

(** The membership test misses logs that are in the filter: it looks one
    bit below the one that was set. *)
Theorem IsLogInBloom_misses_logs :
  bloom_has (CreateBloom [receipt]) (AddressBytes (log_Address log)) ∧
  IsLogInBloom (CreateBloom [receipt]) log = false.
Proof.
  split; [|vm_compute; reflexivity].
  exact (proj2 (setEncode_spec emptyBloom (AddressBytes (log_Address log)) eq_refl)).
Qed.
End BloomExample.

Module WitnessBloom.
Import BloomExample.
#[local] Existing Instance ext.

Lemma CreateBloom_holds_logs_witness : log_in log (CreateBloom [receipt]).
Proof. apply (CreateBloom_holds_logs [receipt] receipt log); apply list_elem_of_here. Defined.
End WitnessBloom.
