(* ===== verification/Blake2f.v ===== *)
(** Package [state/runtime/precompiled], contract 9: the compression function of
    BLAKE2b ([blake2f.go]), unrolled and scheduled by hand in the source, against
    the specification's mixing function. *)
From S2P Require Import Prelude Types.

(** ** The code *)

(** [bits.RotateLeft64(x, -k)]. *)
Definition RotateRight64 (x k : Z) : Z :=
  u64 (Z.lor (Z.shiftr x k) (Z.shiftl x (64 - k))).

Definition IV : list Z := [
  0x6a09e667f3bcc908; 0xbb67ae8584caa73b; 0x3c6ef372fe94f82b; 0xa54ff53a5f1d36f1;
  0x510e527fade682d1; 0x9b05688c2b3e6c1f; 0x1f83d9abfb41bd6b; 0x5be0cd19137e2179].

Definition precomputed : list (list nat) := [
  [0; 2; 4; 6; 1; 3; 5; 7; 8; 10; 12; 14; 9; 11; 13; 15];
  [14; 4; 9; 13; 10; 8; 15; 6; 1; 0; 11; 5; 12; 2; 7; 3];
  [11; 12; 5; 15; 8; 0; 2; 13; 10; 3; 7; 9; 14; 6; 1; 4];
  [7; 3; 13; 11; 9; 1; 12; 14; 2; 5; 4; 15; 6; 10; 0; 8];
  [9; 5; 2; 10; 0; 7; 4; 15; 14; 11; 6; 3; 1; 12; 8; 13];
  [2; 6; 0; 8; 12; 10; 11; 3; 4; 7; 15; 1; 13; 5; 14; 9];
  [12; 1; 14; 4; 5; 15; 13; 10; 0; 6; 9; 8; 7; 3; 2; 11];
  [13; 7; 12; 3; 11; 14; 1; 9; 5; 15; 8; 2; 0; 4; 6; 10];
  [6; 14; 11; 0; 15; 9; 3; 8; 12; 13; 1; 10; 2; 7; 4; 5];
  [10; 8; 7; 1; 2; 4; 6; 5; 15; 9; 3; 13; 11; 14; 12; 0]]%nat.

Definition word_at (m : list Z) (i : nat) : Z := nth i m 0.
Definition sigma_at (s : list nat) (i : nat) : nat := nth i s 0%nat.

(** The sixteen local variables [v0] to [v15] of [F]. *)
Record vars := mkVars { r0 : Z; r1 : Z; r2 : Z; r3 : Z; r4 : Z; r5 : Z; r6 : Z; r7 : Z; r8 : Z; r9 : Z; r10 : Z; r11 : Z; r12 : Z; r13 : Z; r14 : Z; r15 : Z }.

(** One turn of the loop of [F], statement by statement. *)
Definition F_round (m : list Z) (s : list nat) (v : vars) : vars :=
  match v with
  | mkVars v0 v1 v2 v3 v4 v5 v6 v7 v8 v9 v10 v11 v12 v13 v14 v15 =>
    let v0 := add64 v0 (word_at m (sigma_at s 0)) in let v0 := add64 v0 v4 in
    let v12 := Z.lxor v12 v0 in let v12 := RotateRight64 v12 32 in let v8 := add64 v8 v12 in
    let v4 := Z.lxor v4 v8 in let v4 := RotateRight64 v4 24 in
    let v1 := add64 v1 (word_at m (sigma_at s 1)) in let v1 := add64 v1 v5 in
    let v13 := Z.lxor v13 v1 in let v13 := RotateRight64 v13 32 in let v9 := add64 v9 v13 in
    let v5 := Z.lxor v5 v9 in let v5 := RotateRight64 v5 24 in
    let v2 := add64 v2 (word_at m (sigma_at s 2)) in let v2 := add64 v2 v6 in
    let v14 := Z.lxor v14 v2 in let v14 := RotateRight64 v14 32 in let v10 := add64 v10 v14 in
    let v6 := Z.lxor v6 v10 in let v6 := RotateRight64 v6 24 in
    let v3 := add64 v3 (word_at m (sigma_at s 3)) in let v3 := add64 v3 v7 in
    let v15 := Z.lxor v15 v3 in let v15 := RotateRight64 v15 32 in let v11 := add64 v11 v15 in
    let v7 := Z.lxor v7 v11 in let v7 := RotateRight64 v7 24 in
    let v0 := add64 v0 (word_at m (sigma_at s 4)) in let v0 := add64 v0 v4 in
    let v12 := Z.lxor v12 v0 in let v12 := RotateRight64 v12 16 in let v8 := add64 v8 v12 in
    let v4 := Z.lxor v4 v8 in let v4 := RotateRight64 v4 63 in
    let v1 := add64 v1 (word_at m (sigma_at s 5)) in let v1 := add64 v1 v5 in
    let v13 := Z.lxor v13 v1 in let v13 := RotateRight64 v13 16 in let v9 := add64 v9 v13 in
    let v5 := Z.lxor v5 v9 in let v5 := RotateRight64 v5 63 in
    let v2 := add64 v2 (word_at m (sigma_at s 6)) in let v2 := add64 v2 v6 in
    let v14 := Z.lxor v14 v2 in let v14 := RotateRight64 v14 16 in let v10 := add64 v10 v14 in
    let v6 := Z.lxor v6 v10 in let v6 := RotateRight64 v6 63 in
    let v3 := add64 v3 (word_at m (sigma_at s 7)) in let v3 := add64 v3 v7 in
    let v15 := Z.lxor v15 v3 in let v15 := RotateRight64 v15 16 in let v11 := add64 v11 v15 in
    let v7 := Z.lxor v7 v11 in let v7 := RotateRight64 v7 63 in
    let v0 := add64 v0 (word_at m (sigma_at s 8)) in let v0 := add64 v0 v5 in
    let v15 := Z.lxor v15 v0 in let v15 := RotateRight64 v15 32 in let v10 := add64 v10 v15 in
    let v5 := Z.lxor v5 v10 in let v5 := RotateRight64 v5 24 in
    let v1 := add64 v1 (word_at m (sigma_at s 9)) in let v1 := add64 v1 v6 in
    let v12 := Z.lxor v12 v1 in let v12 := RotateRight64 v12 32 in let v11 := add64 v11 v12 in
    let v6 := Z.lxor v6 v11 in let v6 := RotateRight64 v6 24 in
    let v2 := add64 v2 (word_at m (sigma_at s 10)) in let v2 := add64 v2 v7 in
    let v13 := Z.lxor v13 v2 in let v13 := RotateRight64 v13 32 in let v8 := add64 v8 v13 in
    let v7 := Z.lxor v7 v8 in let v7 := RotateRight64 v7 24 in
    let v3 := add64 v3 (word_at m (sigma_at s 11)) in let v3 := add64 v3 v4 in
    let v14 := Z.lxor v14 v3 in let v14 := RotateRight64 v14 32 in let v9 := add64 v9 v14 in
    let v4 := Z.lxor v4 v9 in let v4 := RotateRight64 v4 24 in
    let v0 := add64 v0 (word_at m (sigma_at s 12)) in let v0 := add64 v0 v5 in
    let v15 := Z.lxor v15 v0 in let v15 := RotateRight64 v15 16 in let v10 := add64 v10 v15 in
    let v5 := Z.lxor v5 v10 in let v5 := RotateRight64 v5 63 in
    let v1 := add64 v1 (word_at m (sigma_at s 13)) in let v1 := add64 v1 v6 in
    let v12 := Z.lxor v12 v1 in let v12 := RotateRight64 v12 16 in let v11 := add64 v11 v12 in
    let v6 := Z.lxor v6 v11 in let v6 := RotateRight64 v6 63 in
    let v2 := add64 v2 (word_at m (sigma_at s 14)) in let v2 := add64 v2 v7 in
    let v13 := Z.lxor v13 v2 in let v13 := RotateRight64 v13 16 in let v8 := add64 v8 v13 in
    let v7 := Z.lxor v7 v8 in let v7 := RotateRight64 v7 63 in
    let v3 := add64 v3 (word_at m (sigma_at s 15)) in let v3 := add64 v3 v4 in
    let v14 := Z.lxor v14 v3 in let v14 := RotateRight64 v14 16 in let v9 := add64 v9 v14 in
    let v4 := Z.lxor v4 v9 in let v4 := RotateRight64 v4 63 in
    mkVars v0 v1 v2 v3 v4 v5 v6 v7 v8 v9 v10 v11 v12 v13 v14 v15
  end.

Fixpoint F_loop (n : nat) (j : Z) (m : list Z) (v : vars) : vars :=
  match n with
  | O => v
  | S n => F_loop n (j + 1) m (F_round m (nth (Z.to_nat (j mod 10)) precomputed []) v)
  end.

Definition F_init (h : list Z) (c : Z * Z) (f : bool) : vars :=
  mkVars (word_at h 0) (word_at h 1) (word_at h 2) (word_at h 3)
         (word_at h 4) (word_at h 5) (word_at h 6) (word_at h 7)
         (word_at IV 0) (word_at IV 1) (word_at IV 2) (word_at IV 3)
         (Z.lxor (word_at IV 4) c.1) (Z.lxor (word_at IV 5) c.2)
         (if f then Z.lxor (word_at IV 6) 0xffffffffffffffff else word_at IV 6) (word_at IV 7).

Definition F_final (h : list Z) (v : vars) : list Z :=
  match v with
  | mkVars v0 v1 v2 v3 v4 v5 v6 v7 v8 v9 v10 v11 v12 v13 v14 v15 =>
    [Z.lxor (word_at h 0) (Z.lxor v0 v8); Z.lxor (word_at h 1) (Z.lxor v1 v9);
     Z.lxor (word_at h 2) (Z.lxor v2 v10); Z.lxor (word_at h 3) (Z.lxor v3 v11);
     Z.lxor (word_at h 4) (Z.lxor v4 v12); Z.lxor (word_at h 5) (Z.lxor v5 v13);
     Z.lxor (word_at h 6) (Z.lxor v6 v14); Z.lxor (word_at h 7) (Z.lxor v7 v15)]
  end.

Definition F (h m : list Z) (c : Z * Z) (f : bool) (rounds : Z) : list Z :=
  F_final h (F_loop (Z.to_nat rounds) 0 m (F_init h c f)).

(** ** The specification (RFC 7693) *)

Definition SIGMA : list (list nat) := [
  [0; 1; 2; 3; 4; 5; 6; 7; 8; 9; 10; 11; 12; 13; 14; 15];
  [14; 10; 4; 8; 9; 15; 13; 6; 1; 12; 0; 2; 11; 7; 5; 3];
  [11; 8; 12; 0; 5; 2; 15; 13; 10; 14; 3; 6; 7; 1; 9; 4];
  [7; 9; 3; 1; 13; 12; 11; 14; 2; 6; 5; 10; 4; 0; 15; 8];
  [9; 0; 5; 7; 2; 4; 10; 15; 14; 1; 11; 12; 6; 8; 3; 13];
  [2; 12; 6; 10; 0; 11; 8; 3; 4; 13; 7; 5; 15; 14; 1; 9];
  [12; 5; 1; 15; 14; 13; 4; 10; 0; 7; 6; 3; 9; 2; 8; 11];
  [13; 11; 7; 14; 12; 1; 3; 9; 5; 0; 15; 4; 8; 6; 2; 10];
  [6; 15; 14; 9; 11; 3; 0; 8; 12; 2; 13; 7; 1; 4; 10; 5];
  [10; 2; 8; 4; 7; 6; 1; 5; 15; 11; 9; 14; 3; 12; 13; 0]]%nat.

(** The mixing function on the words [a], [b], [c], [d] of the state. *)
Definition mixG (a b c d x y : Z) : Z * Z * Z * Z :=
  let a := u64 (a + b + x) in
  let d := RotateRight64 (Z.lxor d a) 32 in
  let c := u64 (c + d) in
  let b := RotateRight64 (Z.lxor b c) 24 in
  let a := u64 (a + b + y) in
  let d := RotateRight64 (Z.lxor d a) 16 in
  let c := u64 (c + d) in
  let b := RotateRight64 (Z.lxor b c) 63 in
  (a, b, c, d).

(** A round mixes the columns, then the diagonals. *)
Definition spec_round (m : list Z) (s : list nat) (v : vars) : vars :=
  match v with
  | mkVars v0 v1 v2 v3 v4 v5 v6 v7 v8 v9 v10 v11 v12 v13 v14 v15 =>
    let w i := word_at m (sigma_at s i) in
    let '(v0, v4, v8, v12) := mixG v0 v4 v8 v12 (w 0%nat) (w 1%nat) in
    let '(v1, v5, v9, v13) := mixG v1 v5 v9 v13 (w 2%nat) (w 3%nat) in
    let '(v2, v6, v10, v14) := mixG v2 v6 v10 v14 (w 4%nat) (w 5%nat) in
    let '(v3, v7, v11, v15) := mixG v3 v7 v11 v15 (w 6%nat) (w 7%nat) in
    let '(v0, v5, v10, v15) := mixG v0 v5 v10 v15 (w 8%nat) (w 9%nat) in
    let '(v1, v6, v11, v12) := mixG v1 v6 v11 v12 (w 10%nat) (w 11%nat) in
    let '(v2, v7, v8, v13) := mixG v2 v7 v8 v13 (w 12%nat) (w 13%nat) in
    let '(v3, v4, v9, v14) := mixG v3 v4 v9 v14 (w 14%nat) (w 15%nat) in
    mkVars v0 v1 v2 v3 v4 v5 v6 v7 v8 v9 v10 v11 v12 v13 v14 v15
  end.

Fixpoint spec_loop (n : nat) (j : Z) (m : list Z) (v : vars) : vars :=
  match n with
  | O => v
  | S n => spec_loop n (j + 1) m (spec_round m (nth (Z.to_nat (j mod 10)) SIGMA []) v)
  end.

Definition spec_F (h m : list Z) (c : Z * Z) (f : bool) (rounds : Z) : list Z :=
  F_final h (spec_loop (Z.to_nat rounds) 0 m (F_init h c f)).

(** ** Equivalence *)

(** The order the code reads a row of [SIGMA] in: the first message words of
    the four columns, the second ones, then the diagonals. *)
Definition schedule (s : list nat) : list nat :=
  sigma_at s <$> [0; 2; 4; 6; 1; 3; 5; 7; 8; 10; 12; 14; 9; 11; 13; 15]%nat.

Lemma precomputed_schedule : precomputed = schedule <$> SIGMA.
Proof. vm_compute. reflexivity. Qed.

Lemma add64_add64 a x b : add64 (add64 a x) b = u64 (a + b + x).
Proof. unfold add64. rewrite u64_add_l. f_equal. lia. Qed.

(** Name the value of a [let]. *)
Lemma let_eq {A B} (e : A) (f : A → B) (r : B) : (∀ y, y = e → f y = r) → (let x := e in f x) = r.
Proof. intros Hf. by apply Hf. Qed.

Lemma mixG_eq {B} a b c d x y (k : Z → Z → Z → Z → B) r :
  (∀ a1 d1 c1 b1 a2 d2 c2 b2,
     a1 = u64 (a + b + x) → d1 = RotateRight64 (Z.lxor d a1) 32 → c1 = u64 (c + d1) →
     b1 = RotateRight64 (Z.lxor b c1) 24 → a2 = u64 (a1 + b1 + y) →
     d2 = RotateRight64 (Z.lxor d1 a2) 16 → c2 = u64 (c1 + d2) →
     b2 = RotateRight64 (Z.lxor b1 c2) 63 → r = k a2 b2 c2 d2) →
  r = (let '(a, b, c, d) := mixG a b c d x y in k a b c d).
Proof. intros Hk. by eapply Hk. Qed.

(** One round of the code is one round of the specification. *)
Lemma F_round_spec m s v : F_round m (schedule s) v = spec_round m s v.
Proof.
  destruct v as [v0 v1 v2 v3 v4 v5 v6 v7 v8 v9 v10 v11 v12 v13 v14 v15].
  cbv delta [F_round]; cbv beta; cbv iota; cbv beta.
  repeat (match goal with |- (let x := ?e in @?f x) = ?r =>
    let y := fresh "y" in let E := fresh "E" in
    refine (let_eq e f r _); intros y E; cbv beta; unfold schedule, sigma_at in E;
    cbn [fmap list_fmap nth] in E end).
  repeat match goal with
  | E : ?y = add64 ?a (word_at _ _), E0 : ?z = add64 ?y ?b |- _ =>
      rewrite E, add64_add64 in E0; clear E y
  | E : ?y = Z.lxor _ _, E0 : ?z = RotateRight64 ?y ?b |- _ => rewrite E in E0; clear E y
  | E : ?y = add64 ?a ?b |- _ => change (add64 a b) with (u64 (a + b)) in E
  end.
  cbv delta [spec_round]; cbv beta; cbv iota; cbv beta.
  do 8 (apply mixG_eq; intros). unfold sigma_at in *. f_equal; congruence.
Qed.

Lemma F_loop_spec n j m v : 0 ≤ j → F_loop n j m v = spec_loop n j m v.
Proof.
  revert j v. induction n as [|n IH]; intros j v Hj; [done|]. cbn [F_loop spec_loop].
  rewrite IH by lia. f_equal.
  pose proof (Z.mod_pos_bound j 10 ltac:(lia)).
  assert (nth (Z.to_nat (j mod 10)) precomputed [] = schedule (nth (Z.to_nat (j mod 10)) SIGMA []))
    as ->; [|apply F_round_spec].
  rewrite precomputed_schedule.
  rewrite (nth_indep _ [] (schedule [])) by (rewrite length_fmap; simpl; lia).
  apply (map_nth schedule).
Qed.

(** The unrolled compression function, with its precomputed message
    schedule, is BLAKE2b's: the specification's mixing function over the
    permutations SIGMA, for any state, block, counter, flag and rounds. *)
Theorem F_is_blake2b h m c f rounds : F h m c f rounds = spec_F h m c f rounds.
Proof. unfold F, spec_F. by rewrite F_loop_spec. Qed.
