(* ===== verification/Precompiled.v ===== *)
(** Package [state/runtime/precompiled]: the contracts at the addresses 1 to 9.

    The curves and the hashes come from other packages: they are the fields of
    the class [PrecompiledCrypto].  The scratch buffer [p.buf] is overwritten
    before every use, so [get] returns fresh bytes. *)
From S2P Require Import Prelude Types Runtime Crypto EvmState EvmInstr EvmWord EvmMemory EvmLogic Blake2f.

Class PrecompiledCrypto := {
  Sum256 : bytes → bytes;
  ripemd160_Sum : bytes → bytes;
  (** [go-eth-bn256]. *)
  G1 : Type;
  G2 : Type;
  G1_Unmarshal : bytes → option G1;
  G2_Unmarshal : bytes → option G2;
  G1_Add : G1 → G1 → G1;
  G1_ScalarMult : G1 → Z → G1;
  G1_Marshal : G1 → bytes;
  PairingCheck : list G1 → list G2 → bool;
}.

(** ** Reading the input *)

(** [get]: the next [size] bytes, padded with zeros, and the rest. *)
Definition get (input : bytes) (size : nat) : bytes * bytes :=
  let n := Nat.min size (length input) in
  (take n input ++ zeros (size - n), drop n input).

(** [get] with a size converted from [uint64]: a size past the signed integers
    becomes negative, and slicing to it panics. *)
Definition get_int (input : bytes) (size : Z) : outcome (bytes * bytes) :=
  if s64 size <? 0 then Panic else Ret (get input (Z.to_nat size)).

Definition getUint64 (input : bytes) : Z * bytes :=
  let '(buf, input) := get input 32 in
  (SetBytes (take 8 (drop 24 buf)), input).

Definition leftPad (buf : bytes) (n : nat) : bytes :=
  if (n <? length buf)%nat then buf else zeros (n - length buf) ++ buf.

Definition baseGasCalc (input : bytes) (base word : Z) : Z :=
  add64 base (mul64 ((Z.of_nat (length input) + 31) / 32) word).

(** ** Modular exponentiation *)

Definition adjustedExponentLength (expLen head : Z) : Z :=
  let bitlength := if negb (Z.sgn head =? 0) then u64 (BitLen head - 1) else 0 in
  if expLen <=? 32 then bitlength
  else (expLen - 32) * 8 + bitlength.

Definition subMul (x a b c : Z) : Z := x * b - c + x * x / a.

Definition multComplexity (x : Z) : Z :=
  if x <=? 64 then x * x
  else if x <=? 1024 then subMul x 4 96 3072
  else subMul x 16 480 199680.

Definition modExp_gas (input : bytes) : Z :=
  let '(val, tail) := get input 32 in
  let baseLen := SetBytes val in
  let '(val, tail) := get tail 32 in
  let expLen := SetBytes val in
  let '(val, _) := get tail 32 in
  let modLen := SetBytes val in
  let input := drop 96 input in
  let expHeadLen := if expLen <? 32 then Uint64 expLen else 32 in
  let bLen := Uint64 baseLen in
  let expHead := if bLen <? Z.of_nat (length input)
                 then SetBytes (get (drop (Z.to_nat bLen) input) (Z.to_nat expHeadLen)).1 else 0 in
  let gasCost := multComplexity (if modLen >=? baseLen then modLen else baseLen) in
  let adjExpLen := adjustedExponentLength expLen expHead in
  let gasCost := if adjExpLen >=? 1 then gasCost * adjExpLen else gasCost * 1 in
  let gasCost := gasCost / 20 in
  if negb (IsUint64 gasCost) then M64 - 1 else Uint64 gasCost.

(** [big.Int.Exp] with a positive modulus. *)
Definition modExp_run (input : bytes) : outcome bytes :=
  let '(baseLen, input) := getUint64 input in
  let '(exponentLen, input) := getUint64 input in
  let '(modulusLen, input) := getUint64 input in
  if (baseLen =? 0) && (modulusLen =? 0) then Ret []
  else
    let~ (val, input) := get_int input baseLen in
    let base := SetBytes val in
    let~ (val, input) := get_int input exponentLen in
    let exponent := SetBytes val in
    let~ (val, _) := get_int input modulusLen in
    let modulus := SetBytes val in
    let res := if negb (Z.sgn modulus =? 0) then Bytes (base ^ exponent mod modulus) else [] in
    Ret (leftPad res (Z.to_nat modulusLen)).

(** ** BLAKE2b compression *)

(** [binary.LittleEndian.Uint64] and [PutUint64]. *)
Definition le64 (b : bytes) : Z := SetBytes (reverse (take 8 b)).
Definition put_le64 (z : Z) : bytes := reverse (be_bytes 8 z).

Definition blake2f_gas (input : bytes) : Z :=
  if negb (Z.of_nat (length input) =? 213) then 0 else SetBytes (take 4 input).

(** [n] words of 8 bytes. *)
Definition words64 (n : nat) (input : bytes) : list Z :=
  (λ i, le64 (drop (8 * i) input)) <$> seq 0 n.

Definition blake2f_run (input : bytes) : result vmError bytes :=
  if negb (Z.of_nat (length input) =? 213) then Err (ErrPrecompiled 1)
  else
    let lastByte := nth 212 input 0 in
    if negb (lastByte =? 0) && negb (lastByte =? 1) then Err (ErrPrecompiled 2)
    else
      let rounds := SetBytes (take 4 input) in
      let h := words64 8 (drop 4 input) in
      let m := words64 16 (drop 68 input) in
      let c := (le64 (drop 196 input), le64 (drop 204 input)) in
      let flag := lastByte in
      let h := F h m c (flag =? 1) rounds in
      Ok (concat (put_le64 <$> h)).

(** ** The contracts *)

Section contracts.
Context `{External} `{Secp256k1} `{PrecompiledCrypto}.

(** [ecrecover.run]; an empty result on a bad signature. *)
Definition ecrecover_run (input : bytes) : bytes :=
  let '(input, _) := get input 128 in
  if negb (forallb (λ b, b =? 0) (take 31 (drop 32 input))) then []
  else
    let v := (nth 63 input 0 - 27) mod 256 in
    let r := SetBytes (take 32 (drop 64 input)) in
    let s := SetBytes (take 32 (drop 96 input)) in
    if negb (ValidateSignatureValues v (Some r) (Some s)) then []
    else
      match Ecrecover (take 32 input) (take 64 (drop 64 input) ++ [v]) with
      | None => []
      | Some pubKey =>
          let dst := HashBytes (Keccak256 (drop 1 pubKey)) in
          leftPad (drop 12 dst) 32
      end.

Definition bn256Add_run (input : bytes) : result vmError bytes :=
  let '(val, input) := get input 64 in
  match G1_Unmarshal val with
  | None => Err (ErrPrecompiled 3)
  | Some b1 =>
      let '(val, _) := get input 64 in
      match G1_Unmarshal val with
      | None => Err (ErrPrecompiled 3)
      | Some b2 => Ok (G1_Marshal (G1_Add b1 b2))
      end
  end.

Definition bn256Mul_run (input : bytes) : result vmError bytes :=
  let '(v, input) := get input 64 in
  match G1_Unmarshal v with
  | None => Err (ErrPrecompiled 3)
  | Some b0 =>
      let '(v, _) := get input 32 in
      Ok (G1_Marshal (G1_ScalarMult b0 (SetBytes v)))
  end.

Definition falseBytes : bytes := zeros 32.
Definition trueBytes : bytes := zeros 31 ++ [1].

Fixpoint pairing_points (num : nat) (input : bytes) : option (list G1 * list G2) :=
  match num with
  | O => Some ([], [])
  | S num =>
      let '(buf, input) := get input 64 in
      a0 ← G1_Unmarshal buf;
      let '(buf, input) := get input 128 in
      b0 ← G2_Unmarshal buf;
      '(ar, br) ← pairing_points num input;
      Some (a0 :: ar, b0 :: br)
  end.

Definition bn256Pairing_run (input : bytes) : result vmError bytes :=
  if Z.of_nat (length input) =? 0 then Ok trueBytes
  else if negb (Z.of_nat (length input) mod 192 =? 0) then Err (ErrPrecompiled 4)
  else
    match pairing_points (length input / 192) input with
    | None => Err (ErrPrecompiled 3)
    | Some (ar, br) => Ok (if PairingCheck ar br then trueBytes else falseBytes)
    end.

(** ** The prices, and the contracts that call a library *)

Definition ecrecover_gas : Z := 3000.
Definition sha256h_gas (input : bytes) : Z := baseGasCalc input 60 12.
Definition ripemd160h_gas (input : bytes) : Z := baseGasCalc input 600 120.
Definition identity_gas (input : bytes) : Z := baseGasCalc input 15 3.
Definition bn256Add_gas (config : ForksInTime) : Z := if Istanbul config then 150 else 500.
Definition bn256Mul_gas (config : ForksInTime) : Z := if Istanbul config then 6000 else 40000.
Definition bn256Pairing_gas (input : bytes) (config : ForksInTime) : Z :=
  let '(baseGas, pointGas) := if Istanbul config then (45000, 34000) else (100000, 80000) in
  add64 baseGas (mul64 pointGas (Z.of_nat (length input) / 192)).

Definition sha256h_run (input : bytes) : bytes := Sum256 input.
Definition ripemd160h_run (input : bytes) : bytes := leftPad (ripemd160_Sum input) 32.
Definition identity_run (input : bytes) : bytes := input.

(** The contract registered at an address: its gas and its code. *)
Definition contract_gas (addr : Address) (input : bytes) (config : ForksInTime) : Z :=
  if addr =? 1 then ecrecover_gas
  else if addr =? 2 then sha256h_gas input
  else if addr =? 3 then ripemd160h_gas input
  else if addr =? 4 then identity_gas input
  else if addr =? 5 then modExp_gas input
  else if addr =? 6 then bn256Add_gas config
  else if addr =? 7 then bn256Mul_gas config
  else if addr =? 8 then bn256Pairing_gas input config
  else blake2f_gas input.

Definition contract_run (addr : Address) (input : bytes) : outcome (result vmError bytes) :=
  if addr =? 1 then Ret (Ok (ecrecover_run input))
  else if addr =? 2 then Ret (Ok (sha256h_run input))
  else if addr =? 3 then Ret (Ok (ripemd160h_run input))
  else if addr =? 4 then Ret (Ok (identity_run input))
  else if addr =? 5 then let~ res := modExp_run input in Ret (Ok res)
  else if addr =? 6 then Ret (bn256Add_run input)
  else if addr =? 7 then Ret (bn256Mul_run input)
  else if addr =? 8 then Ret (bn256Pairing_run input)
  else Ret (blake2f_run input).

Definition CanRun (c : Contract) (config : ForksInTime) : bool :=
  let a := c_CodeAddress c in
  if negb ((1 <=? a) && (a <=? 9)) then false
  else if (5 <=? a) && (a <=? 8) then Byzantium config
  else if a =? 9 then Istanbul config
  else true.

Definition Precompiled_Run (c : Contract) (config : ForksInTime) : outcome ExecutionResult :=
  let gasCost := contract_gas (c_CodeAddress c) (c_Input c) config in
  if c_Gas c <? gasCost then Ret (mkResult [] 0 0 (Some ErrOutOfGas))
  else
    let gas := sub64 (c_Gas c) gasCost in
    let~ res := contract_run (c_CodeAddress c) (c_Input c) in
    let result := match res with
                  | Ok returnValue => mkResult returnValue gas 0 None
                  | Err e => mkResult [] gas 0 (Some e)
                  end in
    Ret (if Failed result then mkResult [] 0 (GasUsed result) (ExecErr result) else result).
End contracts.

(** ** Bytes of integers *)

Lemma SetBytes_zeros k b : SetBytes (zeros k ++ b) = SetBytes b.
Proof. induction k as [|k IH]; [done|]. exact IH. Qed.

Lemma leftPad_value b n : SetBytes (leftPad b n) = SetBytes b.
Proof. unfold leftPad. case_match; [done|apply SetBytes_zeros]. Qed.

Lemma leftPad_length b n : (length b ≤ n)%nat → length (leftPad b n) = n.
Proof.
  intros Hb. unfold leftPad. rewrite (proj2 (Nat.ltb_ge _ _)) by done.
  rewrite length_app. unfold zeros. rewrite length_replicate. lia.
Qed.

Lemma leftPad_range b n : Forall byte_range b → Forall byte_range (leftPad b n).
Proof. intros Hb. unfold leftPad. case_match; [done|]. apply Forall_app. split; [apply zeros_range|done]. Qed.

Lemma get_app a b : get (a ++ b) (length a) = (a, b).
Proof.
  unfold get. rewrite length_app, Nat.min_l by lia.
  by rewrite take_app_length, drop_app_length, Nat.sub_diag, app_nil_r.
Qed.

Lemma get_range input n : Forall byte_range input →
  Forall byte_range (get input n).1 ∧ Forall byte_range (get input n).2 ∧ length (get input n).1 = n.
Proof.
  intros Hi. unfold get; simpl. split_and!; [|by apply Forall_drop|].
  - apply Forall_app. split; [by apply Forall_take|apply zeros_range].
  - rewrite length_app, length_take. unfold zeros. rewrite length_replicate. lia.
Qed.

Lemma getUint64_app n rest : 0 ≤ n < M64 → getUint64 (be_bytes 32 n ++ rest) = (n, rest).
Proof.
  intros Hn. unfold getUint64.
  pose proof (get_app (be_bytes 32 n) rest) as Hg. rewrite length_be_bytes in Hg. rewrite Hg.
  change 32%nat with (24 + 8)%nat. rewrite be_bytes_app.
  rewrite drop_app_length' by (by rewrite length_be_bytes).
  rewrite take_ge by (by rewrite length_be_bytes).
  rewrite SetBytes_be_bytes, Z.mod_small by done. done.
Qed.

(** The input of the contract: three lengths, then the operands. *)
Definition modExp_input (b e m : bytes) : bytes :=
  be_bytes 32 (Z.of_nat (length b)) ++ be_bytes 32 (Z.of_nat (length e)) ++
  be_bytes 32 (Z.of_nat (length m)) ++ b ++ e ++ m.

#[local] Opaque be_bytes.

Lemma get_int_app a b :
  Z.of_nat (length a) < 2 ^ 63 → get_int (a ++ b) (Z.of_nat (length a)) = Ret (a, b).
Proof.
  intros Ha. unfold get_int, s64. rewrite Z.mod_small by (unfold M64; lia).
  rewrite (proj2 (Z.ltb_ge _ _)) by lia. by rewrite Nat2Z.id, get_app.
Qed.

(** The modular exponentiation contract returns, in as many bytes as the
    modulus has, the power of the base modulo the modulus, and zero for the
    modulus zero. *)
Theorem modExp_run_correct b e m :
  Forall byte_range m →
  Z.of_nat (length b) < 2 ^ 63 → Z.of_nat (length e) < 2 ^ 63 → Z.of_nat (length m) < 2 ^ 63 →
  ¬ (b = [] ∧ m = []) →
  ∃ r, modExp_run (modExp_input b e m) = Ret r ∧ length r = length m ∧
       SetBytes r = if SetBytes m =? 0 then 0 else SetBytes b ^ SetBytes e mod SetBytes m.
Proof.
  intros Hm Hlb Hle Hlm Hne. unfold modExp_run, modExp_input.
  do 3 rewrite getUint64_app by (unfold M64; lia).
  destruct ((Z.of_nat (length b) =? 0) && (Z.of_nat (length m) =? 0)) eqn:E.
  { bool_props. exfalso. apply Hne. destruct b, m; simpl in *; try lia; done. }
  pose proof (get_int_app m [] Hlm) as Hgm. rewrite app_nil_r in Hgm.
  do 2 (rewrite get_int_app by done; cbn [obind]). rewrite Hgm. cbn [obind].
  rewrite Nat2Z.id. eexists. split; [done|].
  pose proof (SetBytes_range m Hm) as Hrm. rewrite sgn_eqb_0, leftPad_value.
  destruct (Z.eqb_spec (SetBytes m) 0) as [Hz|Hz]; cbn [negb].
  - by rewrite leftPad_length by (simpl; lia).
  - pose proof (Z.mod_pos_bound (SetBytes b ^ SetBytes e) (SetBytes m) ltac:(lia)).
    rewrite leftPad_length, Bytes_value by (apply Bytes_length || idtac; lia). done.
Qed.

(** ** What a contract gives back *)

(** The sizes of the digests and of a marshalled point. *)
Class PrecompiledLaws `{PrecompiledCrypto} : Prop := {
  Sum256_32 b : length (Sum256 b) = 32%nat ∧ Forall byte_range (Sum256 b);
  ripemd160_20 b : length (ripemd160_Sum b) = 20%nat ∧ Forall byte_range (ripemd160_Sum b);
  G1_Marshal_64 p : length (G1_Marshal p) = 64%nat ∧ Forall byte_range (G1_Marshal p);
}.

Section laws.
Context `{External} `{Secp256k1} `{PrecompiledLaws}.

Lemma go_bytes_short b n : length b = n → Z.of_nat n < 2 ^ 63 → Forall byte_range b → go_bytes b.
Proof. intros <- ? ?. by split. Qed.

Lemma leftPad_go b n :
  (length b ≤ n)%nat → Z.of_nat n < 2 ^ 63 → Forall byte_range b → go_bytes (leftPad b n).
Proof. intros. apply (go_bytes_short _ n); [by apply leftPad_length|done|by apply leftPad_range]. Qed.

Lemma getUint64_range input : Forall byte_range input →
  0 ≤ (getUint64 input).1 ∧ Forall byte_range (getUint64 input).2.
Proof.
  intros Hi. unfold getUint64. destruct (get_range input 32 Hi) as (Hb & Hr & _).
  destruct (get input 32) as [b r]; simpl in *. split; [|done].
  apply SetBytes_range. by apply Forall_take, Forall_drop.
Qed.

Lemma get_int_spec input n : Forall byte_range input → 0 ≤ n < M64 →
  match get_int input n with
  | Ret (b, rest) => n < 2 ^ 63 ∧ length b = Z.to_nat n ∧ Forall byte_range b ∧ Forall byte_range rest
  | Panic => True
  | NoFuel => False
  end.
Proof.
  intros Hi Hn. unfold get_int. destruct (Z.ltb_spec (s64 n) 0) as [|Hs]; [done|].
  destruct (get_range input (Z.to_nat n) Hi) as (? & ? & ?).
  destruct (get input (Z.to_nat n)) as [b r]; simpl in *. split_and!; try done.
  unfold s64, M64 in *. destruct (Z.lt_ge_cases n (2 ^ 63)) as [|Hge]; [done|].
  replace (n + 2 ^ 63) with (n - 2 ^ 63 + 1 * 2 ^ 64) in Hs by lia.
  rewrite Z.mod_add, Z.mod_small in Hs by lia. lia.
Qed.

Lemma getUint64_u64 input : Forall byte_range input → is_u64 (getUint64 input).1.
Proof.
  intros Hi. unfold getUint64. destruct (get_range input 32 Hi) as (Hb & Hr & Hl).
  destruct (get input 32) as [b r]; simpl in *.
  pose proof (SetBytes_range (take 8 (drop 24 b)) (Forall_take _ _ _ (Forall_drop _ _ _ Hb))) as Hs.
  rewrite length_take, length_drop, Hl in Hs. exact Hs.
Qed.

Lemma modExp_run_go input : Forall byte_range input →
  match modExp_run input with Ret r => go_bytes r | Panic => True | NoFuel => False end.
Proof.
  intros Hi. unfold modExp_run.
  pose proof (getUint64_u64 _ Hi) as Hbl. pose proof (getUint64_range _ Hi) as [_ Hi1].
  destruct (getUint64 input) as [bl i1]; cbn [fst snd] in *.
  pose proof (getUint64_u64 _ Hi1) as Hel. pose proof (getUint64_range _ Hi1) as [_ Hi2].
  destruct (getUint64 i1) as [el i2]; cbn [fst snd] in *.
  pose proof (getUint64_u64 _ Hi2) as Hml. pose proof (getUint64_range _ Hi2) as [_ Hi3].
  destruct (getUint64 i2) as [ml i3]; cbn [fst snd] in *. destruct ((bl =? 0) && (ml =? 0)); [apply go_bytes_nil|].
  pose proof (get_int_spec i3 bl Hi3 Hbl) as Hg.
  destruct (get_int i3 bl) as [[vb i4]| |]; cbn [obind]; [|done..]. destruct Hg as (_ & _ & _ & Hi4).
  pose proof (get_int_spec i4 el Hi4 Hel) as Hg.
  destruct (get_int i4 el) as [[ve i5]| |]; cbn [obind]; [|done..]. destruct Hg as (_ & _ & _ & Hi5).
  pose proof (get_int_spec i5 ml Hi5 Hml) as Hg.
  destruct (get_int i5 ml) as [[vm i6]| |]; cbn [obind]; [|done..]. destruct Hg as (Hs & Hl & Hvm & _).
  pose proof (SetBytes_range vm Hvm) as Hr. rewrite Hl in Hr. rewrite sgn_eqb_0.
  destruct (Z.eqb_spec (SetBytes vm) 0); cbn [negb].
  - apply leftPad_go; [simpl; lia|destruct Hml; lia|constructor].
  - pose proof (Z.mod_pos_bound (SetBytes vb ^ SetBytes ve) (SetBytes vm) ltac:(lia)).
    apply leftPad_go; [apply Bytes_length; lia|destruct Hml; lia|apply Bytes_range].
Qed.

Lemma concat_put_le64 l : Forall byte_range (concat (put_le64 <$> l)) ∧
  length (concat (put_le64 <$> l)) = (8 * length l)%nat.
Proof.
  induction l as [|z l [IH1 IH2]]; [done|]. rewrite fmap_cons. cbn [concat].
  rewrite length_app, IH2. unfold put_le64. rewrite length_reverse, length_be_bytes. split.
  - apply Forall_app. split; [apply Forall_reverse, be_bytes_range|done].
  - cbn [length]. lia.
Qed.

Lemma ecrecover_run_go input : go_bytes (ecrecover_run input).
Proof.
  unfold ecrecover_run. destruct (get input 128) as [buf rest].
  repeat case_match; try apply go_bytes_nil. apply leftPad_go; [|done|].
  - rewrite length_drop. unfold HashBytes. rewrite length_be_bytes. unfold HashLength. lia.
  - apply Forall_drop, be_bytes_range.
Qed.

Lemma bn256_go r input :
  r ∈ [bn256Add_run input; bn256Mul_run input; bn256Pairing_run input] →
  match r with Ok r => go_bytes r | Err _ => True end.
Proof.
  intros Hr. assert (∀ p, go_bytes (G1_Marshal p)) as Hm.
  { intros p. destruct (G1_Marshal_64 p). by apply (go_bytes_short _ 64). }
  assert (∀ b : bool, go_bytes (if b then trueBytes else falseBytes)) as Hb.
  { intros []; split; try done; [|apply zeros_range].
    apply Forall_app. split; [apply zeros_range|by repeat constructor]. }
  repeat (apply elem_of_cons in Hr as [->|Hr]); [..|by apply elem_of_nil in Hr].
  - unfold bn256Add_run. by repeat case_match; simplify_eq.
  - unfold bn256Mul_run. by repeat case_match; simplify_eq.
  - unfold bn256Pairing_run. repeat case_match; simplify_eq; try done; first [exact (Hb true)|exact (Hb false)].
Qed.

Lemma blake2f_run_go input : match blake2f_run input with Ok r => go_bytes r | Err _ => True end.
Proof.
  unfold blake2f_run. repeat (destruct (_ : bool); [done|]).
  match goal with |- go_bytes (concat (put_le64 <$> ?l)) => destruct (concat_put_le64 l) as [Hr Hl] end.
  split; [done|]. rewrite Hl. unfold F, F_final. by destruct (F_loop _ _ _ _).
Qed.

(** A contract that ends gives bytes back; only the modular exponentiation can
    panic, on a length past the signed integers. *)
Lemma contract_run_go addr input : go_bytes input →
  match contract_run addr input with
  | Ret (Ok r) => go_bytes r
  | Ret (Err _) => True
  | Panic => addr = 5
  | NoFuel => False
  end.
Proof.
  intros Hi. unfold contract_run.
  destruct (Z.eqb_spec addr 1); [apply ecrecover_run_go|].
  destruct (Z.eqb_spec addr 2); [destruct (Sum256_32 input); by apply (go_bytes_short _ 32)|].
  destruct (Z.eqb_spec addr 3); [destruct (ripemd160_20 input); apply leftPad_go; [lia|done..]|].
  destruct (Z.eqb_spec addr 4); [done|].
  destruct (Z.eqb_spec addr 5).
  { pose proof (modExp_run_go input (proj1 Hi)). by destruct (modExp_run input). }
  destruct (Z.eqb_spec addr 6); [apply (bn256_go _ input); set_solver|].
  destruct (Z.eqb_spec addr 7); [apply (bn256_go _ input); set_solver|].
  destruct (Z.eqb_spec addr 8); [apply (bn256_go _ input); set_solver|].
  apply blake2f_run_go.
Qed.

Lemma contract_gas_nonneg addr input config : Forall byte_range input → 0 ≤ contract_gas addr input config.
Proof.
  intros Hi. assert (∀ z, 0 ≤ u64 z) as Hu by (intros z; apply (u64_range z)).
  unfold contract_gas, ecrecover_gas, sha256h_gas, ripemd160h_gas, identity_gas, bn256Add_gas,
    bn256Mul_gas, bn256Pairing_gas, baseGasCalc, add64, modExp_gas, blake2f_gas.
  repeat (case_match; simplify_eq; try apply Hu; try done).
  apply SetBytes_range. by apply Forall_take.
Qed.

Lemma Precompiled_Run_spec c config :
  contract_ok c →
  let price := contract_gas (c_CodeAddress c) (c_Input c) config in
  match Precompiled_Run c config with
  | Ret r => go_bytes (ReturnValue r) ∧
             (if Succeeded r then price ≤ c_Gas c ∧ GasLeft r = c_Gas c - price
              else GasLeft r = 0 ∧ ReturnValue r = [])
  | Panic => c_CodeAddress c = 5
  | NoFuel => False
  end.
Proof.
  intros [_ Hi Hg _]. cbv zeta. unfold Precompiled_Run.
  pose proof (contract_gas_nonneg (c_CodeAddress c) (c_Input c) config (proj1 Hi)) as Hp.
  set (price := contract_gas _ _ _) in *.
  destruct (Z.ltb_spec (c_Gas c) price); [simpl; split; [apply go_bytes_nil|done]|].
  pose proof (contract_run_go (c_CodeAddress c) (c_Input c) Hi) as Hr.
  destruct (contract_run (c_CodeAddress c) (c_Input c)) as [[r|e]| |]; cbn [obind]; [..|done|done].
  - simpl. split; [done|]. split; [done|]. destruct Hg. apply sub64_ge; unfold is_u64, M64; lia.
  - simpl. split; [apply go_bytes_nil|done].
Qed.

(** A precompiled contract never gives back more gas than it was given: on
    success it keeps exactly its price, on failure everything, and then it
    returns nothing.  Only the modular exponentiation can panic. *)
Theorem Precompiled_Run_gas c config :
  contract_ok c →
  let price := contract_gas (c_CodeAddress c) (c_Input c) config in
  match Precompiled_Run c config with
  | Ret r => go_bytes (ReturnValue r) ∧
             (if Succeeded r then price ≤ c_Gas c ∧ GasLeft r = c_Gas c - price
              else GasLeft r = 0 ∧ ReturnValue r = [])
  | Panic => c_CodeAddress c = 5
  | NoFuel => False
  end.
Proof. apply Precompiled_Run_spec. Qed.

Lemma Precompiled_Run_post c config :
  contract_ok c →
  match Precompiled_Run c config with
  | Ret r => 0 ≤ GasLeft r ≤ c_Gas c ∧ go_bytes (ReturnValue r)
  | Panic => c_CodeAddress c = 5
  | NoFuel => False
  end.
Proof.
  intros Hc. pose proof (Precompiled_Run_spec c config Hc) as Hs.
  pose proof (contract_gas_nonneg (c_CodeAddress c) (c_Input c) config (proj1 (ct_input _ Hc))).
  destruct (Precompiled_Run c config) as [r| |]; [|done..]. destruct Hs as [Hb Hs]. split; [|done].
  destruct (ct_gas _ Hc). destruct (Succeeded r); destruct Hs; lia.
Qed.
End laws.
