(* ===== verification/Signer.v ===== *)
(** [crypto/txsigner.go]: signing a transaction and recovering its sender. *)
From S2P Require Import Prelude Types Runtime Crypto EvmState EvmWord EvmLogic Precompiled.

Inductive signErr := errTxnSignature | errRecover | errSign.

(** [FrontierSigner] and [EIP155Signer]. *)
Inductive TxSigner := FrontierSigner | EIP155Signer (chainID : Z).

Definition NewSigner (forks : ForksInTime) (chainID : Z) : TxSigner :=
  if EIP155 forks then EIP155Signer chainID else FrontierSigner.

(** [encodeSignature]: the two copies into a zeroed array of 65 bytes; a value
    too long for its place gives a negative index. *)
Definition encodeSignature (R S : option Z) (V : Z) : outcome (result signErr bytes) :=
  if negb (ValidateSignatureValues V R S) then Ret (Err errTxnSignature)
  else
    let rb := Bytes (default 0 R) in
    let sb := Bytes (default 0 S) in
    let sig := zeros 65 in
    if (32 <? length rb)%nat then Panic
    else
      let sig := take (32 - length rb) sig ++ rb ++ drop 32 sig in
      if (64 <? length sb)%nat then Panic
      else
        let sig := take (64 - length sb) sig ++ sb ++ drop 64 sig in
        Ret (Ok (take 64 sig ++ [V])).

(** The conversion [byte(z.Int64())]. *)
Definition byte_of (z : Z) : Z := z mod 256.

Section signer.
Context `{External} `{Secp256k1}.

Definition calcTxHash (tx : Transaction) (chainID : Z) : Hash :=
  let v := [NewUint (tx_Nonce tx);
            NewBigInt (Some (tx_GasPrice tx));
            NewUint (tx_Gas tx);
            match tx_To tx with None => NewNull | Some to => NewBytes (AddressBytes to) end;
            NewBigInt (Some (tx_Value tx));
            NewBytes (tx_Input tx)] in
  let v := if negb (chainID =? 0) then v ++ [NewUint chainID; NewUint 0; NewUint 0] else v in
  Keccak256 (MarshalTo (NewArray v)).

Definition signer_Hash (s : TxSigner) (tx : Transaction) : Hash :=
  match s with
  | FrontierSigner => calcTxHash tx 0
  | EIP155Signer chainID => calcTxHash tx chainID
  end.

Definition FrontierSigner_CalculateV (parity : Z) : bytes := Bytes (parity + 27).
Definition EIP155Signer_CalculateV (chainID parity : Z) : bytes :=
  Bytes (parity + 35 + s64 chainID * 2).
Definition CalculateV (s : TxSigner) (parity : Z) : bytes :=
  match s with
  | FrontierSigner => FrontierSigner_CalculateV parity
  | EIP155Signer chainID => EIP155Signer_CalculateV chainID parity
  end.

(** The end of both [Sender] methods: the address of the recovered key. *)
Definition recoverSender (hash : Hash) (tx : Transaction) (v : Z)
    : outcome (result signErr Address) :=
  let~ res := encodeSignature (tx_R tx) (tx_S tx) v in
  match res with
  | Err e => Ret (Err e)
  | Ok sig =>
      match Ecrecover (HashBytes hash) sig with
      | None => Ret (Err errRecover)
      | Some pub => Ret (Ok (BytesToAddress (drop 12 (HashBytes (Keccak256 (drop 1 pub))))))
      end
  end.

Definition FrontierSigner_Sender (tx : Transaction) : outcome (result signErr Address) :=
  let refV := match tx_V tx with Some v => SetBytes (Bytes v) | None => 0 end in
  let refV := refV - 27 in
  recoverSender (signer_Hash FrontierSigner tx) tx (byte_of refV).

Definition EIP155Signer_Sender (chainID : Z) (tx : Transaction) : outcome (result signErr Address) :=
  let bigV := match tx_V tx with Some v => SetBytes (Bytes v) | None => 0 end in
  let vv := Uint64 bigV in
  let protected := if BitLen vv <=? 8 then negb (vv =? 27) && negb (vv =? 28) else true in
  if negb protected then FrontierSigner_Sender tx
  else
    let mulOperand := s64 chainID * 2 in
    let bigV := bigV - mulOperand in
    let bigV := bigV - 35 in
    recoverSender (signer_Hash (EIP155Signer chainID) tx) tx (byte_of bigV).

Definition Sender (s : TxSigner) (tx : Transaction) : outcome (result signErr Address) :=
  match s with
  | FrontierSigner => FrontierSigner_Sender tx
  | EIP155Signer chainID => EIP155Signer_Sender chainID tx
  end.

Definition set_VRS (v r s : Z) (t : Transaction) : Transaction :=
  mkTransaction (tx_Nonce t) (tx_GasPrice t) (tx_Gas t) (tx_To t) (tx_Value t)
    (tx_Input t) (Some v) (Some r) (Some s) (tx_Hash t) (tx_From t).

(** [SignTx], the same in both signers. *)
Definition SignTx (s : TxSigner) (tx : Transaction) (priv : PrivateKey) : result signErr Transaction :=
  match Sign priv (HashBytes (signer_Hash s tx)) with
  | None => Err errSign
  | Some sig =>
      Ok (set_VRS (SetBytes (CalculateV s (nth 64 sig 0))) (SetBytes (take 32 sig))
            (SetBytes (take 32 (drop 32 sig))) tx)
  end.

(** The address of a key. *)
Definition PubKeyToAddress (pub : Z * Z) : Address :=
  BytesToAddress (drop 12 (HashBytes (Keccak256 (drop 1 (MarshalPublicKey pub))))).
End signer.

(** ** Encoding *)

#[local] Opaque be_bytes.

Lemma leftPad_Bytes z n : 0 ≤ z < 256 ^ Z.of_nat n → zeros (n - length (Bytes z)) ++ Bytes z = be_bytes n z.
Proof.
  intros Hz. pose proof (Bytes_length z n Hz) as Hl.
  rewrite <- (be_bytes_SetBytes (zeros _ ++ Bytes z)).
  2: { apply Forall_app. split; [apply zeros_range|apply Bytes_range]. }
  rewrite SetBytes_zeros, Bytes_value by lia. f_equal.
  rewrite length_app. unfold zeros. rewrite length_replicate. lia.
Qed.

(** A number copied to the end of a zeroed part of the buffer. *)
Lemma copy_right z (pre post : bytes) n :
  0 ≤ z < 256 ^ Z.of_nat n →
  take (length pre + n - length (Bytes z)) (pre ++ zeros n ++ post) ++ Bytes z ++
    drop (length pre + n) (pre ++ zeros n ++ post) =
  pre ++ be_bytes n z ++ post.
Proof.
  intros Hz. pose proof (Bytes_length z n Hz) as Hl.
  assert (drop (length pre + n) (pre ++ zeros n ++ post) = post) as ->.
  { rewrite app_assoc, drop_app_length'; [done|].
    rewrite length_app. unfold zeros. by rewrite length_replicate. }
  rewrite take_app, take_ge by lia.
  rewrite <- leftPad_Bytes by done. rewrite <- !app_assoc. do 2 f_equal.
  rewrite take_app_le by (unfold zeros; rewrite length_replicate; lia).
  unfold zeros. rewrite take_replicate. f_equal. lia.
Qed.

Lemma encodeSignature_spec r s v :
  0 ≤ r < 2 ^ 256 → 0 ≤ s < 2 ^ 256 → ValidateSignatureValues v (Some r) (Some s) = true →
  encodeSignature (Some r) (Some s) v = Ret (Ok (be_bytes 32 r ++ be_bytes 32 s ++ [v])).
Proof.
  intros Hr Hs Hv. unfold encodeSignature. rewrite Hv. cbn [negb from_option id].
  pose proof (Bytes_length r 32 Hr) as Hlr. pose proof (Bytes_length s 32 Hs) as Hls. cbv zeta.
  rewrite (proj2 (Nat.ltb_ge 32 (length (Bytes r)))), (proj2 (Nat.ltb_ge 64 (length (Bytes s)))) by lia.
  pose proof (copy_right r [] (zeros 33) 32 Hr) as H1.
  pose proof (copy_right s (be_bytes 32 r) (zeros 1) 32 Hs) as H2.
  rewrite length_be_bytes in H2. cbn [length app plus] in H1. change (32 + 32)%nat with 64%nat in H2.
  change (zeros 65) with (zeros 32 ++ zeros 33). rewrite H1.
  change (zeros 33) with (zeros 32 ++ zeros 1). rewrite H2.
  rewrite app_assoc, take_app_length'; [by rewrite <- app_assoc|].
  by rewrite length_app, !length_be_bytes.
Qed.

(** ** Round trip *)

Lemma Int_roundtrip z : 0 ≤ z → SetBytes (Bytes (SetBytes (Bytes z))) = z.
Proof. intros. by rewrite !Bytes_value by (rewrite ?Bytes_value; lia). Qed.

Section roundtrip.
Context `{External} `{Secp256k1Laws}.

(** A compact signature [header, r, s] whose header is one of the two the code
    can encode and whose values pass its checks. *)
Definition encodable (sig : bytes) : Prop :=
  ∃ p, (p = 0 ∨ p = 1) ∧ nth 0 sig 0 = 27 + p ∧
    ValidateSignatureValues p (Some (SetBytes (take 32 (drop 1 sig))))
      (Some (SetBytes (drop 33 sig))) = true.

Lemma recoverSender_Sign hash tx priv sig p v :
  SignCompact priv (HashBytes hash) = Some sig → nth 0 sig 0 = 27 + p → p = 0 ∨ p = 1 →
  ValidateSignatureValues p (Some (SetBytes (take 32 (drop 1 sig))))
      (Some (SetBytes (drop 33 sig))) = true →
  recoverSender hash (set_VRS v (SetBytes (take 32 (drop 1 sig))) (SetBytes (drop 33 sig)) tx) p
  = Ret (Ok (PubKeyToAddress (PublicKey priv))).
Proof.
  intros Hsig Hh Hp Hv. destruct (SignCompact_shape _ _ _ Hsig) as [Hl Hb].
  unfold recoverSender. cbn [set_VRS tx_R tx_S].
  set (rb := take 32 (drop 1 sig)) in *. set (sb := drop 33 sig) in *.
  assert (Forall byte_range rb) as Hrb by (by apply Forall_take, Forall_drop).
  assert (Forall byte_range sb) as Hsb by (by apply Forall_drop).
  assert (length rb = 32%nat) as Hlr by (unfold rb; rewrite length_take, length_drop; lia).
  assert (length sb = 32%nat) as Hls by (unfold sb; rewrite length_drop; lia).
  pose proof (SetBytes_range rb Hrb) as Hr. pose proof (SetBytes_range sb Hsb) as Hs.
  rewrite Hlr in Hr. rewrite Hls in Hs.
  pose proof (be_bytes_SetBytes rb Hrb) as Er. pose proof (be_bytes_SetBytes sb Hsb) as Es.
  rewrite Hlr in Er. rewrite Hls in Es.
  rewrite encodeSignature_spec by done. cbn [obind]. rewrite Er, Es.
  unfold Ecrecover, RecoverPubkey. rewrite !length_app, Hlr, Hls. cbn [length Nat.add Nat.ltb Nat.leb].
  rewrite app_assoc. change (65 - 1)%nat with 64%nat.
  rewrite app_nth2, take_app_length' by (rewrite length_app; lia).
  rewrite length_app, Hlr, Hls. cbn [nth Nat.sub Nat.add].
  assert ((if p =? 1 then 28 else 27) :: rb ++ sb = sig) as ->.
  { destruct sig as [|hd sig]; [done|]. cbn in Hh. unfold rb, sb.
    change (drop 33 (hd :: sig)) with (drop 32 sig). change (drop 1 (hd :: sig)) with sig.
    rewrite (take_drop 32 sig). f_equal. destruct Hp; subst; simpl; lia. }
  by rewrite (RecoverCompact_SignCompact _ _ _ Hsig).
Qed.

Lemma SignTx_fields s tx priv sig p :
  SignCompact priv (HashBytes (signer_Hash s tx)) = Some sig → nth 0 sig 0 = 27 + p → p = 0 ∨ p = 1 →
  SignTx s tx priv = Ok (set_VRS (SetBytes (CalculateV s p)) (SetBytes (take 32 (drop 1 sig)))
                           (SetBytes (drop 33 sig)) tx).
Proof.
  intros Hsig Hh Hp. destruct (SignCompact_shape _ _ _ Hsig) as [Hl _].
  unfold SignTx, Sign. rewrite Hsig, Hh.
  destruct sig as [|hd sig]; [done|]. cbn [length] in Hl.
  cbn [app]. assert (∀ l, drop 1 (hd :: l) = l) as Hd by done. rewrite Hd.
  change (drop 33 (hd :: sig)) with (drop 32 sig). rewrite ?Hd.
  assert (length sig = 64%nat) as Hl64 by lia.
  rewrite app_nth2 by lia. replace (64 - length sig)%nat with 0%nat by lia. cbn [nth].
  rewrite take_app_le by lia. rewrite drop_app_le, take_app_length' by (rewrite ?length_drop; lia).
  do 3 f_equal. destruct Hp; subst; done.
Qed.

(** The sender recovered from a signed transaction is the address of the
    key that signed it, for either signer, on chain ids below 2^62. *)
Theorem Sender_SignTx s tx priv sig :
  (∀ chainID, s = EIP155Signer chainID → 0 ≤ chainID < 2 ^ 62) →
  SignCompact priv (HashBytes (signer_Hash s tx)) = Some sig → encodable sig →
  ∃ tx', SignTx s tx priv = Ok tx' ∧
         Sender s tx' = Ret (Ok (PubKeyToAddress (PublicKey priv))).
Proof.
  intros Hid Hsig (p & Hp & Hh & Hv). eexists. split; [by apply SignTx_fields|].
  destruct s as [|chainID]; cbn [Sender CalculateV].
  - unfold FrontierSigner_Sender, FrontierSigner_CalculateV. cbn [set_VRS tx_V]. rewrite Int_roundtrip by lia.
    replace (byte_of _) with p by (unfold byte_of; destruct Hp; subst; done).
    by apply recoverSender_Sign.
  - specialize (Hid chainID eq_refl). unfold EIP155Signer_Sender, EIP155Signer_CalculateV. cbn [set_VRS tx_V].
    assert (s64 chainID = chainID) as -> by (unfold s64; rewrite Z.mod_small; unfold M64; lia).
    rewrite Int_roundtrip by lia. unfold Uint64. rewrite Z.abs_eq, u64_small by (unfold is_u64, M64; lia).
    rewrite !(proj2 (Z.eqb_neq _ _)) by lia. cbn [negb andb].
    replace (if _ <=? 8 then true else true) with true by (by case_match). cbn [negb].
    replace (byte_of _) with p; [by apply recoverSender_Sign|].
    replace (p + 35 + chainID * 2 - chainID * 2 - 35) with p by lia.
    unfold byte_of. destruct Hp; subst; done.
Qed.
End roundtrip.

(** ** The checks on signature values *)

Lemma SetBytes_cons x l : SetBytes (x :: l) = x * 256 ^ Z.of_nat (length l) + SetBytes l.
Proof.
  induction l as [|d l IH] using rev_ind; [unfold SetBytes; simpl; lia|].
  rewrite app_comm_cons, !SetBytes_snoc, IH, length_app. simpl.
  rewrite Nat2Z.inj_add, Z.pow_add_r by lia. change (256 ^ Z.of_nat 1) with 256. lia.
Qed.

(** On strings of the same length the lexicographic order is that of the
    numbers. *)
Lemma bytes_Compare_value a b :
  Forall byte_range a → Forall byte_range b → length a = length b →
  bytes_Compare a b = if SetBytes a <? SetBytes b then -1 else if SetBytes b <? SetBytes a then 1 else 0.
Proof.
  intros Ha. revert b. induction Ha as [|x a Hx Ha IH]; intros [|y b] Hb Hl; try done.
  inversion Hb as [|? ? Hy Hb']; subst. cbn [length] in Hl. cbn [bytes_Compare]. rewrite !SetBytes_cons.
  assert (length a = length b) as Hl' by lia. rewrite Hl'.
  pose proof (SetBytes_range a Ha) as Hra. pose proof (SetBytes_range b Hb') as Hrb. rewrite Hl' in Hra.
  destruct (Z.ltb_spec x y), (Z.ltb_spec y x); try lia.
  - rewrite (proj2 (Z.ltb_lt _ _)); [done|nia].
  - rewrite (proj2 (Z.ltb_ge _ _)), (proj2 (Z.ltb_lt _ _)); [done|nia|nia].
  - assert (x = y) as -> by lia. rewrite IH by done.
    repeat case_match; bool_props; lia.
Qed.

Lemma Bytes_32 r : 2 ^ 248 ≤ r < 2 ^ 256 → Bytes r = be_bytes 32 r.
Proof.
  intros Hr. unfold Bytes. rewrite Z.abs_eq by lia. f_equal.
  assert (Z.log2 r < 256) by (apply Z.log2_lt_pow2; lia).
  assert (248 ≤ Z.log2 r) by (apply Z.log2_le_pow2; lia).
  assert ((BitLen r + 7) / 8 = 32) as ->; [|done].
  unfold BitLen. rewrite (proj2 (Z.eqb_neq _ _)), Z.abs_eq by lia.
  symmetry. apply Z.div_unique with (BitLen r + 7 - 256); unfold BitLen;
    rewrite (proj2 (Z.eqb_neq _ _)), Z.abs_eq by lia; lia.
Qed.

Lemma trimmed_32 r : 2 ^ 248 ≤ r < 2 ^ 256 →
  trimLeftZeros (Bytes r) = be_bytes 32 r ∧ ∃ d l, be_bytes 32 r = d :: l ∧ 1 ≤ d ∧ l ≠ [].
Proof.
  intros Hr. pose proof (length_be_bytes 32 r) as Hl. pose proof (be_bytes_range 32 r) as Hb.
  pose proof (SetBytes_be_bytes 32 r) as Hv. rewrite Z.mod_small in Hv by (simpl; lia).
  rewrite Bytes_32 by done. destruct (be_bytes 32 r) as [|d l]; [done|]. cbn [length] in Hl.
  apply Forall_cons in Hb as [Hd Hb']. rewrite SetBytes_cons in Hv.
  pose proof (SetBytes_range l Hb') as Hs.
  replace (Z.of_nat (length l)) with 31 in * by lia.
  assert (1 ≤ d) by (unfold byte_range in *; nia). split.
  - cbn [trimLeftZeros]. rewrite (proj2 (Z.eqb_neq d 0)) by lia. done.
  - exists d, l. split_and!; try done. by destruct l.
Qed.

(** The test on one value. *)
Lemma in_order_32 r : 2 ^ 248 ≤ r < 2 ^ 256 →
  let b := trimLeftZeros (Bytes r) in
  (bytes_Compare b secp256k1N >=? 0) || (bytes_Compare b one <? 0) = negb (r <? secp256k1N_value).
Proof.
  intros Hr. destruct (trimmed_32 r Hr) as (-> & d & l & Hdl & Hd & Hne). cbv zeta.
  assert (bytes_Compare (be_bytes 32 r) one <? 0 = false) as ->.
  { rewrite Hdl. unfold one. cbn [bytes_Compare]. destruct l; [done|].
    rewrite (proj2 (Z.ltb_ge d 1)) by lia. by case_match. }
  assert (secp256k1N = be_bytes 32 secp256k1N_value) as -> by (apply Bytes_32; unfold secp256k1N_value; lia).
  rewrite bytes_Compare_value, !SetBytes_be_bytes by (apply be_bytes_range || by rewrite !length_be_bytes).
  rewrite !Z.mod_small by (unfold secp256k1N_value; simpl; lia). rewrite orb_false_r.
  destruct (Z.ltb_spec r secp256k1N_value); [done|]. by case_match.
Qed.

(** On values of the full 32 bytes the check of a signature is the one the
    curve asks for: both below the order of the curve.  It is not on others: a
    valid 31-byte value is refused, a 33-byte one is accepted. *)
Theorem ValidateSignatureValues_exact :
  (∀ v r s, 2 ^ 248 ≤ r < 2 ^ 256 → 2 ^ 248 ≤ s < 2 ^ 256 →
     ValidateSignatureValues v (Some r) (Some s) =
     (v <=? 1) && (r <? secp256k1N_value) && (s <? secp256k1N_value)) ∧
  ValidateSignatureValues 0 (Some (2 ^ 248 - 1)) (Some (2 ^ 248)) = false ∧
  ValidateSignatureValues 0 (Some (2 ^ 256)) (Some (2 ^ 248)) = true.
Proof.
  split; [|split; vm_compute; reflexivity]. intros v r s Hr Hs.
  unfold ValidateSignatureValues. rewrite (in_order_32 r Hr), (in_order_32 s Hs), Z.gtb_ltb.
  destruct (Z.ltb_spec 1 v), (Z.leb_spec v 1); try lia.
  by destruct (r <? secp256k1N_value), (s <? secp256k1N_value).
Qed.

(** A transaction whose [R] needs 33 bytes passes the check and makes the
    recovery of its sender panic, whatever the signer. *)
Theorem Sender_panics `{External} `{Secp256k1} s nonce gasPrice gas to value input h from :
  Sender s (mkTransaction nonce gasPrice gas to value input (Some 27) (Some (2 ^ 256))
              (Some (2 ^ 248)) h from) = Panic.
Proof. destruct s; vm_compute; reflexivity. Qed.

(** The recovery id is taken modulo 256: adding 256 to [V] gives a different
    transaction with the same sender. *)
Theorem Sender_malleable `{External} `{Secp256k1} chainID tx v r s :
  256 ≤ v < 2 ^ 63 →
  Sender (EIP155Signer chainID) (set_VRS (v + 256) r s tx) =
  Sender (EIP155Signer chainID) (set_VRS v r s tx).
Proof.
  intros Hv. cbn [Sender]. unfold EIP155Signer_Sender. cbn [set_VRS tx_V].
  rewrite !Bytes_value by lia. unfold Uint64. rewrite !Z.abs_eq, !u64_small by (unfold is_u64, M64; lia).
  rewrite !(proj2 (Z.eqb_neq _ _)) by lia. cbn [negb andb].
  do 2 (rewrite (match (_ : bool) as b return (if b then true else true) = true with
                 | true => eq_refl | false => eq_refl end)). cbn [negb].
  unfold byte_of. replace (v + 256 - s64 chainID * 2 - 35) with (v - s64 chainID * 2 - 35 + 1 * 256) by lia.
  rewrite Z.mod_add by done. done.
Qed.
