(* ===== verification/Rlp.v ===== *)
(** Reading RLP: the values [fastrlp.Parser] gives back.

    The reader lives outside the repository.  A parsed value is a byte string or
    an array ([Type], [Raw], [Elems] and [Get] look at it), so it is an [item];
    the parser and the typed getters are the class [RlpReader].  [RlpLaws] is
    what the format documents: parsing what [MarshalTo] wrote gives the value
    back, and the getters read what the writer's calls wrote. *)
From S2P Require Import Prelude Types.

Inductive item :=
| IBytes (b : bytes)
| IArray (l : list item).

Class RlpReader := {
  (** [Parser.Parse]; [None] is an error. *)
  Parse : bytes → option item;
  (** [Value.Len] of a value under construction. *)
  rlp_Len : rlp → Z;
  GetUint64 : item → option Z;
  GetBigInt : item → option Z;
  GetBytes : item → option bytes;
  (** The bytes of the parser's input that a value was read from, which
      [Parser.Hash] digests. *)
  Raw : bytes → item → bytes;
  (** [GetBytes(dst, n)]: exactly [n] bytes; [GetHash] and [GetAddr] are it. *)
  GetBytesN : nat → item → option bytes;
}.

(** What a written value reads as: integers without leading zeros, and nothing
    for a null. *)
Fixpoint item_of (v : rlp) : item :=
  match v with
  | NewBytes b => IBytes b
  | NewUint n => IBytes (Bytes n)
  | NewBigInt None => IBytes []
  | NewBigInt (Some z) => IBytes (Bytes z)
  | NewNull => IBytes []
  | NewNullArray => IArray []
  | NewArray l => IArray (item_of <$> l)
  end.

(** The values within a value. *)
Inductive rlp_within : rlp → rlp → Prop :=
| within_refl v : rlp_within v v
| within_array v w l : w ∈ l → rlp_within v w → rlp_within v (NewArray l).

(** [Len] of a string. *)
Class RlpSize `{RlpReader} : Prop := {
  rlp_Len_NewBytes b : rlp_Len (NewBytes b) = Z.of_nat (length b);
}.

Class RlpLaws `{External} `{RlpReader} : Prop := {
  rlp_laws_size :: RlpSize;
  Parse_MarshalTo v : Parse (MarshalTo v) = Some (item_of v);
  MarshalTo_nonempty v : MarshalTo v ≠ [];
  GetUint64_IBytes b : Forall byte_range b → (length b ≤ 8)%nat → GetUint64 (IBytes b) = Some (SetBytes b);
  GetBigInt_Bytes z : 0 ≤ z → GetBigInt (IBytes (Bytes z)) = Some z;
  GetBytes_IBytes b : GetBytes (IBytes b) = Some b;
  Raw_MarshalTo v w : rlp_within w v → Raw (MarshalTo v) (item_of w) = MarshalTo w;
  GetBytesN_IBytes b : GetBytesN (length b) (IBytes b) = Some b;
}.

Lemma GetUint64_Bytes `{RlpLaws} n : is_u64 n → GetUint64 (IBytes (Bytes n)) = Some n.
Proof.
  intros Hn. unfold is_u64, M64 in Hn. rewrite GetUint64_IBytes; [|apply Bytes_range|apply Bytes_length; simpl; lia].
  by rewrite Bytes_value by lia.
Qed.

(** ** The format *)

(** The header of a string or an array of [n] bytes. *)
Definition rlp_header (short long : Z) (n : nat) : bytes :=
  if Z.of_nat n <? 56 then [short + Z.of_nat n]
  else let size := Bytes (Z.of_nat n) in (long + Z.of_nat (length size)) :: size.

(** The encoding the format documents. *)
Fixpoint rlp_encode (v : item) : bytes :=
  match v with
  | IBytes b =>
      match b with
      | [d] => if d <? 128 then b else rlp_header 0x80 0xB7 (length b) ++ b
      | _ => rlp_header 0x80 0xB7 (length b) ++ b
      end
  | IArray l =>
      let p := concat (map rlp_encode l) in rlp_header 0xC0 0xF7 (length p) ++ p
  end.

(** The bytes of the elements of an array. *)
Definition rlp_payload (l : list rlp) : bytes := concat (rlp_encode ∘ item_of <$> l).

(** What the writer documents, on values within 64 bits of size. *)
Class RlpFormat `{External} `{RlpReader} : Prop := {
  rlp_format_size :: RlpSize;
  MarshalTo_format v : Z.of_nat (length (rlp_encode (item_of v))) < 2 ^ 64 → MarshalTo v = rlp_encode (item_of v);
  rlp_Len_NewArray l : Z.of_nat (length (rlp_payload l)) ≤ rlp_Len (NewArray l);
}.
