(* ===== verification/RlpTypes.v ===== *)
(** The encodings of package [types] ([rlp_marshal.go], [rlp_unmarshal.go] and
    their [_storage] variants): blocks, bodies, headers, transactions, receipts
    and logs.

    The marshalling functions build a value of the writer; [UnmarshalRLPFrom]
    takes a parsed value and, for the digest of a transaction, the input of the
    parser.  An error is [None].  [HeaderHash] is a variable of the package,
    which the consensus engine replaces: it is an argument. *)
From S2P Require Import Prelude Types Runtime StateTxn Bloom Rlp.

(** [GetElems]: an error for a string. *)
Definition GetElems (v : item) : option (list item) :=
  match v with IArray l => Some l | IBytes _ => None end.

(** An array that may be empty. *)
Definition array_or_null (l : list rlp) : rlp := match l with [] => NewNullArray | _ => NewArray l end.

(** ** Marshalling *)

Definition hd_MarshalRLPWith (h : Header) : rlp :=
  NewArray [
    NewBytes (HashBytes (hd_ParentHash h));
    NewBytes (HashBytes (hd_Sha3Uncles h));
    NewBytes (hd_Miner h);
    NewBytes (HashBytes (hd_StateRoot h));
    NewBytes (HashBytes (hd_TxRoot h));
    NewBytes (HashBytes (hd_ReceiptsRoot h));
    NewBytes (hd_LogsBloom h);
    NewUint (hd_Difficulty h);
    NewUint (hd_Number h);
    NewUint (hd_GasLimit h);
    NewUint (hd_GasUsed h);
    NewUint (hd_Timestamp h);
    NewBytes (hd_ExtraData h);
    NewBytes (HashBytes (hd_MixHash h));
    NewBytes (hd_Nonce h) ].

Definition bk_MarshalRLPWith (b : Block) : rlp :=
  NewArray [
    hd_MarshalRLPWith (bk_Header b);
    array_or_null (tx_MarshalRLPWith <$> bk_Transactions b);
    array_or_null (hd_MarshalRLPWith <$> bk_Uncles b) ].

Definition log_MarshalRLPWith (l : Log) : rlp :=
  NewArray [
    NewBytes (AddressBytes (log_Address l));
    NewArray ((λ t, NewBytes (HashBytes t)) <$> log_Topics l);
    NewBytes (log_Data l) ].

Definition MarshalLogsWith (r : Receipt) : rlp := array_or_null (log_MarshalRLPWith <$> rc_Logs r).

Definition rc_MarshalRLPWith (r : Receipt) : rlp :=
  NewArray [
    match rc_Status r with
    | Some s => NewUint s
    | None => NewBytes (HashBytes (rc_Root r))
    end;
    NewUint (rc_CumulativeGasUsed r);
    NewBytes (rc_LogsBloom r);
    MarshalLogsWith r ].

Definition receipts_MarshalRLPWith (rs : list Receipt) : rlp := NewArray (rc_MarshalRLPWith <$> rs).

(** *** For the storage *)

Record Body := mkBody {
  bd_Transactions : list Transaction;
  bd_Uncles : list Header;
}.

Definition bk_Body (b : Block) : Body := mkBody (bk_Transactions b) (bk_Uncles b).

Definition tx_MarshalStoreRLPWith (t : Transaction) : rlp :=
  NewArray [tx_MarshalRLPWith t; NewBytes (AddressBytes (tx_From t))].

Definition bd_MarshalRLPWith (b : Body) : rlp :=
  NewArray [
    array_or_null (tx_MarshalStoreRLPWith <$> bd_Transactions b);
    array_or_null (hd_MarshalRLPWith <$> bd_Uncles b) ].

Definition rc_MarshalStoreRLPWith (r : Receipt) : rlp :=
  NewArray [
    rc_MarshalRLPWith r;
    match rc_ContractAddress r with None => NewNull | Some a => NewBytes (AddressBytes a) end;
    NewUint (rc_GasUsed r);
    NewBytes (HashBytes (rc_TxHash r)) ].

Definition receipts_MarshalStoreRLPWith (rs : list Receipt) : rlp := NewArray (rc_MarshalStoreRLPWith <$> rs).

Section unmarshal.
Context `{External} `{RlpReader}.

Definition hd_MarshalRLP (h : Header) : bytes := MarshalTo (hd_MarshalRLPWith h).
Definition bk_MarshalRLP (b : Block) : bytes := MarshalTo (bk_MarshalRLPWith b).
Definition bk_Size (b : Block) : Z := Z.of_nat (length (bk_MarshalRLP b)).

Definition defHeaderHash (h : Header) : Hash := Keccak256 (hd_MarshalRLP h).

(** ** Unmarshalling *)

Definition hd_SetNonce (i : Z) : bytes := be_bytes 8 i.

Definition set_hd_Hash (hash : Hash) (h : Header) : Header :=
  mkHeader (hd_ParentHash h) (hd_Sha3Uncles h) (hd_Miner h) (hd_StateRoot h) (hd_TxRoot h) (hd_ReceiptsRoot h)
    (hd_LogsBloom h) (hd_Difficulty h) (hd_Number h) (hd_GasLimit h) (hd_GasUsed h) (hd_Timestamp h)
    (hd_ExtraData h) (hd_MixHash h) (hd_Nonce h) hash.

Section header.
Variable HeaderHash : Header → Hash.

Definition hd_ComputeHash (h : Header) : Header := set_hd_Hash (HeaderHash h) h.

Definition hd_UnmarshalRLPFrom (v : item) : option Header :=
  elems ← GetElems v;
  match elems with
  | e0 :: e1 :: e2 :: e3 :: e4 :: e5 :: e6 :: e7 :: e8 :: e9 :: e10 :: e11 :: e12 :: e13 :: e14 :: _ =>
      parentHash ← GetBytesN 32 e0;
      sha3Uncles ← GetBytesN 32 e1;
      miner ← GetBytes e2;
      stateRoot ← GetBytesN 32 e3;
      txRoot ← GetBytesN 32 e4;
      receiptsRoot ← GetBytesN 32 e5;
      logsBloom ← GetBytesN 256 e6;
      difficulty ← GetUint64 e7;
      number ← GetUint64 e8;
      gasLimit ← GetUint64 e9;
      gasUsed ← GetUint64 e10;
      timestamp ← GetUint64 e11;
      extraData ← GetBytes e12;
      mixHash ← GetBytesN 32 e13;
      nonce ← GetUint64 e14;
      Some (hd_ComputeHash
        (mkHeader (BytesToHash parentHash) (BytesToHash sha3Uncles) miner (BytesToHash stateRoot)
           (BytesToHash txRoot) (BytesToHash receiptsRoot) logsBloom difficulty number gasLimit gasUsed
           timestamp extraData (BytesToHash mixHash) (hd_SetNonce nonce) ZeroHash))
  | _ => None
  end.

Definition tx_UnmarshalRLPFrom (input : bytes) (v : item) : option Transaction :=
  elems ← GetElems v;
  match elems with
  | e0 :: e1 :: e2 :: e3 :: e4 :: e5 :: e6 :: e7 :: e8 :: _ =>
      let hash := Keccak256 (Raw input v) in
      nonce ← GetUint64 e0;
      gasPrice ← GetBigInt e1;
      gas ← GetUint64 e2;
      let to := match GetBytes e3 with
                | Some vv => if (length vv =? 20)%nat then Some (BytesToAddress vv) else None
                | None => None
                end in
      value ← GetBigInt e4;
      txInput ← GetBytes e5;
      V ← GetBigInt e6;
      R ← GetBigInt e7;
      S ← GetBigInt e8;
      Some (mkTransaction nonce gasPrice gas to value txInput (Some V) (Some R) (Some S) hash ZeroAddress)
  | _ => None
  end.

Definition bk_UnmarshalRLPFrom (input : bytes) (v : item) : option Block :=
  elems ← GetElems v;
  match elems with
  | e0 :: e1 :: e2 :: _ =>
      header ← hd_UnmarshalRLPFrom e0;
      txns ← GetElems e1;
      transactions ← mapM (tx_UnmarshalRLPFrom input) txns;
      uncles ← GetElems e2;
      uncles ← mapM hd_UnmarshalRLPFrom uncles;
      Some (mkBlock header transactions uncles)
  | _ => None
  end.

Definition log_UnmarshalRLPFrom (v : item) : option Log :=
  elems ← GetElems v;
  match elems with
  | e0 :: e1 :: e2 :: _ =>
      address ← GetBytesN 20 e0;
      topicElems ← GetElems e1;
      topics ← mapM (GetBytesN 32) topicElems;
      data ← GetBytes e2;
      Some (mkLog (BytesToAddress address) (BytesToHash <$> topics) data)
  | _ => None
  end.

(** The receipt, with the context fields unset. *)
Definition rc_UnmarshalRLPFrom (v : item) : option Receipt :=
  elems ← GetElems v;
  match elems with
  | e0 :: e1 :: e2 :: e3 :: _ =>
      buf ← GetBytes e0;
      let '(root, status) :=
        if (length buf =? 32)%nat then (BytesToHash buf, None)
        else match buf with [d] => (ZeroHash, Some d) | _ => (ZeroHash, Some 0) end in
      cumulativeGasUsed ← GetUint64 e1;
      logsBloom ← GetBytesN 256 e2;
      logsElems ← GetElems e3;
      logs ← mapM log_UnmarshalRLPFrom logsElems;
      Some (mkReceipt root cumulativeGasUsed logsBloom logs status 0 None ZeroHash)
  | _ => None
  end.

Definition receipts_UnmarshalRLPFrom (v : item) : option (list Receipt) :=
  elems ← GetElems v; mapM rc_UnmarshalRLPFrom elems.

(** *** From the storage *)

Definition tx_UnmarshalStoreRLPFrom (input : bytes) (v : item) : option Transaction :=
  elems ← GetElems v;
  match elems with
  | e0 :: e1 :: _ =>
      t ← tx_UnmarshalRLPFrom input e0;
      from ← GetBytesN 20 e1;
      Some (set_From (BytesToAddress from) t)
  | _ => None
  end.

Definition bd_UnmarshalRLPFrom (input : bytes) (v : item) : option Body :=
  tuple ← GetElems v;
  match tuple with
  | e0 :: e1 :: _ =>
      txns ← GetElems e0;
      transactions ← mapM (tx_UnmarshalStoreRLPFrom input) txns;
      uncles ← GetElems e1;
      uncles ← mapM hd_UnmarshalRLPFrom uncles;
      Some (mkBody transactions uncles)
  | _ => None
  end.

Definition rc_UnmarshalStoreRLPFrom (v : item) : option Receipt :=
  elems ← GetElems v;
  match elems with
  | e0 :: e1 :: e2 :: rest =>
      r ← rc_UnmarshalRLPFrom e0;
      vv ← GetBytes e1;
      let contractAddress := if (length vv =? 20)%nat then Some (BytesToAddress vv) else None in
      gasUsed ← GetUint64 e2;
      let receipt txHash :=
        mkReceipt (rc_Root r) (rc_CumulativeGasUsed r) (rc_LogsBloom r) (rc_Logs r) (rc_Status r) gasUsed
          contractAddress txHash in
      match rest with
      | [e3] => vv ← GetBytes e3; Some (receipt (BytesToHash vv))
      | _ => Some (receipt ZeroHash)
      end
  | _ => None
  end.

Definition receipts_UnmarshalStoreRLPFrom (v : item) : option (list Receipt) :=
  elems ← GetElems v; mapM rc_UnmarshalStoreRLPFrom elems.

(** [UnmarshalRlp]. *)
Definition UnmarshalRlp {A} (obj : bytes → item → option A) (input : bytes) : option A :=
  v ← Parse input; obj input v.

Definition hd_UnmarshalRLP : bytes → option Header := UnmarshalRlp (λ _, hd_UnmarshalRLPFrom).
Definition bk_UnmarshalRLP : bytes → option Block := UnmarshalRlp bk_UnmarshalRLPFrom.
Definition tx_UnmarshalRLP : bytes → option Transaction := UnmarshalRlp tx_UnmarshalRLPFrom.
Definition bd_UnmarshalRLP : bytes → option Body := UnmarshalRlp bd_UnmarshalRLPFrom.
Definition receipts_UnmarshalRLP : bytes → option (list Receipt) := UnmarshalRlp (λ _, receipts_UnmarshalRLPFrom).
Definition receipts_UnmarshalStoreRLP : bytes → option (list Receipt) :=
  UnmarshalRlp (λ _, receipts_UnmarshalStoreRLPFrom).
End header.
End unmarshal.

(** ** Round trips *)

Section roundtrip.
Context `{External} `{RlpReader} `{!RlpLaws}.
Variable HeaderHash : Header → Hash.
#[local] Opaque HashBytes AddressBytes.

Definition byte_array (n : nat) (b : bytes) : Prop := length b = n ∧ Forall byte_range b.

(** A header within the widths of its fields, whose hash is the hash of the
    others. *)
Record header_wf (h : Header) : Prop := {
  hw_parent : hash_ok (hd_ParentHash h);
  hw_uncles : hash_ok (hd_Sha3Uncles h);
  hw_state : hash_ok (hd_StateRoot h);
  hw_tx : hash_ok (hd_TxRoot h);
  hw_receipts : hash_ok (hd_ReceiptsRoot h);
  hw_mix : hash_ok (hd_MixHash h);
  hw_bloom : byte_array 256 (hd_LogsBloom h);
  hw_nonce : byte_array 8 (hd_Nonce h);
  hw_ints : Forall is_u64 [hd_Difficulty h; hd_Number h; hd_GasLimit h; hd_GasUsed h; hd_Timestamp h];
  hw_hash : hd_Hash h = HeaderHash (set_hd_Hash ZeroHash h);
}.

Lemma GetHash_HashBytes h : GetBytesN 32 (IBytes (HashBytes h)) = Some (HashBytes h).
Proof. rewrite <- (length_HashBytes h) at 1. apply GetBytesN_IBytes. Qed.
Lemma GetAddr_AddressBytes a : GetBytesN 20 (IBytes (AddressBytes a)) = Some (AddressBytes a).
Proof. rewrite <- (length_AddressBytes a) at 1. apply GetBytesN_IBytes. Qed.

Lemma header_from_item h :
  header_wf h → hd_UnmarshalRLPFrom HeaderHash (item_of (hd_MarshalRLPWith h)) = Some h.
Proof.
  intros [H1' H2' H3' H4' H5' H6' [Hb Hb'] [Hn Hn'] Hints Hh]. rewrite !Forall_cons in Hints. destruct Hints as (? & ? & ? & ? & ? & _).
  unfold hd_UnmarshalRLPFrom, hd_MarshalRLPWith. cbn [item_of fmap list_fmap GetElems mbind option_bind].
  rewrite !GetHash_HashBytes, !GetBytes_IBytes, !GetUint64_Bytes, GetUint64_IBytes by (done || lia).
  rewrite <- Hb, GetBytesN_IBytes. cbn [mbind option_bind].
  rewrite !BytesToHash_id by done. unfold hd_SetNonce. rewrite <- Hn at 1. rewrite be_bytes_SetBytes by done.
  unfold hd_ComputeHash, set_hd_Hash in *. cbn in *. rewrite <- Hh. by destruct h.
Qed.
Record tx_wf (t : Transaction) : Prop := {
  tw_nonce : is_u64 (tx_Nonce t);
  tw_gas : is_u64 (tx_Gas t);
  tw_price : 0 ≤ tx_GasPrice t;
  tw_value : 0 ≤ tx_Value t;
  tw_to a : tx_To t = Some a → addr_ok a;
  tw_sig : ∃ v r s, tx_V t = Some v ∧ tx_R t = Some r ∧ tx_S t = Some s ∧ 0 ≤ v ∧ 0 ≤ r ∧ 0 ≤ s;
}.

(** A transaction read from an input that holds it: its hash is computed, its
    sender is not known. *)
Lemma tx_from_item v t :
  tx_wf t → rlp_within (tx_MarshalRLPWith t) v →
  tx_UnmarshalRLPFrom (MarshalTo v) (item_of (tx_MarshalRLPWith t)) = Some (set_From ZeroAddress (ComputeHash t)).
Proof.
  intros [Hn Hg Hp Hv Hto (V & R & S & EV & ER & ES & ? & ? & ?)] Hin. pose proof (Raw_MarshalTo _ _ Hin) as Hraw.
  unfold tx_UnmarshalRLPFrom. rewrite Hraw. unfold tx_MarshalRLPWith at 2. rewrite EV, ER, ES.
  cbn [item_of fmap list_fmap GetElems mbind option_bind].
  rewrite !GetUint64_Bytes, !GetBigInt_Bytes, !GetBytes_IBytes by done. cbn [mbind option_bind].
  unfold ComputeHash, set_From, set_Hash. cbn [tx_Nonce tx_GasPrice tx_Gas tx_To tx_Value tx_Input tx_V tx_R tx_S tx_Hash].
  rewrite EV, ER, ES. destruct (tx_To t) as [a|]; cbn [item_of]; rewrite GetBytes_IBytes; [|done].
  rewrite length_AddressBytes. cbn [Nat.eqb]. by rewrite BytesToAddress_id by auto.
Qed.

Lemma item_of_array_or_null l : item_of (array_or_null l) = IArray (item_of <$> l).
Proof. by destruct l. Qed.

Lemma mapM_items {A B} (f : item → option B) (m : A → rlp) (g : A → B) l :
  (∀ x, x ∈ l → f (item_of (m x)) = Some (g x)) → mapM f (item_of <$> (m <$> l)) = Some (g <$> l).
Proof.
  intros Hf. rewrite <- list_fmap_compose. apply mapM_Some_2. rewrite Forall2_fmap. apply Forall_Forall2_diag.
  apply Forall_forall. intros x Hx. by apply Hf.
Qed.

Lemma within_list x l v : x ∈ l → rlp_within (array_or_null l) v → rlp_within x v.
Proof.
  intros Hx Hv. destruct l as [|y l]; [by apply elem_of_nil in Hx|]. cbn [array_or_null] in Hv.
  remember (NewArray (y :: l)) as a eqn:E. induction Hv as [|? ? ? ? ? IH]; subst; [by eapply within_array; [|constructor]|].
  eapply within_array; [done|by apply IH].
Qed.

(** What the wire does to a block: the hashes of its transactions are computed,
    their senders are forgotten. *)
Definition wire_block (b : Block) : Block :=
  mkBlock (bk_Header b) ((λ t, set_From ZeroAddress (ComputeHash t)) <$> bk_Transactions b) (bk_Uncles b).

Record block_wf (b : Block) : Prop := {
  bw_header : header_wf (bk_Header b);
  bw_txs : Forall tx_wf (bk_Transactions b);
  bw_uncles : Forall header_wf (bk_Uncles b);
}.

Lemma headers_from_items l :
  Forall header_wf l → mapM (hd_UnmarshalRLPFrom HeaderHash) (item_of <$> (hd_MarshalRLPWith <$> l)) = Some l.
Proof.
  intros Hl. rewrite (mapM_items _ _ id), list_fmap_id; [done|]. intros h Hh. apply header_from_item.
  by apply (proj1 (Forall_forall _ _) Hl).
Qed.

Lemma block_decodes b :
  block_wf b → bk_UnmarshalRLP HeaderHash (bk_MarshalRLP b) = Some (wire_block b).
Proof.
  intros [Hh Ht Hu]. unfold bk_UnmarshalRLP, UnmarshalRlp, bk_MarshalRLP. rewrite Parse_MarshalTo. cbn [mbind option_bind].
  set (input := MarshalTo _). unfold bk_UnmarshalRLPFrom. unfold bk_MarshalRLPWith at 1. cbn [item_of fmap list_fmap GetElems mbind option_bind].
  rewrite header_from_item, !item_of_array_or_null by done. cbn [GetElems mbind option_bind].
  rewrite (mapM_items _ _ (λ t, set_From ZeroAddress (ComputeHash t))).
  - cbn [mbind option_bind]. by rewrite headers_from_items.
  - intros t Hin. apply tx_from_item; [by apply (proj1 (Forall_forall _ _) Ht)|].
    eapply within_list; [by apply list_elem_of_fmap_2|]. eapply within_array; [|constructor]. right. left.
Qed.

(** A block read back from its encoding. *)
Theorem block_roundtrip b :
  block_wf b → bk_UnmarshalRLP HeaderHash (bk_MarshalRLP b) = Some (wire_block b).
Proof. apply block_decodes. Qed.

(** A transaction read from the storage keeps its sender. *)
Theorem body_roundtrip b :
  Forall tx_wf (bd_Transactions b) → Forall (addr_ok ∘ tx_From) (bd_Transactions b) → Forall header_wf (bd_Uncles b) →
  bd_UnmarshalRLP HeaderHash (MarshalTo (bd_MarshalRLPWith b)) = Some (mkBody (ComputeHash <$> bd_Transactions b) (bd_Uncles b)).
Proof.
  intros Ht Hf Hu. unfold bd_UnmarshalRLP, UnmarshalRlp. rewrite Parse_MarshalTo. cbn [mbind option_bind].
  set (input := MarshalTo _). unfold bd_UnmarshalRLPFrom. unfold bd_MarshalRLPWith at 1. cbn [item_of fmap list_fmap GetElems mbind option_bind].
  rewrite !item_of_array_or_null. cbn [GetElems mbind option_bind].
  rewrite (mapM_items _ _ ComputeHash); [cbn [mbind option_bind]; by rewrite headers_from_items|]. intros t Hin.
  unfold tx_UnmarshalStoreRLPFrom. unfold tx_MarshalStoreRLPWith at 1. cbn [item_of fmap list_fmap GetElems mbind option_bind].
  subst input. rewrite tx_from_item, GetAddr_AddressBytes; [|by apply (proj1 (Forall_forall _ _) Ht)|].
  - cbn [mbind option_bind]. rewrite BytesToAddress_id by (by apply (proj1 (Forall_forall _ _) Hf)). by destruct t.
  - assert (rlp_within (tx_MarshalStoreRLPWith t) (bd_MarshalRLPWith b)) as Hw.
    { eapply within_list; [by apply list_elem_of_fmap_2|]. eapply within_array; [|constructor]. left. }
    clear -Hw. remember (tx_MarshalStoreRLPWith t) as a eqn:E. induction Hw as [|? ? ? ? ? IH]; subst.
    + eapply within_array; [left|constructor].
    + eapply within_array; [done|by apply IH].
Qed.

Definition log_wf (l : Log) : Prop := addr_ok (log_Address l) ∧ Forall hash_ok (log_Topics l).

(** The status takes one byte, and excludes the root. *)
Record receipt_wf (r : Receipt) : Prop := {
  rw_status : match rc_Status r with Some s => 0 ≤ s < 256 ∧ rc_Root r = ZeroHash | None => hash_ok (rc_Root r) end;
  rw_bloom : byte_array 256 (rc_LogsBloom r);
  rw_logs : Forall log_wf (rc_Logs r);
  rw_gas : is_u64 (rc_CumulativeGasUsed r) ∧ is_u64 (rc_GasUsed r);
  rw_contract a : rc_ContractAddress r = Some a → addr_ok a;
  rw_txhash : hash_ok (rc_TxHash r);
}.

Lemma log_from_item l : log_wf l → log_UnmarshalRLPFrom (item_of (log_MarshalRLPWith l)) = Some l.
Proof.
  intros [Ha Ht]. unfold log_UnmarshalRLPFrom, log_MarshalRLPWith. cbn [item_of fmap list_fmap GetElems mbind option_bind].
  rewrite GetAddr_AddressBytes. cbn [mbind option_bind]. rewrite (mapM_items _ _ HashBytes) by (intros; apply GetHash_HashBytes).
  cbn [mbind option_bind]. rewrite GetBytes_IBytes. cbn [mbind option_bind]. rewrite BytesToAddress_id by done.
  rewrite <- list_fmap_compose, (list_fmap_ext _ id), list_fmap_id; [by destruct l|].
  intros i h Hh. apply BytesToHash_id. by apply (Forall_lookup_1 _ _ _ _ Ht Hh).
Qed.

Lemma receipt_from_item r :
  receipt_wf r → rc_UnmarshalRLPFrom (item_of (rc_MarshalRLPWith r)) =
    Some (mkReceipt (rc_Root r) (rc_CumulativeGasUsed r) (rc_LogsBloom r) (rc_Logs r) (rc_Status r) 0 None ZeroHash).
Proof.
  intros [Hs [Hb Hb'] Hl [Hg _] _ _]. unfold rc_UnmarshalRLPFrom, rc_MarshalRLPWith, MarshalLogsWith.
  cbn [item_of fmap list_fmap GetElems mbind option_bind]. rewrite item_of_array_or_null.
  assert (∃ buf, GetBytes (item_of (match rc_Status r with Some s => NewUint s | None => NewBytes (HashBytes (rc_Root r)) end)) = Some buf ∧
    (if (length buf =? 32)%nat then (BytesToHash buf, None)
     else match buf with [d] => (ZeroHash, Some d) | _ => (ZeroHash, Some 0) end) = (rc_Root r, rc_Status r)) as (buf & -> & Hbuf).
  { destruct (rc_Status r) as [s|]; cbn [item_of]; rewrite GetBytes_IBytes; eexists; (split; [done|]).
    - destruct Hs as [Hs ->]. destruct (decide (s = 0)) as [->|]; [done|].
      assert (Bytes s = [s]) as ->; [|done]. pose proof (Bytes_length s 1 ltac:(simpl; lia)) as Hle.
      pose proof (Bytes_value s ltac:(lia)) as Hv. destruct (Bytes s) as [|d [|]]; [by cbn in Hv; lia| |simpl in Hle; lia].
      cbn in Hv. by subst.
    - rewrite length_HashBytes. cbn [Nat.eqb]. by rewrite BytesToHash_id. }
  cbn [mbind option_bind]. rewrite Hbuf, GetUint64_Bytes by done. cbn [mbind option_bind]. rewrite <- Hb, GetBytesN_IBytes.
  cbn [mbind option_bind GetElems]. rewrite (mapM_items _ _ id), list_fmap_id; [done|].
  intros l Hin. apply log_from_item. by apply (proj1 (Forall_forall _ _) Hl).
Qed.

(** The receipts of a block read back from the storage. *)
Theorem receipts_roundtrip rs :
  Forall receipt_wf rs → receipts_UnmarshalStoreRLP (MarshalTo (receipts_MarshalStoreRLPWith rs)) = Some rs.
Proof.
  intros Hrs. unfold receipts_UnmarshalStoreRLP, UnmarshalRlp. rewrite Parse_MarshalTo.
  unfold receipts_UnmarshalStoreRLPFrom, receipts_MarshalStoreRLPWith. cbn [item_of GetElems mbind option_bind].
  rewrite (mapM_items _ _ id), list_fmap_id; [done|]. intros r Hin. pose proof (proj1 (Forall_forall _ _) Hrs r Hin) as Hr.
  unfold rc_UnmarshalStoreRLPFrom, rc_MarshalStoreRLPWith. cbn [item_of fmap list_fmap GetElems mbind option_bind].
  rewrite receipt_from_item by done. destruct Hr as [_ _ _ [_ Hg] Hc Hh]. cbn [mbind option_bind].
  assert (∃ vv, GetBytes (item_of (match rc_ContractAddress r with None => NewNull | Some a => NewBytes (AddressBytes a) end)) = Some vv ∧
    (if (length vv =? 20)%nat then Some (BytesToAddress vv) else None) = rc_ContractAddress r) as (vv & -> & Hvv).
  { destruct (rc_ContractAddress r) as [a|]; cbn [item_of]; rewrite GetBytes_IBytes; eexists; (split; [done|]); [|done].
    rewrite length_AddressBytes. cbn [Nat.eqb]. by rewrite BytesToAddress_id by auto. }
  cbn [mbind option_bind]. rewrite Hvv, GetUint64_Bytes, GetBytes_IBytes by done. cbn [mbind option_bind]. rewrite BytesToHash_id by done.
  by destruct r.
Qed.
End roundtrip.
