(* ===== verification/ChainStorage.v ===== *)
(** Package [blockchain/storage]: the records of the chain in a key-value
    database ([keyvalue.go], [utils.go]).

    [KeyValueStorage] keeps every record in one map of byte strings, under a
    prefix; the database itself ([memoryKV], or LevelDB without I/O errors) is a
    finite map.  [chain_db] is what the interface [Storage] promises: a map per
    kind of record.  The two are related at the end of the file. *)
From S2P Require Import Prelude Types Runtime StateTxn Bloom Rlp RlpTypes.

Abbreviation KV := (gmap (list Z) (list Z)) (only parsing).

(** ** Prefixes *)

Definition DIFFICULTY : bytes := [100].
Definition HEADER : bytes := [104].
Definition HEAD : bytes := [111].
Definition FORK : bytes := [102].
Definition CANONICAL : bytes := [99].
Definition BODY : bytes := [98].
Definition RECEIPTS : bytes := [114].
Definition TX_LOOKUP_PREFIX : bytes := [108].
Definition HASH : bytes := [104; 97; 115; 104].
Definition NUMBER : bytes := [110; 117; 109; 98; 101; 114].
Definition EMPTY : bytes := [101; 109; 112; 116; 121].

Definition encodeUint (n : Z) : bytes := be_bytes 8 n.
Definition decodeUint (b : bytes) : Z := SetBytes (take 8 b).

Definition set (p k v : bytes) (db : KV) : KV := <[p ++ k := v]> db.
Definition get (p k : bytes) (db : KV) : option bytes := db !! (p ++ k).

(** [Forks]. *)
Definition forks_MarshalRLPWith (f : list Hash) : rlp := array_or_null ((λ h, NewBytes (HashBytes h)) <$> f).

Section kv.
Context `{External} `{RlpReader}.
Variable HeaderHash : Header → Hash.

Definition forks_UnmarshalRLPFrom (v : item) : option (list Hash) :=
  elems ← GetElems v; forks ← mapM (GetBytesN 32) elems; Some (BytesToHash <$> forks).

(** ** [KeyValueStorage] *)

Definition kv_ReadCanonicalHash (n : Z) (db : KV) : option Hash := BytesToHash <$> get CANONICAL (encodeUint n) db.
Definition kv_WriteCanonicalHash (n : Z) (hash : Hash) : KV → KV := set CANONICAL (encodeUint n) (HashBytes hash).

Definition kv_ReadHeadHash (db : KV) : option Hash := BytesToHash <$> get HEAD HASH db.
Definition kv_ReadHeadNumber (db : KV) : option Z :=
  data ← get HEAD NUMBER db; if (length data =? 8)%nat then Some (decodeUint data) else None.
Definition kv_WriteHeadHash (h : Hash) : KV → KV := set HEAD HASH (HashBytes h).
Definition kv_WriteHeadNumber (n : Z) : KV → KV := set HEAD NUMBER (encodeUint n).

(** [None] is an error, [ErrNotFound] among them. *)
Definition kv_readRLP {A} (p k : bytes) (unmarshal : bytes → option A) (db : KV) : option A :=
  data ← db !! (p ++ k); unmarshal data.
Definition kv_writeRLP (p k : bytes) (v : rlp) : KV → KV := set p k (MarshalTo v).

Definition kv_WriteForks (forks : list Hash) : KV → KV := kv_writeRLP FORK EMPTY (forks_MarshalRLPWith forks).
Definition kv_ReadForks : KV → option (list Hash) :=
  kv_readRLP FORK EMPTY (UnmarshalRlp (λ _, forks_UnmarshalRLPFrom)).

Definition kv_WriteTotalDifficulty (hash : Hash) (diff : Z) : KV → KV := set DIFFICULTY (HashBytes hash) (Bytes diff).
Definition kv_ReadTotalDifficulty (hash : Hash) (db : KV) : option Z := SetBytes <$> get DIFFICULTY (HashBytes hash) db.

Definition kv_WriteHeader (h : Header) : KV → KV := kv_writeRLP HEADER (HashBytes (hd_Hash h)) (hd_MarshalRLPWith h).
Definition kv_ReadHeader (hash : Hash) : KV → option Header :=
  kv_readRLP HEADER (HashBytes hash) (hd_UnmarshalRLP HeaderHash).

Definition kv_WriteCanonicalHeader (h : Header) (diff : Z) (db : KV) : KV :=
  let db := kv_WriteHeader h db in
  let db := kv_WriteHeadHash (hd_Hash h) db in
  let db := kv_WriteHeadNumber (hd_Number h) db in
  let db := kv_WriteCanonicalHash (hd_Number h) (hd_Hash h) db in
  kv_WriteTotalDifficulty (hd_Hash h) diff db.

Definition kv_WriteBody (hash : Hash) (body : Body) : KV → KV := kv_writeRLP BODY (HashBytes hash) (bd_MarshalRLPWith body).
Definition kv_ReadBody (hash : Hash) : KV → option Body :=
  kv_readRLP BODY (HashBytes hash) (bd_UnmarshalRLP HeaderHash).

(** Receipts go in the storage format. *)
Definition kv_WriteReceipts (hash : Hash) (receipts : list Receipt) : KV → KV :=
  kv_writeRLP RECEIPTS (HashBytes hash) (receipts_MarshalStoreRLPWith receipts).
Definition kv_ReadReceipts (hash : Hash) : KV → option (list Receipt) :=
  kv_readRLP RECEIPTS (HashBytes hash) receipts_UnmarshalStoreRLP.

Definition kv_WriteTxLookup (hash blockHash : Hash) : KV → KV :=
  set TX_LOOKUP_PREFIX (HashBytes hash) (MarshalTo (NewBytes (HashBytes blockHash))).
(** A lookup that is not 32 bytes panics. *)
Definition kv_ReadTxLookup (hash : Hash) (db : KV) : outcome (option Hash) :=
  match data ← get TX_LOOKUP_PREFIX (HashBytes hash) db; Parse data with
  | None => Ret None
  | Some v => match GetBytesN 32 v with Some b => Ret (Some (BytesToHash b)) | None => Panic end
  end.
End kv.

(** ** The interface [Storage] *)

Record chain_db := mkDB {
  db_canonical : gmap Z Hash;
  db_headHash : option Hash;
  db_headNumber : option Z;
  db_forks : option (list Hash);
  db_difficulty : gmap Z Z;
  db_headers : gmap Z Header;
  db_bodies : gmap Z Body;
  db_receipts : gmap Z (list Receipt);
  db_txLookup : gmap Z Hash;
}.

Definition empty_db : chain_db := mkDB ∅ None None None ∅ ∅ ∅ ∅ ∅.

Definition WriteCanonicalHash (n : Z) (hash : Hash) (d : chain_db) : chain_db :=
  mkDB (<[n := hash]> (db_canonical d)) (db_headHash d) (db_headNumber d) (db_forks d) (db_difficulty d)
    (db_headers d) (db_bodies d) (db_receipts d) (db_txLookup d).
Definition WriteHeadHash (h : Hash) (d : chain_db) : chain_db :=
  mkDB (db_canonical d) (Some h) (db_headNumber d) (db_forks d) (db_difficulty d)
    (db_headers d) (db_bodies d) (db_receipts d) (db_txLookup d).
Definition WriteHeadNumber (n : Z) (d : chain_db) : chain_db :=
  mkDB (db_canonical d) (db_headHash d) (Some n) (db_forks d) (db_difficulty d)
    (db_headers d) (db_bodies d) (db_receipts d) (db_txLookup d).
Definition WriteForks (f : list Hash) (d : chain_db) : chain_db :=
  mkDB (db_canonical d) (db_headHash d) (db_headNumber d) (Some f) (db_difficulty d)
    (db_headers d) (db_bodies d) (db_receipts d) (db_txLookup d).
Definition WriteTotalDifficulty (hash : Hash) (diff : Z) (d : chain_db) : chain_db :=
  mkDB (db_canonical d) (db_headHash d) (db_headNumber d) (db_forks d) (<[hash := diff]> (db_difficulty d))
    (db_headers d) (db_bodies d) (db_receipts d) (db_txLookup d).
Definition WriteHeader (h : Header) (d : chain_db) : chain_db :=
  mkDB (db_canonical d) (db_headHash d) (db_headNumber d) (db_forks d) (db_difficulty d)
    (<[hd_Hash h := h]> (db_headers d)) (db_bodies d) (db_receipts d) (db_txLookup d).
Definition WriteBody (hash : Hash) (b : Body) (d : chain_db) : chain_db :=
  mkDB (db_canonical d) (db_headHash d) (db_headNumber d) (db_forks d) (db_difficulty d)
    (db_headers d) (<[hash := b]> (db_bodies d)) (db_receipts d) (db_txLookup d).
Definition WriteReceipts (hash : Hash) (rs : list Receipt) (d : chain_db) : chain_db :=
  mkDB (db_canonical d) (db_headHash d) (db_headNumber d) (db_forks d) (db_difficulty d)
    (db_headers d) (db_bodies d) (<[hash := rs]> (db_receipts d)) (db_txLookup d).
Definition WriteTxLookup (hash blockHash : Hash) (d : chain_db) : chain_db :=
  mkDB (db_canonical d) (db_headHash d) (db_headNumber d) (db_forks d) (db_difficulty d)
    (db_headers d) (db_bodies d) (db_receipts d) (<[hash := blockHash]> (db_txLookup d)).
Definition WriteCanonicalHeader (h : Header) (diff : Z) (d : chain_db) : chain_db :=
  WriteTotalDifficulty (hd_Hash h) diff (WriteCanonicalHash (hd_Number h) (hd_Hash h)
    (WriteHeadNumber (hd_Number h) (WriteHeadHash (hd_Hash h) (WriteHeader h d)))).

(** ** The database implements the interface *)

Inductive db_op :=
| OpCanonicalHash (n : Z) (hash : Hash)
| OpHeadHash (h : Hash)
| OpHeadNumber (n : Z)
| OpForks (f : list Hash)
| OpTotalDifficulty (hash : Hash) (diff : Z)
| OpHeader (h : Header)
| OpBody (hash : Hash) (b : Body)
| OpReceipts (hash : Hash) (rs : list Receipt)
| OpTxLookup (hash blockHash : Hash).

Definition db_write (op : db_op) : chain_db → chain_db :=
  match op with
  | OpCanonicalHash n hash => WriteCanonicalHash n hash
  | OpHeadHash h => WriteHeadHash h
  | OpHeadNumber n => WriteHeadNumber n
  | OpForks f => WriteForks f
  | OpTotalDifficulty hash diff => WriteTotalDifficulty hash diff
  | OpHeader h => WriteHeader h
  | OpBody hash b => WriteBody hash b
  | OpReceipts hash rs => WriteReceipts hash rs
  | OpTxLookup hash blockHash => WriteTxLookup hash blockHash
  end.

Section refinement.
Context `{External} `{RlpReader} `{!RlpLaws}.
Variable HeaderHash : Header → Hash.
#[local] Opaque HashBytes encodeUint.

Definition kv_write (op : db_op) : KV → KV :=
  match op with
  | OpCanonicalHash n hash => kv_WriteCanonicalHash n hash
  | OpHeadHash h => kv_WriteHeadHash h
  | OpHeadNumber n => kv_WriteHeadNumber n
  | OpForks f => kv_WriteForks f
  | OpTotalDifficulty hash diff => kv_WriteTotalDifficulty hash diff
  | OpHeader h => kv_WriteHeader h
  | OpBody hash b => kv_WriteBody hash b
  | OpReceipts hash rs => kv_WriteReceipts hash rs
  | OpTxLookup hash blockHash => kv_WriteTxLookup hash blockHash
  end.

(** Values within the widths of the types, and transactions that carry their
    hashes. *)
Definition body_wf (b : Body) : Prop :=
  Forall tx_wf (bd_Transactions b) ∧ Forall (addr_ok ∘ tx_From) (bd_Transactions b) ∧
  Forall (λ t, ComputeHash t = t) (bd_Transactions b) ∧ Forall (header_wf HeaderHash) (bd_Uncles b).

Definition db_op_ok (op : db_op) : Prop :=
  match op with
  | OpCanonicalHash n hash => is_u64 n ∧ hash_ok hash
  | OpHeadHash h => hash_ok h
  | OpHeadNumber n => is_u64 n
  | OpForks f => Forall hash_ok f
  | OpTotalDifficulty hash diff => hash_ok hash ∧ 0 ≤ diff
  | OpHeader h => header_wf HeaderHash h ∧ hash_ok (hd_Hash h)
  | OpBody hash b => hash_ok hash ∧ body_wf b
  | OpReceipts hash rs => hash_ok hash ∧ Forall receipt_wf rs
  | OpTxLookup hash blockHash => hash_ok hash ∧ hash_ok blockHash
  end.

(** The database answers as the maps do. *)
Record stores (kv : KV) (d : chain_db) : Prop := {
  s_canonical n : is_u64 n → kv_ReadCanonicalHash n kv = db_canonical d !! n;
  s_headHash : kv_ReadHeadHash kv = db_headHash d;
  s_headNumber : kv_ReadHeadNumber kv = db_headNumber d;
  s_forks : kv_ReadForks kv = db_forks d;
  s_difficulty h : hash_ok h → kv_ReadTotalDifficulty h kv = db_difficulty d !! h;
  s_headers h : hash_ok h → kv_ReadHeader HeaderHash h kv = db_headers d !! h;
  s_bodies h : hash_ok h → kv_ReadBody HeaderHash h kv = db_bodies d !! h;
  s_receipts h : hash_ok h → kv_ReadReceipts h kv = db_receipts d !! h;
  s_txLookup h : hash_ok h → kv_ReadTxLookup h kv = Ret (db_txLookup d !! h);
}.

Lemma set_ne p k v kv p' k' : p ++ k ≠ p' ++ k' → set p k v kv !! (p' ++ k') = kv !! (p' ++ k').
Proof. apply lookup_insert_ne. Qed.

Lemma set_eq p k v kv : set p k v kv !! (p ++ k) = Some v.
Proof. apply lookup_insert_eq. Qed.

Lemma encodeUint_inj n m : is_u64 n → is_u64 m → encodeUint n = encodeUint m → n = m.
Proof.
  Transparent encodeUint.
  intros Hn Hm E. unfold encodeUint in E. apply (f_equal SetBytes) in E. rewrite !SetBytes_be_bytes in E.
  unfold is_u64, M64 in *. rewrite !Z.mod_small in E by (simpl; lia). done.
Qed.
#[local] Opaque encodeUint.

(** A map of records under one prefix, after a write. *)
Lemma lookup_by_hash {A B} (m : gmap Z A) (r : option bytes → B) (to : option A → B) p v kv h h' a :
  r (Some v) = to (Some a) → hash_ok h → hash_ok h' → r (kv !! (p ++ HashBytes h')) = to (m !! h') →
  r (set p (HashBytes h) v kv !! (p ++ HashBytes h')) = to (<[h := a]> m !! h').
Proof.
  intros Hr Hh Hh' Hm. destruct (decide (h = h')) as [->|Hne]; [by rewrite set_eq, lookup_insert_eq|].
  rewrite set_ne, lookup_insert_ne; [done|done|]. intros E%app_inv_head. by apply HashBytes_inj in E.
Qed.

Lemma forks_roundtrip f : Forall hash_ok f → UnmarshalRlp (λ _, forks_UnmarshalRLPFrom) (MarshalTo (forks_MarshalRLPWith f)) = Some f.
Proof.
  intros Hf. unfold UnmarshalRlp. rewrite Parse_MarshalTo. cbn [mbind option_bind]. unfold forks_UnmarshalRLPFrom, forks_MarshalRLPWith.
  rewrite item_of_array_or_null. cbn [GetElems mbind option_bind].
  rewrite (mapM_items _ _ HashBytes) by (intros; apply GetHash_HashBytes). cbn [mbind option_bind].
  rewrite <- list_fmap_compose, (list_fmap_ext _ id), list_fmap_id; [done|].
  intros i h Hh. apply BytesToHash_id. by apply (Forall_lookup_1 _ _ _ _ Hf Hh).
Qed.

Lemma header_roundtrip h : header_wf HeaderHash h → hd_UnmarshalRLP HeaderHash (MarshalTo (hd_MarshalRLPWith h)) = Some h.
Proof. intros Hh. unfold hd_UnmarshalRLP, UnmarshalRlp. rewrite Parse_MarshalTo. cbn [mbind option_bind]. by apply header_from_item. Qed.

Lemma computed_hashes (l : list Transaction) : Forall (λ t, ComputeHash t = t) l → ComputeHash <$> l = l.
Proof. induction 1 as [|t l Ht _ IH]; [done|]. by rewrite fmap_cons, Ht, IH. Qed.

Lemma decodeUint_encodeUint n : is_u64 n → (if (length (encodeUint n) =? 8)%nat then Some (decodeUint (encodeUint n)) else None) = Some n.
Proof.
  Transparent encodeUint.
  intros Hn. unfold decodeUint, encodeUint. rewrite length_be_bytes. cbn [Nat.eqb]. rewrite take_ge by (by rewrite length_be_bytes).
  rewrite SetBytes_be_bytes. unfold is_u64, M64 in *. by rewrite Z.mod_small by (simpl; lia).
Qed.
#[local] Opaque encodeUint.

(** Reads and writes as accesses to the map. *)
Ltac as_map :=
  unfold kv_ReadCanonicalHash, kv_ReadHeadHash, kv_ReadHeadNumber, kv_ReadForks, kv_ReadTotalDifficulty,
    kv_ReadHeader, kv_ReadBody, kv_ReadReceipts, kv_ReadTxLookup, kv_readRLP, get in *;
  cbn [kv_write]; unfold kv_WriteCanonicalHash, kv_WriteHeadHash, kv_WriteHeadNumber, kv_WriteForks, kv_WriteTotalDifficulty,
    kv_WriteHeader, kv_WriteBody, kv_WriteReceipts, kv_WriteTxLookup, kv_writeRLP.

(** A write leaves the records of the other kinds. *)
Ltac other_kind :=
  intros; rewrite set_ne;
    [solve [eauto]|unfold DIFFICULTY, HEADER, HEAD, FORK, CANONICAL, BODY, RECEIPTS, TX_LOOKUP_PREFIX, HASH, NUMBER, EMPTY;
       cbn [app]; congruence].

Lemma kv_refines_db kv d op :
  stores kv d → db_op_ok op → stores (kv_write op kv) (db_write op d).
Proof.
  intros [Hc Hh Hn Hf Ht Hd Hb Hr Hl] Hop. as_map. destruct op as [n hash|h|n|f|hash diff|h|hash b|hash rs|hash blockHash]; cbn in Hop.
  all: split; as_map; cbn [db_write WriteCanonicalHash WriteHeadHash WriteHeadNumber WriteForks WriteTotalDifficulty WriteHeader WriteBody
    WriteReceipts WriteTxLookup db_canonical db_headHash db_headNumber db_forks db_difficulty db_headers db_bodies db_receipts db_txLookup].
  all: try other_kind.
  - intros n' Hn'. destruct Hop as [Hnn Hhash]. destruct (decide (n = n')) as [->|Hne].
    { rewrite set_eq, lookup_insert_eq. cbn. by rewrite BytesToHash_id. }
    rewrite set_ne, lookup_insert_ne by (done || intros E%app_inv_head; by apply encodeUint_inj in E). auto.
  - rewrite set_eq. cbn. by rewrite BytesToHash_id.
  - rewrite set_eq. cbn [mbind option_bind]. by apply decodeUint_encodeUint.
  - rewrite set_eq. by apply forks_roundtrip.
  - intros h Hh'. apply (lookup_by_hash _ (fmap SetBytes) id); [|tauto|done|by apply Ht].
    cbn. by rewrite Bytes_value by tauto.
  - intros h' Hh'. apply (lookup_by_hash _ (λ o, o ≫= hd_UnmarshalRLP HeaderHash) id); [|tauto|done|by apply Hd].
    cbn. apply header_roundtrip. tauto.
  - intros h Hh'. apply (lookup_by_hash _ (λ o, o ≫= bd_UnmarshalRLP HeaderHash) id); [|tauto|done|by apply Hb].
    destruct Hop as (_ & Ht' & Hf' & Hc' & Hu'). cbn. rewrite body_roundtrip by done. destruct b. cbn in *.
    by rewrite (computed_hashes _ Hc').
  - intros h Hh'. apply (lookup_by_hash _ (λ o, o ≫= receipts_UnmarshalStoreRLP) id); [|tauto|done|by apply Hr].
    cbn. apply receipts_roundtrip. tauto.
  - intros h Hh'. refine (lookup_by_hash _ (λ o, match o ≫= Parse with Some v => _ | None => _ end) Ret _ _ _ _ _ _ _ _ Hh' (Hl h Hh')); [|tauto].
    cbn [mbind option_bind]. rewrite Parse_MarshalTo. cbn [item_of]. rewrite GetHash_HashBytes. by rewrite BytesToHash_id by tauto.
Qed.

(** A sequence of writes. *)
Definition db_writes (ops : list db_op) (d : chain_db) : chain_db := foldl (flip db_write) d ops.
Definition kv_writes (ops : list db_op) (kv : KV) : KV := foldl (flip kv_write) kv ops.

Lemma stores_empty : stores ∅ empty_db.
Proof. split; intros; as_map; cbn; by rewrite ?lookup_empty. Qed.

Lemma stores_writes ops : ∀ kv d, stores kv d → Forall db_op_ok ops → stores (kv_writes ops kv) (db_writes ops d).
Proof. induction ops as [|op ops IH]; intros kv d Hs Hok; [done|]. inv Hok. apply IH; [by apply kv_refines_db|done]. Qed.

(** C36.  The database behind [KeyValueStorage], where every record goes as bytes
    under a prefixed key of one map, implements the interface [Storage]: after
    any sequence of writes to an empty database every read returns what the last
    write to that record put there, and a record never written is not found, as
    if every kind of record had its own map of values. *)
Theorem kv_implements_storage ops :
  Forall db_op_ok ops → stores (kv_writes ops ∅) (db_writes ops empty_db).
Proof. apply stores_writes, stores_empty. Qed.
End refinement.
