(* ===== verification/Trie.v ===== *)
(** Package [state/immutable-trie]: the Merkle-Patricia trie ([trie.go],
    [encoding.go]), its nodes in storage ([storage.go]) and its hash
    ([hasher.go]).

    A [Node] is a value here.  The code updates a node in place in four
    situations, and each returns the updated node: a full node of the epoch of
    the running [Txn] is extended ([writeNode]), [lookup] keeps the nodes it has
    loaded, [delete] forgets the hash of the short nodes on its way, and [hash]
    records the hash of a node.  A nil [Node] is [None]; so is a nil slice in
    the field [buf].

    The recursion goes through storage, so [lookup], [insert] and [delete] have
    fuel: [NoFuel] is a storage with a cycle. *)
From S2P Require Import Prelude Types Runtime Rlp.

(** ** Keys ([encoding.go]) *)

Definition hasTerminator (hex : bytes) : bool :=
  match last hex with None => false | Some d => d =? 16 end.

(** The loop over pairs of nibbles. *)
Fixpoint pack (hex : bytes) : bytes :=
  match hex with
  | a :: b :: hex => Z.lor (Z.shiftl a 4 mod 256) b :: pack hex
  | _ => []
  end.

Definition encodeCompact (hex : bytes) : bytes :=
  let terminator := hasTerminator hex in
  let hex := if terminator then take (length hex - 1) hex else hex in
  let oddLen := Z.of_nat (length hex) mod 2 in
  let flag := 2 * (if terminator then 1 else 0) + oddLen in
  pack (if oddLen =? 1 then flag :: hex else flag :: 0 :: hex).

Fixpoint nibbles_of (b : bytes) : bytes :=
  match b with
  | [] => []
  | d :: b => d / 16 :: d mod 16 :: nibbles_of b
  end.

Definition bytesToHexNibbles (b : bytes) : bytes := nibbles_of b ++ [16].

(** The slices panic on a key of one nibble, which only no bytes give. *)
Definition decodeCompact (compact : bytes) : outcome bytes :=
  let base := bytesToHexNibbles compact in
  let flag := default 0 (head base) in
  let base := if flag <? 2 then take (length base - 1) base else base in
  if Z.land flag 1 =? 1 then Ret (drop 1 base)
  else if (length base <? 2)%nat then Panic else Ret (drop 2 base).

Fixpoint prefixLen (k1 k2 : bytes) : nat :=
  match k1, k2 with
  | x :: k1, y :: k2 => if negb (x =? y) then 0 else S (prefixLen k1 k2)
  | _, _ => 0
  end.

(** ** Nodes *)

Inductive Node :=
| ValueNode (hash : bool) (buf : option bytes)
| ShortNode (hash : bytes) (key : bytes) (child : option Node)
| FullNode (hash : bytes) (epoch : Z) (value : option Node) (children : list (option Node)).

Definition emptyChildren : list (option Node) := replicate 16 None.

(** The panics are those of an index past the array. *)
Definition getEdge (idx : Z) (value : option Node) (children : list (option Node))
    : outcome (option Node) :=
  if idx =? 16 then Ret value
  else match children !! Z.to_nat idx with Some e => Ret e | None => Panic end.

Definition setEdge (idx : Z) (e : option Node) (n : Node) : outcome Node :=
  match n with
  | FullNode h ep value children =>
      if idx =? 16 then Ret (FullNode h ep e children)
      else if (Z.to_nat idx <? length children)%nat
      then Ret (FullNode h ep value (<[Z.to_nat idx := e]> children))
      else Panic
  | _ => Panic
  end.

(** [Node.Hash]. *)
Definition node_Hash (n : Node) : bytes * bool :=
  match n with
  | ValueNode h buf => (default [] buf, h)
  | ShortNode h _ _ | FullNode h _ _ _ => (h, negb (bool_decide (h = [])))
  end.

Definition SetHash (b : bytes) (n : Node) : outcome Node :=
  match n with
  | ValueNode _ _ => Panic
  | ShortNode _ key child => Ret (ShortNode b key child)
  | FullNode _ ep value children => Ret (FullNode b ep value children)
  end.

(** ** Nodes in storage ([storage.go]) *)

Abbreviation Storage := (gmap (list Z) (list Z)) (only parsing).

Inductive trieErr :=
| errShortKey
| errShortLeaf
| errFullValue
| errLeafs
| errParse
| errNotArray
| errStateNotFound
| errMissingNode.

(** A slice filled by [append]: it stays nil without bytes. *)
Definition appended (b : bytes) : option bytes := match b with [] => None | _ => Some b end.

Definition rbind {E A B} (m : outcome (result E A)) (k : A → outcome (result E B)) : outcome (result E B) :=
  let~ r := m in match r with Ok a => k a | Err e => Ret (Err e) end.

Fixpoint decodeNode (v : item) : outcome (result trieErr Node) :=
  match v with
  | IBytes raw => Ret (Ok (ValueNode true (appended raw)))
  | IArray [key; child] =>
      match key with
      | IArray _ => Ret (Err errShortKey)
      | IBytes raw =>
          let~ key := decodeCompact raw in
          if hasTerminator key then
            match child with
            | IArray _ => Ret (Err errShortLeaf)
            | IBytes raw => Ret (Ok (ShortNode [] key (Some (ValueNode false (appended raw)))))
            end
          else rbind (decodeNode child) (λ c, Ret (Ok (ShortNode [] key (Some c))))
      end
  | IArray l =>
      if negb (length l =? 17)%nat then Ret (Err errLeafs)
      else
        (** The first sixteen elements, then the value. *)
        (fix elems (l : list item) (acc : list (option Node)) : outcome (result trieErr Node) :=
           match l with
           | [] => Panic
           | [value] =>
               match value with
               | IArray _ => Ret (Err errFullValue)
               | IBytes [] => Ret (Ok (FullNode [] 0 None acc))
               | IBytes raw => Ret (Ok (FullNode [] 0 (Some (ValueNode false (appended raw))) acc))
               end
           | c :: l =>
               match c with
               | IBytes [] => elems l (acc ++ [None])
               | _ => rbind (decodeNode c) (λ c, elems l (acc ++ [Some c]))
               end
           end) l []
  end.

Section trie.
Context `{External} `{RlpReader}.

(** [None]: the node is not in storage. *)
Definition GetNode (root : bytes) (storage : Storage) : outcome (result trieErr (option Node)) :=
  match storage !! root with
  | None => Ret (Ok None)
  | Some data =>
      match Parse data with
      | None => Ret (Err errParse)
      | Some (IBytes _) => Ret (Err errNotArray)
      | Some v => rbind (decodeNode v) (λ n, Ret (Ok (Some n)))
      end
  end.

(** ** The transaction of a trie ([trie.go]) *)

(** [trie.Txn]; its batch is what its [Hash] returns to be written. *)
Record TrieTxn := mkTrieTxn {
  tt_root : option Node;
  tt_epoch : Z;
  tt_storage : Storage;
}.

(** A node [t] loads on its way: an error panics. *)
Definition load (buf : option bytes) (storage : Storage) : outcome (option Node) :=
  let~ r := GetNode (default [] buf) storage in
  match r with Err _ => Panic | Ok n => Ret n end.

(** What [lookup] returns, and the node as it leaves it. *)
Fixpoint lookup (fuel : nat) (storage : Storage) (node : option Node) (key : bytes)
    : outcome (option Node * option bytes * option Node) :=
  match fuel with
  | O => NoFuel
  | S fuel =>
      match node with
      | None => Ret (None, None, None)
      | Some (ValueNode true buf as n) =>
          let~ nc := load buf storage in
          match nc with
          | None => Ret (None, None, Some n)
          | Some nc =>
              let~ (_, res, nc) := lookup fuel storage (Some nc) key in
              Ret (nc, res, Some n)
          end
      | Some (ValueNode false buf as n) =>
          Ret (None, if bool_decide (key = []) then buf else None, Some n)
      | Some (ShortNode h nkey child as n) =>
          let plen := length nkey in
          if (length key <? plen)%nat || negb (bool_decide (take plen key = nkey))
          then Ret (None, None, Some n)
          else
            let~ (c, res, self) := lookup fuel storage child (drop plen key) in
            Ret (None, res, Some (ShortNode h nkey (match c with Some _ => c | None => self end)))
      | Some (FullNode h ep value children) =>
          match key with
          | [] =>
              let~ (c, res, self) := lookup fuel storage value key in
              Ret (c, res, Some (FullNode h ep self children))
          | k :: key =>
              let~ edge := getEdge k value children in
              let~ (c, res, self) := lookup fuel storage edge key in
              match c with
              | Some _ =>
                  (** [n.children[key[0]] = child], also for the value. *)
                  if k =? 16 then Panic
                  else let~ n := setEdge k c (FullNode h ep value children) in Ret (None, res, Some n)
              | None => let~ n := setEdge k self (FullNode h ep value children) in Ret (None, res, Some n)
              end
          end
      end
  end.

(** A node of the running epoch is written in place and keeps its hash. *)
Definition writeNode (epoch : Z) (n : Node) : Node :=
  match n with
  | FullNode h ep value children =>
      if epoch =? ep then n else FullNode [] epoch value children
  | _ => n
  end.

Fixpoint insert (fuel : nat) (epoch : Z) (storage : Storage) (node : option Node) (search value : bytes)
    : outcome (option Node) :=
  match fuel with
  | O => NoFuel
  | S fuel =>
      match node with
      | None =>
          if bool_decide (search = []) then Ret (Some (ValueNode false (Some value)))
          else
            let~ child := insert fuel epoch storage None [] value in
            Ret (Some (ShortNode [] search child))
      | Some (ValueNode true buf) =>
          let~ nc := load buf storage in
          match nc with
          | None => Ret None
          | Some nc => insert fuel epoch storage (Some nc) search value
          end
      | Some (ValueNode false buf as n) =>
          if bool_decide (search = []) then Ret (Some (ValueNode false (Some value)))
          else insert fuel epoch storage (Some (FullNode [] epoch (Some n) emptyChildren)) search value
      | Some (ShortNode _ key child) =>
          let plen := prefixLen search key in
          if (plen =? length key)%nat then
            let~ child := insert fuel epoch storage child (drop plen search) value in
            Ret (Some (ShortNode [] key child))
          else
            let b := FullNode [] epoch None emptyChildren in
            let edge := if (plen + 1 <? length key)%nat
                        then Some (ShortNode [] (drop (plen + 1) key) child) else child in
            let~ b := setEdge (nth plen key 0) edge b in
            let~ child := insert fuel epoch storage (Some b) (drop plen search) value in
            if (plen =? 0)%nat then Ret child
            else Ret (Some (ShortNode [] (take plen search) child))
      | Some (FullNode _ _ nvalue children as n) =>
          match writeNode epoch n with
          | FullNode h ep bvalue bchildren as b =>
              match search with
              | [] =>
                  let~ v := insert fuel epoch storage bvalue [] value in
                  Ret (Some (FullNode h ep v bchildren))
              | k :: search =>
                  let~ child := getEdge k nvalue children in
                  let~ newChild := insert fuel epoch storage child search value in
                  let~ b := setEdge k newChild b in
                  Ret (Some b)
              end
          | _ => Panic
          end
      end
  end.

(** The first child that is there, and whether there is a second one. *)
Fixpoint childIndex (children : list (option Node)) (edge : nat) (indx : option nat) : option nat * bool :=
  match children with
  | [] => (indx, false)
  | Some _ :: children =>
      match indx with
      | Some _ => (indx, true)
      | None => childIndex children (S edge) (Some edge)
      end
  | None :: children => childIndex children (S edge) indx
  end.

(** The full node left by a deletion: itself, nothing, or the short node of its
    last entry.  [None]: that entry is not in storage. *)
Definition collapse (storage : Storage) (n : Node) : outcome (option (option Node)) :=
  match n with
  | FullNode _ _ value children =>
      (** The three cases of the code, in its order. *)
      let '(indx, second) := childIndex children 0 None in
      let notEmpty := second || (bool_decide (indx ≠ None) && bool_decide (is_Some value)) in
      if notEmpty then Ret (Some (Some (FullNode [] 0 value children)))
      else
        match indx with
        | None =>
            match value with
            | None => Ret (Some None)
            | Some _ => Ret (Some (Some (ShortNode [] [0x10] value)))
            end
        | Some i =>
            let~ nc :=
              match mjoin (children !! i) with
              | Some (ValueNode true buf) => load buf storage
              | nc => Ret nc
              end in
            match nc with
            | None => Ret None
            | Some (ShortNode _ key child) => Ret (Some (Some (ShortNode [] (Z.of_nat i :: key) child)))
            | nc => Ret (Some (Some (ShortNode [] [Z.of_nat i] nc)))
            end
        end
  | _ => Panic
  end.

(** What [delete] returns, and the node as it leaves it. *)
Fixpoint delete (fuel : nat) (storage : Storage) (node : option Node) (search : bytes)
    : outcome (option Node * bool * option Node) :=
  match fuel with
  | O => NoFuel
  | S fuel =>
      match node with
      | None => Ret (None, false, None)
      | Some (ShortNode _ key child) =>
          let n := Some (ShortNode [] key child) in
          let plen := prefixLen search key in
          if (plen =? length search)%nat then Ret (None, true, n)
          else if (plen =? 0)%nat then Ret (None, false, n)
          else
            let~ (child, ok, self) := delete fuel storage child (drop plen search) in
            let n := Some (ShortNode [] key self) in
            if negb ok then Ret (None, false, n)
            else
              match child with
              | None => Ret (None, true, n)
              | Some (ShortNode _ skey schild) => Ret (Some (ShortNode [] (key ++ skey) schild), true, n)
              | Some _ => Ret (Some (ShortNode [] key child), true, n)
              end
      | Some (ValueNode true buf as n) =>
          let~ nc := load buf storage in
          match nc with
          | None => Ret (None, false, Some n)
          | Some nc =>
              let~ (c, ok, _) := delete fuel storage (Some nc) search in
              Ret (c, ok, Some n)
          end
      | Some (ValueNode false _ as n) =>
          if negb (bool_decide (search = [])) then Ret (None, false, Some n) else Ret (None, true, Some n)
      | Some (FullNode h ep value children) =>
          match search with
          | [] => Panic
          | key :: search =>
              let~ edge := getEdge key value children in
              let~ (newChild, ok, self) := delete fuel storage edge search in
              let~ n := setEdge key self (FullNode h ep value children) in
              if negb ok then Ret (None, false, Some n)
              else
                (** The copy of the node. *)
                let~ nc := setEdge key newChild (FullNode [] 0 value children) in
                let~ r := collapse storage nc in
                match r with
                | Some nc => Ret (nc, true, Some n)
                | None => Ret (None, false, Some n)
                end
          end
      end
  end.

(** Enough for a trie that represents a map: see [TrieSpec]. *)
Definition trie_fuel (key : bytes) : nat := 2 * length key + 3.

Definition txn_Lookup (t : TrieTxn) (key : bytes) : outcome (option bytes * TrieTxn) :=
  let key := bytesToHexNibbles key in
  let~ (_, res, root) := lookup (trie_fuel key) (tt_storage t) (tt_root t) key in
  Ret (res, mkTrieTxn root (tt_epoch t) (tt_storage t)).

Definition txn_Insert (key value : bytes) (t : TrieTxn) : outcome TrieTxn :=
  let key := bytesToHexNibbles key in
  let~ root := insert (trie_fuel key) (tt_epoch t) (tt_storage t) (tt_root t) key value in
  Ret (match root with
       | Some _ => mkTrieTxn root (tt_epoch t) (tt_storage t)
       | None => t
       end).

Definition txn_Delete (key : bytes) (t : TrieTxn) : outcome TrieTxn :=
  let key := bytesToHexNibbles key in
  let~ (root, ok, self) := delete (trie_fuel key) (tt_storage t) (tt_root t) key in
  Ret (mkTrieTxn (if ok then root else self) (tt_epoch t) (tt_storage t)).

(** ** The trie *)

(** [Trie]; its storage is that of its [State], which grows: it is an argument. *)
Record Trie := mkTrie {
  tr_root : option Node;
  tr_epoch : Z;
}.

Definition NewTrie : Trie := mkTrie None 0.

Definition trie_Txn (storage : Storage) (t : Trie) : TrieTxn :=
  mkTrieTxn (tr_root t) ((tr_epoch t + 1) mod 2 ^ 32) storage.

Definition txn_Commit (t : TrieTxn) : Trie := mkTrie (tt_root t) (tt_epoch t).

(** The nodes loaded on the way stay in the trie's nodes. *)
Definition trie_Get (storage : Storage) (t : Trie) (k : bytes) : outcome (option bytes * Trie) :=
  let~ (res, txn) := txn_Lookup (trie_Txn storage t) k in
  Ret (res, mkTrie (tt_root txn) (tr_epoch t)).

Definition TryUpdate (storage : Storage) (key value : bytes) (t : Trie) : outcome (result trieErr Trie) :=
  let k := bytesToHexNibbles key in
  let tt := trie_Txn storage t in
  if bool_decide (value ≠ []) then
    let~ n := insert (trie_fuel k) (tt_epoch tt) storage (tr_root t) k value in
    Ret (Ok (mkTrie n (tr_epoch t)))
  else
    let~ (n, ok, _) := delete (trie_fuel k) storage (tr_root t) k in
    if negb ok then Ret (Err errMissingNode) else Ret (Ok (mkTrie n (tr_epoch t))).

(** ** Hashing ([hasher.go]) *)

(** [Txn.hash]: the value, the node with the hashes it has got, and what goes to
    the batch. *)
Fixpoint hash (node : Node) : outcome (rlp * Node * list (bytes * bytes)) :=
  let finish (val : rlp) (node : Node) (puts : list (bytes * bytes)) :=
    if rlp_Len val <? 32 then Ret (val, node, puts)
    else
      let buf := MarshalTo val in
      let tmp := HashBytes (Keccak256 buf) in
      let~ node := SetHash tmp node in
      Ret (NewBytes tmp, node, puts ++ [(tmp, buf)]) in
  if (node_Hash node).2 then Ret (NewBytes (node_Hash node).1, node, [])
  else
    match node with
    | ValueNode _ buf => Ret (NewBytes (default [] buf), node, [])
    | ShortNode h key child =>
        match child with
        | None => Panic
        | Some child =>
            let~ (cv, child, puts) := hash child in
            finish (NewArray [NewBytes (encodeCompact key); cv]) (ShortNode h key (Some child)) puts
        end
    | FullNode h ep value children =>
        let~ (vs, children, puts) :=
          (fix hashes (l : list (option Node)) : outcome (list rlp * list (option Node) * list (bytes * bytes)) :=
             match l with
             | [] => Ret ([], [], [])
             | None :: l =>
                 let~ (vs, l, puts) := hashes l in Ret (NewNull :: vs, None :: l, puts)
             | Some n :: l =>
                 let~ (v, n, puts) := hash n in
                 let~ (vs, l, puts') := hashes l in Ret (v :: vs, Some n :: l, puts ++ puts')
             end) children in
        let~ (v, value, puts') :=
          match value with
          | None => Ret (NewNull, None, [])
          | Some n => let~ (v, n, puts) := hash n in Ret (v, Some n, puts)
          end in
        finish (NewArray (vs ++ [v])) (FullNode h ep value children) (puts ++ puts')
    end.

Definition emptyRoot : bytes :=
  HashBytes 0x56e81f171bcc55a6ff8345e692c0f86e5b48e01b996cadc001622fb5e363b421.

(** [Txn.Hash], with a batch. *)
Definition txn_Hash (t : TrieTxn) : outcome (bytes * TrieTxn * list (bytes * bytes)) :=
  match tt_root t with
  | None => Ret (emptyRoot, t, [])
  | Some root =>
      let~ (val, root, puts) := hash root in
      let t := mkTrieTxn (Some root) (tt_epoch t) (tt_storage t) in
      match val with
      | NewBytes raw =>
          if negb (rlp_Len val =? 32) then
            let root := HashBytes (Keccak256 raw) in Ret (root, t, puts ++ [(root, raw)])
          else Ret (take 32 (raw ++ replicate 32 0), t, puts)
      | _ =>
          let tmp := MarshalTo val in
          let root := HashBytes (Keccak256 tmp) in
          Ret (root, t, puts ++ [(root, tmp)])
      end
  end.
End trie.
