(* ===== verification/TrieSpec.v ===== *)
(** The trie of package [state/immutable-trie] represents a finite map.

    [has n k v]: the node [n] holds [v] under the rest of a key [k], its
    references followed in storage.  [wf] is the shape the code keeps: keys are
    nibbles ended by the terminator, a full node has at least two entries, and
    a short node holds a value or a full node. *)
From S2P Require Import Prelude Types Runtime Rlp Trie.

Definition nib (d : Z) : Prop := 0 ≤ d < 16.

(** A key in nibbles with its terminator, or what is left of it. *)
Inductive tkey : bytes → Prop :=
| tkey_end : tkey [16]
| tkey_cons d k : nib d → tkey k → tkey (d :: k).
#[export] Hint Constructors tkey : go.

Lemma tkey_app p k : Forall nib p → tkey k → tkey (p ++ k).
Proof. induction 1; simpl; auto with go. Qed.

Lemma tkey_app_inv p k : Forall nib p → tkey (p ++ k) → tkey k.
Proof.
  induction 1 as [|d p Hd _ IH]; [done|]. simpl. inversion 1; subst; [|auto].
  unfold nib in *; lia.
Qed.

Lemma tkey_last l : Forall nib l → tkey (l ++ [16]).
Proof. intros. apply tkey_app; auto with go. Qed.

Lemma tkey_split k : tkey k → ∃ l, k = l ++ [16] ∧ Forall nib l.
Proof.
  induction 1 as [|d k Hd _ (l & -> & Hl)]; [by exists []|]. exists (d :: l). split; [done|by constructor].
Qed.

Lemma tkey_not_nil k : tkey k → k ≠ [].
Proof. by inversion 1. Qed.

(** No key is the beginning of another. *)
Lemma tkey_prefix_free k k' : tkey k → tkey (k ++ k') → k' = [].
Proof.
  intros Hk. induction Hk as [|d k Hd Hk IH]; simpl.
  - inversion 1; subst; [done|]. unfold nib in *; lia.
  - inversion 1; subst; [by destruct Hk|auto].
Qed.

Lemma tkey_nibbles b : Forall byte_range b → tkey (bytesToHexNibbles b).
Proof.
  intros Hb. apply tkey_last. induction Hb as [|d b Hd _ IH]; [constructor|]. unfold byte_range in Hd.
  cbn [nibbles_of]. repeat constructor; try done; try (apply Z.div_lt_upper_bound || apply Z.div_pos); try lia;
    apply Z.mod_pos_bound; lia.
Qed.

Lemma bytesToHexNibbles_inj a b :
  Forall byte_range a → Forall byte_range b → bytesToHexNibbles a = bytesToHexNibbles b → a = b.
Proof.
  unfold bytesToHexNibbles. intros Ha Hb E. apply app_inv_tail in E. revert b Hb E.
  induction Ha as [|x a Hx _ IH]; intros b Hb E; destruct Hb as [|y b Hy Hb]; try done.
  cbn [nibbles_of] in E. simplify_eq. f_equal; [|auto]. rewrite (Z.div_mod x 16), (Z.div_mod y 16) by lia. lia.
Qed.

Lemma length_bytesToHexNibbles b : length (bytesToHexNibbles b) = (2 * length b + 1)%nat.
Proof.
  unfold bytesToHexNibbles. rewrite length_app. simpl.
  assert (length (nibbles_of b) = (2 * length b)%nat) as ->; [|lia].
  induction b as [|d b IH]; simpl; lia.
Qed.

(** ** Common prefixes *)

Lemma prefixLen_app (p a b : bytes) :
  (∀ x a' y b', a = x :: a' → b = y :: b' → x ≠ y) →
  prefixLen (p ++ a) (p ++ b) = length p.
Proof.
  intros Hab. induction p as [|d p IH]; simpl.
  - destruct a as [|x a]; [by destruct b|]. destruct b as [|y b]; [done|]. simpl.
    destruct (Z.eqb_spec x y) as [->|]; [|done]. by destruct (Hab y a y b).
  - by rewrite Z.eqb_refl, IH.
Qed.

Lemma prefixLen_split (k1 k2 : bytes) :
  ∃ p a b, k1 = p ++ a ∧ k2 = p ++ b ∧ (∀ x a' y b', a = x :: a' → b = y :: b' → x ≠ y).
Proof.
  revert k2. induction k1 as [|x k1 IH]; intros k2; [by exists [], [], k2|].
  destruct k2 as [|y k2]; [by exists [], (x :: k1), []|].
  destruct (decide (x = y)) as [->|Hxy].
  - destruct (IH k2) as (p & a & b & -> & -> & Hab). by exists (y :: p), a, b.
  - exists [], (x :: k1), (y :: k2). split_and!; [done|done|]. intros. by simplify_eq.
Qed.

Lemma prefix_test (key k : bytes) :
  (length k <? length key)%nat || negb (bool_decide (take (length key) k = key)) =
  negb (bool_decide (key `prefix_of` k)).
Proof.
  destruct (bool_decide_reflect (key `prefix_of` k)) as [[k' ->]|Hno]; cbn [negb].
  - rewrite take_app_length, bool_decide_true by done. rewrite length_app.
    by rewrite (proj2 (Nat.ltb_ge _ _)) by lia.
  - destruct (Nat.ltb_spec (length k) (length key)); [done|]. simpl. apply negb_true_iff, bool_decide_eq_false.
    intros E. apply Hno. exists (drop (length key) k). rewrite <- E at 1. by rewrite take_drop.
Qed.

(** ** Edges *)

Definition edge (value : option Node) (children : list (option Node)) (i : Z) : option Node :=
  if i =? 16 then value else mjoin (children !! Z.to_nat i).

Definition index (i : Z) : Prop := 0 ≤ i ≤ 16.

Lemma nib_index d : nib d → index d.
Proof. unfold nib, index. lia. Qed.
#[export] Hint Resolve nib_index : go.

Lemma getEdge_edge i value children :
  index i → length children = 16%nat → getEdge i value children = Ret (edge value children i).
Proof.
  intros Hi Hl. unfold getEdge, edge. destruct (Z.eqb_spec i 16); [done|].
  destruct (lookup_lt_is_Some_2 children (Z.to_nat i)) as [e ->]; [unfold index in *; lia|done].
Qed.

Definition set_value (i : Z) (e value : option Node) : option Node := if i =? 16 then e else value.
Definition set_children (i : Z) (e : option Node) (children : list (option Node)) : list (option Node) :=
  if i =? 16 then children else <[Z.to_nat i := e]> children.

Lemma setEdge_full i e h ep value children :
  index i → length children = 16%nat →
  setEdge i e (FullNode h ep value children) = Ret (FullNode h ep (set_value i e value) (set_children i e children)).
Proof.
  intros Hi Hl. unfold setEdge, set_value, set_children. destruct (Z.eqb_spec i 16); [done|].
  destruct (Nat.ltb_spec (Z.to_nat i) (length children)); [done|unfold index in *; lia].
Qed.

Lemma edge_set i j e value children :
  index i → index j → length children = 16%nat →
  edge (set_value i e value) (set_children i e children) j =
  if decide (j = i) then e else edge value children j.
Proof.
  unfold index, edge, set_value, set_children. intros Hi Hj Hl.
  destruct (Z.eqb_spec i 16) as [->|]; destruct (Z.eqb_spec j 16) as [->|]; case_decide; try done; try lia.
  - subst. rewrite list_lookup_insert_eq by lia. done.
  - rewrite list_lookup_insert_ne by lia. done.
Qed.

Lemma length_set_children i e children : length (set_children i e children) = length children.
Proof. unfold set_children. case_match; [done|apply length_insert]. Qed.

Lemma set_same i value children :
  index i → length children = 16%nat →
  set_value i (edge value children i) value = value ∧
  set_children i (edge value children i) children = children.
Proof.
  intros Hi Hl. unfold set_value, set_children, edge. destruct (Z.eqb_spec i 16); [done|]. split; [done|].
  destruct (lookup_lt_is_Some_2 children (Z.to_nat i)) as [e He]; [unfold index in *; lia|].
  apply list_insert_id. by rewrite He.
Qed.

Lemma edge_empty i : index i → edge None emptyChildren i = None.
Proof.
  intros Hi. unfold edge. destruct (Z.eqb_spec i 16); [done|].
  unfold emptyChildren. by rewrite lookup_replicate_2 by (unfold index in *; lia).
Qed.

(** Two entries at least. *)
Definition two (value : option Node) (children : list (option Node)) : Prop :=
  ∃ i j, i ≠ j ∧ index i ∧ index j ∧ is_Some (edge value children i) ∧ is_Some (edge value children j).

Lemma two_set i e value children :
  index i → length children = 16%nat → two value children → is_Some e →
  two (set_value i e value) (set_children i e children).
Proof.
  intros Hi Hl (a & b & Hab & Ha & Hb & Hea & Heb) He. exists a, b. split_and!; try done;
    rewrite edge_set by done; by case_decide.
Qed.

Section spec.
Context `{External} `{RlpReader}.
Context (st : Storage).

(** ** What a node holds *)

Inductive has : Node → bytes → bytes → Prop :=
| has_value b : has (ValueNode false (Some b)) [] b
| has_ref buf n k v : load buf st = Ret (Some n) → has n k v → has (ValueNode true buf) k v
| has_short h key c k v : has c k v → has (ShortNode h key (Some c)) (key ++ k) v
| has_full h e value children i n k v :
    index i → edge value children i = Some n → has n k v → has (FullNode h e value children) (i :: k) v.

Lemma has_value_inv b k v : has (ValueNode false (Some b)) k v ↔ k = [] ∧ v = b.
Proof. split; [by inversion 1|]. intros [-> ->]. constructor. Qed.

Lemma has_ref_inv buf n k v : load buf st = Ret (Some n) → has (ValueNode true buf) k v ↔ has n k v.
Proof.
  intros Hl. split; [|by apply has_ref]. inversion 1; subst. rewrite Hl in *. by simplify_eq.
Qed.

Lemma has_short_inv h key c k v : has (ShortNode h key (Some c)) k v ↔ ∃ k', k = key ++ k' ∧ has c k' v.
Proof. split; [inversion 1; subst; eauto|]. intros (k' & -> & Hc). by constructor. Qed.

Lemma has_full_inv h e value children k v :
  has (FullNode h e value children) k v ↔
  ∃ i k' n, k = i :: k' ∧ index i ∧ edge value children i = Some n ∧ has n k' v.
Proof.
  split; [inversion 1; subst; eauto 7|]. intros (i & k' & n & -> & Hi & He & Hn). by econstructor.
Qed.

Lemma has_full_at h e value children i k v :
  index i → has (FullNode h e value children) (i :: k) v ↔ ∃ n, edge value children i = Some n ∧ has n k v.
Proof.
  intros Hi. rewrite has_full_inv. split.
  - intros (? & ? & n & [= <- <-] & _ & ? & ?). eauto.
  - intros (n & ? & ?). eauto 7.
Qed.

Lemma has_fun n k v v' : has n k v → has n k v' → v = v'.
Proof.
  intros Hn. revert v'. induction Hn as [b|buf n k v Hl _ IH|h key c k v _ IH|h e value children i n k v Hi He _ IH];
    intros v' Hv'; inversion Hv'; subst; try done.
  - rewrite Hl in *. simplify_eq. auto.
  - match goal with E : _ ++ _ = _ ++ _ |- _ => apply app_inv_head in E end. subst. auto.
  - rewrite He in *. simplify_eq. auto.
Qed.

(** ** The value of a node *)

(** What [hash] gives the parent of a node, without looking at the hashes
    recorded: the node itself when it is short, its hash otherwise. *)
Definition seal (v : rlp) : rlp :=
  if rlp_Len v <? 32 then v else NewBytes (HashBytes (Keccak256 (MarshalTo v))).

Fixpoint enc (n : Node) : rlp :=
  match n with
  | ValueNode _ buf => NewBytes (default [] buf)
  | ShortNode _ key c =>
      seal (NewArray [NewBytes (encodeCompact key); match c with Some c => enc c | None => NewNull end])
  | FullNode _ _ value children =>
      seal (NewArray (map (λ o, match o with Some c => enc c | None => NewNull end) children ++
                      [match value with Some c => enc c | None => NewNull end]))
  end.

Definition enc_opt (o : option Node) : rlp := match o with Some c => enc c | None => NewNull end.

(** The node itself. *)
Definition raw (n : Node) : rlp :=
  match n with
  | ValueNode _ buf => NewBytes (default [] buf)
  | ShortNode _ key c => NewArray [NewBytes (encodeCompact key); enc_opt c]
  | FullNode _ _ value children => NewArray ((enc_opt <$> children) ++ [enc_opt value])
  end.

Lemma enc_seal n : match n with ValueNode _ _ => True | _ => enc n = seal (raw n) end.
Proof. by destruct n. Qed.

Lemma raw_set h h' e e' value children i n n' :
  edge value children i = Some n → enc n = enc n' →
  raw (FullNode h e value children) =
  raw (FullNode h' e' (set_value i (Some n') value) (set_children i (Some n') children)).
Proof.
  intros He Hn. unfold raw, set_value, set_children, edge in *. destruct (Z.eqb_spec i 16).
  - subst value. simpl. by rewrite Hn.
  - do 2 f_equal. rewrite list_fmap_insert. simpl. rewrite <- Hn. symmetry. apply list_insert_id.
    rewrite list_lookup_fmap. by destruct (children !! Z.to_nat i) as [[]|]; simplify_eq/=.
Qed.

(** ** The shape of a trie *)

Definition is_value (n : Node) : Prop := ∃ b, b ≠ [] ∧ n = ValueNode false (Some b).

Definition is_ref (n : Node) : bool := match n with ValueNode true _ => true | _ => false end.

(** A full node, or a reference to one. *)
Definition is_full (n : Node) : Prop :=
  match n with
  | FullNode _ _ _ _ => True
  | ValueNode true buf => ∃ h e v ch, load buf st = Ret (Some (FullNode h e v ch))
  | _ => False
  end.

(** [HP h n]: what is known of the hash [h] recorded in the node [n].  A node of
    the running epoch [ep] has none. *)
Context (HP : bytes → Node → Prop) (ep : Z) (ep_pos : 0 ≤ ep).

Definition epoch_ok (h : bytes) (e : Z) : Prop := e ≤ ep ∧ (e = ep → h = []).

Definition hok (h : bytes) (n : Node) : Prop := h = [] ∨ HP h n.

Lemma epoch_ok_ep : epoch_ok [] ep.
Proof. by split. Qed.
Lemma epoch_ok_0 : epoch_ok [] 0.
Proof. by split. Qed.

Inductive wf : Node → Prop :=
| wf_ref r n :
    r ≠ [] → load (Some r) st = Ret (Some n) → is_ref n = false → enc n = NewBytes r → wf n →
    wf (ValueNode true (Some r))
| wf_leaf h key b :
    tkey key → b ≠ [] → hok h (ShortNode h key (Some (ValueNode false (Some b)))) →
    wf (ShortNode h key (Some (ValueNode false (Some b))))
| wf_ext h key c :
    key ≠ [] → Forall nib key → is_full c → wf c → hok h (ShortNode h key (Some c)) →
    wf (ShortNode h key (Some c))
| wf_full h e value children :
    length children = 16%nat →
    (∀ i n, nib i → edge value children i = Some n → wf n) →
    (∀ n, value = Some n → is_value n) →
    two value children → hok h (FullNode h e value children) → epoch_ok h e →
    wf (FullNode h e value children).

(** The same keys and values, a full node for a full node, the same hash. *)
Definition equiv (n n' : Node) : Prop :=
  (∀ k v, has n k v ↔ has n' k v) ∧ (is_full n ↔ is_full n') ∧ enc n = enc n'.

Lemma equiv_refl n : equiv n n.
Proof. done. Qed.

Lemma wf_tkey n k v : wf n → has n k v → tkey k.
Proof.
  intros Hn. revert k v. induction Hn as [r n _ Hl _ _ _ IH|h key b Hk _ _|h key c _ Hk _ _ IH _|h e value children Hl _ IH Hv _ _ _];
    intros k v Hk'.
  - apply (has_ref_inv _ _ _ _ Hl) in Hk'. eauto.
  - apply has_short_inv in Hk' as (k' & -> & [-> _]%has_value_inv). by rewrite app_nil_r.
  - apply has_short_inv in Hk' as (k' & -> & Hc). apply tkey_app; eauto.
  - apply has_full_inv in Hk' as (i & k' & n & -> & Hi & He & Hn). unfold edge in He.
    destruct (Z.eqb_spec i 16) as [->|Hne].
    + destruct (Hv n He) as (b & _ & ->). apply has_value_inv in Hn as [-> _]. auto with go.
    + assert (nib i) as Hnib by (unfold nib, index in *; lia). apply tkey_cons; [done|].
      apply (IH i n Hnib) with v; [|done]. unfold edge. by rewrite (proj2 (Z.eqb_neq _ _)).
Qed.

Context (HP_equiv : ∀ h n n', equiv n n' → HP h n → HP h n').

Lemma hok_equiv h n n' : equiv n n' → hok h n → hok h n'.
Proof. intros Heq [->|Hh]; [by left|right; eauto]. Qed.

Lemma equiv_short h h' key c c' :
  equiv c c' → equiv (ShortNode h key (Some c)) (ShortNode h' key (Some c')).
Proof.
  intros (Hc & _ & He). split_and!; [|done|by simpl; rewrite He]. intros k v. rewrite !has_short_inv.
  split; intros (k' & -> & Hk); exists k'; by rewrite Hc in *.
Qed.

Lemma equiv_full h h' e e' value children i n n' :
  index i → length children = 16%nat → edge value children i = Some n → equiv n n' →
  equiv (FullNode h e value children)
        (FullNode h' e' (set_value i (Some n') value) (set_children i (Some n') children)).
Proof.
  intros Hi Hl He (Hn & _ & Henc). split_and!; [|done|]; cycle 1.
  { exact (f_equal seal (raw_set h h' e e' _ _ _ n n' He Henc)). }
  intros k v. rewrite !has_full_inv.
  split; intros (j & k' & m & -> & Hj & Hm & Hk).
  - destruct (decide (j = i)) as [->|Hne].
    + exists i, k', n'. rewrite edge_set, decide_True by done. simplify_eq. by rewrite Hn in Hk.
    + exists j, k', m. by rewrite edge_set, decide_False.
  - rewrite edge_set in Hm by done. case_decide; simplify_eq.
    + exists i, k', n. by rewrite Hn.
    + by exists j, k', m.
Qed.

(** A full node with one child replaced. *)
Lemma wf_set h e value children i n' :
  length children = 16%nat → nib i →
  (∀ j n, nib j → edge value children j = Some n → wf n) →
  (∀ n, value = Some n → is_value n) →
  two (set_value i (Some n') value) (set_children i (Some n') children) → wf n' →
  hok h (FullNode h e (set_value i (Some n') value) (set_children i (Some n') children)) → epoch_ok h e →
  wf (FullNode h e (set_value i (Some n') value) (set_children i (Some n') children)).
Proof.
  intros Hl Hi Hc Hv Htwo Hn' Hh He. constructor; try done.
  - by rewrite length_set_children.
  - intros j n Hj. rewrite edge_set by auto with go. case_decide; [by intros [= <-]|eauto].
  - unfold set_value. unfold nib in Hi. rewrite (proj2 (Z.eqb_neq i 16)) by lia. done.
Qed.

(** A full node with its value replaced. *)
Lemma wf_set_value h e value children b :
  length children = 16%nat → b ≠ [] →
  (∀ j n, nib j → edge value children j = Some n → wf n) →
  two (Some (ValueNode false (Some b))) children →
  hok h (FullNode h e (Some (ValueNode false (Some b))) children) → epoch_ok h e →
  wf (FullNode h e (Some (ValueNode false (Some b))) children).
Proof.
  intros Hl Hb Hc Htwo Hh He. constructor; try done.
  - intros j n Hj Hn. apply (Hc j n Hj). unfold edge in *. unfold nib in Hj.
    by rewrite (proj2 (Z.eqb_neq j 16)) in * by lia.
  - intros n [= <-]. by exists b.
Qed.

(** ** Lookup *)

(** What the parent of a node holds after [lookup]. *)
Definition kept (ret self : option Node) : option Node := match ret with Some _ => ret | None => self end.

Definition lookup_post (n : Node) (k : bytes)
    (r : outcome (option Node * option bytes * option Node)) : Prop :=
  match r with
  | Ret (ret, res, self) =>
      (∀ v, res = Some v ↔ has n k v) ∧
      (∃ n', kept ret self = Some n' ∧ wf n' ∧ equiv n n') ∧
      (is_ref n = false → ret = None) ∧ (is_ref n = true → self = Some n)
  | _ => False
  end.

Lemma tkey_short_prefix key k : Forall nib key → tkey k → ∀ k', k = key ++ k' → tkey k'.
Proof. intros Hn Hk k' ->. by apply tkey_app_inv in Hk. Qed.

(** The fuel a node needs. *)
Definition need (n : Node) (k : bytes) : nat := (2 * length k + if is_ref n then 1 else 0)%nat.

Lemma need_le n k : (need n k ≤ 2 * length k + 1)%nat.
Proof. unfold need. case_match; lia. Qed.

Lemma lookup_absent n k : (∀ v, ¬ has n k v) → is_ref n = false → wf n →
  lookup_post n k (Ret (None, None, Some n)).
Proof.
  intros Hno Hr Hn. split_and!; [|by exists n|done|congruence]. intros v. split; [done|]. intros Hv. by destruct (Hno v).
Qed.

Lemma lookup_leaf fuel h key b k :
  wf (ShortNode h key (Some (ValueNode false (Some b)))) → tkey key → tkey k → (2 ≤ fuel)%nat →
  lookup_post (ShortNode h key (Some (ValueNode false (Some b)))) k
    (lookup fuel st (Some (ShortNode h key (Some (ValueNode false (Some b))))) k).
Proof.
  intros Hn Hkey Hk Hf. destruct fuel as [|[|fuel]]; [lia..|]. cbn [lookup]. rewrite prefix_test.
  destruct (bool_decide_reflect (key `prefix_of` k)) as [[k' ->]|Hno]; cbn [negb].
  2:{ apply lookup_absent; [|done|done]. intros v (k' & -> & [-> _]%has_value_inv)%has_short_inv.
      apply Hno. by exists []. }
  assert (k' = []) as -> by exact (tkey_prefix_free _ _ Hkey Hk). rewrite drop_app_length. cbn.
  split_and!; try done; [|by eexists]. intros v. rewrite has_short_inv. setoid_rewrite has_value_inv. split.
  - intros [= <-]. by exists [].
  - by intros (? & _ & -> & ->).
Qed.

Lemma lookup_ext fuel h key c k :
  key ≠ [] → Forall nib key → is_full c → wf c → hok h (ShortNode h key (Some c)) → tkey k →
  (∀ k', tkey k' → (length k' < length k)%nat → lookup_post c k' (lookup fuel st (Some c) k')) →
  lookup_post (ShortNode h key (Some c)) k (lookup (S fuel) st (Some (ShortNode h key (Some c))) k).
Proof.
  intros Hne Hkey Hfull Hc Hh Hk IH. cbn [lookup]. rewrite prefix_test.
  destruct (bool_decide_reflect (key `prefix_of` k)) as [[k' ->]|Hno]; cbn [negb].
  2:{ apply lookup_absent; [|done|by constructor]. intros v (k' & -> & _)%has_short_inv.
      apply Hno. by exists k'. }
  rewrite drop_app_length. apply tkey_app_inv in Hk; [|done].
  specialize (IH k' Hk). rewrite length_app in IH.
  specialize (IH ltac:(destruct key; [done|simpl; lia])).
  destruct (lookup fuel st (Some c) k') as [[[ret res] self]| |]; [|done..].
  destruct IH as (Hres & (n' & Hkept & Hn' & Heq) & _). cbn [obind lookup_post]. fold (kept ret self). rewrite Hkept.
  assert (equiv (ShortNode h key (Some c)) (ShortNode h key (Some n'))) as Heq' by (by apply equiv_short).
  split_and!; try done; [|eexists; split_and!; [done| |done]].
  - intros v. rewrite Hres, has_short_inv. split; [by exists k'|]. intros (k2 & E & ?).
    by apply app_inv_head in E as ->.
  - apply wf_ext; try done; [by apply Heq|by eapply hok_equiv].
Qed.

Lemma lookup_full_value fuel h e value children :
  wf (FullNode h e value children) → length children = 16%nat →
  (∀ n, value = Some n → is_value n) → (1 ≤ fuel)%nat →
  lookup_post (FullNode h e value children) [16]
    (lookup (S fuel) st (Some (FullNode h e value children)) [16]).
Proof.
  intros Hn Hl Hv Hf. cbn [lookup]. rewrite getEdge_edge by done. cbn [obind].
  change (edge value children 16) with value. destruct fuel as [|fuel]; [lia|].
  assert (lookup_post (FullNode h e value children) [16]
    (Ret (None, match value with Some (ValueNode _ b) => b | _ => None end,
          Some (FullNode h e value children)))) as Hpost.
  { split_and!; try done; [|by eexists].
    intros v. rewrite has_full_at by done. change (edge value children 16) with value.
    destruct value as [n|]; [|by split; [|intros (? & ? & _)]].
    destruct (Hv n eq_refl) as (b & _ & ->). split; [intros [= <-]; eexists; split; [done|constructor]|].
    by intros (? & [= <-] & [_ ->]%has_value_inv). }
  destruct value as [n|]; [destruct (Hv n eq_refl) as (b & _ & ->)|]; exact Hpost.
Qed.

Lemma lookup_full_child fuel h e value children i k :
  wf (FullNode h e value children) → nib i → (1 ≤ fuel)%nat →
  (∀ n, edge value children i = Some n → lookup_post n k (lookup fuel st (Some n) k)) →
  lookup_post (FullNode h e value children) (i :: k)
    (lookup (S fuel) st (Some (FullNode h e value children)) (i :: k)).
Proof.
  intros Hn Hi Hf IH. pose proof Hn as Hn0. inversion Hn0 as [| | |? ? ? ? Hl Hc Hv Htwo Hh He]; subst. cbn [lookup].
  rewrite getEdge_edge by auto with go. cbn [obind].
  destruct (edge value children i) as [n|] eqn:Ei.
  - specialize (IH n eq_refl). destruct (lookup fuel st (Some n) k) as [[[ret res] self]| |]; [|done..].
    destruct IH as (Hres & (n' & Hkept & Hn' & Heq) & _). cbn [obind].
    assert (lookup_post (FullNode h e value children) (i :: k)
      (let~ n := setEdge i (Some n') (FullNode h e value children) in Ret (None, res, Some n))) as Hpost.
    { rewrite setEdge_full by auto with go. cbn [obind].
      pose proof (equiv_full h h e e value children i n n' (nib_index _ Hi) Hl Ei Heq) as Heq'.
      split_and!; try done; [|eexists; split_and!; [done| |done]].
      - intros v. rewrite Hres, has_full_at by auto with go. rewrite Ei. split; [eauto|].
        by intros (? & [= <-] & ?).
      - apply wf_set; try done; [by apply two_set; auto with go|by eapply hok_equiv]. }
    unfold kept in Hkept. destruct ret as [c|]; simplify_eq; [|exact Hpost].
    unfold nib in Hi. rewrite (proj2 (Z.eqb_neq i 16)) by lia. exact Hpost.
  - destruct fuel as [|fuel]; [lia|]. cbn [lookup obind]. rewrite setEdge_full by auto with go. cbn [obind].
    destruct (set_same i value children) as [Es1 Es2]; [auto with go|done|].
    rewrite Ei in Es1, Es2. rewrite Es1, Es2.
    apply lookup_absent; [|done|done]. intros v. rewrite has_full_at by auto with go.
    rewrite Ei. by intros (? & ? & _).
Qed.

Lemma lookup_wf n : wf n → ∀ k fuel, tkey k → (need n k ≤ fuel)%nat →
  lookup_post n k (lookup fuel st (Some n) k).
Proof.
  induction 1 as [r n Hr0 Hl Hr Henc Hn IH|h key b Hkey Hb Hh|h key c Hne Hkey Hfull Hc IH Hh|h e value children Hl Hc IH Hv Htwo Hh He];
    intros k fuel Hk Hf; unfold need in Hf; cbn [is_ref] in Hf;
    (assert (0 < length k)%nat as Hpos by (destruct Hk; simpl; lia));
    (destruct fuel as [|fuel]; [lia|]).
  - cbn [lookup]. rewrite Hl. cbn [obind]. specialize (IH k fuel Hk). unfold need in IH. rewrite Hr in IH.
    specialize (IH ltac:(lia)). destruct (lookup fuel st (Some n) k) as [[[ret res] self]| |]; [|done..].
    destruct IH as (Hres & (n' & Hkept & Hn' & Heq) & Hret & _). cbn [obind lookup_post].
    rewrite (Hret Hr) in Hkept. simpl in Hkept. subst self. split_and!; [|exists n'; split_and!|done|done]; try done.
    + intros v. by rewrite Hres, (has_ref_inv _ _ _ _ Hl).
    + destruct Heq as (Hk' & Hf' & He'). split_and!; [intros; by rewrite (has_ref_inv _ _ _ _ Hl)| |by rewrite <- He'].
      rewrite <- Hf'. simpl. rewrite Hl. split; [intros (? & ? & ? & ? & ?); by simplify_eq|].
      destruct n as [[] ?| |]; try done. eauto 6.
  - apply lookup_leaf; [by constructor|done|done|lia].
  - apply lookup_ext; try done. intros k' Hk' Hlt. apply IH; [done|]. pose proof (need_le c k'). lia.
  - destruct Hk as [|i k Hi Hk].
    + apply lookup_full_value; [by constructor|done|done|simpl in Hf; lia].
    + apply lookup_full_child; [by constructor|done|simpl in *; lia|]. intros n Hn.
      apply (IH i n Hi Hn); [done|]. pose proof (need_le n k). simpl in Hf. lia.
Qed.

(** ** Insertion *)

(** The node [insert] puts where there was none. *)
Definition fresh (k v : bytes) : Node :=
  match k with
  | [] => ValueNode false (Some v)
  | _ => ShortNode [] k (Some (ValueNode false (Some v)))
  end.

Lemma insert_nil fuel k v :
  (2 ≤ fuel ∨ k = [] ∧ 1 ≤ fuel)%nat → insert fuel ep st None k v = Ret (Some (fresh k v)).
Proof.
  intros Hf. destruct fuel as [|[|fuel]]; [lia| |].
  - destruct Hf as [?|[-> _]]; [lia|done].
  - destruct k; [done|]. cbn [insert]. by rewrite bool_decide_false.
Qed.

Lemma fresh_has k v k' v' : has (fresh k v) k' v' ↔ k' = k ∧ v' = v.
Proof.
  destruct k as [|d k]; simpl; [apply has_value_inv|]. rewrite has_short_inv. setoid_rewrite has_value_inv.
  split.
  - intros (? & -> & -> & ->). by rewrite app_nil_r.
  - intros [-> ->]. exists []. by rewrite app_nil_r.
Qed.

Lemma fresh_wf k v : tkey k → v ≠ [] → wf (fresh k v).
Proof. intros Hk Hv. destruct k as [|d k]; [by inversion Hk|]. apply wf_leaf; [done|done|by left]. Qed.

(** The rest of a short node cut after its first nibble. *)
Definition rest (key : bytes) (c : Node) : Node :=
  match key with [] => c | _ => ShortNode [] key (Some c) end.

Lemma rest_has key c k v : has (rest key c) k v ↔ ∃ k', k = key ++ k' ∧ has c k' v.
Proof.
  destruct key; simpl; [|apply has_short_inv]. split; [eauto|]. by intros (? & -> & ?).
Qed.

Definition branch (x y : Z) (xn yn : Node) : Node :=
  FullNode [] ep (set_value x (Some xn) (set_value y (Some yn) None))
    (set_children x (Some xn) (set_children y (Some yn) emptyChildren)).

Definition wrap (p : bytes) (n : Node) : Node := match p with [] => n | _ => ShortNode [] p (Some n) end.

Lemma insert_split fuel h p x y key k c v :
  x ≠ y → index x → index y → (2 ≤ fuel ∨ k = [] ∧ 1 ≤ fuel)%nat →
  insert (S (S fuel)) ep st (Some (ShortNode h (p ++ y :: key) (Some c))) (p ++ x :: k) v =
  Ret (Some (wrap p (branch x y (fresh k v) (rest key c)))).
Proof.
  intros Hxy Hx Hy Hf. cbn [insert]. rewrite prefixLen_app by (intros; by simplify_eq).
  rewrite length_app. cbn [length]. rewrite (proj2 (Nat.eqb_neq _ _)) by lia.
  rewrite (nth_middle p key y 0).
  assert ((if (length p + 1 <? length p + S (length key))%nat
           then Some (ShortNode [] (drop (length p + 1) (p ++ y :: key)) (Some c)) else Some c)
          = Some (rest key c)) as ->.
  { rewrite drop_app_add. simpl. destruct key; simpl.
    - by rewrite (proj2 (Nat.ltb_ge _ _)) by lia.
    - by rewrite (proj2 (Nat.ltb_lt _ _)) by lia. }
  rewrite setEdge_full by done. cbn [obind]. rewrite drop_app_length, take_app_length.
  cbn [writeNode]. rewrite Z.eqb_refl.
  rewrite getEdge_edge by (done || by rewrite length_set_children).
  rewrite edge_set, decide_False, edge_empty by done. cbn [obind]. rewrite insert_nil by done. cbn [obind].
  rewrite setEdge_full by (done || by rewrite length_set_children). cbn [obind].
  by destruct p.
Qed.

Lemma branch_edge x y xn yn i :
  index x → index y → index i →
  edge (set_value x (Some xn) (set_value y (Some yn) None))
    (set_children x (Some xn) (set_children y (Some yn) emptyChildren)) i =
  if decide (i = x) then Some xn else if decide (i = y) then Some yn else None.
Proof.
  intros. rewrite !edge_set by (done || by rewrite length_set_children). by rewrite edge_empty.
Qed.

Lemma branch_wf x y xn yn :
  x ≠ y → index x → index y →
  (nib x → wf xn) → (nib y → wf yn) →
  (x = 16 → is_value xn) → (y = 16 → is_value yn) →
  wf (branch x y xn yn).
Proof.
  intros Hxy Hx Hy Hwx Hwy Hvx Hvy. constructor; try (by left); try done.
  - by rewrite !length_set_children.
  - intros i n Hi. rewrite branch_edge by auto with go. repeat case_decide; intros; simplify_eq; auto.
  - unfold set_value. intros n. repeat case_match; bool_props; intros; simplify_eq; auto.
  - exists x, y. rewrite !branch_edge by done. rewrite (decide_True _ _ (eq_refl x)).
    rewrite (decide_False _ _ (not_eq_sym Hxy)), (decide_True _ _ (eq_refl y)). by eauto.
Qed.

Lemma branch_has x y xn yn k v :
  x ≠ y → index x → index y →
  has (branch x y xn yn) k v ↔ (∃ k', k = x :: k' ∧ has xn k' v) ∨ (∃ k', k = y :: k' ∧ has yn k' v).
Proof.
  intros Hxy Hx Hy. unfold branch. rewrite has_full_inv. split.
  - intros (i & k' & n & -> & Hi & He & Hn). rewrite branch_edge in He by done.
    repeat case_decide; simplify_eq; eauto.
  - intros [(k' & -> & Hn)|(k' & -> & Hn)]; [exists x, k', xn|exists y, k', yn]; split_and!; try done;
      rewrite branch_edge by done; repeat case_decide; congruence.
Qed.

Lemma wrap_has p n k v : has (wrap p n) k v ↔ ∃ k', k = p ++ k' ∧ has n k' v.
Proof. destruct p; simpl; [|apply has_short_inv]. split; [eauto|]. by intros (? & -> & ?). Qed.

Lemma wrap_wf p h e value children :
  Forall nib p → wf (FullNode h e value children) → wf (wrap p (FullNode h e value children)).
Proof. intros Hp Hn. destruct p; [done|]. apply wf_ext; try done. by left. Qed.

Definition insert_post (n : Node) (k v : bytes) (r : outcome (option Node)) : Prop :=
  match r with
  | Ret (Some n') =>
      wf n' ∧ is_ref n' = false ∧ (is_full n → is_full n') ∧
      ∀ k' v', has n' k' v' ↔ (k' = k ∧ v' = v ∨ k' ≠ k ∧ has n k' v')
  | _ => False
  end.

(** A short node whose key leaves the one inserted. *)
Lemma insert_split_post fuel h p x y key k c v :
  x ≠ y → v ≠ [] → Forall nib p → tkey (x :: k) → index y → (2 ≤ fuel ∨ k = [] ∧ 1 ≤ fuel)%nat →
  (nib y → wf (rest key c)) → (y = 16 → is_value (rest key c)) →
  insert_post (ShortNode h (p ++ y :: key) (Some c)) (p ++ x :: k) v
    (insert (S (S fuel)) ep st (Some (ShortNode h (p ++ y :: key) (Some c))) (p ++ x :: k) v).
Proof.
  intros Hxy Hvn Hp Hk Hy Hf Hwy Hvy.
  assert (index x) as Hx by (inversion Hk; subst; [done|auto with go]).
  rewrite insert_split by done. cbn [insert_post]. split_and!.
  - apply wrap_wf; [done|]. apply branch_wf; try done.
    + intros Hn. inversion Hk; subst; [unfold nib in *; lia|by apply fresh_wf].
    + intros ->. inversion Hk; subst; [by exists v|unfold nib in *; lia].
  - by destruct p.
  - done.
  - intros k' v'. rewrite wrap_has. setoid_rewrite branch_has; [|done..]. rewrite has_short_inv. split.
    + intros (k2 & -> & [(k3 & -> & [-> ->]%fresh_has)|(k3 & -> & (k4 & -> & Hc)%rest_has)]); [by left|right].
      split; [|exists k4; by rewrite <- app_assoc]. intros E. apply app_inv_head in E. by simplify_eq.
    + intros [[-> ->]|(_ & k2 & -> & Hc)].
      * exists (x :: k). split; [done|]. left. exists k. by rewrite fresh_has.
      * exists (y :: key ++ k2). rewrite <- app_assoc. split; [done|]. right. exists (key ++ k2). split; [done|].
        apply rest_has. eauto.
Qed.

Lemma prefixLen_prefix (key k : bytes) : prefixLen (key ++ k) key = length key.
Proof. rewrite <- (app_nil_r key) at 2. by apply prefixLen_app. Qed.

Lemma leaf_has h key b k v : has (ShortNode h key (Some (ValueNode false (Some b)))) k v ↔ k = key ∧ v = b.
Proof.
  rewrite has_short_inv. setoid_rewrite has_value_inv. split.
  - intros (? & -> & -> & ->). by rewrite app_nil_r.
  - intros [-> ->]. exists []. by rewrite app_nil_r.
Qed.

(** Where a key leaves the key of a short node. *)
Lemma key_leaves (key k : bytes) :
  tkey key ∨ Forall nib key → tkey k → ¬ key `prefix_of` k →
  ∃ p x y key' k', key = p ++ y :: key' ∧ k = p ++ x :: k' ∧ x ≠ y ∧ Forall nib p ∧ tkey (x :: k') ∧
    (tkey key → tkey (y :: key')) ∧ (Forall nib key → nib y ∧ Forall nib key').
Proof.
  intros Hkey Hk Hno. destruct (prefixLen_split k key) as (p & a & b & -> & -> & Hab).
  destruct b as [|y b]; [destruct Hno; rewrite app_nil_r; by exists a|].
  assert (Forall nib p) as Hp.
  { destruct Hkey as [Hkey|Hkey]; [|by apply Forall_app in Hkey as [? _]].
    apply tkey_split in Hkey as (l & E & Hl). clear - E Hl. revert l E Hl.
    induction p as [|d p IH]; intros l E Hl; [constructor|]. destruct Hl as [|d' l Hd Hl]; simplify_eq/=.
    - by destruct p.
    - constructor; [done|eauto]. }
  apply tkey_app_inv in Hk; [|done]. destruct a as [|x a]; [by inversion Hk|].
  exists p, x, y, b, a. split_and!; try done; [by eapply Hab|..].
  - intros Hkey'. by apply tkey_app_inv in Hkey'.
  - intros Hkey'. apply Forall_app in Hkey' as [_ Hkey']. by inversion Hkey'.
Qed.

(** Storing below an edge of a full node. *)
Lemma insert_full_post h e value children i k v n' :
  index i → length children = 16%nat →
  (∀ j n, nib j → edge value children j = Some n → wf n) →
  (∀ n, value = Some n → is_value n) →
  two value children → epoch_ok h e →
  v ≠ [] → (nib i → wf n') → (i = 16 → n' = ValueNode false (Some v)) →
  (∀ k' v', has n' k' v' ↔
     (k' = k ∧ v' = v ∨ k' ≠ k ∧ ∃ n, edge value children i = Some n ∧ has n k' v')) →
  insert_post (FullNode h e value children) (i :: k) v
    (Ret (Some (FullNode [] ep (set_value i (Some n') value) (set_children i (Some n') children)))).
Proof.
  intros Hi Hl Hc Hv Htwo He Hvne Hn' Hvn Hhas. cbn [insert_post].
  pose proof (two_set i (Some n') value children Hi Hl Htwo (ex_intro _ n' eq_refl)) as Htwo'.
  split_and!; try done.
  - destruct (decide (i = 16)) as [->|].
    + rewrite (Hvn eq_refl) in *. apply (wf_set_value _ _ value); try done. by left.
    + apply wf_set; try done; [|apply Hn'|by left]; unfold nib, index in *; lia.
  - intros k' v'. rewrite !has_full_inv. split.
    + intros (j & k2 & n & -> & Hj & Hm & Hk). rewrite edge_set in Hm by done. case_decide; simplify_eq.
      * apply Hhas in Hk as [[-> ->]|(Hne & m & ? & ?)]; [by left|right]. split; [congruence|eauto 7].
      * right. split; [congruence|eauto 7].
    + intros [[-> ->]|(Hne & j & k2 & n & -> & Hj & Hm & Hk)].
      * exists i, k, n'. rewrite edge_set, decide_True by done. split_and!; try done. apply Hhas. by left.
      * exists j, k2. rewrite edge_set by done. case_decide; [|by exists n]. subst. exists n'.
        split_and!; try done. apply Hhas. right. split; [congruence|eauto].
Qed.

Lemma insert_leaf fuel h key b k v :
  v ≠ [] → tkey key → b ≠ [] → tkey k → (4 ≤ fuel)%nat →
  insert_post (ShortNode h key (Some (ValueNode false (Some b)))) k v
    (insert fuel ep st (Some (ShortNode h key (Some (ValueNode false (Some b))))) k v).
Proof.
  intros Hvn Hkey Hb Hk Hf. destruct fuel as [|[|fuel]]; [lia..|].
  destruct (decide (key `prefix_of` k)) as [[k' ->]|Hno].
  - assert (k' = []) as -> by exact (tkey_prefix_free _ _ Hkey Hk). cbn [insert].
    rewrite (prefixLen_prefix key []).
    rewrite Nat.eqb_refl, app_nil_r, drop_all, bool_decide_true by done. cbn [obind insert_post].
    split_and!; try done; [apply wf_leaf; [done|done|by left]|]. intros k' v'. rewrite !leaf_has. naive_solver.
  - destruct (key_leaves key k) as (p & x & y & key' & k' & -> & -> & Hxy & Hp & Hk' & Hy & _); [by left|done..|].
    specialize (Hy Hkey). apply insert_split_post; try done; [|lia| |].
    + inversion Hy; subst; [done|auto with go].
    + intros Hn. inversion Hy; subst; [unfold nib in *; lia|].
      destruct key' as [|d key']; [by destruct (tkey_not_nil [])|]. apply wf_leaf; [done|done|by left].
    + intros ->. inversion Hy; subst; [|unfold nib in *; lia]. by exists b.
Qed.

Lemma insert_ext fuel h key c k v :
  v ≠ [] → key ≠ [] → Forall nib key → is_full c → wf c → tkey k → (4 ≤ fuel)%nat →
  (∀ k', tkey k' → (length k' < length k)%nat → insert_post c k' v (insert (pred fuel) ep st (Some c) k' v)) →
  insert_post (ShortNode h key (Some c)) k v (insert fuel ep st (Some (ShortNode h key (Some c))) k v).
Proof.
  intros Hvn Hne Hkey Hfull Hc Hk Hf IH. destruct fuel as [|[|fuel]]; [lia..|]. cbn [pred] in IH.
  destruct (decide (key `prefix_of` k)) as [[k' ->]|Hno].
  - apply tkey_app_inv in Hk; [|done]. specialize (IH k' Hk). rewrite length_app in IH.
    specialize (IH ltac:(destruct key; [done|simpl; lia])). remember (S fuel) as fuel1. cbn [insert].
    rewrite prefixLen_prefix, Nat.eqb_refl, drop_app_length.
    destruct (insert fuel1 ep st (Some c) k' v) as [[n'|]| |]; [|done..].
    destruct IH as (Hn' & _ & Hf' & Hhas). cbn [obind insert_post]. split_and!; try done.
    + apply wf_ext; auto. by left.
    + intros k2 v2. rewrite !has_short_inv. setoid_rewrite Hhas. split.
      * intros (k3 & -> & [[-> ->]|[Hne' ?]]); [by left|right]. split; [|eauto].
        intros E. by apply app_inv_head in E.
      * intros [[-> ->]|(Hne' & k3 & -> & ?)]; [eauto|]. exists k3. split; [done|right].
        split; [congruence|done].
  - destruct (key_leaves key k) as (p & x & y & key' & k' & -> & -> & Hxy & Hp & Hk' & _ & Hy); [by right|done..|].
    destruct (Hy Hkey) as [Hyn Hkey']. apply insert_split_post; try done; [auto with go|lia| |].
    + intros _. destruct key' as [|d key']; [done|]. apply wf_ext; try done. by left.
    + unfold nib in *. lia.
Qed.

Lemma insert_full fuel h e value children k v :
  v ≠ [] → wf (FullNode h e value children) → tkey k → (2 ≤ fuel)%nat →
  (∀ i n k', nib i → edge value children i = Some n → tkey k' → (length k' < length k)%nat →
     insert_post n k' v (insert fuel ep st (Some n) k' v)) →
  insert_post (FullNode h e value children) k v (insert (S fuel) ep st (Some (FullNode h e value children)) k v).
Proof.
  intros Hvn Hn Hk Hf IH. inversion Hn as [| | |? ? ? ? Hl Hc Hv Htwo Hh He]; subst. cbn [insert].
  assert (writeNode ep (FullNode h e value children) = FullNode [] ep value children) as ->.
  { cbn [writeNode]. destruct (Z.eqb_spec ep e) as [E|]; [|done]. subst e. by rewrite (proj2 He eq_refl). }
  destruct k as [|i k]; [by inversion Hk|].
  assert (index i) as Hi by (inversion Hk; subst; [done|auto with go]).
  rewrite getEdge_edge by done. cbn [obind].
  destruct (edge value children i) as [n|] eqn:Ei; [destruct (decide (i = 16)) as [->|Hne]|].
  - assert (k = []) as -> by (inversion Hk; subst; [done|unfold nib in *; lia]).
    change (edge value children 16) with value in Ei. destruct (Hv n Ei) as (b & Hb & ->).
    destruct fuel as [|fuel]; [lia|]. cbn [insert]. rewrite bool_decide_true by done.
    cbn [obind]. rewrite setEdge_full by done. cbn [obind].
    apply insert_full_post; try done; [unfold nib; lia|]. intros k' v'.
    change (edge value children 16) with value. rewrite Ei, has_value_inv. split; [naive_solver|].
    by intros [?|(? & ? & [= <-] & [? _]%has_value_inv)].
  - assert (nib i ∧ tkey k) as [Hnib Hk'] by (inversion Hk; subst; done).
    specialize (IH i n k Hnib Ei Hk' ltac:(simpl; lia)).
    destruct (insert fuel ep st (Some n) k v) as [[n'|]| |]; [|done..].
    destruct IH as (Hn' & _ & _ & Hhas). cbn [obind]. rewrite setEdge_full by done. cbn [obind].
    apply insert_full_post; try done. intros k' v'. rewrite Hhas, Ei. naive_solver.
  - rewrite insert_nil by (by left). cbn [obind]. rewrite setEdge_full by done. cbn [obind].
    apply insert_full_post; try done.
    + intros Hnib. inversion Hk; subst; [unfold nib in *; lia|by apply fresh_wf].
    + intros ->. inversion Hk; subst; [done|unfold nib in *; lia].
    + intros k' v'. rewrite fresh_has, Ei. naive_solver.
Qed.

Lemma insert_wf n : wf n → ∀ k v fuel, v ≠ [] → tkey k → (need n k + 2 ≤ fuel)%nat →
  insert_post n k v (insert fuel ep st (Some n) k v).
Proof.
  induction 1 as [r n Hr0 Hl Hr Henc Hn IH|h key b Hkey Hb Hh|h key c Hne Hkey Hfull Hc IH Hh|h e value children Hl Hc IH Hv Htwo Hh He];
    intros k v fuel Hvn Hk Hf; unfold need in Hf; cbn [is_ref] in Hf;
    (assert (0 < length k)%nat as Hpos by (destruct Hk; simpl; lia)).
  - destruct fuel as [|fuel]; [lia|]. cbn [insert]. rewrite Hl. cbn [obind]. specialize (IH k v fuel Hvn Hk).
    unfold need in IH. rewrite Hr in IH. specialize (IH ltac:(lia)).
    destruct (insert fuel ep st (Some n) k v) as [[n'|]| |]; [|done..].
    destruct IH as (Hn' & Hr' & Hf' & Hhas). split_and!; try done.
    + simpl. rewrite Hl. intros (? & ? & ? & ? & ?); simplify_eq. by apply Hf'.
    + intros. by rewrite Hhas, (has_ref_inv _ _ _ _ Hl).
  - apply insert_leaf; try done; lia.
  - apply insert_ext; try done; [lia|]. intros k' Hk' Hlt. apply IH; [done|done|]. pose proof (need_le c k'). lia.
  - destruct fuel as [|fuel]; [lia|]. apply insert_full; [done|by constructor|done|lia|].
    intros i n k' Hi Hn Hk' Hlt. apply (IH i n Hi Hn); [done|done|]. pose proof (need_le n k'). lia.
Qed.

(** ** Deletion *)

Lemma wf_nonempty n : wf n → ∃ k v, has n k v.
Proof.
  induction 1 as [r n _ Hl _ _ _ (k & v & IH)|h key b _ _ _|h key c _ _ _ _ (k & v & IH) _|h e value children Hl Hc IH Hv Htwo _ _].
  - exists k, v. by eapply has_ref.
  - exists key, b. by apply leaf_has.
  - exists (key ++ k), v. by constructor.
  - destruct Htwo as (i & j & _ & Hi & _ & [n Hn] & _). destruct (decide (i = 16)) as [->|].
    + destruct (Hv n Hn) as (b & _ & ->). exists [16], b. eapply has_full; [done|exact Hn|constructor].
    + destruct (IH i n) as (k & v & Hk); [unfold nib, index in *; lia|done|]. exists (i :: k), v.
      by eapply has_full.
Qed.

(** What is there among the children, from the index [s] on. *)
Lemma childIndex_spec children s acc :
  match childIndex children s acc with
  | (None, b) => b = false ∧ acc = None ∧ ∀ i n, children !! i ≠ Some (Some n)
  | (Some i, false) =>
      acc = Some i ∧ (∀ j n, children !! j ≠ Some (Some n)) ∨
      acc = None ∧ (s ≤ i)%nat ∧ (∃ n, children !! (i - s)%nat = Some (Some n)) ∧
        (∀ j n, children !! j = Some (Some n) → j = (i - s)%nat)
  | (Some i, true) =>
      ∃ j n, children !! j = Some (Some n) ∧
        (acc = Some i ∨ acc = None ∧ (s ≤ i)%nat ∧ (i - s)%nat ≠ j ∧ ∃ n', children !! (i - s)%nat = Some (Some n'))
  end.
Proof.
  revert s acc. induction children as [|[n|] children IH]; intros s acc; cbn [childIndex].
  - destruct acc; [left|]; split_and!; try done; intros i n; by rewrite lookup_nil.
  - destruct acc as [a|]; [exists 0%nat, n; eauto|]. specialize (IH (S s) (Some s)).
    destruct (childIndex children (S s) (Some s)) as [[i|] []].
    + destruct IH as (j & n' & Hj & [[= <-]|[? _]]); [|done]. exists (S j), n'. split; [done|]. right.
      split_and!; [done|lia|lia|]. exists n. by rewrite Nat.sub_diag.
    + destruct IH as [[[= <-] Hno]|[? _]]; [|done]. right. split_and!; [done|lia|exists n; by rewrite Nat.sub_diag|].
      intros [|j] m Hj; [lia|]. by apply Hno in Hj.
    + by destruct IH as (_ & ? & _).
    + by destruct IH as (_ & ? & _).
  - specialize (IH (S s) acc). destruct (childIndex children (S s) acc) as [[i|] []].
    + destruct IH as (j & n' & Hj & Ha). exists (S j), n'. split; [done|].
      destruct Ha as [?|(? & Hs & Hne & n2 & Hi)]; [by left|right]. split_and!; [done|lia|lia|].
      exists n2. by replace (i - s)%nat with (S (i - S s)) by lia.
    + destruct IH as [[? Hno]|(? & Hs & (n2 & Hi) & Hu)]; [left|right].
      * split; [done|]. intros [|j] m; [done|apply Hno].
      * split_and!; [done|lia|exists n2; by replace (i - s)%nat with (S (i - S s)) by lia|].
        intros [|j] m Hj; [done|]. apply Hu in Hj. lia.
    + destruct IH as (? & _ & _); done.
    + destruct IH as (_ & ? & Hno). split_and!; [done|done|]. intros [|j] m; [done|apply Hno].
Qed.

Lemma edge_child value children i n :
  (i < 16)%nat → children !! i = Some (Some n) ↔ edge value children (Z.of_nat i) = Some n.
Proof.
  intros Hi. unfold edge. rewrite (proj2 (Z.eqb_neq _ _)) by lia. rewrite Nat2Z.id.
  destruct (children !! i) as [[m|]|]; simpl; split; congruence.
Qed.

(** A node hung below one nibble. *)
Definition hang (i : Z) (n : Node) : Node :=
  match n with
  | ShortNode _ key child => ShortNode [] (i :: key) child
  | n => ShortNode [] [i] (Some n)
  end.

Lemma hang_wf i n : nib i → wf n → is_ref n = false → wf (hang i n).
Proof.
  intros Hi Hn Hr. pose proof Hn as Hn'. destruct Hn as [|h key b Hk Hb _|h key c Hne Hk Hf Hc _|]; [done| | |]; simpl.
  - apply wf_leaf; [by constructor|done|by left].
  - apply wf_ext; try done; [by constructor|by left].
  - apply wf_ext; try done; [by apply Forall_singleton|by left].
Qed.

Lemma hang_has i n k v : wf n → has (hang i n) k v ↔ ∃ k', k = i :: k' ∧ has n k' v.
Proof.
  intros Hn. assert (∀ m, has (ShortNode [] [i] (Some m)) k v ↔ ∃ k', k = i :: k' ∧ has m k' v) as Hs
    by (intros m; apply has_short_inv).
  destruct Hn; cbn [hang]; try apply Hs.
  - rewrite leaf_has. setoid_rewrite leaf_has. naive_solver.
  - rewrite has_short_inv. setoid_rewrite has_short_inv. naive_solver.
Qed.

(** A full node whose only entry is the child at [i]. *)
Lemma single_has h e value children i n k v :
  index i → edge value children i = Some n → (∀ j m, index j → edge value children j = Some m → j = i) →
  has (FullNode h e value children) k v ↔ ∃ k', k = i :: k' ∧ has n k' v.
Proof.
  intros Hi He Hu. rewrite has_full_inv. split.
  - intros (j & k' & m & -> & Hj & Hm & Hk). pose proof (Hu j m Hj Hm) as ->. simplify_eq. eauto.
  - intros (k' & -> & Hk). eauto 7.
Qed.

Lemma wf_resolve n : wf n →
  ∃ n', match n with ValueNode true buf => load buf st | n => Ret (Some n) end = Ret (Some n') ∧
        wf n' ∧ is_ref n' = false ∧ ∀ k v, has n' k v ↔ has n k v.
Proof.
  intros Hn. pose proof Hn as Hn'. destruct Hn as [r n _ Hl Hr He Hn| | |]; try by eexists.
  exists n. rewrite Hl. split_and!; try done. intros. by rewrite (has_ref_inv _ _ _ _ Hl).
Qed.

Lemma two_of value children i j :
  i ≠ j → index i → index j → is_Some (edge value children i) → is_Some (edge value children j) →
  two value children.
Proof. intros. by exists i, j. Qed.

Lemma collapse_wf value children :
  length children = 16%nat →
  (∀ i n, nib i → edge value children i = Some n → wf n) →
  (∀ n, value = Some n → is_value n) →
  (∃ i, index i ∧ is_Some (edge value children i)) →
  ∃ n', collapse st (FullNode [] 0 value children) = Ret (Some (Some n')) ∧ wf n' ∧ is_ref n' = false ∧
        ∀ k v, has n' k v ↔ has (FullNode [] 0 value children) k v.
Proof.
  intros Hl Hc Hv (i0 & Hi0 & Hsome).
  assert (two value children → ∃ n', Ret (Some (Some (FullNode [] 0 value children))) = Ret (Some (Some n')) ∧
    wf n' ∧ is_ref n' = false ∧ ∀ k v, has n' k v ↔ has (FullNode [] 0 value children) k v) as Hkeep.
  { intros. eexists. split_and!; [done| |done|done]. constructor; try done. by left. }
  assert (∀ i n, children !! i = Some (Some n) → (i < 16)%nat ∧ edge value children (Z.of_nat i) = Some n) as Hch.
  { intros i n Hi. pose proof (lookup_lt_Some _ _ _ Hi). split; [lia|]. apply edge_child; [lia|done]. }
  unfold collapse. pose proof (childIndex_spec children 0 None) as Hx.
  destruct (childIndex children 0 None) as [[i|] []]; rewrite ?Nat.sub_0_r in Hx.
  - cbn [orb]. apply Hkeep. destruct Hx as (j & n & Hj & [?|(_ & _ & Hne & n' & Hi)]); [done|].
    apply Hch in Hj as [? Hj], Hi as [? Hi]. eapply (two_of _ _ (Z.of_nat i) (Z.of_nat j)); unfold index; eauto; lia.
  - destruct Hx as [[? _]|(_ & _ & (n & Hi) & Hu)]; [done|]. pose proof (Hch _ _ Hi) as [Hi16 He].
    rewrite bool_decide_true by done. destruct value as [vn|]; cbn [orb andb].
    + rewrite bool_decide_true by done. apply Hkeep. apply (two_of _ _ (Z.of_nat i) 16); unfold index; try lia; eauto.
    + rewrite bool_decide_false by (by intros [? ?]). rewrite Hi. cbn [mjoin option_join].
      assert (nib (Z.of_nat i)) as Hnib by (unfold nib; lia). pose proof (Hc _ _ Hnib He) as Hn.
      destruct (wf_resolve n Hn) as (n' & Eload & Hn' & Hr' & Hsame).
      assert (∀ j m, index j → edge None children j = Some m → j = Z.of_nat i) as Huniq.
      { intros j m Hj Hm. unfold edge in Hm. destruct (Z.eqb_spec j 16); [done|].
        destruct (children !! Z.to_nat j) as [[m'|]|] eqn:Ej; try done. apply Hu in Ej. unfold index in Hj. lia. }
      match goal with |- context [let~ nc := ?l in _] =>
        assert (l = Ret (Some n')) as -> by (rewrite <- Eload; by destruct n as [[]| |]) end.
      cbn [obind]. exists (hang (Z.of_nat i) n'). split_and!.
      * by destruct n'.
      * by apply hang_wf.
      * by destruct n'.
      * intros k v. rewrite hang_has by done. rewrite (single_has _ _ _ _ (Z.of_nat i) n); auto with go.
        setoid_rewrite Hsame. done.
  - by destruct Hx.
  - destruct Hx as (_ & _ & Hno). cbn [orb]. rewrite bool_decide_false by naive_solver. cbn [andb].
    assert (∀ j m, index j → edge value children j = Some m → j = 16) as Huniq.
    { intros j m Hj Hm. unfold edge in Hm. destruct (Z.eqb_spec j 16); [done|].
      destruct (children !! Z.to_nat j) as [[m'|]|] eqn:Ej; try done. by apply Hno in Ej. }
    destruct Hsome as [n0 Hn0]. pose proof (Huniq _ _ Hi0 Hn0) as ->. change (value = Some n0) in Hn0.
    destruct (Hv n0 Hn0) as (b & Hb & ->). subst value. eexists. split_and!; [done| |done|].
    + apply wf_leaf; [constructor|done|by left].
    + intros k v. by rewrite has_short_inv, (single_has _ _ _ _ 16 (ValueNode false (Some b))).
Qed.

Definition delete_post (n : Node) (k : bytes) (r : outcome (option Node * bool * option Node)) : Prop :=
  match r with
  | Ret (None, false, Some n') => (∀ v, ¬ has n k v) ∧ wf n' ∧ equiv n n'
  | Ret (None, true, _) => (∃ v, has n k v) ∧ ∀ k' v', has n k' v' → k' = k
  | Ret (Some n', true, _) =>
      (∃ v, has n k v) ∧ wf n' ∧ is_ref n' = false ∧ ∀ k' v', has n' k' v' ↔ k' ≠ k ∧ has n k' v'
  | _ => False
  end.

(** The key of a short node is not the beginning of the key. *)
Lemma prefixLen_all k key : prefixLen k key = length k → k `prefix_of` key.
Proof.
  destruct (prefixLen_split k key) as (p & a & b & -> & -> & Hab). rewrite prefixLen_app by done.
  rewrite length_app. intros E. destruct a; [|simpl in E; lia]. rewrite app_nil_r. by exists b.
Qed.

Lemma prefixLen_key k key : prefixLen k key = length key → key `prefix_of` k.
Proof.
  destruct (prefixLen_split k key) as (p & a & b & -> & -> & Hab). rewrite prefixLen_app by done.
  rewrite length_app. intros E. destruct b; [|simpl in E; lia]. rewrite app_nil_r. by exists a.
Qed.

Lemma prefixLen_le k key : (prefixLen k key ≤ length k)%nat ∧ (prefixLen k key ≤ length key)%nat.
Proof.
  destruct (prefixLen_split k key) as (p & a & b & -> & -> & Hab). rewrite prefixLen_app by done.
  rewrite !length_app. lia.
Qed.

Lemma take_prefixLen k key : take (prefixLen k key) k = take (prefixLen k key) key.
Proof.
  destruct (prefixLen_split k key) as (p & a & b & -> & -> & Hab). rewrite prefixLen_app by done.
  by rewrite !take_app_length.
Qed.

Lemma tkey_drop k n : tkey k → (n < length k)%nat → tkey (drop n k).
Proof.
  intros Hk. revert n. induction Hk as [|d k Hd Hk IH]; intros [|n] Hn; simpl in *; auto with go.
  - lia.
  - apply IH. lia.
Qed.

Lemma wf_unhash_short h key c : wf (ShortNode h key (Some c)) → wf (ShortNode [] key (Some c)).
Proof. inversion 1; subst; [apply wf_leaf|apply wf_ext]; try done; by left. Qed.

Lemma delete_leaf fuel h key b k :
  tkey key → b ≠ [] → tkey k → (2 ≤ fuel)%nat →
  delete_post (ShortNode h key (Some (ValueNode false (Some b)))) k
    (delete fuel st (Some (ShortNode h key (Some (ValueNode false (Some b))))) k).
Proof.
  intros Hkey Hb Hk Hf. destruct fuel as [|[|fuel]]; [lia..|]. cbn [delete].
  assert (k ≠ key → delete_post (ShortNode h key (Some (ValueNode false (Some b)))) k
    (Ret (None, false, Some (ShortNode [] key (Some (ValueNode false (Some b))))))) as Habs.
  { intros Hne. split_and!; [|apply wf_leaf; [done|done|by left]|by apply equiv_short].
    by intros v [-> _]%leaf_has. }
  destruct (prefixLen_le k key) as [Hle _].
  destruct (Nat.eqb_spec (prefixLen k key) (length k)) as [E|Hn].
  - apply prefixLen_all in E as [k' ->]. apply tkey_prefix_free in Hkey as ->; [|done]. rewrite app_nil_r.
    split; [exists b; by apply leaf_has|]. by intros k' v' [-> _]%leaf_has.
  - assert (k ≠ key) as Hne.
    { intros ->. apply Hn. rewrite <- (app_nil_r key) at 1. apply prefixLen_prefix. }
    destruct (Nat.eqb_spec (prefixLen k key) 0); [by apply Habs|].
    destruct (drop (prefixLen k key) k) as [|d k'] eqn:E.
    { apply (f_equal length) in E. rewrite length_drop in E. simpl in E. lia. }
    cbn. by apply Habs.
Qed.

(** What is left below the key of a short node. *)
Definition below (key : bytes) (n : Node) : Node :=
  match n with
  | ShortNode _ skey schild => ShortNode [] (key ++ skey) schild
  | n => ShortNode [] key (Some n)
  end.

Lemma below_wf key n : Forall nib key → key ≠ [] → wf n → is_ref n = false → wf (below key n).
Proof.
  intros Hkey Hne Hn Hr. pose proof Hn as Hn'. destruct Hn as [|h k b Hk Hb _|h k c Hkne Hk Hf Hc _|]; [done| | |]; simpl.
  - apply wf_leaf; [by apply tkey_app|done|by left].
  - apply wf_ext; try done; [by destruct key|by apply Forall_app|by left].
  - apply wf_ext; try done. by left.
Qed.

Lemma below_has key n k v : wf n → has (below key n) k v ↔ ∃ k', k = key ++ k' ∧ has n k' v.
Proof.
  intros Hn. destruct Hn; cbn [below]; try apply has_short_inv.
  - rewrite leaf_has. setoid_rewrite leaf_has. naive_solver.
  - rewrite has_short_inv. setoid_rewrite has_short_inv. setoid_rewrite <- app_assoc. naive_solver.
Qed.

Lemma delete_ext fuel h key c k :
  key ≠ [] → Forall nib key → is_full c → wf c → tkey k →
  (∀ k' v, has (ShortNode h key (Some c)) k' v → length k' ≤ length k)%nat →
  (∀ k', tkey k' → (∀ k2 v, has c k2 v → length k2 ≤ length k')%nat → (length k' < length k)%nat →
     delete_post c k' (delete fuel st (Some c) k')) →
  delete_post (ShortNode h key (Some c)) k (delete (S fuel) st (Some (ShortNode h key (Some c))) k).
Proof.
  intros Hne Hkey Hfull Hc Hk Hlen IH. cbn [delete].
  assert (∀ c', (∀ v, ¬ has (ShortNode h key (Some c)) k v) → wf c' → equiv c c' →
    delete_post (ShortNode h key (Some c)) k (Ret (None, false, Some (ShortNode [] key (Some c'))))) as Habs.
  { intros c' Hno Hc' Heq. split_and!; [done| |by apply equiv_short].
    apply wf_ext; try done; [by apply Heq|by left]. }
  destruct (prefixLen_le k key) as [Hle1 Hle2].
  destruct (Nat.eqb_spec (prefixLen k key) (length k)) as [E|Hn].
  { apply prefixLen_all in E as [k' ->]. apply Forall_app in Hkey as [Hkey _].
    rewrite <- (app_nil_r k) in Hk. apply tkey_app_inv in Hk; [by inversion Hk|done]. }
  destruct (Nat.eqb_spec (prefixLen k key) 0) as [E|Hp].
  { apply Habs; [|done|done]. intros v (k' & -> & _)%has_short_inv. rewrite prefixLen_prefix in E. by destruct key. }
  set (p := prefixLen k key) in *. assert (tkey (drop p k)) as Hk' by (apply tkey_drop; [done|lia]).
  assert (∀ k2 v, has c k2 v → length key + length k2 ≤ length k)%nat as Hlen'.
  { intros k2 v H2. specialize (Hlen (key ++ k2) v). rewrite length_app in Hlen. apply Hlen. by constructor. }
  specialize (IH (drop p k) Hk'). rewrite length_drop in IH.
  specialize (IH ltac:(intros k2 v H2; specialize (Hlen' k2 v H2); lia) ltac:(lia)).
  assert (p = length key → key ++ drop p k = k) as Hsplit.
  { intros E. rewrite <- (take_drop p k) at 2. f_equal. unfold p in *.
    by rewrite take_prefixLen, E, firstn_all. }
  assert (∀ v, has (ShortNode h key (Some c)) k v ↔ p = length key ∧ has c (drop p k) v) as Hiff.
  { intros v. rewrite has_short_inv. split.
    - intros (k' & -> & Hv). unfold p. rewrite prefixLen_prefix, drop_app_length. done.
    - intros [E Hv]. exists (drop p k). by rewrite Hsplit. }
  assert (∀ v, has c (drop p k) v → p = length key) as Hfit.
  { intros v Hv. specialize (Hlen' _ _ Hv). rewrite length_drop in Hlen'. lia. }
  destruct (delete fuel st (Some c) (drop p k)) as [[[[n'|] []] self]| |]; try done; cbn [obind negb].
  - destruct IH as ((v & Hv) & Hn' & Hr' & Hhas).
    assert (delete_post (ShortNode h key (Some c)) k (Ret (Some (below key n'), true, Some (ShortNode [] key self))))
      as Hpost.
    { split_and!; [exists v; by apply Hiff; eauto|by apply below_wf|by destruct n'|]. intros k2 v2.
      rewrite below_has, has_short_inv by done. setoid_rewrite Hhas.
      pose proof (Hsplit (Hfit v Hv)) as Ek. split.
      - intros (k3 & -> & Hne3 & H3). split; [|eauto]. intros E. rewrite <- Ek in E. by apply app_inv_head in E.
      - intros (Hne3 & k3 & -> & H3). exists k3. split_and!; [done| |done]. intros ->. by rewrite Ek in Hne3. }
    by destruct n' as [| |].
  - destruct IH as ((v & Hv) & Hall). split; [exists v; by apply Hiff; eauto|].
    intros k2 v2 (k3 & -> & H3)%has_short_inv. rewrite (Hall _ _ H3). eauto.
  - destruct self as [c'|]; [|done]. destruct IH as (Hno & Hc' & Heq). apply Habs; try done.
    intros v [_ Hv]%Hiff. by apply (Hno v).
Qed.

(** The full node once the deletion below the edge [i] has found the key. *)
Lemma delete_full_found h e value children i k newChild self :
  index i → length children = 16%nat →
  (∀ j n, nib j → edge value children j = Some n → wf n) →
  (∀ n, value = Some n → is_value n) →
  two value children → (i = 16 → newChild = None) →
  (∀ n', newChild = Some n' → wf n') → (∃ v, has (FullNode h e value children) (i :: k) v) →
  (∀ k' v', (∃ m, newChild = Some m ∧ has m k' v') ↔
     k' ≠ k ∧ ∃ n, edge value children i = Some n ∧ has n k' v') →
  delete_post (FullNode h e value children) (i :: k)
    (let~ nc := setEdge i newChild (FullNode [] 0 value children) in
     let~ r := collapse st nc in
     match r with Some nc => Ret (nc, true, self) | None => Ret (None, false, self) end).
Proof.
  intros Hi Hl Hc Hv Htwo H16 Hwf Hfound Hhas. rewrite setEdge_full by done. cbn [obind].
  destruct (collapse_wf (set_value i newChild value) (set_children i newChild children))
    as (n' & -> & Hn' & Hr' & Hsame).
  - by rewrite length_set_children.
  - intros j n Hj. rewrite edge_set by auto with go. case_decide; eauto.
  - intros n. unfold set_value. destruct (Z.eqb_spec i 16) as [E|]; [|auto]. by rewrite H16.
  - destruct Htwo as (a & b & Hab & Ha & Hb & Hea & Heb).
    destruct (decide (a = i)) as [->|]; [exists b|exists a]; rewrite edge_set, decide_False by congruence; done.
  - cbn [obind]. split_and!; try done. intros k' v'. rewrite Hsame, !has_full_inv. split.
    + intros (j & k2 & n & -> & Hj & Hm & Hk). rewrite edge_set in Hm by done. case_decide; [subst j|].
      * destruct (proj1 (Hhas k2 v') (ex_intro _ n (conj Hm Hk))) as (Hne & m & ? & ?).
        split; [congruence|eauto 7].
      * split; [congruence|eauto 7].
    + intros (Hne & j & k2 & n & -> & Hj & Hm & Hk). exists j, k2. rewrite edge_set by done.
      case_decide; [subst j|by exists n].
      destruct (proj2 (Hhas k2 v')) as (m & ? & ?); [split; [congruence|eauto]|]. by exists m.
Qed.

Lemma delete_full fuel h e value children k :
  length children = 16%nat →
  (∀ i n, nib i → edge value children i = Some n → wf n) →
  (∀ n, value = Some n → is_value n) →
  two value children → hok h (FullNode h e value children) → epoch_ok h e →
  (1 ≤ fuel)%nat → tkey k →
  (∀ k' v, has (FullNode h e value children) k' v → length k' ≤ length k)%nat →
  (∀ i n k', nib i → edge value children i = Some n → tkey k' →
     (∀ k2 v, has n k2 v → length k2 ≤ length k')%nat → (length k' < length k)%nat →
     delete_post n k' (delete fuel st (Some n) k')) →
  delete_post (FullNode h e value children) k (delete (S fuel) st (Some (FullNode h e value children)) k).
Proof.
  intros Hl Hc Hv Htwo Hh He Hf Hk Hlen IH. cbn [delete].
  destruct k as [|i k]; [by inversion Hk|].
  assert (index i) as Hi by (inversion Hk; subst; [done|auto with go]).
  rewrite getEdge_edge by done. cbn [obind]. pose proof (has_full_at h e value children i k) as Hat.
  destruct (edge value children i) as [n|] eqn:Ei.
  2:{ destruct fuel as [|fuel]; [lia|]. cbn [delete obind negb]. rewrite setEdge_full by done. cbn [obind].
      destruct (set_same i value children Hi Hl) as [Es1 Es2]. rewrite Ei in Es1, Es2. rewrite Es1, Es2.
      split_and!; [|by constructor|done]. intros v. rewrite Hat by done. by intros (? & ? & _). }
  destruct (decide (i = 16)) as [->|Hne].
  - assert (k = []) as -> by (inversion Hk; subst; [done|unfold nib in *; lia]).
    change (value = Some n) in Ei. destruct (Hv n Ei) as (b & Hb & ->). destruct fuel as [|fuel]; [lia|].
    cbn [delete]. rewrite bool_decide_true by done. cbn [negb obind]. rewrite setEdge_full by done. cbn [obind].
    apply delete_full_found; try done.
    + exists b. rewrite Hat by done. eexists. split; [done|constructor].
    + intros k' v'. change (edge value children 16) with value. rewrite Ei. split; [by intros (? & ? & _)|].
      by intros (Hne & ? & [= <-] & [? _]%has_value_inv).
  - assert (nib i ∧ tkey k) as [Hnib Hk'] by (inversion Hk; subst; done).
    specialize (IH i n k Hnib Ei Hk').
    assert (∀ k2 v, has n k2 v → length k2 ≤ length k)%nat as Hlen'.
    { intros k2 v H2. specialize (Hlen (i :: k2) v). simpl in Hlen. apply le_S_n, Hlen. by eapply has_full. }
    specialize (IH Hlen' ltac:(simpl; lia)).
    assert (∀ m, edge value children i = Some m → m = n) as Hm by (intros m; rewrite Ei; congruence).
    destruct (delete fuel st (Some n) k) as [[[[n'|] []] self]| |]; try done; cbn [obind negb];
      rewrite setEdge_full by done; cbn [obind].
    + destruct IH as ((v & Hv') & Hn' & Hr' & Hhas). apply delete_full_found; try done.
      * by intros ? [= <-].
      * exists v. rewrite Hat by done. eauto.
      * intros k' v'. rewrite Ei. split.
        -- intros (? & [= <-] & [? ?]%Hhas). eauto.
        -- intros (? & ? & [= <-] & ?). exists n'. by rewrite Hhas.
    + destruct IH as ((v & Hv') & Hall). apply delete_full_found; try done.
      * exists v. rewrite Hat by done. eauto.
      * intros k' v'. rewrite Ei. split; [by intros (? & ? & _)|].
        intros (Hne' & ? & [= <-] & Hk2). by apply Hall in Hk2.
    + destruct self as [n'|]; [|done]. destruct IH as (Hno & Hn' & Heq).
      pose proof (equiv_full h h e e value children i n n' Hi Hl Ei Heq) as Heq'. split_and!; [| |done].
      * intros v. rewrite Hat by done. intros (? & [= <-] & ?). by apply (Hno v).
      * apply wf_set; try done; [by apply two_set|by eapply hok_equiv].
Qed.

Lemma delete_wf n : wf n → ∀ k fuel, tkey k →
  (∀ k' v, has n k' v → length k' ≤ length k)%nat → (need n k ≤ fuel)%nat →
  delete_post n k (delete fuel st (Some n) k).
Proof.
  induction 1 as [r n Hr0 Hl Hr Henc Hn IH|h key b Hkey Hb Hh|h key c Hne Hkey Hfull Hc IH Hh|h e value children Hl Hc IH Hv Htwo Hh He];
    intros k fuel Hk Hlen Hf; unfold need in Hf; cbn [is_ref] in Hf;
    (assert (0 < length k)%nat as Hpos by (destruct Hk; simpl; lia));
    (destruct fuel as [|fuel]; [lia|]).
  - cbn [delete]. rewrite Hl. cbn [obind].
    assert (∀ k v, has (ValueNode true (Some r)) k v ↔ has n k v) as Href by (intros; by apply has_ref_inv).
    specialize (IH k fuel Hk). unfold need in IH. rewrite Hr in IH.
    specialize (IH ltac:(intros ? ? ?%Href; eauto) ltac:(lia)).
    destruct (delete fuel st (Some n) k) as [[[[n'|] []] [self|]]| |]; try done; cbn [obind delete_post] in *;
      setoid_rewrite Href; try done.
    destruct IH as (Hno & _ & _). split_and!; [done|by eapply wf_ref|done].
  - apply delete_leaf; try done; lia.
  - apply delete_ext; try done. intros k' Hk' Hlen' Hlt. apply IH; [done|done|].
    pose proof (need_le c k'). lia.
  - apply delete_full; try done; [lia|]. intros i n k' Hi Hn Hk' Hlen' Hlt. apply (IH i n Hi Hn); [done|done|].
    pose proof (need_le n k'). lia.
Qed.
End spec.
