(* ===== verification/TrieHash.v ===== *)
(** Hashing a trie and reading it back from storage.

    [hash] gives a node the value [enc] defines, whatever hashes were recorded
    before, and the nodes it puts in the batch are enough to read the trie back:
    decoding gives a node with the same keys and values. *)
From S2P Require Import Prelude Types Runtime Rlp Trie TrieSpec.

(** ** Compact keys *)

Lemma nibble_pair a b : nib a → nib b → Z.lor (Z.shiftl a 4 mod 256) b = 16 * a + b.
Proof.
  intros Ha Hb.
  assert (forallb (λ a, forallb (λ b, Z.lor (Z.shiftl a 4 mod 256) b =? 16 * a + b) (seqZ 0 16)) (seqZ 0 16) = true)
    as Hall by (vm_compute; reflexivity).
  rewrite forallb_forall in Hall.
  assert (∀ x, nib x → In x (seqZ 0 16)) as Hin by (intros x Hx; apply list_elem_of_In, elem_of_seqZ; unfold nib in *; lia).
  specialize (Hall a (Hin a Ha)). rewrite forallb_forall in Hall. apply Z.eqb_eq, (Hall b (Hin b Hb)).
Qed.

Lemma pack_nibbles l : Forall nib l → Nat.Even (length l) → nibbles_of (pack l) = l.
Proof.
  intros Hl [m Hm]. revert l Hl Hm. induction m as [|m IH]; intros l Hl Hm.
  - by destruct l.
  - destruct Hl as [|a l Ha Hl]; [simpl in Hm; lia|]. destruct Hl as [|b l Hb Hl]; [simpl in Hm; lia|].
    cbn [pack nibbles_of]. rewrite nibble_pair, IH by (done || simpl in Hm; lia). unfold nib in *.
    rewrite (Z.mul_comm 16), Z.div_add_l, (Z.div_small b), Z.add_0_r by lia.
    by rewrite Z.add_comm, Z.mod_add, Z.mod_small by lia.
Qed.

Lemma hasTerminator_tkey k : tkey k → hasTerminator k = true.
Proof. intros (l & -> & _)%tkey_split. unfold hasTerminator. by rewrite last_snoc. Qed.

Lemma hasTerminator_nib k : Forall nib k → hasTerminator k = false.
Proof.
  intros Hk. unfold hasTerminator. destruct (last k) as [d|] eqn:E; [|done].
  apply last_Some in E as [l ->]. apply Forall_app in Hk as [_ Hd]. inversion Hd; subst.
  apply Z.eqb_neq. unfold nib in *. lia.
Qed.

(** What [encodeCompact] packs. *)
Lemma decode_packed (t : bool) hex :
  Forall nib hex →
  let odd := Z.of_nat (length hex) mod 2 in
  let flag := 2 * (if t then 1 else 0) + odd in
  decodeCompact (pack (if odd =? 1 then flag :: hex else flag :: 0 :: hex)) =
  Ret (if t then hex ++ [16] else hex).
Proof.
  intros Hhex odd flag. pose proof (Z.mod_pos_bound (Z.of_nat (length hex)) 2 ltac:(lia)) as Hodd. fold odd in Hodd.
  assert (nib flag ∧ nib 0) as [Hf H0] by (unfold nib, flag; destruct t; lia).
  set (full := if odd =? 1 then _ else _).
  assert (Forall nib full) as Hfull by (unfold full; case_match; by repeat apply Forall_cons_2).
  assert (Nat.Even (length full)) as Heven.
  { exists (Z.to_nat (Z.of_nat (length hex) / 2 + 1)).
    pose proof (Z.div_mod (Z.of_nat (length hex)) 2 ltac:(lia)) as Hdm. fold odd in Hdm.
    unfold full. destruct (Z.eqb_spec odd 1); cbn [length]; lia. }
  unfold decodeCompact, bytesToHexNibbles. rewrite pack_nibbles by done.
  assert (∃ rest, full = flag :: rest ∧ rest = (if odd =? 1 then [] else [0]) ++ hex) as (rest & -> & ->)
    by (unfold full; destruct (odd =? 1); eauto).
  cbn [app head default from_option id].
  assert (Z.land flag 1 = odd) as ->.
  { change 1 with (Z.ones 1) at 1. rewrite Z.land_ones by lia. unfold flag. change (2 ^ 1) with 2.
    replace (2 * (if t then 1 else 0) + odd) with (odd + (if t then 1 else 0) * 2) by lia.
    rewrite Z.mod_add by lia. by apply Z.mod_small. }
  destruct t.
  - assert (flag <? 2 = false) as -> by (apply Z.ltb_ge; unfold flag; lia).
    destruct (Z.eqb_spec odd 1); cbn [app drop length]; [done|]. by rewrite drop_0.
  - assert (flag <? 2 = true) as -> by (apply Z.ltb_lt; unfold flag; lia).
    match goal with |- context [take ?n ?l] => replace (take n l) with (flag :: (if odd =? 1 then [] else [0]) ++ hex) end.
    2:{ symmetry. apply (take_app_length' (flag :: (if odd =? 1 then [] else [0]) ++ hex) [16]).
        cbn [length]. rewrite !length_app. simpl. lia. }
    destruct (Z.eqb_spec odd 1); cbn [app drop length]; [done|]. by rewrite drop_0.
Qed.

Lemma decode_encode key : tkey key ∨ Forall nib key → decodeCompact (encodeCompact key) = Ret key.
Proof.
  intros [Hk|Hk]; unfold encodeCompact.
  - rewrite hasTerminator_tkey by done. apply tkey_split in Hk as (l & -> & Hl).
    rewrite take_app_length' by (rewrite length_app; simpl; lia). apply (decode_packed true l Hl).
  - rewrite hasTerminator_nib by done. apply (decode_packed false key Hk).
Qed.

Section hash.
Context `{External} `{RlpReader} `{!RlpLaws}.

(** ** More nodes in storage *)

Lemma load_mono st st' buf n : st ⊆ st' → load buf st = Ret (Some n) → load buf st' = Ret (Some n).
Proof.
  intros Hst. unfold load, GetNode. destruct (st !! default [] buf) as [d|] eqn:E; [|done].
  by rewrite (lookup_weaken _ _ _ _ E Hst).
Qed.

(** A well-formed node is one, with the same keys, when the storage grows. *)
Lemma wf_mono st st' HP HP' ep ep' n :
  st ⊆ st' → (∀ h e, epoch_ok ep h e → epoch_ok ep' h e) →
  (∀ h m, (∀ k v, has st m k v ↔ has st' m k v) → (is_full st m ↔ is_full st' m) → HP h m → HP' h m) →
  wf st HP ep n →
  wf st' HP' ep' n ∧ (∀ k v, has st n k v ↔ has st' n k v) ∧ (is_full st n ↔ is_full st' n).
Proof.
  intros Hst Hep HHP.
  assert (∀ h m, (∀ k v, has st m k v ↔ has st' m k v) → (is_full st m ↔ is_full st' m) →
    hok HP h m → hok HP' h m) as Hhok by (intros h m ? ? [->|?]; [by left|right; eauto]).
  induction 1 as [r n Hr0 Hl Hr Henc Hn (IH & IHk & IHf)|h key b Hkey Hb Hh|h key c Hne Hkey Hfull Hc (IH & IHk & IHf) Hh
    |h e value children Hl Hc IH Hv Htwo Hh He].
  - pose proof (load_mono st st' (Some r) n Hst Hl) as Hl'. split; [|split].
    + by eapply wf_ref.
    + intros k v. by rewrite (has_ref_inv _ _ _ _ _ Hl), (has_ref_inv _ _ _ _ _ Hl').
    + simpl. by rewrite Hl, Hl'.
  - assert (∀ k v, has st (ShortNode h key (Some (ValueNode false (Some b)))) k v ↔
                   has st' (ShortNode h key (Some (ValueNode false (Some b)))) k v) as Hk
      by (intros; by rewrite !leaf_has).
    split; [|done]. apply wf_leaf; auto; by apply Hhok.
  - assert (∀ k v, has st (ShortNode h key (Some c)) k v ↔ has st' (ShortNode h key (Some c)) k v) as Hk
      by (intros; rewrite !has_short_inv; by setoid_rewrite IHk).
    split; [|done]. apply wf_ext; try done; [by apply IHf|by apply Hhok].
  - assert (∀ k v, has st (FullNode h e value children) k v ↔ has st' (FullNode h e value children) k v) as Hk.
    { intros k v. rewrite !has_full_inv.
      split; intros (i & k' & n & -> & Hi & Hn & Hk); exists i, k', n; split_and!; try done.
      all: destruct (decide (i = 16)) as [->|];
        [destruct (Hv n Hn) as (b & _ & ->); by rewrite has_value_inv in *|].
      all: destruct (IH i n) as (_ & IHk & _); [unfold nib, index in *; lia|done|]; by apply IHk. }
    split; [|done]. constructor; try done; [|by apply Hhok|by apply Hep].
    intros i n Hi Hn. by destruct (IH i n Hi Hn).
Qed.

(** The nodes read from storage have no recorded hash. *)
Definition plain (st : Storage) (n : Node) : Prop := wf st (λ _ _, False) 0 n.

Lemma plain_mono st st' n :
  st ⊆ st' → plain st n →
  plain st' n ∧ (∀ k v, has st n k v ↔ has st' n k v) ∧ (is_full st n ↔ is_full st' n).
Proof. intros Hst. by apply wf_mono. Qed.

Lemma plain_wf st HP ep n : 0 ≤ ep → plain st n → wf st HP ep n.
Proof.
  intros Hep Hn. eapply (wf_mono st st (λ _ _, False) HP 0 ep) in Hn; [by destruct Hn|done| |done].
  intros h e [He Hh]. split; [lia|]. intros ->. apply Hh. lia.
Qed.

(** ** Decoding *)

(** The loop of [decodeNode] over the elements of a full node. *)
Fixpoint decode_elems (l : list item) (acc : list (option Node)) : outcome (result trieErr Node) :=
  match l with
  | [] => Panic
  | [value] =>
      match value with
      | IArray _ => Ret (Err errFullValue)
      | IBytes [] => Ret (Ok (FullNode [] 0 None acc))
      | IBytes raw => Ret (Ok (FullNode [] 0 (Some (ValueNode false (appended raw))) acc))
      end
  | c :: l =>
      match c with
      | IBytes [] => decode_elems l (acc ++ [None])
      | _ => rbind (decodeNode c) (λ c, decode_elems l (acc ++ [Some c]))
      end
  end.

Lemma decodeNode_full l : length l = 17%nat → decodeNode (IArray l) = decode_elems l [].
Proof. destruct l as [|a [|b [|c l]]]; [done..|]. intros Hl. cbn [decodeNode]. by rewrite Hl. Qed.

Lemma decode_elems_nil l acc : l ≠ [] → decode_elems (IBytes [] :: l) acc = decode_elems l (acc ++ [None]).
Proof. by destruct l. Qed.

Lemma decode_elems_cons c l acc :
  c ≠ IBytes [] → l ≠ [] →
  decode_elems (c :: l) acc = rbind (decodeNode c) (λ c, decode_elems l (acc ++ [Some c])).
Proof. intros Hc Hl. destruct l; [done|]. by destruct c as [[]|]. Qed.

(** [n2] is what decoding the value of [n] gives in the storage [st']. *)
Record decoded (st st' : Storage) (n n2 : Node) : Prop := {
  de_plain : plain st' n2;
  de_has k v : has st n k v ↔ has st' n2 k v;
  de_full : is_full st n ↔ is_full st' n2;
  de_enc : enc n2 = enc n;
}.

Definition decoded_opt (st st' : Storage) (o o2 : option Node) : Prop :=
  match o, o2 with
  | None, None => True
  | Some n, Some n2 =>
      decodeNode (item_of (enc n)) = Ret (Ok n2) ∧ item_of (enc n) ≠ IBytes [] ∧ decoded st st' n n2
  | _, _ => False
  end.

Lemma decode_children st st' ch ch2 iv acc :
  Forall2 (decoded_opt st st') ch ch2 →
  decode_elems ((item_of <$> (enc_opt <$> ch)) ++ [iv]) acc = decode_elems [iv] (acc ++ ch2).
Proof.
  intros Hch. revert acc. induction Hch as [|o o2 ch ch2 Ho _ IH]; intros acc; [by rewrite app_nil_r|].
  rewrite !fmap_cons. cbn [app]. set (l := (item_of <$> (enc_opt <$> ch)) ++ [iv]) in *.
  assert (l ≠ []) as Hl by (unfold l; by destruct ch).
  destruct o as [n|], o2 as [n2|]; try done; cbn [enc_opt].
  - destruct Ho as (Hd & Hne & _). rewrite decode_elems_cons by done. rewrite Hd. cbn.
    rewrite IH, <- app_assoc. done.
  - cbn [item_of]. rewrite decode_elems_nil by done. rewrite IH, <- app_assoc. done.
Qed.

Lemma decoded_edges st st' value ch ch2 i :
  Forall2 (decoded_opt st st') ch ch2 → nib i →
  decoded_opt st st' (edge value ch i) (edge value ch2 i).
Proof.
  intros Hch Hi. unfold edge. unfold nib in Hi. rewrite (proj2 (Z.eqb_neq i 16)) by lia.
  destruct (ch !! Z.to_nat i) as [o|] eqn:E.
  - destruct (Forall2_lookup_l _ _ _ _ _ Hch E) as (o2 & -> & Ho). simpl. by destruct o, o2.
  - apply lookup_ge_None in E. rewrite (Forall2_length _ _ _ Hch) in E. by rewrite (proj2 (lookup_ge_None _ _) E).
Qed.

(** A full node from decoded children. *)
Lemma decode_full st st' HP ep h e value ch ch2 :
  wf st HP ep (FullNode h e value ch) → Forall2 (decoded_opt st st') ch ch2 →
  decodeNode (item_of (raw (FullNode h e value ch))) = Ret (Ok (FullNode [] 0 value ch2)) ∧
  decoded st st' (FullNode h e value ch) (FullNode [] 0 value ch2) ∧
  raw (FullNode [] 0 value ch2) = raw (FullNode h e value ch).
Proof.
  intros Hn Hch. inversion Hn as [| | |? ? ? ? Hl Hc Hv Htwo Hh He]; subst.
  assert (∀ i, index i → edge value ch i = None ∧ edge value ch2 i = None ∨
    ∃ n n2, edge value ch i = Some n ∧ edge value ch2 i = Some n2 ∧ (nib i → plain st' n2) ∧
            ∀ k v, has st n k v ↔ has st' n2 k v) as Hedge.
  { intros i Hi. destruct (decide (i = 16)) as [->|].
    - change (edge value ch2 16) with value. change (edge value ch 16) with value.
      destruct value as [n|]; [right|by left]. exists n, n. split_and!; try done; [unfold nib; lia|].
      destruct (Hv n eq_refl) as (b & _ & ->). intros. by rewrite !has_value_inv.
    - assert (nib i) as Hnib by (unfold nib, index in *; lia). pose proof (decoded_edges _ _ value _ _ i Hch Hnib) as Ho.
      destruct (edge value ch i), (edge value ch2 i); try done; [right|by left].
      destruct Ho as (_ & _ & []). eauto 8. }
  assert (enc_opt <$> ch2 = enc_opt <$> ch) as Hraw.
  { clear - Hch. induction Hch as [|o o2 ch ch2 Ho _ IH]; [done|]. rewrite !fmap_cons, IH. f_equal.
    destruct o, o2; try done. by destruct Ho as (_ & _ & []). }
  split_and!.
  - cbn [raw item_of]. rewrite decodeNode_full, fmap_app.
    2:{ rewrite length_fmap, length_app, length_fmap, Hl. done. }
    cbn [fmap list_fmap]. rewrite (decode_children st st' ch ch2) by done.
    destruct value as [n|]; [|done]. destruct (Hv n eq_refl) as (b & Hb & ->). by destruct b.
  - split.
    + constructor; try done.
      * by rewrite <- (Forall2_length _ _ _ Hch).
      * intros i n Hi Hn2. destruct (Hedge i) as [[_ ?]|(? & ? & _ & ? & Hp & _)]; [auto with go|congruence|].
        simplify_eq. by apply Hp.
      * destruct Htwo as (i & j & Hij & Hi & Hj & [a Ha] & [b Hb]). exists i, j.
        destruct (Hedge i Hi) as [[? _]|(? & ? & _ & -> & _)]; [congruence|].
        destruct (Hedge j Hj) as [[? _]|(? & ? & _ & -> & _)]; [congruence|]. eauto 7.
      * by left.
    + intros k v. rewrite !has_full_inv.
      split; intros (i & k' & n & -> & Hi & Hn' & Hk);
        (destruct (Hedge i Hi) as [[? ?]|(n1 & n2 & E1 & E2 & _ & Hiff)]; [congruence|]); simplify_eq;
        exists i, k'; eexists; split_and!; try done; by apply Hiff.
    + done.
    + cbn [enc]. by apply (f_equal (λ l, seal (NewArray (l ++ [enc_opt value])))).
  - cbn [raw]. by rewrite Hraw.
Qed.

(** ** Recorded hashes *)

(** What the batch holds is in the storage [st']. *)
Definition written (puts : list (bytes * bytes)) (st' : Storage) : Prop :=
  ∀ h d, (h, d) ∈ puts → st' !! h = Some d.

Lemma written_sub p q st : p ⊆ q → written q st → written p st.
Proof. intros Hsub Hw h d Hin. by apply Hw, Hsub. Qed.

(** The hash recorded in a node: once the batch [Q] is written, the node is in
    the storage under it. *)
Definition HPs (Q : list (bytes * bytes)) (st : Storage) (h : bytes) (n : Node) : Prop :=
  enc n = NewBytes h ∧ h ≠ [] ∧
  ∀ st', st ⊆ st' → written Q st' →
    ∃ n2, load (Some h) st' = Ret (Some n2) ∧ is_ref n2 = false ∧ decoded st st' n n2.

Lemma HPs_equiv Q st h n n' : equiv st n n' → HPs Q st h n → HPs Q st h n'.
Proof.
  intros (Hk & Hf & He) (Hh & Hne & Hst). split; [congruence|]. split; [done|]. intros st' Hsub Hw.
  destruct (Hst st' Hsub Hw) as (n2 & Hl & Hr & [Hp Hdk Hdf Hde]). exists n2. split; [done|]. split; [done|].
  split; [done|intros; by rewrite <- Hk|by rewrite <- Hf|congruence].
Qed.

(** The storage grows: what was in the batch is in the storage. *)
Lemma HPs_mono Q Q' st st' h n :
  st ⊆ st' → (∀ st2, st' ⊆ st2 → written Q' st2 → written Q st2) →
  (∀ k v, has st n k v ↔ has st' n k v) → (is_full st n ↔ is_full st' n) →
  HPs Q st h n → HPs Q' st' h n.
Proof.
  intros Hst HQ Hk Hf (Hh & Hne & Hld). split; [done|]. split; [done|]. intros st2 Hsub Hw.
  destruct (Hld st2 ltac:(by etrans) (HQ st2 Hsub Hw)) as (n2 & Hl & Hr & [Hp Hdk Hdf Hde]). exists n2. split; [done|]. split; [done|].
  split; [done|intros; by rewrite <- Hk|by rewrite <- Hf|done].
Qed.

(** The storage only grows, and the next epoch is later. *)
Lemma wf_next Q Q' st st' ep ep' n :
  st ⊆ st' → (∀ st2, st' ⊆ st2 → written Q' st2 → written Q st2) → ep ≤ ep' →
  wf st (HPs Q st) ep n →
  wf st' (HPs Q' st') ep' n ∧ (∀ k v, has st n k v ↔ has st' n k v) ∧ (is_full st n ↔ is_full st' n).
Proof.
  intros Hsub HQ Hep. apply wf_mono; [done| |].
  - intros h' e [? He]. split; [lia|]. intros ->. apply He. lia.
  - intros. by eapply HPs_mono.
Qed.

Definition set_hash (h : bytes) (n : Node) : Node :=
  match n with
  | ValueNode _ _ => n
  | ShortNode _ key c => ShortNode h key c
  | FullNode _ e value children => FullNode h e value children
  end.

Lemma set_hash_has st h n k v : has st (set_hash h n) k v ↔ has st n k v.
Proof. destruct n as [|? ? []|]; [done| | |]; simpl; rewrite ?has_short_inv, ?has_full_inv; try done. split; inversion 1. Qed.

Lemma set_hash_full st h n : is_full st (set_hash h n) ↔ is_full st n.
Proof. by destruct n. Qed.

Lemma set_hash_enc h n : enc (set_hash h n) = enc n.
Proof. by destruct n. Qed.

(** ** Hashing *)

(** The end of [hash]: a short value stays in its parent. *)
Definition finish (val : rlp) (node : Node) (puts : list (bytes * bytes))
    : outcome (rlp * Node * list (bytes * bytes)) :=
  if rlp_Len val <? 32 then Ret (val, node, puts)
  else
    let buf := MarshalTo val in
    let tmp := HashBytes (Keccak256 buf) in
    let~ node := SetHash tmp node in
    Ret (NewBytes tmp, node, puts ++ [(tmp, buf)]).

Definition puts_ok (puts : list (bytes * bytes)) : Prop :=
  Forall (λ p, p.1 = HashBytes (Keccak256 p.2)) puts.

Definition hash_post (P : list (bytes * bytes)) (st : Storage) (ep : Z) (n : Node)
    (r : outcome (rlp * Node * list (bytes * bytes))) : Prop :=
  match r with
  | Ret (v, n', puts) =>
      v = enc n ∧ enc n' = enc n ∧ is_ref n' = is_ref n ∧ puts_ok puts ∧
      (∀ k v, has st n k v ↔ has st n' k v) ∧ (is_full st n ↔ is_full st n') ∧
      ∀ Q, P ⊆ Q → puts ⊆ Q →
        wf st (HPs Q st) (ep + 1) n' ∧
        ∀ st', st ⊆ st' → written Q st' →
          ∃ n2, decodeNode (item_of (enc n)) = Ret (Ok n2) ∧ item_of (enc n) ≠ IBytes [] ∧ decoded st st' n n2
  | _ => False
  end.

Lemma HashBytes_ne h : HashBytes h ≠ [].
Proof. intros E. apply (f_equal length) in E. unfold HashBytes in E. by rewrite length_be_bytes in E. Qed.

Lemma decode_ref h : h ≠ [] → decodeNode (IBytes h) = Ret (Ok (ValueNode true (Some h))).
Proof. by destruct h. Qed.

(** The node of a value in storage. *)
Lemma load_raw st n n2 h :
  (∃ l, raw n = NewArray l) → decodeNode (item_of (raw n)) = Ret (Ok n2) →
  st !! h = Some (MarshalTo (raw n)) → load (Some h) st = Ret (Some n2).
Proof.
  intros [l El] Hd Hst. unfold load, GetNode. simpl. rewrite Hst, Parse_MarshalTo. rewrite El in *.
  cbn [item_of] in *. by rewrite Hd.
Qed.

(** A node that decodes in storage [st'] is what a reference to it gives. *)
Lemma decoded_ref st st' n n2 h :
  h ≠ [] → load (Some h) st' = Ret (Some n2) → is_ref n2 = false → decoded st st' n n2 → enc n = NewBytes h →
  decoded st st' n (ValueNode true (Some h)).
Proof.
  intros Hne Hl Hr [Hp Hk Hf He] Hh. split.
  - eapply wf_ref; try done. congruence.
  - intros k v. by rewrite (has_ref_inv _ _ _ _ _ Hl).
  - rewrite Hf. simpl. rewrite Hl. destruct n2 as [[]| |h2 e2 v2 c2]; simpl; try done;
      (split; [|by intros (? & ? & ? & ? & ?)]); [done..|]. intros _. by exists h2, e2, v2, c2.
  - by rewrite Hh.
Qed.

Definition is_node (n : Node) : bool := match n with ValueNode _ _ => false | _ => true end.

Lemma finish_post P st ep n n1 puts :
  is_node n = true → is_node n1 = true → set_hash [] n1 = n1 → raw n1 = raw n → puts_ok puts →
  (∀ k v, has st n k v ↔ has st n1 k v) → (is_full st n ↔ is_full st n1) →
  (∀ Q, P ⊆ Q → puts ⊆ Q →
     (∀ h, hok (HPs Q st) h (set_hash h n1) → wf st (HPs Q st) (ep + 1) (set_hash h n1)) ∧
     ∀ st', st ⊆ st' → written Q st' →
       ∃ n2, decodeNode (item_of (raw n)) = Ret (Ok n2) ∧ is_ref n2 = false ∧ decoded st st' n n2) →
  hash_post P st ep n (finish (raw n) n1 puts).
Proof.
  intros Hn Hn1 Hh1 Hraw Hputs Hk Hf HQ.
  assert (enc n = seal (raw n)) as He by (by destruct n).
  assert (enc n1 = seal (raw n)) as He1 by (rewrite <- Hraw; by destruct n1).
  assert (∃ l, raw n = NewArray l) as Harr by (destruct n; [done|by eexists..]).
  assert (is_ref n1 = is_ref n) as Href by (by destruct n, n1).
  unfold finish, seal in *. destruct (rlp_Len (raw n) <? 32).
  - do 6 (split; [done || congruence|]). intros Q HPQ Hsub. destruct (HQ Q HPQ Hsub) as [Hwf Hdec].
    split; [rewrite <- Hh1; apply Hwf; by left|]. intros st' Hst Hw. destruct (Hdec st' Hst Hw) as (n2 & Hd & _ & Hn2).
    exists n2. rewrite He. split; [done|]. split; [by destruct Harr as [l ->]|done].
  - set (tmp := HashBytes _) in *.
    assert (SetHash tmp n1 = Ret (set_hash tmp n1)) as -> by (by destruct n1). cbn [obind].
    split; [done|]. split; [by rewrite set_hash_enc, He1|]. split; [by destruct n, n1|].
    split; [apply Forall_app; split; [done|by apply Forall_singleton]|].
    split; [intros; by rewrite set_hash_has|]. split; [by rewrite set_hash_full|].
    intros Q HPQ Hsub. destruct (HQ Q HPQ) as [Hwf Hdec]; [intros ? ?; apply Hsub; by apply elem_of_app; left|].
    assert (∀ st', st ⊆ st' → written Q st' →
      ∃ n2, load (Some tmp) st' = Ret (Some n2) ∧ is_ref n2 = false ∧ decoded st st' n n2) as Hload.
    { intros st' Hst Hw. destruct (Hdec st' Hst Hw) as (n2 & Hd & Hr & Hn2). exists n2. split; [|done].
      apply (load_raw st' n n2 tmp Harr Hd), Hw, Hsub, elem_of_app. right. by apply list_elem_of_singleton. }
    pose proof (HashBytes_ne (Keccak256 (MarshalTo (raw n)))) as Hne. fold tmp in Hne. split.
    + apply Hwf. right. split; [by rewrite set_hash_enc|]. split; [done|]. intros st' Hst Hw.
      destruct (Hload st' Hst Hw) as (n2 & Hl & Hr & [Hp Hdk Hdf Hde]). exists n2. split; [done|]. split; [done|].
      split; [done|intros; by rewrite set_hash_has, <- Hk|by rewrite set_hash_full, <- Hf|].
      by rewrite set_hash_enc, He1, Hde, He.
    + intros st' Hst Hw. destruct (Hload st' Hst Hw) as (n2 & Hl & Hr & Hn2).
      exists (ValueNode true (Some tmp)). rewrite He. split; [by apply decode_ref|].
      split; [intros [= E]; by apply Hne|]. by apply (decoded_ref st st' n n2).
Qed.

(** The loop of [hash] over the children of a full node. *)
Fixpoint hashes (l : list (option Node)) : outcome (list rlp * list (option Node) * list (bytes * bytes)) :=
  match l with
  | [] => Ret ([], [], [])
  | None :: l => let~ (vs, l, puts) := hashes l in Ret (NewNull :: vs, None :: l, puts)
  | Some n :: l =>
      let~ (v, n, puts) := hash n in
      let~ (vs, l, puts') := hashes l in Ret (v :: vs, Some n :: l, puts ++ puts')
  end.

Lemma hash_full h e value children :
  hash (FullNode h e value children) =
  if negb (bool_decide (h = [])) then Ret (NewBytes h, FullNode h e value children, [])
  else
    let~ (vs, children, puts) := hashes children in
    let~ (v, value, puts') :=
      match value with
      | None => Ret (NewNull, None, [])
      | Some n => let~ (v, n, puts) := hash n in Ret (v, Some n, puts)
      end in
    finish (NewArray (vs ++ [v])) (FullNode h e value children) (puts ++ puts').
Proof. reflexivity. Qed.

Lemma hash_short h key c :
  hash (ShortNode h key (Some c)) =
  if negb (bool_decide (h = [])) then Ret (NewBytes h, ShortNode h key (Some c), [])
  else
    let~ (cv, c, puts) := hash c in
    finish (NewArray [NewBytes (encodeCompact key); cv]) (ShortNode h key (Some c)) puts.
Proof. reflexivity. Qed.

(** A node whose hash is recorded. *)
Lemma hash_recorded P st ep n h :
  wf st (HPs P st) ep n → is_ref n = false → HPs P st h n →
  hash_post P st ep n (Ret (NewBytes h, n, [])).
Proof.
  intros Hn Hr (He & Hne & Hld). do 3 (split; [done|]). split; [constructor|]. do 2 (split; [done|]).
  intros Q HPQ _. split.
  - apply (wf_next P Q st st ep (ep + 1)); [done| |lia|done]. intros st2 _. by apply written_sub.
  - intros st' Hsub Hw. destruct (Hld st' Hsub ltac:(by eapply written_sub)) as (n2 & Hl & Hr2 & Hn2).
    exists (ValueNode true (Some h)). rewrite He. split; [by apply decode_ref|].
    split; [intros [= E]; by apply Hne|]. by apply (decoded_ref st st' n n2).
Qed.

(** ** Nodes read from storage record no hash *)

Section item_ind.
Variable P : item → Prop.
Hypothesis P_bytes : ∀ b, P (IBytes b).
Hypothesis P_array : ∀ l, Forall P l → P (IArray l).

Fixpoint item_nested_ind (v : item) : P v :=
  match v with
  | IBytes b => P_bytes b
  | IArray l =>
      P_array l ((fix go (l : list item) : Forall P l :=
                    match l with
                    | [] => Forall_nil_2 P
                    | v :: l => Forall_cons_2 P v l (item_nested_ind v) (go l)
                    end) l)
  end.
End item_ind.

Inductive unhashed : Node → Prop :=
| unhashed_value r b : unhashed (ValueNode r b)
| unhashed_short key c : (∀ n, c = Some n → unhashed n) → unhashed (ShortNode [] key c)
| unhashed_full value children :
    (∀ n, value = Some n → unhashed n) → (∀ n, Some n ∈ children → unhashed n) →
    unhashed (FullNode [] 0 value children).

Lemma rbind_Ok {E A B} (m : outcome (result E A)) (k : A → outcome (result E B)) b :
  rbind m k = Ret (Ok b) → ∃ a, m = Ret (Ok a) ∧ k a = Ret (Ok b).
Proof. destruct m as [[a|]| |]; simpl; try done. eauto. Qed.

Lemma decode_elems_unhashed l acc n :
  Forall (λ v, ∀ n, decodeNode v = Ret (Ok n) → unhashed n) l →
  (∀ n, Some n ∈ acc → unhashed n) → decode_elems l acc = Ret (Ok n) → unhashed n.
Proof.
  intros Hl. revert acc. induction Hl as [|v l Hv Hl IH]; intros acc Hacc; [done|]. cbn [decode_elems].
  assert (∀ c, unhashed c → ∀ n, Some n ∈ acc ++ [Some c] → unhashed n) as Hsnoc.
  { intros c Hc m [?|E%list_elem_of_singleton]%elem_of_app; [eauto|]. by simplify_eq. }
  destruct l as [|v' l].
  - destruct v as [b|]; [|done]. destruct b; intros [= <-]; constructor; try done.
    intros ? [= <-]. constructor.
  - assert (rbind (decodeNode v) (λ c, decode_elems (v' :: l) (acc ++ [Some c])) = Ret (Ok n) → unhashed n) as Hrec.
    { intros (c & Hc & Hk)%rbind_Ok. eapply IH; [|exact Hk]. eauto. }
    destruct v as [[|]|]; [|exact Hrec..]. apply IH.
    intros m [?|E%list_elem_of_singleton]%elem_of_app; [eauto|done].
Qed.

Lemma decodeNode_unhashed v n : decodeNode v = Ret (Ok n) → unhashed n.
Proof.
  revert n. induction v as [b|l IH] using item_nested_ind; intros n.
  { cbn. intros [= <-]. constructor. }
  destruct (decide (length l = 17%nat)) as [Hl|Hl].
  { rewrite decodeNode_full by done. apply decode_elems_unhashed; [done|]. by intros ? ?%elem_of_nil. }
  destruct l as [|key [|c [|x l]]]; [done|done| |].
  - cbn [decodeNode]. inversion IH as [|? ? _ IH1]; subst. inversion IH1 as [|? ? IHc _]; subst.
    destruct key as [raw|]; [|done]. destruct (decodeCompact raw) as [k| |]; cbn [obind]; [|done..].
    destruct (hasTerminator k).
    + destruct c; [|done]. intros [= <-]. constructor. intros ? [= <-]. constructor.
    + intros (c' & Hc & [= <-])%rbind_Ok. constructor. intros ? [= <-]. by apply IHc.
  - cbn [decodeNode]. rewrite (proj2 (Nat.eqb_neq _ _) Hl). done.
Qed.

Lemma load_unhashed buf st n : load buf st = Ret (Some n) → unhashed n.
Proof.
  unfold load, GetNode. destruct (st !! _) as [d|]; [|done]. destruct (Parse d) as [[|l]|]; [done| |done].
  cbn [obind]. intros Hl. destruct (rbind _ _) as [[r|]| |] eqn:E; cbn [obind] in Hl; try done. simplify_eq.
  apply rbind_Ok in E as (m & Hm & [= <-]). by eapply decodeNode_unhashed.
Qed.

Lemma unhashed_plain st HP ep n : wf st HP ep n → unhashed n → plain st n.
Proof.
  induction 1 as [r n Hr0 Hl Hr Henc Hn IH|h key b Hkey Hb Hh|h key c Hne Hkey Hfull Hc IH Hh
    |h e value children Hl Hc IH Hv Htwo Hh He]; intros Hu.
  - eapply wf_ref; try done. apply IH. by eapply load_unhashed.
  - inversion Hu; subst. apply wf_leaf; [done|done|by left].
  - inversion Hu; subst. apply wf_ext; try done; [|by left]. apply IH. eauto.
  - inversion Hu as [| |? ? _ Hch]; subst. constructor; try done; [|by left].
    intros i n Hi Hn. apply (IH i n Hi Hn), Hch. unfold edge in Hn. unfold nib in Hi.
    rewrite (proj2 (Z.eqb_neq i 16)) in Hn by lia.
    destruct (children !! Z.to_nat i) as [o|] eqn:E; [|done]. apply list_elem_of_lookup_2 in E. by destruct o; simplify_eq/=.
Qed.

(** ** [hash] on every node *)

(** A child of a full node before and after [hash]. *)
Definition rehashed (Q : list (bytes * bytes)) (st : Storage) (ep : Z) (o o' : option Node) : Prop :=
  match o, o' with
  | None, None => True
  | Some n, Some n' =>
      wf st (HPs Q st) (ep + 1) n' ∧ ∀ k v, has st n k v ↔ has st n' k v
  | _, _ => False
  end.

Lemma hashes_post P st ep l :
  (∀ n, Some n ∈ l → hash_post P st ep n (hash n)) →
  match hashes l with
  | Ret (vs, l', puts) =>
      vs = enc_opt <$> l ∧ enc_opt <$> l' = enc_opt <$> l ∧ puts_ok puts ∧
      ∀ Q, P ⊆ Q → puts ⊆ Q →
        Forall2 (rehashed Q st ep) l l' ∧
        ∀ st', st ⊆ st' → written Q st' → ∃ l2, Forall2 (decoded_opt st st') l l2
  | _ => False
  end.
Proof.
  induction l as [|o l IH]; intros Hl; cbn [hashes].
  { split; [done|]. split; [done|]. split; [constructor|]. intros. split; [constructor|by exists []]. }
  specialize (IH ltac:(intros; apply Hl; by apply list_elem_of_further)).
  destruct o as [n|].
  - specialize (Hl n (list_elem_of_here _ _)). destruct (hash n) as [[[v n'] puts]| |]; [|done..]. cbn [obind].
    destruct (hashes l) as [[[vs l'] puts']| |]; [|done..]. cbn [obind].
    destruct Hl as (-> & He & _ & Hp & Hk & _ & HQ). destruct IH as (-> & He' & Hp' & HQ').
    split; [done|]. split; [rewrite !fmap_cons, He'; simpl; by rewrite He|]. split; [by apply Forall_app|].
    intros Q HPQ Hsub. destruct (HQ Q HPQ) as [Hwf Hst]; [intros ? ?; apply Hsub; by apply elem_of_app; left|].
    destruct (HQ' Q HPQ) as [Hre Hst']; [intros ? ?; apply Hsub; by apply elem_of_app; right|].
    split; [by constructor|]. intros st' Hst1 Hw.
    destruct (Hst st' Hst1 Hw) as (n2 & ? & ? & ?), (Hst' st' Hst1 Hw) as (l2 & ?). exists (Some n2 :: l2). by constructor.
  - destruct (hashes l) as [[[vs l'] puts']| |]; [|done..]. cbn [obind].
    destruct IH as (-> & He' & Hp' & HQ'). split; [done|]. split; [by rewrite !fmap_cons, He'|]. split; [done|].
    intros Q HPQ Hsub. destruct (HQ' Q HPQ Hsub) as [Hre Hst']. split; [by constructor|]. intros st' Hst1 Hw.
    destruct (Hst' st' Hst1 Hw) as (l2 & ?). exists (None :: l2). by constructor.
Qed.

Lemma rehashed_edges Q st ep value ch ch' i :
  Forall2 (rehashed Q st ep) ch ch' → nib i →
  rehashed Q st ep (edge value ch i) (edge value ch' i).
Proof.
  intros Hch Hi. unfold edge. unfold nib in Hi. rewrite (proj2 (Z.eqb_neq i 16)) by lia.
  destruct (ch !! Z.to_nat i) as [o|] eqn:E.
  - destruct (Forall2_lookup_l _ _ _ _ _ Hch E) as (o2 & -> & Ho). simpl. by destruct o, o2.
  - apply lookup_ge_None in E. rewrite (Forall2_length _ _ _ Hch) in E. by rewrite (proj2 (lookup_ge_None _ _) E).
Qed.

(** The full node of the children after [hash]. *)
Lemma rehashed_full P Q st ep h e value ch ch' :
  wf st (HPs P st) ep (FullNode h e value ch) → Forall2 (rehashed Q st ep) ch ch' →
  (∀ k v, has st (FullNode h e value ch) k v ↔ has st (FullNode h e value ch') k v) ∧
  ∀ h', hok (HPs Q st) h' (FullNode h' e value ch') → wf st (HPs Q st) (ep + 1) (FullNode h' e value ch').
Proof.
  intros Hn Hch. inversion Hn as [| | |? ? ? ? Hl Hc Hv Htwo Hh He]; subst.
  assert (∀ i, index i → edge value ch i = None ∧ edge value ch' i = None ∨
    ∃ n n2, edge value ch i = Some n ∧ edge value ch' i = Some n2 ∧ (nib i → wf st (HPs Q st) (ep + 1) n2) ∧
            ∀ k v, has st n k v ↔ has st n2 k v) as Hedge.
  { intros i Hi. destruct (decide (i = 16)) as [->|].
    - change (edge value ch' 16) with value. change (edge value ch 16) with value.
      destruct value as [n|]; [right|by left]. exists n, n. split_and!; try done. unfold nib; lia.
    - assert (nib i) as Hnib by (unfold nib, index in *; lia). pose proof (rehashed_edges _ _ ep value _ _ i Hch Hnib) as Ho.
      destruct (edge value ch i), (edge value ch' i); try done; [right|by left].
      destruct Ho. eauto 8. }
  split.
  - intros k v. rewrite !has_full_inv.
    split; intros (i & k' & n & -> & Hi & Hn' & Hk);
      (destruct (Hedge i Hi) as [[? ?]|(n1 & n2 & E1 & E2 & _ & Hiff)]; [congruence|]); simplify_eq;
      exists i, k'; eexists; split_and!; try done; by apply Hiff.
  - intros h' Hh'. constructor; try done.
    + by rewrite <- (Forall2_length _ _ _ Hch).
    + intros i n Hi Hn2. destruct (Hedge i) as [[_ ?]|(? & ? & _ & ? & Hp & _)]; [auto with go|congruence|].
      simplify_eq. by apply Hp.
    + destruct Htwo as (i & j & Hij & Hi & Hj & [a Ha] & [b Hb]). exists i, j.
      destruct (Hedge i Hi) as [[? _]|(? & ? & _ & -> & _)]; [congruence|].
      destruct (Hedge j Hj) as [[? _]|(? & ? & _ & -> & _)]; [congruence|]. eauto 7.
    + destruct He. split; lia.
Qed.

Lemma hash_full_post P st ep e value children :
  wf st (HPs P st) ep (FullNode [] e value children) →
  (∀ i n, nib i → edge value children i = Some n → hash_post P st ep n (hash n)) →
  hash_post P st ep (FullNode [] e value children) (hash (FullNode [] e value children)).
Proof.
  intros Hn IH. pose proof Hn as Hn0. inversion Hn0 as [| | |? ? ? ? Hl Hc Hv Htwo Hh He]; subst.
  rewrite hash_full, bool_decide_true by done. cbn [negb].
  assert (∀ n, Some n ∈ children → hash_post P st ep n (hash n)) as Hch.
  { intros n [i Hi]%list_elem_of_lookup_1. pose proof (lookup_lt_Some _ _ _ Hi).
    apply (IH (Z.of_nat i)); [unfold nib; lia|]. apply edge_child; [lia|done]. }
  pose proof (hashes_post P st ep children Hch) as Hhs. destruct (hashes children) as [[[vs ch'] puts]| |]; [|done..].
  cbn [obind]. destruct Hhs as (-> & Henc & Hp & HQ).
  assert (match value with
          | None => Ret (NewNull, None, [])
          | Some n => let~ (v, n, puts) := hash n in Ret (v, Some n, puts)
          end = Ret (enc_opt value, value, [])) as ->.
  { destruct value as [n|]; [|done]. by destruct (Hv n eq_refl) as (b & _ & ->). }
  cbn [obind]. rewrite app_nil_r.
  change (NewArray ((enc_opt <$> children) ++ [enc_opt value])) with (raw (FullNode [] e value children)).
  apply finish_post; try done; [cbn [raw]; by rewrite Henc| |].
  - destruct (HQ (P ++ puts)) as [Hre _]; [intros ? ?; apply elem_of_app; auto..|].
    by destruct (rehashed_full P _ st ep [] e value children ch' Hn Hre).
  - intros Q HPQ Hsub. destruct (HQ Q HPQ Hsub) as [Hre Hst].
    split; [by destruct (rehashed_full P _ st ep [] e value children ch' Hn Hre)|]. intros st' Hst1 Hw.
    destruct (Hst st' Hst1 Hw) as (l2 & Hl2). exists (FullNode [] 0 value l2).
    by destruct (decode_full st st' (HPs P st) ep [] e value children l2 Hn Hl2) as (Hd & Hdec & _).
Qed.

Lemma hash_ref_post P st ep r :
  wf st (HPs P st) ep (ValueNode true (Some r)) →
  hash_post P st ep (ValueNode true (Some r)) (hash (ValueNode true (Some r))).
Proof.
  intros Hn. inversion Hn as [? n Hr0 Hl Hr Henc Hwf| | |]; subst.
  do 3 (split; [done|]). split; [constructor|]. do 2 (split; [done|]). intros Q HPQ _. split.
  - apply (wf_next P Q st st ep (ep + 1)); [done| |lia|done]. intros st2 _. by apply written_sub.
  - intros st' Hsub _. assert (plain st (ValueNode true (Some r))) as Hp.
    { eapply unhashed_plain; [exact Hn|constructor]. }
    exists (ValueNode true (Some r)). split; [by apply decode_ref|]. split; [by intros [= E]|].
    destruct (plain_mono st st' _ Hsub Hp) as (? & ? & ?). done.
Qed.

Lemma hash_leaf_post P st ep key b :
  tkey key → b ≠ [] →
  hash_post P st ep (ShortNode [] key (Some (ValueNode false (Some b))))
    (hash (ShortNode [] key (Some (ValueNode false (Some b))))).
Proof.
  intros Hkey Hb. rewrite hash_short, bool_decide_true by done. cbn [negb hash node_Hash snd obind default].
  apply finish_post; try done; [constructor|]. intros Q _ _. split; [intros h Hh; by apply wf_leaf|]. intros st' Hsub _.
  exists (ShortNode [] key (Some (ValueNode false (Some b)))). split.
  { cbn. rewrite decode_encode by (by left). cbn [obind]. rewrite hasTerminator_tkey by done. by destruct b. }
  split; [done|]. split; [apply wf_leaf; [done|done|by left]|intros; by rewrite !leaf_has|done|done].
Qed.

Lemma hash_ext_post P st ep key c :
  key ≠ [] → Forall nib key → is_full st c → hash_post P st ep c (hash c) →
  hash_post P st ep (ShortNode [] key (Some c)) (hash (ShortNode [] key (Some c))).
Proof.
  intros Hne Hkey Hfull IH. rewrite hash_short, bool_decide_true by done. cbn [negb].
  destruct (hash c) as [[[v c'] puts]| |]; [|done..]. cbn [obind]. destruct IH as (-> & He & Hr & Hp & Hk & Hf & HQ).
  change (NewArray [NewBytes (encodeCompact key); enc c]) with (raw (ShortNode [] key (Some c))).
  apply finish_post; try done; [cbn; by rewrite He|intros; rewrite !has_short_inv; by setoid_rewrite Hk|].
  intros Q HPQ Hsub. destruct (HQ Q HPQ Hsub) as [Hwf Hst]. split.
  - intros h Hh. apply wf_ext; try done. by apply Hf.
  - intros st' Hst1 Hw. destruct (Hst st' Hst1 Hw) as (c2 & Hd & _ & [Hp2 Hk2 Hf2 He2]).
    exists (ShortNode [] key (Some c2)). split.
    { cbn. rewrite decode_encode by (by right). cbn [obind]. rewrite hasTerminator_nib, Hd by done. done. }
    split; [done|]. split; [|intros; rewrite !has_short_inv; by setoid_rewrite Hk2|done|cbn; by rewrite He2].
    apply wf_ext; try done; [by apply Hf2|by left].
Qed.

Lemma hash_wf P st ep n : wf st (HPs P st) ep n → hash_post P st ep n (hash n).
Proof.
  assert (∀ h n, wf st (HPs P st) ep n → HPs P st h n → is_node n = true → set_hash h n = n →
    hash_post P st ep n (hash n)) as Hrec.
  { intros h m Hm Hh Hnode Hset. pose proof Hh as (_ & Hne & _).
    assert (hash m = Ret (NewBytes h, m, [])) as ->.
    { destruct m; simplify_eq/=; [rewrite bool_decide_false by done|rewrite bool_decide_false by done]; done. }
    apply hash_recorded; try done. by destruct m. }
  induction 1 as [r n Hr0 Hl Hr Henc Hn IH|h key b Hkey Hb Hh|h key c Hne Hkey Hfull Hc IH Hh
    |h e value children Hl Hc IH Hv Htwo Hh He].
  - apply hash_ref_post. by eapply wf_ref.
  - destruct Hh as [->|Hh]; [by apply hash_leaf_post|]. apply (Hrec h); try done. apply wf_leaf; [done|done|by right].
  - destruct Hh as [->|Hh]; [by apply hash_ext_post|]. apply (Hrec h); try done. apply wf_ext; try done. by right.
  - destruct Hh as [->|Hh]; [apply hash_full_post; [constructor; try done; by left|done]|].
    apply (Hrec h); try done. constructor; try done. by right.
Qed.

(** ** The hash is a function of the keys and values *)

Lemma wf_deref st HP ep n : wf st HP ep n →
  ∃ m, wf st HP ep m ∧ is_ref m = false ∧ (∀ k v, has st n k v ↔ has st m k v) ∧
       (is_full st n ↔ is_full st m) ∧ enc m = enc n.
Proof.
  intros Hn. pose proof Hn as Hn0.
  destruct Hn as [r n Hr0 Hl Hr Henc Hn| | |]; [|eexists; split; [exact Hn0|done]..].
  exists n. split; [done|]. split; [done|]. split; [intros; by rewrite (has_ref_inv _ _ _ _ _ Hl)|]. split; [|done].
  simpl. rewrite Hl. split; [by intros (? & ? & ? & ? & [= ->])|].
  destruct n as [[]| |h e v c]; [done..|]. intros _. by exists h, e, v, c.
Qed.

(** A full node has two keys that differ at once. *)
Lemma full_keys st HP ep n :
  wf st HP ep n → is_full st n →
  ∃ i j k1 k2 v1 v2, i ≠ j ∧ has st n (i :: k1) v1 ∧ has st n (j :: k2) v2.
Proof.
  intros Hn Hf. destruct (wf_deref _ _ _ _ Hn) as (m & Hm & Hr & Hk & Hfm & _). setoid_rewrite Hk.
  apply Hfm in Hf. destruct Hm as [| | |h e value children Hl Hc Hv Htwo Hh He]; try done.
  destruct Htwo as (i & j & Hij & Hi & Hj & [a Ha] & [b Hb]).
  assert (∀ i a, index i → edge value children i = Some a → ∃ k v, has st (FullNode h e value children) (i :: k) v) as Hone.
  { intros x c Hx Hxc. assert (∃ k v, has st c k v) as (k & v & Hkv).
    { destruct (decide (x = 16)) as [->|].
      - destruct (Hv c Hxc) as (y & _ & ->). exists [], y. constructor.
      - apply (wf_nonempty st HP ep). apply (Hc x); [unfold nib, index in *; lia|done]. }
    exists k, v. by eapply has_full. }
  destruct (Hone i a Hi Ha) as (k1 & v1 & H1'). destruct (Hone j b Hj Hb) as (k2 & v2 & H2').
  by exists i, j, k1, k2, v1, v2.
Qed.

Lemma prefix_diverge (p q k1 k2 : bytes) i j :
  i ≠ j → q `prefix_of` p ++ i :: k1 → q `prefix_of` p ++ j :: k2 → q `prefix_of` p.
Proof.
  intros Hij. revert q. induction p as [|d p IH]; intros q [r1 E1] [r2 E2]; simpl in *.
  - destruct q; [by exists []|]. by simplify_eq/=.
  - destruct q as [|x q]; [by exists (d :: p)|]. simplify_eq/=.
    destruct (IH q) as [r Er]; [by exists r1|by exists r2|]. exists r. simpl. by f_equal.
Qed.

Lemma prefix_antisym (p q : bytes) : p `prefix_of` q → q `prefix_of` p → p = q.
Proof.
  intros [r ->] [s E]. rewrite <- app_assoc in E. rewrite <- (app_nil_r p) in E at 1.
  apply app_inv_head in E. destruct r; [by rewrite app_nil_r|done].
Qed.

Section canonical.
Context (st1 st2 : Storage) (HP1 HP2 : bytes → Node → Prop) (ep1 ep2 : Z).

Lemma leaf_not_full h key b n :
  wf st2 HP2 ep2 n → is_full st2 n → ∀ p,
  ¬ (∀ k v, has st1 (ShortNode h key (Some (ValueNode false (Some b)))) k v ↔ ∃ k', k = p ++ k' ∧ has st2 n k' v).
Proof.
  intros Hn Hf p Hiff. destruct (full_keys _ _ _ _ Hn Hf) as (i & j & k1 & k2 & v1 & v2 & Hij & H1' & H2').
  pose proof (proj2 (Hiff (p ++ i :: k1) v1) ltac:(eauto)) as [E1 _]%leaf_has.
  pose proof (proj2 (Hiff (p ++ j :: k2) v2) ltac:(eauto)) as [E2 _]%leaf_has.
  rewrite <- E2 in E1. apply app_inv_head in E1. by simplify_eq.
Qed.
End canonical.

(** Two extensions of full nodes with the same keys. *)
Lemma ext_same st1 st2 HP1 HP2 ep1 ep2 (p q : bytes) n1 n2 :
  wf st1 HP1 ep1 n1 → is_full st1 n1 → wf st2 HP2 ep2 n2 → is_full st2 n2 →
  (∀ k v, (∃ k', k = p ++ k' ∧ has st1 n1 k' v) ↔ (∃ k', k = q ++ k' ∧ has st2 n2 k' v)) →
  p = q ∧ ∀ k v, has st1 n1 k v ↔ has st2 n2 k v.
Proof.
  intros Hn1 Hf1 Hn2 Hf2 Hiff.
  destruct (full_keys _ _ _ _ Hn1 Hf1) as (i & j & k1 & k2 & v1 & v2 & Hij & Hi & Hj).
  destruct (full_keys _ _ _ _ Hn2 Hf2) as (i' & j' & k1' & k2' & v1' & v2' & Hij' & Hi' & Hj').
  assert (p = q) as ->.
  { apply prefix_antisym.
    - apply (prefix_diverge _ _ k1' k2' i' j' Hij').
      + destruct (proj2 (Hiff (q ++ i' :: k1') v1')) as (k' & -> & _); [eauto|by exists k'].
      + destruct (proj2 (Hiff (q ++ j' :: k2') v2')) as (k' & -> & _); [eauto|by exists k'].
    - apply (prefix_diverge _ _ k1 k2 i j Hij).
      + destruct (proj1 (Hiff (p ++ i :: k1) v1)) as (k' & -> & _); [eauto|by exists k'].
      + destruct (proj1 (Hiff (p ++ j :: k2) v2)) as (k' & -> & _); [eauto|by exists k']. }
  split; [done|]. intros k v. split; intros Hk.
  - destruct (proj1 (Hiff (q ++ k) v)) as (k' & E & ?); [eauto|]. by apply app_inv_head in E as ->.
  - destruct (proj2 (Hiff (q ++ k) v)) as (k' & E & ?); [eauto|]. by apply app_inv_head in E as ->.
Qed.

(** Two full nodes with the same keys have the same children, up to hashes. *)
Lemma full_same st1 st2 HP1 HP2 ep1 ep2 h1 e1 value1 ch1 h2 e2 value2 ch2 :
  wf st1 HP1 ep1 (FullNode h1 e1 value1 ch1) → wf st2 HP2 ep2 (FullNode h2 e2 value2 ch2) →
  (∀ i n1 n2, nib i → edge value1 ch1 i = Some n1 → wf st2 HP2 ep2 n2 →
     (∀ k v, has st1 n1 k v ↔ has st2 n2 k v) → enc n1 = enc n2) →
  (∀ k v, has st1 (FullNode h1 e1 value1 ch1) k v ↔ has st2 (FullNode h2 e2 value2 ch2) k v) →
  raw (FullNode h1 e1 value1 ch1) = raw (FullNode h2 e2 value2 ch2).
Proof.
  intros Hn1 Hn2 IH Hiff. inversion Hn1 as [| | |? ? ? ? Hl1 Hc1 Hv1 _ _ _]; subst.
  inversion Hn2 as [| | |? ? ? ? Hl2 Hc2 Hv2 _ _ _]; subst.
  assert (∀ i, index i → ∀ k v, (∃ n, edge value1 ch1 i = Some n ∧ has st1 n k v) ↔
                                (∃ n, edge value2 ch2 i = Some n ∧ has st2 n k v)) as Hat.
  { intros i Hi k v. rewrite <- (has_full_at st1 h1 e1), <- (has_full_at st2 h2 e2) by done. apply Hiff. }
  assert (∀ i, index i → enc_opt (edge value1 ch1 i) = enc_opt (edge value2 ch2 i)) as Henc.
  { intros i Hi. destruct (decide (i = 16)) as [->|].
    - specialize (Hat 16 Hi []). change (edge value1 ch1 16) with value1 in *. change (edge value2 ch2 16) with value2 in *.
      destruct value1 as [n1|], value2 as [n2|]; try done.
      + destruct (Hv1 n1 eq_refl) as (b1 & _ & ->). destruct (Hv2 n2 eq_refl) as (b2 & _ & ->).
        destruct (proj1 (Hat b1)) as (? & [= <-] & [_ ->]%has_value_inv); [|done]. eexists. split; [done|constructor].
      + destruct (Hv1 n1 eq_refl) as (b1 & _ & ->). destruct (proj1 (Hat b1)) as (? & ? & _); [|done].
        eexists. split; [done|constructor].
      + destruct (Hv2 n2 eq_refl) as (b2 & _ & ->). destruct (proj2 (Hat b2)) as (? & ? & _); [|done].
        eexists. split; [done|constructor].
    - assert (nib i) as Hnib by (unfold nib, index in *; lia). specialize (Hat i Hi).
      destruct (edge value1 ch1 i) as [n1|] eqn:E1, (edge value2 ch2 i) as [n2|] eqn:E2; try done.
      + apply (IH i); eauto. intros k v. specialize (Hat k v). split; intros Hk.
        * by destruct (proj1 Hat) as (? & [= <-] & ?); [eauto|].
        * by destruct (proj2 Hat) as (? & [= <-] & ?); [eauto|].
      + destruct (wf_nonempty _ _ _ _ (Hc1 i n1 Hnib E1)) as (k & v & Hk).
        by destruct (proj1 (Hat k v)) as (? & ? & _); [eauto|].
      + destruct (wf_nonempty _ _ _ _ (Hc2 i n2 Hnib E2)) as (k & v & Hk).
        by destruct (proj2 (Hat k v)) as (? & ? & _); [eauto|]. }
  cbn [raw]. pose proof (Henc 16 ltac:(done)) as H16. change (enc_opt value1 = enc_opt value2) in H16. rewrite H16.
  do 2 f_equal. apply list_eq. intros i. rewrite !list_lookup_fmap.
  destruct (decide (i < 16)%nat).
  - specialize (Henc (Z.of_nat i) ltac:(unfold index; lia)). unfold edge in Henc.
    rewrite (proj2 (Z.eqb_neq _ _)) in Henc by lia. rewrite Nat2Z.id in Henc.
    destruct (lookup_lt_is_Some_2 ch1 i) as [o1 Eo1]; [lia|]. destruct (lookup_lt_is_Some_2 ch2 i) as [o2 Eo2]; [lia|].
    rewrite Eo1, Eo2 in *. simpl in *. by f_equal.
  - rewrite !(proj2 (lookup_ge_None _ _)) by lia. done.
Qed.

Lemma enc_canonical st1 st2 HP1 HP2 ep1 ep2 n1 n2 :
  wf st1 HP1 ep1 n1 → wf st2 HP2 ep2 n2 → (∀ k v, has st1 n1 k v ↔ has st2 n2 k v) → enc n1 = enc n2.
Proof.
  intros Hn1. revert n2. induction Hn1 as [r n Hr0 Hl Hr Henc Hn IH|h key b Hkey Hb Hh|h key c Hne Hkey Hfull Hc IH Hh
    |h e value children Hl Hc IH Hv Htwo Hh He]; intros n2 Hn2 Hiff.
  { change (enc (ValueNode true (Some r))) with (NewBytes r). rewrite <- Henc. apply IH; [done|].
    intros k v. rewrite <- Hiff. by rewrite (has_ref_inv _ _ _ _ _ Hl). }
  all: destruct (wf_deref _ _ _ _ Hn2) as (m & Hm & Hr & Hk & _ & <-); setoid_rewrite Hk in Hiff; clear Hk Hn2 n2.
  all: pose proof Hm as Hm0;
    destruct Hm as [|h2 key2 b2 Hkey2 _ _|h2 key2 c2 Hne2 Hkey2 Hf2 Hc2 _|h2 e2 value2 ch2 Hl2 Hc2 Hv2 Ht2 Hh2 He2];
    [done| | |].
  - assert (has st2 (ShortNode h2 key2 (Some (ValueNode false (Some b2)))) key b) as [-> ->]%leaf_has; [|done].
    apply Hiff. by apply leaf_has.
  - destruct (leaf_not_full st1 st2 HP2 ep2 h key b c2 Hc2 Hf2 key2). intros k v. by rewrite Hiff, has_short_inv.
  - destruct (leaf_not_full st1 st2 HP2 ep2 h key b _ Hm0 I []). intros k v. rewrite Hiff. naive_solver.
  - destruct (leaf_not_full st2 st1 HP1 ep1 h2 key2 b2 c Hc Hfull key). intros k v. by rewrite <- Hiff, has_short_inv.
  - destruct (ext_same st1 st2 HP1 HP2 ep1 ep2 key key2 c c2) as [-> Hcc]; try done.
    { intros k v. rewrite <- (has_short_inv st1 h), <- (has_short_inv st2 h2). apply Hiff. }
    cbn [enc]. by rewrite (IH c2 Hc2 Hcc).
  - destruct (ext_same st1 st2 HP1 HP2 ep1 ep2 key [] c (FullNode h2 e2 value2 ch2)) as [? _]; try done.
    intros k v. rewrite <- (has_short_inv st1 h), Hiff. naive_solver.
  - assert (wf st1 HP1 ep1 (FullNode h e value children)) as Hn1 by (by constructor).
    destruct (leaf_not_full st2 st1 HP1 ep1 h2 key2 b2 _ Hn1 I []). intros k v. rewrite <- Hiff. naive_solver.
  - assert (wf st1 HP1 ep1 (FullNode h e value children)) as Hn1 by (by constructor).
    destruct (ext_same st1 st2 HP1 HP2 ep1 ep2 [] key2 (FullNode h e value children) c2) as [? _]; try done.
    intros k v. rewrite <- (has_short_inv st2 h2), <- Hiff. naive_solver.
  - assert (wf st1 HP1 ep1 (FullNode h e value children)) as Hn1 by (by constructor).
    apply (f_equal seal). apply (full_same st1 st2 HP1 HP2 ep1 ep2 h e _ _ h2 e2); try done.
    intros i n1 n2 Hi Hn Hn2 Hnn. by apply (IH i n1 Hi Hn).
Qed.
End hash.
