(* ===== verification/TrieMap.v ===== *)
(** The transactions of a trie implement a finite map from byte strings to
    byte strings, and its root is a function of that map. *)
From S2P Require Import Prelude Types Runtime Rlp Trie TrieSpec TrieHash.

(** ** Batches *)

(** [Batch.Write]. *)
Definition write_batch (puts : list (bytes * bytes)) (st : Storage) : Storage :=
  foldl (λ st p, <[p.1 := p.2]> st) st puts.

(** Every key of the batch has one value, in the batch and in the storage. *)
Definition coherent (puts : list (bytes * bytes)) (st : Storage) : Prop :=
  ∀ h d d', (h, d) ∈ puts → (h, d') ∈ puts ∨ st !! h = Some d' → d = d'.

Lemma write_batch_lookup puts st h d :
  write_batch puts st !! h = Some d → (h, d) ∈ puts ∨ st !! h = Some d.
Proof.
  revert st. induction puts as [|[h1 d1] puts IH]; intros st; cbn; [by right|]. intros Hd.
  destruct (IH _ Hd) as [?|Hs]; [left; by right|]. rewrite lookup_insert in Hs. case_decide; simplify_eq; [left; left|by right].
Qed.

Lemma write_batch_dom puts st h d :
  (h, d) ∈ puts ∨ st !! h = Some d → ∃ d', write_batch puts st !! h = Some d'.
Proof.
  revert st d. induction puts as [|[h1 d1] puts IH]; intros st d Hin; cbn.
  { destruct Hin as [Hin|?]; [by apply not_elem_of_nil in Hin|eauto]. }
  destruct (decide (h = h1)) as [->|Hne]; [apply (IH _ d1); right; by rewrite lookup_insert_eq|].
  apply (IH _ d). destruct Hin as [Hin|?]; [|right; by rewrite lookup_insert_ne].
  apply elem_of_cons in Hin as [?|?]; [by simplify_eq|by left].
Qed.

Lemma write_batch_written puts st :
  coherent puts st → st ⊆ write_batch puts st ∧ written puts (write_batch puts st).
Proof.
  intros Hc. split.
  - apply map_subseteq_spec. intros h d Hd. destruct (write_batch_dom puts st h d) as [d' Hd']; [by right|].
    rewrite Hd'. destruct (write_batch_lookup _ _ _ _ Hd') as [Hin|?]; [|congruence].
    by rewrite (Hc h d' d Hin (or_intror Hd)).
  - intros h d Hin. destruct (write_batch_dom puts st h d) as [d' Hd']; [by left|].
    rewrite Hd'. f_equal. symmetry. apply (Hc h d d' Hin). by apply write_batch_lookup.
Qed.

Section rep.
Context `{External} `{RlpReader} `{!RlpLaws}.
Implicit Types (Q : list (bytes * bytes)) (t : TrieTxn) (m : gmap (list Z) (list Z)).

(** The trie [root] in the storage [st] holds the map [m]; [ep] is the epoch of
    the running transaction, and [Q] what is still in the batch. *)
Record root_rep (Q : list (bytes * bytes)) (st : Storage) (ep : Z) (root : option Node) m : Prop := {
  rr_wf n : root = Some n → wf st (HPs Q st) ep n;
  rr_has kk v : (∃ n, root = Some n ∧ has st n kk v) ↔ ∃ k, kk = bytesToHexNibbles k ∧ m !! k = Some v;
  rr_keys k v : m !! k = Some v → Forall byte_range k;
}.

(** A transaction of a trie that holds [m]. *)
Definition txn_rep Q t m : Prop :=
  0 ≤ tt_epoch t ∧ root_rep Q (tt_storage t) (tt_epoch t) (tt_root t) m.

(** A trie in a storage, between transactions. *)
Definition trie_rep Q (st : Storage) (t : Trie) m : Prop :=
  0 ≤ tr_epoch t ∧ root_rep Q st (tr_epoch t + 1) (tr_root t) m.

Lemma rep_lookup Q st ep n m k v :
  root_rep Q st ep (Some n) m → Forall byte_range k → has st n (bytesToHexNibbles k) v ↔ m !! k = Some v.
Proof.
  intros [_ Hhas Hkeys] Hk. split.
  - intros Hn. destruct (proj1 (Hhas _ _) ltac:(eauto)) as (k' & E & Hm).
    apply bytesToHexNibbles_inj in E; [by subst|done|eauto].
  - intros Hm. destruct (proj2 (Hhas (bytesToHexNibbles k) v)) as (? & [= <-] & ?); eauto.
Qed.

Lemma rep_has Q st ep n m kk v :
  root_rep Q st ep (Some n) m → has st n kk v ↔ ∃ k, kk = bytesToHexNibbles k ∧ m !! k = Some v.
Proof. intros [_ Hhas _]. rewrite <- Hhas. split; [eauto|]. by intros (? & [= <-] & ?). Qed.

Lemma rep_intro Q st ep n m :
  wf st (HPs Q st) ep n → (∀ k v, m !! k = Some v → Forall byte_range k) →
  (∀ kk v, has st n kk v ↔ ∃ k, kk = bytesToHexNibbles k ∧ m !! k = Some v) → root_rep Q st ep (Some n) m.
Proof.
  intros Hn Hk Hhas. split; [by intros ? [= <-]| |done]. intros kk v. rewrite <- Hhas.
  split; [by intros (? & [= <-] & ?)|eauto].
Qed.

(** An equivalent root holds the same map. *)
Lemma rep_equiv Q Q' st st' ep ep' n n' m :
  root_rep Q st ep (Some n) m → wf st' (HPs Q' st') ep' n' → (∀ k v, has st n k v ↔ has st' n' k v) →
  root_rep Q' st' ep' (Some n') m.
Proof.
  intros Hrep Hn' Hk. apply rep_intro; [done|apply Hrep|]. intros kk v. rewrite <- Hk. by apply (rep_has _ _ _ _ _ _ _ Hrep).
Qed.

Lemma rep_None Q st ep m : root_rep Q st ep None m ↔ m = ∅.
Proof.
  split.
  - intros [_ Hhas _]. apply map_empty. intros k. destruct (m !! k) as [v|] eqn:E; [|done].
    by destruct (proj2 (Hhas (bytesToHexNibbles k) v)) as (? & ? & _); eauto.
  - intros ->. split; [done| |].
    + intros kk v. split; [by intros (? & ? & _)|]. intros (k & _ & Hk). by rewrite lookup_empty in Hk.
    + intros k v Hk. by rewrite lookup_empty in Hk.
Qed.

Lemma Lookup_rep Q t m k :
  txn_rep Q t m → Forall byte_range k →
  ∃ root, txn_Lookup t k = Ret (m !! k, mkTrieTxn root (tt_epoch t) (tt_storage t)) ∧
          txn_rep Q (mkTrieTxn root (tt_epoch t) (tt_storage t)) m.
Proof.
  intros [Hep Hrep] Hk. unfold txn_Lookup. destruct (tt_root t) as [n|] eqn:Er.
  - pose proof (rr_wf _ _ _ _ _ Hrep n eq_refl) as Hn.
    pose proof (lookup_wf (tt_storage t) _ (tt_epoch t) (HPs_equiv Q (tt_storage t)) n Hn (bytesToHexNibbles k)
      (trie_fuel (bytesToHexNibbles k)) (tkey_nibbles k Hk)
      ltac:(pose proof (need_le n (bytesToHexNibbles k)); unfold trie_fuel; lia)) as Hp.
    destruct (lookup _ _ _ _) as [[[ret res] self]| |]; [|done..].
    destruct Hp as (Hres & (n' & Hkept & Hn' & Hk' & _ & _) & Hret & Hself). cbn [obind].
    eexists. split; [|split; [done|]].
    + do 2 f_equal. apply option_eq. intros v. by rewrite Hres, (rep_lookup _ _ _ _ _ _ _ Hrep Hk).
    + cbn [tt_root tt_epoch tt_storage]. destruct (is_ref n); [by rewrite Hself|].
      rewrite (Hret eq_refl) in Hkept. simpl in Hkept. subst self. by apply (rep_equiv _ _ _ _ _ _ _ _ _ Hrep).
  - apply rep_None in Hrep as ->. exists None. split; [|split; [done|by apply rep_None]].
    unfold trie_fuel. by rewrite lookup_empty, Nat.add_comm.
Qed.

(** The keys of the map with one more. *)
Lemma insert_keys m k v : Forall byte_range k → (∀ k v, m !! k = Some v → Forall byte_range k) →
  ∀ k' v', <[k := v]> m !! k' = Some v' → Forall byte_range k'.
Proof. intros Hk Hm k' v'. rewrite lookup_insert. case_decide; [by subst|eauto]. Qed.

Lemma insert_has m k v kk v' : Forall byte_range k → (∀ k v, m !! k = Some v → Forall byte_range k) →
  (kk = bytesToHexNibbles k ∧ v' = v ∨
   kk ≠ bytesToHexNibbles k ∧ (∃ k', kk = bytesToHexNibbles k' ∧ m !! k' = Some v')) ↔
  ∃ k', kk = bytesToHexNibbles k' ∧ <[k := v]> m !! k' = Some v'.
Proof.
  intros Hk Hm. split.
  - intros [[-> ->]|[Hne (k' & -> & Hk')]]; [exists k; by rewrite lookup_insert_eq|].
    exists k'. split; [done|]. rewrite lookup_insert_ne; [done|]. by intros <-.
  - intros (k' & -> & Hk'). rewrite lookup_insert in Hk'. case_decide; simplify_eq; [by left|right].
    split; [|eauto]. intros E. apply bytesToHexNibbles_inj in E; [by subst|eauto|done].
Qed.

Lemma Insert_rep Q t m k v :
  txn_rep Q t m → Forall byte_range k → v ≠ [] →
  ∃ t', txn_Insert k v t = Ret t' ∧ txn_rep Q t' (<[k := v]> m) ∧
        tt_epoch t' = tt_epoch t ∧ tt_storage t' = tt_storage t.
Proof.
  intros [Hep Hrep] Hk Hv. unfold txn_Insert. pose proof (tkey_nibbles k Hk) as Htk.
  destruct (tt_root t) as [n|] eqn:Er.
  - pose proof (rr_wf _ _ _ _ _ Hrep n eq_refl) as Hn.
    pose proof (insert_wf (tt_storage t) (HPs Q (tt_storage t)) (tt_epoch t) n Hn (bytesToHexNibbles k) v
      (trie_fuel (bytesToHexNibbles k)) Hv Htk
      ltac:(pose proof (need_le n (bytesToHexNibbles k)); unfold trie_fuel; lia)) as Hp.
    destruct (insert _ _ _ _ _ _) as [[n'|]| |]; [|done..]. destruct Hp as (Hn' & _ & _ & Hhas). cbn [obind].
    eexists. split; [done|]. split; [|done]. split; [done|]. cbn [tt_root tt_epoch tt_storage].
    apply rep_intro; [done|by apply insert_keys, Hrep|]. intros kk v'. rewrite Hhas, (rep_has _ _ _ _ _ _ _ Hrep).
    by apply insert_has, Hrep.
  - apply rep_None in Hrep as ->. rewrite insert_nil by (left; unfold trie_fuel; lia). cbn [obind].
    eexists. split; [done|]. split; [|done]. split; [done|]. cbn [tt_root tt_epoch tt_storage].
    apply rep_intro; [by apply fresh_wf|by apply insert_keys; [|intros ? ? ?; rewrite lookup_empty in *]|].
    intros kk v'. rewrite fresh_has, <- (insert_has ∅); [|done|by intros ? ? ?; rewrite lookup_empty in *].
    setoid_rewrite lookup_empty. naive_solver.
Qed.

Lemma delete_has m k kk v' : Forall byte_range k → (∀ k v, m !! k = Some v → Forall byte_range k) →
  (kk ≠ bytesToHexNibbles k ∧ (∃ k', kk = bytesToHexNibbles k' ∧ m !! k' = Some v')) ↔
  ∃ k', kk = bytesToHexNibbles k' ∧ base.delete k m !! k' = Some v'.
Proof.
  intros Hk Hm. split.
  - intros [Hne (k' & -> & Hk')]. exists k'. split; [done|]. rewrite lookup_delete_ne; [done|]. by intros <-.
  - intros (k' & -> & Hk'). apply lookup_delete_Some in Hk' as [Hne Hk'].
    split; [|eauto]. intros E. apply bytesToHexNibbles_inj in E; [by subst|eauto|done].
Qed.

(** [Delete], when no key of the trie is longer than the one deleted. *)
Lemma Delete_rep Q t m k :
  txn_rep Q t m → Forall byte_range k → (∀ k' v, m !! k' = Some v → length k' ≤ length k)%nat →
  ∃ t', txn_Delete k t = Ret t' ∧ txn_rep Q t' (base.delete k m) ∧
        tt_epoch t' = tt_epoch t ∧ tt_storage t' = tt_storage t.
Proof.
  intros [Hep Hrep] Hk Hlen. unfold txn_Delete. pose proof (tkey_nibbles k Hk) as Htk.
  destruct (tt_root t) as [n|] eqn:Er.
  - pose proof (rr_wf _ _ _ _ _ Hrep n eq_refl) as Hn.
    assert (∀ k' v, has (tt_storage t) n k' v → length k' ≤ length (bytesToHexNibbles k))%nat as Hlen'.
    { intros kk v (k' & -> & Hv)%(rep_has _ _ _ _ _ _ _ Hrep). rewrite !length_bytesToHexNibbles. specialize (Hlen _ _ Hv). lia. }
    pose proof (delete_wf (tt_storage t) (HPs Q (tt_storage t)) (tt_epoch t) Hep (HPs_equiv Q (tt_storage t)) n Hn
      (bytesToHexNibbles k) (trie_fuel (bytesToHexNibbles k)) Htk Hlen'
      ltac:(pose proof (need_le n (bytesToHexNibbles k)); unfold trie_fuel; lia)) as Hp.
    destruct (delete _ _ _ _) as [[[[n'|] []] self]| |]; try done; cbn [obind delete_post] in *.
    + destruct Hp as (_ & Hn' & _ & Hhas). eexists. split; [done|]. split; [|done]. split; [done|].
      cbn [tt_root tt_epoch tt_storage]. apply rep_intro; [done| |].
      * intros k' v [_ ?]%lookup_delete_Some. by eapply rr_keys.
      * intros kk v. rewrite Hhas, (rep_has _ _ _ _ _ _ _ Hrep). by apply delete_has, Hrep.
    + destruct Hp as (_ & Hall). eexists. split; [done|]. split; [|done]. split; [done|]. apply rep_None, map_empty.
      intros k'. apply eq_None_not_Some. intros [v [Hne Hv]%lookup_delete_Some]. apply Hne. symmetry.
      eapply bytesToHexNibbles_inj; [by eapply rr_keys|done|]. eapply Hall, rep_has; eauto.
    + destruct self as [n'|]; [|done]. destruct Hp as (Hno & Hn' & Hk' & _ & _). eexists. split; [done|]. split; [|done].
      split; [done|]. rewrite delete_id; [by apply (rep_equiv _ _ _ _ _ _ _ _ _ Hrep)|].
      apply eq_None_not_Some. intros [v Hv]. apply (Hno v). by eapply rep_lookup.
  - apply rep_None in Hrep as ->. eexists. split; [by unfold trie_fuel; rewrite Nat.add_comm|]. split; [|done].
    split; [done|]. by apply rep_None, delete_empty.
Qed.

(** ** The root *)

(** The root of a trie, from its node alone. *)
Definition root_of (o : option Node) : bytes :=
  match o with
  | None => emptyRoot
  | Some n => match enc n with NewBytes r => r | v => HashBytes (Keccak256 (MarshalTo v)) end
  end.

(** The root depends on nothing but the map. *)
Lemma root_canonical Q1 Q2 st1 st2 ep1 ep2 o1 o2 m :
  root_rep Q1 st1 ep1 o1 m → root_rep Q2 st2 ep2 o2 m → root_of o1 = root_of o2.
Proof.
  assert (∀ Q st ep n, ¬ root_rep Q st ep (Some n) ∅) as Hne.
  { intros Q st ep n Hrep. destruct (wf_nonempty _ _ _ _ (rr_wf _ _ _ _ _ Hrep n eq_refl)) as (k & v & Hk).
    apply (rep_has _ _ _ _ _ _ _ Hrep) in Hk as (? & _ & ?). by rewrite lookup_empty in *. }
  intros H1' H2'. destruct o1 as [n1|], o2 as [n2|]; simpl; [| | |done].
  - rewrite (enc_canonical st1 st2 (HPs Q1 st1) (HPs Q2 st2) ep1 ep2 n1 n2); [done|by eapply rr_wf..|].
    intros k v. by rewrite (rep_has _ _ _ _ _ _ _ H1'), (rep_has _ _ _ _ _ _ _ H2').
  - apply rep_None in H2' as ->. by apply Hne in H1'.
  - apply rep_None in H1' as ->. by apply Hne in H2'.
Qed.

Lemma seal_shape l :
  (∃ z, seal (NewArray l) = NewBytes (HashBytes z)) ∨ (∃ l', seal (NewArray l) = NewArray l').
Proof. unfold seal. case_match; [right; eauto|left; eauto]. Qed.

Lemma enc_shape st HP ep n :
  wf st HP ep n → (∃ z, enc n = NewBytes (HashBytes z)) ∨ (∃ l, enc n = NewArray l).
Proof.
  induction 1 as [r n _ _ _ Henc _ IH| | |]; try apply seal_shape.
  cbn [enc default]. by rewrite Henc in IH.
Qed.

Lemma root_of_hash Q st ep o m : root_rep Q st ep o m → ∃ z, root_of o = HashBytes z.
Proof.
  intros Hrep. destruct o as [n|]; [|by eexists].
  destruct (enc_shape _ _ _ n (rr_wf _ _ _ _ _ Hrep n eq_refl)) as [(z & Hr)|[l Hl]]; simpl; [rewrite Hr|rewrite Hl]; by eexists.
Qed.

(** ** Storage *)

(** The trie of root [root] is in the storage, and holds [m]. *)
Definition stored (st : Storage) (root : bytes) m : Prop :=
  m = ∅ ∧ root = emptyRoot ∨
  ∃ n, load (Some root) st = Ret (Some n) ∧ root_of (Some n) = root ∧ root_rep [] st 1 (Some n) m.

(** What a node that decodes from storage holds. *)
Lemma decoded_rep Q st st' ep n n2 m :
  root_rep Q st ep (Some n) m → decoded st st' n n2 → root_rep [] st' 1 (Some n2) m.
Proof. intros Hrep [Hp Hk _ _]. apply (rep_equiv _ _ _ _ _ _ _ _ _ Hrep); [apply plain_wf; [lia|done]|done]. Qed.

(** [Hash] gives the root of the map, and a batch that stores the trie. *)
Lemma Hash_rep Q t m :
  txn_rep Q t m →
  ∃ root puts, let t' := mkTrieTxn root (tt_epoch t) (tt_storage t) in
    txn_Hash t = Ret (root_of (tt_root t), t', puts) ∧ puts_ok puts ∧
    trie_rep (Q ++ puts) (tt_storage t) (txn_Commit t') m ∧ root_of root = root_of (tt_root t) ∧
    ∀ st', tt_storage t ⊆ st' → written (Q ++ puts) st' → stored st' (root_of (tt_root t)) m.
Proof.
  intros [Hep Hrep]. unfold txn_Hash. destruct (tt_root t) as [n|] eqn:Er.
  2: { exists None, []. destruct t as [? ep st]. cbn in *. subst. split; [done|]. split; [constructor|].
       apply rep_None in Hrep as ->. split; [split; [done|]; by apply rep_None|]. split; [done|]. intros. by left. }
  pose proof (rr_wf _ _ _ _ _ Hrep n eq_refl) as Hn. pose proof (hash_wf _ _ _ n Hn) as Hp.
  destruct (hash n) as [[[v n'] puts]| |]; [|done..]. destruct Hp as (-> & He & _ & Hok & Hk & _ & HQ).
  cbn [obind root_of]. rewrite <- He.
  destruct (enc_shape _ _ _ _ Hn) as [[z Hr]|[l Hl]].
  - pose proof (length_HashBytes z) as Hlen. set (r := HashBytes z) in *.
    destruct (HQ (Q ++ puts)) as [Hwf Hst]; [intros ? ?; apply elem_of_app; auto..|].
    rewrite He, Hr, rlp_Len_NewBytes, Hlen in *. exists (Some n'), puts.
    split; [rewrite take_app_length' by done; done|]. split; [done|].
    split; [split; [done|]; by apply (rep_equiv _ _ _ _ _ _ _ _ _ Hrep)|].
    split; [simpl; by rewrite He|]. intros st' Hsub Hw.
    destruct (Hst st' Hsub Hw) as (n2 & Hd & _ & Hdec). cbn [item_of] in Hd. rewrite decode_ref in Hd by (by intros ->). simplify_eq.
    right. pose proof Hdec as [Hpl Hdk _ _]. inversion Hpl as [? n2 Hr0 Hload Hnr Henc Hn2| | |]; subst. exists n2. split; [done|].
    split; [simpl; by rewrite Henc|]. apply (rep_equiv _ _ _ _ _ _ _ _ _ Hrep); [apply plain_wf; [lia|done]|].
    intros k v. rewrite Hdk. by apply has_ref_inv.
  - rewrite He, Hl in *. set (root := HashBytes _).
    destruct (HQ (Q ++ puts ++ [(root, MarshalTo (NewArray l))])) as [Hwf Hst]; [intros ? ?; rewrite !elem_of_app; auto..|].
    exists (Some n'), (puts ++ [(root, MarshalTo (NewArray l))]). split; [done|].
    split; [apply Forall_app; split; [done|by apply Forall_singleton]|].
    split; [split; [done|]; by apply (rep_equiv _ _ _ _ _ _ _ _ _ Hrep)|].
    split; [simpl; by rewrite He|]. intros st' Hsub Hw. destruct (Hst st' Hsub Hw) as (n2 & Hd & _ & Hdec).
    right. exists n2. split; [|split; [simpl; by rewrite (de_enc _ _ _ _ Hdec), Hl|by eapply decoded_rep]].
    unfold load, GetNode. simpl. rewrite (Hw root (MarshalTo (NewArray l))), Parse_MarshalTo.
    + cbn [item_of] in *. by rewrite Hd.
    + rewrite !elem_of_app. right. right. by apply list_elem_of_singleton.
Qed.
(** ** Tries between transactions *)

Lemma rep_next Q Q' st st' ep ep' o m :
  st ⊆ st' → (∀ st2, st' ⊆ st2 → written Q' st2 → written Q st2) → ep ≤ ep' →
  root_rep Q st ep o m → root_rep Q' st' ep' o m.
Proof.
  intros Hsub HQ Hep Hrep. destruct o as [n|]; [|apply rep_None in Hrep as ->; by apply rep_None].
  destruct (wf_next Q Q' st st' ep ep' n Hsub HQ Hep (rr_wf _ _ _ _ _ Hrep n eq_refl)) as (Hn & Hk & _).
  by apply (rep_equiv _ _ _ _ _ _ _ _ _ Hrep).
Qed.

(** The batch grows. *)
Lemma trie_rep_weaken Q Q' st (t : Trie) m : Q ⊆ Q' → trie_rep Q st t m → trie_rep Q' st t m.
Proof.
  intros Hsub [Hep Hrep]. split; [done|]. eapply rep_next; [done| |done|exact Hrep]. intros ? _. by apply written_sub.
Qed.

Lemma txn_rep_weaken Q Q' t m : Q ⊆ Q' → txn_rep Q t m → txn_rep Q' t m.
Proof.
  intros Hsub [Hep Hrep]. split; [done|]. eapply rep_next; [done| |reflexivity|exact Hrep]. intros ? _. by apply written_sub.
Qed.

(** The batch is written. *)
Lemma trie_rep_written Q st st' (t : Trie) m :
  st ⊆ st' → written Q st' → trie_rep Q st t m → trie_rep [] st' t m.
Proof.
  intros Hsub Hw [Hep Hrep]. split; [done|]. eapply rep_next; [done| |done|exact Hrep].
  intros st2 Hst2 _ h d Hin. eapply lookup_weaken; [by apply Hw|done].
Qed.

Lemma Txn_rep Q st (t : Trie) m :
  tr_epoch t + 1 < 2 ^ 32 → trie_rep Q st t m → txn_rep Q (trie_Txn st t) m.
Proof.
  intros Hlt [Hep Hrep]. split; simpl; [apply Z.mod_pos_bound; lia|]. by rewrite Z.mod_small by lia.
Qed.

Lemma Get_rep Q st (t : Trie) m k :
  tr_epoch t + 1 < 2 ^ 32 → trie_rep Q st t m → Forall byte_range k →
  ∃ t' : Trie, trie_Get st t k = Ret (m !! k, t') ∧ trie_rep Q st t' m ∧ tr_epoch t' = tr_epoch t.
Proof.
  intros Hlt Hrep Hk. destruct (Lookup_rep Q (trie_Txn st t) m k (Txn_rep _ _ _ _ Hlt Hrep) Hk) as (root & E & [_ Hr]).
  unfold trie_Get. rewrite E. cbn [obind tt_root]. eexists. split; [done|]. split; [|done].
  destruct Hrep as [Hep _]. split; [done|]. cbn in *. by rewrite Z.mod_small in Hr by lia.
Qed.

Lemma NewTrie_rep Q st : trie_rep Q st NewTrie ∅.
Proof. split; [done|]. by apply rep_None. Qed.

Lemma stored_mono st st' root m : st ⊆ st' → stored st root m → stored st' root m.
Proof.
  intros Hsub [?|(n & Hl & Hr & Hrep)]; [by left|right]. exists n. split; [by eapply load_mono|]. split; [done|].
  eapply rep_next; [done| |done|exact Hrep]. intros ? _ _ ? ? Hin. by apply elem_of_nil in Hin.
Qed.

(** The map under a root. *)
Lemma stored_inj st root m m' :
  st !! emptyRoot = None → stored st root m → stored st root m' → m = m'.
Proof.
  assert (∀ Q ep n m1 m2 k v, root_rep Q st ep (Some n) m1 → root_rep Q st ep (Some n) m2 →
    m1 !! k = Some v → m2 !! k = Some v) as Hincl.
  { intros Q ep n m1 m2 k v H1' H2' Hk. pose proof (rr_keys _ _ _ _ _ H1' k v Hk) as Hb.
    apply (rep_lookup _ _ _ _ _ _ _ H2' Hb), (rep_lookup _ _ _ _ _ _ _ H1' Hb), Hk. }
  intros He [[-> ->]|(n & Hl & _ & Hrep)] [[-> Hroot]|(n' & Hl' & _ & Hrep')].
  - done.
  - unfold load, GetNode in Hl'. simpl in Hl'. by rewrite He in Hl'.
  - subst. unfold load, GetNode in Hl. simpl in Hl. by rewrite He in Hl.
  - rewrite Hl in Hl'. simplify_eq. apply map_eq. intros k. apply option_eq. intros v. split; by eapply Hincl.
Qed.

(** Reading a stored root. *)
Lemma stored_GetNode st root m :
  root ≠ emptyRoot → stored st root m →
  ∃ n, GetNode root st = Ret (Ok (Some n)) ∧ trie_rep [] st (mkTrie (Some n) 0) m.
Proof.
  intros Hne [[_ ?]|(n & Hl & _ & Hrep)]; [done|]. exists n. split; [|by split].
  unfold load in Hl. simpl in Hl. destruct (GetNode root st) as [[]| |]; cbn in Hl; try done. congruence.
Qed.
(** ** Runs of operations *)

Inductive trie_op :=
| OpLookup (k : bytes)
| OpInsert (k v : bytes)
| OpDelete (k : bytes).

(** The answers of the lookups, and the transaction at the end. *)
Fixpoint run_ops (ops : list trie_op) t : outcome (list (option bytes) * TrieTxn) :=
  match ops with
  | [] => Ret ([], t)
  | OpLookup k :: ops =>
      let~ (r, t) := txn_Lookup t k in let~ (rs, t) := run_ops ops t in Ret (r :: rs, t)
  | OpInsert k v :: ops => let~ t := txn_Insert k v t in run_ops ops t
  | OpDelete k :: ops => let~ t := txn_Delete k t in run_ops ops t
  end.

(** The same on a map. *)
Fixpoint map_ops (ops : list trie_op) m : list (option bytes) * gmap (list Z) (list Z) :=
  match ops with
  | [] => ([], m)
  | OpLookup k :: ops => let '(rs, m') := map_ops ops m in (m !! k :: rs, m')
  | OpInsert k v :: ops => map_ops ops (<[k := v]> m)
  | OpDelete k :: ops => map_ops ops (base.delete k m)
  end.

(** Keys of [len] bytes, and values that are not empty. *)
Definition op_ok (len : nat) (op : trie_op) : Prop :=
  match op with
  | OpLookup k => Forall byte_range k
  | OpInsert k v => Forall byte_range k ∧ length k = len ∧ v ≠ []
  | OpDelete k => Forall byte_range k ∧ length k = len
  end.

Definition keys_of_length (len : nat) m : Prop := ∀ k v, m !! k = Some v → length k = len.

Lemma run_ops_rep len ops Q t m :
  Forall (op_ok len) ops → txn_rep Q t m → keys_of_length len m →
  ∃ t', run_ops ops t = Ret ((map_ops ops m).1, t') ∧ txn_rep Q t' (map_ops ops m).2 ∧
        keys_of_length len (map_ops ops m).2 ∧ tt_storage t' = tt_storage t.
Proof.
  intros Hops. revert t m. induction Hops as [|op ops Hop _ IH]; intros t m Hrep Hk; [by exists t|]. destruct op as [k|k v|k]; cbn.
  - destruct (Lookup_rep Q t m k Hrep Hop) as (root & -> & Hrep'). cbn [obind].
    destruct (IH _ m Hrep' Hk) as (t' & -> & ? & ? & ?). cbn [obind]. destruct (map_ops ops m). eexists. split; [done|]. done.
  - destruct Hop as (Hb & Hl & Hv). destruct (Insert_rep Q t m k v Hrep Hb Hv) as (t1 & -> & Hrep1 & _ & Hs). cbn [obind].
    destruct (IH t1 _ Hrep1) as (t' & -> & ? & ? & ?).
    { intros k' v' Hk'. rewrite lookup_insert in Hk'. case_decide; [by subst|eauto]. }
    exists t'. split_and!; try done. congruence.
  - destruct Hop as [Hb Hl]. destruct (Delete_rep Q t m k Hrep Hb) as (t1 & -> & Hrep1 & _ & Hs).
    { intros k' v Hv. by rewrite (Hk _ _ Hv), Hl. }
    cbn [obind]. destruct (IH t1 _ Hrep1) as (t' & -> & ? & ? & ?).
    { intros k' v' [_ Hk']%lookup_delete_Some. eauto. }
    exists t'. split_and!; try done. congruence.
Qed.

(** A new transaction of the empty trie. *)
Lemma newTxn_rep st : txn_rep [] (trie_Txn st NewTrie) ∅.
Proof. by apply Txn_rep, NewTrie_rep. Qed.

(** C6.  The trie is a map: from the empty trie, any run of [Lookup], [Insert] and
    [Delete] with keys of one length returns, and answers as the finite map
    does. *)
Theorem trie_refines_map len ops st :
  Forall (op_ok len) ops →
  ∃ t, run_ops ops (trie_Txn st NewTrie) = Ret ((map_ops ops ∅).1, t) ∧
       ∀ k, Forall byte_range k → ∃ t', txn_Lookup t k = Ret ((map_ops ops ∅).2 !! k, t').
Proof.
  intros Hops. destruct (run_ops_rep len ops [] _ ∅ Hops (newTxn_rep st)) as (t & E & Hrep & _ & _).
  { intros k v Hk. by rewrite lookup_empty in Hk. }
  exists t. split; [done|]. intros k Hk. destruct (Lookup_rep [] t _ k Hrep Hk) as (root & E' & _). eauto.
Qed.

(** C37.  The root is a function of the map: two runs that leave the same map, in
    whatever order and over whatever storage, hash to the same root, and two
    that hash alike with batches that agree leave the same map. *)
Theorem trie_root_of_map len ops1 ops2 st1 st2 t1 t2 rs1 rs2 :
  Forall (op_ok len) ops1 → Forall (op_ok len) ops2 →
  run_ops ops1 (trie_Txn st1 NewTrie) = Ret (rs1, t1) → run_ops ops2 (trie_Txn st2 NewTrie) = Ret (rs2, t2) →
  ∃ root1 root2 t1' t2' batch1 batch2,
    txn_Hash t1 = Ret (root1, t1', batch1) ∧ txn_Hash t2 = Ret (root2, t2', batch2) ∧
    ((map_ops ops1 ∅).2 = (map_ops ops2 ∅).2 → root1 = root2) ∧
    (∀ st, st1 ⊆ st → st2 ⊆ st → written batch1 st → written batch2 st → st !! emptyRoot = None →
       root1 = root2 → (map_ops ops1 ∅).2 = (map_ops ops2 ∅).2).
Proof.
  assert (keys_of_length len ∅) as Hk by (intros k v Hk; by rewrite lookup_empty in Hk).
  intros Ho1 Ho2 E1 E2.
  destruct (run_ops_rep len ops1 [] _ ∅ Ho1 (newTxn_rep st1) Hk) as (t & E & Hrep1 & _ & Hs1). rewrite E1 in E. simplify_eq.
  destruct (run_ops_rep len ops2 [] _ ∅ Ho2 (newTxn_rep st2) Hk) as (t' & E & Hrep2 & _ & Hs2). rewrite E2 in E. simplify_eq.
  destruct (Hash_rep _ _ _ Hrep1) as (r1 & b1 & -> & _ & _ & _ & Hst1).
  destruct (Hash_rep _ _ _ Hrep2) as (r2 & b2 & -> & _ & _ & _ & Hst2).
  do 6 eexists. split; [done|]. split; [done|]. split.
  - intros Em. rewrite Em in Hrep1. eapply root_canonical; [apply Hrep1|apply Hrep2].
  - intros st Hsub1 Hsub2 Hw1 Hw2 He Er. rewrite Hs1, Hs2 in *. eapply (stored_inj st); [done|by apply Hst1|]. rewrite Er. by apply Hst2.
Qed.
End rep.
