(* ===== verification/TrieState.v ===== *)
(** The state database: package [state/immutable-trie] over the trie
    ([state.go], [snapshot.go], [Trie.Commit]) and the accounts in it
    ([state/state.go]).

    A [State] is a storage and a cache of tries by their roots; a [Snapshot] is
    a trie of that state, so the operations take the state and return it.  A
    cached [*Trie] is shared: what [Get] loads into its nodes stays in them, but
    a node and what it loads hold the same keys, so the cache keeps the trie as
    it was added. *)
From S2P Require Import Prelude Types Runtime Crypto StateTxn Rlp Trie TrieSpec TrieHash TrieMap.

(** The loops whose body may panic. *)
Fixpoint ofold {A S} (f : A → S → outcome S) (l : list A) (s : S) : outcome S :=
  match l with
  | [] => Ret s
  | a :: l => let~ s := f a s in ofold f l s
  end.

(** ** Storages ([storage.go]) *)

(** [memStorage]: two maps; the hexadecimal keys are the bytes they spell. *)
Record storage := mkStorage {
  db : Storage;
  code : Storage;
}.

Definition NewMemoryStorage : storage := mkStorage ∅ ∅.
Definition Put (k v : bytes) (s : storage) : storage := mkStorage (<[k := v]> (db s)) (code s).
Definition sto_SetCode (hash : Hash) (c : bytes) (s : storage) : storage :=
  mkStorage (db s) (<[HashBytes hash := c]> (code s)).
Definition sto_GetCode (hash : Hash) (s : storage) : option bytes := code s !! HashBytes hash.

(** [KVStorage]: one database, the code under a prefix. *)
Definition codePrefix : bytes := [99; 111; 100; 101].
Definition kv_Put (k v : bytes) (kv : Storage) : Storage := <[k := v]> kv.
Definition kv_Get (k : bytes) (kv : Storage) : option bytes := kv !! k.
Definition kv_SetCode (hash : Hash) (c : bytes) : Storage → Storage := kv_Put (codePrefix ++ HashBytes hash) c.
Definition kv_GetCode (hash : Hash) : Storage → option bytes := kv_Get (codePrefix ++ HashBytes hash).

(** ** Accounts *)

(** [bytes.TrimLeft(b, "\x00")]. *)
Fixpoint trimLeft (b : bytes) : bytes :=
  match b with
  | [] => []
  | d :: b' => if d =? 0 then trimLeft b' else b
  end.

Definition acc_MarshalWith (a : Account) : rlp :=
  NewArray [NewUint (acc_Nonce a); NewBigInt (Some (acc_Balance a)); NewBytes (HashBytes (acc_Root a));
            NewBytes (HashBytes (acc_CodeHash a))].

Section state.
Context `{External} `{RlpReader} `{LRU}.

(** [Account.UnmarshalRlp]: [None] is an error.  The code hash, a slice in the
    code, is a [Hash] here: [Commit] writes the 32 bytes of one. *)
Definition acc_UnmarshalRlp (b : bytes) : option Account :=
  match Parse b with
  | Some (IArray (v0 :: v1 :: v2 :: v3 :: _)) =>
      nonce ← GetUint64 v0; balance ← GetBigInt v1; root ← GetBytesN 32 v2; codeHash ← GetBytes v3;
      Some (mkAcc nonce balance (BytesToHash root) (BytesToHash codeHash))
  | _ => None
  end.

Definition hashit (k : bytes) : bytes := HashBytes (Keccak256 k).

(** ** [State] *)

Record State := mkState {
  st_storage : storage;
  st_cache : cache Trie;
}.

Definition NewState (s : storage) : State := mkState s lru_New.

Definition state_SetCode (hash : Hash) (c : bytes) (s : State) : State :=
  mkState (sto_SetCode hash c (st_storage s)) (st_cache s).
Definition state_GetCode (hash : Hash) (s : State) : option bytes := sto_GetCode hash (st_storage s).

Definition AddState (root : Hash) (t : Trie) (s : State) : State :=
  mkState (st_storage s) (lru_Add root t (st_cache s)).

Definition newTrieAt (root : Hash) (s : State) : outcome (result trieErr Trie * State) :=
  if root =? emptyStateHash then Ret (Ok NewTrie, s)
  else
    match lru_Get root (st_cache s) with
    | (Some t, c) => Ret (Ok t, mkState (st_storage s) c)
    | (None, c) =>
        let s := mkState (st_storage s) c in
        let~ r := GetNode (HashBytes root) (db (st_storage s)) in
        Ret (match r with
             | Err e => Err e
             | Ok None => Err errStateNotFound
             | Ok (Some n) => Ok (mkTrie (Some n) 0)
             end, s)
    end.

Definition state_NewSnapshot : Trie := NewTrie.
Definition NewSnapshotAt : Hash → State → outcome (result trieErr Trie * State) := newTrieAt.

(** ** [Snapshot] *)

(** The value of a slot. *)
Definition slot_value (val : option bytes) : Hash :=
  match v ← val; Parse v ≫= GetBytes with
  | Some res => BytesToHash res
  | None => ZeroHash
  end.

Definition snapshot_GetStorage (root rawkey : Hash) (s : State) : outcome (Hash * State) :=
  let~ (r, s) := if root =? emptyStateHash then Ret (Ok NewTrie, s) else newTrieAt root s in
  match r with
  | Err _ => Ret (ZeroHash, s)
  | Ok trie =>
      let~ (val, _) := trie_Get (db (st_storage s)) trie (hashit (HashBytes rawkey)) in
      Ret (slot_value val, s)
  end.

(** The error is [None] within [Some]. *)
Definition snapshot_GetAccount (addr : Address) (trie : Trie) (s : State)
    : outcome (option (option Account) * Trie) :=
  let~ (data, trie) := trie_Get (db (st_storage s)) trie (hashit (AddressBytes addr)) in
  Ret (acc_UnmarshalRlp <$> data, trie).

(** ** [Trie.Commit] *)

Definition commit_entry (entry : Hash * option Hash) (localTxn : TrieTxn) : outcome TrieTxn :=
  let k := hashit (HashBytes entry.1) in
  match entry.2 with
  | None => txn_Delete k localTxn
  | Some val => txn_Insert k (MarshalTo (NewBytes (trimLeft (HashBytes val)))) localTxn
  end.

(** The root of the account's storage, and what joins the batch. *)
Definition commit_storage (obj : Object) (s : State) : outcome (Hash * State * list (bytes * bytes)) :=
  if bool_decide (ob_Storage obj = []) then Ret (acc_Root (ob_Account obj), s, [])
  else
    let~ (r, s) := newTrieAt (acc_Root (ob_Account obj)) s in
    match r with
    | Err _ => Panic
    | Ok trie =>
        let~ localTxn := ofold commit_entry (ob_Storage obj) (trie_Txn (db (st_storage s)) trie) in
        let~ (accountStateRoot, localTxn, puts) := txn_Hash localTxn in
        let root := BytesToHash accountStateRoot in
        Ret (root, AddState root (txn_Commit localTxn) s, puts)
    end.

Definition commit_obj (o : Address * Object) (acc : TrieTxn * State * list (bytes * bytes))
    : outcome (TrieTxn * State * list (bytes * bytes)) :=
  let '(addr, obj) := o in
  let '(tx, s, batch) := acc in
  if ob_Deleted obj then
    let~ tx := txn_Delete (hashit (AddressBytes addr)) tx in Ret (tx, s, batch)
  else
    let~ (root, s, puts) := commit_storage obj s in
    let account := mkAcc (acc_Nonce (ob_Account obj)) (acc_Balance (ob_Account obj)) root
                     (acc_CodeHash (ob_Account obj)) in
    let s := if ob_DirtyCode obj then state_SetCode (acc_CodeHash account) (ob_Code obj) s else s in
    let~ tx := txn_Insert (hashit (AddressBytes addr)) (MarshalTo (acc_MarshalWith account)) tx in
    Ret (tx, s, batch ++ puts).

(** The trie, its root, the state before the batch is written, and the batch. *)
Definition commit_batch (t : Trie) (objs : list (Address * Object)) (s : State)
    : outcome (Trie * bytes * State * list (bytes * bytes)) :=
  let~ (tx, s, batch) := ofold commit_obj objs (trie_Txn (db (st_storage s)) t, s, []) in
  let~ (root, tx, puts) := txn_Hash tx in
  Ret (txn_Commit tx, root, s, batch ++ puts).

Definition batch_Write (batch : list (bytes * bytes)) (s : State) : State :=
  mkState (mkStorage (write_batch batch (db (st_storage s))) (code (st_storage s))) (st_cache s).

Definition trie_Commit (t : Trie) (objs : list (Address * Object)) (s : State)
    : outcome (Trie * bytes * State) :=
  let~ (nTrie, root, s, batch) := commit_batch t objs s in
  Ret (nTrie, root, AddState (BytesToHash root) nTrie (batch_Write batch s)).
End state.
