(* ===== verification/TrieStateSpec.v ===== *)
(** Correctness of the state database: what a commit writes is what the
    snapshots of its root read, and the earlier roots keep what they held. *)
From S2P Require Import Prelude Types Runtime Crypto StateTxn Rlp Trie TrieSpec TrieHash TrieMap TrieState.

(** ** Updates of a map *)

Definition update (m : Storage) (u : bytes * option bytes) : Storage :=
  match u.2 with
  | None => base.delete u.1 m
  | Some v => <[u.1 := v]> m
  end.
Definition updates (us : list (bytes * option bytes)) (m : Storage) : Storage := foldl update m us.

Lemma update_ne m u k : u.1 ≠ k → update m u !! k = m !! k.
Proof. intros Hne. unfold update. case_match; [by apply lookup_insert_ne|by apply lookup_delete_ne]. Qed.

Lemma updates_other us m k : k ∉ us.*1 → updates us m !! k = m !! k.
Proof.
  revert m. induction us as [|u us IH]; intros m; [done|]. rewrite fmap_cons, not_elem_of_cons. intros [Hne Hk].
  cbn. fold (updates us (update m u)). by rewrite IH, update_ne.
Qed.

Lemma updates_in us m k o : NoDup us.*1 → (k, o) ∈ us → updates us m !! k = o.
Proof.
  revert m. induction us as [|u us IH]; intros m; [by intros _ ?%elem_of_nil|]. rewrite fmap_cons, NoDup_cons.
  intros [Hu Hnd] Hin. cbn. fold (updates us (update m u)). apply elem_of_cons in Hin as [<-|Hin]; [|by apply IH].
  rewrite updates_other by done. unfold update. destruct o as [v|]; simpl; [by rewrite lookup_insert_eq|by rewrite lookup_delete_eq].
Qed.

(** Stripping the zeros of a word and padding it again. *)
Lemma SetBytes_trimLeft b : SetBytes (trimLeft b) = SetBytes b.
Proof.
  induction b as [|d b IH]; [done|]. cbn [trimLeft]. destruct (Z.eqb_spec d 0) as [->|]; [|done]. by rewrite IH.
Qed.

Lemma length_trimLeft b : (length (trimLeft b) ≤ length b)%nat.
Proof. induction b as [|d b IH]; [done|]. cbn [trimLeft]. case_match; simpl in *; lia. Qed.

Lemma BytesToHash_trimLeft h : hash_ok h → BytesToHash (trimLeft (HashBytes h)) = h.
Proof.
  intros Hh. rewrite <- (BytesToHash_id h Hh) at 2. unfold BytesToHash.
  pose proof (length_trimLeft (HashBytes h)) as Hl. unfold HashBytes in *. rewrite length_be_bytes in *.
  replace (_ - HashLength)%nat with 0%nat by lia. rewrite Nat.sub_diag, !drop_0. apply SetBytes_trimLeft.
Qed.

#[local] Opaque HashBytes.

Section spec.
Context `{External} `{RlpReader} `{!RlpLaws} `{LRULaws}.
Implicit Types (Q : list (bytes * bytes)) (m M : Storage) (N : Z).

(** ** Storages *)

(** The one database of [KVStorage] does the work of the two maps: a node's key
    has 32 bytes, the key of a code has 36. *)
Definition kv_sim (kv : Storage) (s : storage) : Prop :=
  (∀ k, length k = 32%nat → kv_Get k kv = db s !! k) ∧ ∀ h, kv_GetCode h kv = sto_GetCode h s.

Lemma kv_Put_sim kv s k v : length k = 32%nat → kv_sim kv s → kv_sim (kv_Put k v kv) (Put k v s).
Proof.
  intros Hk [Hn Hc]. split.
  - intros k' Hk'. unfold kv_Get, kv_Put, Put in *. simpl. destruct (decide (k = k')) as [->|]; [by rewrite !lookup_insert_eq|].
    rewrite !lookup_insert_ne by done. by apply Hn.
  - intros h. unfold kv_GetCode, kv_Get, kv_Put. rewrite lookup_insert_ne; [apply Hc|].
    intros E. apply (f_equal length) in E. rewrite length_app, length_HashBytes, Hk in E. done.
Qed.

Lemma kv_SetCode_sim kv s h c : kv_sim kv s → kv_sim (kv_SetCode h c kv) (sto_SetCode h c s).
Proof.
  intros [Hn Hc]. split.
  - intros k Hk. unfold kv_SetCode, kv_Get, kv_Put. rewrite lookup_insert_ne; [by apply Hn|].
    intros E. apply (f_equal length) in E. rewrite length_app, length_HashBytes, Hk in E. done.
  - intros h'. specialize (Hc h'). unfold kv_GetCode, kv_SetCode, kv_Get, kv_Put, sto_GetCode, sto_SetCode in *. cbn [code].
    destruct (decide (HashBytes h = HashBytes h')) as [->|]; [by rewrite !lookup_insert_eq|].
    rewrite !lookup_insert_ne; [done|done|]. intros E. by apply (app_inv_head codePrefix) in E.
Qed.

(** ** Tries of the state *)

Definition keys32 m : Prop := ∀ k v, m !! k = Some v → length k = 32%nat.

(** The storage [st'] after a batch that holds [Q]. *)
Definition future Q (st st' : Storage) : Prop := st ⊆ st' ∧ written Q st' ∧ st' !! emptyRoot = None.

(** A cached trie holds what is stored under its root, as soon as the batch is
    written. *)
Definition cached_ok Q N (st : Storage) (root : Hash) (t : Trie) : Prop :=
  tr_epoch t ≤ N ∧
  ∃ m, trie_rep Q st t m ∧ keys32 m ∧ ∀ st', future Q st st' → stored st' (HashBytes root) m.

Definition cache_ok Q N (st : Storage) (c : cache Trie) : Prop := lru_all (cached_ok Q N st) c.

(** The state after at most [N] commits. *)
Record state_ok N (s : State) : Prop := {
  so_cache : cache_ok [] N (db (st_storage s)) (st_cache s);
  so_empty : db (st_storage s) !! emptyRoot = None;
  so_N : 0 ≤ N;
}.

Lemma future_sub Q Q' st st' : Q ⊆ Q' → future Q' st st' → future Q st st'.
Proof. intros Hsub (? & ? & ?). split_and!; try done. by eapply written_sub. Qed.

Lemma cache_ok_weaken Q Q' N N' st c : Q ⊆ Q' → N ≤ N' → cache_ok Q N st c → cache_ok Q' N' st c.
Proof.
  intros HQ HN Hc r t Ht. destruct (Hc r t Ht) as (He & m & Hrep & Hk & Hst). split; [lia|]. exists m.
  split; [by eapply trie_rep_weaken|]. split; [done|]. intros st' Hf. apply Hst. by eapply future_sub.
Qed.

Lemma emptyRoot_hash h : hash_ok h → HashBytes h = emptyRoot → h = emptyStateHash.
Proof. intros Hh. apply HashBytes_inj; [done|]. by unfold hash_ok. Qed.

(** [newTrieAt] at a stored root gives a trie of what is stored there. *)
Lemma newTrieAt_ok Q N s root m (st := db (st_storage s)) :
  cache_ok Q N st (st_cache s) → 0 ≤ N → hash_ok root → stored st (HashBytes root) m → keys32 m → st !! emptyRoot = None →
  ∃ t c, newTrieAt root s = Ret (Ok t, mkState (st_storage s) c) ∧ cache_ok Q N st c ∧ tr_epoch t ≤ N ∧
    ∃ m', trie_rep Q st t m' ∧ keys32 m' ∧ ∀ st', future Q st st' → m' = m.
Proof.
  intros Hc HN Hroot Hst Hk32 He. unfold newTrieAt. destruct (Z.eqb_spec root emptyStateHash) as [->|Hne].
  { exists NewTrie, (st_cache s). split; [by destruct s|]. split; [done|]. split; [done|]. exists ∅.
    split; [apply NewTrie_rep|]. split; [intros ? ? Hk; by rewrite lookup_empty in Hk|]. intros st' _.
    eapply (stored_inj st); [done| |exact Hst]. by left. }
  pose proof (lru_all_Get _ root _ Hc) as Hc'. pose proof (Hc root) as Hr.
  destruct (lru_Get root (st_cache s)) as [[t|] c]; cbn in Hc', Hr.
  - exists t, c. split; [done|]. split; [done|]. destruct (Hr t eq_refl) as (Hep & m' & Hrep & Hk' & Hst').
    split; [done|]. exists m'. split; [done|]. split; [done|]. intros st' Hf. pose proof Hf as (Hsub & _ & Hemp).
    eapply (stored_inj st'); [done|by apply Hst'|by eapply stored_mono].
  - destruct (stored_GetNode _ _ _ ltac:(by intros ?%emptyRoot_hash) Hst) as (n & Hg & Hrep).
    cbn [st_storage]. change (db (st_storage s)) with st. rewrite Hg. cbn [obind]. eexists _, c. split; [done|]. split; [done|]. split; [done|]. exists m.
    split; [|done]. eapply trie_rep_weaken; [|exact Hrep]. intros ? Hin. by apply elem_of_nil in Hin.
Qed.

(** ** The storage of an account *)

Definition slot_update (entry : Hash * option Hash) : bytes * option bytes :=
  (hashit (HashBytes entry.1), (λ v, MarshalTo (NewBytes (trimLeft (HashBytes v)))) <$> entry.2).

Lemma hashit_range k : Forall byte_range (hashit k).
Proof. apply HashBytes_range. Qed.
Lemma length_hashit k : length (hashit k) = 32%nat.
Proof. apply length_HashBytes. Qed.

Lemma keys32_update m u : keys32 m → length u.1 = 32%nat → keys32 (update m u).
Proof.
  intros Hm Hu k v. destruct (decide (u.1 = k)) as [<-|]; [done|]. rewrite update_ne by done. apply Hm.
Qed.

(** One step of either loop of [Commit] on its transaction. *)
Lemma txn_update Q t m k o (u := (hashit k, o)) :
  txn_rep Q t m → keys32 m → o ≠ Some [] →
  ∃ t', match o with None => txn_Delete (hashit k) t | Some v => txn_Insert (hashit k) v t end = Ret t' ∧
        txn_rep Q t' (update m u) ∧ keys32 (update m u) ∧ tt_epoch t' = tt_epoch t ∧ tt_storage t' = tt_storage t.
Proof.
  intros Hrep Hk Ho. destruct o as [v|].
  - destruct (Insert_rep Q t m (hashit k) v Hrep (hashit_range k) ltac:(congruence)) as (t' & E & Hrep' & ? & ?).
    exists t'. split_and!; try done. apply keys32_update; [done|apply length_hashit].
  - destruct (Delete_rep Q t m (hashit k) Hrep (hashit_range k)) as (t' & E & Hrep' & ? & ?).
    { intros k' v Hv. by rewrite (Hk _ _ Hv), length_hashit. }
    exists t'. split_and!; try done. apply keys32_update; [done|apply length_hashit].
Qed.

Lemma commit_entries_ok Q es t m :
  txn_rep Q t m → keys32 m →
  ∃ t', ofold commit_entry es t = Ret t' ∧ txn_rep Q t' (updates (slot_update <$> es) m) ∧
        keys32 (updates (slot_update <$> es) m) ∧ tt_epoch t' = tt_epoch t ∧ tt_storage t' = tt_storage t.
Proof.
  revert t m. induction es as [|[k o] es IH]; intros t m Hrep Hk; [by exists t|]. cbn [ofold].
  destruct (txn_update Q t m (HashBytes k) ((λ v, MarshalTo (NewBytes (trimLeft (HashBytes v)))) <$> o) Hrep Hk)
    as (t1 & E1 & Hrep1 & Hk1 & He1 & Hs1).
  { destruct o; [|done]. intros E%(inj Some). by apply MarshalTo_nonempty in E. }
  assert (commit_entry (k, o) t = Ret t1) as -> by (by destruct o). cbn [obind].
  destruct (IH t1 _ Hrep1 Hk1) as (t2 & E2 & Hrep2 & Hk2 & He2 & Hs2). exists t2. split; [done|]. rewrite He2, Hs2. done.
Qed.
(** [Hash] and [Commit] of a transaction, and the trie added to the cache. *)
Lemma hash_commit Q N t m c :
  txn_rep Q t m → keys32 m → tt_epoch t ≤ N → cache_ok Q N (tt_storage t) c →
  ∃ root t' puts, txn_Hash t = Ret (HashBytes root, t', puts) ∧ hash_ok root ∧ puts_ok puts ∧
    trie_rep (Q ++ puts) (tt_storage t) (txn_Commit t') m ∧ tr_epoch (txn_Commit t') ≤ N ∧
    cache_ok (Q ++ puts) N (tt_storage t) (lru_Add root (txn_Commit t') c) ∧
    ∀ st', future (Q ++ puts) (tt_storage t) st' → stored st' (HashBytes root) m.
Proof.
  intros Hrep Hk Hep Hc. destruct (Hash_rep Q t m Hrep) as (root & puts & E & Hok & Hrep' & _ & Hst).
  destruct (root_of_hash _ _ _ _ _ (proj2 Hrep)) as [z Hz].
  destruct (HashBytes_BytesToHash (HashBytes z) (length_HashBytes z) (HashBytes_range z)) as [Hid Hh].
  exists (BytesToHash (HashBytes z)). rewrite Hid, <- Hz. eexists _, puts. split; [done|]. split; [by rewrite Hz|]. split; [done|].
  assert (∀ st', future (Q ++ puts) (tt_storage t) st' → stored st' (root_of (tt_root t)) m) as Hfut.
  { intros st' (? & ? & _). by apply Hst. }
  split; [done|]. split; [done|]. split; [|done]. apply lru_all_Add.
  - apply (cache_ok_weaken Q _ N); [|done|done]. intros ? ?. apply elem_of_app. by left.
  - split; [done|]. exists m. split; [done|]. split; [done|]. by rewrite Hz, Hid, <- Hz.
Qed.

(** The trie of an account's storage gets the account's changes. *)
Lemma commit_storage_ok Q N s obj (st := db (st_storage s)) (old := acc_Root (ob_Account obj)) m :
  cache_ok Q N st (st_cache s) → 0 ≤ N → N + 1 < 2 ^ 32 → st !! emptyRoot = None →
  hash_ok old → stored st (HashBytes old) m → keys32 m →
  ∃ root c puts, commit_storage obj s = Ret (root, mkState (st_storage s) c, puts) ∧ hash_ok root ∧ puts_ok puts ∧
    cache_ok (Q ++ puts) (N + 1) st c ∧
    ∀ st', future (Q ++ puts) st st' → stored st' (HashBytes root) (updates (slot_update <$> ob_Storage obj) m).
Proof.
  intros Hc HN Hlt He Hroot Hst Hk. unfold commit_storage. change (acc_Root (ob_Account obj)) with old. case_bool_decide as Hes.
  { exists old, (st_cache s), []. rewrite app_nil_r. split; [by destruct s|]. split; [done|]. split; [constructor|].
    split; [by apply (cache_ok_weaken Q _ N); [|lia|]|]. rewrite Hes. intros st' (Hsub & _ & _). by eapply stored_mono. }
  destruct (newTrieAt_ok Q N s old m Hc HN Hroot Hst Hk He) as (t & c & -> & Hc' & Hep & m' & Hrep & Hk' & Heq).
  cbn [obind st_storage]. change (db (st_storage s)) with st.
  destruct (commit_entries_ok Q (ob_Storage obj) (trie_Txn st t) m') as (t1 & -> & Hrep1 & Hk1 & He1 & Hs1);
    [apply Txn_rep; [lia|done]|done|]. cbn [obind].
  assert (tt_epoch t1 ≤ N + 1) as Hep1.
  { rewrite He1. simpl. destruct Hrep as [? _]. rewrite Z.mod_small; lia. }
  destruct (hash_commit Q (N + 1) t1 _ c Hrep1 Hk1 Hep1) as (root & t2 & puts & -> & Hr & Hok & _ & _ & Hc2 & Hst2).
  { rewrite Hs1. apply (cache_ok_weaken Q _ N); [done|lia|done]. }
  cbn [obind]. rewrite BytesToHash_id by done. rewrite Hs1 in *. exists root. eexists _, puts. split; [done|].
  split; [done|]. split; [done|]. split; [done|]. intros st' Hf. specialize (Hst2 st' Hf).
  rewrite (Heq st') in Hst2; [done|]. eapply future_sub; [|exact Hf]. intros ? ?. apply elem_of_app. by left.
Qed.

(** ** [Commit] *)

(** An object that [Commit] can take: its storage root is stored. *)
Definition obj_ok (st : Storage) (o : Address * Object) : Prop :=
  ob_Deleted o.2 = false →
  hash_ok (acc_Root (ob_Account o.2)) ∧ ∃ m, stored st (HashBytes (acc_Root (ob_Account o.2))) m ∧ keys32 m.

Definition set_Root (root : Hash) (a : Account) : Account :=
  mkAcc (acc_Nonce a) (acc_Balance a) root (acc_CodeHash a).

(** What the object makes of its account, with the new storage root. *)
Definition acc_update (o : (Address * Object) * Hash) : bytes * option bytes :=
  (hashit (AddressBytes o.1.1),
   if ob_Deleted o.1.2 then None else Some (MarshalTo (acc_MarshalWith (set_Root o.2 (ob_Account o.1.2))))).

(** The new storage root of an object holds its changed storage. *)
Definition root_ok Q (st : Storage) (o : Address * Object) (root : Hash) : Prop :=
  ob_Deleted o.2 = false →
  hash_ok root ∧
  ∀ m st', stored st (HashBytes (acc_Root (ob_Account o.2))) m → keys32 m → future Q st st' →
    stored st' (HashBytes root) (updates (slot_update <$> ob_Storage o.2) m).

(** The codes an object leaves. *)
Definition code_update (cs : Storage) (o : Address * Object) : Storage :=
  if negb (ob_Deleted o.2) && ob_DirtyCode o.2
  then <[HashBytes (acc_CodeHash (ob_Account o.2)) := ob_Code o.2]> cs else cs.

Lemma root_ok_weaken Q Q' st o root : Q ⊆ Q' → root_ok Q st o root → root_ok Q' st o root.
Proof.
  intros HQ Ho Hd. destruct (Ho Hd) as [? Hst]. split; [done|]. intros m st' ? ? ?. apply Hst; try done. by eapply future_sub.
Qed.

(** The accumulator of the loop over the objects. *)
Record commit_inv Q N (st cs : Storage) (ep : Z) M (acc : TrieTxn * State * list (bytes * bytes)) : Prop := {
  ci_batch : acc.2 = Q;
  ci_puts : puts_ok Q;
  ci_db : st_storage acc.1.2 = mkStorage st cs;
  ci_cache : cache_ok Q N st (st_cache acc.1.2);
  ci_txn : txn_rep Q acc.1.1 M;
  ci_keys : keys32 M;
  ci_ttxn : tt_storage acc.1.1 = st ∧ tt_epoch acc.1.1 = ep;
}.
Lemma sub_app_l {A} (l k : list A) : l ⊆ l ++ k.
Proof. intros x Hx. apply elem_of_app. by left. Qed.

Lemma commit_obj_ok Q N st cs ep M acc o :
  commit_inv Q N st cs ep M acc → 0 ≤ N → N + 1 < 2 ^ 32 → st !! emptyRoot = None → obj_ok st o →
  ∃ acc' root puts, commit_obj o acc = Ret acc' ∧ root_ok (Q ++ puts) st o root ∧
    commit_inv (Q ++ puts) (N + 1) st (code_update cs o) ep (update M (acc_update (o, root))) acc'.
Proof.
  intros Hinv HN Hlt He Hobj. destruct o as [addr obj], acc as [[tx s] batch].
  destruct Hinv as [Hb Hok Hdb Hc Htx Hk [Hts Hte]]. cbn [fst snd] in *. subst batch.
  unfold commit_obj, acc_update, code_update, root_ok. cbn [fst snd]. destruct (ob_Deleted obj) eqn:Hdel.
  - destruct (txn_update Q tx M (AddressBytes addr) None Htx Hk) as (tx' & -> & Htx' & Hk' & He' & Hs'); [done|].
    cbn [obind negb andb]. eexists _, 0, []. rewrite app_nil_r. split; [done|]. split; [done|].
    split; cbn [fst snd]; try done; [by apply (cache_ok_weaken Q _ N); [|lia|]|by rewrite Hs', He'].
  - destruct (Hobj Hdel) as (Hroot & m & Hst & Hm). cbn [snd] in *.
    assert (db (st_storage s) = st) as Hdb' by (by rewrite Hdb). rewrite <- Hdb' in Hst, Hc, He.
    destruct (commit_storage_ok Q N s obj m Hc HN Hlt He Hroot Hst Hm) as (root & c & puts & -> & Hr & Hp & Hc' & Hst').
    cbn [obind]. rewrite Hdb' in *.
    assert (∀ m st', stored st (HashBytes (acc_Root (ob_Account obj))) m → keys32 m → future (Q ++ puts) st st' →
      stored st' (HashBytes root) (updates (slot_update <$> ob_Storage obj) m)) as Hall.
    { intros m2 st' Hst2 _ Hf. rewrite (stored_inj st _ m2 m He Hst2 Hst). by apply Hst'. }
    assert (txn_rep (Q ++ puts) tx M) as Htx1 by (eapply txn_rep_weaken; [apply sub_app_l|done]).
    destruct (txn_update _ tx M (AddressBytes addr) (Some (MarshalTo (acc_MarshalWith (set_Root root (ob_Account obj))))) Htx1 Hk)
      as (tx' & E & Htx' & Hk' & He' & Hs'); [intros E%(inj Some); by apply MarshalTo_nonempty in E|].
    unfold set_Root in E. rewrite E. cbn [obind]. eexists _, root, puts. split; [done|]. split; [by intros _|].
    split; cbn [fst snd]; try done; [by apply Forall_app| | |by rewrite Hs', He'].
    + cbn [negb andb]. destruct (ob_DirtyCode obj); cbn [st_storage state_SetCode]; rewrite Hdb; done.
    + by destruct (ob_DirtyCode obj).
Qed.
Lemma commit_objs_ok objs Q N st cs ep M acc :
  commit_inv Q N st cs ep M acc → 0 ≤ N → N + Z.of_nat (length objs) < 2 ^ 32 → st !! emptyRoot = None →
  Forall (obj_ok st) objs →
  ∃ acc' roots Q', ofold commit_obj objs acc = Ret acc' ∧ Q ⊆ Q' ∧ Forall2 (root_ok Q' st) objs roots ∧
    commit_inv Q' (N + Z.of_nat (length objs)) st (foldl code_update cs objs) ep
      (updates (acc_update <$> zip objs roots) M) acc'.
Proof.
  intros Hinv HN Hlt He Hobjs. revert Q N cs M acc Hinv HN Hlt.
  induction Hobjs as [|o objs Ho _ IH]; intros Q N cs M acc Hinv HN Hlt; cbn [ofold].
  { exists acc, [], Q. rewrite Z.add_0_r. split; [done|]. split; [done|]. split; [constructor|done]. }
  cbn [length] in *.
  destruct (commit_obj_ok Q N st cs ep M acc o Hinv HN ltac:(lia) He Ho) as (acc1 & root & puts & -> & Hr & Hinv1). cbn [obind].
  destruct (IH _ _ _ _ _ Hinv1 ltac:(lia) ltac:(lia)) as (acc2 & roots & Q' & -> & HQ & Hrs & Hinv2).
  exists acc2, (root :: roots), Q'. split; [done|]. split; [etrans; [apply sub_app_l|exact HQ]|].
  split; [constructor; [by eapply root_ok_weaken|done]|].
  replace (N + Z.of_nat (S (length objs))) with (N + 1 + Z.of_nat (length objs)) by lia. exact Hinv2.
Qed.

(** No hash of the batch is that of another value, or of the empty trie. *)
Definition collision_free Q (st : Storage) : Prop := coherent Q st ∧ ∀ d, (emptyRoot, d) ∉ Q.

Lemma write_future Q st : collision_free Q st → st !! emptyRoot = None → future Q st (write_batch Q st).
Proof.
  intros [Hco Hno] He. destruct (write_batch_written Q st Hco) as [Hsub Hw]. split; [done|]. split; [done|].
  destruct (write_batch Q st !! emptyRoot) as [d|] eqn:E; [|done].
  apply write_batch_lookup in E as [E|E]; [by destruct (Hno d)|congruence].
Qed.

(** [Commit] returns, and once the batch is written: the state is well formed,
    the account trie holds the objects' accounts under the root, and the new
    storage roots hold the objects' storage. *)
Lemma commit_ok N s t M objs (st := db (st_storage s)) :
  state_ok N s → trie_rep [] st t M → keys32 M → tr_epoch t ≤ N → N + Z.of_nat (length objs) + 1 < 2 ^ 32 →
  Forall (obj_ok st) objs →
  ∃ nTrie root s1 batch, commit_batch t objs s = Ret (nTrie, HashBytes root, s1, batch) ∧ hash_ok root ∧ puts_ok batch ∧
    db (st_storage s1) = st ∧ code (st_storage s1) = foldl code_update (code (st_storage s)) objs ∧
    (collision_free batch st →
     let s' := AddState root nTrie (batch_Write batch s1) in let st' := db (st_storage s') in
     state_ok (N + Z.of_nat (length objs) + 1) s' ∧ future batch st st' ∧
     ∃ roots, let M' := updates (acc_update <$> zip objs roots) M in
       trie_rep [] st' nTrie M' ∧ tr_epoch nTrie ≤ N + Z.of_nat (length objs) + 1 ∧ stored st' (HashBytes root) M' ∧
       keys32 M' ∧ Forall2 (root_ok batch st) objs roots).
Proof.
  intros Hs Ht HM Hep Hlt Hobjs. pose proof Hs as [Hc He HN]. fold st in Hc, He. unfold commit_batch. change (db (st_storage s)) with st.
  destruct (commit_objs_ok objs [] N st (code (st_storage s)) (tr_epoch t + 1) M (trie_Txn st t, s, [])) as
    ([[tx s1] batch] & roots & Q & -> & _ & Hroots & [Hb Hok Hdb Hc1 Htx Hk1 [Hts Hte]]); try done; [|lia|].
  { split; cbn [fst snd]; try done; [constructor|by destruct s as [[]]|apply Txn_rep; [lia|done]|].
    split; [done|]. simpl. destruct Ht as [? _]. rewrite Z.mod_small; lia. }
  cbn [obind fst snd] in *. subst batch.
  destruct (hash_commit Q (N + Z.of_nat (length objs) + 1) tx _ (st_cache s1) Htx Hk1 ltac:(lia))
    as (root & tx' & puts & -> & Hr & Hp & Hrep & Hep' & Hcache & Hst).
  { rewrite Hts. apply (cache_ok_weaken Q _ (N + Z.of_nat (length objs))); [done|lia|done]. }
  cbn [obind]. rewrite Hts in *. eexists _, root, s1, (Q ++ puts). split; [done|]. split; [done|].
  split; [by apply Forall_app|]. rewrite Hdb. split; [done|]. split; [done|]. intros Hcf. cbn [AddState batch_Write st_storage st_cache db].
  rewrite Hdb. cbn [db]. pose proof (write_future _ _ Hcf He) as Hf. pose proof Hf as (Hsub & Hw & He').
  split; [|split; [done|]].
  - split; cbn [AddState batch_Write st_storage st_cache db]; rewrite ?Hdb; cbn [db]; [|done|lia]. intros r t' Ht'.
    destruct (Hcache r t' Ht') as (He2 & m & Hrep2 & Hk2 & Hst2). split; [done|]. exists m.
    split; [by eapply trie_rep_written|]. split; [done|]. intros st2 (Hsub2 & _ & He3). eapply stored_mono; [exact Hsub2|]. by apply Hst2.
  - exists roots. split; [by eapply trie_rep_written|]. split; [done|]. split; [by apply Hst|]. split; [done|].
    eapply Forall2_impl; [exact Hroots|]. intros. eapply root_ok_weaken; [apply sub_app_l|done].
Qed.
(** ** Reading *)

Definition acc_ok (a : Account) : Prop :=
  is_u64 (acc_Nonce a) ∧ 0 ≤ acc_Balance a ∧ hash_ok (acc_Root a) ∧ hash_ok (acc_CodeHash a).

Lemma UnmarshalRlp_MarshalWith a : acc_ok a → acc_UnmarshalRlp (MarshalTo (acc_MarshalWith a)) = Some a.
Proof.
  intros (Hn & Hb & Hr & Hc). unfold acc_UnmarshalRlp, acc_MarshalWith. rewrite Parse_MarshalTo.
  cbn [item_of fmap list_fmap]. rewrite GetUint64_Bytes, GetBigInt_Bytes by done. cbn [mbind option_bind].
  rewrite <- (length_HashBytes (acc_Root a)) at 1. rewrite GetBytesN_IBytes, GetBytes_IBytes. cbn [mbind option_bind].
  rewrite !BytesToHash_id by done. by destruct a.
Qed.

Lemma slot_value_MarshalTo v : hash_ok v → slot_value (Some (MarshalTo (NewBytes (trimLeft (HashBytes v))))) = v.
Proof.
  intros Hv. unfold slot_value. cbn [mbind option_bind]. rewrite Parse_MarshalTo. cbn [item_of mbind option_bind].
  rewrite GetBytes_IBytes. by apply BytesToHash_trimLeft.
Qed.

(** A snapshot of the state, and a storage root of it. *)
Definition snapshot_ok N (s : State) (t : Trie) : Prop :=
  ∃ M, trie_rep [] (db (st_storage s)) t M ∧ keys32 M ∧ tr_epoch t ≤ N.
Definition root_stored (s : State) (root : Hash) : Prop :=
  hash_ok root ∧ ∃ m, stored (db (st_storage s)) (HashBytes root) m ∧ keys32 m.

(** What a snapshot says of an account, and the state of a slot. *)
Definition account_at (s : State) (t : Trie) (addr : Address) (a : option Account) : Prop :=
  ∃ t', snapshot_GetAccount addr t s = Ret (Some <$> a, t').
Definition slot_at (s : State) (root key v : Hash) : Prop :=
  ∃ s', snapshot_GetStorage root key s = Ret (v, s').

Lemma GetAccount_rep N s t M addr :
  trie_rep [] (db (st_storage s)) t M → tr_epoch t ≤ N → N + 1 < 2 ^ 32 →
  ∃ t', snapshot_GetAccount addr t s = Ret (acc_UnmarshalRlp <$> M !! hashit (AddressBytes addr), t').
Proof.
  intros Hrep Hep Hlt. unfold snapshot_GetAccount.
  destruct (Get_rep _ _ t M (hashit (AddressBytes addr)) ltac:(lia) Hrep (hashit_range _)) as (t' & -> & _ & _).
  by exists t'.
Qed.

Lemma GetStorage_rep N s root key m :
  state_ok N s → N + 1 < 2 ^ 32 → hash_ok root → stored (db (st_storage s)) (HashBytes root) m → keys32 m →
  slot_at s root key (slot_value (m !! hashit (HashBytes key))).
Proof.
  intros [Hc He HN] Hlt Hr Hst Hk. unfold slot_at, snapshot_GetStorage.
  assert ((if root =? emptyStateHash then Ret (Ok NewTrie, s) else newTrieAt root s) = newTrieAt root s) as ->.
  { unfold newTrieAt. by destruct (root =? emptyStateHash). }
  destruct (newTrieAt_ok [] N s root m Hc HN Hr Hst Hk He) as (t & c & -> & _ & Hep & m' & Hrep & _ & Heq). cbn [obind st_storage].
  assert (m' = m) as ->.
  { apply (Heq (db (st_storage s))). split; [done|]. split; [|done]. intros ? ? Hin. by apply elem_of_nil in Hin. }
  destruct (Get_rep _ _ t m (hashit (HashBytes key)) ltac:(lia) Hrep (hashit_range _)) as (t' & -> & _ & _).
  by eexists.
Qed.

Lemma slot_at_inj s root key v v' : slot_at s root key v → slot_at s root key v' → v = v'.
Proof. intros [? E] [? E']. congruence. Qed.
(** ** What a commit leaves *)

Definition addr_hash (o : Address * Object) : bytes := hashit (AddressBytes o.1).
Definition slot_hash (e : Hash * option Hash) : bytes := hashit (HashBytes e.1).

(** The objects of a [Txn]: no two addresses or slots hash alike. *)
Record objs_ok (s : State) (objs : list (Address * Object)) : Prop := {
  oo_addrs : NoDup (addr_hash <$> objs);
  oo_root o : o ∈ objs → ob_Deleted o.2 = false → root_stored s (acc_Root (ob_Account o.2));
  oo_acc o : o ∈ objs → ob_Deleted o.2 = false → acc_ok (ob_Account o.2);
  oo_slots o : o ∈ objs → ob_Deleted o.2 = false → NoDup (slot_hash <$> ob_Storage o.2);
  oo_vals o k v : o ∈ objs → ob_Deleted o.2 = false → (k, Some v) ∈ ob_Storage o.2 → hash_ok v;
}.

(** The account of [obj] in the snapshot [t] of [s]: its fields, its changed
    slots, and the others as they were under the old root in [s0]. *)
Definition account_written (s0 s : State) (t : Trie) (o : Address * Object) : Prop :=
  if ob_Deleted o.2 then account_at s t o.1 None
  else
    ∃ root, root_stored s root ∧ account_at s t o.1 (Some (set_Root root (ob_Account o.2))) ∧
      (∀ k v, (k, v) ∈ ob_Storage o.2 → slot_at s root k (default ZeroHash v)) ∧
      (∀ k v, hashit (HashBytes k) ∉ slot_hash <$> ob_Storage o.2 →
         slot_at s0 (acc_Root (ob_Account o.2)) k v → slot_at s root k v).

(** The snapshot [t] of [s] is the snapshot [t0] of [s0] with the objects. *)
Record committed (s0 : State) (t0 : Trie) (objs : list (Address * Object)) (s : State) (t : Trie) : Prop := {
  cm_objs : Forall (account_written s0 s t) objs;
  cm_others a r : hashit (AddressBytes a) ∉ addr_hash <$> objs → account_at s0 t0 a r → account_at s t a r;
  cm_roots r : root_stored s0 r → root_stored s r ∧ ∀ k v, slot_at s0 r k v → slot_at s r k v;
}.

Lemma root_stored_future N N' Q s s' r :
  state_ok N s → N + 1 < 2 ^ 32 → state_ok N' s' → N' + 1 < 2 ^ 32 → future Q (db (st_storage s)) (db (st_storage s')) →
  root_stored s r → root_stored s' r ∧ ∀ k v, slot_at s r k v → slot_at s' r k v.
Proof.
  intros Hs HN Hs' HN' (Hsub & _ & _) (Hr & m & Hst & Hk). pose proof (stored_mono _ _ _ _ Hsub Hst) as Hst'.
  split; [split; [done|]; by exists m|]. intros k v Hv.
  rewrite (slot_at_inj _ _ _ _ _ Hv (GetStorage_rep N s r k m Hs HN Hr Hst Hk)). by eapply GetStorage_rep.
Qed.

Lemma slot_update_fst es : (slot_update <$> es).*1 = slot_hash <$> es.
Proof. rewrite <- list_fmap_compose. done. Qed.

(** The storage under the new root of an object. *)
Lemma storage_written N N' Q s s' o root :
  state_ok N s → N + 1 < 2 ^ 32 → state_ok N' s' → N' + 1 < 2 ^ 32 → future Q (db (st_storage s)) (db (st_storage s')) →
  ob_Deleted o.2 = false → root_ok Q (db (st_storage s)) o root → root_stored s (acc_Root (ob_Account o.2)) →
  NoDup (slot_hash <$> ob_Storage o.2) → (∀ k v, (k, Some v) ∈ ob_Storage o.2 → hash_ok v) →
  root_stored s' root ∧
  (∀ k v, (k, v) ∈ ob_Storage o.2 → slot_at s' root k (default ZeroHash v)) ∧
  (∀ k v, hashit (HashBytes k) ∉ slot_hash <$> ob_Storage o.2 →
     slot_at s (acc_Root (ob_Account o.2)) k v → slot_at s' root k v).
Proof.
  intros Hs HN Hs' HN' Hf Hdel Hro (Hold & m & Hst & Hk) Hnd Hvals. destruct (Hro Hdel) as [Hr Hroot].
  specialize (Hroot m _ Hst Hk Hf). set (m' := updates _ m) in *.
  assert (keys32 m') as Hk'.
  { subst m'. clear -Hk. revert m Hk. induction (ob_Storage o.2) as [|e es IH]; intros m Hk; [done|].
    apply IH. apply keys32_update; [done|apply length_hashit]. }
  assert (∀ k, slot_at s' root k (slot_value (m' !! hashit (HashBytes k)))) as Hread.
  { intros k. by eapply GetStorage_rep. }
  split; [split; [done|]; by exists m'|]. split.
  - intros k v Hin. specialize (Hread k). subst m'.
    rewrite (updates_in _ _ _ (slot_update (k, v)).2) in Hread; [|by rewrite slot_update_fst|].
    + destruct v as [v|]; [|done]. unfold slot_update in Hread. cbn [snd fmap option_fmap option_map] in Hread.
      rewrite slot_value_MarshalTo in Hread by eauto. done.
    + apply list_elem_of_fmap. by exists (k, v).
  - intros k v Hk2 Hv. specialize (Hread k). subst m'. rewrite updates_other in Hread by (by rewrite slot_update_fst).
    by rewrite (slot_at_inj _ _ _ _ _ Hv (GetStorage_rep N s _ k m Hs HN Hold Hst Hk)).
Qed.
Lemma zip_fst_hash (objs : list (Address * Object)) roots :
  length objs = length roots → (acc_update <$> zip objs roots).*1 = addr_hash <$> objs.
Proof.
  revert roots. induction objs as [|o objs IH]; intros [|r roots] Hl; try done. cbn in *. f_equal. apply IH. lia.
Qed.

(** Any trie of the new account map is the commit of the objects. *)
Lemma committed_intro N N' Q s s' t M objs roots t' :
  state_ok N s → N + 1 < 2 ^ 32 → state_ok N' s' → N' + 1 < 2 ^ 32 → future Q (db (st_storage s)) (db (st_storage s')) →
  trie_rep [] (db (st_storage s)) t M → tr_epoch t ≤ N → objs_ok s objs →
  Forall2 (root_ok Q (db (st_storage s))) objs roots →
  trie_rep [] (db (st_storage s')) t' (updates (acc_update <$> zip objs roots) M) → tr_epoch t' ≤ N' →
  committed s t objs s' t'.
Proof.
  intros Hs HN Hs' HN' Hf Ht Hep Hobjs Hroots Ht' Hep'. pose proof (Forall2_length _ _ _ Hroots) as Hlen.
  set (M' := updates _ M) in *.
  assert (∀ a r, acc_UnmarshalRlp <$> M' !! hashit (AddressBytes a) = Some <$> r → account_at s' t' a r) as Hread.
  { intros a r E. destruct (GetAccount_rep N' s' t' M' a Ht' Hep' HN') as (t2 & E2). exists t2. by rewrite E2, E. }
  assert (NoDup (acc_update <$> zip objs roots).*1) as Hnd by (rewrite zip_fst_hash by done; apply Hobjs).
  split.
  - apply Forall_lookup. intros i o Ho. pose proof (list_elem_of_lookup_2 _ _ _ Ho) as Hin.
    destruct (Forall2_lookup_l _ _ _ _ _ Hroots Ho) as (root & Hr & Hro).
    assert (M' !! hashit (AddressBytes o.1) = (acc_update (o, root)).2) as HM.
    { apply updates_in; [done|]. apply list_elem_of_fmap. exists (o, root). split; [done|].
      apply list_elem_of_lookup. exists i. rewrite lookup_zip_with. cbn. by rewrite Ho, Hr. }
    unfold account_written. unfold acc_update in HM. cbn [fst snd] in HM. destruct (ob_Deleted o.2) eqn:Hdel.
    { apply Hread. by rewrite HM. }
    exists root. destruct (storage_written N N' Q s s' o root) as (Hst & Hin' & Hout); try done;
      [by apply (oo_root _ _ Hobjs)|by apply (oo_slots _ _ Hobjs)|intros; by eapply (oo_vals _ _ Hobjs)|].
    split; [done|]. split; [|done]. apply Hread. rewrite HM. cbn [fmap option_fmap option_map].
    rewrite UnmarshalRlp_MarshalWith; [done|]. destruct (oo_acc _ _ Hobjs o Hin Hdel) as (? & ? & _ & ?).
    split; [done|]. split; [done|]. split; [apply Hst|done].
  - intros a r Ha [t1 E]. apply Hread. subst M'. rewrite updates_other by (by rewrite zip_fst_hash).
    destruct (GetAccount_rep N s t M a Ht Hep HN) as (t2 & E2). congruence.
  - intros r Hr. by eapply root_stored_future.
Qed.

(** [Commit], its root, and the snapshots at that root. *)
Lemma Commit_committed N s t objs (N' := N + Z.of_nat (length objs) + 1) :
  state_ok N s → snapshot_ok N s t → N' + 1 < 2 ^ 32 → objs_ok s objs →
  ∃ nTrie root s1 batch, commit_batch t objs s = Ret (nTrie, HashBytes root, s1, batch) ∧
    code (st_storage s1) = foldl code_update (code (st_storage s)) objs ∧
    (collision_free batch (db (st_storage s)) →
     let s' := AddState root nTrie (batch_Write batch s1) in
     trie_Commit t objs s = Ret (nTrie, HashBytes root, s') ∧ state_ok N' s' ∧ root_stored s' root ∧
     snapshot_ok N' s' nTrie ∧ committed s t objs s' nTrie ∧
     ∃ t' c, NewSnapshotAt root s' = Ret (Ok t', mkState (st_storage s') c) ∧ snapshot_ok N' s' t' ∧
       committed s t objs s' t').
Proof.
  intros Hs (M & Ht & HM & Hep) Hlt Hobjs. subst N'. pose proof (so_N _ _ Hs) as HN.
  destruct (commit_ok N s t M objs Hs Ht HM Hep ltac:(lia)) as (nTrie & root & s1 & batch & E & Hr & _ & _ & Hcode & Hpost).
  { apply Forall_forall. intros o Hin Hdel. destruct (oo_root _ _ Hobjs o Hin Hdel) as [? ?]. done. }
  exists nTrie, root, s1, batch. split; [done|]. split; [done|]. intros Hcf. destruct (Hpost Hcf) as (Hs' & Hf & roots & Hn & Hepn & Hst & HM' & Hroots).
  set (s' := AddState _ _ _) in *. assert (trie_Commit t objs s = Ret (nTrie, HashBytes root, s')) as HC.
  { unfold trie_Commit. rewrite E. cbn [obind]. by rewrite BytesToHash_id. }
  split; [done|]. split; [done|]. split; [split; [done|]; eauto|].
  destruct Hs' as [Hc He HN'].
  destruct (newTrieAt_ok [] _ s' root _ Hc HN' Hr Hst HM' He) as (t' & c & E' & _ & Hep' & m' & Hrep' & Hk' & Heq).
  rewrite (Heq (db (st_storage s'))) in Hrep', Hk' by (split; [done|]; split; [by intros ? ? ?%elem_of_nil|done]).
  split; [by eexists|]. split; [eapply (committed_intro N); try done; lia|].
  exists t', c. split; [done|]. split; [by eexists|]. eapply (committed_intro N); try done; lia.
Qed.
End spec.
