(* ===== verification/StateCommit.v ===== *)
(** A block's state, committed and read again: the [Txn] of [StateTxn] over a
    snapshot of [TrieState]. *)
From S2P Require Import Prelude Types Runtime Crypto StateTxn StateTxnSpec Rlp Trie TrieSpec TrieHash TrieMap TrieState TrieStateSpec.

Section adaptor.
Context `{External} `{RlpReader} `{LRU} `{FinMap Z RT}.

(** [itrie.Snapshot] as the [readSnapshot] of a [Txn] that works on the accounts
    [D].  Reading changes nothing but the order of the cache. *)
Definition to_snapshot (D : list Address) (s : State) (t : Trie) : readSnapshot (RT:=RT) := {|
  snap_accounts :=
    list_to_map (omap (λ a, match snapshot_GetAccount a t s with
                            | Ret (Some (Some acc), _) => Some (a, acc)
                            | _ => None
                            end) D);
  snap_GetStorage _ root key := match snapshot_GetStorage root key s with Ret (v, _) => v | _ => ZeroHash end;
  snap_GetCode hash := state_GetCode hash s;
|}.
End adaptor.

Section spec.
Context `{External} `{RlpReader} `{!RlpLaws} `{LRULaws} `{FinMap Z RT}.
Implicit Types (tx : Txn (RT:=RT)) (snap : readSnapshot (RT:=RT)) (o : StateObject (RT:=RT)) (r : radix (RT:=RT)).

(** ** The storage roots of the objects *)

Definition root_from snap (a : Address) (root : Hash) : Prop :=
  root = emptyStateHash ∨ ∃ acc, snap_accounts snap !! a = Some acc ∧ acc_Root acc = root.

Definition roots_ok snap r : Prop :=
  ∀ a o, objs r !! a = Some o → root_from snap a (acc_Root (o_Account o)).

(** The current tree and those of the open snapshots. *)
Record txn_roots snap tx : Prop := {
  tr_snap : snapshot tx = snap;
  tr_tree : roots_ok snap (txn tx);
  tr_trees : Forall (roots_ok snap) (snapshots tx);
}.

Lemma current_root snap tx a :
  txn_roots snap tx → root_from snap a (acc_Root (o_Account (default newStateObject (getStateObject a tx)))).
Proof.
  intros [Hs Ht _]. unfold getStateObject. destruct (objs (txn tx) !! a) as [o|] eqn:E.
  - destruct (o_Deleted o); [by left|]. exact (Ht a o E).
  - rewrite Hs. destruct (snap_accounts snap !! a) as [acc|] eqn:Ea; [|by left]. right. by exists acc.
Qed.

Lemma roots_objs snap tx tx' :
  txn_roots snap tx → snapshot tx' = snapshot tx → snapshots tx' = snapshots tx → objs (txn tx') = objs (txn tx) →
  txn_roots snap tx'.
Proof. intros [Hs Ht Htr] E1 E2 E3. split; [congruence|unfold roots_ok; by rewrite E3|by rewrite E2]. Qed.

Lemma roots_set_object snap tx a o :
  txn_roots snap tx → root_from snap a (acc_Root (o_Account o)) → txn_roots snap (set_object a o tx).
Proof.
  intros [Hs Ht Htr] Ho. split; [done| |done]. intros b ob. cbn.
  destruct (decide (a = b)) as [->|]; [rewrite lookup_insert_eq; by intros [= <-]|].
  rewrite lookup_insert_ne by done. apply Ht.
Qed.

(** A change that keeps the root, or gives the empty one. *)
Lemma roots_upsert snap tx a f :
  txn_roots snap tx → (∀ o, acc_Root (o_Account (f o)) = acc_Root (o_Account o) ∨ acc_Root (o_Account (f o)) = emptyStateHash) →
  txn_roots snap (upsertAccount a f tx).
Proof.
  intros Hok Hf. apply roots_set_object; [done|].
  destruct (Hf (default newStateObject (getStateObject a tx))) as [->| ->]; [by apply current_root|by left].
Qed.

Lemma step_roots snap tx tx' : txn_step tx tx' → txn_roots snap tx → txn_roots snap tx'.
Proof.
  destruct 1 as [a x t|a x t|a x t t' Hs|a x t|a ts d t|l t|t|g t|g t|a k v t|a k v cfg t|a t|a n t|a c t|a t|a t|a t|a t|d t|t|id t t' Hr];
    intros Hok; try (apply roots_upsert; [done|]; intros o; by left); try (by apply (roots_objs snap t)).
  - apply roots_upsert; [done|]. intros o. destruct (o_Suicide o); [by right|by left].
  - unfold SubBalance in Hs. repeat case_match; simplify_eq; [done|]. apply roots_upsert; [done|]. intros; by left.
  - unfold Logs. case_match; [by apply (roots_objs snap t)|done].
  - destruct (SetStorage_snapshots a k v cfg t) as (E1 & E2 & _), (SetStorage_tree a k v cfg t) as [E|E].
    + apply (roots_objs snap (SetState a k v t)); [|done..]. apply roots_upsert; [done|]. intros; by left.
    + by apply (roots_objs snap t).
  - destruct (GetCode_tree a t) as (E1 & E2 & E3). apply (roots_objs snap t); [done..|by rewrite E3].
  - unfold Suicide. destruct (getStateObject a t) as [o|] eqn:E; [|done]. apply roots_set_object; [done|].
    pose proof (current_root snap t a Hok) as Hr. by rewrite E in Hr.
  - unfold CreateAccount. apply roots_set_object; [done|]. left. by destruct (getStateObject a t).
  - destruct Hok as [Hs Ht Htr]. split; [done| |done]. intros a o. cbn. rewrite lookup_fmap.
    destruct (objs (txn t) !! a) as [o'|] eqn:E; [|done]. intros [= <-].
    specialize (Ht a o' E). unfold mark_deleted. by case_match.
  - destruct Hok as [Hs Ht Htr]. split; [done|done|]. cbn. apply Forall_app. split; [done|by constructor].
  - unfold RevertToSnapshot in Hr. destruct (snapshots t !! id) as [tree|] eqn:E; [|done]. cbn in Hr. simplify_eq.
    destruct Hok as [Hs Ht Htr]. split; [done| |done]. cbn. by eapply Forall_lookup_1.
Qed.

Lemma steps_roots snap tx : rtc txn_step (newTxn snap) tx → txn_roots snap tx.
Proof.
  intros Hst. assert (txn_roots snap (newTxn snap)) as Hnew.
  { split; [done| |constructor]. intros a o. cbn. by rewrite lookup_empty. }
  revert Hnew. induction Hst as [|t1 t2 t3 Hs _ IH]; [done|]. intros H1'. by eapply IH, step_roots.
Qed.
(** ** Snapshots as a [Txn] reads them *)

(** The accounts [D] of a snapshot are well formed, and their storage is stored. *)
Definition sane (D : list Address) (s : State) (t : Trie) : Prop :=
  ∀ a, a ∈ D → ∃ acc, account_at s t a acc ∧ ∀ x, acc = Some x → acc_ok x ∧ root_stored s (acc_Root x).

Lemma to_snapshot_account D s t a acc :
  a ∈ D → account_at s t a acc → snap_accounts (to_snapshot (RT:=RT) D s t) !! a = acc.
Proof.
  intros Ha [t' E].
  assert (snap_accounts (to_snapshot (RT:=RT) D s t) !! a = if decide (a ∈ D) then acc else None) as ->; [|by rewrite decide_True].
  cbn [to_snapshot snap_accounts]. clear Ha. induction D as [|b D IH]; [cbn; by rewrite lookup_empty|]. cbn [omap list_omap].
  destruct (decide (a = b)) as [<-|Hne].
  - rewrite E, decide_True by (by left). destruct acc as [x|]; cbn [fmap option_fmap option_map].
    + cbn [list_to_map foldr]. cbn. by rewrite lookup_insert_eq.
    + rewrite IH. by destruct (decide (a ∈ D)).
  - rewrite (decide_ext (a ∈ b :: D) (a ∈ D)) by (rewrite elem_of_cons; naive_solver). rewrite <- IH.
    destruct (snapshot_GetAccount b t s) as [[[[y|]|] ?]| |]; try done. cbn. by rewrite lookup_insert_ne.
Qed.

Lemma to_snapshot_slot D s t a root key v :
  slot_at s root key v → snap_GetStorage (to_snapshot (RT:=RT) D s t) a root key = v.
Proof. intros [s' E]. cbn. by rewrite E. Qed.

(** What a new [Txn] over a snapshot says of an account. *)
Lemma newTxn_object D s t a acc :
  a ∈ D → account_at s t a acc →
  getStateObject a (newTxn (to_snapshot (RT:=RT) D s t)) =
    (λ x, mkObj (acc_Copy x) [] false false false None) <$> acc.
Proof.
  intros Ha Hacc. pose proof (to_snapshot_account _ _ _ _ _ Ha Hacc) as E. unfold getStateObject.
  cbn [newTxn txn objs snapshot] in *. rewrite lookup_empty, E. by destruct acc.
Qed.

(** ** The objects of a [Txn] *)

(** The machine's ranges, and the addresses [D] and slots [K] in use. *)
Record in_range (D : list Address) (K : list Hash) tx : Prop := {
  ir_addr a o : objs (txn tx) !! a = Some o → a ∈ D;
  ir_acc a o : objs (txn tx) !! a = Some o →
    is_u64 (acc_Nonce (o_Account o)) ∧ 0 ≤ acc_Balance (o_Account o) ∧ hash_ok (acc_CodeHash (o_Account o));
  ir_slot a o m k v : objs (txn tx) !! a = Some o → o_Txn o = Some m → m !! k = Some v →
    k ∈ K ∧ ∀ x, v = Some x → hash_ok x;
}.

(** No two of the addresses, or of the slots, hash alike. *)
Definition hashes_apart (D : list Address) (K : list Hash) : Prop :=
  (∀ a b, a ∈ D → b ∈ D → hashit (AddressBytes a) = hashit (AddressBytes b) → a = b) ∧
  (∀ k l, k ∈ K → l ∈ K → hashit (HashBytes k) = hashit (HashBytes l) → k = l).

Lemma in_range_clean D K tx d : in_range D K tx → in_range D K (CleanDeleteObjects d tx).
Proof.
  intros [Ha Hacc Hs].
  assert (∀ a o, objs (txn (CleanDeleteObjects d tx)) !! a = Some o →
    ∃ o', objs (txn tx) !! a = Some o' ∧ o = mark_deleted d o') as Hobj.
  { intros a o. cbn. rewrite lookup_fmap. destruct (objs (txn tx) !! a) as [o'|]; [|done]. intros [= <-]. eauto. }
  split.
  - intros a o (o' & E & _)%Hobj. eauto.
  - intros a o (o' & E & ->)%Hobj. destruct (Hacc a o' E) as (? & ? & ?). unfold mark_deleted. case_match; [|done]. cbn. split_and!; try done. lia.
  - intros a o m k v (o' & E & ->)%Hobj Hm Hk. apply (Hs a o' m k v E); [|done]. unfold mark_deleted in Hm. by case_match.
Qed.

Lemma emptyRoot_stored s : root_stored s emptyStateHash.
Proof.
  split; [by unfold hash_ok|]. exists ∅. split; [by left|]. intros k v Hk. by rewrite lookup_empty in Hk.
Qed.

(** The storage root of an object is stored. *)
Lemma from_stored D s t a root :
  sane D s t → a ∈ D → root_from (to_snapshot (RT:=RT) D s t) a root → root_stored s root.
Proof.
  intros Hsane Ha [->|(acc & Hacc & <-)]; [apply emptyRoot_stored|]. destruct (Hsane a Ha) as (acc' & Hat & Hok).
  rewrite (to_snapshot_account _ _ _ _ _ Ha Hat) in Hacc. by apply Hok.
Qed.

Lemma NoDup_fmap_on {A B} (f : A → B) (l : list A) :
  (∀ x y, x ∈ l → y ∈ l → f x = f y → x = y) → NoDup l → NoDup (f <$> l).
Proof.
  intros Hf Hl. apply NoDup_fmap_2_strong; [|done]. intros. by apply Hf.
Qed.
(** The list of objects [Commit] makes, in any order. *)
Definition lists (tx : Txn (RT:=RT)) (l : list (Address * Object)) : Prop :=
  l ≡ₚ map_to_list (commit_object <$> objs (txn tx)).

Lemma lists_in tx l a ob :
  lists tx l → (a, ob) ∈ l ↔ ∃ o, objs (txn tx) !! a = Some o ∧ ob = commit_object o.
Proof.
  intros ->. rewrite elem_of_map_to_list, lookup_fmap, fmap_Some. naive_solver.
Qed.

(** The slots [Commit] lists. *)
Lemma commit_object_slots o k v :
  o_Deleted o = false → (k, v) ∈ ob_Storage (commit_object o) ↔ ∃ m, o_Txn o = Some m ∧ m !! k = Some v.
Proof.
  intros Hd. cbn. rewrite Hd. destruct (o_Txn o) as [m|].
  - rewrite elem_of_map_to_list. naive_solver.
  - rewrite elem_of_nil. naive_solver.
Qed.

Lemma lists_objs_ok D K s t tx l :
  sane D s t → txn_roots (to_snapshot (RT:=RT) D s t) tx → in_range D K tx → hashes_apart D K → lists tx l → objs_ok s l.
Proof.
  intros Hsane Hroots Hr [HD HK] Hl.
  assert (∀ x, x ∈ l → ∃ o, objs (txn tx) !! x.1 = Some o ∧ x.2 = commit_object o) as Hin.
  { intros [a ob] Hx. by apply (lists_in tx l a ob Hl). }
  split.
  - apply NoDup_fmap_on; [|rewrite Hl; apply NoDup_map_to_list]. intros x y Hx Hy E.
    destruct (Hin x Hx) as (o & Ho & Ex), (Hin y Hy) as (o' & Ho' & Ey).
    assert (x.1 = y.1) as E1 by (apply HD; [by eapply ir_addr..|exact E]). destruct x, y. cbn in *. congruence.
  - intros x Hx _. destruct (Hin x Hx) as (o & Ho & ->). cbn. eapply from_stored; [done|by eapply ir_addr|].
    by apply (tr_tree _ _ Hroots).
  - intros x Hx _. destruct (Hin x Hx) as (o & Ho & ->). cbn. destruct (ir_acc _ _ _ Hr _ _ Ho) as (? & ? & ?).
    split; [done|]. split; [done|]. split; [|done].
    destruct (from_stored D s t x.1 (acc_Root (o_Account o)) Hsane ltac:(by eapply ir_addr) ltac:(by apply (tr_tree _ _ Hroots))). done.
  - intros x Hx Hdel. destruct (Hin x Hx) as (o & Ho & E). rewrite E in *. cbn in Hdel.
    apply NoDup_fmap_on.
    + intros [k v] [k' v'] Hk Hk' Eh. apply commit_object_slots in Hk as (m & Hm & Hk), Hk' as (m' & Hm' & Hk'); [|done..].
      destruct (ir_slot _ _ _ Hr _ _ _ _ _ Ho Hm Hk) as [? _], (ir_slot _ _ _ Hr _ _ _ _ _ Ho Hm' Hk') as [? _].
      assert (k = k') as -> by (by apply HK). congruence.
    + cbn. rewrite Hdel. destruct (o_Txn o); [apply NoDup_map_to_list|constructor].
  - intros x k v Hx Hdel Hk. destruct (Hin x Hx) as (o & Ho & E). rewrite E in *. cbn in Hdel.
    apply commit_object_slots in Hk as (m & Hm & Hk); [|done].
    by apply (ir_slot _ _ _ Hr _ _ _ _ _ Ho Hm Hk).
Qed.

(** What two [Txn]s say of an account. *)
Definition same_account (K : list Hash) (tx tx' : Txn (RT:=RT)) (a : Address) : Prop :=
  Exist a tx = Exist a tx' ∧ GetBalance a tx = GetBalance a tx' ∧ GetNonce a tx = GetNonce a tx' ∧
  GetCodeHash a tx = GetCodeHash a tx' ∧ ∀ k, k ∈ K → GetState a k tx = GetState a k tx'.

(** An account that the block did not touch. *)
Lemma untouched_same D K s t l s' t' tx a :
  a ∈ D → sane D s t → snapshot tx = to_snapshot (RT:=RT) D s t → objs (txn tx) !! a = None →
  committed s t l s' t' → hashit (AddressBytes a) ∉ addr_hash <$> l → (∀ root k, root_stored s root → ∃ v, slot_at s root k v) →
  same_account K (newTxn (to_snapshot (RT:=RT) D s' t')) tx a.
Proof.
  intros Ha Hsane Hsnap Hno Hcm Hout Hslots. destruct (Hsane a Ha) as (acc & Hat & Hok).
  pose proof (cm_others _ _ _ _ _ Hcm a acc Hout Hat) as Hat'.
  pose proof (newTxn_object D s' t' a acc Ha Hat') as Hnew.
  assert (getStateObject a tx = (λ x, mkObj (acc_Copy x) [] false false false None) <$> acc) as Hold.
  { unfold getStateObject. rewrite Hno, Hsnap, (to_snapshot_account _ _ _ _ _ Ha Hat). by destruct acc. }
  unfold same_account, Exist, GetBalance, GetNonce, GetCodeHash, GetState. rewrite Hnew, Hold.
  destruct acc as [x|]; [|done]. cbn [fmap option_fmap option_map]. split_and!; try done. intros k _. cbn [o_Txn mbind option_bind o_Account].
  destruct (Hok x eq_refl) as [_ Hr]. destruct (cm_roots _ _ _ _ _ Hcm _ Hr) as [_ Hsl].
  destruct (Hslots _ k Hr) as [v Hv]. rewrite Hsnap. cbn [newTxn snapshot acc_Copy acc_Root].
  rewrite (to_snapshot_slot D s t a _ k v Hv). by apply to_snapshot_slot, Hsl.
Qed.
(** An account of the block. *)
Lemma touched_same D K s t s' t' tx a o :
  a ∈ D → sane D s t → txn_roots (to_snapshot (RT:=RT) D s t) tx → in_range D K tx → hashes_apart D K →
  objs (txn tx) !! a = Some o → account_written s s' t' (a, commit_object o) →
  (∀ root k, root_stored s root → ∃ v, slot_at s root k v) →
  same_account K (newTxn (to_snapshot (RT:=RT) D s' t')) tx a.
Proof.
  intros Ha Hsane Hroots Hr [_ HK] Ho Hw Hslots. unfold account_written in Hw. cbn [snd commit_object ob_Deleted fst ob_Account] in Hw.
  assert (getStateObject a tx = if o_Deleted o then None else Some (obj_Copy o)) as Hold.
  { unfold getStateObject. by rewrite Ho. }
  unfold same_account, Exist, GetBalance, GetNonce, GetCodeHash, GetState. rewrite Hold.
  destruct (o_Deleted o) eqn:Hdel.
  { by rewrite (newTxn_object D s' t' a None Ha Hw). }
  destruct Hw as (root & _ & Hat & Hin & Hout). rewrite (newTxn_object D s' t' a _ Ha Hat).
  cbn [fmap option_fmap option_map]. split_and!; try done. intros k Hk. cbn [o_Txn obj_Copy mbind option_bind o_Account snapshot newTxn].
  assert (∀ v, slot_at s' root k v → snap_GetStorage (to_snapshot (RT:=RT) D s' t') a root k = v) as Hget.
  { intros v. apply to_snapshot_slot. }
  destruct (m ← o_Txn o; m !! k) as [v|] eqn:E.
  - apply Hget, Hin, commit_object_slots; [done|]. destruct (o_Txn o) as [m|]; [|done]. by exists m.
  - rewrite (tr_snap _ _ Hroots).
    pose proof (from_stored D s t a _ Hsane Ha (tr_tree _ _ Hroots a o Ho)) as Hst.
    destruct (Hslots _ k Hst) as [v Hv]. cbn [acc_Copy acc_Root]. rewrite (to_snapshot_slot D s t a _ k v Hv).
    apply Hget, Hout; [|done]. intros ([k' v'] & Eh & Hk')%list_elem_of_fmap.
    apply commit_object_slots in Hk' as (m & Hm & Hk'); [|done].
    destruct (ir_slot _ _ _ Hr _ _ _ _ _ Ho Hm Hk') as [HkK _].
    rewrite Hm in E. cbn in E. assert (k = k') as -> by (by apply HK). congruence.
Qed.

(** The accounts after a commit are well formed again. *)
Lemma committed_sane D K s t l s' t' tx :
  sane D s t → in_range D K tx → hashes_apart D K → lists tx l → committed s t l s' t' → sane D s' t'.
Proof.
  intros Hsane Hr [HD _] Hl Hcm a Ha. destruct (objs (txn tx) !! a) as [o|] eqn:Ho.
  - assert ((a, commit_object o) ∈ l) as Hin by (apply (lists_in tx l _ _ Hl); eauto).
    pose proof (proj1 (Forall_forall _ _) (cm_objs _ _ _ _ _ Hcm) _ Hin) as Hw. unfold account_written in Hw.
    cbn [snd commit_object ob_Deleted fst ob_Account] in Hw. destruct (o_Deleted o); [by exists None|].
    destruct Hw as (root & Hst & Hat & _). eexists. split; [exact Hat|]. intros x [= <-]. split; [|done].
    destruct (ir_acc _ _ _ Hr _ _ Ho) as (? & ? & ?). split; [done|]. split; [done|]. split; [apply Hst|done].
  - destruct (Hsane a Ha) as (acc & Hat & Hok). exists acc. split.
    + apply (cm_others _ _ _ _ _ Hcm); [|done]. intros ([b ob] & Eh & Hb)%list_elem_of_fmap.
      apply (lists_in tx l _ _ Hl) in Hb as (o & Hb & _). assert (a = b) as -> by (apply HD; [done|by eapply ir_addr|done]). congruence.
    + intros x Hx. destruct (Hok x Hx) as [? Hst]. split; [done|]. by apply (cm_roots _ _ _ _ _ Hcm).
Qed.

(** The state of a block, committed and opened again. *)
Lemma block_reloads N D K s t tx del l (N' := N + Z.of_nat (length l) + 1) :
  let snap := to_snapshot (RT:=RT) D s t in
  state_ok N s → snapshot_ok N s t → sane D s t → N' + 1 < 2 ^ 32 →
  rtc txn_step (newTxn snap) tx → in_range D K tx → hashes_apart D K →
  let '(objects, tx1) := Commit del tx in
  l ≡ₚ map_to_list objects →
  ∃ nTrie root s1 batch,
    commit_batch t l s = Ret (nTrie, HashBytes root, s1, batch) ∧
    (collision_free batch (db (st_storage s)) →
     ∃ s', trie_Commit t l s = Ret (nTrie, HashBytes root, s') ∧ state_ok N' s' ∧
       ∃ t' c, NewSnapshotAt root s' = Ret (Ok t', mkState (st_storage s') c) ∧
         snapshot_ok N' s' t' ∧ sane D s' t' ∧
         ∀ a, a ∈ D → same_account K (newTxn (to_snapshot (RT:=RT) D s' t')) tx1 a).
Proof.
  intros snap Hs Hsn Hsane Hlt Hrun Hr Hap. cbn [Commit]. set (tx1 := CleanDeleteObjects del tx). intros Hl.
  assert (rtc txn_step (newTxn snap) tx1) as Hrun1 by (eapply rtc_r; [exact Hrun|constructor]).
  pose proof (steps_roots snap tx1 Hrun1) as Hroots. pose proof (in_range_clean D K tx del Hr) as Hr1. fold tx1 in Hr1.
  pose proof (lists_objs_ok D K s t tx1 l Hsane Hroots Hr1 Hap Hl) as Hok.
  destruct (Commit_committed N s t l Hs Hsn Hlt Hok) as (nTrie & root & s1 & batch & E & _ & Hpost).
  exists nTrie, root, s1, batch. split; [done|]. intros Hcf.
  destruct (Hpost Hcf) as (HC & Hs' & _ & _ & _ & t' & c & HN & Hsn' & Hcm). eexists. split; [exact HC|]. split; [done|].
  exists t', c. split; [done|]. split; [done|]. split; [by eapply committed_sane|]. intros a Ha.
  assert (∀ root k, root_stored s root → ∃ v, slot_at s root k v) as Hslots.
  { intros rt k (? & m & ? & ?). eexists. pose proof (so_N _ _ Hs). eapply (GetStorage_rep N); try done. lia. }
  destruct (objs (txn tx1) !! a) as [o|] eqn:Ho.
  - eapply touched_same; try done. apply (proj1 (Forall_forall _ _) (cm_objs _ _ _ _ _ Hcm)).
    apply (lists_in tx1 l _ _ Hl). eauto.
  - eapply untouched_same; try done; [apply Hroots|]. intros ([b ob] & Eh & Hb)%list_elem_of_fmap.
    apply (lists_in tx1 l _ _ Hl) in Hb as (o & Hb & _).
    assert (a = b) as -> by (apply (proj1 Hap); [done|by eapply ir_addr|done]). congruence.
Qed.

(** C4.  The state a block leaves is what the next one reads: whatever a block does
    to its [Txn], [Commit] writes objects that [Snapshot.Commit] stores, and,
    unless two hashes collide, the snapshot at the new root gives every account
    and slot back as the block left it, and is fit for the next block. *)
Theorem commit_reload N D K s t tx del l (N' := N + Z.of_nat (length l) + 1) :
  let snap := to_snapshot (RT:=RT) D s t in
  state_ok N s → snapshot_ok N s t → sane D s t → N' + 1 < 2 ^ 32 →
  rtc txn_step (newTxn snap) tx → in_range D K tx → hashes_apart D K →
  let '(objects, tx1) := Commit del tx in
  l ≡ₚ map_to_list objects →
  ∃ nTrie root s1 batch,
    commit_batch t l s = Ret (nTrie, HashBytes root, s1, batch) ∧
    (collision_free batch (db (st_storage s)) →
     ∃ s', trie_Commit t l s = Ret (nTrie, HashBytes root, s') ∧ state_ok N' s' ∧
       ∃ t' c, NewSnapshotAt root s' = Ret (Ok t', mkState (st_storage s') c) ∧
         snapshot_ok N' s' t' ∧ sane D s' t' ∧
         ∀ a, a ∈ D → same_account K (newTxn (to_snapshot (RT:=RT) D s' t')) tx1 a).
Proof. exact (block_reloads N D K s t tx del l). Qed.
End spec.
