(* ===== verification/BuildRoot.v ===== *)
(** Package [types/buildroot]: the root of a list of values, by the trie and by
    the fast hasher, which writes the nodes of the trie of up to 128 values
    without building it. *)
From S2P Require Import Prelude Types Runtime StateTxn Bloom Rlp RlpTypes Trie TrieSpec TrieHash TrieMap.

Definition EmptyRootHash : Hash :=
  0x56e81f171bcc55a6ff8345e692c0f86e5b48e01b996cadc001622fb5e363b421.
Definition EmptyUncleHash : Hash :=
  0x1dcc4de8dec75d7aab85b567b6ccd41ad312451b948a7413f0a142fd40d49347.

(** ** RLP headers ([buildroot_fast.go]) *)

Definition intsize (val : Z) : nat :=
  if val <? 2 ^ 8 then 1 else if val <? 2 ^ 16 then 2 else if val <? 2 ^ 24 then 3
  else if val <? 2 ^ 32 then 4 else if val <? 2 ^ 40 then 5 else if val <? 2 ^ 48 then 6
  else if val <? 2 ^ 56 then 7 else 8.

Definition getRlpSize (size : Z) : nat := if size <? 56 then 1 else intsize size + 1.

Definition marshalRlpSize (dst : bytes) (size short long : Z) : bytes :=
  if size <? 56 then dst ++ [(short + size) mod 256]
  else
    let buf := be_bytes 8 size in
    dst ++ [(long + Z.of_nat (intsize size)) mod 256] ++ drop (8 - intsize size) buf.
Definition marshalItemRlpSize (dst : bytes) (size : nat) : bytes := marshalRlpSize dst (u64 (Z.of_nat size)) 0x80 0xB7.
Definition marshalListRlpSize (dst : bytes) (size : nat) : bytes := marshalRlpSize dst (u64 (Z.of_nat size)) 0xC0 0xF7.

Definition leafVal : bytes := [0x20].
Definition rlpEmptyValue : bytes := [0x80].
Definition rlpHashPrefix : bytes := [0xa0].
Definition zeroKey : bytes := [0x30].
Definition oneKey : bytes := [0x31].
Definition singleKey : bytes := [0x82; 0x20; 0x80].

Section root.
Context `{External} `{RlpReader}.

(** ** The fast hasher *)

(** [f.buf] and [f.buf2] are cut to nothing before each use, and [f.dst] when
    the hasher goes back to its pool, so the functions return the buffer they
    fill.  [num] and [cb] are the fields [Hash] sets; [None] is [false]. *)
Section fast.
Variables (num : nat) (cb : nat → bytes).

Definition getCb (i : nat) : option bytes :=
  if (num <? i)%nat then None
  else if (length (cb i) <? 32)%nat then None else Some (cb i).

Definition fast_hash (dst b : bytes) : bytes := dst ++ HashBytes (Keccak256 b).

Definition encodeOneItem (dst : bytes) : option bytes :=
  val ← getCb 0;
  let n := getRlpSize (u64 (Z.of_nat (length val))) in
  let buf2 := marshalListRlpSize [] (n + length val + length singleKey) in
  let buf2 := buf2 ++ singleKey in
  let buf2 := marshalItemRlpSize buf2 (length val) in
  let buf2 := buf2 ++ val in
  Some (fast_hash dst buf2).

Definition encodeSingle (dst v : bytes) (b : bool) : bytes :=
  let n := getRlpSize (u64 (Z.of_nat (length v))) in
  let buf2 := marshalListRlpSize [] (n + length v + 1) in
  let buf2 := buf2 ++ (if b then oneKey else zeroKey) in
  let buf2 := marshalItemRlpSize buf2 (length v) in
  fast_hash dst (buf2 ++ v).

(** One turn of the loop of [deriveGroup]. *)
Definition group_item (buf : bytes) (i : nat) : option bytes :=
  val ← getCb i;
  let buf := buf ++ rlpHashPrefix in
  let n := getRlpSize (u64 (Z.of_nat (length val))) in
  let buf2 := marshalListRlpSize [] (n + 1 + length val) in
  let buf2 := buf2 ++ leafVal in
  let buf2 := marshalItemRlpSize buf2 (length val) in
  Some (fast_hash buf (buf2 ++ val)).

Fixpoint group_items (buf : bytes) (l : list nat) : option bytes :=
  match l with
  | [] => Some buf
  | i :: l => buf ← group_item buf i; group_items buf l
  end.

Definition deriveGroup (dst : bytes) (from to : nat) : option bytes :=
  let n := (to - from)%nat in
  if (n =? 1)%nat then
    val ← getCb from; Some (encodeSingle dst val (from =? 1)%nat)
  else
    let buf := if (from =? 1)%nat then rlpEmptyValue else [] in
    buf ← group_items buf (seq from n);
    let buf :=
      if (n <? 16)%nat then
        let last := if (from =? 1)%nat then 15%nat else 16%nat in
        buf ++ concat (replicate (last - n) rlpEmptyValue)
      else buf in
    let buf := buf ++ rlpEmptyValue in
    let buf2 := marshalListRlpSize [] (length buf) in
    Some (fast_hash dst (buf2 ++ buf)).

(** The loop of [Hash] over the groups: eight are enough for 128 values. *)
Fixpoint groups (rounds : nat) (dst : bytes) (i step1 : nat) : option bytes :=
  if (i <? step1)%nat then
    match rounds with
    | O => None
    | S rounds =>
        let ini := if (i =? 0)%nat then 1%nat else i in
        dst ← deriveGroup (dst ++ rlpHashPrefix) ini (step1 `min` (i + 16));
        groups rounds dst (i + 16) step1
    end
  else Some dst.

Definition fast_Hash : option bytes :=
  if (num =? 1)%nat then encodeOneItem []
  else
    let step1 := (num `min` 128)%nat in
    dst ← groups 8 [] 0 step1;
    let dst := dst ++ concat (replicate ((128 - step1) / 16) rlpEmptyValue) in
    let dst := dst ++ rlpHashPrefix in
    val ← getCb 0;
    let dst := encodeSingle dst val false in
    let dst := dst ++ concat (replicate 8 rlpEmptyValue) in
    let buf2 := marshalListRlpSize [] (length dst) in
    Some (fast_hash [] (buf2 ++ dst)).
End fast.

(** ** Roots ([buildroot.go]) *)

Fixpoint insert_all (h : nat → bytes) (l : list nat) (t : TrieTxn) : outcome TrieTxn :=
  match l with
  | [] => Ret t
  | i :: l =>
      let~ t := txn_Insert (MarshalTo (NewUint (u64 (Z.of_nat i)))) (h i) t in insert_all h l t
  end.

Definition deriveSlow (num : nat) (h : nat → bytes) : outcome bytes :=
  let~ t := insert_all h (seq 0 num) (trie_Txn ∅ NewTrie) in
  let~ (x, _, _) := txn_Hash t in Ret x.

Definition CalculateRoot (num : nat) (h : nat → bytes) : outcome Hash :=
  if (num =? 0)%nat then Ret EmptyRootHash
  else
    match (if (num <=? 128)%nat then fast_Hash num h else None) with
    | Some dst => Ret (BytesToHash dst)
    | None => let~ x := deriveSlow num h in Ret (BytesToHash x)
    end.

Definition calculateRootWithRlp (num : nat) (h : nat → rlp) : outcome Hash :=
  CalculateRoot num (λ i, MarshalTo (h i)).

Definition CalculateTransactionsRoot (transactions : list Transaction) : outcome Hash :=
  calculateRootWithRlp (length transactions)
    (λ i, match transactions !! i with Some t => tx_MarshalRLPWith t | None => NewNull end).
Definition CalculateReceiptsRoot (receipts : list Receipt) : outcome Hash :=
  calculateRootWithRlp (length receipts)
    (λ i, match receipts !! i with Some r => rc_MarshalRLPWith r | None => NewNull end).

Definition CalculateUncleRoot (uncles : list Header) : Hash :=
  match uncles with
  | [] => EmptyUncleHash
  | _ => Keccak256 (MarshalTo (NewArray (hd_MarshalRLPWith <$> uncles)))
  end.
End root.
