(* ===== verification/BuildRootSpec.v ===== *)
(** The fast hasher computes the root of the trie. *)
From S2P Require Import Prelude Types Runtime Rlp Trie TrieSpec TrieHash TrieMap BuildRoot.

Lemma emptyRoot_value : BytesToHash emptyRoot = EmptyRootHash.
Proof. by vm_compute. Qed.

#[local] Opaque HashBytes.

(** ** Headers *)

Lemma BitLen_bound z k : 0 ≤ z < 2 ^ k → 0 ≤ k → BitLen z ≤ k.
Proof.
  intros Hz Hk. unfold BitLen. destruct (Z.eqb_spec z 0); [done|]. rewrite Z.abs_eq by lia.
  assert (Z.log2 z < k); [|lia]. apply Z.log2_lt_pow2; lia.
Qed.

Lemma BitLen_lower z k : 2 ^ k ≤ z → 0 ≤ k → k < BitLen z.
Proof.
  intros Hz Hk. pose proof (Z.pow_pos_nonneg 2 k). unfold BitLen. destruct (Z.eqb_spec z 0); [lia|].
  rewrite Z.abs_eq by lia. assert (k ≤ Z.log2 z); [|lia]. apply Z.log2_le_pow2; lia.
Qed.

Lemma length_Bytes z j : 2 ^ (8 * Z.of_nat j) ≤ z < 2 ^ (8 * Z.of_nat j + 8) → length (Bytes z) = S j.
Proof.
  intros Hz. unfold Bytes. rewrite length_be_bytes.
  pose proof (BitLen_lower z (8 * Z.of_nat j) ltac:(lia) ltac:(lia)).
  pose proof (BitLen_bound z (8 * Z.of_nat j + 8) ltac:(lia) ltac:(lia)).
  assert ((BitLen z + 7) / 8 = Z.of_nat j + 1) as ->; [|lia].
  symmetry. apply (Zdiv_unique _ _ _ (BitLen z + 7 - 8 * (Z.of_nat j + 1))); lia.
Qed.

Lemma intsize_Bytes z : 0 < z < 2 ^ 64 → length (Bytes z) = intsize z.
Proof.
  intros Hz. unfold intsize.
  repeat match goal with |- context [?a <? ?b] => destruct (Z.ltb_spec a b) end; apply length_Bytes; lia.
Qed.

Lemma intsize_le z : (1 ≤ intsize z ≤ 8)%nat.
Proof. unfold intsize. repeat case_match; lia. Qed.

(** The hasher writes the header of the format. *)
Lemma marshalRlpSize_header dst n short long :
  Z.of_nat n < 2 ^ 64 → 0 ≤ short ≤ 200 → 0 ≤ long ≤ 247 →
  marshalRlpSize dst (u64 (Z.of_nat n)) short long = dst ++ rlp_header short long n.
Proof.
  intros Hn Hs Hl. rewrite u64_small by (unfold is_u64, M64; lia). unfold marshalRlpSize, rlp_header.
  destruct (Z.ltb_spec (Z.of_nat n) 56); [by rewrite Z.mod_small by lia|].
  pose proof (intsize_Bytes (Z.of_nat n) ltac:(lia)) as Hb. pose proof (intsize_le (Z.of_nat n)) as Hi. cbn zeta. rewrite Hb.
  rewrite Z.mod_small by lia. f_equal. cbn [app]. f_equal.
  unfold Bytes in *. rewrite length_be_bytes in Hb. rewrite Hb, Z.abs_eq by lia.
  replace 8%nat with ((8 - intsize (Z.of_nat n)) + intsize (Z.of_nat n))%nat at 2 by lia.
  rewrite be_bytes_app, drop_app_length'; [done|]. by rewrite length_be_bytes.
Qed.

Lemma length_rlp_header short long n :
  Z.of_nat n < 2 ^ 64 → length (rlp_header short long n) = getRlpSize (u64 (Z.of_nat n)).
Proof.
  intros Hn. rewrite u64_small by (unfold is_u64, M64; lia). unfold rlp_header, getRlpSize.
  destruct (Z.ltb_spec (Z.of_nat n) 56); [done|]. cbn. rewrite intsize_Bytes by lia. lia.
Qed.

(** ** The nodes of the fast hasher *)

(** A string of more than one byte. *)
Lemma rlp_encode_long b : (length b ≠ 1)%nat → rlp_encode (IBytes b) = rlp_header 0x80 0xB7 (length b) ++ b.
Proof. destruct b as [|d [|d' b]]; done. Qed.

Lemma rlp_encode_array l :
  rlp_encode (item_of (NewArray l)) = rlp_header 0xC0 0xF7 (length (rlp_payload l)) ++ rlp_payload l.
Proof. unfold rlp_payload. rewrite list_fmap_compose. done. Qed.

Section spec.
Context `{External} `{RlpReader} `{!RlpFormat}.

(** *** [Hash] of a transaction *)

Lemma finish_enc n n1 puts :
  is_node n = true → is_node n1 = true → raw n1 = raw n →
  ∃ n' puts', finish (raw n) n1 puts = Ret (enc n, n', puts') ∧ enc n' = enc n.
Proof.
  intros Hn Hn1 Hraw. assert (enc n = seal (raw n)) as He by (by destruct n).
  assert (enc n1 = seal (raw n)) as He1 by (rewrite <- Hraw; by destruct n1).
  unfold finish. rewrite He. unfold seal in *. destruct (rlp_Len (raw n) <? 32); [eauto|].
  assert (∀ h, SetHash h n1 = Ret (set_hash h n1)) as -> by (by destruct n1). cbn [obind].
  eexists _, _. split; [done|]. by rewrite set_hash_enc, He1.
Qed.

Lemma hash_enc st ep n :
  wf st (λ h n, enc n = NewBytes h ∧ h ≠ []) ep n → ∃ n' puts, hash n = Ret (enc n, n', puts) ∧ enc n' = enc n.
Proof.
  assert (∀ h n, enc n = NewBytes h ∧ h ≠ [] → is_node n = true → set_hash h n = n →
    ∃ n' puts, hash n = Ret (enc n, n', puts) ∧ enc n' = enc n) as Hrec.
  { intros h m [Hm Hne] Hnode Hset. exists m, []. split; [|done]. rewrite Hm.
    destruct m; simplify_eq/=; by rewrite bool_decide_false. }
  induction 1 as [r n Hr0 Hl Hr Henc Hn IH|h key b Hkey Hb Hh|h key c Hne Hkey Hfull Hc IH Hh
    |h e value children Hl Hc IH Hv Htwo Hh He].
  - by eexists _, _.
  - destruct Hh as [->|Hh]; [|by apply (Hrec h)]. rewrite hash_short, bool_decide_true by done.
    cbn [negb hash node_Hash snd obind default id].
    by apply (finish_enc (ShortNode [] key (Some (ValueNode false (Some b))))).
  - destruct Hh as [->|Hh]; [|by apply (Hrec h)]. destruct IH as (c' & puts & E & He).
    rewrite hash_short, bool_decide_true, E by done. cbn [negb obind].
    change (NewArray [NewBytes (encodeCompact key); enc c]) with (raw (ShortNode [] key (Some c))).
    apply (finish_enc (ShortNode [] key (Some c))); try done. cbn. by rewrite He.
  - destruct Hh as [->|Hh]; [|by apply (Hrec h)]. rewrite hash_full, bool_decide_true by done. cbn [negb].
    assert (∀ n, Some n ∈ children → ∃ n' puts, hash n = Ret (enc n, n', puts) ∧ enc n' = enc n) as Hch.
    { intros n [i Hi]%list_elem_of_lookup_1. pose proof (lookup_lt_Some _ _ _ Hi).
      apply (IH (Z.of_nat i)); [unfold nib; lia|]. apply edge_child; [lia|done]. }
    assert (∃ ch' puts, hashes children = Ret (enc_opt <$> children, ch', puts) ∧ enc_opt <$> ch' = enc_opt <$> children)
      as (ch' & puts & -> & Hch').
    { clear -Hch. induction children as [|o l IHl]; [by eexists [], _|].
      destruct (IHl ltac:(intros; apply Hch; by right)) as (l' & ps & E & El).
      cbn [hashes]. destruct o as [n|].
      - destruct (Hch n ltac:(left)) as (n' & ps' & -> & En). cbn [obind]. rewrite E. cbn [obind].
        eexists (Some n' :: l'), _. split; [done|]. cbn. by rewrite En, El.
      - rewrite E. cbn [obind]. eexists (None :: l'), _. split; [done|]. cbn. by rewrite El. }
    cbn [obind].
    assert (match value with
            | None => Ret (NewNull, None, [])
            | Some n => let~ (v, n, puts) := hash n in Ret (v, Some n, puts)
            end = Ret (enc_opt value, value, [])) as ->.
    { destruct value as [n|]; [|done]. by destruct (Hv n eq_refl) as (b & _ & ->). }
    cbn [obind]. change (NewArray ((enc_opt <$> children) ++ [enc_opt value])) with (raw (FullNode [] e value children)).
    apply (finish_enc (FullNode [] e value children)); try done. cbn [raw]. by rewrite Hch'.
Qed.

(** The root of a transaction. *)
Lemma txn_Hash_root Q t m : txn_rep Q t m → ∃ t' puts, txn_Hash t = Ret (root_of (tt_root t), t', puts).
Proof.
  intros [_ Hrep]. unfold txn_Hash. destruct (tt_root t) as [n|] eqn:Er; [|by eexists _, _].
  pose proof (rr_wf _ _ _ _ _ Hrep n eq_refl) as Hn.
  destruct (hash_enc (tt_storage t) (tt_epoch t) n) as (n' & puts & -> & _).
  { eapply (wf_mono _ _ _ (λ h n, enc n = NewBytes h ∧ h ≠ [])) in Hn; [apply Hn|done|done|]. by intros h n' _ _ (? & ? & _). }
  cbn [obind root_of]. destruct (enc_shape _ _ _ _ Hn) as [[z Hz]|[l Hl]].
  - rewrite Hz, rlp_Len_NewBytes, length_HashBytes. cbn [negb Z.eqb].
    rewrite take_app_length' by (by rewrite length_HashBytes). by eexists _, _.
  - rewrite Hl. by eexists _, _.
Qed.
(** *** Leaves *)

Section values.
Variables (num : nat) (cb : nat → bytes).
Hypothesis cb_size : ∀ i, Z.of_nat (length (cb i)) < 2 ^ 32.

Definition leafnode (key : bytes) (i : nat) : Node := ShortNode [] key (Some (ValueNode false (Some (cb i)))).

(** The bytes of a leaf whose compact key has the encoding [k]. *)
Definition leaf_bytes (k v : bytes) : bytes :=
  rlp_header 0xC0 0xF7 (length k + (length (rlp_header 0x80 0xB7 (length v)) + length v)) ++
  k ++ rlp_header 0x80 0xB7 (length v) ++ v.

Lemma length_header_le short long n : Z.of_nat n < 2 ^ 64 → (length (rlp_header short long n) ≤ 9)%nat.
Proof. intros Hn. rewrite length_rlp_header by done. unfold getRlpSize. pose proof (intsize_le (u64 (Z.of_nat n))). case_match; lia. Qed.

Lemma raw_leaf key i k :
  rlp_encode (IBytes (encodeCompact key)) = k → (length k ≤ 3)%nat → (32 ≤ length (cb i))%nat →
  MarshalTo (raw (leafnode key i)) = leaf_bytes k (cb i) ∧
  enc (leafnode key i) = NewBytes (HashBytes (Keccak256 (leaf_bytes k (cb i)))).
Proof.
  intros Hk Hkl Hv. pose proof (cb_size i) as Hs.
  assert (rlp_payload [NewBytes (encodeCompact key); NewBytes (cb i)] = k ++ rlp_header 0x80 0xB7 (length (cb i)) ++ cb i) as Hp.
  { unfold rlp_payload. cbn [fmap list_fmap concat compose item_of]. by rewrite Hk, rlp_encode_long, app_nil_r by lia. }
  assert (rlp_encode (item_of (raw (leafnode key i))) = leaf_bytes k (cb i)) as He.
  { unfold leafnode. cbn [raw enc_opt enc default id]. rewrite rlp_encode_array, Hp. unfold leaf_bytes. by rewrite !length_app. }
  pose proof (length_header_le 0x80 0xB7 (length (cb i)) ltac:(lia)) as H1'.
  assert (MarshalTo (raw (leafnode key i)) = leaf_bytes k (cb i)) as HM.
  { rewrite MarshalTo_format; rewrite He; [done|]. unfold leaf_bytes. rewrite !length_app.
    match goal with |- context [length (rlp_header 0xC0 0xF7 ?n)] => pose proof (length_header_le 0xC0 0xF7 n ltac:(lia)) end. lia. }
  split; [done|]. change (enc (leafnode key i)) with (seal (raw (leafnode key i))). unfold seal. rewrite HM.
  rewrite (proj2 (Z.ltb_ge _ _)); [done|]. etrans; [|apply rlp_Len_NewArray].
  cbn [enc_opt enc default id]. rewrite Hp, !length_app. lia.
Qed.

(** What [encodeSingle], [encodeOneItem] and [deriveGroup] write. *)
Lemma leaf_buffer n k v : Z.of_nat (length v) < 2 ^ 32 → (length k ≤ 3)%nat →
  n = (getRlpSize (u64 (Z.of_nat (length v))) + length v + length k)%nat →
  marshalItemRlpSize (marshalListRlpSize [] n ++ k) (length v) ++ v = leaf_bytes k v.
Proof.
  intros Hv Hk ->. pose proof (length_header_le 0x80 0xB7 (length v) ltac:(lia)) as Hh.
  unfold marshalListRlpSize, marshalItemRlpSize, leaf_bytes. rewrite <- (length_rlp_header 0x80 0xB7) by lia.
  rewrite !marshalRlpSize_header by lia. cbn [app]. rewrite <- !app_assoc. do 2 f_equal. lia.
Qed.

Lemma encodeSingle_leaf dst v (b : bool) : Z.of_nat (length v) < 2 ^ 32 →
  encodeSingle dst v b = dst ++ HashBytes (Keccak256 (leaf_bytes (if b then oneKey else zeroKey) v)).
Proof.
  intros Hv. unfold encodeSingle, fast_hash. rewrite leaf_buffer; [done|done|by destruct b; simpl; lia|by destruct b].
Qed.

Lemma getCb_Some i v : getCb num cb i = Some v → v = cb i ∧ (32 ≤ length (cb i))%nat.
Proof.
  unfold getCb. destruct (num <? i)%nat; [done|]. destruct (Nat.ltb_spec (length (cb i)) 32); [done|]. by intros [= <-].
Qed.

Definition item_hash (i : nat) : bytes := HashBytes (Keccak256 (leaf_bytes leafVal (cb i))).

Lemma group_items_Some buf l dst :
  group_items num cb buf l = Some dst →
  Forall (λ i, 32 ≤ length (cb i))%nat l ∧ dst = buf ++ concat ((λ i, 0xa0 :: item_hash i) <$> l).
Proof.
  revert buf. induction l as [|i l IH]; intros buf; cbn [group_items].
  { intros [= <-]. split; [done|]. by rewrite app_nil_r. }
  unfold group_item. destruct (getCb num cb i) as [v|] eqn:Hv; [|done]. apply getCb_Some in Hv as [-> Hv]. cbn [mbind option_bind].
  intros [Hl ->]%IH. split; [by constructor|]. unfold fast_hash, item_hash, rlpHashPrefix.
  rewrite leaf_buffer; [|done|simpl; lia|simpl; lia]. cbn [fmap list_fmap concat]. by rewrite <- !app_assoc.
Qed.

(** *** Groups of sixteen *)

Hypothesis num_ok : (2 ≤ num ≤ 128)%nat.

Definition from (g : nat) : nat := if (g =? 0)%nat then 1 else 16 * g.
Definition to (g : nat) : nat := num `min` (16 * g + 16).

Definition gchild (g j : nat) : option Node :=
  if (from g <=? 16 * g + j)%nat && (16 * g + j <? to g)%nat then Some (leafnode [16] (16 * g + j)) else None.

(** The node of the group: what is under the first nibble [g]. *)
Definition gnode (g : nat) : Node :=
  if (to g - from g =? 1)%nat then leafnode [Z.of_nat (from g - 16 * g); 16] (from g)
  else FullNode [] 0 None (gchild g <$> seq 0 16).

Lemma enc_null : rlp_encode (item_of (enc_opt None)) = rlpEmptyValue.
Proof. done. Qed.

Lemma enc_hash z : rlp_encode (item_of (NewBytes (HashBytes z))) = 0xa0 :: HashBytes z.
Proof. cbn [item_of]. rewrite rlp_encode_long; rewrite length_HashBytes; done. Qed.

Lemma concat_const {A B} (f : A → list B) l b : Forall (λ x, f x = b) l → concat (f <$> l) = concat (replicate (length l) b).
Proof. induction 1 as [|x l Hx _ IH]; [done|]. cbn [fmap list_fmap concat length replicate]. by rewrite Hx, IH. Qed.

(** The children of a group, between empty ones. *)
Lemma group_payload g :
  (from g ≤ to g)%nat → (∀ i, from g ≤ i < to g → 32 ≤ length (cb i))%nat →
  concat ((λ j, rlp_encode (item_of (enc_opt (gchild g j)))) <$> seq 0 16) =
  concat (replicate (from g - 16 * g) rlpEmptyValue) ++
  concat ((λ i, 0xa0 :: item_hash i) <$> seq (from g) (to g - from g)) ++
  concat (replicate (16 * g + 16 - to g) rlpEmptyValue).
Proof.
  intros Hle Hlen. assert (16 * g ≤ from g ∧ from g - 16 * g ≤ 1 ∧ to g ≤ 16 * g + 16)%nat as (Hf & Hf1 & Ht).
  { unfold from, to. destruct (Nat.eqb_spec g 0); lia. }
  assert (seq 0 16 = seq 0 (from g - 16 * g) ++ seq (from g - 16 * g) (to g - from g) ++
    seq (to g - 16 * g) (16 * g + 16 - to g)) as ->.
  { replace (to g - 16 * g)%nat with ((from g - 16 * g) + (to g - from g))%nat by lia.
    rewrite <- seq_app. symmetry. etrans; [symmetry; apply (seq_app _ _ 0)|]. f_equal. lia. }
  rewrite !fmap_app, !concat_app. f_equal; [|f_equal].
  - rewrite (concat_const _ _ rlpEmptyValue), length_seq; [done|]. apply Forall_forall. intros j Hj%elem_of_seq.
    unfold gchild. rewrite (proj2 (Nat.leb_gt _ _)) by lia. apply enc_null.
  - replace (seq (from g) (to g - from g)) with ((Nat.add (16 * g)) <$> seq (from g - 16 * g) (to g - from g)).
    2: { rewrite fmap_add_seq. f_equal. lia. }
    rewrite <- list_fmap_compose. f_equal. apply list_fmap_ext. intros k j Hj. apply list_elem_of_lookup_2, elem_of_seq in Hj. cbn [compose].
    unfold gchild. rewrite (proj2 (Nat.leb_le _ _)), (proj2 (Nat.ltb_lt _ _)) by lia. cbn [andb enc_opt].
    destruct (raw_leaf [16] (16 * g + j) leafVal) as [_ ->]; [done|simpl; lia|apply Hlen; lia|]. apply enc_hash.
  - rewrite (concat_const _ _ rlpEmptyValue), length_seq; [done|]. apply Forall_forall. intros j Hj%elem_of_seq.
    unfold gchild. rewrite (proj2 (Nat.ltb_ge _ _)) by lia. rewrite andb_false_r. apply enc_null.
Qed.

(** A full node with something in it. *)
Lemma enc_full children z i :
  length children = 16%nat → (∀ o, o ∈ children → o = None ∨ ∃ z, enc_opt o = NewBytes (HashBytes z)) →
  children !! i = Some (Some z) →
  let p := concat ((λ o, rlp_encode (item_of (enc_opt o))) <$> children) ++ rlpEmptyValue in
  Z.of_nat (length p) < 2 ^ 16 ∧
  enc (FullNode [] 0 None children) = NewBytes (HashBytes (Keccak256 (rlp_header 0xC0 0xF7 (length p) ++ p))).
Proof.
  intros Hl Hch Hi p.
  assert (p = rlp_payload ((enc_opt <$> children) ++ [NewNull])) as Hp.
  { unfold p, rlp_payload. rewrite fmap_app, concat_app, <- list_fmap_compose. done. }
  assert (∀ l, (∀ o, o ∈ l → o = None ∨ ∃ z, enc_opt o = NewBytes (HashBytes z)) →
    length (concat ((λ o, rlp_encode (item_of (enc_opt o))) <$> l)) ≤ 33 * length l)%nat as Hbound.
  { induction l as [|o l IH]; intros Ho; [done|]. cbn [fmap list_fmap concat length]. rewrite length_app.
    specialize (IH ltac:(intros; apply Ho; by right)).
    destruct (Ho o ltac:(left)) as [->|[y Hy]]; [rewrite enc_null; simpl; lia|]. rewrite Hy, enc_hash. simpl. rewrite length_HashBytes. lia. }
  assert (33 ≤ length p)%nat as Hlow.
  { unfold p.
    rewrite <- (take_drop_middle children i (Some z) Hi). rewrite fmap_app, concat_app. cbn [fmap list_fmap concat].
    destruct (Hch (Some z)) as [?|[y Hy]]; [by eapply list_elem_of_lookup_2|done|]. rewrite Hy, enc_hash, !length_app.
    simpl. rewrite length_HashBytes. lia. }
  assert (length p ≤ 33 * 16 + 1)%nat as Hup.
  { unfold p. rewrite length_app. specialize (Hbound children Hch). rewrite Hl in Hbound. simpl length at 2. lia. }
  split; [lia|]. change (enc (FullNode [] 0 None children)) with (seal (NewArray ((enc_opt <$> children) ++ [NewNull]))).
  unfold seal. rewrite (proj2 (Z.ltb_ge _ _)); [|etrans; [|apply rlp_Len_NewArray]; rewrite <- Hp; lia].
  rewrite MarshalTo_format; rewrite rlp_encode_array, <- Hp; [done|]. rewrite length_app.
  pose proof (length_header_le 0xC0 0xF7 (length p) ltac:(lia)). lia.
Qed.

Lemma from_bounds g : (16 * g ≤ from g ≤ 16 * g + 1)%nat ∧ (from g =? 1)%nat = (g =? 0)%nat ∧
  (from g - 16 * g = if (g =? 0)%nat then 1 else 0)%nat.
Proof.
  unfold from. destruct (Nat.eqb_spec g 0) as [->|]; [split; [lia|done]|].
  rewrite (proj2 (Nat.eqb_neq _ _)) by lia. split; [lia|]. split; [done|lia].
Qed.

(** What [deriveGroup] writes before and after the items. *)
Lemma group_padding g buf (n := (to g - from g)%nat) :
  (from g ≤ to g)%nat →
  (if (from g =? 1)%nat then rlpEmptyValue else []) = concat (replicate (from g - 16 * g) rlpEmptyValue) ∧
  (if (n <? 16)%nat then buf ++ concat (replicate ((if (from g =? 1)%nat then 15 else 16) - n) rlpEmptyValue) else buf) =
  buf ++ concat (replicate (16 * g + 16 - to g) rlpEmptyValue).
Proof.
  intros Hle. assert (to g ≤ 16 * g + 16)%nat by (unfold to; lia).
  destruct (from_bounds g) as (Hf & -> & Hfg). subst n. rewrite Hfg. split; [by destruct (g =? 0)%nat|].
  destruct (Nat.ltb_spec (to g - from g) 16).
  - do 3 f_equal. destruct (g =? 0)%nat; lia.
  - replace (16 * g + 16 - to g)%nat with 0%nat by lia. by rewrite app_nil_r.
Qed.

(** The node of a group of several values. *)
Lemma enc_group g :
  (from g < to g)%nat → (∀ i, from g ≤ i < to g → 32 ≤ length (cb i))%nat →
  let p := concat ((λ j, rlp_encode (item_of (enc_opt (gchild g j)))) <$> seq 0 16) ++ rlpEmptyValue in
  Z.of_nat (length p) < 2 ^ 16 ∧
  enc (FullNode [] 0 None (gchild g <$> seq 0 16)) = NewBytes (HashBytes (Keccak256 (rlp_header 0xC0 0xF7 (length p) ++ p))).
Proof.
  intros Hlt Hlen p. destruct (from_bounds g) as (Hf & _ & _).
  assert (p = concat ((λ o, rlp_encode (item_of (enc_opt o))) <$> (gchild g <$> seq 0 16)) ++ rlpEmptyValue) as ->.
  { unfold p. by rewrite <- list_fmap_compose. }
  apply (enc_full _ (leafnode [16] (from g)) (from g - 16 * g)).
  - by rewrite length_fmap, length_seq.
  - intros o (j & -> & Hj%elem_of_seq)%list_elem_of_fmap. unfold gchild. case_match eqn:Hc; [right|by left].
    apply andb_true_iff in Hc as [?%Nat.leb_le ?%Nat.ltb_lt]. eexists. cbn [enc_opt].
    eapply raw_leaf; [done|simpl; lia|]. apply Hlen. lia.
  - rewrite list_lookup_fmap, lookup_seq_lt by lia. cbn [fmap option_fmap option_map]. unfold gchild.
    replace (16 * g + (0 + (from g - 16 * g)))%nat with (from g) by lia.
    by rewrite Nat.leb_refl, (proj2 (Nat.ltb_lt _ _)) by done.
Qed.

(** The header the hasher writes before a buffer. *)
Lemma marshalList_buffer b : Z.of_nat (length b) < 2 ^ 16 →
  marshalListRlpSize [] (length b) ++ b = rlp_header 0xC0 0xF7 (length b) ++ b.
Proof. intros Hb. unfold marshalListRlpSize. by rewrite marshalRlpSize_header by lia. Qed.

Lemma deriveGroup_Some dst dst' g :
  (from g < to g)%nat → deriveGroup num cb dst (from g) (to g) = Some dst' →
  (∀ i, from g ≤ i < to g → 32 ≤ length (cb i))%nat ∧
  ∃ z, dst' = dst ++ HashBytes z ∧ enc (gnode g) = NewBytes (HashBytes z).
Proof.
  intros Hlt. unfold deriveGroup, gnode. destruct (from_bounds g) as (Hf & Hf1 & Hfg).
  destruct (Nat.eqb_spec (to g - from g) 1) as [E1|E1].
  - destruct (getCb num cb (from g)) as [v|] eqn:Hv; [|done]. apply getCb_Some in Hv as [-> Hv].
    cbn [mbind option_bind]. intros [= <-]. split; [intros i Hi; replace i with (from g) by lia; done|].
    eexists. split; [by apply encodeSingle_leaf|]. rewrite Hf1, Hfg.
    apply raw_leaf; [by destruct (g =? 0)%nat|by destruct (g =? 0)%nat; simpl; lia|done].
  - destruct (group_items num cb _ _) as [buf|] eqn:Hb; [|done]. apply group_items_Some in Hb as [Hall ->].
    assert (∀ i, from g ≤ i < to g → 32 ≤ length (cb i))%nat as Hlen.
    { rewrite Forall_forall in Hall. intros i Hi. apply Hall, elem_of_seq. lia. }
    cbn [mbind option_bind]. intros [= <-]. split; [done|]. destruct (enc_group g Hlt Hlen) as [Hp ->].
    eexists. split; [|done]. unfold fast_hash. f_equal.
    destruct (group_padding g (concat (replicate (from g - 16 * g) rlpEmptyValue) ++
      concat ((λ i, 0xa0 :: item_hash i) <$> seq (from g) (to g - from g))) ltac:(lia)) as [-> ->].
    rewrite <- (app_assoc (concat (replicate (from g - 16 * g) rlpEmptyValue))), <- group_payload by (done || lia).
    by rewrite marshalList_buffer.
Qed.

(** *** The root *)

Definition group_count : nat := ((num + 15) / 16)%nat.

Lemma group_count_spec g : (g < group_count ↔ 16 * g < num)%nat ∧ (group_count ≤ 8)%nat ∧ ((128 - num) / 16 = 8 - group_count)%nat.
Proof.
  unfold group_count. pose proof (Nat.div_mod (num + 15) 16 ltac:(lia)) as H1'. pose proof (Nat.mod_upper_bound (num + 15) 16 ltac:(lia)).
  pose proof (Nat.div_mod (128 - num) 16 ltac:(lia)) as H2'. pose proof (Nat.mod_upper_bound (128 - num) 16 ltac:(lia)). lia.
Qed.

Lemma groups_Some rounds dst dst' g :
  groups num cb rounds dst (16 * g) num = Some dst' →
  (∀ i, from g ≤ i < num → 32 ≤ length (cb i))%nat ∧
  (∀ g', g ≤ g' < group_count → ∃ z, enc (gnode g') = NewBytes (HashBytes z))%nat ∧
  dst' = dst ++ concat ((λ g, rlp_encode (item_of (enc (gnode g)))) <$> seq g (group_count - g)).
Proof.
  revert dst g. induction rounds as [|rounds IH]; intros dst g; cbn [groups];
    destruct (group_count_spec g) as (Hc & Hc8 & _), (from_bounds g) as (Hf & _ & _).
  { destruct (Nat.ltb_spec (16 * g) num); [done|]. intros [= <-]. split; [lia|]. split; [lia|].
    replace (group_count - g)%nat with 0%nat by lia. by rewrite app_nil_r. }
  destruct (Nat.ltb_spec (16 * g) num) as [Hlt|].
  2: { intros [= <-]. split; [lia|]. split; [lia|]. replace (group_count - g)%nat with 0%nat by lia. by rewrite app_nil_r. }
  assert ((if (16 * g =? 0)%nat then 1%nat else (16 * g)%nat) = from g) as ->.
  { unfold from. destruct (Nat.eqb_spec g 0) as [->|]; [done|]. by rewrite (proj2 (Nat.eqb_neq _ _)) by lia. }
  change (num `min` (16 * g + 16))%nat with (to g).
  destruct (deriveGroup num cb (dst ++ rlpHashPrefix) (from g) (to g)) as [dst1|] eqn:Hd; [|done]. cbn [mbind option_bind].
  assert (from g < to g)%nat as Hft.
  { unfold from, to. destruct (Nat.eqb_spec g 0); lia. }
  apply deriveGroup_Some in Hd as (Hlen & z & -> & Hz); [|done]. replace (16 * g + 16)%nat with (16 * S g)%nat by lia.
  intros (Hlen' & Hz' & ->)%IH. assert (from (S g) = 16 * S g)%nat as Hfs by done. split; [|split].
  - intros i Hi. destruct (decide (i < to g)%nat); [apply Hlen; lia|]. apply Hlen'. unfold to in *. lia.
  - intros g' Hg'. destruct (decide (g' = g)) as [->|]; [by exists z|]. apply Hz'. lia.
  - replace (group_count - g)%nat with (S (group_count - S g)) by lia. cbn [seq fmap list_fmap concat].
    rewrite Hz, enc_hash. unfold rlpHashPrefix. by rewrite <- !app_assoc.
Qed.

Definition rchild (g : nat) : option Node := if (16 * g <? num)%nat then Some (gnode g) else None.
Definition rchildren : list (option Node) := (rchild <$> seq 0 8) ++ Some (leafnode [0; 16] 0) :: replicate 7 None.
Definition rnode : Node := FullNode [] 0 None rchildren.

Lemma rchildren_payload :
  (32 ≤ length (cb 0))%nat →
  concat ((λ o, rlp_encode (item_of (enc_opt o))) <$> rchildren) ++ rlpEmptyValue =
  concat ((λ g, rlp_encode (item_of (enc (gnode g)))) <$> seq 0 group_count) ++
  concat (replicate ((128 - num) / 16) rlpEmptyValue) ++ rlpHashPrefix ++
  HashBytes (Keccak256 (leaf_bytes zeroKey (cb 0))) ++ concat (replicate 8 rlpEmptyValue).
Proof.
  intros H0len. destruct (group_count_spec 0) as (_ & Hc8 & Hrest). unfold rchildren.
  rewrite fmap_app, concat_app, <- list_fmap_compose, <- app_assoc.
  assert (seq 0 8 = seq 0 group_count ++ seq group_count (8 - group_count)) as ->.
  { etrans; [|apply (seq_app group_count (8 - group_count) 0)]. f_equal. lia. }
  rewrite fmap_app, concat_app, <- app_assoc. f_equal; [|f_equal].
  - f_equal. apply list_fmap_ext. intros k g Hg. apply list_elem_of_lookup_2, elem_of_seq in Hg. cbn [compose]. unfold rchild.
    rewrite (proj2 (Nat.ltb_lt _ _)); [done|]. apply group_count_spec. lia.
  - rewrite (concat_const _ _ rlpEmptyValue), length_seq, Hrest; [done|]. apply Forall_forall. intros g Hg%elem_of_seq. cbn [compose].
    unfold rchild. rewrite (proj2 (Nat.ltb_ge _ _)); [apply enc_null|]. destruct (group_count_spec g) as [Hg' _]. lia.
  - cbn [fmap list_fmap concat enc_opt]. destruct (raw_leaf [0; 16] 0 zeroKey) as [_ ->]; [done|simpl; lia|done|].
    rewrite enc_hash. done.
Qed.

Lemma fast_Hash_Some dst :
  fast_Hash num cb = Some dst → (∀ i, i < num → 32 ≤ length (cb i))%nat ∧ dst = root_of (Some rnode).
Proof.
  unfold fast_Hash. rewrite (proj2 (Nat.eqb_neq _ _)) by lia. replace (num `min` 128)%nat with num by lia.
  destruct (groups num cb 8 [] 0 num) as [dst1|] eqn:Hg; [|done]. apply (groups_Some 8 [] dst1 0) in Hg as (Hlen & Hz & ->).
  cbn [mbind option_bind]. destruct (getCb num cb 0) as [v|] eqn:Hv; [|done]. apply getCb_Some in Hv as [-> Hv].
  cbn [mbind option_bind]. intros [= <-].
  assert (∀ i, i < num → 32 ≤ length (cb i))%nat as Hall.
  { intros i Hi. destruct (decide (i = 0)%nat) as [->|]; [done|]. apply Hlen. unfold from. simpl. lia. }
  split; [done|]. rewrite encodeSingle_leaf, Nat.sub_0_r by done. cbn [app].
  destruct (enc_full rchildren (leafnode [0; 16] 0) 8) as [Hp He]; [done| |done|].
  { intros o. unfold rchildren. rewrite elem_of_app, elem_of_cons. intros [(g & -> & Hg%elem_of_seq)%list_elem_of_fmap|[->|Ho]].
    - unfold rchild. destruct (Nat.ltb_spec (16 * g) num); [right|by left]. apply Hz.
      destruct (group_count_spec g) as [Hg' _]. lia.
    - right. eexists. by apply (raw_leaf [0; 16] 0 zeroKey); [|simpl; lia|].
    - left. by apply elem_of_replicate in Ho as [? _]. }
  unfold root_of, rnode. rewrite He. rewrite rchildren_payload in * by done. unfold fast_hash. rewrite <- !app_assoc in *.
  by rewrite marshalList_buffer by done.
Qed.

(** *** The keys of the nodes *)

Hypothesis cb_long : ∀ i, (i < num → 32 ≤ length (cb i))%nat.

Lemma cb_ne i : (i < num)%nat → cb i ≠ [].
Proof. intros Hi E. pose proof (cb_long i Hi) as Hl. rewrite E in Hl. simpl in Hl. lia. Qed.

Lemma gnode_ok st HP ep g :
  0 ≤ ep → (from g < to g)%nat →
  wf st HP ep (gnode g) ∧
  ∀ k v, has st (gnode g) k v ↔ ∃ i, (from g ≤ i < to g)%nat ∧ k = [Z.of_nat (i - 16 * g); 16] ∧ v = cb i.
Proof.
  intros Hep Hlt. destruct (from_bounds g) as (Hf & _ & _). assert (to g ≤ num ∧ to g ≤ 16 * g + 16)%nat as [Hto Hto'] by (unfold to; lia).
  unfold gnode. destruct (Nat.eqb_spec (to g - from g) 1) as [E1|E1].
  - split; [apply wf_leaf; [apply tkey_cons; [unfold nib; lia|constructor]|apply cb_ne; lia|by left]|].
    intros k v. unfold leafnode. rewrite leaf_has. split.
    + intros [-> ->]. exists (from g). split; [lia|done].
    + intros (i & Hi & -> & ->). replace i with (from g) by lia. done.
  - assert (∀ i n, index i → edge None (gchild g <$> seq 0 16) i = Some n ↔
      ∃ j, (from g ≤ j < to g)%nat ∧ i = Z.of_nat (j - 16 * g) ∧ n = leafnode [16] j) as Hedge.
    { intros i n Hi. unfold edge. destruct (Z.eqb_spec i 16) as [->|].
      { split; [done|]. intros (j & ? & ? & _). lia. }
      unfold index in Hi. rewrite list_lookup_fmap, lookup_seq_lt by lia. cbn [fmap option_fmap option_map mjoin option_join]. unfold gchild.
      destruct (Nat.leb_spec (from g) (16 * g + (0 + Z.to_nat i))), (Nat.ltb_spec (16 * g + (0 + Z.to_nat i)) (to g)); cbn [andb].
      2-4: split; [done|]; intros (j & ? & ? & _); lia.
      split; [intros [= <-]; eexists; split_and!; [..|done]; lia|]. intros (j & Hj & -> & ->). do 2 f_equal. lia. }
    assert (∀ i n, edge None (gchild g <$> seq 0 16) i = Some n → index i → ∃ j, (from g ≤ j < to g)%nat ∧ n = leafnode [16] j) as Hsome.
    { intros i n Hn Hi. apply Hedge in Hn as (j & ? & ? & ?); eauto. }
    split.
    + constructor; [done| |done| |by left|split; [lia|done]].
      * intros i n Hi Hn. destruct (Hsome i n Hn ltac:(auto with go)) as (j & Hj & ->).
        apply wf_leaf; [constructor|apply cb_ne; lia|by left].
      * exists (Z.of_nat (from g - 16 * g)), (Z.of_nat (S (from g) - 16 * g)). split; [lia|].
        assert (index (Z.of_nat (from g - 16 * g)) ∧ index (Z.of_nat (S (from g) - 16 * g))) as [Hi1 Hi2] by (unfold index; lia).
        split; [done|]. split; [done|]. split; eexists; (apply Hedge; [done|]); eexists; (split; [|split; [reflexivity|done]]); lia.
    + intros k v. rewrite has_full_inv. split.
      * intros (i & k' & n & -> & Hi & Hn & Hk). apply Hedge in Hn as (j & Hj & -> & ->); [|done].
        apply leaf_has in Hk as [-> ->]. by exists j.
      * intros (i & Hi & -> & ->). eexists _, _, _. split; [done|]. split; [unfold index; lia|].
        split; [apply Hedge; [unfold index; lia|]; by exists i|]. by apply leaf_has.
Qed.

(** The nibbles of the key of value [i]. *)
Definition nkey (i : nat) : bytes :=
  if (i =? 0)%nat then [8; 0; 16] else [Z.of_nat (i / 16); Z.of_nat (i mod 16); 16].

Lemma rchildren_edge i n :
  index i → edge None rchildren i = Some n ↔
  (∃ g, i = Z.of_nat g ∧ (16 * g < num)%nat ∧ n = gnode g) ∨ i = 8 ∧ n = leafnode [0; 16] 0.
Proof.
  intros Hi. unfold edge, index in *. destruct (Z.eqb_spec i 16) as [->|Hne].
  { split; [done|]. intros [(g & ? & ? & _)|[? _]]; lia. }
  unfold rchildren. destruct (decide (i < 8)) as [Hlt|Hge].
  - rewrite lookup_app_l by (rewrite length_fmap, length_seq; lia). rewrite list_lookup_fmap, lookup_seq_lt by lia.
    cbn [fmap option_fmap option_map mjoin option_join Nat.add]. unfold rchild. destruct (Nat.ltb_spec (16 * Z.to_nat i) num).
    + split; [intros [= <-]; left; exists (Z.to_nat i); split; [lia|done]|].
      intros [(g & -> & _ & ->)|[? _]]; [by rewrite Nat2Z.id|lia].
    + split; [done|]. intros [(g & -> & ? & _)|[? _]]; lia.
  - rewrite lookup_app_r by (rewrite length_fmap, length_seq; lia). rewrite length_fmap, length_seq.
    destruct (decide (i = 8)) as [->|].
    + split; [intros [= <-]; by right|]. intros [(g & ? & ? & _)|[_ ->]]; [lia|done].
    + rewrite lookup_cons_ne_0, lookup_replicate_2 by lia. split; [done|]. intros [(g & ? & ? & _)|[? _]]; lia.
Qed.

Lemma rnode_ok st HP ep :
  0 ≤ ep → wf st HP ep rnode ∧ ∀ k v, has st rnode k v ↔ ∃ i, (i < num)%nat ∧ k = nkey i ∧ v = cb i.
Proof.
  intros Hep. assert (∀ g, 16 * g < num → from g < to g)%nat as Hft.
  { intros g Hg. unfold from, to. destruct (Nat.eqb_spec g 0); lia. }
  assert (∀ j, (j < num)%nat → j ≠ 0%nat → (from (j / 16) ≤ j < to (j / 16))%nat) as Hin.
  { intros j Hj Hj0. pose proof (Nat.div_mod j 16 ltac:(lia)). pose proof (Nat.mod_upper_bound j 16 ltac:(lia)).
    unfold from, to. destruct (Nat.eqb_spec (j / 16) 0); lia. }
  split.
  - unfold rnode. constructor; [done| |done| |by left|split; [lia|done]].
    + intros i n Hi [(g & -> & Hg & ->)|[-> ->]]%rchildren_edge; [|..|auto with go].
      * by apply gnode_ok; [|apply Hft].
      * apply wf_leaf; [apply tkey_cons; [unfold nib; lia|constructor]|apply cb_ne; lia|by left].
    + exists 0, 8. split; [done|]. split; [unfold index; lia|]. split; [unfold index; lia|].
      split; eexists; apply rchildren_edge; [unfold index; lia| |unfold index; lia|by right].
      left. exists 0%nat. split; [done|]. split; [lia|done].
  - intros k v. unfold rnode. rewrite has_full_inv. split.
    + intros (i & k' & n & -> & Hi & [(g & -> & Hg & ->)|[-> ->]]%rchildren_edge & Hk); [|..|done].
      * apply (proj2 (gnode_ok st HP ep g Hep (Hft g Hg))) in Hk as (j & Hj & -> & ->). exists j.
        destruct (from_bounds g) as (Hf & _ & _). unfold to in Hj. assert (j ≠ 0)%nat as Hj0 by (unfold from in Hj; destruct (Nat.eqb_spec g 0); lia).
        split; [lia|]. split; [|done]. unfold nkey. rewrite (proj2 (Nat.eqb_neq _ _)) by done.
        rewrite <- (Nat.div_unique j 16 g (j - 16 * g)), <- (Nat.mod_unique j 16 g (j - 16 * g)) by lia. done.
      * apply leaf_has in Hk as [-> ->]. exists 0%nat. split; [lia|done].
    + intros (i & Hi & -> & ->). unfold nkey. destruct (Nat.eqb_spec i 0) as [->|Hne].
      * exists 8, [0; 16], (leafnode [0; 16] 0). split; [done|]. split; [unfold index; lia|].
        split; [apply rchildren_edge; [unfold index; lia|by right]|]. by apply leaf_has.
      * pose proof (Nat.div_mod i 16 ltac:(lia)). pose proof (Nat.mod_upper_bound i 16 ltac:(lia)).
        exists (Z.of_nat (i / 16)), [Z.of_nat (i mod 16); 16], (gnode (i / 16)). split; [done|]. split; [unfold index; lia|].
        split; [apply rchildren_edge; [unfold index; lia|]; left; eexists; split_and!; [done|lia|done]|].
        apply (gnode_ok st HP ep (i / 16) Hep (Hft (i / 16)%nat ltac:(lia))). exists i. split; [by apply Hin|]. split; [|done]. do 2 f_equal. lia.
Qed.
End values.

(** *** The trie of the values *)

Definition key (i : nat) : bytes := MarshalTo (NewUint (u64 (Z.of_nat i))).

Lemma length_Bytes_u64 i : (length (Bytes (u64 (Z.of_nat i))) ≤ 8)%nat.
Proof.
  pose proof (u64_range (Z.of_nat i)) as Hr. unfold Bytes. rewrite length_be_bytes.
  pose proof (BitLen_bound (u64 (Z.of_nat i)) 64 Hr ltac:(lia)).
  assert ((BitLen (u64 (Z.of_nat i)) + 7) / 8 < 9); [|lia]. apply Z.div_lt_upper_bound; lia.
Qed.

Lemma key_format i : key i = rlp_encode (IBytes (Bytes (u64 (Z.of_nat i)))).
Proof.
  unfold key. apply MarshalTo_format. cbn [item_of]. pose proof (length_Bytes_u64 i) as Hl. set (b := Bytes _) in *.
  destruct (decide (length b = 1)%nat) as [E|].
  - destruct b as [|d [|]]; try done. cbn. case_match; simpl; lia.
  - rewrite rlp_encode_long, length_app by done. pose proof (length_header_le 0x80 0xB7 (length b) ltac:(lia)). lia.
Qed.

Lemma key_range i : Forall byte_range (key i).
Proof.
  rewrite key_format. pose proof (length_Bytes_u64 i) as Hl.
  assert (Forall byte_range (Bytes (u64 (Z.of_nat i)))) as Hb by apply be_bytes_range. set (b := Bytes _) in *.
  assert (Forall byte_range (rlp_header 0x80 0xB7 (length b) ++ b)) as Hh.
  { apply Forall_app. split; [|done]. unfold rlp_header. rewrite (proj2 (Z.ltb_lt _ _)) by lia.
    repeat constructor; unfold byte_range; lia. }
  destruct b as [|d [|]]; [exact Hh| |exact Hh]. cbn. by case_match.
Qed.

(** The key of one of the first 128 values. *)
Lemma key_small i : (i < 128)%nat → key i = [if (i =? 0)%nat then 0x80 else Z.of_nat i].
Proof.
  intros Hi. rewrite key_format, u64_small by (unfold is_u64, M64; lia). destruct (Nat.eqb_spec i 0) as [->|]; [done|].
  assert (Bytes (Z.of_nat i) = [Z.of_nat i]) as ->; [|cbn; by rewrite (proj2 (Z.ltb_lt _ _)) by lia].
  pose proof (length_Bytes (Z.of_nat i) 0 ltac:(simpl; lia)) as Hl. unfold Bytes in *. rewrite length_be_bytes in Hl. rewrite Hl.
  cbn [be_bytes app]. rewrite Z.abs_eq, Z.mod_small by lia. done.
Qed.

Lemma key_nibbles i : (i < 128)%nat → bytesToHexNibbles (key i) = nkey i.
Proof.
  intros Hi. rewrite key_small by done. unfold nkey, bytesToHexNibbles. destruct (i =? 0)%nat; [done|].
  rewrite (Nat2Z.inj_div i 16), (Nat2Z.inj_mod i 16). done.
Qed.

Lemma key_inj i j : (i < 128)%nat → (j < 128)%nat → key i = key j → i = j.
Proof.
  intros Hi Hj. rewrite !key_small by done. destruct (Nat.eqb_spec i 0), (Nat.eqb_spec j 0); intros E; simplify_eq; lia.
Qed.

Definition list_map (h : nat → bytes) (l : list nat) (m : gmap (list Z) (list Z)) : gmap (list Z) (list Z) :=
  foldl (λ m i, <[key i := h i]> m) m l.

Lemma insert_all_rep h l t m :
  (∀ i, h i ≠ []) → txn_rep [] t m →
  ∃ t', insert_all h l t = Ret t' ∧ txn_rep [] t' (list_map h l m).
Proof.
  intros Hh. revert t m. induction l as [|i l IH]; intros t m Hrep; [by exists t|]. cbn [insert_all].
  destruct (Insert_rep [] t m (key i) (h i) Hrep (key_range i) (Hh i)) as (t1 & E & Hrep1 & _). unfold key in E. rewrite E. cbn [obind].
  by apply IH.
Qed.

Lemma list_map_lookup h n k v :
  (n ≤ 128)%nat → list_map h (seq 0 n) ∅ !! k = Some v ↔ ∃ i, (i < n)%nat ∧ k = key i ∧ v = h i.
Proof.
  intros Hn. induction n as [|n IH].
  { cbn. rewrite lookup_empty. split; [done|]. intros (? & ? & _). lia. }
  unfold list_map in *. rewrite seq_S, foldl_app. cbn [foldl]. rewrite lookup_insert. case_decide as Hk.
  - split; [intros [= <-]; exists n; split; [lia|done]|]. intros (i & Hi & -> & ->). do 2 f_equal. apply key_inj; [lia..|done].
  - rewrite IH by lia. split; intros (i & Hi & -> & ->).
    + exists i. split; [lia|done].
    + exists i. split; [|done]. destruct (decide (i = n)) as [->|]; [done|lia].
Qed.

(** The node of the fast hasher holds the same map. *)
Lemma fast_rep h num :
  (∀ i, Z.of_nat (length (h i)) < 2 ^ 32) → (1 ≤ num ≤ 128)%nat → ∀ dst, fast_Hash num h = Some dst →
  ∃ n, dst = root_of (Some n) ∧ root_rep [] ∅ 1 (Some n) (list_map h (seq 0 num) ∅).
Proof.
  intros Hsize Hnum dst Hd.
  assert (∀ k v, list_map h (seq 0 num) ∅ !! k = Some v → Forall byte_range k) as Hkeys.
  { intros k v (i & _ & -> & _)%list_map_lookup; [apply key_range|lia]. }
  assert (∀ n, (∀ k v, has ∅ n k v ↔ ∃ i, (i < num)%nat ∧ k = nkey i ∧ v = h i) →
    ∀ kk v, has ∅ n kk v ↔ ∃ k, kk = bytesToHexNibbles k ∧ list_map h (seq 0 num) ∅ !! k = Some v) as Hhas.
  { intros n Hn kk v. rewrite Hn. setoid_rewrite list_map_lookup; [|lia]. split.
    - intros (i & Hi & -> & ->). exists (key i). split; [by rewrite key_nibbles by lia|]. by exists i.
    - intros (k & -> & i & Hi & -> & ->). exists i. rewrite key_nibbles by lia. done. }
  destruct (decide (num = 1)%nat) as [->|].
  - unfold fast_Hash, encodeOneItem in Hd. cbn [Nat.eqb] in Hd. destruct (getCb 1 h 0) as [v|] eqn:Hv; [|done].
    apply getCb_Some in Hv as [-> Hv]. cbn [mbind option_bind] in Hd. simplify_eq.
    exists (leafnode h [8; 0; 16] 0). unfold root_of. destruct (raw_leaf h Hsize [8; 0; 16] 0 singleKey) as [_ ->]; [done|done|done|].
    split; [unfold fast_hash; rewrite leaf_buffer; [done|done|done|simpl; lia]|].
    apply rep_intro; [apply wf_leaf; [repeat constructor; unfold nib; lia|by intros E; rewrite E in Hv; simpl in Hv; lia|by left]|done|].
    apply Hhas. intros k v. unfold leafnode. rewrite leaf_has. split; [intros [-> ->]; by exists 0%nat; split; [lia|]|].
    intros (i & Hi & -> & ->). by replace i with 0%nat by lia.
  - destruct (fast_Hash_Some num h Hsize ltac:(lia) dst Hd) as [Hlong ->]. exists (rnode num h). split; [done|].
    apply rep_intro; [by apply rnode_ok; [lia|..]|done|]. apply Hhas. by apply (rnode_ok num h ltac:(lia) Hlong ∅ (λ _ _, False) 1).
Qed.

(** C35.  [CalculateRoot] is the root of the trie that maps the RLP of each index to
    its value, whether the fast hasher computes it or not: the fast hasher gives
    the root [deriveSlow] gives. *)
Theorem CalculateRoot_is_trie_root num h :
  (∀ i, h i ≠ [] ∧ Z.of_nat (length (h i)) < 2 ^ 32) →
  ∃ root, deriveSlow num h = Ret root ∧ CalculateRoot num h = Ret (BytesToHash root) ∧
    ∀ dst, (1 ≤ num ≤ 128)%nat → fast_Hash num h = Some dst → dst = root.
Proof.
  intros Hh. destruct (insert_all_rep h (seq 0 num) (trie_Txn ∅ NewTrie) ∅) as (t & Et & Hrep); [apply Hh|apply newTxn_rep|].
  destruct (txn_Hash_root _ _ _ Hrep) as (t' & puts & Eh). exists (root_of (tt_root t)).
  assert (deriveSlow num h = Ret (root_of (tt_root t))) as Hslow by (unfold deriveSlow; rewrite Et; cbn [obind]; by rewrite Eh).
  assert (∀ dst, (1 ≤ num ≤ 128)%nat → fast_Hash num h = Some dst → dst = root_of (tt_root t)) as Hfast.
  { intros dst Hn Hd. destruct (fast_rep h num (λ i, proj2 (Hh i)) Hn dst Hd) as (n & -> & Hn').
    eapply root_canonical; [exact Hn'|apply Hrep]. }
  split; [done|]. split; [|done]. unfold CalculateRoot. destruct (Nat.eqb_spec num 0) as [->|].
  { injection Et as <-. cbn [trie_Txn tt_root NewTrie tr_root root_of]. by rewrite emptyRoot_value. }
  destruct (Nat.leb_spec num 128); [|by rewrite Hslow].
  destruct (fast_Hash num h) as [dst|] eqn:Hd; [|by rewrite Hslow]. by rewrite (Hfast dst ltac:(lia) eq_refl).
Qed.
End spec.
