(* ===== verification/Blockchain.v ===== *)
(** Package [blockchain] ([blockchain.go], [subscription.go]) and the genesis
    header of [chain/chain.go].

    A [Blockchain] is a record: the database as the interface [Storage] shows it
    ([chain_db], which [ChainStorage] implements on keys and bytes), the caches,
    the current header, the average gas price, the subscribers and the state
    behind the consensus engine and the executor.  A method takes the record and
    gives back an [outcome] with the new one; a nil pointer dereferenced is
    [Panic].  The interfaces [Verifier], [Executor] and [TxSigner] are the class
    [ChainDeps].  A reader of [atomic.Value] sees the last value stored, and
    [Header.Copy] is the header. *)
From S2P Require Import Prelude Types Runtime Crypto StateTxn Bloom Rlp RlpTypes ChainStorage Trie BuildRoot.

(** ** Interfaces *)

Class ChainDeps := {
  dep_state : Type;
  transition : Type;
  dep_err : Type;
  VerifyHeader : Header → dep_state → outcome (result dep_err () * dep_state);
  ProcessHeaders : list Header → dep_state → outcome (result dep_err () * dep_state);
  GetBlockCreator : Header → dep_state → outcome (result dep_err Address * dep_state);
  PreCommitState : Header → transition → dep_state → outcome (result dep_err transition * dep_state);
  executor_ProcessBlock : Hash → Block → Address → dep_state → outcome (result dep_err transition * dep_state);
  tr_Commit : transition → dep_state → outcome (Hash * dep_state);
  tr_Receipts : transition → list Receipt;
  tr_TotalGas : transition → Z;
  signer_Sender : Transaction → outcome (result dep_err Address);
}.

(** ** Errors *)

Inductive chain_err `{ChainDeps} :=
| ErrNoBlock
| ErrParentNotFound
| ErrInvalidParentHash
| ErrParentHashMismatch
| ErrInvalidBlockSequence
| ErrInvalidSha3Uncles
| ErrInvalidTxRoot
| ErrInvalidReceiptsSize
| ErrInvalidStateRoot
| ErrInvalidGasUsed
| ErrInvalidReceiptsRoot
| ErrGasLimit
| ErrNoGenesisHash
| ErrGenesisMismatch
| ErrNoHeader
| ErrNoDifficulty
| ErrParentDifficulty
| ErrEmptyHeaders
| ErrNumberSequence
| ErrParentHash
| ErrDep (e : dep_err).

(** ** Events ([subscription.go]) *)

Inductive EventType := EventHead | EventReorg | EventFork.

Record Event := mkEvent {
  ev_OldChain : list Header;
  ev_NewChain : list Header;
  ev_Difficulty : option Z;
  ev_Type : EventType;
  ev_Source : list Z;
}.

Definition new_event (source : list Z) : Event := mkEvent [] [] None EventHead source.

(** [Event.Header]: the slice may be empty. *)
Definition ev_Header (e : Event) : outcome Header :=
  match last (ev_NewChain e) with Some h => Ret h | None => Panic end.
Definition SetDifficulty (d : Z) (e : Event) : Event :=
  mkEvent (ev_OldChain e) (ev_NewChain e) (Some d) (ev_Type e) (ev_Source e).
Definition AddNewHeader (h : Header) (e : Event) : Event :=
  mkEvent (ev_OldChain e) (ev_NewChain e ++ [h]) (ev_Difficulty e) (ev_Type e) (ev_Source e).
Definition AddOldHeader (h : Header) (e : Event) : Event :=
  mkEvent (ev_OldChain e ++ [h]) (ev_NewChain e) (ev_Difficulty e) (ev_Type e) (ev_Source e).
Definition set_Type (t : EventType) (e : Event) : Event :=
  mkEvent (ev_OldChain e) (ev_NewChain e) (ev_Difficulty e) t (ev_Source e).

(** An update channel has room for one event. *)
Definition eventStream := list (option Event).

Definition newUpdateCh (s : eventStream) : nat * eventStream := (length s, s ++ [None]).
Definition push (event : Event) (s : eventStream) : eventStream :=
  (λ slot, match slot with None => Some event | Some e => Some e end) <$> s.
(** [GetEvent] when an event is there; it blocks otherwise. *)
Definition GetEvent (i : nat) (s : eventStream) : option (Event * eventStream) :=
  match s !! i with Some (Some e) => Some (e, <[i := None]> s) | _ => None end.

(** ** Genesis ([chain/chain.go]) *)

Record Genesis := mkGenesis {
  g_Nonce : bytes;
  g_Timestamp : Z;
  g_ExtraData : bytes;
  g_GasLimit : Z;
  g_Difficulty : Z;
  g_Mixhash : Hash;
  g_Coinbase : Address;
  g_StateRoot : Hash;
  g_Number : Z;
  g_GasUsed : Z;
  g_ParentHash : Hash;
}.

Definition GenesisGasLimit : Z := 4712388.
Definition GenesisDifficulty : Z := 131072.

Definition GenesisHeader (g : Genesis) : Header :=
  let stateRoot := if negb (g_StateRoot g =? ZeroHash) then g_StateRoot g else EmptyRootHash in
  mkHeader (g_ParentHash g) EmptyUncleHash (AddressBytes (g_Coinbase g)) stateRoot EmptyRootHash EmptyRootHash
    (replicate 256 0)
    (if g_Difficulty g =? 0 then Uint64 GenesisDifficulty else g_Difficulty g)
    (g_Number g)
    (if g_GasLimit g =? 0 then GenesisGasLimit else g_GasLimit g)
    (g_GasUsed g) (g_Timestamp g) (g_ExtraData g) (g_Mixhash g) (g_Nonce g) ZeroHash.

(** [helper/common]: [Min], [Max]. *)
Definition Min (a b : Z) : Z := if a <? b then a else b.
Definition Max (a b : Z) : Z := if a >? b then a else b.

Definition BlockGasTargetDivisor : Z := 1024.

Definition calculateGasLimit (blockGasTarget parentGasLimit : Z) : Z :=
  if blockGasTarget =? 0 then parentGasLimit
  else if parentGasLimit =? blockGasTarget then blockGasTarget
  else
    let delta := mul64 parentGasLimit 1 / BlockGasTargetDivisor in
    if parentGasLimit <? blockGasTarget then Min blockGasTarget (add64 parentGasLimit delta)
    else Max blockGasTarget (Max (sub64 parentGasLimit delta) 0).

(** ** The chain *)

Section blockchain.
Context `{External} `{RlpReader} `{LRU} `{ChainDeps}.

(** [types.HeaderHash], the genesis file and the gas target of the
    configuration. *)
Variable HeaderHash : Header → Hash.
Variable genesis_config : Genesis.
Variable blockGasTarget : Z.

Definition verifyGasLimit (header parentHeader : Header) : result chain_err () :=
  if hd_GasUsed header >? hd_GasLimit header then Err ErrGasLimit
  else if hd_Number header =? 0 then Ok ()
  else
    let diff := s64 (s64 (hd_GasLimit parentHeader) - s64 (hd_GasLimit header)) in
    let diff := if diff <? 0 then s64 (diff * -1) else diff in
    let limit := hd_GasLimit parentHeader / BlockGasTargetDivisor in
    if u64 diff >? limit then Err ErrGasLimit else Ok ().

Definition genesis_Hash (g : Genesis) : Hash := hd_Hash (hd_ComputeHash HeaderHash (GenesisHeader g)).

Record Blockchain := mkChain {
  bc_db : chain_db;
  bc_genesis : Hash;
  bc_headersCache : cache Header;
  bc_difficultyCache : cache Z;
  bc_receiptsCache : cache (list Receipt);
  bc_currentHeader : option Header;
  bc_currentDifficulty : option Z;
  bc_price : Z;
  bc_count : Z;
  bc_stream : eventStream;
  bc_deps : dep_state;
}.

Definition on_db (f : chain_db → chain_db) (b : Blockchain) : Blockchain :=
  mkChain (f (bc_db b)) (bc_genesis b) (bc_headersCache b) (bc_difficultyCache b) (bc_receiptsCache b) (bc_currentHeader b)
    (bc_currentDifficulty b) (bc_price b) (bc_count b) (bc_stream b) (bc_deps b).
Definition set_genesis (h : Hash) (b : Blockchain) : Blockchain :=
  mkChain (bc_db b) h (bc_headersCache b) (bc_difficultyCache b) (bc_receiptsCache b) (bc_currentHeader b)
    (bc_currentDifficulty b) (bc_price b) (bc_count b) (bc_stream b) (bc_deps b).
Definition set_headersCache (c : cache Header) (b : Blockchain) : Blockchain :=
  mkChain (bc_db b) (bc_genesis b) c (bc_difficultyCache b) (bc_receiptsCache b) (bc_currentHeader b)
    (bc_currentDifficulty b) (bc_price b) (bc_count b) (bc_stream b) (bc_deps b).
Definition set_difficultyCache (c : cache Z) (b : Blockchain) : Blockchain :=
  mkChain (bc_db b) (bc_genesis b) (bc_headersCache b) c (bc_receiptsCache b) (bc_currentHeader b)
    (bc_currentDifficulty b) (bc_price b) (bc_count b) (bc_stream b) (bc_deps b).
Definition set_receiptsCache (c : cache (list Receipt)) (b : Blockchain) : Blockchain :=
  mkChain (bc_db b) (bc_genesis b) (bc_headersCache b) (bc_difficultyCache b) c (bc_currentHeader b)
    (bc_currentDifficulty b) (bc_price b) (bc_count b) (bc_stream b) (bc_deps b).
Definition setCurrentHeader (h : Header) (diff : Z) (b : Blockchain) : Blockchain :=
  mkChain (bc_db b) (bc_genesis b) (bc_headersCache b) (bc_difficultyCache b) (bc_receiptsCache b) (Some h)
    (Some diff) (bc_price b) (bc_count b) (bc_stream b) (bc_deps b).
Definition set_average (price count : Z) (b : Blockchain) : Blockchain :=
  mkChain (bc_db b) (bc_genesis b) (bc_headersCache b) (bc_difficultyCache b) (bc_receiptsCache b) (bc_currentHeader b)
    (bc_currentDifficulty b) price count (bc_stream b) (bc_deps b).
Definition set_stream (s : eventStream) (b : Blockchain) : Blockchain :=
  mkChain (bc_db b) (bc_genesis b) (bc_headersCache b) (bc_difficultyCache b) (bc_receiptsCache b) (bc_currentHeader b)
    (bc_currentDifficulty b) (bc_price b) (bc_count b) s (bc_deps b).
Definition set_deps (s : dep_state) (b : Blockchain) : Blockchain :=
  mkChain (bc_db b) (bc_genesis b) (bc_headersCache b) (bc_difficultyCache b) (bc_receiptsCache b) (bc_currentHeader b)
    (bc_currentDifficulty b) (bc_price b) (bc_count b) (bc_stream b) s.

(** [NewBlockchain] over a database; nobody listens to its first event. *)
Definition NewBlockchain (db : chain_db) (deps : dep_state) : Blockchain :=
  mkChain db ZeroHash lru_New lru_New lru_New None None 0 0 (push (new_event []) []) deps.

(** A call to the consensus engine or to the executor. *)
Definition call_dep {A} (f : dep_state → outcome (result dep_err A * dep_state)) (b : Blockchain)
    : outcome (result chain_err A * Blockchain) :=
  let~ (r, s) := f (bc_deps b) in
  Ret (match r with Ok a => Ok a | Err e => Err (ErrDep e) end, set_deps s b).

(** *** The average gas price *)

Definition calcArithmeticAverage (newValues : list Z) (sum : Z) (b : Blockchain) : outcome Blockchain :=
  let newAverageCount := Z.of_nat (length newValues) in
  if newAverageCount =? 0 then Panic else Ret (set_average (sum / newAverageCount) newAverageCount b).

Definition calcRollingAverage (newValues : list Z) (sum : Z) (b : Blockchain) : Blockchain :=
  let oldCount := bc_count b in
  let oldAverage := bc_price b in
  let inputSetCount := Z.of_nat (length newValues) in
  let newAverage := (oldAverage * (oldCount - inputSetCount)) / oldCount in
  let newAverage := newAverage + sum / oldCount in
  set_average newAverage (inputSetCount + oldCount) b.

Definition updateGasPriceAvg (newValues : list Z) (b : Blockchain) : outcome Blockchain :=
  let sum := foldl Z.add 0 newValues in
  if Uint64 (bc_count b) =? 0 then calcArithmeticAverage newValues sum b
  else Ret (calcRollingAverage newValues sum b).

Definition updateGasPriceAvgWithBlock (block : Block) (b : Blockchain) : outcome Blockchain :=
  if (length (bk_Transactions block) <? 1)%nat then Ret b
  else updateGasPriceAvg (tx_GasPrice <$> bk_Transactions block) b.

Definition GetAvgGasPrice (b : Blockchain) : Z := bc_price b.

(** *** Reads *)

Definition chain_Header (b : Blockchain) : option Header := bc_currentHeader b.
Definition CurrentTD (b : Blockchain) : option Z := bc_currentDifficulty b.
Definition Empty (b : Blockchain) : bool := match db_headHash (bc_db b) with Some _ => false | None => true end.

Definition readHeader (hash : Hash) (b : Blockchain) : option Header * Blockchain :=
  let '(h, c) := lru_Get hash (bc_headersCache b) in
  let b := set_headersCache c b in
  match h with
  | Some header => (Some header, b)
  | None =>
      match db_headers (bc_db b) !! hash with
      | None => (None, b)
      | Some hh =>
          let hh := hd_ComputeHash HeaderHash hh in
          (Some hh, set_headersCache (lru_Add hash hh (bc_headersCache b)) b)
      end
  end.

Definition GetParent (header : Header) : Blockchain → option Header * Blockchain := readHeader (hd_ParentHash header).

Definition readTotalDifficulty (headerHash : Hash) (b : Blockchain) : option Z * Blockchain :=
  let '(d, c) := lru_Get headerHash (bc_difficultyCache b) in
  let b := set_difficultyCache c b in
  match d with
  | Some fd => (Some fd, b)
  | None =>
      match db_difficulty (bc_db b) !! headerHash with
      | None => (None, b)
      | Some dbDifficulty =>
          (Some dbDifficulty, set_difficultyCache (lru_Add headerHash dbDifficulty (bc_difficultyCache b)) b)
      end
  end.

Definition GetChainTD (b : Blockchain) : outcome (option Z * Blockchain) :=
  match chain_Header b with
  | None => Panic
  | Some header => Ret (readTotalDifficulty (hd_Hash header) b)
  end.

Definition GetHeaderByNumber (n : Z) (b : Blockchain) : option Header * Blockchain :=
  match db_canonical (bc_db b) !! n with
  | None => (None, b)
  | Some hash => readHeader hash b
  end.

Definition CalculateGasLimit (number : Z) (b : Blockchain) : result chain_err Z * Blockchain :=
  match GetHeaderByNumber (sub64 number 1) b with
  | (None, b) => (Err ErrParentNotFound, b)
  | (Some parent, b) => (Ok (calculateGasLimit blockGasTarget (hd_GasLimit parent)), b)
  end.

(** [recoverFromFieldsInTransactions], on transactions of a body just read. *)
Fixpoint recoverFromFieldsInTransactions (transactions : list Transaction) : outcome (bool * list Transaction) :=
  match transactions with
  | [] => Ret (false, [])
  | tx :: rest =>
      if negb (tx_From tx =? ZeroAddress) then
        let~ (updated, rest) := recoverFromFieldsInTransactions rest in Ret (updated, tx :: rest)
      else
        let~ r := signer_Sender tx in
        let~ (updated, rest) := recoverFromFieldsInTransactions rest in
        match r with
        | Err _ => Ret (updated, tx :: rest)
        | Ok sender => Ret (true, set_From sender tx :: rest)
        end
  end.

Definition readBody (hash : Hash) (b : Blockchain) : outcome (option Body * Blockchain) :=
  match db_bodies (bc_db b) !! hash with
  | None => Ret (None, b)
  | Some bb =>
      let~ (updated, txs) := recoverFromFieldsInTransactions (bd_Transactions bb) in
      let bb := mkBody txs (bd_Uncles bb) in
      let b := if updated then on_db (WriteBody hash bb) b else b in
      Ret (Some bb, b)
  end.

(** The block and the flag the code returns with it. *)
Definition GetBlockByHash (hash : Hash) (full : bool) (b : Blockchain) : outcome (option Block * bool * Blockchain) :=
  match readHeader hash b with
  | (None, b) => Ret (None, false, b)
  | (Some header, b) =>
      if negb full || (hd_Number header =? 0) then Ret (Some (mkBlock header [] []), true, b)
      else
        let~ (body, b) := readBody hash b in
        match body with
        | None => Ret (Some (mkBlock header [] []), false, b)
        | Some body => Ret (Some (mkBlock header (bd_Transactions body) (bd_Uncles body)), true, b)
        end
  end.

Definition GetBlockByNumber (blockNumber : Z) (full : bool) (b : Blockchain) : outcome (option Block * bool * Blockchain) :=
  match db_canonical (bc_db b) !! blockNumber with
  | None => Ret (None, false, b)
  | Some blockHash => GetBlockByHash blockHash (if blockNumber =? 0 then false else full) b
  end.

Definition GetHashByNumber (blockNumber : Z) (b : Blockchain) : outcome (Hash * Blockchain) :=
  let~ (block, ok, b) := GetBlockByNumber blockNumber false b in
  Ret (match block, ok with Some block, true => hd_Hash (bk_Header block) | _, _ => ZeroHash end, b).

(** [GetHashHelper]: the loop stops when [num] reaches zero. *)
Fixpoint hash_loop (fuel : nat) (i num : Z) (hash : Hash) (b : Blockchain) : outcome (Hash * Blockchain) :=
  match fuel with
  | O => NoFuel
  | S fuel =>
      if num =? i then Ret (hash, b)
      else
        match readHeader hash b with
        | (None, b) => Ret (ZeroHash, b)
        | (Some h, b) =>
            if num =? 0 then Ret (ZeroHash, b) else hash_loop fuel i (sub64 num 1) (hd_ParentHash h) b
        end
  end.
Definition GetHashHelper (header : Header) (i : Z) (b : Blockchain) : outcome (Hash * Blockchain) :=
  let num := sub64 (hd_Number header) 1 in
  hash_loop (S (Z.to_nat num)) i num (hd_ParentHash header) b.

(** *** Writing headers *)

Definition advanceHead (newHeader : Header) (b : Blockchain) : result chain_err Z * Blockchain :=
  let b := on_db (WriteHeadHash (hd_Hash newHeader)) b in
  let b := on_db (WriteHeadNumber (hd_Number newHeader)) b in
  let b := on_db (WriteCanonicalHash (hd_Number newHeader) (hd_Hash newHeader)) b in
  let '(parentTD, b) :=
    if negb (hd_ParentHash newHeader =? ZeroHash) then readTotalDifficulty (hd_ParentHash newHeader) b
    else (Some 0, b) in
  match parentTD with
  | None => (Err ErrParentDifficulty, b)
  | Some parentTD =>
      let newTD := parentTD + hd_Difficulty newHeader in
      let b := on_db (WriteTotalDifficulty (hd_Hash newHeader) newTD) b in
      (Ok newTD, setCurrentHeader newHeader newTD b)
  end.

Definition writeCanonicalHeader (event : Event) (h : Header) (b : Blockchain) : result chain_err Event * Blockchain :=
  match readTotalDifficulty (hd_ParentHash h) b with
  | (None, b) => (Err ErrParentDifficulty, b)
  | (Some parentTD, b) =>
      let newTD := parentTD + hd_Difficulty h in
      let b := on_db (WriteCanonicalHeader h newTD) b in
      let event := SetDifficulty newTD (AddNewHeader h (set_Type EventHead event)) in
      (Ok event, setCurrentHeader h newTD b)
  end.

Definition writeFork (header : Header) (b : Blockchain) : Blockchain :=
  let forks := default [] (db_forks (bc_db b)) in
  let newForks := filter (λ fork, fork ≠ hd_ParentHash header) forks ++ [hd_Hash header] in
  on_db (WriteForks newForks) b.

(** The walk from a header down to the height of another.  A missing parent is
    a nil pointer, which the error message dereferences. *)
Fixpoint walk_down (fuel : nat) (header : Header) (number : Z) (chain : list Header) (b : Blockchain)
    : outcome (Header * list Header * Blockchain) :=
  if hd_Number header >? number then
    match fuel with
    | O => NoFuel
    | S fuel =>
        match readHeader (hd_ParentHash header) b with
        | (None, _) => Panic
        | (Some header, b) => walk_down fuel header number (chain ++ [header]) b
        end
    end
  else Ret (header, chain, b).

Fixpoint walk_both (fuel : nat) (oldHeader newHeader : Header) (oldChain : list Header) (b : Blockchain)
    : outcome (list Header * Blockchain) :=
  if negb (hd_Hash oldHeader =? hd_Hash newHeader) then
    match fuel with
    | O => NoFuel
    | S fuel =>
        match readHeader (hd_ParentHash oldHeader) b with
        | (None, _) => Panic
        | (Some oldHeader, b) =>
            match readHeader (hd_ParentHash newHeader) b with
            | (None, _) => Panic
            | (Some newHeader, b) => walk_both fuel oldHeader newHeader (oldChain ++ [oldHeader]) b
            end
        end
    end
  else Ret (oldChain, b).

Definition handleReorg (evnt : Event) (oldHeader newHeader : Header) (b : Blockchain)
    : outcome (result chain_err Event * Blockchain) :=
  let newChainHead := newHeader in
  let oldChainHead := oldHeader in
  let fuel := S (Z.to_nat (Z.max (hd_Number oldHeader) (hd_Number newHeader))) in
  let~ (oldHeader, oldChain, b) := walk_down fuel oldHeader (hd_Number newHeader) [] b in
  let~ (newHeader, newChain, b) := walk_down fuel newHeader (hd_Number oldHeader) [] b in
  let~ (oldChain, b) := walk_both fuel oldHeader newHeader oldChain b in
  match oldChain with
  | [] => Panic
  | _ =>
      let evnt := foldl (flip AddOldHeader) evnt (removelast oldChain) in
      let evnt := AddOldHeader oldChainHead evnt in
      let evnt := AddNewHeader newChainHead evnt in
      let evnt := foldl (flip AddNewHeader) evnt newChain in
      let b := writeFork oldChainHead b in
      let b := foldl (λ b h, on_db (WriteCanonicalHash (hd_Number h) (hd_Hash h)) b) b newChain in
      match advanceHead newChainHead b with
      | (Err e, b) => Ret (Err e, b)
      | (Ok diff, b) => Ret (Ok (SetDifficulty diff (set_Type EventReorg evnt)), b)
      end
  end.

Definition writeHeaderImpl (evnt : Event) (header : Header) (b : Blockchain)
    : outcome (result chain_err Event * Blockchain) :=
  match chain_Header b with
  | None => Panic
  | Some currentHeader =>
      if hd_ParentHash header =? hd_Hash currentHeader then Ret (writeCanonicalHeader evnt header b)
      else
        let b := on_db (WriteHeader header) b in
        match readTotalDifficulty (hd_Hash currentHeader) b with
        | (None, _) => Panic
        | (Some currentTD, b) =>
            match readTotalDifficulty (hd_ParentHash header) b with
            | (None, b) => Ret (Err ErrParentNotFound, b)
            | (Some parentTD, b) =>
                let b := on_db (WriteTotalDifficulty (hd_Hash header) (parentTD + hd_Difficulty header)) b in
                let b := set_headersCache (lru_Add (hd_Hash header) header (bc_headersCache b)) b in
                let incomingTD := parentTD + hd_Difficulty header in
                if incomingTD >? currentTD then handleReorg evnt currentHeader header b
                else
                  let evnt := set_Type EventFork (AddOldHeader header evnt) in
                  Ret (Ok evnt, writeFork header b)
            end
        end
  end.

Definition dispatchEvent (evnt : Event) (b : Blockchain) : Blockchain := set_stream (push evnt (bc_stream b)) b.

(** The checks of [WriteHeadersWithBodies]. *)
Fixpoint check_headers (prev : Header) (headers : list Header) : result chain_err () :=
  match headers with
  | [] => Ok ()
  | h :: rest =>
      if negb (sub64 (hd_Number h) 1 =? hd_Number prev) then Err ErrNumberSequence
      else if negb (hd_ParentHash h =? hd_Hash prev) then Err ErrParentHash
      else check_headers h rest
  end.

Fixpoint write_headers (headers : list Header) (b : Blockchain) : outcome (result chain_err () * Blockchain) :=
  match headers with
  | [] => Ret (Ok (), b)
  | h :: rest =>
      let~ (r, b) := writeHeaderImpl (new_event []) h b in
      match r with
      | Err e => Ret (Err e, b)
      | Ok evnt => write_headers rest (dispatchEvent evnt b)
      end
  end.

Definition WriteHeadersWithBodies (headers : list Header) (b : Blockchain) : outcome (result chain_err () * Blockchain) :=
  match headers with
  | [] => Ret (Err ErrEmptyHeaders, b)
  | h :: rest =>
      match check_headers h rest with
      | Err e => Ret (Err e, b)
      | Ok _ => write_headers headers b
      end
  end.

(** *** Genesis *)

Definition writeGenesisImpl (header : Header) (b : Blockchain) : result chain_err () * Blockchain :=
  let b := set_genesis (hd_Hash header) b in
  let b := on_db (WriteHeader header) b in
  match advanceHead header b with
  | (Err e, b) => (Err e, b)
  | (Ok _, b) => (Ok (), dispatchEvent (AddNewHeader header (new_event [])) b)
  end.

Definition writeGenesis (genesis : Genesis) (b : Blockchain) : result chain_err () * Blockchain :=
  writeGenesisImpl (hd_ComputeHash HeaderHash (GenesisHeader genesis)) b.

Definition ComputeGenesis (b : Blockchain) : result chain_err () * Blockchain :=
  match db_headHash (bc_db b) with
  | Some head =>
      match db_canonical (bc_db b) !! 0 with
      | None => (Err ErrNoGenesisHash, set_genesis ZeroHash b)
      | Some genesis =>
          let b := set_genesis genesis b in
          if negb (genesis =? genesis_Hash genesis_config) then (Err ErrGenesisMismatch, b)
          else
            match readHeader head b with
            | (None, b) => (Err ErrNoHeader, b)
            | (Some header, b) =>
                match readTotalDifficulty head b with
                | (None, b) => (Err ErrNoDifficulty, b)
                | (Some diff, b) => (Ok (), setCurrentHeader header diff b)
                end
            end
      end
  | None => writeGenesis genesis_config b
  end.

(** *** Verification of blocks *)

Definition verifyBlockParent (childBlock : Block) (b : Blockchain) : result chain_err () * Blockchain :=
  let child := bk_Header childBlock in
  let parentHash := hd_ParentHash child in
  match readHeader parentHash b with
  | (None, b) => (Err ErrParentNotFound, b)
  | (Some parent, b) =>
      (if hd_Hash parent =? ZeroHash then Err ErrInvalidParentHash
       else if negb (parentHash =? hd_Hash parent) then Err ErrParentHashMismatch
       else if negb (sub64 (hd_Number child) 1 =? hd_Number parent) then Err ErrInvalidBlockSequence
       else verifyGasLimit child parent, b)
  end.

Record BlockResult := mkBlockResult {
  br_Root : Hash;
  br_Receipts : list Receipt;
  br_TotalGas : Z;
}.

Definition executeBlockTransactions (block : Block) (b : Blockchain) : outcome (result chain_err BlockResult * Blockchain) :=
  let header := bk_Header block in
  match readHeader (hd_ParentHash header) b with
  | (None, b) => Ret (Err ErrParentNotFound, b)
  | (Some parent, b) =>
      let~ (r, b) := call_dep (GetBlockCreator header) b in
      match r with Err e => Ret (Err e, b) | Ok blockCreator =>
      let~ (r, b) := call_dep (executor_ProcessBlock (hd_StateRoot parent) block blockCreator) b in
      match r with Err e => Ret (Err e, b) | Ok txn =>
      let~ (r, b) := call_dep (PreCommitState header txn) b in
      match r with Err e => Ret (Err e, b) | Ok txn =>
      let~ (root, s) := tr_Commit txn (bc_deps b) in
      let b := set_deps s b in
      let b := set_receiptsCache (lru_Add (hd_Hash header) (tr_Receipts txn) (bc_receiptsCache b)) b in
      Ret (Ok (mkBlockResult root (tr_Receipts txn) (tr_TotalGas txn)), b)
      end end end
  end.

Definition verifyBlockResult (br : BlockResult) (referenceBlock : Block) : outcome (result chain_err ()) :=
  let header := bk_Header referenceBlock in
  if negb (length (br_Receipts br) =? length (bk_Transactions referenceBlock))%nat then Ret (Err ErrInvalidReceiptsSize)
  else if negb (br_Root br =? hd_StateRoot header) then Ret (Err ErrInvalidStateRoot)
  else if negb (br_TotalGas br =? hd_GasUsed header) then Ret (Err ErrInvalidGasUsed)
  else
    let~ receiptsRoot := CalculateReceiptsRoot (br_Receipts br) in
    Ret (if negb (receiptsRoot =? hd_ReceiptsRoot header) then Err ErrInvalidReceiptsRoot else Ok ()).

Definition verifyBlockBody (block : Block) (b : Blockchain) : outcome (result chain_err () * Blockchain) :=
  let header := bk_Header block in
  if negb (CalculateUncleRoot (bk_Uncles block) =? hd_Sha3Uncles header) then Ret (Err ErrInvalidSha3Uncles, b)
  else
    let~ hash := CalculateTransactionsRoot (bk_Transactions block) in
    if negb (hash =? hd_TxRoot header) then Ret (Err ErrInvalidTxRoot, b)
    else
      let~ (r, b) := executeBlockTransactions block b in
      match r with
      | Err e => Ret (Err e, b)
      | Ok blockResult => let~ r := verifyBlockResult blockResult block in Ret (r, b)
      end.

Definition verifyBlock (block : option Block) (b : Blockchain) : outcome (result chain_err () * Blockchain) :=
  match block with
  | None => Ret (Err ErrNoBlock, b)
  | Some block =>
      match verifyBlockParent block b with
      | (Err e, b) => Ret (Err e, b)
      | (Ok _, b) => verifyBlockBody block b
      end
  end.

Definition VerifyPotentialBlock : option Block → Blockchain → outcome (result chain_err () * Blockchain) := verifyBlock.

Definition VerifyFinalizedBlock (block : option Block) (b : Blockchain) : outcome (result chain_err () * Blockchain) :=
  match block with
  | None => Panic
  | Some bk =>
      let~ (r, b) := call_dep (VerifyHeader (bk_Header bk)) b in
      match r with
      | Err e => Ret (Err e, b)
      | Ok _ => verifyBlock block b
      end
  end.

(** *** Writing blocks *)

Fixpoint recoverFromFieldsInBlock (transactions : list Transaction) : outcome (result chain_err (list Transaction)) :=
  match transactions with
  | [] => Ret (Ok [])
  | tx :: rest =>
      let~ r := (if negb (tx_From tx =? ZeroAddress) then Ret (Ok tx)
                 else let~ r := signer_Sender tx in
                      Ret (match r with Ok sender => Ok (set_From sender tx) | Err e => Err (ErrDep e) end)) in
      match r with
      | Err e => Ret (Err e)
      | Ok tx =>
          let~ r := recoverFromFieldsInBlock rest in
          Ret (match r with Ok rest => Ok (tx :: rest) | Err e => Err e end)
      end
  end.

(** [writeBody]; the block comes back with the senders filled in. *)
Definition writeBody (block : Block) (b : Blockchain) : outcome (result chain_err Block * Blockchain) :=
  let~ r := recoverFromFieldsInBlock (bk_Transactions block) in
  match r with
  | Err e => Ret (Err e, b)
  | Ok txs =>
      let block := mkBlock (bk_Header block) txs (bk_Uncles block) in
      let hash := hd_Hash (bk_Header block) in
      let b := on_db (WriteBody hash (bk_Body block)) b in
      let b := foldl (λ b txn, on_db (WriteTxLookup (tx_Hash txn) hash) b) b (bk_Transactions block) in
      Ret (Ok block, b)
  end.

Definition extractBlockReceipts (block : Block) (b : Blockchain) : outcome (result chain_err (list Receipt) * Blockchain) :=
  let '(receipts, c) := lru_Get (hd_Hash (bk_Header block)) (bc_receiptsCache b) in
  let b := set_receiptsCache c b in
  match receipts with
  | Some extractedReceipts => Ret (Ok extractedReceipts, b)
  | None =>
      let~ (r, b) := executeBlockTransactions block b in
      Ret (match r with Ok blockResult => Ok (br_Receipts blockResult) | Err e => Err e end, b)
  end.

(** [WriteBlock]; the last read is for the log. *)
Definition chain_WriteBlock (block : Block) (source : list Z) (b : Blockchain) : outcome (result chain_err () * Blockchain) :=
  match chain_Header b with
  | None => Panic
  | Some current =>
      let header := bk_Header block in
      if hd_Number header <=? hd_Number current then Ret (Ok (), b)
      else
        let~ (r, b) := writeBody block b in
        match r with Err e => Ret (Err e, b) | Ok block =>
        let~ (r, b) := writeHeaderImpl (new_event source) header b in
        match r with Err e => Ret (Err e, b) | Ok evnt =>
        let~ (r, b) := extractBlockReceipts block b in
        match r with Err e => Ret (Err e, b) | Ok blockReceipts =>
        let b := on_db (WriteReceipts (hd_Hash header) blockReceipts) b in
        let~ (r, b) := call_dep (ProcessHeaders [header]) b in
        match r with Err e => Ret (Err e, b) | Ok _ =>
        let b := dispatchEvent evnt b in
        let~ b := updateGasPriceAvgWithBlock block b in
        let '(_, b) := GetHeaderByNumber (sub64 (hd_Number header) 1) b in
        Ret (Ok (), b)
        end end end end
  end.

Definition SubscribeEvents (b : Blockchain) : nat * Blockchain :=
  let '(i, s) := newUpdateCh (bc_stream b) in (i, set_stream s b).
End blockchain.
