(* ===== verification/BlockchainSpec.v ===== *)
(** The chain as an append-only ledger.

    [implements] relates a [Blockchain] to the list of the blocks it holds, the
    genesis first.  Every operation of a node preserves it, a restart included,
    and the reads return what the list says. *)
From S2P Require Import Prelude Types Runtime Crypto StateTxn Bloom Rlp RlpTypes ChainStorage Trie BuildRoot Blockchain.

(** ** The gas limit *)

Section gas_limit.
Context `{ChainDeps}.
#[local] Open Scope Z_scope.

Lemma s64_diff a b : is_u64 a → is_u64 b → s64 (s64 a - s64 b) = s64 (a - b).
Proof.
  intros. unfold s64, M64. rewrite <- (Zplus_mod_idemp_l (_ - _)).
  replace ((a + 2 ^ 63) mod 2 ^ 64 - 2 ^ 63 - ((b + 2 ^ 63) mod 2 ^ 64 - 2 ^ 63)) with ((a + 2 ^ 63) mod 2 ^ 64 - (b + 2 ^ 63) mod 2 ^ 64) by lia.
  rewrite <- Zminus_mod. rewrite Zplus_mod_idemp_l. f_equal. f_equal. lia.
Qed.

(** Where the limits are less than 2^63 apart, the check is the one it means. *)
Lemma verifyGasLimit_exact header parent :
  is_u64 (hd_GasLimit header) → is_u64 (hd_GasLimit parent) → Z.abs (hd_GasLimit parent - hd_GasLimit header) < 2 ^ 63 →
  verifyGasLimit header parent = Ok () ↔
    hd_GasUsed header ≤ hd_GasLimit header ∧
    (hd_Number header = 0 ∨ Z.abs (hd_GasLimit parent - hd_GasLimit header) ≤ hd_GasLimit parent / 1024).
Proof.
  intros H1 H2 Hd. unfold verifyGasLimit, BlockGasTargetDivisor. rewrite s64_diff, (s64_small (_ - _)) by (done || lia).
  assert (u64 (if hd_GasLimit parent - hd_GasLimit header <? 0 then s64 ((hd_GasLimit parent - hd_GasLimit header) * -1)
      else hd_GasLimit parent - hd_GasLimit header) = Z.abs (hd_GasLimit parent - hd_GasLimit header)) as ->.
  { unfold is_u64, M64 in *. destruct (Z.ltb_spec (hd_GasLimit parent - hd_GasLimit header) 0).
    - rewrite s64_small by lia. rewrite u64_small; [lia|unfold is_u64, M64; lia].
    - rewrite u64_small; [lia|unfold is_u64, M64; lia]. }
  destruct (Z.gtb_spec (hd_GasUsed header) (hd_GasLimit header)); [split; [done|lia]|].
  destruct (Z.eqb_spec (hd_Number header) 0); [tauto|].
  destruct (Z.gtb_spec (Z.abs (hd_GasLimit parent - hd_GasLimit header)) (hd_GasLimit parent / 1024)); split; try done; lia.
Qed.

Lemma calculateGasLimit_spec T P :
  is_u64 T → is_u64 P → is_u64 (P + P / 1024) → T ≠ 0 →
  calculateGasLimit T P = if P <? T then Z.min T (P + P / 1024) else Z.max T (P - P / 1024).
Proof.
  intros HT HP Hs H0. unfold calculateGasLimit, BlockGasTargetDivisor, mul64, add64, sub64, Min, Max.
  rewrite Z.mul_1_r, (u64_small P) by done. pose proof (Z.div_le_upper_bound P 1024 P). unfold is_u64, M64 in *.
  pose proof (Z.div_pos P 1024). rewrite (u64_small (P + P / 1024)) by done. rewrite (u64_small (P - P / 1024)) by (unfold is_u64, M64; lia).
  rewrite (proj2 (Z.eqb_neq T 0)) by done.
  destruct (Z.eqb_spec P T) as [->|]; [rewrite Z.ltb_irrefl; lia|].
  destruct (Z.ltb_spec P T).
  - destruct (Z.ltb_spec T (P + P / 1024)); lia.
  - destruct (Z.gtb_spec (P - P / 1024) 0); [destruct (Z.gtb_spec T (P - P / 1024)); lia|].
    destruct (Z.gtb_spec T 0); lia.
Qed.

(** The limit [n] blocks later. *)
Definition limit_after (T : Z) (n : nat) (P : Z) : Z := Nat.iter n (calculateGasLimit T) P.

Lemma limit_up T n : ∀ P,
  is_u64 T → is_u64 (T + T / 1024) → 1024 ≤ P ≤ T → T - P ≤ Z.of_nat n → limit_after T n P = T.
Proof.
  intros P HT HT' HP Hn. unfold limit_after. revert P HP Hn. induction n as [|n IH]; intros P HP Hn; [cbn; lia|].
  rewrite Nat.iter_succ_r. pose proof (Z.div_le_mono P T 1024). pose proof (Z.div_le_lower_bound P 1024 1).
  unfold is_u64, M64 in *. apply IH; rewrite calculateGasLimit_spec by (unfold is_u64, M64; lia); destruct (Z.ltb_spec P T); lia.
Qed.

Lemma limit_down T n : ∀ P,
  is_u64 P → is_u64 (P + P / 1024) → 1024 ≤ T ≤ P → P - T ≤ Z.of_nat n → limit_after T n P = T.
Proof.
  intros P HP HP' HT Hn. unfold limit_after. revert P HP HP' HT Hn. induction n as [|n IH]; intros P HP HP' HT Hn; [cbn; lia|].
  rewrite Nat.iter_succ_r. pose proof (Z.div_le_lower_bound P 1024 1). unfold is_u64, M64 in *.
  pose proof (Z.div_le_mono (Z.max T (P - P / 1024)) P 1024). pose proof (Z.div_pos (Z.max T (P - P / 1024)) 1024).
  apply IH; rewrite calculateGasLimit_spec by (unfold is_u64, M64; lia); unfold is_u64, M64;
    destruct (Z.ltb_spec P T); lia.
Qed.

(** A limit that a proposer computes passes. *)
Lemma verifyGasLimit_calculated T header parent :
  let P := hd_GasLimit parent in
  is_u64 T → is_u64 P → is_u64 (P + P / 1024) → hd_GasLimit header = calculateGasLimit T P →
  hd_GasUsed header ≤ hd_GasLimit header → verifyGasLimit header parent = Ok ().
Proof.
  intros P HT HP HP' Hh Hu.
  assert (is_u64 (calculateGasLimit T P) ∧ Z.abs (P - calculateGasLimit T P) ≤ P / 1024) as [Hc Hd].
  { destruct (decide (T = 0)) as [->|H0]; [cbn; split; [done|]; pose proof (Z.div_pos P 1024); unfold is_u64 in *; lia|].
    rewrite calculateGasLimit_spec by done. unfold is_u64, M64 in *. pose proof (Z.div_pos P 1024).
    pose proof (Z.div_le_upper_bound P 1024 P). destruct (Z.ltb_spec P T); lia. }
  assert (P / 1024 < 2 ^ 63) by (apply Z.div_lt_upper_bound; unfold is_u64, M64 in *; lia).
  apply verifyGasLimit_exact; rewrite ?Hh in *; fold P; [done..|lia|]. split; [done|by right].
Qed.

(** The gas limit a proposer computes passes the check of the other nodes,
    whatever the target; with a target and both limits of at least 1024, the
    limit reaches the target, at one unit per block or faster, and stays there. *)
Theorem gas_limit_converges T P :
  is_u64 T → is_u64 P → is_u64 (T + T / 1024) → is_u64 (P + P / 1024) →
  (∀ header parent, hd_GasLimit parent = P → hd_GasLimit header = calculateGasLimit T P →
     hd_GasUsed header ≤ hd_GasLimit header → verifyGasLimit header parent = Ok ()) ∧
  (1024 ≤ T → 1024 ≤ P → ∀ n, Z.abs (T - P) ≤ Z.of_nat n → limit_after T n P = T).
Proof.
  intros HT HP HT' HP'. split.
  - intros header parent HpP Hh Hu. subst P. by apply (verifyGasLimit_calculated T).
  - intros H1 H2 n Hn. destruct (decide (P ≤ T)); [apply limit_up|apply limit_down]; done || lia.
Qed.
End gas_limit.

(** ** Reads through the caches *)

Section chain.
Context `{External} `{RlpReader} `{LRULaws} `{ChainDeps}.
Variable HeaderHash : Header → Hash.
Variable genesis_config : Genesis.
Variable blockGasTarget : Z.

(** The caches hold what the database holds, and stored headers their hashes. *)
Record caches_ok (b : Blockchain) : Prop := {
  c_headers : lru_all (λ k h, db_headers (bc_db b) !! k = Some h) (bc_headersCache b);
  c_difficulty : lru_all (λ k d, db_difficulty (bc_db b) !! k = Some d) (bc_difficultyCache b);
  c_hashed k h : db_headers (bc_db b) !! k = Some h → HeaderHash h = hd_Hash h;
}.

(** Only the caches and the state of the engines differ. *)
Record same_chain (b b' : Blockchain) : Prop := {
  sc_db : bc_db b' = bc_db b;
  sc_genesis : bc_genesis b' = bc_genesis b;
  sc_header : bc_currentHeader b' = bc_currentHeader b;
  sc_td : bc_currentDifficulty b' = bc_currentDifficulty b;
  sc_price : bc_price b' = bc_price b;
  sc_count : bc_count b' = bc_count b;
  sc_stream : bc_stream b' = bc_stream b;
}.

#[global] Instance same_chain_preorder : PreOrder same_chain.
Proof. split; [by split|]. intros b1 b2 b3 [] []. split; congruence. Qed.

(** The header and difficulty caches only. *)
Record same_node (b b' : Blockchain) : Prop := {
  sn_chain :> same_chain b b';
  sn_receipts : bc_receiptsCache b' = bc_receiptsCache b;
  sn_deps : bc_deps b' = bc_deps b;
}.

#[global] Instance same_node_preorder : PreOrder same_node.
Proof. split; [by split|]. intros b1 b2 b3 [] []. split; [by etrans|congruence..]. Qed.

Definition silent (b b' : Blockchain) : Prop := same_node b b' ∧ caches_ok b'.

Lemma ComputeHash_hashed h : HeaderHash h = hd_Hash h → hd_ComputeHash HeaderHash h = h.
Proof. intros E. unfold hd_ComputeHash, set_hd_Hash. rewrite E. by destruct h. Qed.

Lemma readHeader_ok k b : caches_ok b →
  ∃ b', readHeader HeaderHash k b = (db_headers (bc_db b) !! k, b') ∧ silent b b'.
Proof.
  intros [Hh Hd Hk]. unfold readHeader. pose proof (Hh k) as Hhit. pose proof (lru_all_Get _ k _ Hh) as Hh'.
  destruct (lru_Get k (bc_headersCache b)) as [[h|] c]; cbn in *.
  { rewrite (Hhit h eq_refl). eexists. split; [done|]. split; [by split|by split]. }
  destruct (db_headers (bc_db b) !! k) as [h|] eqn:E; [|eexists; split; [done|split; by split]].
  rewrite ComputeHash_hashed by eauto. eexists. split; [done|]. split; [by split|]. split; cbn; [|done|done].
  by apply lru_all_Add.
Qed.

Lemma readTotalDifficulty_ok k b : caches_ok b →
  ∃ b', readTotalDifficulty k b = (db_difficulty (bc_db b) !! k, b') ∧ silent b b'.
Proof.
  intros [Hh Hd Hk]. unfold readTotalDifficulty. pose proof (Hd k) as Hhit. pose proof (lru_all_Get _ k _ Hd) as Hd'.
  destruct (lru_Get k (bc_difficultyCache b)) as [[d|] c]; cbn in *.
  { rewrite (Hhit d eq_refl). eexists. split; [done|]. split; by split. }
  destruct (db_difficulty (bc_db b) !! k) as [d|] eqn:E; [|eexists; split; [done|split; by split]].
  eexists. split; [done|]. split; [by split|]. split; cbn; [done| |done]. by apply lru_all_Add.
Qed.

Lemma GetHeaderByNumber_ok n b : caches_ok b →
  ∃ b', GetHeaderByNumber HeaderHash n b = (db_canonical (bc_db b) !! n ≫= λ k, db_headers (bc_db b) !! k, b') ∧ silent b b'.
Proof.
  intros Hc. unfold GetHeaderByNumber. destruct (db_canonical (bc_db b) !! n) as [k|]; cbn; [by apply readHeader_ok|].
  by exists b.
Qed.

(** ** Blocks of the ledger *)

Record entry := mkEntry {
  e_block : Block;
  e_receipts : option (list Receipt);
}.

Definition e_header (e : entry) : Header := bk_Header (e_block e).
Definition e_hash (e : entry) : Hash := hd_Hash (e_header e).
Definition e_txs (e : entry) : list Transaction := bk_Transactions (e_block e).
Definition total (l : list entry) : Z := sumZ (hd_Difficulty ∘ e_header) l.

Definition by_hash (k : Hash) (l : list entry) : option (nat * entry) := list_find (λ e, e_hash e = k) l.

Lemma by_hash_Some k l i e : by_hash k l = Some (i, e) → l !! i = Some e ∧ e_hash e = k.
Proof. intros (? & ? & _)%list_find_Some. done. Qed.

Lemma by_hash_lookup l i e : NoDup (e_hash <$> l) → l !! i = Some e → by_hash (e_hash e) l = Some (i, e).
Proof.
  intros Hnd Hl. apply list_find_Some. split_and!; [done|done|]. intros j e' Hj Hlt E.
  assert (i = j) as ->; [|lia]. eapply NoDup_lookup; [done|by rewrite list_lookup_fmap, Hl|by rewrite list_lookup_fmap, Hj; cbn; rewrite E].
Qed.

Lemma by_hash_None k l : k ∉ e_hash <$> l → by_hash k l = None.
Proof.
  intros Hk. apply list_find_None. apply Forall_forall. intros e He E. apply Hk. apply list_elem_of_fmap. by exists e.
Qed.

(** A block with a new hash at the end. *)
Lemma by_hash_snoc k l e :
  e_hash e ∉ e_hash <$> l → by_hash k (l ++ [e]) = if decide (e_hash e = k) then Some (length l, e) else by_hash k l.
Proof.
  intros Hf. unfold by_hash. destruct (list_find _ l) as [[i e']|] eqn:E.
  - rewrite (list_find_app_l _ _ _ _ _ E). rewrite decide_False; [done|]. intros <-.
    fold (by_hash (e_hash e) l) in E. by rewrite by_hash_None in E.
  - rewrite list_find_app_r by done. cbn. by case_decide.
Qed.

Lemma by_hash_take k l i e e' : by_hash k l = Some (i, e) → total (take (S i) (l ++ [e'])) = total (take (S i) l).
Proof. intros [Hl _]%by_hash_Some. apply lookup_lt_Some in Hl. by rewrite take_app_le by lia. Qed.

(** ** The ledger and the database *)

Definition genesis_header : Header := hd_ComputeHash HeaderHash (GenesisHeader genesis_config).
Definition genesis_entry : entry := mkEntry (mkBlock genesis_header [] []) None.

Record ledger_ok (l : list entry) : Prop := {
  lo_genesis : e_block <$> l !! 0%nat = Some (mkBlock genesis_header [] []);
  lo_number i e : l !! i = Some e → hd_Number (e_header e) = Z.of_nat i;
  lo_u64 : Z.of_nat (length l) ≤ M64;
  lo_link i e e' : l !! i = Some e → l !! S i = Some e' → hd_ParentHash (e_header e') = e_hash e;
  lo_gas i e e' : l !! i = Some e → l !! S i = Some e' → verifyGasLimit (e_header e') (e_header e) = Ok ();
  lo_hashed e : e ∈ l → HeaderHash (e_header e) = e_hash e ∧ e_hash e ≠ ZeroHash;
  lo_distinct : NoDup (e_hash <$> l);
  lo_senders e : e ∈ l → Forall (λ t, tx_From t ≠ ZeroAddress) (e_txs e);
}.

(** The last block with a transaction. *)
Definition block_of_tx (t : Hash) (l : list entry) : option entry := last (filter (λ e, t ∈ tx_Hash <$> e_txs e) l).

Record db_agrees (d : chain_db) (l : list entry) : Prop := {
  da_headHash : db_headHash d = e_hash <$> last l;
  da_headNumber : db_headNumber d = (hd_Number ∘ e_header) <$> last l;
  da_canonical n : db_canonical d !! n = if 0 <=? n then e_hash <$> l !! Z.to_nat n else None;
  da_headers k : db_headers d !! k = (e_header ∘ snd) <$> by_hash k l;
  da_difficulty k : db_difficulty d !! k = (λ p, total (take (S p.1) l)) <$> by_hash k l;
  da_bodies k : db_bodies d !! k = by_hash k l ≫= λ p, if (p.1 =? 0)%nat then None else Some (bk_Body (e_block p.2));
  da_receipts k : db_receipts d !! k = by_hash k l ≫= λ p, e_receipts p.2;
  da_txLookup t : db_txLookup d !! t = e_hash <$> block_of_tx t l;
  da_forks : db_forks d = None;
}.

(** What [chain_WriteBlock] writes for a block on top of the head. *)
Definition write_lookups (hash : Hash) (txs : list Transaction) (d : chain_db) : chain_db :=
  foldl (λ d t, WriteTxLookup (tx_Hash t) hash d) d txs.

Definition append_db (block : Block) (td : Z) (d : chain_db) : chain_db :=
  let hash := hd_Hash (bk_Header block) in
  WriteCanonicalHeader (bk_Header block) td (write_lookups hash (bk_Transactions block) (WriteBody hash (bk_Body block) d)).

Lemma write_lookups_fields hash txs : ∀ d,
  let d' := write_lookups hash txs d in
  db_canonical d' = db_canonical d ∧ db_headHash d' = db_headHash d ∧ db_headNumber d' = db_headNumber d ∧
  db_forks d' = db_forks d ∧ db_difficulty d' = db_difficulty d ∧ db_headers d' = db_headers d ∧
  db_bodies d' = db_bodies d ∧ db_receipts d' = db_receipts d.
Proof. induction txs as [|t txs IH]; intros d; cbn; [done|]. apply (IH (WriteTxLookup (tx_Hash t) hash d)). Qed.

Lemma write_lookups_lookup hash txs t : ∀ d,
  db_txLookup (write_lookups hash txs d) !! t = if decide (t ∈ tx_Hash <$> txs) then Some hash else db_txLookup d !! t.
Proof.
  induction txs as [|x txs IH]; intros d; [by rewrite decide_False by set_solver|].
  change (write_lookups hash (x :: txs) d) with (write_lookups hash txs (WriteTxLookup (tx_Hash x) hash d)). rewrite IH. cbn [WriteTxLookup db_txLookup]. destruct (decide (t ∈ tx_Hash <$> txs)); [by rewrite decide_True by set_solver|].
  destruct (decide (tx_Hash x = t)) as [<-|]; [by rewrite lookup_insert_eq, decide_True by set_solver|].
  by rewrite lookup_insert_ne, decide_False by set_solver.
Qed.

Lemma total_snoc l e : total (l ++ [e]) = total l + hd_Difficulty (e_header e).
Proof. unfold total. rewrite sumZ_app. cbn. lia. Qed.

Lemma block_of_tx_snoc t l e :
  block_of_tx t (l ++ [e]) = if decide (t ∈ tx_Hash <$> e_txs e) then Some e else block_of_tx t l.
Proof.
  unfold block_of_tx. rewrite filter_app, filter_cons, filter_nil. case_decide; [by rewrite last_snoc|by rewrite app_nil_r].
Qed.

Lemma append_agrees d l block :
  ledger_ok l → l ≠ [] → db_agrees d l → hd_Hash (bk_Header block) ∉ e_hash <$> l →
  hd_Number (bk_Header block) = Z.of_nat (length l) →
  let e := mkEntry block None in
  db_agrees (append_db block (total (l ++ [e])) d) (l ++ [e]).
Proof.
  intros Hl Hne [] Hf Hn e. pose proof (write_lookups_fields (e_hash e) (e_txs e) (WriteBody (e_hash e) (bk_Body block) d))
    as (Ec & _ & _ & Ef & Ed & Eh & Eb & Er).
  pose proof (write_lookups_lookup (e_hash e) (e_txs e)) as Et.
  assert (e_hash e ∉ e_hash <$> l) as Hf' by done.
  split; cbn -[by_hash]; change (hd_Hash (bk_Header block)) with (e_hash e); change (bk_Transactions block) with (e_txs e).
  - by rewrite last_snoc.
  - by rewrite last_snoc.
  - intros n. rewrite Ec. cbn. rewrite Hn. destruct (decide (Z.of_nat (length l) = n)) as [<-|Hne'].
    + rewrite lookup_insert_eq, (proj2 (Z.leb_le 0 _)), Nat2Z.id, list_lookup_middle by (done || lia). done.
    + rewrite lookup_insert_ne, da_canonical0 by done. destruct (Z.leb_spec 0 n); [|done].
      f_equal. symmetry. destruct (decide (Z.to_nat n < length l)%nat); [by apply lookup_app_l|].
      rewrite !lookup_ge_None_2; [done|lia|]. rewrite length_app. cbn. lia.
  - intros k. rewrite Eh, by_hash_snoc by done. case_decide as Hk; [by rewrite <- Hk, lookup_insert_eq|].
    by rewrite lookup_insert_ne.
  - intros k. rewrite Ed, by_hash_snoc by done. cbn. case_decide as Hk.
    + rewrite <- Hk, lookup_insert_eq. cbn. by rewrite take_ge by (rewrite length_app; cbn; lia).
    + rewrite lookup_insert_ne, da_difficulty0 by done. destruct (by_hash k l) as [[i e']|] eqn:E; [|done].
      cbn -[take]. by rewrite (by_hash_take _ _ _ _ _ E).
  - intros k. rewrite Eb, by_hash_snoc by done. cbn. case_decide as Hk.
    + rewrite <- Hk, lookup_insert_eq. cbn. destruct l; [done|]. done.
    + by rewrite lookup_insert_ne.
  - intros k. rewrite Er, by_hash_snoc by done. case_decide as Hk; [|done].
    cbn. rewrite <- Hk, da_receipts0. by rewrite by_hash_None.
  - intros t. rewrite Et, block_of_tx_snoc. cbn. by case_decide.
  - by rewrite Ef.
Qed.

Lemma receipts_agree d l block rs :
  hd_Hash (bk_Header block) ∉ e_hash <$> l →
  db_agrees d (l ++ [mkEntry block None]) →
  db_agrees (WriteReceipts (hd_Hash (bk_Header block)) rs d) (l ++ [mkEntry block (Some rs)]).
Proof.
  intros Hf []. set (e := mkEntry block None) in *. set (e' := mkEntry block (Some rs)) in *.
  assert (∀ k, by_hash k (l ++ [e']) = if decide (e_hash e = k) then Some (length l, e') else by_hash k l) as E'.
  { intros k. by rewrite by_hash_snoc by done. }
  assert (∀ k, by_hash k (l ++ [e]) = if decide (e_hash e = k) then Some (length l, e) else by_hash k l) as E.
  { intros k. by apply by_hash_snoc. }
  rewrite last_snoc in *. split; cbn [WriteReceipts db_canonical db_headHash db_headNumber db_forks db_difficulty db_headers db_bodies db_receipts db_txLookup].
  - by rewrite last_snoc.
  - by rewrite last_snoc.
  - intros n. rewrite da_canonical0. destruct (0 <=? n); [|done]. by rewrite <- !list_lookup_fmap, !fmap_app.
  - intros k. rewrite da_headers0, E, E'. by case_decide.
  - intros k. rewrite da_difficulty0, E, E'. case_decide; cbn -[take].
    + by rewrite !take_ge, !total_snoc by (rewrite length_app; cbn; lia).
    + destruct (by_hash k l) as [[i x]|] eqn:Ek; [|done]. cbn -[take]. by rewrite !(by_hash_take _ _ _ _ _ Ek).
  - intros k. rewrite da_bodies0, E, E'. by case_decide.
  - intros k. rewrite E'. change (hd_Hash (bk_Header block)) with (e_hash e). case_decide as Hk.
    + by rewrite <- Hk, lookup_insert_eq.
    + rewrite lookup_insert_ne, da_receipts0, E by done. by rewrite decide_False.
  - intros t. rewrite da_txLookup0, !block_of_tx_snoc. change (e_txs e') with (e_txs e). by case_decide.
  - done.
Qed.

(** ** The node and the ledger *)

Record implements (b : Blockchain) (l : list entry) : Prop := {
  im_ledger : ledger_ok l;
  im_header : chain_Header b = e_header <$> last l;
  im_td : CurrentTD b = Some (total l);
  im_db : db_agrees (bc_db b) l;
  im_caches : caches_ok b;
}.

Lemma implements_same b b' l : implements b l → same_chain b b' → caches_ok b' → implements b' l.
Proof.
  intros [? ? ? ? ?] [] ?. split; [done|..|done]; unfold chain_Header, CurrentTD in *; congruence.
Qed.

Lemma ledger_nonempty l : ledger_ok l → l ≠ [].
Proof. intros [Hg _ _ _ _ _ _ _] ->. done. Qed.

Lemma ledger_last l : ledger_ok l → ∃ e, last l = Some e ∧ l !! pred (length l) = Some e ∧
  hd_Number (e_header e) = Z.of_nat (length l) - 1.
Proof.
  intros Hl. destruct (last l) as [e|] eqn:E; [|by apply last_None in E; apply ledger_nonempty in Hl].
  exists e. split; [done|]. rewrite last_lookup in E. split; [done|]. rewrite (lo_number _ Hl _ _ E).
  apply lookup_lt_Some in E. lia.
Qed.

(** *** Reads *)

Lemma header_by_hash b l k h : implements b l → db_headers (bc_db b) !! k = Some h →
  ∃ i e, l !! i = Some e ∧ e_hash e = k ∧ e_header e = h.
Proof.
  intros Hi E. rewrite (da_headers _ _ (im_db _ _ Hi)) in E. destruct (by_hash k l) as [[i e]|] eqn:Eb; [|done].
  apply by_hash_Some in Eb as [? ?]. exists i, e. by simplify_eq/=.
Qed.

Lemma headers_at b l i e : implements b l → l !! i = Some e → db_headers (bc_db b) !! e_hash e = Some (e_header e).
Proof.
  intros Hi Hl. rewrite (da_headers _ _ (im_db _ _ Hi)). by rewrite (by_hash_lookup _ i e) by (done || apply Hi).
Qed.

Lemma header_of_number b l n : implements b l → 0 ≤ n →
  (db_canonical (bc_db b) !! n ≫= λ k, db_headers (bc_db b) !! k) = e_header <$> l !! Z.to_nat n.
Proof.
  intros Hi Hn. rewrite (da_canonical _ _ (im_db _ _ Hi)), (proj2 (Z.leb_le _ _)) by done.
  destruct (l !! Z.to_nat n) as [e|] eqn:E; [|done]. cbn. by eapply headers_at.
Qed.

Lemma recover_nothing txs : Forall (λ t, tx_From t ≠ ZeroAddress) txs → recoverFromFieldsInTransactions txs = Ret (false, txs).
Proof.
  induction 1 as [|t txs Ht _ IH]; [done|]. cbn. rewrite (proj2 (Z.eqb_neq _ _)) by done. cbn. by rewrite IH.
Qed.

Lemma readBody_ok b l i e : implements b l → l !! S i = Some e →
  readBody (e_hash e) b = Ret (Some (bk_Body (e_block e)), b).
Proof.
  intros Hi Hl. unfold readBody. rewrite (da_bodies _ _ (im_db _ _ Hi)), (by_hash_lookup _ (S i) e) by (done || apply Hi).
  cbn. rewrite recover_nothing; [by destruct (e_block e)|]. apply (lo_senders _ (im_ledger _ _ Hi)). by eapply list_elem_of_lookup_2.
Qed.

(** The genesis block has no body. *)
Lemma GetBlockByHash_ok b l i e full : implements b l → l !! i = Some e →
  ∃ b', GetBlockByHash HeaderHash (e_hash e) full b =
    Ret (Some (if full then e_block e else mkBlock (e_header e) [] []), true, b') ∧ silent b b'.
Proof.
  intros Hi Hl. unfold GetBlockByHash. destruct (readHeader_ok (e_hash e) b (im_caches _ _ Hi)) as (b' & E & Hs).
  rewrite E, (headers_at _ _ _ _ Hi Hl), (lo_number _ (im_ledger _ _ Hi) _ _ Hl).
  destruct full; [|by exists b'].
  destruct i as [|i].
  - exists b'. split; [|done]. pose proof (lo_genesis _ (im_ledger _ _ Hi)) as Hg. rewrite Hl in Hg. apply (inj Some) in Hg. unfold e_header. by rewrite Hg.
  - cbn [negb orb]. rewrite (proj2 (Z.eqb_neq _ _)) by lia.
    rewrite (readBody_ok _ l i e); [|by eapply implements_same; [done|apply Hs|apply Hs]|done].
    exists b'. split; [|done]. cbn. by destruct e as [[] ?].
Qed.

Lemma GetBlockByNumber_ok b l n full : implements b l → 0 ≤ n →
  ∃ b', GetBlockByNumber HeaderHash n full b =
    Ret (match l !! Z.to_nat n with
         | Some e => (Some (if full then e_block e else mkBlock (e_header e) [] []), true)
         | None => (None, false)
         end, b') ∧ silent b b'.
Proof.
  intros Hi Hn. unfold GetBlockByNumber. rewrite (da_canonical _ _ (im_db _ _ Hi)), (proj2 (Z.leb_le _ _)) by done.
  destruct (l !! Z.to_nat n) as [e|] eqn:E; cbn [fmap option_fmap option_map]; [|exists b; split; [done|split; [done|apply Hi]]].
  destruct (GetBlockByHash_ok b l _ e (if n =? 0 then false else full) Hi E) as (b' & E' & Hs). rewrite E'. exists b'. split; [|done].
  destruct (Z.eqb_spec n 0) as [->|]; [|done]. destruct full; [|done].
  change (Z.to_nat 0) with 0%nat in E. pose proof (lo_genesis _ (im_ledger _ _ Hi)) as Hg.
  rewrite E in Hg. apply (inj Some) in Hg. unfold e_header. by rewrite Hg.
Qed.

(** [GetHashHelper] from block [i]. *)
Lemma hash_loop_ok b l : implements b l → ∀ j i n e, l !! j = Some e → 0 ≤ i → (j < n)%nat →
  ∃ b', hash_loop HeaderHash n i (Z.of_nat j) (e_hash e) b =
    Ret (if i <=? Z.of_nat j then match l !! Z.to_nat i with Some e => e_hash e | None => ZeroHash end else ZeroHash, b') ∧ silent b b'.
Proof.
  intros Hi j. revert b Hi. induction j as [|j IH]; intros b Hi i n e Hl Hi0 Hn; (destruct n as [|n]; [lia|]); cbn [hash_loop].
  - destruct (Z.eqb_spec (Z.of_nat 0) i) as [<-|Hne]; [exists b; rewrite Z.leb_refl, Nat2Z.id, Hl; split; [done|split; [done|apply Hi]]|].
    destruct (readHeader_ok (e_hash e) b (im_caches _ _ Hi)) as (b' & E & Hs). rewrite E, (headers_at _ _ _ _ Hi Hl).
    exists b'. rewrite (proj2 (Z.leb_gt _ _)) by lia. done.
  - destruct (Z.eqb_spec (Z.of_nat (S j)) i) as [<-|Hne].
    { exists b. rewrite Z.leb_refl, Nat2Z.id, Hl. split; [done|split; [done|apply Hi]]. }
    destruct (readHeader_ok (e_hash e) b (im_caches _ _ Hi)) as (b' & E & Hs). rewrite E, (headers_at _ _ _ _ Hi Hl).
    rewrite (proj2 (Z.eqb_neq _ _)) by lia. pose proof (lo_u64 _ (im_ledger _ _ Hi)) as Hu. pose proof (lookup_lt_Some _ _ _ Hl).
    rewrite sub64_ge by (unfold is_u64, M64 in *; lia). replace (Z.of_nat (S j) - 1) with (Z.of_nat j) by lia.
    destruct (lookup_lt_is_Some_2 l j) as [e' He']; [lia|].
    rewrite (lo_link _ (im_ledger _ _ Hi) _ _ _ He' Hl).
    destruct (IH b' (implements_same _ _ _ Hi (sn_chain _ _ (proj1 Hs)) (proj2 Hs)) i n e' He' Hi0 ltac:(lia)) as (b'' & E' & Hs').
    exists b''. rewrite E'. split; [|split; [etrans; [apply Hs|apply Hs']|apply Hs']].
    destruct (Z.leb_spec i (Z.of_nat j)), (Z.leb_spec i (Z.of_nat (S j))); done || lia.
Qed.

Lemma GetHashHelper_ok b l i e k : implements b l → l !! S i = Some e → 0 ≤ k →
  ∃ b', GetHashHelper HeaderHash (e_header e) k b =
    Ret (if k <=? Z.of_nat i then match l !! Z.to_nat k with Some e => e_hash e | None => ZeroHash end else ZeroHash, b') ∧ silent b b'.
Proof.
  intros Hi Hl Hk. unfold GetHashHelper. rewrite (lo_number _ (im_ledger _ _ Hi) _ _ Hl).
  pose proof (lo_u64 _ (im_ledger _ _ Hi)). pose proof (lookup_lt_Some _ _ _ Hl).
  rewrite sub64_ge by (unfold is_u64, M64 in *; lia). replace (Z.of_nat (S i) - 1) with (Z.of_nat i) by lia.
  destruct (lookup_lt_is_Some_2 l i) as [e' He']; [lia|]. rewrite (lo_link _ (im_ledger _ _ Hi) _ _ _ He' Hl).
  apply hash_loop_ok; [done..|lia].
Qed.

(** *** Verification *)

Definition idle (b b' : Blockchain) : Prop := same_chain b b' ∧ caches_ok b'.

Lemma idle_refl b : caches_ok b → idle b b.
Proof. by split. Qed.

Lemma idle_trans b1 b2 b3 : idle b1 b2 → idle b2 b3 → idle b1 b3.
Proof. intros [] []. split; [by etrans|done]. Qed.

Lemma silent_idle b b' : silent b b' → idle b b'.
Proof. intros [[] ?]. by split. Qed.

Lemma implements_idle b b' l : implements b l → idle b b' → implements b' l.
Proof. intros Hi []. by eapply implements_same. Qed.

Lemma call_dep_idle {A} (f : dep_state → outcome (result dep_err A * dep_state)) b r b' :
  caches_ok b → call_dep f b = Ret (r, b') → idle b b'.
Proof. intros [] E. unfold call_dep in E. destruct (f (bc_deps b)) as [[r0 s]| |]; simplify_eq/=. by split. Qed.

Lemma execute_idle block b r b' :
  caches_ok b → executeBlockTransactions HeaderHash block b = Ret (r, b') →
  idle b b' ∧ ∀ br, r = Ok br → ∃ c, bc_receiptsCache b' = lru_Add (hd_Hash (bk_Header block)) (br_Receipts br) c.
Proof.
  intros Hc. unfold executeBlockTransactions. destruct (readHeader_ok (hd_ParentHash (bk_Header block)) b Hc) as (b1 & E1 & Hs1).
  apply silent_idle in Hs1. rewrite E1. destruct (db_headers (bc_db b) !! _) as [parent|]; [|by intros [= <- <-]].
  destruct (call_dep (GetBlockCreator _) b1) as [[[creator|e] b2]| |] eqn:E2; try done; apply call_dep_idle in E2; try apply Hs1; cbn [obind].
  2: { intros [= <- <-]. split; [by eauto using idle_trans|done]. }
  destruct (call_dep _ b2) as [[[txn|e] b3]| |] eqn:E3; try done; apply call_dep_idle in E3; try apply E2; cbn [obind].
  2: { intros [= <- <-]. split; [by eauto using idle_trans|done]. }
  destruct (call_dep _ b3) as [[[txn'|e] b4]| |] eqn:E4; try done; apply call_dep_idle in E4; try apply E3; cbn [obind].
  2: { intros [= <- <-]. split; [by eauto using idle_trans|done]. }
  destruct (tr_Commit txn' (bc_deps b4)) as [[root s]| |]; try done. intros [= <- <-]. split.
  - apply (idle_trans _ b4); [by eauto using idle_trans|]. split; [by split|]. destruct E4 as [_ []]. by split.
  - intros br [= <-]. by eexists.
Qed.

Lemma verifyBlockParent_ok block b : caches_ok b →
  ∃ b', silent b b' ∧ (verifyBlockParent HeaderHash block b).2 = b' ∧
  ((verifyBlockParent HeaderHash block b).1 = Ok () →
    ∃ parent, db_headers (bc_db b) !! hd_ParentHash (bk_Header block) = Some parent ∧
      hd_Hash parent = hd_ParentHash (bk_Header block) ∧ hd_Hash parent ≠ ZeroHash ∧
      sub64 (hd_Number (bk_Header block)) 1 = hd_Number parent ∧ verifyGasLimit (bk_Header block) parent = Ok ()).
Proof.
  intros Hc. unfold verifyBlockParent. destruct (readHeader_ok (hd_ParentHash (bk_Header block)) b Hc) as (b1 & E1 & Hs1).
  rewrite E1. destruct (db_headers (bc_db b) !! _) as [parent|]; cbn; [|by exists b1].
  exists b1. split_and!; [done..|]. intros Hok. exists parent. split; [done|].
  destruct (Z.eqb_spec (hd_Hash parent) ZeroHash); [done|]. destruct (Z.eqb_spec (hd_ParentHash (bk_Header block)) (hd_Hash parent)); [|done].
  destruct (Z.eqb_spec (sub64 (hd_Number (bk_Header block)) 1) (hd_Number parent)); done.
Qed.

Lemma verifyBlockBody_idle block b r b' :
  caches_ok b → verifyBlockBody HeaderHash block b = Ret (r, b') → idle b b'.
Proof.
  intros Hc. unfold verifyBlockBody. destruct (negb _); [by intros [= <- <-]|].
  destruct (CalculateTransactionsRoot _) as [root| |]; [|done..]. cbn [obind]. destruct (negb _); [by intros [= <- <-]|].
  destruct (executeBlockTransactions _ block b) as [[[br|e] b1]| |] eqn:E; try done; apply execute_idle in E as [Hi _]; try done; cbn [obind]; [|by intros [= <- <-]].
  destruct (verifyBlockResult br block) as [r'| |]; [|done..]. by intros [= <- <-].
Qed.

Lemma verifyBlock_idle block b r b' :
  caches_ok b → verifyBlock HeaderHash block b = Ret (r, b') → idle b b'.
Proof.
  intros Hc. destruct block as [block|]; cbn; [|by intros [= <- <-]].
  destruct (verifyBlockParent_ok block b Hc) as (b1 & Hs & E & _). destruct (verifyBlockParent _ block b) as [[[]|e] b2]; cbn in E; subst b2.
  - intros Hv. apply silent_idle in Hs. eapply idle_trans; [done|]. eapply verifyBlockBody_idle; [apply Hs|done].
  - intros [= <- <-]. by apply silent_idle.
Qed.

Lemma VerifyFinalizedBlock_idle block b r b' :
  caches_ok b → VerifyFinalizedBlock HeaderHash block b = Ret (r, b') → idle b b'.
Proof.
  intros Hc. destruct block as [block|]; [|done]. unfold VerifyFinalizedBlock.
  destruct (call_dep _ b) as [[[[]|e] b1]| |] eqn:E; try done; apply call_dep_idle in E; try done; cbn [obind]; [|by intros [= <- <-]].
  intros Hv. eapply idle_trans; [done|]. eapply verifyBlock_idle; [apply E|done].
Qed.

(** *** Writing a block *)

(** The address of a recovered key is not the zero address. *)
Hypothesis Sender_nonzero : ∀ t a, signer_Sender t = Ret (Ok a) → a ≠ ZeroAddress.

Lemma recover_senders txs : ∀ txs',
  recoverFromFieldsInBlock txs = Ret (Ok txs') → Forall (λ t, tx_From t ≠ ZeroAddress) txs' ∧ tx_Hash <$> txs' = tx_Hash <$> txs.
Proof.
  induction txs as [|t txs IH]; intros txs' E; cbn in E; [by simplify_eq|].
  destruct (Z.eqb_spec (tx_From t) ZeroAddress) as [Ht|Ht]; cbn in E.
  - destruct (signer_Sender t) as [[a|e]| |] eqn:Es; [|done..]. cbn in E. apply Sender_nonzero in Es.
    destruct (recoverFromFieldsInBlock txs) as [[rest|e]| |]; [|done..]. simplify_eq/=. destruct (IH rest eq_refl) as [Hf Hh].
    split; [by constructor|]. cbn. by f_equal.
  - destruct (recoverFromFieldsInBlock txs) as [[rest|e]| |]; [|done..]. simplify_eq/=. destruct (IH rest eq_refl) as [Hf Hh].
    split; [by constructor|]. cbn. by f_equal.
Qed.

(** What a caller checked before writing a block: it fits its parent, its hash
    is computed, and no other header has its hash. *)
Record checked (b : Blockchain) (block : Block) : Prop := {
  ck_parent : (verifyBlockParent HeaderHash block b).1 = Ok ();
  ck_u64 : is_u64 (hd_Number (bk_Header block));
  ck_hashed : HeaderHash (bk_Header block) = hd_Hash (bk_Header block);
  ck_nonzero : hd_Hash (bk_Header block) ≠ ZeroHash;
  ck_unique h : db_headers (bc_db b) !! hd_Hash (bk_Header block) = Some h → h = bk_Header block;
}.

(** A checked block above the head is on top of it. *)
Lemma checked_on_top b l block e :
  implements b l → checked b block → last l = Some e → hd_Number (e_header e) < hd_Number (bk_Header block) →
  hd_ParentHash (bk_Header block) = e_hash e ∧ hd_Number (bk_Header block) = Z.of_nat (length l) ∧
  verifyGasLimit (bk_Header block) (e_header e) = Ok () ∧ hd_Hash (bk_Header block) ∉ e_hash <$> l.
Proof.
  intros Hi [Hp Hu _ _ Hq] He Hlt. destruct (verifyBlockParent_ok block b (im_caches _ _ Hi)) as (b' & _ & _ & Hv).
  destruct (Hv Hp) as (parent & Ep & Hh & _ & Hn & Hg). destruct (header_by_hash _ _ _ _ Hi Ep) as (i & e' & Hl & _ & <-).
  destruct (ledger_last l (im_ledger _ _ Hi)) as (e'' & E'' & Hlast & Hnum). assert (e'' = e) as -> by congruence.
  pose proof (lo_number _ (im_ledger _ _ Hi) _ _ Hl) as Hi'. pose proof (lookup_lt_Some _ _ _ Hl).
  rewrite sub64_ge in Hn by (unfold is_u64, M64 in *; lia). assert (i = pred (length l)) as -> by lia.
  assert (e' = e) as -> by congruence. split_and!; [done|lia|done|].
  intros (e0 & E0 & [j Hj]%list_elem_of_lookup_1)%list_elem_of_fmap.
  assert (e_header e0 = bk_Header block) as Eq. { apply Hq. rewrite E0. by eapply headers_at. }
  pose proof (lo_number _ (im_ledger _ _ Hi) _ _ Hj). apply lookup_lt_Some in Hj. rewrite Eq in *. lia.
Qed.

Lemma ledger_append b l block txs rs e :
  implements b l → checked b block → last l = Some e → hd_Number (e_header e) < hd_Number (bk_Header block) →
  Forall (λ t, tx_From t ≠ ZeroAddress) txs →
  ledger_ok (l ++ [mkEntry (mkBlock (bk_Header block) txs (bk_Uncles block)) rs]).
Proof.
  intros Hi Hk He Hlt Hs. destruct (checked_on_top _ _ _ _ Hi Hk He Hlt) as (Hp & Hn & Hg & Hf). destruct Hk as [_ Hu Hh Hz _].
  destruct (im_ledger _ _ Hi) as [L1 L2 L3 L4 L5 L6 L7 L8]. set (x := mkEntry _ _).
  assert (∀ i y, (l ++ [x]) !! i = Some y → (l !! i = Some y ∧ (i < length l)%nat) ∨ i = length l ∧ y = x) as Hcase.
  { intros i y Hy. apply lookup_app_Some in Hy as [Hy|[Hle [Hy Hy']%list_lookup_singleton_Some]].
    - left. split; [done|by eapply lookup_lt_Some].
    - right. split; [lia|done]. }
  assert (∀ i y y', (l ++ [x]) !! i = Some y → (l ++ [x]) !! S i = Some y' →
    (l !! i = Some y ∧ l !! S i = Some y') ∨ (y = e ∧ y' = x)) as Hpair.
  { intros i y y' [[Hy Hlt1]|[-> ->]]%Hcase [[Hy' Hlt2]|[Hl' ->]]%Hcase; try lia; [by left|right]. split; [|done].
    rewrite last_lookup in He. replace i with (pred (length l)) in Hy by lia. congruence. }
  split.
  - by rewrite lookup_app_l by (destruct l; cbn in *; [done|lia]).
  - intros i y [[Hy _]|[-> ->]]%Hcase; [by apply L2|done].
  - rewrite length_app. cbn. unfold is_u64 in Hu. lia.
  - intros i y y' Hy Hy'. destruct (Hpair i y y' Hy Hy') as [[? ?]|[-> ->]]; [by eapply L4|done].
  - intros i y y' Hy Hy'. destruct (Hpair i y y' Hy Hy') as [[? ?]|[-> ->]]; [by eapply L5|done].
  - intros y [Hy| ->%list_elem_of_singleton]%elem_of_app; [by apply L6|done].
  - rewrite fmap_app. apply NoDup_app. split_and!; [done| |apply NoDup_singleton]. intros k Hk Hx%list_elem_of_singleton. subst k. done.
  - intros y [Hy| ->%list_elem_of_singleton]%elem_of_app; [by apply L8|done].
Qed.

Definition head_event (source : list Z) (h : Header) (td : Z) : Event :=
  SetDifficulty td (AddNewHeader h (set_Type EventHead (new_event source))).

Lemma writeHeader_on_head b current td source h :
  caches_ok b → chain_Header b = Some current → hd_ParentHash h = hd_Hash current →
  db_difficulty (bc_db b) !! hd_Hash current = Some td →
  ∃ b', silent b b' ∧ writeHeaderImpl HeaderHash (new_event source) h b =
    Ret (Ok (head_event source h (td + hd_Difficulty h)),
         setCurrentHeader h (td + hd_Difficulty h) (on_db (WriteCanonicalHeader h (td + hd_Difficulty h)) b')).
Proof.
  intros Hc Hh Hp Htd. unfold writeHeaderImpl. rewrite Hh, Hp, Z.eqb_refl. unfold writeCanonicalHeader.
  destruct (readTotalDifficulty_ok (hd_ParentHash h) b Hc) as (b' & E & Hs). rewrite E, Hp, Htd. by exists b'.
Qed.

Lemma lru_all_mono {A} (P Q : Z → A → Prop) c : (∀ k v, P k v → Q k v) → lru_all P c → lru_all Q c.
Proof. intros HPQ HP k v E. by apply HPQ, HP. Qed.

(** Caches after a header with a new hash. *)
Lemma caches_new_header b h td :
  caches_ok b → HeaderHash h = hd_Hash h → db_headers (bc_db b) !! hd_Hash h = None → db_difficulty (bc_db b) !! hd_Hash h = None →
  caches_ok (setCurrentHeader h td (on_db (WriteCanonicalHeader h td) b)).
Proof.
  intros [H1' H2' H3'] Hh Hn Hd. split; cbn.
  - eapply lru_all_mono; [|done]. intros k v Hk. cbn in Hk. rewrite lookup_insert_ne; [done|]. congruence.
  - eapply lru_all_mono; [|done]. intros k v Hk. cbn in Hk. rewrite lookup_insert_ne; [done|]. congruence.
  - intros k v. rewrite lookup_insert_Some. intros [[_ <-]|[_ Hk]]; [done|by eapply H3'].
Qed.

Lemma on_db_lookups hash txs : ∀ b,
  foldl (λ b t, on_db (WriteTxLookup (tx_Hash t) hash) b) b txs = on_db (write_lookups hash txs) b.
Proof. induction txs as [|t txs IH]; intros b; [by destruct b|]. cbn. by rewrite IH. Qed.

(** The head has moved to the block; the receipts are not written yet. *)
Definition body_written (block : Block) (b : Blockchain) : Blockchain :=
  let hash := hd_Hash (bk_Header block) in
  on_db (write_lookups hash (bk_Transactions block)) (on_db (WriteBody hash (bk_Body block)) b).

Lemma body_written_caches block b : caches_ok b → caches_ok (body_written block b).
Proof.
  intros [H1' H2' H3']. pose proof (write_lookups_fields (hd_Hash (bk_Header block)) (bk_Transactions block)
    (WriteBody (hd_Hash (bk_Header block)) (bk_Body block) (bc_db b))) as (_ & _ & _ & _ & Ed & Eh & _).
  split; cbn -[write_lookups]; rewrite ?Ed, ?Eh; done.
Qed.

Lemma header_written b l block txs source e :
  implements b l → checked b block → last l = Some e → hd_Number (e_header e) < hd_Number (bk_Header block) →
  Forall (λ t, tx_From t ≠ ZeroAddress) txs →
  let block' := mkBlock (bk_Header block) txs (bk_Uncles block) in
  ∃ b', writeHeaderImpl HeaderHash (new_event source) (bk_Header block) (body_written block' b) =
      Ret (Ok (head_event source (bk_Header block) (total l + hd_Difficulty (bk_Header block))), b') ∧
    implements b' (l ++ [mkEntry block' None]) ∧ bc_stream b' = bc_stream b ∧ bc_receiptsCache b' = bc_receiptsCache b ∧
    bc_deps b' = bc_deps b ∧ bc_price b' = bc_price b ∧ bc_count b' = bc_count b.
Proof.
  intros Hi Hk He Hlt Hs block'. destruct (checked_on_top _ _ _ _ Hi Hk He Hlt) as (Hp & Hn & Hg & Hf).
  pose proof (im_db _ _ Hi) as Hdb. destruct (ledger_last l (im_ledger _ _ Hi)) as (e' & He' & Hlast & _). assert (e' = e) as -> by congruence.
  pose proof (write_lookups_fields (hd_Hash (bk_Header block)) txs (WriteBody (hd_Hash (bk_Header block)) (bk_Body block') (bc_db b)))
    as (_ & _ & _ & _ & Ed & Eh & _).
  destruct (writeHeader_on_head (body_written block' b) (e_header e) (total l) source (bk_Header block)) as (b1 & [[Hsame Hrc Hdeps] Hc1] & E).
  - by apply body_written_caches, Hi.
  - cbn. pose proof (im_header _ _ Hi) as Hh. by rewrite He in Hh.
  - done.
  - change (hd_Hash (e_header e)) with (e_hash e). cbn -[write_lookups]. rewrite Ed. cbn. rewrite (da_difficulty _ _ Hdb), (by_hash_lookup _ _ _ (lo_distinct _ (im_ledger _ _ Hi)) Hlast).
    cbn -[take]. apply lookup_lt_Some in Hlast. by rewrite take_ge by lia.
  - rewrite E. eexists. split; [done|]. destruct Hsame as [S1 S2 S3 S4 S5 S6 S7].
    assert (db_headers (bc_db b1) = db_headers (bc_db b) ∧ db_difficulty (bc_db b1) = db_difficulty (bc_db b)) as [Eh1 Ed1].
    { rewrite S1. cbn -[write_lookups]. by rewrite Eh, Ed. }
    split_and!; [|done..]. split.
    + by eapply ledger_append.
    + by rewrite last_snoc.
    + by rewrite total_snoc.
    + cbn [setCurrentHeader on_db bc_db]. rewrite S1. replace (total l + hd_Difficulty (bk_Header block)) with (total (l ++ [mkEntry block' None])) by apply total_snoc.
      apply (append_agrees _ _ block'); [apply Hi|apply (ledger_nonempty _ (im_ledger _ _ Hi))|done..].
    + apply caches_new_header; [done|apply Hk|..].
      * rewrite Eh1, (da_headers _ _ Hdb). by rewrite by_hash_None.
      * rewrite Ed1, (da_difficulty _ _ Hdb). by rewrite by_hash_None.
Qed.

(** The receipts of an entry do not matter to the ledger. *)
Lemma ledger_blocks l l' : e_block <$> l = e_block <$> l' → ledger_ok l → ledger_ok l'.
Proof.
  intros E [L1 L2 L3 L4 L5 L6 L7 L8].
  assert (∀ i x', l' !! i = Some x' → ∃ x, l !! i = Some x ∧ e_block x = e_block x') as Hx.
  { intros i x' Hx'. pose proof (f_equal (.!! i) E) as Ei. rewrite !list_lookup_fmap, Hx' in Ei.
    destruct (l !! i) as [x|]; [|done]. exists x. by simplify_eq/=. }
  assert (∀ x', x' ∈ l' → ∃ x, x ∈ l ∧ e_block x = e_block x') as Hin.
  { intros x' [i Hi]%list_elem_of_lookup_1. destruct (Hx _ _ Hi) as (x & Hl & Ex). exists x. split; [by eapply list_elem_of_lookup_2|done]. }
  assert (length l = length l') as Elen by (by rewrite <- (length_fmap e_block l), E, length_fmap).
  unfold e_hash, e_header, e_txs in *. split; unfold e_hash, e_header, e_txs in *.
  - by rewrite <- list_lookup_fmap, <- E, list_lookup_fmap.
  - intros i x' Hi. destruct (Hx _ _ Hi) as (x & Hl & <-). by apply L2.
  - by rewrite <- Elen.
  - intros i x y Hi Hj. destruct (Hx _ _ Hi) as (x1 & Hl & <-), (Hx _ _ Hj) as (y1 & Hl' & <-). by eapply L4.
  - intros i x y Hi Hj. destruct (Hx _ _ Hi) as (x1 & Hl & <-), (Hx _ _ Hj) as (y1 & Hl' & <-). by eapply L5.
  - intros x' (x & Hl & <-)%Hin. by apply L6.
  - assert ((λ e, hd_Hash (bk_Header (e_block e))) <$> l' = (λ e, hd_Hash (bk_Header (e_block e))) <$> l) as ->; [|done].
    change (λ e, hd_Hash (bk_Header (e_block e))) with ((hd_Hash ∘ bk_Header) ∘ e_block). by rewrite !list_fmap_compose, E.
  - intros x' (x & Hl & <-)%Hin. by apply L8.
Qed.

Lemma receipts_written b l block rs :
  implements b (l ++ [mkEntry block None]) →
  implements (on_db (WriteReceipts (hd_Hash (bk_Header block)) rs) b) (l ++ [mkEntry block (Some rs)]).
Proof.
  intros Hi. assert (hd_Hash (bk_Header block) ∉ e_hash <$> l) as Hf.
  { pose proof (lo_distinct _ (im_ledger _ _ Hi)) as Hd. rewrite fmap_app in Hd. apply NoDup_app in Hd as (_ & Hd & _).
    intros Hin. apply (Hd _ Hin). cbn. apply list_elem_of_singleton. done. }
  split.
  - eapply ledger_blocks; [|apply Hi]. by rewrite !fmap_app.
  - pose proof (im_header _ _ Hi) as E. rewrite last_snoc in *. done.
  - pose proof (im_td _ _ Hi) as E. rewrite total_snoc in *. done.
  - apply receipts_agree; [done|apply Hi].
  - destruct (im_caches _ _ Hi). by split.
Qed.

Lemma extract_idle block b r b' :
  caches_ok b → extractBlockReceipts HeaderHash block b = Ret (r, b') → idle b b'.
Proof.
  intros [] E. unfold extractBlockReceipts in E. destruct (lru_Get _ (bc_receiptsCache b)) as [[rs|] c]; [by simplify_eq/=|].
  destruct (executeBlockTransactions _ _ _) as [[r0 b1]| |] eqn:Ex; [|done..]. cbn in E. simplify_eq.
  apply execute_idle in Ex as [[Hs Hc] _]; [|by split]. split; [|done]. destruct Hs. by split.
Qed.

Lemma extract_hit block b r b' : extractBlockReceipts HeaderHash block b = Ret (r, b') →
  ∀ rs, (lru_Get (hd_Hash (bk_Header block)) (bc_receiptsCache b)).1 = Some rs → r = Ok rs.
Proof.
  intros E rs Hrs. unfold extractBlockReceipts in E. destruct (lru_Get _ (bc_receiptsCache b)) as [[rs'|] c]; by simplify_eq/=.
Qed.

Lemma average_ok b l block b' : implements b l → updateGasPriceAvgWithBlock block b = Ret b' →
  implements b' l ∧ bc_stream b' = bc_stream b.
Proof.
  intros [? ? ? ? []] E. unfold updateGasPriceAvgWithBlock, updateGasPriceAvg, calcArithmeticAverage in E.
  repeat case_match; simplify_eq/=; (split; [split; [done..|by split]|done]).
Qed.

Lemma dispatch_ok b l ev : implements b l → implements (dispatchEvent ev b) l.
Proof. intros [? ? ? ? []]. split; [done..|by split]. Qed.

(** A block written is a block at the end of the ledger, or nothing. *)
Lemma WriteBlock_appends b l block source r b' e :
  implements b l → checked b block → last l = Some e → chain_WriteBlock HeaderHash block source b = Ret (r, b') →
  (hd_Number (bk_Header block) ≤ hd_Number (e_header e) ∧ r = Ok () ∧ b' = b) ∨
  (hd_Number (e_header e) < hd_Number (bk_Header block) ∧
    ((∃ err, recoverFromFieldsInBlock (bk_Transactions block) = Ret (Err err) ∧ r = Err err ∧ b' = b) ∨
     ∃ txs rs, recoverFromFieldsInBlock (bk_Transactions block) = Ret (Ok txs) ∧
       implements b' (l ++ [mkEntry (mkBlock (bk_Header block) txs (bk_Uncles block)) rs]) ∧
       (r = Ok () → is_Some rs ∧
          bc_stream b' = push (head_event source (bk_Header block) (total l + hd_Difficulty (bk_Header block))) (bc_stream b) ∧
          ∀ rs', (lru_Get (hd_Hash (bk_Header block)) (bc_receiptsCache b)).1 = Some rs' → rs = Some rs'))).
Proof.
  intros Hi Hk He. unfold chain_WriteBlock. rewrite (im_header _ _ Hi), He. cbn [fmap option_fmap option_map].
  destruct (Z.leb_spec (hd_Number (bk_Header block)) (hd_Number (e_header e))) as [Hle|Hlt]; [intros [= <- <-]; by left|].
  intros E. right. split; [done|]. unfold writeBody in E.
  destruct (recoverFromFieldsInBlock (bk_Transactions block)) as [[txs|err]| |] eqn:Er; [|simplify_eq/=; left; by exists err|done..].
  right. exists txs. cbn [obind bk_Header bk_Transactions] in E. rewrite on_db_lookups in E.
  set (block' := mkBlock (bk_Header block) txs (bk_Uncles block)) in *. change (on_db _ (on_db _ b)) with (body_written block' b) in E.
  apply recover_senders in Er as Hs. destruct Hs as [Hs _].
  destruct (header_written b l block txs source e Hi Hk He Hlt Hs) as (b1 & E1 & Hi1 & Hst1 & Hrc1 & _). fold block' in E1, Hi1. rewrite E1 in E. cbn [obind] in E.
  destruct (extractBlockReceipts HeaderHash block' b1) as [[[rs|err] b2]| |] eqn:E2; try done; cbn [obind] in E.
  all: pose proof (extract_hit _ _ _ _ E2) as Hhit; rewrite Hrc1 in Hhit; apply extract_idle in E2 as Hid; [|apply Hi1]; pose proof (implements_idle _ _ _ Hi1 Hid) as Hi2; destruct Hid as [Hsc _].
  2: { simplify_eq. exists None. split; [done|]. split; [done|]. intros [=]. }
  apply (receipts_written _ _ block' rs) in Hi2. exists (Some rs). split; [done|].
  destruct (call_dep _ _) as [[[[]|err] b3]| |] eqn:E3; try done; cbn [obind] in E; apply call_dep_idle in E3; try apply Hi2.
  all: pose proof (implements_idle _ _ _ Hi2 E3) as Hi3; destruct E3 as [Hsc3 _].
  2: { simplify_eq. split; [done|]. intros [=]. }
  destruct (updateGasPriceAvgWithBlock block' (dispatchEvent _ b3)) as [b4| |] eqn:E4; try done. cbn [obind] in E.
  destruct (average_ok _ _ _ _ (dispatch_ok _ _ _ Hi3) E4) as [Hi4 Hst4].
  destruct (GetHeaderByNumber_ok (sub64 (hd_Number (bk_Header block)) 1) b4 (im_caches _ _ Hi4)) as (b5 & E5 & Hs5).
  rewrite E5 in E. injection E as <- <-. apply silent_idle in Hs5. split; [by eapply implements_idle|]. intros _. split_and!; [done| |].
  2: { intros rs' Hrs'. apply Hhit in Hrs'. by simplify_eq. }
  rewrite (sc_stream _ _ (proj1 Hs5)), Hst4. cbn. f_equal. rewrite (sc_stream _ _ Hsc3). cbn. by rewrite (sc_stream _ _ Hsc).
Qed.

(** *** Start and restart *)

Hypothesis HeaderHash_ignores_Hash : ∀ h x, HeaderHash (set_hd_Hash x h) = HeaderHash h.

Record genesis_ok : Prop := {
  gk_number : g_Number genesis_config = 0;
  gk_parent : g_ParentHash genesis_config = ZeroHash;
  gk_nonzero : hd_Hash genesis_header ≠ ZeroHash;
}.
Hypothesis Hgenesis : genesis_ok.

Lemma genesis_ledger : ledger_ok [genesis_entry].
Proof.
  destruct Hgenesis as [Hn Hp Hz]. split; cbn.
  - done.
  - intros [|i] e E; [|done]. injection E as <-. done.
  - unfold M64. lia.
  - intros [|i] e e' _ E; done.
  - intros [|i] e e' _ E; done.
  - intros e ->%list_elem_of_singleton. split; [apply HeaderHash_ignores_Hash|done].
  - apply NoDup_singleton.
  - intros e ->%list_elem_of_singleton. done.
Qed.

Lemma start_ok deps : ∃ b,
  ComputeGenesis HeaderHash genesis_config (NewBlockchain empty_db deps) = (Ok (), b) ∧ implements b [genesis_entry].
Proof.
  destruct Hgenesis as [Hn Hp Hz]. unfold ComputeGenesis. cbn [NewBlockchain bc_db empty_db db_headHash].
  unfold writeGenesis. fold genesis_header. unfold writeGenesisImpl, advanceHead.
  change (hd_ParentHash genesis_header) with (g_ParentHash genesis_config). rewrite Hp. cbn [negb Z.eqb ZeroHash].
  eexists. split; [reflexivity|]. assert (∀ k, by_hash k [genesis_entry] = if decide (hd_Hash genesis_header = k) then Some (0%nat, genesis_entry) else None) as Eb.
  { intros k. unfold by_hash. cbn. by case_decide. }
  assert (total [genesis_entry] = 0 + hd_Difficulty genesis_header) as Et by (unfold total; cbn; lia).
  split; [apply genesis_ledger|done|by rewrite Et|..].
  - split; cbn -[by_hash genesis_header]; try done.
    + intros n. change (hd_Number genesis_header) with (g_Number genesis_config). rewrite Hn. destruct (decide (0 = n)) as [<-|Hne].
      * by rewrite lookup_insert_eq.
      * rewrite lookup_insert_ne, lookup_empty by done. destruct (Z.leb_spec 0 n); [|done].
        by destruct (Z.to_nat n) as [|m] eqn:En; [lia|].
    + intros k. rewrite Eb. case_decide as Hk; [by rewrite <- Hk, lookup_insert_eq|by rewrite lookup_insert_ne].
    + intros k. rewrite Eb. case_decide as Hk; [|by rewrite lookup_insert_ne]. rewrite <- Hk, lookup_insert_eq, <- Et. done.
    + intros k. rewrite Eb. by case_decide.
    + intros k. rewrite Eb. by case_decide.
  - split; [apply lru_all_New|apply lru_all_New|]. cbn -[genesis_header]. intros k h. rewrite lookup_insert_Some. intros [[_ <-]|[_ ?]]; [|done].
    apply HeaderHash_ignores_Hash.
Qed.

(** A node started on the database of another. *)
Lemma restart_ok b l deps : implements b l → ∃ b',
  ComputeGenesis HeaderHash genesis_config (NewBlockchain (bc_db b) deps) = (Ok (), b') ∧ implements b' l ∧ bc_db b' = bc_db b.
Proof.
  intros Hi. pose proof (im_db _ _ Hi) as Hdb. destruct (ledger_last l (im_ledger _ _ Hi)) as (e & He & Hl & _).
  unfold ComputeGenesis. cbn [NewBlockchain bc_db]. rewrite (da_headHash _ _ Hdb), He, (da_canonical _ _ Hdb). cbn [fmap option_fmap option_map].
  change (Z.to_nat 0) with 0%nat. pose proof (lo_genesis _ (im_ledger _ _ Hi)) as Hg. destruct (l !! 0%nat) as [g|]; [|done].
  apply (inj Some) in Hg. cbn [fmap option_fmap option_map Z.leb Z.compare]. unfold e_hash at 1, e_header. rewrite Hg.
  change (genesis_Hash HeaderHash genesis_config) with (hd_Hash genesis_header). cbn [bk_Header]. rewrite Z.eqb_refl. cbn [negb].
  set (b0 := set_genesis _ _). assert (caches_ok b0) as Hc0.
  { split; [apply lru_all_New..|]. apply (c_hashed _ (im_caches _ _ Hi)). }
  assert (bc_db b0 = bc_db b) as Edb by done.
  destruct (readHeader_ok (e_hash e) b0 Hc0) as (b1 & E1 & Hs1). rewrite E1, Edb, (headers_at _ _ _ _ Hi Hl).
  destruct (readTotalDifficulty_ok (e_hash e) b1 (proj2 Hs1)) as (b2 & E2 & Hs2). rewrite E2.
  assert (bc_db b1 = bc_db b) as Edb1 by (by rewrite (sc_db _ _ (sn_chain _ _ (proj1 Hs1)))).
  assert (bc_db b2 = bc_db b) as Edb2 by (by rewrite (sc_db _ _ (sn_chain _ _ (proj1 Hs2)))).
  rewrite Edb1, (da_difficulty _ _ Hdb), (by_hash_lookup _ _ _ (lo_distinct _ (im_ledger _ _ Hi)) Hl). cbn [fmap option_fmap option_map fst].
  rewrite take_ge by (apply lookup_lt_Some in Hl; lia). eexists. split; [reflexivity|]. split; [|done]. split.
  - apply Hi.
  - cbn. by rewrite He.
  - done.
  - cbn. by rewrite Edb2.
  - destruct Hs2 as [_ []]. by split.
Qed.

(** ** A node at work *)

(** The calls other packages make; a call that panics has no next state. *)
Inductive node_step (b : Blockchain) : Blockchain → Prop :=
| step_header k : node_step b (readHeader HeaderHash k b).2
| step_td k : node_step b (readTotalDifficulty k b).2
| step_number n : node_step b (GetHeaderByNumber HeaderHash n b).2
| step_limit n : node_step b (CalculateGasLimit HeaderHash blockGasTarget n b).2
| step_block n full r b' : 0 ≤ n → GetBlockByNumber HeaderHash n full b = Ret (r, b') → node_step b b'
| step_ancestor k h i r b' :
    db_headers (bc_db b) !! k = Some h → hd_Number h ≠ 0 → 0 ≤ i → GetHashHelper HeaderHash h i b = Ret (r, b') → node_step b b'
| step_potential block r b' : VerifyPotentialBlock HeaderHash block b = Ret (r, b') → node_step b b'
| step_finalized block r b' : VerifyFinalizedBlock HeaderHash block b = Ret (r, b') → node_step b b'
| step_write block source r b' :
    checked b block → chain_WriteBlock HeaderHash block source b = Ret (r, b') → node_step b b'
| step_subscribe : node_step b (SubscribeEvents b).2
| step_event i ev s : GetEvent i (bc_stream b) = Some (ev, s) → node_step b (set_stream s b)
| step_restart deps r b' :
    ComputeGenesis HeaderHash genesis_config (NewBlockchain (bc_db b) deps) = (r, b') → node_step b b'.

Lemma implements_stream b l s : implements b l → implements (set_stream s b) l.
Proof. intros [? ? ? ? []]. split; [done..|by split]. Qed.

Lemma step_ledger b b' l : implements b l → node_step b b' → ∃ l', l `prefix_of` l' ∧ implements b' l'.
Proof.
  intros Hi Hst. pose proof (im_caches _ _ Hi) as Hc.
  assert (∀ b1, idle b b1 → ∃ l', l `prefix_of` l' ∧ implements b1 l') as Hidle.
  { intros b1 Hid. exists l. split; [done|by eapply implements_idle]. }
  destruct Hst as [k|k|n|n|n full r b' Hn E|k h i r b' Hh Hnz Hi0 E|block r b' E|block r b' E|block source r b' Hck E| |i ev s E|deps r b' E].
  - destruct (readHeader_ok k b Hc) as (b1 & -> & ?%silent_idle). by apply Hidle.
  - destruct (readTotalDifficulty_ok k b Hc) as (b1 & -> & ?%silent_idle). by apply Hidle.
  - destruct (GetHeaderByNumber_ok n b Hc) as (b1 & -> & ?%silent_idle). by apply Hidle.
  - unfold CalculateGasLimit. destruct (GetHeaderByNumber_ok (sub64 n 1) b Hc) as (b1 & -> & ?%silent_idle).
    apply Hidle. by case_match.
  - destruct (GetBlockByNumber_ok b l n full Hi Hn) as (b1 & E' & ?%silent_idle). rewrite E' in E. injection E as _ <-. by apply Hidle.
  - destruct (header_by_hash _ _ _ _ Hi Hh) as (j & e & Hl & _ & <-). destruct j as [|j]; [by rewrite (lo_number _ (im_ledger _ _ Hi) _ _ Hl) in Hnz|].
    destruct (GetHashHelper_ok b l j e i Hi Hl Hi0) as (b1 & E' & ?%silent_idle). rewrite E' in E. injection E as _ <-. by apply Hidle.
  - apply Hidle. by eapply verifyBlock_idle.
  - apply Hidle. by eapply VerifyFinalizedBlock_idle.
  - destruct (ledger_last l (im_ledger _ _ Hi)) as (e & He & _).
    destruct (WriteBlock_appends _ _ _ _ _ _ _ Hi Hck He E) as [(_ & _ & ->)|(_ & [(err & _ & _ & ->)|(txs & rs & _ & Hi' & _)])].
    + by exists l.
    + by exists l.
    + eexists. split; [|done]. by eexists.
  - exists l. split; [done|]. by apply implements_stream.
  - exists l. split; [done|]. by apply implements_stream.
  - destruct (restart_ok b l deps Hi) as (b1 & E' & Hi' & _). rewrite E' in E. injection E as _ <-. by exists l.
Qed.

(** C3.  A node is an append-only ledger.  Starting from an empty database it
    writes the genesis block, and in whatever order it then verifies blocks,
    writes blocks it checked against their parents, reads and restarts, its
    state is that of a list of blocks that only grows: numbered from zero, each
    the child of the one before it and within its gas limit, with the canonical
    index, the headers, bodies, receipts, lookups and total difficulties of the
    database, the caches and the current header all telling that list.  So
    [writeHeaderImpl] never leaves its fast path here, no canonical hash changes
    and no fork is stored. *)
Theorem node_is_append_only_ledger deps : ∃ b0,
  ComputeGenesis HeaderHash genesis_config (NewBlockchain empty_db deps) = (Ok (), b0) ∧
  ∀ b, rtc node_step b0 b → ∃ l, implements b l ∧
    ∀ b', rtc node_step b b' → ∃ l', l `prefix_of` l' ∧ implements b' l'.
Proof.
  destruct (start_ok deps) as (b0 & E0 & Hi0). exists b0. split; [done|].
  assert (∀ b b', rtc node_step b b' → ∀ l, implements b l → ∃ l', l `prefix_of` l' ∧ implements b' l') as Hrun.
  { induction 1 as [b|b1 b2 b3 Hs _ IH]; intros l Hi; [by exists l|]. destruct (step_ledger _ _ _ Hi Hs) as (l1 & Hp1 & Hi1).
    destruct (IH l1 Hi1) as (l2 & Hp2 & Hi2). exists l2. split; [by etrans|done]. }
  intros b Hr. destruct (Hrun _ _ Hr _ Hi0) as (l & _ & Hi). exists l. split; [done|]. intros b' Hr'. by eapply Hrun.
Qed.

(** What a node reads is what its ledger holds: the header and the block of
    a number, none above the head, the hash of any ancestor of a block as
    [BLOCKHASH] asks for it and zero for other numbers, and the receipts and the
    block of a transaction; the current header and total difficulty are those of
    the last block. *)
Theorem ledger_reads b l n i e :
  implements b l → 0 ≤ n → l !! i = Some e →
  (GetHeaderByNumber HeaderHash n b).1 = e_header <$> l !! Z.to_nat n ∧
  (∃ b', GetBlockByNumber HeaderHash n true b =
     Ret (e_block <$> l !! Z.to_nat n, bool_decide (is_Some (l !! Z.to_nat n)), b')) ∧
  ((0 < i)%nat → ∃ b', GetHashHelper HeaderHash (e_header e) n b =
     Ret (if n <? Z.of_nat i then from_option e_hash ZeroHash (l !! Z.to_nat n) else ZeroHash, b')) ∧
  db_receipts (bc_db b) !! e_hash e = e_receipts e ∧
  (∀ t, db_txLookup (bc_db b) !! t = e_hash <$> block_of_tx t l) ∧
  chain_Header b = e_header <$> last l ∧ CurrentTD b = Some (total l).
Proof.
  intros Hi Hn Hl. pose proof (im_db _ _ Hi) as Hdb. split_and!.
  - destruct (GetHeaderByNumber_ok n b (im_caches _ _ Hi)) as (b' & -> & _). by apply header_of_number.
  - destruct (GetBlockByNumber_ok b l n true Hi Hn) as (b' & -> & _). exists b'. by destruct (l !! Z.to_nat n).
  - intros H0'. destruct i as [|i]; [lia|]. destruct (GetHashHelper_ok b l i e n Hi Hl Hn) as (b' & -> & _). exists b'. f_equal. f_equal.
    destruct (Z.leb_spec n (Z.of_nat i)), (Z.ltb_spec n (Z.of_nat (S i))); done || lia.
  - rewrite (da_receipts _ _ Hdb), (by_hash_lookup _ i e) by (done || apply Hi). done.
  - apply Hdb.
  - apply Hi.
  - apply Hi.
Qed.

(** ** A block verified, then written *)

(** A cache returns what was just added to it. *)
Hypothesis lru_Get_Add : ∀ A k (v : A) c, (lru_Get k (lru_Add k v c)).1 = Some v.

(** What a verified block and its receipts satisfy. *)
Record block_valid (block : Block) (rs : list Receipt) : Prop := {
  bv_uncles : CalculateUncleRoot (bk_Uncles block) = hd_Sha3Uncles (bk_Header block);
  bv_txs : CalculateTransactionsRoot (bk_Transactions block) = Ret (hd_TxRoot (bk_Header block));
  bv_receipts : CalculateReceiptsRoot rs = Ret (hd_ReceiptsRoot (bk_Header block));
  bv_length : length rs = length (bk_Transactions block);
  bv_executed : ∃ txn s s', tr_Commit txn s = Ret (hd_StateRoot (bk_Header block), s') ∧ tr_Receipts txn = rs ∧
    tr_TotalGas txn = hd_GasUsed (bk_Header block);
}.

Lemma execute_result block b br b' : executeBlockTransactions HeaderHash block b = Ret (Ok br, b') →
  ∃ txn s s', tr_Commit txn s = Ret (br_Root br, s') ∧ tr_Receipts txn = br_Receipts br ∧ tr_TotalGas txn = br_TotalGas br.
Proof.
  unfold executeBlockTransactions. destruct (readHeader _ _ _) as [[parent|] b1]; [|done].
  destruct (call_dep _ b1) as [[[creator|e] b2]| |]; try done. cbn [obind].
  destruct (call_dep _ b2) as [[[txn|e] b3]| |]; try done. cbn [obind].
  destruct (call_dep _ b3) as [[[txn'|e] b4]| |]; try done. cbn [obind].
  destruct (tr_Commit txn' (bc_deps b4)) as [[root s]| |] eqn:E; try done. intros [= <- <-]. by eexists _, _, _.
Qed.

Lemma verifyBlockBody_valid block b b' :
  caches_ok b → verifyBlockBody HeaderHash block b = Ret (Ok (), b') →
  ∃ rs, block_valid block rs ∧ (lru_Get (hd_Hash (bk_Header block)) (bc_receiptsCache b')).1 = Some rs.
Proof.
  intros Hc. unfold verifyBlockBody. destruct (Z.eqb_spec (CalculateUncleRoot (bk_Uncles block)) (hd_Sha3Uncles (bk_Header block))); [|done].
  cbn [negb]. destruct (CalculateTransactionsRoot _) as [root| |] eqn:Et; [|done..]. cbn [obind].
  destruct (Z.eqb_spec root (hd_TxRoot (bk_Header block))) as [->|]; [|done]. cbn [negb].
  destruct (executeBlockTransactions _ block b) as [[[br|e'] b1]| |] eqn:E; try done. cbn [obind].
  destruct (verifyBlockResult br block) as [r| |] eqn:Ev; try done. cbn [obind]. intros [= -> <-].
  destruct (execute_result _ _ _ _ E) as (txn & s & s' & Hcm & Hrs & Hgas). apply execute_idle in E as [_ Hca]; [|done].
  destruct (Hca br eq_refl) as [c Ec]. exists (br_Receipts br). split; [|by rewrite Ec].
  unfold verifyBlockResult in Ev. destruct (Nat.eqb_spec (length (br_Receipts br)) (length (bk_Transactions block))); [|done].
  destruct (Z.eqb_spec (br_Root br) (hd_StateRoot (bk_Header block))) as [Hroot|]; [|done].
  destruct (Z.eqb_spec (br_TotalGas br) (hd_GasUsed (bk_Header block))) as [Hused|]; [|done]. cbn [negb] in Ev.
  destruct (CalculateReceiptsRoot _) as [rroot| |] eqn:Er; [|done..]. cbn [obind] in Ev.
  destruct (Z.eqb_spec rroot (hd_ReceiptsRoot (bk_Header block))) as [->|]; [|done].
  split; [done..|]. exists txn, s, s'. split_and!; congruence.
Qed.

(** A block that a node accepts and then writes is stored with receipts that
    match it: as many as its transactions, under the receipts root of its
    header, produced by an execution whose state root and gas are the header's.
    Its roots commit to its transactions and uncles, the senders of the stored
    transactions are filled in, every transaction is found under its hash, and
    the listeners are told. *)
Theorem verified_block_is_stored b l e block source r b1 b2 :
  implements b l → last l = Some e → hd_Number (e_header e) < hd_Number (bk_Header block) →
  VerifyFinalizedBlock HeaderHash (Some block) b = Ret (Ok (), b1) →
  checked b1 block → chain_WriteBlock HeaderHash block source b1 = Ret (r, b2) → is_ok r = true →
  ∃ txs rs, recoverFromFieldsInBlock (bk_Transactions block) = Ret (Ok txs) ∧ block_valid block rs ∧
    implements b2 (l ++ [mkEntry (mkBlock (bk_Header block) txs (bk_Uncles block)) (Some rs)]) ∧
    bc_stream b2 = push (head_event source (bk_Header block) (total l + hd_Difficulty (bk_Header block))) (bc_stream b).
Proof.
  intros Hi He Hlt Hv Hk Hw Hr. pose proof (VerifyFinalizedBlock_idle _ _ _ _ (im_caches _ _ Hi) Hv) as Hid.
  assert (∃ rs, block_valid block rs ∧ (lru_Get (hd_Hash (bk_Header block)) (bc_receiptsCache b1)).1 = Some rs) as (rs & Hvalid & Hhit).
  { unfold VerifyFinalizedBlock in Hv. destruct (call_dep _ b) as [[[[]|err] b0]| |] eqn:E0; try done. cbn [obind verifyBlock] in Hv.
    apply call_dep_idle in E0; [|apply Hi]. destruct (verifyBlockParent_ok block b0 (proj2 E0)) as (b0' & Hs & E & _).
    destruct (verifyBlockParent _ block b0) as [[[]|err] b3]; [|done]. cbn in E. subst b3.
    eapply verifyBlockBody_valid; [|done]. apply Hs. }
  pose proof (implements_idle _ _ _ Hi Hid) as Hi1.
  destruct (WriteBlock_appends _ _ _ _ _ _ _ Hi1 Hk He Hw) as [(Hle & _)|(_ & [(err & _ & -> & _)|(txs & ors & Hrec & Hi2 & Hok)])]; [lia|done|].
  destruct r as [[]|err]; [|done]. destruct (Hok eq_refl) as (_ & Hst & Hrs). rewrite (Hrs _ Hhit) in Hi2.
  exists txs, rs. split_and!; [done..|]. by rewrite Hst, (sc_stream _ _ (proj1 Hid)).
Qed.
End chain.
