(* ===== verification/BlockchainFork.v ===== *)
(** Fork choice: the head of the chain is the heaviest header it was given.

    [WriteHeaders] takes headers that need not extend the head, in any order.
    [fork_inv] is what holds of the database whatever they are: the head has the
    greatest total difficulty stored, and every stored difficulty is that of the
    parent plus the header's own, down to the genesis. *)
From S2P Require Import Prelude Types Runtime Crypto StateTxn Bloom Rlp RlpTypes ChainStorage Trie BuildRoot Blockchain BlockchainSpec.

Section fork.
Context `{External} `{RlpReader} `{LRULaws} `{ChainDeps}.
Variable HeaderHash : Header → Hash.

(** The headers in existence: they carry their hashes, which differ, and a child
    has the number after its parent's. *)
Record universe (U : Header → Prop) (genesis : Header) : Prop := {
  un_hashed h : U h → HeaderHash h = hd_Hash h;
  un_nonzero h : U h → hd_Hash h ≠ ZeroHash;
  un_inj h h' : U h → U h' → hd_Hash h = hd_Hash h' → h = h';
  un_difficulty h : U h → 0 ≤ hd_Difficulty h;
  un_number h p : U h → U p → hd_ParentHash h = hd_Hash p → hd_Number h = hd_Number p + 1;
  un_u64 h : U h → is_u64 (hd_Number h);
  un_genesis : U genesis;
  un_genesis_number : hd_Number genesis = 0;
  un_genesis_parent : hd_ParentHash genesis = ZeroHash;
}.

Variables (U : Header → Prop) (genesis : Header).
Hypothesis HU : universe U genesis.

(** A header with its total difficulty. *)
Definition weighed (d : chain_db) (h : Header) : Prop :=
  db_headers d !! hd_Hash h = Some h ∧ is_Some (db_difficulty d !! hd_Hash h).

(** Every total difficulty is that of the parent and the header's own. *)
Record weights_ok (d : chain_db) : Prop := {
  wo_weight k w : db_difficulty d !! k = Some w → ∃ h, db_headers d !! k = Some h ∧
    ((h = genesis ∧ w = hd_Difficulty h) ∨
     ∃ pw, db_difficulty d !! hd_ParentHash h = Some pw ∧ w = pw + hd_Difficulty h);
  wo_universe k h : db_headers d !! k = Some h → U h ∧ hd_Hash h = k;
}.

Record fork_inv (b : Blockchain) (cur : Header) (td : Z) : Prop := {
  fi_cur : chain_Header b = Some cur;
  fi_td : CurrentTD b = Some td;
  fi_headHash : db_headHash (bc_db b) = Some (hd_Hash cur);
  fi_headNumber : db_headNumber (bc_db b) = Some (hd_Number cur);
  fi_canonical : db_canonical (bc_db b) !! hd_Number cur = Some (hd_Hash cur);
  fi_stored : db_headers (bc_db b) !! hd_Hash cur = Some cur ∧ db_difficulty (bc_db b) !! hd_Hash cur = Some td;
  fi_heaviest k w : db_difficulty (bc_db b) !! k = Some w → w ≤ td;
  fi_weights : weights_ok (bc_db b);
  fi_leaf h : weighed (bc_db b) h → hd_ParentHash h ≠ hd_Hash cur;
  fi_caches : caches_ok HeaderHash b;
}.

(** A weighed header is the genesis or the child of one. *)
Definition rooted (d : chain_db) : Prop := ∀ h, weighed d h →
  h = genesis ∨ ∃ p, weighed d p ∧ hd_Hash p = hd_ParentHash h ∧ hd_Number h = hd_Number p + 1.

Lemma weights_rooted d : weights_ok d → rooted d.
Proof.
  intros [Hw Hu] h [Hh [w Hd]]. destruct (Hw _ _ Hd) as (h' & Hh' & Hcase). assert (h' = h) as -> by congruence.
  destruct Hcase as [[-> _]|(pw & Hpw & _)]; [by left|]. right.
  destruct (Hw _ _ Hpw) as (p & Hp & _). destruct (Hu _ _ Hp) as [Up Ep].
  exists p. rewrite Ep. split_and!; [split; rewrite Ep; [done|by eexists]|done|].
  apply (un_number _ _ HU); [by apply (Hu _ _ Hh)|done|done].
Qed.

Lemma weighed_number d h : weights_ok d → weighed d h → 0 ≤ hd_Number h.
Proof. intros [_ Hu] [Hh _]. by apply (un_u64 _ _ HU), (Hu _ _ Hh). Qed.

Lemma no_zero d : weights_ok d → db_difficulty d !! ZeroHash = None.
Proof.
  intros [Hw Hu]. destruct (db_difficulty d !! ZeroHash) as [w|] eqn:E; [|done].
  destruct (Hw _ _ E) as (h & Hh & _). destruct (Hu _ _ Hh) as [HUh Eh]. by apply (un_nonzero _ _ HU) in HUh.
Qed.

Lemma parent_nonzero d h w : weights_ok d → db_difficulty d !! hd_ParentHash h = Some w → hd_ParentHash h ≠ ZeroHash.
Proof. intros Hw E Hz. by rewrite Hz, no_zero in E. Qed.

Lemma not_own_parent h : U h → hd_ParentHash h ≠ hd_Hash h.
Proof. intros Hh E. pose proof (un_number _ _ HU h h Hh Hh E). lia. Qed.

(** A header is weighed once. *)
Lemma weight_unique d h w pw :
  weights_ok d → U h → db_difficulty d !! hd_Hash h = Some w → db_difficulty d !! hd_ParentHash h = Some pw →
  w = pw + hd_Difficulty h.
Proof.
  intros Hw Hh E Ep. pose proof (parent_nonzero _ _ _ Hw Ep) as Hz. destruct Hw as [Hw Hu].
  destruct (Hw _ _ E) as (h' & Hh' & Hcase). destruct (Hu _ _ Hh') as [HUh' Eh'].
  assert (h' = h) as -> by (by apply (un_inj _ _ HU)). destruct Hcase as [[-> _]|(pw' & Epw & ->)]; [|congruence].
  by rewrite (un_genesis_parent _ _ HU) in Hz.
Qed.

Lemma weights_header d h : weights_ok d → U h → weights_ok (WriteHeader h d).
Proof.
  intros [Hw Hu] Hh. split; cbn.
  - intros k w E. destruct (Hw _ _ E) as (h' & Eh' & Hcase). exists h'. split; [|done].
    destruct (decide (hd_Hash h = k)) as [<-|]; [|by rewrite lookup_insert_ne]. rewrite lookup_insert_eq. f_equal.
    destruct (Hu _ _ Eh') as [HUh' Ek]. by apply (un_inj _ _ HU).
  - intros k h'. rewrite lookup_insert_Some. intros [[<- <-]|[_ Hk]]; [done|by apply Hu].
Qed.

Lemma weights_difficulty d h pw :
  weights_ok d → U h → db_headers d !! hd_Hash h = Some h → db_difficulty d !! hd_ParentHash h = Some pw →
  weights_ok (WriteTotalDifficulty (hd_Hash h) (pw + hd_Difficulty h) d).
Proof.
  intros Hwo Hh Eh Ep. pose proof (weight_unique d h) as Hq. pose proof (not_own_parent h Hh) as Hnp. pose proof Hwo as [Hw Hu]. split; cbn; [|done].
  assert (∀ k w, db_difficulty d !! k = Some w → <[hd_Hash h := pw + hd_Difficulty h]> (db_difficulty d) !! k = Some w) as Hmono.
  { intros k w E. destruct (decide (hd_Hash h = k)) as [<-|]; [|by rewrite lookup_insert_ne]. rewrite lookup_insert_eq. f_equal. symmetry. by eapply Hq. }
  intros k w [[<- <-]|[_ E]]%lookup_insert_Some.
  - exists h. split; [done|]. right. exists pw. split; [by apply Hmono|done].
  - destruct (Hw _ _ E) as (h' & Eh' & [?|(pw' & Ep' & ->)]); exists h'; (split; [done|]); [by left|right]. exists pw'. split; [by apply Hmono|done].
Qed.

(** ** The walks of a reorganisation *)

Lemma walk_down_ok fuel : ∀ h number chain b,
  caches_ok HeaderHash b → rooted (bc_db b) → (∀ h, weighed (bc_db b) h → 0 ≤ hd_Number h) → weighed (bc_db b) h →
  0 ≤ number → hd_Number h ≤ Z.of_nat fuel + number →
  ∃ h' c b', walk_down HeaderHash fuel h number chain b = Ret (h', chain ++ c, b') ∧ silent HeaderHash b b' ∧ weighed (bc_db b) h' ∧
    hd_Number h' = Z.min (hd_Number h) number ∧
    ((c = [] ∧ h' = h) ∨ (c ≠ [] ∧ ∃ x, weighed (bc_db b) x ∧ (x = h ∨ x ∈ c) ∧ hd_ParentHash x = hd_Hash h')).
Proof.
  induction fuel as [|fuel IH]; intros h number chain b Hc Hr Hn Hw Hpos Hf; cbn [walk_down].
  { destruct (Z.gtb_spec (hd_Number h) number); [lia|]. exists h, [], b. rewrite app_nil_r. split_and!; try done; [lia|by left]. }
  destruct (Z.gtb_spec (hd_Number h) number) as [Hgt|Hle].
  2: { exists h, [], b. rewrite app_nil_r. split_and!; try done; [lia|by left]. }
  destruct (readHeader_ok HeaderHash (hd_ParentHash h) b Hc) as (b1 & E & [[Hsc Hrc Hd] Hc1]). rewrite E.
  destruct (Hr h Hw) as [->|(p & Hp & Ep & Enum)]; [pose proof (un_genesis_number _ _ HU); lia|]. rewrite <- Ep, (proj1 Hp).
  assert (bc_db b1 = bc_db b) as Edb by apply Hsc.
  destruct (IH p number (chain ++ [p]) b1) as (h' & c & b' & E' & Hs' & Hw' & Hnum & Hcase); rewrite ?Edb in *; [done..|lia|].
  exists h', (p :: c), b'. rewrite E', <- app_assoc. split_and!; [done| |done|lia|].
  - destruct Hs' as [Hs' Hc']. split; [|done]. etrans; [|done]. by split.
  - right. split; [done|]. destruct Hcase as [[-> ->]|[_ (x & Hx & Hin & Hxp)]]; [exists h; split_and!; [done|by left|done]|].
    exists x. split_and!; [done| |done]. right. set_solver.
Qed.

Lemma walk_both_ok fuel : ∀ o n chain b,
  caches_ok HeaderHash b → rooted (bc_db b) → (∀ h, weighed (bc_db b) h → 0 ≤ hd_Number h) →
  weighed (bc_db b) o → weighed (bc_db b) n → hd_Number o = hd_Number n → hd_Number o < Z.of_nat fuel →
  ∃ c b', walk_both HeaderHash fuel o n chain b = Ret (chain ++ c, b') ∧ silent HeaderHash b b' ∧
    (c = [] → hd_Hash o = hd_Hash n).
Proof.
  induction fuel as [|fuel IH]; intros o n chain b Hc Hr Hn Ho Hw Hnum Hf.
  { pose proof (Hn o Ho). lia. }
  cbn [walk_both]. destruct (Z.eqb_spec (hd_Hash o) (hd_Hash n)) as [Eq|Hne]; cbn [negb].
  { exists [], b. rewrite app_nil_r. by split_and!. }
  destruct (readHeader_ok HeaderHash (hd_ParentHash o) b Hc) as (b1 & E1 & Hs1). rewrite E1. pose proof Hs1 as [[Hsc _ _] Hc1].
  assert (bc_db b1 = bc_db b) as Edb by apply Hsc.
  destruct (readHeader_ok HeaderHash (hd_ParentHash n) b1 Hc1) as (b2 & E2 & Hs2). pose proof Hs2 as [[Hsc2 _ _] Hc2].
  assert (bc_db b2 = bc_db b) as Edb2 by (by rewrite (sc_db _ _ Hsc2)).
  pose proof (un_genesis_number _ _ HU) as Hg0.
  destruct (Hr o Ho) as [->|(p & Hp & Ep & Epn)].
  { destruct (Hr n Hw) as [->|(q & Hq & _ & Eqn)]; [done|]. pose proof (Hn q Hq). lia. }
  destruct (Hr n Hw) as [->|(q & Hq & Eq & Eqn)]; [pose proof (Hn p Hp); lia|].
  rewrite <- Ep, (proj1 Hp), E2, Edb, <- Eq, (proj1 Hq).
  destruct (IH p q (chain ++ [p]) b2) as (c & b' & E' & Hs' & _); rewrite ?Edb2; [done..|lia|lia|].
  exists (p :: c), b'. rewrite E', <- app_assoc. split_and!; [done| |done].
  destruct Hs1 as [Hn1 _], Hs2 as [Hn2 _], Hs' as [Hn' ?]. split; [|done]. by etrans; [|etrans].
Qed.

(** ** Reorganisation *)

(** Writes that touch neither headers nor difficulties. *)
Lemma caches_same b f :
  db_headers (f (bc_db b)) = db_headers (bc_db b) → db_difficulty (f (bc_db b)) = db_difficulty (bc_db b) →
  caches_ok HeaderHash b → caches_ok HeaderHash (on_db f b).
Proof. intros Eh Ed [H1' H2' H3']. split; cbn; rewrite ?Eh, ?Ed; done. Qed.

Lemma canonical_fold l : ∀ b, ∃ f,
  foldl (λ b h, on_db (WriteCanonicalHash (hd_Number h) (hd_Hash h)) b) b l = on_db f b ∧
  ∀ d, db_headers (f d) = db_headers d ∧ db_difficulty (f d) = db_difficulty d.
Proof.
  induction l as [|h l IH]; intros b; [exists id; split; [by destruct b|done]|].
  cbn [foldl]. destruct (IH (on_db (WriteCanonicalHash (hd_Number h) (hd_Hash h)) b)) as (f & -> & Hf).
  exists (λ d, f (WriteCanonicalHash (hd_Number h) (hd_Hash h) d)). split; [done|]. intros d.
  destruct (Hf (WriteCanonicalHash (hd_Number h) (hd_Hash h) d)) as [-> ->]. done.
Qed.

Lemma advanceHead_ok h pd b :
  caches_ok HeaderHash b → hd_ParentHash h ≠ ZeroHash → db_difficulty (bc_db b) !! hd_ParentHash h = Some pd →
  (∀ d, db_difficulty (bc_db b) !! hd_Hash h = Some d → d = pd + hd_Difficulty h) →
  ∃ b', advanceHead h b = (Ok (pd + hd_Difficulty h), b') ∧ caches_ok HeaderHash b' ∧
    chain_Header b' = Some h ∧ CurrentTD b' = Some (pd + hd_Difficulty h) ∧
    db_headHash (bc_db b') = Some (hd_Hash h) ∧ db_headNumber (bc_db b') = Some (hd_Number h) ∧
    db_canonical (bc_db b') !! hd_Number h = Some (hd_Hash h) ∧ db_headers (bc_db b') = db_headers (bc_db b) ∧
    db_difficulty (bc_db b') = <[hd_Hash h := pd + hd_Difficulty h]> (db_difficulty (bc_db b)).
Proof.
  intros Hc Hz Hpd Hsame. unfold advanceHead. rewrite (proj2 (Z.eqb_neq _ _)) by done. cbn [negb].
  set (b0 := on_db (WriteCanonicalHash _ _) _). assert (caches_ok HeaderHash b0) as Hc0 by (by repeat apply caches_same).
  destruct (readTotalDifficulty_ok HeaderHash (hd_ParentHash h) b0 Hc0) as (b1 & E & [[Hsc _ _] Hc1]). rewrite E.
  assert (bc_db b1 = bc_db b0) as Edb by apply Hsc. change (db_difficulty (bc_db b0)) with (db_difficulty (bc_db b)). rewrite Hpd.
  eexists. split; [done|]. split.
  { destruct Hc1 as [C1 C2 C3]. split; cbn; [done| |done]. eapply lru_all_mono; [|done]. intros k d Hk. cbn in Hk.
    destruct (decide (hd_Hash h = k)) as [<-|]; [|by rewrite lookup_insert_ne]. rewrite lookup_insert_eq. f_equal. symmetry. apply Hsame.
    by rewrite Edb in Hk. }
  cbn. rewrite Edb. cbn. split_and!; try done. by rewrite lookup_insert_eq.
Qed.

Lemma handleReorg_ok ev cur h pd b :
  caches_ok HeaderHash b → rooted (bc_db b) → (∀ x, weighed (bc_db b) x → 0 ≤ hd_Number x ∧ hd_ParentHash x ≠ hd_Hash cur) →
  weighed (bc_db b) cur → weighed (bc_db b) h → hd_Hash cur ≠ hd_Hash h → hd_ParentHash h ≠ ZeroHash →
  db_difficulty (bc_db b) !! hd_ParentHash h = Some pd → db_difficulty (bc_db b) !! hd_Hash h = Some (pd + hd_Difficulty h) →
  ∃ ev' b', handleReorg HeaderHash ev cur h b = Ret (Ok ev', b') ∧ caches_ok HeaderHash b' ∧
    chain_Header b' = Some h ∧ CurrentTD b' = Some (pd + hd_Difficulty h) ∧
    db_headHash (bc_db b') = Some (hd_Hash h) ∧ db_headNumber (bc_db b') = Some (hd_Number h) ∧
    db_canonical (bc_db b') !! hd_Number h = Some (hd_Hash h) ∧ db_headers (bc_db b') = db_headers (bc_db b) ∧
    db_difficulty (bc_db b') = <[hd_Hash h := pd + hd_Difficulty h]> (db_difficulty (bc_db b)).
Proof.
  intros Hc Hr Hall Hcur Hh Hne Hz Hpd Hhd. assert (∀ x, weighed (bc_db b) x → 0 ≤ hd_Number x) as Hn by (intros x Hx; by apply Hall).
  unfold handleReorg. set (fuel := S _). assert (Z.max (hd_Number cur) (hd_Number h) < Z.of_nat fuel) as Hfuel.
  { pose proof (Hn _ Hcur). unfold fuel. lia. }
  destruct (walk_down_ok fuel cur (hd_Number h) [] b) as (o & oc & b1 & E1 & [[Hsc1 _ _] Hc1] & Ho & Hon & Hcase1);
    [done..|by apply Hn|pose proof (Hn _ Hh); lia|]. rewrite E1. cbn [obind].
  assert (bc_db b1 = bc_db b) as Edb1 by apply Hsc1.
  destruct (walk_down_ok fuel h (hd_Number o) [] b1) as (n & nc & b2 & E2 & [[Hsc2 _ _] Hc2] & Hw & Hnn & Hcase2);
    rewrite ?Edb1 in *; [done..|by apply Hn|pose proof (Hn _ Ho); lia|]. rewrite E2. cbn [obind].
  assert (bc_db b2 = bc_db b) as Edb2 by (by rewrite (sc_db _ _ Hsc2)).
  destruct (walk_both_ok fuel o n oc b2) as (c & b3 & E3 & [[Hsc3 _ _] Hc3] & Hdone); rewrite ?Edb2; [done..|lia|lia|].
  cbn [app] in *. rewrite E3. cbn [obind].
  assert (bc_db b3 = bc_db b) as Edb3 by (by rewrite (sc_db _ _ Hsc3)).
  destruct (oc ++ c) as [|x xs] eqn:Eoc.
  { exfalso. apply app_nil in Eoc as [-> ->]. destruct Hcase1 as [[_ ->]|[? _]]; [|done].
    destruct Hcase2 as [[_ ->]|[_ (y & Hy & _ & Hyp)]]; [by apply Hne, Hdone|].
    destruct (Hall y Hy) as [_ Hp]. apply Hp. rewrite Hyp. symmetry. by apply Hdone. }
  destruct (canonical_fold nc (writeFork cur b3)) as (f & -> & Hf). destruct (Hf (bc_db (writeFork cur b3))) as [Fh Fd].
  assert (db_headers (bc_db (on_db f (writeFork cur b3))) = db_headers (bc_db b)) as Gh by (etrans; [apply Fh|]; cbn; by rewrite Edb3).
  assert (db_difficulty (bc_db (on_db f (writeFork cur b3))) = db_difficulty (bc_db b)) as Gd by (etrans; [apply Fd|]; cbn; by rewrite Edb3).
  destruct (advanceHead_ok h pd (on_db f (writeFork cur b3))) as (b4 & E4 & Hc4 & Hrest).
  - apply caches_same; [done..|]. by apply caches_same.
  - done.
  - by rewrite Gd.
  - rewrite Gd. congruence.
  - rewrite E4. eexists _, b4. split; [done|]. split; [done|]. by rewrite Gh, Gd in Hrest.
Qed.

(** ** Headers in any order *)

(** A header and its total difficulty go in. *)
Definition put (h : Header) (w : Z) (d : chain_db) : chain_db := WriteTotalDifficulty (hd_Hash h) w (WriteHeader h d).

Lemma weighed_put d h w x : weighed (put h w d) x → x = h ∨ weighed d x.
Proof.
  intros [Hx [w' Hd]]. cbn in *. destruct (decide (hd_Hash h = hd_Hash x)) as [E|Hne].
  - left. rewrite E, lookup_insert_eq in Hx. congruence.
  - right. rewrite lookup_insert_ne in Hx by done. rewrite lookup_insert_ne in Hd by done. by split; [|eexists].
Qed.

Lemma weights_put d h pw :
  weights_ok d → U h → db_difficulty d !! hd_ParentHash h = Some pw → weights_ok (put h (pw + hd_Difficulty h) d).
Proof. intros Hw Hh Ep. apply weights_difficulty; [by apply weights_header|done|apply lookup_insert_eq|done]. Qed.

Lemma caches_put b h pw :
  caches_ok HeaderHash b → weights_ok (bc_db b) → U h → db_difficulty (bc_db b) !! hd_ParentHash h = Some pw →
  caches_ok HeaderHash (on_db (put h (pw + hd_Difficulty h)) b).
Proof.
  intros [C1 C2 C3] Hw Hh Ep. split; cbn.
  - eapply lru_all_mono; [|done]. intros k x Hk. cbn in Hk. destruct (decide (hd_Hash h = k)) as [<-|]; [|by rewrite lookup_insert_ne].
    rewrite lookup_insert_eq. f_equal. destruct (wo_universe _ Hw _ _ Hk) as [HUx Ex]. by apply (un_inj _ _ HU).
  - eapply lru_all_mono; [|done]. intros k w Hk. cbn in Hk. destruct (decide (hd_Hash h = k)) as [<-|]; [|by rewrite lookup_insert_ne].
    rewrite lookup_insert_eq. f_equal. symmetry. by eapply weight_unique.
  - intros k x [[_ <-]|[_ Hk]]%lookup_insert_Some; [by apply (un_hashed _ _ HU)|by eapply C3].
Qed.

(** The header on top of the head becomes the head. *)
Lemma extend_inv b cur td h b1 :
  fork_inv b cur td → U h → hd_ParentHash h = hd_Hash cur → silent HeaderHash b b1 →
  fork_inv (setCurrentHeader h (td + hd_Difficulty h) (on_db (WriteCanonicalHeader h (td + hd_Difficulty h)) b1)) h (td + hd_Difficulty h).
Proof.
  intros Hf Hh Hp [[Hsc _ _] Hc]. assert (bc_db b1 = bc_db b) as Edb by apply Hsc. pose proof (fi_weights _ _ _ Hf) as Hw.
  destruct (fi_stored _ _ _ Hf) as [Ec Etd]. pose proof (un_difficulty _ _ HU h Hh) as Hd.
  assert (db_difficulty (bc_db b) !! hd_ParentHash h = Some td) as Ep by (by rewrite Hp).
  pose proof (weights_put _ _ _ Hw Hh Ep) as Hw'.
  split; cbn; rewrite ?Edb; try done; rewrite ?lookup_insert_eq; try done.
  - intros k w [[<- <-]|[_ E]]%lookup_insert_Some; [done|]. pose proof (fi_heaviest _ _ _ Hf _ _ E). lia.
  - destruct Hw'. by split.
  - intros x Hx Ex. apply (weighed_put (bc_db b) h (td + hd_Difficulty h) x) in Hx as [->|Hx]; [by apply (not_own_parent h)|].
    destruct Hx as [Hx1 [w Hx2]]. destruct (wo_universe _ Hw _ _ Hx1) as [HUx _].
    destruct (wo_weight _ Hw _ _ Hx2) as (x' & Hx' & Hcase). assert (x' = x) as -> by congruence.
    destruct Hcase as [[-> _]|(pw & Epw & _)]; [by rewrite (un_genesis_parent _ _ HU) in Ex; apply (un_nonzero _ _ HU h Hh)|].
    rewrite Ex in Epw. apply (fi_leaf _ _ _ Hf h); [|done]. split; [|by eexists].
    destruct (wo_weight _ Hw _ _ Epw) as (h' & Hh' & _). destruct (wo_universe _ Hw _ _ Hh') as [HUh' Eh'].
    by rewrite (un_inj _ _ HU h h' Hh HUh' (eq_sym Eh')) at 2.
  - destruct (caches_put b1 h td) as [C1 C2 C3]; [done|by rewrite Edb|done|by rewrite Edb|]. by split.
Qed.

(** A header whose parent has no total difficulty is stored and refused. *)
Lemma header_inv b cur td h :
  fork_inv b cur td → U h → fork_inv (on_db (WriteHeader h) b) cur td.
Proof.
  intros Hf Hh. pose proof (fi_weights _ _ _ Hf) as Hw. destruct (fi_stored _ _ _ Hf) as [Ec Etd].
  assert (∀ k x, db_headers (bc_db b) !! k = Some x → <[hd_Hash h := h]> (db_headers (bc_db b)) !! k = Some x) as Hmono.
  { intros k x Hk. destruct (decide (hd_Hash h = k)) as [<-|]; [|by rewrite lookup_insert_ne]. rewrite lookup_insert_eq. f_equal.
    destruct (wo_universe _ Hw _ _ Hk) as [HUx Ex]. by apply (un_inj _ _ HU). }
  destruct Hf as [F1 F2 F3 F4 F5 _ F7 _ F9 [C1 C2 C3]]. split; try done.
  - split; [by apply Hmono|done].
  - by apply weights_header.
  - intros x [Hx [w Hd]]. apply F9. split; [|by eexists]. cbn in Hx, Hd. destruct (wo_weight _ Hw _ _ Hd) as (x' & Hx' & _).
    rewrite (Hmono _ _ Hx') in Hx. congruence.
  - split; cbn; [|done|].
    + eapply lru_all_mono; [|done]. intros k x Hk. by apply Hmono.
    + intros k x [[_ <-]|[_ Hk]]%lookup_insert_Some; [by apply (un_hashed _ _ HU)|by eapply C3].
Qed.

Lemma silent_inv b b' cur td : fork_inv b cur td → silent HeaderHash b b' → fork_inv b' cur td.
Proof.
  intros [] [[[Edb ? Eh Et ? ? ?] _ _] Hc]. split; unfold chain_Header, CurrentTD in *; rewrite ?Edb, ?Eh, ?Et; done.
Qed.

(** The database after a header off the head, with its difficulty. *)
Record forked (b : Blockchain) (h : Header) (pw : Z) (b' : Blockchain) : Prop := {
  fk_headers : db_headers (bc_db b') = <[hd_Hash h := h]> (db_headers (bc_db b));
  fk_difficulty : db_difficulty (bc_db b') = <[hd_Hash h := pw + hd_Difficulty h]> (db_difficulty (bc_db b));
  fk_caches : caches_ok HeaderHash b';
}.

Lemma forked_weights b h pw b' : weights_ok (bc_db b) → U h → db_difficulty (bc_db b) !! hd_ParentHash h = Some pw →
  forked b h pw b' → weights_ok (bc_db b').
Proof. intros Hw Hh Ep [Eh Ed _]. destruct (weights_put _ _ _ Hw Hh Ep). by split; rewrite ?Ed, ?Eh. Qed.

Lemma forked_weighed b h pw b' x : forked b h pw b' → weighed (bc_db b') x → x = h ∨ weighed (bc_db b) x.
Proof.
  intros [Eh Ed _] [Hx Hd]. rewrite Eh in Hx. rewrite Ed in Hd. by apply (weighed_put _ h (pw + hd_Difficulty h)).
Qed.

(** No child of the new head is weighed before it. *)
Lemma new_leaf b cur td h x :
  fork_inv b cur td → U h → db_difficulty (bc_db b) !! hd_Hash h = None → weighed (bc_db b) x → hd_ParentHash x ≠ hd_Hash h.
Proof.
  intros Hf Hh Hn [Hx1 [w Hx2]] Ex. pose proof (fi_weights _ _ _ Hf) as Hw. destruct (wo_weight _ Hw _ _ Hx2) as (x' & Hx' & Hcase).
  assert (x' = x) as -> by congruence. destruct Hcase as [[-> _]|(pw & Epw & _)]; [|congruence].
  rewrite (un_genesis_parent _ _ HU) in Ex. by apply (un_nonzero _ _ HU h Hh).
Qed.

(** What was there stays there. *)
Lemma forked_mono b h pw b' k x w : weights_ok (bc_db b) → U h → db_difficulty (bc_db b) !! hd_ParentHash h = Some pw → forked b h pw b' →
  (db_headers (bc_db b) !! k = Some x → db_headers (bc_db b') !! k = Some x) ∧
  (db_difficulty (bc_db b) !! k = Some w → db_difficulty (bc_db b') !! k = Some w).
Proof.
  intros Hw Hh Ep [Eh Ed _]. rewrite Eh, Ed. destruct (decide (hd_Hash h = k)) as [<-|]; [|by rewrite !lookup_insert_ne].
  rewrite !lookup_insert_eq. split; intros Hk; f_equal.
  - destruct (wo_universe _ Hw _ _ Hk) as [HUx Ex]. by apply (un_inj _ _ HU).
  - symmetry. by eapply weight_unique.
Qed.

Lemma reorg_inv source b cur td h pw b1 :
  fork_inv b cur td → U h → hd_ParentHash h ≠ hd_Hash cur → db_difficulty (bc_db b) !! hd_ParentHash h = Some pw →
  forked b h pw b1 → chain_Header b1 = chain_Header b → td < pw + hd_Difficulty h →
  ∃ ev' b', handleReorg HeaderHash (new_event source) cur h b1 = Ret (Ok ev', b') ∧ fork_inv b' h (pw + hd_Difficulty h) ∧ forked b h pw b'.
Proof.
  intros Hf Hh Hp Ep Hfk Ecur Hlt. pose proof (fi_weights _ _ _ Hf) as Hw. pose proof (forked_weights _ _ _ _ Hw Hh Ep Hfk) as Hw1.
  destruct (fi_stored _ _ _ Hf) as [Ec Etd]. pose proof (not_own_parent h Hh) as Hnp.
  assert (db_difficulty (bc_db b) !! hd_Hash h = None) as Hnew.
  { destruct (db_difficulty (bc_db b) !! hd_Hash h) as [w|] eqn:E; [|done]. pose proof (fi_heaviest _ _ _ Hf _ _ E).
    rewrite (weight_unique _ _ _ _ Hw Hh E Ep) in *. lia. }
  pose proof Hfk as [Eh Ed Hc1].
  destruct (handleReorg_ok (new_event source) cur h pw b1) as (ev' & b' & E & Hc' & R1 & R2 & R3 & R4 & R5 & R6 & R7); try done.
  - by apply weights_rooted.
  - intros x Hx. split; [by apply (weighed_number (bc_db b1))|]. apply (forked_weighed _ _ _ _ _ Hfk) in Hx as [->|Hx]; [done|by apply (fi_leaf _ _ _ Hf)].
  - destruct (forked_mono _ _ _ _ (hd_Hash cur) cur td Hw Hh Ep Hfk) as [M1 M2]. split; [by apply M1|]. exists td. by apply M2.
  - split; [by rewrite Eh, lookup_insert_eq|]. rewrite Ed, lookup_insert_eq. done.
  - intros E. rewrite E in Etd. congruence.
  - by apply (parent_nonzero (bc_db b) h pw).
  - rewrite Ed, lookup_insert_ne by done. done.
  - by rewrite Ed, lookup_insert_eq.
  - exists ev', b'. split; [done|]. rewrite Ed, insert_insert_eq in R7. rewrite Eh in R6.
    assert (forked b h pw b') as Hfk' by done. split; [|done]. split; try done.
    + rewrite R6, R7, !lookup_insert_eq. done.
    + intros k w. rewrite R7. intros [[_ <-]|[_ Hk]]%lookup_insert_Some; [done|]. pose proof (fi_heaviest _ _ _ Hf _ _ Hk). lia.
    + by apply (forked_weights b h pw).
    + intros x Hx. apply (forked_weighed _ _ _ _ _ Hfk') in Hx as [->|Hx]; [done|]. by eapply new_leaf.
Qed.

Lemma fork_stored b cur td h pw b1 :
  fork_inv b cur td → U h → hd_ParentHash h ≠ hd_Hash cur → db_difficulty (bc_db b) !! hd_ParentHash h = Some pw →
  forked b h pw b1 → same_chain (on_db (put h (pw + hd_Difficulty h)) b) b1 → pw + hd_Difficulty h ≤ td →
  fork_inv (writeFork h b1) cur td.
Proof.
  intros Hf Hh Hp Ep Hfk Hsc Hle. pose proof (fi_weights _ _ _ Hf) as Hw. pose proof (forked_weights _ _ _ _ Hw Hh Ep Hfk) as Hw1.
  destruct (fi_stored _ _ _ Hf) as [Ec Etd]. destruct (forked_mono _ _ _ _ (hd_Hash cur) cur td Hw Hh Ep Hfk) as [M1 M2].
  pose proof Hfk as [Eh Ed Hc1]. destruct Hsc as [Edb _ Ecur Etd1 _ _ _]. pose proof Hf as [F1 F2 F3 F4 F5 _ F7 _ F9 _].
  unfold chain_Header, CurrentTD in *. cbn in Edb, Ecur, Etd1. split; unfold chain_Header, CurrentTD; cbn.
  - by rewrite Ecur.
  - by rewrite Etd1.
  - by rewrite Edb.
  - by rewrite Edb.
  - by rewrite Edb.
  - split; [by apply M1|by apply M2].
  - intros k w. rewrite Ed. intros [[_ <-]|[_ Hk]]%lookup_insert_Some; [done|by eapply F7].
  - destruct Hw1. by split.
  - intros x Hx. apply (forked_weighed _ _ _ b1 x Hfk) in Hx as [->|Hx]; [done|by apply F9].
  - by apply caches_same.
Qed.

Lemma writeHeader_ok source h b cur td :
  fork_inv b cur td → U h → ∃ r b' cur' td', writeHeaderImpl HeaderHash (new_event source) h b = Ret (r, b') ∧
    fork_inv b' cur' td' ∧ td ≤ td' ∧
    (is_ok r = true ↔ is_Some (db_difficulty (bc_db b) !! hd_ParentHash h)) ∧
    (is_ok r = true → db_headers (bc_db b') !! hd_Hash h = Some h ∧
       db_difficulty (bc_db b') !! hd_Hash h = (λ pw, pw + hd_Difficulty h) <$> db_difficulty (bc_db b) !! hd_ParentHash h).
Proof.
  intros Hf Hh. destruct (fi_stored _ _ _ Hf) as [Ec Etd]. destruct (decide (hd_ParentHash h = hd_Hash cur)) as [Hp|Hp].
  { destruct (writeHeader_on_head HeaderHash b cur td source h) as (b1 & Hs & E); [apply Hf|apply Hf|done..|].
    pose proof (extend_inv _ _ _ _ _ Hf Hh Hp Hs) as Hf'. pose proof (un_difficulty _ _ HU h Hh).
    eexists _, _, h, _. split; [exact E|]. rewrite Hp, Etd. split_and!; [done|lia|by split|]. intros _. by destruct (fi_stored _ _ _ Hf'). }
  unfold writeHeaderImpl. rewrite (fi_cur _ _ _ Hf), (proj2 (Z.eqb_neq _ _)) by done.
  pose proof (header_inv _ _ _ h Hf Hh) as Hf0. set (b0 := on_db (WriteHeader h) b) in *.
  destruct (readTotalDifficulty_ok HeaderHash (hd_Hash cur) b0 (fi_caches _ _ _ Hf0)) as (b1 & E1 & Hs1). rewrite E1.
  change (db_difficulty (bc_db b0)) with (db_difficulty (bc_db b)). rewrite Etd.
  destruct (readTotalDifficulty_ok HeaderHash (hd_ParentHash h) b1 (proj2 Hs1)) as (b2 & E2 & Hs2). rewrite E2.
  assert (same_chain b0 b2) as Hsc by (etrans; [apply Hs1|apply Hs2]). assert (bc_db b2 = bc_db b0) as Edb by apply Hsc.
  rewrite (sc_db _ _ (sn_chain _ _ (proj1 Hs1))). change (db_difficulty (bc_db b0)) with (db_difficulty (bc_db b)).
  destruct (db_difficulty (bc_db b) !! hd_ParentHash h) as [pw|] eqn:Ep.
  2: { eexists _, _, cur, td. split; [done|]. split_and!; [|lia|by split|done]. eapply silent_inv; [by eapply silent_inv|done]. }
  set (b3 := set_headersCache _ _). assert (forked b h pw b3) as Hfk.
  { destruct Hs2 as [_ [C1 C2 C3]]. split; cbn; rewrite ?Edb; [done..|]. split; cbn.
    - apply lru_all_Add; [done|]. rewrite Edb. apply lookup_insert_eq.
    - eapply lru_all_mono; [|done]. intros k w Hk. cbn in Hk. rewrite Edb in Hk. cbn in Hk. rewrite Edb.
      destruct (decide (hd_Hash h = k)) as [<-|]; [|by rewrite lookup_insert_ne]. rewrite lookup_insert_eq. f_equal. symmetry.
      eapply weight_unique; [apply Hf|done..].
    - done. }
  destruct (Z.gtb_spec (pw + hd_Difficulty h) td) as [Hgt|Hle].
  - destruct (reorg_inv source b cur td h pw b3 Hf Hh Hp Ep Hfk) as (ev' & b' & E & Hf' & Hfk'); [by etrans; [apply Hsc|]|lia|].
    eexists _, _, h, _. split; [exact E|]. split_and!; [done|lia|by split|]. intros _. rewrite (fk_headers _ _ _ _ Hfk'), (fk_difficulty _ _ _ _ Hfk').
    by rewrite !lookup_insert_eq.
  - eexists _, _, cur, td. split; [done|]. split_and!; [|lia|by split|].
    + apply (fork_stored b cur td h pw b3); [done..| |lia]. destruct Hsc as [S1 S2 S3 S4 S5 S6 S7]. split; cbn; try done. by rewrite S1.
    + intros _. cbn. rewrite Edb. cbn. by rewrite !lookup_insert_eq.
Qed.

Lemma dispatch_inv b cur td ev : fork_inv b cur td → fork_inv (dispatchEvent ev b) cur td.
Proof. intros [? ? ? ? ? ? ? ? ? []]. split; [done..|by split]. Qed.

Lemma write_headers_ok hs : ∀ b cur td, fork_inv b cur td → Forall U hs →
  ∃ r b' cur' td', write_headers HeaderHash hs b = Ret (r, b') ∧ fork_inv b' cur' td' ∧ td ≤ td'.
Proof.
  induction hs as [|h hs IH]; intros b cur td Hf Hhs; cbn [write_headers]; [by eexists _, _, cur, td|]. inv Hhs.
  destruct (writeHeader_ok [] h b cur td) as (r & b1 & cur1 & td1 & E & Hf1 & Hle1 & _); [done..|]. rewrite E. cbn [obind].
  destruct r as [ev|e]; [|by eexists _, _, cur1, td1].
  destruct (IH (dispatchEvent ev b1) cur1 td1) as (r & b2 & cur2 & td2 & E2 & Hf2 & Hle2); [by apply dispatch_inv|done|].
  eexists _, _, cur2, td2. split; [done|]. split; [done|lia].
Qed.

Lemma WriteHeaders_ok hs b cur td : fork_inv b cur td → Forall U hs →
  ∃ r b' cur' td', WriteHeadersWithBodies HeaderHash hs b = Ret (r, b') ∧ fork_inv b' cur' td' ∧ td ≤ td'.
Proof.
  intros Hf Hhs. unfold WriteHeadersWithBodies. destruct hs as [|h hs]; [by eexists _, _, cur, td|].
  destruct (check_headers h hs); [by apply (write_headers_ok (h :: hs) b cur td)|by eexists _, _, cur, td].
Qed.
End fork.

(** Batches of headers, one [WriteHeaders] after the other. *)
Fixpoint write_batches `{External} `{RlpReader} `{LRU} `{ChainDeps} (HeaderHash : Header → Hash) (batches : list (list Header))
    (b : Blockchain) : outcome Blockchain :=
  match batches with
  | [] => Ret b
  | hs :: rest => let~ (_, b) := WriteHeadersWithBodies HeaderHash hs b in write_batches HeaderHash rest b
  end.

Section choice.
Context `{External} `{RlpReader} `{LRULaws} `{ChainDeps}.
Variables (HeaderHash : Header → Hash) (genesis_config : Genesis) (U : Header → Prop).
Hypothesis HU : universe HeaderHash U (genesis_header HeaderHash genesis_config).

Lemma start_inv b : implements HeaderHash genesis_config b [genesis_entry HeaderHash genesis_config] →
  fork_inv HeaderHash U (genesis_header HeaderHash genesis_config) b (genesis_header HeaderHash genesis_config)
    (hd_Difficulty (genesis_header HeaderHash genesis_config)).
Proof.
  intros Hi. set (g := genesis_header HeaderHash genesis_config) in *. pose proof (im_db _ _ _ _ Hi) as Hdb.
  assert (∀ k, by_hash k [genesis_entry HeaderHash genesis_config] =
    if decide (hd_Hash g = k) then Some (0%nat, genesis_entry HeaderHash genesis_config) else None) as Eb.
  { intros k. unfold by_hash. cbn. by case_decide. }
  assert (total [genesis_entry HeaderHash genesis_config] = hd_Difficulty g) as Et by (unfold total; cbn; unfold g; lia).
  assert (∀ k, db_headers (bc_db b) !! k = if decide (hd_Hash g = k) then Some g else None) as Eh.
  { intros k. rewrite (da_headers _ _ Hdb), Eb. by case_decide. }
  assert (∀ k, db_difficulty (bc_db b) !! k = if decide (hd_Hash g = k) then Some (hd_Difficulty g) else None) as Ed.
  { intros k. rewrite (da_difficulty _ _ Hdb), Eb. case_decide; [|done]. by rewrite <- Et. }
  split.
  - apply Hi.
  - rewrite <- Et. apply Hi.
  - apply Hdb.
  - apply Hdb.
  - rewrite (da_canonical _ _ Hdb), (un_genesis_number _ _ _ HU). done.
  - rewrite Eh, Ed. by rewrite !decide_True.
  - intros k w. rewrite Ed. case_decide; [|done]. by intros [= <-].
  - split; intros k x.
    + rewrite Ed, Eh. case_decide as Hk; [|done]. intros [= <-]. exists g. split; [done|by left].
    + rewrite Eh. case_decide as Hk; [|done]. intros [= <-]. split; [apply HU|done].
  - intros x [Hx _] E. rewrite Eh in Hx. case_decide; [|done]. injection Hx as <-.
    rewrite (un_genesis_parent _ _ _ HU) in E. by apply (un_nonzero _ _ _ HU g (un_genesis _ _ _ HU)).
  - apply Hi.
Qed.

End choice.
