(* ===== verification/TrieExample.v ===== *)
(** Concrete writers and readers of RLP, and the theorems on tries, commits and
    roots at work. *)
From S2P Require Import Prelude Types Runtime Crypto StateTxn StateTxnSpec Bloom Rlp RlpTypes ChainStorage Trie TrieSpec TrieHash TrieMap TrieState TrieStateSpec StateCommit BuildRoot BuildRootSpec.

(** ** A prefix code *)

Module PrefixCode.
(** A tag, a length, and the contents. *)
Fixpoint write (v : item) : bytes :=
  match v with
  | IBytes b => 0 :: Z.of_nat (length b) :: b
  | IArray l => 1 :: Z.of_nat (length l) :: concat (map write l)
  end.

Fixpoint read_list (read : bytes → option (item * bytes)) (n : nat) (s : bytes) : option (list item * bytes) :=
  match n with
  | O => Some ([], s)
  | S n =>
      p ← read s;
      q ← read_list read n p.2;
      Some (p.1 :: q.1, q.2)
  end.

Fixpoint read (fuel : nat) (s : bytes) : option (item * bytes) :=
  match fuel, s with
  | S fuel, tag :: n :: s =>
      if tag =? 0 then Some (IBytes (take (Z.to_nat n) s), drop (Z.to_nat n) s)
      else p ← read_list (read fuel) (Z.to_nat n) s; Some (IArray p.1, p.2)
  | _, _ => None
  end.

Fixpoint depth (v : item) : nat :=
  match v with IBytes _ => 1 | IArray l => S (foldr max 0 (map depth l))%nat end.

Lemma depth_write v : (depth v ≤ length (write v))%nat.
Proof.
  induction v as [b|l IH] using item_nested_ind; cbn; [lia|]. apply le_n_S. induction IH as [|v l Hv _ IHl]; cbn in *; [lia|].
  rewrite length_app. lia.
Qed.

Lemma read_write fuel : ∀ v s, (depth v ≤ fuel)%nat → read fuel (write v ++ s) = Some (v, s).
Proof.
  induction fuel as [|fuel IH]; intros [b|l] s Hd; cbn in Hd; try lia; cbn -[Z.of_nat].
  - by rewrite Nat2Z.id, take_app_length, drop_app_length.
  - rewrite Nat2Z.id. assert (∀ s, read_list (read fuel) (length l) (concat (map write l) ++ s) = Some (l, s)) as ->; [|done].
    apply le_S_n in Hd. clear s. induction l as [|v l IHl]; intros s; [done|]. cbn in *. rewrite <- app_assoc, IH by lia.
    cbn. by rewrite IHl by lia.
Qed.

Definition parse (s : bytes) : option item :=
  match read (length s) s with Some (v, []) => Some v | _ => None end.

Lemma parse_write v : parse (write v) = Some v.
Proof. unfold parse. rewrite <- (app_nil_r (write v)) at 2. by rewrite read_write by apply depth_write. Qed.

(** A digest that tells the strings used here apart. *)
Definition digest (b : bytes) : Hash := foldl (λ a x, (a * 257 + x + 1) mod 2 ^ 61) 7 b.

Definition ext : External := {| MarshalTo v := write (item_of v); Keccak256 := digest |}.
Definition string_of (v : item) : option bytes := match v with IBytes b => Some b | IArray _ => None end.
Definition reader : RlpReader := {|
  Parse := parse;
  rlp_Len v := match item_of v with IBytes b => Z.of_nat (length b) | IArray l => Z.of_nat (length (concat (map write l))) end;
  GetUint64 v := b ← string_of v; if (length b <=? 8)%nat then Some (SetBytes b) else None;
  GetBigInt v := SetBytes <$> string_of v;
  GetBytes := string_of;
  Raw _ := write;
  GetBytesN n v := b ← string_of v; if (length b =? n)%nat then Some b else None;
|}.
#[export] Existing Instances ext reader.

#[export] Instance laws : RlpLaws.
Proof.
  split; cbn -[Bytes SetBytes].
  - by split.
  - intros v. apply parse_write.
  - intros v. by destruct (item_of v).
  - intros b _ Hl. by rewrite (proj2 (Nat.leb_le _ _)).
  - intros z Hz. by rewrite Bytes_value.
  - done.
  - done.
  - intros b. by rewrite Nat.eqb_refl.
Qed.

(** A cache that forgets nothing. *)
Definition lru : LRU := {|
  cache := gmap Z;
  lru_New _ := ∅;
  lru_Get _ a c := (c !! a, c);
  lru_Add _ a v c := <[a := v]> c;
|}.
#[export] Existing Instance lru.
#[export] Instance lru_laws : LRULaws.
Proof.
  split; cbn.
  - intros A P a v. cbn. by rewrite lookup_empty.
  - done.
  - intros A P a v c Hc Hp a' v'. cbn. rewrite lookup_insert_Some. intros [[<- <-]|[_ ?]]; [done|by apply Hc].
Qed.

(** ** Tries *)

Definition k1 : bytes := [18; 52].
Definition k2 : bytes := [18; 86].
Definition ops : list trie_op := [OpInsert k1 [7]; OpInsert k2 [8]; OpLookup k1; OpDelete k1; OpLookup k1; OpLookup k2].

Lemma ops_ok : Forall (op_ok 2) ops.
Proof. repeat constructor; unfold byte_range; try lia; done. Qed.

Lemma trie_refines_map_witness :
  ∃ t, run_ops ops (trie_Txn ∅ NewTrie) = Ret ([Some [7]; None; Some [8]], t) ∧ ∃ t', txn_Lookup t k2 = Ret (Some [8], t').
Proof.
  destruct (trie_refines_map 2 ops ∅ ops_ok) as (t & E & Hl). exists t. split; [exact E|].
  apply (Hl k2). repeat constructor; unfold byte_range; lia.
Defined.

Lemma trie_root_of_map_witness :
  ∃ t1 t2 root t1' t2' batch1 batch2,
    run_ops [OpInsert k1 [7]; OpInsert k2 [8]] (trie_Txn ∅ NewTrie) = Ret ([], t1) ∧
    run_ops [OpInsert k2 [8]; OpInsert k1 [9]; OpInsert k1 [7]] (trie_Txn ∅ NewTrie) = Ret ([], t2) ∧
    txn_Hash t1 = Ret (root, t1', batch1) ∧ txn_Hash t2 = Ret (root, t2', batch2).
Proof.
  assert (∀ l, l = [OpInsert k1 [7]; OpInsert k2 [8]] ∨ l = [OpInsert k2 [8]; OpInsert k1 [9]; OpInsert k1 [7]] → Forall (op_ok 2) l) as Hok.
  { intros l [-> | ->]; repeat constructor; unfold byte_range; try lia; done. }
  eexists _, _. destruct (trie_root_of_map 2 [OpInsert k1 [7]; OpInsert k2 [8]] [OpInsert k2 [8]; OpInsert k1 [9]; OpInsert k1 [7]] ∅ ∅ _ _ [] []
    (Hok _ (or_introl eq_refl)) (Hok _ (or_intror eq_refl)) eq_refl eq_refl) as (r1 & r2 & t1' & t2' & b1 & b2 & E1 & E2 & Heq & _).
  exists r1, t1', t2', b1, b2. split; [reflexivity|]. split; [reflexivity|]. split; [exact E1|]. rewrite Heq by reflexivity. exact E2.
Defined.

(** With keys of different lengths [Delete] can take the wrong one: in a
    trie with the keys 123456 and 123478, deleting 1256, which is not there,
    deletes 123456.  The state's keys are all hashes of 32 bytes. *)
Theorem delete_takes_another_key :
  ∃ t, run_ops [OpInsert [18; 52; 86] [1]; OpInsert [18; 52; 120] [2]; OpLookup [18; 52; 86]; OpDelete [18; 86]; OpLookup [18; 52; 86]]
    (trie_Txn ∅ NewTrie) = Ret ([Some [1]; None], t).
Proof. eexists. vm_compute. reflexivity. Qed.

(** ** Blocks *)

Definition tx1 : Transaction := ComputeHash (mkTransaction 0 5 21000 (Some 77) 3 [1; 2] (Some 27) (Some 11) (Some 12) 0 99).
Definition header1 : Header :=
  hd_ComputeHash defHeaderHash (mkHeader 5 EmptyUncleHash [] 6 7 EmptyRootHash (replicate 256 0) 1 1 5000 0 10 [] 0 (replicate 8 0) ZeroHash).
Definition block1 : Block := mkBlock header1 [tx1] [].

Ltac small := vm_compute; split; [discriminate|reflexivity].

Lemma header1_wf : header_wf defHeaderHash header1.
Proof.
  split; [small..| | | |].
  - split; [reflexivity|]. apply Forall_replicate. unfold byte_range. lia.
  - split; [reflexivity|]. apply Forall_replicate. unfold byte_range. lia.
  - repeat constructor; vm_compute; discriminate || reflexivity.
  - vm_compute. reflexivity.
Qed.

Lemma tx1_wf : tx_wf tx1.
Proof.
  split; [small|small|vm_compute; discriminate|vm_compute; discriminate| |].
  - intros a [= <-]. small.
  - exists 27, 11, 12. split_and!; reflexivity || lia.
Qed.

Lemma block_roundtrip_witness :
  bk_UnmarshalRLP defHeaderHash (bk_MarshalRLP block1) = Some (mkBlock header1 [set_From ZeroAddress tx1] []).
Proof.
  refine (eq_trans (block_roundtrip defHeaderHash block1 _) _).
  - split; [exact header1_wf|exact (proj2 (Forall_singleton _ _) tx1_wf)|constructor].
  - vm_compute. reflexivity.
Defined.

(** ** The chain's database *)

Definition h1 : Hash := hd_Hash header1.
Definition receipt1 : Receipt := mkReceipt ZeroHash 21000 (replicate 256 0) [] (Some ReceiptSuccess) 21000 None (tx_Hash tx1).
Definition db_ops : list db_op :=
  [OpBody h1 (bk_Body block1); OpTxLookup (tx_Hash tx1) h1; OpHeader header1; OpHeadHash h1; OpHeadNumber 1; OpCanonicalHash 1 h1;
   OpTotalDifficulty h1 132; OpReceipts h1 [receipt1]; OpForks [h1]].

Lemma h1_ok : hash_ok h1.
Proof. small. Qed.
Lemma header1_hash_ok : hash_ok (hd_Hash header1).
Proof. small. Qed.
Lemma tx1_hash_ok : hash_ok (tx_Hash tx1).
Proof. small. Qed.

Lemma receipt1_wf : receipt_wf receipt1.
Proof.
  split.
  - split; [vm_compute; split; [discriminate|reflexivity]|reflexivity].
  - split; [reflexivity|]. apply Forall_replicate. unfold byte_range. lia.
  - constructor.
  - split; small.
  - discriminate.
  - exact tx1_hash_ok.
Qed.

Lemma body1_wf : body_wf defHeaderHash (bk_Body block1).
Proof.
  split; [exact (proj2 (Forall_singleton _ _) tx1_wf)|]. split; [apply Forall_singleton; small|]. split; [|constructor].
  apply Forall_singleton. vm_compute. reflexivity.
Qed.

Lemma db_ops_ok : Forall (db_op_ok defHeaderHash) db_ops.
Proof.
  assert (is_u64 1) as H1 by small. assert (0 ≤ 132) as H2 by lia. unfold db_ops.
  repeat (apply Forall_cons; split).
  - exact (conj h1_ok body1_wf).
  - exact (conj tx1_hash_ok h1_ok).
  - exact (conj header1_wf header1_hash_ok).
  - exact h1_ok.
  - exact H1.
  - exact (conj H1 h1_ok).
  - exact (conj h1_ok H2).
  - exact (conj h1_ok (proj2 (Forall_singleton _ _) receipt1_wf)).
  - exact h1_ok.
  - constructor.
  - constructor.
Qed.

Lemma kv_implements_storage_witness :
  let kv := kv_writes db_ops ∅ in
  kv_ReadHeader defHeaderHash h1 kv = Some header1 ∧ kv_ReadBody defHeaderHash h1 kv = Some (bk_Body block1) ∧
  kv_ReadReceipts h1 kv = Some [receipt1] ∧ kv_ReadTxLookup (tx_Hash tx1) kv = Ret (Some h1) ∧ kv_ReadCanonicalHash 2 kv = None.
Proof.
  cbv zeta. destruct (kv_implements_storage defHeaderHash db_ops db_ops_ok) as [Hc _ _ _ _ Hh Hb Hr Hl]. split_and!.
  - rewrite (Hh h1 h1_ok). vm_compute. reflexivity.
  - rewrite (Hb h1 h1_ok). vm_compute. reflexivity.
  - rewrite (Hr h1 h1_ok). vm_compute. reflexivity.
  - rewrite (Hl _ tx1_hash_ok). vm_compute. reflexivity.
  - rewrite (Hc 2) by small. vm_compute. reflexivity.
Defined.

(** ** A block's state *)

Definition state0 : State := NewState NewMemoryStorage.
Definition D : list Address := [77].
Definition K : list Hash := [1].
Definition block_txn : Txn (RT:=gmap Z) := SetState 77 1 5 (SetBalance 77 10 (newTxn (to_snapshot D state0 NewTrie))).
Definition objects : list (Address * Object) := map_to_list (Commit false block_txn).1.

Lemma distinct_free Q : NoDup (fst <$> Q) → emptyRoot ∉ fst <$> Q → collision_free Q ∅.
Proof.
  intros Hnd He. split.
  - intros h d d' Hd [Hd'|Hd']; [|by rewrite lookup_empty in Hd'].
    apply list_elem_of_lookup_1 in Hd as [i Hi], Hd' as [j Hj]. assert (i = j) as ->; [|congruence].
    eapply NoDup_lookup; [done|by rewrite list_lookup_fmap, Hi|by rewrite list_lookup_fmap, Hj].
  - intros d Hd. apply He. apply list_elem_of_fmap. by exists (emptyRoot, d).
Qed.

Definition batch_free : bool :=
  match commit_batch NewTrie objects state0 with
  | Ret (_, _, _, batch) => bool_decide (NoDup (fst <$> batch)) && bool_decide (emptyRoot ∉ fst <$> batch)
  | _ => false
  end.

Lemma state0_ok : state_ok 0 state0.
Proof. split; [apply lru_all_New|reflexivity|lia]. Qed.

Lemma block_txn_run : rtc txn_step (newTxn (to_snapshot D state0 NewTrie)) block_txn.
Proof. eapply rtc_l; [apply (step_SetBalance 77 10)|]. apply rtc_once, (step_SetState 77 1 5). Qed.

Definition object77 : StateObject (RT:=gmap Z) :=
  mkObj (mkAcc 0 10 emptyStateHash emptyCodeHash) [] false false false (Some {[1 := Some 5]}).

Lemma block_txn_objs : objs (txn block_txn) = {[77 := object77]}.
Proof. vm_compute. reflexivity. Qed.

Lemma block_txn_range : in_range D K block_txn.
Proof.
  split; rewrite block_txn_objs.
  - intros a o [<- _]%lookup_singleton_Some. by left.
  - intros a o [_ <-]%lookup_singleton_Some. split; [small|]. split; [vm_compute; discriminate|small].
  - intros a o m k v [_ <-]%lookup_singleton_Some [= <-] [<- <-]%lookup_singleton_Some. split; [by left|]. intros x [= <-]. small.
Qed.

Lemma commit_reload_witness : ∃ root s' t' c,
  (∃ nTrie, trie_Commit NewTrie objects state0 = Ret (nTrie, HashBytes root, s')) ∧
  NewSnapshotAt root s' = Ret (Ok t', mkState (st_storage s') c) ∧
  let tx := newTxn (RT:=gmap Z) (to_snapshot D s' t') in
  GetBalance 77 tx = 10 ∧ GetState 77 1 tx = 5.
Proof.
  assert (batch_free = true) as Hfree by (vm_compute; reflexivity).
  destruct (commit_reload (RT:=gmap Z) 0 D K state0 NewTrie block_txn false objects) as (nTrie & root & s1 & batch & E & Hpost).
  - exact state0_ok.
  - exists ∅. split; [apply NewTrie_rep|]. split; [|reflexivity]. intros k v Hk. discriminate Hk.
  - intros a ->%list_elem_of_singleton. exists None. split; [|discriminate]. eexists. vm_compute. reflexivity.
  - vm_compute. reflexivity.
  - exact block_txn_run.
  - exact block_txn_range.
  - split; intros a b ->%list_elem_of_singleton ->%list_elem_of_singleton _; reflexivity.
  - reflexivity.
  - unfold batch_free in Hfree. rewrite E in Hfree. apply andb_true_iff in Hfree as [H1%bool_decide_eq_true H2%bool_decide_eq_true].
    destruct (Hpost (distinct_free _ H1 H2)) as (s' & Ec & _ & t' & c & En & _ & _ & Hsame).
    exists root, s', t', c. split; [by exists nTrie|]. split; [exact En|].
    destruct (Hsame 77 ltac:(by left)) as (_ & Hb & _ & _ & Hk). split.
    + rewrite Hb. vm_compute. reflexivity.
    + rewrite (Hk 1) by (by left). vm_compute. reflexivity.
Defined.
End PrefixCode.

(** ** The format itself *)

Module RlpFormatExample.
Definition ext : External := {| MarshalTo v := rlp_encode (item_of v); Keccak256 := PrefixCode.digest |}.
Definition reader : RlpReader := {|
  Parse _ := None;
  rlp_Len v :=
    match item_of v with
    | IBytes b => Z.of_nat (length b)
    | IArray l => Z.of_nat (length (concat (map rlp_encode l)))
    end;
  GetUint64 _ := None;
  GetBigInt _ := None;
  GetBytes _ := None;
  Raw _ _ := [];
  GetBytesN _ _ := None;
|}.
#[local] Existing Instances ext reader.

#[local] Instance format : RlpFormat.
Proof.
  split; [by split|done|]. intros l. cbn. unfold rlp_payload. apply Z.eq_le_incl. do 3 f_equal.
  induction l as [|v l IH]; [done|]. cbn. by f_equal.
Qed.

Definition values (i : nat) : bytes := replicate 40 (Z.of_nat i mod 256).

Lemma CalculateRoot_is_trie_root_witness :
  ∃ root, deriveSlow 3 values = Ret root ∧ CalculateRoot 3 values = Ret (BytesToHash root) ∧ fast_Hash 3 values = Some root.
Proof.
  destruct (CalculateRoot_is_trie_root 3 values) as (root & Es & Ec & Ef).
  { intros i. split; [discriminate|]. unfold values. rewrite length_replicate. reflexivity. }
  exists root. split; [exact Es|]. split; [exact Ec|]. destruct (fast_Hash 3 values) as [dst|] eqn:E.
  - f_equal. apply (Ef dst); [lia|reflexivity].
  - exfalso. vm_compute in E. discriminate E.
Defined.
End RlpFormatExample.

(** ** The encoding that Ethereum documents: the laws of [RlpLaws] and [RlpFormat]
    hold together. *)

Module RealRlp.
Import PrefixCode.

(** ** The reader *)

(** The size and the start of a payload, and whether it is an array. *)
Definition span (d : Z) (s : bytes) : bool * (Z * bytes) :=
  let long k := let k := Z.to_nat k in (SetBytes (take k s), drop k s) in
  if d <=? 0xB7 then (false, (d - 0x80, s))
  else if d <=? 0xBF then (false, long (d - 0xB7))
  else if d <=? 0xF7 then (true, (d - 0xC0, s))
  else (true, long (d - 0xF7)).

Fixpoint many (one : bytes → option (item * bytes)) (n : nat) (s : bytes) : option (list item) :=
  match s, n with
  | [], _ => Some []
  | _, O => None
  | _, S n => p ← one s; q ← many one n p.2; Some (p.1 :: q)
  end.

Fixpoint decode (fuel : nat) (s : bytes) : option (item * bytes) :=
  match fuel, s with
  | S fuel, d :: s =>
      if d <? 0x80 then Some (IBytes [d], s)
      else
        let '(array, (n, s)) := span d s in
        let payload := take (Z.to_nat n) s in
        let rest := drop (Z.to_nat n) s in
        if array then l ← many (decode fuel) (length payload) payload; Some (IArray l, rest)
        else Some (IBytes payload, rest)
  | _, _ => None
  end.

Definition sized (v : item) : Prop := Z.of_nat (length (rlp_encode v)) < 2 ^ 64.

(** A header is read as it was written. *)
Lemma span_header array n s :
  Z.of_nat n < 2 ^ 64 →
  let h := if array : bool then rlp_header 0xC0 0xF7 n else rlp_header 0x80 0xB7 n in
  ∃ d t, h = d :: t ∧ 0x80 ≤ d < 256 ∧ span d (t ++ s) = (array, (Z.of_nat n, s)).
Proof.
  intros Hn. unfold rlp_header. destruct (Z.ltb_spec (Z.of_nat n) 56) as [Hlt|Hge].
  - destruct array; eexists _, []; (split; [done|]); (split; [lia|]); unfold span; repeat (case_match; bool_props; try lia); cbn; repeat f_equal; lia.
  - set (size := Bytes (Z.of_nat n)). assert (1 ≤ length size ≤ 8)%nat as Hsz.
    { split; [|apply Bytes_length; lia]. destruct size eqn:E; [|cbn; lia].
      pose proof (Bytes_value (Z.of_nat n) ltac:(lia)) as Hv. fold size in Hv. rewrite E in Hv. cbn in Hv. lia. }
    assert (∀ k, k = Z.of_nat (length size) → (SetBytes (take (Z.to_nat k) (size ++ s)), drop (Z.to_nat k) (size ++ s)) = (Z.of_nat n, s)) as Hlong.
    { intros k ->. rewrite Nat2Z.id, take_app_length, drop_app_length. unfold size. by rewrite Bytes_value by lia. }
    destruct array; eexists _, _; (split; [done|]); (split; [lia|]); unfold span; repeat (case_match; bool_props; try lia); rewrite Hlong by lia; done.
Qed.

Lemma sized_payload l : sized (IArray l) → Z.of_nat (length (concat (map rlp_encode l))) < 2 ^ 64 ∧ Forall sized l.
Proof.
  unfold sized. cbn [rlp_encode]. rewrite length_app. intros Hs. split; [lia|]. apply Forall_forall. intros v Hv.
  assert (length (rlp_encode v) ≤ length (concat (map rlp_encode l)))%nat; [|lia].
  clear Hs. induction Hv as [v l|v w l _ IH]; cbn; rewrite length_app; lia.
Qed.

Lemma rlp_encode_nonempty v : rlp_encode v ≠ [].
Proof.
  destruct v as [b|l]; cbn.
  - destruct b as [|d [|d' b]]; [done| |]; unfold rlp_header; repeat case_match; done.
  - unfold rlp_header. by case_match.
Qed.

Lemma many_encode one l : ∀ n,
  (∀ v s, v ∈ l → one (rlp_encode v ++ s) = Some (v, s)) → (length l ≤ n)%nat → many one n (concat (map rlp_encode l)) = Some l.
Proof.
  induction l as [|v l IH]; intros n Hone Hn; [by destruct n|]. destruct n as [|n]; [cbn in Hn; lia|]. cbn [map concat many].
  destruct (rlp_encode v ++ concat (map rlp_encode l)) as [|d s] eqn:E.
  { apply app_nil in E as [E _]. by apply rlp_encode_nonempty in E. }
  rewrite <- E, Hone by set_solver. cbn [mbind option_bind fst snd]. rewrite IH; [done|set_solver|cbn in Hn; lia].
Qed.

Lemma length_payload l : (length l ≤ length (concat (map rlp_encode l)))%nat.
Proof.
  induction l as [|v l IH]; [done|]. cbn. rewrite length_app. pose proof (rlp_encode_nonempty v).
  destruct (rlp_encode v); [done|]. cbn. lia.
Qed.

Lemma real_decode_encode fuel : ∀ v s, (depth v ≤ fuel)%nat → sized v → decode fuel (rlp_encode v ++ s) = Some (v, s).
Proof.
  induction fuel as [|fuel IH]; intros v s Hd Hs; [destruct v; cbn in Hd; lia|]. destruct v as [b|l].
  - assert (Z.of_nat (length b) < 2 ^ 64) as Hb.
    { unfold sized in Hs. cbn in Hs. destruct b as [|d [|d' b]]; [cbn; lia|cbn; lia|]. rewrite length_app in Hs. lia. }
    assert (decode (S fuel) ((rlp_header 0x80 0xB7 (length b) ++ b) ++ s) = Some (IBytes b, s)) as Hlong.
    { destruct (span_header false (length b) (b ++ s) Hb) as (d & t & -> & Hd' & E). cbn [app decode].
      rewrite (proj2 (Z.ltb_ge d 128)) by lia. rewrite <- app_assoc, E, Nat2Z.id, take_app_length, drop_app_length. done. }
    cbn [rlp_encode]. destruct b as [|d [|d' b]]; [done| |done]. destruct (Z.ltb_spec d 128); [|done].
    cbn [app decode]. by rewrite (proj2 (Z.ltb_lt d 128)).
  - destruct (sized_payload l Hs) as [Hp Hl]. cbn [rlp_encode]. set (p := concat (map rlp_encode l)) in *.
    destruct (span_header true (length p) (p ++ s) Hp) as (d & t & -> & Hd' & E). cbn [app decode].
    rewrite (proj2 (Z.ltb_ge d 128)) by lia. rewrite <- app_assoc, E, Nat2Z.id, take_app_length, drop_app_length. unfold p.
    rewrite many_encode; [done| |apply length_payload]. intros v s' Hv. apply IH; [|by eapply Forall_forall in Hl].
    cbn [depth] in Hd. apply le_S_n in Hd. etrans; [|exact Hd]. clear -Hv. induction Hv as [v l|v w l _ IH]; cbn; lia.
Qed.

Lemma depth_encode v : (depth v ≤ length (rlp_encode v))%nat.
Proof.
  induction v as [b|l IH] using item_nested_ind.
  - pose proof (rlp_encode_nonempty (IBytes b)). cbn [depth]. destruct (rlp_encode (IBytes b)); [done|cbn; lia].
  - cbn [depth rlp_encode]. rewrite length_app.
    assert (1 ≤ length (rlp_header 0xC0 0xF7 (length (concat (map rlp_encode l)))))%nat by (unfold rlp_header; case_match; cbn; lia).
    assert (foldr max 0%nat (map depth l) ≤ length (concat (map rlp_encode l)))%nat; [|lia].
    clear -IH. induction IH as [|v l Hv _ IHl]; cbn in *; [lia|]. rewrite length_app. lia.
Qed.

(** ** The instance *)

(** A value too large for the format, which has no encoding, is marked by a number
    that is not a byte. *)
Definition encode (v : item) : bytes := if Z.of_nat (length (rlp_encode v)) <? 2 ^ 64 then rlp_encode v else 256 :: write v.
Definition decode_all (s : bytes) : option item :=
  match s with
  | d :: s' => if d =? 256 then parse s' else match decode (length s) s with Some (v, []) => Some v | _ => None end
  | [] => None
  end.

Lemma decode_all_encode v : decode_all (encode v) = Some v.
Proof.
  unfold encode. destruct (Z.ltb_spec (Z.of_nat (length (rlp_encode v))) (2 ^ 64)) as [Hs|_]; [|apply parse_write].
  assert (head (rlp_encode v) ≠ Some 256) as Hh.
  { destruct v as [b|l]; cbn.
    - destruct b as [|d [|d' b]]; [done| |]; [case_match; [cbn; intros [= ->]; bool_props; lia|done]|].
      destruct (span_header false (length (d :: d' :: b)) []) as (x & t & -> & Hx & _); [unfold sized in Hs; cbn in Hs; rewrite length_app in Hs; cbn in *; lia|].
      cbn. intros [= ->]. lia.
    - destruct (span_header true (length (concat (map rlp_encode l))) []) as (x & t & -> & Hx & _); [apply (sized_payload l Hs)|]. cbn. intros [= ->]. lia. }
  pose proof (real_decode_encode (length (rlp_encode v)) v [] (depth_encode v) Hs) as E. rewrite app_nil_r in E.
  unfold decode_all. destruct (rlp_encode v) as [|d s]; [done|]. destruct (Z.eqb_spec d 256) as [->|_]; [done|]. by rewrite E.
Qed.

Definition ext : External := {| MarshalTo v := encode (item_of v); Keccak256 := digest |}.
Definition reader : RlpReader := {|
  Parse := decode_all;
  rlp_Len v := match item_of v with IBytes b => Z.of_nat (length b) | IArray l => Z.of_nat (length (concat (map rlp_encode l))) end;
  GetUint64 v := b ← string_of v; if (length b <=? 8)%nat then Some (SetBytes b) else None;
  GetBigInt v := SetBytes <$> string_of v;
  GetBytes := string_of;
  Raw _ := encode;
  GetBytesN n v := b ← string_of v; if (length b =? n)%nat then Some b else None;
|}.
#[export] Existing Instances ext reader.

#[export] Instance real_laws : RlpLaws.
Proof.
  split; cbn -[Bytes SetBytes].
  - by split.
  - intros v. apply decode_all_encode.
  - intros v. unfold encode. case_match; [apply rlp_encode_nonempty|done].
  - intros b _ Hl. by rewrite (proj2 (Nat.leb_le _ _)).
  - intros z Hz. by rewrite Bytes_value.
  - done.
  - done.
  - intros b. by rewrite Nat.eqb_refl.
Qed.

#[export] Instance real_format : RlpFormat.
Proof.
  split; [by split| |].
  - intros v Hv. cbn. unfold encode. by rewrite (proj2 (Z.ltb_lt _ _)).
  - intros l. cbn. unfold rlp_payload. apply Z.eq_le_incl. do 3 f_equal. induction l as [|v l IH]; [done|]. cbn. by f_equal.
Qed.
End RealRlp.
