(* ===== verification/ChainExample.v ===== *)
(** A small chain: the theorems on [blockchain] at work, and behaviours of the
    code that differ from what it means. *)
From S2P Require Import Prelude Types Runtime Crypto StateTxn Bloom Rlp RlpTypes ChainStorage Trie BuildRoot Blockchain BlockchainSpec BlockchainFork TrieExample.

Module ChainToy.
Import PrefixCode.

(** An executor that gives every transaction a receipt of 21000 gas and leaves
    the state root 6. *)
Definition receipt_of (i : nat) (t : Transaction) : Receipt :=
  mkReceipt ZeroHash (21000 * (Z.of_nat i + 1)) [] [] (Some ReceiptSuccess) 21000 None (tx_Hash t).
Definition deps : ChainDeps := {|
  dep_state := ();
  transition := list Receipt;
  dep_err := ();
  VerifyHeader _ s := Ret (Ok (), s);
  ProcessHeaders _ s := Ret (Ok (), s);
  GetBlockCreator _ s := Ret (Ok 55, s);
  PreCommitState _ t s := Ret (Ok t, s);
  executor_ProcessBlock _ block _ s := Ret (Ok (imap receipt_of (bk_Transactions block)), s);
  tr_Commit _ s := Ret (6, s);
  tr_Receipts t := t;
  tr_TotalGas t := 21000 * Z.of_nat (length t);
  signer_Sender _ := Ret (Ok 99);
|}.
#[export] Existing Instance deps.

(** A hash of headers by number and extra data. *)
Definition toyHash (h : Header) : Hash := 1 + 1000 * hd_Number h + SetBytes (hd_ExtraData h).

Definition config : Genesis := mkGenesis (replicate 8 0) 0 [] 5000000 1 0 0 6 0 0 ZeroHash.
Definition g : Header := genesis_header toyHash config.
Definition start : Blockchain := (ComputeGenesis toyHash config (NewBlockchain empty_db ())).2.

Definition value {A} (d : A) (o : outcome A) : A := match o with Ret a => a | _ => d end.

(** A header on a parent. *)
Definition child (p : Header) (difficulty extra : Z) (txRoot receiptsRoot used : Z) : Header :=
  hd_ComputeHash toyHash
    (mkHeader (hd_Hash p) EmptyUncleHash [] 6 txRoot receiptsRoot [] difficulty (hd_Number p + 1) 5000000 used 10
       [extra] 0 (replicate 8 0) ZeroHash).

Definition txs : list Transaction := [set_From ZeroAddress tx1].
Definition header : Header :=
  child g 1 0 (value 0 (CalculateTransactionsRoot txs)) (value 0 (CalculateReceiptsRoot (imap receipt_of txs))) 21000.
Definition block : Block := mkBlock header txs [].

Definition state_of {A} (o : outcome (A * Blockchain)) : Blockchain := match o with Ret (_, b) => b | _ => start end.
Definition accepted {A} (o : outcome (result chain_err A * Blockchain)) : bool := match o with Ret (r, _) => is_ok r | _ => false end.

Definition b1 : Blockchain := state_of (VerifyFinalizedBlock toyHash (Some block) start).
Definition b2 : Blockchain := state_of (chain_WriteBlock toyHash block [] b1).

Lemma verified : VerifyFinalizedBlock toyHash (Some block) start = Ret (Ok (), b1).
Proof.
  assert (accepted (VerifyFinalizedBlock toyHash (Some block) start) = true) as E by (vm_compute; reflexivity).
  unfold b1. by destruct (VerifyFinalizedBlock toyHash (Some block) start) as [[[[]|] b]| |].
Qed.

Lemma written : chain_WriteBlock toyHash block [] b1 = Ret (Ok (), b2).
Proof.
  assert (accepted (chain_WriteBlock toyHash block [] b1) = true) as E by (vm_compute; reflexivity).
  unfold b2. by destruct (chain_WriteBlock toyHash block [] b1) as [[[[]|] b]| |].
Qed.

Lemma hash_ignores h x : toyHash (set_hd_Hash x h) = toyHash h.
Proof. reflexivity. Qed.

Lemma sender_99 t a : signer_Sender t = Ret (Ok a) → a ≠ ZeroAddress.
Proof. cbn. intros [= <-]. discriminate. Qed.

Lemma config_ok : genesis_ok toyHash config.
Proof. split; [reflexivity|reflexivity|]. vm_compute. discriminate. Qed.

Lemma block_checked b : (verifyBlockParent toyHash block b).1 = Ok () → db_headers (bc_db b) !! hd_Hash header = None → checked toyHash b block.
Proof.
  intros Hp Hn. split; [done|small| | |].
  - vm_compute. reflexivity.
  - vm_compute. discriminate.
  - intros h Hh. exfalso. change (bk_Header block) with header in Hh. by rewrite Hn in Hh.
Qed.

Lemma checked_start : checked toyHash start block.
Proof. apply block_checked; vm_compute; reflexivity. Qed.
Lemma checked_b1 : checked toyHash b1 block.
Proof. apply block_checked; vm_compute; reflexivity. Qed.

Lemma start_implements : implements toyHash config start [genesis_entry toyHash config].
Proof.
  destruct (start_ok toyHash config hash_ignores config_ok (() : @dep_state deps)) as (b & E & Hi).
  assert (start = b) as -> by (unfold start; by rewrite E). exact Hi.
Qed.

Definition entry0 : entry := genesis_entry toyHash config.

Definition b0' : Blockchain := state_of (chain_WriteBlock toyHash block [] start).
Lemma written_at_once : chain_WriteBlock toyHash block [] start = Ret (Ok (), b0').
Proof.
  assert (accepted (chain_WriteBlock toyHash block [] start) = true) as E by (vm_compute; reflexivity).
  unfold b0'. by destruct (chain_WriteBlock toyHash block [] start) as [[[[]|] b]| |].
Qed.
Lemma head_moved : chain_Header b0' = Some header.
Proof. vm_compute. reflexivity. Qed.
Lemma header_not_g : Some g ≠ Some header.
Proof. vm_compute. discriminate. Qed.
Lemma block_senders : recoverFromFieldsInBlock (bk_Transactions block) = Ret (Ok [set_From 99 tx1]).
Proof. vm_compute. reflexivity. Qed.
Lemma number_after : hd_Number (e_header entry0) < hd_Number (bk_Header block).
Proof. vm_compute. reflexivity. Qed.
Lemma cache_hit A k (v : A) c : (lru_Get k (lru_Add k v c)).1 = Some v.
Proof. apply lookup_insert_eq. Qed.

(** ** Witnesses *)

Lemma node_is_append_only_ledger_witness :
  ∃ l, implements toyHash config b0' l ∧ l ≠ [entry0].
Proof.
  destruct (node_is_append_only_ledger toyHash config 0 sender_99 hash_ignores config_ok (() : @dep_state deps)) as (b0 & E0 & Hrun).
  assert (b0 = start) as -> by (unfold start; by rewrite E0).
  destruct (Hrun b0') as (l & Hi & _).
  { apply rtc_once. eapply step_write; [exact checked_start|exact written_at_once]. }
  exists l. split; [exact Hi|]. intros ->. apply header_not_g. rewrite <- head_moved, (im_header _ _ _ _ Hi). reflexivity.
Defined.

Lemma verified_block_is_stored_witness : ∃ rs,
  block_valid block rs ∧ implements toyHash config b2 [entry0; mkEntry (mkBlock header [set_From 99 tx1] []) (Some rs)].
Proof.
  destruct (verified_block_is_stored toyHash config sender_99 cache_hit start [entry0] entry0 block [] (Ok ()) b1 b2
    start_implements eq_refl number_after verified checked_b1 written eq_refl) as (ts & rs & Hr & Hv & Hi & _).
  exists rs. split; [exact Hv|]. rewrite block_senders in Hr. injection Hr as <-. exact Hi.
Defined.

Lemma b2_implements : ∃ rs, implements toyHash config b2 [entry0; mkEntry (mkBlock header [set_From 99 tx1] []) rs].
Proof.
  assert (implements toyHash config b1 [entry0]) as Hi.
  { eapply implements_idle; [exact start_implements|]. eapply VerifyFinalizedBlock_idle; [apply start_implements|exact verified]. }
  destruct (WriteBlock_appends toyHash config sender_99 b1 [entry0] block [] (Ok ()) b2 entry0 Hi checked_b1 eq_refl written)
    as [(Hle & _)|(_ & [(err & _ & [=] & _)|(ts & rs & Hr & Hi' & _)])].
  - pose proof number_after. lia.
  - exists rs. rewrite block_senders in Hr. injection Hr as <-. exact Hi'.
Qed.

Lemma ledger_reads_witness : ∃ b',
  (GetHeaderByNumber toyHash 1 b2).1 = Some header ∧
  GetBlockByNumber toyHash 1 true b2 = Ret (Some (mkBlock header [set_From 99 tx1] []), true, b').
Proof.
  destruct b2_implements as (rs & Hi).
  destruct (ledger_reads toyHash config b2 _ 1 0 entry0 Hi ltac:(lia) eq_refl) as (Hh & (b' & Hb) & _).
  exists b'. split; [exact Hh|exact Hb].
Defined.

Lemma gas_limit_converges_witness : limit_after 10000 9000 5000 = 10000.
Proof.
  destruct (gas_limit_converges 10000 5000) as [_ Hc]; [small..|]. apply Hc; [lia|lia|]. vm_compute. discriminate.
Defined.

(** ** Forks *)

Definition A1 : Header := child g 10 1 0 0 0.
Definition A2 : Header := child A1 10 2 0 0 0.
Definition B1 : Header := child g 9 3 0 0 0.
Definition B2 : Header := child B1 50 4 0 0 0.
Definition family : list Header := [g; A1; A2; B1; B2].

Lemma family_universe : universe toyHash (λ h, h ∈ family) g.
Proof.
  assert (∀ (P : Header → Prop) `{∀ h, Decision (P h)}, bool_decide (Forall P family) = true → ∀ h, h ∈ family → P h) as Hall.
  { intros P ? E h. apply bool_decide_eq_true in E. by apply (proj1 (Forall_forall _ _) E). }
  split.
  - apply (Hall (λ h, toyHash h = hd_Hash h) _). vm_compute. reflexivity.
  - apply (Hall (λ h, hd_Hash h ≠ ZeroHash) _). vm_compute. reflexivity.
  - intros h h' [i Hi]%list_elem_of_lookup_1 [j Hj]%list_elem_of_lookup_1 E. assert (NoDup (hd_Hash <$> family)) as Hnd.
    { apply (bool_decide_eq_true_1 _). vm_compute. reflexivity. }
    assert (i = j) as ->; [|congruence]. eapply NoDup_lookup; [exact Hnd|by rewrite list_lookup_fmap, Hi|by rewrite list_lookup_fmap, Hj; cbn; rewrite E].
  - apply (Hall (λ h, 0 ≤ hd_Difficulty h) _). vm_compute. reflexivity.
  - intros h p Hh Hp. revert h Hh p Hp. assert (Forall (λ h, Forall (λ p, hd_ParentHash h = hd_Hash p → hd_Number h = hd_Number p + 1) family) family) as Hf.
    { apply (bool_decide_eq_true_1 _). vm_compute. reflexivity. }
    intros h Hh p Hp. apply (proj1 (Forall_forall _ _) (proj1 (Forall_forall _ _) Hf h Hh) p Hp).
  - apply (Hall (λ h, is_u64 (hd_Number h)) _). vm_compute. reflexivity.
  - by left.
  - reflexivity.
  - reflexivity.
Qed.

Definition batches : list (list Header) := [[A1; A2]; [B1]; [B2]].
Lemma batches_in : Forall (Forall (λ h, h ∈ family)) batches.
Proof.
  pose proof (list_elem_of_lookup_2 family 1 A1 eq_refl). pose proof (list_elem_of_lookup_2 family 2 A2 eq_refl).
  pose proof (list_elem_of_lookup_2 family 3 B1 eq_refl). pose proof (list_elem_of_lookup_2 family 4 B2 eq_refl).
  repeat first [assumption | apply Forall_cons_2 | apply Forall_nil_2].
Qed.


(** A reorganisation two blocks deep leaves the canonical index wrong: the
    new chain's blocks below the height at which the walk begins are never
    written, because the third loop of [handleReorg] collects the old headers
    only.  Here the head becomes [B2], whose parent is [B1] at number 1, and
    number 1 still reads [A1]. *)
Theorem reorg_leaves_canonical_index : ∃ b,
  write_batches toyHash batches start = Ret b ∧ chain_Header b = Some B2 ∧
  hd_ParentHash B2 = hd_Hash B1 ∧ hd_Number B1 = 1 ∧
  (GetHeaderByNumber toyHash 1 b).1 = Some A1 ∧ hd_Hash A1 ≠ hd_Hash B1.
Proof.
  assert (match write_batches toyHash batches start with Ret b =>
    chain_Header b = Some B2 ∧ (GetHeaderByNumber toyHash 1 b).1 = Some A1 | _ => False end) as E by (vm_compute; split; reflexivity).
  destruct (write_batches toyHash batches start) as [b| |]; [|done..]. destruct E as [E1 E2].
  exists b. split; [reflexivity|]. split; [exact E1|]. split; [vm_compute; reflexivity|]. split; [vm_compute; reflexivity|].
  split; [exact E2|]. vm_compute. discriminate.
Qed.

(** The average gas price can go negative: after a block with one
    transaction at price 10, a block with three at price 0 makes it -20. *)
Theorem average_price_negative : ∃ a b,
  updateGasPriceAvg [10] start = Ret a ∧ GetAvgGasPrice a = 10 ∧ updateGasPriceAvg [0; 0; 0] a = Ret b ∧ GetAvgGasPrice b = -20.
Proof. eexists _, _. split; [reflexivity|]. split; [reflexivity|]. split; reflexivity. Qed.
End ChainToy.
