(* ===== verification/Executor.v ===== *)
(** [state/executor.go]: applying transactions to the state of a block.

    A [Transition] runs a transaction's call, and the calls it makes, on the
    precompiled contracts or on the virtual machine, whose host it is.  The
    recursion goes through [Callx]: its depth is the fuel, and [applyCall] and
    [applyCreate] refuse a depth above 1025.  The tracer is nil, as it is unless a
    client asks for a trace, and so is [PostHook], which nothing in the repository
    sets outside tests.

    The machines come from a [sync.Pool] ([statePool]), which may hand back any
    released machine: the buffers it gives are the class [MachinePool]. *)
From S2P Require Import Prelude Types Runtime Crypto EvmState EvmInstr EvmRun TxAccount Intrinsic StateTxn Bloom Blake2f Precompiled Signer.

Class MachinePool := { pool_Get : Contract → bytes * bytes }.

(** ** Errors *)

Inductive applyErr :=
| ErrNonceIncorrect
| ErrNotEnoughFundsForGas
| ErrBlockLimitReached
| ErrIntrinsic (e : txErr)
| ErrNotEnoughIntrinsicGas
| ErrNotEnoughFundsForTransfer
| ErrSender (e : signErr)
| ErrSnapshot.

(** [TransitionApplicationError], and its extension for a full block. *)
Record TransitionApplicationError := mkAppErr {
  ae_Err : applyErr;
  ae_IsRecoverable : bool;
  ae_GasLimitReached : bool;
}.
Definition NewTransitionApplicationError (err : applyErr) (isRecoverable : bool) :=
  mkAppErr err isRecoverable false.
Definition NewGasLimitReachedTransitionApplicationError (err : applyErr) := mkAppErr err true true.

Section executor.
Context `{External} `{Secp256k1} `{PrecompiledCrypto} `{GoRuntime} `{MachinePool} `{LRU} `{FinMap Z RT}.

Record Transition := mkTransition {
  t_config : ForksInTime;
  t_state : Txn (RT:=RT);
  t_getHash : Z → Hash;
  t_ctx : TxContext;
  t_gasPool : Z;
  t_receipts : list Receipt;
  t_totalGas : Z;
}.

Definition set_state (s : Txn) (t : Transition) : Transition :=
  mkTransition (t_config t) s (t_getHash t) (t_ctx t) (t_gasPool t) (t_receipts t) (t_totalGas t).
Definition set_ctx (c : TxContext) (t : Transition) : Transition :=
  mkTransition (t_config t) (t_state t) (t_getHash t) c (t_gasPool t) (t_receipts t) (t_totalGas t).
Definition set_gasPool (g : Z) (t : Transition) : Transition :=
  mkTransition (t_config t) (t_state t) (t_getHash t) (t_ctx t) g (t_receipts t) (t_totalGas t).
Definition set_receipts (r : list Receipt) (t : Transition) : Transition :=
  mkTransition (t_config t) (t_state t) (t_getHash t) (t_ctx t) (t_gasPool t) r (t_totalGas t).
Definition set_totalGas (g : Z) (t : Transition) : Transition :=
  mkTransition (t_config t) (t_state t) (t_getHash t) (t_ctx t) (t_gasPool t) (t_receipts t) g.

(** ** The host *)

Definition Selfdestruct (addr beneficiary : Address) (t : Transition) : Transition :=
  let s := t_state t in
  let s := if negb (HasSuicided addr s) then AddRefund 24000 s else s in
  let s := AddBalance beneficiary (GetBalance addr s) s in
  set_state (Suicide addr s) t.

(** The transition as the machine's host, its nested calls run by [rec]. *)
Definition TransitionHost (rec : Contract → Transition → outcome (ExecutionResult * Transition))
    : Host Transition := {|
  h_AccountExists a t := Exist a (t_state t);
  h_GetStorage a k t := GetState a k (t_state t);
  h_SetStorage a k v cfg t :=
    let '(status, s) := SetStorage a k v cfg (t_state t) in (status, set_state s t);
  h_GetBalance a t := GetBalance a (t_state t);
  h_GetCodeSize a t := let '(n, s) := GetCodeSize a (t_state t) in (n, set_state s t);
  h_GetCodeHash a t := GetCodeHash a (t_state t);
  h_GetCode a t := let '(code, s) := GetCode a (t_state t) in (code, set_state s t);
  h_Selfdestruct := Selfdestruct;
  h_GetTxContext := t_ctx;
  h_GetBlockHash n t := t_getHash t (u64 n);
  h_EmitLog a ts d t := set_state (EmitLog a ts d (t_state t)) t;
  h_Callx := rec;
  h_Empty a t := Empty a (t_state t);
  h_GetNonce a t := GetNonce a (t_state t);
|}.

(** ** Calls *)

(** [EVM.Run] needs no more turns than it has gas. *)
Definition evm_fuel (c : Contract) : nat := S (Z.to_nat (c_Gas c)).

Definition run (rec : Contract → Transition → outcome (ExecutionResult * Transition))
    (contract : Contract) (t : Transition) : outcome (ExecutionResult * Transition) :=
  if CanRun contract (t_config t) then
    let~ r := Precompiled_Run contract (t_config t) in Ret (r, t)
  else
    let '(mem, bm) := pool_Get contract in
    let~ (r, _, t) := EVM_Run (H1 := TransitionHost rec) (evm_fuel contract) mem bm contract
                        (t_config t) t in
    Ret (r, t).

Definition transfer (from to : Address) (amount : option Z) (s : Txn (RT:=RT)) : result vmError Txn :=
  match amount with
  | None => Ok s
  | Some amount =>
      match SubBalance from amount s with
      | Err ErrNotEnoughFunds => Err ErrInsufficientBalance
      | Err e => Err e
      | Ok s => Ok (AddBalance to amount s)
      end
  end.

Definition revert (id : nat) (t : Transition) : outcome Transition :=
  match RevertToSnapshot id (t_state t) with
  | None => Panic
  | Some s => Ret (set_state s t)
  end.

Definition maxDepth : Z := 1024 + 1.

Definition applyCall (rec : Contract → Transition → outcome (ExecutionResult * Transition))
    (c : Contract) (callType : CallType) (t : Transition) : outcome (ExecutionResult * Transition) :=
  if c_Depth c >? maxDepth then Ret (mkResult [] (c_Gas c) 0 (Some ErrDepth), t)
  else
    let '(snapshot, s) := Snapshot (t_state t) in
    let s := TouchAccount (c_Address c) s in
    match (if decide (callType = CallT) then transfer (c_Caller c) (c_Address c) (c_Value c) s
           else Ok s) with
    | Err err => Ret (mkResult [] (c_Gas c) 0 (Some err), set_state s t)
    | Ok s =>
        let~ (result, t) := run rec c (set_state s t) in
        if Failed result then let~ t := revert snapshot t in Ret (result, t)
        else Ret (result, t)
    end.

(** [emptyCodeHashTwo] is the hash of no code; [emptyHash] is zero. *)
Definition hasCodeOrNonce (addr : Address) (s : Txn (RT:=RT)) : bool :=
  if negb (GetNonce addr s =? 0) then true
  else
    let codeHash := GetCodeHash addr s in
    negb (codeHash =? Keccak256 []) && negb (codeHash =? ZeroHash).

Definition spuriousDragonMaxCodeSize : Z := 24576.

Definition applyCreate (rec : Contract → Transition → outcome (ExecutionResult * Transition))
    (c : Contract) (t : Transition) : outcome (ExecutionResult * Transition) :=
  let gasLimit := c_Gas c in
  if c_Depth c >? maxDepth then Ret (mkResult [] gasLimit 0 (Some ErrDepth), t)
  else
    let s := IncrNonce (c_Caller c) (t_state t) in
    if hasCodeOrNonce (c_Address c) s
    then Ret (mkResult [] 0 0 (Some ErrContractAddressCollision), set_state s t)
    else
      let '(snapshot, s) := Snapshot s in
      let s := if EIP158 (t_config t) then IncrNonce (c_Address c) (CreateAccount (c_Address c) s)
               else s in
      match transfer (c_Caller c) (c_Address c) (c_Value c) s with
      | Err err => Ret (mkResult [] gasLimit 0 (Some err), set_state s t)
      | Ok s =>
          let~ (result, t) := run rec c (set_state s t) in
          if Failed result then let~ t := revert snapshot t in Ret (result, t)
          else if EIP158 (t_config t) &&
                  (Z.of_nat (length (ReturnValue result)) >? spuriousDragonMaxCodeSize) then
            let~ t := revert snapshot t in
            Ret (mkResult [] 0 0 (Some ErrMaxCodeSizeExceeded), t)
          else
            let gasCost := mul64 (Z.of_nat (length (ReturnValue result))) 200 in
            if GasLeft result <? gasCost then
              let result := mkResult [] (GasLeft result) (GasUsed result) (Some ErrCodeStoreOutOfGas) in
              if Homestead (t_config t) then
                let~ t := revert snapshot t in
                Ret (mkResult (ReturnValue result) 0 (GasUsed result) (ExecErr result), t)
              else Ret (result, t)
            else
              Ret (mkResult (ReturnValue result) (sub64 (GasLeft result) gasCost) (GasUsed result)
                     (ExecErr result),
                   set_state (SetCode (c_Address c) (ReturnValue result) (t_state t)) t)
      end.

(** [Callx], [fuel] calls deep at most. *)
Fixpoint Callx (fuel : nat) (c : Contract) (t : Transition) : outcome (ExecutionResult * Transition) :=
  match fuel with
  | O => NoFuel
  | S fuel =>
      if decide (c_Type c = CreateT) then applyCreate (Callx fuel) c t
      else applyCall (Callx fuel) c (c_Type c) t
  end.

(** The calls a transaction nests: from depth 1 to the depth 1026 that is
    refused. *)
Definition callDepth : nat := 1026.

Definition Create2 (caller : Address) (code : bytes) (value gas : Z) (t : Transition)
    : outcome (ExecutionResult * Transition) :=
  let address := CreateAddress caller (GetNonce caller (t_state t)) in
  let contract := NewContractCreation 1 caller caller address (Some value) gas code in
  applyCreate (Callx callDepth) contract t.

Definition Call2 (caller to : Address) (input : bytes) (value gas : Z) (t : Transition)
    : outcome (ExecutionResult * Transition) :=
  let '(code, s) := GetCode to (t_state t) in
  let c := NewContractCall 1 caller caller to (Some value) gas code input in
  applyCall (Callx callDepth) c CallT (set_state s t).

(** ** Transactions *)

Definition subGasPool (amount : Z) (t : Transition) : result applyErr Transition :=
  if t_gasPool t <? amount then Err ErrBlockLimitReached
  else Ok (set_gasPool (sub64 (t_gasPool t) amount) t).
Definition addGasPool (amount : Z) (t : Transition) : Transition :=
  set_gasPool (add64 (t_gasPool t) amount) t.

Definition subGasLimitPrice (msg : Transaction) (t : Transition) : result applyErr Transition :=
  let upfrontGasCost := tx_GasPrice msg * tx_Gas msg in
  match SubBalance (tx_From msg) upfrontGasCost (t_state t) with
  | Err _ => Err ErrNotEnoughFundsForGas
  | Ok s => Ok (set_state s t)
  end.

Definition nonceCheck (msg : Transaction) (t : Transition) : bool :=
  GetNonce (tx_From msg) (t_state t) =? tx_Nonce msg.

Definition tx_ctx (msg : Transaction) (c : TxContext) : TxContext :=
  mkTxContext (BytesToHash (Bytes (tx_GasPrice msg))) (tx_From msg) (ctx_Coinbase c) (ctx_Number c)
    (ctx_Timestamp c) (ctx_GasLimit c) (ctx_ChainID c) (ctx_Difficulty c).

(** The call of a transaction whose gas is paid. *)
Definition execute (msg : Transaction) (gasLeft : Z) (t : Transition)
    : outcome (ExecutionResult * Transition) :=
  let value := tx_Value msg in
  let t := set_ctx (tx_ctx msg (t_ctx t)) t in
  match tx_To msg with
  | None => Create2 (tx_From msg) (tx_Input msg) value gasLeft t
  | Some to =>
      let t := set_state (IncrNonce (tx_From msg) (t_state t)) t in
      Call2 (tx_From msg) to (tx_Input msg) value gasLeft t
  end.

(** What follows the call: the refund, the remaining gas given back, the fee. *)
Definition settle (msg : Transaction) (result : ExecutionResult) (t : Transition)
    : ExecutionResult * Transition :=
  let gasPrice := tx_GasPrice msg in
  let refund := GetRefund (t_state t) in
  let result := UpdateGasUsed (tx_Gas msg) refund result in
  let remaining := GasLeft result * gasPrice in
  let s := AddBalance (tx_From msg) remaining (t_state t) in
  let coinbaseFee := GasUsed result * gasPrice in
  let s := AddBalance (ctx_Coinbase (t_ctx t)) coinbaseFee s in
  (result, addGasPool (GasLeft result) (set_state s t)).

(** [apply] returns its error beside the transition: what it did to the gas pool
    before an error stays. *)
Definition apply_ (msg : Transaction) (t : Transition)
    : outcome (result TransitionApplicationError ExecutionResult * Transition) :=
  if negb (nonceCheck msg t) then Ret (Err (NewTransitionApplicationError ErrNonceIncorrect true), t)
  else
    match subGasLimitPrice msg t with
    | Err err => Ret (Err (NewTransitionApplicationError err true), t)
    | Ok t =>
        match subGasPool (tx_Gas msg) t with
        | Err err => Ret (Err (NewGasLimitReachedTransitionApplicationError err), t)
        | Ok t =>
            match TransactionGasCost msg (Homestead (t_config t)) (Istanbul (t_config t)) with
            | Err err => Ret (Err (NewTransitionApplicationError (ErrIntrinsic err) false), t)
            | Ok intrinsicGasCost =>
                let gasLeft := sub64 (tx_Gas msg) intrinsicGasCost in
                if gasLeft >? tx_Gas msg
                then Ret (Err (NewTransitionApplicationError ErrNotEnoughIntrinsicGas false), t)
                else if GetBalance (tx_From msg) (t_state t) <? tx_Value msg
                then Ret (Err (NewTransitionApplicationError ErrNotEnoughFundsForTransfer true), t)
                else
                  let~ (result, t) := execute msg gasLeft t in
                  let '(result, t) := settle msg result t in
                  Ret (Ok result, t)
            end
        end
    end.

Definition Apply (msg : Transaction) (t : Transition)
    : outcome (result TransitionApplicationError ExecutionResult * Transition) :=
  let '(s, st) := Snapshot (t_state t) in
  let~ (res, t) := apply_ msg (set_state st t) in
  match res with
  | Err _ => let~ t := revert s t in Ret (res, t)
  | Ok _ => Ret (res, t)
  end.

(** The sender of a transaction, recovered when it is not known yet. *)
Definition fromOrSender (t : Transition) (txn : Transaction) : outcome (result applyErr Transaction) :=
  if tx_From txn =? ZeroAddress then
    let~ res := Sender (NewSigner (t_config t) (u64 (ctx_ChainID (t_ctx t)))) txn in
    match res with
    | Err e => Ret (Err (ErrSender e))
    | Ok from => Ret (Ok (set_From from txn))
    end
  else Ret (Ok txn).

Definition WriteFailedReceipt (txn : Transaction) (t : Transition)
    : outcome (result TransitionApplicationError unit * Transition) :=
  let~ res := fromOrSender t txn in
  match res with
  | Err e => Ret (Err (NewTransitionApplicationError e false), t)
  | Ok txn =>
      let '(logs, s) := Logs (t_state t) in
      let logs := default [] logs in
      let address := match tx_To txn with
                     | None => Some (CreateAddress (tx_From txn) (tx_Nonce txn))
                     | Some _ => None
                     end in
      let receipt := mkReceipt ZeroHash (t_totalGas t) emptyBloom logs None 0 None (tx_Hash txn) in
      let receipt := mkReceipt ZeroHash (t_totalGas t) (CreateBloom [receipt]) logs (Some ReceiptFailed) 0
                       address (tx_Hash txn) in
      Ret (Ok tt, set_receipts (t_receipts t ++ [receipt]) (set_state s t))
  end.

Definition Write (txn : Transaction) (t : Transition)
    : outcome (result TransitionApplicationError unit * Transition) :=
  let~ res := fromOrSender t txn in
  match res with
  | Err e => Ret (Err (NewTransitionApplicationError e false), t)
  | Ok msg =>
      let~ (res, t) := Apply msg t in
      match res with
      | Err e => Ret (Err e, t)
      | Ok result =>
          let t := set_totalGas (add64 (t_totalGas t) (GasUsed result)) t in
          let '(logs, s) := Logs (t_state t) in
          let logs := default [] logs in
          let s := CleanDeleteObjects true s in
          let status := if Failed result then ReceiptFailed else ReceiptSuccess in
          let address := match tx_To msg with
                         | None => Some (CreateAddress (tx_From msg) (tx_Nonce msg))
                         | Some _ => None
                         end in
          let receipt := mkReceipt ZeroHash (t_totalGas t) emptyBloom logs (Some status) (GasUsed result)
                           address (tx_Hash msg) in
          let receipt := mkReceipt ZeroHash (t_totalGas t) (CreateBloom [receipt]) logs (Some status)
                           (GasUsed result) address (tx_Hash msg) in
          Ret (Ok tt, set_receipts (t_receipts t ++ [receipt]) (set_state s t))
      end
  end.

(** [Transition.Commit]: the objects handed to the committed state. *)
Definition Transition_Commit (t : Transition) : RT Object * Txn := Commit (EIP155 (t_config t)) (t_state t).

(** ** Blocks *)

(** The executor: its parameters, the committed states, the hashes of blocks. *)
Record Executor := mkExecutor {
  e_Forks : Forks;
  e_ChainID : Z;
  e_NewSnapshotAt : Hash → option (readSnapshot (RT:=RT));
  e_GetHash : Header → Z → Hash;
}.

Definition BeginTxn (e : Executor) (parentRoot : Hash) (header : Header) (coinbaseReceiver : Address)
    : result applyErr Transition :=
  let forkConfig := At (e_Forks e) (hd_Number header) in
  match e_NewSnapshotAt e parentRoot with
  | None => Err ErrSnapshot
  | Some auxSnap2 =>
      let txCtx := mkTxContext 0 0 coinbaseReceiver (s64 (hd_Number header))
                     (s64 (hd_Timestamp header)) (s64 (hd_GasLimit header)) (s64 (e_ChainID e))
                     (BytesToHash (Bytes (hd_Difficulty header))) in
      Ok (mkTransition forkConfig (newTxn auxSnap2) (e_GetHash e header) txCtx
            (u64 (ctx_GasLimit txCtx)) [] 0)
  end.

Fixpoint ProcessTransactions (gasLimit : Z) (txs : list Transaction) (t : Transition)
    : outcome (result TransitionApplicationError Transition) :=
  match txs with
  | [] => Ret (Ok t)
  | tx :: txs =>
      let~ (res, t) := (if ExceedsBlockGasLimit tx gasLimit then WriteFailedReceipt tx t
                        else Write tx t) in
      match res with
      | Err e => Ret (Err e)
      | Ok _ => ProcessTransactions gasLimit txs t
      end
  end.

Definition ProcessBlock (e : Executor) (parentRoot : Hash) (block : Block) (blockCreator : Address)
    : outcome (result TransitionApplicationError Transition) :=
  match BeginTxn e parentRoot (bk_Header block) blockCreator with
  | Err err => Ret (Err (mkAppErr err false false))
  | Ok txn => ProcessTransactions (hd_GasLimit (bk_Header block)) (bk_Transactions block) txn
  end.

(** ** Genesis and direct writes *)

Record GenesisAccount := mkGenesisAccount {
  ga_Code : bytes;
  ga_Storage : list (Hash * Hash);
  ga_Balance : option Z;
  ga_Nonce : Z;
}.

(** [WriteGenesis] up to [snap.Commit]; the accounts in the order of the map's
    iteration. *)
Definition genesis_account (txn : Txn (RT:=RT)) (entry : Address * GenesisAccount) : Txn :=
  let '(addr, account) := entry in
  let txn := match ga_Balance account with Some b => AddBalance addr b txn | None => txn end in
  let txn := if negb (ga_Nonce account =? 0) then SetNonce addr (ga_Nonce account) txn else txn in
  let txn := if negb (Z.of_nat (length (ga_Code account)) =? 0) then SetCode addr (ga_Code account) txn
             else txn in
  foldl (λ txn '(key, value), SetState addr key value txn) txn (ga_Storage account).

Definition WriteGenesis (snap : readSnapshot (RT:=RT)) (alloc : list (Address * GenesisAccount)) : RT Object :=
  (Commit false (foldl genesis_account (newTxn snap) alloc)).1.

(** The error for an existing account is [None]; a nil balance panics. *)
Definition SetAccountDirectly (addr : Address) (account : GenesisAccount) (t : Transition)
    : outcome (option Transition) :=
  if Exist addr (t_state t) then Ret None
  else
    let s := SetCode addr (ga_Code account) (t_state t) in
    let s := foldl (λ s '(key, value), (SetStorage addr key value (t_config t) s).2) s
               (ga_Storage account) in
    match ga_Balance account with
    | None => Panic
    | Some balance =>
        let s := SetBalance addr balance s in
        Ret (Some (set_state (SetNonce addr (ga_Nonce account) s) t))
    end.

Definition SetCodeDirectly (addr : Address) (code : bytes) (t : Transition) : option Transition :=
  if negb (Exist addr (t_state t)) then None
  else Some (set_state (SetCode addr code (t_state t)) t).
End executor.
