(* ===== verification/ExecutorInv.v ===== *)
(** The invariant of a transition, and the promise of the transition to the
    machine it hosts: [HostLaws] for every depth of calls. *)
From S2P Require Import Prelude Types Runtime Crypto EvmState EvmInstr EvmRun EvmWord EvmMemory EvmLogic EvmSafe EvmMeta TxAccount Intrinsic StateTxn StateTxnSpec Bloom Blake2f Precompiled Signer Executor.

(** A machine in the pool has been released: its buffers are clear.
    [EVM_Run_ends] shows that released machines are. *)
Class MachinePoolLaws `{MachinePool} : Prop := {
  pool_clear c : Forall (eq 0) (pool_Get c).1 ∧ Forall (eq 0) (pool_Get c).2;
}.

Section inv.
Context `{External} `{Secp256k1} `{PrecompiledLaws} `{GoRuntime} `{MachinePoolLaws} `{LRULaws}
  `{FinMap Z RT}.
Implicit Types (t : Txn (RT:=RT)) (r : radix (RT:=RT)) (s : readSnapshot (RT:=RT))
  (o : StateObject (RT:=RT)) (h : Transition (RT:=RT)).

(** ** The state *)

Record tree_ok s (T : Z) r : Prop := {
  tr_total : total s r ≤ T;
  tr_code : ∀ a o, objs r !! a = Some o → go_bytes (o_Code o);
  tr_refund : is_u64 (default 0 (refund r));
}.

(** The trees of the current state and of the snapshots taken above [S0] hold
    at most [T] and have byte strings for code. *)
Record txn_ok s (S0 : list radix) (T : Z) t : Prop := {
  tx_snap : snapshot t = s;
  tx_snaps : ∃ k, snapshots t = S0 ++ k ∧ Forall (tree_ok s T) k;
  tx_tree : tree_ok s T (txn t);
  tx_cache : lru_all (λ _, go_bytes) (codeCache t);
}.

Definition codes_ok t : Prop := ∀ a o, objs (txn t) !! a = Some o → go_bytes (o_Code o).

Lemma current_code_of a t : codes_ok t → go_bytes (o_Code (default newStateObject (getStateObject a t))).
Proof.
  intros Hc. unfold getStateObject. destruct (objs (txn t) !! a) as [ob|] eqn:E.
  - destruct (o_Deleted ob); simpl; [apply go_bytes_nil|by apply (Hc a)].
  - destruct (snap_accounts (snapshot t) !! a); apply go_bytes_nil.
Qed.

Lemma codes_set_object a o t : codes_ok t → go_bytes (o_Code o) → codes_ok (set_object a o t).
Proof.
  intros Hc Ho b ob. simpl. destruct (decide (a = b)) as [->|].
  - rewrite lookup_insert_eq. by intros [= <-].
  - rewrite lookup_insert_ne by done. apply Hc.
Qed.

Section txn_ok.
Context s (S0 : list (radix (RT:=RT))) (T : Z).

Lemma ok_object a o t :
  txn_ok s S0 T t → o_Deleted o = false → go_bytes (o_Code o) →
  tot t - GetBalance a t + Z.abs (acc_Balance (o_Account o)) ≤ T → txn_ok s S0 T (set_object a o t).
Proof.
  intros [Hs Hk [Ht Hc Hrf] Hl] Hd Ho Hle. split; try done. split.
  - pose proof (total_set_object a o t Hd) as Hto. rewrite Hs in Hto. unfold tot in Hle. rewrite Hs in Hle.
    lia.
  - by apply codes_set_object.
  - done.
Qed.

Lemma ok_retree t t' :
  txn_ok s S0 T t → snapshot t' = snapshot t → snapshots t' = snapshots t → codeCache t' = codeCache t →
  tree_ok s T (txn t') → txn_ok s S0 T t'.
Proof. intros [Hs Hk Ht Hl] E1 E2 E3 Ht'. split; [congruence|by rewrite E2|done|by rewrite E3]. Qed.

Lemma ok_tot t : txn_ok s S0 T t → tot t ≤ T.
Proof. intros [Hs _ [Ht _ _] _]. unfold tot. by rewrite Hs. Qed.

Lemma current_code a t : txn_ok s S0 T t → go_bytes (o_Code (default newStateObject (getStateObject a t))).
Proof.
  intros [_ _ [_ Hc _] _]. by apply current_code_of.
Qed.

Lemma ok_upsert a f t :
  txn_ok s S0 T t →
  (∀ o, o_Deleted (f o) = o_Deleted o) → (∀ o, go_bytes (o_Code o) → go_bytes (o_Code (f o))) →
  tot (upsertAccount a f t) ≤ T → txn_ok s S0 T (upsertAccount a f t).
Proof.
  intros Hok Hd Hc Ht. destruct (current_ok a t) as (Hcd & _).
  apply ok_object; [done|by rewrite Hd|by apply Hc, current_code|].
  rewrite <- tot_upsert by (by rewrite Hd). done.
Qed.

(** The changes that keep the money. *)
Lemma ok_keep a f t :
  txn_ok s S0 T t → keeps_balance f → (∀ o, go_bytes (o_Code o) → go_bytes (o_Code (f o))) →
  txn_ok s S0 T (upsertAccount a f t).
Proof.
  intros Hok Hf Hc. apply ok_upsert; [done|intros; apply Hf|done|].
  rewrite tot_upsert_keep by done. by apply ok_tot.
Qed.

Lemma ok_SetState a k v t : txn_ok s S0 T t → txn_ok s S0 T (SetState a k v t).
Proof. intros. by apply ok_keep. Qed.
Lemma ok_IncrNonce a t : txn_ok s S0 T t → txn_ok s S0 T (IncrNonce a t).
Proof. intros. by apply ok_keep. Qed.
Lemma ok_TouchAccount a t : txn_ok s S0 T t → txn_ok s S0 T (TouchAccount a t).
Proof. intros. by apply ok_keep. Qed.
Lemma ok_SetCode a c t : txn_ok s S0 T t → go_bytes c → txn_ok s S0 T (SetCode a c t).
Proof. intros. by apply ok_keep. Qed.

Lemma ok_AddBalance a x t :
  txn_ok s S0 T t → 0 ≤ x → tot t + x ≤ T → txn_ok s S0 T (AddBalance a x t).
Proof.
  intros Hok Hx Hle. pose proof (tot_AddBalance a x t Hx) as E. unfold AddBalance in *.
  apply ok_upsert; [done..|]. by rewrite E.
Qed.

Lemma ok_SubBalance a x t t' :
  txn_ok s S0 T t → 0 ≤ x → SubBalance a x t = Ok t' → txn_ok s S0 T t'.
Proof.
  intros Hok Hx Hs. pose proof (tot_SubBalance a x t t' Hx Hs). pose proof (ok_tot t Hok).
  apply SubBalance_Ok in Hs as [_ [[-> _]|[-> _]]]; [done| |done]. apply ok_upsert; [done..|lia].
Qed.

Lemma ok_CreateAccount a t : txn_ok s S0 T t → txn_ok s S0 T (CreateAccount a t).
Proof.
  intros Hok. pose proof (tot_CreateAccount a t) as Ht. pose proof (ok_tot t Hok). unfold CreateAccount in *.
  destruct (getStateObject a t) as [p|] eqn:E.
  all: match goal with |- txn_ok _ _ _ (set_objs (<[_:=?ob]> _) _) =>
         apply (ok_object a ob t); [done|done|apply go_bytes_nil|] end.
  all: unfold GetBalance; rewrite E; simpl; try lia.
  destruct (getStateObject_ok a t p E). lia.
Qed.

(** What leaves the objects alone. *)
Lemma ok_objs t t' :
  txn_ok s S0 T t → snapshot t' = snapshot t → snapshots t' = snapshots t → codeCache t' = codeCache t →
  objs (txn t') = objs (txn t) → is_u64 (default 0 (refund (txn t'))) → txn_ok s S0 T t'.
Proof.
  intros [Hs Hk [Ht Hc Hrf] Hl] E1 E2 E3 E4 E5. split; [congruence|by rewrite E2| |by rewrite E3].
  unfold total, balances in *. split; unfold total, balances; by rewrite ?E4.
Qed.

Lemma SetStorage_refund a k v cfg t :
  is_u64 (default 0 (refund (txn t))) → is_u64 (default 0 (refund (txn (SetStorage a k v cfg t).2))).
Proof. intros Hr. unfold SetStorage. repeat case_match; simpl; done || apply u64_range. Qed.

Lemma ok_SetStorage a k v cfg t : txn_ok s S0 T t → txn_ok s S0 T (SetStorage a k v cfg t).2.
Proof.
  intros Hok. destruct (SetStorage_snapshots a k v cfg t) as (E1 & E2 & E3).
  pose proof (SetStorage_refund a k v cfg t (tr_refund _ _ _ (tx_tree _ _ _ _ Hok))).
  destruct (SetStorage_tree a k v cfg t) as [E|E].
  - apply (ok_objs (SetState a k v t)); [by apply ok_SetState|done..].
  - by apply (ok_objs t).
Qed.

(** The heir gets the balance before the account loses it: in between there is
    more money than [T]. *)
Lemma ok_Selfdestruct a b t :
  txn_ok s S0 T t → txn_ok s S0 T (Suicide a (AddBalance b (GetBalance a t) t)).
Proof.
  intros Hok. pose proof (GetBalance_nonneg a t) as Hn. pose proof (ok_tot t Hok) as Hle.
  set (t1 := AddBalance b (GetBalance a t) t).
  assert (tot (Suicide a t1) ≤ T) as Ht.
  { rewrite tot_Suicide. unfold t1. rewrite tot_AddBalance, GetBalance_AddBalance by done.
    case_decide; lia. }
  assert (codes_ok t1) as Hc1.
  { apply codes_set_object; [exact (tr_code _ _ _ (tx_tree _ _ _ _ Hok))|]. by apply (current_code b t). }
  pose proof (tr_refund _ _ _ (tx_tree _ _ _ _ Hok)) as Hrf.
  unfold Suicide in *. destruct (getStateObject a t1) as [ob|] eqn:E.
  - apply (ok_retree t); try done. split; [|apply codes_set_object; [done|]|done].
    + unfold tot in Ht. simpl in *. by rewrite (tx_snap _ _ _ _ Hok) in Ht.
    + simpl. apply (current_code_of a t1) in Hc1. by rewrite E in Hc1.
  - apply (ok_retree t); try done. split; [|done..].
    unfold tot in Ht. simpl in *. by rewrite (tx_snap _ _ _ _ Hok) in Ht.
Qed.

Lemma ok_GetCode a t :
  (∀ hash c, snap_GetCode s hash = Some c → go_bytes c) →
  txn_ok s S0 T t → go_bytes (GetCode a t).1 ∧ txn_ok s S0 T (GetCode a t).2.
Proof.
  intros Hsc Hok. pose proof (current_code a t Hok) as Hcur.
  destruct Hok as [Hs Hk Ht Hl]. unfold GetCode.
  destruct (getStateObject a t) as [ob|] eqn:E; simpl in *; [|split; [apply go_bytes_nil|done]].
  destruct (o_DirtyCode ob); [done|].
  pose proof (Hl a) as Hla. pose proof (lru_all_Get _ a _ Hl) as Hg.
  destruct (lru_Get a (codeCache t)) as [[v|] c]; simpl in *; [by split; [apply Hla|]|].
  assert (go_bytes (default [] (snap_GetCode (snapshot t) (acc_CodeHash (o_Account ob))))) as Hcode.
  { rewrite Hs. destruct (snap_GetCode s _) eqn:Ec; simpl; [by eapply Hsc|apply go_bytes_nil]. }
  split; [done|]. split; try done. simpl. by apply lru_all_Add.
Qed.

(** ** Snapshots *)

Lemma ok_Snapshot t : txn_ok s S0 T t → txn_ok s (snapshots t ++ [txn t]) T (Snapshot t).2.
Proof. intros [Hs _ Ht Hl]. split; try done. exists []. by rewrite app_nil_r. Qed.
End txn_ok.

(** Going back to a snapshot taken in [t]: its tree is the one of [t]. *)
Lemma ok_Revert s S0 T t t' :
  txn_ok s S0 T t → txn_ok s (snapshots t ++ [txn t]) T t' →
  ∃ t'', RevertToSnapshot (length (snapshots t)) t' = Some t'' ∧ txn t'' = txn t ∧ txn_ok s S0 T t''.
Proof.
  intros [Hs (k & Hk & HkT) Ht Hl] [Hs' (k' & Hk' & HkT') Ht' Hl'].
  assert (snapshots t' !! length (snapshots t) = Some (txn t)) as E.
  { rewrite Hk', lookup_app_l by (rewrite length_app; simpl; lia).
    rewrite lookup_app_r, Nat.sub_diag by lia. done. }
  unfold RevertToSnapshot. rewrite E. eexists. split_and!; [done|done|]. split; try done. simpl.
  exists (k ++ txn t :: k'). rewrite Hk', Hk, <- !app_assoc. split; [done|].
  apply Forall_app. split; [done|by constructor].
Qed.

(** Keeping the snapshot instead. *)
Lemma ok_drop_snapshot s S0 T t t' :
  txn_ok s S0 T t → txn_ok s (snapshots t ++ [txn t]) T t' → txn_ok s S0 T t'.
Proof.
  intros [Hs (k & Hk & HkT) Ht Hl] [Hs' (k' & Hk' & HkT') Ht' Hl']. split; try done.
  exists (k ++ txn t :: k'). rewrite Hk', Hk, <- !app_assoc. split; [done|].
  apply Forall_app. split; [done|by constructor].
Qed.

(** ** The transition *)

(** What stays fixed while a transaction runs. *)
Record base_ok h (T : Z) : Prop := {
  bs_T : T < W;
  bs_number : 0 ≤ ctx_Number (t_ctx h) < 2 ^ 63;
  bs_timestamp : 0 ≤ ctx_Timestamp (t_ctx h) < 2 ^ 63;
  bs_gasLimit : 0 ≤ ctx_GasLimit (t_ctx h) < 2 ^ 63;
  bs_eip150 : EIP150 (t_config h) = true;
  bs_code : ∀ hash c, snap_GetCode (snapshot (t_state h)) hash = Some c → go_bytes c;
}.

(** A transition running a transaction begun in [h0]: only its state changes. *)
Record tr_ok h0 (S0 : list radix) (T : Z) h : Prop := {
  i_base : h = set_state (t_state h) h0;
  i_txn : txn_ok (snapshot (t_state h0)) S0 T (t_state h);
}.

Section calls.
Context h0 (T : Z) (Hbase : base_ok h0 T).

Lemma tr_set S0 h t :
  tr_ok h0 S0 T h → txn_ok (snapshot (t_state h0)) S0 T t → tr_ok h0 S0 T (set_state t h).
Proof. intros [-> _] Ht. by split. Qed.

Lemma tr_config S0 h : tr_ok h0 S0 T h → t_config h = t_config h0.
Proof. by intros [-> _]. Qed.

(** The contracts that can panic: the modular exponentiation, and codes with an
    instruction that can. *)
Definition may_panic_at (addr : Address) (code : bytes) : Prop := addr = 5 ∨ panicky code.

(** A call ends, gives back at most its gas, and keeps the invariant. *)
Definition call_post (S0 : list radix) (c : Contract)
    (res : outcome (ExecutionResult * Transition (RT:=RT))) : Prop :=
  match res with
  | Ret (r, h) => 0 ≤ GasLeft r ≤ c_Gas c ∧ go_bytes (ReturnValue r) ∧ tr_ok h0 S0 T h
  | Panic => may_panic_at (c_CodeAddress c) (c_Code c)
  | NoFuel => False
  end.

Definition rec_ok (D : Z) (rec : Contract → Transition → outcome (ExecutionResult * Transition)) : Prop :=
  ∀ S0 c h, tr_ok h0 S0 T h → D ≤ c_Depth c → contract_ok c → call_post S0 c (rec c h).

(** The transition keeps the promises of a host to the machine. *)
Lemma transition_host_laws D rec S0 :
  rec_ok D rec → HostLaws (H := TransitionHost rec) D (tr_ok h0 S0 T).
Proof.
  intros Hrec. split; cbn [TransitionHost h_GetBalance h_GetTxContext h_GetCode h_GetCodeSize
    h_SetStorage h_Selfdestruct h_EmitLog h_Callx].
  - intros a h [_ Hok]. pose proof (GetBalance_nonneg a (t_state h)).
    pose proof (GetBalance_le_total a (t_state h)) as Hle. pose proof (ok_tot _ _ _ _ Hok) as Ht.
    unfold tot in Ht. destruct Hbase. split; lia.
  - intros h [-> _]. cbn [set_state t_ctx]. by destruct Hbase.
  - intros a h Hi. pose proof (ok_GetCode _ _ _ a (t_state h) (bs_code _ _ Hbase) (i_txn _ _ _ _ Hi)) as [].
    destruct (GetCode a (t_state h)) as [code t]. split; [done|by apply tr_set].
  - intros a h Hi. pose proof (ok_GetCode _ _ _ a (t_state h) (bs_code _ _ Hbase) (i_txn _ _ _ _ Hi)) as [].
    unfold GetCodeSize. destruct (GetCode a (t_state h)) as [code t]. by apply tr_set.
  - intros a k v cfg h Hi. pose proof (ok_SetStorage _ _ _ a k v cfg _ (i_txn _ _ _ _ Hi)).
    destruct (SetStorage a k v cfg (t_state h)) as [st t]. by apply tr_set.
  - intros a b h Hi. unfold Selfdestruct. apply tr_set; [done|].
    apply ok_Selfdestruct. case_match; [|apply Hi].
    eapply ok_objs; [apply Hi|done..|apply u64_range].
  - intros a ts d h Hi. apply tr_set; [done|]. eapply ok_objs; [apply Hi|done..|].
    exact (tr_refund _ _ _ (tx_tree _ _ _ _ (i_txn _ _ _ _ Hi))).
  - intros c h Hi Hd Hc. pose proof (Hrec S0 c h Hi Hd Hc) as Hp. by destruct (rec c h) as [[r h']| |].
Qed.

Lemma run_post D rec S0 c h :
  rec_ok D rec → tr_ok h0 S0 T h → contract_ok c → D ≤ c_Depth c + 1 → call_post S0 c (run rec c h).
Proof.
  intros Hrec Hi Hc Hd. unfold run. destruct (CanRun c (t_config h)).
  - pose proof (Precompiled_Run_post c (t_config h) Hc) as Hp.
    destruct (Precompiled_Run c (t_config h)) as [r| |]; cbn [obind call_post]; [|by left|done].
    by destruct Hp.
  - pose proof (pool_clear c) as [Hm Hb]. destruct (pool_Get c) as [mem bm].
    assert (EIP150 (t_config h) = true) as He by (rewrite (tr_config _ _ Hi); apply Hbase).
    assert (c_Gas c < Z.of_nat (evm_fuel c)) as Hf
      by (unfold evm_fuel; destruct (ct_gas _ Hc); lia).
    pose proof (transition_host_laws D rec S0 Hrec) as Hlaws.
    pose proof (EVM_Run_post (H1 := TransitionHost rec) D (tr_ok h0 S0 T) (evm_fuel c) mem bm c
      (t_config h) h Hc Hi Hd He Hm Hb Hf) as Hr.
    destruct (EVM_Run _ _ _ _ _ _) as [[[r [mem' bm']] h']| |]; cbn [obind call_post]; [|by right|done].
    by destruct Hr as (? & _ & ? & _ & _ & ?).
Qed.

Lemma ok_transfer S0 from to amount t t' :
  txn_ok (snapshot (t_state h0)) S0 T t → (∀ v, amount = Some v → word v) →
  transfer from to amount t = Ok t' → txn_ok (snapshot (t_state h0)) S0 T t'.
Proof.
  intros Hok Hv. unfold transfer. destruct amount as [v|]; [|by intros [= <-]].
  destruct (Hv v eq_refl) as [Hv0 _].
  destruct (SubBalance from v t) as [t1|e] eqn:E; [|by destruct e]. intros [= <-].
  pose proof (tot_SubBalance _ _ _ _ Hv0 E). pose proof (ok_tot _ _ _ _ Hok).
  apply ok_AddBalance; [by eapply ok_SubBalance|done|lia].
Qed.

(** [revert] to the snapshot a call took. *)
Lemma revert_post S0 t h :
  txn_ok (snapshot (t_state h0)) S0 T t → tr_ok h0 (snapshots t ++ [txn t]) T h →
  ∃ h', revert (length (snapshots t)) h = Ret h' ∧ txn (t_state h') = txn t ∧ tr_ok h0 S0 T h'.
Proof.
  intros Ht [Hh Hok]. destruct (ok_Revert _ _ _ _ _ Ht Hok) as (t' & E & Etx & Hok').
  unfold revert. rewrite E. eexists. split_and!; [done|done|]. split; [by rewrite Hh|done].
Qed.

Lemma tr_drop S0 t h :
  txn_ok (snapshot (t_state h0)) S0 T t → tr_ok h0 (snapshots t ++ [txn t]) T h → tr_ok h0 S0 T h.
Proof. intros Ht [Hh Hok]. split; [done|]. by eapply ok_drop_snapshot. Qed.

(** The only transfers refused are those above the caller's balance. *)
Lemma transfer_Err from to amount t e :
  (∀ v, amount = Some v → word v) → transfer from to amount t = Err e →
  ∃ v, amount = Some v ∧ GetBalance from t < v.
Proof.
  intros Hv. unfold transfer. destruct amount as [v|]; [|done]. intros Ht. exists v. split; [done|].
  unfold SubBalance in Ht. rewrite sgn_eqb_0 in Ht. destruct (Hv v eq_refl) as [Hv0 _].
  destruct (Z.eqb_spec v 0); [done|]. by destruct (Z.ltb_spec (GetBalance from t) v).
Qed.

Lemma GetBalance_keep a b f t :
  keeps_balance f → GetBalance b (upsertAccount a f t) = GetBalance b t.
Proof.
  intros Hf. destruct (current_ok a t) as (Hd & Hb & _). destruct (Hf (default newStateObject (getStateObject a t))) as [Hfd Hfb].
  rewrite GetBalance_upsert by congruence. case_decide; [|done]. subst. rewrite Hfb, Hb.
  pose proof (GetBalance_nonneg a t). lia.
Qed.

(** A call that fails leaves no trace in the state, unless the caller could not
    pay. *)
Definition fails_clean (c : Contract) h (res : outcome (ExecutionResult * Transition (RT:=RT))) : Prop :=
  match res with
  | Ret (r, h') => Failed r = true →
      txn (t_state h') = txn (t_state h) ∨
      ∃ v, c_Value c = Some v ∧ GetBalance (c_Caller c) (t_state h) < v
  | _ => True
  end.

Lemma applyCall_post D rec S0 c ty h :
  rec_ok D rec → tr_ok h0 S0 T h → contract_ok c → D ≤ c_Depth c + 1 →
  call_post S0 c (applyCall rec c ty h) ∧ fails_clean c h (applyCall rec c ty h).
Proof.
  intros Hrec Hi Hc Hd. unfold applyCall. pose proof (ct_gas _ Hc) as [Hg _].
  destruct (c_Depth c >? maxDepth).
  { split; [|by left]. cbn. split_and!; [lia|lia|apply go_bytes_nil|done]. }
  pose proof (i_txn _ _ _ _ Hi) as Ht. pose proof (ok_Snapshot _ _ _ _ Ht) as Hs.
  change (Snapshot (t_state h)) with (length (snapshots (t_state h)), (Snapshot (t_state h)).2).
  set (t1 := (Snapshot (t_state h)).2) in *. cbv iota beta.
  pose proof (ok_TouchAccount _ _ _ (c_Address c) _ Hs) as Htouch.
  set (t2 := TouchAccount (c_Address c) t1) in *.
  assert (GetBalance (c_Caller c) t2 = GetBalance (c_Caller c) (t_state h)) as Hbal
    by (by apply (GetBalance_keep (c_Address c) (c_Caller c) id t1)).
  assert (∀ t, txn_ok (snapshot (t_state h0)) (snapshots (t_state h) ++ [txn (t_state h)]) T t →
    tr_ok h0 (snapshots (t_state h) ++ [txn (t_state h)]) T (set_state t h)) as Hset
    by (intros t Hok; split; [destruct Hi as [-> _]; done|done]).
  destruct (if decide (ty = CallT) then _ else _) as [t3|e] eqn:E.
  - assert (txn_ok (snapshot (t_state h0)) (snapshots (t_state h) ++ [txn (t_state h)]) T t3) as Ht3.
    { case_decide; [|by simplify_eq]. eapply ok_transfer; [exact Htouch|apply Hc|exact E]. }
    pose proof (run_post D rec _ c _ Hrec (Hset _ Ht3) Hc Hd) as Hr.
    destruct (run rec c (set_state t3 h)) as [[r h']| |]; cbn [obind]; [|done..].
    destruct Hr as (Hgas & Hb & Hi'). destruct (Failed r) eqn:EF.
    + destruct (revert_post S0 (t_state h) h' Ht Hi') as (h2 & -> & Htx & Hi2). cbn. auto.
    + split; [|simpl; congruence]. cbn. split_and!; try done; try lia. by eapply tr_drop.
  - case_decide; [|done]. destruct (transfer_Err _ _ _ _ _ (ct_value _ Hc) E) as (v & Hv & Hlt).
    split; [|intros _; right; exists v; by rewrite <- Hbal]. cbn.
    split_and!; [lia|lia|apply go_bytes_nil|]. by eapply tr_drop, Hset.
Qed.

Lemma GetBalance_CreateAccount a b t : GetBalance b (CreateAccount a t) = GetBalance b t.
Proof.
  unfold CreateAccount, GetBalance at 1.
  match goal with |- context [set_objs (<[_:=?o]> _) _] => set (ob := o) end.
  change (set_objs (<[a:=ob]> (objs (txn t))) t) with (set_object a ob t).
  destruct (decide (a = b)) as [->|].
  - rewrite getStateObject_set_eq by (unfold ob; by case_match). unfold GetBalance, ob.
    destruct (getStateObject b t) as [o|] eqn:E; [|done]. destruct (getStateObject_ok b t o E). simpl. lia.
  - by rewrite getStateObject_set_ne by done.
Qed.

(** The account of a contract about to be created. *)
Definition forced (cfg : ForksInTime) (a : Address) t : Txn :=
  if EIP158 cfg then IncrNonce a (CreateAccount a t) else t.

Lemma ok_forced s S0 cfg a t : txn_ok s S0 T t → txn_ok s S0 T (forced cfg a t).
Proof. intros. unfold forced. case_match; [|done]. by apply ok_IncrNonce, ok_CreateAccount. Qed.

Lemma GetBalance_forced cfg a b t : GetBalance b (forced cfg a t) = GetBalance b t.
Proof.
  unfold forced. case_match; [|done]. unfold IncrNonce. rewrite GetBalance_keep by done.
  apply GetBalance_CreateAccount.
Qed.

(** Storing the code of a contract that has run. *)
Definition store_code (snapshot : nat) (c : Contract) (result : ExecutionResult) h
    : outcome (ExecutionResult * Transition) :=
  if EIP158 (t_config h) && (Z.of_nat (length (ReturnValue result)) >? spuriousDragonMaxCodeSize) then
    let~ h := revert snapshot h in Ret (mkResult [] 0 0 (Some ErrMaxCodeSizeExceeded), h)
  else
    let gasCost := mul64 (Z.of_nat (length (ReturnValue result))) 200 in
    if GasLeft result <? gasCost then
      let result := mkResult [] (GasLeft result) (GasUsed result) (Some ErrCodeStoreOutOfGas) in
      if Homestead (t_config h) then
        let~ h := revert snapshot h in
        Ret (mkResult (ReturnValue result) 0 (GasUsed result) (ExecErr result), h)
      else Ret (result, h)
    else
      Ret (mkResult (ReturnValue result) (sub64 (GasLeft result) gasCost) (GasUsed result) (ExecErr result),
           set_state (SetCode (c_Address c) (ReturnValue result) (t_state h)) h).

(** A creation that fails leaves the state [t] it took its snapshot of. *)
Definition fails_to t (res : outcome (ExecutionResult * Transition (RT:=RT))) : Prop :=
  match res with
  | Ret (r, h') => Failed r = true → Homestead (t_config h0) = true → txn (t_state h') = txn t
  | _ => True
  end.

Lemma store_code_post S0 c result t h :
  txn_ok (snapshot (t_state h0)) S0 T t → tr_ok h0 (snapshots t ++ [txn t]) T h →
  gas_ok (c_Gas c) → 0 ≤ GasLeft result ≤ c_Gas c → go_bytes (ReturnValue result) → Failed result = false →
  call_post S0 c (store_code (length (snapshots t)) c result h) ∧
  fails_to t (store_code (length (snapshots t)) c result h).
Proof.
  intros Ht Hi [_ Hgc] Hg Hb Hf. unfold store_code.
  destruct (revert_post S0 t h Ht Hi) as (h2 & Hrev & Htx & Hi2). rewrite Hrev. cbn [obind].
  rewrite (tr_config _ _ Hi). destruct (EIP158 (t_config h0) && _).
  { cbn. split; [|done]. split_and!; [lia|lia|apply go_bytes_nil|done]. }
  pose proof (u64_range (Z.of_nat (length (ReturnValue result)) * 200)) as Hu.
  fold (mul64 (Z.of_nat (length (ReturnValue result))) 200) in Hu.
  set (cost := mul64 _ _) in *. destruct (Z.ltb_spec (GasLeft result) cost).
  - destruct (Homestead (t_config h0)) eqn:Eh; cbn.
    + split; [|done]. split_and!; [lia|lia|apply go_bytes_nil|done].
    + split; [|congruence]. split_and!; [lia|lia|apply go_bytes_nil|by eapply tr_drop].
  - assert (sub64 (GasLeft result) cost = GasLeft result - cost) as ->
      by (apply sub64_ge; unfold is_u64, M64 in *; lia).
    cbn. split; [|unfold Failed, Succeeded in *; simpl; congruence].
    destruct Hu. split_and!; [lia|lia|done|]. apply tr_set; [by eapply tr_drop|].
    apply ok_SetCode; [|done]. eapply ok_drop_snapshot; [exact Ht|apply Hi].
Qed.

Lemma applyCreate_eq rec c h :
  applyCreate rec c h =
  if c_Depth c >? maxDepth then Ret (mkResult [] (c_Gas c) 0 (Some ErrDepth), h)
  else
    let t := IncrNonce (c_Caller c) (t_state h) in
    if hasCodeOrNonce (c_Address c) t
    then Ret (mkResult [] 0 0 (Some ErrContractAddressCollision), set_state t h)
    else
      let t1 := forced (t_config h) (c_Address c) (Snapshot t).2 in
      match transfer (c_Caller c) (c_Address c) (c_Value c) t1 with
      | Err err => Ret (mkResult [] (c_Gas c) 0 (Some err), set_state t1 h)
      | Ok t2 =>
          let~ (result, h') := run rec c (set_state t2 h) in
          if Failed result
          then let~ h' := revert (length (snapshots t)) h' in Ret (result, h')
          else store_code (length (snapshots t)) c result h'
      end.
Proof. reflexivity. Qed.

Lemma applyCreate_post D rec S0 c h :
  rec_ok D rec → tr_ok h0 S0 T h → contract_ok c → D ≤ c_Depth c + 1 →
  call_post S0 c (applyCreate rec c h) ∧
  (c_Depth c ≤ maxDepth →
   (∀ v, c_Value c = Some v → v ≤ GetBalance (c_Caller c) (t_state h)) →
   fails_to (IncrNonce (c_Caller c) (t_state h)) (applyCreate rec c h)).
Proof.
  intros Hrec Hi Hc Hd. rewrite applyCreate_eq. pose proof (ct_gas _ Hc) as Hgok.
  pose proof Hgok as [Hg _]. rewrite Z.gtb_ltb. destruct (Z.ltb_spec maxDepth (c_Depth c)).
  { split; [|lia]. cbn. split_and!; [lia|lia|apply go_bytes_nil|done]. }
  pose proof (ok_IncrNonce _ _ _ (c_Caller c) _ (i_txn _ _ _ _ Hi)) as Ht.
  set (t := IncrNonce (c_Caller c) (t_state h)) in *. cbv zeta.
  destruct (hasCodeOrNonce (c_Address c) t).
  { split; [|done]. cbn. split_and!; [lia|lia|apply go_bytes_nil|by apply tr_set]. }
  pose proof (ok_forced _ _ (t_config h) (c_Address c) _ (ok_Snapshot _ _ _ _ Ht)) as Ht1.
  set (t1 := forced _ _ _) in *.
  assert (∀ t', txn_ok (snapshot (t_state h0)) (snapshots t ++ [txn t]) T t' →
    tr_ok h0 (snapshots t ++ [txn t]) T (set_state t' h)) as Hset
    by (intros t' Hok; split; [destruct Hi as [-> _]; done|done]).
  destruct (transfer _ _ _ t1) as [t2|e] eqn:E.
  - pose proof (ok_transfer _ _ _ _ _ _ Ht1 (ct_value _ Hc) E) as Ht2.
    pose proof (run_post D rec _ c _ Hrec (Hset _ Ht2) Hc Hd) as Hr.
    destruct (run rec c (set_state t2 h)) as [[r h']| |]; cbn [obind]; [|done..].
    destruct Hr as (Hgas & Hb & Hi'). destruct (Failed r) eqn:EF.
    + destruct (revert_post S0 t h' Ht Hi') as (h2 & -> & Htx & Hi2). cbn. auto.
    + destruct (store_code_post S0 c r t h' Ht Hi' Hgok Hgas Hb EF). auto.
  - destruct (transfer_Err _ _ _ _ _ (ct_value _ Hc) E) as (v & Hv & Hlt).
    split; [|intros _ Hpay; exfalso; specialize (Hpay v Hv)].
    + cbn. split_and!; [lia|lia|apply go_bytes_nil|]. by eapply tr_drop, Hset.
    + unfold t1 in Hlt. rewrite GetBalance_forced in Hlt.
      change (GetBalance (c_Caller c) (Snapshot t).2) with (GetBalance (c_Caller c) t) in Hlt.
      unfold t, IncrNonce in Hlt. rewrite GetBalance_keep in Hlt by done. lia.
Qed.

(** ** Every depth *)

(** With fuel [n], calls from depth [1027 - n] on end. *)
Lemma Callx_ok n : rec_ok (1027 - Z.of_nat (S n)) (Callx (S n)).
Proof.
  induction n as [|n IH]; intros S0 c h Hi Hd Hc; cbn [Callx].
  - assert (maxDepth < c_Depth c) as Hdeep by (unfold maxDepth; lia).
    pose proof (ct_gas _ Hc) as [Hg _].
    case_decide; unfold applyCreate, applyCall; rewrite Z.gtb_ltb, (proj2 (Z.ltb_lt _ _)) by done; cbn;
      split_and!; try lia; try apply go_bytes_nil; done.
  - case_decide.
    + by apply (applyCreate_post _ _ S0 c h IH); [..|lia].
    + by apply (applyCall_post _ _ S0 c (c_Type c) h IH); [..|lia].
Qed.
End calls.
End inv.
