(* ===== verification/ExecutorSpec.v ===== *)
(** What applying a transaction does: it ends, its gas adds up, it creates no
    money, and a transaction that fails or is refused leaves no other trace. *)
From S2P Require Import Prelude Types Runtime Crypto EvmState EvmInstr EvmRun EvmWord EvmMemory EvmLogic EvmSafe EvmMeta TxAccount Intrinsic StateTxn StateTxnSpec Bloom Blake2f Precompiled Signer Executor ExecutorInv.

Section spec.
Context `{External} `{Secp256k1} `{PrecompiledLaws} `{GoRuntime} `{MachinePoolLaws} `{LRULaws}
  `{FinMap Z RT}.
Implicit Types (t : Txn (RT:=RT)) (h : Transition (RT:=RT)).

(** A transition between two transactions. *)
Record ready h : Prop := {
  rd_total : tot (t_state h) < W;
  rd_codes : codes_ok (t_state h);
  rd_refund : is_u64 (default 0 (refund (txn (t_state h))));
  rd_cache : lru_all (λ _, go_bytes) (codeCache (t_state h));
  rd_committed : ∀ hash c, snap_GetCode (snapshot (t_state h)) hash = Some c → go_bytes c;
  rd_number : 0 ≤ ctx_Number (t_ctx h) < 2 ^ 63;
  rd_timestamp : 0 ≤ ctx_Timestamp (t_ctx h) < 2 ^ 63;
  rd_gasLimit : 0 ≤ ctx_GasLimit (t_ctx h) < 2 ^ 63;
  rd_eip150 : EIP150 (t_config h) = true;
  rd_gasPool : gas_ok (t_gasPool h);
}.

(** A transaction as the network decodes it. *)
Record msg_ok (msg : Transaction) : Prop := {
  mg_price : 0 ≤ tx_GasPrice msg;
  mg_value : 0 ≤ tx_Value msg;
  mg_gas : gas_ok (tx_Gas msg);
  mg_input : go_bytes (tx_Input msg);
}.

(** ** The call *)

Definition begun (msg : Transaction) h : Transition := set_ctx (tx_ctx msg (t_ctx h)) h.

(** The contract a transaction calls or creates, and the code it runs, when its
    gas is paid. *)
Definition call_address (msg : Transaction) : Address :=
  default (CreateAddress (tx_From msg) (tx_Nonce msg)) (tx_To msg).
Definition paid_code (msg : Transaction) t : bytes :=
  match tx_To msg with
  | None => tx_Input msg
  | Some to => (GetCode to (IncrNonce (tx_From msg) t)).1
  end.

Lemma execute_post S0 T msg gasLeft h :
  base_ok h T → txn_ok (snapshot (t_state h)) S0 T (t_state h) → msg_ok msg →
  tx_Value msg ≤ GetBalance (tx_From msg) (t_state h) → 0 ≤ gasLeft ≤ tx_Gas msg →
  GetNonce (tx_From msg) (t_state h) = tx_Nonce msg →
  match execute msg gasLeft h with
  | Ret (r, h') =>
      0 ≤ GasLeft r ≤ gasLeft ∧ tr_ok (begun msg h) S0 T h' ∧
      (Failed r = true → Homestead (t_config h) = true →
       txn (t_state h') = txn (IncrNonce (tx_From msg) (t_state h)))
  | Panic => may_panic_at (call_address msg) (paid_code msg (t_state h))
  | NoFuel => False
  end.
Proof.
  intros Hb Ht Hm Hv Hg Hn. unfold execute, call_address, paid_code. fold (begun msg h). set (h0 := begun msg h).
  assert (base_ok h0 T) as Hb0 by (by destruct Hb).
  assert (word (tx_Value msg)) as Hword.
  { pose proof (GetBalance_le_total (tx_From msg) (t_state h)). pose proof (ok_tot _ _ _ _ Ht) as Htot.
    unfold tot in Htot. destruct Hb, Hm. split; lia. }
  pose proof (mg_gas _ Hm) as [? ?].
  destruct (tx_To msg) as [to|].
  - pose proof (ok_IncrNonce _ _ _ (tx_From msg) _ Ht) as Hi.
    unfold Call2. change (t_state h0) with (t_state h).
    set (t1 := IncrNonce (tx_From msg) (t_state h)) in *.
    change (t_state (set_state t1 h0)) with t1.
    destruct (ok_GetCode _ _ _ to t1 (bs_code _ _ Hb) Hi) as [Hcode Ht2].
    pose proof (GetCode_tree to t1) as (Esn & _ & Etx).
    destruct (GetCode to t1) as [code t2]. cbn [fst snd default] in *.
    match goal with |- context [applyCall _ ?c _ ?h2] => set (ct := c); set (h2' := h2) end.
    assert (contract_ok ct) as Hct.
    { split; simpl; [done|apply Hm|split; lia|by intros ? [= <-]]. }
    assert (tr_ok h0 S0 T h2') as Hi2 by (by split).
    destruct (applyCall_post h0 T Hb0 _ _ S0 ct CallT h2' (Callx_ok h0 T Hb0 1025) Hi2 Hct) as [Hp Hf];
      [done|]. change (S 1025) with callDepth in *.
    destruct (applyCall (Callx callDepth) ct CallT h2') as [[r h']| |]; [|exact Hp|done].
    destruct Hp as (Hgas & _ & Hi'). split_and!; [apply Hgas|apply Hgas|done|]. intros HF _.
    destruct (Hf HF) as [E|(v & [= <-] & Hlt)]; [by rewrite E|]. exfalso.
    assert (GetBalance (tx_From msg) t2 = GetBalance (tx_From msg) t1) as E
      by (unfold GetBalance, getStateObject; by rewrite Esn, Etx).
    simpl in Hlt. rewrite E in Hlt. unfold t1, IncrNonce in Hlt. rewrite GetBalance_keep in Hlt by done. lia.
  - unfold Create2. change (t_state h0) with (t_state h). rewrite Hn. cbn [default from_option].
    generalize (CreateAddress (tx_From msg) (tx_Nonce msg)). intros addr. match goal with |- context [applyCreate _ ?c _] => set (ct := c) end.
    assert (contract_ok ct) as Hct.
    { split; simpl; [apply Hm|apply go_bytes_nil|split; lia|by intros ? [= <-]]. }
    assert (tr_ok h0 S0 T h0) as Hi by (split; [by destruct h|done]).
    destruct (applyCreate_post h0 T Hb0 _ _ S0 ct h0 (Callx_ok h0 T Hb0 1025) Hi Hct) as [Hp Hf];
      [done|]. change (S 1025) with callDepth in *.
    specialize (Hf ltac:(done) ltac:(intros ? [= <-]; exact Hv)).
    destruct (applyCreate (Callx callDepth) ct h0) as [[r h']| |]; [|exact Hp|done].
    destruct Hp as (Hgas & _ & Hi'). split_and!; [apply Hgas|apply Hgas|done|exact Hf].
Qed.

(** ** Settling *)

Lemma UpdateGasUsed_adds_up gas refund r :
  gas_ok gas → 0 ≤ GasLeft r ≤ gas → 0 ≤ refund →
  let r' := UpdateGasUsed gas refund r in
  GasLeft r' + GasUsed r' = gas ∧ GasLeft r ≤ GasLeft r' ∧ gas - GasLeft r ≤ 2 * GasUsed r' ∧
  0 ≤ GasUsed r' ∧ ExecErr r' = ExecErr r.
Proof.
  intros [? ?] Hl Hr. unfold UpdateGasUsed. cbn.
  rewrite (sub64_ge gas) by (unfold is_u64, M64; lia).
  set (used := gas - GasLeft r). pose proof (Z.mul_div_le used 2 ltac:(lia)).
  pose proof (Z.div_pos used 2 ltac:(lia) ltac:(lia)). rewrite Z.gtb_ltb.
  set (rf := if used / 2 <? refund then used / 2 else refund).
  assert (0 ≤ rf ≤ used / 2) by (unfold rf; destruct (Z.ltb_spec (used / 2) refund); lia).
  rewrite sub64_ge by (unfold is_u64, M64; lia).
  unfold add64. rewrite u64_small by (unfold is_u64, M64; lia). split_and!; try done; lia.
Qed.

(** What a transaction does not change of a transition. *)
Record same_env h h' : Prop := {
  se_config : t_config h' = t_config h;
  se_number : ctx_Number (t_ctx h') = ctx_Number (t_ctx h);
  se_timestamp : ctx_Timestamp (t_ctx h') = ctx_Timestamp (t_ctx h);
  se_gasLimit : ctx_GasLimit (t_ctx h') = ctx_GasLimit (t_ctx h);
  se_coinbase : ctx_Coinbase (t_ctx h') = ctx_Coinbase (t_ctx h);
  se_chain : ctx_ChainID (t_ctx h') = ctx_ChainID (t_ctx h);
  se_receipts : t_receipts h' = t_receipts h;
  se_totalGas : t_totalGas h' = t_totalGas h;
}.

Lemma ready_txn h :
  ready h → txn_ok (snapshot (t_state h)) (snapshots (t_state h)) (tot (t_state h)) (t_state h).
Proof. intros []. split; [done|by exists []; rewrite app_nil_r|by split|done]. Qed.

Lemma ready_of S0 T h h' :
  ready h → same_env h h' → txn_ok (snapshot (t_state h)) S0 T (t_state h') → T < W →
  gas_ok (t_gasPool h') → ready h'.
Proof.
  intros [] [] Hok HT Hg. pose proof (ok_tot _ _ _ _ Hok). destruct Hok as [Hs _ [_ Hc Hr] Hl].
  split; try congruence; try done; try lia. by rewrite Hs.
Qed.

Lemma ready_base T h : ready h → T < W → base_ok h T.
Proof. by intros []. Qed.

Lemma settle_post S0 T msg r h :
  txn_ok (snapshot (t_state h)) S0 T (t_state h) → msg_ok msg → 0 ≤ GasLeft r ≤ tx_Gas msg →
  let '(r', h') := settle msg r h in
  GasLeft r' + GasUsed r' = tx_Gas msg ∧ GasLeft r ≤ GasLeft r' ∧ 0 ≤ GasUsed r' ∧
  tx_Gas msg - GasLeft r ≤ 2 * GasUsed r' ∧ ExecErr r' = ExecErr r ∧
  h' = set_gasPool (add64 (t_gasPool h) (GasLeft r')) (set_state (t_state h') h) ∧
  tot (t_state h') = tot (t_state h) + tx_GasPrice msg * tx_Gas msg ∧
  txn_ok (snapshot (t_state h)) S0 (T + tx_GasPrice msg * tx_Gas msg) (t_state h').
Proof.
  intros Ht Hm Hg. pose proof (tr_refund _ _ _ (tx_tree _ _ _ _ Ht)) as [Hr _].
  destruct (UpdateGasUsed_adds_up (tx_Gas msg) (GetRefund (t_state h)) r (mg_gas _ Hm) Hg Hr)
    as (Hsum & Hle & Hhalf & Hu & He).
  unfold settle. cbv zeta. set (r' := UpdateGasUsed _ _ _) in *.
  pose proof (mg_price _ Hm) as Hp. set (price := tx_GasPrice msg) in *.
  assert (0 ≤ GasLeft r' * price ∧ 0 ≤ GasUsed r' * price) as [Hlp Hup] by nia.
  assert (GasLeft r' * price + GasUsed r' * price = price * tx_Gas msg) as Hsp by nia.
  assert (txn_ok (snapshot (t_state h)) S0 (T + price * tx_Gas msg) (t_state h)) as Ht'.
  { destruct Ht as [? (k & ? & Hk) [] ?]. split; try done.
    - exists k. split; [done|]. eapply Forall_impl; [exact Hk|]. intros ? []. split; try done. lia.
    - split; try done. lia. }
  pose proof (ok_tot _ _ _ _ Ht) as Htot.
  split_and!; try done; cbn [addGasPool set_gasPool set_state t_state].
  - rewrite !tot_AddBalance by done. lia.
  - apply ok_AddBalance; [apply ok_AddBalance; [done|done|lia]|done|]. rewrite tot_AddBalance by done. lia.
Qed.

(** ** Applying a transaction *)

Lemma txn_tight s S0 T t : txn_ok s S0 T t → txn_ok s (snapshots t) (tot t) t.
Proof.
  intros [Hs _ [_ Hc Hr] Hl]. split; [done|by exists []; rewrite app_nil_r| |done].
  split; [|done..]. unfold tot. by rewrite Hs.
Qed.

Lemma SubBalance_frame a x t t' :
  SubBalance a x t = Ok t' → snapshots t' = snapshots t ∧ snapshot t' = snapshot t.
Proof. unfold SubBalance. intros. by repeat case_match; simplify_eq. Qed.

Lemma GetNonce_upsert a f t :
  o_Deleted (f (default newStateObject (getStateObject a t))) = false →
  GetNonce a (upsertAccount a f t) = acc_Nonce (o_Account (f (default newStateObject (getStateObject a t)))).
Proof. intros Hd. rewrite upsertAccount_set. unfold GetNonce. by rewrite getStateObject_set_eq. Qed.

Lemma GetNonce_AddBalance a b x t : GetNonce a (AddBalance b x t) = GetNonce a t.
Proof.
  unfold AddBalance. destruct (decide (a = b)) as [->|].
  - destruct (current_ok b t) as (Hd & _ & Hn). rewrite GetNonce_upsert by done. done.
  - unfold GetNonce. by rewrite upsertAccount_set, getStateObject_set_ne.
Qed.

Lemma GetNonce_SubBalance a x t t' :
  0 ≤ x → SubBalance a x t = Ok t' → GetNonce a t' = GetNonce a t.
Proof.
  intros Hx Es. apply SubBalance_Ok in Es as [_ [[-> _]|[-> _]]]; [done| |done].
  destruct (current_ok a t) as (Hd & _ & Hn). by rewrite GetNonce_upsert by done.
Qed.

Lemma intrinsic_cost_nonneg msg hs is_ : 0 ≤ intrinsic_cost msg hs is_.
Proof.
  unfold intrinsic_cost. match goal with |- 0 ≤ _ + sumZ ?f ?l =>
    assert (0 ≤ sumZ f l) by (apply sumZ_nonneg; intros; repeat case_match; lia) end.
  destruct (IsContractCreation msg && hs); lia.
Qed.

(** The intrinsic gas of a transaction that passes the checks is paid from its
    gas. *)
Lemma gasLeft_spec msg cost hs is_ :
  msg_ok msg → TransactionGasCost msg hs is_ = Ok cost → sub64 (tx_Gas msg) cost ≤ tx_Gas msg →
  cost = intrinsic_cost msg hs is_ ∧ 0 ≤ sub64 (tx_Gas msg) cost ∧ sub64 (tx_Gas msg) cost = tx_Gas msg - cost.
Proof.
  intros Hm Hc Hle. destruct (mg_gas _ Hm) as [? ?]. destruct (mg_input _ Hm) as [_ Hlen].
  rewrite TransactionGasCost_exact in Hc by (unfold M64; lia).
  destruct (Z.ltb_spec (intrinsic_cost msg hs is_) M64); [|done]. injection Hc as <-.
  pose proof (intrinsic_cost_nonneg msg hs is_). set (c := intrinsic_cost _ _ _) in *. split; [done|].
  destruct (Z.le_gt_cases c (tx_Gas msg)).
  - rewrite sub64_ge in * by (unfold is_u64, M64 in *; lia). lia.
  - exfalso. unfold sub64, u64 in Hle.
    replace (tx_Gas msg - c) with (tx_Gas msg - c + M64 + (-1) * M64) in Hle by lia.
    rewrite Z.mod_add, Z.mod_small in Hle by (unfold M64 in *; lia). unfold M64 in *; lia.
Qed.

(** The transition [h'] of a transaction begun in [h], still running. *)
Record running h h' : Prop := {
  rn_env : same_env h h';
  rn_txn : txn_ok (snapshot (t_state h)) (snapshots (t_state h)) (tot (t_state h)) (t_state h');
}.

(** The transition after the sender has paid for the gas. *)
Definition charged msg t2 h : Transition := set_gasPool (t_gasPool h - tx_Gas msg) (set_state t2 h).

(** The checks of [apply] that a transaction has passed. *)
Record passed msg t2 (gl : Z) h : Prop := {
  pa_nonce : GetNonce (tx_From msg) (t_state h) = tx_Nonce msg;
  pa_paid : SubBalance (tx_From msg) (tx_GasPrice msg * tx_Gas msg) (t_state h) = Ok t2;
  pa_pool : tx_Gas msg ≤ t_gasPool h;
  pa_value : tx_Value msg ≤ GetBalance (tx_From msg) t2;
  pa_intrinsic : gl = tx_Gas msg - intrinsic_cost msg (Homestead (t_config h)) (Istanbul (t_config h));
  pa_left : 0 ≤ gl ≤ tx_Gas msg;
}.

(** The transactions [apply] runs: the expected nonce, gas and value paid for by
    the balance, gas within the pool, and enough of it for the intrinsic
    cost. *)
Definition accepted msg h : Prop :=
  GetNonce (tx_From msg) (t_state h) = tx_Nonce msg ∧
  tx_GasPrice msg * tx_Gas msg + tx_Value msg ≤ GetBalance (tx_From msg) (t_state h) ∧
  tx_Gas msg ≤ t_gasPool h ∧
  intrinsic_cost msg (Homestead (t_config h)) (Istanbul (t_config h)) ≤ tx_Gas msg.

Lemma passed_accepted msg t2 gl h : msg_ok msg → passed msg t2 gl h → accepted msg h.
Proof.
  intros Hm [Hn Hs Hp Hv Hi Hl]. destruct (mg_gas _ Hm). pose proof (mg_price _ Hm).
  assert (0 ≤ tx_GasPrice msg * tx_Gas msg) as Hup by nia.
  rewrite (GetBalance_SubBalance _ _ _ _ _ Hup Hs), decide_True in Hv by done.
  split_and!; [done|lia|done|lia].
Qed.

Lemma SubBalance_Err a x t e : 0 ≤ x → SubBalance a x t = Err e → GetBalance a t < x.
Proof.
  unfold SubBalance. rewrite sgn_eqb_0. intros Hx. destruct (Z.eqb_spec x 0); [done|].
  by destruct (Z.ltb_spec (GetBalance a t) x).
Qed.

(** The intrinsic cost is refused only when it is above the gas. *)
Lemma intrinsic_refused msg hs is_ :
  msg_ok msg →
  match TransactionGasCost msg hs is_ with
  | Ok cost => tx_Gas msg < sub64 (tx_Gas msg) cost
  | Err _ => True
  end → tx_Gas msg < intrinsic_cost msg hs is_.
Proof.
  intros Hm Hc. destruct (mg_gas _ Hm). destruct (mg_input _ Hm) as [_ Hlen].
  rewrite TransactionGasCost_exact in Hc by (unfold M64; lia).
  destruct (Z.ltb_spec (intrinsic_cost msg hs is_) M64); [|unfold M64 in *; lia].
  pose proof (intrinsic_cost_nonneg msg hs is_).
  destruct (Z.lt_ge_cases (tx_Gas msg) (intrinsic_cost msg hs is_)) as [|Hge]; [done|].
  rewrite sub64_ge in Hc by (unfold is_u64, M64 in *; lia). lia.
Qed.

(** Leave [apply] with an error: the check that failed is in the context. *)
#[local] Ltac refuse :=
  left; do 2 eexists; split_and!; [reflexivity|eassumption|intros (? & ? & ? & ?); lia|auto].

(** [apply] refuses the transaction, or runs its call and settles. *)
Lemma apply_cases msg h :
  ready h → msg_ok msg →
  (∃ e h', apply_ msg h = Ret (Err e, h') ∧ running h h' ∧ ¬ accepted msg h ∧
     (t_gasPool h' = t_gasPool h ∨ t_gasPool h' = t_gasPool h - tx_Gas msg ∧ 0 ≤ t_gasPool h')) ∨
  (∃ t2 gl, passed msg t2 gl h ∧
     apply_ msg h = let~ (r, h4) := execute msg gl (charged msg t2 h) in
                    let '(r', h5) := settle msg r h4 in Ret (Ok r', h5)).
Proof.
  intros Hr Hm. pose proof (ready_txn h Hr) as Ht. unfold apply_.
  assert (running h h) as Hrun by (by split).
  pose proof (mg_price _ Hm) as Hp. pose proof (mg_value _ Hm). destruct (mg_gas _ Hm) as [Hg0 Hg1].
  assert (0 ≤ tx_GasPrice msg * tx_Gas msg) as Hup by nia.
  destruct (nonceCheck msg h) eqn:En; cbn [negb]; unfold nonceCheck in En; bool_props.
  2:{ refuse. }
  unfold subGasLimitPrice. destruct (SubBalance _ _ (t_state h)) as [t2|e] eqn:Es.
  2:{ pose proof (SubBalance_Err _ _ _ _ Hup Es). refuse. }
  pose proof (ok_SubBalance _ _ _ _ _ _ _ Ht Hup Es) as Ht2.
  assert (running h (set_state t2 h)) as Hrun2 by (by split).
  unfold subGasPool. cbn [set_state t_gasPool].
  destruct (Z.ltb_spec (t_gasPool h) (tx_Gas msg)) as [|Hpool]; [refuse|].
  destruct (rd_gasPool _ Hr) as [Hp0 Hp1].
  rewrite sub64_ge by (unfold is_u64, M64; lia). fold (charged msg t2 h).
  assert (running h (charged msg t2 h)) as Hrun3 by (by split).
  assert (t_gasPool (charged msg t2 h) = t_gasPool h - tx_Gas msg ∧ 0 ≤ t_gasPool (charged msg t2 h))
    as Hpool3 by (simpl; lia).
  pose proof (intrinsic_refused msg (Homestead (t_config h)) (Istanbul (t_config h)) Hm) as Hir.
  cbn [charged set_gasPool set_state t_config] in *.
  destruct (TransactionGasCost msg _ _) as [cost|e] eqn:Ec; [|specialize (Hir I); refuse].
  rewrite Z.gtb_ltb. destruct (Z.ltb_spec (tx_Gas msg) (sub64 (tx_Gas msg) cost)) as [Hlt|].
  { specialize (Hir Hlt). refuse. }
  pose proof (GetBalance_SubBalance (tx_From msg) (tx_From msg) _ _ _ Hup Es) as Hbal.
  rewrite decide_True in Hbal by done.
  destruct (Z.ltb_spec (GetBalance (tx_From msg) (t_state (charged msg t2 h))) (tx_Value msg)).
  { cbn [charged set_gasPool set_state t_state] in *. refuse. }
  destruct (gasLeft_spec msg cost _ _ Hm Ec) as (Ecost & Hgl0 & Hgl); [done|].
  right. exists t2, (sub64 (tx_Gas msg) cost). split; [|done]. split; try done. by rewrite Hgl, Ecost.
Qed.

(** What the call and the settlement of a paid transaction do. *)
Lemma paid_post msg t2 gl h :
  ready h → msg_ok msg → passed msg t2 gl h →
  match execute msg gl (charged msg t2 h) with
  | Ret (r, h4) =>
      let '(r', h5) := settle msg r h4 in
      running h h5 ∧ ExecErr r' = ExecErr r ∧
      GasLeft r' + GasUsed r' = tx_Gas msg ∧ 0 ≤ GasLeft r' ∧ 0 ≤ GasUsed r' ∧
      intrinsic_cost msg (Homestead (t_config h)) (Istanbul (t_config h)) ≤ 2 * GasUsed r' ∧
      t_gasPool h5 = t_gasPool h - GasUsed r' ∧
      snapshot (t_state h4) = snapshot t2 ∧ ctx_Coinbase (t_ctx h4) = ctx_Coinbase (t_ctx h) ∧
      (Failed r = true → Homestead (t_config h) = true →
       txn (t_state h4) = txn (IncrNonce (tx_From msg) t2))
  | Panic => may_panic_at (call_address msg) (paid_code msg t2)
  | NoFuel => False
  end.
Proof.
  intros Hr Hm [Hn Es Hpool Hval Egl Hgl]. pose proof (ready_txn h Hr) as Ht.
  destruct (mg_gas _ Hm) as [Hg0 Hg1]. destruct (rd_gasPool _ Hr) as [Hp0 Hp1].
  assert (0 ≤ tx_GasPrice msg * tx_Gas msg) as Hup by (pose proof (mg_price _ Hm); nia).
  pose proof (ok_SubBalance _ _ _ _ _ _ _ Ht Hup Es) as Ht2.
  pose proof (tot_SubBalance _ _ _ _ Hup Es) as Etot.
  destruct (SubBalance_frame _ _ _ _ Es) as [Efs Efn].
  pose proof (txn_tight _ _ _ _ Ht2) as Htight. rewrite Efs, <- Efn in Htight.
  assert (base_ok (charged msg t2 h) (tot t2)) as Hb3.
  { destruct Hr. split; try done; [lia|]. intros. eapply rd_committed0. simpl in *. by rewrite <- Efn. }
  pose proof (execute_post _ _ msg gl (charged msg t2 h) Hb3 Htight Hm Hval Hgl
    (eq_trans (GetNonce_SubBalance _ _ _ _ Hup Es) Hn)) as Hx.
  destruct (execute msg gl _) as [[r h4]| |]; [|done..]. destruct Hx as (Hg4 & [E4 Ht4] & Hfail).
  change (snapshot (t_state (begun msg (charged msg t2 h)))) with (snapshot t2) in Ht4.
  pose proof (tx_snap _ _ _ _ Ht4) as Esn4. rewrite <- Esn4 in Ht4.
  pose proof (settle_post _ _ msg r h4 Ht4 Hm ltac:(lia)) as Hst.
  destruct (settle msg r h4) as [r' h5].
  destruct Hst as (Hsum & Hleft & Hu & Hhalf & He & E5 & Etot5 & Ht5).
  split_and!; try done; try lia; [split| |].
  - rewrite E5, E4. done.
  - rewrite Esn4, Efn in Ht5. by replace (tot (t_state h)) with (tot t2 + tx_GasPrice msg * tx_Gas msg) by lia.
  - rewrite E5, E4. cbn. unfold add64. rewrite u64_small by (unfold is_u64, M64; lia). lia.
  - by rewrite E4.
Qed.

Lemma ready_Snapshot h : ready h → ready (set_state (Snapshot (t_state h)).2 h).
Proof. by intros []. Qed.

(** The code a transaction applied in [h] runs; its gas is paid after the snapshot
    of [Apply]. *)
Definition call_code msg h : bytes :=
  match SubBalance (tx_From msg) (tx_GasPrice msg * tx_Gas msg) (Snapshot (t_state h)).2 with
  | Ok t2 => paid_code msg t2
  | Err _ => []
  end.

(** How [Apply] ends. *)
Definition Apply_post msg h (res : outcome (result TransitionApplicationError ExecutionResult * Transition))
    : Prop :=
  match res with
  | Ret (Ok r, h') =>
      ready h' ∧ same_env h h' ∧ tot (t_state h') ≤ tot (t_state h) ∧
      accepted msg h ∧
      GasLeft r + GasUsed r = tx_Gas msg ∧ 0 ≤ GasLeft r ∧ 0 ≤ GasUsed r ∧
      intrinsic_cost msg (Homestead (t_config h)) (Istanbul (t_config h)) ≤ 2 * GasUsed r ∧
      t_gasPool h' = t_gasPool h - GasUsed r
  | Ret (Err _, h') =>
      ready h' ∧ same_env h h' ∧ ¬ accepted msg h ∧ txn (t_state h') = txn (t_state h) ∧
      snapshot (t_state h') = snapshot (t_state h) ∧
      (t_gasPool h' = t_gasPool h ∨ t_gasPool h' = t_gasPool h - tx_Gas msg)
  | Panic => accepted msg h ∧ may_panic_at (call_address msg) (call_code msg h)
  | NoFuel => False
  end.

Lemma Apply_spec msg h : ready h → msg_ok msg → Apply_post msg h (Apply msg h).
Proof.
  intros Hr Hm. unfold Apply.
  change (Snapshot (t_state h)) with (length (snapshots (t_state h)), (Snapshot (t_state h)).2). cbv iota beta.
  pose proof (ready_Snapshot h Hr) as Hr1. pose proof (ready_txn h Hr) as Ht.
  set (h1 := set_state _ h) in *.
  assert (∀ h', same_env h1 h' → same_env h h') as Hse by (by intros h' []).
  destruct (rd_gasPool _ Hr) as [Hp0 Hp1]. destruct (mg_gas _ Hm) as [Hg0 Hg1].
  pose proof (rd_total _ Hr) as HW.
  destruct (apply_cases msg h1 Hr1 Hm) as [(e & h' & -> & [Hse' Ht'] & Hna & Hpool)|(t2 & gl & Hpass & ->)].
  - cbn [obind]. change (tot (t_state h1)) with (tot (t_state h)) in Ht'.
    destruct (ok_Revert _ _ _ _ _ Ht Ht') as (t'' & Erev & Etx & Ht'').
    unfold revert. rewrite Erev. cbn. change (t_gasPool h1) with (t_gasPool h) in Hpool.
    assert (same_env h (set_state t'' h')) as Hse'' by (by destruct Hse').
    split_and!; [|done|exact Hna|done|apply Ht''|naive_solver].
    eapply ready_of; [exact Hr|done|exact Ht''|done|]. simpl. unfold gas_ok. lia.
  - pose proof (paid_post msg t2 gl h1 Hr1 Hm Hpass) as Hp.
    pose proof (passed_accepted _ _ _ _ Hm Hpass) as Hacc.
    destruct (execute msg gl _) as [[r h4]| |]; cbn [obind]; [| |done].
    2:{ split; [exact Hacc|]. unfold call_code.
        change (Snapshot (t_state h)).2 with (t_state h1). by rewrite (pa_paid _ _ _ _ Hpass). }
    destruct (settle msg r h4) as [r' h5]. cbn [obind].
    destruct Hp as ([Hse' Ht'] & _ & Hsum & Hl & Hu & Hi & Hpool & _).
    change (t_gasPool h1) with (t_gasPool h) in *. change (tot (t_state h1)) with (tot (t_state h)) in Ht'.
    pose proof (pa_pool _ _ _ _ Hpass) as Hpp. change (t_gasPool h1) with (t_gasPool h) in Hpp.
    cbn. split_and!; try done; [| |by eapply ok_tot].
    + eapply ready_of; [exact Hr|by apply Hse|exact Ht'|done|]. unfold gas_ok. lia.
    + by apply Hse.
Qed.

(** C8.  Applying a transaction always ends.  It is run exactly if it has the nonce
    its account expects, its sender can pay its gas and its value, its gas is
    within the block's pool and at least the intrinsic cost.  Its gas then adds
    up: what is used and what is left make the gas bought, at least half of the
    intrinsic cost is used, and exactly the gas used leaves the pool.  Only the
    modular exponentiation, or a code with one of the seven bytes of
    [may_panic], can panic. *)
Theorem Apply_ends msg h :
  ready h → msg_ok msg →
  match Apply msg h with
  | Ret (Ok r, h') =>
      accepted msg h ∧ GasLeft r + GasUsed r = tx_Gas msg ∧ 0 ≤ GasLeft r ∧
      intrinsic_cost msg (Homestead (t_config h)) (Istanbul (t_config h)) ≤ 2 * GasUsed r ∧
      t_gasPool h' = t_gasPool h - GasUsed r ∧ ready h'
  | Ret (Err _, h') => ¬ accepted msg h ∧ ready h'
  | Panic => accepted msg h ∧ may_panic_at (call_address msg) (call_code msg h)
  | NoFuel => False
  end.
Proof.
  intros Hr Hm. pose proof (Apply_spec msg h Hr Hm) as Ha.
  destruct (Apply msg h) as [[[r|e] h']| |]; [naive_solver|split; apply Ha|done|done].
Qed.

(** No transaction creates money: the sum of all balances after it, fees and
    refunds paid, is at most the sum before. *)
Theorem Apply_conserves msg h r h' :
  ready h → msg_ok msg → Apply msg h = Ret (r, h') →
  total (snapshot (t_state h')) (txn (t_state h')) ≤ total (snapshot (t_state h)) (txn (t_state h)).
Proof.
  intros Hr Hm Ea. pose proof (Apply_spec msg h Hr Hm) as Ha. rewrite Ea in Ha.
  destruct r; [apply Ha|]. destruct Ha as (_ & _ & _ & -> & -> & _). done.
Qed.

(** C38.  A refused transaction changes no account, log or refund. *)
Theorem Apply_refused_restores msg h e h' :
  ready h → msg_ok msg → Apply msg h = Ret (Err e, h') →
  txn (t_state h') = txn (t_state h) ∧ ∀ a, getStateObject a (t_state h') = getStateObject a (t_state h).
Proof.
  intros Hr Hm Ea. pose proof (Apply_spec msg h Hr Hm) as Ha. rewrite Ea in Ha.
  destruct Ha as (_ & _ & _ & Etx & Esn & _). split; [done|]. intros a. unfold getStateObject. by rewrite Etx, Esn.
Qed.

(** ** Transactions that fail *)

Lemma obs_eq t t' : snapshot t' = snapshot t → txn t' = txn t → ∀ a, getStateObject a t' = getStateObject a t.
Proof. intros E1 E2 a. unfold getStateObject. by rewrite E1, E2. Qed.

(** Paying for gas, a step of nonce, and the settlement: all that a failed
    transaction does. *)
Lemma paying_observed from cb (price gas left : Z) t t2 t4 :
  0 ≤ price → 0 ≤ left ≤ gas →
  SubBalance from (price * gas) t = Ok t2 →
  (∀ a, getStateObject a t4 = getStateObject a (IncrNonce from t2)) →
  let t5 := AddBalance cb ((gas - left) * price) (AddBalance from (left * price) t4) in
  (∀ a, a ≠ from → a ≠ cb → getStateObject a t5 = getStateObject a t) ∧
  (∀ a, GetBalance a t5 = GetBalance a t - (if decide (a = from) then price * (gas - left) else 0)
                          + (if decide (a = cb) then price * (gas - left) else 0)) ∧
  GetNonce from t5 = add64 (GetNonce from t) 1.
Proof.
  intros Hp Hl Es E4 t5. assert (0 ≤ price * gas ∧ 0 ≤ left * price ∧ 0 ≤ (gas - left) * price) as (Hpg & ? & ?)
    by nia. split_and!.
  - intros a Hf Hc. unfold t5, AddBalance. rewrite !upsertAccount_set, !getStateObject_set_ne by done.
    rewrite E4. unfold IncrNonce. rewrite upsertAccount_set, getStateObject_set_ne by done.
    apply SubBalance_Ok in Es as [_ [[-> _]|[-> _]]]; [done| |done].
    by rewrite upsertAccount_set, getStateObject_set_ne.
  - intros a. unfold t5. rewrite !GetBalance_AddBalance by done.
    assert (GetBalance a t4 = GetBalance a (IncrNonce from t2)) as -> by (unfold GetBalance; by rewrite E4).
    unfold IncrNonce. rewrite GetBalance_keep by done.
    rewrite (GetBalance_SubBalance _ _ _ _ _ Hpg Es). repeat case_decide; lia.
  - unfold t5. rewrite !GetNonce_AddBalance.
    assert (GetNonce from t4 = GetNonce from (IncrNonce from t2)) as -> by (unfold GetNonce; by rewrite E4).
    unfold IncrNonce. destruct (current_ok from t2) as (Hd & _ & Hn). rewrite GetNonce_upsert by done.
    simpl. by rewrite Hn, (GetNonce_SubBalance _ _ _ _ Hpg Es).
Qed.

End spec.
