(* ===== verification/ExecutorBlock.v ===== *)
(** Processing a block: the gas of its transactions stays within its limit, its
    receipts add up, and its money does not grow. *)
From S2P Require Import Prelude Types Runtime Crypto EvmState EvmInstr EvmRun EvmWord EvmMemory EvmLogic EvmSafe EvmMeta TxAccount Intrinsic StateTxn StateTxnSpec Bloom Blake2f Precompiled Signer Executor ExecutorInv ExecutorSpec.

Section block.
Context `{External} `{Secp256k1} `{PrecompiledLaws} `{GoRuntime} `{MachinePoolLaws} `{LRULaws}
  `{FinMap Z RT}.
Implicit Types (t : Txn (RT:=RT)) (h : Transition (RT:=RT)) (e : Executor (RT:=RT)).

(** ** Recovering the sender *)

(** A signature too long for its place in the encoding. *)
Definition oversized (tx : Transaction) : Prop :=
  (32 < length (Bytes (default 0%Z (tx_R tx))) ∨ 64 < length (Bytes (default 0%Z (tx_S tx))))%nat.

Lemma recoverSender_post hash tx v :
  match recoverSender hash tx v with Ret _ => True | Panic => oversized tx | NoFuel => False end.
Proof.
  unfold recoverSender, encodeSignature, oversized.
  destruct (negb (ValidateSignatureValues v (tx_R tx) (tx_S tx))); [done|].
  destruct (Nat.ltb_spec 32 (length (Bytes (default 0 (tx_R tx))))); [by left|].
  destruct (Nat.ltb_spec 64 (length (Bytes (default 0 (tx_S tx))))); [by right|].
  cbn [obind]. by destruct (Ecrecover _ _).
Qed.

Lemma fromOrSender_post h tx :
  match fromOrSender h tx with
  | Ret (Ok msg) => msg_ok tx → msg_ok msg
  | Ret (Err _) => True
  | Panic => oversized tx
  | NoFuel => False
  end.
Proof.
  unfold fromOrSender. destruct (tx_From tx =? ZeroAddress); [|done].
  assert (∀ s, match Sender s tx with Ret _ => True | Panic => oversized tx | NoFuel => False end) as Hs.
  { intros [|c]; cbn [Sender]; unfold EIP155Signer_Sender, FrontierSigner_Sender; cbv zeta;
      [|destruct (negb _)]; apply recoverSender_post. }
  specialize (Hs (NewSigner (t_config h) (u64 (ctx_ChainID (t_ctx h))))).
  destruct (Sender _ tx) as [[a|e]| |]; cbn [obind]; try done. by intros [].
Qed.

(** Why a transaction of a block of gas limit [L] ends its processing: its sender
    cannot be recovered or [apply] does not accept it; or the recovery or the
    contract panics. *)
Definition tx_refused (L : Z) (tx : Transaction) h : Prop :=
  (∃ err, fromOrSender h tx = Ret (Err err)) ∨
  (tx_Gas tx ≤ L ∧ ∃ msg, fromOrSender h tx = Ret (Ok msg) ∧ ¬ accepted msg h).
Definition tx_panics (tx : Transaction) h : Prop :=
  oversized tx ∨
  (∃ msg, fromOrSender h tx = Ret (Ok msg) ∧ accepted msg h ∧
          may_panic_at (call_address msg) (call_code msg h)).

(** ** One transaction of the block *)

(** The receipts so far: their cumulative gas is the sum of what came before. *)
Definition receipts_ok (receipts : list Receipt) : Prop :=
  ∀ l1 r l2, receipts = l1 ++ r :: l2 → rc_CumulativeGasUsed r = sumZ rc_GasUsed (l1 ++ [r]).

(** A block of gas limit [L] in progress. *)
Record block_inv (L : Z) h : Prop := {
  bi_ready : ready h;
  bi_gas : t_totalGas h + t_gasPool h = L;
  bi_sum : t_totalGas h = sumZ rc_GasUsed (t_receipts h);
  bi_receipts : receipts_ok (t_receipts h);
  bi_pos : 0 ≤ t_totalGas h;
}.

Lemma receipts_ok_snoc l r :
  receipts_ok l → rc_CumulativeGasUsed r = sumZ rc_GasUsed (l ++ [r]) → receipts_ok (l ++ [r]).
Proof.
  intros Hl Hr l1 x l2 E. destruct l2 as [|y l2 _] using rev_ind.
  - apply app_inj_tail in E as [<- <-]. done.
  - rewrite app_comm_cons, app_assoc in E. apply app_inj_tail in E as [-> _]. by apply (Hl l1 x l2).
Qed.

Lemma ready_Logs h : ready h → ready (set_state (Logs (t_state h)).2 h).
Proof. intros []. unfold Logs. case_match; by split. Qed.

Lemma ready_Clean h d : ready h → ready (set_state (CleanDeleteObjects d (t_state h)) h).
Proof.
  intros Hr. pose proof (rd_codes _ Hr) as Hc. pose proof (rd_total _ Hr). destruct Hr. split; try done.
  - pose proof (tot_CleanDeleteObjects d (t_state h)). simpl in *. lia.
  - intros a o. simpl. rewrite lookup_fmap. destruct (objs (txn (t_state h)) !! a) as [ob|] eqn:E; [|done].
    intros [= <-]. unfold mark_deleted. case_match; simpl; by apply (Hc a).
Qed.

(** One more receipt. *)
Lemma block_receipt L h g rc :
  ready h → t_totalGas h + g + t_gasPool h = L → 0 ≤ g → 0 ≤ t_totalGas h → L < 2 ^ 63 →
  t_totalGas h = sumZ rc_GasUsed (t_receipts h) → receipts_ok (t_receipts h) →
  rc_CumulativeGasUsed rc = t_totalGas h + g → rc_GasUsed rc = g →
  block_inv L (set_receipts (t_receipts h ++ [rc]) (set_totalGas (t_totalGas h + g) h)).
Proof.
  intros Hr Hg Hg0 Ht HL Hs Hok Ec Eg. split; simpl; [|done| | |lia].
  - by destruct Hr.
  - rewrite sumZ_app, <- Hs. simpl. lia.
  - apply receipts_ok_snoc; [done|]. rewrite sumZ_app, Ec, Hs. simpl. lia.
Qed.

(** Name the receipt the goal appends and keep only its gas. *)
#[local] Ltac name_receipt total used :=
  match goal with |- context [_ ++ [?r]] =>
    let rcpt := fresh "rcpt" in
    set (rcpt := r);
    assert (rc_CumulativeGasUsed rcpt = total) as Ecum by reflexivity;
    assert (rc_GasUsed rcpt = used) as Eused by reflexivity;
    clearbody rcpt
  end.

(** A step of the block: it ends, keeps the invariant, adds one receipt and no
    money. *)
Definition step_post (L : Z) tx h (res : outcome (result TransitionApplicationError unit * Transition)) : Prop :=
  match res with
  | Ret (Ok _, h') =>
      block_inv L h' ∧ length (t_receipts h') = S (length (t_receipts h)) ∧
      tot (t_state h') ≤ tot (t_state h)
  | Ret (Err _, _) => tx_refused L tx h
  | Panic => tx_panics tx h
  | NoFuel => False
  end.

Lemma Write_step L tx h :
  block_inv L h → L < 2 ^ 63 → msg_ok tx → tx_Gas tx ≤ L → step_post L tx h (Write tx h).
Proof.
  intros [Hr Hgas Hsum Hrc Hpos] HL Hm Hgl. unfold Write. pose proof (fromOrSender_post h tx) as Hf.
  destruct (fromOrSender h tx) as [[msg|e]| |] eqn:Ef; cbn [obind]; [|left; eauto|by left|done].
  specialize (Hf Hm). pose proof (Apply_spec msg h Hr Hf) as Ha.
  destruct (Apply msg h) as [[[r|e] h1]| |]; cbn [obind]; [| | |done].
  2:{ right. split; [done|]. exists msg. split; [done|apply Ha]. }
  2:{ right. exists msg. split; [done|apply Ha]. }
  destruct Ha as (Hr1 & Hse & Htot & _ & _ & _ & Hu & _ & Hpool).
  destruct (rd_gasPool _ Hr1) as [Hp0 _].
  pose proof (se_totalGas _ _ Hse) as Etg. pose proof (se_receipts _ _ Hse) as Erc.
  assert (add64 (t_totalGas h1) (GasUsed r) = t_totalGas h1 + GasUsed r) as Eadd.
  { apply u64_small. unfold is_u64, M64. lia. }
  pose proof (ready_Logs _ Hr1) as Hr2.
  cbn [set_totalGas t_state].
  assert (tot (Logs (t_state h1)).2 = tot (t_state h1)) as Elog by (unfold Logs; by case_match).
  destruct (Logs (t_state h1)) as [logs t2]. cbn [fst snd] in *.
  pose proof (ready_Clean _ true Hr2) as Hr3. pose proof (tot_CleanDeleteObjects true t2).
  cbn [set_state t_state] in Hr3. rewrite Eadd. name_receipt (t_totalGas h1 + GasUsed r) (GasUsed r).
  cbn [step_post]. split_and!.
  - pose proof (block_receipt L _ (GasUsed r) rcpt Hr3) as Hb.
    cbn [set_state set_totalGas t_totalGas t_gasPool t_receipts] in Hb.
    change (t_receipts (set_totalGas _ h1)) with (t_receipts h1). rewrite Etg, Erc in *.
    apply Hb; try done; lia.
  - simpl. rewrite length_app, Erc. simpl. lia.
  - simpl in *. lia.
Qed.

Lemma WriteFailedReceipt_step L tx h :
  block_inv L h → L < 2 ^ 63 → step_post L tx h (WriteFailedReceipt tx h).
Proof.
  intros [Hr Hgas Hsum Hrc Hpos] HL. unfold WriteFailedReceipt. pose proof (fromOrSender_post h tx) as Hf.
  destruct (fromOrSender h tx) as [[msg|e]| |] eqn:Ef; cbn [obind]; [|left; eauto|by left|done].
  pose proof (ready_Logs _ Hr) as Hr2.
  assert (tot (Logs (t_state h)).2 = tot (t_state h)) as Elog by (unfold Logs; by case_match).
  destruct (Logs (t_state h)) as [logs t2]. cbn [fst snd] in *. name_receipt (t_totalGas h) 0.
  cbn [step_post]. split_and!.
  - pose proof (block_receipt L _ 0 rcpt Hr2) as Hb.
    cbn [set_state set_totalGas t_totalGas t_gasPool t_receipts] in Hb. rewrite Z.add_0_r in Hb.
    apply Hb; try done; lia.
  - simpl. rewrite length_app. simpl. lia.
  - simpl in *. lia.
Qed.

(** ** The block *)

(** A transaction of a block: its gas may exceed the limit. *)
Record tx_wf (tx : Transaction) : Prop := {
  wf_price : 0 ≤ tx_GasPrice tx;
  wf_value : 0 ≤ tx_Value tx;
  wf_gas : 0 ≤ tx_Gas tx;
  wf_input : go_bytes (tx_Input tx);
}.

(** The processing from [h] stops at a transaction with [P], after those before it
    have gone through. *)
Definition stops (P : Transaction → Transition → Prop) (L : Z) (txs : list Transaction) h : Prop :=
  ∃ l tx l' h', txs = l ++ tx :: l' ∧ ProcessTransactions L l h = Ret (Ok h') ∧ P tx h'.

Lemma stops_cons P L tx txs h h1 :
  (if ExceedsBlockGasLimit tx L then WriteFailedReceipt tx h else Write tx h) = Ret (Ok tt, h1) →
  stops P L txs h1 → stops P L (tx :: txs) h.
Proof.
  intros E (l & x & l' & h' & -> & El & HP). exists (tx :: l), x, l', h'. split_and!; [done| |done].
  cbn [ProcessTransactions]. rewrite E. done.
Qed.

Lemma ProcessTransactions_spec L txs h :
  block_inv L h → L < 2 ^ 63 → Forall tx_wf txs →
  match ProcessTransactions L txs h with
  | Ret (Ok h') => block_inv L h' ∧
      length (t_receipts h') = (length (t_receipts h) + length txs)%nat ∧ tot (t_state h') ≤ tot (t_state h)
  | Ret (Err _) => stops (tx_refused L) L txs h
  | Panic => stops tx_panics L txs h
  | NoFuel => False
  end.
Proof.
  intros Hb HL Htxs. revert h Hb. induction Htxs as [|tx txs Hm _ IH]; intros h Hb; cbn [ProcessTransactions].
  { split; [done|]. simpl. lia. }
  assert (step_post L tx h (if ExceedsBlockGasLimit tx L then WriteFailedReceipt tx h else Write tx h)) as Hs.
  { destruct (ExceedsBlockGasLimit tx L) eqn:Ex; [by apply WriteFailedReceipt_step|].
    unfold ExceedsBlockGasLimit in Ex. bool_props. apply Write_step; [done|done| |].
    - destruct Hm. split; try done. split; lia.
    - lia. }
  destruct (if ExceedsBlockGasLimit tx L then _ else _) as [[[[]|e] h1]| |] eqn:E; cbn [obind];
    [|by exists [], tx, txs, h|by exists [], tx, txs, h|done].
  destruct Hs as (Hb1 & Hlen & Htot). specialize (IH h1 Hb1).
  destruct (ProcessTransactions L txs h1) as [[h2|e]| |]; [|by eapply stops_cons|by eapply stops_cons|done].
  destruct IH as (? & Hlen2 & ?). split; [done|]. rewrite Hlen2, Hlen. simpl. lia.
Qed.

(** A committed state: its money fits in a word and its code is byte strings. *)
Record committed_ok (s : readSnapshot (RT:=RT)) : Prop := {
  co_total : total s (mkRadix ∅ None None) < W;
  co_code : ∀ hash c, snap_GetCode s hash = Some c → go_bytes c;
}.

Record header_ok (hd : Header) : Prop := {
  ho_number : 0 ≤ hd_Number hd < 2 ^ 63;
  ho_timestamp : 0 ≤ hd_Timestamp hd < 2 ^ 63;
  ho_gasLimit : gas_ok (hd_GasLimit hd);
}.

Lemma BeginTxn_ok e root hd who s :
  e_NewSnapshotAt e root = Some s → committed_ok s → header_ok hd →
  EIP150 (At (e_Forks e) (hd_Number hd)) = true →
  ∃ h, BeginTxn e root hd who = Ok h ∧ block_inv (hd_GasLimit hd) h ∧
       snapshot (t_state h) = s ∧ txn (t_state h) = mkRadix ∅ None None ∧ t_receipts h = [].
Proof.
  intros Es [HW Hc] [Hn Hti [Hg0 Hg1]] He. unfold BeginTxn. rewrite Es. eexists. split; [done|].
  rewrite !s64_small by lia. cbn [ctx_GasLimit]. rewrite u64_small by (unfold is_u64, M64; lia).
  split_and!; try done. split; cbn; try done.
  - split; cbn; try done.
    + intros a o. cbn. by rewrite lookup_empty.
    + apply lru_all_New.
  - intros l1 r l2 E. by destruct l1.
Qed.

(** The block with only the transactions [l]. *)
Definition with_transactions (l : list Transaction) (b : Block) : Block :=
  mkBlock (bk_Header b) l (bk_Uncles b).

(** C1.  Processing a block ends; if it succeeds, every transaction has a receipt,
    the cumulative gas of each receipt is the sum of the gas of the receipts up
    to it, the gas used is within the limit of the block, and there is no more
    money than in the parent state.  It fails only at a transaction that is
    refused where it comes, and panics only at one whose signature is too long
    or whose contract may panic. *)
Theorem ProcessBlock_ok e root block who s :
  e_NewSnapshotAt e root = Some s → committed_ok s → header_ok (bk_Header block) →
  EIP150 (At (e_Forks e) (hd_Number (bk_Header block))) = true →
  Forall tx_wf (bk_Transactions block) →
  let L := hd_GasLimit (bk_Header block) in
  let stops_at P := ∃ l tx l' h, bk_Transactions block = l ++ tx :: l' ∧
    ProcessBlock e root (with_transactions l block) who = Ret (Ok h) ∧ P tx h in
  match ProcessBlock e root block who with
  | Ret (Ok h) =>
      length (t_receipts h) = length (bk_Transactions block) ∧ receipts_ok (t_receipts h) ∧
      0 ≤ t_totalGas h ≤ L ∧ t_totalGas h = sumZ rc_GasUsed (t_receipts h) ∧
      total (snapshot (t_state h)) (txn (t_state h)) ≤ total s (mkRadix ∅ None None)
  | Ret (Err _) => stops_at (tx_refused L)
  | Panic => stops_at tx_panics
  | NoFuel => False
  end.
Proof.
  intros Es Hs Hh He Htxs. cbv zeta. unfold ProcessBlock. cbn [with_transactions bk_Header bk_Transactions].
  destruct (BeginTxn_ok e root (bk_Header block) who s Es Hs Hh He) as (h & -> & Hb & Esn & Etx & Erc).
  destruct (ho_gasLimit _ Hh) as [_ HL].
  pose proof (ProcessTransactions_spec _ _ h Hb HL Htxs) as Hp.
  destruct (ProcessTransactions _ _ h) as [[h'|err]| |]; [|exact Hp|exact Hp|done].
  destruct Hp as ([Hr Hg Hsum Hok Hpos] & Hlen & Htot). destruct (rd_gasPool _ Hr) as [? _].
  unfold tot in Htot. rewrite Esn, Etx in Htot. rewrite Hlen, Erc. split_and!; done || lia.
Qed.
End block.
