(* ===== verification/ExecutorExample.v ===== *)
(** Concrete states: the theorems of the executor at work, and behaviours of the
    code that differ from what it says. *)
From S2P Require Import Prelude Types Runtime Crypto EvmState EvmInstr EvmRun EvmWord EvmMemory EvmLogic EvmSafe EvmMeta EvmSpec TxAccount Intrinsic StateTxn StateTxnSpec Bloom Blake2f Precompiled Signer Executor ExecutorInv ExecutorSpec ExecutorBlock.

Module ToyState.
(** A keccak that tells short strings apart; an RLP writer that keeps the length. *)
Definition ext : External := {|
  MarshalTo r := match r with NewArray l => replicate (length l) 7 | _ => [] end;
  Keccak256 b := SetBytes b + 1000;
|}.
Definition rt : GoRuntime := {| append_spare _ _ := 0%nat |}.
Definition pool : MachinePool := {| pool_Get _ := ([], []) |}.

(** One key, whose point is (1, 2), and one signature. *)
Definition sig : bytes := 27 :: be_bytes 32 (2 ^ 250) ++ be_bytes 32 (2 ^ 251).
Definition curve : Secp256k1 := {|
  PrivateKey := unit;
  PublicKey _ := (1, 2);
  RecoverCompact _ _ := Some (1, 2);
  SignCompact _ _ := Some sig;
|}.
Definition crypto : PrecompiledCrypto := {|
  Sum256 _ := zeros 32;
  ripemd160_Sum _ := zeros 20;
  G1 := unit; G2 := unit;
  G1_Unmarshal _ := None;
  G2_Unmarshal _ := None;
  G1_Add _ _ := tt;
  G1_ScalarMult _ _ := tt;
  G1_Marshal _ := zeros 64;
  PairingCheck _ _ := true;
|}.
(** A cache that forgets nothing. *)
Definition lru : LRU := {|
  cache := gmap Z;
  lru_New _ := ∅;
  lru_Get _ a c := (c !! a, c);
  lru_Add _ a v c := <[a := v]> c;
|}.
#[export] Existing Instances ext rt pool curve crypto lru.

#[export] Instance pool_laws : MachinePoolLaws.
Proof. by split. Qed.
#[export] Instance curve_laws : Secp256k1Laws.
Proof.
  assert (Forall byte_range sig) as Hb.
  { constructor; [done|]. apply Forall_app. split; apply be_bytes_range. }
  split; intros k hash s Hs; [|done]. change (Some sig = Some s) in Hs. apply (inj Some) in Hs as <-.
  split; [vm_compute; reflexivity|exact Hb].
Qed.
#[export] Instance crypto_laws : PrecompiledLaws.
Proof. split; intros; (split; [done|apply zeros_range]). Qed.
#[export] Instance lru_laws : LRULaws.
Proof.
  split; cbn.
  - intros A P a v. cbn. by rewrite lookup_empty.
  - done.
  - intros A P a v c Hc Hp a' v'. cbn. destruct (decide (a = a')) as [->|].
    + rewrite lookup_insert_eq. by intros [= <-].
    + rewrite lookup_insert_ne by done. apply Hc.
Qed.

(** ** Storage over two transactions *)

Definition forks : ForksInTime := At AllForksEnabled 0.

(** The contract 77, whose slot 1 holds 5, with two bytes of code. *)
Definition committed : readSnapshot (RT:=gmap Z) := {|
  snap_accounts := <[77 := mkAcc 1 0 9 1234]> (<[100 := mkAcc 0 1000000 emptyStateHash (Keccak256 [])]> ∅);
  snap_GetStorage a root key := if (a =? 77) && (key =? 1) && (root =? 9) then 5 else 0;
  snap_GetCode hash := if hash =? 1234 then Some [0x33; 0xFF] else None;
|}.

(** The refund counter can wrap: a transaction that sets again a slot that an
    earlier transaction of the block cleared takes 15000 from a counter at
    zero, because the slot's original value is the one before the block. *)
Theorem refund_wraps :
  let t1 := CleanDeleteObjects true (SetStorage 77 1 0 forks (newTxn committed)).2 in
  GetRefund t1 = 0 ∧ GetRefund (SetStorage 77 1 7 forks t1).2 = 2 ^ 64 - 15000.
Proof. vm_compute. done. Qed.

(** The code cache outlives the contract: after a self-destruct, an account
    created again at the address has no code, but [GetCode] returns the old
    one. *)
Theorem code_cache_is_stale :
  let t1 := (GetCode 77 (newTxn committed)).2 in
  let t2 := TouchAccount 77 (CleanDeleteObjects true (Suicide 77 t1)) in
  GetCodeHash 77 t2 = Keccak256 [] ∧ (GetCode 77 t2).1 = [0x33; 0xFF].
Proof. vm_compute. done. Qed.

(** ** Transactions *)

Definition ctx : TxContext := mkTxContext 0 0 300 10 1000 10000000 5 0.
Definition h0 : Transition (RT:=gmap Z) :=
  mkTransition forks (newTxn committed) (λ _, 0) ctx 10000000 [] 0.
Definition msg (gas : Z) (to : option Z) (value : Z) (input : bytes) : Transaction :=
  mkTransaction 0 2 gas to value input None None None 0 100.

Lemma committed_is_ok : committed_ok committed.
Proof.
  split; [by vm_compute|]. intros hash c. cbn. case_match; [|done]. intros [= <-].
  split; [by repeat constructor|done].
Qed.

Lemma h0_ready : ready h0.
Proof.
  split; cbn; try done. apply (co_code _ committed_is_ok).
Qed.

Lemma msg_is_ok gas to value input :
  gas_ok gas → 0 ≤ value → go_bytes input → msg_ok (msg gas to value input).
Proof. intros. by split. Qed.

(** A refused transaction keeps its gas out of the pool: one that cannot pay
    its intrinsic gas leaves the block with less gas, though it is not in the
    block. *)
Theorem refused_transaction_drains_pool :
  ∃ h', Apply (msg 20000 (Some 200) 1 []) h0 =
          Ret (Err (mkAppErr ErrNotEnoughIntrinsicGas false false), h') ∧
        t_gasPool h' = t_gasPool h0 - 20000.
Proof. vm_compute. eexists. split; reflexivity. Qed.
End ToyState.

Module WitnessState.
Import ToyState.

(** How a run ended. *)
Definition ended (p : result TransitionApplicationError ExecutionResult → bool)
    (res : outcome (result TransitionApplicationError ExecutionResult * Transition (RT:=gmap Z))) : bool :=
  match res with Ret (r, _) => p r | _ => false end.
Definition succeeds (r : result TransitionApplicationError ExecutionResult) : bool :=
  match r with Ok r => Succeeded r | Err _ => false end.
Definition fails (r : result TransitionApplicationError ExecutionResult) : bool :=
  match r with Ok r => Failed r | Err _ => false end.
Definition refused (r : result TransitionApplicationError ExecutionResult) : bool := negb (is_ok r).

(** A transfer of 7, a creation that hits an invalid instruction, a transaction
    without enough gas. *)
Definition transfer7 : Transaction := msg 21000 (Some 200) 7 [].
Definition badcreate : Transaction := msg 60000 None 0 [0xFE].
Definition nogas : Transaction := msg 20000 (Some 200) 1 [].

Lemma transfer7_ok : msg_ok transfer7.
Proof. apply msg_is_ok; [done|done|apply go_bytes_nil]. Qed.
Lemma badcreate_ok : msg_ok badcreate.
Proof. apply msg_is_ok; [done|done|]. split; [by repeat constructor|done]. Qed.
Lemma nogas_ok : msg_ok nogas.
Proof. apply msg_is_ok; [done|done|apply go_bytes_nil]. Qed.

Lemma Apply_ends_witness :
  match Apply transfer7 h0 with
  | Ret (Ok r, h') => GasUsed r = 21000 - GasLeft r ∧ t_gasPool h' = 10000000 - GasUsed r
  | _ => False
  end.
Proof.
  pose proof (Apply_ends transfer7 h0 h0_ready transfer7_ok) as Ha.
  assert (ended succeeds (Apply transfer7 h0) = true) as Hs by (vm_compute; reflexivity).
  destruct (Apply transfer7 h0) as [[[r|e] h']| |]; try discriminate Hs.
  destruct Ha as (_ & Hsum & _ & _ & Hp & _). split; [|exact Hp].
  change (tx_Gas transfer7) with 21000 in Hsum. lia.
Defined.

Lemma Apply_conserves_witness :
  match Apply transfer7 h0 with
  | Ret (_, h') => total (snapshot (t_state h')) (txn (t_state h')) ≤ 1000000
  | _ => False
  end.
Proof.
  pose proof (Apply_conserves transfer7 h0) as Ha.
  assert (ended succeeds (Apply transfer7 h0) = true) as Hs by (vm_compute; reflexivity).
  destruct (Apply transfer7 h0) as [[r h']| |]; try discriminate Hs.
  etransitivity; [exact (Ha r h' h0_ready transfer7_ok eq_refl)|]. apply Z.leb_le. vm_compute. reflexivity.
Defined.

Lemma Apply_refused_restores_witness :
  match Apply nogas h0 with
  | Ret (Err _, h') => txn (t_state h') = txn (t_state h0)
  | _ => False
  end.
Proof.
  pose proof (Apply_refused_restores nogas h0) as Ha.
  assert (ended refused (Apply nogas h0) = true) as Hs by (vm_compute; reflexivity).
  destruct (Apply nogas h0) as [[[r|e] h']| |]; try discriminate Hs.
  exact (proj1 (Ha e h' h0_ready nogas_ok eq_refl)).
Defined.


(** ** A block of two transactions *)

Definition executor : Executor (RT:=gmap Z) :=
  mkExecutor AllForksEnabled 5 (λ _, Some committed) (λ _ _, 0).
Definition header : Header :=
  mkHeader 0 0 [] 0 0 0 [] 1 10 10000000 0 1000 [] 0 [] 0.
Definition next7 : Transaction := mkTransaction 1 2 20000000 (Some 200) 7 [] None None None 0 100.
Definition block : Block := mkBlock header [transfer7; next7] [].

Lemma ProcessBlock_ok_witness :
  match ProcessBlock executor 0 block 300 with
  | Ret (Ok h) => length (t_receipts h) = 2%nat ∧ 0 ≤ t_totalGas h ≤ 10000000
  | _ => False
  end.
Proof.
  pose proof (ProcessBlock_ok executor 0 block 300 committed eq_refl committed_is_ok) as Hp.
  assert (match ProcessBlock executor 0 block 300 with Ret (Ok _) => true | _ => false end = true) as Hs
    by (vm_compute; reflexivity).
  destruct (ProcessBlock executor 0 block 300) as [[h|e]| |]; try discriminate Hs.
  destruct Hp as (Hl & _ & Ht & _); [by split|reflexivity| |by split].
  repeat constructor; (done || apply go_bytes_nil).
Defined.

(** ** State, contracts, signatures *)

Lemma storage_read_write_witness :
  GetState 77 1 (SetState 77 2 9 (newTxn committed)) = 5.
Proof.
  etransitivity; [exact (storage_read_write 77 2 9 77 1 (newTxn committed) eq_refl)|]. reflexivity.
Defined.

Lemma SetStorage_writes_witness :
  GetState 77 1 (SetStorage 77 1 6 forks (newTxn committed)).2 = 6.
Proof. exact (proj1 (SetStorage_writes 77 1 6 forks (newTxn committed))). Defined.


Lemma modExp_run_correct_witness :
  ∃ r, modExp_run (modExp_input [3] [5] [7]) = Ret r ∧ length r = 1%nat ∧ SetBytes r = 5.
Proof.
  apply (modExp_run_correct [3] [5] [7]); [by repeat constructor|done|done|done|naive_solver].
Defined.

(** The identity contract at the address 4. *)
Definition identity_call : Contract := mkContract [] CallT 4 4 100 100 1 (Some 0) [1; 2] 1000 false.

Lemma Precompiled_Run_gas_witness :
  match Precompiled_Run identity_call forks with
  | Ret r => GasLeft r = 1000 - 18
  | _ => False
  end.
Proof.
  pose proof (Precompiled_Run_gas identity_call forks) as Hp.
  assert (match Precompiled_Run identity_call forks with Ret r => Succeeded r | _ => false end = true) as Hs
    by (vm_compute; reflexivity).
  destruct (Precompiled_Run identity_call forks) as [r| |]; try discriminate Hs.
  rewrite Hs in Hp. etransitivity; [apply Hp|reflexivity].
  split; [apply go_bytes_nil|split; [by repeat constructor|done]|done|by intros ? [= <-]].
Defined.

Definition key : @PrivateKey curve := tt.

Lemma Sender_SignTx_witness :
  ∃ tx', SignTx (EIP155Signer 5) transfer7 key = Ok tx' ∧
         Sender (EIP155Signer 5) tx' = Ret (Ok (PubKeyToAddress (1, 2))).
Proof.
  apply (Sender_SignTx (EIP155Signer 5) transfer7 key sig); [by intros ? [= <-]|reflexivity|].
  exists 0. split; [by left|]. split; [reflexivity|]. vm_compute. reflexivity.
Defined.

Lemma Sender_malleable_witness :
  Sender (EIP155Signer 128) (set_VRS (300 + 256) 1 1 transfer7) =
  Sender (EIP155Signer 128) (set_VRS 300 1 1 transfer7).
Proof. apply (Sender_malleable 128 transfer7 300 1 1). done. Defined.
End WitnessState.
