(* ===== verification/Text.v ===== *)
(** Text forms: [helper/hex], the text methods of [types/types.go] and
    [types/encoding.go].

    A Go string is the list of its bytes; [str] writes a literal.  What the code
    uses of [encoding/hex], [strconv], [strings] and [math/big] is defined here
    too: a decoder gives back what it read and whether it read all of it, as
    [hex.DecodeString] does. *)
From stdpp Require Import strings.
From S2P Require Import Prelude Types Runtime.

Definition str (s : string) : bytes := Z.of_N ∘ Ascii.N_of_ascii <$> String.list_ascii_of_string s.

(** ** Standard library *)

Definition hexDigit (d : Z) : Z := if d <? 10 then 48 + d else 87 + d.

Definition fromHexChar (c : Z) : option Z :=
  if (48 <=? c) && (c <=? 57) then Some (c - 48)
  else if (97 <=? c) && (c <=? 102) then Some (c - 97 + 10)
  else if (65 <=? c) && (c <=? 70) then Some (c - 65 + 10)
  else None.

Definition EncodeToString (b : bytes) : bytes := b ≫= λ d, [hexDigit (d / 16); hexDigit (d mod 16)].

(** The bytes decoded before the first error, and whether there was none. *)
Fixpoint hex_DecodeString (s : bytes) : bytes * bool :=
  match s with
  | [] => ([], true)
  | [_] => ([], false)
  | c :: d :: s =>
      match fromHexChar c, fromHexChar d with
      | Some x, Some y => let '(b, ok) := hex_DecodeString s in (x * 16 + y :: b, ok)
      | _, _ => ([], false)
      end
  end.

Definition whole (r : bytes * bool) : option bytes := if r.2 then Some r.1 else None.

Fixpoint HasPrefix (s p : bytes) {struct p} : bool :=
  match p, s with
  | [], _ => true
  | x :: p, y :: s => (x =? y) && HasPrefix s p
  | _ :: _, [] => false
  end.

Definition TrimPrefix (s p : bytes) : bytes := if HasPrefix s p then drop (length p) s else s.

(** [strings.Split] at one byte. *)
Fixpoint Split (s : bytes) (sep : Z) : list bytes :=
  match s with
  | [] => [[]]
  | c :: s =>
      if c =? sep then [] :: Split s sep
      else match Split s sep with [] => [[c]] | w :: ws => (c :: w) :: ws end
  end.

(** The digits of a number, most significant first. *)
Fixpoint digits (fuel : nat) (base n : Z) : list Z :=
  match fuel with
  | O => []
  | S fuel => if n <? base then [n] else digits fuel base (n / base) ++ [n mod base]
  end.

(** [strconv.AppendUint] and [big.Int.Text], of a number that is not negative. *)
Definition FormatUint (n base : Z) : bytes := hexDigit <$> digits (S (Z.to_nat (Z.log2 n))) base n.

Definition big_Text (z base : Z) : bytes :=
  if z <? 0 then 45 :: FormatUint (- z) base else FormatUint z base.

Definition parse_digit (base : Z) (acc : option Z) (c : Z) : option Z :=
  n ← acc; d ← fromHexChar c; if d <? base then Some (n * base + d) else None.

Definition parse_digits (s : bytes) (base : Z) : option Z :=
  match s with [] => None | _ => foldl (parse_digit base) (Some 0) s end.

(** [strconv.ParseUint(s, base, 64)]. *)
Definition ParseUint (s : bytes) (base : Z) : option Z :=
  n ← parse_digits s base; if n <? M64 then Some n else None.

(** [big.Int.SetString] in base 10 or 16: a sign may come first. *)
Definition big_SetString (s : bytes) (base : Z) : option Z :=
  match s with
  | 45 :: s => Z.opp <$> parse_digits s base
  | 43 :: s => parse_digits s base
  | _ => parse_digits s base
  end.

Definition unicode_ToUpper (c : Z) : Z := if (97 <=? c) && (c <=? 122) then c - 32 else c.

(** ** [helper/hex] *)

Definition EncodeToHex (b : bytes) : bytes := str "0x" ++ EncodeToString b.
Definition DecodeHex (s : bytes) : option bytes := whole (hex_DecodeString (TrimPrefix s (str "0x"))).
Definition MustDecodeHex (s : bytes) : outcome bytes :=
  match DecodeHex s with Some b => Ret b | None => Panic end.
Definition hex_EncodeUint64 (i : Z) : bytes := str "0x" ++ FormatUint i 16.
Definition DecodeUint64 (s : bytes) : option Z := ParseUint (TrimPrefix s (str "0x")) 16.

Definition BadNibble : Z := M64 - 1.
Definition DecodeNibble (c : Z) : Z :=
  if (48 <=? c) && (c <=? 57) then c - 48
  else if (65 <=? c) && (c <=? 70) then c - 65 + 10
  else if (97 <=? c) && (c <=? 102) then c - 97 + 10
  else BadNibble.

(** The format [%#x] puts the sign before the prefix. *)
Definition EncodeBig (z : Z) : bytes :=
  if BitLen z =? 0 then str "0x0"
  else if z <? 0 then 45 :: str "0x" ++ FormatUint (- z) 16
  else str "0x" ++ FormatUint z 16.

Definition DropHexPrefix (input : bytes) : outcome bytes :=
  if (length input <? 2)%nat then Panic else Ret (drop 2 input).

(** ** [types/encoding.go] *)

Definition ParseUint64orHex (val : option bytes) : option Z :=
  match val with
  | None => Some 0
  | Some s => if HasPrefix s (str "0x") then ParseUint (drop 2 s) 16 else ParseUint s 10
  end.

Definition ParseUint256orHex (val : option bytes) : option (option Z) :=
  match val with
  | None => Some None
  | Some s => Some <$> (if HasPrefix s (str "0x") then big_SetString (drop 2 s) 16 else big_SetString s 10)
  end.

Definition ParseInt64orHex (val : option bytes) : option Z := s64 <$> ParseUint64orHex val.

Definition ParseBytes (val : option bytes) : option bytes :=
  match val with None => Some [] | Some s => whole (hex_DecodeString (TrimPrefix s (str "0x"))) end.

Definition types_EncodeUint64 (b : Z) : bytes := str "0x" ++ FormatUint b 16.
Definition EncodeBytes (b : bytes) : bytes := str "0x" ++ EncodeToString b.
Definition EncodeBigInt (z : Z) : bytes := str "0x" ++ big_Text z 16.

(** ** [types/types.go] *)

Definition hash_String (h : Hash) : bytes := EncodeToHex (HashBytes h).

(** The error of the decoder is dropped. *)
Definition stringToBytes (s : bytes) : bytes :=
  let s := TrimPrefix s (str "0x") in
  let s := if (length s mod 2 =? 1)%nat then 48 :: s else s in
  (hex_DecodeString s).1.

Definition StringToHash (s : bytes) : Hash := BytesToHash (stringToBytes s).
Definition StringToAddress (s : bytes) : Address := BytesToAddress (stringToBytes s).

Definition hash_UnmarshalText (input : bytes) : option Hash := Some (BytesToHash (stringToBytes input)).
Definition address_UnmarshalText (input : bytes) : option Address :=
  let buf := stringToBytes input in
  if negb (length buf =? AddressLength)%nat then None else Some (BytesToAddress buf).

Section checksum.
Context `{External}.

Definition checksumEncode (a : Address) : bytes :=
  let lowercaseHex := drop 2 (EncodeToHex (AddressBytes a)) in
  let hashedAddress := drop 2 (EncodeToHex (HashBytes (Keccak256 lowercaseHex))) in
  str "0x" ++ zip_with (λ ch h,
    if (48 <=? ch) && (ch <=? 57) || (48 <=? h) && (h <=? 55) then ch else unicode_ToUpper ch)
    lowercaseHex hashedAddress.
End checksum.

(** ** Digits *)

Lemma fromHexChar_hexDigit d : 0 ≤ d < 16 → fromHexChar (hexDigit d) = Some d.
Proof.
  intros Hd. unfold hexDigit. destruct (Z.ltb_spec d 10); unfold fromHexChar;
    repeat (case_match; [f_equal; lia|]); exfalso; lia.
Qed.

Lemma fromHexChar_upper d : 0 ≤ d < 16 → fromHexChar (unicode_ToUpper (hexDigit d)) = Some d.
Proof.
  intros Hd. unfold hexDigit. destruct (Z.ltb_spec d 10); unfold unicode_ToUpper, fromHexChar;
    repeat case_match; try (f_equal; lia); exfalso; lia.
Qed.

Lemma digits_range fuel base n : 0 ≤ n → 0 < base → Forall (λ d, 0 ≤ d < base) (digits fuel base n).
Proof.
  intros Hn Hb. revert n Hn. induction fuel as [|fuel IH]; intros n Hn; simpl; [constructor|].
  destruct (Z.ltb_spec n base); [repeat constructor; lia|].
  apply Forall_app. split; [apply IH, Z.div_pos; lia|]. repeat constructor; apply Z.mod_pos_bound; lia.
Qed.

Lemma parse_digits_app base s c :
  s ≠ [] → parse_digits (s ++ [c]) base = parse_digit base (parse_digits s base) c.
Proof. intros Hs. destruct s as [|x s]; [done|]. simpl. by rewrite foldl_snoc. Qed.

Lemma digits_nonempty fuel base n : digits (S fuel) base n ≠ [].
Proof. simpl. case_match; [done|]. intros []%app_eq_nil. done. Qed.

Lemma parse_digits_digits fuel base n :
  2 ≤ base ≤ 16 → 0 ≤ n < base ^ Z.of_nat fuel → (0 < fuel)%nat →
  parse_digits (hexDigit <$> digits fuel base n) base = Some n.
Proof.
  intros Hb. revert n. induction fuel as [|fuel IH]; intros n Hn Hf; [lia|].
  cbn [digits]. destruct (Z.ltb_spec n base) as [Hl|Hl].
  - cbn. unfold parse_digit. cbn. rewrite fromHexChar_hexDigit by lia. cbn. rewrite (proj2 (Z.ltb_lt _ _)) by lia. f_equal; lia.
  - rewrite Nat2Z.inj_succ, Z.pow_succ_r in Hn by lia.
    destruct fuel as [|fuel]; [lia|].
    rewrite fmap_app. change (hexDigit <$> [n mod base]) with [hexDigit (n mod base)].
    rewrite parse_digits_app by (intros ?%fmap_nil_inv; by eapply digits_nonempty).
    rewrite IH; [|split; [apply Z.div_pos; lia|apply Z.div_lt_upper_bound; lia]|lia].
    pose proof (Z.mod_pos_bound n base ltac:(lia)). unfold parse_digit. cbn.
    rewrite fromHexChar_hexDigit by lia. cbn. rewrite (proj2 (Z.ltb_lt _ _)) by lia.
    f_equal. rewrite (Z.div_mod n base) at 3 by lia. lia.
Qed.

Lemma parse_FormatUint n base : 2 ≤ base ≤ 16 → 0 ≤ n → parse_digits (FormatUint n base) base = Some n.
Proof.
  intros Hb Hn. unfold FormatUint. apply parse_digits_digits; [done| |lia]. split; [done|].
  destruct (Z.eq_dec n 0) as [->|]; [simpl; lia|].
  apply Z.lt_le_trans with (2 ^ Z.succ (Z.log2 n)); [apply Z.log2_spec; lia|].
  rewrite Nat2Z.inj_succ, Z2Nat.id by apply Z.log2_nonneg. apply Z.pow_le_mono_l. lia.
Qed.

(** A printed number starts with a digit, so it has no sign. *)
Lemma FormatUint_head n base : 0 ≤ n → 2 ≤ base ≤ 16 → ∃ c s, FormatUint n base = c :: s ∧ c ≠ 45 ∧ c ≠ 43.
Proof.
  intros Hn Hb. unfold FormatUint. pose proof (digits_range (S (Z.to_nat (Z.log2 n))) base n Hn ltac:(lia)) as Hr.
  pose proof (digits_nonempty (Z.to_nat (Z.log2 n)) base n) as Hne.
  destruct (digits _ _ _) as [|d ds]; [done|]. apply Forall_cons in Hr as [Hd _].
  eexists _, _. split; [done|]. unfold hexDigit. case_match; lia.
Qed.

Lemma big_SetString_Text z base : 2 ≤ base ≤ 16 → big_SetString (big_Text z base) base = Some z.
Proof.
  intros Hb. unfold big_Text. destruct (Z.ltb_spec z 0).
  - change (Z.opp <$> parse_digits (FormatUint (- z) base) base = Some z).
    rewrite parse_FormatUint by lia. cbn. f_equal; lia.
  - pose proof (parse_FormatUint z base Hb ltac:(lia)) as Hp.
    destruct (FormatUint_head z base) as (c & s & E & H1 & H2); [done..|]. rewrite E in *. unfold big_SetString.
    destruct c as [|c|c]; try done. repeat (destruct c as [c|c|]; try done).
Qed.

(** ** Bytes *)

Lemma EncodeToString_cons d b : EncodeToString (d :: b) = hexDigit (d / 16) :: hexDigit (d mod 16) :: EncodeToString b.
Proof. done. Qed.

Lemma byte_nibbles d : byte_range d → 0 ≤ d / 16 < 16 ∧ 0 ≤ d mod 16 < 16 ∧ d / 16 * 16 + d mod 16 = d.
Proof. unfold byte_range. intros. Z.div_mod_to_equations. lia. Qed.

Lemma hex_DecodeString_Encode b : Forall byte_range b → hex_DecodeString (EncodeToString b) = (b, true).
Proof.
  induction 1 as [|d b Hd Hb IH]; [done|]. rewrite EncodeToString_cons. cbn [hex_DecodeString].
  destruct (byte_nibbles d Hd) as (H1 & H2 & H3). by rewrite !fromHexChar_hexDigit, IH, H3 by done.
Qed.

Lemma length_EncodeToString b : length (EncodeToString b) = (2 * length b)%nat.
Proof. induction b as [|d b IH]; [done|]. rewrite EncodeToString_cons. cbn [length]. lia. Qed.

Lemma TrimPrefix_app p s : TrimPrefix (p ++ s) p = s.
Proof.
  unfold TrimPrefix. assert (HasPrefix (p ++ s) p = true) as ->.
  { induction p as [|x p IH]; [done|]. simpl. by rewrite Z.eqb_refl, IH. }
  by rewrite drop_app_length.
Qed.

Lemma DecodeHex_EncodeToHex b : Forall byte_range b → DecodeHex (EncodeToHex b) = Some b.
Proof. intros. unfold DecodeHex, EncodeToHex. rewrite TrimPrefix_app, hex_DecodeString_Encode; done. Qed.

Lemma stringToBytes_even s : Nat.Even (length s) → stringToBytes (str "0x" ++ s) = (hex_DecodeString s).1.
Proof.
  intros [k Hk]. unfold stringToBytes. rewrite TrimPrefix_app. cbv zeta.
  replace (length s mod 2)%nat with 0%nat; [done|]. rewrite Hk, Nat.mul_comm. by rewrite Nat.Div0.mod_mul.
Qed.

Lemma stringToBytes_Encode b : Forall byte_range b → stringToBytes (EncodeToHex b) = b.
Proof.
  intros Hb. unfold EncodeToHex. rewrite stringToBytes_even, hex_DecodeString_Encode; [done..|].
  exists (length b). apply length_EncodeToString.
Qed.

Section address.
Context `{External}.

(** The checksum changes the case of letters only. *)
Lemma checksum_decodes b hs :
  Forall byte_range b → (2 * length b ≤ length hs)%nat →
  hex_DecodeString (zip_with (λ ch h,
    if (48 <=? ch) && (ch <=? 57) || (48 <=? h) && (h <=? 55) then ch else unicode_ToUpper ch) (EncodeToString b) hs)
  = (b, true).
Proof.
  intros Hb. revert hs. induction Hb as [|d b Hd Hb IH]; intros hs Hl; [done|].
  destruct hs as [|h1 [|h2 hs]]; simpl in Hl; [lia..|]. rewrite EncodeToString_cons. cbn [zip_with hex_DecodeString].
  destruct (byte_nibbles d Hd) as (H1 & H2 & H3).
  assert (∀ n (g : bool), 0 ≤ n < 16 → fromHexChar (if g then hexDigit n else unicode_ToUpper (hexDigit n)) = Some n) as Hc.
  { intros n [] Hn; [by apply fromHexChar_hexDigit|by apply fromHexChar_upper]. }
  rewrite !Hc by done. rewrite IH by lia. by rewrite H3.
Qed.

Lemma checksumEncode_decodes a :
  ∃ s, checksumEncode a = str "0x" ++ s ∧ length s = 40%nat ∧ hex_DecodeString s = (AddressBytes a, true).
Proof.
  unfold checksumEncode. cbv zeta. unfold EncodeToHex.
  change (drop 2 (str "0x" ++ EncodeToString (AddressBytes a))) with (EncodeToString (AddressBytes a)).
  change (drop 2 (str "0x" ++ ?s)) with s.
  assert (length (EncodeToString (AddressBytes a)) = 40%nat) as Hl.
  { rewrite length_EncodeToString. unfold AddressBytes. by rewrite length_be_bytes. }
  assert (length (EncodeToString (HashBytes (Keccak256 (EncodeToString (AddressBytes a))))) = 64%nat) as Hk.
  { rewrite length_EncodeToString. unfold HashBytes. by rewrite length_be_bytes. }
  eexists. split_and!; [done|by rewrite length_zip_with, Hl, Hk|].
  apply checksum_decodes; [apply be_bytes_range|]. rewrite Hk. unfold AddressBytes. rewrite length_be_bytes.
  unfold AddressLength. lia.
Qed.

Lemma stringToBytes_checksum a : stringToBytes (checksumEncode a) = AddressBytes a.
Proof.
  destruct (checksumEncode_decodes a) as (s & -> & Hl & Hd). rewrite stringToBytes_even, Hd; [done|]. rewrite Hl. by exists 20%nat.
Qed.

(** Text reads back as what it was written from: bytes in hexadecimal,
    [uint64] and big numbers of either sign, hashes, and addresses whatever the
    capitals their checksum gives them. *)
Theorem text_reads_back :
  (∀ b, Forall byte_range b → DecodeHex (EncodeToHex b) = Some b ∧ ParseBytes (Some (EncodeBytes b)) = Some b) ∧
  (∀ n, is_u64 n → DecodeUint64 (hex_EncodeUint64 n) = Some n ∧ ParseUint64orHex (Some (types_EncodeUint64 n)) = Some n) ∧
  (∀ z, ParseUint256orHex (Some (EncodeBigInt z)) = Some (Some z)) ∧
  (∀ h, hash_ok h → hash_UnmarshalText (hash_String h) = Some h) ∧
  (∀ a, addr_ok a → address_UnmarshalText (checksumEncode a) = Some a).
Proof.
  assert (∀ n, is_u64 n → ParseUint (FormatUint n 16) 16 = Some n) as Hu.
  { intros n [H1 H2]. unfold ParseUint. rewrite parse_FormatUint by lia. cbn. by rewrite (proj2 (Z.ltb_lt _ _)). }
  assert (∀ s, HasPrefix (str "0x" ++ s) (str "0x") = true) as Hp by done.
  split_and!.
  - intros b Hb. split; [by apply DecodeHex_EncodeToHex|by apply DecodeHex_EncodeToHex].
  - intros n Hn. split.
    + unfold DecodeUint64, hex_EncodeUint64. rewrite TrimPrefix_app. by apply Hu.
    + unfold ParseUint64orHex, types_EncodeUint64. rewrite Hp. by apply Hu.
  - intros z. unfold ParseUint256orHex, EncodeBigInt. rewrite Hp.
    change (drop 2 (str "0x" ++ big_Text z 16)) with (big_Text z 16). by rewrite big_SetString_Text.
  - intros h Hh. unfold hash_UnmarshalText, hash_String.
    rewrite stringToBytes_Encode by apply be_bytes_range. by rewrite BytesToHash_id.
  - intros a Ha. unfold address_UnmarshalText. rewrite stringToBytes_checksum. cbv zeta.
    unfold AddressBytes at 1. rewrite length_be_bytes. cbn [negb Nat.eqb]. by rewrite BytesToAddress_id.
Qed.
End address.

(** The comment of [EncodeBig] says that the sign is ignored; it is written. *)
Lemma EncodeBig_sign : EncodeBig (-1) = str "-0x1".
Proof. done. Qed.

(** What follows twenty good bytes is not looked at, and text that is not
    hexadecimal at all is the zero hash. *)
Lemma UnmarshalText_accepts_garbage :
  address_UnmarshalText (str "0x00000000000000000000000000000000000000ffzz") = Some 255 ∧
  hash_UnmarshalText (str "hello") = Some 0.
Proof. split; vm_compute; reflexivity. Qed.
