(* ===== verification/Validators.v ===== *)
(** Package [validators]: validators of the two kinds, sets of them, their RLP
    and text forms ([types.go], [ecdsa.go], [bls.go], [set.go], [helper.go]).

    The interface [Validator] is the sum of its two implementations.  No code
    writes to a validator after it is made, so a pointer to one is its value and
    [Copy] is the value itself.  A [ValidatorType] is a string, as in the code:
    a configuration can hold any. *)
From stdpp Require Import strings.
From S2P Require Import Prelude Types Runtime Crypto Rlp RlpTypes Text.

Definition ECDSAValidatorType : bytes := str "ecdsa".
Definition BLSValidatorType : bytes := str "bls".

Inductive val_err :=
| ErrInvalidValidatorType
| ErrMismatchValidatorType
| ErrMismatchValidatorsType
| ErrValidatorAlreadyExists
| ErrValidatorNotFound
| ErrInvalidBLSValidatorFormat
| ErrParseAddress
| ErrParseBLSPublicKey.

Definition ParseValidatorType (validatorType : bytes) : result val_err bytes :=
  if decide (validatorType = ECDSAValidatorType) then Ok ECDSAValidatorType
  else if decide (validatorType = BLSValidatorType) then Ok BLSValidatorType
  else Err ErrInvalidValidatorType.

(** ** Validators *)

Inductive Validator :=
| ECDSAValidator (Address : Address)
| BLSValidator (Address : Address) (BLSPublicKey : bytes).

#[export] Instance Validator_eq_dec : EqDecision Validator.
Proof. solve_decision. Defined.

#[export] Instance Validator_countable : Countable Validator.
Proof.
  refine (inj_countable'
    (λ v, match v with ECDSAValidator a => inl a | BLSValidator a k => inr (a, k) end)
    (λ v, match v with inl a => ECDSAValidator a | inr (a, k) => BLSValidator a k end) _).
  by intros [].
Defined.

Definition v_Type (v : Validator) : bytes :=
  match v with ECDSAValidator _ => ECDSAValidatorType | BLSValidator _ _ => BLSValidatorType end.

Definition v_Addr (v : Validator) : Address :=
  match v with ECDSAValidator a => a | BLSValidator a _ => a end.

Definition v_Equal (v vr : Validator) : bool :=
  match v, vr with
  | ECDSAValidator a, ECDSAValidator b => a =? b
  | BLSValidator a k, BLSValidator b l => (a =? b) && bool_decide (k = l)
  | _, _ => false
  end.

(** A zero value of the type, which a decoder then fills. *)
Definition NewValidatorFromType (t : bytes) : result val_err Validator :=
  if decide (t = ECDSAValidatorType) then Ok (ECDSAValidator ZeroAddress)
  else if decide (t = BLSValidatorType) then Ok (BLSValidator ZeroAddress [])
  else Err ErrInvalidValidatorType.

Definition v_MarshalRLPWith (v : Validator) : rlp :=
  match v with
  | ECDSAValidator a => NewBytes (AddressBytes a)
  | BLSValidator a k => NewArray [NewBytes (AddressBytes a); NewBytes k]
  end.

Section rlp.
Context `{External} `{RlpReader}.

(** [v] is the zero value of its type. *)
Definition v_UnmarshalRLPFrom (v : Validator) (val : item) : option Validator :=
  match v with
  | ECDSAValidator _ => b ← GetBytesN 20 val; Some (ECDSAValidator (BytesToAddress b))
  | BLSValidator _ _ =>
      elems ← GetElems val;
      match elems with
      | e0 :: e1 :: _ =>
          a ← GetBytesN 20 e0; k ← GetBytes e1; Some (BLSValidator (BytesToAddress a) k)
      | _ => None
      end
  end.

Definition v_Bytes (v : Validator) : bytes :=
  match v with
  | ECDSAValidator a => AddressBytes a
  | BLSValidator _ _ => MarshalTo (v_MarshalRLPWith v)
  end.

Definition v_SetFromBytes (v : Validator) (input : bytes) : option Validator :=
  match v with
  | ECDSAValidator _ => Some (ECDSAValidator (BytesToAddress input))
  | BLSValidator _ _ => UnmarshalRlp (λ _, v_UnmarshalRLPFrom v) input
  end.
End rlp.

(** ** Sets *)

Record ValSet := mkSet {
  vs_Type : bytes;
  vs_Validators : list Validator;
}.

#[export] Instance ValSet_eq_dec : EqDecision ValSet.
Proof. solve_decision. Defined.

Definition set_Len (s : ValSet) : Z := Z.of_nat (length (vs_Validators s)).

(** The loop of [Equal], on lists of one length. *)
Fixpoint all_Equal (l l' : list Validator) : bool :=
  match l, l' with
  | v :: l, w :: l' => v_Equal v w && all_Equal l l'
  | _, _ => true
  end.

Definition set_Equal (s ss : ValSet) : bool :=
  if negb (bool_decide (vs_Type s = vs_Type ss)) then false
  else if negb (set_Len s =? set_Len ss) then false
  else all_Equal (vs_Validators s) (vs_Validators ss).

Definition set_At (s : ValSet) (index : Z) : outcome Validator :=
  match vs_Validators s !! Z.to_nat index with Some v => Ret v | None => Panic end.

Fixpoint index_from (i : Z) (l : list Validator) (addr : Address) : Z :=
  match l with
  | [] => -1
  | val :: l => if v_Addr val =? addr then i else index_from (i + 1) l addr
  end.

Definition set_Index (s : ValSet) (addr : Address) : Z := index_from 0 (vs_Validators s) addr.

Definition set_Includes (s : ValSet) (addr : Address) : bool := negb (set_Index s addr =? -1).

Definition set_Add (s : ValSet) (val : Validator) : result val_err ValSet :=
  if negb (bool_decide (vs_Type s = v_Type val)) then Err ErrMismatchValidatorType
  else if set_Includes s (v_Addr val) then Err ErrValidatorAlreadyExists
  else Ok (mkSet (vs_Type s) (vs_Validators s ++ [val])).

Definition set_Del (s : ValSet) (val : Validator) : result val_err ValSet :=
  if negb (bool_decide (vs_Type s = v_Type val)) then Err ErrMismatchValidatorType
  else
    let index := set_Index s (v_Addr val) in
    if index =? -1 then Err ErrValidatorNotFound
    else Ok (mkSet (vs_Type s)
      (take (Z.to_nat index) (vs_Validators s) ++ drop (Z.to_nat (index + 1)) (vs_Validators s))).

(** The loop of [Merge]. *)
Fixpoint merge_all (s : ValSet) (l : list Validator) : result val_err ValSet :=
  match l with
  | [] => Ok s
  | newVal :: l =>
      if set_Includes s (v_Addr newVal) then merge_all s l
      else let? s := set_Add s newVal in merge_all s l
  end.

Definition set_Merge (s ss : ValSet) : result val_err ValSet :=
  if negb (bool_decide (vs_Type s = vs_Type ss)) then Err ErrMismatchValidatorsType
  else merge_all s (vs_Validators ss).

Definition NewECDSAValidatorSet (l : list Address) : ValSet := mkSet ECDSAValidatorType (ECDSAValidator <$> l).
Definition NewBLSValidatorSet (l : list (Address * bytes)) : ValSet :=
  mkSet BLSValidatorType ((λ p, BLSValidator p.1 p.2) <$> l).

Definition NewValidatorSetFromType (t : bytes) : option ValSet :=
  if decide (t = ECDSAValidatorType) then Some (NewECDSAValidatorSet [])
  else if decide (t = BLSValidatorType) then Some (NewBLSValidatorSet [])
  else None.

Definition set_MarshalRLPWith (s : ValSet) : rlp := NewArray (v_MarshalRLPWith <$> vs_Validators s).

Section set_rlp.
Context `{External} `{RlpReader}.

Definition set_UnmarshalRLPFrom (s : ValSet) (val : item) : option ValSet :=
  elems ← GetElems val;
  l ← mapM (λ e,
    match NewValidatorFromType (vs_Type s) with
    | Ok v => v_UnmarshalRLPFrom v e
    | Err _ => None
    end) elems;
  Some (mkSet (vs_Type s) l).
End set_rlp.

(** ** Text *)

Definition ParseECDSAValidator (validator : bytes) : Validator := ECDSAValidator (StringToAddress validator).

Definition ParseBLSValidator (validator : bytes) : result val_err Validator :=
  match Split validator 58 with
  | [s0; s1] =>
      match whole (hex_DecodeString (TrimPrefix s0 (str "0x"))) with
      | None => Err ErrParseAddress
      | Some addrBytes =>
          match whole (hex_DecodeString (TrimPrefix s1 (str "0x"))) with
          | None => Err ErrParseBLSPublicKey
          | Some pubKeyBytes => Ok (BLSValidator (BytesToAddress addrBytes) pubKeyBytes)
          end
      end
  | _ => Err ErrInvalidBLSValidatorFormat
  end.

Definition ParseValidator (validatorType validator : bytes) : result val_err Validator :=
  if decide (validatorType = ECDSAValidatorType) then Ok (ParseECDSAValidator validator)
  else if decide (validatorType = BLSValidatorType) then ParseBLSValidator validator
  else Err ErrInvalidValidatorType.

(** The loop of [ParseValidators]. *)
Fixpoint parse_into (set : ValSet) (validatorType : bytes) (raw : list bytes) : result val_err ValSet :=
  match raw with
  | [] => Ok set
  | s :: raw =>
      let? validator := ParseValidator validatorType s in
      let? set := set_Add set validator in
      parse_into set validatorType raw
  end.

Definition ParseValidators (validatorType : bytes) (rawValidators : list bytes) : result val_err ValSet :=
  match NewValidatorSetFromType validatorType with
  | None => Err ErrInvalidValidatorType
  | Some set => parse_into set validatorType rawValidators
  end.

Section text.
Context `{External}.

Definition v_String (v : Validator) : bytes :=
  match v with
  | ECDSAValidator a => checksumEncode a
  | BLSValidator a k => checksumEncode a ++ [58] ++ EncodeToHex k
  end.
End text.

(** ** Equality and membership *)

Lemma v_Equal_spec v w : v_Equal v w = true ↔ v = w.
Proof.
  destruct v as [a|a k], w as [b|b l]; simpl; rewrite ?andb_true_iff, ?bool_decide_eq_true, ?Z.eqb_eq; try (split; congruence).
  naive_solver.
Qed.

Lemma v_Equal_refl v : v_Equal v v = true.
Proof. by apply v_Equal_spec. Qed.

Lemma all_Equal_spec l l' : length l = length l' → all_Equal l l' = true ↔ l = l'.
Proof.
  revert l'. induction l as [|v l IH]; intros [|w l']; simpl; intros; try done.
  rewrite andb_true_iff, v_Equal_spec, IH by congruence. naive_solver.
Qed.

Lemma set_Equal_spec s ss : set_Equal s ss = true ↔ s = ss.
Proof.
  unfold set_Equal, set_Len. destruct s as [t l], ss as [t' l']; cbn.
  destruct (bool_decide_reflect (t = t')) as [->|]; cbn; [|split; congruence].
  destruct (Z.eqb_spec (Z.of_nat (length l)) (Z.of_nat (length l'))); cbn.
  - rewrite all_Equal_spec by lia. naive_solver.
  - split; [done|]. intros [= ->]. done.
Qed.

(** The addresses of a set. *)
Definition addrs (s : ValSet) : list Address := v_Addr <$> vs_Validators s.

Lemma index_from_spec i l a :
  0 ≤ i →
  (index_from i l a = -1 ∧ a ∉ v_Addr <$> l) ∨
  (∃ k v, index_from i l a = i + Z.of_nat k ∧ l !! k = Some v ∧ v_Addr v = a ∧ a ∉ v_Addr <$> take k l).
Proof.
  revert i. induction l as [|v l IH]; intros i Hi; simpl.
  - left. split; [done|]. apply not_elem_of_nil.
  - destruct (Z.eqb_spec (v_Addr v) a) as [<-|Hne].
    + right. exists 0%nat, v. split_and!; [lia|done|done|apply not_elem_of_nil].
    + destruct (IH (i + 1) ltac:(lia)) as [[-> Hn]|(k & w & -> & Hk & Hw & Hn)].
      * left. split; [done|]. rewrite not_elem_of_cons. done.
      * right. exists (S k), w. split_and!; [lia|done..|]. cbn. rewrite not_elem_of_cons. done.
Qed.

Lemma set_Index_spec s a :
  (set_Index s a = -1 ∧ a ∉ addrs s) ∨
  (∃ k v, set_Index s a = Z.of_nat k ∧ vs_Validators s !! k = Some v ∧ v_Addr v = a ∧ a ∈ addrs s).
Proof.
  unfold set_Index, addrs. destruct (index_from_spec 0 (vs_Validators s) a) as [?|(k & v & Hi & Hk & Hv & _)]; [done|auto|].
  right. exists k, v. split_and!; [lia|done|done|]. rewrite <- Hv. apply list_elem_of_fmap_2. by eapply list_elem_of_lookup_2.
Qed.

Lemma set_Includes_spec s a : set_Includes s a = true ↔ a ∈ addrs s.
Proof.
  unfold set_Includes. rewrite negb_true_iff, Z.eqb_neq.
  destruct (set_Index_spec s a) as [[-> ?]|(k & v & -> & _ & _ & ?)]; split; try done. lia.
Qed.

Lemma set_Includes_false s a : set_Includes s a = false ↔ a ∉ addrs s.
Proof. rewrite <- set_Includes_spec. by destruct (set_Includes s a). Qed.

(** ** Well-formed sets *)

Record set_ok (s : ValSet) : Prop := {
  so_type : Forall (λ v, v_Type v = vs_Type s) (vs_Validators s);
  so_nodup : NoDup (addrs s);
}.

Lemma set_ok_nil t : set_ok (mkSet t []).
Proof. split; constructor. Qed.

Lemma set_Add_ok s v s' :
  set_ok s → set_Add s v = Ok s' → set_ok s' ∧ vs_Type s' = vs_Type s ∧ vs_Validators s' = vs_Validators s ++ [v].
Proof.
  intros [Ht Hn]. unfold set_Add. case_bool_decide as Hty; cbn [negb]; [|done].
  destruct (set_Includes s (v_Addr v)) eqn:Hi; [done|]. intros [= <-]. apply set_Includes_false in Hi.
  split_and!; [|done..]. split; cbn.
  - apply Forall_app. split; [done|]. by constructor.
  - unfold addrs in *. cbn. rewrite fmap_app. apply NoDup_app. split_and!; [done| |apply NoDup_singleton].
    intros x Hx ->%list_elem_of_singleton. done.
Qed.

Lemma drop_one_filter (l : list Validator) k v :
  NoDup (v_Addr <$> l) → l !! k = Some v →
  take k l ++ drop (S k) l = filter (λ w, v_Addr w ≠ v_Addr v) l.
Proof.
  intros Hn Hk. rewrite <- (take_drop_middle l k v Hk) at 3. rewrite <- (take_drop_middle l k v Hk), fmap_app, fmap_cons in Hn.
  apply NoDup_app in Hn as (_ & H1 & [H2 _]%NoDup_cons).
  rewrite filter_app, filter_cons_False by (intros ?; done).
  assert (∀ m : list Validator, v_Addr v ∉ v_Addr <$> m → filter (λ w, v_Addr w ≠ v_Addr v) m = m) as Hf.
  { induction m as [|w m IH]; intros Hm; [done|]. rewrite fmap_cons, not_elem_of_cons in Hm.
    rewrite filter_cons_True, IH; naive_solver. }
  rewrite !Hf; [done|done|]. intros Hin. apply (H1 _ Hin). apply elem_of_cons. by left.
Qed.

Lemma set_Del_ok s v s' :
  set_ok s → set_Del s v = Ok s' →
  set_ok s' ∧ vs_Type s' = vs_Type s ∧ v_Addr v ∈ addrs s ∧
  vs_Validators s' = filter (λ w, v_Addr w ≠ v_Addr v) (vs_Validators s).
Proof.
  intros [Ht Hn]. unfold set_Del. case_bool_decide as Hty; cbn [negb]; [|done].
  destruct (set_Index_spec s (v_Addr v)) as [[-> ?]|(k & w & -> & Hk & Hw & Hin)]; [done|].
  rewrite (proj2 (Z.eqb_neq _ _)) by lia. intros [= <-].
  replace (Z.to_nat (Z.of_nat k + 1)) with (S k) by lia. rewrite Nat2Z.id.
  rewrite (drop_one_filter _ _ _ Hn Hk), Hw. split_and!; [|done..]. split; cbn.
  - apply Forall_forall. intros x [_ Hx]%list_elem_of_filter. by eapply Forall_forall in Ht.
  - unfold addrs. cbn. eapply sublist_NoDup; [done|]. apply fmap_sublist, sublist_filter.
Qed.

Lemma merge_all_ok l s s' :
  set_ok s → merge_all s l = Ok s' →
  set_ok s' ∧ vs_Type s' = vs_Type s ∧ (∀ a, a ∈ addrs s' ↔ a ∈ addrs s ∨ a ∈ v_Addr <$> l).
Proof.
  revert s. induction l as [|v l IH]; intros s Hs; cbn [merge_all].
  - intros [= <-]. split_and!; [done..|]. intros a. cbn. rewrite elem_of_nil. tauto.
  - destruct (set_Includes s (v_Addr v)) eqn:Hi.
    + intros H. apply set_Includes_spec in Hi. destruct (IH s Hs H) as (H1 & H2 & H3). split_and!; [done..|].
      intros a. rewrite H3, fmap_cons, elem_of_cons. naive_solver.
    + destruct (set_Add s v) as [s1|] eqn:Ha; [|done]. intros H.
      destruct (set_Add_ok _ _ _ Hs Ha) as (H1 & H2 & H3). destruct (IH s1 H1 H) as (H4 & H5 & H6).
      split_and!; [done|congruence|]. intros a. rewrite H6. unfold addrs. rewrite H3, fmap_app, !fmap_cons, elem_of_app, !elem_of_cons.
      cbn. rewrite elem_of_nil. tauto.
Qed.

Lemma parse_into_ok raw t s s' : set_ok s → parse_into s t raw = Ok s' → set_ok s' ∧ vs_Type s' = vs_Type s.
Proof.
  revert s. induction raw as [|x raw IH]; intros s Hs; cbn [parse_into]; [by intros [= <-]|].
  destruct (ParseValidator t x) as [v|]; [|done]. destruct (set_Add s v) as [s1|] eqn:Ha; [|done].
  intros H. destruct (set_Add_ok _ _ _ Hs Ha) as (H1 & H2 & _). destruct (IH s1 H1 H). split; congruence.
Qed.

(** ** Round trips *)

Definition val_wf (v : Validator) : Prop :=
  addr_ok (v_Addr v) ∧ match v with ECDSAValidator _ => True | BLSValidator _ k => Forall byte_range k end.

Definition known_type (t : bytes) : Prop := t = ECDSAValidatorType ∨ t = BLSValidatorType.

#[export] Instance known_type_dec t : Decision (known_type t) := _.

Lemma v_Type_known v : known_type (v_Type v).
Proof. destruct v; [by left|by right]. Qed.

Section roundtrip.
Context `{External} `{RlpReader} `{!RlpLaws}.

Lemma NewValidatorFromType_Type v :
  ∃ z, NewValidatorFromType (v_Type v) = Ok z ∧ v_Type z = v_Type v.
Proof. destruct v; eexists; split; reflexivity. Qed.

Lemma v_UnmarshalRLPFrom_Marshal z v :
  v_Type z = v_Type v → addr_ok (v_Addr v) → v_UnmarshalRLPFrom z (item_of (v_MarshalRLPWith v)) = Some v.
Proof.
  destruct z, v; try done; intros _ Ha; cbn [v_UnmarshalRLPFrom v_MarshalRLPWith item_of fmap list_fmap GetElems mbind option_bind];
    rewrite GetAddr_AddressBytes, ?GetBytes_IBytes; cbn [mbind option_bind]; by rewrite BytesToAddress_id.
Qed.

Lemma set_UnmarshalRLPFrom_Marshal s s0 :
  vs_Type s0 = vs_Type s → Forall (λ v, v_Type v = vs_Type s) (vs_Validators s) →
  Forall (λ v, addr_ok (v_Addr v)) (vs_Validators s) →
  set_UnmarshalRLPFrom s0 (item_of (set_MarshalRLPWith s)) = Some s.
Proof.
  intros Ht Hty Ha. unfold set_UnmarshalRLPFrom, set_MarshalRLPWith. cbn [item_of GetElems mbind option_bind]. rewrite Ht.
  rewrite <- list_fmap_compose. destruct s as [t l]; cbn in *.
  assert (mapM (λ e, match NewValidatorFromType t with Ok v => v_UnmarshalRLPFrom v e | Err _ => None end)
            (item_of ∘ v_MarshalRLPWith <$> l) = Some l) as ->; [|done].
  clear Ht. induction l as [|v l IH]; [done|]. apply Forall_cons in Hty as [Hv Hty]. apply Forall_cons in Ha as [Hav Ha].
  rewrite fmap_cons. cbn [mapM]. destruct (NewValidatorFromType_Type v) as (z & Hz & Hzt). rewrite <- Hv at 1. rewrite Hz.
  cbn [compose]. rewrite v_UnmarshalRLPFrom_Marshal by done. cbn [mbind option_bind]. by rewrite (IH Hty Ha).
Qed.

Lemma v_SetFromBytes_Bytes z v : v_Type z = v_Type v → addr_ok (v_Addr v) → v_SetFromBytes z (v_Bytes v) = Some v.
Proof.
  intros Ht Ha. destruct v as [a|a k].
  - destruct z; [|done]. cbn [v_SetFromBytes v_Bytes]. by rewrite BytesToAddress_id.
  - destruct z as [|a' k']; [done|]. unfold v_SetFromBytes, v_Bytes, UnmarshalRlp. rewrite Parse_MarshalTo. cbn [mbind option_bind].
    by apply v_UnmarshalRLPFrom_Marshal.
Qed.
End roundtrip.

(** Text without a colon is one field. *)
Lemma Split_one s : 58 ∉ s → Split s 58 = [s].
Proof.
  induction s as [|c s IH]; [done|]. rewrite not_elem_of_cons. intros [Hc Hs]. cbn [Split].
  rewrite (proj2 (Z.eqb_neq c 58)) by lia. by rewrite IH.
Qed.

Lemma Split_two s t : 58 ∉ s → 58 ∉ t → Split (s ++ 58 :: t) 58 = [s; t].
Proof.
  intros Hs Ht. induction s as [|c s IH]; cbn [app Split]; [by rewrite Z.eqb_refl, Split_one|].
  rewrite not_elem_of_cons in Hs. destruct Hs as [Hc Hs]. rewrite (proj2 (Z.eqb_neq c 58)) by lia. by rewrite IH.
Qed.

(** A digit is a letter or a figure. *)
Lemma hexDigit_range d : 0 ≤ d < 16 → 48 ≤ hexDigit d ≤ 57 ∨ 97 ≤ hexDigit d ≤ 102.
Proof. unfold hexDigit. intros. case_match; lia. Qed.

Lemma EncodeToString_range b : Forall byte_range b → Forall (λ c, 48 ≤ c ≤ 57 ∨ 97 ≤ c ≤ 102) (EncodeToString b).
Proof.
  induction 1 as [|d b Hd Hb IH]; [constructor|]. rewrite EncodeToString_cons. destruct (byte_nibbles d Hd) as (? & ? & _).
  apply Forall_cons. split; [by apply hexDigit_range|]. apply Forall_cons. split; [by apply hexDigit_range|done].
Qed.

Lemma EncodeToHex_no_colon b : Forall byte_range b → 58 ∉ EncodeToHex b.
Proof.
  intros Hb Hin. unfold EncodeToHex in Hin. apply elem_of_app in Hin as [Hin|Hin].
  - revert Hin. by apply (bool_decide_unpack _).
  - pose proof (EncodeToString_range b Hb) as Hr. eapply Forall_forall in Hr; [|exact Hin]. lia.
Qed.

Section text_roundtrip.
Context `{External}.

Lemma checksumEncode_no_colon a : 58 ∉ checksumEncode a.
Proof.
  unfold checksumEncode. cbv zeta. intros Hin. apply elem_of_app in Hin as [Hin|Hin].
  - revert Hin. by apply (bool_decide_unpack _).
  - apply list_elem_of_lookup_1 in Hin as [k Hk]. apply lookup_zip_with_Some in Hk as (c & h & Hc & Hl & _).
    unfold EncodeToHex in Hl. change (drop 2 (str "0x" ++ ?s)) with s in Hl.
    apply list_elem_of_lookup_2 in Hl. pose proof (EncodeToString_range (AddressBytes a) (be_bytes_range _ _)) as Hr.
    eapply Forall_forall in Hr; [|exact Hl]. unfold unicode_ToUpper in Hc. repeat case_match; lia.
Qed.

(** A validator reads back from its text. *)
Lemma ParseValidator_String v : val_wf v → ParseValidator (v_Type v) (v_String v) = Ok v.
Proof.
  intros [Ha Hk]. destruct v as [a|a k]; cbn [v_Type v_String v_Addr] in *.
  - unfold ParseValidator. rewrite decide_True by done. unfold ParseECDSAValidator, StringToAddress.
    by rewrite stringToBytes_checksum, BytesToAddress_id.
  - unfold ParseValidator. rewrite decide_False, decide_True by done. unfold ParseBLSValidator.
    change ([58] ++ EncodeToHex k) with (58 :: EncodeToHex k).
    rewrite Split_two by (apply checksumEncode_no_colon || by apply EncodeToHex_no_colon).
    destruct (checksumEncode_decodes a) as (s & -> & _ & Hd). rewrite TrimPrefix_app, Hd. cbn [whole fst snd].
    unfold EncodeToHex. rewrite TrimPrefix_app, hex_DecodeString_Encode by done. cbn [whole fst snd].
    by rewrite BytesToAddress_id.
Qed.

(** A well-formed set reads back from the texts of its validators. *)
Lemma ParseValidators_String s :
  known_type (vs_Type s) → set_ok s → Forall val_wf (vs_Validators s) →
  ParseValidators (vs_Type s) (v_String <$> vs_Validators s) = Ok s.
Proof.
  intros Hk [Ht Hn] Hw. unfold ParseValidators.
  assert (NewValidatorSetFromType (vs_Type s) = Some (mkSet (vs_Type s) [])) as ->.
  { destruct Hk as [-> | ->]; reflexivity. }
  destruct s as [t l]. unfold addrs in Hn. cbn in *.
  assert (∀ m, NoDup (v_Addr <$> m ++ l) → parse_into (mkSet t m) t (v_String <$> l) = Ok (mkSet t (m ++ l))) as Hp; [|by apply (Hp [])].
  clear Hk Hn. induction l as [|v l IH]; intros m Hm; [by rewrite app_nil_r|].
  apply Forall_cons in Ht as [Hv Ht]. apply Forall_cons in Hw as [Hwv Hw]. rewrite fmap_cons. cbn [parse_into].
  rewrite <- Hv at 1. rewrite ParseValidator_String by done.
  assert (set_Add (mkSet t m) v = Ok (mkSet t (m ++ [v]))) as ->.
  { unfold set_Add. cbn [vs_Type vs_Validators]. rewrite bool_decide_eq_true_2 by done. cbn [negb].
    rewrite fmap_app, fmap_cons in Hm. apply NoDup_app in Hm as (_ & Hm & _).
    rewrite (proj2 (set_Includes_false _ _)); [done|]. intros Hin. apply (Hm _ Hin), elem_of_cons. by left. }
  rewrite IH; [by rewrite <- app_assoc|done|done|]. by rewrite <- app_assoc.
Qed.
End text_roundtrip.
