(* ===== verification/Snapshot.v ===== *)
(** The validators of proof of authority: votes and snapshots
    ([validators/store/types.go] and [validators/store/snapshot]).

    Every vote is in the header of a block: its [Miner] names a candidate and its
    [Nonce] says whether to add or to drop it.  A [Snapshot] is the set of
    validators and the votes cast since the epoch began, as they are after one
    block; the store keeps a sorted list of the snapshots that differ from the
    one before.  Snapshots are deep copies of each other and nothing writes to one
    that is stored, so they are values.  The signer of a height and the chain are
    arguments ([SignerInterface], [HeaderGetter]).  [sort.Sort] is any function
    that does what its documentation says: it need not be stable. *)
From stdpp Require Import strings.
From S2P Require Import Prelude GoHeap Types Runtime Crypto Rlp RlpTypes Text Validators.

(** ** Package [sort] *)

Class GoSort := { sort_Sort : ∀ {A : Type}, (A → A → bool) → list A → list A }.

Class GoSortLaws `{GoSort} : Prop := {
  sort_Sort_Permutation {A} (less : A → A → bool) l : sort_Sort less l ≡ₚ l;
  sort_Sort_Sorted {A} (less : A → A → bool) l :
    StrictWeakOrder less → StronglySorted (λ x y, less y x = false) (sort_Sort less l);
}.

(** The loop of [sort.Search] between [i] and [j]. *)
Fixpoint search_loop (fuel : nat) (f : nat → bool) (i j : nat) : nat :=
  match fuel with
  | O => i
  | S fuel =>
      if (i <? j)%nat then
        let h := Nat.div2 (i + j) in
        if negb (f h) then search_loop fuel f (h + 1) j else search_loop fuel f i h
      else i
  end.

Definition sort_Search (n : nat) (f : nat → bool) : nat := search_loop (S n) f 0 n.

(** ** Data *)

Record Vote := mkVote {
  vt_Validator : Address;
  vt_Candidate : Validator;
  vt_Authorize : bool;
}.

#[export] Instance Vote_eq_dec : EqDecision Vote.
Proof. solve_decision. Defined.

Definition vote_Equal (v vv : Vote) : bool :=
  if negb (vt_Validator v =? vt_Validator vv) then false
  else if negb (v_Equal (vt_Candidate v) (vt_Candidate vv)) then false
  else if negb (eqb (vt_Authorize v) (vt_Authorize vv)) then false
  else true.

Record Candidate := mkCandidate {
  cd_Validator : Validator;
  cd_Authorize : bool;
}.

Record Snapshot := mkSnapshot {
  sn_Number : Z;
  sn_Hash : bytes;
  sn_Votes : list Vote;
  sn_Set : ValSet;
}.

Record HeaderGetter := mkGetter {
  hg_Header : Header;
  hg_GetHeaderByNumber : Z → option Header;
}.

(** [None] is an error of the signer. *)
Record SignerInterface := mkSignerInterface {
  si_Type : bytes;
  si_EcrecoverFromHeader : Header → outcome (option Address);
  si_GetValidators : Header → outcome (option ValSet);
}.

Inductive snap_err :=
| ErrInvalidNonce
| ErrSnapshotNotFound
| ErrUnauthorizedProposer
| ErrIncorrectNonce
| ErrAlreadyCandidate
| ErrCandidateIsValidator
| ErrCandidateNotExistInSet
| ErrAlreadyVoted
| ErrMultipleVotesBySameValidator
| ErrHeaderNotFound (number : Z)
| ErrNoSigner (number : Z)
| ErrGetSigner
| ErrSigner
| ErrDecodeMiner
| ErrVal (e : val_err).

Definition nonceAuthVote : bytes := replicate 8 255.
Definition nonceDropVote : bytes := replicate 8 0.

(** ** Snapshots *)

Fixpoint votes_Equal (l l' : list Vote) : bool :=
  match l, l' with
  | v :: l, w :: l' => vote_Equal v w && votes_Equal l l'
  | _, _ => true
  end.

Definition snap_Equal (s ss : Snapshot) : bool :=
  if negb (length (sn_Votes s) =? length (sn_Votes ss))%nat then false
  else if negb (votes_Equal (sn_Votes s) (sn_Votes ss)) then false
  else set_Equal (sn_Set s) (sn_Set ss).

Definition snap_Count (h : Vote → bool) (s : Snapshot) : Z :=
  foldl (λ count v, if h v then count + 1 else count) 0 (sn_Votes s).

Definition set_votes (votes : list Vote) (s : Snapshot) : Snapshot :=
  mkSnapshot (sn_Number s) (sn_Hash s) votes (sn_Set s).
Definition set_set (set : ValSet) (s : Snapshot) : Snapshot :=
  mkSnapshot (sn_Number s) (sn_Hash s) (sn_Votes s) set.

Definition AddVote (voter : Address) (candidate : Validator) (authorize : bool) (s : Snapshot) : Snapshot :=
  set_votes (sn_Votes s ++ [mkVote voter candidate authorize]) s.

(** The number and the hash are not copied. *)
Definition snap_Copy (s : Snapshot) : Snapshot := mkSnapshot 0 [] (sn_Votes s) (sn_Set s).

Definition CountByVoterAndCandidate (voter : Address) (candidate : Validator) (s : Snapshot) : Z :=
  snap_Count (λ v, (vt_Validator v =? voter) && v_Equal (vt_Candidate v) candidate) s.

Definition CountByCandidate (candidate : Validator) (s : Snapshot) : Z :=
  snap_Count (λ v, v_Equal (vt_Candidate v) candidate) s.

Definition RemoveVotes (shouldRemove : Vote → bool) (s : Snapshot) : Snapshot :=
  set_votes (filter (λ v, shouldRemove v = false) (sn_Votes s)) s.

Definition RemoveVotesByVoter (address : Address) : Snapshot → Snapshot :=
  RemoveVotes (λ v, vt_Validator v =? address).

Definition RemoveVotesByCandidate (candidate : Validator) : Snapshot → Snapshot :=
  RemoveVotes (λ v, v_Equal (vt_Candidate v) candidate).

(** ** Votes *)

Definition isAuthorize (nonce : bytes) : result snap_err bool :=
  if decide (nonce = nonceAuthVote) then Ok true
  else if decide (nonce = nonceDropVote) then Ok false
  else Err ErrIncorrectNonce.

Definition shouldProcessVote (validators : ValSet) (candidate : Address) (voteAction : bool) : bool :=
  negb (eqb voteAction (set_Includes validators candidate)).

Definition addsOrDelsCandidate (validators : ValSet) (candidate : Validator) (updateAction : bool) : result val_err ValSet :=
  if updateAction then set_Add validators candidate else set_Del validators candidate.

Section votes.
Context `{External} `{RlpReader}.

Definition validatorToMiner (validator : Validator) : bytes :=
  match validator with
  | ECDSAValidator a => AddressBytes a
  | BLSValidator _ _ => v_Bytes validator
  end.

Definition minerToValidator (validatorType miner : bytes) : result snap_err Validator :=
  match NewValidatorFromType validatorType with
  | Err e => Err (ErrVal e)
  | Ok (ECDSAValidator _) => Ok (ECDSAValidator (BytesToAddress miner))
  | Ok (BLSValidator a k) =>
      match v_SetFromBytes (BLSValidator a k) miner with Some v => Ok v | None => Err ErrDecodeMiner end
  end.

Definition processVote (snapshot : Snapshot) (header : Header) (candidateType : bytes) (proposer : Address)
    : result snap_err Snapshot :=
  let? authorize := isAuthorize (hd_Nonce header) in
  let? candidate := minerToValidator candidateType (hd_Miner header) in
  if negb (shouldProcessVote (sn_Set snapshot) (v_Addr candidate) authorize) then Ok snapshot
  else
    let voteCount := CountByVoterAndCandidate proposer candidate snapshot in
    if voteCount >? 1 then Err ErrMultipleVotesBySameValidator
    else
      let snapshot := if voteCount =? 0 then AddVote proposer candidate authorize snapshot else snapshot in
      let totalVotes := CountByCandidate candidate snapshot in
      if totalVotes >? set_Len (sn_Set snapshot) / 2 then
        match addsOrDelsCandidate (sn_Set snapshot) candidate authorize with
        | Err e => Err (ErrVal e)
        | Ok set =>
            let snapshot := set_set set snapshot in
            let snapshot := if negb authorize then RemoveVotesByVoter (v_Addr candidate) snapshot else snapshot in
            Ok (RemoveVotesByCandidate candidate snapshot)
        end
      else Ok snapshot.
End votes.

(** ** The list of snapshots *)

Record snapshotStore := mkStore {
  st_lastNumber : Z;
  st_list : list Snapshot;
}.

Definition getLastBlock (s : snapshotStore) : Z := st_lastNumber s.
Definition updateLastBlock (num : Z) (s : snapshotStore) : snapshotStore := mkStore num (st_list s).

Definition snap_Less (x y : Snapshot) : bool := sn_Number x <? sn_Number y.

(** [s.list[i].Number]. *)
Definition number_at (l : list Snapshot) (i : Z) : outcome Z :=
  match l !! Z.to_nat i with Some sn => if i <? 0 then Panic else Ret (sn_Number sn) | None => Panic end.

(** The binary search of [findClosestSnapshotIndex], and the choice between the
    two snapshots it ends at. *)
Fixpoint closest_loop (fuel : nat) (l : list Snapshot) (blockNum low high : Z) : outcome Z :=
  match fuel with
  | O => NoFuel
  | S fuel =>
      if low <=? high then
        let mid := (high + low) / 2 in
        let~ n := number_at l mid in
        if blockNum <? n then closest_loop fuel l blockNum low (mid - 1)
        else if blockNum >? n then closest_loop fuel l blockNum (mid + 1) high
        else Ret mid
      else
        let~ nl := number_at l low in
        let~ nh := number_at l high in
        if sub64 nl blockNum <? sub64 blockNum nh then Ret high else Ret low
  end.

Definition findClosestSnapshotIndex (l : list Snapshot) (blockNum : Z) : outcome Z :=
  let~ first := number_at l 0 in
  if blockNum <? first then Ret 0
  else
    let~ last := number_at l (Z.of_nat (length l) - 1) in
    if blockNum >? last then Ret (Z.of_nat (length l) - 1)
    else closest_loop (S (length l)) l blockNum 0 (Z.of_nat (length l) - 1).

Definition deleteLower (num : Z) (s : snapshotStore) : outcome snapshotStore :=
  let~ pruneIndex := findClosestSnapshotIndex (st_list s) num in
  Ret (mkStore (st_lastNumber s) (drop (Z.to_nat pruneIndex) (st_list s))).

(** [s.list[i].Number >= num]; the index is in range in [find]. *)
Definition number_ge (l : list Snapshot) (num : Z) (i : nat) : bool :=
  match l !! i with Some sn => sn_Number sn >=? num | None => false end.

Definition find (num : Z) (s : snapshotStore) : option Snapshot :=
  let l := st_list s in
  match last l with
  | None => None
  | Some lst =>
      if sn_Number lst <? num then Some lst
      else
        let i := sort_Search (length l) (number_ge l num) in
        if (i <? length l)%nat then
          if (i =? 0)%nat then l !! 0%nat
          else
            match l !! i with
            | Some sn => if sn_Number sn =? num then Some sn else l !! (i - 1)%nat
            | None => None
            end
        else None
  end.

Section sorted.
Context `{GoSort}.

Definition store_add (snap : Snapshot) (s : snapshotStore) : snapshotStore :=
  mkStore (st_lastNumber s) (sort_Sort snap_Less (st_list s ++ [snap])).

Definition number_eq (l : list Snapshot) (num : Z) (i : nat) : bool :=
  match l !! i with Some sn => sn_Number sn =? num | None => false end.

Definition putByNumber (snap : Snapshot) (s : snapshotStore) : snapshotStore :=
  let i := sort_Search (length (st_list s)) (number_eq (st_list s) (sn_Number snap)) in
  if (i <? length (st_list s))%nat then mkStore (st_lastNumber s) (<[i := snap]> (st_list s))
  else store_add snap s.

(** [newSnapshotStore] with [loadData]; there may be no metadata. *)
Definition newSnapshotStore (metadata : option Z) (snapshots : list Snapshot) : snapshotStore :=
  foldl (flip store_add) (mkStore (default 0 metadata) []) snapshots.
End sorted.

(** ** The validator store *)

Record SnapshotValidatorStore := mkSVS {
  sv_store : snapshotStore;
  sv_candidates : list Candidate;
}.

Definition on_store (f : snapshotStore → snapshotStore) (s : SnapshotValidatorStore) : SnapshotValidatorStore :=
  mkSVS (f (sv_store s)) (sv_candidates s).
Definition set_candidates (c : list Candidate) (s : SnapshotValidatorStore) : SnapshotValidatorStore := mkSVS (sv_store s) c.

Definition getSnapshot (height : Z) (s : SnapshotValidatorStore) : option Snapshot := find height (sv_store s).
Definition getLatestSnapshot (s : SnapshotValidatorStore) : option Snapshot := getSnapshot (st_lastNumber (sv_store s)) s.

Definition GetValidatorsByHeight (height : Z) (s : SnapshotValidatorStore) : result snap_err ValSet :=
  match getSnapshot height s with None => Err ErrSnapshotNotFound | Some sn => Ok (sn_Set sn) end.

Definition Votes (height : Z) (s : SnapshotValidatorStore) : result snap_err (list Vote) :=
  match getSnapshot height s with None => Err ErrSnapshotNotFound | Some sn => Ok (sn_Votes sn) end.

(** *** Candidates *)

Definition addCandidate (validators : ValSet) (candidate : Validator) (authorize : bool) (s : SnapshotValidatorStore)
    : outcome (result snap_err () * SnapshotValidatorStore) :=
  if authorize then Ret (Ok (), set_candidates (sv_candidates s ++ [mkCandidate candidate authorize]) s)
  else
    let validatorIndex := set_Index validators (v_Addr candidate) in
    if validatorIndex =? -1 then Ret (Err ErrCandidateNotExistInSet, s)
    else
      let~ v := set_At validators validatorIndex in
      Ret (Ok (), set_candidates (sv_candidates s ++ [mkCandidate v authorize]) s).

Definition Propose (candidate : Validator) (auth : bool) (proposer : Address) (s : SnapshotValidatorStore)
    : outcome (result snap_err () * SnapshotValidatorStore) :=
  let candidateAddr := v_Addr candidate in
  if existsb (λ c, v_Addr (cd_Validator c) =? candidateAddr) (sv_candidates s) then Ret (Err ErrAlreadyCandidate, s)
  else
    match getLatestSnapshot s with
    | None => Ret (Err ErrSnapshotNotFound, s)
    | Some snap =>
        let included := set_Includes (sn_Set snap) candidateAddr in
        if auth && included then Ret (Err ErrCandidateIsValidator, s)
        else if negb auth && negb included then Ret (Err ErrCandidateNotExistInSet, s)
        else
          let count := CountByVoterAndCandidate proposer candidate snap in
          if count =? 1 then Ret (Err ErrAlreadyVoted, s) else addCandidate (sn_Set snap) candidate auth s
    end.

Definition cleanObsoleteCandidates (set : ValSet) (s : SnapshotValidatorStore) : SnapshotValidatorStore :=
  set_candidates (filter (λ c, cd_Authorize c ≠ set_Includes set (v_Addr (cd_Validator c))) (sv_candidates s)) s.

Definition pickOneCandidate (snap : Snapshot) (proposer : Address) (s : SnapshotValidatorStore) : option Candidate :=
  List.find (λ c,
    snap_Count (λ v, (v_Addr (vt_Candidate v) =? v_Addr (cd_Validator c)) && (vt_Validator v =? proposer)) snap =? 0)
    (sv_candidates s).

Definition getNextCandidate (snap : Snapshot) (proposer : Address) (s : SnapshotValidatorStore)
    : option Candidate * SnapshotValidatorStore :=
  let s := cleanObsoleteCandidates (sn_Set snap) s in
  (pickOneCandidate snap proposer s, s).

(** [VerifyHeader]. *)
Definition snap_VerifyHeader (header : Header) : result snap_err () :=
  if negb (bool_decide (hd_Nonce header = nonceAuthVote)) && negb (bool_decide (hd_Nonce header = nonceDropVote))
  then Err ErrInvalidNonce else Ok ().

Definition set_vote (miner nonce : bytes) (h : Header) : Header :=
  mkHeader (hd_ParentHash h) (hd_Sha3Uncles h) miner (hd_StateRoot h) (hd_TxRoot h) (hd_ReceiptsRoot h) (hd_LogsBloom h)
    (hd_Difficulty h) (hd_Number h) (hd_GasLimit h) (hd_GasUsed h) (hd_Timestamp h) (hd_ExtraData h) (hd_MixHash h)
    nonce (hd_Hash h).

Section store.
Context `{External} `{RlpReader} `{GoSort}.
Variable getSigner : Z → result () (option SignerInterface).
Variable epochSize : Z.

(** [ModifyHeader]: a header on its way to be proposed. *)
Definition snap_ModifyHeader (header : Header) (proposer : Address) (s : SnapshotValidatorStore)
    : result snap_err Header * SnapshotValidatorStore :=
  match getSnapshot (hd_Number header) s with
  | None => (Err ErrSnapshotNotFound, s)
  | Some snapshot =>
      let '(candidate, s) := getNextCandidate snapshot proposer s in
      match candidate with
      | None => (Ok header, s)
      | Some c =>
          (Ok (set_vote (validatorToMiner (cd_Validator c)) (if cd_Authorize c then nonceAuthVote else nonceDropVote) header), s)
      end
  end.

(** *** Headers *)

Definition addHeaderSnap (header : Header) (s : SnapshotValidatorStore)
    : outcome (result snap_err () * SnapshotValidatorStore) :=
  match getSigner (hd_Number header) with
  | Err _ => Ret (Err ErrGetSigner, s)
  | Ok None => Ret (Err (ErrNoSigner (hd_Number header)), s)
  | Ok (Some signer) =>
      let~ validators := si_GetValidators signer header in
      match validators with
      | None => Ret (Err ErrSigner, s)
      | Some set =>
          Ret (Ok (), on_store (store_add (mkSnapshot (hd_Number header) (hash_String (hd_Hash header)) [] set)) s)
      end
  end.

Definition saveSnapshotIfChanged (parentSnapshot snapshot : Snapshot) (header : Header) (s : SnapshotValidatorStore)
    : SnapshotValidatorStore :=
  if snap_Equal snapshot parentSnapshot then s
  else
    on_store (store_add (mkSnapshot (hd_Number header) (hash_String (hd_Hash header)) (sn_Votes snapshot) (sn_Set snapshot))) s.

Definition resetSnapshot (parentSnapshot snapshot : Snapshot) (header : Header) (s : SnapshotValidatorStore)
    : SnapshotValidatorStore :=
  saveSnapshotIfChanged parentSnapshot (set_votes [] snapshot) header s.

Definition removeLowerSnapshots (currentHeight : Z) (s : SnapshotValidatorStore) : outcome SnapshotValidatorStore :=
  if epochSize =? 0 then Panic
  else
    let lowerEpoch := s64 (s64 (currentHeight / epochSize) - 2) in
    if lowerEpoch >? 0 then
      let purgeBlock := mul64 (u64 lowerEpoch) epochSize in
      let~ st := deleteLower purgeBlock (sv_store s) in
      Ret (mkSVS st (sv_candidates s))
    else Ret s.

(** [ProcessHeader]. *)
Definition snap_ProcessHeader (header : Header) (s : SnapshotValidatorStore)
    : outcome (result snap_err () * SnapshotValidatorStore) :=
  match getSigner (hd_Number header) with
  | Err _ => Ret (Err ErrGetSigner, s)
  | Ok None => Ret (Err (ErrNoSigner (hd_Number header)), s)
  | Ok (Some signer) =>
      let~ recovered := si_EcrecoverFromHeader signer header in
      match recovered with
      | None => Ret (Err ErrSigner, s)
      | Some proposer =>
          match getSnapshot (sub64 (hd_Number header) 1) s with
          | None => Ret (Err ErrSnapshotNotFound, s)
          | Some parentSnap =>
              if negb (set_Includes (sn_Set parentSnap) proposer) then Ret (Err ErrUnauthorizedProposer, s)
              else if epochSize =? 0 then Panic
              else
                let snap := snap_Copy parentSnap in
                if hd_Number header mod epochSize =? 0 then
                  let s := resetSnapshot parentSnap snap header s in
                  let~ s := removeLowerSnapshots (hd_Number header) s in
                  Ret (Ok (), on_store (updateLastBlock (hd_Number header)) s)
                else if bool_decide (hd_Miner header = AddressBytes ZeroAddress) then
                  Ret (Ok (), on_store (updateLastBlock (hd_Number header)) s)
                else
                  match processVote snap header (si_Type signer) proposer with
                  | Err e => Ret (Err e, s)
                  | Ok snap =>
                      let s := on_store (updateLastBlock (hd_Number header)) s in
                      Ret (Ok (), saveSnapshotIfChanged parentSnap snap header s)
                  end
          end
      end
  end.

Section blockchain.
Variable blockchain : HeaderGetter.

(** The loop of [ProcessHeadersInRange]. *)
Fixpoint process_range (fuel : nat) (i to_ : Z) (s : SnapshotValidatorStore)
    : outcome (result snap_err () * SnapshotValidatorStore) :=
  if i <=? to_ then
    match fuel with
    | O => NoFuel
    | S fuel =>
        if i =? 0 then process_range fuel (add64 i 1) to_ s
        else
          match hg_GetHeaderByNumber blockchain i with
          | None => Ret (Err (ErrHeaderNotFound i), s)
          | Some header =>
              let~ (r, s) := snap_ProcessHeader header s in
              match r with Err e => Ret (Err e, s) | Ok _ => process_range fuel (add64 i 1) to_ s end
          end
    end
  else Ret (Ok (), s).

Definition ProcessHeadersInRange (from to_ : Z) : SnapshotValidatorStore → outcome (result snap_err () * SnapshotValidatorStore) :=
  process_range (Z.to_nat (to_ - from + 1)) from to_.

Definition UpdateValidatorSet (newValidators : ValSet) (fromHeight : Z) (s : SnapshotValidatorStore)
    : result snap_err () * SnapshotValidatorStore :=
  let snapshotHeight := sub64 fromHeight 1 in
  match hg_GetHeaderByNumber blockchain snapshotHeight with
  | None => (Err (ErrHeaderNotFound snapshotHeight), s)
  | Some header =>
      (Ok (), on_store (putByNumber (mkSnapshot (hd_Number header) (hash_String (hd_Hash header)) [] newValidators)) s)
  end.

(** The part of [initialize] that starts over at the beginning of the epoch. *)
Definition restoreEpoch (currentEpoch : Z) (s : SnapshotValidatorStore) : outcome (result snap_err () * SnapshotValidatorStore) :=
  let beginHeight := mul64 currentEpoch epochSize in
  match hg_GetHeaderByNumber blockchain beginHeight with
  | None => Ret (Err (ErrHeaderNotFound beginHeight), s)
  | Some beginHeader =>
      let~ (r, s) := addHeaderSnap beginHeader s in
      match r with Err e => Ret (Err e, s) | Ok _ => Ret (Ok (), on_store (updateLastBlock beginHeight) s) end
  end.

Definition snap_initialize (s : SnapshotValidatorStore) : outcome (result snap_err () * SnapshotValidatorStore) :=
  let header := hg_Header blockchain in
  let meta := getLastBlock (sv_store s) in
  let~ (r, s) := if hd_Number header =? 0 then addHeaderSnap header s else Ret (Ok (), s) in
  match r with
  | Err e => Ret (Err e, s)
  | Ok _ =>
      if epochSize =? 0 then Panic
      else
        let currentEpoch := hd_Number header / epochSize in
        let metaEpoch := meta / epochSize in
        let restore := bool_decide (getSnapshot (hd_Number header) s = None) || (metaEpoch <? currentEpoch) in
        let~ (r, s) := if restore then restoreEpoch currentEpoch s else Ret (Ok (), s) in
        match r with
        | Err e => Ret (Err e, s)
        | Ok _ =>
            let meta := if restore then getLastBlock (sv_store s) else meta in
            if hd_Number header >? meta then ProcessHeadersInRange (add64 meta 1) (hd_Number header) s
            else Ret (Ok (), s)
        end
  end.

Definition NewSnapshotValidatorStore (metadata : option Z) (snapshots : list Snapshot)
    : outcome (result snap_err SnapshotValidatorStore) :=
  let~ (r, s) := snap_initialize (mkSVS (newSnapshotStore metadata snapshots) []) in
  Ret (match r with Ok _ => Ok s | Err e => Err e end).
End blockchain.
End store.
