(* ===== verification/SnapshotSpec.v ===== *)
(** What the vote snapshots promise.

    The abstract machine keeps one [poll] per height: the set of validators and
    who voted for whom since the epoch began.  The store keeps a sparse sorted
    list, searches it by bisection and prunes it; [reach] pairs the two under any
    order of its operations, and the theorems say that every height from the
    oldest snapshot on reads as its poll, that snapshots stay well typed, and
    that a set changes only by a majority of its own members. *)
From stdpp Require Import strings.
From S2P Require Import Prelude GoHeap Types Runtime Crypto Rlp RlpTypes Text Validators Snapshot.

(** ** Bisection *)

(** On a predicate that stays true once it is, [sort.Search] finds where it
    becomes true. *)
Lemma search_loop_spec fuel f n i j :
  (∀ a b, (a ≤ b < n)%nat → f a = true → f b = true) →
  (i ≤ j ≤ n)%nat → (j - i < fuel)%nat → (∀ k, (k < i)%nat → f k = false) → (∀ k, (j ≤ k < n)%nat → f k = true) →
  let r := search_loop fuel f i j in
  (r ≤ n)%nat ∧ (∀ k, (k < r)%nat → f k = false) ∧ (∀ k, (r ≤ k < n)%nat → f k = true).
Proof.
  intros Hm. revert i j. induction fuel as [|fuel IH]; intros i j Hij Hf Hlo Hhi; [lia|]. cbn [search_loop].
  destruct (Nat.ltb_spec i j) as [Hlt|Hge].
  - cbv zeta. pose proof (Nat.div2_odd (i + j)) as Hd. set (h := Nat.div2 (i + j)) in *.
    assert (i ≤ h < j)%nat as Hh by (destruct (Nat.odd (i + j)); cbn in Hd; lia).
    destruct (f h) eqn:Hfh; cbn [negb].
    + apply IH; [lia|lia|done|]. intros k Hk. apply (Hm h); [lia|done].
    + apply IH; [lia|lia| |done]. intros k Hk. destruct (f k) eqn:Hfk; [|done].
      by rewrite (Hm k h) in Hfh by (done || lia).
  - cbv zeta. split_and!; [lia|done|]. intros k Hk. apply Hhi. lia.
Qed.

Lemma sort_Search_spec n f :
  (∀ a b, (a ≤ b < n)%nat → f a = true → f b = true) →
  let r := sort_Search n f in
  (r ≤ n)%nat ∧ (∀ k, (k < r)%nat → f k = false) ∧ (∀ k, (r ≤ k < n)%nat → f k = true).
Proof. intros. apply search_loop_spec; [done|lia..]. Qed.

(** ** Lists of snapshots *)

Definition by_number (l : list Snapshot) : Prop := StronglySorted Z.lt (sn_Number <$> l).

Lemma by_number_app l m :
  by_number (l ++ m) ↔ (∀ x y, x ∈ l → y ∈ m → sn_Number x < sn_Number y) ∧ by_number l ∧ by_number m.
Proof.
  unfold by_number. rewrite fmap_app, StronglySorted_app. split.
  - intros (H1 & H2 & H3). split_and!; [|done..]. intros x y Hx Hy. apply H1; by apply list_elem_of_fmap_2.
  - intros (H1 & H2 & H3). split_and!; [|done..].
    intros x y (x' & -> & Hx)%list_elem_of_fmap (y' & -> & Hy)%list_elem_of_fmap. by apply H1.
Qed.

Lemma by_number_one sn : by_number [sn].
Proof. unfold by_number. cbn. repeat constructor. Qed.

Lemma by_number_lookup l i j x y :
  by_number l → l !! i = Some x → l !! j = Some y → (i < j)%nat ↔ sn_Number x < sn_Number y.
Proof.
  intros Hs Hi Hj.
  assert (∀ i j x y, l !! i = Some x → l !! j = Some y → (i < j)%nat → sn_Number x < sn_Number y) as Hlt.
  { clear - Hs. intros i j x y Hi Hj Hij. rewrite <- (take_drop j l) in Hs. apply by_number_app in Hs as (Hs & _ & _).
    apply Hs; eapply list_elem_of_lookup_2.
    - rewrite lookup_take_lt by done. exact Hi.
    - rewrite lookup_drop. by rewrite Nat.add_0_r. }
  split; [by eapply Hlt|]. intros Hn. destruct (decide (i < j)%nat); [done|]. destruct (decide (i = j)) as [->|].
  - assert (x = y) as -> by congruence. lia.
  - pose proof (Hlt j i y x Hj Hi ltac:(lia)). lia.
Qed.

Lemma number_ge_mono l n a b : by_number l → (a ≤ b < length l)%nat → number_ge l n a = true → number_ge l n b = true.
Proof.
  unfold number_ge. intros Hs Hab Ha. destruct (l !! a) as [x|] eqn:Hx; [|done].
  destruct (lookup_lt_is_Some_2 l b) as [y Hy]; [lia|]. rewrite Hy. apply Z.geb_le in Ha. apply Z.geb_le.
  destruct (decide (a = b)) as [->|]; [by simplify_eq|]. pose proof (proj1 (by_number_lookup l a b x y Hs Hx Hy)). lia.
Qed.

(** The search finds the last snapshot at or below a height. *)
Lemma find_split n lst l1 sn l2 :
  by_number (l1 ++ sn :: l2) → sn_Number sn ≤ n → Forall (λ x, n < sn_Number x) l2 →
  find n (mkStore lst (l1 ++ sn :: l2)) = Some sn.
Proof.
  intros Hs Hn Hl2. unfold find. cbn [st_list].
  assert (∀ x, x ∈ l1 → sn_Number x < sn_Number sn) as Hl1.
  { intros x Hx. apply by_number_app in Hs as (H1 & _ & _). apply H1; [done|]. apply elem_of_cons. by left. }
  pose proof (sort_Search_spec _ _ (λ a b, number_ge_mono _ n a b Hs)) as (Hr & Hlo & Hhi). cbv zeta in *.
  set (l := l1 ++ sn :: l2) in *. set (r := sort_Search (length l) (number_ge l n)) in *.
  assert (l !! length l1 = Some sn) as Hsn by (unfold l; by rewrite list_lookup_middle).
  destruct (list.last l) as [e|] eqn:He; [|by unfold l in He; rewrite last_app_cons, last_cons in He; destruct (list.last l2)].
  destruct (Z.ltb_spec (sn_Number e) n) as [Hlt|Hge].
  { unfold l in He. rewrite last_app_cons, last_cons in He. destruct (list.last l2) as [x|] eqn:Hx; [|done]. simplify_eq.
    apply last_Some_elem_of in Hx. eapply Forall_forall in Hl2; [|exact Hx]. cbn in Hl2. lia. }
  assert (r < length l)%nat as Hlt.
  { rewrite last_lookup in He. pose proof (lookup_lt_Some _ _ _ He) as Hlen. destruct (decide (r = length l)) as [Hrl|]; [|lia].
    pose proof (Hlo (pred (length l)) ltac:(lia)) as Hf. unfold number_ge in Hf. rewrite He in Hf. lia. }
  rewrite (proj2 (Nat.ltb_lt _ _)) by done.
  destruct (lookup_lt_is_Some_2 l r Hlt) as [x Hx]. rewrite Hx. pose proof (Hhi r ltac:(lia)) as Hxr. unfold number_ge in Hxr. rewrite Hx in Hxr.
  destruct (decide (sn_Number sn = n)) as [Heq|Hne].
  - assert (r = length l1) as Hrl.
    { destruct (Nat.lt_trichotomy r (length l1)) as [H1|[H1|H1]]; [|done|].
      - pose proof (proj1 (by_number_lookup l _ _ _ _ Hs Hx Hsn) H1). lia.
      - pose proof (Hlo _ H1) as Hf. unfold number_ge in Hf. rewrite Hsn in Hf. lia. }
    rewrite Hrl in Hx |- *. rewrite Hx in Hsn. injection Hsn as ->. rewrite Heq, Z.eqb_refl.
    destruct (Nat.eqb_spec (length l1) 0) as [H0|]; [by rewrite <- H0|done].
  - assert (r = S (length l1)) as Hrl.
    { destruct (Nat.lt_trichotomy r (S (length l1))) as [H1|[H1|H1]]; [|done|].
      - destruct (decide (r = length l1)) as [->|]; [rewrite Hsn in Hx; simplify_eq; lia|].
        pose proof (proj1 (by_number_lookup l r (length l1) _ _ Hs Hx Hsn)). lia.
      - destruct (lookup_lt_is_Some_2 l (S (length l1))) as [y Hy]; [lia|]. pose proof (Hlo _ H1) as Hf. unfold number_ge in Hf. rewrite Hy in Hf.
        unfold l in Hy. rewrite lookup_app_r in Hy by lia. replace (S (length l1) - length l1)%nat with 1%nat in Hy by lia.
        cbn in Hy. apply list_elem_of_lookup_2 in Hy. eapply Forall_forall in Hl2; [|exact Hy]. cbn in Hl2. lia. }
    rewrite Hrl in Hx |- *. cbn [Nat.eqb]. unfold l in Hx. rewrite lookup_app_r in Hx by lia.
    replace (S (length l1) - length l1)%nat with 1%nat in Hx by lia. cbn in Hx. apply list_elem_of_lookup_2 in Hx.
    eapply Forall_forall in Hl2; [|exact Hx]. cbn in Hl2. rewrite (proj2 (Z.eqb_neq _ _)) by lia.
    by rewrite Nat.sub_succ, Nat.sub_0_r.
Qed.

(** A height at or above the oldest snapshot has one. *)
Lemma by_number_split n sn l :
  by_number (sn :: l) → sn_Number sn ≤ n →
  ∃ l1 x l2, sn :: l = l1 ++ x :: l2 ∧ sn_Number x ≤ n ∧ Forall (λ y, n < sn_Number y) l2.
Proof.
  revert sn. induction l as [|y l IH]; intros sn Hs Hn; [by exists [], sn, []|].
  destruct (decide (sn_Number y ≤ n)) as [Hy|Hy].
  - change (sn :: y :: l) with ([sn] ++ y :: l) in Hs. apply by_number_app in Hs as (_ & _ & Hs).
    destruct (IH y Hs Hy) as (l1 & x & l2 & E & Hx & Hl2). exists (sn :: l1), x, l2. split_and!; [|done..]. by rewrite E.
  - exists [], sn, (y :: l). split_and!; [done..|]. apply Forall_cons. split; [lia|].
    change (sn :: y :: l) with ([sn; y] ++ l) in Hs. apply by_number_app in Hs as (Hs & _ & _).
    apply Forall_forall. intros z Hz. pose proof (Hs y z ltac:(set_solver) Hz). lia.
Qed.

Lemma number_at_Z l i sn : 0 ≤ i → l !! Z.to_nat i = Some sn → number_at l i = Ret (sn_Number sn).
Proof. intros Hi H. unfold number_at. rewrite H. by rewrite (proj2 (Z.ltb_ge _ _)) by lia. Qed.

Lemma number_at_Some l i sn : l !! i = Some sn → number_at l (Z.of_nat i) = Ret (sn_Number sn).
Proof. intros H. apply number_at_Z; [lia|]. by rewrite Nat2Z.id. Qed.

Lemma closest_loop_ok fuel l bn low high :
  by_number l →
  0 ≤ low ≤ high + 1 → high < Z.of_nat (length l) → high - low + 1 < Z.of_nat fuel →
  (∀ k sn, l !! k = Some sn → Z.of_nat k < low → sn_Number sn < bn) →
  (∀ k sn, l !! k = Some sn → high < Z.of_nat k → bn < sn_Number sn) →
  (∃ sn, head l = Some sn ∧ sn_Number sn ≤ bn) → (∃ sn, last l = Some sn ∧ bn ≤ sn_Number sn) →
  ∃ k, closest_loop fuel l bn low high = Ret (Z.of_nat k) ∧ (k < length l)%nat ∧
       ∀ i sn, l !! i = Some sn → (i < k)%nat → sn_Number sn < bn.
Proof.
  intros Hs. revert low high. induction fuel as [|fuel IH]; intros low high Hl Hh Hf Hlo Hhi Hfst Hlst; [lia|].
  cbn [closest_loop]. destruct (Z.leb_spec low high) as [Hle|Hgt].
  - set (m := Z.to_nat ((high + low) / 2)).
    assert (low ≤ (high + low) / 2 ≤ high) as Hm by (Z.div_mod_to_equations; lia).
    destruct (lookup_lt_is_Some_2 l m) as [x Hx]; [lia|]. replace ((high + low) / 2) with (Z.of_nat m) in * by lia.
    rewrite (number_at_Some _ _ _ Hx). cbn [obind].
    destruct (Z.ltb_spec bn (sn_Number x)); [|destruct (Z.gtb_spec bn (sn_Number x))].
    + apply IH; try done; try lia. intros k sn Hk Hgt. destruct (decide (k = m)) as [->|]; [by simplify_eq|].
      pose proof (proj1 (by_number_lookup l m k x sn Hs Hx Hk)). lia.
    + apply IH; try done; try lia. intros k sn Hk Hgt. destruct (decide (k = m)) as [->|]; [by simplify_eq|].
      pose proof (proj1 (by_number_lookup l k m sn x Hs Hk Hx)). lia.
    + exists m. split_and!; [done|lia|]. intros i sn Hi Him. pose proof (proj1 (by_number_lookup l i m sn x Hs Hi Hx) Him). lia.
  - assert (low = high + 1) as -> by lia. destruct Hfst as (sf & Ef & Hsf), Hlst as (sl & El & Hsl).
    rewrite head_lookup in Ef. rewrite last_lookup in El. pose proof (lookup_lt_Some _ _ _ El).
    assert (0 ≤ high) as Hh0. { destruct (decide (0 ≤ high)); [done|]. pose proof (Hhi _ _ Ef ltac:(lia)). lia. }
    assert (high + 1 < Z.of_nat (length l)) as Hh1.
    { destruct (decide (high + 1 < Z.of_nat (length l))); [done|]. pose proof (Hlo _ _ El ltac:(lia)). lia. }
    destruct (lookup_lt_is_Some_2 l (Z.to_nat (high + 1))) as [y Hy]; [lia|].
    destruct (lookup_lt_is_Some_2 l (Z.to_nat high)) as [x Hx]; [lia|].
    rewrite (number_at_Z l (high + 1) y ltac:(lia) Hy), (number_at_Z _ _ _ Hh0 Hx). cbn [obind].
    destruct (_ <? _).
    + exists (Z.to_nat high). split_and!; [f_equal; lia|lia|]. intros i sn Hi Hik. apply (Hlo _ _ Hi). lia.
    + exists (Z.to_nat (high + 1)). split_and!; [f_equal; lia|lia|]. intros i sn Hi Hik. apply (Hlo _ _ Hi). lia.
Qed.

(** Pruning ends, leaves a snapshot and drops only snapshots below the bound. *)
Lemma deleteLower_ok num s :
  by_number (st_list s) → st_list s ≠ [] →
  ∃ k, deleteLower num s = Ret (mkStore (st_lastNumber s) (drop k (st_list s))) ∧ (k < length (st_list s))%nat ∧
       ∀ i sn, st_list s !! i = Some sn → (i < k)%nat → sn_Number sn < num.
Proof.
  destruct s as [lst l]. cbn [st_list st_lastNumber]. intros Hs Hne. unfold deleteLower, findClosestSnapshotIndex. cbn [st_list].
  destruct (lookup_lt_is_Some_2 l 0) as [f Hf]; [destruct l; [done|cbn; lia]|].
  destruct (lookup_lt_is_Some_2 l (pred (length l))) as [e He]; [destruct l; [done|cbn; lia]|].
  pose proof (lookup_lt_Some _ _ _ He) as Hlen. rewrite (number_at_Z l 0 f (Z.le_refl 0) Hf). cbn [obind].
  destruct (Z.ltb_spec num (sn_Number f)).
  { exists 0%nat. cbn. split_and!; [done|lia|lia]. }
  replace (Z.of_nat (length l) - 1) with (Z.of_nat (pred (length l))) by lia. rewrite (number_at_Some _ _ _ He). cbn [obind].
  destruct (Z.gtb_spec num (sn_Number e)) as [Hgt|Hle].
  { exists (pred (length l)). cbn. rewrite Nat2Z.id. split_and!; [done|lia|]. intros i sn Hi Hik.
    pose proof (proj1 (by_number_lookup l i (pred (length l)) sn e Hs Hi He)). lia. }
  destruct (closest_loop_ok (S (length l)) l num 0 (Z.of_nat (pred (length l)))) as (k & -> & Hk & Hd); try done; try lia.
  - intros k sn Hk Hgt. apply lookup_lt_Some in Hk. lia.
  - exists f. by rewrite head_lookup.
  - exists e. rewrite last_lookup. split; [done|lia].
  - exists k. cbn. by rewrite Nat2Z.id.
Qed.

#[export] Instance snap_Less_order : StrictWeakOrder snap_Less.
Proof. unfold snap_Less. split; intros *; rewrite ?Z.ltb_lt, ?Z.ltb_ge; lia. Qed.

Section adding.
Context `{GoSortLaws}.

(** A snapshot later than the others goes to the end, whatever the sort. *)
Lemma store_add_last lst l sn : by_number (l ++ [sn]) → store_add sn (mkStore lst l) = mkStore lst (l ++ [sn]).
Proof.
  intros Hs. unfold store_add. cbn. f_equal. apply (StronglySorted_unique_strong (λ x y, snap_Less y x = false)).
  - unfold snap_Less. intros x y Hx Hy H1%Z.ltb_ge H2%Z.ltb_ge. rewrite sort_Sort_Permutation in Hx.
    apply list_elem_of_lookup_1 in Hx as [i Hi], Hy as [j Hj].
    pose proof (proj2 (by_number_lookup _ i j _ _ Hs Hi Hj)). pose proof (proj2 (by_number_lookup _ j i _ _ Hs Hj Hi)).
    destruct (Nat.lt_trichotomy i j) as [Hij|[->|Hij]]; [|congruence|].
    + apply (by_number_lookup _ i j _ _ Hs Hi Hj) in Hij. lia.
    + apply (by_number_lookup _ j i _ _ Hs Hj Hi) in Hij. lia.
  - apply sort_Sort_Sorted. apply snap_Less_order.
  - clear - Hs. unfold by_number in Hs. induction (l ++ [sn]) as [|x m IH]; [constructor|].
    rewrite fmap_cons in Hs. apply StronglySorted_inv in Hs as [Hs Hx]. constructor; [by apply IH|].
    rewrite Forall_fmap in Hx. eapply Forall_impl; [exact Hx|]. intros y. unfold snap_Less. cbn. rewrite Z.ltb_ge. lia.
  - apply sort_Sort_Permutation.
Qed.

(** Replacing the snapshot of the last height, or adding it. *)
Lemma putByNumber_last lst l sn :
  by_number l → (∀ x, x ∈ l → sn_Number x ≤ sn_Number sn) →
  putByNumber sn (mkStore lst l) = mkStore lst (filter (λ x, sn_Number x ≠ sn_Number sn) l ++ [sn]).
Proof.
  intros Hs Hle.
  assert (∀ m : list Snapshot, (∀ x, x ∈ m → sn_Number x < sn_Number sn) → filter (λ x, sn_Number x ≠ sn_Number sn) m = m) as Hfil.
  { induction m as [|x m IH]; intros Hm; [done|]. rewrite filter_cons_True, IH; [done|set_solver|].
    pose proof (Hm x ltac:(set_solver)). lia. }
  unfold putByNumber. cbn [st_list st_lastNumber].
  destruct (list.last l) as [x|] eqn:Hlast.
  2: { apply last_None in Hlast as ->. apply (store_add_last lst []), by_number_one. }
  apply last_Some in Hlast as [m ->]. pose proof (proj1 (by_number_app _ _) Hs) as (Hm & _ & _).
  assert (∀ y, y ∈ m → sn_Number y < sn_Number sn) as Hmlt.
  { intros y Hy. pose proof (Hm y x Hy ltac:(set_solver)). pose proof (Hle x ltac:(set_solver)). lia. }
  assert (∀ k, (k < length m)%nat → number_eq (m ++ [x]) (sn_Number sn) k = false) as Hne.
  { intros k Hk. destruct (lookup_lt_is_Some_2 m k Hk) as [y Hy]. unfold number_eq. rewrite lookup_app_l, Hy by done.
    apply list_elem_of_lookup_2 in Hy. apply Z.eqb_neq. pose proof (Hmlt y Hy). lia. }
  destruct (sort_Search_spec (length (m ++ [x])) (number_eq (m ++ [x]) (sn_Number sn))) as (Hr & Hlo & Hhi).
  { intros a b Hab Ha. rewrite length_app in Hab. cbn in Hab. assert (b = a) as ->; [|done].
    destruct (decide (a < length m)%nat) as [Hlt|]; [by rewrite Hne in Ha|lia]. }
  cbv zeta in *. set (r := sort_Search _ _) in *. rewrite length_app in *. cbn [length] in *.
  assert (number_eq (m ++ [x]) (sn_Number sn) (length m) = (sn_Number x =? sn_Number sn)) as Hx.
  { unfold number_eq. by rewrite list_lookup_middle. }
  rewrite filter_app, (Hfil m Hmlt). destruct (Z.eqb_spec (sn_Number x) (sn_Number sn)) as [Heq|Hneq].
  - assert (r = length m) as ->.
    { destruct (Nat.lt_trichotomy r (length m)) as [Hlt|[|Hgt]]; [|done|].
      - pose proof (Hhi r ltac:(lia)) as Hf. by rewrite Hne in Hf.
      - rewrite Hlo in Hx by lia. done. }
    rewrite (proj2 (Nat.ltb_lt _ _)) by lia. rewrite filter_cons_False by (intros []; done). cbn.
    rewrite insert_app_r_alt, Nat.sub_diag by lia. cbn. by rewrite app_nil_r.
  - assert (r = length m + 1)%nat as ->.
    { destruct (decide (r ≤ length m)%nat) as [Hlt|]; [|lia]. rewrite Hhi in Hx by lia. done. }
    rewrite Nat.ltb_irrefl, filter_cons_True by done. cbn. apply store_add_last. apply by_number_app. split_and!; [|done|].
    + intros y z Hy ->%list_elem_of_singleton. pose proof (Hle y Hy). apply elem_of_app in Hy as [Hy|Hy]; [by apply Hmlt|].
      apply list_elem_of_singleton in Hy as ->. lia.
    + apply by_number_one.
Qed.
End adding.

(** ** Polls *)

(** The set of validators and who voted for whom. *)
Record poll := mkPoll {
  p_set : ValSet;
  p_ballots : gset (Address * Validator);
}.

Definition votes_for (c : Validator) (b : gset (Address * Validator)) : gset (Address * Validator) :=
  filter (λ x, x.2 = c) b.

(** A vote to add or to drop [c] that the set does not already satisfy.  With a
    strict majority of the validators it takes effect: the votes for [c] are
    spent, and a validator that leaves takes its own votes along. *)
Definition cast (voter : Address) (c : Validator) (add : bool) (p : poll) : poll :=
  if eqb add (bool_decide (v_Addr c ∈ addrs (p_set p))) then p
  else
    let b := {[ (voter, c) ]} ∪ p_ballots p in
    if decide (set_Len (p_set p) < 2 * Z.of_nat (size (votes_for c b))) then
      mkPoll
        (mkSet (vs_Type (p_set p))
          (if add then vs_Validators (p_set p) ++ [c] else filter (λ v, v_Addr v ≠ v_Addr c) (vs_Validators (p_set p))))
        (filter (λ x, x.2 ≠ c ∧ (add = true ∨ x.1 ≠ v_Addr c)) b)
    else mkPoll (p_set p) b.

Definition pair_of (v : Vote) : Address * Validator := (vt_Validator v, vt_Candidate v).

Definition poll_of (s : Snapshot) : poll := mkPoll (sn_Set s) (list_to_set (pair_of <$> sn_Votes s)).

(** A set without duplicates and of one type, and at most one vote of each of
    its members for each candidate. *)
Record snap_ok (s : Snapshot) : Prop := {
  sk_set : set_ok (sn_Set s);
  sk_once : NoDup (pair_of <$> sn_Votes s);
  sk_members : ∀ v, v ∈ sn_Votes s → vt_Validator v ∈ addrs (sn_Set s);
}.

Lemma snap_Count_filter (h : Vote → bool) s : snap_Count h s = Z.of_nat (length (filter (λ v, h v = true) (sn_Votes s))).
Proof.
  unfold snap_Count. generalize (sn_Votes s). intros l.
  assert (∀ n, foldl (λ count v, if h v then count + 1 else count) n l = n + Z.of_nat (length (filter (λ v, h v = true) l))) as Hn.
  { induction l as [|v l IH]; intros n; [cbn; lia|]. cbn [foldl]. rewrite IH, filter_cons.
    destruct (h v); [rewrite decide_True by done|rewrite decide_False by done]; cbn; lia. }
  rewrite Hn. lia.
Qed.

Lemma snap_Count_0 h s : snap_Count h s = 0 ↔ ∀ v, v ∈ sn_Votes s → h v = false.
Proof.
  rewrite snap_Count_filter. split.
  - intros H0 v Hv. destruct (h v) eqn:Hh; [|done].
    assert (v ∈ filter (λ v, h v = true) (sn_Votes s)) as Hin by (by apply list_elem_of_filter).
    destruct (filter _ _); [by apply elem_of_nil in Hin|cbn in H0; lia].
  - intros Hv. assert (filter (λ v, h v = true) (sn_Votes s) = []) as ->; [|done].
    apply elem_of_nil_inv. intros v [Hh Hin]%list_elem_of_filter. by rewrite Hv in Hh.
Qed.

(** Each validator counts once. *)
Lemma snap_Count_le_1 s voter c :
  NoDup (pair_of <$> sn_Votes s) → CountByVoterAndCandidate voter c s ≤ 1.
Proof.
  intros Hn. unfold CountByVoterAndCandidate. rewrite snap_Count_filter.
  assert (∀ l, NoDup (pair_of <$> l) → (∀ v, v ∈ l → pair_of v = (voter, c)) → (length l ≤ 1)%nat) as Hle.
  { intros [|x [|y l]] Hl Hall; cbn; try lia. exfalso. cbn in Hl. apply NoDup_cons in Hl as [Hx _]. apply Hx, elem_of_cons. left.
    rewrite (Hall x), (Hall y) by set_solver. done. }
  apply (Nat2Z.inj_le _ 1), Hle.
  - eapply sublist_NoDup; [exact Hn|]. apply fmap_sublist, sublist_filter.
  - intros v [[H1%Z.eqb_eq H2%v_Equal_spec]%andb_true_iff _]%list_elem_of_filter. unfold pair_of. congruence.
Qed.

Lemma CountByCandidate_size c s :
  NoDup (pair_of <$> sn_Votes s) → CountByCandidate c s = Z.of_nat (size (votes_for c (p_ballots (poll_of s)))).
Proof.
  intros Hn. unfold CountByCandidate, votes_for, poll_of. cbn. rewrite snap_Count_filter. f_equal.
  rewrite <- (length_fmap pair_of), <- (size_list_to_set (C := gset (Address * Validator))).
  - f_equal. apply set_eq. intros [a v]. rewrite elem_of_filter, !elem_of_list_to_set, !list_elem_of_fmap. cbn. split.
    + intros (x & E & [Hx%v_Equal_spec Hin]%list_elem_of_filter). unfold pair_of in E. split; [naive_solver|]. by exists x.
    + intros (-> & x & E & Hx). exists x. split; [done|]. apply list_elem_of_filter. split; [|done].
      apply v_Equal_spec. unfold pair_of in E. naive_solver.
  - eapply sublist_NoDup; [exact Hn|]. apply fmap_sublist, sublist_filter.
Qed.

(** Casting a vote that may be there already. *)
Definition cast_once (voter : Address) (c : Validator) (add : bool) (s : Snapshot) : Snapshot :=
  if CountByVoterAndCandidate voter c s =? 0 then AddVote voter c add s else s.

Lemma cast_once_ok voter c add s :
  snap_ok s → voter ∈ addrs (sn_Set s) →
  snap_ok (cast_once voter c add s) ∧ sn_Set (cast_once voter c add s) = sn_Set s ∧
  p_ballots (poll_of (cast_once voter c add s)) = {[ (voter, c) ]} ∪ p_ballots (poll_of s).
Proof.
  intros [Hs Ho Hm] Hv. unfold cast_once. destruct (Z.eqb_spec (CountByVoterAndCandidate voter c s) 0) as [H0|H0].
  - unfold CountByVoterAndCandidate in H0. rewrite snap_Count_0 in H0. assert ((voter, c) ∉ pair_of <$> sn_Votes s) as Hnew.
    { intros (v & E & Hin)%list_elem_of_fmap. pose proof (H0 v Hin) as Hf. unfold pair_of in E.
      injection E as -> ->. by rewrite Z.eqb_refl, v_Equal_refl in Hf. }
    split_and!; [|done|].
    + split; cbn; [done| |].
      * rewrite fmap_app. apply NoDup_app. split_and!; [done| |apply NoDup_singleton].
        intros x Hx ->%list_elem_of_singleton. done.
      * intros v [Hin|Hin]%elem_of_app; [by apply Hm|]. by apply list_elem_of_singleton in Hin as ->.
    + cbn. rewrite fmap_app, list_to_set_app_L. cbn. rewrite union_empty_r_L. by rewrite union_comm_L.
  - split_and!; [done..|]. apply set_eq. intros x. rewrite elem_of_union, elem_of_singleton. split; [by right|].
    intros [->|]; [|done]. cbn. apply elem_of_list_to_set.
    destruct (decide ((voter, c) ∈ pair_of <$> sn_Votes s)) as [|Hn]; [done|]. exfalso. apply H0. unfold CountByVoterAndCandidate. apply snap_Count_0.
    intros v Hin. apply andb_false_iff. destruct (Z.eqb_spec (vt_Validator v) voter) as [E|]; [right|by left].
    apply not_true_is_false. intros Ec%v_Equal_spec. apply Hn, list_elem_of_fmap. exists v. unfold pair_of. split; [congruence|done].
Qed.

(** Removing votes keeps a snapshot whose voters stay members. *)
Lemma RemoveVotes_ok (r : Vote → bool) s set :
  NoDup (pair_of <$> sn_Votes s) → set_ok set →
  (∀ v, v ∈ sn_Votes s → r v = false → vt_Validator v ∈ addrs set) → snap_ok (RemoveVotes r (set_set set s)).
Proof.
  intros Hn Hs Hm. split; cbn; [done| |].
  - eapply sublist_NoDup; [exact Hn|]. apply fmap_sublist, sublist_filter.
  - intros v [Hr Hv]%list_elem_of_filter. by apply Hm.
Qed.

Lemma filter_ballots (P : Address * Validator → Prop) `{!∀ x, Decision (P x)} (Q : Vote → Prop) `{!∀ x, Decision (Q x)} (l : list Vote) :
  (∀ v, Q v ↔ P (pair_of v)) →
  filter P (list_to_set (pair_of <$> l) : gset (Address * Validator)) = list_to_set (pair_of <$> filter Q l).
Proof.
  intros HPQ. apply set_eq. intros x. rewrite elem_of_filter, !elem_of_list_to_set, !list_elem_of_fmap. split.
  - intros (HP & v & -> & Hv). exists v. split; [done|]. apply list_elem_of_filter. by rewrite HPQ.
  - intros (v & -> & [HQ Hv]%list_elem_of_filter). split; [by apply HPQ|by exists v].
Qed.

Lemma majority_half n k : 0 ≤ n → k > n / 2 ↔ n < 2 * k.
Proof. intros. Z.div_mod_to_equations. lia. Qed.

(** The end of [processVote], once the vote is there. *)
Definition tally (c : Validator) (add : bool) (s : Snapshot) : result snap_err Snapshot :=
  if CountByCandidate c s >? set_Len (sn_Set s) / 2 then
    match addsOrDelsCandidate (sn_Set s) c add with
    | Err e => Err (ErrVal e)
    | Ok set =>
        let s := set_set set s in
        let s := if negb add then RemoveVotesByVoter (v_Addr c) s else s in
        Ok (RemoveVotesByCandidate c s)
    end
  else Ok s.

Lemma tally_add_ok c s s' :
  snap_ok s → CountByCandidate c s > set_Len (sn_Set s) / 2 → tally c true s = Ok s' →
  snap_ok s' ∧ poll_of s' = mkPoll (mkSet (vs_Type (sn_Set s)) (vs_Validators (sn_Set s) ++ [c]))
                              (filter (λ x, x.2 ≠ c ∧ (true = true ∨ x.1 ≠ v_Addr c)) (p_ballots (poll_of s))).
Proof.
  intros [Hs Ho Hm] Hc. unfold tally. rewrite (proj2 (Z.gtb_lt _ _)) by lia. cbn [addsOrDelsCandidate negb].
  destruct (set_Add (sn_Set s) c) as [set|] eqn:Ha; [|done]. intros [= <-].
  destruct (set_Add_ok _ _ _ Hs Ha) as (Hok & Ht & Hv). split.
  - apply RemoveVotes_ok; [done..|]. intros v Hv' _. unfold addrs. rewrite Hv, fmap_app. apply elem_of_app. left. by apply Hm.
  - unfold poll_of. cbn. f_equal; [destruct set; cbn in *; congruence|]. symmetry. apply filter_ballots.
    intros v. cbn. rewrite <- not_true_iff_false, v_Equal_spec. tauto.
Qed.

Lemma tally_drop_ok c s s' :
  snap_ok s → CountByCandidate c s > set_Len (sn_Set s) / 2 → tally c false s = Ok s' →
  snap_ok s' ∧ poll_of s' = mkPoll (mkSet (vs_Type (sn_Set s)) (filter (λ v, v_Addr v ≠ v_Addr c) (vs_Validators (sn_Set s))))
                              (filter (λ x, x.2 ≠ c ∧ (false = true ∨ x.1 ≠ v_Addr c)) (p_ballots (poll_of s))).
Proof.
  intros [Hs Ho Hm] Hc. unfold tally. rewrite (proj2 (Z.gtb_lt _ _)) by lia. cbn [addsOrDelsCandidate negb].
  destruct (set_Del (sn_Set s) c) as [set|] eqn:Ha; [|done]. intros [= <-].
  destruct (set_Del_ok _ _ _ Hs Ha) as (Hok & Ht & _ & Hv). split.
  - apply (RemoveVotes_ok _ (RemoveVotesByVoter (v_Addr c) s)); cbn; [|done|].
    + eapply sublist_NoDup; [exact Ho|]. apply fmap_sublist, sublist_filter.
    + intros v [Hne%Z.eqb_neq Hv']%list_elem_of_filter _. pose proof (Hm v Hv') as Hin. unfold addrs in *. rewrite Hv.
      apply list_elem_of_fmap in Hin as (w & E & Hw). apply list_elem_of_fmap. exists w. split; [done|].
      apply list_elem_of_filter. split; [congruence|done].
  - unfold poll_of. cbn. f_equal; [destruct set; cbn in *; congruence|]. rewrite list_filter_filter. symmetry. apply filter_ballots.
    intros v. cbn. rewrite <- not_true_iff_false, v_Equal_spec, Z.eqb_neq. naive_solver.
Qed.

Section process.
Context `{External} `{RlpReader}.

(** [processVote] in these words; nobody has voted twice. *)
Lemma processVote_unfold s hd t proposer :
  NoDup (pair_of <$> sn_Votes s) →
  processVote s hd t proposer =
    (let? add := isAuthorize (hd_Nonce hd) in
     let? c := minerToValidator t (hd_Miner hd) in
     if negb (shouldProcessVote (sn_Set s) (v_Addr c) add) then Ok s else tally c add (cast_once proposer c add s)).
Proof.
  intros Hn. unfold processVote. destruct (isAuthorize _) as [add|]; [|done]. destruct (minerToValidator _ _) as [c|]; [|done].
  destruct (negb (shouldProcessVote _ _ _)); [done|]. pose proof (snap_Count_le_1 s proposer c Hn).
  rewrite Z.gtb_ltb, (proj2 (Z.ltb_ge _ _)) by lia. done.
Qed.

Lemma processVote_ok s hd t proposer s' :
  snap_ok s → proposer ∈ addrs (sn_Set s) → processVote s hd t proposer = Ok s' →
  ∃ c add, isAuthorize (hd_Nonce hd) = Ok add ∧ minerToValidator t (hd_Miner hd) = Ok c ∧
           snap_ok s' ∧ poll_of s' = cast proposer c add (poll_of s).
Proof.
  intros Hs Hp. rewrite processVote_unfold by apply Hs.
  destruct (isAuthorize _) as [add|]; [|done]. destruct (minerToValidator _ _) as [c|]; [|done].
  intros Hr. exists c, add. split; [done|]. split; [done|]. revert Hr. unfold cast, shouldProcessVote. rewrite negb_involutive.
  assert (set_Includes (sn_Set s) (v_Addr c) = bool_decide (v_Addr c ∈ addrs (p_set (poll_of s)))) as ->.
  { apply eq_true_iff_eq. by rewrite set_Includes_spec, bool_decide_eq_true. }
  destruct (eqb _ _); [intros [= <-]; done|].
  destruct (cast_once_ok proposer c add s Hs Hp) as (Hs1 & Eset & Eb). rewrite <- Eb.
  assert (set_Len (p_set (poll_of s)) = set_Len (sn_Set (cast_once proposer c add s))) as El by (by rewrite Eset).
  rewrite El. rewrite <- CountByCandidate_size by apply Hs1. change (p_set (poll_of s)) with (sn_Set s). rewrite <- Eset.
  generalize (cast_once proposer c add s) as s1, Hs1. clear. intros s1 Hs1. cbv zeta.
  pose proof (majority_half (set_Len (sn_Set s1)) (CountByCandidate c s1) ltac:(unfold set_Len; lia)) as Hmaj.
  case_decide as Hd.
  - rewrite <- Hmaj in Hd. destruct add; [by apply tally_add_ok|by apply tally_drop_ok].
  - unfold tally. rewrite Z.gtb_ltb, (proj2 (Z.ltb_ge _ _)) by lia. intros [= <-]. split; [done|by destruct s1].
Qed.
End process.

(** ** Reading a list of snapshots *)

Lemma snap_Equal_spec s ss : snap_Equal s ss = true ↔ sn_Votes s = sn_Votes ss ∧ sn_Set s = sn_Set ss.
Proof.
  unfold snap_Equal. destruct (Nat.eqb_spec (length (sn_Votes s)) (length (sn_Votes ss))) as [Hl|Hl]; cbn [negb].
  2: { split; [done|]. intros [E _]. by rewrite E in Hl. }
  assert (∀ l l', length l = length l' → votes_Equal l l' = true ↔ l = l') as Hv.
  { clear. induction l as [|[a c b] l IH]; intros [|[a' c' b'] l'] Hl; simpl; try done.
    unfold vote_Equal. cbn. rewrite andb_true_iff, IH by (cbn in Hl; lia).
    destruct (Z.eqb_spec a a') as [->|]; cbn; [|split; naive_solver].
    destruct (v_Equal c c') eqn:Ec; cbn; [apply v_Equal_spec in Ec as ->|].
    - destruct b, b'; cbn; naive_solver.
    - assert (c ≠ c') by (intros ->; by rewrite v_Equal_refl in Ec). naive_solver. }
  destruct (votes_Equal _ _) eqn:He; cbn [negb]; [apply Hv in He; [|done]|].
  - rewrite set_Equal_spec. tauto.
  - split; [done|]. intros [E _]. apply Hv in E; [|done]. congruence.
Qed.

Lemma find_last h lst l x : by_number (l ++ [x]) → sn_Number x ≤ h → find h (mkStore lst (l ++ [x])) = Some x.
Proof. intros. apply find_split; [done|done|constructor]. Qed.

Lemma find_app h lst lst' sn l x :
  by_number ((sn :: l) ++ [x]) → sn_Number sn ≤ h < sn_Number x →
  find h (mkStore lst ((sn :: l) ++ [x])) = find h (mkStore lst' (sn :: l)).
Proof.
  intros Hs Hh. pose proof (proj1 (by_number_app _ _) Hs) as (_ & Hs1 & _).
  destruct (by_number_split h sn l Hs1 ltac:(lia)) as (l1 & y & l2 & E & Hy & Hl2). rewrite E in *.
  rewrite (find_split _ _ l1 y l2) by done. rewrite <- app_assoc in Hs |- *. cbn [app] in Hs |- *. apply find_split; [done..|].
  apply Forall_app. split; [done|]. constructor; [lia|constructor].
Qed.

Lemma find_drop h lst lst' k sn rest l :
  by_number l → drop k l = sn :: rest → sn_Number sn ≤ h →
  find h (mkStore lst (drop k l)) = find h (mkStore lst' l).
Proof.
  intros Hs Hd Hh. rewrite <- (take_drop k l) in Hs. pose proof (proj1 (by_number_app _ _) Hs) as (_ & _ & Hs1).
  rewrite Hd in Hs1. destruct (by_number_split h sn rest Hs1 Hh) as (l1 & y & l2 & E & Hy & Hl2).
  rewrite <- (take_drop k l) at 2. rewrite Hd, E in Hs |- *. rewrite app_assoc in Hs |- *. rewrite E in Hs1.
  rewrite !find_split by done. done.
Qed.

Lemma find_elem h lst sn l :
  by_number (sn :: l) → sn_Number sn ≤ h → ∃ x, find h (mkStore lst (sn :: l)) = Some x ∧ x ∈ sn :: l.
Proof.
  intros Hs Hh. destruct (by_number_split h sn l Hs Hh) as (l1 & y & l2 & E & Hy & Hl2). rewrite E in *.
  exists y. split; [by apply find_split|]. set_solver.
Qed.

(** ** The store and its polls *)

Record entry := mkEntry {
  e_header : Header;
  e_poll : poll;
}.

Section machine.
Context `{External} `{RlpReader} `{GoSortLaws}.
Variable getSigner : Z → result () (option SignerInterface).
Variable epochSize : Z.
Hypothesis epochSize_pos : 0 < epochSize.

(** The vote a header carries: who proposed it, for whom, to add or to drop. *)
Definition ballot (hd : Header) : option (Address * Validator * bool) :=
  match getSigner (hd_Number hd) with
  | Ok (Some signer) =>
      match si_EcrecoverFromHeader signer hd with
      | Ret (Some proposer) =>
          if decide (hd_Miner hd = AddressBytes ZeroAddress) then None
          else
            match isAuthorize (hd_Nonce hd), minerToValidator (si_Type signer) (hd_Miner hd) with
            | Ok add, Ok c => Some (proposer, c, add)
            | _, _ => None
            end
      | _ => None
      end
  | _ => None
  end.

(** An epoch ends with the votes forgotten. *)
Definition poll_step (hd : Header) (p : poll) : poll :=
  if hd_Number hd mod epochSize =? 0 then mkPoll (p_set p) ∅
  else match ballot hd with Some (voter, c, add) => cast voter c add p | None => p end.

(** The store after any run of its operations, and the poll after each header it
    accepted.  Headers come in the order of the chain; a change of the
    validators by the configuration comes after the block before the one it is
    for; a restart finds what [Close] saved. *)
Inductive reach : SnapshotValidatorStore → list entry → Prop :=
| reach_start bc s signer set :
    hd_Number (hg_Header bc) = 0 → getSigner 0 = Ok (Some signer) →
    si_GetValidators signer (hg_Header bc) = Ret (Some set) → set_ok set →
    NewSnapshotValidatorStore getSigner epochSize bc None [] = Ret (Ok s) →
    reach s [mkEntry (hg_Header bc) (mkPoll set ∅)]
| reach_process s es hd s' e :
    reach s es → hd_Number hd = Z.of_nat (length es) → is_u64 (hd_Number hd) →
    snap_ProcessHeader getSigner epochSize hd s = Ret (Ok (), s') → last es = Some e →
    reach s' (es ++ [mkEntry hd (poll_step hd (e_poll e))])
| reach_refuse s es hd s' err :
    reach s es → hd_Number hd = Z.of_nat (length es) → is_u64 (hd_Number hd) →
    snap_ProcessHeader getSigner epochSize hd s = Ret (Err err, s') → reach s' es
| reach_propose s es c auth proposer r s' :
    reach s es → Propose c auth proposer s = Ret (r, s') → reach s' es
| reach_modify s es hd proposer r s' :
    reach s es → snap_ModifyHeader hd proposer s = (r, s') → reach s' es
| reach_update s es e bc set hd s' :
    reach s (es ++ [e]) → set_ok set → is_u64 (Z.of_nat (length es) + 1) →
    hg_GetHeaderByNumber bc (Z.of_nat (length es)) = Some hd → hd_Number hd = Z.of_nat (length es) →
    UpdateValidatorSet bc set (Z.of_nat (length es) + 1) s = (Ok (), s') →
    reach s' (es ++ [mkEntry (e_header e) (mkPoll set ∅)])
| reach_restart s es bc s' :
    reach s es → hd_Number (hg_Header bc) = Z.of_nat (length es) - 1 → (1 < length es)%nat →
    NewSnapshotValidatorStore getSigner epochSize bc (Some (getLastBlock (sv_store s))) (st_list (sv_store s)) = Ret (Ok s') →
    reach s' es.

(** A list of snapshots tells the polls from its first one on. *)
Record covers (l : list Snapshot) (es : list entry) : Prop := {
  cv_sorted : by_number l;
  cv_bound : ∀ sn, sn ∈ l → 0 ≤ sn_Number sn < Z.of_nat (length es);
  cv_ok : ∀ sn, sn ∈ l → snap_ok sn;
  cv_nonempty : l ≠ [];
  cv_reads : ∀ h e x, head l = Some x → sn_Number x ≤ Z.of_nat h → es !! h = Some e →
    ∃ sn, find (Z.of_nat h) (mkStore 0 l) = Some sn ∧ poll_of sn = e_poll e;
}.

Definition tracks (s : SnapshotValidatorStore) (es : list entry) : Prop :=
  covers (st_list (sv_store s)) es ∧ st_lastNumber (sv_store s) = Z.of_nat (length es) - 1.

(** The latest snapshot is the last of the list. *)
Lemma covers_latest l es e :
  covers l es → last es = Some e →
  ∃ l' sn, l = l' ++ [sn] ∧ find (Z.of_nat (length es) - 1) (mkStore 0 l) = Some sn ∧ snap_ok sn ∧ poll_of sn = e_poll e.
Proof.
  intros [Hs Hb Ho Hn Hr] He.
  destruct (list.last l) as [sn|] eqn:Hlast; [|by apply last_None in Hlast].
  apply last_Some in Hlast as [l' ->]. exists l', sn.
  assert (find (Z.of_nat (length es) - 1) (mkStore 0 (l' ++ [sn])) = Some sn) as Hf.
  { apply find_last; [done|]. pose proof (Hb sn ltac:(set_solver)). lia. }
  assert (∃ x, head (l' ++ [sn]) = Some x ∧ x ∈ l' ++ [sn]) as (x & Hx & Hxin).
  { destruct l' as [|x l']; [exists sn; set_solver|exists x; set_solver]. }
  rewrite last_lookup in He. pose proof (lookup_lt_Some _ _ _ He). pose proof (Hb x Hxin).
  destruct (Hr (pred (length es)) e x Hx ltac:(lia) He) as (y & Hy & Hp).
  replace (Z.of_nat (pred (length es))) with (Z.of_nat (length es) - 1) in Hy by lia.
  rewrite Hf in Hy. injection Hy as <-. split_and!; [done|done|apply Ho; set_solver|done].
Qed.

(** A header that changes nothing. *)
Lemma covers_same l es e e' : covers l es → last es = Some e → e_poll e' = e_poll e → covers l (es ++ [e']).
Proof.
  intros Hc He Hp. destruct (covers_latest l es e Hc He) as (l' & sn & El & _ & _ & Hsn).
  destruct Hc as [Hs Hb Ho Hn Hr]. split; [done| |done|done|].
  - intros x Hx. rewrite length_app. cbn. pose proof (Hb x Hx). lia.
  - intros h e1 x Hx Hh Hi. apply lookup_app_Some in Hi as [Hi|[Hlen Hi]]; [by eapply Hr|].
    exists sn. apply list_lookup_singleton_Some in Hi as [Hz <-]. rewrite Hp. split; [|done]. rewrite El in *.
    apply find_last; [done|]. pose proof (Hb sn ltac:(set_solver)). lia.
Qed.

(** A snapshot at the new height. *)
Lemma covers_snoc l es e' sn :
  covers l es → snap_ok sn → sn_Number sn = Z.of_nat (length es) → poll_of sn = e_poll e' → covers (l ++ [sn]) (es ++ [e']).
Proof.
  intros [Hs Hb Ho Hn Hr] Hok Hnum Hp.
  assert (by_number (l ++ [sn])) as Hs'.
  { apply by_number_app. split_and!; [|done|apply by_number_one]. intros x y Hx ->%list_elem_of_singleton. pose proof (Hb x Hx). lia. }
  split; [done| | | |].
  - intros x. rewrite length_app. cbn. intros [Hx|Hx]%elem_of_app; [pose proof (Hb x Hx); lia|].
    apply list_elem_of_singleton in Hx as ->. lia.
  - intros x [Hx|Hx]%elem_of_app; [by apply Ho|]. by apply list_elem_of_singleton in Hx as ->.
  - by destruct l.
  - destruct l as [|x l]; [done|]. intros h e1 y Hy Hh Hi. injection Hy as <-.
    apply lookup_app_Some in Hi as [Hi|[Hlen Hi]].
    + rewrite (find_app _ _ 0) by (done || apply lookup_lt_Some in Hi; lia). by eapply Hr.
    + apply list_lookup_singleton_Some in Hi as [Hz <-]. exists sn. split; [|done]. apply find_last; [done|lia].
Qed.

Lemma covers_drop k l es : covers l es → (k < length l)%nat → covers (drop k l) es.
Proof.
  intros [Hs Hb Ho Hn Hr] Hk. pose proof Hs as Hs'. rewrite <- (take_drop k l) in Hs'. apply by_number_app in Hs' as (Hlt & _ & Hs').
  assert (∀ x, x ∈ drop k l → x ∈ l) as Hin by (intros x; rewrite <- (take_drop k l) at 2; set_solver).
  split; [done|auto|auto| |].
  - intros E. apply (f_equal length) in E. rewrite length_drop in E. cbn in E. lia.
  - intros h e x Hx Hh Hi. destruct (drop k l) as [|y rest] eqn:Hd; [done|]. injection Hx as ->. rewrite <- Hd.
    rewrite (find_drop _ _ 0 k x rest) by done. destruct l as [|z l]; [done|]. eapply Hr; [done| |done].
    destruct k as [|k]; [cbn in Hd; by injection Hd as -> ->|]. pose proof (Hlt z x ltac:(set_solver) ltac:(set_solver)). lia.
Qed.

Lemma saveSnapshotIfChanged_ok parent sn hd s es e e' :
  covers (st_list (sv_store s)) es → last es = Some e → poll_of parent = e_poll e →
  snap_ok sn → hd_Number hd = Z.of_nat (length es) → poll_of sn = e_poll e' →
  covers (st_list (sv_store (saveSnapshotIfChanged parent sn hd s))) (es ++ [e']) ∧
  st_lastNumber (sv_store (saveSnapshotIfChanged parent sn hd s)) = st_lastNumber (sv_store s).
Proof.
  intros Hc He Hpp Hok Hnum Hp. unfold saveSnapshotIfChanged. destruct (snap_Equal sn parent) eqn:Heq.
  - split; [|done]. apply snap_Equal_spec in Heq as [E1 E2]. eapply covers_same; [done..|].
    rewrite <- Hp, <- Hpp. unfold poll_of. by rewrite E1, E2.
  - destruct s as [[lst l] cs]. cbn [on_store sv_store st_list].
    assert (covers (l ++ [mkSnapshot (hd_Number hd) (hash_String (hd_Hash hd)) (sn_Votes sn) (sn_Set sn)]) (es ++ [e'])) as Hc'.
    { apply covers_snoc; [done| |done|done]. destruct Hok. by split. }
    rewrite store_add_last by apply Hc'. done.
Qed.

Lemma removeLowerSnapshots_ok n s es :
  covers (st_list (sv_store s)) es →
  ∃ s', removeLowerSnapshots epochSize n s = Ret s' ∧ covers (st_list (sv_store s')) es ∧
        st_lastNumber (sv_store s') = st_lastNumber (sv_store s).
Proof.
  intros Hc. unfold removeLowerSnapshots. rewrite (proj2 (Z.eqb_neq _ _)) by lia. cbv zeta.
  destruct (_ >? 0); [|by exists s].
  destruct (deleteLower_ok (mul64 (u64 (s64 (s64 (n / epochSize) - 2))) epochSize) (sv_store s)) as (k & -> & Hk & _);
    [apply Hc..|]. cbn [obind]. eexists. split; [done|]. cbn. split; [|done]. by apply covers_drop.
Qed.

(** The proposer of a header, where its signer can tell. *)
Definition signer_returns (hd : Header) : Prop :=
  ∀ signer, getSigner (hd_Number hd) = Ok (Some signer) → ∃ r, si_EcrecoverFromHeader signer hd = Ret r.

Lemma ProcessHeader_ok hd s es e :
  tracks s es → last es = Some e → hd_Number hd = Z.of_nat (length es) → is_u64 (hd_Number hd) → signer_returns hd →
  (∃ err, snap_ProcessHeader getSigner epochSize hd s = Ret (Err err, s)) ∨
  (∃ s', snap_ProcessHeader getSigner epochSize hd s = Ret (Ok (), s') ∧ tracks s' (es ++ [mkEntry hd (poll_step hd (e_poll e))])).
Proof.
  intros [Hc Hl] He Hnum Hu Hsig. unfold snap_ProcessHeader, poll_step, ballot.
  destruct (getSigner (hd_Number hd)) as [[signer|]|] eqn:Hg; [|by left; eexists..].
  destruct (Hsig signer Hg) as [r Hrec]. rewrite Hrec. cbn [obind]. destruct r as [proposer|]; [|by left; eexists].
  destruct (covers_latest _ _ _ Hc He) as (l' & sn & El & Hf & Hok & Hp).
  assert (getSnapshot (sub64 (hd_Number hd) 1) s = Some sn) as ->.
  { unfold getSnapshot, sub64. rewrite u64_small; [|destruct Hu; destruct es; [done|]; unfold is_u64; cbn in *; lia].
    rewrite Hnum. exact Hf. }
  destruct (set_Includes (sn_Set sn) proposer) eqn:Hi; cbn [negb]; [|by left; eexists]. apply set_Includes_spec in Hi.
  rewrite (proj2 (Z.eqb_neq epochSize 0)) by lia.
  assert (snap_ok (snap_Copy sn)) as Hcopy by (destruct Hok; by split).
  destruct (hd_Number hd mod epochSize =? 0); [|case_bool_decide as Hmin].
  - right. unfold resetSnapshot.
    destruct (saveSnapshotIfChanged_ok sn (set_votes [] (snap_Copy sn)) hd s es e (mkEntry hd (mkPoll (p_set (e_poll e)) ∅))) as [Hc1 Hl1]; try done.
    { destruct Hok. split; cbn; [done|constructor|]. intros v []%elem_of_nil. }
    { rewrite <- Hp. done. }
    destruct (removeLowerSnapshots_ok (hd_Number hd) _ _ Hc1) as (s2 & -> & Hc2 & Hl2). cbn [obind].
    eexists. split; [done|]. split; [done|]. cbn. rewrite length_app. cbn. lia.
  - right. eexists. split; [done|]. rewrite decide_True by done. split; [eapply covers_same; done|]. cbn. rewrite length_app. cbn. lia.
  - rewrite decide_False by done. destruct (processVote (snap_Copy sn) hd (si_Type signer) proposer) as [sn'|err] eqn:Hv; [|by left; eexists].
    destruct (processVote_ok _ _ _ _ _ Hcopy Hi Hv) as (c & add & -> & -> & Hok' & Hp').
    right. eexists. split; [done|].
    destruct (saveSnapshotIfChanged_ok sn sn' hd (on_store (updateLastBlock (hd_Number hd)) s) es e (mkEntry hd (cast proposer c add (e_poll e)))) as [Hc1 Hl1]; try done.
    { rewrite Hp', <- Hp. done. }
    split; [done|]. rewrite Hl1. cbn. rewrite length_app. cbn. lia.
Qed.

Lemma ProcessHeader_signer hd s x : snap_ProcessHeader getSigner epochSize hd s = Ret x → signer_returns hd.
Proof.
  intros Hx signer Hg. unfold snap_ProcessHeader in Hx. rewrite Hg in Hx.
  destruct (si_EcrecoverFromHeader signer hd) as [r| |]; [by exists r|done|done].
Qed.

Lemma Propose_store c auth proposer s r s' : Propose c auth proposer s = Ret (r, s') → sv_store s' = sv_store s.
Proof.
  unfold Propose, addCandidate. intros E. repeat case_match; simplify_eq; try done.
  destruct (set_At _ _); cbn in E; by simplify_eq.
Qed.

Lemma ModifyHeader_store hd proposer s r s' : snap_ModifyHeader hd proposer s = (r, s') → sv_store s' = sv_store s.
Proof. unfold snap_ModifyHeader, getNextCandidate. intros E. repeat case_match; by simplify_eq. Qed.

(** Putting a snapshot at the last height. *)
Lemma covers_put l es e e' sn :
  covers l (es ++ [e]) → snap_ok sn → sn_Number sn = Z.of_nat (length es) → poll_of sn = e_poll e' →
  covers (filter (λ x, sn_Number x ≠ sn_Number sn) l ++ [sn]) (es ++ [e']).
Proof.
  intros [Hs Hb Ho Hn Hr] Hok Hnum Hp.
  assert (∀ x, x ∈ l → sn_Number x ≤ Z.of_nat (length es)) as Hle.
  { intros x Hx. pose proof (Hb x Hx) as Hbx. rewrite length_app in Hbx. cbn in Hbx. lia. }
  set (m := filter (λ x, sn_Number x ≠ sn_Number sn) l).
  assert (∀ x, x ∈ m → x ∈ l ∧ 0 ≤ sn_Number x < Z.of_nat (length es)) as Hm.
  { intros x [Hx Hin]%list_elem_of_filter. split; [done|]. pose proof (Hle x Hin). pose proof (Hb x Hin). lia. }
  assert (∃ r, l = m ++ r ∧ (length r ≤ 1)%nat ∧ ∀ x, x ∈ r → sn_Number x = Z.of_nat (length es)) as (r & El & Hrl & Hrx).
  { destruct (list.last l) as [y|] eqn:Hlast; [|by apply last_None in Hlast]. apply last_Some in Hlast as [l' ->].
    apply by_number_app in Hs as (Hlt & _ & _).
    assert (filter (λ x, sn_Number x ≠ sn_Number sn) l' = l') as Hl'.
    { apply filter_all. intros x Hx. pose proof (Hlt x y Hx ltac:(set_solver)). pose proof (Hle y ltac:(set_solver)). lia. }
    unfold m. rewrite filter_app, Hl'. destruct (decide (sn_Number y = sn_Number sn)) as [Hy|Hy].
    - exists [y]. rewrite filter_cons_False by (intros ?; done). cbn. rewrite app_nil_r. split_and!; [done..|].
      intros x ->%list_elem_of_singleton. lia.
    - exists []. rewrite filter_cons_True by done. cbn. rewrite app_nil_r. split_and!; [done|lia|]. intros x []%elem_of_nil. }
  assert (by_number m) as Hsm by (rewrite El in Hs; by apply by_number_app in Hs as (_ & ? & _)).
  assert (covers m es ∨ m = []) as [Hc|Hnil]; [|by apply covers_snoc|].
  - destruct m as [|z m'] eqn:Em; [by right|left]. split; [done| | |done|].
    + intros x Hx. by apply Hm.
    + intros x Hx. by apply Ho, Hm.
    + intros h e1 x Hx Hh Hi. pose proof (lookup_lt_Some _ _ _ Hi). injection Hx as <-.
      destruct (Hr h e1 z) as (y & Hy & Hpy); [by rewrite El|done|by rewrite lookup_app_l|]. exists y. split; [|done]. rewrite <- Hy, El.
      destruct r as [|w [|]]; cbn in Hrl; [by rewrite app_nil_r| |lia]. symmetry. apply find_app; [by rewrite El in Hs|].
      pose proof (Hrx w ltac:(set_solver)). lia.
  - rewrite Hnil. cbn. split.
    + apply by_number_one.
    + intros x ->%list_elem_of_singleton. rewrite length_app. cbn. lia.
    + by intros x ->%list_elem_of_singleton.
    + done.
    + intros h e1 x [= <-] Hh Hi. exists sn. split; [apply (find_last _ _ []); [apply by_number_one|done]|]. apply lookup_app_Some in Hi as [Hi|[_ Hi]].
      * apply lookup_lt_Some in Hi. lia.
      * by apply list_lookup_singleton_Some in Hi as [_ <-].
Qed.

(** Loading a saved list gives it back. *)
Lemma newSnapshotStore_sorted lst l : by_number l → newSnapshotStore (Some lst) l = mkStore lst l.
Proof.
  intros Hs. unfold newSnapshotStore. cbn [default].
  assert (∀ a b, by_number (a ++ b) → foldl (flip store_add) (mkStore lst a) b = mkStore lst (a ++ b)) as Hf; [|by apply (Hf [])].
  intros a b. revert a. induction b as [|x b IH]; intros a Hab; [by rewrite app_nil_r|].
  cbn [foldl]. unfold flip at 2. replace (a ++ x :: b) with ((a ++ [x]) ++ b) in * by (by rewrite <- app_assoc).
  rewrite store_add_last; [by apply IH|]. by apply by_number_app in Hab as (_ & ? & _).
Qed.

Lemma start_tracks bc s signer set :
  hd_Number (hg_Header bc) = 0 → getSigner 0 = Ok (Some signer) →
  si_GetValidators signer (hg_Header bc) = Ret (Some set) → set_ok set →
  NewSnapshotValidatorStore getSigner epochSize bc None [] = Ret (Ok s) →
  tracks s [mkEntry (hg_Header bc) (mkPoll set ∅)].
Proof.
  intros Hn Hg Hv Hs. unfold NewSnapshotValidatorStore, snap_initialize, addHeaderSnap. cbv zeta. rewrite Hn, Hg, Hv. cbn [obind Z.eqb].
  set (sn := mkSnapshot 0 (hash_String (hd_Hash (hg_Header bc))) [] set).
  assert (on_store (store_add sn) (mkSVS (newSnapshotStore None []) []) = mkSVS (mkStore 0 [sn]) []) as ->.
  { unfold on_store. cbn. f_equal. apply (store_add_last 0 []), by_number_one. }
  rewrite (proj2 (Z.eqb_neq epochSize 0)) by lia.
  assert (∀ h, 0 ≤ h → find h (mkStore 0 [sn]) = Some sn) as Hf.
  { intros h Hh. apply (find_last _ _ []); [apply by_number_one|done]. }
  unfold getSnapshot. cbn [sv_store newSnapshotStore foldl getLastBlock st_lastNumber default]. rewrite Hf by done.
  rewrite Z.div_0_l by lia. cbn [obind bool_decide orb Z.ltb Z.compare Z.gtb]. intros [= <-]. split; [|done]. cbn. split.
  - apply by_number_one.
  - intros x ->%list_elem_of_singleton. cbn. lia.
  - intros x ->%list_elem_of_singleton. split; [done|constructor|]. intros v []%elem_of_nil.
  - done.
  - intros h e x [= <-] Hh [-> <-]%list_lookup_singleton_Some. exists sn. by rewrite Hf by lia.
Qed.

Lemma restart_tracks s es bc s' :
  tracks s es → hd_Number (hg_Header bc) = Z.of_nat (length es) - 1 → (1 < length es)%nat →
  NewSnapshotValidatorStore getSigner epochSize bc (Some (getLastBlock (sv_store s))) (st_list (sv_store s)) = Ret (Ok s') →
  tracks s' es.
Proof.
  intros [Hc Hl] Hn Hlen. unfold NewSnapshotValidatorStore, snap_initialize. rewrite newSnapshotStore_sorted by apply Hc.
  unfold getLastBlock. cbn [sv_store st_lastNumber]. rewrite Hl. rewrite Hn. rewrite (proj2 (Z.eqb_neq (_ - 1) 0)) by lia. cbn [obind].
  rewrite (proj2 (Z.eqb_neq epochSize 0)) by lia. rewrite Z.ltb_irrefl.
  destruct (last es) as [e|] eqn:He; [|apply last_None in He as ->; cbn in Hlen; lia].
  destruct (covers_latest _ _ _ Hc He) as (l' & sn & El & Hf & _).
  unfold getSnapshot. cbn [sv_store]. change (find (Z.of_nat (length es) - 1) (mkStore (Z.of_nat (length es) - 1) (st_list (sv_store s)))) with
    (find (Z.of_nat (length es) - 1) (mkStore 0 (st_list (sv_store s)))). rewrite Hf, bool_decide_eq_false_2 by done. cbn [obind orb].
  rewrite Z.gtb_ltb, Z.ltb_irrefl. cbn [obind]. intros [= <-]. split; done.
Qed.

Lemma tracks_nonempty s es : tracks s es → ∃ n e, length es = S n ∧ last es = Some e.
Proof.
  intros [[_ Hb _ Hne _] _]. destruct (last es) as [e|] eqn:He.
  - destruct es as [|x es]; [done|]. by exists (length es), e.
  - apply last_None in He as ->. destruct (st_list (sv_store s)) as [|x l]; [done|]. pose proof (Hb x ltac:(set_solver)) as Hx. cbn in Hx. lia.
Qed.

Lemma tracks_latest s es e :
  tracks s es → last es = Some e →
  ∃ sn, getSnapshot (Z.of_nat (length es) - 1) s = Some sn ∧ snap_ok sn ∧ poll_of sn = e_poll e.
Proof.
  intros [Hc _] He. destruct (covers_latest _ _ _ Hc He) as (l & sn & _ & Hf & Hok & Hp). exists sn. split; [|done].
  unfold getSnapshot. rewrite <- Hf. by destruct s as [[? ?] ?].
Qed.

Lemma reach_tracks s es : reach s es → tracks s es.
Proof.
  induction 1 as [bc s signer set Hn Hg Hv Hs HN|s es hd s' e Hr IH Hn Hu Hp He|s es hd s' err Hr IH Hn Hu Hp
    |s es c auth proposer r s' Hr IH Hp|s es hd proposer r s' Hr IH Hp|s es e bc set hd s' Hr IH Hs Hu Hg Hn Hp|s es bc s' Hr IH Hn Hl HN].
  - by eapply start_tracks.
  - destruct (ProcessHeader_ok hd s es e IH He Hn Hu (ProcessHeader_signer _ _ _ Hp)) as [[err E]|(s2 & E & Ht)]; rewrite E in Hp; [done|].
    by injection Hp as <-.
  - destruct (tracks_nonempty _ _ IH) as (_ & e & _ & He).
    destruct (ProcessHeader_ok hd s es e IH He Hn Hu (ProcessHeader_signer _ _ _ Hp)) as [[err' E]|(s2 & E & Ht)];
      rewrite E in Hp; [|done]. by injection Hp as <- <-.
  - apply Propose_store in Hp. unfold tracks. by rewrite Hp.
  - apply ModifyHeader_store in Hp. unfold tracks. by rewrite Hp.
  - destruct IH as [Hc Hl]. unfold UpdateValidatorSet in Hp.
    assert (sub64 (Z.of_nat (length es) + 1) 1 = Z.of_nat (length es)) as Hsub by (rewrite sub64_ge; [lia|done|by split|lia]).
    rewrite Hsub, Hg in Hp. injection Hp as <-. destruct s as [[lst l] cs]. cbn [sv_store st_list st_lastNumber] in Hc, Hl.
    set (sn := mkSnapshot (hd_Number hd) (hash_String (hd_Hash hd)) [] set). unfold tracks, on_store. cbn [sv_store].
    rewrite (putByNumber_last _ _ sn); [|apply Hc|]; cbn [st_list st_lastNumber].
    + split; [|by rewrite length_app in *]. apply (covers_put _ _ e); [done| |done|done].
      split; [done|constructor|]. intros v []%elem_of_nil.
    + intros x Hx. destruct Hc as [_ Hb _ _ _]. pose proof (Hb x Hx) as Hbx. rewrite length_app in Hbx. cbn in Hbx |- *. lia.
  - by eapply restart_tracks.
Qed.

(** C26.  Whatever order headers, proposals, header edits, changes of
    configuration and restarts come in, every height from the oldest snapshot up
    to the last block reads the validators and the votes of its poll; processing
    the next header returns, and a refused header leaves the store as it was. *)
Theorem snapshots_follow_polls s es :
  reach s es →
  ∃ first rest, st_list (sv_store s) = first :: rest ∧ 0 ≤ sn_Number first < Z.of_nat (length es) ∧
    (∀ h e, sn_Number first ≤ Z.of_nat h → es !! h = Some e →
       GetValidatorsByHeight (Z.of_nat h) s = Ok (p_set (e_poll e)) ∧
       ∃ votes, Votes (Z.of_nat h) s = Ok votes ∧ list_to_set (pair_of <$> votes) = p_ballots (e_poll e)) ∧
    (∀ hd, hd_Number hd = Z.of_nat (length es) → is_u64 (hd_Number hd) → signer_returns hd →
       ∃ r s', snap_ProcessHeader getSigner epochSize hd s = Ret (r, s') ∧ (is_ok r = false → s' = s)).
Proof.
  intros Hr. pose proof (reach_tracks _ _ Hr) as [Hc Hl]. pose proof Hc as [Hs Hb Ho Hne Hrd].
  destruct (st_list (sv_store s)) as [|first rest] eqn:El; [done|]. exists first, rest.
  pose proof (Hb first ltac:(set_solver)). split_and!; [done|lia|lia| |].
  - intros h e Hh He. destruct (Hrd h e first eq_refl Hh He) as (sn & Hf & Hp).
    assert (getSnapshot (Z.of_nat h) s = Some sn) as Hg.
    { unfold getSnapshot. rewrite <- Hf. destruct s as [[lst l] cs]. cbn in *. by rewrite El. }
    unfold GetValidatorsByHeight, Votes. rewrite Hg, <- Hp. split; [done|]. by exists (sn_Votes sn).
  - intros hd Hn Hu Hsig. destruct (last es) as [e|] eqn:He; [|apply last_None in He as ->; cbn in *; lia].
    destruct (ProcessHeader_ok hd s es e (reach_tracks _ _ Hr) He Hn Hu Hsig) as [[err E]|(s' & E & _)]; eexists _, _; split; done.
Qed.


(** A vote in a header of the epoch of block [n]. *)
Definition cast_in (hs : list Header) (n : nat) (v : Address) (c : Validator) : Prop :=
  ∃ m hd add, hs !! m = Some hd ∧ (m ≤ n)%nat ∧ Z.of_nat m / epochSize = Z.of_nat n / epochSize ∧
              ballot hd = Some (v, c, add).

Lemma cast_ballots voter c add p x :
  x ∈ p_ballots (cast voter c add p) → x = (voter, c) ∨ x ∈ p_ballots p.
Proof.
  unfold cast. destruct (eqb _ _); [by right|]. case_decide; cbn; rewrite ?elem_of_filter, elem_of_union, elem_of_singleton; tauto.
Qed.

Lemma same_epoch n : (Z.of_nat n + 1) mod epochSize ≠ 0 → Z.of_nat n / epochSize = (Z.of_nat n + 1) / epochSize.
Proof.
  intros Hm. pose proof (Z.mod_pos_bound (Z.of_nat n + 1) epochSize epochSize_pos) as Hb.
  pose proof (Z.div_mod (Z.of_nat n + 1) epochSize ltac:(lia)) as Hd.
  symmetry. apply (Z.div_unique _ _ _ ((Z.of_nat n + 1) mod epochSize - 1)); lia.
Qed.

Lemma cast_in_snoc hs x n v c :
  cast_in hs n v c → Z.of_nat n / epochSize = (Z.of_nat n + 1) / epochSize → cast_in (hs ++ [x]) (S n) v c.
Proof.
  intros (m & hd & add & Hm & Hle & Hep & Hb) Hsame. exists m, hd, add. split_and!; [by apply lookup_app_l_Some|lia| |done].
  rewrite Nat2Z.inj_succ. unfold Z.succ. congruence.
Qed.

(** The votes of a poll and the vote of the next header are of one epoch. *)
Lemma next_ballots (hs : list Header) (n : nat) (b : gset (Address * Validator)) (hd : Header) (v : Address) (c : Validator) :
  length hs = S n → hd_Number hd = Z.of_nat (length hs) → hd_Number hd mod epochSize ≠ 0 →
  (∀ v c, (v, c) ∈ b → cast_in hs n v c) →
  (v, c) ∈ b ∨ (∃ add, ballot hd = Some (v, c, add)) → cast_in (hs ++ [hd]) (S n) v c.
Proof.
  intros Hlen Hn Hmod IH [Hin|[add Hb]].
  - apply cast_in_snoc; [by apply IH|]. apply same_epoch. rewrite Hn, Hlen in Hmod. by rewrite Nat2Z.inj_succ in Hmod.
  - exists (S n), hd, add. split_and!; [|done|done|done]. rewrite <- Hlen. by apply list_lookup_middle.
Qed.

Lemma reach_ballots s es :
  reach s es → ∀ n e v c, length es = S n → last es = Some e → (v, c) ∈ p_ballots (e_poll e) → cast_in (e_header <$> es) n v c.
Proof.
  induction 1 as [bc s signer set Hn Hg Hv Hs HN|s es hd s' e Hr IH Hn Hu Hp He|s es hd s' err Hr IH Hn Hu Hp
    |s es c auth proposer r s' Hr IH Hp|s es hd proposer r s' Hr IH Hp|s es e bc set hd s' Hr IH Hs Hu Hg Hn Hp|s es bc s' Hr IH Hn Hl HN];
    try done; intros n e1 v c1 Hlen Hl1 Hin.
  - cbn in Hl1. simplify_eq. cbn in Hin. by apply elem_of_empty in Hin.
  - rewrite last_snoc in Hl1. injection Hl1 as <-. cbn [e_poll] in Hin. rewrite length_app in Hlen. cbn in Hlen.
    destruct n as [|n]; [destruct es; [done|cbn in Hlen; lia]|]. assert (length es = S n) as Hlen' by lia.
    unfold poll_step in Hin. destruct (Z.eqb_spec (hd_Number hd mod epochSize) 0) as [Hm|Hm]; [by apply elem_of_empty in Hin|].
    rewrite fmap_app. apply (next_ballots _ _ (p_ballots (e_poll e))); rewrite ?length_fmap; [done..| |].
    + intros v' c' Hin'. by eapply IH.
    + destruct (ballot hd) as [[[w c'] add]|] eqn:Hb; [|by left].
      apply cast_ballots in Hin as [[= -> ->]|Hin]; [right; by exists add|by left].
  - rewrite last_snoc in Hl1. injection Hl1 as <-. by apply elem_of_empty in Hin.
Qed.

Lemma set_change_cast voter c add p :
  p_set (cast voter c add p) ≠ p_set p →
  set_Len (p_set p) < 2 * Z.of_nat (size (votes_for c ({[ (voter, c) ]} ∪ p_ballots p))) ∧
  (vs_Validators (p_set (cast voter c add p)) = vs_Validators (p_set p) ++ [c] ∨
   vs_Validators (p_set (cast voter c add p)) = filter (λ v, v_Addr v ≠ v_Addr c) (vs_Validators (p_set p))).
Proof.
  unfold cast. destruct (eqb _ _); [done|]. case_decide as Hd; cbn; [|done]. intros _. split; [done|]. destruct add; auto.
Qed.

(** The voters of a candidate, once each. *)
Lemma votes_for_voters (c : Validator) (b : gset (Address * Validator)) :
  NoDup (elements (votes_for c b)).*1 ∧ length (elements (votes_for c b)).*1 = size (votes_for c b) ∧
  ∀ v, v ∈ (elements (votes_for c b)).*1 → (v, c) ∈ b.
Proof.
  assert (∀ x, x ∈ elements (votes_for c b) → x.2 = c ∧ x ∈ b) as Hx.
  { intros x. rewrite elem_of_elements. unfold votes_for. by rewrite elem_of_filter. }
  split_and!; [|by rewrite length_fmap|].
  - apply NoDup_fmap_2_strong; [|apply NoDup_elements]. intros [a1 c1] [a2 c2] [E1 _]%Hx [E2 _]%Hx E. cbn in *. congruence.
  - intros v ([w c'] & -> & [E Hin]%Hx)%list_elem_of_fmap. cbn in *. by subst c'.
Qed.

(** The vote of an accepted header is by a validator. *)
Lemma ProcessHeader_member hd s s' voter c add :
  snap_ProcessHeader getSigner epochSize hd s = Ret (Ok (), s') → ballot hd = Some (voter, c, add) →
  ∃ sn, getSnapshot (sub64 (hd_Number hd) 1) s = Some sn ∧ voter ∈ addrs (sn_Set sn).
Proof.
  unfold snap_ProcessHeader, ballot. destruct (getSigner (hd_Number hd)) as [[signer|]|]; [|done..].
  destruct (si_EcrecoverFromHeader signer hd) as [[proposer|]| |]; cbn [obind]; [|done..].
  destruct (getSnapshot _ s) as [sn|]; [|done]. destruct (set_Includes (sn_Set sn) proposer) eqn:Hi; [|done].
  intros _ Hb. exists sn. split; [done|]. apply set_Includes_spec. repeat case_match; by simplify_eq.
Qed.

(** C28.  The validators change from one block to the next only by the votes of a
    strict majority of them: there is a candidate, which is added or whose
    address is dropped, and more than half of the validators before the change
    have each proposed a block of the current epoch with a vote for it. *)
Theorem set_changes_by_majority s es hd s' set set' :
  reach s es → hd_Number hd = Z.of_nat (length es) → is_u64 (hd_Number hd) →
  snap_ProcessHeader getSigner epochSize hd s = Ret (Ok (), s') →
  GetValidatorsByHeight (Z.of_nat (length es) - 1) s = Ok set → GetValidatorsByHeight (Z.of_nat (length es)) s' = Ok set' →
  set ≠ set' →
  ∃ c voters,
    (vs_Validators set' = vs_Validators set ++ [c] ∨ vs_Validators set' = filter (λ v, v_Addr v ≠ v_Addr c) (vs_Validators set)) ∧
    NoDup voters ∧ set_Len set < 2 * Z.of_nat (length voters) ∧
    ∀ v, v ∈ voters → set_Includes set v = true ∧ cast_in ((e_header <$> es) ++ [hd]) (length es) v c.
Proof.
  intros Hr Hn Hu Hp Hset Hset' Hne. pose proof (reach_tracks _ _ Hr) as Ht.
  destruct (tracks_nonempty _ _ Ht) as (n & e & Hlen & He). destruct (tracks_latest _ _ _ Ht He) as (sn & Hg & [Hsok Honce Hmem] & Hpoll).
  unfold GetValidatorsByHeight in Hset, Hset'. rewrite Hg in Hset. injection Hset as <-.
  assert (set' = p_set (poll_step hd (e_poll e))) as ->.
  { destruct (ProcessHeader_ok hd s es e Ht He Hn Hu (ProcessHeader_signer _ _ _ Hp)) as [[? E]|(s2 & E & Ht2)]; rewrite E in Hp; [done|].
    injection Hp as ->. destruct (tracks_latest _ _ _ Ht2 (last_snoc _ _)) as (sn2 & Hg2 & _ & Hp2).
    rewrite length_app, Nat2Z.inj_add, Z.add_simpl_r in Hg2. rewrite Hg2 in Hset'. injection Hset' as <-. cbn in Hp2. by rewrite <- Hp2. }
  change (sn_Set sn) with (p_set (poll_of sn)) in *. rewrite Hpoll in *.
  unfold poll_step in Hne |- *. destruct (Z.eqb_spec (hd_Number hd mod epochSize) 0) as [|Hmod]; [done|].
  destruct (ballot hd) as [[[voter c] add]|] eqn:Hb; [|done].
  destruct (set_change_cast voter c add (e_poll e)) as [Hmaj Hch]; [congruence|].
  set (b := {[ (voter, c) ]} ∪ p_ballots (e_poll e)) in *. destruct (votes_for_voters c b) as (Hnd & Hsz & Hin).
  exists c, (elements (votes_for c b)).*1. rewrite Hsz. split_and!; [done..|].
  intros v Hv%Hin. split.
  - apply set_Includes_spec. unfold b in Hv. apply elem_of_union in Hv as [[= ->]%elem_of_singleton|Hv].
    + destruct (ProcessHeader_member _ _ _ _ _ _ Hp Hb) as (x & Hx & Hin'). rewrite Hn in Hx.
      rewrite sub64_ge in Hx by (done || rewrite <- ?Hn; done || lia). rewrite Hg in Hx. injection Hx as <-. by rewrite <- Hpoll.
    + rewrite <- Hpoll in Hv. cbn in Hv. apply elem_of_list_to_set, list_elem_of_fmap in Hv as (w & E & Hw).
      unfold pair_of in E. injection E as -> _. by apply Hmem.
  - rewrite Hlen. apply (next_ballots _ _ (p_ballots (e_poll e))); rewrite ?length_fmap; [done..| |].
    + intros v' c'. by apply (reach_ballots s es Hr).
    + unfold b in Hv. apply elem_of_union in Hv as [[= ->]%elem_of_singleton|Hv]; [right; by exists add|by left].
Qed.
End machine.
