(* ===== verification/IbftSigner.v ===== *)
(** Package [consensus/ibft/signer]: the extra data of an IBFT header, the seals
    in it, the two key managers and the signer ([extra.go], [helper.go],
    [ecdsa.go], [bls.go], [signer.go]), and the BLS helpers of [crypto].

    The interfaces [Seals] and [KeyManager] are the sums of their two
    implementations.  The pairing library ([kryptology]) is the class [BLS].  A Go
    map that a loop ranges over is the list of its entries in the order of the
    loop.  A value read by the parser and put into a new array is written as the
    bytes or the array it is ([value_of]).  Calling a method of a nil pointer is
    [Panic]. *)
From stdpp Require Import strings.
From S2P Require Import Prelude Types Runtime Crypto EvmState Precompiled Signer Rlp RlpTypes Text Validators.

Class BLS := {
  bls_SecretKey : Type;
  bls_PublicKey : Type;
  bls_Signature : Type;
  bls_MultiPublicKey : Type;
  bls_MultiSignature : Type;
  pk_UnmarshalBinary : bytes → option bls_PublicKey;
  sig_UnmarshalBinary : bytes → option bls_Signature;
  sig_MarshalBinary : bls_Signature → option bytes;
  ms_UnmarshalBinary : bytes → option bls_MultiSignature;
  ms_MarshalBinary : bls_MultiSignature → option bytes;
  bls_Sign : bls_SecretKey → bytes → option bls_Signature;
  bls_Verify : bls_PublicKey → bytes → bls_Signature → option bool;
  AggregateSignatures : list bls_Signature → option bls_MultiSignature;
  AggregatePublicKeys : list bls_PublicKey → option bls_MultiPublicKey;
  VerifyMultiSignature : bls_MultiPublicKey → bytes → bls_MultiSignature → option bool;
}.

Inductive sign_err :=
| ErrEmptyCommittedSeals
| ErrEmptyParentCommittedSeals
| ErrInvalidCommittedSealLength
| ErrInvalidCommittedSealType
| ErrRepeatedCommittedSeal
| ErrNonValidatorCommittedSeal
| ErrNotEnoughCommittedSeals
| ErrSignerMismatch
| ErrSealValidatorNotFound
| ErrInvalidValidators
| ErrInvalidValidator
| ErrInvalidSignature
| ErrExtraSize
| ErrExtraFormat
| ErrRecover
| ErrSign
| ErrInvalidBLSSignature
| ErrBLS.

Definition IstanbulDigest : Hash :=
  StringToHash (str "0x63746963616c2062797a616e74696e65206661756c7420746f6c6572616e6365").
Definition IstanbulExtraVanity : nat := 32.
Definition IstanbulExtraSeal : nat := 65.
Definition legacyCommitCode : Z := 2.

(** ** Seals *)

(** [SerializedSeal] and [AggregatedSeal], whose bitmap may be nil. *)
Inductive Seals :=
| SerializedSeal (seals : list bytes)
| AggregatedSeal (Bitmap : option Z) (Signature : bytes).

Definition seals_Num (s : Seals) : outcome Z :=
  match s with
  | SerializedSeal l => Ret (Z.of_nat (length l))
  | AggregatedSeal None _ => Panic
  | AggregatedSeal (Some b) _ => Ret (BitLen b)
  end.

Definition seals_MarshalRLPWith (s : Seals) : rlp :=
  match s with
  | SerializedSeal [] => NewNullArray
  | SerializedSeal l => NewArray ((λ a, match a with [] => NewNull | _ => NewBytes a end) <$> l)
  | AggregatedSeal b sig =>
      NewArray [match b with None => NewNull | Some b => NewBytes (Bytes b) end;
                match sig with [] => NewNull | _ => NewBytes sig end]
  end.

Section seals.
Context `{RlpReader}.

Definition seals_UnmarshalRLPFrom (s : Seals) (v : item) : option Seals :=
  vals ← GetElems v;
  match s with
  | SerializedSeal _ => SerializedSeal <$> mapM GetBytes vals
  | AggregatedSeal _ _ =>
      match vals with
      | [] => Some s
      | [_] => None
      | v0 :: v1 :: _ =>
          rawBitMap ← GetBytes v0; sig ← GetBytes v1; Some (AggregatedSeal (Some (SetBytes rawBitMap)) sig)
      end
  end.
End seals.

(** ** Extra data *)

Record IstanbulExtra := mkExtra {
  ex_Validators : ValSet;
  ex_ProposerSeal : bytes;
  ex_CommittedSeals : Seals;
  ex_ParentCommittedSeals : option Seals;
}.

Definition ex_MarshalRLPWith (i : IstanbulExtra) : rlp :=
  NewArray ([set_MarshalRLPWith (ex_Validators i);
             match ex_ProposerSeal i with [] => NewNull | s => NewBytes s end;
             seals_MarshalRLPWith (ex_CommittedSeals i)] ++
            match ex_ParentCommittedSeals i with None => [] | Some s => [seals_MarshalRLPWith s] end).

Fixpoint value_of (i : item) : rlp :=
  match i with
  | IBytes b => NewBytes b
  | IArray l => NewArray (value_of <$> l)
  end.

Definition set_ExtraData (extra : bytes) (h : Header) : Header :=
  mkHeader (hd_ParentHash h) (hd_Sha3Uncles h) (hd_Miner h) (hd_StateRoot h) (hd_TxRoot h) (hd_ReceiptsRoot h) (hd_LogsBloom h)
    (hd_Difficulty h) (hd_Number h) (hd_GasLimit h) (hd_GasUsed h) (hd_Timestamp h) extra (hd_MixHash h) (hd_Nonce h) (hd_Hash h).

Section extra.
Context `{External} `{RlpReader}.

(** [i] holds empty values of the types to decode to. *)
Definition ex_UnmarshalRLPFrom (i : IstanbulExtra) (v : item) : option IstanbulExtra :=
  elems ← GetElems v;
  match elems with
  | e0 :: e1 :: e2 :: rest =>
      vals ← set_UnmarshalRLPFrom (ex_Validators i) e0;
      seal ← GetBytes e1;
      committed ← seals_UnmarshalRLPFrom (ex_CommittedSeals i) e2;
      match rest, ex_ParentCommittedSeals i with
      | e3 :: _, Some p =>
          parent ← seals_UnmarshalRLPFrom p e3; Some (mkExtra vals seal committed (Some parent))
      | _, p => Some (mkExtra vals seal committed p)
      end
  | _ => None
  end.

Definition unmarshalRLPFromForParentCS (p : Seals) (v : item) : option Seals :=
  elems ← GetElems v;
  match elems with
  | _ :: _ :: _ :: e3 :: _ => seals_UnmarshalRLPFrom p e3
  | _ => Some p
  end.

Definition putIbftExtra (h : Header) (istanbulExtra : IstanbulExtra) : Header :=
  let extra := hd_ExtraData h in
  let extra := if (length extra <? IstanbulExtraVanity)%nat then extra ++ zeros (IstanbulExtraVanity - length extra)
               else take IstanbulExtraVanity extra in
  set_ExtraData (extra ++ MarshalTo (ex_MarshalRLPWith istanbulExtra)) h.

(** An error of the decoder leaves the new array empty. *)
Definition packFieldsIntoExtra (extraBytes : bytes) (packFn : list item → list rlp) : outcome bytes :=
  if (length extraBytes <? IstanbulExtraVanity)%nat then Panic
  else
    let extraHeader := take IstanbulExtraVanity extraBytes in
    let extraBody := drop IstanbulExtraVanity extraBytes in
    let vv := match UnmarshalRlp (λ _ v, elems ← GetElems v; if (length elems <? 3)%nat then None else Some (packFn elems)) extraBody with
              | Some l => l
              | None => []
              end in
    Ret (extraHeader ++ MarshalTo (NewArray vv)).

Definition old_value (old : list item) (i : nat) : rlp := match old !! i with Some v => value_of v | None => NewNull end.

Definition packProposerSealIntoExtra (extraBytes proposerSeal : bytes) : outcome bytes :=
  packFieldsIntoExtra extraBytes (λ old,
    [old_value old 0; NewBytes proposerSeal; old_value old 2] ++ if (4 <=? length old)%nat then [old_value old 3] else []).

Definition packCommittedSealsIntoExtra (extraBytes : bytes) (committedSeal : Seals) : outcome bytes :=
  packFieldsIntoExtra extraBytes (λ old,
    [old_value old 0; old_value old 1; seals_MarshalRLPWith committedSeal] ++
    if (4 <=? length old)%nat then [old_value old 3] else []).

(** ** Hashes ([helper.go]) *)

Definition wrapCommitHash (data : bytes) : bytes := HashBytes (Keccak256 (data ++ [legacyCommitCode])).

(** The mix hash and the nonce are not in it. *)
Definition calculateHeaderHash (h : Header) : Hash :=
  Keccak256 (MarshalTo (NewArray
    [NewBytes (HashBytes (hd_ParentHash h));
     NewBytes (HashBytes (hd_Sha3Uncles h));
     NewBytes (hd_Miner h);
     NewBytes (HashBytes (hd_StateRoot h));
     NewBytes (HashBytes (hd_TxRoot h));
     NewBytes (HashBytes (hd_ReceiptsRoot h));
     NewBytes (hd_LogsBloom h);
     NewUint (hd_Difficulty h);
     NewUint (hd_Number h);
     NewUint (hd_GasLimit h);
     NewUint (hd_GasUsed h);
     NewUint (hd_Timestamp h);
     NewBytes (hd_ExtraData h)])).

Definition verifyIBFTExtraSize (header : Header) : result sign_err () :=
  if (length (hd_ExtraData header) <? IstanbulExtraVanity)%nat then Err ErrExtraSize else Ok ().

Definition keccak (b : bytes) : bytes := HashBytes (Keccak256 b).
End extra.

(** ** BLS ([crypto/crypto.go]) *)

Section bls.
Context `{BLS}.

Definition SignByBLS (prv : bls_SecretKey) (msg : bytes) : option bytes :=
  signature ← bls_Sign prv msg; sig_MarshalBinary signature.

Definition VerifyBLSSignature (pubkey : bls_PublicKey) (sig : bls_Signature) (message : bytes) : result sign_err () :=
  match bls_Verify pubkey message sig with
  | None => Err ErrBLS
  | Some ok => if negb ok then Err ErrInvalidBLSSignature else Ok ()
  end.

Definition VerifyBLSSignatureFromBytes (rawPubkey rawSig message : bytes) : result sign_err () :=
  match pk_UnmarshalBinary rawPubkey with
  | None => Err ErrBLS
  | Some pubkey =>
      match sig_UnmarshalBinary rawSig with
      | None => Err ErrBLS
      | Some signature => VerifyBLSSignature pubkey signature message
      end
  end.

(** The loop of [getBLSSignatures] over the map of seals. *)
Fixpoint collect_signatures (sealMap : list (Address * bytes)) (validators : ValSet) (sigs : list bls_Signature) (bitMap : Z)
    : result sign_err (list bls_Signature * Z) :=
  match sealMap with
  | [] => Ok (sigs, bitMap)
  | (addr, seal) :: sealMap =>
      let index := set_Index validators addr in
      if index =? -1 then Err ErrNonValidatorCommittedSeal
      else
        match sig_UnmarshalBinary seal with
        | None => Err ErrBLS
        | Some bsig => collect_signatures sealMap validators (sigs ++ [bsig]) (Z.setbit bitMap index)
        end
  end.

Definition getBLSSignatures (sealMap : list (Address * bytes)) (validators : ValSet) : result sign_err (list bls_Signature * Z) :=
  collect_signatures sealMap validators [] 0.

(** The loop of [createAggregatedBLSPubKeys] from index [idx]. *)
Fixpoint collect_keys (vals : list Validator) (idx : Z) (bitMap : Z) : result sign_err (list bls_PublicKey) :=
  match vals with
  | [] => Ok []
  | validator :: vals =>
      if negb (Z.testbit bitMap idx) then collect_keys vals (idx + 1) bitMap
      else
        match validator with
        | ECDSAValidator _ => Err ErrInvalidValidator
        | BLSValidator _ key =>
            match pk_UnmarshalBinary key with
            | None => Err ErrBLS
            | Some pubKey => let? rest := collect_keys vals (idx + 1) bitMap in Ok (pubKey :: rest)
            end
        end
  end.

Definition createAggregatedBLSPubKeys (vals : ValSet) (bitMap : Z) : result sign_err (bls_MultiPublicKey * Z) :=
  let? pubkeys := collect_keys (vs_Validators vals) 0 bitMap in
  match AggregatePublicKeys pubkeys with
  | None => Err ErrBLS
  | Some key => Ok (key, Z.of_nat (length pubkeys))
  end.

Definition verifyBLSCommittedSealsImpl (bitmap : option Z) (sig msg : bytes) (vals : ValSet) : result sign_err Z :=
  match sig, bitmap with
  | [], _ | _, None => Err ErrEmptyCommittedSeals
  | _, Some b =>
      if BitLen b =? 0 then Err ErrEmptyCommittedSeals
      else
        let? (aggregatedPubKey, numKeys) := createAggregatedBLSPubKeys vals b in
        match ms_UnmarshalBinary sig with
        | None => Err ErrBLS
        | Some signature =>
            match VerifyMultiSignature aggregatedPubKey msg signature with
            | None => Err ErrBLS
            | Some ok => if negb ok then Err ErrInvalidSignature else Ok numKeys
            end
        end
  end.
End bls.

(** ** Key managers *)

Section signer.
Context `{External} `{RlpReader} `{Secp256k1} `{BLS}.

Definition ecrecover (sig msg : bytes) : result sign_err Address :=
  match RecoverPubkey sig msg with None => Err ErrRecover | Some pub => Ok (PubKeyToAddress pub) end.

Inductive KeyManager :=
| ECDSAKeyManager (key : PrivateKey)
| BLSKeyManager (ecdsaKey : PrivateKey) (blsKey : bls_SecretKey).

Definition km_Type (s : KeyManager) : bytes :=
  match s with ECDSAKeyManager _ => ECDSAValidatorType | BLSKeyManager _ _ => BLSValidatorType end.
Definition km_key (s : KeyManager) : PrivateKey := match s with ECDSAKeyManager k => k | BLSKeyManager k _ => k end.
Definition km_Address (s : KeyManager) : Address := PubKeyToAddress (PublicKey (km_key s)).
Definition km_NewEmptyValidators (s : KeyManager) : ValSet :=
  match s with ECDSAKeyManager _ => NewECDSAValidatorSet [] | BLSKeyManager _ _ => NewBLSValidatorSet [] end.
Definition km_NewEmptyCommittedSeals (s : KeyManager) : Seals :=
  match s with ECDSAKeyManager _ => SerializedSeal [] | BLSKeyManager _ _ => AggregatedSeal None [] end.

Definition km_SignProposerSeal (s : KeyManager) (message : bytes) : option bytes := Sign (km_key s) message.
Definition km_SignCommittedSeal (s : KeyManager) (message : bytes) : option bytes :=
  match s with ECDSAKeyManager key => Sign key message | BLSKeyManager _ blsKey => SignByBLS blsKey message end.
Definition km_SignIBFTMessage (s : KeyManager) (msg : bytes) : option bytes := Sign (km_key s) msg.
Definition km_Ecrecover (s : KeyManager) (sig digest : bytes) : result sign_err Address := ecrecover sig digest.

Definition ECDSA_VerifyCommittedSeal (vals : ValSet) (address : Address) (signature message : bytes) : result sign_err () :=
  if negb (bool_decide (vs_Type vals = ECDSAValidatorType)) then Err ErrInvalidValidators
  else
    match ecrecover signature message with
    | Err _ => Err ErrInvalidSignature
    | Ok signer =>
        if negb (address =? signer) then Err ErrSignerMismatch
        else if negb (set_Includes vals address) then Err ErrNonValidatorCommittedSeal
        else Ok ()
    end.

Definition BLS_VerifyCommittedSeal (set : ValSet) (addr : Address) (rawSignature hash : bytes) : outcome (result sign_err ()) :=
  if negb (bool_decide (vs_Type set = BLSValidatorType)) then Ret (Err ErrInvalidValidators)
  else
    let validatorIndex := set_Index set addr in
    if validatorIndex =? -1 then Ret (Err ErrSealValidatorNotFound)
    else
      let~ validator := set_At set validatorIndex in
      Ret (match validator with
           | ECDSAValidator _ => Err ErrInvalidValidators
           | BLSValidator _ key => VerifyBLSSignatureFromBytes key rawSignature hash
           end).

Definition km_VerifyCommittedSeal (s : KeyManager) (vals : ValSet) (signer : Address) (sig hash : bytes) : outcome (result sign_err ()) :=
  match s with
  | ECDSAKeyManager _ => Ret (ECDSA_VerifyCommittedSeal vals signer sig hash)
  | BLSKeyManager _ _ => BLS_VerifyCommittedSeal vals signer sig hash
  end.

(** The loop of the ECDSA [GenerateCommittedSeals]. *)
Fixpoint collect_seals (sealMap : list (Address * bytes)) (seals : list bytes) : result sign_err (list bytes) :=
  match sealMap with
  | [] => Ok seals
  | (_, seal) :: sealMap =>
      if negb (length seal =? IstanbulExtraSeal)%nat then Err ErrInvalidCommittedSealLength
      else collect_seals sealMap (seals ++ [seal])
  end.

Definition BLS_GenerateCommittedSeals (sealMap : list (Address * bytes)) (set : ValSet) : result sign_err Seals :=
  if negb (bool_decide (vs_Type set = BLSValidatorType)) then Err ErrInvalidValidators
  else
    let? (blsSignatures, bitMap) := getBLSSignatures sealMap set in
    match AggregateSignatures blsSignatures with
    | None => Err ErrBLS
    | Some multiSignature =>
        match ms_MarshalBinary multiSignature with
        | None => Err ErrBLS
        | Some multiSignatureBytes => Ok (AggregatedSeal (Some bitMap) multiSignatureBytes)
        end
    end.

Definition km_GenerateCommittedSeals (s : KeyManager) (sealMap : list (Address * bytes)) (vals : ValSet) : result sign_err Seals :=
  match s with
  | ECDSAKeyManager _ => let? seals := collect_seals sealMap [] in Ok (SerializedSeal seals)
  | BLSKeyManager _ _ => BLS_GenerateCommittedSeals sealMap vals
  end.

(** The loop of the ECDSA [verifyCommittedSealsImpl]. *)
Fixpoint verify_seals (seals : list bytes) (msg : bytes) (validators : ValSet) (visited : gset Address) : result sign_err () :=
  match seals with
  | [] => Ok ()
  | seal :: seals =>
      let? addr := ecrecover seal msg in
      if bool_decide (addr ∈ visited) then Err ErrRepeatedCommittedSeal
      else if negb (set_Includes validators addr) then Err ErrNonValidatorCommittedSeal
      else verify_seals seals msg validators ({[ addr ]} ∪ visited)
  end.

Definition ECDSA_verifyCommittedSealsImpl (committedSeal : list bytes) (msg : bytes) (validators : ValSet) : result sign_err Z :=
  let numSeals := Z.of_nat (length committedSeal) in
  if numSeals =? 0 then Err ErrEmptyCommittedSeals
  else let? _ := verify_seals committedSeal msg validators ∅ in Ok numSeals.

Definition km_VerifyCommittedSeals (s : KeyManager) (rawCommittedSeal : Seals) (digest : bytes) (vals : ValSet) : result sign_err Z :=
  match s, rawCommittedSeal with
  | ECDSAKeyManager _, SerializedSeal l =>
      if negb (bool_decide (vs_Type vals = ECDSAValidatorType)) then Err ErrInvalidValidators
      else ECDSA_verifyCommittedSealsImpl l digest vals
  | BLSKeyManager _ _, AggregatedSeal b sig =>
      if negb (bool_decide (vs_Type vals = BLSValidatorType)) then Err ErrInvalidValidators
      else verifyBLSCommittedSealsImpl b sig digest vals
  | _, _ => Err ErrInvalidCommittedSealType
  end.

(** ** The signer *)

(** The parent's key manager is nil for the first two heights. *)
Record SignerImpl := mkSigner {
  sg_keyManager : KeyManager;
  sg_parentKeyManager : option KeyManager;
}.

Definition sg_Type (s : SignerImpl) : bytes := km_Type (sg_keyManager s).
Definition sg_Address (s : SignerImpl) : Address := km_Address (sg_keyManager s).

Definition initIbftExtra (s : SignerImpl) (header : Header) (validators : ValSet) (parentCommittedSeal : option Seals) : Header :=
  putIbftExtra header (mkExtra validators [] (km_NewEmptyCommittedSeals (sg_keyManager s)) parentCommittedSeal).

Definition GetIBFTExtra (s : SignerImpl) (header : Header) : outcome (result sign_err IstanbulExtra) :=
  match verifyIBFTExtraSize header with
  | Err e => Ret (Err e)
  | Ok _ =>
      let data := drop IstanbulExtraVanity (hd_ExtraData header) in
      let~ parent :=
        if hd_Number header >? 1 then
          match sg_parentKeyManager s with Some k => Ret (Some (km_NewEmptyCommittedSeals k)) | None => Panic end
        else Ret None in
      let extra := mkExtra (km_NewEmptyValidators (sg_keyManager s)) [] (km_NewEmptyCommittedSeals (sg_keyManager s)) parent in
      Ret (match UnmarshalRlp (λ _, ex_UnmarshalRLPFrom extra) data with Some e => Ok e | None => Err ErrExtraFormat end)
  end.

Definition filterHeaderForHash (s : SignerImpl) (header : Header) : outcome (result sign_err Header) :=
  let~ r := GetIBFTExtra s header in
  match r with
  | Err e => Ret (Err e)
  | Ok extra =>
      let~ parentCommittedSeals :=
        match ex_ParentCommittedSeals extra with
        | None => Ret None
        | Some p => let~ n := seals_Num p in Ret (if n =? 0 then None else Some p)
        end in
      Ret (Ok (initIbftExtra s header (ex_Validators extra) parentCommittedSeals))
  end.

Definition CalculateHeaderHash (s : SignerImpl) (header : Header) : outcome (result sign_err Hash) :=
  let~ r := filterHeaderForHash s header in
  Ret (let? filteredHeader := r in Ok (calculateHeaderHash filteredHeader)).

Definition WriteProposerSeal (s : SignerImpl) (header : Header) : outcome (result sign_err Header) :=
  let~ r := CalculateHeaderHash s header in
  match r with
  | Err e => Ret (Err e)
  | Ok hash =>
      match km_SignProposerSeal (sg_keyManager s) (keccak (HashBytes hash)) with
      | None => Ret (Err ErrSign)
      | Some seal =>
          let~ extra := packProposerSealIntoExtra (hd_ExtraData header) seal in
          Ret (Ok (set_ExtraData extra header))
      end
  end.

Definition EcrecoverFromHeader (s : SignerImpl) (header : Header) : outcome (result sign_err Address) :=
  let~ r := GetIBFTExtra s header in
  Ret (let? extra := r in km_Ecrecover (sg_keyManager s) (ex_ProposerSeal extra) (keccak (HashBytes (hd_Hash header)))).

Definition CreateCommittedSeal (s : SignerImpl) (hash : bytes) : option bytes :=
  km_SignCommittedSeal (sg_keyManager s) (keccak (wrapCommitHash hash)).

Definition sg_VerifyCommittedSeal (s : SignerImpl) (validators : ValSet) (signer : Address) (signature hash : bytes)
    : outcome (result sign_err ()) :=
  km_VerifyCommittedSeal (sg_keyManager s) validators signer signature (keccak (wrapCommitHash hash)).

Definition GetValidators (s : SignerImpl) (header : Header) : outcome (result sign_err ValSet) :=
  let~ r := GetIBFTExtra s header in
  Ret (let? extra := r in Ok (ex_Validators extra)).

Definition WriteCommittedSeals (s : SignerImpl) (header : Header) (sealMap : list (Address * bytes)) : outcome (result sign_err Header) :=
  if (length sealMap =? 0)%nat then Ret (Err ErrEmptyCommittedSeals)
  else
    let~ r := GetValidators s header in
    match r with
    | Err e => Ret (Err e)
    | Ok validators =>
        match km_GenerateCommittedSeals (sg_keyManager s) sealMap validators with
        | Err e => Ret (Err e)
        | Ok committedSeal =>
            let~ extra := packCommittedSealsIntoExtra (hd_ExtraData header) committedSeal in
            Ret (Ok (set_ExtraData extra header))
        end
    end.

Definition sg_VerifyCommittedSeals (s : SignerImpl) (header : Header) (validators : ValSet) (quorumSize : Z)
    : outcome (result sign_err ()) :=
  let~ r := GetIBFTExtra s header in
  match r with
  | Err e => Ret (Err e)
  | Ok extra =>
      let~ r := CalculateHeaderHash s header in
      match r with
      | Err e => Ret (Err e)
      | Ok hash =>
          let rawMsg := keccak (wrapCommitHash (HashBytes hash)) in
          Ret (let? numSeals := km_VerifyCommittedSeals (sg_keyManager s) (ex_CommittedSeals extra) rawMsg validators in
               if numSeals <? quorumSize then Err ErrNotEnoughCommittedSeals else Ok ())
      end
  end.

Definition GetParentCommittedSeals (s : SignerImpl) (header : Header) : result sign_err Seals :=
  let? _ := verifyIBFTExtraSize header in
  let data := drop IstanbulExtraVanity (hd_ExtraData header) in
  match UnmarshalRlp (λ _, unmarshalRLPFromForParentCS (km_NewEmptyCommittedSeals (sg_keyManager s))) data with
  | Some p => Ok p
  | None => Err ErrExtraFormat
  end.

Definition VerifyParentCommittedSeals (s : SignerImpl) (parent header : Header) (parentValidators : ValSet) (quorum : Z) (mustExist : bool)
    : outcome (result sign_err ()) :=
  match GetParentCommittedSeals s header with
  | Err e => Ret (Err e)
  | Ok parentCommittedSeals =>
      let~ num := seals_Num parentCommittedSeals in
      if num =? 0 then Ret (if mustExist then Err ErrEmptyParentCommittedSeals else Ok ())
      else
        let rawMsg := keccak (wrapCommitHash (HashBytes (hd_Hash parent))) in
        Ret (let? numSeals := km_VerifyCommittedSeals (sg_keyManager s) parentCommittedSeals rawMsg parentValidators in
             if numSeals <? quorum then Err ErrNotEnoughCommittedSeals else Ok ())
  end.

Definition SignIBFTMessage (s : SignerImpl) (msg : bytes) : option bytes := km_SignIBFTMessage (sg_keyManager s) (keccak msg).
Definition EcrecoverFromIBFTMessage (s : SignerImpl) (signature digest : bytes) : result sign_err Address :=
  km_Ecrecover (sg_keyManager s) signature (keccak digest).
End signer.
