(* ===== verification/IbftSignerSpec.v ===== *)
(** What the seals of IBFT promise: a header that is initialised, sealed by its
    proposer and given committed seals that each verify keeps its hash and
    verifies; a header whose committed seals verify carries the signatures of a
    quorum of distinct validators on its hash. *)
From stdpp Require Import strings.
From S2P Require Import Prelude Types Runtime Crypto EvmState Precompiled Signer Rlp RlpTypes Text Validators IbftSigner.

(** What [kryptology] documents of its multisignatures: signatures on one message,
    each valid under its key, aggregate in any order to one that is valid under
    the aggregated keys, and a signature reads back from its bytes. *)
Class BLSLaws `{BLS} : Prop := {
  aggregate_verifies pks sigs sigs' msg :
    Forall2 (λ pk sig, bls_Verify pk msg sig = Some true) pks sigs → sigs' ≡ₚ sigs → sigs ≠ [] →
    ∃ mpk ms, AggregatePublicKeys pks = Some mpk ∧ AggregateSignatures sigs' = Some ms ∧
              VerifyMultiSignature mpk msg ms = Some true;
  ms_bytes sigs ms : AggregateSignatures sigs = Some ms →
    ∃ b, ms_MarshalBinary ms = Some b ∧ b ≠ [] ∧ ms_UnmarshalBinary b = Some ms;
}.

(** ** Reading back *)

(** A nil bitmap reads as zero. *)
Definition seals_read (s : Seals) : Seals :=
  match s with AggregatedSeal None sig => AggregatedSeal (Some 0) sig | _ => s end.

Section read.
Context `{External} `{RlpReader} `{!RlpLaws} `{Secp256k1} `{BLS}.

(** Seals of the kind of a key manager. *)
Definition seals_for (k : KeyManager) (s : Seals) : Prop :=
  match k, s with
  | ECDSAKeyManager _, SerializedSeal _ => True
  | BLSKeyManager _ _, AggregatedSeal b _ => match b with Some b => 0 ≤ b | None => True end
  | _, _ => False
  end.

Lemma seals_for_empty k : seals_for k (km_NewEmptyCommittedSeals k).
Proof. by destruct k. Qed.

Lemma seals_UnmarshalRLPFrom_Marshal k s :
  seals_for k s → seals_UnmarshalRLPFrom (km_NewEmptyCommittedSeals k) (item_of (seals_MarshalRLPWith s)) = Some (seals_read s).
Proof.
  destruct k, s as [l|b sig]; try done; intros Hf.
  - unfold seals_UnmarshalRLPFrom. cbn [km_NewEmptyCommittedSeals].
    assert (GetElems (item_of (seals_MarshalRLPWith (SerializedSeal l))) = Some (IBytes <$> l)) as ->.
    { destruct l as [|a l]; [done|]. cbn [seals_MarshalRLPWith item_of GetElems]. f_equal. rewrite <- list_fmap_compose.
      apply list_fmap_ext. intros i x _. by destruct x. }
    cbn [mbind option_bind]. assert (mapM GetBytes (IBytes <$> l) = Some l) as ->; [|done].
    induction l as [|a l IH]; [done|]. rewrite fmap_cons. cbn [mapM]. rewrite GetBytes_IBytes. cbn. by rewrite IH.
  - unfold seals_UnmarshalRLPFrom. cbn [km_NewEmptyCommittedSeals seals_MarshalRLPWith item_of fmap list_fmap GetElems mbind option_bind].
    assert (item_of match sig with [] => NewNull | _ => NewBytes sig end = IBytes sig) as -> by (by destruct sig).
    assert (item_of match b with Some b => NewBytes (Bytes b) | None => NewNull end = IBytes match b with Some b => Bytes b | None => [] end) as ->
      by (by destruct b).
    rewrite !GetBytes_IBytes. cbn. destruct b as [b|]; cbn; [|done]. cbn in Hf. by rewrite Bytes_value.
Qed.

Lemma item_of_value_of i : item_of (value_of i) = i.
Proof.
  revert i. fix IH 1. intros [b|l]; [done|]. cbn. f_equal. induction l as [|x l IHl]; [done|]. cbn. by rewrite IH, IHl.
Qed.

(** The extra data of a header, up to the encoding. *)
Record carries (vanity : bytes) (e : IstanbulExtra) (h : Header) : Prop := {
  ca_size : (IstanbulExtraVanity ≤ length (hd_ExtraData h))%nat;
  ca_vanity : take IstanbulExtraVanity (hd_ExtraData h) = vanity;
  ca_body : Parse (drop IstanbulExtraVanity (hd_ExtraData h)) = Some (item_of (ex_MarshalRLPWith e));
}.

(** Extra data for a signer and a height. *)
Record extra_for (s : SignerImpl) (n : Z) (e : IstanbulExtra) : Prop := {
  xf_type : vs_Type (ex_Validators e) = sg_Type s;
  xf_typed : Forall (λ v, v_Type v = vs_Type (ex_Validators e)) (vs_Validators (ex_Validators e));
  xf_addrs : Forall (λ v, addr_ok (v_Addr v)) (vs_Validators (ex_Validators e));
  xf_seals : seals_for (sg_keyManager s) (ex_CommittedSeals e);
  xf_parent :
    (n ≤ 1 ∧ ex_ParentCommittedSeals e = None) ∨
    (1 < n ∧ ∃ k p, sg_parentKeyManager s = Some k ∧ ex_ParentCommittedSeals e = Some p ∧ seals_for k p);
}.

Definition extra_read (e : IstanbulExtra) : IstanbulExtra :=
  mkExtra (ex_Validators e) (ex_ProposerSeal e) (seals_read (ex_CommittedSeals e)) (seals_read <$> ex_ParentCommittedSeals e).

Lemma GetIBFTExtra_carries s v e h :
  carries v e h → extra_for s (hd_Number h) e → GetIBFTExtra s h = Ret (Ok (extra_read e)).
Proof.
  intros [Hsz _ Hb] [Ht Hty Ha Hse Hp]. unfold GetIBFTExtra, verifyIBFTExtraSize.
  rewrite (proj2 (Nat.ltb_ge _ _)) by done.
  assert (∃ p0, (if hd_Number h >? 1 then
          match sg_parentKeyManager s with Some k => Ret (Some (km_NewEmptyCommittedSeals k)) | None => Panic end
        else Ret None) = Ret p0 ∧
    ex_UnmarshalRLPFrom (mkExtra (km_NewEmptyValidators (sg_keyManager s)) [] (km_NewEmptyCommittedSeals (sg_keyManager s)) p0)
      (item_of (ex_MarshalRLPWith e)) = Some (extra_read e)) as (p0 & -> & He).
  2: { cbn [obind]. unfold UnmarshalRlp. rewrite Hb. cbn [mbind option_bind]. by rewrite He. }
  unfold ex_UnmarshalRLPFrom, ex_MarshalRLPWith. cbn [item_of GetElems mbind option_bind fmap list_fmap app ex_Validators ex_CommittedSeals].
  assert (vs_Type (km_NewEmptyValidators (sg_keyManager s)) = vs_Type (ex_Validators e)) as Htv by (rewrite Ht; unfold sg_Type; by destruct (sg_keyManager s)).
  assert (item_of match ex_ProposerSeal e with [] => NewNull | s => NewBytes s end = IBytes (ex_ProposerSeal e)) as ->
    by (by destruct (ex_ProposerSeal e)).
  rewrite set_UnmarshalRLPFrom_Marshal by done. rewrite GetBytes_IBytes, seals_UnmarshalRLPFrom_Marshal by done. cbn [mbind option_bind].
  unfold extra_read. destruct Hp as [[Hn Hp]|(Hn & k & p & Hk & Hp & Hpk)]; rewrite Hp; cbn.
  - exists None. rewrite Z.gtb_ltb, (proj2 (Z.ltb_ge _ _)) by lia. done.
  - exists (Some (km_NewEmptyCommittedSeals k)). rewrite Z.gtb_ltb, (proj2 (Z.ltb_lt _ _)), Hk by lia. split; [done|].
    cbn. by rewrite seals_UnmarshalRLPFrom_Marshal.
Qed.

Lemma putIbftExtra_carries h e :
  carries (take IstanbulExtraVanity (hd_ExtraData h ++ zeros IstanbulExtraVanity)) e (putIbftExtra h e).
Proof.
  unfold putIbftExtra. set (x := if (length (hd_ExtraData h) <? IstanbulExtraVanity)%nat then _ else _).
  assert (x = take IstanbulExtraVanity (hd_ExtraData h ++ zeros IstanbulExtraVanity)) as Ex.
  { unfold x. destruct (Nat.ltb_spec (length (hd_ExtraData h)) IstanbulExtraVanity).
    - rewrite take_app, take_ge by lia. f_equal. unfold zeros. rewrite take_replicate. f_equal. lia.
    - by rewrite take_app_le by lia. }
  assert (length x = IstanbulExtraVanity) as Hl.
  { rewrite Ex, length_take, length_app. unfold zeros. rewrite length_replicate. lia. }
  split; cbn [hd_ExtraData set_ExtraData].
  - rewrite length_app. lia.
  - by rewrite take_app_length'.
  - rewrite drop_app_length' by done. apply Parse_MarshalTo.
Qed.

(** Replacing fields of the extra data. *)
Lemma packFieldsIntoExtra_carries v e e' h f :
  carries v e h → (∀ l, item_of (ex_MarshalRLPWith e) = IArray l → (3 ≤ length l)%nat → IArray (item_of <$> f l) = item_of (ex_MarshalRLPWith e')) →
  ∃ extra, packFieldsIntoExtra (hd_ExtraData h) f = Ret extra ∧ carries v e' (set_ExtraData extra h).
Proof.
  intros [Hsz Hv Hb] Hf. unfold packFieldsIntoExtra. rewrite (proj2 (Nat.ltb_ge _ _)) by done. eexists. split; [done|].
  assert (length (take IstanbulExtraVanity (hd_ExtraData h)) = IstanbulExtraVanity) as Hl by (rewrite length_take; lia).
  split; cbn [hd_ExtraData set_ExtraData].
  - rewrite length_app. lia.
  - by rewrite take_app_length'.
  - rewrite drop_app_length' by done. unfold UnmarshalRlp. rewrite Hb. cbn [mbind option_bind].
    destruct (item_of (ex_MarshalRLPWith e)) as [|l] eqn:El; [done|]. cbn [GetElems mbind option_bind].
    assert (3 ≤ length l)%nat as Hl3 by (unfold ex_MarshalRLPWith in El; cbn in El; injection El as <-; cbn; lia).
    rewrite (proj2 (Nat.ltb_ge _ _)) by done. rewrite Parse_MarshalTo. cbn [item_of]. f_equal. by apply Hf.
Qed.

Definition with_seal (seal : bytes) (e : IstanbulExtra) : IstanbulExtra :=
  mkExtra (ex_Validators e) seal (ex_CommittedSeals e) (ex_ParentCommittedSeals e).
Definition with_committed (c : Seals) (e : IstanbulExtra) : IstanbulExtra :=
  mkExtra (ex_Validators e) (ex_ProposerSeal e) c (ex_ParentCommittedSeals e).

Lemma packProposerSeal_carries v e h seal :
  carries v e h →
  ∃ extra, packProposerSealIntoExtra (hd_ExtraData h) seal = Ret extra ∧ carries v (with_seal seal e) (set_ExtraData extra h).
Proof.
  intros Hc. apply (packFieldsIntoExtra_carries v e); [done|]. intros l El _. unfold ex_MarshalRLPWith, with_seal in *.
  cbn [ex_Validators ex_ProposerSeal ex_CommittedSeals ex_ParentCommittedSeals] in *. revert El.
  generalize (set_MarshalRLPWith (ex_Validators e)), (seals_MarshalRLPWith (ex_CommittedSeals e)). intros a b [= <-].
  destruct (ex_ParentCommittedSeals e) as [p|]; [generalize (seals_MarshalRLPWith p); intros c|]; cbn;
    rewrite !item_of_value_of; by destruct seal.
Qed.

Lemma packCommittedSeals_carries v e h c :
  carries v e h →
  ∃ extra, packCommittedSealsIntoExtra (hd_ExtraData h) c = Ret extra ∧ carries v (with_committed c e) (set_ExtraData extra h).
Proof.
  intros Hc. apply (packFieldsIntoExtra_carries v e); [done|]. intros l El _. unfold ex_MarshalRLPWith, with_committed in *.
  cbn [ex_Validators ex_ProposerSeal ex_CommittedSeals ex_ParentCommittedSeals] in *. revert El.
  generalize (set_MarshalRLPWith (ex_Validators e)), (seals_MarshalRLPWith (ex_CommittedSeals e)), (seals_MarshalRLPWith c). intros a b d.
  generalize (match ex_ProposerSeal e with [] => NewNull | _ :: _ => NewBytes (ex_ProposerSeal e) end). intros f [= <-].
  destruct (ex_ParentCommittedSeals e) as [p|]; [generalize (seals_MarshalRLPWith p); intros g|]; cbn;
    by rewrite !item_of_value_of.
Qed.

(** ** The hash *)

Definition num_of (s : Seals) : Z :=
  match s with SerializedSeal l => Z.of_nat (length l) | AggregatedSeal b _ => BitLen (default 0 b) end.

Lemma seals_Num_read s : seals_Num (seals_read s) = Ret (num_of s).
Proof. by destruct s as [l|[b|] sig]. Qed.

(** The parent's seals count in the hash when there are any. *)
Definition hash_parent (e : IstanbulExtra) : option Seals :=
  match ex_ParentCommittedSeals e with
  | Some p => if num_of p =? 0 then None else Some (seals_read p)
  | None => None
  end.

Definition seal_hash (s : SignerImpl) (vanity : bytes) (e : IstanbulExtra) (h : Header) : Hash :=
  calculateHeaderHash (set_ExtraData (vanity ++ MarshalTo (ex_MarshalRLPWith
    (mkExtra (ex_Validators e) [] (km_NewEmptyCommittedSeals (sg_keyManager s)) (hash_parent e)))) h).

Lemma CalculateHeaderHash_carries s v e h :
  carries v e h → extra_for s (hd_Number h) e → CalculateHeaderHash s h = Ret (Ok (seal_hash s v e h)).
Proof.
  intros Hc Hx. unfold CalculateHeaderHash, filterHeaderForHash. rewrite (GetIBFTExtra_carries s v e h Hc Hx). cbn [obind extra_read ex_ParentCommittedSeals ex_Validators].
  assert (match seals_read <$> ex_ParentCommittedSeals e with
          | None => Ret None
          | Some p => let~ n := seals_Num p in Ret (if n =? 0 then None else Some p)
          end = Ret (hash_parent e)) as ->.
  { unfold hash_parent. destruct (ex_ParentCommittedSeals e) as [p|]; [|done]. cbn. by rewrite seals_Num_read. }
  cbn [obind]. unfold seal_hash, initIbftExtra, putIbftExtra. destruct Hc as [Hsz Hv _].
  rewrite (proj2 (Nat.ltb_ge _ _)) by done. by rewrite Hv.
Qed.

(** With a BLS parent, the hash of a header without the parent's seals panics. *)
Lemma missing_parent_seals_panic s v e h key bk :
  carries v e h → extra_for s 0 e → 1 < hd_Number h → sg_parentKeyManager s = Some (BLSKeyManager key bk) →
  CalculateHeaderHash s h = Panic.
Proof.
  intros [Hsz _ Hb] [Ht Hty Ha Hse Hp] Hn Hk. destruct Hp as [[_ Hp]|[? _]]; [|lia].
  unfold CalculateHeaderHash, filterHeaderForHash, GetIBFTExtra, verifyIBFTExtraSize. rewrite (proj2 (Nat.ltb_ge _ _)) by done.
  rewrite Z.gtb_ltb, (proj2 (Z.ltb_lt _ _)), Hk by lia. cbn [obind km_NewEmptyCommittedSeals]. unfold UnmarshalRlp. rewrite Hb. cbn [mbind option_bind].
  unfold ex_UnmarshalRLPFrom, ex_MarshalRLPWith. rewrite Hp.
  cbn [item_of GetElems mbind option_bind fmap list_fmap app ex_Validators ex_CommittedSeals ex_ParentCommittedSeals].
  assert (vs_Type (km_NewEmptyValidators (sg_keyManager s)) = vs_Type (ex_Validators e)) as Htv by (rewrite Ht; unfold sg_Type; by destruct (sg_keyManager s)).
  assert (item_of match ex_ProposerSeal e with [] => NewNull | s => NewBytes s end = IBytes (ex_ProposerSeal e)) as ->
    by (by destruct (ex_ProposerSeal e)).
  rewrite set_UnmarshalRLPFrom_Marshal by done. by rewrite GetBytes_IBytes, seals_UnmarshalRLPFrom_Marshal by done.
Qed.

(** Neither the proposer's seal nor the committed seals change the hash. *)
Lemma seal_hash_seals s v e h seal c x :
  seal_hash s v (with_seal seal e) (set_ExtraData x h) = seal_hash s v e h ∧
  seal_hash s v (with_committed c e) (set_ExtraData x h) = seal_hash s v e h.
Proof. done. Qed.

End read.

(** ** ECDSA seals *)

Section ecdsa_seals.
Context `{External} `{Secp256k1}.

Lemma verify_seals_ok (m : list (Address * bytes)) msg vals visited :
  NoDup m.*1 → (∀ a, a ∈ m.*1 → a ∉ visited) →
  (∀ a seal, (a, seal) ∈ m → ecrecover seal msg = Ok a ∧ set_Includes vals a = true) →
  verify_seals m.*2 msg vals visited = Ok ().
Proof.
  revert visited. induction m as [|[a seal] m IH]; intros visited Hn Hd Hv; [done|]. cbn in Hn. apply NoDup_cons in Hn as [Ha Hn].
  cbn. destruct (Hv a seal) as [-> Hi]; [set_solver|]. rewrite bool_decide_eq_false_2 by (apply Hd; set_solver). rewrite Hi. cbn.
  apply IH; [done| |].
  - intros b Hb. apply not_elem_of_union. split; [|apply Hd; set_solver]. rewrite elem_of_singleton. by intros ->.
  - intros b sl Hin. apply Hv. set_solver.
Qed.

Lemma collect_seals_ok (m : list (Address * bytes)) l :
  Forall (λ p, length p.2 = IstanbulExtraSeal) m → collect_seals m l = Ok (l ++ m.*2).
Proof.
  intros Hm. revert l. induction Hm as [|[a seal] m Hs Hm IH]; intros l; cbn; [by rewrite app_nil_r|].
  cbn in Hs. rewrite Hs. cbn. rewrite IH. by rewrite <- app_assoc.
Qed.

(** The signers of ECDSA seals that verify, once each. *)
Lemma verify_seals_signers seals msg vals visited :
  verify_seals seals msg vals visited = Ok () →
  ∃ signers, Forall2 (λ seal a, ecrecover seal msg = Ok a) seals signers ∧ NoDup signers ∧
             ∀ a, a ∈ signers → set_Includes vals a = true ∧ a ∉ visited.
Proof.
  revert visited. induction seals as [|seal seals IH]; intros visited; cbn.
  - intros _. exists []. split_and!; [constructor|constructor|]. intros a []%elem_of_nil.
  - destruct (ecrecover seal msg) as [a|] eqn:Ha; [|done]. case_bool_decide as Hv; [done|].
    destruct (set_Includes vals a) eqn:Hi; cbn; [|done]. intros (sg & H1' & H2' & H3')%IH.
    exists (a :: sg). split_and!; [by constructor| |].
    + apply NoDup_cons. split; [|done]. intros Hin. destruct (H3' a Hin) as [_ Hn]. set_solver.
    + intros b [->|Hin]%elem_of_cons; [done|]. destruct (H3' b Hin). set_solver.
Qed.
End ecdsa_seals.

(** ** BLS seals *)

Section bls_seals.
Context `{BLSLaws}.

(** One seal, valid under the key of its validator. *)
Definition bls_seal_ok (vs : ValSet) (msg : bytes) (p : Address * bytes) : Prop :=
  ∃ k key pk sig, set_Index vs p.1 = Z.of_nat k ∧ vs_Validators vs !! k = Some (BLSValidator p.1 key) ∧
    pk_UnmarshalBinary key = Some pk ∧ sig_UnmarshalBinary p.2 = Some sig ∧ bls_Verify pk msg sig = Some true.

Lemma BLS_VerifyCommittedSeal_ok vs a seal msg :
  BLS_VerifyCommittedSeal vs a seal msg = Ret (Ok ()) → vs_Type vs = BLSValidatorType ∧ bls_seal_ok vs msg (a, seal).
Proof.
  unfold BLS_VerifyCommittedSeal. case_bool_decide as Ht; cbn [negb]; [|done].
  destruct (set_Index_spec vs a) as [[-> _]|(k & v & Hi & Hk & Hv & _)]; [done|]. rewrite Hi, (proj2 (Z.eqb_neq _ _)) by lia.
  unfold set_At. rewrite Nat2Z.id, Hk. cbn [obind]. destruct v as [|b key]; [done|]. cbn in Hv. subst b.
  unfold VerifyBLSSignatureFromBytes, VerifyBLSSignature. destruct (pk_UnmarshalBinary key) as [pk|] eqn:Hpk; [|done].
  destruct (sig_UnmarshalBinary seal) as [sig|] eqn:Hsig; [|done]. destruct (bls_Verify pk msg sig) as [[]|] eqn:Hbv; try done.
  intros _. split; [done|]. by exists k, key, pk, sig.
Qed.

Definition sigs_of (m : list (Address * bytes)) : list bls_Signature := omap (λ p, sig_UnmarshalBinary p.2) m.

Lemma sigs_of_Permutation m m' : m ≡ₚ m' → sigs_of m ≡ₚ sigs_of m'.
Proof.
  unfold sigs_of. induction 1 as [|x l l' _ IH|x y l|l l' l'' _ IH1 _ IH2]; cbn; [done| | |by etrans].
  - destruct (sig_UnmarshalBinary x.2); by rewrite IH.
  - destruct (sig_UnmarshalBinary y.2), (sig_UnmarshalBinary x.2); try done. apply Permutation_swap.
Qed.

Lemma collect_signatures_ok vs msg m sigs b :
  Forall (bls_seal_ok vs msg) m → 0 ≤ b →
  ∃ b', collect_signatures m vs sigs b = Ok (sigs ++ sigs_of m, b') ∧ 0 ≤ b' ∧
        ∀ i, 0 ≤ i → Z.testbit b' i = Z.testbit b i || bool_decide (i ∈ set_Index vs <$> m.*1).
Proof.
  intros Hm. revert sigs b. induction Hm as [|[a seal] m (k & key & pk & sig & Hi & _ & _ & Hs & _) Hm IH]; intros sigs b Hb.
  - exists b. cbn. rewrite app_nil_r. split_and!; [done..|]. intros i _. rewrite bool_decide_eq_false_2 by set_solver. by rewrite orb_false_r.
  - cbn [collect_signatures]. cbn in Hi, Hs. rewrite Hi, (proj2 (Z.eqb_neq _ _)), Hs by lia.
    destruct (IH (sigs ++ [sig]) (Z.setbit b (Z.of_nat k))) as (b' & E & Hb' & Hbit).
    { rewrite Z.setbit_spec'. apply Z.lor_nonneg. split; [done|]. apply Z.pow_nonneg. lia. }
    exists b'. rewrite E. unfold sigs_of. cbn. rewrite Hs, <- app_assoc. split_and!; [done..|]. intros i Hi0. rewrite Hbit by done.
    rewrite Z.setbit_eqb by lia. rewrite Hi. destruct (Z.eqb_spec (Z.of_nat k) i) as [->|Hne]; cbn.
    + rewrite bool_decide_eq_true_2 by set_solver. by rewrite orb_true_r.
    + f_equal. apply bool_decide_ext. rewrite elem_of_cons. naive_solver.
Qed.

Lemma collect_keys_ok (sel : Validator → Prop) `{!∀ v, Decision (sel v)} vals idx b :
  0 ≤ idx → (∀ j v, vals !! j = Some v → Z.testbit b (idx + Z.of_nat j) = bool_decide (sel v)) →
  (∀ v, v ∈ vals → sel v → ∃ a key pk, v = BLSValidator a key ∧ pk_UnmarshalBinary key = Some pk) →
  ∃ pks, collect_keys vals idx b = Ok pks ∧
    Forall2 (λ v pk, ∃ a key, v = BLSValidator a key ∧ pk_UnmarshalBinary key = Some pk) (filter sel vals) pks.
Proof.
  revert idx. induction vals as [|v vals IH]; intros idx Hidx Hbit Hpk; [exists []; split; [done|constructor]|].
  destruct (IH (idx + 1)) as (pks & E & HF); [lia| |set_solver|].
  { intros j w Hj. rewrite <- (Hbit (S j) w Hj). f_equal. lia. }
  pose proof (Hbit 0%nat v eq_refl) as Hb0. rewrite Z.add_0_r in Hb0. cbn [collect_keys]. rewrite Hb0. rewrite filter_cons.
  destruct (decide (sel v)) as [Hs|Hs].
  - rewrite bool_decide_eq_true_2 by done. cbn [negb]. destruct (Hpk v ltac:(set_solver) Hs) as (a & key & pk & -> & Hk).
    rewrite Hk, E. exists (pk :: pks). split; [done|]. constructor; [by exists a, key|done].
  - rewrite bool_decide_eq_false_2 by done. cbn [negb]. by exists pks.
Qed.

Lemma set_Index_lookup vs j v : NoDup (addrs vs) → vs_Validators vs !! j = Some v → set_Index vs (v_Addr v) = Z.of_nat j.
Proof.
  intros Hn Hj. destruct (set_Index_spec vs (v_Addr v)) as [[_ Hni]|(k & w & -> & Hk & Hw & _)].
  - exfalso. apply Hni. unfold addrs. apply list_elem_of_fmap_2. by eapply list_elem_of_lookup_2.
  - f_equal. apply (NoDup_lookup (addrs vs) k j (v_Addr v) Hn); unfold addrs; rewrite list_lookup_fmap; [by rewrite Hk, <- Hw|by rewrite Hj].
Qed.

(** The bits of the map are those of the validators that sealed. *)
Lemma sealed_bits vs (m : list (Address * bytes)) j v :
  NoDup (addrs vs) → vs_Validators vs !! j = Some v → Z.of_nat j ∈ set_Index vs <$> m.*1 ↔ v_Addr v ∈ m.*1.
Proof.
  intros Hn Hj. rewrite list_elem_of_fmap. split.
  - intros (a & E & Ha). destruct (set_Index_spec vs a) as [[E' _]|(k & w & E' & Hk & <- & _)]; [lia|].
    assert (k = j) as -> by lia. by simplify_eq.
  - intros Ha. exists (v_Addr v). split; [|done]. by rewrite (set_Index_lookup _ _ _ Hn Hj).
Qed.

(** The validators that sealed, in the order of the set. *)
Lemma sealed_order vs msg (m : list (Address * bytes)) :
  NoDup (addrs vs) → NoDup m.*1 → Forall (bls_seal_ok vs msg) m →
  ∃ m', m' ≡ₚ m ∧ m'.*1 = v_Addr <$> filter (λ v, v_Addr v ∈ m.*1) (vs_Validators vs).
Proof.
  intros Hn Hm Hs. assert (m.*1 ≡ₚ v_Addr <$> filter (λ v, v_Addr v ∈ m.*1) (vs_Validators vs)) as Hp.
  { apply NoDup_Permutation; [done| |].
    - eapply sublist_NoDup; [exact Hn|]. apply fmap_sublist, sublist_filter.
    - intros a. rewrite (list_elem_of_fmap v_Addr). split.
      + intros Ha. pose proof Ha as ([a' seal] & -> & Hin)%list_elem_of_fmap. eapply Forall_forall in Hs; [|exact Hin].
        destruct Hs as (k & key & _ & _ & _ & Hk & _). exists (BLSValidator a' key). split; [done|].
        apply list_elem_of_filter. split; [done|]. by eapply list_elem_of_lookup_2.
      + intros (v & -> & [Hin _]%list_elem_of_filter). done. }
  symmetry in Hp. destruct (Permutation_map_inv _ _ Hp) as (m' & Em & Hp'). exists m'. split; [by symmetry|]. by symmetry.
Qed.

Lemma signatures_match vs msg (F : list Validator) pks (m : list (Address * bytes)) :
  NoDup (addrs vs) → (∀ v, v ∈ F → v ∈ vs_Validators vs) → m.*1 = v_Addr <$> F → Forall (bls_seal_ok vs msg) m →
  Forall2 (λ v pk, ∃ a key, v = BLSValidator a key ∧ pk_UnmarshalBinary key = Some pk) F pks →
  Forall2 (λ pk sig, bls_Verify pk msg sig = Some true) pks (sigs_of m).
Proof.
  intros Hn HF. revert pks m. induction F as [|v F IH]; intros pks [|[a seal] m] Em Hm HP; try done; [inversion HP; constructor|].
  apply Forall2_cons_inv_l in HP as (pk & pks' & (b & key & -> & Hpk) & HP & ->). cbn in Em. injection Em as -> Em.
  apply Forall_cons in Hm as [(k & key' & pk' & sig & _ & Hk & Hpk' & Hs & Hv) Hm]. cbn in *.
  assert (key' = key) as ->.
  { assert (BLSValidator b key ∈ vs_Validators vs) as [j Hj]%list_elem_of_lookup_1 by (apply HF; set_solver).
    assert (k = j) as ->; [|congruence].
    apply (NoDup_lookup (addrs vs) k j b Hn); unfold addrs; rewrite list_lookup_fmap; [by rewrite Hk|by rewrite Hj]. }
  unfold sigs_of. cbn. rewrite Hs. constructor; [congruence|]. apply IH; try done. set_solver.
Qed.

Lemma BLS_generate_verifies vs msg m :
  set_ok vs → vs_Type vs = BLSValidatorType → m ≠ [] → NoDup m.*1 → Forall (bls_seal_ok vs msg) m →
  ∃ b sig, BLS_GenerateCommittedSeals m vs = Ok (AggregatedSeal (Some b) sig) ∧ 0 ≤ b ∧
           verifyBLSCommittedSealsImpl (Some b) sig msg vs = Ok (Z.of_nat (length m)).
Proof.
  intros [_ Hn] Ht Hne Hm Hs. destruct (collect_signatures_ok vs msg m [] 0 Hs ltac:(lia)) as (b & Ec & Hb & Hbit).
  assert (∀ j v, vs_Validators vs !! j = Some v → Z.testbit b (0 + Z.of_nat j) = bool_decide (v_Addr v ∈ m.*1)) as Hsel.
  { intros j v Hj. rewrite Hbit by lia. rewrite Z.testbit_0_l. cbn [orb Z.add]. apply bool_decide_ext. by apply sealed_bits. }
  destruct (sealed_order vs msg m Hn Hm Hs) as (m' & Hp & Em').
  destruct (collect_keys_ok (λ v, v_Addr v ∈ m.*1) (vs_Validators vs) 0 b ltac:(lia) Hsel) as (pks & Ek & HF).
  { intros v [j Hj]%list_elem_of_lookup_1 ([a seal] & Ea & Hin)%list_elem_of_fmap. eapply Forall_forall in Hs; [|exact Hin].
    destruct Hs as (k & key & pk & _ & Hi & Hk & Hpk & _). cbn in *. rewrite <- Ea, (set_Index_lookup _ _ _ Hn Hj) in Hi.
    assert (k = j) as -> by lia. exists a, key, pk. split; [congruence|done]. }
  assert (sigs_of m ≡ₚ sigs_of m') as Hps by (by apply sigs_of_Permutation; symmetry).
  assert (Forall (bls_seal_ok vs msg) m') as Hs' by (by rewrite Hp).
  pose proof (signatures_match vs msg _ pks m' Hn ltac:(intros v [_ ?]%list_elem_of_filter; done) Em' Hs' HF) as HV.
  pose proof (Forall2_length _ _ _ HV) as Hlv. pose proof (Forall2_length _ _ _ HF) as Hlf.
  pose proof (f_equal length Em') as Hlm. rewrite !length_fmap in Hlm. pose proof (Permutation_length Hp).
  destruct m as [|p0 m0] eqn:Em0; [done|]. rewrite <- Em0 in *. assert (0 < length m)%nat by (rewrite Em0; cbn; lia).
  destruct (aggregate_verifies pks (sigs_of m') (sigs_of m) msg HV Hps) as (mpk & ms & Epk & Ems & Hver).
  { intros E. rewrite E in Hlv. cbn in Hlv. lia. }
  destruct (ms_bytes _ _ Ems) as (sb & Esb & Hsb & Eub). exists b, sb.
  unfold BLS_GenerateCommittedSeals, getBLSSignatures. rewrite bool_decide_eq_true_2 by done. cbn [negb]. rewrite Ec. cbn [app].
  rewrite Ems, Esb. split_and!; [done..|]. unfold verifyBLSCommittedSealsImpl. destruct sb as [|x sb]; [done|].
  assert (BitLen b ≠ 0) as Hbl.
  { intros E. unfold BitLen in E. destruct (Z.eqb_spec b 0) as [->|]; [|pose proof (Z.log2_nonneg (Z.abs b)); lia].
    rewrite Em0 in Hs. apply Forall_cons in Hs as [(k & key & _ & _ & Hi & Hk & _) _]. pose proof (Hsel k _ Hk) as Hf.
    rewrite Z.testbit_0_l in Hf. symmetry in Hf. apply bool_decide_eq_false in Hf. apply Hf. rewrite Em0. cbn. set_solver. }
  rewrite (proj2 (Z.eqb_neq _ _)) by done. unfold createAggregatedBLSPubKeys. rewrite Ek, Epk, Eub, Hver. cbn [negb]. f_equal. lia.
Qed.
End bls_seals.

(** ** Sealed headers *)

Section sealed.
Context `{External} `{RlpReader} `{!RlpLaws} `{Secp256k1Laws} `{BLSLaws}.

Lemma ecrecover_Sign key msg sig :
  SignCompact key msg = Some sig → nth 0 sig 0 = 27 ∨ nth 0 sig 0 = 28 →
  ∃ seal, Sign key msg = Some seal ∧ ecrecover seal msg = Ok (PubKeyToAddress (PublicKey key)).
Proof.
  intros Hs Hh. destruct (SignCompact_shape _ _ _ Hs) as [Hl _]. destruct sig as [|c sig]; [done|]. cbn in Hl, Hh.
  unfold Sign. rewrite Hs. cbn [nth]. eexists. split; [done|].
  change (drop 1 ((c :: sig) ++ ?l)) with (sig ++ l). unfold ecrecover, RecoverPubkey.
  rewrite length_app. cbn [length]. rewrite (proj2 (Nat.ltb_ge _ _)) by lia.
  rewrite app_nth2, take_app_length' by lia. replace (length sig + 1 - 1 - length sig)%nat with 0%nat by lia. cbn [nth].
  assert ((if (if c =? 28 then 1 else 0) =? 1 then 28 else 27) = c) as -> by (destruct Hh; subst; done).
  by rewrite (RecoverCompact_SignCompact _ _ _ Hs).
Qed.

(** A seal that a key manager accepts. *)
Definition seal_ok (k : KeyManager) (vs : ValSet) (msg : bytes) (p : Address * bytes) : Prop :=
  km_VerifyCommittedSeal k vs p.1 p.2 msg = Ret (Ok ()) ∧
  match k with ECDSAKeyManager _ => length p.2 = IstanbulExtraSeal | BLSKeyManager _ _ => True end.

(** Seals that verify one by one verify together. *)
Lemma generate_verifies k vs msg m :
  set_ok vs → vs_Type vs = km_Type k → m ≠ [] → NoDup m.*1 → Forall (seal_ok k vs msg) m →
  ∃ c, km_GenerateCommittedSeals k m vs = Ok c ∧ seals_for k c ∧
       km_VerifyCommittedSeals k (seals_read c) msg vs = Ok (Z.of_nat (length m)).
Proof.
  intros Hok Ht Hne Hn Hs. destruct k as [key|key bk]; cbn [km_GenerateCommittedSeals km_Type] in *.
  - rewrite collect_seals_ok by (eapply Forall_impl; [exact Hs|]; intros p [_ ?]; done). eexists. split; [done|]. split; [done|].
    cbn [app seals_read km_VerifyCommittedSeals]. rewrite bool_decide_eq_true_2 by done. cbn [negb].
    unfold ECDSA_verifyCommittedSealsImpl. rewrite length_fmap. destruct m as [|p m]; [done|]. cbn [length].
    rewrite (proj2 (Z.eqb_neq _ _)) by lia. rewrite verify_seals_ok; [done|done|set_solver|].
    intros a seal Hin. eapply Forall_forall in Hs; [|exact Hin]. destruct Hs as [Hv _]. cbn in Hv. injection Hv as Hv. unfold ECDSA_VerifyCommittedSeal in Hv.
    rewrite bool_decide_eq_true_2 in Hv by done. cbn [negb] in Hv. destruct (ecrecover seal msg) as [a'|]; [|done].
    destruct (Z.eqb_spec a a') as [->|]; [|done]. cbn [negb] in Hv. by destruct (set_Includes vs a').
  - destruct (BLS_generate_verifies vs msg m Hok Ht Hne Hn) as (b & sig & E & Hb & Hv).
    { eapply Forall_impl; [exact Hs|]. intros [a seal] [Hv _]. by apply BLS_VerifyCommittedSeal_ok. }
    exists (AggregatedSeal (Some b) sig). split; [done|]. split; [done|]. cbn. by rewrite bool_decide_eq_true_2.
Qed.

Lemma extra_for_seal s n e seal : extra_for s n e → extra_for s n (with_seal seal e).
Proof. intros []. by split. Qed.

Lemma extra_for_committed s n e c : extra_for s n e → seals_for (sg_keyManager s) c → extra_for s n (with_committed c e).
Proof. intros [] ?. by split. Qed.

Lemma GetValidators_carries s v e h : carries v e h → extra_for s (hd_Number h) e → GetValidators s h = Ret (Ok (ex_Validators e)).
Proof. intros Hc Hx. unfold GetValidators. by rewrite (GetIBFTExtra_carries s v e h Hc Hx). Qed.

Lemma WriteProposerSeal_carries s v e h sig :
  carries v e h → extra_for s (hd_Number h) e → let hash := seal_hash s v e h in
  SignCompact (km_key (sg_keyManager s)) (keccak (HashBytes hash)) = Some sig → nth 0 sig 0 = 27 ∨ nth 0 sig 0 = 28 →
  ∃ x seal, WriteProposerSeal s h = Ret (Ok (set_ExtraData x h)) ∧ carries v (with_seal seal e) (set_ExtraData x h) ∧
            ecrecover seal (keccak (HashBytes hash)) = Ok (sg_Address s).
Proof.
  intros Hc Hx hash Hsig Hh. destruct (ecrecover_Sign _ _ _ Hsig Hh) as (seal & Hs & Hr).
  destruct (packProposerSeal_carries v e h seal Hc) as (x & Hp & Hc'). exists x, seal. split_and!; [|done|done].
  unfold WriteProposerSeal. rewrite (CalculateHeaderHash_carries s v e h Hc Hx). cbn [obind]. unfold km_SignProposerSeal.
  fold hash. rewrite Hs, Hp. done.
Qed.

Lemma WriteCommittedSeals_carries s v e h m :
  carries v e h → extra_for s (hd_Number h) e → set_ok (ex_Validators e) → m ≠ [] → NoDup m.*1 →
  let msg := keccak (wrapCommitHash (HashBytes (seal_hash s v e h))) in
  Forall (seal_ok (sg_keyManager s) (ex_Validators e) msg) m →
  ∃ x c, WriteCommittedSeals s h m = Ret (Ok (set_ExtraData x h)) ∧ carries v (with_committed c e) (set_ExtraData x h) ∧
         seals_for (sg_keyManager s) c ∧
         km_VerifyCommittedSeals (sg_keyManager s) (seals_read c) msg (ex_Validators e) = Ok (Z.of_nat (length m)).
Proof.
  intros Hc Hx Hok Hne Hn msg Hs. pose proof (xf_type _ _ _ Hx) as Ht.
  destruct (generate_verifies (sg_keyManager s) (ex_Validators e) msg m Hok Ht Hne Hn Hs) as (c & Eg & Hf & Hv).
  destruct (packCommittedSeals_carries v e h c Hc) as (x & Hp & Hc'). exists x, c. split_and!; [|done..].
  unfold WriteCommittedSeals. destruct m as [|p m]; [done|]. cbn [length Nat.eqb].
  rewrite (GetValidators_carries s v e h Hc Hx). cbn [obind]. by rewrite Eg, Hp.
Qed.

(** C27.  A header that is initialised with validators and the parent's seals has a
    hash; sealing it by its proposer and writing committed seals that verify one
    by one both succeed and keep that hash, the validators read back, the
    proposer recovered is the signer, and the committed seals verify for every
    quorum up to their number; for ECDSA seals and for aggregated BLS seals. *)
Theorem committed_header_verifies s h vs parent :
  extra_for s (hd_Number h) (mkExtra vs [] (km_NewEmptyCommittedSeals (sg_keyManager s)) parent) → set_ok vs →
  ∃ hash, CalculateHeaderHash s (initIbftExtra s h vs parent) = Ret (Ok hash) ∧
    ∀ sig, SignCompact (km_key (sg_keyManager s)) (keccak (HashBytes hash)) = Some sig →
      nth 0 sig 0 = 27 ∨ nth 0 sig 0 = 28 →
    ∃ h2, WriteProposerSeal s (initIbftExtra s h vs parent) = Ret (Ok h2) ∧ CalculateHeaderHash s h2 = Ret (Ok hash) ∧
      ∀ m, m ≠ [] → NoDup m.*1 →
        Forall (seal_ok (sg_keyManager s) vs (keccak (wrapCommitHash (HashBytes hash)))) m →
      ∃ h3, WriteCommittedSeals s h2 m = Ret (Ok h3) ∧ CalculateHeaderHash s h3 = Ret (Ok hash) ∧
        GetValidators s h3 = Ret (Ok vs) ∧
        EcrecoverFromHeader s (set_hd_Hash hash h3) = Ret (Ok (sg_Address s)) ∧
        ∀ q, q ≤ Z.of_nat (length m) → sg_VerifyCommittedSeals s h3 vs q = Ret (Ok ()).
Proof.
  set (e := mkExtra vs [] (km_NewEmptyCommittedSeals (sg_keyManager s)) parent). intros Hx Hok.
  pose proof (putIbftExtra_carries h e) as Hc1. set (v := take _ _) in Hc1. fold (initIbftExtra s h vs parent) in Hc1.
  set (h1 := initIbftExtra s h vs parent) in *. assert (hd_Number h1 = hd_Number h) as Hn1 by done. rewrite <- Hn1 in Hx.
  exists (seal_hash s v e h1). split; [by apply CalculateHeaderHash_carries|]. intros sig Hsig Hh.
  destruct (WriteProposerSeal_carries s v e h1 sig Hc1 Hx Hsig Hh) as (x & seal & E2 & Hc2 & Hrec).
  set (h2 := set_ExtraData x h1) in *. pose proof (extra_for_seal _ _ _ seal Hx) as Hx2.
  exists h2. split; [done|]. split; [by rewrite (CalculateHeaderHash_carries s v _ h2 Hc2 Hx2)|]. intros m Hne Hnd Hm.
  destruct (WriteCommittedSeals_carries s v _ h2 m Hc2 Hx2 Hok Hne Hnd Hm) as (y & c & E3 & Hc3 & Hf & Hv).
  set (h3 := set_ExtraData y h2) in *. pose proof (extra_for_committed _ _ _ c Hx2 Hf) as Hx3.
  assert (CalculateHeaderHash s h3 = Ret (Ok (seal_hash s v e h1))) as Hh3 by (by rewrite (CalculateHeaderHash_carries s v _ h3 Hc3 Hx3)).
  exists h3. split; [done|]. split; [done|]. split; [by rewrite (GetValidators_carries s v _ h3 Hc3 Hx3)|]. split.
  - unfold EcrecoverFromHeader. assert (carries v (with_committed c (with_seal seal e)) (set_hd_Hash (seal_hash s v e h1) h3)) as Hc4
      by (destruct Hc3; by split).
    rewrite (GetIBFTExtra_carries s v _ _ Hc4 Hx3). cbn [obind]. unfold km_Ecrecover. cbn [hd_Hash set_hd_Hash extra_read ex_ProposerSeal with_committed with_seal].
    by rewrite Hrec.
  - intros q Hq. unfold sg_VerifyCommittedSeals. rewrite (GetIBFTExtra_carries s v _ _ Hc3 Hx3). cbn [obind]. rewrite Hh3. cbn [obind].
    cbn [extra_read ex_CommittedSeals with_committed].
    change (km_VerifyCommittedSeals (sg_keyManager s) (seals_read c) (keccak (wrapCommitHash (HashBytes (seal_hash s v e h1)))) vs =
      Ok (Z.of_nat (length m))) in Hv. rewrite Hv. by rewrite (proj2 (Z.ltb_ge _ _)).
Qed.
End sealed.

(** ** Who sealed *)

Section signers.
Context `{External} `{RlpReader} `{Secp256k1} `{BLS}.

(** The signers of seals: recovered from each seal, or the validators whose
    aggregated key the multisignature verifies under. *)
Definition sealed_by (vs : ValSet) (msg : bytes) (c : Seals) (signers : list Address) : Prop :=
  match c with
  | SerializedSeal l => Forall2 (λ seal a, ecrecover seal msg = Ok a) l signers
  | AggregatedSeal _ sig =>
      ∃ pks mpk ms,
        Forall2 (λ a pk, ∃ key, BLSValidator a key ∈ vs_Validators vs ∧ pk_UnmarshalBinary key = Some pk) signers pks ∧
        AggregatePublicKeys pks = Some mpk ∧ ms_UnmarshalBinary sig = Some ms ∧ VerifyMultiSignature mpk msg ms = Some true
  end.

Lemma collect_keys_signers vals idx b pks :
  collect_keys vals idx b = Ok pks →
  ∃ signers, sublist signers (v_Addr <$> vals) ∧
    Forall2 (λ a pk, ∃ key, BLSValidator a key ∈ vals ∧ pk_UnmarshalBinary key = Some pk) signers pks.
Proof.
  revert idx pks. induction vals as [|v vals IH]; intros idx pks; cbn [collect_keys].
  - intros [= <-]. exists []. split; [constructor|constructor].
  - destruct (Z.testbit b idx); cbn [negb].
    + destruct v as [|a key]; [done|]. destruct (pk_UnmarshalBinary key) as [pk|] eqn:Hk; [|done].
      destruct (collect_keys vals (idx + 1) b) as [rest|] eqn:Er; [|done]. intros [= <-].
      destruct (IH _ _ Er) as (sg & Hsub & HF). exists (a :: sg). split; [by constructor|]. constructor; [exists key; set_solver|].
      eapply Forall2_impl; [exact HF|]. set_solver.
    + intros (sg & Hsub & HF)%IH. exists sg. split; [by apply sublist_cons|]. eapply Forall2_impl; [exact HF|]. set_solver.
Qed.

Lemma km_VerifyCommittedSeals_signers k c msg vs n :
  NoDup (addrs vs) → km_VerifyCommittedSeals k c msg vs = Ok n →
  ∃ signers, NoDup signers ∧ signers ⊆ addrs vs ∧ n = Z.of_nat (length signers) ∧ sealed_by vs msg c signers.
Proof.
  intros Hn. destruct k, c as [l|b sig]; cbn [km_VerifyCommittedSeals sealed_by]; try done; case_bool_decide; cbn [negb]; try done.
  - unfold ECDSA_verifyCommittedSealsImpl. destruct (Z.of_nat (length l) =? 0); [done|].
    destruct (verify_seals l msg vs ∅) as [[]|] eqn:Ev; [|done]. intros [= <-].
    destruct (verify_seals_signers _ _ _ _ Ev) as (sg & HF & Hd & Hi). exists sg. split_and!; [done| |by rewrite (Forall2_length _ _ _ HF)|done].
    intros a Ha. destruct (Hi a Ha) as [Hin _]. by apply set_Includes_spec.
  - unfold verifyBLSCommittedSealsImpl. destruct sig as [|x sig]; [done|]. destruct b as [b|]; [|done]. destruct (BitLen b =? 0); [done|].
    unfold createAggregatedBLSPubKeys. destruct (collect_keys (vs_Validators vs) 0 b) as [pks|] eqn:Ek; [|done]. cbn.
    destruct (AggregatePublicKeys pks) as [mpk|] eqn:Ea; [|done]. cbn. destruct (ms_UnmarshalBinary _) as [ms|] eqn:Em; [|done].
    destruct (VerifyMultiSignature mpk msg ms) as [[]|] eqn:Ev; cbn; try done. intros [= <-].
    destruct (collect_keys_signers _ _ _ _ Ek) as (sg & Hsub & HF). exists sg. split_and!.
    + by eapply sublist_NoDup.
    + intros a. by apply sublist_subseteq.
    + by rewrite (Forall2_length _ _ _ HF).
    + by exists pks, mpk, ms.
Qed.

(** Committed seals that verify are a quorum's. *)
Lemma sg_VerifyCommittedSeals_signers s h vs q :
  NoDup (addrs vs) → sg_VerifyCommittedSeals s h vs q = Ret (Ok ()) →
  ∃ extra hash signers, GetIBFTExtra s h = Ret (Ok extra) ∧ CalculateHeaderHash s h = Ret (Ok hash) ∧
    NoDup signers ∧ signers ⊆ addrs vs ∧ q ≤ Z.of_nat (length signers) ∧
    sealed_by vs (keccak (wrapCommitHash (HashBytes hash))) (ex_CommittedSeals extra) signers.
Proof.
  intros Hn. unfold sg_VerifyCommittedSeals. destruct (GetIBFTExtra s h) as [[extra|]| |]; try done. cbn [obind].
  destruct (CalculateHeaderHash s h) as [[hash|]| |]; try done. cbn [obind].
  destruct (km_VerifyCommittedSeals _ _ _ _) as [n|] eqn:Ek; [|done].
  destruct (km_VerifyCommittedSeals_signers _ _ _ _ _ Hn Ek) as (sg & ? & ? & -> & ?). destruct (Z.ltb_spec (Z.of_nat (length sg)) q); [done|].
  intros _. by exists extra, hash, sg.
Qed.
End signers.
