(* ===== verification/Staking.v ===== *)
(** The staking contract of proof of stake at genesis ([helper/staking]): the
    account that [PredeployStakingSC] builds, with the storage a Solidity contract
    expects for validators that are staked before the first block.

    The storage is a map from slots to words.  An array of 32 bytes is the number
    it stands for; writing one of its bytes goes through its bytes.  The bytecode is
    a text in hexadecimal, as in the source, written here in lines. *)
From stdpp Require Import strings.
From S2P Require Import Prelude Types Runtime Crypto EvmState Rlp RlpTypes Text Validators StateTxn Executor.

Definition StakingSCBytecode : bytes :=
  mjoin
    [str "0x6080604052600436106101185760003560e01c80637a6eea37116100a0578063d94c111b11610064578063d94c111b1461040a578063";
     str "e387a7ed14610433578063e804fbf61461045e578063f90ecacc14610489578063facd743b146104c657610186565b80637a6eea371461";
     str "03215780637dceceb81461034c578063af6da36e14610389578063c795c077146103b4578063ca1e7819146103df57610186565b806337";
     str "3d6132116100e7578063373d6132146102595780633a4b66f1146102845780633c561f041461028e57806351a9ab32146102b957806371";
     str "4ff425146102f657610186565b806302b751991461018b578063065ae171146101c85780632367f6b5146102055780632def6620146102";
     str "4257610186565b366101865761013c3373ffffffffffffffffffffffffffffffffffffffff16610503565b1561017c576040517f08c379";
     str "a00000000000000000000000000000000000000000000000000000000081526004016101739061178a565b60405180910390fd5b610184";
     str "610516565b005b600080fd5b34801561019757600080fd5b506101b260048036038101906101ad9190611380565b6105ed565b60405161";
     str "01bf91906117e5565b60405180910390f35b3480156101d457600080fd5b506101ef60048036038101906101ea9190611380565b610605";
     str "565b6040516101fc91906116ed565b60405180910390f35b34801561021157600080fd5b5061022c600480360381019061022791906113";
     str "80565b610625565b60405161023991906117e5565b60405180910390f35b34801561024e57600080fd5b5061025761066e565b005b3480";
     str "1561026557600080fd5b5061026e610759565b60405161027b91906117e5565b60405180910390f35b61028c610763565b005b34801561";
     str "029a57600080fd5b506102a36107cc565b6040516102b091906116cb565b60405180910390f35b3480156102c557600080fd5b506102e0";
     str "60048036038101906102db9190611380565b610972565b6040516102ed9190611708565b60405180910390f35b34801561030257600080";
     str "fd5b5061030b610a12565b60405161031891906117e5565b60405180910390f35b34801561032d57600080fd5b50610336610a1c565b60";
     str "405161034391906117ca565b60405180910390f35b34801561035857600080fd5b50610373600480360381019061036e9190611380565b";
     str "610a28565b60405161038091906117e5565b60405180910390f35b34801561039557600080fd5b5061039e610a40565b6040516103ab91";
     str "906117e5565b60405180910390f35b3480156103c057600080fd5b506103c9610a46565b6040516103d691906117e5565b604051809103";
     str "90f35b3480156103eb57600080fd5b506103f4610a4c565b60405161040191906116a9565b60405180910390f35b348015610416576000";
     str "80fd5b50610431600480360381019061042c91906113ad565b610ada565b005b34801561043f57600080fd5b50610448610b31565b6040";
     str "5161045591906117e5565b60405180910390f35b34801561046a57600080fd5b50610473610b37565b60405161048091906117e5565b60";
     str "405180910390f35b34801561049557600080fd5b506104b060048036038101906104ab91906113f6565b610b41565b6040516104bd9190";
     str "61168e565b60405180910390f35b3480156104d257600080fd5b506104ed60048036038101906104e89190611380565b610b80565b6040";
     str "516104fa91906116ed565b60405180910390f35b600080823b905060008111915050919050565b34600460008282546105289190611906";
     str "565b9250508190555034600260003373ffffffffffffffffffffffffffffffffffffffff1673ffffffffffffffffffffffffffffffffff";
     str "ffffff168152602001908152602001600020600082825461057e9190611906565b9250508190555061058e33610bd6565b1561059d5761";
     str "059c33610c4e565b5b3373ffffffffffffffffffffffffffffffffffffffff167f9e71bc8eea02a63969f509818f2dafb9254532904319";
     str "f9dbda79b67bd34a5f3d346040516105e391906117e5565b60405180910390a2565b600360205280600052604060002060009150905054";
     str "81565b60016020528060005260406000206000915054906101000a900460ff1681565b6000600260008373ffffffffffffffffffffffff";
     str "ffffffffffffffff1673ffffffffffffffffffffffffffffffffffffffff168152602001908152602001600020549050919050565b6106";
     str "8d3373ffffffffffffffffffffffffffffffffffffffff16610503565b156106cd576040517f08c379a000000000000000000000000000";
     str "00000000000000000000000000000081526004016106c49061178a565b60405180910390fd5b6000600260003373ffffffffffffffffff";
     str "ffffffffffffffffffffff1673ffffffffffffffffffffffffffffffffffffffff168152602001908152602001600020541161074f5760";
     str "40517f08c379a00000000000000000000000000000000000000000000000000000000081526004016107469061172a565b604051809103";
     str "90fd5b610757610d9d565b565b6000600454905090565b6107823373ffffffffffffffffffffffffffffffffffffffff16610503565b15";
     str "6107c2576040517f08c379a00000000000000000000000000000000000000000000000000000000081526004016107b99061178a565b60";
     str "405180910390fd5b6107ca610516565b565b60606000808054905067ffffffffffffffff8111156107ee576107ed611b9e565b5b604051";
     str "90808252806020026020018201604052801561082157816020015b606081526020019060019003908161080c5790505b50905060005b60";
     str "008054905081101561096a576007600080838154811061084b5761084a611b6f565b5b9060005260206000200160009054906101000a90";
     str "0473ffffffffffffffffffffffffffffffffffffffff1673ffffffffffffffffffffffffffffffffffffffff1673ffffffffffffffffff";
     str "ffffffffffffffffffffff16815260200190815260200160002080546108bb90611a36565b80601f016020809104026020016040519081";
     str "01604052809291908181526020018280546108e790611a36565b80156109345780601f1061090957610100808354040283529160200191";
     str "610934565b820191906000526020600020905b81548152906001019060200180831161091757829003601f168201915b50505050508282";
     str "8151811061094c5761094b611b6f565b5b6020026020010181905250808061096290611a99565b915050610827565b508091505090565b";
     str "6007602052806000526040600020600091509050805461099190611a36565b80601f016020809104026020016040519081016040528092";
     str "91908181526020018280546109bd90611a36565b8015610a0a5780601f106109df57610100808354040283529160200191610a0a565b82";
     str "0191906000526020600020905b8154815290600101906020018083116109ed57829003601f168201915b505050505081565b6000600554";
     str "905090565b670de0b6b3a764000081565b60026020528060005260406000206000915090505481565b60065481565b60055481565b6060";
     str "6000805480602002602001604051908101604052809291908181526020018280548015610ad05760200282019190600052602060002090";
     str "5b8160009054906101000a900473ffffffffffffffffffffffffffffffffffffffff1673ffffffffffffffffffffffffffffffffffffff";
     str "ff1681526020019060010190808311610a86575b5050505050905090565b80600760003373ffffffffffffffffffffffffffffffffffff";
     str "ffff1673ffffffffffffffffffffffffffffffffffffffff1681526020019081526020016000209080519060200190610b2d9291906112";
     str "43565b5050565b60045481565b6000600654905090565b60008181548110610b5157600080fd5b90600052602060002001600091505490";
     str "6101000a900473ffffffffffffffffffffffffffffffffffffffff1681565b6000600160008373ffffffffffffffffffffffffffffffff";
     str "ffffffff1673ffffffffffffffffffffffffffffffffffffffff16815260200190815260200160002060009054906101000a900460ff16";
     str "9050919050565b6000610be182610eef565b158015610c475750670de0b6b3a76400006fffffffffffffffffffffffffffffffff166002";
     str "60008473ffffffffffffffffffffffffffffffffffffffff1673ffffffffffffffffffffffffffffffffffffffff168152602001908152";
     str "6020016000205410155b9050919050565b60065460008054905010610c97576040517f08c379a000000000000000000000000000000000";
     str "0000000000000000000000008152600401610c8e9061174a565b60405180910390fd5b60018060008373ffffffffffffffffffffffffff";
     str "ffffffffffffff1673ffffffffffffffffffffffffffffffffffffffff16815260200190815260200160002060006101000a81548160ff";
     str "021916908315150217905550600080549050600360008373ffffffffffffffffffffffffffffffffffffffff1673ffffffffffffffffff";
     str "ffffffffffffffffffffff1681526020019081526020016000208190555060008190806001815401808255809150506001900390600052";
     str "60206000200160009091909190916101000a81548173ffffffffffffffffffffffffffffffffffffffff021916908373ffffffffffffff";
     str "ffffffffffffffffffffffffff16021790555050565b6000600260003373ffffffffffffffffffffffffffffffffffffffff1673ffffff";
     str "ffffffffffffffffffffffffffffffffff1681526020019081526020016000205490506000600260003373ffffffffffffffffffffffff";
     str "ffffffffffffffff1673ffffffffffffffffffffffffffffffffffffffff16815260200190815260200160002081905550806004600082";
     str "8254610e38919061195c565b92505081905550610e4833610eef565b15610e5757610e5633610f45565b5b3373ffffffffffffffffffff";
     str "ffffffffffffffffffff166108fc829081150290604051600060405180830381858888f19350505050158015610e9d573d6000803e3d60";
     str "00fd5b503373ffffffffffffffffffffffffffffffffffffffff167f0f5bb82176feb1b5e747e28471aa92156a04d9f3ab9f45f28e2d70";
     str "4232b93f7582604051610ee491906117e5565b60405180910390a250565b6000600160008373ffffffffffffffffffffffffffffffffff";
     str "ffffff1673ffffffffffffffffffffffffffffffffffffffff16815260200190815260200160002060009054906101000a900460ff1690";
     str "50919050565b60055460008054905011610f8e576040517f08c379a0000000000000000000000000000000000000000000000000000000";
     str "008152600401610f85906117aa565b60405180910390fd5b600080549050600360008373ffffffffffffffffffffffffffffffffffffff";
     str "ff1673ffffffffffffffffffffffffffffffffffffffff1681526020019081526020016000205410611014576040517f08c379a0000000";
     str "00000000000000000000000000000000000000000000000000815260040161100b9061176a565b60405180910390fd5b60006003600083";
     str "73ffffffffffffffffffffffffffffffffffffffff1673ffffffffffffffffffffffffffffffffffffffff168152602001908152602001";
     str "6000205490506000600160008054905061106c919061195c565b905080821461115a57600080828154811061108a57611089611b6f565b";
     str "5b9060005260206000200160009054906101000a900473ffffffffffffffffffffffffffffffffffffffff169050806000848154811061";
     str "10cc576110cb611b6f565b5b9060005260206000200160006101000a81548173ffffffffffffffffffffffffffffffffffffffff021916";
     str "908373ffffffffffffffffffffffffffffffffffffffff16021790555082600360008373ffffffffffffffffffffffffffffffffffffff";
     str "ff1673ffffffffffffffffffffffffffffffffffffffff16815260200190815260200160002081905550505b6000600160008573ffffff";
     str "ffffffffffffffffffffffffffffffffff1673ffffffffffffffffffffffffffffffffffffffff16815260200190815260200160002060";
     str "006101000a81548160ff0219169083151502179055506000600360008573ffffffffffffffffffffffffffffffffffffffff1673ffffff";
     str "ffffffffffffffffffffffffffffffffff16815260200190815260200160002081905550600080548061120957611208611b40565b5b60";
     str "01900381819060005260206000200160006101000a81549073ffffffffffffffffffffffffffffffffffffffff02191690559055505050";
     str "565b82805461124f90611a36565b90600052602060002090601f01602090048101928261127157600085556112b8565b82601f1061128a";
     str "57805160ff19168380011785556112b8565b828001600101855582156112b8579182015b828111156112b7578251825591602001919060";
     str "01019061129c565b5b5090506112c591906112c9565b5090565b5b808211156112e25760008160009055506001016112ca565b5090565b";
     str "60006112f96112f484611825565b611800565b90508281526020810184848401111561131557611314611bd2565b5b6113208482856119";
     str "f4565b509392505050565b60008135905061133781611d0b565b92915050565b600082601f83011261135257611351611bcd565b5b8135";
     str "6113628482602086016112e6565b91505092915050565b60008135905061137a81611d22565b92915050565b6000602082840312156113";
     str "9657611395611bdc565b5b60006113a484828501611328565b91505092915050565b6000602082840312156113c3576113c2611bdc565b";
     str "5b600082013567ffffffffffffffff8111156113e1576113e0611bd7565b5b6113ed8482850161133d565b91505092915050565b600060";
     str "20828403121561140c5761140b611bdc565b5b600061141a8482850161136b565b91505092915050565b600061142f838361144f565b60";
     str "208301905092915050565b6000611447838361154f565b905092915050565b61145881611990565b82525050565b61146781611990565b";
     str "82525050565b600061147882611876565b61148281856118b1565b935061148d83611856565b8060005b838110156114be5781516114a5";
     str "8882611423565b97506114b083611897565b925050600181019050611491565b5085935050505092915050565b60006114d68261188156";
     str "5b6114e081856118c2565b9350836020820285016114f285611866565b8060005b8581101561152e578484038952815161150f85826114";
     str "3b565b945061151a836118a4565b925060208a019950506001810190506114f6565b50829750879550505050505092915050565b611549";
     str "816119a2565b82525050565b600061155a8261188c565b61156481856118d3565b9350611574818560208601611a03565b61157d81611b";
     str "e1565b840191505092915050565b60006115938261188c565b61159d81856118e4565b93506115ad818560208601611a03565b6115b681";
     str "611be1565b840191505092915050565b60006115ce601d836118f5565b91506115d982611bf2565b602082019050919050565b60006115";
     str "f16027836118f5565b91506115fc82611c1b565b604082019050919050565b60006116146012836118f5565b915061161f82611c6a565b";
     str "602082019050919050565b6000611637601a836118f5565b915061164282611c93565b602082019050919050565b600061165a60408361";
     str "18f5565b915061166582611cbc565b604082019050919050565b611679816119ae565b82525050565b611688816119ea565b8252505056";
     str "5b60006020820190506116a3600083018461145e565b92915050565b600060208201905081810360008301526116c3818461146d565b90";
     str "5092915050565b600060208201905081810360008301526116e581846114cb565b905092915050565b6000602082019050611702600083";
     str "0184611540565b92915050565b600060208201905081810360008301526117228184611588565b905092915050565b6000602082019050";
     str "8181036000830152611743816115c1565b9050919050565b60006020820190508181036000830152611763816115e4565b905091905056";
     str "5b6000602082019050818103600083015261178381611607565b9050919050565b600060208201905081810360008301526117a3816116";
     str "2a565b9050919050565b600060208201905081810360008301526117c38161164d565b9050919050565b60006020820190506117df6000";
     str "830184611670565b92915050565b60006020820190506117fa600083018461167f565b92915050565b600061180a61181b565b90506118";
     str "168282611a68565b919050565b6000604051905090565b600067ffffffffffffffff8211156118405761183f611b9e565b5b6118498261";
     str "1be1565b9050602081019050919050565b6000819050602082019050919050565b6000819050602082019050919050565b600081519050";
     str "919050565b600081519050919050565b600081519050919050565b6000602082019050919050565b6000602082019050919050565b6000";
     str "82825260208201905092915050565b600082825260208201905092915050565b600082825260208201905092915050565b600082825260";
     str "208201905092915050565b600082825260208201905092915050565b6000611911826119ea565b915061191c836119ea565b9250827fff";
     str "ffffffffffffffffffffffffffffffffffffffffffffffffffffffffffffff0382111561195157611950611ae2565b5b82820190509291";
     str "5050565b6000611967826119ea565b9150611972836119ea565b92508282101561198557611984611ae2565b5b82820390509291505056";
     str "5b600061199b826119ca565b9050919050565b60008115159050919050565b60006fffffffffffffffffffffffffffffffff8216905091";
     str "9050565b600073ffffffffffffffffffffffffffffffffffffffff82169050919050565b6000819050919050565b828183376000838301";
     str "52505050565b60005b83811015611a21578082015181840152602081019050611a06565b83811115611a30576000848401525b50505050";
     str "565b60006002820490506001821680611a4e57607f821691505b60208210811415611a6257611a61611b11565b5b50919050565b611a71";
     str "82611be1565b810181811067ffffffffffffffff82111715611a9057611a8f611b9e565b5b80604052505050565b6000611aa4826119ea";
     str "565b91507fffffffffffffffffffffffffffffffffffffffffffffffffffffffffffffffff821415611ad757611ad6611ae2565b5b6001";
     str "82019050919050565b7f4e487b7100000000000000000000000000000000000000000000000000000000600052601160045260246000fd";
     str "5b7f4e487b7100000000000000000000000000000000000000000000000000000000600052602260045260246000fd5b7f4e487b710000";
     str "0000000000000000000000000000000000000000000000000000600052603160045260246000fd5b7f4e487b7100000000000000000000";
     str "000000000000000000000000000000000000600052603260045260246000fd5b7f4e487b71000000000000000000000000000000000000";
     str "00000000000000000000600052604160045260246000fd5b600080fd5b600080fd5b600080fd5b600080fd5b6000601f19601f83011690";
     str "50919050565b7f4f6e6c79207374616b65722063616e2063616c6c2066756e6374696f6e000000600082015250565b7f56616c69646174";
     str "6f72207365742068617320726561636865642066756c6c206360008201527f617061636974790000000000000000000000000000000000";
     str "0000000000000000602082015250565b7f696e646578206f7574206f662072616e67650000000000000000000000000000600082015250";
     str "565b7f4f6e6c7920454f412063616e2063616c6c2066756e6374696f6e000000000000600082015250565b7f56616c696461746f727320";
     str "63616e2774206265206c657373207468616e20746860008201527f65206d696e696d756d2072657175697265642076616c696461746f72";
     str "206e756d602082015250565b611d1481611990565b8114611d1f57600080fd5b50565b611d2b816119ea565b8114611d3657600080fd5b";
     str "5056fea26469706673582212201556e5927c99f1e21e8ae2bbc55b0b507bc60d9732fc9a5e25a0708b409c8c8064736f6c634300080700";
     str "33"].

Definition PadLeftOrTrim (bb : bytes) (size : nat) : bytes :=
  let l := length bb in
  if (l =? size)%nat then bb
  else if (size <? l)%nat then drop (l - size) bb
  else zeros (size - l) ++ bb.

Definition MaxSafeJSInt : Z := 2 ^ 53 - 2.
Definition MinValidatorCount : Z := 1.
Definition MaxValidatorCount : Z := MaxSafeJSInt.

Definition validatorsSlot : Z := 0.
Definition addressToIsValidatorSlot : Z := 1.
Definition addressToStakedAmountSlot : Z := 2.
Definition addressToValidatorIndexSlot : Z := 3.
Definition stakedAmountSlot : Z := 4.
Definition minNumValidatorSlot : Z := 5.
Definition maxNumValidatorSlot : Z := 6.
Definition addressToBLSPublicKeySlot : Z := 7.

Definition DefaultStakedBalance : bytes := str "0x8AC7230489E80000".

Record PredeployParams := mkPredeployParams {
  pp_MinValidatorCount : Z;
  pp_MaxValidatorCount : Z;
}.

Record StorageIndexes := mkStorageIndexes {
  si_ValidatorsIndex : bytes;
  si_ValidatorBLSPublicKeyIndex : bytes;
  si_AddressToIsValidatorIndex : bytes;
  si_AddressToStakedAmountIndex : bytes;
  si_AddressToValidatorIndexIndex : bytes;
}.

Section staking.
Context `{External}.

Definition getAddressMapping (address : Address) (slot : Z) : bytes :=
  HashBytes (Keccak256 (PadLeftOrTrim (AddressBytes address) 32 ++ PadLeftOrTrim (Bytes slot) 32)).

Definition getIndexWithOffset (keccakHash : bytes) (offset : Z) : bytes :=
  Bytes (SetBytes keccakHash + s64 offset).

Definition getStorageIndexes (validator : Validator) (index : Z) : StorageIndexes :=
  let address := v_Addr validator in
  mkStorageIndexes
    (getIndexWithOffset (HashBytes (Keccak256 (PadLeftOrTrim (Bytes validatorsSlot) 32))) index)
    (getAddressMapping address addressToBLSPublicKeySlot)
    (getAddressMapping address addressToIsValidatorSlot)
    (getAddressMapping address addressToStakedAmountSlot)
    (getAddressMapping address addressToValidatorIndexSlot).

(** One turn of the loop of [setBytesToStorage]. *)
Definition set_byte (zeroIndex data : bytes) (storageMap : gmap Hash Hash) (i : nat) : gmap Hash Hash :=
  let slotIndex := BytesToHash (getIndexWithOffset zeroIndex (Z.of_nat (i / 32))) in
  let slot := HashBytes (default 0 (storageMap !! slotIndex)) in
  <[slotIndex := BytesToHash (<[(i mod 32)%nat := nth i data 0]> slot)]> storageMap.

Definition setBytesToStorage (storageMap : gmap Hash Hash) (baseIndexBytes data : bytes) : gmap Hash Hash :=
  let dataLen := length data in
  let baseIndex := BytesToHash baseIndexBytes in
  if (dataLen <=? 31)%nat then
    let bytes := data ++ zeros (32 - dataLen) in
    <[baseIndex := BytesToHash (<[31%nat := (Z.of_nat dataLen * 2) mod 256]> bytes)]> storageMap
  else
    let baseSlot := <[31%nat := (2 * Z.of_nat dataLen + 1) mod 256]> (zeros 32) in
    let storageMap := <[baseIndex := BytesToHash baseSlot]> storageMap in
    let zeroIndex := HashBytes (Keccak256 baseIndexBytes) in
    foldl (set_byte zeroIndex data) storageMap (seq 0 dataLen).

(** One turn of the loop of [PredeployStakingSC]. *)
Definition predeploy_validator (stake : Z) (validator : Validator) (idx : Z) (storageMap : gmap Hash Hash) : gmap Hash Hash :=
  let storageIndexes := getStorageIndexes validator idx in
  let storageMap := <[BytesToHash (si_ValidatorsIndex storageIndexes) := BytesToHash (AddressBytes (v_Addr validator))]> storageMap in
  let storageMap :=
    match validator with
    | BLSValidator _ key => setBytesToStorage storageMap (si_ValidatorBLSPublicKeyIndex storageIndexes) key
    | ECDSAValidator _ => storageMap
    end in
  let storageMap := <[BytesToHash (si_AddressToIsValidatorIndex storageIndexes) := BytesToHash (Bytes 1)]> storageMap in
  let storageMap := <[BytesToHash (si_AddressToStakedAmountIndex storageIndexes) := StringToHash (EncodeBig stake)]> storageMap in
  <[BytesToHash (si_AddressToValidatorIndexIndex storageIndexes) := StringToHash (hex_EncodeUint64 idx)]> storageMap.

Fixpoint predeploy_loop (stake : Z) (vals : list Validator) (idx : Z) (storageMap : gmap Hash Hash) (stakedAmount : Z)
    : gmap Hash Hash * Z :=
  match vals with
  | [] => (storageMap, stakedAmount)
  | validator :: vals =>
      predeploy_loop stake vals (idx + 1) (predeploy_validator stake validator idx storageMap) (stakedAmount + stake)
  end.

(** [vals] may be nil. *)
Definition predeploy_storage (vals : option ValSet) (params : PredeployParams) (stake : Z) : gmap Hash Hash * Z :=
  let list := match vals with Some v => vs_Validators v | None => [] end in
  let '(storageMap, stakedAmount) := predeploy_loop stake list 0 ∅ 0 in
  let storageMap := <[BytesToHash (Bytes stakedAmountSlot) := BytesToHash (Bytes stakedAmount)]> storageMap in
  let storageMap := <[BytesToHash (Bytes validatorsSlot) := BytesToHash (Bytes (Z.of_nat (length list)))]> storageMap in
  let storageMap := <[BytesToHash (Bytes minNumValidatorSlot) := BytesToHash (Bytes (s64 (pp_MinValidatorCount params)))]> storageMap in
  (<[BytesToHash (Bytes maxNumValidatorSlot) := BytesToHash (Bytes (s64 (pp_MaxValidatorCount params)))]> storageMap, stakedAmount).

(** An error of the parser of the stake is [None]. *)
Definition PredeployStakingSC (vals : option ValSet) (params : PredeployParams) : option GenesisAccount :=
  let scHex := (hex_DecodeString (TrimPrefix StakingSCBytecode (str "0x"))).1 in
  match ParseUint256orHex (Some DefaultStakedBalance) with
  | Some (Some stake) =>
      let '(storageMap, stakedAmount) := predeploy_storage vals params stake in
      Some (mkGenesisAccount scHex (map_to_list storageMap) (Some stakedAmount) 0)
  | _ => None
  end.
End staking.
