(* ===== verification/StakingSpec.v ===== *)
(** The storage of the predeployed staking contract, read as Solidity lays it
    out: the validators, their stakes, their indexes and their keys are there, and
    nothing else is. *)
From stdpp Require Import strings.
From S2P Require Import Prelude Types Runtime Crypto EvmState EvmMemory Signer Rlp RlpTypes Text Validators StateTxn Executor Staking.

(** ** Numbers and bytes *)

Lemma SetBytes_app b b' : SetBytes (b ++ b') = SetBytes b * 256 ^ Z.of_nat (length b') + SetBytes b'.
Proof.
  induction b' as [|d b' IH] using rev_ind; [rewrite app_nil_r; cbn; lia|].
  rewrite app_assoc, !SetBytes_snoc, IH, length_app. cbn [length]. rewrite Nat2Z.inj_add, Z.pow_add_r by lia. lia.
Qed.

Lemma SetBytes_last n b : Forall byte_range b → SetBytes (drop (length b - n) b) = SetBytes b mod 256 ^ Z.of_nat n.
Proof.
  intros Hb. destruct (decide (length b ≤ n)%nat) as [Hl|Hl].
  - replace (length b - n)%nat with 0%nat by lia. rewrite drop_0, Z.mod_small; [done|].
    pose proof (SetBytes_range b Hb). pose proof (Z.pow_le_mono_r 256 (Z.of_nat (length b)) (Z.of_nat n)). lia.
  - rewrite <- (take_drop (length b - n) b) at 3. rewrite SetBytes_app, length_drop.
    replace (length b - (length b - n))%nat with n by lia. rewrite Z.add_comm, Z.mod_add by lia.
    symmetry. apply Z.mod_small. pose proof (SetBytes_range (drop (length b - n) b) (Forall_drop _ _ _ Hb)) as Hr.
    rewrite length_drop in Hr. replace (length b - (length b - n))%nat with n in Hr by lia. done.
Qed.

Lemma BytesToHash_Bytes z : 0 ≤ z → BytesToHash (Bytes z) = z mod 2 ^ 256.
Proof. intros Hz. unfold BytesToHash, HashLength. rewrite SetBytes_last, Bytes_value by (done || apply Bytes_range). done. Qed.

Lemma PadLeftOrTrim_pad b n : (length b ≤ n)%nat → PadLeftOrTrim b n = zeros (n - length b) ++ b.
Proof.
  intros Hl. unfold PadLeftOrTrim. destruct (Nat.eqb_spec (length b) n) as [<-|]; [by rewrite Nat.sub_diag|].
  by rewrite (proj2 (Nat.ltb_ge _ _)) by lia.
Qed.

(** The value of digits in base sixteen. *)
Definition hexval (l : list Z) : Z := foldl (λ a d, a * 16 + d) 0 l.

Lemma hexval_shift a l : foldl (λ a d, a * 16 + d) a l = a * 16 ^ Z.of_nat (length l) + hexval l.
Proof.
  induction l as [|d l IH] using rev_ind; [cbn; lia|]. unfold hexval in *. rewrite !foldl_snoc, IH, length_app. cbn [length].
  rewrite Nat2Z.inj_add, Z.pow_add_r by lia. lia.
Qed.

(** An even number of digits is the text of bytes. *)
Lemma digits_bytes n l :
  length l = (2 * n)%nat → Forall (λ d, 0 ≤ d < 16) l →
  ∃ b, hexDigit <$> l = EncodeToString b ∧ SetBytes b = hexval l ∧ Forall byte_range b ∧ length b = n.
Proof.
  revert l. induction n as [|n IH]; intros l Hl Hr; [destruct l; [|done]; by exists []|].
  destruct l as [|x [|y l]]; cbn in Hl; [lia|lia|]. apply Forall_cons in Hr as [Hx Hr]. apply Forall_cons in Hr as [Hy Hr].
  destruct (IH l) as (b & E & Hv & Hb & Hlb); [lia|done|]. exists (x * 16 + y :: b). rewrite EncodeToString_cons, !fmap_cons, E.
  rewrite Z.div_add_l, Z.div_small, Z.add_0_r by lia. rewrite (Z.add_comm (x * 16)), Z.mod_add, Z.mod_small by lia.
  split_and!; [done| |constructor; [unfold byte_range; lia|done]|cbn; lia].
  rewrite SetBytes_cons, Hv. unfold hexval at 2. cbn [foldl]. rewrite hexval_shift.
  replace (16 ^ Z.of_nat (length l)) with (256 ^ Z.of_nat (length b)); [lia|].
  replace (Z.of_nat (length l)) with (2 * Z.of_nat (length b)) by lia. by rewrite Z.pow_mul_r by lia.
Qed.

Lemma hexval_digits fuel n : 0 ≤ n < 16 ^ Z.of_nat fuel → hexval (digits fuel 16 n) = n.
Proof.
  revert n. induction fuel as [|fuel IH]; intros n Hn; [cbn in Hn |- *; lia|]. cbn [digits].
  destruct (Z.ltb_spec n 16); [cbn; lia|]. unfold hexval in *. rewrite foldl_snoc, IH.
  - pose proof (Z.div_mod n 16). lia.
  - rewrite Nat2Z.inj_succ, Z.pow_succ_r in Hn by lia. split; [apply Z.div_pos; lia|apply Z.div_lt_upper_bound; lia].
Qed.

(** A number printed in hexadecimal reads back as a hash. *)
Lemma StringToHash_hex n : 0 ≤ n < 2 ^ 256 → StringToHash (str "0x" ++ FormatUint n 16) = n.
Proof.
  intros Hn. unfold StringToHash, stringToBytes. rewrite TrimPrefix_app. unfold FormatUint. set (fuel := S (Z.to_nat (Z.log2 n))).
  pose proof (digits_range fuel 16 n ltac:(lia) ltac:(lia)) as Hr. set (l := digits fuel 16 n) in *.
  assert (hexval l = n) as Hv.
  { apply hexval_digits. split; [lia|]. unfold fuel. rewrite Nat2Z.inj_succ, Z2Nat.id by apply Z.log2_nonneg.
    destruct (Z.eq_dec n 0) as [->|]; [cbn; lia|]. pose proof (Z.log2_spec n ltac:(lia)).
    pose proof (Z.pow_le_mono_l 2 16 (Z.succ (Z.log2 n))). lia. }
  set (l' := if (length l mod 2 =? 1)%nat then 0 :: l else l).
  assert ((if (length (hexDigit <$> l) mod 2 =? 1)%nat then 48 :: (hexDigit <$> l) else hexDigit <$> l) = hexDigit <$> l') as ->.
  { rewrite length_fmap. unfold l'. by destruct (length l mod 2 =? 1)%nat. }
  destruct (digits_bytes (length l' / 2) l') as (b & -> & Hb & Hrb & _).
  - unfold l'. pose proof (Nat.div_mod_eq (length l) 2). pose proof (Nat.mod_upper_bound (length l) 2).
    destruct (Nat.eqb_spec (length l mod 2) 1); cbn [length].
    + replace (S (length l)) with ((length l / 2 + 1) * 2)%nat by lia. rewrite Nat.div_mul by lia. lia.
    + lia.
  - unfold l'. case_match; [constructor; [lia|done]|done].
  - rewrite hex_DecodeString_Encode by done. cbn. unfold BytesToHash. rewrite SetBytes_last by done. rewrite Hb.
    assert (hexval l' = n) as ->; [unfold l'; by case_match|]. by apply Z.mod_small.
Qed.

(** ** The layout of Solidity *)

Section layout.
Context `{External}.

Definition W256 : Z := 2 ^ 256.
Definition sread (s : gmap Hash Hash) (k : Hash) : Z := default 0 (s !! k).

(** Element [i] of the array at slot [p], and the value of [a] in the mapping at
    slot [p]. *)
Definition array_slot (base : Z) (i : Z) : Hash := (SetBytes (HashBytes (Keccak256 (be_bytes 32 base))) + i) mod W256.
Definition map_slot (a p : Z) : Hash := Keccak256 (be_bytes 32 a ++ be_bytes 32 p) mod W256.

(** A value of type [bytes] at slot [base]: a short one with its length is in one
    word; the words of a long one are an array. *)
Definition words (s : gmap Hash Hash) (base : Hash) (k : nat) : bytes :=
  mjoin ((λ j, HashBytes (sread s (array_slot base (Z.of_nat j)))) <$> seq 0 k).
Definition chunks (n : nat) : nat := ((n + 31) / 32)%nat.

Definition sol_bytes (s : gmap Hash Hash) (base : Hash) : bytes :=
  let w := sread s base in
  if Z.even w then take (Z.to_nat (w mod 256 / 2)) (HashBytes w)
  else let n := Z.to_nat ((w - 1) / 2) in take n (words s base (chunks n)).

(** ** Writing a value of type [bytes] *)

Definition data_slots (base : Hash) (n : nat) : list Hash :=
  if (n <=? 31)%nat then [] else (λ j, array_slot base (Z.of_nat j)) <$> seq 0 (chunks n).

Lemma HashBytes_mod h : HashBytes (h mod W256) = HashBytes h.
Proof. unfold HashBytes, W256. change (2 ^ 256) with (256 ^ Z.of_nat HashLength). apply be_bytes_mod. Qed.

Lemma data_slot base z :
  0 ≤ z < 2 ^ 63 →
  BytesToHash (getIndexWithOffset (HashBytes (Keccak256 (HashBytes base))) z) = array_slot base z.
Proof.
  intros Hz. unfold getIndexWithOffset, array_slot. rewrite s64_small by lia.
  apply BytesToHash_Bytes. pose proof (SetBytes_range _ (HashBytes_range (Keccak256 (be_bytes 32 base)))). lia.
Qed.

(** The words while the loop is at byte [i]. *)
Definition word_at (data : bytes) (i j : nat) : bytes :=
  let c := take 32 (drop (32 * j) (take i data)) in c ++ zeros (32 - length c).

Lemma word_at_step data i :
  (i < length data)%nat →
  word_at data (S i) (i / 32) = <[(i mod 32)%nat := nth i data 0]> (word_at data i (i / 32)) ∧
  ∀ j, j ≠ (i / 32)%nat → word_at data (S i) j = word_at data i j.
Proof.
  intros Hi. pose proof (Nat.div_mod_eq i 32) as Hd. pose proof (Nat.mod_upper_bound i 32 ltac:(lia)) as Hm.
  destruct (nth_lookup_or_length data i 0) as [Hn|]; [|lia]. split.
  - unfold word_at. rewrite (take_S_r data i (nth i data 0)) by done.
    rewrite drop_app_le by (rewrite length_take; lia). set (c := drop (32 * (i / 32)) (take i data)).
    assert (length c = (i mod 32)%nat) as Hc by (unfold c; rewrite length_drop, length_take; lia).
    rewrite (take_ge (c ++ _)) by (rewrite length_app; cbn [length]; lia). rewrite (take_ge c), length_app by lia. cbn [length]. rewrite Hc.
    rewrite insert_app_r_alt by lia. rewrite Hc, Nat.sub_diag. unfold zeros.
    replace (32 - i mod 32)%nat with (S (32 - (i mod 32 + 1))) by lia. cbn [replicate]. by rewrite <- app_assoc.
  - intros j Hj. unfold word_at.
    assert (take 32 (drop (32 * j) (take (S i) data)) = take 32 (drop (32 * j) (take i data))) as ->; [|done].
    rewrite !skipn_firstn_comm, !take_take. destruct (decide (j < i / 32)%nat).
    + by rewrite !Nat.min_l by lia.
    + replace (S i - 32 * j)%nat with 0%nat by lia. by replace (i - 32 * j)%nat with 0%nat by lia.
Qed.

Lemma word_at_wf data i j : Forall byte_range data → length (word_at data i j) = 32%nat ∧ Forall byte_range (word_at data i j).
Proof.
  intros Hd. unfold word_at. split.
  - rewrite length_app. unfold zeros. rewrite length_replicate, length_take. lia.
  - apply Forall_app. split; [by apply Forall_take, Forall_drop, Forall_take|]. apply Forall_replicate. unfold byte_range. lia.
Qed.

Lemma HashBytes_word b : length b = 32%nat → Forall byte_range b → HashBytes (BytesToHash b) = b.
Proof. intros. by apply HashBytes_BytesToHash. Qed.

Lemma set_bytes_loop base data m i :
  let slot j := array_slot base (Z.of_nat j) in
  Forall byte_range data → (i ≤ length data)%nat → Z.of_nat (length data) < 2 ^ 63 →
  NoDup (slot <$> seq 0 (chunks (length data))) → (∀ j, (j < chunks (length data))%nat → m !! slot j = None) →
  let m' := foldl (set_byte (HashBytes (Keccak256 (HashBytes base))) data) m (seq 0 i) in
  (∀ j, (j < chunks (length data))%nat → HashBytes (sread m' (slot j)) = word_at data i j) ∧
  (∀ k, k ∉ slot <$> seq 0 (chunks (length data)) → m' !! k = m !! k).
Proof.
  cbv zeta. set (slot := λ j, array_slot base (Z.of_nat j)). intros Hr Hi Hl Hn Hf. induction i as [|i IH].
  - split; [|done]. intros j Hj. cbn [seq foldl]. unfold sread. rewrite Hf by done. unfold word_at. rewrite take_0, drop_nil, take_nil.
    exact (be_bytes_0 32).
  - destruct IH as [IH1 IH2]; [lia|]. rewrite seq_S, foldl_app. cbn [foldl plus]. set (m' := foldl _ m (seq 0 i)) in *.
    assert (i / 32 < chunks (length data))%nat as Hc.
    { unfold chunks. apply Nat.div_lt_upper_bound; [lia|]. pose proof (Nat.div_mod_eq (length data + 31) 32).
      pose proof (Nat.mod_upper_bound (length data + 31) 32). lia. }
    destruct (word_at_step data i ltac:(lia)) as [Hw1 Hw2]. unfold set_byte.
    rewrite data_slot; [|split; [lia|]; pose proof (Nat.div_le_upper_bound i 32 i); lia].
    change (array_slot base (Z.of_nat (i / 32))) with (slot (i / 32)%nat).
    change (default 0 (m' !! slot (i / 32)%nat)) with (sread m' (slot (i / 32)%nat)). rewrite IH1, <- Hw1 by done.
    destruct (word_at_wf data (S i) (i / 32) Hr) as [Hwl Hwr]. split.
    + intros j Hj. unfold sread. destruct (decide (j = i / 32)%nat) as [->|Hne].
      * rewrite lookup_insert_eq. cbn. by apply HashBytes_word.
      * rewrite lookup_insert_ne; [rewrite Hw2 by done; by apply IH1|]. intros E. apply Hne.
        assert (∀ x, (x < chunks (length data))%nat → (slot <$> seq 0 (chunks (length data))) !! x = Some (slot x)) as Hlk
          by (intros x Hx; rewrite list_lookup_fmap, lookup_seq_lt by done; done).
        eapply (NoDup_lookup _ _ _ _ Hn); [by apply Hlk|]. rewrite Hlk by done. by f_equal.
    + intros k Hk. rewrite lookup_insert_ne; [by apply IH2|]. intros <-. apply Hk. apply list_elem_of_fmap_2, elem_of_seq. lia.
Qed.

Lemma words_data data k :
  (k ≤ chunks (length data))%nat →
  mjoin ((word_at data (length data)) <$> seq 0 k) = take (32 * k) data ++ zeros (32 * k - length data).
Proof.
  intros Hk. assert (32 * chunks (length data) < length data + 32)%nat as Hc.
  { unfold chunks. pose proof (Nat.div_mod_eq (length data + 31) 32). lia. }
  induction k as [|k IH]; [done|]. rewrite seq_S, fmap_app, join_app. rewrite IH by lia. cbn [plus fmap list_fmap mjoin list_join].
  rewrite app_nil_r. unfold word_at. rewrite firstn_all. replace (32 * k - length data)%nat with 0%nat by lia. cbn [zeros replicate].
  rewrite app_nil_r, app_assoc, take_take_drop. replace (32 * k + 32)%nat with (32 * S k)%nat by lia. f_equal. f_equal.
  rewrite length_take, length_drop. lia.
Qed.

Lemma insert_last (l : bytes) v : length l = 32%nat → <[31%nat := v]> l = take 31 l ++ [v].
Proof.
  intros Hl. rewrite <- (take_drop 31 l) at 1. rewrite insert_app_r_alt by (rewrite length_take; lia).
  rewrite length_take. replace (31 - 31 `min` length l)%nat with 0%nat by lia. f_equal.
  assert (length (drop 31 l) = 1%nat) as Hd by (rewrite length_drop; lia). destruct (drop 31 l) as [|x [|]]; done.
Qed.

(** A value of type [bytes] as it is stored. *)
Record bytes_stored (m : gmap Hash Hash) (base : Hash) (data : bytes) : Prop := {
  bs_value : sol_bytes m base = data;
  bs_short : Z.even (sread m base) = (length data <=? 31)%nat;
}.

Lemma bytes_stored_frame m m' base data :
  (∀ k, k ∈ base :: data_slots base (length data) → m' !! k = m !! k) → bytes_stored m base data → bytes_stored m' base data.
Proof.
  intros Hk [Hv Hs]. assert (sread m' base = sread m base) as Eb by (unfold sread; rewrite Hk; [done|set_solver]).
  split; [|by rewrite Eb]. unfold sol_bytes in *. rewrite Eb. rewrite Hs in *.
  unfold data_slots in Hk. destruct (Nat.leb_spec (length data) 31); [done|].
  set (n := Z.to_nat ((sread m base - 1) / 2)) in *.
  assert (n = length data) as Hn.
  { rewrite <- Hv, length_take. unfold words. rewrite length_join, <- list_fmap_compose. 
    erewrite (list_fmap_ext _ (λ _, 32%nat)) by (intros; cbn [compose]; apply length_HashBytes).
    rewrite sum_list_fmap_const, length_seq. unfold chunks. pose proof (Nat.div_mod_eq (n + 31) 32). pose proof (Nat.mod_upper_bound (n + 31) 32). lia. }
  rewrite <- Hv at 1. f_equal. unfold words. f_equal. apply list_fmap_ext. intros i x [-> Hx]%lookup_seq. f_equal. unfold sread.
  rewrite Hk; [done|]. rewrite <- Hn. apply elem_of_cons. right. apply (list_elem_of_fmap_2 (λ j, array_slot base (Z.of_nat j))), elem_of_seq. lia.
Qed.

(** A value of type [bytes] of less than 128 bytes reads back. *)
Lemma setBytesToStorage_reads m base data :
  Forall byte_range data → (length data < 128)%nat → 0 ≤ base < W256 → NoDup (base :: data_slots base (length data)) →
  (∀ k, k ∈ data_slots base (length data) → m !! k = None) →
  let m' := setBytesToStorage m (HashBytes base) data in
  bytes_stored m' base data ∧ ∀ k, k ∉ base :: data_slots base (length data) → m' !! k = m !! k.
Proof.
  cbv zeta. intros Hr Hl Hb Hn Hf. assert (BytesToHash (HashBytes base) = base) as Eb by (by apply BytesToHash_id).
  unfold setBytesToStorage, data_slots in *. rewrite Eb. destruct (Nat.leb_spec (length data) 31) as [Hs|Hs].
  - set (l := data ++ zeros (32 - length data)).
    assert (length l = 32%nat) as Hll by (unfold l; rewrite length_app; unfold zeros; rewrite length_replicate; lia).
    assert (Forall byte_range (take 31 l)) as Hlr.
    { apply Forall_take, Forall_app. split; [done|]. apply Forall_replicate. unfold byte_range. lia. }
    rewrite insert_last, Z.mod_small by (done || lia). split; [|intros k Hk; apply lookup_insert_ne; set_solver].
    set (b := take 31 l ++ [_]). set (m1 := <[base := _]> m).
    assert (sread m1 base = BytesToHash b) as Es by (unfold sread, m1; by rewrite lookup_insert_eq).
    assert (length b = 32%nat) as Hbl by (unfold b; by rewrite length_app, length_take, Hll).
    assert (Forall byte_range b) as Hbr by (apply Forall_app; split; [done|apply Forall_singleton; unfold byte_range; lia]).
    assert (BytesToHash b = SetBytes (take 31 l) * 256 + Z.of_nat (length data) * 2) as Ev.
    { unfold BytesToHash. rewrite Hbl. change (32 - HashLength)%nat with 0%nat. rewrite drop_0. unfold b. apply SetBytes_snoc. }
    assert (Z.even (BytesToHash b) = true) as He.
    { rewrite Ev. rewrite Z.even_add, !Z.even_mul. cbn. by rewrite !orb_true_r. }
    split; rewrite ?Es; [|by rewrite He, (proj2 (Nat.leb_le _ _))]. unfold sol_bytes. rewrite Es, He.
    rewrite HashBytes_word by done. rewrite Ev, Z.add_comm, Z.mod_add, Z.mod_small, Z.div_mul, Nat2Z.id by lia.
    unfold b, l. rewrite take_app_le by (rewrite length_take, length_app; unfold zeros; rewrite length_replicate; lia).
    rewrite take_take, Nat.min_l by lia. by apply take_app_length.
  - apply NoDup_cons in Hn as [Hnb Hn].
    set (m1 := <[base := _]> m).
    destruct (set_bytes_loop base data m1 (length data) Hr ltac:(lia) ltac:(lia) Hn) as [H1' H2'].
    { intros j Hj. assert (array_slot base (Z.of_nat j) ∈ (λ j, array_slot base (Z.of_nat j)) <$> seq 0 (chunks (length data))) as Hin
        by (apply (list_elem_of_fmap_2 (λ j, array_slot base (Z.of_nat j))), elem_of_seq; lia).
      unfold m1. rewrite lookup_insert_ne; [by apply Hf|]. intros E. apply Hnb. by rewrite E at 1. }
    split.
    + set (m2 := foldl _ m1 _) in *. assert (sread m2 base = 2 * Z.of_nat (length data) + 1) as Es.
      { unfold sread. rewrite H2' by done. unfold m1. rewrite lookup_insert_eq. change (default 0 (Some ?x)) with x.
        rewrite insert_last by done. by rewrite Z.mod_small by lia. }
      assert (Z.even (2 * Z.of_nat (length data) + 1) = false) as He by (by rewrite Z.even_add, Z.even_mul).
      split; rewrite ?Es; [|by rewrite He, (proj2 (Nat.leb_gt _ _))]. unfold sol_bytes. rewrite Es, He.
      replace ((2 * Z.of_nat (length data) + 1 - 1) / 2) with (Z.of_nat (length data)) by (rewrite Z.add_simpl_r, Z.mul_comm, Z.div_mul; lia).
      rewrite Nat2Z.id.
      unfold words. erewrite (list_fmap_ext _ (word_at data (length data))).
      * rewrite words_data by done. assert (length data ≤ 32 * chunks (length data))%nat.
        { unfold chunks. pose proof (Nat.div_mod_eq (length data + 31) 32). pose proof (Nat.mod_upper_bound (length data + 31) 32). lia. }
        rewrite (take_ge data) by lia. by apply take_app_length.
      * intros i x [-> Hx]%lookup_seq. by apply H1'.
    + intros k [Hk1 Hk2]%not_elem_of_cons. rewrite H2' by done. unfold m1. by apply lookup_insert_ne.
Qed.

(** ** Validators *)

Definition val_ok (v : Validator) : Prop :=
  addr_ok (v_Addr v) ∧
  match v with ECDSAValidator _ => True | BLSValidator _ key => Forall byte_range key ∧ (length key < 128)%nat end.

Record val_stored (stake : Z) (m : gmap Hash Hash) (v : Validator) (i : Z) : Prop := {
  st_address : sread m (array_slot validatorsSlot i) = v_Addr v;
  st_is_validator : sread m (map_slot (v_Addr v) addressToIsValidatorSlot) = 1;
  st_stake : sread m (map_slot (v_Addr v) addressToStakedAmountSlot) = stake;
  st_index : sread m (map_slot (v_Addr v) addressToValidatorIndexSlot) = i;
  st_key : match v with
           | ECDSAValidator _ => True
           | BLSValidator a key => bytes_stored m (map_slot a addressToBLSPublicKeySlot) key
           end;
}.

Definition key_slots (v : Validator) : list Hash :=
  match v with
  | ECDSAValidator _ => []
  | BLSValidator a key =>
      let base := map_slot a addressToBLSPublicKeySlot in base :: data_slots base (length key)
  end.
Definition val_slots (v : Validator) (i : Z) : list Hash :=
  array_slot validatorsSlot i :: map_slot (v_Addr v) addressToIsValidatorSlot ::
  map_slot (v_Addr v) addressToStakedAmountSlot :: map_slot (v_Addr v) addressToValidatorIndexSlot :: key_slots v.

Ltac in_slots := repeat (apply elem_of_cons; first [by left|right]).

Lemma val_stored_frame stake m m' v i :
  (∀ k, k ∈ val_slots v i → m' !! k = m !! k) → val_stored stake m v i → val_stored stake m' v i.
Proof.
  intros Hk [Ha Hi Hs Hx Hb]. unfold val_slots in Hk.
  split; [unfold sread; rewrite Hk; [done|by in_slots]..|].
  destruct v as [|a key]; [done|]. eapply bytes_stored_frame; [|exact Hb]. intros k Hin. apply Hk. do 4 right. done.
Qed.

Lemma map_slot_range a p : 0 ≤ map_slot a p < W256.
Proof. apply Z.mod_pos_bound. done. Qed.

Lemma getAddressMapping_slot a p : addr_ok a → 0 ≤ p < 256 → getAddressMapping a p = HashBytes (map_slot a p).
Proof.
  intros Ha Hp. unfold getAddressMapping, map_slot. rewrite HashBytes_mod. do 2 f_equal. f_equal.
  - rewrite PadLeftOrTrim_pad by (unfold AddressBytes, AddressLength; rewrite length_be_bytes; lia). unfold AddressBytes.
    rewrite length_be_bytes. symmetry. apply (be_bytes_pad 12 20). exact Ha.
  - assert (0 ≤ p < 256 ^ Z.of_nat 32) as Hp'. { split; [lia|]. apply Z.lt_le_trans with 256; [lia|]. done. }
    rewrite PadLeftOrTrim_pad; [by apply leftPad_Bytes|]. pose proof (f_equal length (leftPad_Bytes p 32 Hp')) as Hl.
    rewrite length_app, length_be_bytes in Hl. unfold zeros in Hl. rewrite length_replicate in Hl. lia.
Qed.

Lemma predeploy_validator_stores stake v i m :
  val_ok v → 0 ≤ stake < W256 → 0 ≤ i < 2 ^ 63 → NoDup (val_slots v i) → (∀ k, k ∈ val_slots v i → m !! k = None) →
  let m' := predeploy_validator stake v i m in
  val_stored stake m' v i ∧ ∀ k, k ∉ val_slots v i → m' !! k = m !! k.
Proof.
  cbv zeta. intros [Ha Hv] Hst Hi Hn Hf. unfold predeploy_validator, getStorageIndexes.
  cbn [si_ValidatorsIndex si_ValidatorBLSPublicKeyIndex si_AddressToIsValidatorIndex si_AddressToStakedAmountIndex si_AddressToValidatorIndexIndex].
  assert (PadLeftOrTrim (Bytes validatorsSlot) 32 = HashBytes validatorsSlot) as -> by done. rewrite data_slot by done.
  rewrite !getAddressMapping_slot by done. rewrite !BytesToHash_id by apply map_slot_range.
  assert (BytesToHash (AddressBytes (v_Addr v)) = v_Addr v) as ->.
  { unfold BytesToHash, AddressBytes. rewrite length_be_bytes. cbn [Nat.sub AddressLength HashLength]. rewrite drop_0, SetBytes_be_bytes. by apply Z.mod_small. }
  assert (BytesToHash (Bytes 1) = 1) as -> by done.
  assert (StringToHash (EncodeBig stake) = stake) as ->.
  { assert (EncodeBig stake = str "0x" ++ FormatUint stake 16) as ->; [|by apply StringToHash_hex].
    unfold EncodeBig, BitLen. destruct (Z.eqb_spec stake 0) as [->|Hs0]; [done|]. pose proof (Z.log2_nonneg (Z.abs stake)).
    rewrite (proj2 (Z.eqb_neq _ _)) by lia. by rewrite (proj2 (Z.ltb_ge _ _)) by lia. }
  unfold hex_EncodeUint64. rewrite StringToHash_hex by (split; [lia|]; apply Z.lt_trans with (2 ^ 63); [lia|done]).
  unfold val_slots in *. set (k1 := array_slot _ i) in *. set (k2 := map_slot _ addressToIsValidatorSlot) in *.
  set (k3 := map_slot _ addressToStakedAmountSlot) in *. set (k4 := map_slot _ addressToValidatorIndexSlot) in *.
  apply NoDup_cons in Hn as [[H12 [H13 [H14 H1k]%not_elem_of_cons]%not_elem_of_cons]%not_elem_of_cons Hn]. apply NoDup_cons in Hn as [[H23 [H24 H2k]%not_elem_of_cons]%not_elem_of_cons Hn].
  apply NoDup_cons in Hn as [[H34 H3k]%not_elem_of_cons Hn]. apply NoDup_cons in Hn as [H4k Hn].
  set (m1 := <[k1 := _]> m). set (m2 := match v with ECDSAValidator _ => _ | BLSValidator _ _ => _ end).
  assert (match v with ECDSAValidator _ => True | BLSValidator a key => bytes_stored m2 (map_slot a addressToBLSPublicKeySlot) key end ∧
          ∀ k, k ∉ key_slots v → m2 !! k = m1 !! k) as [Hk Hm2].
  { unfold m2, key_slots in *. destruct v as [a|a key]; [done|]. destruct Hv. apply setBytesToStorage_reads; try done; [apply map_slot_range|].
    intros k Hin. unfold m1. rewrite lookup_insert_ne; [|by intros <-; apply H1k; right]. apply Hf. do 5 right. done. }
  split.
  - split; unfold sread; fold k1 k2 k3 k4.
    + rewrite !lookup_insert_ne, Hm2 by done. unfold m1. by rewrite lookup_insert_eq.
    + rewrite !lookup_insert_ne by done. by rewrite lookup_insert_eq.
    + rewrite lookup_insert_ne by done. by rewrite lookup_insert_eq.
    + by rewrite lookup_insert_eq.
    + unfold key_slots in *. destruct v as [a|a key]; [done|]. eapply bytes_stored_frame; [|exact Hk]. intros k Hin.
      by rewrite !lookup_insert_ne by (intros <-; done).
  - intros k [Hk1 [Hk2 [Hk3 [Hk4 Hk']%not_elem_of_cons]%not_elem_of_cons]%not_elem_of_cons]%not_elem_of_cons. rewrite !lookup_insert_ne, Hm2 by done. unfold m1. by apply lookup_insert_ne.
Qed.

(** The slots of a list of validators from index [i]. *)
Fixpoint all_slots (vals : list Validator) (i : Z) : list Hash :=
  match vals with [] => [] | v :: vals => val_slots v i ++ all_slots vals (i + 1) end.

Lemma predeploy_loop_stores stake vals i m staked :
  Forall val_ok vals → 0 ≤ stake < W256 → 0 ≤ i → i + Z.of_nat (length vals) < 2 ^ 63 →
  NoDup (all_slots vals i) → (∀ k, k ∈ all_slots vals i → m !! k = None) →
  let r := predeploy_loop stake vals i m staked in
  r.2 = staked + stake * Z.of_nat (length vals) ∧
  (∀ j v, vals !! j = Some v → val_stored stake r.1 v (i + Z.of_nat j)) ∧
  ∀ k, k ∉ all_slots vals i → r.1 !! k = m !! k.
Proof.
  cbv zeta. intros Hv Hst Hi. revert i m staked Hi. induction Hv as [|v vals Hv Hvs IH]; intros i m staked Hi Hl Hn Hf.
  { cbn. split_and!; [lia|done|done]. }
  cbn [length] in Hl. cbn [all_slots] in Hn, Hf. apply NoDup_app in Hn as (Hn1 & Hd & Hn2). cbn [predeploy_loop].
  destruct (predeploy_validator_stores stake v i m Hv Hst ltac:(lia) Hn1) as [Hs Hm1]; [intros k Hk; apply Hf, elem_of_app; by left|].
  destruct (IH (i + 1) (predeploy_validator stake v i m) (staked + stake)) as (E & Hst' & Hm2); [lia..|done| |].
  { intros k Hk. rewrite Hm1; [apply Hf, elem_of_app; by right|]. intros Hk'. by apply (Hd k). }
  split_and!.
  - rewrite E. cbn [length]. lia.
  - intros [|j] w Hj; cbn in Hj.
    + injection Hj as <-. rewrite Z.add_0_r. eapply val_stored_frame; [|exact Hs]. intros k Hk. apply Hm2, Hd. exact Hk.
    + replace (i + Z.of_nat (S j)) with (i + 1 + Z.of_nat j) by lia. by apply Hst'.
  - intros k [Hk1 Hk2]%not_elem_of_app. by rewrite Hm2, Hm1.
Qed.

Lemma all_slots_elem vals i j v k : vals !! j = Some v → k ∈ val_slots v (i + Z.of_nat j) → k ∈ all_slots vals i.
Proof.
  revert i j. induction vals as [|w vals IH]; intros i j Hj Hk; [done|]. cbn [all_slots]. apply elem_of_app.
  destruct j as [|j]; cbn in Hj.
  - injection Hj as ->. left. by rewrite Z.add_0_r in Hk.
  - right. apply (IH (i + 1) j Hj). by replace (i + 1 + Z.of_nat j) with (i + Z.of_nat (S j)) by lia.
Qed.

(** The slots outside the arrays and the mappings. *)
Definition fixed_slots : list Hash := [stakedAmountSlot; validatorsSlot; minNumValidatorSlot; maxNumValidatorSlot].

(** The account of the staking contract holds the stake of every validator of the
    set it is built for, and its storage, read as Solidity lays it out, has their
    number, the minimum and the maximum, the total stake and for every validator
    its address at its index, that it is one, its stake, its index and its BLS
    key; and every slot that is set is one of those, when no two of them meet. *)
Theorem predeployed_storage vals params :
  Forall val_ok (vs_Validators vals) →
  0 ≤ pp_MinValidatorCount params < 2 ^ 63 → 0 ≤ pp_MaxValidatorCount params < 2 ^ 63 →
  let n := Z.of_nat (length (vs_Validators vals)) in
  n < 2 ^ 63 → NoDup (fixed_slots ++ all_slots (vs_Validators vals) 0) →
  ∃ account, PredeployStakingSC (Some vals) params = Some account ∧
    let stake := 10 ^ 19 in
    let m : gmap Hash Hash := list_to_map (ga_Storage account) in
    ga_Balance account = Some (stake * n) ∧ ga_Nonce account = 0 ∧
    sread m validatorsSlot = n ∧ sread m stakedAmountSlot = stake * n ∧
    sread m minNumValidatorSlot = pp_MinValidatorCount params ∧ sread m maxNumValidatorSlot = pp_MaxValidatorCount params ∧
    (∀ i v, vs_Validators vals !! i = Some v → val_stored stake m v (Z.of_nat i)) ∧
    ∀ k, k ∉ fixed_slots ++ all_slots (vs_Validators vals) 0 → m !! k = None.
Proof.
  intros Hv Hmin Hmax n Hn Hd. unfold PredeployStakingSC.
  assert (ParseUint256orHex (Some DefaultStakedBalance) = Some (Some (10 ^ 19))) as -> by done.
  unfold predeploy_storage. apply NoDup_app in Hd as (Hdf & Hdd & Hda).
  destruct (predeploy_loop_stores (10 ^ 19) (vs_Validators vals) 0 ∅ 0 Hv ltac:(done) ltac:(lia) ltac:(lia) Hda) as (Es & Hst & Hfr); [done|].
  destruct (predeploy_loop _ _ _ _ _) as [m staked]. cbn [fst snd] in *. rewrite Z.add_0_l in Es. subst staked. fold n.
  assert (10 ^ 19 * n < 2 ^ 256) as Hb.
  { apply Z.lt_trans with (10 ^ 19 * 2 ^ 63); [lia|reflexivity]. }
  eexists. split; [done|]. cbv zeta. cbn [ga_Balance ga_Nonce ga_Storage]. rewrite list_to_map_to_list.
  rewrite !BytesToHash_Bytes by (rewrite ?s64_small; lia || done). rewrite !s64_small, !Z.mod_small by (done || lia).
  set (m' := <[maxNumValidatorSlot := _]> _).
  assert (∀ k, k ∉ fixed_slots → m' !! k = m !! k) as Hm'.
  { intros k Hk. unfold m', fixed_slots in *. rewrite !not_elem_of_cons in Hk. destruct Hk as (? & ? & ? & ? & _).
    by rewrite !lookup_insert_ne by done. }
  split; [done|]. split; [done|].
  do 4 (split; [unfold m', sread; repeat (rewrite lookup_insert_eq || rewrite lookup_insert_ne by done); done|]). split.
  - intros i v Hi. eapply val_stored_frame; [|exact (Hst i v Hi)]. intros k Hk. apply Hm'. intros Hin. apply (Hdd k Hin).
    by eapply (all_slots_elem _ 0 i).
  - intros k [Hk1 Hk2]%not_elem_of_app. rewrite Hm', Hfr by done. apply lookup_empty.
Qed.
End layout.
