(* ===== verification/ContractStore.v ===== *)
(** The validators of proof of stake: the queries to the staking contract
    ([contracts/staking/query.go]) and the store that asks it
    ([validators/store/contract]).

    The ABI library ([umbracle/ethgo]) is the class [EthgoAbi]: the methods of the
    contract, and a decoder that gives a value of an interface type.  The executor
    is the one of [Executor], and the chain is a [HeaderGetter]. *)
From stdpp Require Import strings.
From S2P Require Import Prelude GoHeap Types Runtime Crypto EvmState EvmInstr EvmRun TxAccount Intrinsic StateTxn Bloom Blake2f Precompiled Signer Rlp RlpTypes Text Validators Snapshot IbftSigner Executor.

(** What the decoder of the outputs gives. *)
Inductive iface :=
| IfaceMap (m : list (bytes * iface))
| IfaceAddresses (l : list Address)
| IfaceBytesArray (l : list bytes)
| IfaceOther.

Class EthgoAbi := {
  abi_Method : Type;
  StakingABI_Methods : bytes → option abi_Method;
  method_ID : abi_Method → bytes;
  Outputs_Decode : abi_Method → bytes → option iface;
}.

Definition methodValidators : bytes := str "validators".
Definition methodValidatorBLSPublicKeys : bytes := str "validatorBLSPublicKeys".
Definition AddrStakingContract : Address := StringToAddress (str "1001").
Definition queryGasLimit : Z := 1000000.

Inductive store_err :=
| ErrMethodNotFoundInABI
| ErrFailedTypeAssertion
| ErrDecode
| ErrApply (e : TransitionApplicationError)
| ErrFailed (e : vmError)
| ErrValidators (e : val_err)
| ErrUnsupportedType
| ErrNoHeader
| ErrBeginTxn (e : applyErr).

(** [mapResult["0"]]. *)
Definition field0 (m : list (bytes * iface)) : option iface :=
  snd <$> List.find (λ p, bool_decide (p.1 = str "0")) m.

Definition decodeWeb3ArrayOfBytes (value : iface) : result store_err (list bytes) :=
  match value with
  | IfaceMap mapResult => match field0 mapResult with Some (IfaceBytesArray l) => Ok l | _ => Err ErrFailedTypeAssertion end
  | _ => Err ErrFailedTypeAssertion
  end.

Definition createCallViewTx (from contractAddress : Address) (methodID : bytes) (nonce : Z) : Transaction :=
  mkTransaction nonce 0 queryGasLimit (Some contractAddress) 0 methodID None None None ZeroHash from.

Section abi.
Context `{EthgoAbi}.

Definition DecodeValidators (method : abi_Method) (returnValue : bytes) : result store_err (list Address) :=
  match Outputs_Decode method returnValue with
  | None => Err ErrDecode
  | Some (IfaceMap results) => match field0 results with Some (IfaceAddresses l) => Ok l | _ => Err ErrFailedTypeAssertion end
  | Some _ => Err ErrFailedTypeAssertion
  end.

Definition decodeBLSPublicKeys (method : abi_Method) (returnValue : bytes) : result store_err (list bytes) :=
  match Outputs_Decode method returnValue with
  | None => Err ErrDecode
  | Some decodedResults => decodeWeb3ArrayOfBytes decodedResults
  end.
End abi.

Section contract.
Context `{EthgoAbi} `{External} `{Secp256k1} `{PrecompiledCrypto} `{GoRuntime} `{MachinePool} `{LRU} `{FinMap Z RT} `{BLS}.

(** The call that both queries make, and the bytes it returns. *)
Definition call_view (method : abi_Method) (from : Address) (t : Transition (RT:=RT))
    : outcome (result store_err bytes * Transition) :=
  let~ (res, t) := Apply (createCallViewTx from AddrStakingContract (method_ID method) (GetNonce from (t_state t))) t in
  Ret (match res with
       | Err e => Err (ErrApply e)
       | Ok res => match ExecErr res with Some e => Err (ErrFailed e) | None => Ok (ReturnValue res) end
       end, t).

Definition QueryValidators (t : Transition (RT:=RT)) (from : Address) : outcome (result store_err (list Address) * Transition) :=
  match StakingABI_Methods methodValidators with
  | None => Ret (Err ErrMethodNotFoundInABI, t)
  | Some method =>
      let~ (res, t) := call_view method from t in
      Ret (let? value := res in DecodeValidators method value, t)
  end.

Definition QueryBLSPublicKeys (t : Transition (RT:=RT)) (from : Address) : outcome (result store_err (list bytes) * Transition) :=
  match StakingABI_Methods methodValidatorBLSPublicKeys with
  | None => Ret (Err ErrMethodNotFoundInABI, t)
  | Some method =>
      let~ (res, t) := call_view method from t in
      Ret (let? value := res in decodeBLSPublicKeys method value, t)
  end.

(** ** Fetching ([fetcher.go]) *)

Fixpoint add_ecdsa (valAddrs : list Address) (set : ValSet) : result store_err ValSet :=
  match valAddrs with
  | [] => Ok set
  | addr :: valAddrs =>
      match set_Add set (ECDSAValidator addr) with
      | Err e => Err (ErrValidators e)
      | Ok set => add_ecdsa valAddrs set
      end
  end.

Definition FetchECDSAValidators (transition : Transition (RT:=RT)) (from : Address) : outcome (result store_err ValSet * Transition) :=
  let~ (res, t) := QueryValidators transition from in
  Ret (let? valAddrs := res in add_ecdsa valAddrs (NewECDSAValidatorSet []), t).

(** The loop from index [idx]; an index past the keys panics. *)
Fixpoint add_bls (valAddrs : list Address) (blsPublicKeys : list bytes) (set : ValSet) : outcome (result store_err ValSet) :=
  match valAddrs, blsPublicKeys with
  | [], _ => Ret (Ok set)
  | _ :: _, [] => Panic
  | addr :: valAddrs, key :: blsPublicKeys =>
      match pk_UnmarshalBinary key with
      | None => add_bls valAddrs blsPublicKeys set
      | Some _ =>
          match set_Add set (BLSValidator addr key) with
          | Err e => Ret (Err (ErrValidators e))
          | Ok set => add_bls valAddrs blsPublicKeys set
          end
      end
  end.

Definition FetchBLSValidators (transition : Transition (RT:=RT)) (from : Address) : outcome (result store_err ValSet * Transition) :=
  let~ (res, t) := QueryValidators transition from in
  match res with
  | Err e => Ret (Err e, t)
  | Ok valAddrs =>
      let~ (res, t) := QueryBLSPublicKeys t from in
      match res with
      | Err e => Ret (Err e, t)
      | Ok blsPublicKeys => let~ r := add_bls valAddrs blsPublicKeys (NewBLSValidatorSet []) in Ret (r, t)
      end
  end.

Definition FetchValidators (validatorType : bytes) (transition : Transition (RT:=RT)) (from : Address)
    : outcome (result store_err ValSet * Transition) :=
  if bool_decide (validatorType = ECDSAValidatorType) then FetchECDSAValidators transition from
  else if bool_decide (validatorType = BLSValidatorType) then FetchBLSValidators transition from
  else Ret (Err ErrUnsupportedType, transition).

(** ** The store ([contract.go]) *)

Record ContractValidatorStore := mkContractStore { cs_validatorSetCache : cache ValSet }.

Definition NewContractValidatorStore : ContractValidatorStore := mkContractStore lru_New.

Definition loadCachedValidatorSet (height : Z) (s : ContractValidatorStore) : option ValSet * ContractValidatorStore :=
  let '(v, c) := lru_Get height (cs_validatorSetCache s) in (v, mkContractStore c).

Definition saveToValidatorSetCache (height : Z) (validators : ValSet) (s : ContractValidatorStore) : ContractValidatorStore :=
  mkContractStore (lru_Add height validators (cs_validatorSetCache s)).

Definition getTransitionForQuery (blockchain : HeaderGetter) (executor : Executor (RT:=RT)) (height : Z)
    : result store_err (Transition (RT:=RT)) :=
  match hg_GetHeaderByNumber blockchain height with
  | None => Err ErrNoHeader
  | Some header =>
      match BeginTxn executor (hd_StateRoot header) header ZeroAddress with
      | Err e => Err (ErrBeginTxn e)
      | Ok t => Ok t
      end
  end.

Definition contract_GetValidatorsByHeight (blockchain : HeaderGetter) (executor : Executor (RT:=RT)) (validatorType : bytes) (height : Z)
    (s : ContractValidatorStore) : outcome (result store_err ValSet * ContractValidatorStore) :=
  match loadCachedValidatorSet height s with
  | (Some cachedValidators, s) => Ret (Ok cachedValidators, s)
  | (None, s) =>
      match getTransitionForQuery blockchain executor height with
      | Err e => Ret (Err e, s)
      | Ok transition =>
          let~ (r, _) := FetchValidators validatorType transition ZeroAddress in
          Ret (match r with
               | Err e => (Err e, s)
               | Ok fetchedValidators => (Ok fetchedValidators, saveToValidatorSetCache height fetchedValidators s)
               end)
      end
  end.
End contract.
