(* ===== verification/IbftFork.v ===== *)
(** Package [consensus/ibft/fork] and [consensus/ibft/hook]: the forks of an IBFT
    chain, the hooks each of them registers, and the [ForkManager] that gives the
    signer, the validators and the hooks of a height.

    Of the validator stores there is at most one of each source, so the map of
    them is two fields.  A hook is a function, as in the code, and one that is a
    method of the snapshot store takes that store and gives it back.  The secrets,
    the chain, the executor and the files of the snapshots are arguments; the
    forks of [types] in the configuration are what [encoding/json] makes of it. *)
From stdpp Require Import strings.
From S2P Require Import Prelude GoHeap Types Runtime Crypto EvmState EvmInstr EvmRun TxAccount Intrinsic StateTxn Bloom Blake2f Precompiled Signer Rlp RlpTypes Text Validators Snapshot IbftSigner Executor Staking ContractStore.

(** ** Types and forks ([type.go], [fork.go]) *)

Definition IBFTType := bytes.
Definition PoA : IBFTType := str "PoA".
Definition PoS : IBFTType := str "PoS".

Inductive SourceType := SourceSnapshot | SourceContract.

Definition ibftTypesToSourceType (t : IBFTType) : option SourceType :=
  if bool_decide (t = PoA) then Some SourceSnapshot else if bool_decide (t = PoS) then Some SourceContract else None.

Inductive fork_err :=
| ErrUndefinedIBFTConfig
| ErrInvalidIBFTType
| ErrJSON
| ErrForkNotFound
| ErrValidatorStoreNotFound
| ErrKeyManagerNotFound
| ErrUnsupportedKeyManager
| ErrSecret
| ErrTxInLastEpochOfBlock
| ErrDecodeCode
| ErrPredeploy
| ErrSetAccount
| ErrSetCode
| ErrForkValidators (e : val_err)
| ErrSnapshotStore (e : snap_err)
| ErrContractStore (e : store_err).

Definition ParseIBFTType (ibftType : bytes) : result fork_err IBFTType :=
  if bool_decide (ibftType = PoA) || bool_decide (ibftType = PoS) then Ok ibftType else Err ErrInvalidIBFTType.

Record IBFTFork := mkFork {
  fk_Type : IBFTType;
  fk_ValidatorType : bytes;
  fk_Deployment : option Z;
  fk_From : Z;
  fk_To : option Z;
  fk_Validators : option ValSet;
  fk_MaxValidatorCount : option Z;
  fk_MinValidatorCount : option Z;
}.

Record ibft_config := mkConfig {
  cf_type : option bytes;
  cf_validator_type : option bytes;
  cf_types : option (option (list IBFTFork));
}.

Definition GetIBFTForks (ibftConfig : ibft_config) : result fork_err (list IBFTFork) :=
  match cf_type ibftConfig with
  | Some originalType =>
      let? typ := ParseIBFTType originalType in
      let? validatorType :=
        match cf_validator_type ibftConfig with
        | Some rawValType => match ParseValidatorType rawValType with Ok t => Ok t | Err e => Err (ErrForkValidators e) end
        | None => Ok ECDSAValidatorType
        end in
      Ok [mkFork typ validatorType None 0 None None None None]
  | None =>
      match cf_types ibftConfig with
      | Some (Some forks) => Ok forks
      | Some None => Err ErrJSON
      | None => Err ErrUndefinedIBFTConfig
      end
  end.

Definition in_fork (height : Z) (fork : IBFTFork) : bool :=
  (fk_From fork <=? height) && match fk_To fork with None => true | Some to_ => height <=? to_ end.

(** The last fork of the list that holds the height. *)
Definition getFork (fs : list IBFTFork) (height : Z) : option IBFTFork := List.find (in_fork height) (reverse fs).

Definition filterByType (fs : list IBFTFork) (ibftType : IBFTType) : list IBFTFork :=
  filter (λ fork, fk_Type fork = ibftType) fs.

(** ** Heights ([storewrapper.go]) *)

Definition calculateContractStoreFetchingHeight (height epochSize forkFrom : Z) : outcome Z :=
  if epochSize =? 0 then Panic
  else
    let beginningEpoch := mul64 (height / epochSize) epochSize in
    let fetchingHeight := if beginningEpoch >? 0 then sub64 beginningEpoch 1 else 0 in
    Ret (if fetchingHeight >=? forkFrom then fetchingHeight
         else if forkFrom >? 0 then sub64 forkFrom 1
         else forkFrom).

(** The hook that [registerTxInclusionGuardHooks] closes over. *)
Definition isLastEpoch (epochSize height : Z) : outcome bool :=
  if height >? 0 then if epochSize =? 0 then Panic else Ret (height mod epochSize =? 0) else Ret false.

Definition getPreDeployParams (fork : IBFTFork) : PredeployParams :=
  mkPredeployParams (default MinValidatorCount (fk_MinValidatorCount fork)) (default MaxValidatorCount (fk_MaxValidatorCount fork)).

Section fork.
Context `{EthgoAbi} `{External} `{RlpReader} `{Secp256k1} `{PrecompiledCrypto} `{GoRuntime} `{MachinePool} `{LRU} `{FinMap Z RT}
  `{BLS} `{GoSort}.

(** ** Hooks ([hook.go]) *)

Record Hooks := mkHooks {
  ShouldWriteTransactionFunc : option (Z → outcome bool);
  ModifyHeaderFunc : option (Header → Address → SnapshotValidatorStore → result snap_err Header * SnapshotValidatorStore);
  VerifyHeaderFunc : option (Header → result snap_err ());
  VerifyBlockFunc : option (Block → outcome (result fork_err ()));
  ProcessHeaderFunc : option (Header → SnapshotValidatorStore → outcome (result snap_err () * SnapshotValidatorStore));
  PreCommitStateFunc : option (Header → Transition (RT:=RT) → outcome (result fork_err (Transition (RT:=RT))));
  PostInsertBlockFunc : option (Block → SnapshotValidatorStore → result snap_err () * SnapshotValidatorStore);
}.

Definition noHooks : Hooks := mkHooks None None None None None None None.

Definition hook_ShouldWriteTransactions (m : Hooks) (height : Z) : outcome bool :=
  match ShouldWriteTransactionFunc m with Some f => f height | None => Ret true end.
Definition hook_ModifyHeader (m : Hooks) (header : Header) (proposer : Address) (s : SnapshotValidatorStore)
    : result snap_err Header * SnapshotValidatorStore :=
  match ModifyHeaderFunc m with Some f => f header proposer s | None => (Ok header, s) end.
Definition hook_VerifyHeader (m : Hooks) (header : Header) : result snap_err () :=
  match VerifyHeaderFunc m with Some f => f header | None => Ok () end.
Definition hook_VerifyBlock (m : Hooks) (block : Block) : outcome (result fork_err ()) :=
  match VerifyBlockFunc m with Some f => f block | None => Ret (Ok ()) end.
Definition hook_ProcessHeader (m : Hooks) (header : Header) (s : SnapshotValidatorStore)
    : outcome (result snap_err () * SnapshotValidatorStore) :=
  match ProcessHeaderFunc m with Some f => f header s | None => Ret (Ok (), s) end.
Definition hook_PreCommitState (m : Hooks) (header : Header) (txn : Transition (RT:=RT)) : outcome (result fork_err Transition) :=
  match PreCommitStateFunc m with Some f => f header txn | None => Ret (Ok txn) end.
Definition hook_PostInsertBlock (m : Hooks) (block : Block) (s : SnapshotValidatorStore)
    : result snap_err () * SnapshotValidatorStore :=
  match PostInsertBlockFunc m with Some f => f block s | None => (Ok (), s) end.

(** ** Registering hooks ([hooks.go], [hookregister.go]) *)

Variable blockchain : HeaderGetter.

(** A validator store has the methods of a header modifier when it is the one of
    the snapshots. *)
Definition registerHeaderModifierHooks (getSigner : Z → result () (option SignerInterface)) (epochSize : Z)
    (validatorStore : option SourceType) (hooks : Hooks) : Hooks :=
  match validatorStore with
  | Some SourceSnapshot =>
      mkHooks (ShouldWriteTransactionFunc hooks) (Some snap_ModifyHeader) (Some snap_VerifyHeader) (VerifyBlockFunc hooks)
        (Some (snap_ProcessHeader getSigner epochSize)) (PreCommitStateFunc hooks) (PostInsertBlockFunc hooks)
  | _ => hooks
  end.

Definition registerUpdateValidatorsHooks (validatorStore : option SourceType) (validators : ValSet) (fromHeight : Z) (hooks : Hooks) : Hooks :=
  match validatorStore with
  | Some SourceSnapshot =>
      mkHooks (ShouldWriteTransactionFunc hooks) (ModifyHeaderFunc hooks) (VerifyHeaderFunc hooks) (VerifyBlockFunc hooks)
        (ProcessHeaderFunc hooks) (PreCommitStateFunc hooks)
        (Some (λ b s, if negb (fromHeight =? add64 (hd_Number (bk_Header b)) 1) then (Ok (), s)
                      else UpdateValidatorSet blockchain validators fromHeight s))
  | _ => hooks
  end.

Definition registerTxInclusionGuardHooks (epochSize : Z) (hooks : Hooks) : Hooks :=
  mkHooks (Some (λ height, let~ last := isLastEpoch epochSize height in Ret (negb last)))
    (ModifyHeaderFunc hooks) (VerifyHeaderFunc hooks)
    (Some (λ block, let~ last := isLastEpoch epochSize (hd_Number (bk_Header block)) in
                    Ret (if last && (0 <? length (bk_Transactions block))%nat then Err ErrTxInLastEpochOfBlock else Ok ())))
    (ProcessHeaderFunc hooks) (PreCommitStateFunc hooks) (PostInsertBlockFunc hooks).

(** A fork without a deployment height panics. *)
Definition deployStakingContract (fork : IBFTFork) (header : Header) (txn : Transition (RT:=RT)) : outcome (result fork_err Transition) :=
  match fk_Deployment fork with
  | None => Panic
  | Some deployment =>
      if negb (hd_Number header =? deployment) then Ret (Ok txn)
      else if Exist AddrStakingContract (t_state txn) then
        match DecodeHex StakingSCBytecode with
        | None => Ret (Err ErrDecodeCode)
        | Some codeBytes =>
            Ret (match SetCodeDirectly AddrStakingContract codeBytes txn with Some t => Ok t | None => Err ErrSetCode end)
        end
      else
        match PredeployStakingSC (fk_Validators fork) (getPreDeployParams fork) with
        | None => Ret (Err ErrPredeploy)
        | Some contractState =>
            let~ r := SetAccountDirectly AddrStakingContract contractState txn in
            Ret (match r with Some t => Ok t | None => Err ErrSetAccount end)
        end
  end.

Definition registerStakingContractDeploymentHooks (fork : IBFTFork) (hooks : Hooks) : Hooks :=
  mkHooks (ShouldWriteTransactionFunc hooks) (ModifyHeaderFunc hooks) (VerifyHeaderFunc hooks) (VerifyBlockFunc hooks)
    (ProcessHeaderFunc hooks) (Some (deployStakingContract fork)) (PostInsertBlockFunc hooks).

Record PoAHookRegister := mkPoA {
  pa_poaForks : list IBFTFork;
  pa_updateValidatorsForks : gmap Z IBFTFork;
}.

Definition NewPoAHookRegisterer (forks : list IBFTFork) : PoAHookRegister :=
  let poaForks := filterByType forks PoA in
  mkPoA poaForks
    (foldl (λ m fork, match fk_Validators fork with None => m | Some _ => <[fk_From fork := fork]> m end) ∅ poaForks).

Record PoSHookRegister := mkPoS {
  ps_posForks : list IBFTFork;
  ps_epochSize : Z;
  ps_deployContractForks : gmap Z IBFTFork;
}.

Definition NewPoSHookRegister (forks : list IBFTFork) (epochSize : Z) : PoSHookRegister :=
  let posForks := filterByType forks PoS in
  mkPoS posForks epochSize
    (foldl (λ m fork, match fk_Deployment fork with None => m | Some d => <[d := fork]> m end) ∅ posForks).

Definition pos_RegisterHooks (r : PoSHookRegister) (height : Z) (hooks : Hooks) : Hooks :=
  let hooks := match getFork (ps_posForks r) height with
               | Some _ => registerTxInclusionGuardHooks (ps_epochSize r) hooks
               | None => hooks
               end in
  match ps_deployContractForks r !! height with
  | Some deploymentFork => registerStakingContractDeploymentHooks deploymentFork hooks
  | None => hooks
  end.

(** ** The manager ([manager.go]) *)

Record ForkManager := mkFM {
  fm_forks : list IBFTFork;
  fm_epochSize : Z;
  fm_keyManagers : gmap bytes KeyManager;
  fm_snapshotStore : option SnapshotValidatorStore;
  fm_contractStore : option ContractValidatorStore;
  fm_poaHooks : option PoAHookRegister;
  fm_posHooks : option PoSHookRegister;
}.

Definition set_snapshotStore (s : SnapshotValidatorStore) (m : ForkManager) : ForkManager :=
  mkFM (fm_forks m) (fm_epochSize m) (fm_keyManagers m) (Some s) (fm_contractStore m) (fm_poaHooks m) (fm_posHooks m).
Definition set_contractStore (s : ContractValidatorStore) (m : ForkManager) : ForkManager :=
  mkFM (fm_forks m) (fm_epochSize m) (fm_keyManagers m) (fm_snapshotStore m) (Some s) (fm_poaHooks m) (fm_posHooks m).

Definition getKeyManager (m : ForkManager) (height : Z) : result fork_err KeyManager :=
  match getFork (fm_forks m) height with
  | None => Err ErrForkNotFound
  | Some fork => match fm_keyManagers m !! fk_ValidatorType fork with None => Err ErrKeyManagerNotFound | Some k => Ok k end
  end.

Definition GetSigner (m : ForkManager) (height : Z) : result fork_err SignerImpl :=
  let? keyManager := getKeyManager m height in
  if height >? 1 then let? parent := getKeyManager m (sub64 height 1) in Ok (mkSigner keyManager (Some parent))
  else Ok (mkSigner keyManager None).

(** The signer as the snapshot store sees it. *)
Definition signer_interface (s : SignerImpl) : SignerInterface :=
  mkSignerInterface (sg_Type s)
    (λ h, let~ r := EcrecoverFromHeader s h in Ret (match r with Ok a => Some a | Err _ => None end))
    (λ h, let~ r := IbftSigner.GetValidators s h in Ret (match r with Ok v => Some v | Err _ => None end)).

Definition fm_getSigner (m : ForkManager) (height : Z) : result () (option SignerInterface) :=
  match GetSigner m height with Ok s => Ok (Some (signer_interface s)) | Err _ => Err () end.

(** The store of a fork, by its source. *)
Definition getValidatorStoreByIBFTFork (m : ForkManager) (fork : IBFTFork) : option SourceType :=
  match ibftTypesToSourceType (fk_Type fork) with
  | Some SourceSnapshot => (λ _, SourceSnapshot) <$> fm_snapshotStore m
  | Some SourceContract => (λ _, SourceContract) <$> fm_contractStore m
  | None => None
  end.

Definition GetValidatorStore (m : ForkManager) (height : Z) : result fork_err SourceType :=
  match getFork (fm_forks m) height with
  | None => Err ErrForkNotFound
  | Some fork => match getValidatorStoreByIBFTFork m fork with None => Err ErrValidatorStoreNotFound | Some s => Ok s end
  end.

Variable executor : Executor (RT:=RT).

Definition snapshot_GetValidators (height : Z) (s : SnapshotValidatorStore) : result fork_err ValSet :=
  match Snapshot.GetValidatorsByHeight (sub64 height 1) s with Ok v => Ok v | Err e => Err (ErrSnapshotStore e) end.

Definition contract_GetValidators (m : ForkManager) (height epochSize forkFrom : Z) (s : ContractValidatorStore)
    : outcome (result fork_err ValSet * ContractValidatorStore) :=
  match GetSigner m height with
  | Err e => Ret (Err e, s)
  | Ok signer =>
      let~ fetchingHeight := calculateContractStoreFetchingHeight height epochSize forkFrom in
      let~ (r, s) := contract_GetValidatorsByHeight blockchain executor (sg_Type signer) fetchingHeight s in
      Ret (match r with Ok v => Ok v | Err e => Err (ErrContractStore e) end, s)
  end.

Definition GetValidators (height : Z) (m : ForkManager) : outcome (result fork_err ValSet * ForkManager) :=
  match getFork (fm_forks m) height with
  | None => Ret (Err ErrForkNotFound, m)
  | Some fork =>
      match getValidatorStoreByIBFTFork m fork, fm_snapshotStore m, fm_contractStore m with
      | Some SourceSnapshot, Some s, _ => Ret (snapshot_GetValidators height s, m)
      | Some SourceContract, _, Some s =>
          let~ (r, s) := contract_GetValidators m height (fm_epochSize m) (fk_From fork) s in
          Ret (r, set_contractStore s m)
      | _, _, _ => Ret (Err ErrValidatorStoreNotFound, m)
      end
  end.

(** [RegisterHooks] of proof of authority. *)
Definition poa_RegisterHooks (m : ForkManager) (r : PoAHookRegister) (height : Z) (hooks : Hooks) : Hooks :=
  let hooks := match getFork (pa_poaForks r) height with
               | Some currentFork =>
                   registerHeaderModifierHooks (fm_getSigner m) (fm_epochSize m) (getValidatorStoreByIBFTFork m currentFork) hooks
               | None => hooks
               end in
  match pa_updateValidatorsForks r !! add64 height 1 with
  | Some fork =>
      match fk_Validators fork with
      | Some vals => registerUpdateValidatorsHooks (getValidatorStoreByIBFTFork m fork) vals (fk_From fork) hooks
      | None => hooks
      end
  | None => hooks
  end.

(** The registers in the order [poaFirst] of the iteration over their map. *)
Definition GetHooks_order (poaFirst : bool) (m : ForkManager) (height : Z) : Hooks :=
  let poa hooks := match fm_poaHooks m with Some r => poa_RegisterHooks m r height hooks | None => hooks end in
  let pos hooks := match fm_posHooks m with Some r => pos_RegisterHooks r height hooks | None => hooks end in
  if poaFirst then pos (poa noHooks) else poa (pos noHooks).

Definition GetHooks : ForkManager → Z → Hooks := GetHooks_order true.

(** *** Construction *)

Section construction.
(** The keys that [getOrCreateECDSAKey] and [getOrCreateBLSKey] find. *)
Variables (ecdsaSecret : option PrivateKey) (blsSecret : option bls_SecretKey).

Definition NewKeyManagerFromType (validatorType : bytes) : result fork_err KeyManager :=
  if bool_decide (validatorType = ECDSAValidatorType) then
    match ecdsaSecret with Some k => Ok (ECDSAKeyManager k) | None => Err ErrSecret end
  else if bool_decide (validatorType = BLSValidatorType) then
    match ecdsaSecret, blsSecret with Some k, Some b => Ok (BLSKeyManager k b) | _, _ => Err ErrSecret end
  else Err ErrUnsupportedKeyManager.

Fixpoint initializeKeyManagers (forks : list IBFTFork) (keyManagers : gmap bytes KeyManager) : result fork_err (gmap bytes KeyManager) :=
  match forks with
  | [] => Ok keyManagers
  | fork :: forks =>
      match keyManagers !! fk_ValidatorType fork with
      | Some _ => initializeKeyManagers forks keyManagers
      | None =>
          let? k := NewKeyManagerFromType (fk_ValidatorType fork) in
          initializeKeyManagers forks (<[fk_ValidatorType fork := k]> keyManagers)
      end
  end.

Definition NewForkManager (epochSize : Z) (ibftConfig : ibft_config) : result fork_err ForkManager :=
  let? forks := GetIBFTForks ibftConfig in
  let? keyManagers := initializeKeyManagers forks ∅ in
  Ok (mkFM forks epochSize keyManagers None None None None).

(** The metadata and the snapshots that the files hold. *)
Variables (snapshotMeta : option Z) (snapshots : list Snapshot).

Definition initializeValidatorStore (setType : option SourceType) (m : ForkManager) : outcome (result fork_err () * ForkManager) :=
  match setType with
  | Some SourceSnapshot =>
      match fm_snapshotStore m with
      | Some _ => Ret (Ok (), m)
      | None =>
          let~ r := NewSnapshotValidatorStore (fm_getSigner m) (fm_epochSize m) blockchain snapshotMeta snapshots in
          Ret (match r with Ok s => (Ok (), set_snapshotStore s m) | Err e => (Err (ErrSnapshotStore e), m) end)
      end
  | Some SourceContract =>
      match fm_contractStore m with
      | Some _ => Ret (Ok (), m)
      | None => Ret (Ok (), set_contractStore NewContractValidatorStore m)
      end
  | None => Ret (Ok (), m)
  end.

Fixpoint initializeValidatorStores (forks : list IBFTFork) (m : ForkManager) : outcome (result fork_err () * ForkManager) :=
  match forks with
  | [] => Ret (Ok (), m)
  | fork :: forks =>
      let~ (r, m) := initializeValidatorStore (ibftTypesToSourceType (fk_Type fork)) m in
      match r with Err e => Ret (Err e, m) | Ok _ => initializeValidatorStores forks m end
  end.

Definition initializeHooksRegister (ibftType : IBFTType) (m : ForkManager) : ForkManager :=
  if bool_decide (ibftType = PoA) then
    match fm_poaHooks m with
    | Some _ => m
    | None => mkFM (fm_forks m) (fm_epochSize m) (fm_keyManagers m) (fm_snapshotStore m) (fm_contractStore m)
                (Some (NewPoAHookRegisterer (fm_forks m))) (fm_posHooks m)
    end
  else if bool_decide (ibftType = PoS) then
    match fm_posHooks m with
    | Some _ => m
    | None => mkFM (fm_forks m) (fm_epochSize m) (fm_keyManagers m) (fm_snapshotStore m) (fm_contractStore m)
                (fm_poaHooks m) (Some (NewPoSHookRegister (fm_forks m) (fm_epochSize m)))
    end
  else m.

Definition initializeHooksRegisters (m : ForkManager) : ForkManager :=
  foldl (λ m fork, initializeHooksRegister (fk_Type fork) m) m (fm_forks m).

Definition fm_Initialize (m : ForkManager) : outcome (result fork_err () * ForkManager) :=
  let~ (r, m) := initializeValidatorStores (fm_forks m) m in
  match r with Err e => Ret (Err e, m) | Ok _ => Ret (Ok (), initializeHooksRegisters m) end.
End construction.
End fork.
