(* ===== verification/IbftForkSpec.v ===== *)
(** What the fork manager promises: the height at which the validators of proof of
    stake are read comes before the block and belongs to one fork; the cache of
    the contract store never shows; the signer of a height has the type of its
    fork; the hooks do not depend on the order of the registers; and a proposer
    that asks the hooks builds blocks that they accept. *)
From stdpp Require Import strings.
From S2P Require Import Prelude GoHeap Types Runtime Crypto EvmState EvmInstr EvmRun TxAccount Intrinsic StateTxn Bloom Blake2f Precompiled Signer Rlp RlpTypes Text Validators Snapshot IbftSigner Executor Staking ContractStore IbftFork.

(** ** Heights *)

(** Forks one after the other. *)
Definition ordered (fs : list IBFTFork) : Prop :=
  ∀ i j f g, (i < j)%nat → fs !! i = Some f → fs !! j = Some g →
  ∃ t, fk_To f = Some t ∧ t < fk_From g.

Lemma getFork_elem fs h f : getFork fs h = Some f → f ∈ fs ∧ fk_From f ≤ h ∧ ∀ t, fk_To f = Some t → h ≤ t.
Proof.
  intros [Hin Hf]%List.find_some. split.
  - by rewrite <- list_elem_of_In, elem_of_reverse in Hin.
  - apply andb_true_iff in Hf as [H1 H2]. split; [lia|]. intros t Ht. rewrite Ht in H2. lia.
Qed.

(** The height of the fetch, in numbers. *)
Definition fetching_height (height epochSize forkFrom : Z) : Z :=
  let e := Z.max 0 (height / epochSize * epochSize - 1) in if forkFrom <=? e then e else Z.max 0 (forkFrom - 1).

Lemma fetching_height_spec height epochSize forkFrom :
  0 < epochSize → 0 ≤ height < M64 → 0 ≤ forkFrom < M64 →
  calculateContractStoreFetchingHeight height epochSize forkFrom = Ret (fetching_height height epochSize forkFrom).
Proof.
  intros He Hh Hf. unfold calculateContractStoreFetchingHeight, fetching_height. rewrite (proj2 (Z.eqb_neq _ _)) by lia.
  pose proof (Z.mul_div_le height epochSize He). pose proof (Z.div_pos height epochSize ltac:(lia) He).
  assert (0 ≤ height / epochSize * epochSize < M64) as Hb by lia.
  unfold mul64. rewrite u64_small by done. set (b := height / epochSize * epochSize) in *. f_equal.
  rewrite !Z.gtb_ltb, !Z.geb_leb. destruct (Z.ltb_spec 0 b).
  - rewrite sub64_ge by (unfold is_u64, M64 in *; lia). replace (Z.max 0 (b - 1)) with (b - 1) by lia. destruct (Z.leb_spec forkFrom (b - 1)); [done|].
    destruct (Z.ltb_spec 0 forkFrom); [rewrite sub64_ge by (unfold is_u64, M64 in *; lia)|]; lia.
  - replace (Z.max 0 (b - 1)) with 0 by lia. destruct (Z.leb_spec forkFrom 0); [done|].
    destruct (Z.ltb_spec 0 forkFrom); [rewrite sub64_ge by (unfold is_u64, M64 in *; lia)|]; lia.
Qed.

(** It is before the block, and not before the fork by more than one. *)
Lemma fetching_height_bounds height epochSize forkFrom :
  0 < epochSize → 1 ≤ height → 0 ≤ forkFrom ≤ height →
  forkFrom - 1 ≤ fetching_height height epochSize forkFrom ≤ height - 1.
Proof.
  intros He Hh Hf. unfold fetching_height. pose proof (Z.mul_div_le height epochSize He).
  destruct (Z.leb_spec forkFrom (Z.max 0 (height / epochSize * epochSize - 1))); lia.
Qed.

(** Forks in order never read at one height. *)
Lemma fetching_heights_apart fs epochSize h h' f f' :
  ordered fs → Forall (λ f, 0 ≤ fk_From f) fs → 0 < epochSize → 1 ≤ h → 1 ≤ h' →
  getFork fs h = Some f → getFork fs h' = Some f' →
  fetching_height h epochSize (fk_From f) = fetching_height h' epochSize (fk_From f') → f = f'.
Proof.
  intros Ho Hp He Hh Hh' (Hf & Hl & Hu)%getFork_elem (Hf' & Hl' & Hu')%getFork_elem E.
  pose proof (fetching_height_bounds h epochSize (fk_From f) He Hh) as Hb.
  pose proof (fetching_height_bounds h' epochSize (fk_From f') He Hh') as Hb'.
  assert (0 ≤ fk_From f ∧ 0 ≤ fk_From f') as [H0 H0'] by (split; by eapply (proj1 (Forall_forall _ _) Hp)).
  apply list_elem_of_lookup_1 in Hf as [i Hi]. apply list_elem_of_lookup_1 in Hf' as [j Hj].
  destruct (Nat.lt_total i j) as [Hij|[->|Hij]]; [|congruence|].
  - destruct (Ho i j f f' Hij Hi Hj) as (t & Ht & ?). specialize (Hu t Ht). lia.
  - destruct (Ho j i f' f Hij Hj Hi) as (t & Ht & ?). specialize (Hu' t Ht). lia.
Qed.

Section manager.
Context `{EthgoAbi} `{External} `{RlpReader} `{Secp256k1} `{PrecompiledCrypto} `{GoRuntime} `{MachinePool} `{LRULaws} `{FinMap Z RT}
  `{BLS} `{GoSort}.
Variable bc : HeaderGetter.
Variable ex : Executor (RT:=RT).

(** ** Key managers and signers *)

Definition keys_ok (forks : list IBFTFork) (keys : gmap bytes KeyManager) : Prop :=
  (∀ t k, keys !! t = Some k → km_Type k = t) ∧ Forall (λ f, is_Some (keys !! fk_ValidatorType f)) forks.

Lemma NewKeyManagerFromType_Type sec bls t k : NewKeyManagerFromType sec bls t = Ok k → km_Type k = t.
Proof.
  unfold NewKeyManagerFromType. case_bool_decide as H1'; [|case_bool_decide as H2'; [|done]]; repeat case_match; intros; simplify_eq; done.
Qed.

Lemma initializeKeyManagers_ok sec bls forks keys keys' :
  (∀ t k, keys !! t = Some k → km_Type k = t) → initializeKeyManagers sec bls forks keys = Ok keys' →
  keys_ok forks keys' ∧ keys ⊆ keys'.
Proof.
  revert keys. induction forks as [|f forks IH]; intros keys Hk; cbn [initializeKeyManagers].
  { intros [= <-]. by repeat split. }
  destruct (keys !! fk_ValidatorType f) as [k|] eqn:E.
  - intros Hi. destruct (IH keys Hk Hi) as [[H1' H2'] Hsub]. repeat split; [done| |done]. constructor; [|done].
    exists k. by eapply lookup_weaken.
  - destruct (NewKeyManagerFromType sec bls (fk_ValidatorType f)) as [k|] eqn:En; [|done]. intros Hi.
    destruct (IH _ ltac:(intros t k' [[<- <-]|[_ ?]]%lookup_insert_Some; [by eapply NewKeyManagerFromType_Type|by apply Hk]) Hi) as [[H1' H2'] Hsub].
    repeat split; [done| |].
    + constructor; [|done]. exists k. eapply lookup_weaken; [|exact Hsub]. by rewrite lookup_insert_eq.
    + etrans; [|exact Hsub]. by apply insert_subseteq.
Qed.

(** The signer of a height, and of the height before. *)
Lemma GetSigner_ok m h f :
  keys_ok (fm_forks m) (fm_keyManagers m) → getFork (fm_forks m) h = Some f → 
  (1 < h → ∃ f', getFork (fm_forks m) (sub64 h 1) = Some f') →
  ∃ s, GetSigner m h = Ok s ∧ sg_Type s = fk_ValidatorType f ∧
       match sg_parentKeyManager s with
       | None => h ≤ 1
       | Some k => 1 < h ∧ ∃ f', getFork (fm_forks m) (sub64 h 1) = Some f' ∧ km_Type k = fk_ValidatorType f'
       end.
Proof.
  intros [Hk Ha] Hf Hp. unfold GetSigner, getKeyManager. rewrite Hf.
  assert (∀ h f, getFork (fm_forks m) h = Some f → ∃ k, fm_keyManagers m !! fk_ValidatorType f = Some k ∧ km_Type k = fk_ValidatorType f) as Hg.
  { intros n g [Hin _]%getFork_elem. rewrite Forall_forall in Ha. destruct (Ha g Hin) as [k E]. exists k. split; [done|]. by apply Hk. }
  destruct (Hg h f Hf) as (k & -> & Ek). rewrite Z.gtb_ltb. destruct (Z.ltb_spec 1 h) as [H1'|H1'].
  - destruct (Hp H1') as (f' & Ef'). rewrite Ef'. destruct (Hg _ _ Ef') as (k' & -> & Ek'). eexists. split; [done|]. cbn. split; [done|].
    split; [done|]. by exists f'.
  - eexists. split; [done|]. cbn. by split.
Qed.

(** ** The contract store *)

(** What the contract says at height [k]. *)
Definition fetched (type : bytes) (k : Z) (v : ValSet) : Prop :=
  ∃ t t', getTransitionForQuery bc ex k = Ok t ∧ FetchValidators type t ZeroAddress = Ret (Ok v, t').

Definition cached_for (m : ForkManager) (k : Z) (v : ValSet) : Prop :=
  ∃ h f, 1 ≤ h ∧ getFork (fm_forks m) h = Some f ∧ k = fetching_height h (fm_epochSize m) (fk_From f) ∧
         fetched (fk_ValidatorType f) k v.

Record pos_ok (m : ForkManager) : Prop := {
  po_keys : keys_ok (fm_forks m) (fm_keyManagers m);
  po_ordered : ordered (fm_forks m);
  po_from : Forall (λ f, 0 ≤ fk_From f < M64) (fm_forks m);
  po_epoch : 0 < fm_epochSize m;
  po_cache s : fm_contractStore m = Some s → lru_all (cached_for m) (cs_validatorSetCache s);
}.

Lemma pos_ok_store m c : pos_ok m → lru_all (cached_for m) (cs_validatorSetCache c) → pos_ok (set_contractStore c m).
Proof. intros [] Hc. split; try done. intros s [= <-]. exact Hc. Qed.

Lemma fetched_unique type k v v' : fetched type k v → fetched type k v' → v = v'.
Proof. intros (t & t1 & E & Ef) (t' & t1' & E' & Ef'). congruence. Qed.

(** The store of a fork: it gives what the contract says, cached or not. *)
Lemma contract_store_exact m type k s :
  (∀ v, cached_for m k v ↔ fetched type k v) → lru_all (cached_for m) (cs_validatorSetCache s) →
  (∀ v, (∃ s', contract_GetValidatorsByHeight bc ex type k s = Ret (Ok v, s')) ↔ fetched type k v) ∧
  ∀ r s', contract_GetValidatorsByHeight bc ex type k s = Ret (r, s') → lru_all (cached_for m) (cs_validatorSetCache s').
Proof.
  intros Hcf Hc. unfold contract_GetValidatorsByHeight, loadCachedValidatorSet.
  pose proof (lru_all_Get _ k _ Hc) as Hc'. pose proof (Hc k) as Hv.
  destruct (lru_Get k (cs_validatorSetCache s)) as [[w|] c]; cbn [fst snd] in *.
  - pose proof (proj1 (Hcf w) (Hv w eq_refl)) as Hw. split.
    + intros v. split; [by intros [s' [= <- _]]|]. intros Hfv. rewrite (fetched_unique _ _ _ _ Hfv Hw). by eexists.
    + by intros r s' [= _ <-].
  - destruct (getTransitionForQuery bc ex k) as [t|] eqn:Et.
    + destruct (FetchValidators type t ZeroAddress) as [[[w|] t']| |] eqn:Ef; cbn [obind]; split.
      * intros v. split; [intros [s' [= <- _]]; by exists t, t'|]. intros (t1 & t2 & Et1 & Ef1). assert (v = w) as -> by congruence. by eexists.
      * intros r s' [= _ <-]. apply lru_all_Add; [done|]. apply Hcf. by exists t, t'.
      * intros v. split; [by intros [s' E]|]. intros (t1 & t2 & Et1 & Ef1). congruence.
      * by intros r s' [= _ <-].
      * intros v. split; [by intros [s' E]|]. intros (t1 & t2 & Et1 & Ef1). congruence.
      * done.
      * intros v. split; [by intros [s' E]|]. intros (t1 & t2 & Et1 & Ef1). congruence.
      * done.
    + split; [|by intros r s' [= _ <-]]. intros v. split; [by intros [s' [=]]|]. intros (t1 & t2 & Et1 & _). congruence.
Qed.


(** ** Hooks *)

(** The registers write different hooks, so the order in which Go visits their map
    does not matter. *)
Lemma GetHooks_order_irrelevant m h : GetHooks_order (RT:=RT) bc false m h = GetHooks (RT:=RT) bc m h.
Proof.
  unfold GetHooks, GetHooks_order, poa_RegisterHooks, pos_RegisterHooks, registerHeaderModifierHooks, registerUpdateValidatorsHooks.
  by repeat (case_match; try done).
Qed.

(** A block that a proposer builds as the hooks tell it is one that they accept. *)
Lemma GetHooks_block m h :
  let hooks := GetHooks (RT:=RT) bc m h in
  match hook_ShouldWriteTransactions hooks h with
  | Ret should => ∀ b, hd_Number (bk_Header b) = h → hook_VerifyBlock hooks b = Ret (Ok ()) ↔ should = true ∨ bk_Transactions b = []
  | Panic => fm_epochSize m = 0 ∨ ∃ r, fm_posHooks m = Some r ∧ ps_epochSize r = 0
  | NoFuel => False
  end.
Proof.
  unfold GetHooks, GetHooks_order, pos_RegisterHooks. set (p := match fm_poaHooks m with Some r => _ | None => _ end).
  assert (ShouldWriteTransactionFunc p = None ∧ VerifyBlockFunc p = None) as [Hs Hv].
  { unfold p, poa_RegisterHooks, registerHeaderModifierHooks, registerUpdateValidatorsHooks. by repeat (case_match; try done). }
  destruct (fm_posHooks m) as [r|] eqn:Er.
  2: { unfold hook_ShouldWriteTransactions, hook_VerifyBlock. rewrite Hs, Hv. intros b _. split; [by left|done]. }
  set (q := match getFork _ h with Some _ => _ | None => p end). 
  set (d := match ps_deployContractForks r !! h with Some _ => _ | None => q end).
  assert (ShouldWriteTransactionFunc d = ShouldWriteTransactionFunc q ∧ VerifyBlockFunc d = VerifyBlockFunc q) as [Ed1 Ed2].
  { unfold d, registerStakingContractDeploymentHooks. by case_match. }
  cbv zeta. unfold hook_ShouldWriteTransactions, hook_VerifyBlock. rewrite Ed1, Ed2. unfold q.
  destruct (getFork _ h); [|rewrite Hs, Hv; intros b _; split; [by left|done]].
  cbn [registerTxInclusionGuardHooks ShouldWriteTransactionFunc VerifyBlockFunc]. unfold isLastEpoch. rewrite !Z.gtb_ltb.
  destruct (Z.ltb_spec 0 h) as [Hp|Hp]; cbn [obind].
  - destruct (Z.eqb_spec (ps_epochSize r) 0) as [E0|E0]; cbn [obind]; [right; by exists r|].
    intros b ->. rewrite Z.gtb_ltb, (proj2 (Z.ltb_lt 0 h)) by done. destruct (h mod ps_epochSize r =? 0); cbn [obind negb andb].
    + destruct (bk_Transactions b); cbn; split; try done; [by right|]. by intros [|].
    + split; [by left|done].
  - intros b ->. rewrite Z.gtb_ltb, (proj2 (Z.ltb_ge 0 h)) by done. cbn. split; [by left|done].
Qed.
End manager.
