(* ===== verification/Ibft.v ===== *)
(** Package [consensus/ibft]: quorums and proposers ([validators.go]), the
    verification of headers ([ibft.go]), the verifier and the messages that
    [go-ibft] asks for ([verifier.go], [messages.go]).

    The backend is a record: the fork manager and the modules of the current
    height, nil before the first update.  The chain is read through a
    [HeaderGetter].  [go-ibft] runs the protocol; its messages and their encoding
    are the class [ProtoIBFT].  Logs and metrics are left out. *)
From stdpp Require Import strings.
From S2P Require Import Prelude GoHeap Types Runtime Crypto EvmState EvmInstr EvmRun TxAccount Intrinsic StateTxn Bloom Blake2f Precompiled Signer Rlp RlpTypes Trie BuildRoot Text Validators Snapshot IbftSigner Executor Staking ContractStore IbftFork.

(** ** Quorums ([validators.go]) *)

Definition CalcMaxFaultyNodes (s : ValSet) : Z := Z.quot (set_Len s - 1) 3.

Definition LegacyQuorumSize (set : ValSet) : Z := 2 * CalcMaxFaultyNodes set + 1.

(** [math.Ceil] of the quotient, exact for the sizes a set can have. *)
Definition OptimalQuorumSize (set : ValSet) : Z :=
  if CalcMaxFaultyNodes set =? 0 then set_Len set else (2 * set_Len set + 2) / 3.

Definition CalcProposer (validators : ValSet) (round : Z) (lastProposer : Address) : outcome Validator :=
  let seed :=
    if lastProposer =? ZeroAddress then round
    else
      let index := set_Index validators lastProposer in
      let offset := if negb (index =? -1) then index else 0 in
      add64 (add64 (u64 offset) round) 1 in
  if set_Len validators =? 0 then Panic
  else set_At validators (seed mod set_Len validators).

(** ** Messages of [go-ibft] *)

Record View := mkView { vw_Height : Z; vw_Round : Z }.

Class ProtoIBFT := {
  RoundChangeCertificate : Type;
  PreparedCertificate : Type;
}.

Inductive Payload `{ProtoIBFT} :=
| PreprepareData (Proposal ProposalHash : bytes) (Certificate : option RoundChangeCertificate)
| PrepareData (ProposalHash : bytes)
| CommitData (ProposalHash CommittedSeal : bytes)
| RoundChangeData (LastPreparedProposedBlock : bytes) (LatestPreparedCertificate : option PreparedCertificate).

Inductive MessageType := PREPREPARE | PREPARE | COMMIT | ROUND_CHANGE.

Record Message `{ProtoIBFT} := mkMessage {
  msg_View : View;
  msg_From : bytes;
  msg_Signature : bytes;
  msg_Type : MessageType;
  msg_Payload : Payload;
}.

(** [proto.Marshal] and [Message.PayloadNoSig], which encodes the message without
    its signature. *)
Class ProtoCodec `{ProtoIBFT} := {
  proto_Marshal : Message → option bytes;
  PayloadNoSig : Message → option bytes;
}.

Record CommittedSeal := mkCommittedSeal { sl_Signer : bytes; sl_Signature : bytes }.

Inductive ibft_err :=
| ErrInvalidMixHash
| ErrInvalidSha3Uncles
| ErrWrongDifficulty
| ErrProposerSealByNonValidator
| ErrNoParentHeader
| ErrSignerOf (e : sign_err)
| ErrSnapshotHook (e : snap_err)
| ErrFork (e : fork_err).

Definition IsGenesis (h : Header) : bool := negb (hd_Hash h =? ZeroHash) && (hd_Number h =? 0).

Section ibft.
Context `{EthgoAbi} `{External} `{RlpReader} `{Secp256k1} `{PrecompiledCrypto} `{GoRuntime} `{MachinePool} `{LRU} `{FinMap Z RT}
  `{BLS} `{GoSort}.

(** ** The backend ([ibft.go]) *)

Record modules := mkModules {
  md_signer : SignerImpl;
  md_validators : ValSet;
  md_hooks : Hooks (RT:=RT);
}.

Record backendIBFT := mkIBFT {
  ib_forkManager : ForkManager;
  ib_current : option modules;
  ib_epochSize : Z;
  ib_quorumSizeBlockNum : Z;
  ib_blockTime : Z;
}.

Definition set_forkManager (fm : ForkManager) (i : backendIBFT) : backendIBFT :=
  mkIBFT fm (ib_current i) (ib_epochSize i) (ib_quorumSizeBlockNum i) (ib_blockTime i).
Definition set_current (m : modules) (i : backendIBFT) : backendIBFT :=
  mkIBFT (ib_forkManager i) (Some m) (ib_epochSize i) (ib_quorumSizeBlockNum i) (ib_blockTime i).

(** [i.currentSigner] and the like, on a nil pointer before the first update. *)
Definition current (i : backendIBFT) : outcome modules := match ib_current i with Some m => Ret m | None => Panic end.

Definition isActiveValidator (i : backendIBFT) : outcome bool :=
  let~ m := current i in Ret (set_Includes (md_validators m) (sg_Address (md_signer m))).

Definition quorumSize (i : backendIBFT) (blockNumber : Z) : ValSet → Z :=
  if blockNumber <? ib_quorumSizeBlockNum i then LegacyQuorumSize else OptimalQuorumSize.

Definition GetEpoch (i : backendIBFT) (number : Z) : outcome Z :=
  if ib_epochSize i =? 0 then Panic
  else Ret (if number mod ib_epochSize i =? 0 then number / ib_epochSize i else number / ib_epochSize i + 1).

Definition IsLastOfEpoch (i : backendIBFT) (number : Z) : outcome bool := isLastEpoch (ib_epochSize i) number.

(** The hash of headers that [SetHeaderHash] installs. *)
Definition ibft_HeaderHash (fm : ForkManager) (h : Header) : outcome Hash :=
  match GetSigner fm (hd_Number h) with
  | Err _ => Ret ZeroHash
  | Ok signer => let~ r := CalculateHeaderHash signer h in Ret (match r with Ok hash => hash | Err _ => ZeroHash end)
  end.

Definition verifyProposerSeal (header : Header) (signer : SignerImpl) (validators : ValSet) : outcome (result ibft_err ()) :=
  let~ r := EcrecoverFromHeader signer header in
  Ret (match r with
       | Err e => Err (ErrSignerOf e)
       | Ok proposer => if negb (set_Includes validators proposer) then Err ErrProposerSealByNonValidator else Ok ()
       end).

(** [GetBlockCreator]. *)
Definition ibft_GetBlockCreator (header : Header) (i : backendIBFT) : outcome (result ibft_err Address) :=
  match GetSigner (ib_forkManager i) (hd_Number header) with
  | Err e => Ret (Err (ErrFork e))
  | Ok signer =>
      let~ r := EcrecoverFromHeader signer header in
      Ret (match r with Ok a => Ok a | Err e => Err (ErrSignerOf e) end)
  end.

Section chain.
Variable blockchain : HeaderGetter.
Variable executor : Executor (RT:=RT).

Definition getModulesFromForkManager (height : Z) (i : backendIBFT) : outcome (result ibft_err modules * backendIBFT) :=
  match GetSigner (ib_forkManager i) height with
  | Err e => Ret (Err (ErrFork e), i)
  | Ok signer =>
      let~ (r, fm) := GetValidators blockchain executor height (ib_forkManager i) in
      let i := set_forkManager fm i in
      Ret (match r with
           | Err e => Err (ErrFork e)
           | Ok validators => Ok (mkModules signer validators (GetHooks (RT:=RT) blockchain fm height))
           end, i)
  end.

Definition updateCurrentModules (height : Z) (i : backendIBFT) : outcome (result ibft_err () * backendIBFT) :=
  let~ (r, i) := getModulesFromForkManager height i in
  Ret (match r with Err e => (Err e, i) | Ok m => (Ok (), set_current m i) end).

Definition ibft_verifyParentCommittedSeals (parent header : Header) (shouldVerifyParentCommittedSeals : bool) (i : backendIBFT)
    : outcome (result ibft_err () * backendIBFT) :=
  if IsGenesis parent then Ret (Ok (), i)
  else
    let~ (r, i) := getModulesFromForkManager (hd_Number parent) i in
    match r with
    | Err e => Ret (Err e, i)
    | Ok m =>
        let~ r := VerifyParentCommittedSeals (md_signer m) parent header (md_validators m)
                    (quorumSize i (hd_Number parent) (md_validators m)) shouldVerifyParentCommittedSeals in
        Ret (match r with Ok _ => Ok () | Err e => Err (ErrSignerOf e) end, i)
    end.

Definition verifyHeaderImpl (parent header : Header) (m : modules) (shouldVerifyParentCommittedSeals : bool) (i : backendIBFT)
    : outcome (result ibft_err () * backendIBFT) :=
  if negb (hd_MixHash header =? IstanbulDigest) then Ret (Err ErrInvalidMixHash, i)
  else if negb (hd_Sha3Uncles header =? EmptyUncleHash) then Ret (Err ErrInvalidSha3Uncles, i)
  else if negb (hd_Difficulty header =? hd_Number header) then Ret (Err ErrWrongDifficulty, i)
  else
    let~ r := GetIBFTExtra (md_signer m) header in
    match r with
    | Err e => Ret (Err (ErrSignerOf e), i)
    | Ok _ =>
        let~ r := verifyProposerSeal header (md_signer m) (md_validators m) in
        match r with
        | Err e => Ret (Err e, i)
        | Ok _ =>
            let~ (r, i) := ibft_verifyParentCommittedSeals parent header shouldVerifyParentCommittedSeals i in
            match r with
            | Err e => Ret (Err e, i)
            | Ok _ => Ret (match hook_VerifyHeader (md_hooks m) header with Ok _ => Ok () | Err e => Err (ErrSnapshotHook e) end, i)
            end
        end
    end.

(** [VerifyHeader], of a header that is final. *)
Definition ibft_VerifyHeader (header : Header) (i : backendIBFT) : outcome (result ibft_err () * backendIBFT) :=
  match hg_GetHeaderByNumber blockchain (sub64 (hd_Number header) 1) with
  | None => Ret (Err ErrNoParentHeader, i)
  | Some parent =>
      let~ (r, i) := getModulesFromForkManager (hd_Number header) i in
      match r with
      | Err e => Ret (Err e, i)
      | Ok m =>
          let~ (r, i) := verifyHeaderImpl parent header m false i in
          match r with
          | Err e => Ret (Err e, i)
          | Ok _ =>
              let~ r := sg_VerifyCommittedSeals (md_signer m) header (md_validators m)
                          (quorumSize i (hd_Number header) (md_validators m)) in
              Ret (match r with Ok _ => Ok () | Err e => Err (ErrSignerOf e) end, i)
          end
      end
  end.

(** A hook that works on the snapshot store. *)
Definition on_snapshots {A} (f : SnapshotValidatorStore → outcome (result snap_err A * SnapshotValidatorStore)) (i : backendIBFT)
    : outcome (result ibft_err A * backendIBFT) :=
  match fm_snapshotStore (ib_forkManager i) with
  | None => Panic
  | Some s =>
      let~ (r, s) := f s in
      Ret (match r with Ok x => Ok x | Err e => Err (ErrSnapshotHook e) end, set_forkManager (set_snapshotStore s (ib_forkManager i)) i)
  end.

Fixpoint ibft_ProcessHeaders (headers : list Header) (i : backendIBFT) : outcome (result ibft_err () * backendIBFT) :=
  match headers with
  | [] => Ret (Ok (), i)
  | header :: headers =>
      let hooks := GetHooks (RT:=RT) blockchain (ib_forkManager i) (hd_Number header) in
      let~ (r, i) := match ProcessHeaderFunc hooks with
                     | Some f => on_snapshots (f header) i
                     | None => Ret (Ok (), i)
                     end in
      match r with Err e => Ret (Err e, i) | Ok _ => ibft_ProcessHeaders headers i end
  end.

Definition ibft_PreCommitState (header : Header) (txn : Transition (RT:=RT)) (i : backendIBFT) : outcome (result ibft_err Transition) :=
  let~ r := hook_PreCommitState (GetHooks (RT:=RT) blockchain (ib_forkManager i) (hd_Number header)) header txn in
  Ret (match r with Ok t => Ok t | Err e => Err (ErrFork e) end).

Definition ValidateExtraDataFormat (header : Header) (i : backendIBFT) : outcome (result ibft_err () * backendIBFT) :=
  let~ (r, i) := getModulesFromForkManager (hd_Number header) i in
  match r with
  | Err e => Ret (Err e, i)
  | Ok m =>
      let~ r := GetIBFTExtra (md_signer m) header in
      Ret (match r with Ok _ => Ok () | Err e => Err (ErrSignerOf e) end, i)
  end.

(** ** The verifier ([verifier.go]) *)

Definition extractProposer (header : Header) (i : backendIBFT) : outcome (result ibft_err Address) :=
  if hd_Number header =? 0 then Ret (Ok ZeroAddress) else ibft_GetBlockCreator header i.

Definition IsProposer (id : bytes) (height round : Z) (i : backendIBFT) : outcome bool :=
  match hg_GetHeaderByNumber blockchain (sub64 height 1) with
  | None => Ret false
  | Some previousHeader =>
      let~ r := extractProposer previousHeader i in
      match r with
      | Err _ => Ret false
      | Ok previousProposer =>
          let~ m := current i in
          let~ nextProposer := CalcProposer (md_validators m) round previousProposer in
          Ret (BytesToAddress id =? v_Addr nextProposer)
      end
  end.

Definition IsValidCommittedSeal (proposalHash : bytes) (committedSeal : CommittedSeal) (i : backendIBFT) : outcome bool :=
  let~ m := current i in
  let~ r := sg_VerifyCommittedSeal (md_signer m) (md_validators m) (BytesToAddress (sl_Signer committedSeal))
              (sl_Signature committedSeal) proposalHash in
  Ret (match r with Ok _ => true | Err _ => false end).

Definition IsValidProposalHash (HeaderHash : Header → Hash) (proposal hash : bytes) : bool :=
  match bk_UnmarshalRLP HeaderHash proposal with
  | None => false
  | Some newBlock => bool_decide (HashBytes (hd_Hash (bk_Header newBlock)) = hash)
  end.

Context `{ProtoCodec}.

Definition IsValidSender (msg : Message) (i : backendIBFT) : outcome (bool * backendIBFT) :=
  match PayloadNoSig msg with
  | None => Ret (false, i)
  | Some msgNoSig =>
      let~ m := current i in
      match EcrecoverFromIBFTMessage (md_signer m) (msg_Signature msg) msgNoSig with
      | Err _ => Ret (false, i)
      | Ok signerAddress =>
          if negb (bool_decide (msg_From msg = AddressBytes signerAddress)) then Ret (false, i)
          else
            let~ (r, fm) := GetValidators blockchain executor (vw_Height (msg_View msg)) (ib_forkManager i) in
            Ret (match r with Ok validators => set_Includes validators signerAddress | Err _ => false end, set_forkManager fm i)
      end
  end.

(** ** Messages ([messages.go]) *)

Definition ID (i : backendIBFT) : outcome bytes := let~ m := current i in Ret (AddressBytes (sg_Address (md_signer m))).

Definition signMessage (msg : Message) (i : backendIBFT) : outcome (option Message) :=
  match proto_Marshal msg with
  | None => Ret None
  | Some raw =>
      let~ m := current i in
      Ret (match SignIBFTMessage (md_signer m) raw with
           | None => None
           | Some sig => Some (mkMessage _ (msg_View msg) (msg_From msg) sig (msg_Type msg) (msg_Payload msg))
           end)
  end.

Definition new_message (view : View) (type : MessageType) (payload : Payload) (i : backendIBFT) : outcome (option Message) :=
  let~ id := ID i in signMessage (mkMessage _ view id [] type payload) i.

Definition BuildPrePrepareMessage (HeaderHash : Header → Hash) (proposal : bytes) (certificate : option RoundChangeCertificate) (view : View)
    (i : backendIBFT) : outcome (option Message) :=
  match bk_UnmarshalRLP HeaderHash proposal with
  | None => Ret None
  | Some block =>
      new_message view PREPREPARE (PreprepareData proposal (HashBytes (hd_Hash (bk_Header block))) certificate) i
  end.

Definition BuildPrepareMessage (proposalHash : bytes) (view : View) (i : backendIBFT) : outcome (option Message) :=
  new_message view PREPARE (PrepareData proposalHash) i.

Definition BuildCommitMessage (proposalHash : bytes) (view : View) (i : backendIBFT) : outcome (option Message) :=
  let~ m := current i in
  match CreateCommittedSeal (md_signer m) proposalHash with
  | None => Ret None
  | Some committedSeal => new_message view COMMIT (CommitData proposalHash committedSeal) i
  end.

Definition BuildRoundChangeMessage (proposal : bytes) (certificate : option PreparedCertificate) (view : View) (i : backendIBFT)
    : outcome (option Message) :=
  new_message view ROUND_CHANGE (RoundChangeData proposal certificate) i.

Definition MaximumFaultyNodes (i : backendIBFT) : outcome Z :=
  let~ m := current i in Ret (u64 (CalcMaxFaultyNodes (md_validators m))).

Definition Quorum (blockNumber : Z) (i : backendIBFT) : outcome (Z * backendIBFT) :=
  let~ (r, fm) := GetValidators blockchain executor blockNumber (ib_forkManager i) in
  let i := set_forkManager fm i in
  Ret (match r with
       | Err _ => 2 ^ 31 - 1
       | Ok validators => u64 (quorumSize i blockNumber validators)
       end, i).

(** ** Parent seals ([consensus_backend.go]) *)

Definition extractCommittedSeals (header : Header) (i : backendIBFT) : outcome (result ibft_err Seals) :=
  match GetSigner (ib_forkManager i) (hd_Number header) with
  | Err e => Ret (Err (ErrFork e))
  | Ok signer =>
      let~ r := GetIBFTExtra signer header in
      Ret (match r with Ok extra => Ok (ex_CommittedSeals extra) | Err e => Err (ErrSignerOf e) end)
  end.

Definition extractParentCommittedSeals (header : Header) (i : backendIBFT) : outcome (result ibft_err (option Seals)) :=
  if hd_Number header =? 0 then Ret (Ok None)
  else let~ r := extractCommittedSeals header i in Ret (match r with Ok s => Ok (Some s) | Err e => Err e end).
End chain.
End ibft.
