(* ===== verification/IbftSpec.v ===== *)
(** What IBFT promises: quorums of a set meet in more validators than may be
    faulty, so two final headers of one height share that many signers; proposers
    take turns; the validators of proof of stake are those of the contract at the
    end of the epoch before, whether they were cached or not. *)
From stdpp Require Import strings.
From S2P Require Import Prelude GoHeap Types Runtime Crypto EvmState EvmInstr EvmRun TxAccount Intrinsic StateTxn Bloom Blake2f Precompiled Signer Rlp RlpTypes Trie BuildRoot Text Validators Snapshot SnapshotSpec IbftSigner IbftSignerSpec Executor Staking ContractStore IbftFork Ibft.

(** ** Quorums *)

Lemma CalcMaxFaultyNodes_spec vs :
  1 ≤ set_Len vs → let F := CalcMaxFaultyNodes vs in 0 ≤ F ∧ 3 * F + 1 ≤ set_Len vs ≤ 3 * F + 3.
Proof.
  intros Hn F. unfold F, CalcMaxFaultyNodes. rewrite Z.quot_div_nonneg by lia.
  pose proof (Z.div_mod (set_Len vs - 1) 3). pose proof (Z.mod_pos_bound (set_Len vs - 1) 3). lia.
Qed.

(** Two quorums meet in more than the faulty ones, and the others are enough for one. *)
Lemma OptimalQuorumSize_spec vs :
  1 ≤ set_Len vs →
  CalcMaxFaultyNodes vs < 2 * OptimalQuorumSize vs - set_Len vs ∧
  OptimalQuorumSize vs ≤ set_Len vs - CalcMaxFaultyNodes vs.
Proof.
  intros Hn. destruct (CalcMaxFaultyNodes_spec vs Hn) as [HF Hr]. unfold OptimalQuorumSize.
  destruct (Z.eqb_spec (CalcMaxFaultyNodes vs) 0); [lia|].
  pose proof (Z.div_mod (2 * set_Len vs + 2) 3). pose proof (Z.mod_pos_bound (2 * set_Len vs + 2) 3). lia.
Qed.

(** The older quorum of a set of six is three: two of them need not meet. *)
Lemma LegacyQuorumSize_apart :
  let vs := NewECDSAValidatorSet [1; 2; 3; 4; 5; 6] in
  LegacyQuorumSize vs = 3 ∧ OptimalQuorumSize vs = 4.
Proof. done. Qed.

(** The signers of both. *)
Definition shared (l1 l2 : list Address) : list Address := filter (λ a, a ∈ l2) l1.

Lemma quorums_meet (A l1 l2 : list Address) :
  NoDup A → NoDup l1 → NoDup l2 → l1 ⊆ A → l2 ⊆ A →
  (length l1 + length l2 ≤ length A + length (shared l1 l2))%nat.
Proof.
  intros HA H1 H2 S1 S2. unfold shared. set (out := filter (λ a, a ∉ l2) l1).
  assert (length l1 = length (filter (λ a, a ∈ l2) l1) + length out)%nat as Hl.
  { unfold out. clear. induction l1 as [|a l IH]; [done|]. rewrite !filter_cons. destruct (decide (a ∈ l2)) as [Hin|Hin].
    - rewrite decide_False by tauto. cbn. lia.
    - rewrite decide_True by done. cbn. lia. }
  assert (length (out ++ l2) ≤ length A)%nat as Hle.
  { apply submseteq_length, NoDup_submseteq.
    - apply NoDup_app. split; [by apply NoDup_filter|]. split; [|done]. intros a [Ha _]%list_elem_of_filter. done.
    - intros a [[_ Ha]%list_elem_of_filter|Ha]%elem_of_app; [by apply S1|by apply S2]. }
  rewrite length_app in Hle. lia.
Qed.

Lemma length_addrs vs : set_Len vs = Z.of_nat (length (addrs vs)).
Proof. unfold set_Len, addrs. by rewrite length_fmap. Qed.

(** ** Proposers *)

Lemma set_At_lookup vs k v : vs_Validators vs !! k = Some v → set_At vs (Z.of_nat k) = Ret v.
Proof. intros Hk. unfold set_At. by rewrite Nat2Z.id, Hk. Qed.

Lemma rotation_Permutation {A} (l : list A) (s : nat) :
  (λ k, l !! ((s + k) mod length l)%nat) <$> seq 0 (length l) ≡ₚ Some <$> l.
Proof.
  destruct (decide (length l = 0%nat)) as [H0|H0]; [by destruct l|].
  assert ((λ k, l !! ((s + k) mod length l)%nat) <$> seq 0 (length l) = Some <$> (drop (s mod length l) l ++ take (s mod length l) l)) as ->.
  2: { rewrite Permutation_app_comm, take_drop. done. }
  pose proof (Nat.mod_upper_bound s (length l) H0) as Hs. set (r := (s mod length l)%nat) in *.
  apply list_eq. intros k. rewrite !list_lookup_fmap. destruct (decide (k < length l)%nat) as [Hk|Hk].
  - rewrite lookup_seq_lt by done. cbn [fmap option_fmap option_map plus].
    assert ((s + k) mod length l = (r + k) mod length l)%nat as -> by (unfold r; by rewrite Nat.Div0.add_mod_idemp_l).
    destruct (decide (r + k < length l)%nat).
    + rewrite Nat.mod_small, lookup_app_l, lookup_drop by (rewrite ?length_drop; lia).
      destruct (lookup_lt_is_Some_2 l (r + k)) as [x ->]; [lia|done].
    + rewrite lookup_app_r by (rewrite length_drop; lia). rewrite length_drop, lookup_take_lt by lia.
      replace ((r + k) mod length l)%nat with (k - (length l - r))%nat.
      * destruct (lookup_lt_is_Some_2 l (k - (length l - r))) as [x ->]; [lia|done].
      * apply (Nat.mod_unique _ _ 1); lia.
  - rewrite (lookup_ge_None_2 (seq _ _)) by (rewrite length_seq; lia).
    rewrite lookup_ge_None_2 by (rewrite length_app, length_drop, length_take; lia). done.
Qed.

(** The seed of the rounds after [lastProposer]. *)
Definition first_seed (vs : ValSet) (lastProposer : Address) : Z :=
  if lastProposer =? ZeroAddress then 0
  else (let index := set_Index vs lastProposer in if negb (index =? -1) then index else 0) + 1.

Lemma CalcProposer_at vs round lastProposer :
  1 ≤ set_Len vs → set_Len vs + round < M64 → 0 ≤ round →
  ∃ v, CalcProposer vs round lastProposer = Ret v ∧
    vs_Validators vs !! ((Z.to_nat (first_seed vs lastProposer) + Z.to_nat round) mod length (vs_Validators vs))%nat = Some v.
Proof.
  intros Hn Hr H0. unfold CalcProposer, first_seed.
  assert (0 ≤ (if negb (set_Index vs lastProposer =? -1) then set_Index vs lastProposer else 0) < set_Len vs) as Hi.
  { destruct (Z.eqb_spec (set_Index vs lastProposer) (-1)) as [|Hne]; cbn [negb]; [lia|].
    destruct (set_Index_spec vs lastProposer) as [[E _]|(k & v & -> & Hk%lookup_lt_Some & _)]; [lia|]. unfold set_Len. lia. }
  set (idx := if negb _ then _ else _) in *. rewrite (proj2 (Z.eqb_neq (set_Len vs) 0)) by lia.
  set (seed := if _ =? ZeroAddress then round else _). set (f := if _ =? ZeroAddress then 0 else _).
  assert (seed = f + round ∧ 0 ≤ f) as [-> Hf].
  { unfold seed, f. destruct (lastProposer =? ZeroAddress); [lia|]. unfold add64, u64. rewrite (Z.mod_small idx), (Z.mod_small (idx + round)), Z.mod_small by lia. lia. }
  unfold set_Len in *. destruct (lookup_lt_is_Some_2 (vs_Validators vs) ((Z.to_nat f + Z.to_nat round) mod length (vs_Validators vs))%nat) as [v Hv].
  { apply Nat.mod_upper_bound. lia. }
  exists v. split; [|done]. rewrite <- (set_At_lookup _ _ _ Hv). f_equal. rewrite Nat2Z.inj_mod, Nat2Z.inj_add, !Z2Nat.id by lia. done.
Qed.

(** Whoever proposed last, in any number of rounds in a row that is the number of
    validators every validator is the proposer of exactly one. *)
Theorem proposers_take_turns vs round lastProposer :
  1 ≤ set_Len vs → 0 ≤ round → 2 * set_Len vs + round < M64 →
  (λ k, CalcProposer vs (round + Z.of_nat k) lastProposer) <$> seq 0 (length (vs_Validators vs)) ≡ₚ Ret <$> vs_Validators vs.
Proof.
  intros Hn H0 Hr. set (l := vs_Validators vs). set (s := (Z.to_nat (first_seed vs lastProposer) + Z.to_nat round)%nat).
  assert ((λ k, CalcProposer vs (round + Z.of_nat k) lastProposer) <$> seq 0 (length l) =
          from_option Ret NoFuel <$> ((λ k, l !! ((s + k) mod length l)%nat) <$> seq 0 (length l))) as ->.
  { rewrite <- list_fmap_compose. apply list_fmap_ext. intros i k [-> Hk]%lookup_seq. unfold compose.
    destruct (CalcProposer_at vs (round + Z.of_nat (0 + i)) lastProposer) as (v & -> & Hv); [done|unfold set_Len in *; unfold l in Hk; lia|lia|].
    assert (Z.to_nat (first_seed vs lastProposer) + Z.to_nat (round + Z.of_nat (0 + i)) = s + (0 + i))%nat as E by (unfold s; lia).
    rewrite E in Hv. unfold l. by rewrite Hv. }
  rewrite rotation_Permutation. rewrite <- list_fmap_compose. done.
Qed.

(** ** Sets of validators *)

Section sets.
Context `{EthgoAbi} `{External} `{RlpReader} `{Secp256k1} `{PrecompiledCrypto} `{GoRuntime} `{MachinePool} `{LRULaws} `{FinMap Z RT}
  `{BLS} `{GoSort}.

Lemma add_ecdsa_ok l vs v : set_ok vs → add_ecdsa l vs = Ok v → set_ok v.
Proof.
  revert vs. induction l as [|a l IH]; intros vs Hs; cbn; [by intros [= <-]|].
  destruct (set_Add vs (ECDSAValidator a)) as [vs'|] eqn:E; [|done]. apply IH. by eapply set_Add_ok.
Qed.

Lemma add_bls_ok l keys vs v : set_ok vs → add_bls l keys vs = Ret (Ok v) → set_ok v.
Proof.
  revert keys vs. induction l as [|a l IH]; intros [|key keys] vs Hs; cbn; try done; [by intros [= <-]..|].
  destruct (pk_UnmarshalBinary key); [|by apply IH].
  destruct (set_Add vs (BLSValidator a key)) as [vs'|] eqn:E; [|done]. apply IH. by eapply set_Add_ok.
Qed.

Lemma FetchValidators_ok type (t t' : Transition (RT:=RT)) from v :
  FetchValidators type t from = Ret (Ok v, t') → set_ok v.
Proof.
  unfold FetchValidators, FetchECDSAValidators, FetchBLSValidators. case_bool_decide; [|case_bool_decide; [|done]].
  - destruct (QueryValidators t from) as [[[l|] t1]| |]; try done. cbn. intros [= Ea _]. eapply (add_ecdsa_ok l (NewECDSAValidatorSet [])); [apply set_ok_nil|exact Ea].
  - destruct (QueryValidators t from) as [[[l|] t1]| |]; try done. cbn [obind].
    destruct (QueryBLSPublicKeys t1 from) as [[[keys|] t2]| |]; try done. cbn [obind].
    destruct (add_bls l keys _) as [r| |] eqn:E; try done. cbn. intros [= -> _]. eapply (add_bls_ok l keys (NewBLSValidatorSet [])); [apply set_ok_nil|exact E].
Qed.

(** Every set that the stores hold has each address once. *)
Record fm_ok (m : ForkManager) : Prop := {
  fo_snapshots s : fm_snapshotStore m = Some s → Forall (λ sn, set_ok (sn_Set sn)) (st_list (sv_store s));
  fo_contract s : fm_contractStore m = Some s → lru_all (λ _, set_ok) (cs_validatorSetCache s);
}.

Lemma find_stored num s sn : find num s = Some sn → sn ∈ st_list s.
Proof.
  unfold find. destruct (last (st_list s)) as [l|] eqn:El; [|done].
  repeat case_match; intros Hf; simplify_eq; eauto using list_elem_of_lookup_2, last_Some_elem_of.
Qed.

Lemma contract_GetValidatorsByHeight_ok bc (ex : Executor (RT:=RT)) type k s v s' :
  lru_all (λ _, set_ok) (cs_validatorSetCache s) → contract_GetValidatorsByHeight bc ex type k s = Ret (Ok v, s') → set_ok v.
Proof.
  intros Hc. unfold contract_GetValidatorsByHeight, loadCachedValidatorSet.
  destruct (lru_Get k (cs_validatorSetCache s)) as [[w|] c] eqn:El; [intros [= -> _]; apply (Hc k); by rewrite El|].
  destruct (getTransitionForQuery bc ex k) as [t|]; [|done]. destruct (FetchValidators type t ZeroAddress) as [[[w|] t']| |] eqn:Ef; try done.
  cbn. intros [= -> _]. by eapply FetchValidators_ok.
Qed.

Lemma GetValidators_set_ok bc (ex : Executor (RT:=RT)) height m v m' :
  fm_ok m → GetValidators bc ex height m = Ret (Ok v, m') → set_ok v.
Proof.
  intros [Hs Hc]. unfold GetValidators. destruct (getFork (fm_forks m) height) as [fork|]; [|done].
  destruct (getValidatorStoreByIBFTFork m fork) as [[]|]; [| |by destruct (fm_snapshotStore m), (fm_contractStore m)].
  - destruct (fm_snapshotStore m) as [s|]; [|done]. unfold snapshot_GetValidators, GetValidatorsByHeight, getSnapshot.
    destruct (find _ (sv_store s)) as [sn|] eqn:Ef; [|done]. intros [= <- _]. apply find_stored in Ef.
    specialize (Hs s eq_refl). by eapply Forall_forall in Hs.
  - destruct (fm_snapshotStore m) as [sn|], (fm_contractStore m) as [s|]; try done; unfold contract_GetValidators;
      destruct (GetSigner m height) as [sg|]; try done; destruct (calculateContractStoreFetchingHeight _ _ _) as [k| |]; try done; cbn [obind];
      (destruct (contract_GetValidatorsByHeight bc ex _ k s) as [[[w|] s']| |] eqn:Eg; try done; cbn; intros [= -> _];
       eapply contract_GetValidatorsByHeight_ok; [by apply Hc|exact Eg]).
Qed.

(** ** Agreement *)

Lemma getModules_quorum bc (ex : Executor (RT:=RT)) n i r i' :
  getModulesFromForkManager bc ex n i = Ret (r, i') → ib_quorumSizeBlockNum i' = ib_quorumSizeBlockNum i.
Proof.
  unfold getModulesFromForkManager. destruct (GetSigner _ _) as [sg|]; [|by intros [= _ <-]].
  destruct (GetValidators bc ex n (ib_forkManager i)) as [[v fm]| |]; try done. cbn. by intros [= _ <-].
Qed.

Lemma verifyHeaderImpl_quorum bc (ex : Executor (RT:=RT)) parent h m b i r i' :
  verifyHeaderImpl bc ex parent h m b i = Ret (r, i') → ib_quorumSizeBlockNum i' = ib_quorumSizeBlockNum i.
Proof.
  unfold verifyHeaderImpl. do 3 (case_match; [by intros [= _ <-]|]).
  destruct (GetIBFTExtra _ _) as [[extra|]| |]; try done; cbn [obind]; [|by intros [= _ <-]].
  destruct (verifyProposerSeal _ _ _) as [[[]|]| |]; try done; cbn [obind]; [|by intros [= _ <-]].
  destruct (ibft_verifyParentCommittedSeals bc ex parent h b i) as [[r1 i1]| |] eqn:Ep; try done. cbn [obind].
  assert (ib_quorumSizeBlockNum i1 = ib_quorumSizeBlockNum i) as <-.
  { revert Ep. unfold ibft_verifyParentCommittedSeals. case_match; [by intros [= _ <-]|].
    destruct (getModulesFromForkManager bc ex _ i) as [[[m1|] i2]| |] eqn:Eg; try done; apply getModules_quorum in Eg; cbn [obind].
    - destruct (VerifyParentCommittedSeals _ _ _ _ _ _) as [v| |]; try done. by intros [= _ <-].
    - by intros [= _ <-]. }
  destruct r1 as [[]|]; by intros [= _ <-].
Qed.

Lemma verifyHeaderImpl_proposer bc (ex : Executor (RT:=RT)) parent h m b i i' :
  verifyHeaderImpl bc ex parent h m b i = Ret (Ok (), i') →
  ∃ proposer, EcrecoverFromHeader (md_signer m) h = Ret (Ok proposer) ∧ set_Includes (md_validators m) proposer = true.
Proof.
  unfold verifyHeaderImpl. do 3 (case_match; [done|]). destruct (GetIBFTExtra _ _) as [[extra|]| |]; try done. cbn [obind].
  unfold verifyProposerSeal. destruct (EcrecoverFromHeader (md_signer m) h) as [[a|]| |]; try done. cbn [obind].
  destruct (set_Includes (md_validators m) a) eqn:Ei; [|done]. intros _. by exists a.
Qed.

(** A header that verifies: the modules of its height, its hash, and a quorum that
    sealed it. *)
Lemma VerifyHeader_signers bc (ex : Executor (RT:=RT)) h i i' :
  fm_ok (ib_forkManager i) → ibft_VerifyHeader bc ex h i = Ret (Ok (), i') →
  ∃ m i1 extra hash signers,
    getModulesFromForkManager bc ex (hd_Number h) i = Ret (Ok m, i1) ∧ set_ok (md_validators m) ∧ 1 ≤ set_Len (md_validators m) ∧
    GetIBFTExtra (md_signer m) h = Ret (Ok extra) ∧ CalculateHeaderHash (md_signer m) h = Ret (Ok hash) ∧
    NoDup signers ∧ signers ⊆ addrs (md_validators m) ∧
    quorumSize i (hd_Number h) (md_validators m) ≤ Z.of_nat (length signers) ∧
    sealed_by (md_validators m) (keccak (wrapCommitHash (HashBytes hash))) (ex_CommittedSeals extra) signers.
Proof.
  intros Hf. unfold ibft_VerifyHeader. destruct (hg_GetHeaderByNumber bc _) as [parent|]; [|done].
  destruct (getModulesFromForkManager bc ex (hd_Number h) i) as [[[m|] i1]| |] eqn:Em; try done. cbn [obind].
  destruct (verifyHeaderImpl bc ex parent h m false i1) as [[[[]|] i2]| |] eqn:Ev; try done. cbn [obind].
  assert (set_ok (md_validators m) ∧ ib_quorumSizeBlockNum i1 = ib_quorumSizeBlockNum i) as [Hok Hq1].
  { revert Em. unfold getModulesFromForkManager. destruct (GetSigner _ _) as [sg|]; [|done].
    destruct (GetValidators bc ex (hd_Number h) (ib_forkManager i)) as [[[v|] fm]| |] eqn:Eg; try done. cbn. intros [= <- <-].
    split; [|done]. by eapply GetValidators_set_ok. }
  assert (ib_quorumSizeBlockNum i2 = ib_quorumSizeBlockNum i1) as Hq2 by (by eapply verifyHeaderImpl_quorum).
  destruct (sg_VerifyCommittedSeals _ _ _ _) as [[[]|]| |] eqn:Es; try done.
  apply sg_VerifyCommittedSeals_signers in Es as (extra & hash & sg & Hx & Hh & Hn & Hsub & Hle & Hs); [|apply Hok].
  intros _. exists m, i1, extra, hash, sg. unfold quorumSize in *. rewrite Hq2, Hq1 in Hle. split_and!; try done.
  apply verifyHeaderImpl_proposer in Ev as (a & _ & Ha). apply set_Includes_spec in Ha. rewrite length_addrs.
  destruct (addrs _); [by apply elem_of_nil in Ha|]. cbn. lia.
Qed.

End sets.
