(* ===== verification/IbftOperator.v ===== *)
(** What an operator does to an IBFT chain: the command [ibft switch]
    ([command/ibft/switch/params.go], with [ValidateMinMaxValidatorsNumber] and
    [GetValidatorsFromPrefixPath] of [command/common.go]), which appends a fork to the
    genesis file, and the service of operators
    ([consensus/ibft/operator_service.go]), through which candidates are proposed.

    Files are arguments: what the genesis file holds of the engine, and which keys
    the directories of validators have.  The configuration that the command writes
    is the one that a node reads, so that the forks are those of
    [encoding/json] on both sides, as in [IbftFork]. *)
From stdpp Require Import strings.
From S2P Require Import Prelude GoHeap Types Runtime Crypto EvmState EvmInstr EvmRun TxAccount Intrinsic StateTxn Bloom Blake2f Precompiled Signer Rlp RlpTypes Text Validators Snapshot SnapshotSpec IbftSigner Executor Staking ContractStore IbftFork IbftForkSpec Ibft.

(** ** Parameters of the switch *)

Inductive switch_err :=
| ErrFromPositive
| ErrIBFTConfigNotFound
| ErrSameIBFTAndValidatorType
| ErrLessFromThanLastFrom
| ErrInvalidValidatorsUpdateHeight
| ErrValidatorNumberExceedsMax
| ErrInvalidValidatorRange
| ErrInvalidMinNumValidators
| ErrInvalidMaxNumValidators
| ErrECDSAKeyNotFound
| ErrBLSKeyNotFound
| ErrReadDirectory
| ErrDeploymentNotSupported
| ErrMinMaxNotSupported
| ErrParseDeployment
| ErrParseFrom
| ErrParseMin
| ErrParseMax
| ErrImport
| ErrSwitchFork (e : fork_err)
| ErrSwitchValidators (e : val_err).

(** The parts of the genesis file: [Params.Engine], of which the entry [ibft] may be
    missing or of another type. *)
Record switchParams := mkSwitch {
  sp_typeRaw : bytes;
  sp_ibftType : IBFTType;
  sp_deploymentRaw : bytes;
  sp_deployment : option Z;
  sp_fromRaw : bytes;
  sp_from : Z;
  sp_rawIBFTValidatorType : bytes;
  sp_ibftValidatorType : bytes;
  sp_ibftValidatorPrefixPath : bytes;
  sp_ibftValidatorsRaw : list bytes;
  sp_ibftValidators : option ValSet;
  sp_maxValidatorCountRaw : bytes;
  sp_maxValidatorCount : option Z;
  sp_minValidatorCountRaw : bytes;
  sp_minValidatorCount : option Z;
  sp_genesisConfig : option ibft_config;
}.

(** The flags of the command line, before [initRawParams]. *)
Definition raw_params (typeRaw deploymentRaw fromRaw rawValidatorType prefix : bytes) (validatorsRaw : list bytes) (maxRaw minRaw : bytes) : switchParams :=
  mkSwitch typeRaw [] deploymentRaw None fromRaw 0 rawValidatorType [] prefix validatorsRaw None maxRaw None minRaw None None.

Definition set_type (t : IBFTType) (p : switchParams) : switchParams :=
  mkSwitch (sp_typeRaw p) t (sp_deploymentRaw p) (sp_deployment p) (sp_fromRaw p) (sp_from p) (sp_rawIBFTValidatorType p) (sp_ibftValidatorType p)
    (sp_ibftValidatorPrefixPath p) (sp_ibftValidatorsRaw p) (sp_ibftValidators p) (sp_maxValidatorCountRaw p) (sp_maxValidatorCount p)
    (sp_minValidatorCountRaw p) (sp_minValidatorCount p) (sp_genesisConfig p).
Definition set_validatorType (t : bytes) (p : switchParams) : switchParams :=
  mkSwitch (sp_typeRaw p) (sp_ibftType p) (sp_deploymentRaw p) (sp_deployment p) (sp_fromRaw p) (sp_from p) (sp_rawIBFTValidatorType p) t
    (sp_ibftValidatorPrefixPath p) (sp_ibftValidatorsRaw p) (sp_ibftValidators p) (sp_maxValidatorCountRaw p) (sp_maxValidatorCount p)
    (sp_minValidatorCountRaw p) (sp_minValidatorCount p) (sp_genesisConfig p).
Definition set_deployment (d : option Z) (p : switchParams) : switchParams :=
  mkSwitch (sp_typeRaw p) (sp_ibftType p) (sp_deploymentRaw p) d (sp_fromRaw p) (sp_from p) (sp_rawIBFTValidatorType p) (sp_ibftValidatorType p)
    (sp_ibftValidatorPrefixPath p) (sp_ibftValidatorsRaw p) (sp_ibftValidators p) (sp_maxValidatorCountRaw p) (sp_maxValidatorCount p)
    (sp_minValidatorCountRaw p) (sp_minValidatorCount p) (sp_genesisConfig p).
Definition set_from (from : Z) (p : switchParams) : switchParams :=
  mkSwitch (sp_typeRaw p) (sp_ibftType p) (sp_deploymentRaw p) (sp_deployment p) (sp_fromRaw p) from (sp_rawIBFTValidatorType p) (sp_ibftValidatorType p)
    (sp_ibftValidatorPrefixPath p) (sp_ibftValidatorsRaw p) (sp_ibftValidators p) (sp_maxValidatorCountRaw p) (sp_maxValidatorCount p)
    (sp_minValidatorCountRaw p) (sp_minValidatorCount p) (sp_genesisConfig p).
Definition set_validators (v : option ValSet) (p : switchParams) : switchParams :=
  mkSwitch (sp_typeRaw p) (sp_ibftType p) (sp_deploymentRaw p) (sp_deployment p) (sp_fromRaw p) (sp_from p) (sp_rawIBFTValidatorType p) (sp_ibftValidatorType p)
    (sp_ibftValidatorPrefixPath p) (sp_ibftValidatorsRaw p) v (sp_maxValidatorCountRaw p) (sp_maxValidatorCount p)
    (sp_minValidatorCountRaw p) (sp_minValidatorCount p) (sp_genesisConfig p).
Definition set_counts (min max : option Z) (p : switchParams) : switchParams :=
  mkSwitch (sp_typeRaw p) (sp_ibftType p) (sp_deploymentRaw p) (sp_deployment p) (sp_fromRaw p) (sp_from p) (sp_rawIBFTValidatorType p) (sp_ibftValidatorType p)
    (sp_ibftValidatorPrefixPath p) (sp_ibftValidatorsRaw p) (sp_ibftValidators p) (sp_maxValidatorCountRaw p) max
    (sp_minValidatorCountRaw p) min (sp_genesisConfig p).
Definition set_genesis (g : option ibft_config) (p : switchParams) : switchParams :=
  mkSwitch (sp_typeRaw p) (sp_ibftType p) (sp_deploymentRaw p) (sp_deployment p) (sp_fromRaw p) (sp_from p) (sp_rawIBFTValidatorType p) (sp_ibftValidatorType p)
    (sp_ibftValidatorPrefixPath p) (sp_ibftValidatorsRaw p) (sp_ibftValidators p) (sp_maxValidatorCountRaw p) (sp_maxValidatorCount p)
    (sp_minValidatorCountRaw p) (sp_minValidatorCount p) g.

Definition initMechanismType (p : switchParams) : result switch_err switchParams :=
  match ParseIBFTType (sp_typeRaw p) with Ok t => Ok (set_type t p) | Err e => Err (ErrSwitchFork e) end.

Definition initIBFTValidatorType (p : switchParams) : result switch_err switchParams :=
  if bool_decide (sp_rawIBFTValidatorType p = []) then Ok p
  else match ParseValidatorType (sp_rawIBFTValidatorType p) with Ok t => Ok (set_validatorType t p) | Err e => Err (ErrSwitchValidators e) end.

Definition initDeployment (p : switchParams) : result switch_err switchParams :=
  if bool_decide (sp_deploymentRaw p = []) then Ok p
  else if negb (bool_decide (sp_ibftType p = PoS)) then Err ErrDeploymentNotSupported
  else match ParseUint64orHex (Some (sp_deploymentRaw p)) with Some d => Ok (set_deployment (Some d) p) | None => Err ErrParseDeployment end.

Definition initFrom (p : switchParams) : result switch_err switchParams :=
  match ParseUint64orHex (Some (sp_fromRaw p)) with
  | None => Err ErrParseFrom
  | Some from => if from <=? 0 then Err ErrFromPositive else Ok (set_from from p)
  end.

Definition ValidateMinMaxValidatorsNumber (minValidatorCount maxValidatorCount : Z) : result switch_err () :=
  if minValidatorCount <? 1 then Err ErrInvalidMinNumValidators
  else if minValidatorCount >? maxValidatorCount then Err ErrInvalidValidatorRange
  else if maxValidatorCount >? MaxSafeJSInt then Err ErrInvalidMaxNumValidators
  else Ok ().

Definition validateMinMaxValidatorNumber (p : switchParams) : result switch_err () :=
  ValidateMinMaxValidatorsNumber (default 1 (sp_minValidatorCount p)) (default MaxSafeJSInt (sp_maxValidatorCount p)).

(** A flag that is not given is the empty string. *)
Definition parse_count (raw : bytes) (e : switch_err) (old : option Z) : result switch_err (option Z) :=
  if bool_decide (raw = []) then Ok old
  else match ParseUint64orHex (Some raw) with Some v => Ok (Some v) | None => Err e end.

Definition initPoSConfig (p : switchParams) : result switch_err switchParams :=
  if negb (bool_decide (sp_ibftType p = PoS)) then
    if negb (bool_decide (sp_minValidatorCountRaw p = [])) || negb (bool_decide (sp_maxValidatorCountRaw p = [])) then Err ErrMinMaxNotSupported
    else Ok p
  else
    let? min := parse_count (sp_minValidatorCountRaw p) ErrParseMin (sp_minValidatorCount p) in
    let? max := parse_count (sp_maxValidatorCountRaw p) ErrParseMax (sp_maxValidatorCount p) in
    let p := set_counts min max p in
    let? _ := validateMinMaxValidatorNumber p in
    Ok p.

(** *** Validators *)

(** An entry of the current directory, with what its secrets give: the address of
    the validator and its BLS key, or why not. *)
Record dir_entry := mkEntry {
  de_name : bytes;
  de_IsDir : bool;
  de_address : result switch_err Address;
  de_blsPublicKey : result switch_err bytes;
}.

Fixpoint collect_validators (prefix validatorType : bytes) (files : list dir_entry) (validatorSet : ValSet) : result switch_err ValSet :=
  match files with
  | [] => Ok validatorSet
  | file :: files =>
      if negb (de_IsDir file) || negb (HasPrefix (de_name file) prefix) then collect_validators prefix validatorType files validatorSet
      else
        let? address := de_address file in
        let? validatorSet :=
          if bool_decide (validatorType = ECDSAValidatorType) then
            match set_Add validatorSet (ECDSAValidator address) with Ok s => Ok s | Err e => Err (ErrSwitchValidators e) end
          else if bool_decide (validatorType = BLSValidatorType) then
            let? blsPublicKey := de_blsPublicKey file in
            match set_Add validatorSet (BLSValidator address blsPublicKey) with Ok s => Ok s | Err e => Err (ErrSwitchValidators e) end
          else Ok validatorSet in
        collect_validators prefix validatorType files validatorSet
  end.

(** [files] is nothing if the directory cannot be read.  The set of an unknown type is
    nil, and nothing is added to it. *)
Definition GetValidatorsFromPrefixPath (files : option (list dir_entry)) (prefix validatorType : bytes) : result switch_err (option ValSet) :=
  match files with
  | None => Err ErrReadDirectory
  | Some files =>
      match NewValidatorSetFromType validatorType with
      | None => match collect_validators prefix validatorType files (mkSet [] []) with Ok _ => Ok None | Err e => Err e end
      | Some set => match collect_validators prefix validatorType files set with Ok s => Ok (Some s) | Err e => Err e end
      end
  end.

(** A method of a nil set, and [Merge] of one, panic. *)
Definition merge_into (p : switchParams) (newSet : option ValSet) : outcome (result switch_err switchParams) :=
  match sp_ibftValidators p, newSet with
  | Some s, Some ss =>
      Ret (match set_Merge s ss with Ok s => Ok (set_validators (Some s) p) | Err e => Err (ErrSwitchValidators e) end)
  | _, _ => Panic
  end.

Definition setValidatorSetFromPrefixPath (files : option (list dir_entry)) (p : switchParams) : outcome (result switch_err switchParams) :=
  if bool_decide (sp_ibftValidatorPrefixPath p = []) then Ret (Ok p)
  else
    match GetValidatorsFromPrefixPath files (sp_ibftValidatorPrefixPath p) (sp_ibftValidatorType p) with
    | Err e => Ret (Err e)
    | Ok validators => merge_into p validators
    end.

Definition setValidatorSetFromCli (p : switchParams) : outcome (result switch_err switchParams) :=
  if bool_decide (sp_ibftValidatorsRaw p = []) then Ret (Ok p)
  else
    match ParseValidators (sp_ibftValidatorType p) (sp_ibftValidatorsRaw p) with
    | Err e => Ret (Err (ErrSwitchValidators e))
    | Ok newSet => merge_into p (Some newSet)
    end.

Definition initPoAConfig (files : option (list dir_entry)) (p : switchParams) : outcome (result switch_err switchParams) :=
  if negb (bool_decide (sp_ibftType p = PoA)) then Ret (Ok p)
  else
    let p := set_validators (NewValidatorSetFromType (sp_ibftValidatorType p)) p in
    let~ r := setValidatorSetFromPrefixPath files p in
    match r with Err e => Ret (Err e) | Ok p =>
    let~ r := setValidatorSetFromCli p in
    match r with Err e => Ret (Err e) | Ok p =>
    match sp_ibftValidators p with
    | None => Panic
    | Some s => Ret (if set_Len s >? MaxSafeJSInt then Err ErrValidatorNumberExceedsMax else Ok p)
    end end end.

(** [chain.Import] gives nothing if the file cannot be read. *)
Definition initChain (file : option (option ibft_config)) (p : switchParams) : result switch_err switchParams :=
  match file with None => Err ErrImport | Some cc => Ok (set_genesis cc p) end.

Definition initRawParams (files : option (list dir_entry)) (file : option (option ibft_config)) (p : switchParams) : outcome (result switch_err switchParams) :=
  match (let? p := initMechanismType p in let? p := initIBFTValidatorType p in let? p := initDeployment p in initFrom p) with
  | Err e => Ret (Err e)
  | Ok p =>
      let~ r := initPoAConfig files p in
      Ret (let? p := r in let? p := initPoSConfig p in initChain file p)
  end.

(** ** The fork appended *)

Definition new_fork (ibftType : IBFTType) (validatorType : bytes) (from : Z) (deployment : option Z) (validators : option ValSet)
    (maxValidatorCount minValidatorCount : option Z) : IBFTFork :=
  if bool_decide (ibftType = PoA) then mkFork ibftType validatorType None from None validators None None
  else if bool_decide (ibftType = PoS) then mkFork ibftType validatorType deployment from None None maxValidatorCount minValidatorCount
  else mkFork ibftType validatorType None from None None None None.

Definition set_To (to_ : Z) (f : IBFTFork) : IBFTFork :=
  mkFork (fk_Type f) (fk_ValidatorType f) (fk_Deployment f) (fk_From f) (Some to_) (fk_Validators f) (fk_MaxValidatorCount f) (fk_MinValidatorCount f).

(** An empty list of forks has no last one. *)
Definition appendIBFTForks (cc : option ibft_config) (ibftType : IBFTType) (validatorType : bytes) (from : Z) (deployment : option Z)
    (validators : option ValSet) (maxValidatorCount minValidatorCount : option Z) : outcome (result switch_err ibft_config) :=
  match cc with
  | None => Ret (Err ErrIBFTConfigNotFound)
  | Some ibftConfig =>
      match GetIBFTForks ibftConfig with
      | Err e => Ret (Err (ErrSwitchFork e))
      | Ok ibftForks =>
          match last ibftForks with
          | None => Panic
          | Some lastFork =>
              if bool_decide (ibftType = fk_Type lastFork) && bool_decide (validatorType = fk_ValidatorType lastFork) then Ret (Err ErrSameIBFTAndValidatorType)
              else if from <=? fk_From lastFork then Ret (Err ErrLessFromThanLastFrom)
              else if bool_decide (ibftType = PoA) && bool_decide (is_Some validators) && (from <=? 1) then Ret (Err ErrInvalidValidatorsUpdateHeight)
              else
                let lastFork := set_To (sub64 from 1) lastFork in
                let newFork := new_fork ibftType validatorType from deployment validators maxValidatorCount minValidatorCount in
                Ret (Ok (mkConfig None (cf_validator_type ibftConfig) (Some (Some (removelast ibftForks ++ [lastFork; newFork])))))
          end
      end
  end.

Definition updateGenesisConfig (p : switchParams) : outcome (result switch_err ibft_config) :=
  appendIBFTForks (sp_genesisConfig p) (sp_ibftType p) (sp_ibftValidatorType p) (sp_from p) (sp_deployment p) (sp_ibftValidators p)
    (sp_maxValidatorCount p) (sp_minValidatorCount p).

(** The command: the parameters, then the configuration that replaces the file. *)
Definition ibft_switch (files : option (list dir_entry)) (file : option (option ibft_config)) (p : switchParams) : outcome (result switch_err ibft_config) :=
  let~ r := initRawParams files file p in
  match r with Err e => Ret (Err e) | Ok p => updateGenesisConfig p end.

(** ** What a switch leaves *)

(** Forks that cover the heights below [n], one after the other. *)
Inductive covered : list IBFTFork → Z → Prop :=
| covered_nil : covered [] 0
| covered_snoc fs f n t : covered fs n → fk_From f = n → fk_To f = Some t → n ≤ t → covered (fs ++ [f]) (t + 1).

(** Forks that cover all heights: the last one is open. *)
Definition schedule (fs : list IBFTFork) : Prop :=
  ∃ fs0 f n, fs = fs0 ++ [f] ∧ covered fs0 n ∧ fk_From f = n ∧ fk_To f = None.

(** What a fork says of its heights. *)
Definition settings (f : IBFTFork) : IBFTType * bytes * option Z * Z * option ValSet * option Z * option Z :=
  (fk_Type f, fk_ValidatorType f, fk_Deployment f, fk_From f, fk_Validators f, fk_MaxValidatorCount f, fk_MinValidatorCount f).

Lemma getFork_snoc fs f h : getFork (fs ++ [f]) h = if in_fork h f then Some f else getFork fs h.
Proof. unfold getFork. by rewrite reverse_snoc. Qed.

Lemma covered_pos fs n : covered fs n → 0 ≤ n.
Proof. induction 1; lia. Qed.

Lemma covered_getFork fs n h : covered fs n → 0 ≤ h < n → is_Some (getFork fs h).
Proof.
  induction 1 as [|fs f n t Hc IH Hf Ht Hn]; intros Hh; [lia|]. rewrite getFork_snoc. unfold in_fork. rewrite Hf, Ht.
  destruct (Z.leb_spec n h), (Z.leb_spec h t); cbn; [done|lia|apply IH; lia..].
Qed.

Lemma schedule_getFork fs h : schedule fs → 0 ≤ h → is_Some (getFork fs h).
Proof.
  intros (fs0 & f & n & -> & Hc & Hf & Ht) Hh. rewrite getFork_snoc. unfold in_fork. rewrite Hf, Ht, andb_true_r.
  destruct (Z.leb_spec n h); [done|]. eapply covered_getFork; [done|lia].
Qed.

(** Closing the last fork and opening another one at [from]. *)
Lemma schedule_extended fs0 f n from g :
  covered fs0 n → fk_From f = n → fk_To f = None → n < from → fk_From g = from → fk_To g = None →
  let fs := fs0 ++ [f] in let fs' := fs0 ++ [set_To (from - 1) f; g] in
  schedule fs' ∧ (∀ h, from ≤ h → getFork fs' h = Some g) ∧
  ∀ h, h < from → settings <$> getFork fs' h = settings <$> getFork fs h.
Proof.
  intros Hc Hf Ht Hn Hg Htg fs fs'. assert (fs' = (fs0 ++ [set_To (from - 1) f]) ++ [g]) as E by (unfold fs'; by rewrite <- app_assoc).
  split_and!.
  - exists (fs0 ++ [set_To (from - 1) f]), g, from. split; [done|]. split; [|done]. replace from with (from - 1 + 1) at 2 by lia. eapply covered_snoc; [done|done|done|lia].
  - intros h Hh. rewrite E, getFork_snoc. unfold in_fork. rewrite Hg, Htg. by destruct (Z.leb_spec from h); [|lia].
  - intros h Hh. rewrite E, getFork_snoc. unfold in_fork at 1. rewrite Hg. destruct (Z.leb_spec from h); [lia|]. cbn [andb].
    unfold fs. rewrite !getFork_snoc. unfold in_fork. cbn. rewrite Ht, andb_true_r. destruct (Z.leb_spec (fk_From f) h), (Z.leb_spec h (from - 1)); cbn; done || lia.
Qed.

Lemma ParseUint64orHex_range s n : ParseUint64orHex (Some s) = Some n → n < M64.
Proof.
  unfold ParseUint64orHex, ParseUint. destruct (HasPrefix _ _), (parse_digits _ _) as [z|]; cbn; try done; destruct (Z.ltb_spec z M64); intros; by simplify_eq.
Qed.

(** What the later parts of [initRawParams] do not touch. *)
Definition same_fork (p p' : switchParams) : Prop :=
  sp_from p' = sp_from p ∧ sp_ibftType p' = sp_ibftType p ∧ sp_ibftValidatorType p' = sp_ibftValidatorType p ∧ sp_deployment p' = sp_deployment p.

Lemma merge_into_same p v p' : merge_into p v = Ret (Ok p') → same_fork p p' ∧ is_Some (sp_ibftValidators p').
Proof. unfold merge_into. destruct (sp_ibftValidators p), v; try done. destruct (set_Merge _ _); [|done]. intros [= <-]. by repeat split. Qed.

Lemma initPoAConfig_same files p p' : initPoAConfig files p = Ret (Ok p') →
  same_fork p p' ∧ (sp_ibftType p = PoA → is_Some (sp_ibftValidators p')).
Proof.
  unfold initPoAConfig. case_bool_decide as Ht; cbn [negb]; [|intros [= <-]; by repeat split].
  set (q := set_validators _ p). assert (same_fork p q) as Hq by by repeat split.
  unfold setValidatorSetFromPrefixPath. destruct (if bool_decide (sp_ibftValidatorPrefixPath q = []) then _ else _) as [[r|]| |] eqn:E1; cbn [obind]; try done.
  assert (same_fork q r) as Hr.
  { case_bool_decide; [by injection E1 as <-|]. destruct (GetValidatorsFromPrefixPath _ _ _); [|done]. by apply merge_into_same in E1 as [? _]. }
  unfold setValidatorSetFromCli. destruct (if bool_decide (sp_ibftValidatorsRaw r = []) then _ else _) as [[u|]| |] eqn:E2; cbn [obind]; try done.
  assert (same_fork r u) as Hu.
  { case_bool_decide; [by injection E2 as <-|]. destruct (ParseValidators _ _); [|done]. by apply merge_into_same in E2 as [? _]. }
  destruct (sp_ibftValidators u) as [s|] eqn:Es; [|done]. destruct (set_Len s >? MaxSafeJSInt); [done|]. intros [= <-].
  unfold same_fork in *. split; [intuition congruence|]. intros _. by exists s.
Qed.

Lemma initPoSConfig_same p p' : initPoSConfig p = Ok p' → same_fork p p' ∧ sp_ibftValidators p' = sp_ibftValidators p.
Proof.
  unfold initPoSConfig. case_bool_decide; cbn [negb]; [|case_match; intros; by simplify_eq].
  destruct (parse_count _ _ _); [|done]. destruct (parse_count _ _ _); [|done]. destruct (validateMinMaxValidatorNumber _); [|done]. intros [= <-]. by repeat split.
Qed.

(** The parameters after [initRawParams]. *)
Lemma initRawParams_ok files file p p' : initRawParams files file p = Ret (Ok p') →
  0 < sp_from p' < M64 ∧ file = Some (sp_genesisConfig p') ∧ (sp_ibftType p' = PoA ∨ sp_ibftType p' = PoS) ∧
  (sp_ibftType p' = PoA → is_Some (sp_ibftValidators p')).
Proof.
  unfold initRawParams. destruct (initMechanismType p) as [p1|] eqn:E1; [|done]. destruct (initIBFTValidatorType p1) as [p2|] eqn:E2; [|done].
  destruct (initDeployment p2) as [p3|] eqn:E3; [|done]. destruct (initFrom p3) as [p4|] eqn:E4; [|done].
  destruct (initPoAConfig files p4) as [[p5|]| |] eqn:E5; cbn [obind]; try done. destruct (initPoSConfig p5) as [p6|] eqn:E6; [|done].
  unfold initChain. destruct file as [cc|]; [|done]. intros [= <-].
  cbn [set_genesis sp_from sp_ibftType sp_ibftValidators sp_genesisConfig].
  apply initPoAConfig_same in E5 as [(Hf5 & Ht5 & _) Hv5]. apply initPoSConfig_same in E6 as [(Hf6 & Ht6 & _) Hv6].
  assert (0 < sp_from p4 < M64 ∧ sp_ibftType p4 = sp_ibftType p3) as [Hf4 Ht4].
  { unfold initFrom in E4. destruct (ParseUint64orHex _) as [n|] eqn:En; [|done]. apply ParseUint64orHex_range in En.
    destruct (Z.leb_spec n 0); [done|]. injection E4 as <-. by cbn. }
  assert (sp_ibftType p3 = sp_ibftType p1) as Ht3.
  { trans (sp_ibftType p2); [unfold initDeployment in E3|unfold initIBFTValidatorType in E2]; repeat case_match; by simplify_eq. }
  assert (sp_ibftType p1 = PoA ∨ sp_ibftType p1 = PoS) as Ht1.
  { unfold initMechanismType, ParseIBFTType in E1. repeat case_bool_decide; cbn [orb] in E1; simplify_eq; auto. }
  rewrite Hf6, Hf5, Ht6, Ht5, Ht4, Ht3, Hv6. split; [done|]. split; [done|]. split; [done|]. intros E. apply Hv5. congruence.
Qed.

Lemma appendIBFTForks_ok cfg fs0 f n ibftType vt from d vals mx mn r :
  GetIBFTForks cfg = Ok (fs0 ++ [f]) → covered fs0 n → fk_From f = n → 0 < from < M64 →
  appendIBFTForks (Some cfg) ibftType vt from d vals mx mn = Ret r →
  match r with
  | Ok cfg' => n < from ∧ ¬ (ibftType = fk_Type f ∧ vt = fk_ValidatorType f) ∧
      GetIBFTForks cfg' = Ok (fs0 ++ [set_To (from - 1) f; new_fork ibftType vt from d vals mx mn])
  | Err e => ibftType = fk_Type f ∧ vt = fk_ValidatorType f ∨ from ≤ n ∨ ibftType = PoA ∧ is_Some vals ∧ from = 1
  end.
Proof.
  intros Hg Hc Hf Hr. unfold appendIBFTForks. rewrite Hg, last_snoc. destruct (_ && _) eqn:E1.
  { apply andb_true_iff in E1 as [H1%bool_decide_eq_true H2%bool_decide_eq_true]. intros [= <-]. by left. }
  destruct (Z.leb_spec from (fk_From f)); [intros [= <-]; right; left; lia|]. destruct (bool_decide (ibftType = PoA) && _ && _) eqn:E2.
  { apply andb_true_iff in E2 as [[H1%bool_decide_eq_true H2%bool_decide_eq_true]%andb_true_iff H3%Z.leb_le]. intros [= <-]. right; right. split; [done|]. split; [done|lia]. }
  intros [= <-]. split; [lia|]. split; [intros [-> ->]; by rewrite !bool_decide_true in E1|].
  unfold GetIBFTForks. cbn. rewrite removelast_last, sub64_ge by (unfold is_u64, M64 in *; lia). done.
Qed.

Section signers.
Context `{EthgoAbi} `{External} `{RlpReader} `{Secp256k1} `{PrecompiledCrypto} `{GoRuntime} `{MachinePool} `{LRULaws} `{FinMap Z RT}
  `{BLS} `{GoSort}.
Variables (ecdsaSecret : option PrivateKey) (blsSecret : option bls_SecretKey).

Lemma initializeKeyManagers_made forks keys keys' :
  (∀ t k, keys !! t = Some k → NewKeyManagerFromType ecdsaSecret blsSecret t = Ok k) →
  initializeKeyManagers ecdsaSecret blsSecret forks keys = Ok keys' →
  ∀ t k, keys' !! t = Some k → NewKeyManagerFromType ecdsaSecret blsSecret t = Ok k.
Proof.
  revert keys. induction forks as [|f forks IH]; intros keys Hk; cbn [initializeKeyManagers]; [by intros [= <-]|].
  destruct (keys !! fk_ValidatorType f); [by apply IH|]. destruct (NewKeyManagerFromType _ _ _) as [k|] eqn:E; [|done].
  apply IH. intros t k' [[<- <-]|[_ ?]]%lookup_insert_Some; [done|by apply Hk].
Qed.

(** The key manager of a height is made from the type of validators of its fork. *)
Lemma manager_keys epochSize cfg m h f : NewForkManager ecdsaSecret blsSecret epochSize cfg = Ok m → getFork (fm_forks m) h = Some f →
  ∃ k, NewKeyManagerFromType ecdsaSecret blsSecret (fk_ValidatorType f) = Ok k ∧ getKeyManager m h = Ok k.
Proof.
  unfold NewForkManager. destruct (GetIBFTForks cfg) as [forks|]; [|done]. destruct (initializeKeyManagers ecdsaSecret blsSecret forks ∅) as [keys|] eqn:Ek; [|done].
  intros [= <-] Hf. unfold getKeyManager. rewrite Hf. cbn [fm_forks fm_keyManagers] in *.
  destruct (initializeKeyManagers_ok _ _ _ _ _ ltac:(intros t k; by rewrite lookup_empty) Ek) as [[_ Ha] _].
  apply getFork_elem in Hf as [Hin _]. rewrite Forall_forall in Ha. destruct (Ha f Hin) as [k E]. rewrite E. exists k. split; [|done].
  eapply (initializeKeyManagers_made forks ∅); [intros t k'; by rewrite lookup_empty|done|done].
Qed.

(** C31.  Switching a chain never rewrites its past.  If the forks of a genesis file cover
    all heights, one after the other, and [ibft switch] succeeds on it, then
    the forks of the file it writes do so too; every height below [from] keeps the
    settings of its fork and, on a node with the same keys, its signer; from [from]
    on the fork is the new one, of the type asked for; and the height is greater than
    that of the last switch. *)
Theorem switch_keeps_history files file p cfg fs cfg' epochSize m m' :
  file = Some (Some cfg) → GetIBFTForks cfg = Ok fs → schedule fs → ibft_switch files file p = Ret (Ok cfg') →
  NewForkManager ecdsaSecret blsSecret epochSize cfg = Ok m → NewForkManager ecdsaSecret blsSecret epochSize cfg' = Ok m' →
  ∃ p' fs' g, initRawParams files file p = Ret (Ok p') ∧ GetIBFTForks cfg' = Ok fs' ∧ schedule fs' ∧
    (∀ f, last fs = Some f → fk_From f < sp_from p') ∧
    (∀ h, 0 ≤ h < sp_from p' → settings <$> getFork fs' h = settings <$> getFork fs h ∧ is_Some (getFork fs h) ∧ GetSigner m' h = GetSigner m h) ∧
    ∀ h, sp_from p' ≤ h → getFork fs' h = Some g ∧ fk_Type g = sp_ibftType p' ∧ fk_ValidatorType g = sp_ibftValidatorType p'.
Proof.
  intros -> Hg Hs Hrun Hm Hm'. unfold ibft_switch in Hrun. destruct (initRawParams files (Some (Some cfg)) p) as [[p'|]| |] eqn:Ep; cbn [obind] in Hrun; try done.
  destruct (initRawParams_ok _ _ _ _ Ep) as (Hfrom & [= Hgen] & _ & _). unfold updateGenesisConfig in Hrun. rewrite <- Hgen in Hrun.
  destruct Hs as (fs0 & f & n & -> & Hc & Hf & Ht).
  destruct (appendIBFTForks_ok _ _ _ _ _ _ _ _ _ _ _ _ Hg Hc Hf Hfrom Hrun) as (Hn & Hne & Hg').
  set (g := new_fork _ _ _ _ _ _ _) in *. assert (fk_From g = sp_from p' ∧ fk_To g = None ∧ fk_Type g = sp_ibftType p' ∧ fk_ValidatorType g = sp_ibftValidatorType p')
    as (Hg1 & Hg2 & Hg3 & Hg4) by (unfold g, new_fork; repeat case_bool_decide; done).
  destruct (schedule_extended fs0 f n (sp_from p') g Hc Hf Ht Hn Hg1 Hg2) as (Hs' & Hnew & Hold).
  exists p', (fs0 ++ [set_To (sp_from p' - 1) f; g]), g. split; [done|]. split; [done|]. split; [done|]. split; [|split; [|by auto]].
  { intros f'. rewrite last_snoc. intros [= <-]. lia. }
  assert (schedule (fs0 ++ [f])) as Hsch by (by exists fs0, f, n).
  assert (∀ h, 0 ≤ h < sp_from p' → getKeyManager m' h = getKeyManager m h) as Hkey.
  { intros h Hh. destruct (schedule_getFork _ h Hsch ltac:(lia)) as [x Hx]. specialize (Hold h ltac:(lia)). rewrite Hx in Hold.
    destruct (getFork _ h) as [y|] eqn:Hy in Hold; [|done]. cbn in Hold. injection Hold as _ Hv _ _ _ _ _.
    assert (fm_forks m = fs0 ++ [f] ∧ fm_forks m' = fs0 ++ [set_To (sp_from p' - 1) f; g]) as [Em Em'].
    { unfold NewForkManager in Hm, Hm'. rewrite Hg in Hm. rewrite Hg' in Hm'. repeat case_match; by simplify_eq. }
    destruct (manager_keys _ _ _ h x Hm ltac:(by rewrite Em)) as (k & E1 & ->).
    destruct (manager_keys _ _ _ h y Hm' ltac:(by rewrite Em')) as (k' & E2 & ->). congruence. }
  intros h Hh. split; [apply Hold; lia|]. split; [by apply schedule_getFork; [|lia]|]. unfold GetSigner. rewrite (Hkey h Hh).
  destruct (getKeyManager m h); [|done]. rewrite Z.gtb_ltb. destruct (Z.ltb_spec 1 h); [|done]. rewrite sub64_ge by (unfold is_u64, M64 in *; lia). rewrite Hkey by lia. done.
Qed.
End signers.

(** *** A switch to nobody *)

(** A switch to proof of authority without validators appends a fork with an empty
    set, since the set of the parameters is never nil then, and not a fork that
    keeps the validators: at its height the set is replaced by one from which
    no proposer can be taken. *)
Lemma switch_to_nobody :
  let old := mkFork PoS ECDSAValidatorType None 0 None None None None in
  let new := mkFork PoA ECDSAValidatorType None 100 None (Some (mkSet ECDSAValidatorType [])) None None in
  ibft_switch (Some []) (Some (Some (mkConfig (Some PoS) (Some ECDSAValidatorType) None)))
    (raw_params PoA [] (str "100") ECDSAValidatorType [] [] [] []) = Ret (Ok (mkConfig None (Some ECDSAValidatorType) (Some (Some [set_To 99 old; new])))) ∧
  pa_updateValidatorsForks (NewPoAHookRegisterer [set_To 99 old; new]) !! 100 = Some new ∧
  ∀ round last, CalcProposer (mkSet ECDSAValidatorType []) round last = Panic.
Proof. split; [by vm_compute|]. split; [by vm_compute|]. done. Qed.

(** ** The service of operators *)

Inductive op_err :=
| ErrVotingNotSupported
| ErrOpHeaderNotFound
| ErrBLSKeyRequired
| ErrBLSKey
| ErrInvalidType
| ErrOpFork (e : fork_err)
| ErrOpStore (e : snap_err).

(** [proto.Candidate]; a key may be nil. *)
Record candidate_req := mkReq {
  rq_Address : bytes;
  rq_BlsPubkey : option bytes;
  rq_Auth : bool;
}.

Record snapshot_resp := mkResp {
  rs_Number : Z;
  rs_Hash : bytes;
  rs_Validators : list (bytes * bytes * bytes);
  rs_Votes : list (bytes * bytes * bool);
}.

Section operator.
Context `{EthgoAbi} `{External} `{RlpReader} `{Secp256k1} `{PrecompiledCrypto} `{GoRuntime} `{MachinePool} `{LRU} `{FinMap Z RT}
  `{BLS} `{GoSort}.
Variable blockchain : HeaderGetter.
Variable executor : Executor (RT:=RT).

Definition getLatestSigner (i : backendIBFT (RT:=RT)) : result op_err SignerImpl :=
  match ib_current i with
  | Some m => Ok (md_signer m)
  | None => match GetSigner (ib_forkManager i) (hd_Number (hg_Header blockchain)) with Ok s => Ok s | Err e => Err (ErrOpFork e) end
  end.

Definition op_Status (i : backendIBFT (RT:=RT)) : result op_err bytes :=
  let? signer := getLatestSigner i in Ok (checksumEncode (sg_Address signer)).

(** The store of the snapshots is the one that votes. *)
Definition getVotableValidatorStore (i : backendIBFT (RT:=RT)) : result op_err SnapshotValidatorStore :=
  match GetValidatorStore (ib_forkManager i) (hd_Number (hg_Header blockchain)) with
  | Err e => Err (ErrOpFork e)
  | Ok SourceContract => Err ErrVotingNotSupported
  | Ok SourceSnapshot => match fm_snapshotStore (ib_forkManager i) with Some s => Ok s | None => Err ErrVotingNotSupported end
  end.

Definition parseCandidate (req : candidate_req) (i : backendIBFT (RT:=RT)) : result op_err Validator :=
  let? signer := getLatestSigner i in
  if bool_decide (sg_Type signer = ECDSAValidatorType) then Ok (ECDSAValidator (StringToAddress (rq_Address req)))
  else if bool_decide (sg_Type signer = BLSValidatorType) then
    let? _ :=
      if rq_Auth req then
        match rq_BlsPubkey req with
        | None => Err ErrBLSKeyRequired
        | Some k => match pk_UnmarshalBinary k with None => Err ErrBLSKey | Some _ => Ok () end
        end
      else Ok () in
    Ok (BLSValidator (StringToAddress (rq_Address req)) (default [] (rq_BlsPubkey req)))
  else Err ErrInvalidType.

Definition op_Propose (req : candidate_req) (i : backendIBFT (RT:=RT)) : outcome (result op_err () * backendIBFT (RT:=RT)) :=
  match (let? votableSet := getVotableValidatorStore i in let? candidate := parseCandidate req i in Ok (votableSet, candidate)) with
  | Err e => Ret (Err e, i)
  | Ok (votableSet, candidate) =>
      let~ m := current i in
      let~ (r, votableSet) := Propose candidate (rq_Auth req) (sg_Address (md_signer m)) votableSet in
      Ret (match r with Err e => Err (ErrOpStore e) | Ok _ => Ok () end, set_forkManager (set_snapshotStore votableSet (ib_forkManager i)) i)
  end.

Definition candidatesToProtoCandidates (candidates : list Candidate) : list candidate_req :=
  (λ c, mkReq (checksumEncode (v_Addr (cd_Validator c)))
          (match cd_Validator c with BLSValidator _ k => Some k | ECDSAValidator _ => None end) (cd_Authorize c)) <$> candidates.

Definition op_Candidates (i : backendIBFT (RT:=RT)) : result op_err (list candidate_req) :=
  let? votableValSet := getVotableValidatorStore i in Ok (candidatesToProtoCandidates (sv_candidates votableValSet)).

Definition validatorsToProtoValidators (validators : ValSet) : list (bytes * bytes * bytes) :=
  (λ v, (v_Type v, checksumEncode (v_Addr v), v_Bytes v)) <$> vs_Validators validators.
Definition votesToProtoVotes (votes : list Vote) : list (bytes * bytes * bool) :=
  (λ v, (checksumEncode (vt_Validator v), v_String (vt_Candidate v), vt_Authorize v)) <$> votes.

(** Nothing if the store does not vote. *)
Definition getVotes (validatorStore : SourceType) (height : Z) (fm : ForkManager) : result op_err (option (list Vote)) :=
  match validatorStore, fm_snapshotStore fm with
  | SourceSnapshot, Some s => match Votes height s with Ok v => Ok (Some v) | Err e => Err (ErrOpStore e) end
  | _, _ => Ok None
  end.

(** A request without a number is for the latest. *)
Definition op_GetSnapshot (number : option Z) (i : backendIBFT (RT:=RT)) : outcome (result op_err snapshot_resp * backendIBFT (RT:=RT)) :=
  let height := default (hd_Number (hg_Header blockchain)) number in
  match hg_GetHeaderByNumber blockchain height with
  | None => Ret (Err ErrOpHeaderNotFound, i)
  | Some header =>
      match GetValidatorStore (ib_forkManager i) height with
      | Err e => Ret (Err (ErrOpFork e), i)
      | Ok validatorsStore =>
          let~ (r, fm) := GetValidators blockchain executor height (ib_forkManager i) in
          let i := set_forkManager fm i in
          Ret (match r with
               | Err e => Err (ErrOpFork e)
               | Ok validators =>
                   let? votes := getVotes validatorsStore height fm in
                   Ok (mkResp height (hash_String (hd_Hash header)) (validatorsToProtoValidators validators)
                         (match votes with Some votes => votesToProtoVotes votes | None => [] end))
               end, i)
      end
  end.

(** The validators of a response are those of the snapshot before the block and the
    votes those after it; before block 0 the height wraps around, and the validators
    are those of the newest snapshot. *)
Lemma snapshot_mixes_heights height f s i resp i' :
  getFork (fm_forks (ib_forkManager i)) height = Some f → fk_Type f = PoA → fm_snapshotStore (ib_forkManager i) = Some s →
  op_GetSnapshot (Some height) i = Ret (Ok resp, i') →
  ∃ sn sn', getSnapshot (sub64 height 1) s = Some sn ∧ getSnapshot height s = Some sn' ∧
    rs_Validators resp = validatorsToProtoValidators (sn_Set sn) ∧ rs_Votes resp = votesToProtoVotes (sn_Votes sn').
Proof.
  intros Hf Ht Hs. unfold op_GetSnapshot, GetValidatorStore, GetValidators. change (default _ (Some height)) with height. cbv zeta. destruct (hg_GetHeaderByNumber blockchain height) as [header|]; [|done].
  rewrite Hf. unfold getValidatorStoreByIBFTFork. rewrite Ht. change (ibftTypesToSourceType PoA) with (Some SourceSnapshot). rewrite Hs. cbn [fmap option_fmap option_map obind].
  unfold snapshot_GetValidators, Snapshot.GetValidatorsByHeight. destruct (getSnapshot (sub64 height 1) s) as [sn|]; [|done].
  unfold getVotes. rewrite Hs. unfold Votes. destruct (getSnapshot height s) as [sn'|]; [|done]. intros [= <- _]. by exists sn, sn'.
Qed.

(** *** From a proposal to a vote *)

Context `{!RlpLaws}.

Lemma hex_DecodeString_bytes s : Forall byte_range (hex_DecodeString s).1.
Proof.
  assert (∀ c x, fromHexChar c = Some x → 0 ≤ x < 16) as Hd.
  { intros c x. unfold fromHexChar. repeat case_match; intros [= <-]; lia. }
  remember (length s) as n eqn:E. revert s E. induction n as [n IH] using lt_wf_ind. intros s ->.
  destruct s as [|c [|d s]]; cbn; [constructor..|]. destruct (fromHexChar c) as [x|] eqn:Ex; [|constructor]. destruct (fromHexChar d) as [y|] eqn:Ey; [|constructor].
  specialize (IH (length s) ltac:(cbn; lia) s eq_refl). destruct (hex_DecodeString s) as [b ok]. cbn in *. constructor; [|done].
  pose proof (Hd _ _ Ex). pose proof (Hd _ _ Ey). unfold byte_range. lia.
Qed.

Lemma StringToAddress_ok s : addr_ok (StringToAddress s).
Proof.
  unfold addr_ok, StringToAddress, BytesToAddress. set (b := stringToBytes s).
  assert (Forall byte_range b) as Hb by apply hex_DecodeString_bytes.
  pose proof (SetBytes_range (drop (length b - AddressLength) b) (Forall_drop _ _ _ Hb)) as Hr. rewrite length_drop in Hr. split; [lia|].
  eapply Z.lt_le_trans; [apply Hr|]. apply Z.pow_le_mono_r; [lia|]. unfold AddressLength. lia.
Qed.

Lemma miner_roundtrip v : addr_ok (v_Addr v) → minerToValidator (v_Type v) (validatorToMiner v) = Ok v.
Proof.
  intros Ha. unfold minerToValidator. destruct v as [a|a k].
  - change (NewValidatorFromType (v_Type (ECDSAValidator a))) with (Ok (E:=val_err) (ECDSAValidator 0)). cbn [validatorToMiner]. by rewrite BytesToAddress_id.
  - change (NewValidatorFromType (v_Type (BLSValidator a k))) with (Ok (E:=val_err) (BLSValidator 0 [])). cbn [validatorToMiner].
    by rewrite v_SetFromBytes_Bytes.
Qed.

(** What a proposal adds. *)
Lemma Propose_adds candidate auth proposer s s' : Propose candidate auth proposer s = Ret (Ok (), s') →
  ∃ v, s' = set_candidates (sv_candidates s ++ [mkCandidate v auth]) s ∧ v_Addr v = v_Addr candidate ∧ (auth = true → v = candidate).
Proof.
  unfold Propose. destruct (existsb _ _); [done|]. destruct (getLatestSnapshot s) as [snap|]; [|done].
  destruct (auth && _); [done|]. destruct (negb auth && _); [done|]. destruct (_ =? 1); [done|].
  unfold addCandidate. destruct auth; [intros [= <-]; by exists candidate|].
  destruct (set_Index_spec (sn_Set snap) (v_Addr candidate)) as [[-> ?]|(k & v & -> & Hk & Hv & _)]; [done|].
  destruct (Z.eqb_spec (Z.of_nat k) (-1)); [lia|]. unfold set_At. rewrite Nat2Z.id, Hk. cbn [obind]. intros [= <-]. by exists v.
Qed.

(** A candidate that the proposer should still vote on: the set does not have it
    that way yet, and the proposer has not voted. *)
Definition pending (sn : Snapshot) (proposer : Address) (c : Candidate) : Prop :=
  cd_Authorize c ≠ set_Includes (sn_Set sn) (v_Addr (cd_Validator c)) ∧
  snap_Count (λ v, (v_Addr (vt_Candidate v) =? v_Addr (cd_Validator c)) && (vt_Validator v =? proposer)) sn = 0.

Lemma next_candidate sn proposer s pre c : sv_candidates s = pre ++ [c] → pending sn proposer c → Forall (λ d, ¬ pending sn proposer d) pre →
  (getNextCandidate sn proposer s).1 = Some c.
Proof.
  intros Es [Hc1 Hc2] Hpre. unfold getNextCandidate, pickOneCandidate, cleanObsoleteCandidates. cbn. rewrite Es. clear Es.
  induction pre as [|d pre IH]; cbn [app].
  - rewrite filter_cons_True by done. cbn. by rewrite Hc2.
  - apply Forall_cons in Hpre as [Hd Hpre]. destruct (decide (cd_Authorize d ≠ set_Includes (sn_Set sn) (v_Addr (cd_Validator d)))) as [H1'|H1'].
    + rewrite filter_cons_True by done. cbn. destruct (Z.eqb_spec (snap_Count (λ v, (v_Addr (vt_Candidate v) =? v_Addr (cd_Validator d)) && (vt_Validator v =? proposer)) sn) 0) as [E|];
        [by destruct Hd|by apply IH].
    + rewrite filter_cons_False by done. by apply IH.
Qed.

(** A vote that is still wanted is counted. *)
Lemma vote_is_counted sn header c proposer : snap_ok sn → proposer ∈ addrs (sn_Set sn) → pending sn proposer c →
  vs_Type (sn_Set sn) = v_Type (cd_Validator c) → addr_ok (v_Addr (cd_Validator c)) →
  hd_Miner header = validatorToMiner (cd_Validator c) → hd_Nonce header = (if cd_Authorize c then nonceAuthVote else nonceDropVote) →
  ∃ sn', processVote sn header (vs_Type (sn_Set sn)) proposer = Ok sn' ∧ snap_ok sn' ∧
         poll_of sn' = cast proposer (cd_Validator c) (cd_Authorize c) (poll_of sn).
Proof.
  intros Hs Hp [Hw _] Ht Ha Hm Hn. destruct c as [v add]. cbn in *.
  assert (isAuthorize (hd_Nonce header) = Ok add) as Eadd by (rewrite Hn; by destruct add).
  assert (minerToValidator (vs_Type (sn_Set sn)) (hd_Miner header) = Ok v) as Ev by (rewrite Hm, Ht; by apply miner_roundtrip).
  assert (∃ sn', processVote sn header (vs_Type (sn_Set sn)) proposer = Ok sn') as [sn' E].
  { rewrite processVote_unfold by apply Hs. rewrite Eadd, Ev. unfold shouldProcessVote. destruct (negb (negb _)); [by eexists|].
    destruct (cast_once_ok proposer v add sn Hs Hp) as (_ & Eset & _). unfold tally. rewrite Eset. destruct (_ >? _); [|by eexists].
    unfold addsOrDelsCandidate, set_Add, set_Del. rewrite bool_decide_true by done. cbn [negb]. destruct add.
    - destruct (set_Includes (sn_Set sn) (v_Addr v)); [done|by eexists].
    - unfold set_Includes in Hw. destruct (set_Index (sn_Set sn) (v_Addr v) =? -1); [done|by eexists]. }
  exists sn'. split; [done|]. destruct (processVote_ok _ _ _ _ _ Hs Hp E) as (c & a & Ea & Ec & Hok & Epoll).
  rewrite Eadd in Ea. rewrite Ev in Ec. by simplify_eq.
Qed.

End operator.
