(* ===== verification/IbftBuild.v ===== *)
(** The blocks of IBFT ([consensus_backend.go], [IsValidBlock] of [verifier.go],
    [consensus/utils.go]): how a proposer builds one, how a validator judges it and
    how it is inserted once it has its seals.

    The transaction pool is an interface, the class [SealingPool]; [TxPool]
    implements it.  A [time.Time] is its number of nanoseconds since the year 1.
    The deadline of the transactions passes after [turns] turns of their loop.  The
    chain is the [Blockchain] of another file, whose verifier and executor are
    ours ([ibft_deps]); what [Snapshot.Commit] of the state gives for the objects
    of a block is the argument [commitSnapshot]. *)
From stdpp Require Import strings.
From S2P Require Import Prelude GoHeap Types Runtime Crypto EvmState EvmInstr EvmRun TxAccount Intrinsic StateTxn Bloom Blake2f Precompiled Signer Rlp RlpTypes ChainStorage Trie BuildRoot Blockchain Text Validators Snapshot IbftSigner Executor Staking ContractStore IbftFork Ibft.

(** ** Time *)

Definition unixToInternal : Z := 62135596800.
Definition second : Z := 10 ^ 9.
Definition time_of_Unix (sec : Z) : Z := (sec + unixToInternal) * second.
Definition Unix (t : Z) : Z := t / second - unixToInternal.

(** [Time.Round]: to the nearest multiple, up from the middle. *)
Definition time_Round (t d : Z) : Z :=
  if d <=? 0 then t
  else let r := t mod d in if r + r <? d then t - r else t + (d - r).

Definition roundUpTime (t roundOn : Z) : Z := time_Round (t + Z.quot roundOn 2) roundOn.

Definition calcHeaderTimestamp (blockTime parentUnix currentTime : Z) : Z :=
  let parentTimestamp := time_of_Unix (s64 parentUnix) in
  let potentialTimestamp := parentTimestamp + blockTime in
  if potentialTimestamp <? currentTime then roundUpTime currentTime blockTime else potentialTimestamp.

(** ** The pool *)

(** [None] is a nil pointer that is dereferenced. *)
Class SealingPool := {
  txpool : Type;
  txpool_Prepare : txpool → txpool;
  txpool_Peek : txpool → option Transaction * txpool;
  txpool_Pop : Transaction → txpool → option txpool;
  txpool_Drop : Transaction → txpool → option txpool;
  txpool_Demote : Transaction → txpool → option txpool;
}.

Inductive status := success | fail | skip.

(** ** Headers *)

Definition set_Timestamp (t : Z) (h : Header) : Header :=
  mkHeader (hd_ParentHash h) (hd_Sha3Uncles h) (hd_Miner h) (hd_StateRoot h) (hd_TxRoot h) (hd_ReceiptsRoot h) (hd_LogsBloom h)
    (hd_Difficulty h) (hd_Number h) (hd_GasLimit h) (hd_GasUsed h) t (hd_ExtraData h) (hd_MixHash h) (hd_Nonce h) (hd_Hash h).
Definition set_executed (root : Hash) (gasUsed : Z) (h : Header) : Header :=
  mkHeader (hd_ParentHash h) (hd_Sha3Uncles h) (hd_Miner h) root (hd_TxRoot h) (hd_ReceiptsRoot h) (hd_LogsBloom h)
    (hd_Difficulty h) (hd_Number h) (hd_GasLimit h) gasUsed (hd_Timestamp h) (hd_ExtraData h) (hd_MixHash h) (hd_Nonce h) (hd_Hash h).
Definition set_roots (txRoot receiptsRoot uncles : Hash) (h : Header) : Header :=
  mkHeader (hd_ParentHash h) uncles (hd_Miner h) (hd_StateRoot h) txRoot receiptsRoot (hd_LogsBloom h)
    (hd_Difficulty h) (hd_Number h) (hd_GasLimit h) (hd_GasUsed h) (hd_Timestamp h) (hd_ExtraData h) (hd_MixHash h) (hd_Nonce h) (hd_Hash h).

(** The header that [buildBlock] starts from, with its gas limit. *)
Definition newHeader (parent : Header) (gasLimit : Z) : Header :=
  mkHeader (hd_Hash parent) EmptyUncleHash (AddressBytes ZeroAddress) EmptyRootHash ZeroHash ZeroHash emptyBloom
    (add64 (hd_Number parent) 1) (add64 (hd_Number parent) 1) gasLimit 0 0 [] IstanbulDigest (zeros 8) ZeroHash.

Inductive build_err :=
| ErrGasLimitOf
| ErrModifyHeader (e : snap_err)
| ErrIbft (e : ibft_err)
| ErrBegin (e : applyErr)
| ErrProposerSeal (e : sign_err).

Section build.
Context `{EthgoAbi} `{External} `{RlpReader} `{Secp256k1} `{PrecompiledCrypto} `{GoRuntime} `{MachinePool} `{LRU} `{FinMap Z RT}
  `{BLS} `{GoSort} `{SealingPool}.

(** ** Transactions *)

(** A nil pointer of the pool panics. *)
Definition pool_do (p : option txpool) : outcome txpool := match p with Some p => Ret p | None => Panic end.

Definition writeTransaction (tx : option Transaction) (gasLimit : Z) (transition : Transition (RT:=RT)) (pool : txpool)
    : outcome (option (Transaction * status) * Transition (RT:=RT) * txpool) :=
  match tx with
  | None => Ret (None, transition, pool)
  | Some tx =>
      if ExceedsBlockGasLimit tx gasLimit then
        let~ pool := pool_do (txpool_Drop tx pool) in
        let~ (_, transition) := WriteFailedReceipt tx transition in
        Ret (Some (tx, fail), transition, pool)
      else
        let~ (r, transition) := Write tx transition in
        match r with
        | Err err =>
            if ae_GasLimitReached err then Ret (None, transition, pool)
            else if ae_IsRecoverable err then
              let~ pool := pool_do (txpool_Demote tx pool) in Ret (Some (tx, skip), transition, pool)
            else
              let~ pool := pool_do (txpool_Drop tx pool) in Ret (Some (tx, fail), transition, pool)
        | Ok _ =>
            let~ pool := pool_do (txpool_Pop tx pool) in Ret (Some (tx, success), transition, pool)
        end
  end.

(** The loop of [writeTransactions]. *)
Fixpoint write_loop (turns : nat) (gasLimit : Z) (executed : list Transaction) (transition : Transition (RT:=RT)) (pool : txpool)
    : outcome (list Transaction * Transition (RT:=RT) * txpool) :=
  match turns with
  | O => Ret (executed, transition, pool)
  | S turns =>
      let '(tx, pool) := txpool_Peek pool in
      let~ (r, transition, pool) := writeTransaction tx gasLimit transition pool in
      match r with
      | None => Ret (executed, transition, pool)
      | Some (tx, success) => write_loop turns gasLimit (executed ++ [tx]) transition pool
      | Some (_, _) => write_loop turns gasLimit executed transition pool
      end
  end.

Definition writeTransactions (turns : nat) (hooks : Hooks (RT:=RT)) (gasLimit blockNumber : Z) (transition : Transition (RT:=RT)) (pool : txpool)
    : outcome (list Transaction * Transition (RT:=RT) * txpool) :=
  let~ should := hook_ShouldWriteTransactions hooks blockNumber in
  if negb should then Ret ([], transition, pool)
  else write_loop turns gasLimit [] transition (txpool_Prepare pool).

(** ** Blocks *)

(** [Header.ComputeHash] with the hash that IBFT installs. *)
Definition ibft_ComputeHash (fm : ForkManager) (h : Header) : outcome Header :=
  let~ hash := ibft_HeaderHash fm h in Ret (set_hd_Hash hash h).

(** [consensus.BuildBlock]. *)
Definition BuildBlock (fm : ForkManager) (header : Header) (txs : list Transaction) (receipts : list Receipt) : outcome Block :=
  let~ txRoot := (if (length txs =? 0)%nat then Ret EmptyRootHash else CalculateTransactionsRoot txs) in
  let~ receiptsRoot := (if (length receipts =? 0)%nat then Ret EmptyRootHash else CalculateReceiptsRoot receipts) in
  let~ header := ibft_ComputeHash fm (set_roots txRoot receiptsRoot EmptyUncleHash header) in
  Ret (mkBlock header txs []).

Variable blockchain : HeaderGetter.
Variable executor : Executor (RT:=RT).
Variable commitSnapshot : readSnapshot (RT:=RT) → RT Object → Hash.

(** [Transition.Commit], as far as the root. *)
Definition commitRoot (t : Transition (RT:=RT)) : Hash := commitSnapshot (snapshot (t_state t)) (Transition_Commit t).1.

(** The hook that modifies the header, on the store of the snapshots. *)
Definition modifyHeader (hooks : Hooks (RT:=RT)) (header : Header) (proposer : Address) (i : backendIBFT (RT:=RT))
    : outcome (result build_err Header * backendIBFT (RT:=RT)) :=
  match ModifyHeaderFunc hooks with
  | None => Ret (Ok header, i)
  | Some f =>
      match fm_snapshotStore (ib_forkManager i) with
      | None => Panic
      | Some s =>
          let '(r, s) := f header proposer s in
          Ret (match r with Ok h => Ok h | Err e => Err (ErrModifyHeader e) end,
               set_forkManager (set_snapshotStore s (ib_forkManager i)) i)
      end
  end.

(** [buildBlock]; [gasLimit] is what [CalculateGasLimit] gives for the number. *)
Definition buildBlock (gasLimit : option Z) (turns : nat) (now : Z) (parent : Header) (i : backendIBFT (RT:=RT)) (pool : txpool)
    : outcome (result build_err Block * backendIBFT (RT:=RT) * txpool) :=
  match gasLimit with
  | None => Ret (Err ErrGasLimitOf, i, pool)
  | Some gasLimit =>
      let~ m := current i in
      let signer := md_signer m in
      let header := newHeader parent gasLimit in
      let~ (r, i) := modifyHeader (md_hooks m) header (sg_Address signer) i in
      match r with
      | Err e => Ret (Err e, i, pool)
      | Ok header =>
          let potentialTimestamp := calcHeaderTimestamp (ib_blockTime i) (hd_Timestamp parent) now in
          let header := set_Timestamp (u64 (Unix potentialTimestamp)) header in
          let~ r := extractParentCommittedSeals parent i in
          match r with
          | Err e => Ret (Err (ErrIbft e), i, pool)
          | Ok parentCommittedSeals =>
              let header := initIbftExtra signer header (md_validators m) parentCommittedSeals in
              match BeginTxn executor (hd_StateRoot parent) header (sg_Address signer) with
              | Err e => Ret (Err (ErrBegin e), i, pool)
              | Ok transition =>
                  let~ (txs, transition, pool) := writeTransactions turns (md_hooks m) gasLimit (hd_Number header) transition pool in
                  let~ r := ibft_PreCommitState blockchain header transition i in
                  match r with
                  | Err e => Ret (Err (ErrIbft e), i, pool)
                  | Ok transition =>
                      let header := set_executed (commitRoot transition) (t_totalGas transition) header in
                      let~ block := BuildBlock (ib_forkManager i) header txs (t_receipts transition) in
                      let~ r := WriteProposerSeal signer (bk_Header block) in
                      match r with
                      | Err e => Ret (Err (ErrProposerSeal e), i, pool)
                      | Ok header =>
                          let~ header := ibft_ComputeHash (ib_forkManager i) header in
                          Ret (Ok (mkBlock header txs []), i, pool)
                      end
                  end
              end
          end
      end
  end.

(** ** The chain *)

Variable txSigner : Transaction → outcome (result ibft_err Address).

Inductive ibft_dep_err :=
| DepIbft (e : ibft_err)
| DepExecutor (e : TransitionApplicationError).

Definition dep_result {A} (r : result ibft_err A) : result ibft_dep_err A := match r with Ok x => Ok x | Err e => Err (DepIbft e) end.

(** The consensus engine and the executor as the chain calls them. *)
Definition ibft_deps : ChainDeps := {|
  dep_state := backendIBFT (RT:=RT);
  Blockchain.transition := Transition (RT:=RT);
  dep_err := ibft_dep_err;
  VerifyHeader h i := let~ (r, i) := ibft_VerifyHeader blockchain executor h i in Ret (dep_result r, i);
  ProcessHeaders hs i := let~ (r, i) := ibft_ProcessHeaders blockchain hs i in Ret (dep_result r, i);
  GetBlockCreator h i := let~ r := ibft_GetBlockCreator h i in Ret (dep_result r, i);
  PreCommitState h t i := let~ r := ibft_PreCommitState blockchain h t i in Ret (dep_result r, i);
  executor_ProcessBlock root block creator i :=
    let~ r := ProcessBlock executor root block creator in
    Ret (match r with Ok t => Ok t | Err e => Err (DepExecutor e) end, i);
  tr_Commit t i := Ret (commitRoot t, i);
  tr_Receipts := t_receipts;
  tr_TotalGas := t_totalGas;
  signer_Sender tx := let~ r := txSigner tx in Ret (dep_result r);
|}.

Definition Chain : Type := Blockchain (H2 := ibft_deps).

(** [types.HeaderHash], as decoding a header and the chain call it, and the gas
    target of the configuration. *)
Variable HeaderHash : Header → Hash.
Variable blockGasTarget : Z.

(** [CalculateGasLimit] of the chain, as [buildBlock] calls it. *)
Definition chain_gasLimit (number : Z) (b : Chain) : option Z :=
  match (CalculateGasLimit HeaderHash blockGasTarget number b).1 with Ok l => Some l | Err _ => None end.

(** [BuildProposal]; a nil proposal is [None]. *)
Definition BuildProposal (turns : nat) (now blockNumber : Z) (b : Chain) (pool : txpool)
    : outcome (option bytes * backendIBFT (RT:=RT) * txpool) :=
  match chain_Header b with
  | None => Panic
  | Some latestHeader =>
      if negb (add64 (hd_Number latestHeader) 1 =? blockNumber) then Ret (None, bc_deps b, pool)
      else
        let~ (r, i, pool) := buildBlock (chain_gasLimit (add64 (hd_Number latestHeader) 1) b) turns now latestHeader (bc_deps b) pool in
        Ret (match r with Ok block => Some (bk_MarshalRLP block) | Err _ => None end, i, pool)
  end.

(** [IsValidBlock] of the block that a proposal holds. *)
Definition judgeBlock (latestHeader : Header) (newBlock : Block) (b : Chain) : outcome (bool * Chain) :=
  if negb (add64 (hd_Number latestHeader) 1 =? hd_Number (bk_Header newBlock)) then Ret (false, b)
  else
    let~ m := current (bc_deps b) in
    let~ (r, i) := verifyHeaderImpl blockchain executor latestHeader (bk_Header newBlock) m true (bc_deps b) in
    let b := set_deps (H2 := ibft_deps) i b in
    match r with
    | Err _ => Ret (false, b)
    | Ok _ =>
        let~ (r, b) := VerifyPotentialBlock HeaderHash (Some newBlock) b in
        match r with
        | Err _ => Ret (false, b)
        | Ok _ =>
            let~ r := hook_VerifyBlock (md_hooks m) newBlock in
            Ret (match r with Ok _ => true | Err _ => false end, b)
        end
    end.

Definition IsValidBlock (proposal : bytes) (b : Chain) : outcome (bool * Chain) :=
  match chain_Header b with
  | None => Panic
  | Some latestHeader =>
      match bk_UnmarshalRLP HeaderHash proposal with
      | None => Ret (false, b)
      | Some newBlock => judgeBlock latestHeader newBlock b
      end
  end.

(** The map of the seals of [InsertBlock], in the order of their signers' first
    seals; a later seal of a signer replaces the earlier one. *)
Fixpoint put_seal (a : Address) (sig : bytes) (m : list (Address * bytes)) : list (Address * bytes) :=
  match m with
  | [] => [(a, sig)]
  | (b, s) :: m => if a =? b then (b, sig) :: m else (b, s) :: put_seal a sig m
  end.

Definition committedSealsMap (seals : list CommittedSeal) : list (Address * bytes) :=
  foldl (λ m cm, put_seal (BytesToAddress (sl_Signer cm)) (sl_Signature cm) m) [] seals.

(** [InsertBlock] as far as the pool's reset; [false] is an error that it logs. *)
Definition InsertBlock (proposal : bytes) (committedSeals : list CommittedSeal) (b : Chain)
    : outcome (bool * Chain) :=
  match bk_UnmarshalRLP HeaderHash proposal with
  | None => Ret (false, b)
  | Some newBlock =>
      let~ m := current (bc_deps b) in
      let~ r := WriteCommittedSeals (md_signer m) (bk_Header newBlock) (committedSealsMap committedSeals) in
      match r with
      | Err _ => Ret (false, b)
      | Ok header =>
          let~ (r, i) := ValidateExtraDataFormat blockchain executor header (bc_deps b) in
          let b := set_deps (H2 := ibft_deps) i b in
          match r with
          | Err _ => Ret (false, b)
          | Ok _ =>
              let newBlock := mkBlock header (bk_Transactions newBlock) (bk_Uncles newBlock) in
              let~ (r, b) := chain_WriteBlock HeaderHash newBlock (str "consensus") b in
              match r with
              | Err _ => Ret (false, b)
              | Ok _ =>
                  match PostInsertBlockFunc (md_hooks m) with
                  | None => Ret (true, b)
                  | Some f =>
                      let~ (r, i) := on_snapshots (λ s, Ret (f newBlock s)) (bc_deps b) in
                      Ret (match r with Ok _ => true | Err _ => false end, set_deps (H2 := ibft_deps) i b)
                  end
              end
          end
      end
  end.
End build.
