(* ===== verification/ExecutorFrame.v ===== *)
(** What a transaction does, does not depend on the snapshots left by the
    transactions before it, nor on the gas in the block's pool as long as there is
    enough: a transaction that a transition writes is written by every transition
    with the same state and at least as much gas, with the same outcome.

    The interpreter does not look into its host: if every method of two hosts
    commutes with a map [φ] of their states, where [P] holds, so does [EVM.Run]. *)
From S2P Require Import Prelude Types Runtime Crypto EvmState EvmInstr EvmRun TxAccount Intrinsic StateTxn Bloom Blake2f Precompiled Signer Executor EvmWord EvmMemory EvmLogic EvmSafe EvmMeta.

(** ** The interpreter *)

Section frame.
Context `{External} `{GoRuntime} {HS HS' : Type} `{HA : Host HS} `{HB : Host HS'}.
Variable φ : HS → HS'.
Variable P : HS → Prop.

(** The results of a computation with the state changed. *)
Definition through {A} (o : outcome (A * HS)) : outcome (A * HS') :=
  match o with Ret (a, h) => Ret (a, φ h) | Panic => Panic | NoFuel => NoFuel end.

Definition kept {A} (o : outcome (A * HS)) : Prop := match o with Ret (_, h) => P h | _ => True end.

(** The hosts commute with [φ], and keep [P]. *)
Class HostNatural : Prop := {
  n_AccountExists a h : h_AccountExists a (φ h) = h_AccountExists a h;
  n_GetStorage a k h : h_GetStorage a k (φ h) = h_GetStorage a k h;
  n_SetStorage a k v cfg h : P h →
    h_SetStorage a k v cfg (φ h) = ((h_SetStorage a k v cfg h).1, φ (h_SetStorage a k v cfg h).2) ∧ P (h_SetStorage a k v cfg h).2;
  n_GetBalance a h : h_GetBalance a (φ h) = h_GetBalance a h;
  n_GetCodeSize a h : P h → h_GetCodeSize a (φ h) = ((h_GetCodeSize a h).1, φ (h_GetCodeSize a h).2) ∧ P (h_GetCodeSize a h).2;
  n_GetCodeHash a h : h_GetCodeHash a (φ h) = h_GetCodeHash a h;
  n_GetCode a h : P h → h_GetCode a (φ h) = ((h_GetCode a h).1, φ (h_GetCode a h).2) ∧ P (h_GetCode a h).2;
  n_Selfdestruct a b h : P h → h_Selfdestruct a b (φ h) = φ (h_Selfdestruct a b h) ∧ P (h_Selfdestruct a b h);
  n_GetTxContext h : h_GetTxContext (φ h) = h_GetTxContext h;
  n_GetBlockHash n h : h_GetBlockHash n (φ h) = h_GetBlockHash n h;
  n_EmitLog a ts d h : P h → h_EmitLog a ts d (φ h) = φ (h_EmitLog a ts d h) ∧ P (h_EmitLog a ts d h);
  n_Callx c h : P h → h_Callx c (φ h) = through (h_Callx c h) ∧ kept (h_Callx c h);
  n_Empty a h : h_Empty a (φ h) = h_Empty a h;
  n_GetNonce a h : h_GetNonce a (φ h) = h_GetNonce a h;
}.

Context `{!HostNatural}.

Definition natural {A} (m : M HS A) (m' : M HS' A) : Prop :=
  ∀ c h, P h → m' c (φ h) = match m c h with Ret (a, c, h) => Ret (a, c, φ h) | Panic => Panic | NoFuel => NoFuel end ∧
               match m c h with Ret (_, _, h) => P h | _ => True end.

(** ** Combinators *)

Lemma nat_bind {A B} (m : M HS A) (m' : M HS' A) (k : A → M HS B) (k' : A → M HS' B) :
  natural m m' → (∀ a, natural (k a) (k' a)) → natural (mbind_ m k) (mbind_ m' k').
Proof.
  intros Hm Hk c h Hh. unfold mbind_. destruct (Hm c h Hh) as [-> Hp]. destruct (m c h) as [[[a c'] h']| |]; [|done..]. by apply Hk.
Qed.

Lemma nat_ret {A} (a : A) : natural (ret_ a) (ret_ a).
Proof. done. Qed.
Lemma nat_panic {A} : natural (panic (A:=A)) panic.
Proof. done. Qed.
Lemma nat_gets {A} (f : state → A) : natural (gets f) (gets f).
Proof. done. Qed.
Lemma nat_modify (f : state → state) : natural (modify f) (modify f).
Proof. done. Qed.
Lemma nat_asks {A} (f : HS → A) (f' : HS' → A) : (∀ h, f' (φ h) = f h) → natural (asks f) (asks f').
Proof. intros Hf c h Hh. unfold asks. by rewrite Hf. Qed.
Lemma nat_host {A} (f : HS → A * HS) (f' : HS' → A * HS') :
  (∀ h, P h → f' (φ h) = ((f h).1, φ (f h).2) ∧ P (f h).2) → natural (host_do f) (host_do f').
Proof. intros Hf c h Hh. unfold host_do. destruct (Hf h Hh) as [-> Hp]. by destruct (f h). Qed.
Lemma nat_deref {A} (o : option A) : natural (deref o) (deref o).
Proof. by destruct o. Qed.
Lemma nat_pop_nil : natural pop_nil pop_nil.
Proof. intros c h. unfold pop_nil. by destruct (stack c). Qed.
Lemma nat_callx contract : natural (callx contract) (callx contract).
Proof. intros c h Hh. unfold callx. destruct (n_Callx contract h Hh) as [-> Hk]. by destruct (h_Callx contract h) as [[]| |]. Qed.
Lemma nat_validJumpdest d : natural (validJumpdest d) (validJumpdest d).
Proof.
  unfold validJumpdest. apply nat_bind; [done|]. intros cd. case_match; [done|]. apply nat_bind; [done|]. intros b c h Hh.
  by destruct (bitmap_isSet b (Uint64 d)).
Qed.
End frame.

Create HintDb natural.
Create HintDb natural_ops.
#[export] Hint Unfold opStop opAdd opSub opMul opDiv opSDiv opMod opSMod opExp opAddMod opMulMod opAnd opOr opXor opByte opNot opIsZero opEq opLt opGt opSlt opSgt opSignExtension opShl opShr opSar opMload opMStore opMStore8 opSload opSStore opSha3 opPop opExtCodeHash opAddress opBalance opSelfBalance opOrigin opCaller opCallValue opCallDataLoad opCallDataSize opCodeSize opExtCodeSize opGasPrice opReturnDataSize opChainID opPC opMSize Len opGas opExtCodeCopy opCallDataCopy opReturnDataCopy opCodeCopy opBlockHash opCoinbase opTimestamp opNumber opDifficulty opGasLimit opJump opJumpi opJumpDest : natural_ops.
#[export] Hint Resolve nat_ret nat_panic nat_gets nat_modify nat_deref nat_pop_nil nat_callx nat_validJumpdest : natural.
#[export] Hint Resolve n_AccountExists n_GetStorage n_SetStorage n_GetBalance n_GetCodeSize n_GetCodeHash n_GetCode n_GetTxContext n_GetBlockHash n_Empty n_GetNonce : natural.

(** Go through the binds and the branches of a computation. *)
Ltac natural_step :=
  first
  [ solve [eauto with natural]
  | apply nat_bind; [|intros ?]
  | apply nat_asks; intros ?
  | apply nat_host; intros ?
  | case_match ].
Ltac natural := repeat natural_step.

Section instructions.
Context `{External} `{GoRuntime} {HS HS' : Type} `{HA : Host HS} `{HB : Host HS'} (φ : HS → HS') (P : HS → Prop) `{!HostNatural φ P}.

(** ** The machine *)

Lemma nat_pop : natural φ P pop pop.
Proof. unfold pop. natural. Qed.
Lemma nat_top_nil : natural φ P top_nil top_nil.
Proof. unfold top_nil. natural. Qed.
Lemma nat_top : natural φ P top top.
Proof. unfold top, top_nil. natural. Qed.
Lemma nat_popHash : natural φ P popHash popHash.
Proof. unfold popHash, pop. natural. Qed.
Lemma nat_popAddr : natural φ P popAddr popAddr.
Proof. unfold popAddr. natural. Qed.
Lemma nat_push v : natural φ P (push v) (push v).
Proof. unfold push. natural. Qed.
Lemma nat_set_top v : natural φ P (set_top v) (set_top v).
Proof. unfold set_top. natural. Qed.
Lemma nat_exit e : natural φ P (exit e) (exit e).
Proof. unfold exit. natural. Qed.
Lemma nat_Halt : natural φ P Halt Halt.
Proof. unfold Halt. natural. Qed.
Lemma nat_stackAtLeast n : natural φ P (stackAtLeast n) (stackAtLeast n).
Proof. unfold stackAtLeast. natural. Qed.
Lemma nat_peekAt n : natural φ P (peekAt n) (peekAt n).
Proof. unfold peekAt. natural. Qed.
Lemma nat_swap n : natural φ P (swap n) (swap n).
Proof. unfold swap. natural. Qed.
Lemma nat_consumeGas a : natural φ P (consumeGas a) (consumeGas a).
Proof. unfold consumeGas, exit. natural. Qed.

#[local] Hint Resolve nat_pop nat_top nat_top_nil nat_popHash nat_popAddr nat_push nat_set_top nat_exit nat_Halt nat_stackAtLeast nat_peekAt nat_swap nat_consumeGas : natural.

Lemma nat_allocateMemory o s : natural φ P (allocateMemory o s) (allocateMemory o s).
Proof. unfold allocateMemory, Len. natural. Qed.
Lemma nat_mem_slice lo hi : natural φ P (mem_slice lo hi) (mem_slice lo hi).
Proof. unfold mem_slice. natural. Qed.
Lemma nat_mem_from lo : natural φ P (mem_from lo) (mem_from lo).
Proof. unfold mem_from. natural. Qed.
Lemma nat_mem_replace lo b : natural φ P (mem_replace lo b) (mem_replace lo b).
Proof. unfold mem_replace. natural. Qed.

#[local] Hint Resolve nat_allocateMemory nat_mem_slice nat_mem_from nat_mem_replace : natural.

Lemma nat_mem_copy lo hi src : natural φ P (mem_copy lo hi src) (mem_copy lo hi src).
Proof. unfold mem_copy. natural. Qed.
Lemma nat_get2 o l : natural φ P (get2 o l) (get2 o l).
Proof. unfold get2. natural. Qed.
Lemma nat_copyToMemory o src size off : natural φ P (copyToMemory o src size off) (copyToMemory o src size off).
Proof. unfold copyToMemory. natural. Qed.
Lemma nat_jumpTo d : natural φ P (jumpTo d) (jumpTo d).
Proof. unfold jumpTo. natural. Qed.
Lemma nat_popTopics n : natural φ P (popTopics n) (popTopics n).
Proof. induction n as [|n IH]; cbn [popTopics]; natural. Qed.
Lemma nat_addGas a : natural φ P (addGas a) (addGas a).
Proof. unfold addGas. natural. Qed.
Lemma nat_reset : natural φ P resetReturnData resetReturnData.
Proof. unfold resetReturnData. natural. Qed.

#[local] Hint Resolve nat_mem_copy nat_get2 nat_copyToMemory nat_jumpTo nat_popTopics nat_addGas nat_reset : natural.

(** ** Calls *)

Lemma nat_buildCallContract op : natural φ P (buildCallContract op) (buildCallContract op).
Proof. unfold buildCallContract. natural. Qed.
Lemma nat_buildCreateContract op : natural φ P (buildCreateContract op) (buildCreateContract op).
Proof. unfold buildCreateContract. natural. Qed.

#[local] Hint Resolve nat_buildCallContract nat_buildCreateContract : natural.

Lemma nat_opCreate op : natural φ P (opCreate op) (opCreate op).
Proof. unfold opCreate. natural. Qed.
Lemma nat_opCall op : natural φ P (opCall op) (opCall op).
Proof. unfold opCall, doCall. natural. Qed.
Lemma nat_opHalt op : natural φ P (opHalt op) (opHalt op).
Proof. unfold opHalt. natural. Qed.
Lemma nat_opSelfDestruct : natural φ P opSelfDestruct opSelfDestruct.
Proof. unfold opSelfDestruct. natural. all: intros Hh; edestruct (n_Selfdestruct φ P) as [Hs ?]; [done|]; by rewrite Hs. Qed.
Lemma nat_opLog n : natural φ P (opLog n) (opLog n).
Proof. unfold opLog. natural. all: intros Hh; edestruct (n_EmitLog φ P) as [Hs ?]; [done|]; by rewrite Hs. Qed.

#[local] Hint Resolve nat_opCreate nat_opCall nat_opHalt nat_opSelfDestruct nat_opLog : natural.

(** ** The interpreter *)

(** Two rows of the table. *)
Definition same_row (e : Z * handler (HS:=HS)) (e' : Z * handler (HS:=HS')) : Prop :=
  e.1 = e'.1 ∧ stack_ e.2 = stack_ e'.2 ∧ gas_ e.2 = gas_ e'.2 ∧ natural φ P (inst e.2) (inst e'.2).

Lemma registerRange_natural from to f f' g : (∀ n, natural φ P (f n) (f' n)) → Forall2 same_row (registerRange from to f g) (registerRange from to f' g).
Proof. intros Hf. unfold registerRange. apply Forall2_fmap. generalize (seq 0 (Z.to_nat (to - from + 1))). intros l. induction l as [|k l IH]; [constructor|]. constructor; [|done]. split_and!; [done..|apply Hf]. Qed.

Lemma registrations_natural : Forall2 same_row registrations registrations.
Proof.
  unfold registrations. repeat apply Forall2_app.
  2-5: apply registerRange_natural; intros n; unfold opPush, opDup, opSwap; natural.
  all: repeat (apply Forall2_cons; split; [split_and!; [done..|]; cbn [inst snd]; autounfold with natural_ops; natural|]); apply Forall2_nil_2.
Qed.

Lemma dispatch_natural op :
  match dispatchTable (HS:=HS) !! op, dispatchTable (HS:=HS') !! op with
  | Some i, Some i' => stack_ i = stack_ i' ∧ gas_ i = gas_ i' ∧ natural φ P (inst i) (inst i')
  | None, None => True
  | _, _ => False
  end.
Proof.
  pose proof registrations_natural as Hr. destruct (dispatchTable (HS:=HS) !! op) as [i|] eqn:Ei.
  - apply dispatch_iff, list_elem_of_lookup in Ei as [n Hn]. destruct (Forall2_lookup_l _ _ _ _ _ Hr Hn) as ([op' i'] & Hn' & E & Hrow). cbn in E. subst op'.
    apply list_elem_of_lookup_2, dispatch_iff in Hn'. by rewrite Hn'.
  - destruct (dispatchTable (HS:=HS') !! op) as [i'|] eqn:Ei'; [|done].
    apply dispatch_iff, list_elem_of_lookup in Ei' as [n Hn]. destruct (Forall2_lookup_r _ _ _ _ _ Hr Hn) as ([op' i] & Hn' & E & _). cbn in E. subst op'.
    apply list_elem_of_lookup_2, dispatch_iff in Hn'. congruence.
Qed.

Lemma Run_turn_natural : natural φ P Run_turn Run_turn.
Proof.
  intros c h. unfold Run_turn. destruct (CurrentOpCode c) as [[op ok]| |]; [|done..].
  match goal with |- _ → ?m' c (φ h) = match ?m c h with _ => _ end ∧ _ => cut (natural φ P m m'); [intros Hm; apply Hm|] end.
  destruct (negb ok); [natural|]. pose proof (dispatch_natural op) as Hd.
  destruct (dispatchTable (HS:=HS) !! op) as [i|], (dispatchTable (HS:=HS') !! op) as [i'|]; [|done..|natural]. destruct Hd as (-> & -> & Hi). natural.
Qed.

Lemma Run_loop_natural fuel c h : P h → Run_loop fuel c (φ h) = through φ (Run_loop fuel c h) ∧ kept P (Run_loop fuel c h).
Proof.
  revert c h. induction fuel as [|fuel IH]; intros c h Hh; cbn [Run_loop]; destruct (stop c); try done.
  destruct (Run_turn_natural c h Hh) as [-> Hp]. destruct (Run_turn c h) as [[[[] c'] h']| |]; try done. by apply IH.
Qed.

(** The interpreter commutes with [φ]. *)
Lemma EVM_Run_natural fuel mem bm c cfg h : P h → EVM_Run fuel mem bm c cfg (φ h) = through φ (EVM_Run fuel mem bm c cfg h) ∧ kept P (EVM_Run fuel mem bm c cfg h).
Proof.
  intros Hh. unfold EVM_Run. destruct (Run_loop_natural fuel (start mem bm c cfg) h Hh) as [-> Hp]. by destruct (Run_loop fuel (start mem bm c cfg) h) as [[]| |].
Qed.
End instructions.

(** ** The executor *)

Section frame.
Context `{External} `{Secp256k1} `{PrecompiledCrypto} `{GoRuntime} `{MachinePool} `{LRU} `{FinMap Z RT}.

Implicit Types (s : Txn (RT:=RT)) (t n : Transition (RT:=RT)).

(** ** The frame *)

Section framed.
Variables (S0 : list (radix (RT:=RT))) (p : Z).

(** Snapshots [S0] before those of the state. *)
Definition older s : Txn := mkTxn (snapshot s) (S0 ++ snapshots s) (txn s) (codeCache s).

(** A transition with these snapshots and with [p] in its pool. *)
Definition framed t : Transition :=
  mkTransition (t_config t) (older (t_state t)) (t_getHash t) (t_ctx t) p (t_receipts t) (t_totalGas t).

Definition framed_result {A} (o : outcome (A * Transition)) : outcome (A * Transition) := through framed o.

Lemma older_Snapshot s :
  Snapshot (older s) = ((length S0 + (Snapshot s).1)%nat, older (Snapshot s).2).
Proof. unfold Snapshot, older. cbn. by rewrite length_app, app_assoc. Qed.

Lemma framed_revert id t :
  revert (length S0 + id) (framed t) = match revert id t with Ret t => Ret (framed t) | Panic => Panic | NoFuel => NoFuel end.
Proof.
  unfold revert, RevertToSnapshot. cbn [framed t_state older snapshots].
  rewrite lookup_app_r by lia. replace (length S0 + id - length S0)%nat with id by lia.
  by destruct (snapshots (t_state t) !! id).
Qed.

Lemma older_SubBalance a x s :
  SubBalance a x (older s) = match SubBalance a x s with Ok s => Ok (older s) | Err e => Err e end.
Proof.
  unfold SubBalance. change (GetBalance a (older s)) with (GetBalance a s).
  change (getStateObject a (older s)) with (getStateObject a s). by repeat case_match.
Qed.

Lemma older_GetCode a s : GetCode a (older s) = ((GetCode a s).1, older (GetCode a s).2).
Proof.
  unfold GetCode. change (getStateObject a (older s)) with (getStateObject a s).
  change (codeCache (older s)) with (codeCache s). change (snapshot (older s)) with (snapshot s). by repeat case_match.
Qed.

Lemma older_SetStorage a k v cfg s :
  SetStorage a k v cfg (older s) = ((SetStorage a k v cfg s).1, older (SetStorage a k v cfg s).2).
Proof.
  unfold SetStorage. change (GetState a k (older s)) with (GetState a k s).
  change (GetCommittedState a k (older s)) with (GetCommittedState a k s). by repeat case_match.
Qed.

Lemma older_Suicide a s : Suicide a (older s) = older (Suicide a s).
Proof. unfold Suicide. change (getStateObject a (older s)) with (getStateObject a s). by case_match. Qed.

Lemma older_transfer from to amount s :
  transfer from to amount (older s) = match transfer from to amount s with Ok s => Ok (older s) | Err e => Err e end.
Proof.
  unfold transfer. destruct amount; [|done]. rewrite older_SubBalance. destruct (SubBalance _ _ _) as [|[]]; done.
Qed.

(** ** Calls *)

Section calls.
Variable rec : Contract → Transition (RT:=RT) → outcome (ExecutionResult * Transition (RT:=RT)).
Hypothesis rec_framed : ∀ c t, rec c (framed t) = through framed (rec c t).

#[local] Instance host_framed : HostNatural (HA := TransitionHost rec) (HB := TransitionHost rec) framed (λ _, True).
Proof.
  split; cbn [h_AccountExists h_GetStorage h_SetStorage h_GetBalance h_GetCodeSize h_GetCodeHash h_GetCode h_Selfdestruct
    h_GetTxContext h_GetBlockHash h_EmitLog h_Callx h_Empty h_GetNonce TransitionHost]; try done.
  - intros a k v cfg t _. split; [|done]. cbn [framed t_state]. rewrite older_SetStorage. by destruct (SetStorage _ _ _ _ _).
  - intros a t _. split; [|done]. cbn [framed t_state]. unfold GetCodeSize. rewrite older_GetCode. by destruct (GetCode _ _).
  - intros a t _. split; [|done]. cbn [framed t_state]. rewrite older_GetCode. by destruct (GetCode _ _).
  - intros a b t _. split; [|done]. unfold Selfdestruct. cbn [framed t_state].
    change (HasSuicided a (older (t_state t))) with (HasSuicided a (t_state t)).
    set (s := if negb _ then AddRefund 24000 (t_state t) else _).
    assert ((if negb (HasSuicided a (t_state t)) then AddRefund 24000 (older (t_state t)) else older (t_state t)) = older s) as ->
      by (unfold s; by destruct (negb _)).
    change (AddBalance b (GetBalance a (older s)) (older s)) with (older (AddBalance b (GetBalance a s) s)).
    by rewrite older_Suicide.
  - intros c t _. rewrite rec_framed. split; [done|]. by destruct (rec c t) as [[]| |].
Qed.

Lemma run_framed c t : run rec c (framed t) = through framed (run rec c t).
Proof.
  unfold run. cbn [framed t_config]. destruct (CanRun c (t_config t)).
  { by destruct (Precompiled_Run c (t_config t)). }
  destruct (pool_Get c) as [mem bm]. rewrite (proj1 (EVM_Run_natural (HA := TransitionHost rec) (HB := TransitionHost rec) framed (λ _, True) _ _ _ _ _ _ I)).
  by destruct (EVM_Run _ _ _ _ _ _) as [[[]]| |].
Qed.

Lemma run_then_framed c t (k : ExecutionResult → Transition (RT:=RT) → outcome (ExecutionResult * Transition (RT:=RT)))
    (k' : ExecutionResult → Transition (RT:=RT) → outcome (ExecutionResult * Transition (RT:=RT))) :
  (∀ r t, k' r (framed t) = through framed (k r t)) →
  (let~ (r, t) := run rec c (framed t) in k' r t) = through framed (let~ (r, t) := run rec c t in k r t).
Proof. intros Hk. rewrite run_framed. destruct (run rec c t) as [[r t']| |]; [apply Hk|done..]. Qed.

Lemma reverting_framed id r t :
  (let~ t := revert (length S0 + id) (framed t) in Ret (r, t)) = through framed (let~ t := revert id t in Ret (r : ExecutionResult, t)).
Proof. rewrite framed_revert. by destruct (revert id t). Qed.

Lemma applyCall_framed c ty t : applyCall rec c ty (framed t) = through framed (applyCall rec c ty t).
Proof.
  unfold applyCall. destruct (_ >? _); [done|]. cbn [framed t_state]. rewrite older_Snapshot.
  destruct (Snapshot (t_state t)) as [id s]. cbn [fst snd].
  change (TouchAccount (c_Address c) (older s)) with (older (TouchAccount (c_Address c) s)).
  rewrite older_transfer.
  destruct (decide (ty = CallT)) as [Ht|Ht]; [destruct (transfer _ _ _ _) as [s'|e]; [|done]|];
    (apply (run_then_framed c (set_state _ t)); intros r t'; destruct (Failed r); [apply reverting_framed|done]).
Qed.

Lemma applyCreate_framed c t : applyCreate rec c (framed t) = through framed (applyCreate rec c t).
Proof.
  unfold applyCreate. cbv zeta. destruct (_ >? _); [done|]. cbn [framed t_state t_config].
  change (IncrNonce (c_Caller c) (older (t_state t))) with (older (IncrNonce (c_Caller c) (t_state t))).
  set (s0 := IncrNonce _ _).
  change (hasCodeOrNonce (c_Address c) (older s0)) with (hasCodeOrNonce (c_Address c) s0).
  destruct (hasCodeOrNonce _ _); [done|]. rewrite older_Snapshot. destruct (Snapshot s0) as [id s]. cbn [fst snd].
  set (s1 := if EIP158 (t_config t) then _ else s).
  assert ((if EIP158 (t_config t) then IncrNonce (c_Address c) (CreateAccount (c_Address c) (older s)) else older s) = older s1) as ->.
  { unfold s1. destruct (EIP158 _); [|done].
    assert (CreateAccount (c_Address c) (older s) = older (CreateAccount (c_Address c) s)) as ->; [|done].
    unfold CreateAccount. change (getStateObject (c_Address c) (older s)) with (getStateObject (c_Address c) s).
    by repeat case_match. }
  rewrite older_transfer. destruct (transfer _ _ _ _) as [s'|e]; [|done].
  apply (run_then_framed c (set_state _ t)). intros r t'.
  change (t_config (framed t')) with (t_config t').
  destruct (Failed r); [apply reverting_framed|]. destruct (_ && _); [apply reverting_framed|].
  destruct (_ <? _); [|done]. destruct (Homestead _); [apply reverting_framed|done].
Qed.
End calls.

Lemma Callx_framed fuel c t : Callx fuel c (framed t) = through framed (Callx fuel c t).
Proof.
  revert c t. induction fuel as [|fuel IH]; intros c t; cbn [Callx]; [done|].
  destruct (decide _); [by apply applyCreate_framed|by apply applyCall_framed].
Qed.

Lemma execute_framed msg gl t : execute msg gl (framed t) = through framed (execute msg gl t).
Proof.
  unfold execute. destruct (tx_To msg) as [to|].
  - unfold Call2.
    match goal with |- context [GetCode to (t_state ?x)] => change (t_state x) with (older (IncrNonce (tx_From msg) (t_state t))) end.
    rewrite older_GetCode. cbn [set_state set_ctx t_state].
    destruct (GetCode to _) as [code s] eqn:E. cbn [fst snd].
    exact (applyCall_framed _ (Callx_framed callDepth) _ _ (set_state s (set_ctx (tx_ctx msg (t_ctx t)) t))).
  - unfold Create2. exact (applyCreate_framed _ (Callx_framed callDepth) _ (set_ctx (tx_ctx msg (t_ctx t)) t)).
Qed.
End framed.

(** ** Transactions *)

(** A transition without its snapshots and its pool. *)
Definition bare t : Transition :=
  mkTransition (t_config t) (mkTxn (snapshot (t_state t)) [] (txn (t_state t)) (codeCache (t_state t))) (t_getHash t) (t_ctx t) 0
    (t_receipts t) (t_totalGas t).

Lemma framed_bare t : t = framed (snapshots (t_state t)) (t_gasPool t) (bare t).
Proof. destruct t as [? [] ? ? ? ? ?]. unfold framed, older. cbn. by rewrite app_nil_r. Qed.

(** [apply] on the same state under two frames. *)
Lemma apply_frames S p S' p' msg n r t :
  tx_Gas msg ≤ p' → apply_ msg (framed S p n) = Ret (Ok r, t) →
  tx_Gas msg ≤ p ∧ ∃ n', t = framed S (add64 (sub64 p (tx_Gas msg)) (GasLeft r)) n' ∧
    apply_ msg (framed S' p' n) = Ret (Ok r, framed S' (add64 (sub64 p' (tx_Gas msg)) (GasLeft r)) n').
Proof.
  intros Hp'. unfold apply_. change (nonceCheck msg (framed ?S ?p n)) with (nonceCheck msg n).
  destruct (negb _); [done|]. unfold subGasLimitPrice. cbn [framed t_state].
  rewrite !older_SubBalance. destruct (SubBalance _ _ _) as [s2|]; [|done].
  unfold subGasPool. cbn [set_state t_gasPool t_config framed]. rewrite (proj2 (Z.ltb_ge p' _)) by done.
  destruct (p <? tx_Gas msg) eqn:Ep; [done|]. apply Z.ltb_ge in Ep. cbn [set_gasPool t_config].
  destruct (TransactionGasCost _ _ _) as [ig|]; [|done]. cbv zeta. destruct (_ >? _); [done|]. cbn [t_state].
  change (GetBalance (tx_From msg) (older ?S s2)) with (GetBalance (tx_From msg) s2). destruct (_ <? _); [done|].
  assert (∀ S q, execute msg (sub64 (tx_Gas msg) ig) (framed S q (set_state s2 n))
    = through (framed S q) (execute msg (sub64 (tx_Gas msg) ig) (set_state s2 n))) as E by (intros; apply execute_framed).
  repeat match goal with |- context [execute msg ?g ?x] =>
    lazymatch x with framed _ _ _ => fail | _ => idtac end;
    match x with context [older ?S s2] => match x with context [sub64 ?q (tx_Gas msg)] => change x with (framed S (sub64 q (tx_Gas msg)) (set_state s2 n)) end end end.
  rewrite !E. destruct (execute _ _ _) as [[r3 n3]| |]; cbn [through obind]; [|done..].
  unfold settle. cbv zeta. intros [= <- <-]. split; [done|].
  exists (set_state (AddBalance (ctx_Coinbase (t_ctx n3)) (GasUsed (UpdateGasUsed (tx_Gas msg) (GetRefund (t_state n3)) r3) * tx_GasPrice msg)
    (AddBalance (tx_From msg) (GasLeft (UpdateGasUsed (tx_Gas msg) (GetRefund (t_state n3)) r3) * tx_GasPrice msg) (t_state n3))) n3). done.
Qed.

(** A transaction that [apply] refuses. *)
Lemma apply_refuses msg t e t' :
  apply_ msg t = Ret (Err e, t') → ∃ x q, t' = set_gasPool q (set_state (set_txn x (t_state t)) t).
Proof.
  assert (∀ t, ∃ x q, t = set_gasPool q (set_state (set_txn x (t_state t)) t)) as Hsame.
  { intros [? [? ? x ?] ? ? q ? ?]. by exists x, q. }
  unfold apply_. destruct (negb _); [intros [= _ <-]; apply Hsame|]. unfold subGasLimitPrice.
  destruct (SubBalance _ _ _) as [s2|] eqn:Es; [|intros [= _ <-]; apply Hsame].
  assert (∃ x, s2 = set_txn x (t_state t)) as [x ->].
  { unfold SubBalance in Es. repeat case_match; simplify_eq; [exists (txn (t_state t)); by destruct (t_state t)|].
    unfold upsertAccount, set_objs. eauto. }
  unfold subGasPool. cbn [set_state t_gasPool]. destruct (_ <? _); [intros [= _ <-]; by exists x, (t_gasPool t)|].
  intros Ha. exists x, (sub64 (t_gasPool t) (tx_Gas msg)). revert Ha.
  destruct (TransactionGasCost _ _ _) as [ig|]; [|by intros [= _ <-]]. cbv zeta. destruct (_ >? _); [by intros [= _ <-]|].
  destruct (_ <? _); [by intros [= _ <-]|]. by destruct (execute _ _ _) as [[]| |].
Qed.

Lemma Apply_same msg t t' r t1 :
  bare t = bare t' → tx_Gas msg ≤ t_gasPool t' → Apply msg t = Ret (Ok r, t1) →
  ∃ t1', Apply msg t' = Ret (Ok r, t1') ∧ bare t1 = bare t1'.
Proof.
  intros Hb Hp. rewrite (framed_bare t), (framed_bare t'), <- Hb. generalize (bare t) as n. intros n.
  unfold Apply. cbn [framed t_state]. rewrite !older_Snapshot. destruct (Snapshot (t_state n)) as [id s]. cbn [fst snd].
  change (set_state (older ?S s) (framed ?S ?p n)) with (framed S p (set_state s n)).
  destruct (apply_ msg (framed (snapshots (t_state t)) _ _)) as [[[r'|e] t2]| |] eqn:Ea; cbn [obind]; [|by destruct (revert _ _)|done..].
  intros [= -> ->].
  destruct (apply_frames _ _ (snapshots (t_state t')) (t_gasPool t') _ _ _ _ Hp Ea) as (_ & n' & -> & ->).
  eexists. split; [done|]. done.
Qed.

Lemma Apply_refused_bare msg t e t1 : Apply msg t = Ret (Err e, t1) → bare t1 = bare t.
Proof.
  unfold Apply. change (Snapshot (t_state t)) with (length (snapshots (t_state t)), (Snapshot (t_state t)).2). cbv iota beta.
  destruct (apply_ msg _) as [[[r|e'] t2]| |] eqn:Ea; cbn [obind]; [done| |done..].
  destruct (apply_refuses _ _ _ _ Ea) as (x & q & ->). unfold revert, RevertToSnapshot.
  cbn [set_gasPool set_state t_state set_txn snapshots Snapshot snd]. rewrite lookup_app_r, Nat.sub_diag by lia. cbn.
  by intros [= _ <-].
Qed.

Lemma fromOrSender_Gas t tx msg : fromOrSender t tx = Ret (Ok msg) → tx_Gas msg = tx_Gas tx.
Proof.
  unfold fromOrSender. destruct (_ =? _); [|by intros [= <-]].
  by destruct (Sender _ tx) as [[]| |]; cbn [obind]; intros; simplify_eq.
Qed.

Lemma Write_same tx t t' t1 :
  bare t = bare t' → tx_Gas tx ≤ t_gasPool t' → Write tx t = Ret (Ok tt, t1) →
  ∃ t1', Write tx t' = Ret (Ok tt, t1') ∧ bare t1 = bare t1'.
Proof.
  intros Hb Hp. unfold Write.
  assert (fromOrSender t tx = fromOrSender t' tx) as ->.
  { unfold fromOrSender. change (t_config t) with (t_config (bare t)). change (t_ctx t) with (t_ctx (bare t)). by rewrite Hb. }
  destruct (fromOrSender t' tx) as [[msg|e]| |] eqn:Ef; cbn [obind]; [|done..].
  pose proof (fromOrSender_Gas _ _ _ Ef) as Eg.
  destruct (Apply msg t) as [[[r|e] t2]| |] eqn:Ea; cbn [obind]; [|done..].
  destruct (Apply_same _ _ _ _ _ Hb ltac:(by rewrite Eg) Ea) as (t2' & -> & Hb2). cbn [obind].
  rewrite (framed_bare t2), (framed_bare t2'), <- Hb2. generalize (bare t2) as n. intros n.
  cbn [set_totalGas framed t_state t_totalGas t_receipts].
  assert (∀ S, Logs (older S (t_state n)) = ((Logs (t_state n)).1, older S (Logs (t_state n)).2)) as Hl.
  { intros S. unfold Logs. change (txn (older S ?x)) with (txn x). by destruct (logs _). }
  rewrite !Hl. destruct (Logs (t_state n)) as [lg s2]. cbn [fst snd]. intros [= <-]. eexists. split; [done|]. done.
Qed.

Lemma Write_refused_bare tx t e t1 : Write tx t = Ret (Err e, t1) → bare t1 = bare t.
Proof.
  unfold Write. destruct (fromOrSender t tx) as [[msg|e']| |]; cbn [obind]; [|by intros [= _ <-]|done..].
  destruct (Apply msg t) as [[[r|e'] t2]| |] eqn:Ea; cbn [obind]; [by destruct (Logs _)| |done..].
  intros [= _ <-]. by apply Apply_refused_bare in Ea.
Qed.
End frame.
