(* ===== verification/IbftBuildSpec.v ===== *)
(** A block that a proposer of IBFT builds is valid for the other validators: the
    transactions it executed replay to the same state, receipts and gas, whatever
    it tried and gave up in between, and its header passes the checks of the
    engine and of the chain. *)
From stdpp Require Import strings.
From S2P Require Import Prelude GoHeap Types Runtime Crypto EvmState EvmInstr EvmRun EvmWord EvmMemory EvmLogic EvmSafe EvmMeta TxAccount Intrinsic StateTxn StateTxnSpec Bloom Blake2f Precompiled Signer Rlp RlpTypes ChainStorage Trie BuildRoot Blockchain BlockchainSpec Text Validators Snapshot IbftSigner IbftSignerSpec Executor ExecutorInv ExecutorSpec ExecutorBlock ExecutorFrame Staking ContractStore IbftFork IbftForkSpec Ibft IbftBuild.

(** ** Replaying *)

Section replay.
Context `{External} `{Secp256k1} `{PrecompiledLaws} `{GoRuntime} `{MachinePoolLaws} `{LRULaws} `{FinMap Z RT}.
Implicit Types (t : Transition (RT:=RT)).

(** The transition [t] of a proposer that has given up some transactions, beside
    the one that replays the others. *)
Record behind (t t' : Transition (RT:=RT)) : Prop := {
  bh_bare : bare t = bare t';
  bh_pool : 0 ≤ t_gasPool t ≤ t_gasPool t';
}.

Lemma ready_bare t t' : bare t = bare t' → gas_ok (t_gasPool t) → ready t' → ready t.
Proof.
  intros Hb Hg. rewrite (framed_bare t), (framed_bare t'), Hb. generalize (bare t') as n. intros n []. by split.
Qed.

Lemma behind_inv L t t' : block_inv L t' → L < 2 ^ 63 → behind t t' → block_inv (t_totalGas t + t_gasPool t) t ∧ t_totalGas t = t_totalGas t'.
Proof.
  intros [Hr Hg Hs Hrc Hp] HL [Hb Hpool]. pose proof (f_equal t_totalGas Hb) as Et. pose proof (f_equal t_receipts Hb) as Er.
  cbn in Et, Er. split; [|done]. split; [|done|by rewrite Et, Er|by rewrite Er|by rewrite Et].
  apply (ready_bare _ t'); [done| |done]. unfold gas_ok. lia.
Qed.

Lemma Write_pool tx t t1 : ready t → msg_ok tx → Write tx t = Ret (Ok tt, t1) → tx_Gas tx ≤ t_gasPool t.
Proof.
  intros Hr Hm. unfold Write. pose proof (fromOrSender_post t tx) as Hf. pose proof (fromOrSender_Gas t tx) as Hg.
  destruct (fromOrSender t tx) as [[msg|e]| |]; cbn [obind]; [|done..]. rewrite <- (Hg msg eq_refl).
  pose proof (Apply_spec msg t Hr (Hf Hm)) as Ha. destruct (Apply msg t) as [[[r|e] t2]| |]; cbn [obind]; [|done..].
  intros _. destruct Ha as (_ & _ & _ & (_ & _ & Hp & _) & _). done.
Qed.

Lemma Write_refused_pool tx t e t1 :
  ready t → msg_ok tx → Write tx t = Ret (Err e, t1) → 0 ≤ t_gasPool t1 ≤ t_gasPool t.
Proof.
  intros Hr Hm. unfold Write. pose proof (fromOrSender_post t tx) as Hf. destruct (rd_gasPool _ Hr).
  destruct (fromOrSender t tx) as [[msg|e']| |]; cbn [obind]; [|by intros [= _ <-]|done..].
  specialize (Hf Hm). pose proof (Apply_spec msg t Hr Hf) as Ha. destruct (mg_gas _ Hf).
  destruct (Apply msg t) as [[[r|e'] t2]| |]; cbn [obind]; [by destruct (Logs _)| |done..].
  intros [= _ <-]. destruct Ha as (Hr' & _ & _ & _ & _ & Hp). destruct (rd_gasPool _ Hr'). lia.
Qed.

(** A transaction that the proposer writes can be replayed. *)
Lemma Write_behind L tx t t' t1 :
  block_inv L t' → L < 2 ^ 63 → behind t t' → msg_ok tx → Write tx t = Ret (Ok tt, t1) →
  ∃ t1', Write tx t' = Ret (Ok tt, t1') ∧ block_inv L t1' ∧ behind t1 t1' ∧ length (t_receipts t1') = S (length (t_receipts t')).
Proof.
  intros Hi HL Hb Hm Hw. destruct (behind_inv _ _ _ Hi HL Hb) as [Hi0 Et]. destruct Hb as [Hb Hp].
  pose proof (Write_pool _ _ _ (bi_ready _ _ Hi0) Hm Hw) as Hg.
  destruct (Write_same tx t t' t1 Hb ltac:(lia) Hw) as (t1' & Hw' & Hb1).
  pose proof (bi_gas _ _ Hi) as Eg. pose proof (bi_pos _ _ Hi).
  pose proof (Write_step L tx t' Hi HL Hm ltac:(lia)) as Hs'. rewrite Hw' in Hs'. destruct Hs' as (Hi1' & Hlen & _).
  pose proof (Write_step (t_totalGas t + t_gasPool t) tx t Hi0 ltac:(lia) Hm ltac:(lia)) as Hs. rewrite Hw in Hs. destruct Hs as (Hi1 & _).
  exists t1'. split_and!; [done..| |done]. split; [done|]. pose proof (f_equal t_totalGas Hb1) as Et1. cbn in Et1.
  destruct (rd_gasPool _ (bi_ready _ _ Hi1)) as [? _]. pose proof (bi_gas _ _ Hi1). pose proof (bi_gas _ _ Hi1'). lia.
Qed.

Lemma Write_refused_behind L tx t t' e t1 :
  block_inv L t' → L < 2 ^ 63 → behind t t' → msg_ok tx → Write tx t = Ret (Err e, t1) → behind t1 t'.
Proof.
  intros Hi HL Hb Hm Hw. destruct (behind_inv _ _ _ Hi HL Hb) as [Hi0 _]. destruct Hb as [Hb Hp].
  pose proof (Write_refused_pool _ _ _ _ (bi_ready _ _ Hi0) Hm Hw). split; [|lia]. by rewrite (Write_refused_bare _ _ _ _ Hw).
Qed.

Lemma ProcessTransactions_snoc L l tx t t1 t2 :
  ProcessTransactions L l t = Ret (Ok t1) → ExceedsBlockGasLimit tx L = false → Write tx t1 = Ret (Ok tt, t2) →
  ProcessTransactions L (l ++ [tx]) t = Ret (Ok t2).
Proof.
  intros Hl He Hw. revert t Hl. induction l as [|x l IH]; intros t; cbn [ProcessTransactions app].
  - intros [= ->]. by rewrite He, Hw.
  - destruct (if ExceedsBlockGasLimit x L then _ else _) as [[[]?]| |]; cbn [obind]; [apply IH|done..].
Qed.
End replay.

(** ** The hooks *)

Section hooks.
Context `{EthgoAbi} `{External} `{RlpReader} `{Secp256k1} `{PrecompiledCrypto} `{GoRuntime} `{MachinePool} `{LRU} `{FinMap Z RT}
  `{BLS} `{GoSort}.
Variable bc : HeaderGetter.

(** The staking contract that a fork deploys at a height. *)
Definition deployment (m : ForkManager) (h : Z) : option IBFTFork := fm_posHooks m ≫= λ r, ps_deployContractForks r !! h.

Lemma poa_keeps m h :
  let p := match fm_poaHooks m with Some r => poa_RegisterHooks (RT:=RT) bc m r h noHooks | None => noHooks end in
  ShouldWriteTransactionFunc p = None ∧ VerifyBlockFunc p = None ∧ PreCommitStateFunc p = None ∧
  (ModifyHeaderFunc p = None ∧ VerifyHeaderFunc p = None ∨
   ModifyHeaderFunc p = Some snap_ModifyHeader ∧ VerifyHeaderFunc p = Some snap_VerifyHeader).
Proof.
  unfold poa_RegisterHooks, registerHeaderModifierHooks, registerUpdateValidatorsHooks.
  repeat case_match; cbn; tauto.
Qed.

Lemma GetHooks_PreCommitState m h :
  PreCommitStateFunc (GetHooks (RT:=RT) bc m h) = deployStakingContract <$> deployment m h.
Proof.
  destruct (poa_keeps m h) as (_ & _ & Hp & _). unfold GetHooks, GetHooks_order, deployment, pos_RegisterHooks.
  destruct (fm_posHooks m) as [r|]; cbn; [|done]. destruct (ps_deployContractForks r !! h); [done|]. by destruct (getFork (ps_posForks r) h).
Qed.

Lemma GetHooks_headers m h :
  let k := GetHooks (RT:=RT) bc m h in
  ModifyHeaderFunc k = None ∧ VerifyHeaderFunc k = None ∨
  ModifyHeaderFunc k = Some snap_ModifyHeader ∧ VerifyHeaderFunc k = Some snap_VerifyHeader.
Proof.
  destruct (poa_keeps m h) as (_ & _ & _ & Hp). unfold GetHooks, GetHooks_order, pos_RegisterHooks.
  destruct (fm_posHooks m) as [r|]; [|done].
  by destruct (ps_deployContractForks r !! h), (getFork (ps_posForks r) h).
Qed.

(** The deployment does not look at the frame. *)
Lemma deployStakingContract_bare f h (t t' t1 : Transition (RT:=RT)) :
  bare t = bare t' → deployStakingContract f h t = Ret (Ok t1) →
  ∃ t1', deployStakingContract f h t' = Ret (Ok t1') ∧ bare t1 = bare t1' ∧
    t_receipts t1 = t_receipts t ∧ t_totalGas t1 = t_totalGas t.
Proof.
  intros Hb. rewrite (framed_bare t), (framed_bare t'), <- Hb. generalize (bare t) as n. intros n. unfold deployStakingContract.
  destruct (fk_Deployment f) as [d|]; [|done]. destruct (negb _); [intros [= <-]; by eexists|].
  change (Exist AddrStakingContract (t_state (framed ?S ?p n))) with (Exist AddrStakingContract (t_state n)).
  destruct (Exist AddrStakingContract (t_state n)) eqn:Ee.
  - destruct (DecodeHex _); [|done]. unfold SetCodeDirectly.
    change (Exist AddrStakingContract (t_state (framed ?S ?p n))) with (Exist AddrStakingContract (t_state n)).
    rewrite Ee. cbn [negb]. intros [= <-]. by eexists.
  - destruct (PredeployStakingSC _ _) as [a|]; [|done]. unfold SetAccountDirectly.
    change (Exist AddrStakingContract (t_state (framed ?S ?p n))) with (Exist AddrStakingContract (t_state n)).
    rewrite Ee. cbn [framed t_state t_config].
    change (SetCode AddrStakingContract (ga_Code a) (older ?S (t_state n))) with (older S (SetCode AddrStakingContract (ga_Code a) (t_state n))).
    generalize (SetCode AddrStakingContract (ga_Code a) (t_state n)) as s. intros s.
    assert (∀ S l s, foldl (λ s '(key, value), (SetStorage AddrStakingContract key value (t_config n) s).2) (older S s) l
      = older S (foldl (λ s '(key, value), (SetStorage (RT:=RT) AddrStakingContract key value (t_config n) s).2) s l)) as Hf.
    { intros S l. induction l as [|[k v] l IH]; intros s0; [done|]. cbn. rewrite older_SetStorage. cbn. apply IH. }
    rewrite !Hf. destruct (ga_Balance a); cbn [obind]; [|done]. intros [= <-]. by eexists.
Qed.

(** As does the hook before a commit. *)
Lemma PreCommitState_bare m m' h h' (t t' t1 : Transition (RT:=RT)) :
  deployment m' (hd_Number h) = deployment m (hd_Number h) → hd_Number h' = hd_Number h →
  bare t = bare t' →
  hook_PreCommitState (GetHooks bc m (hd_Number h)) h t = Ret (Ok t1) →
  ∃ t1', hook_PreCommitState (GetHooks bc m' (hd_Number h')) h' t' = Ret (Ok t1') ∧ bare t1 = bare t1' ∧
    t_receipts t1 = t_receipts t ∧ t_totalGas t1 = t_totalGas t.
Proof.
  intros Ed En Hb. unfold hook_PreCommitState. rewrite !GetHooks_PreCommitState, En, Ed.
  destruct (deployment m (hd_Number h)) as [f|]; cbn; [|intros [= <-]; by exists t'].
  assert (∀ x, deployStakingContract f h' x = deployStakingContract (RT:=RT) f h x) as Eh
    by (intros x; unfold deployStakingContract; by rewrite En).
  rewrite Eh. by apply deployStakingContract_bare.
Qed.
End hooks.

(** ** The transactions *)

Section transactions.
Context `{External} `{Secp256k1} `{PrecompiledLaws} `{GoRuntime} `{MachinePoolLaws} `{LRULaws} `{FinMap Z RT} `{SealingPool}.

(** A pool that only hands out transactions of at most [L] gas. *)
Record pool_offers (L : Z) (I : txpool → Prop) : Prop := {
  po_Prepare p : I p → I (txpool_Prepare p);
  po_Peek p : I p → I (txpool_Peek p).2;
  po_tx p tx : I p → (txpool_Peek p).1 = Some tx → tx_wf tx ∧ tx_Gas tx ≤ L;
  po_Pop tx p p' : I p → txpool_Pop tx p = Some p' → I p';
  po_Drop tx p p' : I p → txpool_Drop tx p = Some p' → I p';
  po_Demote tx p p' : I p → txpool_Demote tx p = Some p' → I p';
}.

Lemma writeTransaction_replays L I tx t t' pool r t1 pool1 :
  pool_offers L I → I pool → block_inv L t' → L < 2 ^ 63 → behind t t' →
  (∀ x, tx = Some x → tx_wf x ∧ tx_Gas x ≤ L) →
  writeTransaction tx L t pool = Ret (r, t1, pool1) →
  I pool1 ∧
  match r with
  | Some (x, success) => ExceedsBlockGasLimit x L = false ∧
      ∃ t1', Write x t' = Ret (Ok tt, t1') ∧ block_inv L t1' ∧ behind t1 t1' ∧ length (t_receipts t1') = S (length (t_receipts t'))
  | _ => behind t1 t'
  end.
Proof.
  intros [_ _ _ Hpop Hdrop Hdem] HI Hi HL Hb Htx. unfold writeTransaction. destruct tx as [tx|]; [|by intros [= <- <- <-]].
  destruct (Htx tx eq_refl) as [Hwf Hg].
  assert (ExceedsBlockGasLimit tx L = false) as He by (unfold ExceedsBlockGasLimit; rewrite Z.gtb_ltb; apply Z.ltb_ge; lia).
  rewrite He. destruct Hwf as [Hpr Hv Hg0 Hin].
  assert (msg_ok tx) as Hm by (split; try done; unfold gas_ok; lia).
  destruct (Write tx t) as [[[[]|err] t2]| |] eqn:Hw; cbn [obind]; [| |done..].
  - destruct (txpool_Pop tx pool) as [p1|] eqn:Ep; cbn [pool_do obind]; [|done]. intros [= <- <- <-].
    split; [by eapply Hpop|]. split; [done|]. by eapply Write_behind.
  - pose proof (Write_refused_behind _ _ _ _ _ _ Hi HL Hb Hm Hw) as Hb2.
    destruct (ae_GasLimitReached err); [by intros [= <- <- <-]|]. destruct (ae_IsRecoverable err).
    + destruct (txpool_Demote tx pool) as [p1|] eqn:Ep; cbn [pool_do obind]; [|done]. intros [= <- <- <-]. by split; [eapply Hdem|].
    + destruct (txpool_Drop tx pool) as [p1|] eqn:Ep; cbn [pool_do obind]; [|done]. intros [= <- <- <-]. by split; [eapply Hdrop|].
Qed.

(** A transaction above the gas limit leaves a receipt, but is not among those that
    the block will hold. *)
Lemma oversized_adds_receipt tx L (t t1 : Transition (RT:=RT)) pool r pool1 :
  ExceedsBlockGasLimit tx L = true → (∃ msg, fromOrSender t tx = Ret (Ok msg)) →
  writeTransaction (Some tx) L t pool = Ret (r, t1, pool1) →
  r = Some (tx, fail) ∧ length (t_receipts t1) = S (length (t_receipts t)).
Proof.
  intros He [msg Hf]. unfold writeTransaction. rewrite He. destruct (txpool_Drop tx pool) as [p|]; cbn [pool_do obind]; [|done].
  unfold WriteFailedReceipt. rewrite Hf. cbn [obind]. destruct (Logs (t_state t)) as [lg s]. cbn [obind]. intros [= <- <- <-].
  split; [done|]. cbn. rewrite length_app. cbn. lia.
Qed.

(** What the loop executed replays from the transition it began with. *)
Lemma write_loop_replays L I turns t0 done t t' pool txs t1 pool1 :
  pool_offers L I → I pool → L < 2 ^ 63 →
  ProcessTransactions L done t0 = Ret (Ok t') → block_inv L t' → behind t t' → length (t_receipts t') = length done →
  write_loop turns L done t pool = Ret (txs, t1, pool1) →
  ∃ t1', ProcessTransactions L txs t0 = Ret (Ok t1') ∧ block_inv L t1' ∧ behind t1 t1' ∧ length (t_receipts t1') = length txs.
Proof.
  intros HP HI HL. revert done t t' pool HI. induction turns as [|turns IH]; intros done t t' pool HI Hd Hi Hb Hlen; cbn [write_loop].
  { intros [= <- <- _]. by exists t'. }
  pose proof (po_Peek _ _ HP _ HI) as HI1. pose proof (po_tx _ _ HP pool) as Htx.
  destruct (txpool_Peek pool) as [tx pool2]. cbn [fst snd] in *.
  destruct (writeTransaction tx L t pool2) as [[[r t2] pool3]| |] eqn:Hw; cbn [obind]; [|done..].
  destruct (writeTransaction_replays _ _ _ _ _ _ _ _ _ HP HI1 Hi HL Hb ltac:(eauto) Hw) as [HI3 Hr].
  destruct r as [[x []]|]; [|by eapply IH|by eapply IH|intros [= <- <- _]; by exists t'].
  destruct Hr as (He & t2' & Hw2 & Hi2 & Hb2 & Hl2). eapply IH; [done| |done|done|rewrite length_app, Hl2, Hlen; cbn; lia].
  by eapply ProcessTransactions_snoc.
Qed.
End transactions.

(** ** The headers *)

Section headers.
Context `{External} `{RlpReader} `{!RlpLaws} `{Secp256k1Laws} `{BLSLaws}.

(** Signers with keys of the same types. *)
Record same_kind (s s' : SignerImpl) : Prop := {
  sk_type : sg_Type s' = sg_Type s;
  sk_parent : km_Type <$> sg_parentKeyManager s' = km_Type <$> sg_parentKeyManager s;
}.

Lemma seals_for_kind (k k' : KeyManager) c : km_Type k' = km_Type k → seals_for k c → seals_for k' c.
Proof. by destruct k, k', c. Qed.

Lemma extra_for_kind s s' n e : same_kind s s' → extra_for s n e → extra_for s' n e.
Proof.
  intros [Ht Hp] [Hx1 Hx2 Hx3 Hx4 Hx5]. split; [congruence|done|done|by eapply seals_for_kind|].
  destruct Hx5 as [?|(Hn & k & p & Ek & Ep & Hs)]; [by left|]. right. rewrite Ek in Hp.
  destruct (sg_parentKeyManager s') as [k'|]; [|done]. injection Hp as Hp. split; [done|]. exists k', p.
  split_and!; [done..|]. by eapply seals_for_kind.
Qed.

(** The extra data of a new block: the validators, no seals, and the seals of the
    parent as they were read. *)
Definition new_extra (s : SignerImpl) (vs : ValSet) (pcs : option Seals) : IstanbulExtra :=
  mkExtra vs [] (km_NewEmptyCommittedSeals (sg_keyManager s)) pcs.

Lemma seals_for_read k c : seals_for k c → seals_for k (seals_read c).
Proof. by destruct k, c as [|[]]. Qed.

Lemma seals_read_read c : seals_read (seals_read c) = seals_read c.
Proof. by destruct c as [|[]]. Qed.

(** The seals of the parent, read from the header. *)
Lemma GetParentCommittedSeals_carries s v e h p :
  carries v e h → ex_ParentCommittedSeals e = Some p → seals_for (sg_keyManager s) p →
  GetParentCommittedSeals s h = Ok (seals_read p).
Proof.
  intros [Hsz _ Hb] Hp Hs. unfold GetParentCommittedSeals, verifyIBFTExtraSize. rewrite (proj2 (Nat.ltb_ge _ _)) by done.
  unfold UnmarshalRlp. cbn [mbind option_bind]. rewrite Hb. cbn [mbind option_bind].
  assert (unmarshalRLPFromForParentCS (km_NewEmptyCommittedSeals (sg_keyManager s)) (item_of (ex_MarshalRLPWith e)) = Some (seals_read p)) as ->; [|done].
  unfold unmarshalRLPFromForParentCS, ex_MarshalRLPWith. rewrite Hp. cbn.
  by apply seals_UnmarshalRLPFrom_Marshal.
Qed.

(** Seals that verified with the parent verify in its child. *)
Lemma VerifyParentCommittedSeals_carried s v0 e0 parent v e h vs q :
  carries v0 e0 parent → extra_for s (hd_Number parent) e0 → CalculateHeaderHash s parent = Ret (Ok (hd_Hash parent)) →
  sg_VerifyCommittedSeals s parent vs q = Ret (Ok ()) →
  carries v e h → ex_ParentCommittedSeals e = Some (seals_read (ex_CommittedSeals e0)) →
  VerifyParentCommittedSeals s parent h vs q true = Ret (Ok ()).
Proof.
  intros Hc0 Hx0 Hh Hv Hc Hp. unfold VerifyParentCommittedSeals.
  rewrite (GetParentCommittedSeals_carries s v e h _ Hc Hp) by apply seals_for_read, Hx0.
  unfold sg_VerifyCommittedSeals in Hv. rewrite (GetIBFTExtra_carries s v0 e0 parent Hc0 Hx0), Hh in Hv. cbn [obind extra_read ex_CommittedSeals] in Hv.
  rewrite seals_read_read. set (c := seals_read (ex_CommittedSeals e0)) in *.
  destruct (km_VerifyCommittedSeals _ c _ vs) as [n|] eqn:Ek; cbn in Hv; [|done].
  assert (∃ num, seals_Num c = Ret num ∧ num ≠ 0) as (num & -> & Hnum).
  { unfold km_VerifyCommittedSeals in Ek. destruct (sg_keyManager s), c as [l|b sig]; try done; destruct (negb _); try done.
    - unfold ECDSA_verifyCommittedSealsImpl in Ek. cbn. eexists. split; [done|]. by destruct (Z.eqb_spec (Z.of_nat (length l)) 0).
    - unfold verifyBLSCommittedSealsImpl in Ek. destruct sig, b as [b|]; try done. cbn. eexists. split; [done|].
      by destruct (Z.eqb_spec (BitLen b) 0). }
  cbn [obind]. rewrite (proj2 (Z.eqb_neq _ _)) by done. cbn. by destruct (n <? q).
Qed.
End headers.

(** ** The block *)

Section block.
Context `{EthgoAbi} `{External} `{RlpReader} `{!RlpLaws} `{Secp256k1Laws} `{PrecompiledLaws} `{GoRuntime} `{MachinePoolLaws} `{LRULaws}
  `{FinMap Z RT} `{BLSLaws} `{GoSort} `{SealingPool}.
Variable blockchain : HeaderGetter.
Variable executor : Executor (RT:=RT).
Variable commitSnapshot : readSnapshot (RT:=RT) → RT Object → Hash.
Implicit Types (i : backendIBFT (RT:=RT)) (m : modules (RT:=RT)).

(** A header with the vote of the snapshot store, or without one. *)
Definition voting (h h' : Header) : Prop :=
  ∃ miner nonce, h' = set_vote miner nonce h ∧ (nonce = nonceAuthVote ∨ nonce = nonceDropVote).

(** How a block comes about: the header [h2] that the transactions ran under, what
    they gave and the header [h4] that was sealed. *)
Definition built (L : Z) (turns : nat) (parent : Header) (pool : txpool) m (block : Block) i1 : Prop :=
  ∃ h1 ts pcs t0 txs tb pool1 tb' h4 h5,
    let h2 := initIbftExtra (md_signer m) (set_Timestamp ts h1) (md_validators m) pcs in
    voting (newHeader parent L) h1 ∧
    extractParentCommittedSeals parent i1 = Ret (Ok pcs) ∧
    BeginTxn executor (hd_StateRoot parent) h2 (sg_Address (md_signer m)) = Ok t0 ∧
    writeTransactions turns (md_hooks m) L (hd_Number h2) t0 pool = Ret (txs, tb, pool1) ∧
    hook_PreCommitState (GetHooks blockchain (ib_forkManager i1) (hd_Number h2)) h2 tb = Ret (Ok tb') ∧
    BuildBlock (ib_forkManager i1) (set_executed (commitRoot commitSnapshot tb') (t_totalGas tb') h2) txs (t_receipts tb')
      = Ret (mkBlock h4 txs []) ∧
    WriteProposerSeal (md_signer m) h4 = Ret (Ok h5) ∧
    ibft_ComputeHash (ib_forkManager i1) h5 = Ret (bk_Header block) ∧
    bk_Transactions block = txs ∧ bk_Uncles block = [].

Lemma modifyHeader_voting i h n proposer r i1 :
  modifyHeader (GetHooks (RT:=RT) blockchain (ib_forkManager i) n) h proposer i = Ret (Ok r, i1) →
  hd_Nonce h = nonceDropVote →
  voting h r ∧ (i1 = i ∨ ∃ s, i1 = set_forkManager (set_snapshotStore s (ib_forkManager i)) i).
Proof.
  intros Em Hn. assert (voting h h) as Hvo by (exists (hd_Miner h), (hd_Nonce h); split; [by destruct h|by right]).
  unfold modifyHeader in Em.
  destruct (GetHooks_headers (RT:=RT) blockchain (ib_forkManager i) n) as [[Eh _]|[Eh _]]; rewrite Eh in Em.
  { simplify_eq. split; [done|by left]. }
  destruct (fm_snapshotStore _) as [s|]; [|done]. unfold snap_ModifyHeader in Em.
  destruct (getSnapshot _ s) as [sn|]; [|done]. destruct (getNextCandidate sn proposer s) as [[c|] s']; simplify_eq; (split; [|right; by eexists]); [|done].
  eexists _, _. split; [done|]. destruct (cd_Authorize c); [by left|by right].
Qed.

Lemma buildBlock_built L turns now parent i pool m block i1 pool1 :
  ib_current i = Some m → md_hooks m = GetHooks blockchain (ib_forkManager i) (add64 (hd_Number parent) 1) →
  buildBlock blockchain executor commitSnapshot (Some L) turns now parent i pool = Ret (Ok block, i1, pool1) →
  built L turns parent pool m block i1 ∧ (i1 = i ∨ ∃ s, i1 = set_forkManager (set_snapshotStore s (ib_forkManager i)) i).
Proof.
  intros Hm Hk. unfold buildBlock, current. rewrite Hm. cbn [obind].
  destruct (modifyHeader _ _ _ i) as [[[h1|e] i2]| |] eqn:Em; cbn [obind]; [|done..].
  rewrite Hk in Em. apply modifyHeader_voting in Em as [Hvo Hi2]; [|done].
  destruct (extractParentCommittedSeals parent i2) as [[pcs|e]| |] eqn:Ep; cbn [obind]; [|done..].
  destruct (BeginTxn _ _ _ _) as [t0|e] eqn:Eb; [|done].
  destruct (writeTransactions _ _ _ _ _ _) as [[[txs tb] pool2]| |] eqn:Ew; cbn [obind]; [|done..].
  unfold ibft_PreCommitState. destruct (hook_PreCommitState _ _ _) as [[tb'|e]| |] eqn:Ec; cbn [obind]; [|done..].
  destruct (BuildBlock _ _ _ _) as [blk| |] eqn:Ek; cbn [obind]; [|done..].
  destruct (WriteProposerSeal _ _) as [[h5|e]| |] eqn:Es; cbn [obind]; [|done..].
  destruct (ibft_ComputeHash _ _) as [h6| |] eqn:Eh; cbn [obind]; [|done..]. intros [= <- <- <-]. split; [|done].
  assert (blk = mkBlock (bk_Header blk) txs []) as Ekk.
  { unfold BuildBlock in Ek. repeat match type of Ek with (let~ _ := ?x in _) = _ => destruct x; cbn [obind] in Ek; [|done..] end.
    by simplify_eq. }
  rewrite Ekk in Ek. exists h1. eexists. exists pcs, t0, txs, tb, pool2, tb', (bk_Header blk), h5. cbv zeta. by split_and!.
Qed.

(** *** The header *)

Lemma BuildBlock_header fm s v e h txs rcs h4 :
  GetSigner fm (hd_Number h) = Ok s → carries v e h → extra_for s (hd_Number h) e →
  BuildBlock fm h txs rcs = Ret (mkBlock h4 txs []) →
  ∃ tr rr, CalculateTransactionsRoot txs = Ret tr ∧ CalculateReceiptsRoot rcs = Ret rr ∧
    let h3 := set_roots tr rr EmptyUncleHash h in h4 = set_hd_Hash (seal_hash s v e h3) h3.
Proof.
  intros Hs Hc Hx. unfold BuildBlock.
  assert ((if (length txs =? 0)%nat then Ret EmptyRootHash else CalculateTransactionsRoot txs) = CalculateTransactionsRoot txs) as ->
    by (destruct txs; done).
  assert ((if (length rcs =? 0)%nat then Ret EmptyRootHash else CalculateReceiptsRoot rcs) = CalculateReceiptsRoot rcs) as ->
    by (destruct rcs; done).
  destruct (CalculateTransactionsRoot txs) as [tr| |]; cbn [obind]; [|done..].
  destruct (CalculateReceiptsRoot rcs) as [rr| |]; cbn [obind]; [|done..].
  set (h3 := set_roots tr rr EmptyUncleHash h). unfold ibft_ComputeHash, ibft_HeaderHash. change (hd_Number h3) with (hd_Number h).
  rewrite Hs, (CalculateHeaderHash_carries s v e h3) by (by destruct Hc || done). cbn [obind]. intros [= <-]. by exists tr, rr.
Qed.

(** Sealing a header: its hash stays, and its seal gives its proposer. *)
Lemma sealing fm s v e h4 h5 h6 :
  GetSigner fm (hd_Number h4) = Ok s → carries v e h4 → extra_for s (hd_Number h4) e → hd_Hash h4 = seal_hash s v e h4 →
  WriteProposerSeal s h4 = Ret (Ok h5) → ibft_ComputeHash fm h5 = Ret h6 →
  (∀ sig, SignCompact (km_key (sg_keyManager s)) (keccak (HashBytes (hd_Hash h6))) = Some sig → nth 0 sig 0 = 27 ∨ nth 0 sig 0 = 28) →
  ∃ x seal, h6 = set_ExtraData x h4 ∧ carries v (with_seal seal e) h6 ∧
    ecrecover seal (keccak (HashBytes (hd_Hash h6))) = Ok (sg_Address s).
Proof.
  intros Hs Hc Hx Hh Hw Hk Hrec.
  assert (∃ x seal, h5 = set_ExtraData x h4 ∧ carries v (with_seal seal e) h5) as (x0 & seal0 & E5 & Hc5).
  { unfold WriteProposerSeal in Hw. rewrite (CalculateHeaderHash_carries s v e h4 Hc Hx) in Hw. cbn [obind] in Hw.
    destruct (km_SignProposerSeal _ _) as [seal|]; [|done].
    destruct (packProposerSeal_carries v e h4 seal Hc) as (x & Ex & Hcx). rewrite Ex in Hw. cbn [obind] in Hw.
    injection Hw as <-. by exists x, seal. }
  assert (h6 = set_ExtraData x0 h4) as E6.
  { unfold ibft_ComputeHash, ibft_HeaderHash in Hk. rewrite E5 in Hk, Hc5. change (hd_Number (set_ExtraData x0 h4)) with (hd_Number h4) in Hk.
    rewrite Hs, (CalculateHeaderHash_carries s v (with_seal seal0 e)) in Hk by (done || by apply extra_for_seal). cbn [obind] in Hk.
    injection Hk as <-. rewrite (proj1 (seal_hash_seals s v e h4 seal0 (SerializedSeal []) x0)), <- Hh. by destruct h4. }
  destruct (SignCompact (km_key (sg_keyManager s)) (keccak (HashBytes (seal_hash s v e h4)))) as [sig|] eqn:Esig.
  2: { unfold WriteProposerSeal in Hw. rewrite (CalculateHeaderHash_carries s v e h4 Hc Hx) in Hw. cbn [obind] in Hw.
       unfold km_SignProposerSeal, Sign in Hw. by rewrite Esig in Hw. }
  assert (hd_Hash h6 = seal_hash s v e h4) as Eh by (by rewrite E6).
  destruct (WriteProposerSeal_carries s v e h4 sig Hc Hx Esig) as (x & seal & Ew & Hcx & Hr); [apply Hrec; by rewrite Eh|].
  exists x, seal. rewrite Ew in Hw. injection Hw as Hw. rewrite <- Hw in E5.
  split_and!; [congruence| |congruence]. by rewrite E6, <- E5.
Qed.

(** The seals of the parent that the extra data of its child holds. *)
Lemma extractParentCommittedSeals_for i parent pcs s :
  0 ≤ hd_Number parent → hd_Number parent + 1 < 2 ^ 63 →
  GetSigner (ib_forkManager i) (hd_Number parent + 1) = Ok s →
  extractParentCommittedSeals parent i = Ret (Ok pcs) →
  (hd_Number parent = 0 ∧ pcs = None) ∨
  (0 < hd_Number parent ∧ ∀ sp v0 e0, GetSigner (ib_forkManager i) (hd_Number parent) = Ok sp → carries v0 e0 parent →
     extra_for sp (hd_Number parent) e0 →
     pcs = Some (seals_read (ex_CommittedSeals e0)) ∧ sg_parentKeyManager s = Some (sg_keyManager sp)).
Proof.
  intros Hn Hn' Hs. unfold extractParentCommittedSeals, extractCommittedSeals. destruct (Z.eqb_spec (hd_Number parent) 0); [intros [= <-]; by left|].
  intros He. right. split; [lia|]. intros sp v0 e0 Hsp Hc Hx. rewrite Hsp, (GetIBFTExtra_carries sp v0 e0 parent Hc Hx) in He.
  cbn in He. split; [congruence|]. unfold GetSigner in Hs, Hsp. rewrite Z.gtb_ltb, (proj2 (Z.ltb_lt 1 _)) in Hs by lia.
  rewrite (sub64_ge (hd_Number parent + 1) 1) in Hs by (unfold is_u64, M64; lia). rewrite Z.add_simpl_r in Hs.
  destruct (getKeyManager _ (hd_Number parent + 1)); cbn in Hs; [|done].
  destruct (getKeyManager _ (hd_Number parent)) as [k|]; cbn in Hs, Hsp; [|done]. injection Hs as <-.
  destruct (_ >? 1); [destruct (getKeyManager _ (sub64 _ 1)); cbn in Hsp; [|done]|]; by injection Hsp as <-.
Qed.

(** The header of a block that was built. *)
Record header_of (parent : Header) (L : Z) m (pcs : option Seals) (txs : list Transaction) (t : Transition (RT:=RT)) (h : Header) : Prop := {
  ho_parent : hd_ParentHash h = hd_Hash parent;
  ho_number : hd_Number h = hd_Number parent + 1;
  ho_difficulty : hd_Difficulty h = hd_Number h;
  ho_uncles : hd_Sha3Uncles h = EmptyUncleHash;
  ho_mix : hd_MixHash h = IstanbulDigest;
  ho_nonce : hd_Nonce h = nonceAuthVote ∨ hd_Nonce h = nonceDropVote;
  ho_limit : hd_GasLimit h = L;
  ho_used : hd_GasUsed h = t_totalGas t;
  ho_state : hd_StateRoot h = commitRoot commitSnapshot t;
  ho_txs : CalculateTransactionsRoot txs = Ret (hd_TxRoot h);
  ho_receipts : CalculateReceiptsRoot (t_receipts t) = Ret (hd_ReceiptsRoot h);
  ho_extra : ∃ v seal, carries v (with_seal seal (new_extra (md_signer m) (md_validators m) pcs)) h ∧
    ecrecover seal (keccak (HashBytes (hd_Hash h))) = Ok (sg_Address (md_signer m));
}.

(** The hashes of ancestors depend on the parent only. *)
Definition getHash_by_parent : Prop :=
  ∀ h h', hd_ParentHash h = hd_ParentHash h' → hd_Number h = hd_Number h' → e_GetHash executor h = e_GetHash executor h'.

(** The node that builds: its modules are those of the next height. *)
Record proposing i m (n : Z) : Prop := {
  pr_current : ib_current i = Some m;
  pr_signer : GetSigner (ib_forkManager i) n = Ok (md_signer m);
  pr_hooks : md_hooks m = GetHooks blockchain (ib_forkManager i) n;
  pr_type : vs_Type (md_validators m) = sg_Type (md_signer m);
  pr_typed : Forall (λ v, v_Type v = vs_Type (md_validators m)) (vs_Validators (md_validators m));
  pr_addrs : Forall (λ v, addr_ok (v_Addr v)) (vs_Validators (md_validators m));
}.

(** The parent has the extra data of its height, or is the first block. *)
Definition parent_carries i (parent : Header) : Prop :=
  hd_Number parent = 0 ∨
  ∃ sp v0 e0, GetSigner (ib_forkManager i) (hd_Number parent) = Ok sp ∧ carries v0 e0 parent ∧ extra_for sp (hd_Number parent) e0.

(** The signature of the seal has one of the two usual forms. *)
Definition recoverable (s : SignerImpl) (h : Header) : Prop :=
  ∀ sig, SignCompact (km_key (sg_keyManager s)) (keccak (HashBytes (hd_Hash h))) = Some sig → nth 0 sig 0 = 27 ∨ nth 0 sig 0 = 28.

Lemma new_extra_for i m parent pcs :
  0 ≤ hd_Number parent → hd_Number parent + 1 < 2 ^ 63 → proposing i m (hd_Number parent + 1) → parent_carries i parent →
  extractParentCommittedSeals parent i = Ret (Ok pcs) →
  extra_for (md_signer m) (hd_Number parent + 1) (new_extra (md_signer m) (md_validators m) pcs).
Proof.
  intros Hn Hn' [_ Hs _ Ht Hty Ha] Hpc He. split; cbn; [done..|apply seals_for_empty|].
  destruct (extractParentCommittedSeals_for _ _ _ _ Hn Hn' Hs He) as [[E0 ->]|[Hp Hpcs]]; [left; split; [lia|done]|right]. split; [lia|].
  destruct Hpc as [?|(sp & v0 & e0 & Hsp & Hc & Hx)]; [lia|]. destruct (Hpcs _ _ _ Hsp Hc Hx) as [-> ->].
  eexists _, _. split_and!; [done..|]. apply seals_for_read, Hx.
Qed.

Lemma built_header L turns parent pool i m block i1 :
  0 ≤ hd_Number parent → hd_Number parent + 1 < 2 ^ 63 → proposing i m (hd_Number parent + 1) → parent_carries i parent →
  getHash_by_parent → recoverable (md_signer m) (bk_Header block) →
  built L turns parent pool m block i1 → (i1 = i ∨ ∃ s, i1 = set_forkManager (set_snapshotStore s (ib_forkManager i)) i) →
  ∃ pcs t0 tb pool1 tb' h2,
    extractParentCommittedSeals parent i = Ret (Ok pcs) ∧
    header_of parent L m pcs (bk_Transactions block) tb' (bk_Header block) ∧
    BeginTxn executor (hd_StateRoot parent) (bk_Header block) (sg_Address (md_signer m)) = Ok t0 ∧
    writeTransactions turns (md_hooks m) L (hd_Number parent + 1) t0 pool = Ret (bk_Transactions block, tb, pool1) ∧
    hd_Number h2 = hd_Number parent + 1 ∧
    hook_PreCommitState (GetHooks blockchain (ib_forkManager i1) (hd_Number h2)) h2 tb = Ret (Ok tb') ∧ bk_Uncles block = [].
Proof.
  intros Hn Hn' Hpr Hpc Hgh Hrec (h1 & ts & pcs & t0 & txs & tb & pool1 & tb' & h4 & h5 & (miner & nonce & -> & Hnonce) & Hex & Hb & Hw & Hpre & Hbb & Hwp & Hch & Etx & Eun) Hi1.
  assert (extractParentCommittedSeals parent i = Ret (Ok pcs)) as Hex' by (by destruct Hi1 as [->|[s ->]]).
  assert (GetSigner (ib_forkManager i1) (hd_Number parent + 1) = Ok (md_signer m)) as Hs
    by (destruct Hi1 as [->|[s ->]]; apply (pr_signer _ _ _ Hpr)).
  pose proof (new_extra_for i m parent pcs Hn Hn' Hpr Hpc Hex') as Hx.
  set (h2 := initIbftExtra (md_signer m) _ (md_validators m) pcs) in *.
  assert (hd_Number h2 = hd_Number parent + 1) as En.
  { unfold h2. cbn. apply u64_small. unfold is_u64, M64. lia. }
  assert (∃ v, carries v (new_extra (md_signer m) (md_validators m) pcs) h2) as [v Hc] by (eexists; apply putIbftExtra_carries).
  set (h3 := set_executed (commitRoot commitSnapshot tb') (t_totalGas tb') h2) in *.
  assert (carries v (new_extra (md_signer m) (md_validators m) pcs) h3) as Hc3 by (by destruct Hc).
  destruct (BuildBlock_header (ib_forkManager i1) (md_signer m) v (new_extra (md_signer m) (md_validators m) pcs) h3 txs (t_receipts tb') h4)
    as (tr & rr & Htr & Hrr & E4); [by change (hd_Number h3) with (hd_Number h2); rewrite En|done|by change (hd_Number h3) with (hd_Number h2); rewrite En|done|].
  destruct (sealing (ib_forkManager i1) (md_signer m) v (new_extra (md_signer m) (md_validators m) pcs) h4 h5 (bk_Header block)) as (x & seal & E6 & Hc6 & Hr6); try done.
  1-4: rewrite E4; try change (hd_Number (set_hd_Hash _ _)) with (hd_Number h2); rewrite ?En; try done; by destruct Hc.
  exists pcs, t0, tb, pool1, tb', h2. subst txs.
  split_and!; try done; [| |by rewrite <- En].
  - split; try (exists v, seal; done); rewrite E6, E4; done || exact En.
  - rewrite <- Hb, E6, E4. unfold BeginTxn. cbn [set_ExtraData set_hd_Hash set_roots set_executed hd_Number hd_Timestamp hd_GasLimit hd_Difficulty h3 h2].
    destruct (e_NewSnapshotAt executor (hd_StateRoot parent)); [|done]. by rewrite (Hgh _ h2).
Qed.

(** *** The execution *)

Lemma writeTransactions_replays L I turns hooks n t0 pool txs t pool1 :
  pool_offers L I → I pool → L < 2 ^ 63 → block_inv L t0 → t_receipts t0 = [] →
  writeTransactions turns hooks L n t0 pool = Ret (txs, t, pool1) →
  (∃ t', ProcessTransactions L txs t0 = Ret (Ok t') ∧ block_inv L t' ∧ behind t t' ∧ length (t_receipts t') = length txs) ∧
  (hook_ShouldWriteTransactions (RT:=RT) hooks n = Ret true ∨ hook_ShouldWriteTransactions hooks n = Ret false ∧ txs = []).
Proof.
  intros HP HI HL Hi Hr0. unfold writeTransactions. destruct (hook_ShouldWriteTransactions hooks n) as [[]| |]; cbn [obind negb]; [| |done..].
  - intros Hw. split; [|by left].
    eapply (write_loop_replays L I turns t0 [] t0 t0); [done|by apply HP|done..| |by rewrite Hr0|exact Hw].
    split; [done|]. destruct (rd_gasPool _ (bi_ready _ _ Hi)). lia.
  - intros [= <- <- _]. split; [|by right]. exists t0. split_and!; [done..| |by rewrite Hr0]. split; [done|]. destruct (rd_gasPool _ (bi_ready _ _ Hi)). lia.
Qed.

(** A validator: it has a signer of the same kind as the proposer's, the same
    contract forks, and the proposer among its validators; the parent is the first
    block or final with it. *)
Record judging (w : backendIBFT (RT:=RT)) (mw : modules (RT:=RT)) i m (parent : Header) : Prop := {
  ju_current : ib_current w = Some mw;
  ju_signer : GetSigner (ib_forkManager w) (hd_Number parent + 1) = Ok (md_signer mw);
  ju_hooks : md_hooks mw = GetHooks blockchain (ib_forkManager w) (hd_Number parent + 1);
  ju_kind : same_kind (md_signer m) (md_signer mw);
  ju_pos : fm_posHooks (ib_forkManager w) = fm_posHooks (ib_forkManager i);
  ju_member : set_Includes (md_validators mw) (sg_Address (md_signer m)) = true;
  ju_parent : hd_Number parent = 0 ∨ ∃ mp w1 sp v0 e0,
    getModulesFromForkManager blockchain executor (hd_Number parent) w = Ret (Ok mp, w1) ∧
    CalculateHeaderHash (md_signer mp) parent = Ret (Ok (hd_Hash parent)) ∧
    sg_VerifyCommittedSeals (md_signer mp) parent (md_validators mp) (quorumSize w1 (hd_Number parent) (md_validators mp)) = Ret (Ok ()) ∧
    GetSigner (ib_forkManager i) (hd_Number parent) = Ok sp ∧ same_kind sp (md_signer mp) ∧
    carries v0 e0 parent ∧ extra_for sp (hd_Number parent) e0;
}.

Lemma judging_parent w mw i m parent : judging w mw i m parent → parent_carries i parent.
Proof.
  intros Hj. destruct (ju_parent _ _ _ _ _ Hj) as [?|(? & ? & sp & v0 & e0 & ? & ? & ? & ? & ? & ? & ?)]; [by left|right].
  by exists sp, v0, e0.
Qed.

Lemma getModules_keeps w n r w1 :
  getModulesFromForkManager blockchain executor n w = Ret (r, w1) →
  ∃ c, w1 = set_forkManager c w ∧ fm_posHooks c = fm_posHooks (ib_forkManager w) ∧ GetSigner c = GetSigner (ib_forkManager w).
Proof.
  unfold getModulesFromForkManager. destruct (GetSigner _ n); [|intros [= _ <-]; exists (ib_forkManager w); by destruct w].
  unfold IbftFork.GetValidators.
  destruct (getFork _ n) as [f|]; cbn [obind]; [|intros [= _ <-]; by eexists].
  destruct (getValidatorStoreByIBFTFork _ f) as [[]|], (fm_snapshotStore (ib_forkManager w)), (fm_contractStore (ib_forkManager w)) as [c|]; cbn [obind];
    try (intros [= _ <-]; by eexists).
  all: destruct (contract_GetValidators _ _ _ _ _ _ c) as [[r' c']| |]; cbn [obind]; [|done..]; intros [= _ <-]; by eexists.
Qed.

(** *** The header is accepted *)
Lemma header_accepted w mw i m parent L pcs txs t h :
  0 ≤ hd_Number parent → hd_Number parent + 1 < 2 ^ 63 → hd_Hash parent ≠ ZeroHash →
  proposing i m (hd_Number parent + 1) → judging w mw i m parent →
  extractParentCommittedSeals parent i = Ret (Ok pcs) → header_of parent L m pcs txs t h →
  ∃ w1, verifyHeaderImpl blockchain executor parent h mw true w = Ret (Ok (), w1) ∧
    GetSigner (ib_forkManager w1) = GetSigner (ib_forkManager w) ∧ fm_posHooks (ib_forkManager w1) = fm_posHooks (ib_forkManager w).
Proof.
  intros Hn Hn' Hne Hpr Hj Hex Hh. pose proof (pr_signer _ _ _ Hpr) as Hs. destruct (ho_extra _ _ _ _ _ _ _ Hh) as (v & seal & Hc & Hrec).
  pose proof (judging_parent _ _ _ _ _ Hj) as Hpc.
  pose proof (new_extra_for i m parent pcs Hn Hn' Hpr Hpc Hex) as Hx.
  apply (extra_for_kind _ _ _ _ (ju_kind _ _ _ _ _ Hj)), (extra_for_seal _ _ _ seal) in Hx. rewrite <- (ho_number _ _ _ _ _ _ _ Hh) in Hx.
  unfold verifyHeaderImpl.
  rewrite (ho_mix _ _ _ _ _ _ _ Hh), (ho_uncles _ _ _ _ _ _ _ Hh), (ho_difficulty _ _ _ _ _ _ _ Hh), !Z.eqb_refl. cbn [negb].
  unfold verifyProposerSeal, EcrecoverFromHeader. rewrite (GetIBFTExtra_carries _ v _ h Hc Hx). cbn [obind extra_read with_seal ex_ProposerSeal].
  unfold km_Ecrecover. rewrite Hrec, (ju_member _ _ _ _ _ Hj). cbn [negb obind].
  assert (∃ w1, ibft_verifyParentCommittedSeals blockchain executor parent h true w = Ret (Ok (), w1) ∧
    GetSigner (ib_forkManager w1) = GetSigner (ib_forkManager w) ∧ fm_posHooks (ib_forkManager w1) = fm_posHooks (ib_forkManager w)) as (w1 & -> & Hw1).
  { unfold ibft_verifyParentCommittedSeals, IsGenesis. rewrite (proj2 (Z.eqb_neq _ _) Hne). destruct (Z.eqb_spec (hd_Number parent) 0) as [E0|E0]; [by exists w|].
    destruct (ju_parent _ _ _ _ _ Hj) as [?|(mp & w1 & sp & v0 & e0 & Eg & Hhash & Hver & Hsp & Hkind & Hc0 & Hx0)]; [done|].
    rewrite Eg. cbn [obind]. destruct (getModules_keeps _ _ _ _ Eg) as (c & Ew & ? & ?).
    destruct (extractParentCommittedSeals_for _ _ _ _ Hn Hn' Hs Hex) as [[? _]|[_ Hp]]; [done|]. destruct (Hp _ _ _ Hsp Hc0 Hx0) as [Epcs _].
    rewrite (VerifyParentCommittedSeals_carried (md_signer mp) v0 e0 parent v (with_seal seal (new_extra (md_signer m) (md_validators m) pcs)) h) by (done || by eapply extra_for_kind).
    cbn [obind]. exists w1. by rewrite Ew. }
  cbn [obind]. exists w1. split; [|done]. rewrite (ju_hooks _ _ _ _ _ Hj). unfold hook_VerifyHeader.
  destruct (GetHooks_headers (RT:=RT) blockchain (ib_forkManager w) (hd_Number parent + 1)) as [[_ ->]|[_ ->]]; [done|].
  unfold snap_VerifyHeader. destruct (ho_nonce _ _ _ _ _ _ _ Hh) as [->| ->]; done.
Qed.

(** *** The block is accepted *)

Variable txSigner : Transaction → outcome (result ibft_err Address).
Variable HeaderHash : Header → Hash.
#[local] Instance deps : ChainDeps := ibft_deps blockchain executor commitSnapshot txSigner.

Lemma block_accepted (b : Blockchain) (sw : SignerImpl) m parent T pcs tb t' block :
  let L := calculateGasLimit T (hd_GasLimit parent) in
  0 ≤ hd_Number parent → hd_Number parent + 1 < 2 ^ 63 → hd_Hash parent ≠ ZeroHash →
  is_u64 T → is_u64 (hd_GasLimit parent) → is_u64 (hd_GasLimit parent + hd_GasLimit parent / 1024) →
  caches_ok HeaderHash b → db_headers (bc_db b) !! hd_Hash parent = Some parent →
  GetSigner (ib_forkManager (bc_deps b)) (hd_Number parent + 1) = Ok sw → same_kind (md_signer m) sw →
  extra_for (md_signer m) (hd_Number parent + 1) (new_extra (md_signer m) (md_validators m) pcs) →
  header_of parent L m pcs (bk_Transactions block) tb (bk_Header block) → bk_Uncles block = [] →
  ProcessBlock executor (hd_StateRoot parent) block (sg_Address (md_signer m)) = Ret (Ok t') →
  (∃ t2, hook_PreCommitState (GetHooks blockchain (ib_forkManager (bc_deps b)) (hd_Number (bk_Header block))) (bk_Header block) t' = Ret (Ok t2) ∧
    bare tb = bare t2) →
  length (t_receipts tb) = length (bk_Transactions block) → t_totalGas tb ≤ L →
  ∃ b', VerifyPotentialBlock HeaderHash (Some block) b = Ret (Ok (), b').
Proof.
  intros L Hn Hn' Hne HT HP HP' Hc Hdb Hs Hk Hx Hh Hun Hpb (t2 & Hpre & Hbare) Hlen Hgas. cbn [VerifyPotentialBlock verifyBlock].
  pose proof (ho_parent _ _ _ _ _ _ _ Hh) as Ep. pose proof (ho_number _ _ _ _ _ _ _ Hh) as En.
  unfold verifyBlockParent. rewrite Ep. destruct (readHeader_ok HeaderHash (hd_Hash parent) b Hc) as (b1 & -> & [[Hsc _ Hdeps] Hc1]).
  rewrite Hdb, (proj2 (Z.eqb_neq _ _) Hne), Z.eqb_refl. cbn [negb].
  rewrite En, (sub64_ge (hd_Number parent + 1) 1), Z.add_simpl_r, Z.eqb_refl by (unfold is_u64, M64; lia). cbn [negb].
  rewrite (verifyGasLimit_calculated T) by (try rewrite (ho_used _ _ _ _ _ _ _ Hh); rewrite ?(ho_limit _ _ _ _ _ _ _ Hh); done).
  unfold verifyBlockBody. rewrite Hun. cbn [CalculateUncleRoot]. rewrite (ho_uncles _ _ _ _ _ _ _ Hh), Z.eqb_refl. cbn [negb].
  rewrite (ho_txs _ _ _ _ _ _ _ Hh). cbn [obind]. rewrite Z.eqb_refl. cbn [negb].
  unfold executeBlockTransactions. rewrite Ep. destruct (readHeader_ok HeaderHash (hd_Hash parent) b1 Hc1) as (b2 & -> & [[Hsc2 _ Hdeps2] Hc2]).
  rewrite (sc_db _ _ Hsc), Hdb.
  destruct (ho_extra _ _ _ _ _ _ _ Hh) as (v & seal & Hcar & Hrec).
  apply (extra_for_kind _ _ _ _ Hk), (extra_for_seal _ _ _ seal) in Hx. rewrite <- En in Hx, Hs.
  unfold call_dep at 1. cbn [GetBlockCreator deps ibft_deps]. unfold ibft_GetBlockCreator, EcrecoverFromHeader.
  rewrite Hdeps2, Hdeps, Hs, (GetIBFTExtra_carries _ v _ _ Hcar Hx). cbn [obind extra_read with_seal ex_ProposerSeal].
  unfold km_Ecrecover. rewrite Hrec. cbn [dep_result obind].
  unfold call_dep at 1. cbn [executor_ProcessBlock deps ibft_deps]. rewrite Hpb. cbn [obind].
  unfold call_dep at 1. cbn [PreCommitState deps ibft_deps]. unfold ibft_PreCommitState. cbn [set_deps bc_deps].
  rewrite Hpre. cbn [obind dep_result tr_Commit tr_Receipts tr_TotalGas deps ibft_deps].
  assert (t_receipts t2 = t_receipts tb ∧ t_totalGas t2 = t_totalGas tb ∧ commitRoot commitSnapshot t2 = commitRoot commitSnapshot tb) as (Er & Eg & Ec).
  { pose proof (f_equal t_receipts Hbare) as E1. pose proof (f_equal t_totalGas Hbare) as E2. cbn in E1, E2.
    split_and!; [done..|]. change (commitRoot commitSnapshot (bare t2) = commitRoot commitSnapshot (bare tb)). by rewrite Hbare. }
  unfold verifyBlockResult. cbn [br_Receipts br_Root br_TotalGas].
  rewrite Er, Eg, Ec, Hlen, Nat.eqb_refl, <- (ho_state _ _ _ _ _ _ _ Hh), <- (ho_used _ _ _ _ _ _ _ Hh), !Z.eqb_refl. cbn [negb].
  rewrite (ho_receipts _ _ _ _ _ _ _ Hh). cbn [obind]. rewrite Z.eqb_refl. cbn [negb]. by eexists.
Qed.

(** The staking hooks of two managers with the same registers. *)
Lemma guard_pos (fm fm' : ForkManager) n :
  fm_posHooks fm = fm_posHooks fm' →
  ShouldWriteTransactionFunc (GetHooks (RT:=RT) blockchain fm n) = ShouldWriteTransactionFunc (GetHooks (RT:=RT) blockchain fm' n).
Proof.
  intros E. destruct (poa_keeps (RT:=RT) blockchain fm n) as (E1 & _). destruct (poa_keeps (RT:=RT) blockchain fm' n) as (E2 & _).
  unfold GetHooks, GetHooks_order, pos_RegisterHooks. rewrite E. destruct (fm_posHooks fm') as [r|]; [|congruence].
  destruct (ps_deployContractForks r !! n), (getFork (ps_posForks r) n); cbn; congruence.
Qed.

End block.

(** ** The pool as the consensus uses it

    [TxPool] implements the interface of the sealer, and hands out nothing but what
    it holds. *)

From S2P Require Import Prelude GoHeap Types TxQueue TxAccount Intrinsic TxPool TxPoolInv TxPoolSpec Runtime Crypto EvmState EvmInstr EvmRun StateTxn Signer Executor ExecutorSpec ExecutorBlock Text Validators Snapshot IbftSigner IbftFork Ibft IbftBuild.

Lemma Pop_Permutation {A} (less : A → A → bool) (h h' : list A) x : GoHeap.Pop less h = Some (x, h') → h ≡ₚ x :: h'.
Proof.
  unfold GoHeap.Pop. set (n := (length h - 1)%nat). set (h2 := down _ _ _ _ _). intros Hp.
  destruct (h2 !! n) as [y|] eqn:Hl; [|done]. injection Hp as -> <-.
  assert (length h2 = length h) as Hlen by (unfold h2; by rewrite length_down, length_swap).
  trans h2; [unfold h2; by rewrite down_Permutation, swap_Permutation|].
  rewrite <- (take_drop_middle h2 n x Hl) at 1. rewrite drop_ge by lia. symmetry. apply Permutation_cons_append.
Qed.

Section sealing.
Context `{External}.

#[export] Instance TxPool_SealingPool : SealingPool := {|
  txpool := TxPool;
  txpool_Prepare := Prepare;
  txpool_Peek := Peek;
  txpool_Pop := Pop;
  txpool_Drop := Drop;
  txpool_Demote := Demote;
|}.

(** The transactions that the pool can hand out, and their gas. *)
Definition fits (L : Z) (tx : Transaction) : Prop := tx_wf tx ∧ tx_Gas tx ≤ L.

Record holds (L : Z) (p : TxPool) : Prop := {
  hl_executables : Forall (fits L) (executables p);
  hl_promoted addr a : accounts p !! addr = Some a → Forall (fits L) (promoted a);
}.

Lemma holds_update L addr a p : holds L p → Forall (fits L) (promoted a) → holds L (update_account addr a p).
Proof.
  intros [He Hp] Ha. split; [done|]. intros b x. cbn. rewrite lookup_insert_Some. intros [[_ <-]|[_ ?]]; [done|by eapply Hp].
Qed.

Lemma holds_peek L q tx : Forall (fits L) q → accountQueue.peek q = Some tx → fits L tx.
Proof. intros Hq Hp. rewrite Forall_forall in Hq. apply Hq. unfold accountQueue.peek in Hp. by eapply list_elem_of_lookup_2. Qed.

Lemma holds_Prepare L p : holds L p → holds L (Prepare p).
Proof.
  intros [He Hp]. split; [|intros addr a; unfold Prepare; destruct (negb _); apply Hp]. rewrite Prepare_executables. apply Forall_forall. intros tx (addr & a & Ha & Ht)%elem_of_primaries.
  by eapply holds_peek; [eapply Hp|].
Qed.

Lemma holds_Peek L p : holds L p → holds L (Peek p).2 ∧ ∀ tx, (Peek p).1 = Some tx → fits L tx.
Proof.
  intros [He Hp]. unfold Peek, pricedQueue.pop. destruct (_ =? 0); [done|].
  destruct (GoHeap.Pop _ (executables p)) as [[x q]|] eqn:E; [|done]. apply Pop_Permutation in E. rewrite E in He.
  apply Forall_cons in He as [Hx Hq]. split; [by split|]. by intros tx [= <-].
Qed.

Lemma holds_Pop L tx p p' : holds L p → Pop tx p = Some p' → holds L p'.
Proof.
  intros Hh. unfold Pop. destruct (accounts p !! tx_From tx) as [a|] eqn:Ea; [|done]. cbn [mbind option_bind].
  set (prom := match accountQueue.pop (promoted a) with Some (_, q) => q | None => promoted a end).
  assert (Forall (fits L) prom) as Hprom.
  { pose proof (hl_promoted _ _ Hh _ _ Ea) as Ha. unfold prom, accountQueue.pop. destruct (_ =? 0); [done|].
    destruct (GoHeap.Pop _ (promoted a)) as [[x q]|] eqn:E; [|done]. apply Pop_Permutation in E. rewrite E in Ha. by apply Forall_cons in Ha as []. }
  destruct (holds_update L (tx_From tx) (resetDemotions (set_promoted prom a)) p Hh Hprom) as [He Hp].
  intros [= <-]. destruct (accountQueue.peek _) as [x|] eqn:Ex; split; try done.
  cbn [set_executables executables]. rewrite pricedQueue.priced_push_Permutation. constructor; [|apply He]. exact (holds_peek L prom x Hprom Ex).
Qed.

Lemma holds_Drop L tx p p' : holds L p → Drop tx p = Some p' → holds L p'.
Proof.
  intros [He Hp]. unfold Drop. destruct (accounts p !! tx_From tx) as [a|]; [|done]. cbn. intros [= <-]. split; [done|]. intros b x. cbn.
  rewrite lookup_insert_Some. intros [[_ <-]|[_ ?]]; [constructor|by eapply Hp].
Qed.

Lemma holds_Demote L tx p p' : holds L p → Demote tx p = Some p' → holds L p'.
Proof.
  intros Hh. unfold Demote. destruct (accounts p !! tx_From tx) as [a|] eqn:Ea; [|done]. cbn [mbind option_bind]. destruct (_ >=? _).
  - destruct (Drop tx p) as [p1|] eqn:Ed; [|done]. cbn [mbind option_bind]. pose proof (holds_Drop _ _ _ _ Hh Ed) as Hh1.
    destruct (accounts p1 !! tx_From tx) as [a1|] eqn:Ea1; [|done]. cbn. intros [= <-]. apply holds_update; [done|]. exact (hl_promoted _ _ Hh1 _ _ Ea1).
  - intros [= <-]. destruct (holds_update L (tx_From tx) (incrementDemotions a) p Hh (hl_promoted _ _ Hh _ _ Ea)) as [He Hp]. by split.
Qed.

(** The pool keeps to the interface. *)
Lemma TxPool_offers L : pool_offers L (holds L).
Proof.
  split; [apply holds_Prepare|..].
  - intros p Hp. by apply holds_Peek.
  - intros p tx Hp. by apply holds_Peek.
  - apply holds_Pop.
  - apply holds_Drop.
  - apply holds_Demote.
Qed.
End sealing.
