(* ===== verification/IbftExample.v ===== *)
(** A small network: the theorems on consensus at work.

    Four validators with ECDSA keys, or three with BLS keys, on toy cryptography:
    a signature holds its key, and an aggregate is a sum. *)
From stdpp Require Import strings.
From S2P Require Import Prelude GoHeap Types Runtime Crypto EvmState EvmInstr EvmRun EvmLogic EvmSafe EvmMeta EvmSpec TxQueue TxAccount Intrinsic TxPool StateTxn StateTxnSpec Bloom Blake2f Precompiled Signer Rlp RlpTypes ChainStorage Trie BuildRoot Blockchain BlockchainSpec Executor ExecutorInv ExecutorSpec ExecutorBlock TrieExample ExecutorExample Text Validators Snapshot SnapshotSpec IbftSigner IbftSignerSpec Staking StakingSpec ContractStore IbftFork IbftForkSpec Ibft IbftSpec IbftBuild IbftBuildSpec IbftOperator.

Module Toy.
Export PrefixCode.
#[export] Existing Instances ToyState.rt ToyState.pool ToyState.crypto ToyState.pool_laws ToyState.crypto_laws.

(** The signature of a key is the key. *)
Definition curve : Secp256k1 := {|
  PrivateKey := Z;
  PublicKey k := (k mod 256 ^ 32, 2);
  RecoverCompact sig _ := Some (SetBytes (take 32 (drop 1 sig)), 2);
  SignCompact k _ := Some (27 :: be_bytes 32 k ++ be_bytes 32 7);
|}.
#[export] Existing Instance curve.
#[export] Instance curve_laws : Secp256k1Laws.
Proof.
  assert (∀ k n, length (be_bytes n k) = n) as Hl by (intros; apply length_be_bytes).
  split; intros k h sig; cbn [SignCompact RecoverCompact PublicKey curve]; intros Hs; apply (inj Some) in Hs as <-.
  - split; [by cbn [length]; rewrite length_app, !Hl|]. constructor; [unfold byte_range; lia|]. apply Forall_app. split; apply be_bytes_range.
  - change (drop 1 (27 :: ?l)) with l. rewrite take_app_length' by (by rewrite Hl). f_equal. f_equal. apply SetBytes_be_bytes.
Qed.

(** Keys and signatures are numbers, equal when they belong together; aggregates
    are sums. *)
Definition bls : BLS := {|
  bls_SecretKey := Z;
  bls_PublicKey := Z;
  bls_Signature := Z;
  bls_MultiPublicKey := Z;
  bls_MultiSignature := Z;
  pk_UnmarshalBinary := head;
  sig_UnmarshalBinary := head;
  sig_MarshalBinary s := Some [s];
  ms_UnmarshalBinary := head;
  ms_MarshalBinary s := Some [s];
  bls_Sign k _ := Some k;
  bls_Verify pk _ sig := Some (pk =? sig);
  AggregateSignatures l := Some (foldr Z.add 0 l);
  AggregatePublicKeys l := Some (foldr Z.add 0 l);
  VerifyMultiSignature pk _ sig := Some (pk =? sig);
|}.
#[export] Existing Instance bls.
#[export] Instance bls_laws : BLSLaws.
Proof.
  split.
  - intros pks sigs sigs' msg Hf Hp _. eexists _, _. split; [done|]. split; [done|]. cbn.
    assert (pks = sigs) as ->.
    { clear sigs' Hp. induction Hf as [|pk sig pks sigs Hv Hf IH]; [done|]. cbn in Hv. injection Hv as Hv%Z.eqb_eq. by subst. }
    f_equal. apply Z.eqb_eq. clear Hf. induction Hp; cbn; lia.
  - intros sigs ms _. by exists [ms].
Qed.

(** Insertion sort. *)
Fixpoint insert {A} (less : A → A → bool) (x : A) (l : list A) : list A :=
  match l with
  | [] => [x]
  | y :: l => if less y x then y :: insert less x l else x :: y :: l
  end.
Definition sorting : GoSort := {| sort_Sort A less := foldr (insert less) [] |}.
#[export] Existing Instance sorting.
Lemma insert_Permutation {A} (less : A → A → bool) x l : insert less x l ≡ₚ x :: l.
Proof. induction l as [|y l IH]; [done|]. cbn. destruct (less y x); [|done]. rewrite IH. apply Permutation_swap. Qed.
#[export] Instance sorting_laws : GoSortLaws.
Proof.
  split; intros A less l.
  - cbn. induction l as [|x l IH]; [done|]. cbn. by rewrite insert_Permutation, IH.
  - intros Hw. cbn. induction l as [|x l IH]; cbn; [constructor|]. set (s := foldr (insert less) [] l) in *. clearbody s. clear l.
    assert (∀ y, less y x = false → ∀ z, less z y = false → less z x = false) as Htr by (intros y Hy z Hz; by eapply less_negtrans).
    induction IH as [|y s Hs IHs Hy]; cbn; [repeat constructor|]. destruct (less y x) eqn:E.
    + constructor; [done|]. rewrite insert_Permutation. constructor; [by apply less_asym|done].
    + constructor; [by constructor|]. constructor; [done|]. eapply Forall_impl; [exact Hy|]. cbn. intros z Hz. by eapply less_negtrans.
Qed.
End Toy.

Module Network.
Export Toy.

(** The contract at the staking address returns two bytes, and the decoder takes
    every byte for an address. *)
Definition abi : EthgoAbi := {|
  abi_Method := ();
  StakingABI_Methods _ := Some ();
  method_ID _ := [1; 2; 3; 4];
  Outputs_Decode _ out := Some (IfaceMap [(str "0", IfaceAddresses out)]);
|}.
#[export] Existing Instance abi.
Definition code : bytes := [0x60; 5; 0x60; 0; 0x53; 0x60; 6; 0x60; 1; 0x53; 0x60; 2; 0x60; 0; 0xF3].

Definition committed : readSnapshot (RT:=gmap Z) := {|
  snap_accounts := <[4097 := mkAcc 1 0 emptyStateHash 1234]> (<[100 := mkAcc 0 1000000 emptyStateHash (Keccak256 [])]> ∅);
  snap_GetStorage _ _ _ := 0;
  snap_GetCode hash := if hash =? 1234 then Some code else None;
|}.
Definition executor : Executor (RT:=gmap Z) := mkExecutor AllForksEnabled 5 (λ _, Some committed) (λ _ _, 0).
Definition commitSnapshot (_ : readSnapshot (RT:=gmap Z)) (m : gmap Z Object) : Hash := 10 + Z.of_nat (size m).

(** ** Proof of authority *)

Definition addr (k : Z) : Address := PubKeyToAddress (PublicKey k).
Definition validators : ValSet := NewECDSAValidatorSet [addr 1; addr 2; addr 3; addr 4].
Definition fork : IBFTFork := mkFork PoA ECDSAValidatorType None 0 None None None None.
Definition signer (k : Z) (n : Z) : SignerImpl :=
  mkSigner (ECDSAKeyManager (k : PrivateKey)) (if n >? 1 then Some (ECDSAKeyManager (k : PrivateKey)) else None).

Definition value {A} (d : A) (o : outcome A) : A := match o with Ret a => a | _ => d end.
Definition got {E A} (d : A) (o : outcome (result E A)) : A := match o with Ret (Ok a) => a | _ => d end.

(** The first header, with the validators. *)
Definition first : Header :=
  let h := initIbftExtra (signer 1 0) (mkHeader 0 EmptyUncleHash [] 6 EmptyRootHash EmptyRootHash (zeros 256) 0 0 5000000 0 1000 [] IstanbulDigest (zeros 8) 0) validators None in
  set_hd_Hash (got 0 (CalculateHeaderHash (signer 1 0) h)) h.
Definition chain (l : list Header) : HeaderGetter := mkGetter (default first (list.last l)) (λ n, if n <? 0 then None else l !! Z.to_nat n).

(** The manager of the node with key [k], with snapshots [s]. *)
Definition manager (k : Z) (s : option SnapshotValidatorStore) : ForkManager :=
  mkFM [fork] 10 {[ ECDSAValidatorType := ECDSAKeyManager (k : PrivateKey) ]} s None (Some (NewPoAHookRegisterer [fork])) None.
Definition snapshots0 : SnapshotValidatorStore :=
  got (mkSVS (newSnapshotStore None []) []) (NewSnapshotValidatorStore (fm_getSigner (manager 1 None)) 10 (chain [first]) None []).

Definition modules_of (m : ForkManager) (n : Z) (k : Z) : modules (RT:=gmap Z) :=
  mkModules (signer k n) validators (GetHooks (chain [first]) m n).
Definition node (k : Z) : backendIBFT (RT:=gmap Z) :=
  let m := manager k (Some snapshots0) in mkIBFT m (Some (modules_of m 1 k)) 10 0 2000000000.

Definition transfer7 : Transaction := ComputeHash (mkTransaction 0 2 21000 (Some 200) 7 [] None None None 0 100).
Definition txs : TxPool :=
  set_accounts {[ 100 := set_promoted [transfer7] (newAccount 10 0) ]} (NewTxPool true true (TxPool.mkConfig 0 100 10 [])).

(** The node with key 1 builds a block with the transaction of its pool. *)
Definition built1 : outcome (result build_err Block * backendIBFT (RT:=gmap Z) * TxPool) :=
  buildBlock (chain [first]) executor commitSnapshot (Some 5000000) 3 (time_of_Unix 2000) first (node 1) txs.
Definition block1 : Block := match built1 with Ret (Ok b, _, _) => b | _ => mkBlock first [] [] end.
Definition node1 : backendIBFT (RT:=gmap Z) := match built1 with Ret (_, i, _) => i | _ => node 1 end.
Definition txs1 : TxPool := match built1 with Ret (_, _, p) => p | _ => txs end.

Lemma built1_ok : built1 = Ret (Ok block1, node1, txs1) ∧ length (bk_Transactions block1) = 1%nat.
Proof.
  assert (match built1 with Ret (Ok b, _, _) => length (bk_Transactions b) =? 1 | _ => false end%nat = true) as E by (vm_compute; reflexivity).
  unfold block1, node1, txs1. destruct built1 as [[[[b|] i] p]| |]; try discriminate E. split; [reflexivity|]. by apply Nat.eqb_eq.
Qed.

Lemma block1_ok : header_ok (bk_Header block1).
Proof.
  assert (match built1 with Ret (Ok b, _, _) => bool_decide (0 ≤ hd_Number (bk_Header b) < 2 ^ 63 ∧ 0 ≤ hd_Timestamp (bk_Header b) < 2 ^ 63
    ∧ 0 ≤ hd_GasLimit (bk_Header b) < 2 ^ 63) | _ => false end = true) as E by (vm_compute; reflexivity).
  unfold block1. destruct built1 as [[[[b|] i] p]| |]; try discriminate E. apply bool_decide_eq_true in E as (? & ? & ?). by split.
Qed.

Lemma network_state_ok : committed_ok committed.
Proof.
  split; [by vm_compute|]. intros hash c. cbn. case_match; [|done]. intros [= <-]. split; [by repeat constructor|done].
Qed.

Lemma validators_ok : set_ok validators.
Proof. split; [by repeat constructor|]. apply (bool_decide_eq_true_1 _). vm_compute. reflexivity. Qed.

Lemma proposing1 : proposing (chain [first]) (node 1) (modules_of (manager 1 (Some snapshots0)) 1 1) (hd_Number first + 1).
Proof.
  split; [reflexivity..|by repeat constructor|]. repeat constructor; apply (bool_decide_eq_true_1 _); vm_compute; reflexivity.
Qed.

(** The node with key 2 has the parent. *)
Definition headerHash (h : Header) : Hash := value 0 (ibft_HeaderHash (manager 1 None) h).
Definition deps : ChainDeps := ibft_deps (chain [first]) executor commitSnapshot (λ _, Ret (Ok 0)).
#[export] Existing Instance deps.
Definition chain2 : Blockchain := NewBlockchain (WriteHeader first empty_db) (node 2 : @dep_state deps).

Lemma chain2_caches : caches_ok headerHash chain2.
Proof.
  split; [apply lru_all_New..|]. intros k h.
  change (db_headers (bc_db chain2)) with (<[hd_Hash first := first]> (∅ : gmap Hash Header)). rewrite lookup_insert_Some, lookup_empty.
  intros [[_ <-]|[_ [=]]]. vm_compute. reflexivity.
Qed.

Lemma judging2 : judging (chain [first]) executor (bc_deps chain2) (modules_of (manager 2 (Some snapshots0)) 1 2)
  (node 1) (modules_of (manager 1 (Some snapshots0)) 1 1) first.
Proof. split; [reflexivity..|by split|reflexivity|vm_compute; reflexivity|by left]. Qed.

Lemma txs_hold : holds 5000000 txs.
Proof.
  split; [constructor|]. intros a x. cbn. rewrite lookup_singleton_Some. intros [_ <-]. constructor; [|constructor].
  split; [|cbn; lia]. split; cbn; try lia. apply go_bytes_nil.
Qed.


(** ** Turns *)

Lemma proposers_take_turns_witness :
  (λ k, CalcProposer validators (0 + Z.of_nat k) (addr 1)) <$> seq 0 4 ≡ₚ Ret <$> vs_Validators validators.
Proof. apply (proposers_take_turns validators 0 (addr 1)); vm_compute; (discriminate || reflexivity). Defined.

(** ** Votes *)

(** A header of number [n] proposed by key [k], with a vote for 999. *)
Definition proposed (k n time : Z) : Header :=
  let s := signer k n in
  let h := mkHeader (hd_Hash first) EmptyUncleHash (AddressBytes 999) 6 EmptyRootHash EmptyRootHash (zeros 256) n n 5000000 0 time []
             IstanbulDigest nonceAuthVote 0 in
  let h := initIbftExtra s h validators (if n >? 1 then Some (SerializedSeal []) else None) in
  let h := set_hd_Hash (got 0 (CalculateHeaderHash s h)) h in
  got first (WriteProposerSeal s h).

Definition getSigner : Z → result () (option SignerInterface) := fm_getSigner (manager 1 None).
Definition h1 : Header := proposed 1 1 2000.
Definition h2 : Header := proposed 2 2 3000.
Definition h3 : Header := proposed 3 3 4000.
Definition process (h : Header) (s : SnapshotValidatorStore) : SnapshotValidatorStore :=
  match snap_ProcessHeader getSigner 10 h s with Ret (_, s) => s | _ => s end.
Definition s1 : SnapshotValidatorStore := process h1 snapshots0.
Definition s2 : SnapshotValidatorStore := process h2 s1.
Definition s3 : SnapshotValidatorStore := process h3 s2.

Lemma process_ok h s : match snap_ProcessHeader getSigner 10 h s with Ret (Ok _, _) => true | _ => false end = true →
  snap_ProcessHeader getSigner 10 h s = Ret (Ok (), process h s).
Proof. unfold process. by destruct (snap_ProcessHeader getSigner 10 h s) as [[[[]|] ?]| |]. Qed.

Lemma snapshots0_ok : NewSnapshotValidatorStore getSigner 10 (chain [first]) None [] = Ret (Ok snapshots0).
Proof.
  assert (match NewSnapshotValidatorStore getSigner 10 (chain [first]) None [] with Ret (Ok _) => true | _ => false end = true) as E by (vm_compute; reflexivity).
  unfold snapshots0. fold getSigner. by destruct (NewSnapshotValidatorStore getSigner 10 (chain [first]) None []) as [[]| |].
Qed.

Definition poll0 : poll := mkPoll validators ∅.
Definition poll1 : poll := poll_step getSigner 10 h1 poll0.

Lemma reached1 : reach getSigner 10 s1 [SnapshotSpec.mkEntry first poll0; SnapshotSpec.mkEntry h1 poll1].
Proof.
  apply (reach_process getSigner 10 snapshots0 [SnapshotSpec.mkEntry first poll0] h1 s1 (SnapshotSpec.mkEntry first poll0)).
  - apply (reach_start getSigner 10 (chain [first]) snapshots0 (signer_interface (signer 1 0)) validators);
      [reflexivity|reflexivity|vm_compute; reflexivity|exact validators_ok|exact snapshots0_ok].
  - vm_compute. reflexivity.
  - vm_compute. split; [discriminate|reflexivity].
  - apply process_ok. vm_compute. reflexivity.
  - reflexivity.
Qed.

Definition poll2 : poll := poll_step getSigner 10 h2 poll1.
Definition entries : list SnapshotSpec.entry :=
  [SnapshotSpec.mkEntry first poll0; SnapshotSpec.mkEntry h1 poll1; SnapshotSpec.mkEntry h2 poll2].

Lemma reached2 : reach getSigner 10 s2 entries.
Proof.
  apply (reach_process getSigner 10 s1 [SnapshotSpec.mkEntry first poll0; SnapshotSpec.mkEntry h1 poll1] h2 s2 (SnapshotSpec.mkEntry h1 poll1)).
  - exact reached1.
  - vm_compute. reflexivity.
  - vm_compute. split; [discriminate|reflexivity].
  - apply process_ok. vm_compute. reflexivity.
  - reflexivity.
Qed.

Definition validators5 : ValSet := NewECDSAValidatorSet [addr 1; addr 2; addr 3; addr 4; 999].

Lemma snapshots_follow_polls_witness : GetValidatorsByHeight 2 s2 = Ok validators.
Proof.
  destruct (snapshots_follow_polls getSigner 10 eq_refl s2 entries reached2) as (x & rest & El & Hx & Hr & _).
  assert (sn_Number x = 0) as Ex by (assert (sn_Number <$> head (st_list (sv_store s2)) = Some 0) as E by (vm_compute; reflexivity);
    rewrite El in E; by injection E).
  destruct (Hr 2%nat (SnapshotSpec.mkEntry h2 poll2)) as [Hv _]; [lia|reflexivity|]. etransitivity; [exact Hv|]. vm_compute. reflexivity.
Defined.


Lemma set_changes_by_majority_witness : ∃ c (voters : list Address),
  (vs_Validators validators5 = vs_Validators validators ++ [c] ∨ vs_Validators validators5 = filter (λ v, v_Addr v ≠ v_Addr c) (vs_Validators validators)) ∧
  4 < 2 * Z.of_nat (length voters).
Proof.
  destruct (set_changes_by_majority getSigner 10 eq_refl s2 entries h3 s3 validators validators5 reached2) as (c & voters & Hc & _ & Hlen & _).
  - vm_compute. reflexivity.
  - vm_compute. split; [discriminate|reflexivity].
  - apply process_ok. vm_compute. reflexivity.
  - vm_compute. reflexivity.
  - vm_compute. reflexivity.
  - vm_compute. discriminate.
  - exists c, voters. split; [exact Hc|exact Hlen].
Defined.

(** ** Seals *)

(** Three validators with BLS keys; the first seals, the first and the third
    commit. *)
Definition bls_validators : ValSet := NewBLSValidatorSet [(1, [11]); (2, [12]); (3, [13])].
Definition bls_signer : SignerImpl := mkSigner (BLSKeyManager (1 : PrivateKey) (11 : bls_SecretKey)) None.
Definition bls_seals : list (Address * bytes) := [(3, [13]); (1, [11])].
Definition plain : Header :=
  mkHeader (hd_Hash first) EmptyUncleHash [] 6 EmptyRootHash EmptyRootHash (zeros 256) 1 1 5000000 0 2000 [] IstanbulDigest (zeros 8) 0.

Lemma bls_validators_ok : set_ok bls_validators.
Proof. split; [by repeat constructor|]. apply (bool_decide_eq_true_1 _). vm_compute. reflexivity. Qed.

Lemma bls_extra : extra_for bls_signer (hd_Number plain)
  (mkExtra bls_validators [] (km_NewEmptyCommittedSeals (sg_keyManager bls_signer)) None).
Proof. split; [reflexivity|by repeat constructor|repeat constructor; (vm_compute; discriminate || reflexivity)|done|by left]. Qed.

Lemma bls_seals_ok msg : Forall (seal_ok (sg_keyManager bls_signer) bls_validators msg) bls_seals.
Proof. repeat constructor. Qed.

Lemma committed_header_verifies_witness :
  ∃ h3, IbftSigner.GetValidators bls_signer h3 = Ret (Ok bls_validators) ∧ sg_VerifyCommittedSeals bls_signer h3 bls_validators 2 = Ret (Ok ()).
Proof.
  destruct (committed_header_verifies bls_signer plain bls_validators None bls_extra bls_validators_ok) as (hash & _ & Hs).
  destruct (Hs _ eq_refl (or_introl eq_refl)) as (h2 & _ & _ & Hm).
  destruct (Hm bls_seals) as (h3 & _ & _ & Hv & _ & Hq); [discriminate|apply (bool_decide_eq_true_1 _); vm_compute; reflexivity|apply bls_seals_ok|].
  exists h3. split; [exact Hv|]. apply Hq. vm_compute. discriminate.
Defined.

(** Two headers of height 1, sealed by three of the four validators each. *)
Definition seal_of (k : Z) : bytes := be_bytes 32 k ++ be_bytes 32 7 ++ [0].
Definition committed_by (ks : list Z) (h : Header) : Header :=
  got first (WriteCommittedSeals (signer 1 1) h ((λ k, (addr k, seal_of k)) <$> ks)).
Definition hA : Header := committed_by [1; 2; 3] (proposed 1 1 2000).
Definition hB : Header := committed_by [4; 2; 3] (proposed 3 1 2002).
Definition after (h : Header) : backendIBFT (RT:=gmap Z) :=
  match ibft_VerifyHeader (chain [first]) executor h (node 1) with Ret (_, i) => i | _ => node 1 end.

Lemma header_verified h : match ibft_VerifyHeader (chain [first]) executor h (node 1) with Ret (Ok _, _) => true | _ => false end = true →
  ibft_VerifyHeader (chain [first]) executor h (node 1) = Ret (Ok (), after h).
Proof. unfold after. by destruct (ibft_VerifyHeader (chain [first]) executor h (node 1)) as [[[[]|] ?]| |]. Qed.

Lemma node1_ok : fm_ok (ib_forkManager (node 1)).
Proof.
  split; [|done]. intros s [= <-].
  assert (sn_Set <$> st_list (sv_store snapshots0) = [validators]) as E by (vm_compute; reflexivity).
  apply Forall_forall. intros sn Hin. assert (sn_Set sn ∈ [validators]) as ->%list_elem_of_singleton; [|exact validators_ok].
  rewrite <- E. by apply list_elem_of_fmap_2.
Qed.

Lemma modules_hA m i' : getModulesFromForkManager (chain [first]) executor (hd_Number hA) (node 1) = Ret (Ok m, i') →
  CalcMaxFaultyNodes (md_validators m) = 1.
Proof.
  assert (match getModulesFromForkManager (chain [first]) executor (hd_Number hA) (node 1) with
          | Ret (Ok m, _) => CalcMaxFaultyNodes (md_validators m) =? 1 | _ => false end = true) as E by (vm_compute; reflexivity).
  intros Hm. rewrite Hm in E. by apply Z.eqb_eq.
Qed.


(** ** Proof of stake *)

Definition pos_fork : IBFTFork := mkFork PoS ECDSAValidatorType None 0 None None None None.
Definition pos_manager : ForkManager :=
  mkFM [pos_fork] 10 {[ ECDSAValidatorType := ECDSAKeyManager (1 : PrivateKey) ]} None (Some NewContractValidatorStore) None
    (Some (NewPoSHookRegister [pos_fork] 10)).

Lemma pos_manager_ok : pos_ok (chain [first]) executor pos_manager.
Proof.
  split.
  - split; [|by repeat constructor]. intros t k. cbn [pos_manager fm_keyManagers]. rewrite lookup_singleton_Some. by intros [<- <-].
  - intros i j f g Hij Hi Hj. apply lookup_lt_Some in Hi, Hj. cbn in *. lia.
  - repeat constructor; vm_compute; discriminate.
  - done.
  - intros s [= <-]. apply lru_all_New.
Qed.

Lemma fetched0 : fetched (chain [first]) executor ECDSAValidatorType 0 (NewECDSAValidatorSet [5; 6]).
Proof.
  assert (match getTransitionForQuery (chain [first]) executor 0 with
          | Ok t => match FetchValidators ECDSAValidatorType t ZeroAddress with Ret (Ok v, _) => bool_decide (v = NewECDSAValidatorSet [5; 6]) | _ => false end
          | Err _ => false end = true) as E by (vm_compute; reflexivity).
  unfold fetched. destruct (getTransitionForQuery (chain [first]) executor 0) as [t|]; [|discriminate E].
  destruct (FetchValidators ECDSAValidatorType t ZeroAddress) as [[[v|] t']| |] eqn:Ef; try discriminate E.
  apply bool_decide_eq_true in E. subst v. by exists t, t'.
Qed.


Lemma predeployed_storage_witness :
  ∃ account, PredeployStakingSC (Some (NewECDSAValidatorSet [5; 6])) (mkPredeployParams 1 100) = Some account ∧
    ga_Balance account = Some (2 * 10 ^ 19).
Proof.
  destruct (predeployed_storage (NewECDSAValidatorSet [5; 6]) (mkPredeployParams 1 100)) as (a & Ha & Hb & _).
  - repeat constructor; vm_compute; discriminate.
  - vm_compute. split; [discriminate|reflexivity].
  - vm_compute. split; [discriminate|reflexivity].
  - vm_compute. reflexivity.
  - apply (bool_decide_eq_true_1 _). vm_compute. reflexivity.
  - exists a. split; [exact Ha|exact Hb].
Defined.
End Network.

(** ** Operators *)

Module Operating.
Export Network.

(** From proof of authority to proof of stake at height 50. *)
Definition config : ibft_config := IbftFork.mkConfig (Some PoA) (Some ECDSAValidatorType) None.
Definition params : switchParams := raw_params PoS (str "40") (str "0x32") ECDSAValidatorType [] [] [] (str "4").
Definition old_fork : IBFTFork := mkFork PoA ECDSAValidatorType None 0 None None None None.
Definition new_config : ibft_config :=
  IbftFork.mkConfig None (Some ECDSAValidatorType) (Some (Some [set_To 49 old_fork; mkFork PoS ECDSAValidatorType (Some 40) 50 None None None (Some 4)])).

Definition managed (cfg : ibft_config) : ForkManager :=
  match NewForkManager (Some (1 : @PrivateKey curve)) None 10 cfg with Ok m => m | Err _ => manager 1 None end.

Lemma config_schedule : schedule [old_fork].
Proof. exists [], old_fork, 0. split; [done|]. split; [constructor|done]. Qed.

Lemma switched : ibft_switch None (Some (Some config)) params = Ret (Ok new_config).
Proof. by vm_compute. Qed.

Lemma config_forks : GetIBFTForks config = Ok [old_fork].
Proof. by vm_compute. Qed.
Lemma managed_ok cfg : match NewForkManager (Some (1 : @PrivateKey curve)) None 10 cfg with Ok _ => true | Err _ => false end = true →
  NewForkManager (Some (1 : @PrivateKey curve)) None 10 cfg = Ok (managed cfg).
Proof. unfold managed. by destruct (NewForkManager _ _ _ _). Qed.
Lemma config_managed : NewForkManager (Some (1 : @PrivateKey curve)) None 10 config = Ok (managed config).
Proof. apply managed_ok. by vm_compute. Qed.
Lemma new_config_managed : NewForkManager (Some (1 : @PrivateKey curve)) None 10 new_config = Ok (managed new_config).
Proof. apply managed_ok. by vm_compute. Qed.

Lemma switch_keeps_history_witness : ∃ p' fs' g, initRawParams None (Some (Some config)) params = Ret (Ok p') ∧ GetIBFTForks new_config = Ok fs' ∧ schedule fs' ∧
    (∀ f, last [old_fork] = Some f → fk_From f < sp_from p') ∧
    (∀ h, 0 ≤ h < sp_from p' → settings <$> getFork fs' h = settings <$> getFork [old_fork] h ∧ is_Some (getFork [old_fork] h) ∧
       GetSigner (managed new_config) h = GetSigner (managed config) h) ∧
    ∀ h, sp_from p' ≤ h → getFork fs' h = Some g ∧ fk_Type g = sp_ibftType p' ∧ fk_ValidatorType g = sp_ibftValidatorType p'.
Proof.
  exact (switch_keeps_history _ _ None (Some (Some config)) params config [old_fork] new_config 10 (managed config) (managed new_config)
    eq_refl config_forks config_schedule switched config_managed new_config_managed).
Defined.

(** The operator of the first node proposes a fifth validator. *)
Definition request : candidate_req := mkReq (str "0x00000000000000000000000000000000000003e7") None true.
Definition asked : backendIBFT (RT:=gmap Z) := match op_Propose (chain [first]) request (node 1) with Ret (_, i) => i | _ => node 1 end.

Lemma accepted : op_Propose (chain [first]) request (node 1) = Ret (Ok (), asked).
Proof.
  assert (match op_Propose (chain [first]) request (node 1) with Ret (Ok _, _) => true | _ => false end = true) as H by by vm_compute.
  unfold asked. by destruct (op_Propose (chain [first]) request (node 1)) as [[[[]|] ?]| |].
Qed.
Definition candidate : Candidate := mkCandidate (ECDSAValidator 999) true.
Definition voting : SnapshotValidatorStore := set_candidates [candidate] snapshots0.
Definition snapshot0 : Snapshot := match getSnapshot 0 snapshots0 with Some sn => sn | None => mkSnapshot 0 [] [] validators end.

Lemma asked_store : fm_snapshotStore (ib_forkManager asked) = Some voting.
Proof. by vm_compute. Qed.
Lemma snapshot0_ok : getSnapshot (hd_Number first) voting = Some snapshot0 ∧ snap_ok snapshot0.
Proof.
  assert (sn_Set snapshot0 = validators ∧ sn_Votes snapshot0 = []) as [Es Ev] by by vm_compute.
  split; [by vm_compute|]. revert Es Ev. generalize snapshot0. intros sn Es Ev. destruct sn as [n h votes set]. cbn in Es, Ev. subst.
  split; [exact validators_ok|constructor|by intros v ?%elem_of_nil].
Qed.
Lemma candidate_pending : pending snapshot0 (addr 1) candidate.
Proof. split; by vm_compute. Qed.
Lemma proposer_member : addr 1 ∈ addrs (sn_Set snapshot0).
Proof. apply set_Includes_spec. by vm_compute. Qed.

End Operating.
