(* ===== verification/Syncer.v ===== *)
(** Package [syncer]: how a node catches up with its peers ([peers.go],
    [client.go], [service.go], [syncer.go]).

    The network is another package: what a call to a peer gives is an argument.
    A stream of blocks is the list of what arrives on it, and its end is the end
    of the channel.  The goroutines share the map of peers, a [sync.Map], and the
    chain: the handlers of peers and their status are functions on the map
    ([on_peers]), and the loop of [Sync] is one [Sync_turn] per signal.  [Range] visits the entries of a map
    in any order, which is an argument. *)
From stdpp Require Import strings.
From S2P Require Import Prelude Types Runtime Crypto StateTxn Bloom Rlp RlpTypes ChainStorage Trie BuildRoot Blockchain Text.

(** ** Peers ([peers.go]) *)

(** [peer.ID] of libp2p. *)
Definition peer_ID : Type := bytes.

Record NoForkPeer := mkPeer {
  p_ID : peer_ID;
  p_Number : Z;
  p_Distance : Z;
}.

#[export] Instance NoForkPeer_eq_dec : EqDecision NoForkPeer.
Proof. solve_decision. Defined.

Definition IsBetter (p t : NoForkPeer) : bool :=
  if negb (p_Number p =? p_Number t) then p_Number p >? p_Number t else p_Distance p <? p_Distance t.

Section peers.
(** [peer.ID.String]. *)
Variable ID_String : peer_ID → bytes.

Definition PeerMap : Type := gmap bytes NoForkPeer.

(** The arguments are pointers, which may be nil. *)
Fixpoint Put (peers : list (option NoForkPeer)) (m : PeerMap) : outcome PeerMap :=
  match peers with
  | [] => Ret m
  | None :: _ => Panic
  | Some peer :: rest => Put rest (<[ID_String (p_ID peer) := peer]> m)
  end.

Definition NewPeerMap (peers : list (option NoForkPeer)) : outcome PeerMap := Put peers ∅.

Definition Remove (peerID : peer_ID) (m : PeerMap) : PeerMap := base.delete (ID_String peerID) m.

(** The values [Range] visits, in its order; a nil map skips nothing. *)
Definition BestPeer (values : list NoForkPeer) (skipMap : option (gset peer_ID)) : option NoForkPeer :=
  foldl (λ bestPeer peer,
    if bool_decide (p_ID peer ∈ default ∅ skipMap) then bestPeer
    else match bestPeer with
         | None => Some peer
         | Some best => if IsBetter peer best then Some peer else bestPeer
         end) None values.

(** ** Statuses ([client.go]) *)

(** What the network knows of a peer: its answer to [GetStatus], which may be an
    error, and its distance. *)
Record Network := {
  net_GetStatus : peer_ID → option Z;
  net_GetPeerDistance : peer_ID → Z;
  net_IsConnected : peer_ID → bool;
}.

Definition GetPeerStatus (net : Network) (peerID : peer_ID) : option NoForkPeer :=
  status ← net_GetStatus net peerID; Some (mkPeer peerID status (net_GetPeerDistance net peerID)).

(** One goroutine per peer, each appending its status when it has it: [ps] is in
    the order they do.  On an error the status is a nil pointer. *)
Definition GetConnectedPeerStatuses (net : Network) (ps : list peer_ID) : list (option NoForkPeer) := GetPeerStatus net <$> ps.

(** The status put on the channel for a gossiped message, if any. *)
Definition handleStatusUpdate (net : Network) (status : Z) (from : peer_ID) : option NoForkPeer :=
  if negb (net_IsConnected net from) then None else Some (mkPeer from status (net_GetPeerDistance net from)).

Definition initializePeerMap (net : Network) (ps : list peer_ID) (m : PeerMap) : outcome PeerMap :=
  Put (GetConnectedPeerStatuses net ps) m.

Definition initNewPeerStatus (net : Network) (peerID : peer_ID) (m : PeerMap) : outcome PeerMap :=
  match GetPeerStatus net peerID with
  | None => Ret m
  | Some status => Put [Some status] m
  end.

(** ** Blocks on the wire *)

Section chain.
Context `{External} `{RlpReader} `{LRU} `{ChainDeps}.
Variable HeaderHash : Header → Hash.

Definition toProtoBlock (block : Block) : bytes := bk_MarshalRLP block.
Definition fromProto (data : bytes) : option Block := bk_UnmarshalRLP HeaderHash data.

(** *** The server ([service.go]) *)

(** The loop of [GetBlocks]: the messages sent, and whether a block was missing.
    The client takes [accepted] messages before it closes the stream. *)
Fixpoint serve_loop (accepted : nat) (i : Z) (b : Blockchain) : outcome (list bytes * bool * Blockchain) :=
  match chain_Header b with
  | None => Panic
  | Some header =>
      if i <=? hd_Number header then
        let~ (block, ok, b) := GetBlockByNumber HeaderHash i true b in
        match block, ok with
        | Some block, true =>
            match accepted with
            | O => Ret ([], false, b)
            | S accepted =>
                let~ (sent, missing, b) := serve_loop accepted (add64 i 1) b in
                Ret (toProtoBlock block :: sent, missing, b)
            end
        | _, _ => Ret ([], true, b)
        end
      else Ret ([], false, b)
  end.

Definition service_GetBlocks (accepted : nat) (from : Z) (b : Blockchain) : outcome (list bytes * bool * Blockchain) :=
  serve_loop accepted from b.

Definition service_GetStatus (b : Blockchain) : Z := match chain_Header b with Some header => hd_Number header | None => 0 end.

(** *** The client *)

(** What [stream.Recv] gives, or a time without anything; the end of the list is
    the end of the stream. *)
Inductive received :=
| Message (data : bytes)
| RecvError
| Late.

(** [blockStreamToChannel] and the goroutine of [GetBlocks]: the blocks put on the
    channel before it is closed. *)
Fixpoint client_GetBlocks (stream : list received) : list Block :=
  match stream with
  | Message data :: rest =>
      match fromProto data with
      | Some block => block :: client_GetBlocks rest
      | None => []
      end
  | _ => []
  end.

(** ** Synchronisation ([syncer.go]) *)

Inductive sync_err :=
| ErrOpenStream
| ErrTimeout
| ErrVerify (e : chain_err)
| ErrWrite (e : chain_err).

Definition syncerName : bytes := str "syncer".

Definition hasSyncPeer (values : list NoForkPeer) (b : Blockchain) : outcome bool :=
  match chain_Header b with
  | None => Panic
  | Some header =>
      Ret (match BestPeer values None with Some bestPeer => p_Number bestPeer >? hd_Number header | None => false end)
  end.

(** The callback of the engine, with the state it changes.  No callback looks at
    the senders of the transactions, which verifying and writing fill in. *)
Context {C : Type} (callback : Block → C → bool * C).

(** A block on the channel, or the time of one passed. *)
Inductive arrival :=
| Arrives (block : Block)
| TimesOut.

(** The loop of [bulkSyncWithPeer]. *)
Fixpoint bulk_loop (blockCh : list arrival) (lastReceivedNumber : Z) (shouldTerminate : bool) (c : C) (b : Blockchain)
    : outcome (Z * bool * option sync_err * C * Blockchain) :=
  match blockCh with
  | [] => Ret (lastReceivedNumber, shouldTerminate, None, c, b)
  | TimesOut :: _ => Ret (lastReceivedNumber, shouldTerminate, Some ErrTimeout, c, b)
  | Arrives block :: rest =>
      if hd_Number (bk_Header block) =? 0 then bulk_loop rest lastReceivedNumber shouldTerminate c b
      else
        let~ (r, b) := VerifyFinalizedBlock HeaderHash (Some block) b in
        match r with Err e => Ret (lastReceivedNumber, false, Some (ErrVerify e), c, b) | Ok _ =>
        let~ (r, b) := chain_WriteBlock HeaderHash block syncerName b in
        match r with Err e => Ret (lastReceivedNumber, false, Some (ErrWrite e), c, b) | Ok _ =>
        let '(shouldTerminate, c) := callback block c in
        bulk_loop rest (hd_Number (bk_Header block)) shouldTerminate c b
        end end
  end.

(** [open] is what the peer gives for a stream that starts at a height, nothing if
    it cannot be opened. *)
Definition bulkSyncWithPeer (open : peer_ID → Z → option (list arrival)) (peerID : peer_ID) (c : C) (b : Blockchain)
    : outcome (Z * bool * option sync_err * C * Blockchain) :=
  match chain_Header b with
  | None => Panic
  | Some header =>
      match open peerID (add64 (hd_Number header) 1) with
      | None => Ret (0, false, Some ErrOpenStream, c, b)
      | Some blockCh => bulk_loop blockCh 0 false c b
      end
  end.

(** What the loop of [Sync] and the other goroutines share. *)
Record syncer := mkSyncer {
  sy_peerMap : PeerMap;
  sy_skipList : gset peer_ID;
  sy_localLatest : Z;
  sy_done : bool;
  sy_callback : C;
  sy_chain : Blockchain;
}.

(** One turn of [Sync], after a signal. *)
Definition Sync_turn (values : list NoForkPeer) (open : peer_ID → Z → option (list arrival)) (s : syncer) : outcome syncer :=
  let localLatest := match chain_Header (sy_chain s) with Some header => hd_Number header | None => sy_localLatest s end in
  match BestPeer values (Some (sy_skipList s)) with
  | None => Ret (mkSyncer (sy_peerMap s) ∅ localLatest false (sy_callback s) (sy_chain s))
  | Some bestPeer =>
      if p_Number bestPeer <=? localLatest then
        Ret (mkSyncer (sy_peerMap s) (sy_skipList s) localLatest false (sy_callback s) (sy_chain s))
      else
        let~ (lastNumber, shouldTerminate, err, c, b) := bulkSyncWithPeer open (p_ID bestPeer) (sy_callback s) (sy_chain s) in
        if lastNumber <? p_Number bestPeer then
          Ret (mkSyncer (sy_peerMap s) ({[p_ID bestPeer]} ∪ sy_skipList s) localLatest false c b)
        else Ret (mkSyncer (sy_peerMap s) (sy_skipList s) localLatest shouldTerminate c b)
  end.

Definition on_peers (f : PeerMap → PeerMap) (s : syncer) : syncer :=
  mkSyncer (f (sy_peerMap s)) (sy_skipList s) (sy_localLatest s) (sy_done s) (sy_callback s) (sy_chain s).

(** Before the first turn of [Sync]. *)
Definition sync_start (m : PeerMap) (c : C) (b : Blockchain) : outcome syncer :=
  match chain_Header b with
  | None => Panic
  | Some header => Ret (mkSyncer m ∅ (hd_Number header) false c b)
  end.
End chain.
End peers.
