(* ===== verification/SyncerSpec.v ===== *)
(** What synchronisation promises: blocks a node imports from anybody extend its
    ledger one by one; what a peer serves is what it holds, so that a node that
    accepts the blocks of a peer ends with the ledger of that peer; the best peer
    is chosen, and one that delivers what it announced is reached however many
    others do not. *)
From stdpp Require Import strings.
From S2P Require Import Prelude Types Runtime Crypto StateTxn Bloom Rlp RlpTypes ChainStorage Trie BuildRoot Blockchain BlockchainSpec Text Syncer.

Lemma NoDup_fmap_elem {A B} (f : A → B) (l : list A) x y : NoDup (f <$> l) → x ∈ l → y ∈ l → f x = f y → x = y.
Proof.
  intros Hnd [i Hx]%list_elem_of_lookup_1 [j Hy]%list_elem_of_lookup_1 E. assert (i = j) as ->; [|by simplify_eq].
  eapply NoDup_lookup; [done|by rewrite list_lookup_fmap, Hx|by rewrite list_lookup_fmap, Hy, E].
Qed.

Lemma filter_fewer {A} (P Q : A → Prop) `{!∀ x, Decision (P x), !∀ x, Decision (Q x)} (l : list A) y :
  (∀ x, P x → Q x) → y ∈ l → Q y → ¬ P y → (length (filter P l) < length (filter Q l))%nat.
Proof.
  intros HPQ Hy HQ HP. assert (∀ l, (length (filter P l) ≤ length (filter Q l))%nat) as Hle.
  { intros l'. induction l' as [|x l' IH]; [done|]. rewrite !filter_cons. destruct (decide (P x)) as [Hx|]; [rewrite decide_True by auto|case_decide]; cbn; lia. }
  induction Hy as [y l|y x l Hy IH]; rewrite !filter_cons.
  - rewrite decide_False, decide_True by done. cbn. specialize (Hle l). lia.
  - specialize (IH HQ HP). destruct (decide (P x)) as [Hx|]; [rewrite decide_True by auto|case_decide]; cbn; lia.
Qed.

(** ** Choosing a peer *)

Lemma IsBetter_asym p q : IsBetter p q = true → IsBetter q p = false.
Proof. unfold IsBetter. destruct (Z.eqb_spec (p_Number p) (p_Number q)), (Z.eqb_spec (p_Number q) (p_Number p)); cbn; bool_props; lia. Qed.

Lemma IsBetter_negtrans p q r : IsBetter p q = false → IsBetter q r = false → IsBetter p r = false.
Proof.
  unfold IsBetter.
  destruct (Z.eqb_spec (p_Number p) (p_Number q)), (Z.eqb_spec (p_Number q) (p_Number r)), (Z.eqb_spec (p_Number p) (p_Number r)); cbn; bool_props; lia.
Qed.

(** What has been chosen after some peers. *)
Definition best_of (values : list NoForkPeer) (skip : gset peer_ID) (best : option NoForkPeer) : Prop :=
  match best with
  | None => ∀ q, q ∈ values → p_ID q ∈ skip
  | Some p => p ∈ values ∧ p_ID p ∉ skip ∧ ∀ q, q ∈ values → p_ID q ∉ skip → IsBetter q p = false
  end.

Lemma IsBetter_irrefl p : IsBetter p p = false.
Proof. unfold IsBetter. rewrite Z.eqb_refl. cbn. lia. Qed.

Lemma BestPeer_best values skip : best_of values (default ∅ skip) (BestPeer values skip).
Proof.
  unfold BestPeer. induction values as [|p values IH] using rev_ind; [intros q []%elem_of_nil|].
  rewrite foldl_app. cbn [foldl]. set (best := foldl _ _ _) in *. clearbody best.
  case_bool_decide as Hs.
  - destruct best as [b|]; cbn in *.
    + destruct IH as (Hb & Hn & Hq). split_and!; [set_solver|done|]. intros q [Hin| ->%list_elem_of_singleton]%elem_of_app Hns; [by apply Hq|done].
    + intros q [Hin| ->%list_elem_of_singleton]%elem_of_app; [by apply IH|done].
  - destruct best as [b|]; cbn in *.
    + destruct IH as (Hb & Hn & Hq). destruct (IsBetter p b) eqn:E; cbn.
      * split_and!; [set_solver|done|]. intros q [Hin| ->%list_elem_of_singleton]%elem_of_app Hns; [|apply IsBetter_irrefl].
        eapply IsBetter_negtrans; [by apply Hq|by apply IsBetter_asym].
      * split_and!; [set_solver|done|]. intros q [Hin| ->%list_elem_of_singleton]%elem_of_app Hns; [by apply Hq|done].
    + split_and!; [set_solver|done|]. intros q [Hin| ->%list_elem_of_singleton]%elem_of_app Hns; [by apply IH in Hin|apply IsBetter_irrefl].
Qed.

Lemma best_number values skip p q :
  BestPeer values skip = Some p → q ∈ values → p_ID q ∉ default ∅ skip → p_Number q ≤ p_Number p.
Proof.
  intros E Hq Hs. pose proof (BestPeer_best values skip) as Hb. rewrite E in Hb. destruct Hb as (_ & _ & Hb).
  specialize (Hb q Hq Hs). unfold IsBetter in Hb. destruct (Z.eqb_spec (p_Number q) (p_Number p)); cbn in Hb; bool_props; lia.
Qed.

(** A peer whose status could not be read makes the start of the syncer panic. *)
Lemma initializePeerMap_panics ID_String net ps p m :
  p ∈ ps → net_GetStatus net p = None → initializePeerMap ID_String net ps m = Panic.
Proof.
  intros Hp Hn. unfold initializePeerMap, GetConnectedPeerStatuses. revert m. induction ps as [|q ps IH]; intros m; [by apply elem_of_nil in Hp|].
  cbn. destruct (GetPeerStatus net q) as [st|] eqn:E; [|done].
  apply elem_of_cons in Hp as [<-|Hp]; [|by apply IH]. unfold GetPeerStatus in E. by rewrite Hn in E.
Qed.

(** ** Importing blocks *)

Section import.
Context `{External} `{RlpReader} `{LRULaws} `{ChainDeps}.
Variable HeaderHash : Header → Hash.
Variable genesis_config : Genesis.
Hypothesis Sender_nonzero : ∀ t a, signer_Sender t = Ret (Ok a) → a ≠ ZeroAddress.

(** What decoding gives every header: its hash, which is not zero. *)
Record received_ok (h : Header) : Prop := {
  ro_u64 : is_u64 (hd_Number h);
  ro_hashed : HeaderHash h = hd_Hash h;
  ro_nonzero : hd_Hash h ≠ ZeroHash;
}.

(** Headers that come to a node do not collide with each other or with its own. *)
Definition clean (l : list entry) (hs : list Header) : Prop :=
  Forall received_ok hs ∧ ∀ h1 h2, h1 ∈ hs → h2 ∈ hs ++ (e_header <$> l) → hd_Hash h1 = hd_Hash h2 → h1 = h2.

Lemma clean_cons l h hs : clean l (h :: hs) → clean l [h] ∧ clean l hs.
Proof.
  intros [Hr Hc]. apply Forall_cons in Hr as [Hh Hr]. split; split; [by constructor| |done|]; intros h1 h2 H1' H2'; apply Hc; set_solver.
Qed.

Lemma clean_app l h hs x : clean l (h :: hs) → e_header x = h → clean (l ++ [x]) hs.
Proof.
  intros [Hr Hc] Hx. apply Forall_cons in Hr as [Hh Hr]. split; [done|]. intros h1 h2 H1' H2'. apply Hc; [set_solver|].
  rewrite fmap_app in H2'. cbn in H2'. rewrite Hx in H2'. set_solver.
Qed.

Lemma VerifyFinalizedBlock_parent block b b1 :
  caches_ok HeaderHash b → VerifyFinalizedBlock HeaderHash (Some block) b = Ret (Ok (), b1) →
  (verifyBlockParent HeaderHash block b1).1 = Ok ().
Proof.
  intros Hc Hv. pose proof (VerifyFinalizedBlock_idle _ _ _ _ _ Hc Hv) as [Hsc Hc1]. unfold VerifyFinalizedBlock in Hv.
  destruct (call_dep _ b) as [[[[]|err] b0]| |] eqn:E0; try done. cbn [obind verifyBlock] in Hv.
  apply (call_dep_idle HeaderHash) in E0 as [Hsc0 Hc0]; [|done].
  unfold verifyBlockParent in *. destruct (readHeader_ok HeaderHash (hd_ParentHash (bk_Header block)) b0 Hc0) as (b0' & E & _).
  destruct (readHeader_ok HeaderHash (hd_ParentHash (bk_Header block)) b1 Hc1) as (b1' & -> & _).
  rewrite E, (sc_db _ _ Hsc0) in Hv. rewrite (sc_db _ _ Hsc). destruct (db_headers (bc_db b) !! _) as [parent|]; [|done].
  cbn [fst]. by destruct (if hd_Hash parent =? ZeroHash then _ else _) as [[]|].
Qed.

Lemma accepted_checked b l block b1 :
  implements HeaderHash genesis_config b l → clean l [bk_Header block] →
  VerifyFinalizedBlock HeaderHash (Some block) b = Ret (Ok (), b1) →
  implements HeaderHash genesis_config b1 l ∧ checked HeaderHash b1 block.
Proof.
  intros Hi [Hr Hc] Hv. apply Forall_singleton in Hr as [Hu Hh Hz].
  pose proof (VerifyFinalizedBlock_idle _ _ _ _ _ (im_caches _ _ _ _ Hi) Hv) as Hid.
  pose proof (implements_idle _ _ _ _ _ Hi Hid) as Hi1. split; [done|]. split; try done.
  - by eapply VerifyFinalizedBlock_parent; [apply Hi|].
  - intros h Eh. destruct (header_by_hash _ _ _ _ _ _ Hi1 Eh) as (i & e & Hl & He & <-).
    symmetry. apply Hc; [set_solver| |by rewrite <- He]. apply elem_of_app. right. apply list_elem_of_fmap. exists e. split; [done|].
    by eapply list_elem_of_lookup_2.
Qed.

(** What is left of a block on the wire. *)
Definition same_wire (x : entry) (block : Block) : Prop := wire_block (e_block x) = wire_block block.

Lemma recover_wire txs txs' :
  recoverFromFieldsInBlock txs = Ret (Ok txs') →
  (λ t, set_From ZeroAddress (ComputeHash t)) <$> txs' = (λ t, set_From ZeroAddress (ComputeHash t)) <$> txs.
Proof.
  revert txs'. induction txs as [|t txs IH]; intros txs' E; cbn in E; [by simplify_eq|].
  destruct (Z.eqb_spec (tx_From t) ZeroAddress) as [Ht|Ht]; cbn in E; [destruct (signer_Sender t) as [[a|e]| |]; try done; cbn in E|].
  all: destruct (recoverFromFieldsInBlock txs) as [[rest|e]| |]; try done; simplify_eq/=; by rewrite (IH rest eq_refl).
Qed.

(** A block verified and written is the next of the ledger, or was there. *)
Lemma import_block b l block source b1 r b2 :
  implements HeaderHash genesis_config b l → clean l [bk_Header block] →
  VerifyFinalizedBlock HeaderHash (Some block) b = Ret (Ok (), b1) →
  chain_WriteBlock HeaderHash block source b1 = Ret (r, b2) →
  (implements HeaderHash genesis_config b2 l ∧ (r = Ok () → hd_Number (bk_Header block) < Z.of_nat (length l))) ∨
  ∃ x, implements HeaderHash genesis_config b2 (l ++ [x]) ∧ e_header x = bk_Header block ∧ same_wire x block ∧
    hd_Number (bk_Header block) = Z.of_nat (length l).
Proof.
  intros Hi Hc Hv Hw. destruct (accepted_checked _ _ _ _ Hi Hc Hv) as [Hi1 Hk].
  destruct (ledger_last _ _ l (im_ledger _ _ _ _ Hi)) as (e & He & _ & Hn).
  destruct (WriteBlock_appends _ _ Sender_nonzero _ _ _ _ _ _ _ Hi1 Hk He Hw) as [(Hle & -> & ->)|(Hlt & [(err & _ & -> & ->)|(txs & rs & Er & Hi2 & _)])].
  - left. split; [done|]. lia.
  - by left.
  - right. eexists. split; [done|]. split; [done|]. split.
    + unfold same_wire, wire_block. cbn. f_equal. by apply recover_wire.
    + by destruct (checked_on_top _ _ _ _ _ _ Hi1 Hk He Hlt) as (_ & -> & _).
Qed.

(** *** Streams *)

Definition arrived (blockCh : list arrival) : list Block :=
  omap (λ a, match a with Arrives block => Some block | TimesOut => None end) blockCh.

Context {C : Type} (callback : Block → C → bool * C).

(** Whatever arrives, the ledger grows by blocks that arrived, in order, and ends
    at or above the number reported. *)
Lemma bulk_loop_extends blockCh : ∀ last stop c b l n stop' err c' b',
  implements HeaderHash genesis_config b l → clean l (bk_Header <$> arrived blockCh) → last < Z.of_nat (length l) →
  bulk_loop HeaderHash callback blockCh last stop c b = Ret (n, stop', err, c', b') →
  ∃ new, implements HeaderHash genesis_config b' (l ++ new) ∧ n < Z.of_nat (length (l ++ new)) ∧
    (wire_block ∘ e_block <$> new) `sublist_of` (wire_block <$> arrived blockCh).
Proof.
  induction blockCh as [|[block|] rest IH]; intros last stop c b l n stop' err c' b' Hi Hc Hlast; cbn [bulk_loop].
  { intros [= <- <- <- <- <-]. exists []. by rewrite app_nil_r. }
  2: { intros [= <- <- <- <- <-]. exists []. rewrite app_nil_r. split_and!; [done|done|apply sublist_nil_l]. }
  change (arrived (Arrives block :: rest)) with (block :: arrived rest) in *. cbn [fmap list_fmap] in *.
  destruct (clean_cons _ _ _ Hc) as [Hc1 Hcr]. destruct (hd_Number (bk_Header block) =? 0).
  { intros E. destruct (IH _ _ _ _ _ _ _ _ _ _ Hi Hcr Hlast E) as (new & ? & ? & ?). exists new. split_and!; [done..|by apply sublist_cons]. }
  destruct (VerifyFinalizedBlock HeaderHash (Some block) b) as [[[[]|e] b1]| |] eqn:Ev; try done; cbn [obind].
  2: { intros [= <- <- <- <- <-]. exists []. rewrite app_nil_r. split_and!; [|done|apply sublist_nil_l].
       eapply implements_idle; [done|]. eapply VerifyFinalizedBlock_idle; [apply Hi|done]. }
  destruct (chain_WriteBlock HeaderHash block syncerName b1) as [[r b2]| |] eqn:Ew; try done; cbn [obind].
  destruct (import_block _ _ _ _ _ _ _ Hi Hc1 Ev Ew) as [[Hi2 Hn]|(x & Hi2 & Hx & Hwx & Hn)]; destruct r as [[]|e].
  - destruct (callback block c) as [stop1 c1]. intros E. specialize (Hn eq_refl).
    destruct (IH _ _ _ _ _ _ _ _ _ _ Hi2 Hcr Hn E) as (new & ? & ? & ?). exists new. split_and!; [done..|by apply sublist_cons].
  - intros [= <- <- <- <- <-]. exists []. rewrite app_nil_r. split_and!; [done|done|apply sublist_nil_l].
  - assert (hd_Number (bk_Header block) < Z.of_nat (length (l ++ [x]))) as Hn1 by (rewrite length_app; cbn; lia).
    destruct (callback block c) as [stop1 c1]. intros E.
    destruct (IH _ _ _ _ _ _ _ _ _ _ Hi2 (clean_app _ _ _ _ Hc Hx) Hn1 E) as (new & Hi' & Hn' & Hs).
    exists (x :: new). rewrite <- app_assoc in Hi', Hn'. split_and!; [done..|]. cbn. rewrite Hwx. by apply sublist_skip.
  - intros [= <- <- <- <- <-]. exists [x]. split_and!; [done|rewrite length_app; cbn; lia|]. cbn. rewrite Hwx. apply sublist_skip, sublist_nil_l.
Qed.

(** *** From a peer *)

(** The blocks of a ledger, as they are on the wire. *)
Definition wire_ledger (l : list entry) : list Block := wire_block ∘ e_block <$> l.

(** The node accepts these blocks, one after the other. *)
Fixpoint accepts (source : bytes) (blocks : list Block) (b : Blockchain) : Prop :=
  match blocks with
  | [] => True
  | block :: rest => ∃ b1 b2, VerifyFinalizedBlock HeaderHash (Some block) b = Ret (Ok (), b1) ∧
      chain_WriteBlock HeaderHash block source b1 = Ret (Ok (), b2) ∧ accepts source rest b2
  end.

Lemma wire_header x y : wire_block (e_block x) = wire_block (e_block y) → e_header x = e_header y.
Proof. unfold wire_block, e_header. by intros [= -> _ _]. Qed.

Lemma ledger_clean l lp :
  ledger_ok HeaderHash genesis_config lp → wire_ledger l `prefix_of` wire_ledger lp → clean l (e_header <$> drop (length l) lp).
Proof.
  intros Hl [k Hk]. assert (∀ h, h ∈ e_header <$> l → h ∈ e_header <$> lp) as Hsub.
  { intros h (x & -> & [i Hi]%list_elem_of_lookup_1)%list_elem_of_fmap.
    assert (wire_ledger lp !! i = Some (wire_block (e_block x))) as E.
    { unfold wire_ledger in Hk |- *. rewrite Hk. apply lookup_app_l_Some. by rewrite list_lookup_fmap, Hi. }
    unfold wire_ledger in E. rewrite list_lookup_fmap in E. destruct (lp !! i) as [y|] eqn:Ey; [|done]. injection E as E1 E2 E3.
    apply list_elem_of_fmap. exists y. split; [by unfold e_header; rewrite E1|by eapply list_elem_of_lookup_2]. }
  assert (∀ x, x ∈ drop (length l) lp → x ∈ lp) as Hd.
  { intros x Hx. rewrite <- (take_drop (length l) lp). apply elem_of_app. by right. }
  assert (∀ h, h ∈ e_header <$> drop (length l) lp → h ∈ e_header <$> lp) as Hsub2.
  { intros h (x & -> & Hx)%list_elem_of_fmap. apply list_elem_of_fmap. exists x. by auto. }
  split.
  - apply Forall_forall. intros h (x & -> & Hx)%list_elem_of_fmap. apply Hd, list_elem_of_lookup_1 in Hx as [i Hi].
    destruct (lo_hashed _ _ _ Hl x) as [Hh Hz]; [by eapply list_elem_of_lookup_2|].
    split; [|done..]. unfold is_u64. rewrite (lo_number _ _ _ Hl _ _ Hi). apply lookup_lt_Some in Hi. pose proof (lo_u64 _ _ _ Hl). lia.
  - intros h1 h2 H1' H2' E. apply Hsub2 in H1'. assert (h2 ∈ e_header <$> lp) as H2'' by (apply elem_of_app in H2' as [?|?]; auto).
    apply list_elem_of_fmap in H1' as (x & -> & [i Hi]%list_elem_of_lookup_1). apply list_elem_of_fmap in H2'' as (y & -> & [j Hj]%list_elem_of_lookup_1).
    assert (i = j) as ->; [|by simplify_eq]. eapply NoDup_lookup; [apply (lo_distinct _ _ _ Hl)| |]; rewrite list_lookup_fmap.
    + by rewrite Hi.
    + rewrite Hj. cbn. unfold e_hash. by rewrite E.
Qed.

Lemma wire_length l l' : wire_ledger l = wire_ledger l' → length l = length l'.
Proof. intros E%(f_equal length). unfold wire_ledger in E. by rewrite !length_fmap in E. Qed.

Lemma wire_wire block : wire_block (wire_block block) = wire_block block.
Proof. unfold wire_block. cbn. f_equal. by rewrite <- list_fmap_compose. Qed.

Lemma clean_next l x e rest : clean l (e_header <$> e :: rest) → e_header x = e_header e → clean (l ++ [x]) (e_header <$> rest).
Proof. cbn. apply clean_app. Qed.

(** The next block of a ledger that ours is a prefix of, accepted. *)
Lemma accepted_next source pre e rest b l b1 b2 :
  implements HeaderHash genesis_config b l → wire_ledger l = wire_ledger pre → ledger_ok HeaderHash genesis_config (pre ++ e :: rest) →
  clean l (e_header <$> e :: rest) →
  VerifyFinalizedBlock HeaderHash (Some (wire_block (e_block e))) b = Ret (Ok (), b1) →
  chain_WriteBlock HeaderHash (wire_block (e_block e)) source b1 = Ret (Ok (), b2) →
  hd_Number (e_header e) = Z.of_nat (length l) ∧
  ∃ x, implements HeaderHash genesis_config b2 (l ++ [x]) ∧ wire_ledger (l ++ [x]) = wire_ledger (pre ++ [e]) ∧
    clean (l ++ [x]) (e_header <$> rest).
Proof.
  intros Hi Hw Hl Hc Ev Ew. assert (hd_Number (e_header e) = Z.of_nat (length l)) as Hn.
  { rewrite (wire_length _ _ Hw). apply (lo_number _ _ _ Hl). by apply list_lookup_middle. }
  split; [done|]. destruct (clean_cons _ _ _ Hc) as [Hc1 _]. change (e_header e) with (bk_Header (wire_block (e_block e))) in Hc1, Hn.
  destruct (import_block _ _ _ _ _ _ _ Hi Hc1 Ev Ew) as [[_ Hlt]|(x & Hi2 & Hx & Hwx & _)]; [specialize (Hlt eq_refl); lia|].
  exists x. split; [done|]. split; [|by eapply clean_next].
  unfold wire_ledger in *. rewrite !fmap_app, Hw. cbn. by rewrite Hwx, wire_wire.
Qed.

Lemma bulk_loop_follows rest : ∀ pre last stop c b l,
  implements HeaderHash genesis_config b l → wire_ledger l = wire_ledger pre → ledger_ok HeaderHash genesis_config (pre ++ rest) →
  (0 < length pre)%nat → clean l (e_header <$> rest) → accepts syncerName (wire_ledger rest) b →
  ∃ stop' c' b' l', bulk_loop HeaderHash callback (Arrives <$> wire_ledger rest) last stop c b =
      Ret (if rest is [] then last else Z.of_nat (length (pre ++ rest)) - 1, stop', None, c', b') ∧
    implements HeaderHash genesis_config b' l' ∧ wire_ledger l' = wire_ledger (pre ++ rest).
Proof.
  induction rest as [|e rest IH]; intros pre last stop c b l Hi Hw Hl Hne Hc Ha.
  { exists stop, c, b, l. by rewrite app_nil_r. }
  change (wire_ledger (e :: rest)) with (wire_block (e_block e) :: wire_ledger rest) in Ha |- *.
  cbn [accepts] in Ha. destruct Ha as (b1 & b2 & Ev & Ew & Ha).
  destruct (accepted_next _ _ _ _ _ _ _ _ Hi Hw Hl Hc Ev Ew) as (Hn & x & Hi2 & Hw2 & Hc2). pose proof (wire_length _ _ Hw) as Hlen.
  cbn [fmap list_fmap bulk_loop]. change (bk_Header (wire_block (e_block e))) with (e_header e). rewrite Hn.
  replace (Z.of_nat (length l) =? 0) with false by lia. rewrite Ev. cbn [obind]. rewrite Ew. cbn [obind]. destruct (callback _ c) as [stop1 c1].
  destruct (IH (pre ++ [e]) (Z.of_nat (length l)) stop1 c1 b2 (l ++ [x])) as (stop' & c' & b' & l' & E & Hi' & Hw'); try done.
  - by rewrite <- app_assoc.
  - rewrite length_app. lia.
  - rewrite <- app_assoc in E, Hw'. exists stop', c', b', l'. split_and!; [|done..]. rewrite E. destruct rest; [|done].
    do 5 f_equal. rewrite !length_app. cbn. lia.
Qed.

(** *** What a peer serves *)

Lemma drop_number (l : list entry) i : (i < length l)%nat → ∃ e, l !! i = Some e ∧ drop i l = e :: drop (S i) l.
Proof. intros Hi. destruct (lookup_lt_is_Some_2 l i Hi) as [e He]. exists e. split; [done|by apply drop_S]. Qed.

Lemma serve_loop_ok accepted : ∀ i b l,
  implements HeaderHash genesis_config b l → Z.of_nat (length l) < M64 → (i ≤ length l)%nat →
  ∃ b', serve_loop HeaderHash accepted (Z.of_nat i) b = Ret (take accepted (bk_MarshalRLP ∘ e_block <$> drop i l), false, b') ∧
    silent HeaderHash b b'.
Proof.
  induction accepted as [|accepted IH]; intros i b l Hi Hm Hle; cbn [serve_loop].
  all: destruct (ledger_last _ _ l (im_ledger _ _ _ _ Hi)) as (e & He & _ & Hn); rewrite (im_header _ _ _ _ Hi), He; cbn [fmap option_fmap option_map].
  all: destruct (Z.leb_spec (Z.of_nat i) (hd_Number (e_header e))) as [Hin|Hout];
    [|exists b; split; [|split; [done|apply Hi]]; by rewrite drop_ge, ?take_nil by lia].
  all: destruct (drop_number l i) as (x & Hx & ->); [lia|].
  all: destruct (GetBlockByNumber_ok HeaderHash genesis_config b l (Z.of_nat i) true Hi) as (b1 & -> & Hs1); [lia|].
  all: rewrite Nat2Z.id, Hx; cbn [obind].
  - by exists b1.
  - pose proof (implements_idle _ _ _ _ _ Hi (silent_idle _ _ _ Hs1)) as Hi1.
    replace (add64 (Z.of_nat i) 1) with (Z.of_nat (S i)) by (unfold add64; rewrite u64_small; unfold is_u64; lia).
    destruct (IH (S i) b1 l Hi1 Hm) as (b2 & -> & Hs2); [lia|]. exists b2. split; [done|].
    split; [|apply Hs2]. etrans; [apply Hs1|apply Hs2].
Qed.

Context `{!RlpLaws}.

Lemma client_decodes blocks :
  Forall (block_wf HeaderHash) blocks →
  client_GetBlocks HeaderHash (Message <$> (bk_MarshalRLP <$> blocks)) = wire_block <$> blocks.
Proof.
  induction 1 as [|block blocks Hb _ IH]; [done|]. cbn [fmap list_fmap client_GetBlocks]. unfold fromProto.
  rewrite block_decodes by done. by f_equal.
Qed.

(** What a peer gives to a node that asks from a height on and takes as many
    messages as there are. *)
Definition stream_of (peer : Blockchain) (accepted : nat) (from : Z) : option (list arrival) :=
  match service_GetBlocks HeaderHash accepted from peer with
  | Ret (sent, _, _) => Some (Arrives <$> client_GetBlocks HeaderHash (Message <$> sent))
  | _ => None
  end.

Lemma stream_of_ok peer lp accepted i :
  implements HeaderHash genesis_config peer lp → Z.of_nat (length lp) < M64 → (i ≤ length lp ≤ accepted)%nat → 
  Forall (block_wf HeaderHash ∘ e_block) (drop i lp) →
  stream_of peer accepted (Z.of_nat i) = Some (Arrives <$> wire_ledger (drop i lp)).
Proof.
  intros Hi Hm [Hle Hacc] Hwf. unfold stream_of, service_GetBlocks. destruct (serve_loop_ok accepted i peer lp Hi Hm Hle) as (b' & -> & _).
  rewrite take_ge by (rewrite length_fmap, length_drop; lia). rewrite list_fmap_compose, client_decodes by (by rewrite Forall_fmap).
  unfold wire_ledger. by rewrite list_fmap_compose.
Qed.

Lemma wire_split l lp : wire_ledger l `prefix_of` wire_ledger lp → wire_ledger l = wire_ledger (take (length l) lp).
Proof.
  intros [k Hk]. unfold wire_ledger in *. rewrite fmap_take, Hk, take_app_le by (by rewrite length_fmap).
  by rewrite take_ge by (by rewrite length_fmap).
Qed.


(** ** The loop of [Sync] *)

Definition height (s : syncer (C:=C)) : Z := match chain_Header (sy_chain s) with Some h => hd_Number h | None => -1 end.

Lemma height_ledger (s : syncer (C:=C)) l : implements HeaderHash genesis_config (sy_chain s) l → height s = Z.of_nat (length l) - 1.
Proof.
  intros Hi. destruct (ledger_last _ _ l (im_ledger _ _ _ _ Hi)) as (e & He & _ & Hn). unfold height.
  by rewrite (im_header _ _ _ _ Hi), He.
Qed.

Lemma ledger_pos b l : implements HeaderHash genesis_config b l → 0 < Z.of_nat (length l).
Proof. intros Hi. pose proof (ledger_nonempty _ _ _ (im_ledger _ _ _ _ Hi)). destruct l; [done|]. rewrite length_cons. lia. Qed.

(** A peer that failed is not asked again while another, not ahead of us, has not
    failed: a turn then leaves the peers to skip and the chain as they are. *)
Lemma skipped_peer_starves values open (s : syncer (C:=C)) q :
  (∀ p, p ∈ values → p_ID p ∉ sy_skipList s → p_Number p ≤ height s) → q ∈ values → p_ID q ∉ sy_skipList s → 
  chain_Header (sy_chain s) ≠ None →
  Sync_turn HeaderHash callback values open s =
    Ret (mkSyncer (sy_peerMap s) (sy_skipList s) (height s) false (sy_callback s) (sy_chain s)).
Proof.
  intros Hall Hq Hn Hh. unfold Sync_turn, height in *. destruct (chain_Header (sy_chain s)) as [h|]; [|done].
  pose proof (BestPeer_best values (Some (sy_skipList s))) as Hb. destruct (BestPeer values _) as [p|].
  - destruct Hb as (Hp & Hs & _). specialize (Hall p Hp Hs). by rewrite (proj2 (Z.leb_le _ _)) by done.
  - by specialize (Hb q Hq).
Qed.

(** The peers that have not failed. *)
Definition untried (peers : list NoForkPeer) (s : syncer (C:=C)) : list NoForkPeer := filter (λ p, p_ID p ∉ sy_skipList s) peers.

(** A turn in which a peer [h] gives what it announced; the others give anything
    that decodes. *)
Record fair_turn (peers : list NoForkPeer) (h : NoForkPeer) (s s' : syncer (C:=C)) : Prop := {
  ft_turn : ∃ values open, values ≡ₚ peers ∧ Sync_turn HeaderHash callback values open s = Ret s' ∧
    (∀ p from ch l, open p from = Some ch → implements HeaderHash genesis_config (sy_chain s) l → clean l (bk_Header <$> arrived ch)) ∧
    (∀ n stop err c b, bulkSyncWithPeer HeaderHash callback open (p_ID h) (sy_callback s) (sy_chain s) = Ret (n, stop, err, c, b) → p_Number h ≤ n);
}.

Lemma bulk_sync_extends open p c b l n stop err c' b' :
  implements HeaderHash genesis_config b l →
  (∀ from ch, open p from = Some ch → clean l (bk_Header <$> arrived ch)) →
  bulkSyncWithPeer HeaderHash callback open p c b = Ret (n, stop, err, c', b') →
  ∃ new, implements HeaderHash genesis_config b' (l ++ new) ∧ n < Z.of_nat (length (l ++ new)).
Proof.
  intros Hi Hc. pose proof (ledger_pos _ _ Hi) as Hl0.
  unfold bulkSyncWithPeer. destruct (chain_Header b) as [h|]; [|done]. destruct (open p _) as [ch|] eqn:Eo.
  - intros E. destruct (bulk_loop_extends ch 0 false c b l _ _ _ _ _ Hi (Hc _ _ Eo) Hl0 E) as (new & ? & ? & _). by exists new.
  - intros [= <- <- <- <- <-]. exists []. rewrite app_nil_r. split; [done|lia].
Qed.

Lemma fair_turn_progress peers h s s' l :
  NoDup (p_ID <$> peers) → h ∈ untried peers s → implements HeaderHash genesis_config (sy_chain s) l → fair_turn peers h s s' →
  ∃ new, implements HeaderHash genesis_config (sy_chain s') (l ++ new) ∧
    (p_Number h ≤ height s' ∨ h ∈ untried peers s' ∧ (length (untried peers s') < length (untried peers s))%nat).
Proof.
  intros Hnd [Hs Hh]%list_elem_of_filter Hi [(values & open & Hv & Ht & Hc & Hf)]. unfold Sync_turn in Ht.
  pose proof (height_ledger _ _ Hi) as Hht. pose proof (ledger_pos _ _ Hi) as Hl0. unfold height in Hht. destruct (chain_Header (sy_chain s)) as [hd|] eqn:Ehd; [|lia].
  pose proof (BestPeer_best values (Some (sy_skipList s))) as Hb.
  destruct (BestPeer values _) as [p|] eqn:Ep; [|by rewrite <- Hv in Hh; apply Hb in Hh].
  assert (p_Number h ≤ p_Number p) as Hhp by (eapply best_number; [done|by rewrite Hv|done]).
  destruct (Z.leb_spec (p_Number p) (hd_Number hd)) as [Hle|Hgt].
  { simplify_eq. exists []. rewrite app_nil_r. split; [done|]. left. unfold height. cbn. rewrite Ehd. lia. }
  destruct (bulkSyncWithPeer _ _ _ (p_ID p) _ _) as [[[[[n stop] err] c] b']| |] eqn:Eb; [|done..]. cbn [obind] in Ht.
  destruct (bulk_sync_extends _ _ _ _ l _ _ _ _ _ Hi ltac:(intros from ch Ho; by eapply Hc) Eb) as (new & Hi' & Hn).
  exists new. destruct (Z.ltb_spec n (p_Number p)) as [Hlt|Hge]; injection Ht as <-; (split; [done|]).
  - right. destruct Hb as (Hp & Hps & _). rewrite Hv in Hp. unfold untried. cbn [sy_skipList].
    assert (p_ID h ≠ p_ID p) as Hne. { intros E. rewrite <- E in Eb. apply Hf in Eb. 
      assert (h = p) as ->; [|lia]. by eapply (NoDup_fmap_elem _ _ _ _ Hnd). }
    split; [apply list_elem_of_filter; set_solver|]. by apply filter_fewer with p; [set_solver..].
  - left. erewrite height_ledger by exact Hi'. lia.
Qed.

Lemma fair_turn_grows peers h s s' l :
  implements HeaderHash genesis_config (sy_chain s) l → fair_turn peers h s s' → ∃ new, implements HeaderHash genesis_config (sy_chain s') (l ++ new).
Proof.
  intros Hi [(values & open & _ & Ht & Hc & _)]. unfold Sync_turn in Ht.
  destruct (BestPeer values _) as [p|]; [|injection Ht as <-; exists []; by rewrite app_nil_r].
  destruct (p_Number p <=? _); [injection Ht as <-; exists []; by rewrite app_nil_r|].
  destruct (bulkSyncWithPeer _ _ _ (p_ID p) _ _) as [[[[[n stop] err] c] b']| |] eqn:Eb; [|done..]. cbn [obind] in Ht.
  destruct (bulk_sync_extends _ _ _ _ l _ _ _ _ _ Hi ltac:(intros from ch Ho; by eapply Hc) Eb) as (new & Hi' & _).
  exists new. by destruct (n <? p_Number p); injection Ht as <-.
Qed.

Inductive fair_run (peers : list NoForkPeer) (h : NoForkPeer) : nat → syncer (C:=C) → syncer (C:=C) → Prop :=
| fair_here s : fair_run peers h 0 s s
| fair_next n s1 s2 s3 : fair_turn peers h s1 s2 → fair_run peers h n s2 s3 → fair_run peers h (S n) s1 s3.

End import.
