(* ===== verification/Archive.v ===== *)
(** Backups of a chain: the export service of a node ([server/system_service.go]),
    the client that writes its answers to a file ([archive/backup.go]), and the
    reader that restores a chain from such a file ([archive/restore.go],
    [archive/types.go]), with the progress it reports ([helper/progress]).

    A file is the list of its bytes, and reading it gives as many bytes as there
    are.  The buffer of the reader is the contents of its slice up to the
    capacity: no code depends on its length.  The answers of the gRPC calls are
    arguments of the client; a stream is a list, whose end is [io.EOF].  The
    termination signal comes after [patience] blocks. *)
From stdpp Require Import strings.
From S2P Require Import Prelude Types Runtime Crypto EvmState StateTxn Bloom Rlp RlpTypes ChainStorage Trie BuildRoot Blockchain Text.

(** ** Metadata ([types.go]) *)

Record Metadata := mkMetadata {
  md_Latest : Z;
  md_LatestHash : Hash;
}.

Definition md_MarshalRLPWith (m : Metadata) : rlp := NewArray [NewUint (md_Latest m); NewBytes (HashBytes (md_LatestHash m))].

Definition md_MarshalRLP `{External} (m : Metadata) : bytes := MarshalTo (md_MarshalRLPWith m).

Definition md_UnmarshalRLPFrom `{RlpReader} (v : item) : option Metadata :=
  elems ← GetElems v;
  match elems with
  | e0 :: e1 :: _ => latest ← GetUint64 e0; latestHash ← GetBytesN 32 e1; Some (mkMetadata latest (BytesToHash latestHash))
  | _ => None
  end.

Definition md_UnmarshalRLP `{RlpReader} (input : bytes) : option Metadata := UnmarshalRlp (λ _, md_UnmarshalRLPFrom) input.

(** ** Progress ([helper/progress/chain.go]) *)

Record Progression := mkProgression {
  pr_StartingBlock : Z;
  pr_CurrentBlock : Z;
  pr_HighestBlock : Z;
}.

(** The wrapper holds nothing while no synchronisation is on. *)
Definition StartProgression (startingBlock : Z) : option Progression := Some (mkProgression startingBlock 0 0).
Definition UpdateCurrentProgression (currentBlock : Z) (p : option Progression) : outcome (option Progression) :=
  match p with
  | None => Panic
  | Some p => Ret (Some (mkProgression (pr_StartingBlock p) currentBlock (pr_HighestBlock p)))
  end.
Definition UpdateHighestProgression (highestBlock : Z) (p : option Progression) : outcome (option Progression) :=
  match p with
  | None => Panic
  | Some p => Ret (Some (mkProgression (pr_StartingBlock p) (pr_CurrentBlock p) highestBlock))
  end.

(** The event loop: a fork is not followed. *)
Definition progress_event (event : Event) (p : option Progression) : outcome (option Progression) :=
  match ev_Type event with
  | EventFork => Ret p
  | _ => match last (ev_NewChain event) with None => Ret p | Some lastBlock => UpdateCurrentProgression (hd_Number lastBlock) p end
  end.

(** ** The export service ([system_service.go]) *)

Record ExportEvent := mkExport {
  ex_From : Z;
  ex_To : Z;
  ex_Latest : Z;
  ex_Data : bytes;
}.

Record blockStreamWriter := mkWriter {
  bw_buf : bytes;
  bw_pendingFrom : option Z;
  bw_pendingTo : option Z;
  (** What was sent, and how many more messages the client takes. *)
  bw_sent : list ExportEvent;
  bw_room : nat;
}.

Definition maxHeaderInfoSize : Z := 3 * 8.
Definition defaultMaxGRPCPayloadSize : Z := 512 * 1024.

Inductive export_err :=
| ErrToBeforeFrom
| ErrPending
| ErrSend.

Definition newBlockStreamWriter (room : nat) : blockStreamWriter := mkWriter [] None None [] room.

Section archive.
Context `{External} `{RlpReader} `{LRU} `{ChainDeps} `{GoRuntime}.
Variable HeaderHash : Header → Hash.

Definition writer_flush (w : blockStreamWriter) (b : Blockchain) : outcome (option export_err * blockStreamWriter) :=
  if (length (bw_buf w) =? 0)%nat then Ret (None, w)
  else
    match bw_pendingFrom w, bw_pendingTo w with
    | Some from, Some to =>
        match chain_Header b with
        | None => Panic
        | Some header =>
            Ret (match bw_room w with
                 | O => (Some ErrSend, w)
                 | S room => (None, mkWriter [] None None (bw_sent w ++ [mkExport from to (hd_Number header) (bw_buf w)]) room)
                 end)
        end
    | _, _ => Ret (Some ErrPending, w)
    end.

Definition appendBlock (maxPayload : Z) (block : Block) (w : blockStreamWriter) (b : Blockchain)
    : outcome (option export_err * blockStreamWriter) :=
  let data := bk_MarshalRLP block in
  let~ (err, w) := (if u64 (maxHeaderInfoSize + Z.of_nat (length (bw_buf w)) + Z.of_nat (length data)) >=? maxPayload
                    then writer_flush w b else Ret (None, w)) in
  match err with
  | Some e => Ret (Some e, w)
  | None =>
      let n := hd_Number (bk_Header block) in
      Ret (None, mkWriter (bw_buf w ++ data) (match bw_pendingFrom w with None => Some n | Some from => Some from end) (Some n)
                   (bw_sent w) (bw_room w))
  end.

Definition canLoop (to : option Z) (i : Z) (b : Blockchain) : bool :=
  match to with
  | None => match chain_Header b with Some current => i <=? hd_Number current | None => false end
  | Some to => i <=? to
  end.

Fixpoint export_loop (fuel : nat) (maxPayload : Z) (to : option Z) (i : Z) (w : blockStreamWriter) (b : Blockchain)
    : outcome (option export_err * blockStreamWriter * Blockchain) :=
  match fuel with
  | O => NoFuel
  | S fuel =>
      if canLoop to i b then
        let~ (block, ok, b) := GetBlockByNumber HeaderHash i true b in
        match block, ok with
        | Some block, true =>
            let~ (err, w) := appendBlock maxPayload block w b in
            match err with
            | Some e => Ret (Some e, w, b)
            | None => export_loop fuel maxPayload to (add64 i 1) w b
            end
        | _, _ => Ret (None, w, b)
        end
      else Ret (None, w, b)
  end.

(** [Export]: the messages sent, and the error if there is one.  The loop ends at
    the latest above the head. *)
Definition Export (room : nat) (maxPayload from reqTo : Z) (b : Blockchain)
    : outcome (list ExportEvent * option export_err * Blockchain) :=
  if negb (reqTo =? 0) && (from >=? reqTo) then Ret ([], Some ErrToBeforeFrom, b)
  else
    let to := if negb (reqTo =? 0) then Some reqTo else None in
    let fuel := match chain_Header b with Some header => S (S (Z.to_nat (hd_Number header))) | None => 1%nat end in
    let~ (err, w, b) := export_loop fuel maxPayload to from (newBlockStreamWriter room) b in
    match err with
    | Some e => Ret (bw_sent w, Some e, b)
    | None => let~ (err, w) := writer_flush w b in Ret (bw_sent w, err, b)
    end.

Definition service_BlockByNumber (number : Z) (b : Blockchain) : outcome (option bytes * Blockchain) :=
  let~ (block, ok, b) := GetBlockByNumber HeaderHash number true b in
  Ret (match block, ok with Some block, true => Some (bk_MarshalRLP block) | _, _ => None end, b).

(** The number and the hash of the head, as [GetStatus] gives them. *)
Definition system_GetStatus (b : Blockchain) : outcome (Z * bytes) :=
  match chain_Header b with
  | None => Panic
  | Some header => Ret (s64 (hd_Number header), hash_String (hd_Hash header))
  end.

(** ** The client ([backup.go]) *)

Inductive export_msg :=
| ExportMsg (event : ExportEvent)
| Canceled
| StreamFailed.

Inductive backup_err :=
| ErrFileExists
| ErrStatus
| ErrExport
| ErrStream
| ErrNoBlocks.

Record SystemClient := mkClient {
  clt_GetStatus : option (Z * bytes);
  clt_BlockByNumber : Z → option bytes;
  clt_Export : Z → Z → option (list export_msg);
}.

Definition determineTo (clt : SystemClient) (to : option Z) : result backup_err (Z * Hash) :=
  match clt_GetStatus clt with
  | None => Err ErrStatus
  | Some (number, hash) =>
      let latest := Ok (u64 number, StringToHash hash) in
      match to with
      | Some to =>
          if to <? u64 number then
            match clt_BlockByNumber clt to with
            | Some data =>
                match bk_UnmarshalRLP HeaderHash data with
                | Some block => Ok (hd_Number (bk_Header block), hd_Hash (bk_Header block))
                | None => latest
                end
            | None => latest
            end
          else latest
      | None => latest
      end
  end.

(** The range received and what was written. *)
Fixpoint processExportStream (stream : list export_msg) (range : option (Z * Z)) (file : bytes)
    : result backup_err (Z * Z) * bytes :=
  let getResult := match range with Some r => Ok r | None => Err ErrNoBlocks end in
  match stream with
  | [] | Canceled :: _ => (getResult, file)
  | StreamFailed :: _ => (Err ErrStream, file)
  | ExportMsg event :: rest =>
      processExportStream rest (Some (match range with Some (from, _) => from | None => ex_From event end, ex_To event)) (file ++ ex_Data event)
  end.

(** [CreateBackup]: the result and the file it leaves. *)
Definition CreateBackup (clt : SystemClient) (from : Z) (to : option Z) (file : option bytes)
    : result backup_err (Z * Z) * option bytes :=
  match file with
  | Some _ => (Err ErrFileExists, file)
  | None =>
      match determineTo clt to with
      | Err e => (Err e, None)
      | Ok (reqTo, reqToHash) =>
          match clt_Export clt from reqTo with
          | None => (Err ErrExport, None)
          | Some stream =>
              match processExportStream stream None (md_MarshalRLP (mkMetadata reqTo reqToHash)) with
              | (Err e, _) => (Err e, None)
              | (Ok range, contents) => (Ok range, Some contents)
              end
          end
      end
  end.
(** What a node answers to its client. *)
Definition client_of (room : nat) (maxPayload : Z) (b : Blockchain) : SystemClient := mkClient
  (match system_GetStatus b with Ret status => Some status | _ => None end)
  (λ number, match service_BlockByNumber number b with Ret (data, _) => data | _ => None end)
  (λ from to, match Export room maxPayload from to b with
              | Ret (sent, err, _) => Some ((ExportMsg <$> sent) ++ match err with Some _ => [StreamFailed] | None => [] end)
              | _ => None
              end).

(** ** The reader ([restore.go]) *)

Inductive restore_err :=
| ErrEOF
| ErrNotArray
| ErrParse
| ErrNoMetadata
| ErrGenesisHash
| ErrChain (e : chain_err).

Record blockStream := mkStream {
  bs_input : bytes;
  bs_buffer : bytes;
}.

Definition newBlockStream (input : bytes) : blockStream := mkStream input (zeros 1024).

(** The largest slice of bytes the runtime makes. *)
Definition maxAlloc : Z := 2 ^ 48.

Definition reserveCap (size : Z) (s : blockStream) : outcome blockStream :=
  let cap := Z.of_nat (length (bs_buffer s)) in
  let diff := s64 (s64 size - s64 cap) in
  if diff >? 0 then
    if diff >? maxAlloc then Panic
    else
      let needLen := (length (bs_buffer s) + Z.to_nat diff)%nat in
      Ret (mkStream (bs_input s) (bs_buffer s ++ zeros (Z.to_nat diff) ++ zeros (append_spare (length (bs_buffer s)) needLen)))
  else if size >? cap then Panic else Ret s.

(** [b.input.Read(b.buffer[offset:offset+size])]: how many bytes were read. *)
Definition read_at (offset size : nat) (s : blockStream) : result restore_err nat * blockStream :=
  if (size =? 0)%nat then (Ok 0%nat, s)
  else
    match bs_input s with
    | [] => (Err ErrEOF, s)
    | _ =>
        let got := take size (bs_input s) in
        (Ok (length got),
         mkStream (drop size (bs_input s)) (take offset (bs_buffer s) ++ got ++ drop (offset + length got) (bs_buffer s)))
    end.

Definition loadRLPPrefix (s : blockStream) : outcome (result restore_err Z * blockStream) :=
  match bs_buffer s with
  | [] => Panic
  | _ =>
      Ret (match read_at 0 1 s with
           | (Err e, s) => (Err e, s)
           | (Ok _, s) => (Ok (hd 0 (bs_buffer s)), s)
           end)
  end.

(** The sizes of the header and of the payload of an array. *)
Definition loadPrefixSize (offset : nat) (prefix : Z) (s : blockStream) : outcome (result restore_err (Z * Z) * blockStream) :=
  if (0xc0 <=? prefix) && (prefix <=? 0xf7) then Ret (Ok (1, prefix - 0xc0), s)
  else if 0xf8 <=? prefix then
    let payloadSizeSize := prefix - 0xf7 in
    let~ s := reserveCap (Z.of_nat offset + payloadSizeSize) s in
    match read_at offset (Z.to_nat payloadSizeSize) s with
    | (Err e, s) => Ret (Err e, s)
    | (Ok n, s) =>
        if Z.of_nat n <? payloadSizeSize then Ret (Err ErrEOF, s)
        else
          let payloadSizeBytes := take (Z.to_nat payloadSizeSize) (drop offset (bs_buffer s)) in
          Ret (Ok (payloadSizeSize + 1, u64 (SetBytes payloadSizeBytes)), s)
    end
  else Ret (Err ErrNotArray, s).

Definition loadPayload (offset size : Z) (s : blockStream) : outcome (result restore_err () * blockStream) :=
  let~ s := reserveCap (add64 offset size) s in
  if add64 offset size <? offset then Panic
  else
    Ret (match read_at (Z.to_nat offset) (Z.to_nat size) s with
         | (Err e, s) => (Err e, s)
         | (Ok _, s) => (Ok (), s)
         end).

(** The size of what was loaded, zero at the end of the file. *)
Definition loadRLPArray (s : blockStream) : outcome (result restore_err Z * blockStream) :=
  let~ (r, s) := loadRLPPrefix s in
  match r with
  | Err ErrEOF => Ret (Ok 0, s)
  | Err e => Ret (Err e, s)
  | Ok prefix =>
      let~ (r, s) := loadPrefixSize 1 prefix s in
      match r with
      | Err e => Ret (Err e, s)
      | Ok (headerSize, payloadSize) =>
          let~ (r, s) := loadPayload headerSize payloadSize s in
          Ret (match r with Err e => Err e | Ok _ => Ok (add64 headerSize payloadSize) end, s)
      end
  end.

(** [getMetadata] and [nextBlock]: load a value and parse it. *)
Definition load_value {A} (parse : bytes → option A) (s : blockStream) : outcome (result restore_err (option A) * blockStream) :=
  let~ (r, s) := loadRLPArray s in
  match r with
  | Err e => Ret (Err e, s)
  | Ok size =>
      if size =? 0 then Ret (Ok None, s)
      else Ret (match parse (take (Z.to_nat size) (bs_buffer s)) with Some a => Ok (Some a) | None => Err ErrParse end, s)
  end.

Definition getMetadata : blockStream → outcome (result restore_err (option Metadata) * blockStream) := load_value md_UnmarshalRLP.
Definition nextBlock : blockStream → outcome (result restore_err (option Block) * blockStream) := load_value (bk_UnmarshalRLP HeaderHash).

(** The first block that the chain does not have, and how many more blocks there
    is time for.  The signal is not looked at after a genesis block; a turn takes
    a byte at least. *)
Fixpoint consume_loop (fuel patience : nat) (s : blockStream) (b : Blockchain)
    : outcome (result restore_err (option Block) * nat * blockStream * Blockchain) :=
  match fuel with
  | O => NoFuel
  | S fuel =>
      let~ (r, s) := nextBlock s in
      match r with
      | Err e => Ret (Err e, patience, s, b)
      | Ok None => Ret (Ok None, patience, s, b)
      | Ok (Some block) =>
          if hd_Number (bk_Header block) =? 0 then
            if negb (hd_Hash (bk_Header block) =? bc_genesis b) then Ret (Err ErrGenesisHash, patience, s, b)
            else consume_loop fuel patience s b
          else
            let~ (hash, b) := GetHashByNumber HeaderHash (hd_Number (bk_Header block)) b in
            if negb (hash =? hd_Hash (bk_Header block)) then Ret (Ok (Some block), patience, s, b)
            else match patience with O => Ret (Ok None, O, s, b) | S patience => consume_loop fuel patience s b end
      end
  end.

Definition consumeCommonBlocks (patience : nat) (s : blockStream) (b : Blockchain)
    : outcome (result restore_err (option Block) * nat * blockStream * Blockchain) :=
  consume_loop (S (length (bs_input s))) patience s b.

Definition restore : bytes := str "restore".

(** The loop of [importBlocks]. *)
Fixpoint import_loop (patience : nat) (block : Block) (p : option Progression) (s : blockStream) (b : Blockchain)
    : outcome (result restore_err () * option Progression * blockStream * Blockchain) :=
  let~ (r, b) := VerifyFinalizedBlock HeaderHash (Some block) b in
  match r with Err e => Ret (Err (ErrChain e), p, s, b) | Ok _ =>
  let~ (r, b) := chain_WriteBlock HeaderHash block restore b in
  match r with Err e => Ret (Err (ErrChain e), p, s, b) | Ok _ =>
  let~ p := UpdateCurrentProgression (hd_Number (bk_Header block)) p in
  let~ (r, s) := nextBlock s in
  match r with
  | Err e => Ret (Err e, p, s, b)
  | Ok None => Ret (Ok (), p, s, b)
  | Ok (Some block) => match patience with O => Ret (Ok (), p, s, b) | S patience => import_loop patience block p s b end
  end end end.

Definition importBlocks (patience : nat) (s : blockStream) (b : Blockchain) : outcome (result restore_err () * Blockchain) :=
  let~ (r, s) := getMetadata s in
  match r with
  | Err e => Ret (Err e, b)
  | Ok None => Ret (Err ErrNoMetadata, b)
  | Ok (Some metadata) =>
      let~ (latestBlock, ok, b) := GetBlockByNumber HeaderHash (md_Latest metadata) false b in
      let has := match latestBlock, ok with Some block, true => hd_Hash (bk_Header block) =? md_LatestHash metadata | _, _ => false end in
      if has then Ret (Ok (), b)
      else
        let~ (r, patience, s, b) := consumeCommonBlocks patience s b in
        match r with
        | Err e => Ret (Err e, b)
        | Ok None => Ret (Ok (), b)
        | Ok (Some firstBlock) =>
            let '(_, b) := SubscribeEvents b in
            let~ p := UpdateHighestProgression (md_Latest metadata) (StartProgression (hd_Number (bk_Header firstBlock))) in
            let~ (r, _, _, b) := import_loop patience firstBlock p s b in
            Ret (r, b)
        end
  end.

(** [RestoreChain] from the contents of a file. *)
Definition RestoreChain (patience : nat) (file : bytes) (b : Blockchain) : outcome (result restore_err () * Blockchain) :=
  importBlocks patience (newBlockStream file) b.
End archive.
