(* ===== verification/ArchiveSpec.v ===== *)
(** What a backup promises: the file that a client writes from the export of a node
    holds its blocks, and restoring a chain from it gives the ledger of that node.
    Whatever its size, a value is read back by the buffered reader as it was
    written. *)
From stdpp Require Import strings.
From S2P Require Import Prelude Types Runtime Crypto EvmState StateTxn Bloom Rlp RlpTypes ChainStorage Trie BuildRoot Blockchain BlockchainSpec Text Syncer SyncerSpec Archive.

Section reader.
Context `{ChainDeps} `{GoRuntime}.
(** No slice is larger than the runtime allows. *)
Hypothesis spare_bounded : ∀ a n, Z.of_nat n ≤ maxAlloc → Z.of_nat (n + append_spare a n) ≤ maxAlloc.

(** ** Reading a value *)

Definition buffer_ok (buf : bytes) : Prop := (0 < length buf)%nat ∧ Z.of_nat (length buf) ≤ maxAlloc.

Lemma reserveCap_ok size input buf :
  0 ≤ size ≤ maxAlloc → buffer_ok buf →
  ∃ k, reserveCap size (mkStream input buf) = Ret (mkStream input (buf ++ zeros k)) ∧
    size ≤ Z.of_nat (length (buf ++ zeros k)) ∧ buffer_ok (buf ++ zeros k).
Proof.
  intros Hs [Hb Hm]. unfold reserveCap, maxAlloc in *. cbn [bs_buffer bs_input].
  change (2 ^ 48) with 281474976710656 in *. rewrite (s64_small size), (s64_small (Z.of_nat _)), s64_small by lia. destruct (Z.gtb_spec (size - Z.of_nat (length buf)) 0) as [Hd|Hd].
  - destruct (Z.gtb_spec (size - Z.of_nat (length buf)) 281474976710656); [lia|].
    pose proof (spare_bounded (length buf) (length buf + Z.to_nat (size - Z.of_nat (length buf)))) as Hsp. unfold maxAlloc in Hsp.
    eexists. split; [unfold zeros; rewrite <- replicate_add; reflexivity|].
    unfold buffer_ok, zeros, maxAlloc. rewrite length_app, length_replicate. lia.
  - destruct (Z.gtb_spec size (Z.of_nat (length buf))); [lia|]. exists 0%nat. cbn. rewrite app_nil_r. done.
Qed.

Lemma read_at_ok off x rest buf :
  (off + length x ≤ length buf)%nat →
  read_at off (length x) (mkStream (x ++ rest) buf) =
    (Ok (length x), mkStream rest (take off buf ++ x ++ drop (off + length x) buf)).
Proof.
  intros Hl. unfold read_at. destruct x as [|d x]; cbn [length Nat.eqb bs_input bs_buffer app].
  - by rewrite Nat.add_0_r, take_drop.
  - change (d :: x ++ rest) with ((d :: x) ++ rest). change (S (length x)) with (length (d :: x)). rewrite take_app_length, drop_app_length. done.
Qed.

(** The sizes in the header of an array, which starts at the front of the buffer. *)
Lemma loadPrefixSize_ok n input buf :
  Z.of_nat n ≤ maxAlloc → buffer_ok buf →
  let h := rlp_header 0xC0 0xF7 n in
  ∃ buf', loadPrefixSize 1 (hd 0 h) (mkStream (tail h ++ input) (hd 0 h :: tail buf)) =
      Ret (Ok (Z.of_nat (length h), Z.of_nat n), mkStream input buf') ∧ take (length h) buf' = h ∧ buffer_ok buf'.
Proof.
  intros Hn Hb h. unfold h, rlp_header. destruct (Z.ltb_spec (Z.of_nat n) 56) as [Hlt|Hge]; cbn [hd tail app length].
  - exists (192 + Z.of_nat n :: tail buf). unfold loadPrefixSize.
    rewrite (proj2 (Z.leb_le _ _)), (proj2 (Z.leb_le _ _)) by lia. cbn [andb]. split; [do 5 f_equal; lia|]. split; [done|].
    unfold buffer_ok in *. destruct buf; cbn in *; lia.
  - set (size := Bytes (Z.of_nat n)). assert (1 ≤ length size ≤ 8)%nat as Hsz. {
      split.
      - destruct size eqn:E; [|cbn; lia]. pose proof (Bytes_value (Z.of_nat n) ltac:(lia)) as Hv. fold size in Hv. rewrite E in Hv. cbn in Hv. lia.
      - apply Bytes_length. unfold maxAlloc in Hn. lia. }
    unfold loadPrefixSize. rewrite (proj2 (Z.leb_gt (247 + _) 247)) by lia. rewrite andb_false_r.
    rewrite (proj2 (Z.leb_le 248 _)) by lia.
    destruct (reserveCap_ok (Z.of_nat 1 + (247 + Z.of_nat (length size) - 247)) (size ++ input) (247 + Z.of_nat (length size) :: tail buf)) as (k & -> & Hk & Hbk).
    { unfold maxAlloc; lia. }
    { unfold buffer_ok in *. destruct buf; cbn in *; lia. }
    cbn [obind app take]. replace (Z.to_nat (247 + Z.of_nat (length size) - 247)) with (length size) by lia.
    change (length ((_ :: tail buf) ++ _)) with (S (length (tail buf ++ zeros k))) in Hk. rewrite Nat2Z.inj_succ in Hk.
    rewrite read_at_ok by (cbn; lia). rewrite (proj2 (Z.ltb_ge _ _)) by lia. cbn [bs_buffer take drop app].
    rewrite drop_0, take_0. cbn [app]. rewrite take_app_length. unfold size at 2. rewrite Bytes_value, u64_small by (unfold is_u64, maxAlloc, M64 in *; lia).
    eexists. split; [do 4 f_equal; lia|]. split; [cbn; by rewrite take_app_length|].
    destruct Hbk as [_ Hbk]. unfold buffer_ok. rewrite !length_cons, !length_app, length_drop, length_cons, length_app in *. lia.
Qed.

Lemma rlp_header_cons n : rlp_header 0xC0 0xF7 n = hd 0 (rlp_header 0xC0 0xF7 n) :: tail (rlp_header 0xC0 0xF7 n).
Proof. unfold rlp_header. by case_match. Qed.

Lemma loadRLPArray_ok p input buf :
  let e := rlp_header 0xC0 0xF7 (length p) ++ p in
  Z.of_nat (length e) ≤ maxAlloc → buffer_ok buf →
  ∃ buf', loadRLPArray (mkStream (e ++ input) buf) = Ret (Ok (Z.of_nat (length e)), mkStream input buf') ∧
    take (length e) buf' = e ∧ buffer_ok buf'.
Proof.
  intros e He Hb. unfold e in *. set (h := rlp_header 0xC0 0xF7 (length p)) in *. rewrite length_app in *.
  destruct buf as [|x buf]; [by destruct Hb; cbn in *; lia|]. unfold loadRLPArray.
  assert ((h ++ p) ++ input = hd 0 h :: tail h ++ p ++ input) as ->
    by (rewrite <- app_assoc; unfold h; rewrite rlp_header_cons; done).
  assert (∀ d rest, loadRLPPrefix (mkStream (d :: rest) (x :: buf)) = Ret (Ok d, mkStream rest (d :: buf))) as -> by done. cbn [obind].
  destruct (loadPrefixSize_ok (length p) (p ++ input) (x :: buf)) as (buf1 & E1 & Ht1 & Hb1); [lia|done|]. fold h in E1, Ht1.
  cbn [tail] in E1. rewrite E1. cbn [obind].
  unfold loadPayload, maxAlloc in *. replace (add64 (Z.of_nat (length h)) (Z.of_nat (length p))) with (Z.of_nat (length h + length p))
    by (unfold add64; rewrite u64_small; unfold is_u64, M64; lia).
  destruct (reserveCap_ok (Z.of_nat (length h + length p)) (p ++ input) buf1) as (k & -> & Hk & Hbk); [unfold maxAlloc; lia|done|].
  cbn [obind]. rewrite (proj2 (Z.ltb_ge _ _)) by lia. rewrite !Nat2Z.id, read_at_ok by lia. cbn [obind].
  eexists. split; [done|]. assert (take (length h) (buf1 ++ zeros k) = h) as Hh.
  { rewrite take_app_le; [done|]. apply (f_equal length) in Ht1. rewrite length_take in Ht1. lia. }
  rewrite Hh. split; [by rewrite app_assoc, <- length_app, take_app_length|].
  destruct Hbk as [Hpos Hbk]. unfold buffer_ok, maxAlloc in *. rewrite !length_app, length_drop, length_app in *. lia.
Qed.

Lemma load_value_ok {A} (parse : bytes → option A) p input buf a :
  let e := rlp_header 0xC0 0xF7 (length p) ++ p in
  Z.of_nat (length e) ≤ maxAlloc → buffer_ok buf → parse e = Some a →
  ∃ buf', load_value parse (mkStream (e ++ input) buf) = Ret (Ok (Some a), mkStream input buf') ∧ buffer_ok buf'.
Proof.
  intros e He Hb Hp. destruct (loadRLPArray_ok p input buf He Hb) as (buf' & E & Ht & Hb'). exists buf'. split; [|done].
  unfold load_value. fold e in E, Ht. rewrite E. cbn [obind bs_buffer]. rewrite Nat2Z.id, Ht, Hp.
  replace (Z.of_nat (length e) =? 0) with false; [done|]. unfold e. by rewrite rlp_header_cons.
Qed.

Lemma load_value_end {A} (parse : bytes → option A) buf : buffer_ok buf → load_value parse (mkStream [] buf) = Ret (Ok None, mkStream [] buf).
Proof. intros [Hb _]. destruct buf; [cbn in Hb; lia|]. done. Qed.
End reader.

Section archive.
Context `{External} `{RlpReader} `{LRULaws} `{ChainDeps} `{GoRuntime} `{!RlpLaws} `{!RlpFormat}.
Variable HeaderHash : Header → Hash.
Variable genesis_config : Genesis.
Hypothesis Sender_nonzero : ∀ t a, signer_Sender t = Ret (Ok a) → a ≠ ZeroAddress.
Hypothesis spare_bounded : ∀ a n, Z.of_nat n ≤ maxAlloc → Z.of_nat (n + append_spare a n) ≤ maxAlloc.

(** ** Values in a file *)

(** A value small enough for a slice. *)
Definition fits (v : rlp) : Prop := Z.of_nat (length (rlp_encode (item_of v))) ≤ maxAlloc.

Lemma array_bytes l : fits (NewArray l) →
  ∃ p, MarshalTo (NewArray l) = rlp_header 0xC0 0xF7 (length p) ++ p ∧ Z.of_nat (length (rlp_header 0xC0 0xF7 (length p) ++ p)) ≤ maxAlloc.
Proof. intros Hf. unfold fits in Hf. rewrite MarshalTo_format by (unfold maxAlloc in Hf; lia). by eexists. Qed.

Lemma load_array {A} (parse : bytes → option A) l input buf a :
  fits (NewArray l) → buffer_ok buf → parse (MarshalTo (NewArray l)) = Some a →
  ∃ buf', load_value parse (mkStream (MarshalTo (NewArray l) ++ input) buf) = Ret (Ok (Some a), mkStream input buf') ∧ buffer_ok buf'.
Proof. intros (p & -> & Hp)%array_bytes Hb Ha. by apply load_value_ok. Qed.

Lemma archive_header_length short long n : Z.of_nat n < 2 ^ 64 → (length (rlp_header short long n) ≤ 9)%nat.
Proof.
  intros Hn. unfold rlp_header. destruct (Z.of_nat n <? 56); [cbn; lia|]. cbn [length].
  pose proof (Bytes_length (Z.of_nat n) 8 ltac:(lia)). lia.
Qed.

Lemma length_rlp_bytes b : Z.of_nat (length b) < 2 ^ 64 → (length (rlp_encode (IBytes b)) ≤ 9 + length b)%nat.
Proof.
  intros Hb. assert (length (rlp_header 0x80 0xB7 (length b) ++ b) ≤ 9 + length b)%nat.
  { rewrite length_app. pose proof (archive_header_length 0x80 0xB7 (length b) Hb). lia. }
  cbn [rlp_encode]. destruct b as [|d [|d' b]]; [done| |done]. case_match; [cbn; lia|done].
Qed.

Lemma metadata_fits m : is_u64 (md_Latest m) → fits (md_MarshalRLPWith m).
Proof.
  intros Hm. unfold fits, md_MarshalRLPWith. cbn [item_of fmap list_fmap]. set (a := IBytes (Bytes _)). set (b := IBytes (HashBytes _)).
  assert (length (rlp_encode a) ≤ 17)%nat.
  { pose proof (Bytes_length (md_Latest m) 8 ltac:(unfold is_u64, M64 in Hm; lia)). unfold a.
    pose proof (length_rlp_bytes (Bytes (md_Latest m)) ltac:(lia)). lia. }
  assert (length (rlp_encode b) ≤ 41)%nat.
  { unfold b. pose proof (length_rlp_bytes (HashBytes (md_LatestHash m))) as Hl. rewrite length_HashBytes in Hl. lia. }
  change (rlp_encode (IArray [a; b])) with (let p := rlp_encode a ++ rlp_encode b ++ [] in rlp_header 0xC0 0xF7 (length p) ++ p).
  cbv zeta. rewrite app_nil_r. set (p := rlp_encode a ++ rlp_encode b). assert (length p ≤ 58)%nat by (unfold p; rewrite length_app; lia).
  pose proof (archive_header_length 0xC0 0xF7 (length p) ltac:(lia)). rewrite length_app. unfold maxAlloc. lia.
Qed.

Lemma metadata_decodes m : is_u64 (md_Latest m) → hash_ok (md_LatestHash m) → md_UnmarshalRLP (md_MarshalRLP m) = Some m.
Proof.
  intros Hl Hh. unfold md_UnmarshalRLP, UnmarshalRlp, md_MarshalRLP. rewrite Parse_MarshalTo. cbn [mbind option_bind].
  unfold md_UnmarshalRLPFrom, md_MarshalRLPWith. cbn [item_of fmap list_fmap GetElems mbind option_bind].
  rewrite GetUint64_Bytes, GetHash_HashBytes by done. cbn [mbind option_bind]. rewrite BytesToHash_id by done. by destruct m.
Qed.

(** Blocks that can be written and read. *)
Definition archivable (e : entry) : Prop := block_wf HeaderHash (e_block e) ∧ fits (bk_MarshalRLPWith (e_block e)).

Definition encoded (l : list entry) : bytes := concat (bk_MarshalRLP ∘ e_block <$> l).

Lemma nextBlock_ok e l buf :
  archivable e → buffer_ok buf →
  ∃ buf', nextBlock HeaderHash (mkStream (encoded (e :: l)) buf) = Ret (Ok (Some (wire_block (e_block e))), mkStream (encoded l) buf') ∧ buffer_ok buf'.
Proof. intros [Hw Hf] Hb. unfold nextBlock, encoded. cbn [fmap list_fmap concat]. apply load_array; [done..|]. by apply block_decodes. Qed.

Lemma nextBlock_end buf : buffer_ok buf → nextBlock HeaderHash (mkStream (encoded []) buf) = Ret (Ok None, mkStream [] buf).
Proof. apply load_value_end. Qed.

(** ** Exporting *)

(** The writer after the first [i] blocks: what it sent and holds are these blocks,
    and the ranges it sent go from the first of them on. *)
Record writer_at (room0 : nat) (l : list entry) (i : nat) (w : blockStreamWriter) : Prop := {
  wa_data : concat (ex_Data <$> bw_sent w) ++ bw_buf w = encoded (take i l);
  wa_room : (room0 ≤ length (bw_sent w) + bw_room w)%nat;
  wa_sent : (length (bw_sent w) < i)%nat;
  wa_buf : bw_buf w ≠ [];
  wa_from : ∃ f, bw_pendingFrom w = Some f ∧ head ((ex_From <$> bw_sent w) ++ [f]) = Some 0;
  wa_to : bw_pendingTo w = Some (Z.of_nat i - 1);
}.

Lemma flush_ok room0 l i w b :
  writer_at room0 l i w → (i ≤ room0)%nat → chain_Header b ≠ None →
  ∃ w', writer_flush w b = Ret (None, w') ∧ concat (ex_Data <$> bw_sent w') = encoded (take i l) ∧ bw_buf w' = [] ∧
    bw_pendingFrom w' = None ∧ (room0 ≤ length (bw_sent w') + bw_room w')%nat ∧ (length (bw_sent w') ≤ i)%nat ∧
    head (ex_From <$> bw_sent w') = Some 0 ∧ ex_To <$> last (bw_sent w') = Some (Z.of_nat i - 1).
Proof.
  intros [Hd Hr Hs Hb (f & Hf & H0f) Ht] Hi Hh. unfold writer_flush. destruct (bw_buf w) as [|d buf] eqn:Eb; [done|]. cbn [length Nat.eqb].
  rewrite Hf, Ht. destruct (chain_Header b) as [h|]; [|done]. destruct (bw_room w) as [|room]; [lia|].
  eexists. split; [done|]. cbn [bw_sent bw_buf bw_pendingFrom bw_room]. rewrite fmap_app, concat_app, length_app. cbn [fmap list_fmap concat ex_Data length].
  rewrite app_nil_r, last_snoc. split_and!; try done; [lia..|]. by rewrite fmap_app.
Qed.

Lemma MarshalRLP_nonempty block : bk_MarshalRLP block ≠ [].
Proof. apply MarshalTo_nonempty. Qed.

Lemma encoded_snoc l i e : l !! i = Some e → encoded (take (S i) l) = encoded (take i l) ++ bk_MarshalRLP (e_block e).
Proof. intros Hl. unfold encoded. rewrite (take_S_r _ _ _ Hl), fmap_app, concat_app. cbn. by rewrite app_nil_r. Qed.

Lemma append_first maxPayload room l e w b :
  l !! 0%nat = Some e → hd_Number (e_header e) = 0 → w = newBlockStreamWriter room →
  ∃ w', appendBlock maxPayload (e_block e) w b = Ret (None, w') ∧ writer_at room l 1 w'.
Proof.
  intros Hl Hn ->. unfold appendBlock. cbn [bw_buf newBlockStreamWriter writer_flush length Nat.eqb].
  assert (∀ c : bool, (if c then Ret (None, newBlockStreamWriter room) else Ret (None, newBlockStreamWriter room)) =
    @Ret (option export_err * blockStreamWriter) (None, newBlockStreamWriter room)) as Hc by by intros [].
  unfold newBlockStreamWriter in *. rewrite Hc. cbn [obind bw_buf bw_pendingFrom bw_sent bw_room app].
  change (hd_Number (bk_Header (e_block e))) with (hd_Number (e_header e)). rewrite Hn. eexists. split; [done|].
  split; cbn; [|lia|lia|apply MarshalRLP_nonempty|by exists 0|done]. rewrite (encoded_snoc _ _ _ Hl). by rewrite take_0.
Qed.

Lemma append_next maxPayload room0 l i e w b :
  writer_at room0 l i w → l !! i = Some e → hd_Number (e_header e) = Z.of_nat i → (i ≤ room0)%nat → chain_Header b ≠ None →
  ∃ w', appendBlock maxPayload (e_block e) w b = Ret (None, w') ∧ writer_at room0 l (S i) w'.
Proof.
  intros Hw Hl Hn Hr Hh. unfold appendBlock. set (data := bk_MarshalRLP (e_block e)).
  change (hd_Number (bk_Header (e_block e))) with (hd_Number (e_header e)). rewrite Hn.
  destruct (_ >=? maxPayload).
  - destruct (flush_ok _ _ _ _ _ Hw Hr Hh) as (w' & -> & Hd & Hb & Hp & Hroom & Hs & Hf & Ht). cbn [obind]. rewrite Hb, Hp. eexists. split; [done|].
    split; cbn; [|done|lia|apply MarshalRLP_nonempty| |f_equal; lia].
    + by rewrite (encoded_snoc _ _ _ Hl), Hd.
    + eexists. split; [done|]. by destruct (bw_sent w').
  - destruct Hw as [Hd Hroom Hs Hb (f & Hf & H0f) Ht]. cbn [obind]. rewrite Hf. eexists. split; [done|].
    split; cbn; [|done|lia| |by exists f|f_equal; lia].
    + by rewrite (encoded_snoc _ _ _ Hl), <- Hd, app_assoc.
    + intros E. by apply app_nil in E as [? _].
Qed.

Lemma export_loop_ok maxPayload room0 to fuel : ∀ i w b l,
  implements HeaderHash genesis_config b l → (length l ≤ room0)%nat → Z.of_nat (length l) < M64 →
  (i ≤ length l)%nat → (length l - i < fuel)%nat → to = Some (Z.of_nat (length l) - 1) →
  (if i is 0%nat then w = newBlockStreamWriter room0 else writer_at room0 l i w) →
  ∃ w' b', export_loop HeaderHash fuel maxPayload to (Z.of_nat i) w b = Ret (None, w', b') ∧ writer_at room0 l (length l) w' ∧ silent HeaderHash b b'.
Proof.
  induction fuel as [|fuel IH]; intros i w b l Hi Hr Hm Hle Hf -> Hw; [lia|]. cbn [export_loop canLoop].
  destruct (ledger_last _ _ l (im_ledger _ _ _ _ Hi)) as (last & Hlast & _ & _). pose proof (ledger_pos _ _ _ _ Hi) as Hpos.
  destruct (Z.leb_spec (Z.of_nat i) (Z.of_nat (length l) - 1)) as [Hlt|Hge].
  2: { exists w, b. split; [done|]. split; [|by split; [|apply Hi]]. replace (length l) with i by lia. destruct i; [lia|done]. }
  destruct (lookup_lt_is_Some_2 l i) as [e He]; [lia|]. pose proof (lo_number _ _ _ (im_ledger _ _ _ _ Hi) _ _ He) as Hn.
  destruct (GetBlockByNumber_ok HeaderHash genesis_config b l (Z.of_nat i) true Hi) as (b1 & -> & Hs1); [lia|].
  rewrite Nat2Z.id, He. cbn [obind]. pose proof (implements_idle _ _ _ _ _ Hi (silent_idle _ _ _ Hs1)) as Hi1.
  assert (chain_Header b1 ≠ None) as Hh by (rewrite (im_header _ _ _ _ Hi1), Hlast; done).
  assert (∃ w', appendBlock maxPayload (e_block e) w b1 = Ret (None, w') ∧ writer_at room0 l (S i) w') as (w' & -> & Hw').
  { destruct i as [|i]; [by eapply append_first|]. eapply append_next; (done || lia). }
  cbn [obind]. replace (add64 (Z.of_nat i) 1) with (Z.of_nat (S i)) by (unfold add64; rewrite u64_small; unfold is_u64; lia).
  destruct (IH (S i) w' b1 l Hi1 Hr Hm) as (w2 & b2 & E2 & Hw2 & Hs2); [lia|lia|done|done|].
  exists w2, b2. split; [done|]. split; [done|]. split; [|apply Hs2]. etrans; [apply Hs1|apply Hs2].
Qed.

Lemma process_stream evs : ∀ range file,
  processExportStream (ExportMsg <$> evs) range file =
    (match evs, range with
     | [], None => Err ErrNoBlocks
     | [], Some r => Ok r
     | e :: _, _ => Ok (match range with Some r => r.1 | None => ex_From e end, default 0 (ex_To <$> last evs))
     end, file ++ concat (ex_Data <$> evs)).
Proof.
  induction evs as [|e evs IH]; intros range file; cbn [fmap list_fmap processExportStream concat].
  { rewrite app_nil_r. by destruct range as [[]|]. }
  rewrite IH, app_assoc. by destruct evs as [|e' evs]; destruct range as [[]|].
Qed.

(** The file that a client writes from a node. *)
Lemma CreateBackup_ok room maxPayload b l e :
  implements HeaderHash genesis_config b l → last l = Some e → (1 < length l ≤ room)%nat → Z.of_nat (length l) < M64 → hash_ok (e_hash e) →
  CreateBackup HeaderHash (client_of HeaderHash room maxPayload b) 0 None None =
    (Ok (0, Z.of_nat (length l) - 1), Some (md_MarshalRLP (mkMetadata (Z.of_nat (length l) - 1) (e_hash e)) ++ encoded l)).
Proof.
  intros Hi He Hl Hm Hh. destruct (ledger_last _ _ l (im_ledger _ _ _ _ Hi)) as (e' & He' & _ & Hn). rewrite He in He'. injection He' as <-.
  unfold CreateBackup, determineTo, client_of, system_GetStatus. rewrite (im_header _ _ _ _ Hi), He. cbn [fmap option_fmap option_map clt_GetStatus].
  rewrite Hn. assert (∀ n, is_u64 n → u64 (s64 n) = n) as Hu.
  { intros n Hu. unfold is_u64, u64, s64, M64 in *. rewrite Zminus_mod_idemp_l, Z.mod_small; lia. }
  rewrite Hu by (unfold is_u64; lia).
  assert (StringToHash (hash_String (hd_Hash (e_header e))) = e_hash e) as ->.
  { unfold StringToHash, hash_String. rewrite stringToBytes_Encode by apply be_bytes_range. by apply BytesToHash_id. }
  cbn [clt_Export]. unfold Export. replace (Z.of_nat (length l) - 1 =? 0) with false by lia. replace (0 >=? Z.of_nat (length l) - 1) with false by lia.
  cbn [negb andb]. rewrite (im_header _ _ _ _ Hi), He. cbn [fmap option_fmap option_map].
  change 0 with (Z.of_nat 0) at 1.
  destruct (export_loop_ok maxPayload room (Some (Z.of_nat (length l) - 1)) (S (S (Z.to_nat (hd_Number (e_header e))))) 0
    (newBlockStreamWriter room) b l Hi) as (w & b1 & -> & Hw & Hs1); [lia..|done|done|]. cbn [obind].
  pose proof (implements_idle _ _ _ _ _ Hi (silent_idle _ _ _ Hs1)) as Hi1.
  destruct (flush_ok room l (length l) w b1 Hw) as (w' & -> & Hd & _ & _ & _ & _ & Hf & Ht); [lia|by rewrite (im_header _ _ _ _ Hi1), He|].
  cbn [obind]. rewrite app_nil_r, process_stream, Hd, firstn_all. destruct (bw_sent w') as [|ev evs] eqn:Es; [done|].
  rewrite Ht. cbn in Hf. injection Hf as ->. done.
Qed.

(** ** Restoring *)

Lemma GetHashByNumber_ok b l n : implements HeaderHash genesis_config b l → 0 ≤ n →
  ∃ b', GetHashByNumber HeaderHash n b = Ret (from_option e_hash ZeroHash (l !! Z.to_nat n), b') ∧ silent HeaderHash b b'.
Proof.
  intros Hi Hn. unfold GetHashByNumber. destruct (GetBlockByNumber_ok HeaderHash genesis_config b l n false Hi Hn) as (b' & -> & Hs).
  exists b'. split; [|done]. by destruct (l !! Z.to_nat n).
Qed.

Lemma silent_trans b1 b2 b3 : silent HeaderHash b1 b2 → silent HeaderHash b2 b3 → silent HeaderHash b1 b3.
Proof. intros [H12 _] [H23 Hc]. split; [by etrans|done]. Qed.

Lemma wire_hash l lp i x y : wire_ledger l `prefix_of` wire_ledger lp → l !! i = Some x → lp !! i = Some y → e_hash x = e_hash y.
Proof.
  intros [k Hk] Hx Hy. assert (wire_ledger lp !! i = Some (wire_block (e_block x))) as E.
  { rewrite Hk. apply lookup_app_l_Some. unfold wire_ledger. by rewrite list_lookup_fmap, Hx. }
  unfold wire_ledger in E. rewrite list_lookup_fmap, Hy in E. injection E as E1 _ _. unfold e_hash, e_header. by rewrite E1.
Qed.

(** The blocks the chain has are passed over. *)
Lemma consume_ok lp l x fuel : ∀ i patience buf b,
  implements HeaderHash genesis_config b l → ledger_ok HeaderHash genesis_config lp → wire_ledger l `prefix_of` wire_ledger lp →
  bc_genesis b = hd_Hash (genesis_header HeaderHash genesis_config) → Forall archivable lp →
  lp !! length l = Some x → (i ≤ length l)%nat → (length l - i < fuel)%nat → (length l ≤ i + patience)%nat → buffer_ok buf →
  ∃ patience' buf' b', consume_loop HeaderHash fuel patience (mkStream (encoded (drop i lp)) buf) b =
      Ret (Ok (Some (wire_block (e_block x))), patience', mkStream (encoded (drop (S (length l)) lp)) buf', b') ∧
    (patience ≤ patience' + length l - i)%nat ∧ buffer_ok buf' ∧ silent HeaderHash b b'.
Proof.
  induction fuel as [|fuel IH]; intros i patience buf b Hi Hlp Hpre Hg Ha Hx Hle Hf Hp Hb; [lia|]. cbn [consume_loop].
  destruct (drop_number lp i) as (e & He & ->); [apply lookup_lt_Some in Hx; lia|].
  destruct (nextBlock_ok e (drop (S i) lp) buf) as (buf1 & -> & Hb1); [by eapply Forall_lookup_1|done|]. cbn [obind].
  change (bk_Header (wire_block (e_block e))) with (e_header e). rewrite (lo_number _ _ _ Hlp _ _ He). change (hd_Hash (e_header e)) with (e_hash e).
  destruct (Z.eqb_spec (Z.of_nat i) 0) as [Hi0|Hi0].
  { assert (i = 0%nat) as -> by lia. assert (e_hash e = bc_genesis b) as ->.
    { pose proof (lo_genesis _ _ _ Hlp) as E0. rewrite He in E0. injection E0 as E0. rewrite Hg. unfold e_hash, e_header. by rewrite E0. }
    rewrite Z.eqb_refl. cbn [negb]. pose proof (ledger_pos _ _ _ _ Hi) as Hpos.
    destruct (IH 1%nat patience buf1 b) as (p' & buf' & b' & E & Hp' & Hb' & Hs'); try done; [lia..|].
    exists p', buf', b'. split_and!; (done || lia). }
  destruct (GetHashByNumber_ok b l (Z.of_nat i) Hi) as (b1 & -> & Hs1); [lia|]. cbn [obind]. rewrite Nat2Z.id.
  destruct (decide (i = length l)) as [->|Hne].
  { rewrite Hx in He. injection He as <-. rewrite lookup_ge_None_2 by lia. cbn [from_option].
    destruct (lo_hashed _ _ _ Hlp x) as [_ Hz]; [by eapply list_elem_of_lookup_2|].
    destruct (Z.eqb_spec ZeroHash (e_hash x)) as [E|_]; [by rewrite E in Hz|]. cbn [negb]. exists patience, buf1, b1. split_and!; (done || lia). }
  destruct (lookup_lt_is_Some_2 l i) as [y Hy]; [lia|]. rewrite Hy. cbn [from_option]. rewrite (wire_hash _ _ _ _ _ Hpre Hy He), Z.eqb_refl. cbn [negb].
  destruct patience as [|patience]; [lia|]. destruct (IH (S i) patience buf1 b1) as (p' & buf' & b' & E & Hp' & Hb' & Hs'); try done; [| |lia..|].
  - eapply implements_idle; [done|by apply silent_idle].
  - by rewrite (sc_genesis _ _ (sn_chain _ _ (proj1 Hs1))).
  - exists p', buf', b'. split_and!; [done|lia|done|by eapply silent_trans].
Qed.

Lemma import_loop_ok rest : ∀ e pre patience p buf b l,
  implements HeaderHash genesis_config b l → wire_ledger l = wire_ledger pre → ledger_ok HeaderHash genesis_config (pre ++ e :: rest) →
  clean HeaderHash l (e_header <$> e :: rest) → accepts HeaderHash restore (wire_ledger (e :: rest)) b → Forall archivable rest →
  (length rest ≤ patience)%nat → buffer_ok buf →
  ∃ p' s' b' l', import_loop HeaderHash patience (wire_block (e_block e)) (Some p) (mkStream (encoded rest) buf) b = Ret (Ok (), p', s', b') ∧
    implements HeaderHash genesis_config b' l' ∧ wire_ledger l' = wire_ledger (pre ++ e :: rest).
Proof.
  induction rest as [|e' rest IH]; intros e pre patience p buf b l Hi Hw Hl Hc Hacc Ha Hp Hb.
  all: change (wire_ledger (e :: ?r)) with (wire_block (e_block e) :: wire_ledger r) in Hacc; cbn [accepts] in Hacc; destruct Hacc as (b1 & b2 & Ev & Ew & Hacc).
  all: destruct (accepted_next HeaderHash genesis_config Sender_nonzero _ _ _ _ _ _ _ _ Hi Hw Hl Hc Ev Ew) as (Hn & x & Hi2 & Hw2 & Hc2).
  all: destruct patience as [|patience]; cbn [import_loop]; rewrite Ev; cbn [obind]; rewrite Ew; cbn [obind UpdateCurrentProgression].
  1,2: rewrite nextBlock_end by done; cbn [obind]; eexists _, _, b2, (l ++ [x]); done.
  { cbn in Hp. lia. }
  apply Forall_cons in Ha as [Ha' Ha]. destruct (nextBlock_ok e' rest buf Ha' Hb) as (buf1 & -> & Hb1). cbn [obind].
  destruct (IH e' (pre ++ [e]) patience (mkProgression (pr_StartingBlock p) (hd_Number (bk_Header (wire_block (e_block e)))) (pr_HighestBlock p)) buf1 b2 (l ++ [x]))
    as (p' & s' & b' & l' & E & Hi' & Hw'); try done.
  - by rewrite <- app_assoc.
  - cbn in Hp. lia.
  - rewrite <- app_assoc in Hw'. by exists p', s', b', l'.
Qed.

(** C11.  A chain restored from a backup is the chain that was backed up.  Let a node
    hold a ledger of blocks that can be encoded.  The client that asks it for all
    of its blocks, in messages of whatever size, writes a file; a node that holds
    a shorter part of that ledger, and accepts the blocks that follow, restores
    from that file without an error to the whole ledger. *)
Theorem backup_restores room maxPayload src lp e patience b l :
  implements HeaderHash genesis_config src lp → last lp = Some e → (1 < length lp ≤ room)%nat → Z.of_nat (length lp) < M64 → hash_ok (e_hash e) →
  Forall archivable lp →
  implements HeaderHash genesis_config b l → bc_genesis b = hd_Hash (genesis_header HeaderHash genesis_config) →
  wire_ledger l `prefix_of` wire_ledger lp → (length l < length lp ≤ patience)%nat →
  (∀ b1, silent HeaderHash b b1 → accepts HeaderHash restore (wire_ledger (drop (length l) lp)) (SubscribeEvents b1).2) →
  ∃ file b' l', CreateBackup HeaderHash (client_of HeaderHash room maxPayload src) 0 None None = (Ok (0, Z.of_nat (length lp) - 1), Some file) ∧
    RestoreChain HeaderHash patience file b = Ret (Ok (), b') ∧
    implements HeaderHash genesis_config b' l' ∧ wire_ledger l' = wire_ledger lp.
Proof.
  intros Hsrc He Hroom Hm Hh Ha Hi Hg Hpre Hlt Hacc. eexists.
  rewrite (CreateBackup_ok room maxPayload src lp e) by done. pose proof (im_ledger _ _ _ _ Hsrc) as Hlp.
  set (m := mkMetadata _ _). unfold RestoreChain, importBlocks, newBlockStream, getMetadata.
  assert (is_u64 (md_Latest m)) as Hu by (unfold is_u64; cbn; lia).
  assert (buffer_ok (zeros 1024)) as Hz by (unfold buffer_ok, maxAlloc; cbn; lia).
  destruct (load_array md_UnmarshalRLP _ (encoded lp) (zeros 1024) m (metadata_fits m Hu) Hz) as (buf & E & Hb); [by apply metadata_decodes|].
  change (NewArray _) with (md_MarshalRLPWith m) in E. change (MarshalTo (md_MarshalRLPWith m)) with (md_MarshalRLP m) in E. rewrite E. cbn [obind]. clear E.
  destruct (GetBlockByNumber_ok HeaderHash genesis_config b l (md_Latest m) false Hi) as (b1 & -> & Hs1); [cbn; lia|].
  rewrite lookup_ge_None_2 by (cbn; lia). cbn [obind].
  destruct (lookup_lt_is_Some_2 lp (length l)) as [x Hx]; [lia|]. unfold consumeCommonBlocks. cbn [bs_input].
  pose proof (implements_idle _ _ _ _ _ Hi (silent_idle _ _ _ Hs1)) as Hi1.
  assert (∀ k, (length k ≤ length (encoded k))%nat) as Hlen.
  { intros k. induction k as [|y k IH]; [done|]. unfold encoded in *. cbn. rewrite length_app.
    pose proof (MarshalRLP_nonempty (e_block y)). destruct (bk_MarshalRLP (e_block y)); [done|]. cbn in *. lia. }
  destruct (consume_ok lp l x (S (length (encoded lp))) 0 patience buf b1) as (p' & buf' & b2 & E & Hp' & Hb' & Hs2); try done; [|specialize (Hlen lp); lia..|].
  { by rewrite (sc_genesis _ _ (sn_chain _ _ (proj1 Hs1))). }
  rewrite drop_0 in E. rewrite E. cbn [obind SubscribeEvents newUpdateCh StartProgression UpdateHighestProgression].
  pose proof (silent_trans _ _ _ Hs1 Hs2) as Hs. pose proof (implements_idle _ _ _ _ _ Hi (silent_idle _ _ _ Hs)) as Hi2.
  destruct (import_loop_ok (drop (S (length l)) lp) x (take (length l) lp) p'
    (mkProgression (hd_Number (bk_Header (wire_block (e_block x)))) 0 (md_Latest m)) buf' (SubscribeEvents b2).2 l) as (q & s' & b' & l' & El & Hi' & Hw').
  - by apply implements_stream.
  - by apply wire_split.
  - by rewrite <- (drop_S _ _ _ Hx), take_drop.
  - rewrite <- (drop_S _ _ _ Hx). by apply (ledger_clean HeaderHash genesis_config).
  - rewrite <- (drop_S _ _ _ Hx). by apply Hacc.
  - by apply Forall_drop.
  - rewrite length_drop. lia.
  - done.
  - rewrite <- (drop_S _ _ _ Hx), take_drop in Hw'. exists b', l'. split; [done|]. split; [|done].
    change (SubscribeEvents b2).2 with (set_stream (bc_stream b2 ++ [None]) b2) in El. cbn [pr_StartingBlock pr_CurrentBlock]. by rewrite El.
Qed.
End archive.

(** ** Files that are not backups *)

Section damaged.
Context `{External} `{RlpReader} `{LRU} `{ChainDeps} `{GoRuntime}.

(** A size of eight bytes with the highest bit set makes the reader panic. *)
Lemma oversized_value_panics HeaderHash patience b : RestoreChain HeaderHash patience [0xff; 0x80; 0; 0; 0; 0; 0; 0; 0] b = Panic.
Proof. reflexivity. Qed.

(** A payload that the file does not hold in full is loaded with what was left in
    the buffer. *)
Lemma truncated_value_loads d : loadRLPArray (mkStream [0xc2; 1] [0; 0; d]) = Ret (Ok 3, mkStream [] [0xc2; 1; d]).
Proof. reflexivity. Qed.
End damaged.
