(* ===== verification/GoHeapIndex.v ===== *)
(** [heap.Remove] of Go's [container/heap], and heaps whose items know where they
    are: [Swap], [Push] and [Pop] of [jsonrpc/filter_manager.go] and of
    [network/dial/heap.go] write the index of an item into the item, so that it
    can be removed later.  The slice holds pointers into a store of items; the
    loops are those of [GoHeap] with the store threaded through [Swap]. *)
From S2P Require Import Prelude Runtime GoHeap.

Local Open Scope nat_scope.

Section remove.
Context {A : Type} (less : A → A → bool).

(** [down] returns whether it moved the item: its first comparison tells. *)
Definition down_moves (i n : nat) (h : list A) : bool :=
  (2 * i + 1 <? n) && lessAt less h (min_child less i n h) i.

(** [heap.Remove(h, i)] for an index in range: the item and the slice without it. *)
Definition Remove (i : nat) (h : list A) : option (A * list A) :=
  let n := length h - 1 in
  let h :=
    if n =? i then h
    else
      let h := swap i n h in
      if down_moves i n h then down less n i n h else up less (S i) i h in
  x ← h !! n; Some (x, take n h).

Lemma lessAt_app h l i j : i < length h → j < length h → lessAt less (h ++ l) i j = lessAt less h i j.
Proof. intros. unfold lessAt. by rewrite !lookup_app_l. Qed.

Lemma swap_app (h l : list A) i j : i < length h → j < length h → swap i j (h ++ l) = swap i j h ++ l.
Proof.
  intros Hi Hj. unfold swap. rewrite !lookup_app_l by done.
  destruct (lookup_lt_is_Some_2 _ _ Hi) as [x ->]. destruct (lookup_lt_is_Some_2 _ _ Hj) as [y ->].
  rewrite !insert_app_l by (rewrite ?length_insert; done). done.
Qed.

Lemma up_app fuel j h l : j < length h → up less fuel j (h ++ l) = up less fuel j h ++ l.
Proof.
  revert j h. induction fuel as [|fuel IH]; intros j h Hj; [done|]. cbn [up].
  assert (parent j < length h). { destruct j; [unfold parent; simpl; lia|]. pose proof (parent_lt (S j)); lia. }
  rewrite lessAt_app by done. case_match; [done|]. rewrite swap_app by done. by rewrite IH by (by rewrite length_swap).
Qed.

Lemma min_child_app i n h l : n ≤ length h → 2 * i + 1 < n → min_child less i n (h ++ l) = min_child less i n h.
Proof.
  intros. unfold min_child. destruct (Nat.ltb_spec (2 * i + 1 + 1) n); [|done]. by rewrite lessAt_app by lia.
Qed.

Lemma down_app `{!StrictWeakOrder less} fuel i n h l : n ≤ length h → i < n → down less fuel i n (h ++ l) = down less fuel i n h ++ l.
Proof.
  revert i h. induction fuel as [|fuel IH]; intros i h Hn Hi; [done|]. cbn [down].
  destruct (Nat.leb_spec n (2 * i + 1)); [done|]. destruct (down_child less h i n) as (Hij & _); [done|].
  rewrite min_child_app, lessAt_app, swap_app by lia. case_match; [done|]. rewrite IH; [done|by rewrite length_swap|lia].
Qed.

Lemma down_stays i n h : down_moves i n h = false → ∀ fuel, down less fuel i n h = h.
Proof.
  unfold down_moves. intros Hm [|fuel]; [done|]. cbn [down].
  destruct (Nat.ltb_spec (2 * i + 1) n), (Nat.leb_spec n (2 * i + 1)); try lia; [|done].
  cbn [andb] in Hm. by rewrite Hm.
Qed.

Context `{!StrictWeakOrder less}.

(** A heap in which the item at [i] was replaced: either a child is less, and then
    it is not less than its parent, or no child is. *)
Lemma replaced_heap h i y :
  heap less h → i < length h →
  let h' := <[i:=y]> h in
  heap less (if down_moves i (length h) h' then down less (length h) i (length h) h' else up less (S i) i h').
Proof.
  intros Hh Hi h'. set (n := length h).
  assert (Hl : length h' = n) by (unfold h'; by rewrite length_insert).
  assert (Hne : ∀ a b, a ≠ i → b ≠ i → lessAt less h' a b = lessAt less h a b).
  { intros a b Ha Hb. unfold lessAt, h'. by rewrite !list_lookup_insert_ne by done. }
  assert (Hgrand : ∀ c, 0 < c → 0 < i → parent c = i → lessAt less h' c (parent i) = false).
  { intros c Hc Hi0 Hp. pose proof (parent_lt c Hc). pose proof (parent_lt i Hi0). rewrite Hne by lia.
    pose proof (Hh c Hc) as H1. rewrite Hp in H1. apply (lessAt_negtrans less h c i); [done|done|by apply Hh]. }
  destruct (down_moves i n h') eqn:Hm.
  - apply heap_below_all. rewrite length_down, Hl. apply down_heap; [done|lia|by rewrite Hl|].
    apply andb_true_iff in Hm as [H1%Nat.ltb_lt H2]. destruct (down_child less h' i n) as (Hij & Hpj & _); [done|].
    set (j := min_child less i n h') in *. split; [|intros; apply Hgrand; lia].
    intros c [Hc _] Hp. destruct (decide (c = i)) as [->|]; [|rewrite Hne by done; by apply Hh].
    apply (lessAt_negtrans less h' i j); [lia|by apply lessAt_asym|apply Hgrand; [lia|done|done]].
  - apply up_heap; [done|lia|lia|]. split; [|intros; by apply Hgrand].
    intros c Hc Hci. destruct (decide (parent c = i)) as [Hp|]; [|rewrite Hne by done; by apply Hh]. rewrite Hp.
    destruct (decide (c < n)) as [Hcn|]; [|unfold lessAt; by rewrite lookup_ge_None_2 by lia].
    assert (2 * i + 1 < n) as H1 by (destruct (parent_children c i); lia).
    destruct (down_child less h' i n H1) as (_ & _ & Hmin). unfold down_moves in Hm.
    apply Nat.ltb_lt in H1 as H1'. rewrite H1' in Hm. cbn [andb] in Hm.
    apply (lessAt_negtrans less h' c (min_child less i n h')); [|by apply Hmin|done].
    destruct (down_child less h' i n H1) as (? & _). lia.
Qed.

(** Removing any item of a heap leaves a heap of the others. *)
Lemma Remove_spec h i x :
  h !! i = Some x → heap less h →
  ∃ h', Remove i h = Some (x, h') ∧ h ≡ₚ x :: h' ∧ heap less h'.
Proof.
  intros Hx Hh. pose proof (lookup_lt_Some _ _ _ Hx) as Hi.
  destruct (exists_last (l := h)) as (l & y & ->); [by intros ->|]. rewrite length_app in Hi. simpl in Hi.
  assert (Hl : heap less l).
  { intros c Hc. specialize (Hh c Hc). destruct (decide (c < length l)) as [Hcl|].
    - pose proof (parent_lt c Hc). by rewrite lessAt_app in Hh by lia.
    - unfold lessAt. by rewrite lookup_ge_None_2 by lia. }
  unfold Remove. rewrite length_app. cbn [length]. replace (length l + 1 - 1) with (length l) by lia.
  destruct (Nat.eqb_spec (length l) i) as [Hn|Hn].
  - rewrite <- Hn in Hx. rewrite lookup_app_r, Nat.sub_diag in Hx by lia. injection Hx as ->. exists l.
    rewrite lookup_app_r, Nat.sub_diag by lia. cbn. rewrite take_app_length. split; [done|]. split; [|done].
    symmetry. apply Permutation_cons_append.
  - assert (i < length l) as Hil by lia. rewrite lookup_app_l in Hx by done.
    assert (swap i (length l) (l ++ [y]) = <[i:=y]> l ++ [x]) as ->.
    { unfold swap. rewrite lookup_app_l, Hx by done. rewrite lookup_app_r, Nat.sub_diag by lia. cbn [lookup list_lookup].
      rewrite insert_app_r_alt, Nat.sub_diag by lia. cbn [insert list_insert]. by rewrite insert_app_l. }
    set (h' := <[i:=y]> l). assert (length h' = length l) as Hl' by (unfold h'; by rewrite length_insert).
    assert (down_moves i (length l) (h' ++ [x]) = down_moves i (length l) h') as ->.
    { unfold down_moves. destruct (Nat.ltb_spec (2 * i + 1) (length l)); [|done]. cbn [andb].
      destruct (down_child less h' i (length l)) as (? & _); [done|]. rewrite min_child_app, lessAt_app by lia. done. }
    rewrite up_app, down_app by lia.
    pose proof (replaced_heap l i y Hl Hil) as Hr. cbn zeta in Hr. fold h' in Hr.
    set (r := if down_moves i (length l) h' then down less (length l) i (length l) h' else up less (S i) i h') in *.
    assert ((if down_moves i (length l) h' then down less (length l) i (length l) h' ++ [x] else up less (S i) i h' ++ [x]) = r ++ [x]) as ->
      by (unfold r; by case_match).
    assert (r ≡ₚ h') as Hp by (unfold r; case_match; [by rewrite down_Permutation|by rewrite up_Permutation]).
    assert (length r = length l) as Hlr by (by rewrite Hp). exists r. rewrite <- Hlr, lookup_app_r, Nat.sub_diag, take_app_length by lia.
    split; [done|]. split; [|done]. rewrite Hp. unfold h'. rewrite <- Permutation_cons_append.
    rewrite <- (take_drop_middle _ _ _ Hx) at 1. rewrite insert_take_drop by done. rewrite <- !Permutation_middle. apply perm_swap.
Qed.
End remove.

(** ** Items that know their index *)

(** The items of a store, by their address: how two of them compare, and the field
    that holds the index of one, [-1] for none. *)
Class ItemStore (St : Type) := {
  item_less : St → nat → nat → bool;
  item_index : nat → St → option Z;
  set_item_index : nat → Z → St → St;
}.

Class ItemStoreLaws (St : Type) `{ItemStore St} : Prop := {
  item_less_order s :: StrictWeakOrder (item_less s);
  item_less_set p z s a b : item_less (set_item_index p z s) a b = item_less s a b;
  item_index_set p z q s :
    item_index q (set_item_index p z s) = if decide (q = p) then (λ _, z) <$> item_index p s else item_index q s;
}.

Section indexed.
Context {St : Type} `{ItemStore St}.
Implicit Types q : list nat * St.

(** [Swap]: [t[i], t[j] = t[j], t[i]; t[i].index = i; t[j].index = j]. *)
Definition item_swap (i j : nat) q : list nat * St :=
  match q.1 !! i, q.1 !! j with
  | Some x, Some y => (<[i:=y]> (<[j:=x]> q.1), set_item_index x (Z.of_nat j) (set_item_index y (Z.of_nat i) q.2))
  | _, _ => q
  end.

Fixpoint item_up (fuel j : nat) q : list nat * St :=
  match fuel with
  | O => q
  | S fuel =>
      let i := parent j in
      if (i =? j) || negb (lessAt (item_less q.2) q.1 j i) then q
      else item_up fuel i (item_swap i j q)
  end.

Fixpoint item_down (fuel i n : nat) q : list nat * St :=
  match fuel with
  | O => q
  | S fuel =>
      if n <=? 2 * i + 1 then q
      else
        let j := min_child (item_less q.2) i n q.1 in
        if negb (lessAt (item_less q.2) q.1 j i) then q
        else item_down fuel j n (item_swap i j q)
  end.

(** The methods [Push] and [Pop] of the slice. *)
Definition item_append (x : nat) q : list nat * St := (q.1 ++ [x], set_item_index x (Z.of_nat (length q.1)) q.2).
Definition item_last q : outcome (nat * (list nat * St)) :=
  let n := length q.1 - 1 in
  match q.1 !! n with
  | None => Panic
  | Some x => Ret (x, (take n q.1, set_item_index x (-1) q.2))
  end.

(** [heap.Push], [heap.Pop] and [heap.Remove].  An index out of range panics in
    the first [Swap]. *)
Definition heap_Push (x : nat) q : list nat * St := item_up (S (length q.1)) (length q.1) (item_append x q).
Definition heap_Pop q : outcome (nat * (list nat * St)) :=
  let n := length q.1 - 1 in
  item_last (item_down n 0 n (item_swap 0 n q)).
Definition heap_Remove (i : Z) q : outcome (nat * (list nat * St)) :=
  if ((0 <=? i) && (i <? Z.of_nat (length q.1)))%Z then
    let i := Z.to_nat i in
    let n := length q.1 - 1 in
    item_last (if n =? i then q
               else let q := item_swap i n q in
                    if down_moves (item_less q.2) i n q.1 then item_down n i n q else item_up (S i) i q)
  else Panic.

(** Every item of the slice is there once, and knows where. *)
Definition placed q : Prop := NoDup q.1 ∧ ∀ i p, q.1 !! i = Some p → item_index p q.2 = Some (Z.of_nat i).

(** What differs by indices only. *)
Definition reindexed : St → St → Prop := rtc (λ s s', ∃ p z, s' = set_item_index p z s).

(** A slice and store after some swaps. *)
Record sifted q q' : Prop := {
  sifted_store : reindexed q.2 q'.2;
  sifted_items : q'.1 ≡ₚ q.1;
  sifted_placed : placed q → placed q';
  sifted_frame p : p ∉ q.1 → item_index p q'.2 = item_index p q.2;
}.

Context `{!ItemStoreLaws St}.

Lemma reindexed_set p z s : reindexed s (set_item_index p z s).
Proof. apply rtc_once. eauto. Qed.

Lemma reindexed_less s s' : reindexed s s' → ∀ a b, item_less s' a b = item_less s a b.
Proof. induction 1 as [|s s1 s2 (p & z & ->) _ IH]; intros a b; [done|]. by rewrite IH, item_less_set. Qed.

Lemma sifted_refl q : sifted q q.
Proof. by split. Qed.
Lemma sifted_trans q1 q2 q3 : sifted q1 q2 → sifted q2 q3 → sifted q1 q3.
Proof.
  intros [A1 B1 C1 D1] [A2 B2 C2 D2]. split; [by etrans|by etrans|auto|].
  intros p Hp. rewrite D2, D1; [done|done|by rewrite B1].
Qed.

Lemma item_swap_swap i j q : (item_swap i j q).1 = swap i j q.1.
Proof. unfold item_swap, swap. by repeat case_match. Qed.

Lemma item_swap_sifted i j q : sifted q (item_swap i j q).
Proof.
  unfold item_swap. destruct (q.1 !! i) as [x|] eqn:Hx; [|apply sifted_refl]. destruct (q.1 !! j) as [y|] eqn:Hy; [|apply sifted_refl].
  assert (<[i:=y]> (<[j:=x]> q.1) = swap i j q.1) as Hs by (unfold swap; by rewrite Hx, Hy).
  assert (<[i:=y]> (<[j:=x]> q.1) ≡ₚ q.1) as Hp by (rewrite Hs; apply swap_Permutation). split; cbn.
  - etrans; apply reindexed_set.
  - done.
  - intros [Hn Hi]. split; cbn; [by rewrite Hp|]. intros k p. rewrite Hs, swap_lookup by (by eapply lookup_lt_Some). intros Hk.
    apply Hi in Hk as Hk'. rewrite !item_index_set. unfold tr in Hk, Hk'.
    assert (Hu : ∀ a b c, q.1 !! a = Some c → q.1 !! b = Some c → a = b) by (intros; by eapply NoDup_lookup).
    destruct (Nat.eqb_spec k i) as [->|]; [|destruct (Nat.eqb_spec k j) as [->|]].
    + assert (p = y) as -> by congruence. case_decide as Hxy.
      * subst. assert (i = j) as -> by eauto. by rewrite decide_True, Hk'.
      * by rewrite decide_True, Hk'.
    + assert (p = x) as -> by congruence. rewrite decide_True by done. case_decide; [|by rewrite Hk']. subst. by rewrite Hk'.
    + rewrite !decide_False; [done|intros ->; eauto..].
  - intros p Hp'. rewrite !item_index_set, !decide_False; [done|intros ->; by eapply Hp', list_elem_of_lookup_2..].
Qed.

Lemma lessAt_ext {A} (less less' : A → A → bool) h i j : (∀ a b, less a b = less' a b) → lessAt less h i j = lessAt less' h i j.
Proof. intros He. unfold lessAt. repeat case_match; auto. Qed.
Lemma min_child_ext {A} (less less' : A → A → bool) i n h : (∀ a b, less a b = less' a b) → min_child less i n h = min_child less' i n h.
Proof. intros He. unfold min_child. by rewrite (lessAt_ext _ _ _ _ _ He). Qed.
Lemma heap_ext {A} (less less' : A → A → bool) h : (∀ a b, less a b = less' a b) → heap less h → heap less' h.
Proof. intros He Hh c Hc. rewrite <- (lessAt_ext _ _ _ _ _ He). by apply Hh. Qed.
Lemma down_moves_ext {A} (less less' : A → A → bool) i n h : (∀ a b, less a b = less' a b) → down_moves less i n h = down_moves less' i n h.
Proof. intros He. unfold down_moves. by rewrite (min_child_ext _ _ _ _ _ He), (lessAt_ext _ _ _ _ _ He). Qed.

Lemma item_swap_less i j q less : (∀ a b, item_less q.2 a b = less a b) → ∀ a b, item_less (item_swap i j q).2 a b = less a b.
Proof. intros He a b. by rewrite (reindexed_less q.2), He by apply item_swap_sifted. Qed.

(** The loops with indices are the loops of [GoHeap]. *)
Lemma item_up_ok less fuel j q :
  (∀ a b, item_less q.2 a b = less a b) → (item_up fuel j q).1 = up less fuel j q.1 ∧ sifted q (item_up fuel j q).
Proof.
  revert j q. induction fuel as [|fuel IH]; intros j q He; [split; [done|apply sifted_refl]|]. cbn [item_up up].
  rewrite (lessAt_ext _ _ _ _ _ He). case_match; [split; [done|apply sifted_refl]|].
  destruct (IH (parent j) (item_swap (parent j) j q)) as [E1 S1]; [by apply item_swap_less|].
  rewrite E1, item_swap_swap. split; [done|]. eapply sifted_trans; [apply item_swap_sifted|done].
Qed.

Lemma item_down_ok less fuel i n q :
  (∀ a b, item_less q.2 a b = less a b) → (item_down fuel i n q).1 = down less fuel i n q.1 ∧ sifted q (item_down fuel i n q).
Proof.
  revert i q. induction fuel as [|fuel IH]; intros i q He; [split; [done|apply sifted_refl]|]. cbn [item_down down].
  case_match; [split; [done|apply sifted_refl]|]. rewrite (min_child_ext _ _ _ _ _ He), (lessAt_ext _ _ _ _ _ He).
  case_match; [split; [done|apply sifted_refl]|].
  destruct (IH (min_child less i n q.1) (item_swap i (min_child less i n q.1) q)) as [E1 S1]; [by apply item_swap_less|].
  rewrite E1, item_swap_swap. split; [done|]. eapply sifted_trans; [apply item_swap_sifted|done].
Qed.

(** [Pop] of the slice takes the last item. *)
Lemma item_last_ok q h x :
  q.1 = h ++ [x] → placed q →
  ∃ s, item_last q = Ret (x, (h, s)) ∧ placed (h, s) ∧ reindexed q.2 s ∧ item_index x s = Some (-1)%Z ∧
    ∀ p, p ≠ x → item_index p s = item_index p q.2.
Proof.
  intros E [Hn Hi]. unfold item_last. rewrite E, length_app. cbn [length]. rewrite Nat.add_sub, lookup_app_r, Nat.sub_diag, take_app_length by lia.
  cbn [lookup list_lookup]. eexists. split; [done|]. rewrite E in Hn. apply NoDup_app in Hn as (Hn & Hx & _).
  assert (x ∉ h) as Hxh by (intros Hin; apply (Hx _ Hin); by apply list_elem_of_singleton).
  split; [|split; [apply reindexed_set|split]].
  - split; cbn; [done|]. intros k p Hk. rewrite item_index_set, decide_False.
    + apply Hi. rewrite E. by apply lookup_app_l_Some.
    + intros ->. by apply Hxh, (list_elem_of_lookup_2 _ k).
  - rewrite item_index_set, decide_True, (Hi (length h) x) by (rewrite ?E, ?lookup_app_r, ?Nat.sub_diag by lia; done). done.
  - intros p Hp. by rewrite item_index_set, decide_False.
Qed.

(** [heap.Push] adds an item. *)
Lemma heap_Push_spec x z q :
  placed q → heap (item_less q.2) q.1 → x ∉ q.1 → item_index x q.2 = Some z →
  let q' := heap_Push x q in
  q'.1 ≡ₚ x :: q.1 ∧ heap (item_less q'.2) q'.1 ∧ placed q' ∧ reindexed q.2 q'.2 ∧ ∀ p, p ∉ x :: q.1 → item_index p q'.2 = item_index p q.2.
Proof.
  intros [Hn Hi] Hh Hx Hz q'. unfold q', heap_Push.
  set (less := item_less q.2). assert (∀ a b, item_less (item_append x q).2 a b = less a b) as He by (intros; apply item_less_set).
  destruct (item_up_ok less (S (length q.1)) (length q.1) (item_append x q) He) as [E [R P Hpl F]].
  assert (placed (item_append x q)) as Hq.
  { split; cbn; [apply NoDup_app; split_and!; [done| |apply NoDup_singleton]; by intros ? ? ->%list_elem_of_singleton|].
    intros k p [Hk|[Hk [Hl Hxp]%list_lookup_singleton_Some]]%lookup_app_Some; rewrite item_index_set.
    - rewrite decide_False; [by apply Hi|]. intros ->. by apply Hx, (list_elem_of_lookup_2 _ k).
    - rewrite decide_True, Hz by done. cbn. do 2 f_equal. lia. }
  split_and!.
  - rewrite P. cbn. symmetry. apply Permutation_cons_append.
  - apply (heap_ext less); [intros; by rewrite (reindexed_less _ _ R)|]. rewrite E. cbn. by apply (Push_heap less).
  - auto.
  - etrans; [apply reindexed_set|exact R].
  - intros p Hp. apply not_elem_of_cons in Hp as [Hpx Hpq]. rewrite F; [cbn; by rewrite item_index_set, decide_False|].
    cbn. rewrite elem_of_app, list_elem_of_singleton. tauto.
Qed.

(** [heap.Remove] at an index of the slice returns the item there; it has no index
    any more and the others know theirs. *)
Lemma heap_Remove_spec i x q :
  placed q → heap (item_less q.2) q.1 → q.1 !! i = Some x →
  ∃ q', heap_Remove (Z.of_nat i) q = Ret (x, q') ∧ q.1 ≡ₚ x :: q'.1 ∧ heap (item_less q'.2) q'.1 ∧ placed q' ∧ reindexed q.2 q'.2 ∧
    item_index x q'.2 = Some (-1)%Z ∧ ∀ p, p ∉ q.1 → item_index p q'.2 = item_index p q.2.
Proof.
  intros Hp Hh Hx. pose proof (lookup_lt_Some _ _ _ Hx) as Hi. set (less := item_less q.2).
  unfold heap_Remove. replace ((0 <=? Z.of_nat i)%Z && (Z.of_nat i <? Z.of_nat (length q.1))%Z) with true by lia.
  rewrite Nat2Z.id. set (n := length q.1 - 1).
  set (q1 := if n =? i then q else _).
  destruct (Remove_spec less q.1 i x Hx Hh) as (h' & ER & Hperm & Hh'). unfold Remove in ER. fold n in ER.
  set (h1 := if n =? i then q.1 else _) in ER.
  assert (q1.1 = h1 ∧ sifted q q1) as [E [R P Hpl F]].
  { unfold q1, h1. case_match; [split; [done|apply sifted_refl]|]. cbn zeta.
    pose proof (item_swap_less i n q less (λ _ _, eq_refl)) as He. rewrite (down_moves_ext _ less _ _ _ He), item_swap_swap.
    destruct (item_down_ok less n i n _ He) as [E1 S1]. destruct (item_up_ok less (S i) i _ He) as [E2 S2].
    rewrite item_swap_swap in E1, E2. case_match; (split; [done|]); (eapply sifted_trans; [apply item_swap_sifted|done]). }
  destruct (h1 !! n) as [y|] eqn:Hy; [|done]. cbn in ER. injection ER as -> <-.
  assert (h1 = take n h1 ++ [x]) as Hs.
  { rewrite <- (take_drop_middle h1 n x Hy) at 1. rewrite drop_ge; [done|]. rewrite <- E, P. lia. }
  rewrite <- E in Hs. destruct (item_last_ok q1 _ _ Hs (Hpl Hp)) as (s & El & Hpl' & R' & Hix & F').
  exists (take n h1, s). rewrite E in El. split; [exact El|]. cbn. split; [done|]. rewrite E in Hpl'.
  assert (reindexed q.2 s) as R'' by (by etrans). split_and!; [|done|done|done|].
  - apply (heap_ext less); [intros; by rewrite (reindexed_less _ _ R'')|done].
  - intros p Hpn. rewrite F', F; [done|done|]. intros ->. by apply Hpn, (list_elem_of_lookup_2 _ i).
Qed.

(** [heap.Pop] returns the first item, which is the least; it has no index any more
    and the others know theirs. *)
Lemma heap_Pop_spec q :
  placed q → heap (item_less q.2) q.1 → q.1 ≠ [] →
  ∃ x q', heap_Pop q = Ret (x, q') ∧ q.1 ≡ₚ x :: q'.1 ∧ heap (item_less q'.2) q'.1 ∧ placed q' ∧ reindexed q.2 q'.2 ∧
    item_index x q'.2 = Some (-1)%Z ∧ (∀ p, p ∉ q.1 → item_index p q'.2 = item_index p q.2) ∧ ∀ y, y ∈ q.1 → item_less q.2 y x = false.
Proof.
  intros Hp Hh Hne. set (less := item_less q.2). set (n := length q.1 - 1).
  destruct (Pop_spec less q.1 Hne Hh) as (x & h' & EP & _ & Hperm & Hh' & Hmin). unfold Pop in EP. fold n in EP.
  set (q1 := item_down n 0 n (item_swap 0 n q)). set (h1 := down less n 0 n (swap 0 n q.1)) in EP.
  assert (q1.1 = h1 ∧ sifted q q1) as [E [R P Hpl F]].
  { destruct (item_down_ok less n 0 n _ (item_swap_less 0 n q less (λ _ _, eq_refl))) as [E1 S1]. rewrite item_swap_swap in E1.
    split; [exact E1|]. eapply sifted_trans; [apply item_swap_sifted|exact S1]. }
  destruct (h1 !! n) as [y|] eqn:Hy; [|done]. cbn in EP. injection EP as -> <-.
  assert (0 < length q.1) as Hpos by (destruct q.1; [done|cbn; lia]).
  assert (h1 = take n h1 ++ [x]) as Hs.
  { rewrite <- (take_drop_middle h1 n x Hy) at 1. rewrite drop_ge; [done|]. rewrite <- E, P. lia. }
  rewrite <- E in Hs. destruct (item_last_ok q1 _ _ Hs (Hpl Hp)) as (s & El & Hpl' & R' & Hix & F').
  exists x, (take n h1, s). rewrite E in El. split; [exact El|]. cbn. split; [done|]. rewrite E in Hpl'.
  assert (reindexed q.2 s) as R'' by (by etrans). split_and!; [|done|done|done| |done].
  - apply (heap_ext less); [intros; by rewrite (reindexed_less _ _ R'')|done].
  - intros p Hpn. rewrite F', F; [done|done|]. intros ->. apply Hpn. rewrite Hperm. by left.
Qed.

(** The first item of a heap is the least. *)
Lemma heap_first q x y : heap (item_less q.2) q.1 → q.1 !! 0 = Some x → y ∈ q.1 → item_less q.2 y x = false.
Proof. apply heap_root. apply _. Qed.
End indexed.
