(* ===== verification/JsonTypes.v ===== *)
(** The data of package [jsonrpc]: what the endpoints return ([types.go]), block
    numbers as clients write them ([codec.go]), how they are resolved
    ([helper.go]) and the queries for logs ([query.go]).

    The text of a JSON value is made by [encoding/json]: a value of a type is what
    is returned, and a query is decoded from the fields that [json.Unmarshal]
    finds in it. *)
From stdpp Require Import strings.
From S2P Require Import Prelude Types Runtime Crypto StateTxn Bloom Rlp RlpTypes ChainStorage Trie BuildRoot Blockchain Text.

(** ** Blocks, transactions and logs ([types.go]) *)

Record json_transaction := mkJsonTx {
  jt_Nonce : Z;
  jt_GasPrice : Z;
  jt_Gas : Z;
  jt_To : option Address;
  jt_Value : Z;
  jt_Input : bytes;
  jt_V : Z;
  jt_R : Z;
  jt_S : Z;
  jt_Hash : Hash;
  jt_From : Address;
  jt_BlockHash : option Hash;
  jt_BlockNumber : option Z;
  jt_TxIndex : option Z;
}.

(** The signature is dereferenced. *)
Definition toTransaction (t : Transaction) (blockNumber : option Z) (blockHash : option Hash) (txIndex : option nat)
    : outcome json_transaction :=
  match tx_V t, tx_R t, tx_S t with
  | Some v, Some r, Some s =>
      Ret (mkJsonTx (tx_Nonce t) (tx_GasPrice t) (tx_Gas t) (tx_To t) (tx_Value t) (tx_Input t) v r s (tx_Hash t) (tx_From t)
             blockHash blockNumber (Z.of_nat <$> txIndex))
  | _, _, _ => Panic
  end.

Definition toPendingTransaction (t : Transaction) : outcome json_transaction := toTransaction t None None None.

Inductive transactionOrHash :=
| FullTransaction (t : json_transaction)
| TransactionHash (h : Hash).

Definition getHash (t : transactionOrHash) : Hash := match t with FullTransaction t => jt_Hash t | TransactionHash h => h end.

Record json_block := mkJsonBlock {
  jb_ParentHash : Hash;
  jb_Sha3Uncles : Hash;
  jb_Miner : bytes;
  jb_StateRoot : Hash;
  jb_TxRoot : Hash;
  jb_ReceiptsRoot : Hash;
  jb_LogsBloom : bytes;
  jb_Difficulty : Z;
  jb_TotalDifficulty : Z;
  jb_Size : Z;
  jb_Number : Z;
  jb_GasLimit : Z;
  jb_GasUsed : Z;
  jb_Timestamp : Z;
  jb_ExtraData : bytes;
  jb_MixHash : Hash;
  jb_Nonce : bytes;
  jb_Hash : Hash;
  jb_Transactions : list transactionOrHash;
  jb_Uncles : list Hash;
}.

Record json_Log := mkJsonLog {
  jl_Address : Address;
  jl_Topics : list Hash;
  jl_Data : bytes;
  jl_BlockNumber : Z;
  jl_TxHash : Hash;
  jl_TxIndex : Z;
  jl_BlockHash : Hash;
  jl_LogIndex : Z;
  jl_Removed : bool;
}.

Record json_receipt := mkJsonReceipt {
  jr_Root : Hash;
  jr_CumulativeGasUsed : Z;
  jr_LogsBloom : bytes;
  jr_Logs : list json_Log;
  jr_Status : Z;
  jr_TxHash : Hash;
  jr_TxIndex : Z;
  jr_BlockHash : Hash;
  jr_BlockNumber : Z;
  jr_GasUsed : Z;
  jr_ContractAddress : option Address;
  jr_FromAddr : Address;
  jr_ToAddr : option Address;
}.

Section blocks.
Context `{External}.

(** The loop of [toBlock] over the transactions. *)
Fixpoint to_transactions (b : Block) (fullTx : bool) (idx : nat) (txs : list Transaction) : outcome (list transactionOrHash) :=
  match txs with
  | [] => Ret []
  | txn :: txs =>
      let~ t :=
        if fullTx then
          let~ t := toTransaction txn (Some (hd_Number (bk_Header b))) (Some (hd_Hash (bk_Header b))) (Some idx) in Ret (FullTransaction t)
        else Ret (TransactionHash (tx_Hash txn)) in
      let~ ts := to_transactions b fullTx (S idx) txs in
      Ret (t :: ts)
  end.

Definition toBlock (b : Block) (fullTx : bool) : outcome json_block :=
  let h := bk_Header b in
  let~ ts := to_transactions b fullTx 0 (bk_Transactions b) in
  Ret (mkJsonBlock (hd_ParentHash h) (hd_Sha3Uncles h) (hd_Miner h) (hd_StateRoot h) (hd_TxRoot h) (hd_ReceiptsRoot h)
         (hd_LogsBloom h) (hd_Difficulty h) (hd_Difficulty h) (bk_Size b) (hd_Number h) (hd_GasLimit h) (hd_GasUsed h)
         (hd_Timestamp h) (hd_ExtraData h) (hd_MixHash h) (hd_Nonce h) (hd_Hash h) ts (hd_Hash <$> bk_Uncles b)).
End blocks.

(** ** Block numbers ([codec.go], [helper.go]) *)

(** An [int64]: negative numbers are names. *)
Definition BlockNumber : Type := Z.
Definition PendingBlockNumber : BlockNumber := -3.
Definition LatestBlockNumber : BlockNumber := -2.
Definition EarliestBlockNumber : BlockNumber := -1.

Record BlockNumberOrHash := mkBnh {
  bnh_BlockNumber : option BlockNumber;
  bnh_BlockHash : option Hash;
}.

Fixpoint TrimLeft (s : bytes) (c : Z) : bytes :=
  match s with x :: s' => if x =? c then TrimLeft s' c else s | [] => [] end.
Definition Trim (s : bytes) (c : Z) : bytes := rev (TrimLeft (rev (TrimLeft s c)) c).

Definition stringToBlockNumber (s : bytes) : option BlockNumber :=
  if bool_decide (s = []) then None
  else
    let s := Trim s 34 in
    if bool_decide (s = str "pending") || bool_decide (s = str "latest") then Some LatestBlockNumber
    else if bool_decide (s = str "earliest") then Some EarliestBlockNumber
    else s64 <$> ParseUint64orHex (Some s).

(** What [json.Unmarshal] finds in the argument: an object with the fields given,
    or something else, whose text is read. *)
Inductive bnh_json :=
| BnhObject (number : option BlockNumber) (hash : option Hash)
| BnhText (data : bytes).

Definition bnh_UnmarshalJSON (data : bnh_json) : option BlockNumberOrHash :=
  match (match data with
         | BnhObject n h => Some (mkBnh n h)
         | BnhText s => (λ n, mkBnh (Some n) None) <$> stringToBlockNumber s
         end) with
  | None => None
  | Some bnh =>
      match bnh_BlockNumber bnh, bnh_BlockHash bnh with
      | Some _, Some _ => None
      | None, None => None
      | _, _ => Some bnh
      end
  end.

Inductive json_err :=
| ErrHeaderNotFound
| ErrLatestNotFound
| ErrNegativeBlockNumber
| ErrFailedFetchGenesis
| ErrFetchHeader
| ErrNoDataInContractCreation
| ErrBlockByHash
| ErrFilterNotFound
| ErrWSFilterDoesNotSupportGetChanges
| ErrCastingFilterToLogFilter
| ErrBlockNotFound
| ErrIncorrectBlockRange
| ErrBlockRangeTooHigh
| ErrNoWSConnection
| ErrReceipts
| ErrAddressExpected
| ErrDecodeAddress
| ErrHashExpected
| ErrDecodeTopics
| ErrParse.

(** [latest] is what [store.Header()] returns. *)
Definition GetNumericBlockNumber (number : BlockNumber) (latest : option Header) : result json_err Z :=
  if (number =? LatestBlockNumber) || (number =? PendingBlockNumber) then
    match latest with None => Err ErrLatestNotFound | Some latest => Ok (hd_Number latest) end
  else if number =? EarliestBlockNumber then Ok 0
  else if number <? 0 then Err ErrNegativeBlockNumber
  else Ok number.

(** ** Queries ([query.go]) *)

Record LogQuery := mkQuery {
  lq_BlockHash : option Hash;
  lq_fromBlock : BlockNumber;
  lq_toBlock : BlockNumber;
  lq_Addresses : list Address;
  lq_Topics : list (list Hash);
}.

Definition set_Topics (ts : list (list Hash)) (q : LogQuery) : LogQuery :=
  mkQuery (lq_BlockHash q) (lq_fromBlock q) (lq_toBlock q) (lq_Addresses q) ts.
Definition set_Addresses (l : list Address) (q : LogQuery) : LogQuery :=
  mkQuery (lq_BlockHash q) (lq_fromBlock q) (lq_toBlock q) l (lq_Topics q).

Definition addTopicSet (set : list bytes) (q : LogQuery) : result json_err LogQuery :=
  match mapM hash_UnmarshalText set with
  | None => Err ErrParse
  | Some res => Ok (set_Topics (lq_Topics q ++ [res]) q)
  end.

Definition addAddress (raw : bytes) (q : LogQuery) : result json_err LogQuery :=
  match address_UnmarshalText raw with
  | None => Err ErrParse
  | Some addr => Ok (set_Addresses (lq_Addresses q ++ [addr]) q)
  end.

(** A decoded value of type [interface{}]. *)
Inductive json_item :=
| JString (s : bytes)
| JArray (l : list json_item)
| JNull
| JOther.

Record query_json := mkQueryJson {
  qj_BlockHash : option Hash;
  qj_FromBlock : bytes;
  qj_ToBlock : bytes;
  qj_Address : json_item;
  qj_Topics : list json_item;
}.

Definition query_number (s : bytes) : result json_err BlockNumber :=
  if bool_decide (s = []) then Ok LatestBlockNumber
  else match stringToBlockNumber s with Some n => Ok n | None => Err ErrParse end.

Fixpoint add_addresses (raw : list json_item) (q : LogQuery) : result json_err LogQuery :=
  match raw with
  | [] => Ok q
  | JString s :: raw => let? q := addAddress s q in add_addresses raw q
  | _ :: _ => Err ErrAddressExpected
  end.

Fixpoint item_strings (raw : list json_item) : result json_err (list bytes) :=
  match raw with
  | [] => Ok []
  | JString s :: raw => let? l := item_strings raw in Ok (s :: l)
  | _ :: _ => Err ErrHashExpected
  end.

Fixpoint add_topics (items : list json_item) (q : LogQuery) : result json_err LogQuery :=
  match items with
  | [] => Ok q
  | item :: items =>
      let? q :=
        match item with
        | JString s => addTopicSet [s] q
        | JArray raw => let? res := item_strings raw in addTopicSet res q
        | JNull => addTopicSet [] q
        | JOther => Err ErrDecodeTopics
        end in
      add_topics items q
  end.

Definition query_UnmarshalJSON (obj : query_json) : result json_err LogQuery :=
  let? from := query_number (qj_FromBlock obj) in
  let? to := query_number (qj_ToBlock obj) in
  let q := mkQuery (qj_BlockHash obj) from to [] [] in
  let? q :=
    match qj_Address obj with
    | JNull => Ok q
    | JString s => addAddress s q
    | JArray raw => add_addresses raw q
    | JOther => Err ErrDecodeAddress
    end in
  add_topics (qj_Topics obj) q.

(** The loop of [Match] over the topics, when there are enough of them. *)
Fixpoint match_topics (subs : list (list Hash)) (topics : list Hash) : bool :=
  match subs, topics with
  | [], _ => true
  | sub :: subs, topic :: topics =>
      if bool_decide (sub = []) || existsb (λ t, topic =? t) sub then match_topics subs topics else false
  | _ :: _, [] => false
  end.

Definition Match (q : LogQuery) (log : Log) : bool :=
  if bool_decide (lq_Addresses q ≠ []) && negb (existsb (λ a, a =? log_Address log) (lq_Addresses q)) then false
  else if (length (log_Topics log) <? length (lq_Topics q))%nat then false
  else match_topics (lq_Topics q) (log_Topics log).

Lemma existsb_eqb (x : Z) l : existsb (λ t, x =? t) l = true ↔ x ∈ l.
Proof.
  rewrite existsb_exists. split.
  - intros (t & Ht & ->%Z.eqb_eq). by apply list_elem_of_In.
  - intros Hx. exists x. split; [by apply list_elem_of_In|apply Z.eqb_refl].
Qed.

Lemma match_topics_exact subs topics :
  match_topics subs topics = true ↔ (length subs ≤ length topics)%nat ∧
    ∀ i sub, subs !! i = Some sub → sub = [] ∨ ∃ t, topics !! i = Some t ∧ t ∈ sub.
Proof.
  revert topics. induction subs as [|sub subs IH]; intros topics; cbn; [split; [intros _; split; [lia|done]|done]|].
  destruct topics as [|topic topics]; [split; [done|cbn; lia]|]. cbn [length].
  transitivity ((sub = [] ∨ topic ∈ sub) ∧ match_topics subs topics = true).
  { rewrite <- existsb_eqb. case_bool_decide; cbn [orb]; [tauto|]. destruct (existsb _ sub); intuition congruence. }
  rewrite IH. split.
  - intros [Hs [Hl Ht]]. split; [lia|]. intros [|i] sub'; cbn; [|apply Ht]. intros [= <-]. destruct Hs; eauto.
  - intros [Hl Ht]. split_and!; [|lia|intros i; exact (Ht (S i))].
    destruct (Ht 0%nat sub eq_refl) as [|(t & [= <-] & ?)]; auto.
Qed.

(** A log matches when its address is one of those asked for, if any are, and each
    of its first topics is one of those asked for at its place. *)
Lemma Match_exact q log :
  Match q log = true ↔
  (lq_Addresses q = [] ∨ log_Address log ∈ lq_Addresses q) ∧
  (length (lq_Topics q) ≤ length (log_Topics log))%nat ∧
  ∀ i sub, lq_Topics q !! i = Some sub → sub = [] ∨ ∃ t, log_Topics log !! i = Some t ∧ t ∈ sub.
Proof.
  rewrite <- match_topics_exact. unfold Match.
  assert (existsb (λ a, a =? log_Address log) (lq_Addresses q) = existsb (λ a, log_Address log =? a) (lq_Addresses q)) as ->.
  { induction (lq_Addresses q) as [|a l IH]; [done|]. cbn. by rewrite IH, Z.eqb_sym. }
  rewrite <- existsb_eqb. destruct (existsb _ _); cbn [negb]; rewrite ?andb_true_r, ?andb_false_r.
  - destruct (Nat.ltb_spec (length (log_Topics log)) (length (lq_Topics q))); [|tauto].
    split; [done|]. intros [_ [? _]%match_topics_exact]. lia.
  - case_bool_decide as Ha; [split; [done|]; intuition congruence|].
    destruct (Nat.ltb_spec (length (log_Topics log)) (length (lq_Topics q))).
    + split; [done|]. intros [_ [? _]%match_topics_exact]. lia.
    + split; [|tauto]. intros ->. split; [|done]. left. by destruct (lq_Addresses q).
Qed.

(** ** What clients may be surprised by *)

(** The name of the pending block is that of the latest, so no request reaches the
    nonces of the pool, and large numbers are read as names. *)
Lemma pending_is_latest : stringToBlockNumber (str "pending") = Some LatestBlockNumber.
Proof. vm_compute. reflexivity. Qed.
Lemma large_number_is_latest : stringToBlockNumber (str "0xfffffffffffffffe") = Some LatestBlockNumber.
Proof. vm_compute. reflexivity. Qed.
