(* ===== verification/Filters.v ===== *)
(** [jsonrpc/filter_manager.go]: filters for blocks and logs, their timeouts and
    the loop that feeds and removes them.

    Filters are shared objects: the map of filters and the heap of timeouts hold
    their addresses, and a filter that was uninstalled may still be in the hands of
    a caller.  The elements of the block stream are linked by addresses too.  A web
    socket connection answers its writes as its script says.  Time is an argument
    of what reads it.  [Run] is a loop with a timer ([run_loop]): a signal on
    [updateCh] reaches it only while it selects.

    The last part is [jsonrpc/dispatcher.go]: how requests, batches and
    subscriptions reach the manager and the endpoints. *)
From stdpp Require Import strings.
From S2P Require Import Prelude Types Runtime Crypto StateTxn Bloom Rlp RlpTypes ChainStorage Trie BuildRoot Blockchain Text GoHeap GoHeapIndex JsonTypes.

(** ** The stream of blocks *)

Record headElem := mkElem {
  he_header : option json_block;
  he_next : option nat;
}.

Record blockStream := mkBlockStream {
  st_elems : list headElem;
  st_head : nat;
}.

Definition newBlockStream (head : json_block) : blockStream := mkBlockStream [mkElem (Some head) None] 0.
Definition getHead (s : blockStream) : nat := st_head s.

(** [push]: the new head is linked from the old one. *)
Definition stream_push (header : json_block) (s : blockStream) : blockStream :=
  let newHead := length (st_elems s) in
  mkBlockStream (alter (λ e, mkElem (he_header e) (Some newHead)) (st_head s) (st_elems s) ++ [mkElem (Some header) None]) newHead.

(** The loop of [headElem.getUpdates]. *)
Fixpoint updates_from (fuel cur : nat) (elems : list headElem) : outcome (list json_block * nat) :=
  match fuel with
  | O => NoFuel
  | S fuel =>
      match elems !! cur with
      | None => Panic
      | Some e =>
          match he_next e with
          | None => Ret ([], cur)
          | Some next =>
              match elems !! next with
              | None => Panic
              | Some nextElem =>
                  let~ (res, last) := updates_from fuel next elems in
                  Ret (match he_header nextElem with Some h => h :: res | None => res end, last)
              end
          end
      end
  end.
Definition elem_getUpdates (h : nat) (s : blockStream) : outcome (list json_block * nat) :=
  updates_from (S (length (st_elems s))) h (st_elems s).

(** ** Filters *)

Definition NoIndexInHeap : Z := -1.

Record filterBase := mkBase {
  fb_id : bytes;
  fb_heapIndex : Z;
  fb_expiresAt : Z;
  fb_ws : option nat;
}.

Definition newFilterBase (uuid : bytes) (ws : option nat) : filterBase := mkBase uuid NoIndexInHeap 0 ws.

(** The query is a pointer: a request for a filter may hold a null. *)
Inductive filter_kind :=
| blockFilter (block : nat)
| logFilter (query : option LogQuery) (logs : list json_Log).

Record filter_obj := mkFilter {
  f_base : filterBase;
  f_kind : filter_kind;
}.

Definition hasWSConn (f : filter_obj) : bool := match fb_ws (f_base f) with Some _ => true | None => false end.
Definition set_kind (k : filter_kind) (f : filter_obj) : filter_obj := mkFilter (f_base f) k.
Definition set_heapIndex (i : Z) (f : filter_obj) : filter_obj :=
  mkFilter (mkBase (fb_id (f_base f)) i (fb_expiresAt (f_base f)) (fb_ws (f_base f))) (f_kind f).
Definition set_expiresAt (t : Z) (f : filter_obj) : filter_obj :=
  mkFilter (mkBase (fb_id (f_base f)) (fb_heapIndex (f_base f)) t (fb_ws (f_base f))) (f_kind f).

(** [timeHeapImpl]: ordered by the time a filter expires. *)
Definition expires (objs : list filter_obj) (p : nat) : Z := from_option (λ f, fb_expiresAt (f_base f)) 0 (objs !! p).

#[export] Instance filter_store : ItemStore (list filter_obj) := {|
  item_less objs a b := expires objs a <? expires objs b;
  item_index p objs := (λ f, fb_heapIndex (f_base f)) <$> objs !! p;
  set_item_index p i objs := alter (set_heapIndex i) p objs;
|}.

(** ** Connections *)

Inductive message :=
| BlockMessage (id : bytes) (b : json_block)
| LogMessage (id : bytes) (l : json_Log).

(** [websocket.ErrCloseSent] and [net.ErrClosed], or another error. *)
Inductive ws_err := WsClosed | WsOther.

Record wsConn := mkConn {
  ws_filterID : bytes;
  ws_script : list (option ws_err);
  ws_sent : list message;
}.

Definition SetFilterID (id : bytes) (c : wsConn) : wsConn := mkConn id (ws_script c) (ws_sent c).
Definition WriteMessage (msg : message) (c : wsConn) : option ws_err * wsConn :=
  match ws_script c with
  | Some e :: script => (Some e, mkConn (ws_filterID c) script (ws_sent c))
  | None :: script => (None, mkConn (ws_filterID c) script (ws_sent c ++ [msg]))
  | [] => (None, mkConn (ws_filterID c) [] (ws_sent c ++ [msg]))
  end.

(** Messages are written until one fails. *)
Fixpoint write_messages (msgs : list message) (c : wsConn) : option ws_err * wsConn :=
  match msgs with
  | [] => (None, c)
  | msg :: msgs => match WriteMessage msg c with (None, c) => write_messages msgs c | (Some e, c) => (Some e, c) end
  end.

(** ** The manager *)

(** Where the loop of [Run] is, with its timer and the filter it is for. *)
Inductive run_phase := Top | Armed | Selecting.
Record run_loop := mkRun {
  run_phase_ : run_phase;
  run_filterID : bytes;
  run_timeoutCh : option Z;
}.

Record FilterManager := mkManager {
  fm_objs : list filter_obj;
  fm_filters : gmap bytes nat;
  fm_timeouts : list nat;
  fm_blockStream : blockStream;
  fm_conns : list wsConn;
  fm_timeout : Z;
  fm_blockRangeLimit : Z;
  fm_run : run_loop;
}.

Definition set_objs (objs : list filter_obj) (m : FilterManager) : FilterManager :=
  mkManager objs (fm_filters m) (fm_timeouts m) (fm_blockStream m) (fm_conns m) (fm_timeout m) (fm_blockRangeLimit m) (fm_run m).
Definition set_filters (fs : gmap bytes nat) (m : FilterManager) : FilterManager :=
  mkManager (fm_objs m) fs (fm_timeouts m) (fm_blockStream m) (fm_conns m) (fm_timeout m) (fm_blockRangeLimit m) (fm_run m).
Definition set_timeouts (q : list nat * list filter_obj) (m : FilterManager) : FilterManager :=
  mkManager q.2 (fm_filters m) q.1 (fm_blockStream m) (fm_conns m) (fm_timeout m) (fm_blockRangeLimit m) (fm_run m).
Definition set_blockStream (s : blockStream) (m : FilterManager) : FilterManager :=
  mkManager (fm_objs m) (fm_filters m) (fm_timeouts m) s (fm_conns m) (fm_timeout m) (fm_blockRangeLimit m) (fm_run m).
Definition set_conns (cs : list wsConn) (m : FilterManager) : FilterManager :=
  mkManager (fm_objs m) (fm_filters m) (fm_timeouts m) (fm_blockStream m) cs (fm_timeout m) (fm_blockRangeLimit m) (fm_run m).
Definition set_run (r : run_loop) (m : FilterManager) : FilterManager :=
  mkManager (fm_objs m) (fm_filters m) (fm_timeouts m) (fm_blockStream m) (fm_conns m) (fm_timeout m) (fm_blockRangeLimit m) r.
Definition set_phase (ph : run_phase) (m : FilterManager) : FilterManager :=
  set_run (mkRun ph (run_filterID (fm_run m)) (run_timeoutCh (fm_run m))) m.

(** The signal wakes the loop, or is lost. *)
Definition emitSignalToUpdateCh (m : FilterManager) : FilterManager :=
  match run_phase_ (fm_run m) with Selecting => set_phase Top m | _ => m end.

(** *** Timeouts *)

Definition timeouts_addFilter (p : nat) (m : FilterManager) : FilterManager :=
  set_timeouts (heap_Push p (fm_timeouts m, fm_objs m)) m.

Definition timeouts_removeFilter (p : nat) (m : FilterManager) : outcome (bool * FilterManager) :=
  match fm_objs m !! p with
  | None => Panic
  | Some f =>
      if fb_heapIndex (f_base f) =? NoIndexInHeap then Ret (false, m)
      else let~ (_, q) := heap_Remove (fb_heapIndex (f_base f)) (fm_timeouts m, fm_objs m) in Ret (true, set_timeouts q m)
  end.

Definition addFilterTimeout (now : Z) (p : nat) (m : FilterManager) : FilterManager :=
  let m := set_objs (alter (set_expiresAt (now + fm_timeout m)) p (fm_objs m)) m in
  emitSignalToUpdateCh (timeouts_addFilter p m).

Definition refreshFilterTimeout (now : Z) (p : nat) (m : FilterManager) : outcome FilterManager :=
  let~ (_, m) := timeouts_removeFilter p m in
  Ret (addFilterTimeout now p m).

Definition nextTimeoutFilter (m : FilterManager) : bytes * Z :=
  match fm_timeouts m with
  | [] => ([], 0)
  | p :: _ => match fm_objs m !! p with Some f => (fb_id (f_base f), fb_expiresAt (f_base f)) | None => ([], 0) end
  end.

(** *** Adding and removing *)

(** [addFilter] for a filter just allocated. *)
Definition addFilter (now : Z) (f : filter_obj) (m : FilterManager) : bytes * FilterManager :=
  let p := length (fm_objs m) in
  let m := set_objs (fm_objs m ++ [f]) m in
  let m := set_filters (<[fb_id (f_base f) := p]> (fm_filters m)) m in
  let m := if negb (hasWSConn f) then addFilterTimeout now p m else m in
  (fb_id (f_base f), m).

Definition set_filter_id (ws : option nat) (id : bytes) (m : FilterManager) : FilterManager :=
  match ws with Some c => set_conns (alter (SetFilterID id) c (fm_conns m)) m | None => m end.

Definition NewBlockFilter (now : Z) (uuid : bytes) (ws : option nat) (m : FilterManager) : bytes * FilterManager :=
  let f := mkFilter (newFilterBase uuid ws) (blockFilter (getHead (fm_blockStream m))) in
  addFilter now f (set_filter_id ws uuid m).

Definition NewLogFilter (now : Z) (uuid : bytes) (logQuery : option LogQuery) (ws : option nat) (m : FilterManager) : bytes * FilterManager :=
  let f := mkFilter (newFilterBase uuid ws) (logFilter logQuery []) in
  addFilter now f (set_filter_id ws uuid m).

Definition Exists (id : bytes) (m : FilterManager) : bool := match fm_filters m !! id with Some _ => true | None => false end.

Definition removeFilterByID (id : bytes) (m : FilterManager) : outcome (bool * FilterManager) :=
  match fm_filters m !! id with
  | None => Ret (false, m)
  | Some p =>
      let m := set_filters (base.delete id (fm_filters m)) m in
      let~ (removed, m) := timeouts_removeFilter p m in
      Ret (true, if removed : bool then emitSignalToUpdateCh m else m)
  end.

Definition Uninstall (id : bytes) (m : FilterManager) : outcome (bool * FilterManager) := removeFilterByID id m.

Definition RemoveFilterByWs (c : nat) (m : FilterManager) : outcome (bool * FilterManager) :=
  match fm_conns m !! c with None => Panic | Some ws => removeFilterByID (ws_filterID ws) m end.

Definition GetLogFilterFromID (filterID : bytes) (m : FilterManager) : result json_err (option LogQuery) :=
  match fm_filters m !! filterID ≫= λ p, fm_objs m !! p with
  | None => Err ErrFilterNotFound
  | Some f => match f_kind f with logFilter q _ => Ok q | blockFilter _ => Err ErrCastingFilterToLogFilter end
  end.

(** *** Updates *)

Inductive updates :=
| BlockUpdates (bs : list json_block)
| LogUpdates (ls : list json_Log).

(** What [GetFilterChanges] returns of them: a block is told by its hash. *)
Inductive changes :=
| HashChanges (hs : list bytes)
| LogChanges (ls : list json_Log).
Definition changes_of (u : updates) : changes :=
  match u with BlockUpdates bs => HashChanges (hash_String ∘ jb_Hash <$> bs) | LogUpdates ls => LogChanges ls end.

(** [takeBlockUpdates] and [takeLogUpdates]: the updates of a filter, which has
    none left. *)
Definition take_updates (p : nat) (m : FilterManager) : outcome (updates * FilterManager) :=
  match fm_objs m !! p with
  | None => Panic
  | Some f =>
      match f_kind f with
      | blockFilter block =>
          let~ (bs, newHead) := elem_getUpdates block (fm_blockStream m) in
          Ret (BlockUpdates bs, set_objs (<[p := set_kind (blockFilter newHead) f]> (fm_objs m)) m)
      | logFilter q logs => Ret (LogUpdates logs, set_objs (<[p := set_kind (logFilter q []) f]> (fm_objs m)) m)
      end
  end.

Definition getFilterAndChanges (id : bytes) (m : FilterManager) : outcome (result json_err (nat * updates) * FilterManager) :=
  match fm_filters m !! id with
  | None => Ret (Err ErrFilterNotFound, m)
  | Some p =>
      match fm_objs m !! p with
      | None => Panic
      | Some f =>
          if hasWSConn f then Ret (Err ErrWSFilterDoesNotSupportGetChanges, m)
          else let~ (u, m) := take_updates p m in Ret (Ok (p, u), m)
      end
  end.

(** [GetFilterChanges]: two critical sections, between which the lock is free. *)
Definition GetFilterChanges (now : Z) (id : bytes) (m : FilterManager) : outcome (result json_err changes * FilterManager) :=
  let~ (r, m) := getFilterAndChanges id m in
  match r with
  | Err e => Ret (Err e, m)
  | Ok (p, u) => let~ m := refreshFilterTimeout now p m in Ret (Ok (changes_of u), m)
  end.

(** [sendUpdates] of a filter with a connection. *)
Definition messages_of (id : bytes) (u : updates) : list message :=
  match u with BlockUpdates bs => BlockMessage id <$> bs | LogUpdates ls => LogMessage id <$> ls end.

Definition sendUpdates (p : nat) (m : FilterManager) : outcome (option ws_err * FilterManager) :=
  match fm_objs m !! p with
  | None => Panic
  | Some f =>
      match fb_ws (f_base f) with
      | None => Panic
      | Some c =>
          let~ (u, m) := take_updates p m in
          match fm_conns m !! c with
          | None => Panic
          | Some ws =>
              let '(err, ws) := write_messages (messages_of (fb_id (f_base f)) u) ws in
              Ret (err, set_conns (<[c := ws]> (fm_conns m)) m)
          end
      end
  end.

(** The loop of [flushWsFilters], in the order in which the map is visited. *)
Fixpoint flush_loop (ids : list bytes) (m : FilterManager) : outcome (list bytes * FilterManager) :=
  match ids with
  | [] => Ret ([], m)
  | id :: ids =>
      match fm_filters m !! id ≫= λ p, (p,.) <$> fm_objs m !! p with
      | None => Panic
      | Some (p, f) =>
          if hasWSConn f then
            let~ (err, m) := sendUpdates p m in
            let~ (closed, m) := flush_loop ids m in
            Ret (match err with Some WsClosed => id :: closed | _ => closed end, m)
          else flush_loop ids m
      end
  end.

Fixpoint remove_all (ids : list bytes) (m : FilterManager) : outcome FilterManager :=
  match ids with
  | [] => Ret m
  | id :: ids => let~ (_, m) := removeFilterByID id m in remove_all ids m
  end.

Definition flushWsFilters (ids : list bytes) (m : FilterManager) : outcome FilterManager :=
  let~ (closedFilterIDs, m) := flush_loop ids m in
  remove_all closedFilterIDs m.

(** *** Events and queries *)

Section chain.
Context `{External} `{RlpReader} `{LRU} `{ChainDeps}.
Variable HeaderHash : Header → Hash.

Definition NewFilterManager (blockRangeLimit : Z) (b : Blockchain) : outcome (nat * FilterManager * Blockchain) :=
  match chain_Header b with
  | None => Panic
  | Some header =>
      let~ block := toBlock (mkBlock header [] []) false in
      let '(sub, b) := SubscribeEvents b in
      Ret (sub, mkManager [] ∅ [] (newBlockStream block) [] (60 * 10 ^ 9) blockRangeLimit (mkRun Top [] None), b)
  end.

(** [appendLog] on every filter whose query matches. *)
Definition append_log (log : Log) (jlog : json_Log) (f : filter_obj) : outcome filter_obj :=
  match f_kind f with
  | logFilter None _ => Panic
  | logFilter (Some q) logs => Ret (if Match q log then set_kind (logFilter (Some q) (logs ++ [jlog])) f else f)
  | blockFilter _ => Ret f
  end.
Fixpoint append_log_to (filters : list nat) (log : Log) (jlog : json_Log) (objs : list filter_obj) : outcome (list filter_obj) :=
  match filters with
  | [] => Ret objs
  | p :: filters =>
      match objs !! p with
      | None => Panic
      | Some f => let~ f := append_log log jlog f in append_log_to filters log jlog (<[p := f]> objs)
      end
  end.

Definition event_log (header : json_block) (txHash : Hash) (indx : nat) (log : Log) : json_Log :=
  mkJsonLog (log_Address log) (log_Topics log) (log_Data log) (jb_Number header) txHash (Z.of_nat indx) (jb_Hash header) 0 false.

(** The loops over the logs and over the receipts. *)
Fixpoint append_logs (header : json_block) (txHash : Hash) (filters : list nat) (indx : nat) (logs : list Log) (objs : list filter_obj) : outcome (list filter_obj) :=
  match logs with
  | [] => Ret objs
  | log :: logs =>
      let~ objs := append_log_to filters log (event_log header txHash indx log) objs in
      append_logs header txHash filters indx logs objs
  end.
Fixpoint append_receipts (header : json_block) (txs : list Transaction) (filters : list nat) (indx : nat) (receipts : list Receipt)
    (objs : list filter_obj) : outcome (list filter_obj) :=
  match receipts with
  | [] => Ret objs
  | receipt :: receipts =>
      let~ txHash :=
        if rc_TxHash receipt =? ZeroHash then match txs !! indx with Some t => Ret (tx_Hash t) | None => Panic end
        else Ret (rc_TxHash receipt) in
      let~ objs := append_logs header txHash filters indx (rc_Logs receipt) objs in
      append_receipts header txs filters (S indx) receipts objs
  end.

Definition is_logFilter (objs : list filter_obj) (p : nat) : bool :=
  match objs !! p with Some f => match f_kind f with logFilter _ _ => true | blockFilter _ => false end | None => false end.

(** The order of the filters in the map does not matter: each has its own logs. *)
Definition appendLogsToFilters (header : json_block) (m : FilterManager) (b : Blockchain)
    : outcome (result json_err () * FilterManager * Blockchain) :=
  match db_receipts (bc_db b) !! jb_Hash header with
  | None => Ret (Err ErrReceipts, m, b)
  | Some receipts =>
      let logFilters := filter (λ p, is_logFilter (fm_objs m) p = true) (map_to_list (fm_filters m)).*2 in
      if bool_decide (logFilters = []) then Ret (Ok (), m, b)
      else
        let~ (block, ok, b) := GetBlockByHash HeaderHash (jb_Hash header) true b in
        match block, ok with
        | Some block, true =>
            let~ objs := append_receipts header (bk_Transactions block) logFilters 0 receipts (fm_objs m) in
            Ret (Ok (), set_objs objs m, b)
        | _, _ => Ret (Ok (), m, b)
        end
  end.

Fixpoint process_headers (headers : list Header) (m : FilterManager) (b : Blockchain) : outcome (FilterManager * Blockchain) :=
  match headers with
  | [] => Ret (m, b)
  | header :: headers =>
      let~ block := toBlock (mkBlock header [] []) false in
      let m := set_blockStream (stream_push block (fm_blockStream m)) m in
      let~ (_, m, b) := appendLogsToFilters block m b in
      process_headers headers m b
  end.

Definition processEvent (evnt : Event) (m : FilterManager) (b : Blockchain) : outcome (FilterManager * Blockchain) :=
  process_headers (ev_NewChain evnt) m b.

Definition dispatchEvent (evnt : Event) (order : FilterManager → list bytes) (m : FilterManager) (b : Blockchain)
    : outcome (FilterManager * Blockchain) :=
  let~ (m, b) := processEvent evnt m b in
  let~ m := flushWsFilters (order m) m in
  Ret (m, b).

(** [getLogsFromBlock]. *)
Fixpoint block_logs (query : LogQuery) (header : Header) (txs : list Transaction) (idx logIdx : nat) (logs : list Log) : outcome (list json_Log) :=
  match logs with
  | [] => Ret []
  | log :: logs =>
      let~ l :=
        if Match query log then
          match txs !! idx with
          | None => Panic
          | Some t => Ret [mkJsonLog (log_Address log) (log_Topics log) (log_Data log) (hd_Number header) (tx_Hash t) (Z.of_nat idx)
                             (hd_Hash header) (Z.of_nat logIdx) false]
          end
        else Ret [] in
      let~ ls := block_logs query header txs idx (S logIdx) logs in
      Ret (l ++ ls)
  end.

Fixpoint receipts_logs (query : LogQuery) (header : Header) (txs : list Transaction) (idx : nat) (receipts : list Receipt) : outcome (list json_Log) :=
  match receipts with
  | [] => Ret []
  | receipt :: receipts =>
      let~ l := block_logs query header txs idx 0 (rc_Logs receipt) in
      let~ ls := receipts_logs query header txs (S idx) receipts in
      Ret (l ++ ls)
  end.

Definition getLogsFromBlock (query : LogQuery) (block : Block) (b : Blockchain) : outcome (result json_err (list json_Log)) :=
  match db_receipts (bc_db b) !! hd_Hash (bk_Header block) with
  | None => Ret (Err ErrReceipts)
  | Some receipts => let~ logs := receipts_logs query (bk_Header block) (bk_Transactions block) 0 receipts in Ret (Ok logs)
  end.

(** The loop of [getLogsFromBlocks], which ends at the latest above the head. *)
Fixpoint range_logs (fuel : nat) (query : LogQuery) (i to : Z) (b : Blockchain) : outcome (result json_err (list json_Log) * Blockchain) :=
  match fuel with
  | O => NoFuel
  | S fuel =>
      if i <=? to then
        let~ (block, ok, b) := GetBlockByNumber HeaderHash i true b in
        match block, ok with
        | Some block, true =>
            let~ r := if bool_decide (bk_Transactions block = []) then Ret (Ok []) else getLogsFromBlock query block b in
            match r with
            | Err e => Ret (Err e, b)
            | Ok blockLogs =>
                let~ (r, b) := range_logs fuel query (add64 i 1) to b in
                Ret (let? logs := r in Ok (blockLogs ++ logs), b)
            end
        | _, _ => Ret (Ok [], b)
        end
      else Ret (Ok [], b)
  end.

Definition getLogsFromBlocks (query : LogQuery) (m : FilterManager) (b : Blockchain) : outcome (result json_err (list json_Log) * Blockchain) :=
  match GetNumericBlockNumber (lq_fromBlock query) (chain_Header b), GetNumericBlockNumber (lq_toBlock query) (chain_Header b) with
  | Err e, _ => Ret (Err e, b)
  | Ok _, Err e => Ret (Err e, b)
  | Ok from, Ok to =>
      if to <? from then Ret (Err ErrIncorrectBlockRange, b)
      else
        let from := if from =? 0 then 1 else from in
        if negb (fm_blockRangeLimit m =? 0) && (sub64 to from >? fm_blockRangeLimit m) then Ret (Err ErrBlockRangeTooHigh, b)
        else
          let fuel := match chain_Header b with Some header => S (S (Z.to_nat (hd_Number header))) | None => 1%nat end in
          range_logs fuel query from to b
  end.

Definition GetLogsForQuery (query : LogQuery) (m : FilterManager) (b : Blockchain) : outcome (result json_err (list json_Log) * Blockchain) :=
  match lq_BlockHash query with
  | Some hash =>
      let~ (block, ok, b) := GetBlockByHash HeaderHash hash true b in
      match block, ok with
      | Some block, true =>
          if bool_decide (bk_Transactions block = []) then Ret (Ok [], b)
          else let~ r := getLogsFromBlock query block b in Ret (r, b)
      | _, _ => Ret (Err ErrBlockNotFound, b)
      end
  | None => getLogsFromBlocks query m b
  end.

(** *** The loop of [Run] *)

(** Before the select: the filter that expires first, and a timer for it. *)
Definition run_top (m : FilterManager) : FilterManager :=
  let '(filterID, filterExpiresAt) := nextTimeoutFilter m in
  set_run (mkRun Armed filterID (if bool_decide (filterID ≠ []) then Some filterExpiresAt else run_timeoutCh (fm_run m))) m.

(** The timer: it fires once. *)
Definition run_timeout (m : FilterManager) : outcome FilterManager :=
  let~ (_, m) := Uninstall (run_filterID (fm_run m)) (set_run (mkRun Top (run_filterID (fm_run m)) None) m) in
  Ret m.

Definition run_event (evnt : Event) (order : FilterManager → list bytes) (m : FilterManager) (b : Blockchain)
    : outcome (FilterManager * Blockchain) :=
  dispatchEvent evnt order (set_phase Top m) b.
End chain.

(** ** Requests ([dispatcher.go], with the responses of [codec.go])

    A request arrives decoded: its parameters are the values of a JSON array,
    unless they are no array.  The endpoints are found by reflection; a service is
    a map from names to functions of the parameters, which decode them. *)

Inductive json_id :=
| IdString (s : bytes)
| IdInt (n : Z)
| IdFraction
| IdNull
| IdOther.

Inductive param :=
| PString (s : bytes)
| PQuery (q : query_json)
| PNull
| POther.

Record Request := mkRequest {
  rq_ID : json_id;
  rq_Method : bytes;
  rq_Params : option (list param);
}.

Inductive rpc_error :=
| MethodNotFound (method : bytes)
| InvalidRequest (what : option json_err)
| InvalidParams
| InternalError (what : option json_err)
| SubscriptionNotFound (method : bytes).

Inductive Response (A : Type) :=
| SuccessResponse (id : json_id) (reply : A)
| ErrorResponse (id : json_id) (e : rpc_error).
Arguments SuccessResponse {A} id reply.
Arguments ErrorResponse {A} id e.

Definition GetID {A} (r : Response A) : json_id := match r with SuccessResponse id _ => id | ErrorResponse id _ => id end.

Definition NewRPCResponse {A} (id : json_id) (r : result rpc_error A) : Response A :=
  match r with Ok reply => SuccessResponse id reply | Err e => ErrorResponse id e end.

(** [strings.SplitN(s, "_", 2)], with what follows the separator if there is one. *)
Fixpoint split_underscore (s : bytes) : bytes * option bytes :=
  match s with
  | [] => ([], None)
  | c :: s => if c =? 95 then ([], Some s) else let '(a, b) := split_underscore s in (c :: a, b)
  end.

Section dispatcher.
(** The rest of the node, and what endpoints answer. *)
Context {R A : Type}.
Definition dispatch_state : Type := FilterManager * R.
Definition endpoint : Type := option (list param) → dispatch_state → outcome (result rpc_error A * dispatch_state).
Variable serviceMap : gmap bytes (gmap bytes endpoint).
Variable jsonRPCBatchLengthLimit : Z.

Definition getFnHandler (req : Request) : result rpc_error endpoint :=
  match split_underscore (rq_Method req) with
  | (_, None) => Err (MethodNotFound (rq_Method req))
  | (serviceName, Some funcName) =>
      match serviceMap !! serviceName ≫= λ service, service !! funcName with
      | None => Err (MethodNotFound (rq_Method req))
      | Some fd => Ok fd
      end
  end.

Definition handleReq (req : Request) (s : dispatch_state) : outcome (result rpc_error A * dispatch_state) :=
  match getFnHandler req with
  | Err e => Ret (Err e, s)
  | Ok fd => fd (rq_Params req) s
  end.

(** The body of a request: nothing, an object, or what else is read as an array;
    decoding may fail. *)
Inductive reqBody :=
| EmptyBody
| ObjectBody (req : option Request)
| ArrayBody (requests : option (list Request)).

Inductive answer :=
| One (r : Response A)
| Many (rs : list (Response A)).

Fixpoint handle_batch (requests : list Request) (s : dispatch_state) : outcome (list (Response A) * dispatch_state) :=
  match requests with
  | [] => Ret ([], s)
  | req :: requests =>
      let~ (r, s) := handleReq req s in
      let~ (responses, s) := handle_batch requests s in
      Ret (NewRPCResponse (rq_ID req) r :: responses, s)
  end.

Definition Handle (body : reqBody) (s : dispatch_state) : outcome (answer * dispatch_state) :=
  match body with
  | EmptyBody | ObjectBody None | ArrayBody None => Ret (One (ErrorResponse IdNull (InvalidRequest None)), s)
  | ObjectBody (Some req) =>
      if bool_decide (rq_Method req = []) then Ret (One (ErrorResponse (rq_ID req) (InvalidRequest None)), s)
      else let~ (r, s) := handleReq req s in Ret (One (NewRPCResponse (rq_ID req) r), s)
  | ArrayBody (Some requests) =>
      if negb (jsonRPCBatchLengthLimit =? 0) && (Z.of_nat (length requests) >? s64 jsonRPCBatchLengthLimit)
      then Ret (One (ErrorResponse IdNull (InvalidRequest None)), s)
      else let~ (responses, s) := handle_batch requests s in Ret (Many responses, s)
  end.

(** *** Subscriptions *)

(** A null decodes to a nil pointer without an error. *)
Definition decodeLogQueryFromInterface (i : param) : result json_err (option LogQuery) :=
  match i with
  | PNull => Ok None
  | PQuery obj => let? q := query_UnmarshalJSON obj in Ok (Some q)
  | PString _ | POther => Err ErrParse
  end.

Definition handleSubscribe (now : Z) (uuid : bytes) (conn : nat) (req : Request) (m : FilterManager) : outcome (result rpc_error bytes * FilterManager) :=
  match rq_Params req with
  | None => Ret (Err (InvalidRequest None), m)
  | Some [] => Ret (Err InvalidParams, m)
  | Some (PString subscribeMethod :: rest) =>
      if bool_decide (subscribeMethod = str "newHeads") then
        let '(filterID, m) := NewBlockFilter now uuid (Some conn) m in Ret (Ok filterID, m)
      else if bool_decide (subscribeMethod = str "logs") then
        match rest with
        | [] => Panic
        | p :: _ =>
            match decodeLogQueryFromInterface p with
            | Err e => Ret (Err (InternalError (Some e)), m)
            | Ok logQuery => let '(filterID, m) := NewLogFilter now uuid logQuery (Some conn) m in Ret (Ok filterID, m)
            end
        end
      else Ret (Err (SubscriptionNotFound subscribeMethod), m)
  | Some (_ :: _) => Ret (Err (SubscriptionNotFound []), m)
  end.

Definition handleUnsubscribe (req : Request) (m : FilterManager) : outcome (result rpc_error bool * FilterManager) :=
  match rq_Params req with
  | None => Ret (Err (InvalidRequest None), m)
  | Some [PString filterID] => let~ (ok, m) := Uninstall filterID m in Ret (Ok ok, m)
  | Some [_] => Ret (Err (SubscriptionNotFound []), m)
  | Some _ => Ret (Err InvalidParams, m)
  end.

(** The reply on a web socket: a response, the text of [formatFilterResponse] with
    the id, or an error of the connection. *)
Inductive ws_reply :=
| WsResponse (r : Response A)
| WsFilter (id : json_id) (text : bytes)
| WsError (e : rpc_error).

Definition formatFilterResponse (id : json_id) (resp : bytes) : result rpc_error ws_reply :=
  match id with
  | IdString _ | IdInt _ | IdNull => Ok (WsFilter id resp)
  | IdFraction | IdOther => Err (InvalidRequest None)
  end.

Definition ws_filter_reply (id : json_id) (resp : bytes) : ws_reply :=
  match formatFilterResponse id resp with Ok r => r | Err e => WsResponse (ErrorResponse id e) end.

Definition HandleWs (now : Z) (uuid : bytes) (conn : nat) (body : option Request) (s : dispatch_state) : outcome (ws_reply * dispatch_state) :=
  match body with
  | None => Ret (WsResponse (ErrorResponse IdNull (InvalidRequest None)), s)
  | Some req =>
      if bool_decide (rq_Method req = str "eth_subscribe") then
        let~ (r, m) := handleSubscribe now uuid conn req s.1 in
        Ret (match r with Err e => WsResponse (ErrorResponse (rq_ID req) e) | Ok filterID => ws_filter_reply (rq_ID req) filterID end, (m, s.2))
      else if bool_decide (rq_Method req = str "eth_unsubscribe") then
        let~ (r, m) := handleUnsubscribe req s.1 in
        Ret (match r with Err e => WsError e | Ok ok => ws_filter_reply (rq_ID req) (if ok : bool then str "true" else str "false") end, (m, s.2))
      else
        let~ (r, s) := handleReq req s in
        Ret (match r with Err e => WsError e | Ok reply => WsResponse (SuccessResponse (rq_ID req) reply) end, s)
  end.
End dispatcher.
