(* ===== verification/FiltersSpec.v ===== *)
(** What the filters of [jsonrpc/filter_manager.go] promise: the heap of timeouts
    and the objects it indexes stay in step under every interleaving, no handler
    panics, and a filter that is polled is told every block, and every log that
    matches, once and in order.  Then what queries for logs return, and the
    interleavings in which a filter is lost or never removed.  Last, batches of
    requests, and requests that panic. *)
From stdpp Require Import strings.
From S2P Require Import Prelude Types Runtime Crypto StateTxn Bloom Rlp RlpTypes ChainStorage Trie BuildRoot Blockchain BlockchainSpec Text GoHeap GoHeapIndex JsonTypes Filters.

(** ** The stream of blocks *)

(** The blocks of a stream, oldest first. *)
Record stream_ok (s : blockStream) (hs : list json_block) : Prop := {
  so_head : S (st_head s) = length hs;
  so_length : length (st_elems s) = length hs;
  so_elem i h : hs !! i = Some h → st_elems s !! i = Some (mkElem (Some h) (if decide (S i < length hs)%nat then Some (S i) else None));
}.

Lemma newBlockStream_ok h : stream_ok (newBlockStream h) [h].
Proof. split; [done|done|]. intros [|i] h'; cbn; [|done]. by intros [= <-]. Qed.

Lemma stream_push_ok s hs h : stream_ok s hs → stream_ok (stream_push h s) (hs ++ [h]).
Proof.
  intros [Hh Hl He]. split; cbn.
  - rewrite length_app. cbn. lia.
  - rewrite !length_app, length_alter. cbn. lia.
  - intros i x Hx. rewrite length_app. cbn [length]. destruct (decide (i < length hs)%nat) as [Hi|Hi].
    + rewrite lookup_app_l in Hx by done. apply He in Hx. rewrite lookup_app_l by (rewrite length_alter; lia).
      destruct (decide (i = st_head s)) as [->|Hne].
      * rewrite list_lookup_alter_eq, Hx. cbn. rewrite decide_True by lia. by rewrite Hl, Hh.
      * rewrite list_lookup_alter_ne, Hx by done. rewrite !decide_True by lia. done.
    + rewrite lookup_app_r in Hx by lia. apply list_lookup_singleton_Some in Hx as [? <-].
      rewrite lookup_app_r by (rewrite length_alter; lia). rewrite length_alter, decide_False by lia.
      replace (i - length (st_elems s))%nat with 0%nat by lia. done.
Qed.

Lemma updates_from_ok s hs fuel k : stream_ok s hs → (k < length hs)%nat → (length hs ≤ fuel + k)%nat →
  updates_from fuel k (st_elems s) = Ret (drop (S k) hs, st_head s).
Proof.
  intros [Hh Hl He]. revert k. induction fuel as [|fuel IH]; intros k Hk Hf; [lia|]. cbn [updates_from].
  destruct (lookup_lt_is_Some_2 hs k Hk) as [x Hx]. rewrite (He _ _ Hx). cbn [he_next]. case_decide as Hd.
  - destruct (lookup_lt_is_Some_2 hs (S k) Hd) as [y Hy]. rewrite (He _ _ Hy), IH by lia. cbn [obind he_header].
    by rewrite (drop_S hs y (S k)).
  - rewrite drop_ge by lia. repeat f_equal. lia.
Qed.

(** A reader gets what was pushed after its element, and is then at the head. *)
Lemma elem_getUpdates_ok s hs k : stream_ok s hs → (k < length hs)%nat → elem_getUpdates k s = Ret (drop (S k) hs, st_head s).
Proof. intros Hs Hk. apply updates_from_ok; [done|done|]. rewrite (so_length _ _ Hs). lia. Qed.

(** ** The store of filters *)

#[export] Instance filter_store_laws : ItemStoreLaws (list filter_obj).
Proof.
  split.
  - intros s. split; cbn; intros; lia.
  - intros p z s a b. cbn. assert (∀ a, expires (alter (set_heapIndex z) p s) a = expires s a) as E; [|by rewrite !E].
    intros c. unfold expires. destruct (decide (c = p)) as [->|]; [rewrite list_lookup_alter_eq; by destruct (s !! p)|by rewrite list_lookup_alter_ne].
  - intros p z q s. cbn. case_decide as Hq; [subst; rewrite list_lookup_alter_eq; by destruct (s !! p)|by rewrite list_lookup_alter_ne].
Qed.

(** What does not change when timeouts do. *)
Definition shape (f : filter_obj) : bytes * option nat * filter_kind := (fb_id (f_base f), fb_ws (f_base f), f_kind f).

Lemma reindexed_lookup objs objs' : reindexed objs objs' → ∀ p, set_heapIndex 0 <$> objs' !! p = set_heapIndex 0 <$> objs !! p.
Proof.
  induction 1 as [|s s1 s2 (q & z & ->) _ IH]; intros p; [done|]. rewrite IH. cbn.
  destruct (decide (p = q)) as [->|]; [rewrite list_lookup_alter_eq; by destruct (s !! q)|by rewrite list_lookup_alter_ne].
Qed.

Lemma shape_stripped (objs objs' : list filter_obj) p : set_heapIndex 0 <$> objs' !! p = set_heapIndex 0 <$> objs !! p → shape <$> objs' !! p = shape <$> objs !! p.
Proof. unfold set_heapIndex, shape. destruct (objs' !! p) as [[[] ?]|], (objs !! p) as [[[] ?]|]; cbn; intros [=]; subst; done. Qed.

Lemma reindexed_expires objs objs' p : reindexed objs objs' → expires objs' p = expires objs p.
Proof.
  intros Hr. unfold expires. pose proof (reindexed_lookup _ _ Hr p) as E.
  destruct (objs' !! p) as [[[] ?]|], (objs !! p) as [[[] ?]|]; cbn in E |- *; [by injection E|done..].
Qed.

(** ** The invariant *)

(** A block filter is in the stream, a log filter has a query. *)
Definition kind_ok (hs : list json_block) (k : filter_kind) : Prop :=
  match k with blockFilter k => (k < length hs)%nat | logFilter (Some _) _ => True | logFilter None _ => False end.

(** [X]: the filters whose timeout is being replaced. *)
Record fm_ok (X : nat → Prop) (m : FilterManager) (hs : list json_block) : Prop := {
  fo_stream : stream_ok (fm_blockStream m) hs;
  fo_placed : placed (fm_timeouts m, fm_objs m);
  fo_heap : heap (item_less (fm_objs m)) (fm_timeouts m);
  fo_index p f : fm_objs m !! p = Some f → p ∉ fm_timeouts m → fb_heapIndex (f_base f) = NoIndexInHeap;
  fo_filters id p : fm_filters m !! id = Some p → ∃ f, fm_objs m !! p = Some f ∧ fb_id (f_base f) = id;
  fo_timed id p f : fm_filters m !! id = Some p → fm_objs m !! p = Some f → fb_ws (f_base f) = None → ¬ X p → p ∈ fm_timeouts m;
  fo_polled p f : p ∈ fm_timeouts m → fm_objs m !! p = Some f → fb_ws (f_base f) = None;
  fo_kind p f : fm_objs m !! p = Some f → kind_ok hs (f_kind f);
  fo_conn p f c : fm_objs m !! p = Some f → fb_ws (f_base f) = Some c → (c < length (fm_conns m))%nat;
  fo_id p f : fm_objs m !! p = Some f → fb_id (f_base f) ≠ [];
}.

Lemma fo_block X m hs : fm_ok X m hs → ∀ p f k, fm_objs m !! p = Some f → f_kind f = blockFilter k → (k < length hs)%nat.
Proof. intros Hm p f k Hf Hk. pose proof (fo_kind _ _ _ Hm _ _ Hf) as Ho. by rewrite Hk in Ho. Qed.

Definition none : nat → Prop := λ _, False.

(** What a change of timeouts leaves. *)
Record undisturbed (m m' : FilterManager) : Prop := {
  ud_filters : fm_filters m' = fm_filters m;
  ud_stream : fm_blockStream m' = fm_blockStream m;
  ud_conns : fm_conns m' = fm_conns m;
  ud_timeout : fm_timeout m' = fm_timeout m;
  ud_shape p : shape <$> fm_objs m' !! p = shape <$> fm_objs m !! p;
}.

#[global] Instance undisturbed_preorder : PreOrder undisturbed.
Proof. split; [by split|]. intros m1 m2 m3 [] []. split; congruence. Qed.

Lemma ud_lookup m m' p f : undisturbed m m' → fm_objs m' !! p = Some f → ∃ g, fm_objs m !! p = Some g ∧ shape f = shape g.
Proof. intros Hu Hf. pose proof (ud_shape _ _ Hu p) as E. rewrite Hf in E. destruct (fm_objs m !! p) as [g|]; [|done]. exists g. split; [done|]. by apply (inj Some) in E. Qed.

(** Timeouts that are right again give the invariant again. *)
Lemma retimed_ok X Y m m' hs :
  fm_ok X m hs → undisturbed m m' → placed (fm_timeouts m', fm_objs m') → heap (item_less (fm_objs m')) (fm_timeouts m') →
  (∀ p f, fm_objs m' !! p = Some f → p ∉ fm_timeouts m' → fb_heapIndex (f_base f) = NoIndexInHeap) →
  (∀ id p f, fm_filters m !! id = Some p → fm_objs m !! p = Some f → fb_ws (f_base f) = None → ¬ Y p → p ∈ fm_timeouts m') →
  (∀ p f, p ∈ fm_timeouts m' → fm_objs m !! p = Some f → fb_ws (f_base f) = None) →
  fm_ok Y m' hs.
Proof.
  intros [] Hu Hp Hh Hi Ht Hw. pose proof (λ p f, ud_lookup m m' p f Hu) as Hlk. split; try done.
  - by rewrite (ud_stream _ _ Hu).
  - intros id p. rewrite (ud_filters _ _ Hu). intros (f & Hf & E)%fo_filters0. pose proof (ud_shape _ _ Hu p) as Es. rewrite Hf in Es.
    destruct (fm_objs m' !! p) as [g|]; [|done]. exists g. split; [done|]. by injection Es as -> _ _.
  - intros id p f. rewrite (ud_filters _ _ Hu). intros Hf (g & Hg & [= _ Ew _])%Hlk. rewrite Ew. eauto.
  - intros p f Hin (g & Hg & [= _ Ew _])%Hlk. rewrite Ew. eauto.
  - intros p f (g & Hg & [= _ _ Ek])%Hlk. rewrite Ek. eauto.
  - intros p f c (g & Hg & [= _ Ew _])%Hlk. rewrite Ew, (ud_conns _ _ Hu). eauto.
  - intros p f (g & Hg & [= Ei _ _])%Hlk. rewrite Ei. eauto.
Qed.

Lemma emit_undisturbed m : undisturbed m (emitSignalToUpdateCh m).
Proof. unfold emitSignalToUpdateCh. by destruct (run_phase_ (fm_run m)). Qed.
Lemma emit_timeouts m : fm_timeouts (emitSignalToUpdateCh m) = fm_timeouts m ∧ fm_objs (emitSignalToUpdateCh m) = fm_objs m.
Proof. unfold emitSignalToUpdateCh. by destruct (run_phase_ (fm_run m)). Qed.

Lemma run_ok X m hs r : fm_ok X m hs → fm_ok X (set_run r m) hs.
Proof. intros []. by split. Qed.
Lemma emit_ok X m hs : fm_ok X m hs → fm_ok X (emitSignalToUpdateCh m) hs.
Proof. unfold emitSignalToUpdateCh. destruct (run_phase_ (fm_run m)); [done..|]. apply run_ok. Qed.

Lemma set_timeouts_undisturbed q m : reindexed (fm_objs m) q.2 → undisturbed m (set_timeouts q m).
Proof. intros Hr. split; try done. intros p. cbn. by apply shape_stripped, reindexed_lookup. Qed.

(** Taking a filter out of the heap. *)
Lemma removeFilter_ok X m hs p f :
  fm_ok X m hs → fm_objs m !! p = Some f →
  ∃ r m', timeouts_removeFilter p m = Ret (r, m') ∧ undisturbed m m' ∧ p ∉ fm_timeouts m' ∧ fm_run m' = fm_run m ∧ r = bool_decide (p ∈ fm_timeouts m) ∧
    (∀ q, q ∈ fm_timeouts m' ↔ q ∈ fm_timeouts m ∧ q ≠ p) ∧ fm_ok (λ q, X q ∨ q = p) m' hs.
Proof.
  intros Hm Hf. pose proof (fo_placed _ _ _ Hm) as [Hn Hi]. cbn in Hn, Hi. unfold timeouts_removeFilter. rewrite Hf.
  destruct (decide (p ∈ fm_timeouts m)) as [Hin|Hin].
  - apply list_elem_of_lookup in Hin as Hk. destruct Hk as [k Hk]. pose proof (Hi _ _ Hk) as Ei. rewrite Hf in Ei. injection Ei as ->.
    unfold NoIndexInHeap at 1. rewrite (proj2 (Z.eqb_neq _ _)) by lia.
    destruct (heap_Remove_spec k p (fm_timeouts m, fm_objs m) (fo_placed _ _ _ Hm) (fo_heap _ _ _ Hm) Hk) as ([t s] & -> & Hp & Hh & Hpl & Hr & Hix & Hfr).
    cbn in *. assert (Hel : ∀ q, q ∈ t ↔ q ∈ fm_timeouts m ∧ q ≠ p).
    { intros q. rewrite Hp. pose proof Hn as Hn'. rewrite Hp in Hn'. apply NoDup_cons in Hn' as [Hpt _]. rewrite elem_of_cons. split; [|tauto].
      intros Hq. split; [by right|]. by intros ->. }
    assert (undisturbed m (set_timeouts (t, s) m)) as Hu by (by apply set_timeouts_undisturbed).
    eexists _, _. split; [done|]. split; [done|]. split; [rewrite Hel; tauto|]. split; [done|]. split; [by rewrite bool_decide_true|].
    split; [done|]. apply (retimed_ok X _ m); try done.
    + intros q g Hg Hq. cbn in Hg, Hq. rewrite Hel in Hq. destruct (decide (q = p)) as [->|Hne].
      * by rewrite Hg in Hix; injection Hix.
      * assert (q ∉ fm_timeouts m) as Hq' by tauto. specialize (Hfr _ Hq'). rewrite Hg in Hfr. cbn in Hfr.
        destruct (fm_objs m !! q) as [g'|] eqn:Eg; [|done]. injection Hfr as ->. by eapply fo_index.
    + intros id q g Hid Hg Hw Hne. cbn. rewrite Hel. split; [|tauto]. eapply fo_timed; [done..|tauto].
    + intros q g Hq. cbn in Hq. apply Hel in Hq as [Hq _]. by eapply fo_polled.
  - rewrite (fo_index _ _ _ Hm _ _ Hf Hin). cbn. eexists _, _. split; [done|]. split; [done|]. split; [done|]. split; [done|].
    split; [by rewrite bool_decide_false|]. split; [intros q; split; [intros Hq; split; [done|by intros ->]|tauto]|].
    destruct Hm. split; eauto.
Qed.

(** A new time for a filter outside the heap. *)
Lemma expires_alter objs p q t : q ≠ p → expires (alter (set_expiresAt t) p objs) q = expires objs q.
Proof. intros. unfold expires. by rewrite list_lookup_alter_ne. Qed.

Lemma expires_ok X m hs p t : fm_ok X m hs → p ∉ fm_timeouts m →
  let m' := set_objs (alter (set_expiresAt t) p (fm_objs m)) m in fm_ok X m' hs ∧ undisturbed m m'.
Proof.
  intros Hm Hp m'. assert (undisturbed m m') as Hu.
  { split; try done. intros q. cbn. destruct (decide (q = p)) as [->|]; [rewrite list_lookup_alter_eq; by destruct (fm_objs m !! p)|by rewrite list_lookup_alter_ne]. }
  assert (Hix : ∀ q, (λ f, fb_heapIndex (f_base f)) <$> fm_objs m' !! q = (λ f, fb_heapIndex (f_base f)) <$> fm_objs m !! q).
  { intros q. cbn. destruct (decide (q = p)) as [->|]; [rewrite list_lookup_alter_eq; by destruct (fm_objs m !! p)|by rewrite list_lookup_alter_ne]. }
  split; [|done]. apply (retimed_ok X X m m' hs); try done.
  - destruct (fo_placed _ _ _ Hm) as [Hn Hi]. split; [done|]. intros i q Hq. cbn [item_index filter_store]. etrans; [apply Hix|]. by apply Hi.
  - intros c Hc. pose proof (fo_heap _ _ _ Hm c Hc) as E. revert E. unfold lessAt. cbn [fm_timeouts m' set_objs].
    destruct (fm_timeouts m !! c) as [a|] eqn:Ea; [|done]. destruct (fm_timeouts m !! parent c) as [b|] eqn:Eb; [|done]. cbn.
    rewrite !expires_alter; [done|intros ->; by eapply Hp, list_elem_of_lookup_2..].
  - intros q f Hf Hq. specialize (Hix q). rewrite Hf in Hix. destruct (fm_objs m !! q) as [g|] eqn:Eg; [|done]. injection Hix as ->. by eapply fo_index.
  - intros id q f Hid Hf Hw Hne. by eapply (fo_timed _ _ _ Hm).
  - intros q f Hq. by eapply (fo_polled _ _ _ Hm).
Qed.

Lemma addFilterTimeout_ok X m hs p f now :
  fm_ok (λ q, X q ∨ q = p) m hs → fm_objs m !! p = Some f → fb_ws (f_base f) = None → p ∉ fm_timeouts m →
  let m' := addFilterTimeout now p m in
  fm_ok X m' hs ∧ undisturbed m m' ∧ fm_timeouts m' ≡ₚ p :: fm_timeouts m ∧ expires (fm_objs m') p = now + fm_timeout m ∧
  ∀ q, q ≠ p → expires (fm_objs m') q = expires (fm_objs m) q.
Proof.
  intros Hm Hf Hw Hp m'. unfold m', addFilterTimeout, timeouts_addFilter.
  destruct (expires_ok _ m hs p (now + fm_timeout m) Hm Hp) as [Hm1 Hu1]. set (m1 := set_objs _ m) in *.
  assert (fm_objs m1 !! p = Some (set_expiresAt (now + fm_timeout m) f)) as Hf1 by (cbn; by rewrite list_lookup_alter_eq, Hf).
  destruct (heap_Push_spec p (fb_heapIndex (f_base f)) (fm_timeouts m1, fm_objs m1) (fo_placed _ _ _ Hm1) (fo_heap _ _ _ Hm1) Hp) as (Hperm & Hh & Hpl & Hr & Hfr).
  { cbn [item_index filter_store snd]. by rewrite Hf1. }
  set (q := heap_Push p (fm_timeouts m1, fm_objs m1)) in *. clearbody q. cbn [fst snd] in *.
  assert (undisturbed m1 (set_timeouts q m1)) as Hu2 by (by apply set_timeouts_undisturbed).
  assert (fm_ok X (set_timeouts q m1) hs) as Hm2.
  { apply (retimed_ok _ X m1 _ hs Hm1 Hu2); [by destruct q|done|..].
    - intros r g Hg Hr'. cbn in Hg, Hr'. specialize (Hfr r). rewrite Hperm in Hr'. specialize (Hfr Hr'). cbn in Hfr. rewrite Hg in Hfr. cbn in Hfr.
      destruct (alter _ p (fm_objs m) !! r) as [g'|] eqn:Eg; [|done]. cbn in Hfr. injection Hfr as ->. eapply (fo_index _ _ _ Hm1); [exact Eg|]. cbn. set_solver.
    - intros id r g Hid Hg Hwr Hne. cbn. rewrite Hperm. apply elem_of_cons. destruct (decide (r = p)) as [|Hrp]; [by left|right].
      eapply (fo_timed _ _ _ Hm1); [done..|]. tauto.
    - intros r g Hr'. cbn in Hr'. rewrite Hperm in Hr'. apply elem_of_cons in Hr' as [->|Hr']; [|by eapply (fo_polled _ _ _ Hm1)].
      rewrite Hf1. by intros [= <-]. }
  assert (Hex : ∀ r, expires q.2 r = expires (fm_objs m1) r).
  { intros r. by apply reindexed_expires. }
  split_and!.
  - by apply emit_ok.
  - etrans; [exact Hu1|]. etrans; [exact Hu2|]. apply emit_undisturbed.
  - rewrite (proj1 (emit_timeouts _)). exact Hperm.
  - rewrite (proj2 (emit_timeouts _)). cbn. rewrite Hex. unfold expires. by rewrite Hf1.
  - intros r Hr'. rewrite (proj2 (emit_timeouts _)). cbn. rewrite Hex. by apply expires_alter.
Qed.

Lemma refreshFilterTimeout_ok m hs p f now :
  fm_ok none m hs → fm_objs m !! p = Some f → fb_ws (f_base f) = None →
  ∃ m', refreshFilterTimeout now p m = Ret m' ∧ fm_ok none m' hs ∧ undisturbed m m' ∧ p ∈ fm_timeouts m' ∧ expires (fm_objs m') p = now + fm_timeout m.
Proof.
  intros Hm Hf Hw. destruct (removeFilter_ok none m hs p f Hm Hf) as (r & m1 & E & Hu & Hp & _ & _ & _ & Hm1).
  unfold refreshFilterTimeout. rewrite E. cbn [obind].
  pose proof (ud_shape _ _ Hu p) as Es. rewrite Hf in Es. destruct (fm_objs m1 !! p) as [f1|] eqn:Hf1; [|done]. injection Es as _ Ew _. 
  destruct (addFilterTimeout_ok none m1 hs p f1 now Hm1 Hf1 (eq_trans Ew Hw) Hp) as (Hm2 & Hu2 & Hperm & Hex & _).
  eexists. split; [done|]. split; [done|]. split; [by etrans|]. split; [rewrite Hperm; apply list_elem_of_here|]. by rewrite Hex, (ud_timeout _ _ Hu).
Qed.

(** Uninstalling. *)
Lemma filters_delete_ok X m hs id : fm_ok X m hs → fm_ok X (set_filters (base.delete id (fm_filters m)) m) hs.
Proof.
  intros []. split; try done; cbn.
  - intros id' p [_ Hid]%lookup_delete_Some. by apply fo_filters0.
  - intros id' p f [_ Hid]%lookup_delete_Some. by eapply fo_timed0.
Qed.

Lemma removeFilterByID_ok m hs id :
  fm_ok none m hs → ∃ m', removeFilterByID id m = Ret (Exists id m, m') ∧ fm_ok none m' hs ∧ fm_filters m' = base.delete id (fm_filters m) ∧
    fm_blockStream m' = fm_blockStream m ∧ fm_conns m' = fm_conns m ∧ ∀ p, shape <$> fm_objs m' !! p = shape <$> fm_objs m !! p.
Proof.
  intros Hm. unfold removeFilterByID, Exists. destruct (fm_filters m !! id) as [p|] eqn:Hid.
  - destruct (fo_filters _ _ _ Hm _ _ Hid) as (f & Hf & Hfid). set (m1 := set_filters _ m).
    destruct (removeFilter_ok none m1 hs p f (filters_delete_ok _ _ _ _ Hm) Hf) as (r & m2 & E & Hu & Hp & _ & _ & Hel & Hm2).
    rewrite E. cbn [obind]. eexists. split; [done|].
    assert (fm_ok none m2 hs) as Hm2'.
    { destruct Hm2. split; try done. intros id' q g Hid' Hg Hw _. eapply fo_timed0; [done..|]. intros [[]| ->].
      rewrite (ud_filters _ _ Hu) in Hid'. cbn in Hid'. apply lookup_delete_Some in Hid' as [Hne Hid']. apply Hne.
      destruct (fo_filters _ _ _ Hm _ _ Hid') as (f' & Hf' & <-). congruence. }
    assert (∀ b : bool, let m3 := if b then emitSignalToUpdateCh m2 else m2 in undisturbed m1 m3 ∧ fm_ok none m3 hs) as Hb.
    { intros []; cbn; [split; [etrans; [exact Hu|apply emit_undisturbed]|by apply emit_ok]|done]. }
    destruct (Hb r) as [Hu3 Hm3]. split; [done|]. split; [by rewrite (ud_filters _ _ Hu3)|]. split; [by rewrite (ud_stream _ _ Hu3)|].
    split; [by rewrite (ud_conns _ _ Hu3)|]. intros q. by rewrite (ud_shape _ _ Hu3).
  - exists m. split; [done|]. split; [done|]. split; [by rewrite delete_id|done].
Qed.

(** ** New filters *)

Definition fresh (uuid : bytes) (m : FilterManager) : Prop := uuid ≠ [] ∧ ∀ p f, fm_objs m !! p = Some f → fb_id (f_base f) ≠ uuid.

(** An object just allocated, installed but not in the heap. *)
Lemma allocated_ok m hs f :
  fm_ok none m hs → fresh (fb_id (f_base f)) m → fb_heapIndex (f_base f) = NoIndexInHeap →
  (∀ c, fb_ws (f_base f) = Some c → (c < length (fm_conns m))%nat) → kind_ok hs (f_kind f) →
  fm_ok (λ q, none q ∨ q = length (fm_objs m)) (set_filters (<[fb_id (f_base f) := length (fm_objs m)]> (fm_filters m)) (set_objs (fm_objs m ++ [f]) m)) hs.
Proof.
  intros Hm [Hne Hfr] Hi Hc Hk. set (n := length (fm_objs m)).
  assert (Hlk : ∀ p g, (fm_objs m ++ [f]) !! p = Some g → fm_objs m !! p = Some g ∨ p = n ∧ g = f).
  { intros p g [Hg|[Hn [E Hg]%list_lookup_singleton_Some]]%lookup_app_Some; [by left|right]. split; [unfold n; lia|done]. }
  assert (Hold : ∀ p, p ∈ fm_timeouts m → (p < n)%nat).
  { intros p [i Hp]%list_elem_of_lookup. destruct (fo_placed _ _ _ Hm) as [_ Hx]. apply Hx in Hp. cbn in Hp.
    destruct (fm_objs m !! p) eqn:E; [|done]. by eapply lookup_lt_Some. }
  destruct Hm. split; cbn; try done.
  - destruct fo_placed0 as [Hn Hx]. split; [done|]. intros i p Hp. specialize (Hx i p Hp). cbn in *.
    rewrite lookup_app_l; [done|]. by eapply Hold, list_elem_of_lookup_2.
  - intros c Hc'. specialize (fo_heap0 c Hc'). revert fo_heap0. unfold lessAt.
    destruct (fm_timeouts m !! c) as [a|] eqn:Ea; [|done]. destruct (fm_timeouts m !! parent c) as [b|] eqn:Eb; [|done]. cbn. unfold expires.
    rewrite !lookup_app_l; [done|by eapply Hold, list_elem_of_lookup_2..].
  - intros p g [Hg|[-> ->]]%Hlk Hp; [by eapply fo_index0|done].
  - intros id p. rewrite lookup_insert_Some. intros [[<- <-]|[Hid (g & Hg & E)%fo_filters0]].
    + exists f. split; [|done]. by rewrite lookup_app_r, Nat.sub_diag by lia.
    + exists g. split; [by apply lookup_app_l_Some|done].
  - intros id p g. rewrite lookup_insert_Some. intros [[<- <-]|[Hid Hp]] Hg Hw HX; [tauto|]. apply Hlk in Hg as [Hg|[-> ->]]; [eapply fo_timed0; [done..|]; tauto|tauto].
  - intros p g Hp [Hg|[-> ->]]%Hlk; [by eapply fo_polled0|]. apply Hold in Hp. lia.
  - intros p g [Hg|[-> ->]]%Hlk; eauto.
  - intros p g c [Hg|[-> ->]]%Hlk; eauto.
  - intros p g [Hg|[-> ->]]%Hlk; eauto.
Qed.

Lemma addFilter_ok m hs f now :
  fm_ok none m hs → fresh (fb_id (f_base f)) m → fb_heapIndex (f_base f) = NoIndexInHeap →
  (∀ c, fb_ws (f_base f) = Some c → (c < length (fm_conns m))%nat) → kind_ok hs (f_kind f) →
  let m' := (addFilter now f m).2 in
  fm_ok none m' hs ∧ fm_filters m' = <[fb_id (f_base f) := length (fm_objs m)]> (fm_filters m) ∧ fm_blockStream m' = fm_blockStream m ∧
  ∀ p, shape <$> fm_objs m' !! p = shape <$> (fm_objs m ++ [f]) !! p.
Proof.
  intros Hm Hfr Hi Hc Hk m'. pose proof (allocated_ok m hs f Hm Hfr Hi Hc Hk) as Ha. unfold m', addFilter, hasWSConn. cbn [snd].
  set (m1 := set_filters _ _) in *. assert (fm_objs m1 !! length (fm_objs m) = Some f) as Hf by (cbn; by rewrite lookup_app_r, Nat.sub_diag by lia).
  destruct (fb_ws (f_base f)) as [c|] eqn:Hw; cbn [negb].
  - split; [|done]. destruct Ha. split; try done. intros id p g Hid Hg Hwg _. eapply fo_timed0; [done..|]. intros [[]| ->]. congruence.
  - assert (length (fm_objs m) ∉ fm_timeouts m1) as Hnot.
    { intros [i Hp]%list_elem_of_lookup. destruct (fo_placed _ _ _ Hm) as [_ Hx]. apply Hx in Hp. cbn in Hp. by rewrite lookup_ge_None_2 in Hp by lia. }
    destruct (addFilterTimeout_ok none m1 hs _ f now Ha Hf Hw Hnot) as (Hm2 & Hu & _). split; [done|].
    split; [by rewrite (ud_filters _ _ Hu)|]. split; [by rewrite (ud_stream _ _ Hu)|]. intros p. by rewrite (ud_shape _ _ Hu).
Qed.

(** A connection is told the id of its filter. *)
Lemma set_filter_id_ok X m hs ws id : fm_ok X m hs → fm_ok X (set_filter_id ws id m) hs.
Proof.
  destruct ws as [c|]; [|done]. intros []. split; try done. cbn. intros p f k. rewrite length_alter. eauto.
Qed.

Lemma set_filter_id_same ws id m : fm_objs (set_filter_id ws id m) = fm_objs m ∧ fm_filters (set_filter_id ws id m) = fm_filters m ∧
  fm_blockStream (set_filter_id ws id m) = fm_blockStream m ∧ length (fm_conns (set_filter_id ws id m)) = length (fm_conns m).
Proof. destruct ws; cbn; by rewrite ?length_alter. Qed.

(** ** Updates *)

(** A change of what filters hold, not of when they expire. *)
Lemma kinds_ok X m hs objs' hs' s cs :
  fm_ok X m hs → (∀ p, f_base <$> objs' !! p = f_base <$> fm_objs m !! p) → stream_ok s hs' → length cs = length (fm_conns m) →
  (∀ p f, objs' !! p = Some f → kind_ok hs' (f_kind f)) →
  fm_ok X (set_conns cs (set_blockStream s (set_objs objs' m))) hs'.
Proof.
  intros [] Hb Hs Hcs Hk.
  assert (Hlk : ∀ p f, objs' !! p = Some f → ∃ g, fm_objs m !! p = Some g ∧ f_base f = f_base g).
  { intros p f Hf. specialize (Hb p). rewrite Hf in Hb. destruct (fm_objs m !! p) as [g|]; [|done]. exists g. split; [done|]. by apply (inj Some) in Hb. }
  assert (Hex : ∀ p, expires objs' p = expires (fm_objs m) p).
  { intros p. unfold expires. specialize (Hb p). destruct (objs' !! p), (fm_objs m !! p); cbn in *; congruence. }
  split; cbn; try done.
  - destruct fo_placed0 as [Hn Hx]. split; [done|]. intros i p Hp. specialize (Hx i p Hp). cbn in *. specialize (Hb p).
    destruct (objs' !! p), (fm_objs m !! p); cbn in *; congruence.
  - intros c Hc. specialize (fo_heap0 c Hc). revert fo_heap0. unfold lessAt. repeat case_match; cbn; by rewrite ?Hex.
  - intros p f (g & Hg & ->)%Hlk. eauto.
  - intros id p (f & Hf & E)%fo_filters0. specialize (Hb p). rewrite Hf in Hb. destruct (objs' !! p) as [g|]; [|done].
    exists g. split; [done|]. by injection Hb as ->.
  - intros id p f Hid (g & Hg & ->)%Hlk. eauto.
  - intros p f Hp (g & Hg & ->)%Hlk. eauto.
  - intros p f c (g & Hg & ->)%Hlk. rewrite Hcs. eauto.
  - intros p f (g & Hg & ->)%Hlk. eauto.
Qed.

Lemma base_insert (objs : list filter_obj) p f k q : objs !! p = Some f → f_base <$> <[p := set_kind k f]> objs !! q = f_base <$> objs !! q.
Proof.
  intros Hf. destruct (decide (q = p)) as [->|]; [|by rewrite list_lookup_insert_ne].
  rewrite list_lookup_insert_eq, Hf by (by eapply lookup_lt_Some). done.
Qed.

(** What a filter has not told yet. *)
Definition untold (hs : list json_block) (f : filter_obj) : updates :=
  match f_kind f with blockFilter k => BlockUpdates (drop (S k) hs) | logFilter _ logs => LogUpdates logs end.
Definition emptied (hs : list json_block) (f : filter_obj) : filter_obj :=
  match f_kind f with blockFilter _ => set_kind (blockFilter (pred (length hs))) f | logFilter q _ => set_kind (logFilter q []) f end.

Lemma take_updates_ok X m hs p f :
  fm_ok X m hs → fm_objs m !! p = Some f →
  let m' := set_objs (<[p := emptied hs f]> (fm_objs m)) m in
  take_updates p m = Ret (untold hs f, m') ∧ fm_ok X m' hs.
Proof.
  intros Hm Hf m'. pose proof (fo_stream _ _ _ Hm) as Hs.
  assert (take_updates p m = Ret (untold hs f, m')) as E.
  { unfold take_updates, m', untold, emptied. rewrite Hf. destruct (f_kind f) as [k|q logs] eqn:Ek; [|done].
    rewrite (elem_getUpdates_ok _ _ _ Hs) by (by eapply fo_block). cbn [obind]. do 5 f_equal. pose proof (so_head _ _ Hs). f_equal. lia. }
  split; [done|]. pose proof (kinds_ok X m hs (<[p := emptied hs f]> (fm_objs m)) hs (fm_blockStream m) (fm_conns m) Hm) as Hk. cbn in Hk.
  unfold m'. destruct m. apply Hk; [|done|done|].
  - intros q. unfold emptied. destruct (f_kind f); by apply base_insert.
  - intros q g. cbn. rewrite list_lookup_insert_Some. intros [(<- & <- & _)|[_ Hg]].
    + pose proof (fo_kind _ _ _ Hm _ _ Hf) as Ho. unfold emptied. destruct (f_kind f) as [k|[]]; cbn in *; [lia|done..].
    + by eapply (fo_kind _ _ _ Hm).
Qed.

Lemma emptied_base hs f : f_base (emptied hs f) = f_base f.
Proof. unfold emptied. by destruct (f_kind f). Qed.

Lemma getFilterAndChanges_ok m hs id p f :
  fm_ok none m hs → fm_filters m !! id = Some p → fm_objs m !! p = Some f → fb_ws (f_base f) = None →
  let m' := set_objs (<[p := emptied hs f]> (fm_objs m)) m in
  getFilterAndChanges id m = Ret (Ok (p, untold hs f), m') ∧ fm_ok none m' hs.
Proof.
  intros Hm Hid Hf Hw m'. destruct (take_updates_ok none m hs p f Hm Hf) as [E Hm']. split; [|done].
  unfold getFilterAndChanges, hasWSConn. rewrite Hid, Hf, Hw, E. done.
Qed.

(** *** Connections *)

(** Filters with a connection lose what they held; the others keep it. *)
Record flushed (m m' : FilterManager) : Prop := {
  fl_filters id p : fm_filters m' !! id = Some p → fm_filters m !! id = Some p;
  fl_kept id p f : fm_filters m !! id = Some p → fm_objs m !! p = Some f → fb_ws (f_base f) = None → fm_filters m' !! id = Some p;
  fl_stream : fm_blockStream m' = fm_blockStream m;
  fl_some p : is_Some (fm_objs m !! p) ↔ is_Some (fm_objs m' !! p);
  fl_shape p f : fm_objs m !! p = Some f → fb_ws (f_base f) = None → shape <$> fm_objs m' !! p = Some (shape f);
  fl_ws p f : fm_objs m' !! p = Some f → ∃ g, fm_objs m !! p = Some g ∧ fb_ws (f_base f) = fb_ws (f_base g) ∧ fb_id (f_base f) = fb_id (f_base g);
}.

#[global] Instance flushed_preorder : PreOrder flushed.
Proof.
  split.
  - intros m. split; try done; [intros p f ->; done|eauto].
  - intros m1 m2 m3 [A1 B1 C1 D1 E1 F1] [A2 B2 C2 D2 E2 F2].
    assert (Hnext : ∀ p f, fm_objs m1 !! p = Some f → fb_ws (f_base f) = None → ∃ g, fm_objs m2 !! p = Some g ∧ shape g = shape f).
    { intros p f Hf Hw. specialize (E1 p f Hf Hw). destruct (fm_objs m2 !! p) as [g|]; [|done]. exists g. split; [done|]. by apply (inj Some) in E1. }
    split.
    + eauto.
    + intros id p f Hid Hf Hw. destruct (Hnext p f Hf Hw) as (g & Hg & [= _ Ew _]). eapply B2; [eauto|done|congruence].
    + congruence.
    + intros p. by rewrite D1.
    + intros p f Hf Hw. destruct (Hnext p f Hf Hw) as (g & Hg & Es). rewrite <- Es. apply E2; [done|]. injection Es as _ -> _. done.
    + intros p f (g & Hg & ? & ?)%F2. apply F1 in Hg as (g' & ? & ? & ?). exists g'. split_and!; congruence.
Qed.

Lemma sendUpdates_ok m hs p f c :
  fm_ok none m hs → fm_objs m !! p = Some f → fb_ws (f_base f) = Some c →
  ∃ err m', sendUpdates p m = Ret (err, m') ∧ fm_ok none m' hs ∧ flushed m m' ∧ fm_filters m' = fm_filters m.
Proof.
  intros Hm Hf Hw. unfold sendUpdates. rewrite Hf, Hw. destruct (take_updates_ok none m hs p f Hm Hf) as [-> Hm1]. cbn [obind].
  destruct (lookup_lt_is_Some_2 (fm_conns m) c) as [ws Hws]; [by eapply fo_conn|]. cbn [fm_conns set_objs]. rewrite Hws.
  destruct (write_messages _ ws) as [err ws'] eqn:Ewm. eexists _, _. split; [done|]. split; [|split; [|done]].
  - pose proof (kinds_ok none _ hs (<[p := emptied hs f]> (fm_objs m)) hs (fm_blockStream m) (<[c := ws']> (fm_conns m)) Hm1) as Hk.
    apply Hk; [done|apply Hm1|cbn; by rewrite length_insert|intros; by eapply (fo_kind _ _ _ Hm1)].
  - split; cbn; try done.
    + intros q. rewrite !lookup_lt_is_Some. by rewrite length_insert.
    + intros q g Hg Hwg. rewrite list_lookup_insert_ne by (intros ->; congruence). by rewrite Hg.
    + intros q g. rewrite list_lookup_insert_Some. intros [(<- & <- & _)|[_ Hg]]; [exists f; by rewrite emptied_base|eauto].
Qed.

(** Filters that have a connection. *)
Definition connected (m : FilterManager) (id : bytes) : Prop :=
  ∀ p f, fm_filters m !! id = Some p → fm_objs m !! p = Some f → fb_ws (f_base f) ≠ None.

Lemma connected_flushed m m' id : flushed m m' → connected m id → connected m' id.
Proof. intros Hfl Hc p f Hid (g & Hg & -> & _)%(fl_ws _ _ Hfl). eapply Hc; [|done]. by apply Hfl. Qed.

Lemma flush_loop_ok ids m hs :
  fm_ok none m hs → Forall (λ id, is_Some (fm_filters m !! id)) ids →
  ∃ closed m', flush_loop ids m = Ret (closed, m') ∧ fm_ok none m' hs ∧ flushed m m' ∧ fm_filters m' = fm_filters m ∧ Forall (connected m') closed.
Proof.
  revert m. induction ids as [|id ids IH]; intros m Hm Hids; cbn [flush_loop]; [by exists [], m|].
  apply Forall_cons in Hids as [[p Hp] Hids]. destruct (fo_filters _ _ _ Hm _ _ Hp) as (f & Hf & Hid).
  rewrite Hp. cbn [mbind option_bind]. rewrite Hf. cbn [fmap option_fmap option_map].
  unfold hasWSConn. destruct (fb_ws (f_base f)) as [c|] eqn:Hw; [|by apply IH].
  destruct (sendUpdates_ok m hs p f c Hm Hf Hw) as (err & m1 & -> & Hm1 & Hfl & Hfs). cbn [obind].
  destruct (IH m1 Hm1) as (closed & m2 & -> & Hm2 & Hfl2 & Hfs2 & Hcl); [by rewrite Hfs|]. cbn [obind].
  assert (flushed m m2) as Hfl' by (by etrans).
  eexists _, m2. split; [done|]. split; [done|]. split; [done|]. split; [congruence|].
  assert (connected m2 id) as Hc. { eapply connected_flushed; [exact Hfl'|]. intros q g. rewrite Hp. intros [= <-]. rewrite Hf. intros [= <-]. congruence. }
  destruct err as [[]|]; [by apply Forall_cons|done..].
Qed.

Lemma remove_connected m hs id :
  fm_ok none m hs → connected m id → ∃ r m', removeFilterByID id m = Ret (r, m') ∧ fm_ok none m' hs ∧ flushed m m'.
Proof.
  intros Hm Hc. destruct (removeFilterByID_ok m hs id Hm) as (m' & E & Hm' & Hfs & Hst & _ & Hsh). eexists _, m'. split; [done|]. split; [done|].
  assert (Hlk : ∀ p f, fm_objs m' !! p = Some f → ∃ g, fm_objs m !! p = Some g ∧ shape f = shape g).
  { intros p f Hf. specialize (Hsh p). rewrite Hf in Hsh. destruct (fm_objs m !! p) as [g|]; [|done]. exists g. split; [done|]. by apply (inj Some) in Hsh. }
  split.
  - intros id' p. rewrite Hfs, lookup_delete_Some. tauto.
  - intros id' p f Hid' Hf Hw. rewrite Hfs. apply lookup_delete_Some. split; [|done]. intros ->. by eapply Hc.
  - done.
  - intros p. rewrite <- !(fmap_is_Some shape). by rewrite Hsh.
  - intros p f Hf _. by rewrite Hsh, Hf.
  - intros p f (g & Hg & [= E1 E2 _])%Hlk. by exists g.
Qed.

Lemma remove_all_ok ids m hs :
  fm_ok none m hs → Forall (connected m) ids → ∃ m', remove_all ids m = Ret m' ∧ fm_ok none m' hs ∧ flushed m m'.
Proof.
  revert m. induction ids as [|id ids IH]; intros m Hm Hids; cbn [remove_all]; [by exists m|].
  apply Forall_cons in Hids as [Hc Hids]. destruct (remove_connected m hs id Hm Hc) as (r & m1 & -> & Hm1 & Hfl). cbn [obind].
  destruct (IH m1 Hm1) as (m2 & E & Hm2 & Hfl2); [eapply Forall_impl; [exact Hids|]; intros; by eapply connected_flushed|].
  exists m2. split; [done|]. split; [done|]. by etrans.
Qed.

Lemma flushWsFilters_ok ids m hs :
  fm_ok none m hs → Forall (λ id, is_Some (fm_filters m !! id)) ids → ∃ m', flushWsFilters ids m = Ret m' ∧ fm_ok none m' hs ∧ flushed m m'.
Proof.
  intros Hm Hids. unfold flushWsFilters. destruct (flush_loop_ok ids m hs Hm Hids) as (closed & m1 & -> & Hm1 & Hfl & _ & Hcl). cbn [obind].
  destruct (remove_all_ok closed m1 hs Hm1 Hcl) as (m2 & -> & Hm2 & Hfl2). exists m2. split; [done|]. split; [done|]. by etrans.
Qed.

(** ** Events *)

Section events.
Context `{External} `{RlpReader} `{LRULaws} `{ChainDeps}.
Variable HeaderHash : Header → Hash.
Variable genesis_config : Genesis.
Notation implements := (implements HeaderHash genesis_config).
Notation silent := (silent HeaderHash).

(** The block that the stream tells of a header. *)
Definition head_block (h : Header) : json_block :=
  mkJsonBlock (hd_ParentHash h) (hd_Sha3Uncles h) (hd_Miner h) (hd_StateRoot h) (hd_TxRoot h) (hd_ReceiptsRoot h)
    (hd_LogsBloom h) (hd_Difficulty h) (hd_Difficulty h) (bk_Size (mkBlock h [] [])) (hd_Number h) (hd_GasLimit h) (hd_GasUsed h)
    (hd_Timestamp h) (hd_ExtraData h) (hd_MixHash h) (hd_Nonce h) (hd_Hash h) [] [].

Lemma toBlock_head h : toBlock (mkBlock h [] []) false = Ret (head_block h).
Proof. done. Qed.

(** The logs of a block that match a query, as a filter tells them. *)
Definition receipt_txHash (txs : list Transaction) (indx : nat) (r : Receipt) : Hash :=
  if rc_TxHash r =? ZeroHash then from_option tx_Hash 0 (txs !! indx) else rc_TxHash r.
Fixpoint event_logs (q : LogQuery) (h : Header) (txs : list Transaction) (indx : nat) (rs : list Receipt) : list json_Log :=
  match rs with
  | [] => []
  | r :: rs => (event_log (head_block h) (receipt_txHash txs indx r) indx <$> filter (λ log, Match q log = true) (rc_Logs r)) ++ event_logs q h txs (S indx) rs
  end.
Definition logs_of (l : list entry) (q : LogQuery) (h : Header) : list json_Log :=
  match by_hash (hd_Hash h) l with
  | Some (_, e) => match e_receipts e with Some rs => event_logs q h (e_txs e) 0 rs | None => [] end
  | None => []
  end.

(** The receipts of a block are as many as its transactions at most. *)
Definition receipts_fit (e : entry) : Prop := ∀ rs, e_receipts e = Some rs → (length rs ≤ length (e_txs e))%nat.

Definition add_logs (add : LogQuery → list json_Log) (f : filter_obj) : filter_obj :=
  match f_kind f with logFilter (Some q) logs => set_kind (logFilter (Some q) (logs ++ add q)) f | _ => f end.

Lemma add_logs_app add1 add2 f : add_logs add2 (add_logs add1 f) = add_logs (λ q, add1 q ++ add2 q) f.
Proof. unfold add_logs. destruct f as [b [k|[q|] logs]]; cbn; [done| |done]. unfold set_kind. cbn. by rewrite app_assoc. Qed.
Lemma add_logs_nil f : add_logs (λ _, []) f = f.
Proof. unfold add_logs. destruct f as [b [k|[q|] logs]]; cbn; [done| |done]. unfold set_kind. cbn. by rewrite app_nil_r. Qed.
Lemma add_logs_ext a1 a2 f : (∀ q, a1 q = a2 q) → add_logs a1 f = add_logs a2 f.
Proof. intros E. unfold add_logs. destruct (f_kind f) as [|[]]; [done| |done]. by rewrite E. Qed.
Lemma add_logs_base add f : f_base (add_logs add f) = f_base f.
Proof. unfold add_logs. by destruct (f_kind f) as [|[]]. Qed.

(** Filters that exist and have a query. *)
Definition asks_for (ps : list nat) (hs : list json_block) (objs : list filter_obj) : Prop :=
  ∀ p, p ∈ ps → ∃ f, objs !! p = Some f ∧ kind_ok hs (f_kind f).

(** What filters [ps] are given. *)
Definition given (ps : list nat) (add : LogQuery → list json_Log) (objs objs' : list filter_obj) : Prop :=
  ∀ p, objs' !! p = (if decide (p ∈ ps) then add_logs add else id) <$> objs !! p.

Lemma given_trans ps add1 add2 o1 o2 o3 : given ps add1 o1 o2 → given ps add2 o2 o3 → given ps (λ q, add1 q ++ add2 q) o1 o3.
Proof.
  intros H1' H2' p. rewrite H2', H1'. destruct (o1 !! p) as [f|]; [|done]. cbn. case_decide; [by rewrite add_logs_app|done].
Qed.
Lemma given_ext ps a1 a2 o1 o2 : (∀ q, a1 q = a2 q) → given ps a1 o1 o2 → given ps a2 o1 o2.
Proof.
  intros E Hg p. rewrite Hg. destruct (o1 !! p) as [f|]; [|done]. cbn. case_decide; [by rewrite (add_logs_ext _ _ _ E)|done].
Qed.
Lemma given_nothing ps objs : given ps (λ _, []) objs objs.
Proof. intros p. destruct (objs !! p) as [f|]; [|done]. cbn. case_decide; [by rewrite add_logs_nil|done]. Qed.

Lemma given_asks ps hs add o1 o2 : asks_for ps hs o1 → given ps add o1 o2 → asks_for ps hs o2.
Proof.
  intros Ha Hg p Hp. destruct (Ha p Hp) as (f & Hf & Hk). rewrite Hg, Hf, decide_True by done. eexists. split; [done|].
  revert Hk. unfold add_logs. destruct f as [b [k|[q|] logs]]; done.
Qed.

Lemma append_log_ok hs log jlog f : kind_ok hs (f_kind f) → append_log log jlog f = Ret (add_logs (λ q, if Match q log then [jlog] else []) f).
Proof.
  unfold append_log, add_logs. destruct f as [b [k|[q|] logs]]; cbn; [done| |done]. intros _.
  destruct (Match q log); [done|]. unfold set_kind. cbn. by rewrite app_nil_r.
Qed.

Lemma append_log_to_given ps hs log jlog objs : NoDup ps → asks_for ps hs objs →
  ∃ objs', append_log_to ps log jlog objs = Ret objs' ∧ given ps (λ q, if Match q log then [jlog] else []) objs objs'.
Proof.
  revert objs. induction ps as [|p ps IH]; intros objs Hn Ha; cbn [append_log_to].
  { exists objs. split; [done|]. intros q. by destruct (objs !! q). }
  apply NoDup_cons in Hn as [Hp Hn]. destruct (Ha p) as (f & Hf & Hk); [apply list_elem_of_here|].
  rewrite Hf, (append_log_ok _ _ _ _ Hk). cbn [obind]. pose proof (lookup_lt_Some _ _ _ Hf) as Hlt. set (f' := add_logs _ f).
  destruct (IH (<[p := f']> objs) Hn) as (objs' & E & Hg).
  { intros q Hq. rewrite list_lookup_insert_ne by (by intros ->). apply Ha. by right. }
  exists objs'. split; [done|]. intros q. rewrite Hg. destruct (decide (q = p)) as [->|Hne].
  - rewrite list_lookup_insert_eq by done. rewrite decide_False by done. rewrite Hf. by rewrite decide_True by apply list_elem_of_here.
  - rewrite list_lookup_insert_ne by done. destruct (objs !! q); [|done]. cbn. f_equal.
    destruct (decide (q ∈ ps)); [rewrite decide_True by (by right)|rewrite decide_False by (intros [?|?]%elem_of_cons; done)]; done.
Qed.

Lemma append_logs_given ps hs header txHash indx logs objs : NoDup ps → asks_for ps hs objs →
  ∃ objs', append_logs header txHash ps indx logs objs = Ret objs' ∧
    given ps (λ q, event_log header txHash indx <$> filter (λ log, Match q log = true) logs) objs objs'.
Proof.
  intros Hn. revert objs. induction logs as [|log logs IH]; intros objs Ha; cbn [append_logs]; [exists objs; split; [done|apply given_nothing]|].
  destruct (append_log_to_given ps hs log (event_log header txHash indx log) objs Hn Ha) as (o1 & -> & Hg). cbn [obind].
  destruct (IH o1 (given_asks _ _ _ _ _ Ha Hg)) as (o2 & -> & Hg2). exists o2. split; [done|].
  eapply given_ext; [|eapply given_trans; [exact Hg|exact Hg2]].
  intros q. cbn beta. rewrite filter_cons. destruct (Match q log) eqn:E; [rewrite decide_True by done|rewrite decide_False by done]; done.
Qed.

Lemma append_receipts_given ps hs h txs indx rs objs : NoDup ps → asks_for ps hs objs → (indx + length rs ≤ length txs)%nat →
  ∃ objs', append_receipts (head_block h) txs ps indx rs objs = Ret objs' ∧ given ps (λ q, event_logs q h txs indx rs) objs objs'.
Proof.
  intros Hn. revert indx objs. induction rs as [|r rs IH]; intros indx objs Ha Hl; cbn [append_receipts event_logs].
  { exists objs. split; [done|apply given_nothing]. }
  cbn [length] in Hl. assert ((if rc_TxHash r =? ZeroHash then match txs !! indx with Some t => Ret (tx_Hash t) | None => Panic end else Ret (rc_TxHash r)) = Ret (receipt_txHash txs indx r)) as ->.
  { unfold receipt_txHash. case_match; [|done]. destruct (lookup_lt_is_Some_2 txs indx) as [t ->]; [lia|]. done. }
  cbn [obind]. destruct (append_logs_given ps hs (head_block h) (receipt_txHash txs indx r) indx (rc_Logs r) objs Hn Ha) as (o1 & -> & Hg1). cbn [obind].
  destruct (IH (S indx) o1 (given_asks _ _ _ _ _ Ha Hg1)) as (objs' & E & Hg); [lia|].
  exists objs'. split; [done|]. by eapply given_trans.
Qed.

(** The filters installed. *)
Definition installed (m : FilterManager) : list nat := (map_to_list (fm_filters m)).*2.

Lemma elem_installed m p : p ∈ installed m ↔ ∃ id, fm_filters m !! id = Some p.
Proof.
  unfold installed. rewrite list_elem_of_fmap. split.
  - intros ([id q] & -> & Hin). exists id. by apply elem_of_map_to_list.
  - intros [id Hid]. exists (id, p). split; [done|]. by apply elem_of_map_to_list.
Qed.

Lemma NoDup_installed X m hs : fm_ok X m hs → NoDup (installed m).
Proof.
  intros Hm. unfold installed. apply NoDup_fmap_2_strong; [|apply NoDup_map_to_list].
  intros [i p] [j q] Hp%elem_of_map_to_list Hq%elem_of_map_to_list. cbn. intros ->.
  apply (fo_filters _ _ _ Hm) in Hp as (f & Hf & <-), Hq as (g & Hg & <-). congruence.
Qed.

Lemma appendLogs_ok m hs b l h :
  fm_ok none m hs → implements b l → Forall receipts_fit l →
  ∃ r m' b', appendLogsToFilters HeaderHash (head_block h) m b = Ret (r, m', b') ∧ implements b' l ∧
    m' = set_objs (fm_objs m') m ∧ given (installed m) (λ q, logs_of l q h) (fm_objs m) (fm_objs m').
Proof.
  intros Hm Hi Hfit. unfold appendLogsToFilters. cbn [jb_Hash head_block]. rewrite (da_receipts _ _ (im_db _ _ _ _ Hi)).
  assert (∀ r, logs_of l r h = match by_hash (hd_Hash h) l ≫= λ p, e_receipts p.2 with Some _ => logs_of l r h | None => [] end) as Hlo.
  { intros r. unfold logs_of. destruct (by_hash _ l) as [[i e]|]; [|done]. cbn. by destruct (e_receipts e). }
  destruct (by_hash (hd_Hash h) l ≫= λ p, e_receipts p.2) as [rs|] eqn:Er.
  2: { eexists _, m, b. split; [done|]. split; [done|]. split; [by destruct m|]. eapply given_ext; [|apply given_nothing]. intros q. by rewrite Hlo. }
  destruct (by_hash (hd_Hash h) l) as [[i e]|] eqn:Eb; [|done]. cbn in Er. apply by_hash_Some in Eb as He. destruct He as [He Hhash].
  set (ps := filter _ _). pose proof (NoDup_installed _ _ _ Hm) as Hnd.
  assert (∀ objs', given ps (λ q, logs_of l q h) (fm_objs m) objs' → given (installed m) (λ q, logs_of l q h) (fm_objs m) objs') as Hps.
  { intros objs' Hg p. rewrite Hg. destruct (fm_objs m !! p) as [f|] eqn:Hf; [|done]. cbn. f_equal. unfold ps. fold (installed m).
    case_decide as D1; rewrite list_elem_of_filter in D1; case_decide as D2; try tauto; [].
    unfold is_logFilter in D1. rewrite Hf in D1. unfold add_logs. destruct (f_kind f); [done|tauto]. }
  assert (asks_for ps hs (fm_objs m)) as Hask.
  { intros p [_ [id Hid]%elem_installed]%list_elem_of_filter. destruct (fo_filters _ _ _ Hm _ _ Hid) as (f & Hf & _). exists f. split; [done|]. by eapply fo_kind. }
  case_bool_decide as Eps.
  { eexists _, m, b. split; [done|]. split; [done|]. split; [by destruct m|]. apply Hps. rewrite Eps. intros p. by destruct (fm_objs m !! p). }
  destruct (GetBlockByHash_ok HeaderHash genesis_config b l i e true Hi He) as (b' & E & Hs). rewrite Hhash in E. rewrite E. cbn [obind].
  destruct (append_receipts_given ps hs h (bk_Transactions (e_block e)) 0 rs (fm_objs m)) as (objs' & E' & Hg).
  { by apply NoDup_filter. }
  { done. }
  { cbn. eapply Forall_lookup_1 in Hfit; [|exact He]. by apply Hfit. }
  rewrite E'. cbn [obind]. eexists _, _, b'. split; [done|]. split; [|split; [done|]].
  - eapply implements_same; [exact Hi|apply Hs|apply Hs].
  - apply Hps. eapply given_ext; [|exact Hg]. intros q. unfold logs_of. rewrite Eb, Er. done.
Qed.

Lemma given_base ps add o1 o2 : given ps add o1 o2 → ∀ p, f_base <$> o2 !! p = f_base <$> o1 !! p.
Proof. intros Hg p. rewrite Hg. destruct (o1 !! p); [|done]. cbn. case_decide; [by rewrite add_logs_base|done]. Qed.

(** One block more in the stream. *)
Lemma told_ok m hs x objs' ps add :
  fm_ok none m hs → given ps add (fm_objs m) objs' →
  fm_ok none (set_objs objs' (set_blockStream (stream_push x (fm_blockStream m)) m)) (hs ++ [x]).
Proof.
  intros Hm Hg. pose proof (kinds_ok none m hs objs' (hs ++ [x]) (stream_push x (fm_blockStream m)) (fm_conns m) Hm) as Hk.
  apply Hk; [by eapply given_base|by apply stream_push_ok, Hm|done|].
  intros p f Hf. rewrite Hg in Hf. destruct (fm_objs m !! p) as [g|] eqn:Eg; [|done]. cbn in Hf. injection Hf as <-.
  pose proof (fo_kind _ _ _ Hm _ _ Eg) as Hk'. assert (kind_ok (hs ++ [x]) (f_kind g)) as Hkg.
  { destruct (f_kind g); cbn in *; [rewrite length_app; cbn; lia|done]. }
  case_decide; [|done]. unfold add_logs. destruct g as [gb [|[]]]; done.
Qed.

Lemma process_headers_ok headers m hs b l :
  fm_ok none m hs → implements b l → Forall receipts_fit l →
  ∃ m' b', process_headers HeaderHash headers m b = Ret (m', b') ∧ implements b' l ∧ fm_ok none m' (hs ++ (head_block <$> headers)) ∧
    given (installed m) (λ q, concat (logs_of l q <$> headers)) (fm_objs m) (fm_objs m') ∧ fm_filters m' = fm_filters m.
Proof.
  revert m hs b. induction headers as [|h headers IH]; intros m hs b Hm Hi Hfit; cbn [process_headers].
  { exists m, b. split; [done|]. split; [done|]. cbn. rewrite app_nil_r. split; [done|]. split; [apply given_nothing|done]. }
  rewrite toBlock_head. cbn [obind]. set (m0 := set_blockStream _ m).
  assert (fm_ok none m0 (hs ++ [head_block h])) as Hm0.
  { pose proof (told_ok m hs (head_block h) (fm_objs m) [] (λ _, []) Hm (given_nothing _ _)) as Ht. unfold m0. by destruct m. }
  destruct (appendLogs_ok m0 _ b l h Hm0 Hi Hfit) as (r & m1 & b1 & -> & Hi1 & E1 & Hg). cbn [obind].
  change (fm_objs m0) with (fm_objs m) in Hg. change (installed m0) with (installed m) in Hg.
  assert (fm_ok none m1 (hs ++ [head_block h])) as Hm1 by (rewrite E1; by eapply told_ok).
  destruct (IH m1 _ b1 Hm1 Hi1 Hfit) as (m2 & b2 & -> & Hi2 & Hm2 & Hg2 & Hf2). exists m2, b2.
  assert (fm_filters m1 = fm_filters m) as Hf1 by (by rewrite E1).
  split; [done|]. split; [done|]. split; [by rewrite fmap_cons, cons_middle, app_assoc|].
  split; [|by rewrite Hf2]. cbn. eapply given_trans; [exact Hg|]. unfold installed in *. by rewrite Hf1 in Hg2.
Qed.

(** The filters are visited in some order. *)
Definition range (order : FilterManager → list bytes) : Prop := ∀ m, order m ≡ₚ (map_to_list (fm_filters m)).*1.

Lemma range_some order m : range order → Forall (λ id, is_Some (fm_filters m !! id)) (order m).
Proof.
  intros Hr. apply Forall_forall. intros id. rewrite (Hr m). intros ([i p] & -> & Hin%elem_of_map_to_list)%list_elem_of_fmap. by exists p.
Qed.

Definition add_events (l : list entry) (headers : list Header) (f : filter_obj) : filter_obj :=
  add_logs (λ q, concat (logs_of l q <$> headers)) f.

(** An event: the stream has its blocks, and an installed filter without a
    connection the logs that match. *)
Lemma run_event_ok ev order m hs b l :
  fm_ok none m hs → implements b l → Forall receipts_fit l → range order →
  ∃ m' b', run_event HeaderHash ev order m b = Ret (m', b') ∧ implements b' l ∧ fm_ok none m' (hs ++ (head_block <$> ev_NewChain ev)) ∧
    (∀ id p, fm_filters m' !! id = Some p → fm_filters m !! id = Some p) ∧
    (∀ p, is_Some (fm_objs m !! p) ↔ is_Some (fm_objs m' !! p)) ∧
    (∀ p f, fm_objs m !! p = Some f → fb_ws (f_base f) = None →
       shape <$> fm_objs m' !! p = Some (shape (if decide (p ∈ installed m) then add_events l (ev_NewChain ev) f else f))).
Proof.
  intros Hm Hi Hfit Hr. unfold run_event, dispatchEvent, processEvent.
  assert (fm_ok none (set_phase Top m) hs) as Hm0 by (by apply run_ok).
  destruct (process_headers_ok (ev_NewChain ev) (set_phase Top m) hs b l Hm0 Hi Hfit) as (m1 & b1 & -> & Hi1 & Hm1 & Hg & Hf). cbn [obind].
  destruct (flushWsFilters_ok (order m1) m1 _ Hm1 (range_some _ _ Hr)) as (m2 & -> & Hm2 & [F1 F2 F3 F4 F5 F6]). cbn [obind].
  change (fm_objs (set_phase Top m)) with (fm_objs m) in Hg. change (installed (set_phase Top m)) with (installed m) in Hg. cbn in Hf.
  exists m2, b1. split; [done|]. split; [done|]. split; [done|]. split_and!.
  - intros id p Hid%F1. by rewrite Hf in Hid.
  - intros p. rewrite <- F4, Hg. by rewrite fmap_is_Some.
  - intros p f Hp Hw. specialize (Hg p). rewrite Hp in Hg. cbn in Hg. unfold add_events. apply F5.
    + rewrite Hg. by case_decide.
    + case_decide; [by rewrite add_logs_base|done].
Qed.

(** ** Interleavings *)

(** The manager, the chain, and the filters whose callers are between the two
    critical sections of [GetFilterChanges]. *)
Record world := mkWorld {
  w_now : Z;
  w_m : FilterManager;
  w_b : Blockchain;
  w_refreshing : list nat;
}.

(** What a step tells a caller, or the manager. *)
Inductive label :=
| Quiet
| Told (p : nat) (u : updates)
| Dispatched (headers : list Header).

(** A chain that writes blocks. *)
Definition grows (b b' : Blockchain) : Prop :=
  ∀ l, implements b l → Forall receipts_fit l → ∃ l', l `prefix_of` l' ∧ implements b' l' ∧ Forall receipts_fit l'.

Definition told_by (r : result json_err (nat * updates)) : label := match r with Ok (p, u) => Told p u | Err _ => Quiet end.
Definition refreshing (r : result json_err (nat * updates)) (l : list nat) : list nat := match r with Ok (p, _) => p :: l | Err _ => l end.

(** Each critical section is a step, and each turn of [Run] three: it looks for the
    next timeout, it selects, and it handles what came. *)
Inductive fm_step : world → label → world → Prop :=
| step_block_filter now uuid ws m b rs : fresh uuid m → (∀ c, ws = Some c → (c < length (fm_conns m))%nat) →
    fm_step (mkWorld now m b rs) Quiet (mkWorld now (NewBlockFilter now uuid ws m).2 b rs)
| step_log_filter now uuid q ws m b rs : fresh uuid m → (∀ c, ws = Some c → (c < length (fm_conns m))%nat) →
    fm_step (mkWorld now m b rs) Quiet (mkWorld now (NewLogFilter now uuid (Some q) ws m).2 b rs)
| step_connect now m b rs script :
    fm_step (mkWorld now m b rs) Quiet (mkWorld now (set_conns (fm_conns m ++ [mkConn [] script []]) m) b rs)
| step_poll now id m b rs r m' : getFilterAndChanges id m = Ret (r, m') →
    fm_step (mkWorld now m b rs) (told_by r) (mkWorld now m' b (refreshing r rs))
| step_refresh now p m b rs1 rs2 m' : refreshFilterTimeout now p m = Ret m' →
    fm_step (mkWorld now m b (rs1 ++ p :: rs2)) Quiet (mkWorld now m' b (rs1 ++ rs2))
| step_uninstall now id m b rs r m' : Uninstall id m = Ret (r, m') → fm_step (mkWorld now m b rs) Quiet (mkWorld now m' b rs)
| step_close now c m b rs r m' : RemoveFilterByWs c m = Ret (r, m') → fm_step (mkWorld now m b rs) Quiet (mkWorld now m' b rs)
| step_top now m b rs : run_phase_ (fm_run m) = Top → fm_step (mkWorld now m b rs) Quiet (mkWorld now (run_top m) b rs)
| step_select now m b rs : run_phase_ (fm_run m) = Armed → fm_step (mkWorld now m b rs) Quiet (mkWorld now (set_phase Selecting m) b rs)
| step_timeout now t m b rs m' : run_phase_ (fm_run m) = Selecting → run_timeoutCh (fm_run m) = Some t → t ≤ now → run_timeout m = Ret m' →
    fm_step (mkWorld now m b rs) Quiet (mkWorld now m' b rs)
| step_event now ev order m b rs m' b' : run_phase_ (fm_run m) = Selecting → range order →
    Forall (λ h, is_Some (db_headers (bc_db b) !! hd_Hash h)) (ev_NewChain ev) → run_event HeaderHash ev order m b = Ret (m', b') →
    fm_step (mkWorld now m b rs) (Dispatched (ev_NewChain ev)) (mkWorld now m' b' rs)
| step_time now now' m b rs : now ≤ now' → fm_step (mkWorld now m b rs) Quiet (mkWorld now' m b rs)
| step_chain now m b b' rs : grows b b' → fm_step (mkWorld now m b rs) Quiet (mkWorld now m b' rs).

Inductive fm_steps : world → list label → world → Prop :=
| steps_nil w : fm_steps w [] w
| steps_cons w1 lb w2 lbs w3 : fm_step w1 lb w2 → fm_steps w2 lbs w3 → fm_steps w1 (lb :: lbs) w3.

Record world_ok (w : world) (hs : list json_block) (l : list entry) : Prop := {
  wo_manager : fm_ok none (w_m w) hs;
  wo_chain : implements (w_b w) l;
  wo_fit : Forall receipts_fit l;
  wo_refreshing p : p ∈ w_refreshing w → ∃ f, fm_objs (w_m w) !! p = Some f ∧ fb_ws (f_base f) = None;
}.

Definition dispatched (lb : label) : list Header := match lb with Dispatched headers => headers | _ => [] end.

(** A filter without a connection, before and after a step. *)
Definition after (hs : list json_block) (l : list entry) (here : bool) (p : nat) (lb : label) (f : filter_obj) : filter_obj :=
  match lb with
  | Quiet => f
  | Told q _ => if decide (q = p) then emptied hs f else f
  | Dispatched headers => if here then add_events l headers f else f
  end.
Record tracked (hs : list json_block) (l : list entry) (m : FilterManager) (lb : label) (m' : FilterManager) (p : nat) (f : filter_obj) : Prop := {
  tr_object : shape <$> fm_objs m' !! p = Some (shape (after hs l (bool_decide (p ∈ installed m)) p lb f));
  tr_told u : lb = Told p u → u = untold hs f;
  tr_installed : p ∈ installed m' → p ∈ installed m;
}.
Definition tracks (hs : list json_block) (l : list entry) (m : FilterManager) (lb : label) (m' : FilterManager) : Prop :=
  (∀ p f, fm_objs m !! p = Some f → fb_ws (f_base f) = None → tracked hs l m lb m' p f) ∧
  (∀ p, is_Some (fm_objs m !! p) → is_Some (fm_objs m' !! p)).

(** Steps that keep the objects and install nothing old. *)
Lemma tracks_quiet hs l m m' :
  (∀ p f, fm_objs m !! p = Some f → shape <$> fm_objs m' !! p = Some (shape f)) →
  (∀ p f, fm_objs m !! p = Some f → p ∈ installed m' → p ∈ installed m) → tracks hs l m Quiet m'.
Proof.
  intros Hs Hin. split.
  - intros p f Hf Hw. split; cbn; [by apply Hs|done|by eapply Hin].
  - intros p [f Hf]. specialize (Hs p f Hf). destruct (fm_objs m' !! p); [by eexists|done].
Qed.

Lemma tracks_undisturbed hs l m m' : undisturbed m m' → tracks hs l m Quiet m'.
Proof.
  intros Hu. apply tracks_quiet.
  - intros p f Hf. by rewrite (ud_shape _ _ Hu), Hf.
  - intros p f Hf. unfold installed. by rewrite (ud_filters _ _ Hu).
Qed.

Lemma tracks_run hs l r m lb m' : tracks hs l (set_run r m) lb m' → tracks hs l m lb m'.
Proof. intros [Ht Hs]. split; [|done]. intros p f Hf Hw. destruct (Ht p f Hf Hw). by split. Qed.

Lemma tracks_new hs l m m' f :
  fm_filters m' = <[fb_id (f_base f) := length (fm_objs m)]> (fm_filters m) → (∀ p, shape <$> fm_objs m' !! p = shape <$> (fm_objs m ++ [f]) !! p) →
  tracks hs l m Quiet m'.
Proof.
  intros Hf Hs. apply tracks_quiet.
  - intros p g Hg. rewrite Hs, lookup_app_l, Hg by (by eapply lookup_lt_Some). done.
  - intros p g Hg. rewrite !elem_installed, Hf. intros [id [[_ <-]|[_ Hid]]%lookup_insert_Some]; [|by exists id].
    apply lookup_lt_Some in Hg. lia.
Qed.

Lemma tracks_removed hs l m m' id :
  fm_filters m' = base.delete id (fm_filters m) → (∀ p, shape <$> fm_objs m' !! p = shape <$> fm_objs m !! p) → tracks hs l m Quiet m'.
Proof.
  intros Hf Hs. apply tracks_quiet; [intros p f Hp; by rewrite Hs, Hp|].
  intros p f Hp. rewrite !elem_installed, Hf. intros [id' [_ Hid]%lookup_delete_Some]. by exists id'.
Qed.

(** Only the manager changes. *)
Lemma world_manager now m b rs m' hs hs' l lb :
  world_ok (mkWorld now m b rs) hs l → fm_ok none m' hs' → tracks hs l m lb m' → world_ok (mkWorld now m' b rs) hs' l.
Proof.
  intros [Hm Hi Hfit Hr] Hm' [Ht _]. split; try done. cbn in *. intros p (f & Hf & Hw)%Hr. destruct (Ht p f Hf Hw) as [Ho _ _].
  destruct (fm_objs m' !! p) as [f'|]; [|done]. exists f'. split; [done|]. injection Ho as _ Ew _. rewrite Ew.
  unfold after, add_events. repeat case_match; rewrite ?emptied_base, ?add_logs_base; done.
Qed.

Lemma poll_ok id m hs l r m' :
  fm_ok none m hs → getFilterAndChanges id m = Ret (r, m') →
  fm_ok none m' hs ∧ tracks hs l m (told_by r) m' ∧
  ∀ p, p ∈ refreshing r [] → ∃ f, fm_objs m' !! p = Some f ∧ fb_ws (f_base f) = None.
Proof.
  intros Hm E. destruct (fm_filters m !! id) as [p|] eqn:Hid.
  2: { unfold getFilterAndChanges in E. rewrite Hid in E. injection E as <- <-. split; [done|]. split; [by apply tracks_undisturbed|]. intros q []%elem_of_nil. }
  destruct (fo_filters _ _ _ Hm _ _ Hid) as (f & Hf & _). destruct (fb_ws (f_base f)) as [c|] eqn:Hw.
  { unfold getFilterAndChanges, hasWSConn in E. rewrite Hid, Hf, Hw in E. injection E as <- <-. split; [done|]. split; [by apply tracks_undisturbed|]. intros q []%elem_of_nil. }
  destruct (getFilterAndChanges_ok m hs id p f Hm Hid Hf Hw) as [E' Hm']. rewrite E in E'. injection E' as -> ->.
  split; [done|]. cbn [told_by refreshing]. pose proof (lookup_lt_Some _ _ _ Hf) as Hlt. split.
  - split.
    + intros q g Hg Hwg. split; cbn; [|by intros u [= <- <-]; simplify_eq|done].
      case_decide; [subst q; rewrite list_lookup_insert_eq by done; by simplify_eq|by rewrite list_lookup_insert_ne, Hg by done].
    + intros q. cbn. rewrite !lookup_lt_is_Some. by rewrite length_insert.
  - intros q ->%list_elem_of_singleton. cbn. rewrite list_lookup_insert_eq by done. eexists. split; [done|]. by rewrite emptied_base.
Qed.

Lemma new_filter_ok now uuid ws kind m hs l :
  fm_ok none m hs → fresh uuid m → (∀ c, ws = Some c → (c < length (fm_conns m))%nat) → kind_ok hs kind →
  let m' := (addFilter now (mkFilter (newFilterBase uuid ws) kind) (set_filter_id ws uuid m)).2 in
  fm_ok none m' hs ∧ tracks hs l m Quiet m'.
Proof.
  intros Hm Hfr Hc Hk m'. destruct (set_filter_id_same ws uuid m) as (S1 & S2 & S3 & S4).
  destruct (addFilter_ok (set_filter_id ws uuid m) hs (mkFilter (newFilterBase uuid ws) kind) now) as (Hm' & Hf & _ & Hs).
  { by apply set_filter_id_ok. }
  { unfold fresh. by rewrite S1. }
  { done. }
  { cbn. by rewrite S4. }
  { done. }
  split; [done|]. rewrite S1 in Hf, Hs. rewrite S2 in Hf. by eapply tracks_new.
Qed.

Lemma remove_ok id m hs l r m' :
  fm_ok none m hs → removeFilterByID id m = Ret (r, m') → fm_ok none m' hs ∧ tracks hs l m Quiet m'.
Proof.
  intros Hm E. destruct (removeFilterByID_ok m hs id Hm) as (m1 & E1 & Hm1 & Hf & _ & _ & Hs). rewrite E in E1. injection E1 as _ ->.
  split; [done|by eapply tracks_removed].
Qed.

Lemma event_ok ev order m hs l b m' b' :
  fm_ok none m hs → implements b l → Forall receipts_fit l → range order → run_event HeaderHash ev order m b = Ret (m', b') →
  fm_ok none m' (hs ++ (head_block <$> ev_NewChain ev)) ∧ implements b' l ∧ tracks hs l m (Dispatched (ev_NewChain ev)) m'.
Proof.
  intros Hm Hi Hfit Hr E. destruct (run_event_ok ev order m hs b l Hm Hi Hfit Hr) as (m1 & b1 & E1 & Hi1 & Hm1 & Hf & Hsome & Hs).
  rewrite E in E1. injection E1 as -> ->. split; [done|]. split; [done|]. split; [|intros p; by rewrite Hsome].
  intros p f Hp Hw. split; [|done|].
  - rewrite (Hs p f Hp Hw). cbn. case_bool_decide; case_decide; done.
  - rewrite !elem_installed. intros [id Hid]. exists id. by apply Hf.
Qed.

Lemma step_ok w lb w' hs l :
  world_ok w hs l → fm_step w lb w' →
  ∃ l', l `prefix_of` l' ∧ world_ok w' (hs ++ (head_block <$> dispatched lb)) l' ∧ tracks hs l (w_m w) lb (w_m w') ∧
    Forall (λ h, is_Some (by_hash (hd_Hash h) l)) (dispatched lb).
Proof.
  intros Hw Hst. pose proof (wo_manager _ _ _ Hw) as Hm.
  assert (∀ now m b rs m', w = mkWorld now m b rs → w' = mkWorld now m' b rs → lb = Quiet → fm_ok none m' hs ∧ tracks hs l m Quiet m' →
    ∃ l', l `prefix_of` l' ∧ world_ok w' (hs ++ (head_block <$> dispatched lb)) l' ∧ tracks hs l (w_m w) lb (w_m w') ∧
      Forall (λ h, is_Some (by_hash (hd_Hash h) l)) (dispatched lb)) as Hq.
  { intros now m b rs m' -> -> -> [Hm' Ht]. exists l. split; [done|]. cbn. rewrite app_nil_r. split; [by eapply world_manager|done]. }
  destruct Hst as [now uuid ws m b rs Hfr Hc|now uuid q ws m b rs Hfr Hc|now m b rs script|now id m b rs r m' E|now p m b rs1 rs2 m' E|now id m b rs r m' E
    |now c m b rs r m' E|now m b rs Hp|now m b rs Hp|now t m b rs m' Hp Ht Hle E|now ev order m b rs m' b' Hp Hr Hst E|now now' m b rs Hle|now m b b' rs Hg]; cbn in Hm.
  - eapply Hq; [done..|]. apply new_filter_ok; [done..|]. pose proof (so_head _ _ (fo_stream _ _ _ Hm)). unfold getHead. cbn. lia.
  - eapply Hq; [done..|]. by apply new_filter_ok.
  - eapply Hq; [done..|]. split; [|apply tracks_quiet; [cbn; by intros p f ->|done]]. destruct Hm. split; try done. cbn. intros p f c Hf Hc. rewrite length_app. cbn.
    pose proof (fo_conn0 _ _ _ Hf Hc). lia.
  - destruct (poll_ok id m hs l r m' Hm E) as (Hm' & Ht & Hr). exists l. split; [done|].
    assert (dispatched (told_by r) = []) as -> by (by destruct r as [[]|]). cbn. rewrite app_nil_r. split; [|done].
    destruct (world_manager _ _ _ _ _ _ _ _ _ Hw Hm' Ht) as [A B C D]. split; try done. cbn in *. destruct r as [[p u]|]; [|done].
    intros q [->|Hq']%elem_of_cons; [apply Hr; apply list_elem_of_here|by apply D].
  - destruct (wo_refreshing _ _ _ Hw p) as (f & Hf & Hws); [cbn; apply elem_of_app; right; apply list_elem_of_here|].
    destruct (refreshFilterTimeout_ok m hs p f now Hm Hf Hws) as (m1 & E1 & Hm1 & Hu & _). rewrite E in E1. injection E1 as ->.
    exists l. split; [done|]. cbn. rewrite app_nil_r. split; [|split; [by apply tracks_undisturbed|done]].
    destruct (world_manager _ _ _ _ _ _ _ _ _ Hw Hm1 (tracks_undisturbed hs l _ _ Hu)) as [A B C D]. split; try done. cbn in *.
    intros q Hq'. apply D. rewrite elem_of_app in *. rewrite elem_of_cons. tauto.
  - eapply Hq; [done..|]. by eapply remove_ok.
  - unfold RemoveFilterByWs in E. case_match; [|done]. eapply Hq; [done..|]. by eapply remove_ok.
  - eapply Hq; [done..|]. unfold run_top. destruct (nextTimeoutFilter m). split; [by apply run_ok|by apply tracks_undisturbed].
  - eapply Hq; [done..|]. split; [by apply run_ok|by apply tracks_undisturbed].
  - unfold run_timeout in E. destruct (Uninstall _ _) as [[r m1]| |] eqn:Eu; try done. injection E as <-. eapply Hq; [done..|].
    apply (remove_ok _ _ hs l) in Eu as [Hm' Ht']; [|by apply run_ok]. split; [done|]. exact (tracks_run _ _ _ _ _ _ Ht').
  - destruct (event_ok ev order m hs l b m' b' Hm (wo_chain _ _ _ Hw) (wo_fit _ _ _ Hw) Hr E) as (Hm' & Hi' & Ht). exists l. split; [done|].
    split; [|split; [done|]].
    + destruct (world_manager _ _ _ _ _ _ _ _ _ Hw Hm' Ht) as [A B C D]. by split.
    + eapply Forall_impl; [exact Hst|]. intros h [x Hx]. rewrite (da_headers _ _ (im_db _ _ _ _ (wo_chain _ _ _ Hw))) in Hx. by destruct (by_hash _ l).
  - exists l. split; [done|]. cbn. rewrite app_nil_r. split; [by destruct Hw; split|]. split; [by apply tracks_undisturbed|done].
  - destruct (Hg l (wo_chain _ _ _ Hw) (wo_fit _ _ _ Hw)) as (l' & Hpre & Hi & Hfit). exists l'. split; [done|]. cbn. rewrite app_nil_r.
    split; [by destruct Hw; split|]. split; [by apply tracks_undisturbed|done].
Qed.

(** ** What a filter tells *)

(** What polls of a filter returned, and what the next one would. *)
Definition told_blocks (p : nat) (lb : label) : list json_block :=
  match lb with Told q (BlockUpdates bs) => if decide (q = p) then bs else [] | _ => [] end.
Definition told_logs (p : nat) (lb : label) : list json_Log :=
  match lb with Told q (LogUpdates ls) => if decide (q = p) then ls else [] | _ => [] end.
Definition untold_blocks (m : FilterManager) (p : nat) : list json_block :=
  match f_kind <$> fm_objs m !! p with
  | Some (blockFilter k) => match elem_getUpdates k (fm_blockStream m) with Ret (bs, _) => bs | _ => [] end
  | _ => []
  end.
Definition untold_logs (m : FilterManager) (p : nat) : list json_Log :=
  match f_kind <$> fm_objs m !! p with Some (logFilter _ ls) => ls | _ => [] end.

Lemma untold_blocks_ok m hs p f k :
  fm_ok none m hs → fm_objs m !! p = Some f → f_kind f = blockFilter k → untold_blocks m p = drop (S k) hs.
Proof.
  intros Hm Hf Hk. unfold untold_blocks. rewrite Hf. cbn [fmap option_fmap option_map]. rewrite Hk. by rewrite (elem_getUpdates_ok _ hs _ (fo_stream _ _ _ Hm)) by (by eapply fo_block).
Qed.

(** A filter after one step. *)
Lemma tracked_next w lb w' hs l p f :
  world_ok w hs l → tracks hs l (w_m w) lb (w_m w') → fm_objs (w_m w) !! p = Some f → fb_ws (f_base f) = None →
  ∃ f', fm_objs (w_m w') !! p = Some f' ∧ fb_ws (f_base f') = None ∧ f_kind f' = f_kind (after hs l (bool_decide (p ∈ installed (w_m w))) p lb f) ∧
    (∀ u, lb = Told p u → u = untold hs f) ∧ (p ∈ installed (w_m w') → p ∈ installed (w_m w)).
Proof.
  intros Hw [Ht _] Hf Hws. destruct (Ht p f Hf Hws) as [Ho Hu Hin]. destruct (fm_objs (w_m w') !! p) as [f'|] eqn:Hf'; [|done]. exists f'.
  injection Ho as _ Ew Ek. split; [done|]. split; [|done]. rewrite Ew. unfold after, add_events. repeat case_match; rewrite ?emptied_base, ?add_logs_base; done.
Qed.

Lemma steps_tell_blocks w lbs w' p : fm_steps w lbs w' → ∀ hs l f k,
  world_ok w hs l → fm_objs (w_m w) !! p = Some f → fb_ws (f_base f) = None → f_kind f = blockFilter k →
  drop (S k) hs ++ (head_block <$> (lbs ≫= dispatched)) = (lbs ≫= told_blocks p) ++ untold_blocks (w_m w') p.
Proof.
  induction 1 as [w|w1 lb w2 lbs w3 Hst _ IH]; intros hs l f k Hw Hf Hws Hk.
  { cbn. rewrite app_nil_r. symmetry. eapply untold_blocks_ok; [apply Hw|done..]. }
  destruct (step_ok _ _ _ _ _ Hw Hst) as (l' & _ & Hw2 & Ht & _).
  destruct (tracked_next _ _ _ _ _ _ _ Hw Ht Hf Hws) as (f2 & Hf2 & Hws2 & Hk2 & Hu & _).
  assert (∃ k2, f_kind f2 = blockFilter k2 ∧ told_blocks p lb ++ drop (S k2) (hs ++ (head_block <$> dispatched lb)) = drop (S k) hs ++ (head_block <$> dispatched lb)) as (k2 & Ek2 & E).
  { pose proof (fo_block _ _ _ (wo_manager _ _ _ Hw) _ _ _ Hf Hk) as Hlt. rewrite Hk2. destruct lb as [|q u|headers]; cbn [after dispatched told_blocks].
    - exists k. split; [done|]. cbn. by rewrite !app_nil_r.
    - cbn. rewrite !app_nil_r. destruct (decide (q = p)) as [->|].
      + rewrite (Hu u eq_refl). unfold untold, emptied. rewrite Hk. cbn. eexists. split; [done|]. rewrite (drop_ge hs (S (pred (length hs)))) by lia. by rewrite app_nil_r.
      + exists k. split; [done|]. by destruct u.
    - exists k. split; [case_match; [unfold add_events, add_logs; by rewrite Hk|done]|]. cbn [app]. by rewrite drop_app_le by lia. }
  cbn [mbind list_bind]. fold (lbs ≫= dispatched) (lbs ≫= told_blocks p). rewrite <- app_assoc, <- (IH _ _ _ _ Hw2 Hf2 Hws2 Ek2), fmap_app, !app_assoc. by rewrite E.
Qed.

Lemma logs_of_prefix l l' q h : l `prefix_of` l' → is_Some (by_hash (hd_Hash h) l) → logs_of l' q h = logs_of l q h.
Proof. intros [k ->] [[i e] E]. unfold logs_of. rewrite E. unfold by_hash in *. by rewrite (list_find_app_l _ _ _ _ _ E). Qed.

Lemma concat_fmap {A B} (f : A → list B) (l : list A) : concat (f <$> l) = l ≫= f.
Proof. induction l as [|x l IH]; [done|]. cbn. f_equal. exact IH. Qed.

Lemma steps_tell_logs w lbs w' p : fm_steps w lbs w' → ∀ hs l f q ls,
  world_ok w hs l → fm_objs (w_m w) !! p = Some f → fb_ws (f_base f) = None → f_kind f = logFilter (Some q) ls → p ∈ installed (w_m w') →
  p ∈ installed (w_m w) ∧ ∃ l', l `prefix_of` l' ∧ implements (w_b w') l' ∧
    ls ++ ((lbs ≫= dispatched) ≫= logs_of l' q) = (lbs ≫= told_logs p) ++ untold_logs (w_m w') p.
Proof.
  induction 1 as [w|w1 lb w2 lbs w3 Hst _ IH]; intros hs l f q ls Hw Hf Hws Hk Hin.
  { split; [done|]. exists l. split; [done|]. split; [apply Hw|]. cbn. rewrite app_nil_r. unfold untold_logs. rewrite Hf. cbn. by rewrite Hk. }
  destruct (step_ok _ _ _ _ _ Hw Hst) as (l1 & Hpre & Hw2 & Ht & Hst').
  destruct (tracked_next _ _ _ _ _ _ _ Hw Ht Hf Hws) as (f2 & Hf2 & Hws2 & Hk2 & Hu & Hin2).
  assert (∃ ls2, f_kind f2 = logFilter (Some q) ls2 ∧ (p ∈ installed (w_m w1) → told_logs p lb ++ ls2 = ls ++ (dispatched lb ≫= logs_of l q))) as (ls2 & Ek2 & E).
  { rewrite Hk2. destruct lb as [|q' u|headers]; cbn [after dispatched told_logs].
    - exists ls. split; [done|]. cbn. by rewrite app_nil_r.
    - cbn. rewrite app_nil_r. destruct (decide (q' = p)) as [->|].
      + rewrite (Hu u eq_refl). unfold untold, emptied. rewrite Hk. cbn. eexists. split; [done|]. by rewrite app_nil_r.
      + exists ls. split; [done|]. by destruct u.
    - case_bool_decide; [|by exists ls]. unfold add_events, add_logs. rewrite Hk. cbn [f_kind set_kind app]. eexists. split; [done|]. intros _. by rewrite concat_fmap. }
  destruct (IH _ _ _ _ _ Hw2 Hf2 Hws2 Ek2 Hin) as (Hin' & l' & Hpre' & Hi' & E'). specialize (Hin2 Hin'). split; [done|]. exists l'. split; [by etrans|]. split; [done|].
  cbn [mbind list_bind]. fold (lbs ≫= dispatched) (lbs ≫= told_logs p). rewrite bind_app, <- app_assoc, <- E', !app_assoc. f_equal. rewrite (E Hin2).
  f_equal. clear -Hst' Hpre Hpre'. induction Hst' as [|h headers Hh _ IHh]; [done|]. cbn. fold (headers ≫= logs_of l' q) (headers ≫= logs_of l q).
  rewrite IHh. f_equal. apply logs_of_prefix; [by etrans|done].
Qed.

(** ** Reachable states *)

Definition starts (w : world) : Prop :=
  ∃ now limit b l sub m b', implements b l ∧ Forall receipts_fit l ∧ NewFilterManager limit b = Ret (sub, m, b') ∧ w = mkWorld now m b' [].
Definition reachable (w : world) : Prop := ∃ w0 lbs, starts w0 ∧ fm_steps w0 lbs w.

Lemma starts_ok w : starts w → ∃ hs l, world_ok w hs l.
Proof.
  intros (now & limit & b & l & sub & m & b' & Hi & Hfit & E & ->). unfold NewFilterManager in E. rewrite (im_header _ _ _ _ Hi) in E.
  destruct (last l) as [e|]; [|done]. cbn [fmap option_fmap option_map] in E. rewrite toBlock_head in E. cbn [obind] in E.
  destruct (SubscribeEvents b) as [sub' b1] eqn:Es. injection E as <- <- <-. exists [head_block (e_header e)], l. split; cbn; [|..|done|set_solver].
  - split; cbn; try done; [apply newBlockStream_ok|]. split; [apply NoDup_nil_2|done].
  - unfold SubscribeEvents in Es. destruct (newUpdateCh _) as [sub2 s]. injection Es as _ <-. by apply implements_stream.
Qed.

Lemma steps_ok w lbs w' : fm_steps w lbs w' → ∀ hs l, world_ok w hs l → ∃ hs' l', world_ok w' hs' l'.
Proof.
  induction 1 as [w|w1 lb w2 lbs w3 Hst _ IH]; intros hs l Hw; [eauto|]. destruct (step_ok _ _ _ _ _ Hw Hst) as (l1 & _ & Hw2 & _). eauto.
Qed.

Lemma reachable_ok w : reachable w → ∃ hs l, world_ok w hs l.
Proof. intros (w0 & lbs & (hs & l & Hw)%starts_ok & Hst). by eapply steps_ok. Qed.

Lemma next_is_first m hs p : fm_ok none m hs → p ∈ fm_timeouts m → (nextTimeoutFilter m).2 ≤ expires (fm_objs m) p ∧ (nextTimeoutFilter m).1 ≠ [].
Proof.
  intros Hm Hp. unfold nextTimeoutFilter. destruct (fm_timeouts m) as [|x t] eqn:Et; [by apply elem_of_nil in Hp|].
  pose proof (heap_first (fm_timeouts m, fm_objs m) x p (fo_heap _ _ _ Hm)) as Hfst. cbn in Hfst. rewrite Et in Hfst. specialize (Hfst eq_refl Hp).
  destruct (fo_placed _ _ _ Hm) as [_ Hx]. specialize (Hx 0%nat x). cbn in Hx. rewrite Et in Hx. specialize (Hx eq_refl).
  destruct (fm_objs m !! x) as [f|] eqn:Ef; [|done]. cbn [fst snd]. split; [|by eapply fo_id]. unfold expires in Hfst at 2. rewrite Ef in Hfst. cbn in Hfst. lia.
Qed.



(** ** Queries *)

(** The logs of a block that match a query, with their places. *)
Definition found_log (h : Header) (t : Transaction) (idx j : nat) (log : Log) : json_Log :=
  mkJsonLog (log_Address log) (log_Topics log) (log_Data log) (hd_Number h) (tx_Hash t) (Z.of_nat idx) (hd_Hash h) (Z.of_nat j) false.
Definition found_at (q : LogQuery) (h : Header) (txs : list Transaction) (idx j : nat) (log : Log) : list json_Log :=
  if Match q log then (λ t, found_log h t idx j log) <$> option_list (txs !! idx) else [].
Definition receipt_logs (q : LogQuery) (h : Header) (txs : list Transaction) (idx : nat) (r : Receipt) : list json_Log :=
  concat (imap (found_at q h txs idx) (rc_Logs r)).
Definition entry_logs (q : LogQuery) (e : entry) : list json_Log :=
  match e_receipts e with Some rs => concat (imap (receipt_logs q (e_header e) (e_txs e)) rs) | None => [] end.

Lemma block_logs_ok q h txs idx t logs : txs !! idx = Some t → ∀ j,
  block_logs q h txs idx j logs = Ret (concat (imap (λ i, found_at q h txs idx (j + i)) logs)).
Proof.
  intros Ht. induction logs as [|log logs IH]; intros j; [done|]. cbn [block_logs]. rewrite IH, imap_cons. cbn [concat]. rewrite Nat.add_0_r.
  rewrite (imap_ext ((λ i, found_at q h txs idx (j + i)) ∘ S) (λ i, found_at q h txs idx (S j + i))) by (intros i x _; cbn; by rewrite Nat.add_succ_r).
  unfold found_at at 2. rewrite Ht. by destruct (Match q log).
Qed.

Lemma receipts_logs_ok q h txs rs : ∀ idx, (idx + length rs ≤ length txs)%nat →
  receipts_logs q h txs idx rs = Ret (concat (imap (λ i, receipt_logs q h txs (idx + i)) rs)).
Proof.
  induction rs as [|r rs IH]; intros idx Hl; [done|]. cbn [receipts_logs length] in *. destruct (lookup_lt_is_Some_2 txs idx) as [t Ht]; [lia|].
  rewrite (block_logs_ok _ _ _ _ t _ Ht). cbn [obind]. rewrite IH by lia. cbn [obind]. rewrite imap_cons. cbn [concat]. rewrite Nat.add_0_r.
  rewrite (imap_ext ((λ i, receipt_logs q h txs (idx + i)) ∘ S) (λ i, receipt_logs q h txs (S idx + i))) by (intros i x _; cbn; by rewrite Nat.add_succ_r).
  done.
Qed.

(** Blocks with transactions have their receipts. *)
Definition receipts_known (e : entry) : Prop := e_txs e ≠ [] → is_Some (e_receipts e).

Lemma block_found q b l i e :
  implements b l → receipts_fit e → receipts_known e → l !! i = Some e →
  (if bool_decide (bk_Transactions (e_block e) = []) then Ret (Ok []) else getLogsFromBlock q (e_block e) b) = Ret (Ok (entry_logs q e)).
Proof.
  intros Hi Hfit Hkn Hl. unfold entry_logs. case_bool_decide as Et.
  - destruct (e_receipts e) as [rs|] eqn:Er; [|done]. specialize (Hfit rs Er). unfold e_txs in Hfit. rewrite Et in Hfit. cbn in Hfit.
    destruct rs; [done|]. cbn in Hfit. lia.
  - destruct (Hkn Et) as [rs Er]. unfold getLogsFromBlock. rewrite (da_receipts _ _ (im_db _ _ _ _ Hi)).
    change (hd_Hash (bk_Header (e_block e))) with (e_hash e). rewrite (by_hash_lookup _ i e) by (done || apply Hi). cbn [mbind option_bind snd]. rewrite Er.
    rewrite receipts_logs_ok by (by apply Hfit). done.
Qed.

(** The blocks of the numbers from [i] to [to]. *)
Definition blocks_between (i to : Z) (l : list entry) : list entry := take (Z.to_nat (to + 1 - i)) (drop (Z.to_nat i) l).

Lemma range_logs_ok q l to : Forall receipts_fit l → Forall receipts_known l → Z.of_nat (length l) < M64 → ∀ fuel i b,
  implements b l → 0 ≤ i → (0 < fuel)%nat → Z.of_nat (length l) + 1 ≤ Z.of_nat fuel + i →
  ∃ b', range_logs HeaderHash fuel q i to b = Ret (Ok (concat (entry_logs q <$> blocks_between i to l)), b') ∧ implements b' l.
Proof.
  intros Hfit Hkn Hlen. induction fuel as [|fuel IH]; intros i b Hi H1' Hpos Hf; [lia|]. cbn [range_logs].
  destruct (Z.leb_spec i to) as [Hle|Hlt].
  2: { exists b. unfold blocks_between. by replace (Z.to_nat (to + 1 - i)) with 0%nat by lia. }
  destruct (GetBlockByNumber_ok HeaderHash genesis_config b l i true Hi H1') as (b1 & -> & Hs).
  assert (implements b1 l) as Hi1 by (eapply implements_same; [exact Hi|apply Hs|apply Hs]).
  destruct (l !! Z.to_nat i) as [e|] eqn:He; cbn [obind].
  2: { exists b1. split; [|done]. unfold blocks_between. apply lookup_ge_None_1 in He. by rewrite drop_ge, take_nil by lia. }
  rewrite (block_found q b1 l (Z.to_nat i) e Hi1 (Forall_lookup_1 _ _ _ _ Hfit He) (Forall_lookup_1 _ _ _ _ Hkn He) He). cbn [obind].
  apply lookup_lt_Some in He as Hlt. unfold add64. rewrite u64_small by (unfold is_u64; lia).
  destruct (IH (i + 1) b1 Hi1) as (b2 & -> & Hi2); [lia..|]. cbn [obind]. exists b2. split; [|done]. do 3 f_equal.
  unfold blocks_between. rewrite (drop_S _ _ _ He). replace (Z.to_nat (to + 1 - i)) with (S (Z.to_nat (to + 1 - (i + 1)))) by lia.
  cbn [take fmap list_fmap concat]. by replace (Z.to_nat (i + 1)) with (S (Z.to_nat i)) by lia.
Qed.


(** What a log filter tells of a block is what a query for the block answers, but
    for the index of the log, which is left at zero. *)
Definition no_LogIndex (g : json_Log) : json_Log :=
  mkJsonLog (jl_Address g) (jl_Topics g) (jl_Data g) (jl_BlockNumber g) (jl_TxHash g) (jl_TxIndex g) (jl_BlockHash g) 0 (jl_Removed g).

Lemma receipt_logs_unindexed q h txs idx r t :
  txs !! idx = Some t → receipt_txHash txs idx r = tx_Hash t →
  no_LogIndex <$> receipt_logs q h txs idx r = event_log (head_block h) (receipt_txHash txs idx r) idx <$> filter (λ log, Match q log = true) (rc_Logs r).
Proof.
  intros Ht ->. unfold receipt_logs.
  assert (∀ j, no_LogIndex <$> concat (imap (λ i, found_at q h txs idx (j + i)) (rc_Logs r)) =
    event_log (head_block h) (tx_Hash t) idx <$> filter (λ log, Match q log = true) (rc_Logs r)) as Hj; [|apply (Hj 0%nat)].
  induction (rc_Logs r) as [|log logs IH]; intros j; [done|]. rewrite imap_cons, filter_cons. cbn [concat]. rewrite fmap_app.
  rewrite (imap_ext ((λ i, found_at q h txs idx (j + i)) ∘ S) (λ i, found_at q h txs idx (S j + i))) by (intros i x _; cbn; by rewrite Nat.add_succ_r).
  rewrite IH. unfold found_at. rewrite Ht. destruct (Match q log); [rewrite decide_True by done|rewrite decide_False by done]; done.
Qed.

Lemma filters_agree_with_queries l q i e rs :
  NoDup (e_hash <$> l) → l !! i = Some e → e_receipts e = Some rs → receipts_fit e →
  (∀ j r t, rs !! j = Some r → e_txs e !! j = Some t → rc_TxHash r = ZeroHash ∨ rc_TxHash r = tx_Hash t) →
  logs_of l q (e_header e) = no_LogIndex <$> entry_logs q e.
Proof.
  intros Hnd Hl Er Hfit Hn. unfold logs_of, entry_logs. change (hd_Hash (e_header e)) with (e_hash e). rewrite (by_hash_lookup _ i e Hnd Hl), Er.
  specialize (Hfit rs Er). clear Er.
  assert (∀ idx, (idx + length rs ≤ length (e_txs e))%nat →
    (∀ j r t, rs !! j = Some r → e_txs e !! (idx + j)%nat = Some t → rc_TxHash r = ZeroHash ∨ rc_TxHash r = tx_Hash t) →
    event_logs q (e_header e) (e_txs e) idx rs = no_LogIndex <$> concat (imap (λ i, receipt_logs q (e_header e) (e_txs e) (idx + i)) rs)) as Hg; [|by apply (Hg 0%nat)].
  clear Hfit Hn. induction rs as [|r rs IH]; intros idx Hlen Hn; [done|]. cbn [event_logs length] in *. rewrite imap_cons. cbn [concat]. rewrite fmap_app, Nat.add_0_r.
  rewrite (imap_ext ((λ i, receipt_logs q (e_header e) (e_txs e) (idx + i)) ∘ S) (λ i, receipt_logs q (e_header e) (e_txs e) (S idx + i)))
    by (intros k x _; cbn; by rewrite Nat.add_succ_r).
  rewrite <- IH; [|lia|intros j r' t Hr; rewrite Nat.add_succ_comm; by apply (Hn (S j))]. f_equal.
  destruct (lookup_lt_is_Some_2 (e_txs e) idx) as [t Ht]; [lia|]. symmetry. apply (receipt_logs_unindexed _ _ _ _ _ t Ht).
  unfold receipt_txHash. rewrite Ht. cbn. case_match eqn:Ez; [done|]. apply Z.eqb_neq in Ez.
  destruct (Hn 0%nat r t eq_refl) as [|]; [by rewrite Nat.add_0_r|done|done].
Qed.

(** ** Races *)

(** A filter uninstalled while a poll of it is between its critical sections is put
    back in the heap by the second, and no id leads to it any more. *)
Lemma refresh_leaves_stale_timeout m hs id p f now :
  fm_ok none m hs → fm_filters m !! id = Some p → fm_objs m !! p = Some f → fb_ws (f_base f) = None →
  ∃ u m1 m2 m3, getFilterAndChanges id m = Ret (Ok (p, u), m1) ∧ Uninstall id m1 = Ret (true, m2) ∧ refreshFilterTimeout now p m2 = Ret m3 ∧
    p ∈ fm_timeouts m3 ∧ fm_filters m3 !! id = None.
Proof.
  intros Hm Hid Hf Hws. destruct (getFilterAndChanges_ok m hs id p f Hm Hid Hf Hws) as [E1 Hm1]. set (m1 := set_objs _ m) in *.
  destruct (removeFilterByID_ok m1 hs id Hm1) as (m2 & E2 & Hm2 & Hf2 & _ & _ & Hs2). unfold Exists in E2. cbn in E2. rewrite Hid in E2.
  specialize (Hs2 p). cbn in Hs2. rewrite list_lookup_insert_eq in Hs2 by (by eapply lookup_lt_Some).
  destruct (fm_objs m2 !! p) as [f2|] eqn:Ef2; [|done]. injection Hs2 as _ Ew _. rewrite emptied_base, Hws in Ew.
  destruct (refreshFilterTimeout_ok m2 hs p f2 now Hm2 Ef2 Ew) as (m3 & E3 & _ & Hu & Hin & _).
  exists (untold hs f), m1, m2, m3. split; [exact E1|]. split; [exact E2|]. split; [done|]. split; [done|].
  rewrite (ud_filters _ _ Hu), Hf2. cbn. apply lookup_delete_eq.
Qed.

(** When such a filter is the first to expire, its timer fires again and again, and
    nothing is ever removed. *)
Lemma stale_timeout_blocks m p t f :
  fm_timeouts m = p :: t → fm_objs m !! p = Some f → fb_id (f_base f) ≠ [] → fm_filters m !! fb_id (f_base f) = None →
  ∃ m', run_timeout (set_phase Selecting (run_top m)) = Ret m' ∧
    fm_filters m' = fm_filters m ∧ fm_timeouts m' = fm_timeouts m ∧ fm_objs m' = fm_objs m ∧ run_phase_ (fm_run m') = Top ∧
    run_timeoutCh (fm_run (run_top m)) = Some (fb_expiresAt (f_base f)).
Proof.
  intros Et Ef Hne Hid. unfold run_top, nextTimeoutFilter. rewrite Et, Ef. unfold run_timeout, Uninstall, removeFilterByID. cbn. rewrite Hid. cbn.
  eexists. split; [done|]. cbn. rewrite bool_decide_true by done. done.
Qed.

(** A poll after the loop has read the next timeout and before it selects: the
    signal is lost, and the filter is removed at its old time. *)
Lemma refreshed_filter_is_removed m hs id p f now :
  fm_ok none m hs → nextTimeoutFilter m = (id, fb_expiresAt (f_base f)) → fm_filters m !! id = Some p → fm_objs m !! p = Some f → fb_ws (f_base f) = None →
  id ≠ [] → fb_expiresAt (f_base f) < now + fm_timeout m →
  ∃ m2 m3, refreshFilterTimeout now p (run_top m) = Ret m2 ∧ run_timeoutCh (fm_run m2) = Some (fb_expiresAt (f_base f)) ∧
    fb_expiresAt (f_base f) < expires (fm_objs m2) p ∧ run_timeout (set_phase Selecting m2) = Ret m3 ∧ Exists id m3 = false.
Proof.
  intros Hm Hnx Hid Hf Hws Hne Hlt. set (m1 := run_top m).
  assert (fm_ok none m1 hs) as Hm1 by (unfold m1, run_top; destruct (nextTimeoutFilter m); by apply run_ok).
  assert (fm_objs m1 = fm_objs m ∧ fm_filters m1 = fm_filters m ∧ fm_timeout m1 = fm_timeout m ∧ fm_run m1 = mkRun Armed id (Some (fb_expiresAt (f_base f)))) as (E1 & E2 & E3 & E4).
  { unfold m1, run_top. rewrite Hnx. cbn. by rewrite bool_decide_true. }
  assert (fm_objs m1 !! p = Some f) as Hf1 by congruence.
  destruct (refreshFilterTimeout_ok m1 hs p f now Hm1 Hf1 Hws) as (m2 & Er & Hm2 & Hu & _ & Hex). exists m2.
  assert (fm_run m2 = fm_run m1) as Hrun.
  { unfold refreshFilterTimeout in Er. destruct (removeFilter_ok none m1 hs p f Hm1 Hf1) as (r & m1' & E & _ & _ & Hr' & _). rewrite E in Er. cbn [obind] in Er.
    injection Er as <-. unfold addFilterTimeout, emitSignalToUpdateCh. cbn. rewrite Hr', E4. cbn. by rewrite Hr', E4. }
  unfold run_timeout. cbn [fm_run set_phase set_run run_filterID]. rewrite Hrun, E4. cbn [run_filterID run_timeoutCh].
  set (m2' := set_run _ _). assert (fm_ok none m2' hs) as Hm2' by (unfold m2'; by repeat apply run_ok).
  destruct (removeFilterByID_ok m2' hs id Hm2') as (m3 & E & _ & Hf3 & _). unfold Uninstall. rewrite E. cbn [obind].
  exists m3. split; [exact Er|]. split; [done|]. split; [by rewrite Hex, E3|]. split; [done|]. unfold Exists. by rewrite Hf3, lookup_delete_eq.
Qed.

(** The subscription of the manager has room for one event: a block written before
    the last one was read is not told to it. *)
Lemma event_is_lost (ev ev' : Event) (s : list (option Event)) i : s !! i = Some (Some ev) → (push ev' s : list (option Event)) !! i = Some (Some ev).
Proof. intros E. unfold push. by rewrite list_lookup_fmap, E. Qed.
End events.

(** ** Requests *)

(** A log filter without a query: the first log of a block that is dispatched to
    it panics, in the goroutine of the manager. *)
Section null_query.
Context `{External} `{RlpReader} `{LRU} `{ChainDeps}.
Variable HeaderHash : Header → Hash.

Lemma append_log_to_null ps log jlog objs p b ls :
  p ∈ ps → objs !! p = Some (mkFilter b (logFilter None ls)) → append_log_to ps log jlog objs = Panic.
Proof.
  revert objs. induction ps as [|q ps IH]; intros objs Hp Hf; [by apply not_elem_of_nil in Hp|]. cbn [append_log_to].
  destruct (decide (q = p)) as [->|Hne]; [by rewrite Hf|]. apply elem_of_cons in Hp as [->|Hp]; [done|].
  destruct (objs !! q) as [f|]; [|done]. assert (append_log log jlog f = Panic ∨ ∃ f', append_log log jlog f = Ret f') as [->|[f' ->]]; [|done|].
  { unfold append_log. destruct (f_kind f) as [|[]]; eauto. }
  cbn [obind]. apply IH; [done|]. by rewrite list_lookup_insert_ne.
Qed.

Lemma null_query_panics header m b id p base ls r rs block b' :
  fm_filters m !! id = Some p → fm_objs m !! p = Some (mkFilter base (logFilter None ls)) →
  db_receipts (bc_db b) !! jb_Hash header = Some (r :: rs) → rc_Logs r ≠ [] →
  GetBlockByHash HeaderHash (jb_Hash header) true b = Ret (Some block, true, b') →
  appendLogsToFilters HeaderHash header m b = Panic.
Proof.
  intros Hid Hf Hr Hl Hb. unfold appendLogsToFilters. rewrite Hr. set (ps := filter _ _).
  assert (p ∈ ps) as Hp.
  { apply list_elem_of_filter. split; [unfold is_logFilter; by rewrite Hf|]. apply elem_installed. eauto. }
  rewrite bool_decide_false by (intros E; rewrite E in Hp; by apply not_elem_of_nil in Hp). rewrite Hb. cbn [obind append_receipts].
  destruct (if rc_TxHash r =? ZeroHash then _ else _) as [txHash| |] eqn:Et; [|done|by repeat case_match].
  cbn [obind]. destruct (rc_Logs r) as [|log logs]; [done|]. cbn [append_logs]. by rewrite (append_log_to_null ps _ _ _ p base ls Hp Hf).
Qed.
End null_query.

(** A subscription to logs that says nothing else indexes past its parameters; one
    with a null makes such a filter. *)
Lemma subscribe_logs_alone_panics now uuid conn id method m :
  handleSubscribe now uuid conn (mkRequest id method (Some [PString (str "logs")])) m = Panic.
Proof. done. Qed.

Lemma subscribe_null_query now uuid conn id method m :
  handleSubscribe now uuid conn (mkRequest id method (Some [PString (str "logs"); PNull])) m =
  Ret (Ok uuid, (NewLogFilter now uuid None (Some conn) m).2).
Proof. done. Qed.

Section batches.
Context {R A : Type} (serviceMap : gmap bytes (gmap bytes (endpoint (R:=R) (A:=A)))) (limit : Z).

(** Requests sent one after the other. *)
Fixpoint one_by_one (requests : list Request) (s : dispatch_state) : outcome (list (answer (A:=A)) * dispatch_state) :=
  match requests with
  | [] => Ret ([], s)
  | req :: requests =>
      let~ (a, s) := Handle serviceMap limit (ObjectBody (Some req)) s in
      let~ (rest, s) := one_by_one requests s in
      Ret (a :: rest, s)
  end.

End batches.

Module Batches.
Definition ping : endpoint (R:=nat) (A:=nat) := λ _ s, Ret (Ok s.2, (s.1, S s.2)).
Definition services : gmap bytes (gmap bytes (endpoint (R:=nat) (A:=nat))) := {[str "net" := {[str "version" := ping]}]}.
Definition reqs : list Request := [mkRequest (IdInt 1) (str "net_version") None; mkRequest (IdInt 2) (str "net_other") None].
Definition idle : FilterManager := mkManager [] ∅ [] (mkBlockStream [] 0) [] 0 0 (mkRun Top [] None).

End Batches.
