(* ===== verification/EthEndpoint.v ===== *)
(** The endpoints of [jsonrpc/eth_endpoint.go] with the helpers of [helper.go], and
    what the node gives them ([jsonRPCHub] of [server/server.go]): the chain, the
    committed states, the pool and the executor.

    A request runs in a small monad: it reads and, by its caches, changes the node,
    may fail with an error and may panic ([let@]).  The endpoints answer with values
    of [JsonTypes]; a JSON [null] is [None].  The pool is the interface
    [ethTxPoolStore] ([EthPool]); the execution of a transaction on the state of a
    block is an argument, which [hub_ApplyTxn] instantiates with the executor.  The
    endpoints of [txpool_endpoint.go] read the pool itself. *)
From stdpp Require Import strings.
From S2P Require Import Prelude Types Runtime Crypto Intrinsic StateTxn Bloom Signer EvmState Precompiled Executor Rlp RlpTypes ChainStorage Trie BuildRoot TrieState Blockchain Text JsonTypes.

(** [ethTxPoolStore]. *)
Class EthPool := {
  pool_state : Type;
  pool_err : Type;
  pool_AddTx : Transaction → pool_state → outcome (option pool_err * pool_state);
  pool_GetPendingTx : Hash → pool_state → option Transaction;
  pool_GetNonce : Address → pool_state → Z;
}.

(** What [ApplyTxn] fails with.  A [TransitionApplicationError] has no [Unwrap]. *)
Inductive txn_err :=
| TxnApply (e : TransitionApplicationError)
| TxnOther (e : applyErr)
| TxnCreator.

Definition errors_Is_intrinsic (e : txn_err) : bool :=
  match e with TxnOther ErrNotEnoughIntrinsicGas => true | _ => false end.

Inductive test_err :=
| TestApply (e : txn_err)
| TestVm (e : vmError).

Inductive eth_err `{EthPool} :=
| EJson (e : json_err)
| EStateNotFound
| ERoot
| EAccount
| ENoCode
| ETest (e : test_err)
| EInsufficientFunds
| EHighest (gas : Z) (e : option test_err)
| EPool (e : pool_err)
| ERlp.

Record txnArgs := mkArgs {
  arg_From : option Address;
  arg_To : option Address;
  arg_Gas : option Z;
  arg_GasPrice : option bytes;
  arg_Value : option bytes;
  arg_Data : option bytes;
  arg_Input : option bytes;
  arg_Nonce : option Z;
}.

Definition set_Gas (gas : Z) (t : Transaction) : Transaction :=
  mkTransaction (tx_Nonce t) (tx_GasPrice t) gas (tx_To t) (tx_Value t) (tx_Input t) (tx_V t) (tx_R t) (tx_S t) (tx_Hash t) (tx_From t).

Section endpoint.
Context `{External} `{RlpReader} `{LRU} `{ChainDeps} `{EthPool}.
Variable HeaderHash : Header → Hash.

(** ** The node *)

Record node := mkNode {
  n_chain : Blockchain;
  n_state : State;
  n_pool : pool_state;
}.
Definition set_chain (b : Blockchain) (n : node) : node := mkNode b (n_state n) (n_pool n).
Definition set_trie (s : State) (n : node) : node := mkNode (n_chain n) s (n_pool n).
Definition set_pool (p : pool_state) (n : node) : node := mkNode (n_chain n) (n_state n) p.

(** Requests. *)
Definition eth (A : Type) : Type := node → outcome (result eth_err A * node).
Definition eret {A} (a : A) : eth A := λ n, Ret (Ok a, n).
Definition efail {A} (e : eth_err) : eth A := λ n, Ret (Err e, n).
Definition epanic {A} : eth A := λ _, Panic.
Definition ebind {A B} (m : eth A) (k : A → eth B) : eth B := λ n,
  let~ (r, n) := m n in match r with Ok a => k a n | Err e => Ret (Err e, n) end.
(** The result of a request as a value. *)
Definition etry {A} (m : eth A) : eth (result eth_err A) := λ n, let~ (r, n) := m n in Ret (Ok r, n).
Definition on_chain {A} (f : Blockchain → outcome (A * Blockchain)) : eth A := λ n,
  let~ (a, b) := f (n_chain n) in Ret (Ok a, set_chain b n).
Definition on_trie {A} (f : State → outcome (A * State)) : eth A := λ n,
  let~ (a, s) := f (n_state n) in Ret (Ok a, set_trie s n).
Definition read_chain {A} (f : Blockchain → A) : eth A := λ n, Ret (Ok (f (n_chain n)), n).

Notation "'let@' x ':=' m 'in' k" := (ebind m (λ x, k)) (at level 200, x pattern at level 100, m at level 100, k at level 200).

Definition chain_block (f : Blockchain → outcome (option Block * bool * Blockchain)) : eth (option Block) :=
  on_chain (λ b, let~ (block, ok, b) := f b in Ret (if ok : bool then block else None, b)).
Definition ByHash (hash : Hash) (full : bool) : eth (option Block) := chain_block (GetBlockByHash HeaderHash hash full).
Definition ByNumber (n : Z) (full : bool) : eth (option Block) := chain_block (GetBlockByNumber HeaderHash n full).
Definition HeaderBy (n : Z) : eth (option Header) := on_chain (λ b, Ret (GetHeaderByNumber HeaderHash n b)).
Definition numeric (number : BlockNumber) : eth Z :=
  let@ latest := read_chain chain_Header in
  match GetNumericBlockNumber number latest with Ok n => eret n | Err e => efail (EJson e) end.

(** ** What the hub reads of the state ([server.go]) *)

Definition getAccountImpl (root : Hash) (addr : Address) : eth Account :=
  let@ snap := on_trie (NewSnapshotAt root) in
  match snap with
  | Err _ => efail ERoot
  | Ok trie =>
      let@ account := on_trie (λ s, let~ (a, _) := snapshot_GetAccount addr trie s in Ret (a, s)) in
      match account with
      | None => efail EStateNotFound
      | Some None => efail EAccount
      | Some (Some a) => eret a
      end
  end.

(** The nonce and the balance of an account. *)
Definition hub_GetAccount (root : Hash) (addr : Address) : eth (Z * Z) :=
  let@ acct := getAccountImpl root addr in eret (acc_Nonce acct, acc_Balance acct).

Definition hub_GetStorage (stateRoot : Hash) (addr : Address) (slot : Hash) : eth bytes :=
  let@ account := getAccountImpl stateRoot addr in
  let@ snap := on_trie (NewSnapshotAt stateRoot) in
  match snap with
  | Err _ => efail ERoot
  | Ok _ => let@ res := on_trie (snapshot_GetStorage (acc_Root account) slot) in eret (HashBytes res)
  end.

Definition hub_GetCode (root : Hash) (addr : Address) : eth bytes :=
  let@ account := getAccountImpl root addr in
  let@ code := on_trie (λ s, Ret (state_GetCode (acc_CodeHash account) s, s)) in
  match code with Some code => eret code | None => efail ENoCode end.

(** ** Helpers ([helper.go]) *)

(** The current header may be nil. *)
Definition GetBlockHeader (number : BlockNumber) : eth (option Header) :=
  if (number =? PendingBlockNumber) || (number =? LatestBlockNumber) then read_chain chain_Header
  else if number =? EarliestBlockNumber then
    let@ header := HeaderBy 0 in
    match header with Some h => eret (Some h) | None => efail (EJson ErrFailedFetchGenesis) end
  else
    let@ header := HeaderBy (u64 number) in
    match header with Some h => eret (Some h) | None => efail (EJson ErrFetchHeader) end.

Definition GetTxAndBlockByTxHash (txHash : Hash) : eth (option (Transaction * Block)) :=
  let@ blockHash := read_chain (λ b, db_txLookup (bc_db b) !! txHash) in
  match blockHash with
  | None => eret None
  | Some blockHash =>
      let@ block := ByHash blockHash true in
      match block with
      | None => eret None
      | Some block => eret ((λ p, (p.2, block)) <$> list_find (λ t, tx_Hash t = txHash) (bk_Transactions block))
      end
  end.

Definition GetHeaderFromBlockNumberOrHash (bnh : BlockNumberOrHash) : eth (option Header) :=
  match bnh_BlockNumber bnh, bnh_BlockHash bnh with
  | Some number, _ => GetBlockHeader number
  | None, Some hash =>
      let@ block := ByHash hash false in
      match block with Some block => eret (Some (bk_Header block)) | None => efail (EJson ErrBlockByHash) end
  | None, None => GetBlockHeader LatestBlockNumber
  end.

(** A header that is dereferenced. *)
Definition deref {A} (a : option A) : eth A := match a with Some a => eret a | None => epanic end.

Definition GetNextNonce (address : Address) (number : BlockNumber) : eth Z :=
  if number =? PendingBlockNumber then λ n, Ret (Ok (pool_GetNonce address (n_pool n)), n)
  else
    let@ header := GetBlockHeader number in
    let@ header := deref header in
    let@ acc := etry (hub_GetAccount (hd_StateRoot header) address) in
    match acc with
    | Err EStateNotFound => eret 0
    | Err e => efail e
    | Ok (nonce, _) => eret nonce
    end.

Definition DecodeTxn (arg : txnArgs) : eth Transaction :=
  let@ (from, nonce) :=
    match arg_From arg, arg_Nonce arg with
    | None, _ => eret (ZeroAddress, 0)
    | Some from, Some nonce => eret (from, nonce)
    | Some from, None => let@ nonce := GetNextNonce from LatestBlockNumber in eret (from, nonce)
    end in
  let input := match arg_Data arg with Some d => Some d | None => arg_Input arg end in
  match arg_To arg, input with
  | None, None => efail (EJson ErrNoDataInContractCreation)
  | to, _ =>
      eret (ComputeHash (mkTransaction nonce (SetBytes (default [] (arg_GasPrice arg))) (default 0 (arg_Gas arg)) to
              (SetBytes (default [] (arg_Value arg))) (default [] input) None None None ZeroHash from))
  end.

(** ** Blocks and transactions *)

Definition eth_GetBlockByNumber (number : BlockNumber) (fullTx : bool) : eth (option json_block) :=
  let@ num := numeric number in
  let@ block := ByNumber num true in
  match block with
  | None => eret None
  | Some block => λ n, let~ b := toBlock block fullTx in Ret (Ok (Some b), n)
  end.

Definition eth_GetBlockByHash (hash : Hash) (fullTx : bool) : eth (option json_block) :=
  let@ block := ByHash hash true in
  match block with
  | None => eret None
  | Some block => λ n, let~ b := toBlock block fullTx in Ret (Ok (Some b), n)
  end.

Definition eth_GetBlockTransactionCountByNumber (number : BlockNumber) : eth (option Z) :=
  let@ num := numeric number in
  let@ block := ByNumber num true in
  eret ((λ block, Z.of_nat (length (bk_Transactions block))) <$> block).

Definition eth_BlockNumber : eth Z :=
  let@ h := read_chain chain_Header in
  match h with None => efail (EJson ErrHeaderNotFound) | Some h => eret (hd_Number h) end.

Definition eth_SendRawTransaction (buf : bytes) : eth bytes :=
  match tx_UnmarshalRLP buf with
  | None => efail ERlp
  | Some tx =>
      let tx := ComputeHash tx in
      λ n, let~ (err, p) := pool_AddTx tx (n_pool n) in
           Ret (match err with Some e => Err (EPool e) | None => Ok (hash_String (tx_Hash tx)) end, set_pool p n)
  end.

Definition lift {A} (o : outcome A) : eth A := λ n, let~ a := o in Ret (Ok a, n).

Definition findSealedTx (hash : Hash) : eth (option json_transaction) :=
  let@ blockHash := read_chain (λ b, db_txLookup (bc_db b) !! hash) in
  match blockHash with
  | None => eret None
  | Some blockHash =>
      let@ block := ByHash blockHash true in
      match block with
      | None => eret None
      | Some block =>
          match list_find (λ t, tx_Hash t = hash) (bk_Transactions block) with
          | None => eret None
          | Some (idx, txn) =>
              let@ t := lift (toTransaction txn (Some (hd_Number (bk_Header block))) (Some (hd_Hash (bk_Header block))) (Some idx)) in
              eret (Some t)
          end
      end
  end.

Definition eth_GetTransactionByHash (hash : Hash) : eth (option json_transaction) :=
  let@ sealed := findSealedTx hash in
  match sealed with
  | Some t => eret (Some t)
  | None => λ n,
      match pool_GetPendingTx hash (n_pool n) with
      | Some t => lift (let~ t := toPendingTransaction t in Ret (Some t)) n
      | None => eret None n
      end
  end.

(** The loop over the logs shadows the index of the transaction. *)
Definition receipt_json_log (block : Block) (txn : Transaction) (indx : nat) (elem : Log) : json_Log :=
  mkJsonLog (log_Address elem) (log_Topics elem) (log_Data elem) (hd_Number (bk_Header block)) (tx_Hash txn) (Z.of_nat indx)
    (hd_Hash (bk_Header block)) (Z.of_nat indx) false.

Definition eth_GetTransactionReceipt (hash : Hash) : eth (option json_receipt) :=
  let@ blockHash := read_chain (λ b, db_txLookup (bc_db b) !! hash) in
  match blockHash with
  | None => eret None
  | Some blockHash =>
      let@ block := ByHash blockHash true in
      match block with
      | None => eret None
      | Some block =>
          let@ receipts := read_chain (λ b, db_receipts (bc_db b) !! blockHash) in
          match receipts with
          | None | Some [] => eret None
          | Some receipts =>
              match list_find (λ t, tx_Hash t = hash) (bk_Transactions block) with
              | None => eret None
              | Some (indx, txn) =>
                  let@ raw := deref (receipts !! indx) in
                  let@ status := deref (rc_Status raw) in
                  eret (Some (mkJsonReceipt (rc_Root raw) (rc_CumulativeGasUsed raw) (rc_LogsBloom raw)
                    (imap (receipt_json_log block txn) (rc_Logs raw)) status (tx_Hash txn) (Z.of_nat indx) (hd_Hash (bk_Header block))
                    (hd_Number (bk_Header block)) (rc_GasUsed raw) (rc_ContractAddress raw) (tx_From txn) (tx_To txn)))
              end
          end
      end
  end.

(** ** State *)

Definition eth_GetBalance (address : Address) (filter : BlockNumberOrHash) : eth Z :=
  let@ header := GetHeaderFromBlockNumberOrHash filter in
  let@ header := deref header in
  let@ acc := etry (hub_GetAccount (hd_StateRoot header) address) in
  match acc with
  | Err EStateNotFound => eret 0
  | Err e => efail e
  | Ok (_, balance) => eret balance
  end.

Definition eth_GetTransactionCount (address : Address) (filter : BlockNumberOrHash) : eth Z :=
  let@ number :=
    match bnh_BlockNumber filter, bnh_BlockHash filter with
    | Some number, _ => eret number
    | None, None => eret LatestBlockNumber
    | None, Some _ =>
        let@ header := GetHeaderFromBlockNumberOrHash filter in
        let@ header := deref header in
        eret (s64 (hd_Number header))
    end in
  let@ nonce := etry (GetNextNonce address number) in
  match nonce with
  | Err EStateNotFound => eret 0
  | Err e => efail e
  | Ok nonce => eret nonce
  end.

(** The code, or the text [0x]. *)
Definition eth_GetCode (address : Address) (filter : BlockNumberOrHash) : eth bytes :=
  let@ header := GetHeaderFromBlockNumberOrHash filter in
  let@ header := deref header in
  let@ code := etry (hub_GetCode (hd_StateRoot header) address) in
  match code with
  | Err EStateNotFound => eret []
  | Err e => efail e
  | Ok code => eret code
  end.

(** What the store returns is parsed as RLP. *)
Definition eth_GetStorageAt (address : Address) (index : Hash) (filter : BlockNumberOrHash) : eth bytes :=
  let@ header := GetHeaderFromBlockNumberOrHash filter in
  let@ header := deref header in
  let@ result := etry (hub_GetStorage (hd_StateRoot header) address index) in
  match result with
  | Err EStateNotFound => eret (HashBytes ZeroHash)
  | Err e => efail e
  | Ok result =>
      match Parse result ≫= GetBytes with
      | None => eret (HashBytes ZeroHash)
      | Some data => eret (HashBytes (BytesToHash data))
      end
  end.

Definition eth_GasPrice (priceLimit : Z) : eth Z :=
  let@ price := read_chain GetAvgGasPrice in
  eret (Max priceLimit (Uint64 price)).

(** ** Execution *)

Variable ApplyTxn : Header → Transaction → node → outcome (result txn_err ExecutionResult * node).
Definition apply_txn (header : Header) (txn : Transaction) : eth (result txn_err ExecutionResult) := λ n,
  let~ (r, n) := ApplyTxn header txn n in Ret (Ok r, n).

Definition eth_Call (arg : txnArgs) (filter : BlockNumberOrHash) : eth bytes :=
  let@ header := GetHeaderFromBlockNumberOrHash filter in
  let@ transaction := DecodeTxn arg in
  let@ header := deref header in
  let transaction := if tx_Gas transaction =? 0 then set_Gas (hd_GasLimit header) transaction else transaction in
  let@ result := apply_txn header transaction in
  match result with
  | Err e => efail (ETest (TestApply e))
  | Ok result => match ExecErr result with Some e => efail (ETest (TestVm e)) | None => eret (ReturnValue result) end
  end.

Definition isGasApplyError (e : txn_err) : bool := errors_Is_intrinsic e.
Definition isGasEVMError (e : vmError) : bool := bool_decide (e = ErrOutOfGas) || bool_decide (e = ErrCodeStoreOutOfGas).
Definition isEVMRevertError (e : test_err) : bool := match e with TestVm e => bool_decide (e = ErrExecutionReverted) | TestApply _ => false end.

(** Whether the transaction failed, and the error. *)
Definition testTransaction (header : Header) (transaction : Transaction) (gas : Z) (shouldOmitErr : bool) : eth (bool * option test_err) :=
  let@ result := apply_txn header (set_Gas gas transaction) in
  match result with
  | Err applyErr => if isGasApplyError applyErr && shouldOmitErr then eret (true, None) else eret (true, Some (TestApply applyErr))
  | Ok result =>
      match ExecErr result with
      | Some e => if isGasEVMError e && shouldOmitErr then eret (true, None) else eret (true, Some (TestVm e))
      | None => eret (false, None)
      end
  end.

Fixpoint estimate_loop (fuel : nat) (header : Header) (transaction : Transaction) (lowEnd highEnd : Z) : eth Z :=
  match fuel with
  | O => λ _, NoFuel
  | S fuel =>
      if lowEnd <? highEnd then
        let mid := add64 lowEnd highEnd / 2 in
        let@ (failed, testErr) := testTransaction header transaction mid true in
        match testErr with
        | Some e =>
            if isEVMRevertError e then
              if failed : bool then estimate_loop fuel header transaction (add64 mid 1) highEnd else estimate_loop fuel header transaction lowEnd mid
            else efail (ETest e)
        | None => if failed : bool then estimate_loop fuel header transaction (add64 mid 1) highEnd else estimate_loop fuel header transaction lowEnd mid
        end
      else eret highEnd
  end.

(** The gas that the sender can pay for, when it is less. *)
Definition gas_ceiling (highEnd gasPrice : Z) (availableBalance : option Z) : Z :=
  match availableBalance with
  | Some available =>
      if negb (BitLen gasPrice =? 0) && (available >? 0) then
        let gasAllowance := available / gasPrice in
        if IsUint64 gasAllowance && (highEnd >? Uint64 gasAllowance) then Uint64 gasAllowance else highEnd
      else highEnd
  | None => highEnd
  end.

Definition available_balance (header : Header) (transaction : Transaction) : eth (option Z) :=
  if tx_From transaction =? ZeroAddress then eret None
  else
    let@ acc := etry (hub_GetAccount (hd_StateRoot header) (tx_From transaction)) in
    let@ accountBalance :=
      match acc with
      | Err EStateNotFound => eret 0
      | Err e => efail e
      | Ok (_, balance) => eret balance
      end in
    if tx_Value transaction >? accountBalance then efail EInsufficientFunds
    else eret (Some (accountBalance - tx_Value transaction)).

(** The loop halves its range. *)
Definition estimate_fuel : nat := 66.

Definition eth_EstimateGas (forks : Forks) (arg : txnArgs) (rawNum : option BlockNumber) : eth Z :=
  let@ transaction := DecodeTxn arg in
  let number := default LatestBlockNumber rawNum in
  let@ header := GetBlockHeader number in
  let forksInTime := At forks (u64 number) in
  let standardGas := if IsContractCreation transaction && Homestead forksInTime then TxGasContractCreation else TxGas in
  let@ header := deref header in
  let highEnd := if negb (tx_Gas transaction =? 0) && (tx_Gas transaction >=? standardGas) then tx_Gas transaction else hd_GasLimit header in
  let@ availableBalance := available_balance header transaction in
  let highEnd := gas_ceiling highEnd (tx_GasPrice transaction) availableBalance in
  let@ highEnd := estimate_loop estimate_fuel header transaction standardGas highEnd in
  let@ (failed, err) := testTransaction header transaction highEnd false in
  if failed : bool then efail (EHighest highEnd err) else eret highEnd.
End endpoint.

Notation "'let@' x ':=' m 'in' k" := (ebind m (λ x, k)) (at level 200, x pattern at level 100, m at level 100, k at level 200).

(** ** [ApplyTxn] of the hub *)

Section hub.
Context `{External} `{RlpReader} `{Secp256k1} `{PrecompiledCrypto} `{GoRuntime} `{MachinePool} `{LRU} `{ChainDeps} `{EthPool} `{FinMap Z RT}.
(** The executor over the states and the chain of the node. *)
Variable exec : node → Executor (RT:=RT).

Definition hub_ApplyTxn (header : Header) (txn : Transaction) (n : node) : outcome (result txn_err ExecutionResult * node) :=
  let~ (r, b) := call_dep (GetBlockCreator header) (n_chain n) in
  let n := set_chain b n in
  match r with
  | Err _ => Ret (Err TxnCreator, n)
  | Ok blockCreator =>
      match BeginTxn (exec n) (hd_StateRoot header) header blockCreator with
      | Err e => Ret (Err (TxnOther e), n)
      | Ok transition =>
          let~ (res, _) := Apply txn transition in
          Ret (match res with Ok result => Ok result | Err e => Err (TxnApply e) end, n)
      end
  end.
End hub.

(** ** The endpoints of the pool ([txpool_endpoint.go]) *)

From S2P Require Import GoHeap TxQueue TxAccount TxPool.

Record txpoolTransaction := mkPoolTx {
  pt_Nonce : Z;
  pt_GasPrice : Z;
  pt_Gas : Z;
  pt_To : option Address;
  pt_Value : Z;
  pt_Input : bytes;
  pt_Hash : Hash;
  pt_From : Address;
  pt_BlockHash : Hash;
  pt_BlockNumber : option Z;
  pt_TxIndex : option Z;
}.

Definition toTxPoolTransaction (t : Transaction) : txpoolTransaction :=
  mkPoolTx (tx_Nonce t) (tx_GasPrice t) (tx_Gas t) (tx_To t) (tx_Value t) (tx_Input t) (tx_Hash t) (tx_From t) ZeroHash None None.

Definition by_nonce (txs : list Transaction) : gmap Z txpoolTransaction :=
  foldl (λ m tx, <[tx_Nonce tx := toTxPoolTransaction tx]> m) ∅ txs.

Section pool.
Context `{External}.

(** Pending and queued transactions by sender and nonce. *)
Definition pool_Content (p : TxPool) : gmap Address (gmap Z txpoolTransaction) * gmap Address (gmap Z txpoolTransaction) :=
  let '(pendingTxs, queuedTxs) := GetTxs true p in (by_nonce <$> pendingTxs, by_nonce <$> queuedTxs).

(** The format [%d wei + %d gas x %d wei]. *)
Definition describe (tx : Transaction) : bytes :=
  big_Text (tx_Value tx) 10 ++ str " wei + " ++ FormatUint (tx_Gas tx) 10 ++ str " gas x " ++ big_Text (tx_GasPrice tx) 10 ++ str " wei".

Definition described (txs : gmap Address (list Transaction)) : gmap bytes (gmap bytes bytes) :=
  foldr (λ '(addr, txs) m, <[checksumEncode addr := foldl (λ m tx, <[FormatUint (tx_Nonce tx) 10 := describe tx]> m) ∅ txs]> m) ∅ (map_to_list txs).

Definition pool_Inspect (p : TxPool) : gmap bytes (gmap bytes bytes) * gmap bytes (gmap bytes bytes) * (Z * Z) :=
  let '(pendingTxs, queuedTxs) := GetTxs true p in (described pendingTxs, described queuedTxs, GetCapacity p).

Definition pool_Status (p : TxPool) : Z * Z :=
  let '(pendingTxs, queuedTxs) := GetTxs true p in
  (u64 (mapsum (λ l, Z.of_nat (length l)) pendingTxs), u64 (mapsum (λ l, Z.of_nat (length l)) queuedTxs)).
End pool.
