(* ===== verification/EthEndpointSpec.v ===== *)
(** What the endpoints answer: the estimate of gas is enough and one less is not;
    blocks, transactions and receipts are those of the ledger; balances and nonces
    are those that the block left; the endpoints of the pool show what it holds. *)
From stdpp Require Import strings.
From S2P Require Import Prelude Types Runtime Crypto EvmState EvmLogic EvmMeta Intrinsic StateTxn Bloom Signer Precompiled Executor ExecutorInv ExecutorSpec ExecutorBlock Rlp RlpTypes ChainStorage Trie BuildRoot TrieState StateTxnSpec TrieHash TrieMap TrieStateSpec StateCommit Blockchain BlockchainSpec Text JsonTypes EthEndpoint.

Section estimate.
Context `{External} `{RlpReader} `{LRU} `{ChainDeps} `{EthPool}.
Variable HeaderHash : Header → Hash.
Variable ApplyTxn : Header → Transaction → node → outcome (result txn_err ExecutionResult * node).
Variable header : Header.
Variable t : Transaction.

(** On the nodes [P], among which an execution stays, what the transaction does with
    a given gas is determined. *)
Variable P : node → Prop.
Variable runs : Z → result txn_err ExecutionResult.
Hypothesis ApplyTxn_runs : ∀ g n, gas_ok g → P n → ∃ n', ApplyTxn header (set_Gas g t) n = Ret (runs g, n') ∧ P n'.

(** The transaction succeeds with the gas; it fails because of it, or reverts. *)
Definition enough (g : Z) : bool := match runs g with Ok r => bool_decide (ExecErr r = None) | Err _ => false end.
Definition short (g : Z) : bool :=
  match runs g with
  | Ok r => match ExecErr r with Some e => isGasEVMError e || bool_decide (e = ErrExecutionReverted) | None => false end
  | Err e => isGasApplyError e
  end.

(** What a test of a gas returns. *)
Definition verdict (g : Z) (omit : bool) : bool * option test_err :=
  match runs g with
  | Err e => (true, if isGasApplyError e && omit then None else Some (TestApply e))
  | Ok r => match ExecErr r with Some e => (true, if isGasEVMError e && omit then None else Some (TestVm e)) | None => (false, None) end
  end.

Lemma testTransaction_ok g omit n : gas_ok g → P n → ∃ n', testTransaction ApplyTxn header t g omit n = Ret (Ok (verdict g omit), n') ∧ P n'.
Proof.
  intros Hg Hn. destruct (ApplyTxn_runs g n Hg Hn) as (n' & E & Hn'). exists n'. split; [|done].
  unfold testTransaction, ebind, apply_txn, verdict. rewrite E. cbn [obind]. destruct (runs g) as [r|e].
  - destruct (ExecErr r) as [e|]; [|done]. by destruct (isGasEVMError e && omit).
  - by destruct (isGasApplyError e && omit).
Qed.

Lemma verdict_cases g :
  (enough g = true ∧ verdict g true = (false, None)) ∨
  (enough g = false ∧ short g = true ∧ ∃ e, verdict g true = (true, e) ∧ ∀ x, e = Some x → isEVMRevertError x = true) ∨
  (enough g = false ∧ short g = false ∧ ∃ e, verdict g true = (true, Some e) ∧ isEVMRevertError e = false).
Proof.
  unfold enough, short, verdict. destruct (runs g) as [r|e].
  - destruct (ExecErr r) as [e|]; [right|by left]. rewrite bool_decide_false by done. destruct (isGasEVMError e) eqn:Eg; cbn [andb orb].
    + left. split; [done|]. split; [done|]. by exists None.
    + case_bool_decide as Er; [left|right]; (split; [done|]; split; [done|]; eexists; split; [done|]).
      * intros x [= <-]. cbn. by apply bool_decide_true.
      * cbn. by apply bool_decide_false.
  - right. destruct (isGasApplyError e) eqn:Eg; cbn [andb]; [left|right]; (split; [done|]; split; [done|]); eexists; split; done.
Qed.

(** The search: it ends, and what it finds is between the bounds; the gas just
    below was tried and was not enough. *)
Lemma estimate_loop_ok fuel low high n :
  P n → 0 ≤ low → 0 ≤ high → 2 * high < M64 → (0 < fuel)%nat → high - low < 2 ^ Z.of_nat (pred fuel) →
  ∃ r n', estimate_loop ApplyTxn fuel header t low high n = Ret (r, n') ∧ P n' ∧
    match r with
    | Ok g => (if low <=? high then low ≤ g ≤ high else g = high) ∧ (low < g → enough (g - 1) = false) ∧ (g = high ∨ enough g = true)
    | Err e => ∃ g, low ≤ g < high ∧ enough g = false ∧ short g = false
    end.
Proof.
  revert low high n. induction fuel as [|fuel IH]; intros low high n Hn Hl Hh Hsum Hpos Hsize; [lia|]. cbn [estimate_loop].
  destruct (Z.ltb_spec low high) as [Hlt|Hge].
  2: { eexists _, n. split; [done|]. split; [done|]. cbn. split; [case_match; lia|]. split; [lia|by left]. }
  assert (add64 low high = low + high) as -> by (unfold add64; rewrite u64_small; unfold is_u64; lia). set (mid := (low + high) / 2).
  assert (low ≤ mid < high) as Hmid by (unfold mid; split; [apply Z.div_le_lower_bound|apply Z.div_lt_upper_bound]; lia).
  assert (2 * mid ≤ low + high < 2 * mid + 2) as Hm2 by (unfold mid; pose proof (Z.div_mod (low + high) 2); pose proof (Z.mod_pos_bound (low + high) 2); lia).
  destruct (testTransaction_ok mid true n ltac:(unfold gas_ok, M64 in *; lia) Hn) as (n1 & E1 & Hn1).
  destruct fuel as [|fuel]; [cbn in Hsize; lia|].
  assert (2 ^ Z.of_nat (pred (S (S fuel))) = 2 * 2 ^ Z.of_nat fuel) as Hpow by (cbn [pred]; rewrite Nat2Z.inj_succ, Z.pow_succ_r; lia).
  assert (Hup : ∃ r n', estimate_loop ApplyTxn (S fuel) header t (add64 mid 1) high n1 = Ret (r, n') ∧ P n' ∧
    match r with
    | Ok g => (mid < g ≤ high) ∧ (mid + 1 < g → enough (g - 1) = false) ∧ (g = high ∨ enough g = true)
    | Err e => ∃ g, low ≤ g < high ∧ enough g = false ∧ short g = false
    end).
  { unfold add64. rewrite u64_small by (unfold is_u64; lia).
    destruct (IH (mid + 1) high n1 Hn1) as (r & n' & E & Hn' & Hr); [lia|lia|lia|lia|cbn [pred]; lia|]. exists r, n'. split; [done|]. split; [done|].
    destruct r as [g|e]; [|destruct Hr as (g & ? & ?); exists g; split; [lia|done]].
    destruct (Z.leb_spec (mid + 1) high); [|lia]. destruct Hr as (? & ? & ?). split; [lia|done]. }
  destruct (verdict_cases mid) as [[Hen Ev]|[(Hen & _ & e & Ev & He)|(Hen & Hsh & e & Ev & He)]].
  - unfold ebind at 1. rewrite E1, Ev. cbn [obind].
    destruct (IH low mid n1 Hn1) as (r & n' & E & Hn' & Hr); [lia|lia|lia|lia|cbn [pred]; lia|]. exists r, n'. split; [exact E|]. split; [done|].
    destruct r as [g|e]; [|destruct Hr as (g & ? & ?); exists g; split; [lia|done]].
    destruct (Z.leb_spec low mid); [|lia]. destruct (Z.leb_spec low high); [|lia]. destruct Hr as (? & ? & [->|?]); split_and!; try done; try lia; by right.
  - unfold ebind at 1. rewrite E1, Ev. cbn beta iota delta [obind]. destruct Hup as (r & n' & E & Hn' & Hr). exists r, n'.
    split; [|split; [done|]].
    + destruct e as [x|]; [rewrite (He x eq_refl)|]; exact E.
    + destruct r as [g|]; [|done]. destruct (Z.leb_spec low high); [|lia]. destruct Hr as (? & Hb & Hg). split_and!; [lia|lia| |done].
      intros _. destruct (Z.eq_dec (mid + 1) g) as [<-|]; [by replace (mid + 1 - 1) with mid by lia|apply Hb; lia].
  - unfold ebind at 1. rewrite E1, Ev. cbn beta iota delta [obind]. rewrite He. eexists _, n1. split; [done|]. split; [done|]. exists mid. split; [lia|done].
Qed.
(** The bounds between which the gas is searched. *)
Definition standard_gas (forks : Forks) (number : BlockNumber) : Z :=
  if IsContractCreation t && Homestead (At forks (u64 number)) then TxGasContractCreation else TxGas.
Definition highest_gas (standard : Z) (available : option Z) : Z :=
  gas_ceiling (if negb (tx_Gas t =? 0) && (tx_Gas t >=? standard) then tx_Gas t else hd_GasLimit header) (tx_GasPrice t) available.

(** What a request made: the node moved on, and the answer. *)
Definition answers {A} (m : eth A) (n : node) (a : A) (n' : node) : Prop := m n = Ret (Ok a, n').

Lemma standard_gas_range forks number : 0 ≤ standard_gas forks number.
Proof. unfold standard_gas. by case_match. Qed.

End estimate.

(** ** Blocks, transactions and receipts *)

Section ledger.
Context `{External} `{RlpReader} `{LRULaws} `{ChainDeps} `{EthPool}.
Variable HeaderHash : Header → Hash.
Variable genesis_config : Genesis.
#[local] Notation implements := (implements HeaderHash genesis_config).

(** A request on a node that holds a ledger: the answer, and only caches change. *)
Definition serves {A} (m : eth A) (n : node) (l : list entry) (r : result eth_err A) : Prop :=
  ∃ n', m n = Ret (r, n') ∧ implements (n_chain n') l ∧ n_state n' = n_state n ∧ n_pool n' = n_pool n.

Lemma serves_ret {A} (a : A) n l : implements (n_chain n) l → serves (eret a) n l (Ok a).
Proof. intros Hi. by exists n. Qed.

Lemma serves_fail {A} e n l : implements (n_chain n) l → serves (A:=A) (efail e) n l (Err e).
Proof. intros Hi. by exists n. Qed.

Lemma serves_bind {A B} (m : eth A) (k : A → eth B) n l a r :
  serves m n l (Ok a) → (∀ n', n_pool n' = n_pool n → implements (n_chain n') l → serves (k a) n' l r) → serves (ebind m k) n l r.
Proof.
  intros (n1 & E1 & Hi1 & Hs1 & Hp1) Hk. destruct (Hk n1 Hp1 Hi1) as (n2 & E2 & Hi2 & Hs2 & Hp2). exists n2.
  unfold ebind. rewrite E1. cbn [obind]. split; [done|]. split; [done|]. split; congruence.
Qed.

Lemma serves_bind_err {A B} (m : eth A) (k : A → eth B) n l e : serves m n l (Err e) → serves (ebind m k) n l (Err e).
Proof. intros (n1 & E1 & ?). exists n1. unfold ebind. by rewrite E1. Qed.

Lemma serves_read {A} (f : Blockchain → A) n l : implements (n_chain n) l → serves (read_chain f) n l (Ok (f (n_chain n))).
Proof. intros Hi. by exists n. Qed.

Lemma silent_implements b b' l : implements b l → silent HeaderHash b b' → implements b' l.
Proof. intros Hi Hs. eapply implements_same; [exact Hi|apply Hs|apply Hs]. Qed.

Lemma serves_ByNumber num full n l : implements (n_chain n) l → 0 ≤ num →
  serves (ByNumber HeaderHash num full) n l (Ok ((λ e, if full then e_block e else mkBlock (e_header e) [] []) <$> l !! Z.to_nat num)).
Proof.
  intros Hi Hn. destruct (GetBlockByNumber_ok HeaderHash genesis_config (n_chain n) l num full Hi Hn) as (b' & E & Hs).
  exists (set_chain b' n). unfold ByNumber, chain_block, on_chain. rewrite E. split; [by destruct (l !! Z.to_nat num)|].
  split; [by eapply silent_implements|done].
Qed.

Lemma serves_ByHash i e full n l : implements (n_chain n) l → l !! i = Some e →
  serves (ByHash HeaderHash (e_hash e) full) n l (Ok (Some (if full then e_block e else mkBlock (e_header e) [] []))).
Proof.
  intros Hi Hl. destruct (GetBlockByHash_ok HeaderHash genesis_config (n_chain n) l i e full Hi Hl) as (b' & E & Hs).
  exists (set_chain b' n). unfold ByHash, chain_block, on_chain. rewrite E. split; [done|]. split; [by eapply silent_implements|done].
Qed.

Lemma numeric_range number n l num : implements (n_chain n) l → GetNumericBlockNumber number (chain_Header (n_chain n)) = Ok num → 0 ≤ num.
Proof.
  intros Hi. unfold GetNumericBlockNumber. rewrite (im_header _ _ _ _ Hi).
  destruct (ledger_last _ _ _ (im_ledger _ _ _ _ Hi)) as (e & He & Hl & Hn). rewrite He. apply lookup_lt_Some in Hl.
  cbn [fmap option_fmap option_map]. repeat case_match; intros [= <-]; lia.
Qed.

Lemma serves_numeric number n l : implements (n_chain n) l →
  serves (numeric number) n l (match GetNumericBlockNumber number (chain_Header (n_chain n)) with Ok num => Ok num | Err e => Err (EJson e) end).
Proof. intros Hi. exists n. unfold numeric, ebind, read_chain. cbn [obind]. by case_match. Qed.

Lemma serves_lift {A} (o : outcome A) a n l : implements (n_chain n) l → o = Ret a → serves (lift o) n l (Ok a).
Proof. intros Hi ->. by exists n. Qed.

(** *** Transactions of a block *)

Definition signed (t : Transaction) : Prop := is_Some (tx_V t) ∧ is_Some (tx_R t) ∧ is_Some (tx_S t).

(** The transaction with the place it has. *)
Definition sealed_json (e : entry) (k : nat) (t : Transaction) : json_transaction :=
  mkJsonTx (tx_Nonce t) (tx_GasPrice t) (tx_Gas t) (tx_To t) (tx_Value t) (tx_Input t) (default 0 (tx_V t)) (default 0 (tx_R t))
    (default 0 (tx_S t)) (tx_Hash t) (tx_From t) (Some (e_hash e)) (Some (hd_Number (e_header e))) (Some (Z.of_nat k)).

Lemma toTransaction_sealed e k t : signed t →
  toTransaction t (Some (hd_Number (bk_Header (e_block e)))) (Some (hd_Hash (bk_Header (e_block e)))) (Some k) = Ret (sealed_json e k t).
Proof. intros ([v Ev] & [r Er] & [s Es]). unfold toTransaction, sealed_json. by rewrite Ev, Er, Es. Qed.

Lemma to_transactions_ok e full txs : Forall signed txs → ∀ k,
  to_transactions (e_block e) full k txs =
    Ret (imap (λ j t, if full then FullTransaction (sealed_json e (k + j) t) else TransactionHash (tx_Hash t)) txs).
Proof.
  induction 1 as [|t txs Ht Hts IH]; intros k; [done|]. cbn [to_transactions imap]. rewrite IH, Nat.add_0_r.
  assert (∀ ts, Ret (imap (λ j t, if full then FullTransaction (sealed_json e (S k + j) t) else TransactionHash (tx_Hash t)) ts) =
    Ret (imap ((λ j t, if full then FullTransaction (sealed_json e (k + j) t) else TransactionHash (tx_Hash t)) ∘ S) ts)) as ->.
  { intros ts. f_equal. apply imap_ext. intros j x _. unfold compose. by rewrite Nat.add_succ_r. }
  destruct full; [rewrite toTransaction_sealed by done|]; done.
Qed.

Lemma toBlock_ok e full : Forall signed (e_txs e) → ∃ j, toBlock (e_block e) full = Ret j ∧
  jb_Hash j = e_hash e ∧ jb_Number j = hd_Number (e_header e) ∧ jb_ParentHash j = hd_ParentHash (e_header e) ∧
  jb_StateRoot j = hd_StateRoot (e_header e) ∧
  jb_Transactions j = imap (λ k t, if full then FullTransaction (sealed_json e k t) else TransactionHash (tx_Hash t)) (e_txs e).
Proof.
  intros Hs. unfold toBlock. change (bk_Transactions (e_block e)) with (e_txs e). rewrite to_transactions_ok by done. cbn [obind].
  eexists. split; [done|]. done.
Qed.

(** The receipts of a block are those of its transactions, with their status. *)
Definition receipts_match (e : entry) : Prop :=
  ∀ rs, e_receipts e = Some rs → length rs = length (e_txs e) ∧ Forall (λ r, is_Some (rc_Status r)) rs.

Lemma block_of_tx_found hash l e : block_of_tx hash l = Some e → ∃ i k t, l !! i = Some e ∧ e_txs e !! k = Some t ∧ tx_Hash t = hash ∧
  list_find (λ t, tx_Hash t = hash) (e_txs e) = Some (k, t).
Proof.
  unfold block_of_tx. intros E. apply last_Some_elem_of in E. apply list_elem_of_filter in E as [(x & Ex & Hx)%list_elem_of_fmap [i Hl]%list_elem_of_lookup].
  destruct (list_find_elem_of (λ t, tx_Hash t = hash) (e_txs e) x Hx (eq_sym Ex)) as [[k t] Hf].
  exists i, k, t. apply list_find_Some in Hf as Hf'. destruct Hf' as (? & ? & _). done.
Qed.

Lemma serves_sealed hash e i k t n l :
  implements (n_chain n) l → block_of_tx hash l = Some e → l !! i = Some e → list_find (λ t, tx_Hash t = hash) (e_txs e) = Some (k, t) →
  signed t → serves (eth_GetTransactionByHash HeaderHash hash) n l (Ok (Some (sealed_json e k t))).
Proof.
  intros Hi Eb Hl Hf Hs. unfold eth_GetTransactionByHash. apply (serves_bind _ _ _ _ (Some (sealed_json e k t))); [|intros; by apply serves_ret].
  unfold findSealedTx. eapply serves_bind; [by apply serves_read|]. intros n1 Hp1 Hi1. rewrite (da_txLookup _ _ (im_db _ _ _ _ Hi)), Eb. cbn [fmap option_fmap option_map].
  eapply serves_bind; [by eapply serves_ByHash|]. intros n2 Hp2 Hi2. cbn beta iota. change (bk_Transactions (e_block e)) with (e_txs e). rewrite Hf.
  eapply serves_bind; [apply serves_lift; [done|by apply toTransaction_sealed]|]. intros n3 Hp3 Hi3. by apply serves_ret.
Qed.

Lemma serves_unsealed hash n l : implements (n_chain n) l → block_of_tx hash l = None → serves (findSealedTx HeaderHash hash) n l (Ok None).
Proof.
  intros Hi Eb. unfold findSealedTx. eapply serves_bind; [by apply serves_read|]. intros n1 Hp1 Hi1.
  rewrite (da_txLookup _ _ (im_db _ _ _ _ Hi)), Eb. by apply serves_ret.
Qed.

(** The receipt of the transaction [t], the [k]-th of the block of [e]. *)
Definition sealed_receipt (e : entry) (k : nat) (t : Transaction) (r : Receipt) (status : Z) : json_receipt :=
  mkJsonReceipt (rc_Root r) (rc_CumulativeGasUsed r) (rc_LogsBloom r) (imap (receipt_json_log (e_block e) t) (rc_Logs r)) status
    (tx_Hash t) (Z.of_nat k) (e_hash e) (hd_Number (e_header e)) (rc_GasUsed r) (rc_ContractAddress r) (tx_From t) (tx_To t).

Lemma serves_receipt hash e i k t n l :
  implements (n_chain n) l → block_of_tx hash l = Some e → l !! i = Some e → list_find (λ t, tx_Hash t = hash) (e_txs e) = Some (k, t) →
  receipts_match e →
  match e_receipts e with
  | None => serves (eth_GetTransactionReceipt HeaderHash hash) n l (Ok None)
  | Some rs => ∃ r status, rs !! k = Some r ∧ rc_Status r = Some status ∧
      serves (eth_GetTransactionReceipt HeaderHash hash) n l (Ok (Some (sealed_receipt e k t r status)))
  end.
Proof.
  intros Hi Eb Hl Hf Hm. pose proof (im_db _ _ _ _ Hi) as Hdb.
  assert (∀ n', implements (n_chain n') l → db_receipts (bc_db (n_chain n')) !! e_hash e = e_receipts e) as Hrc.
  { intros n' Hi'. rewrite (da_receipts _ _ (im_db _ _ _ _ Hi')), (by_hash_lookup _ i e) by (done || apply Hi). done. }
  assert (∀ x, (∀ n', implements (n_chain n') l → serves (match e_receipts e with
      | None | Some [] => eret None
      | Some receipts => match list_find (λ t, tx_Hash t = hash) (e_txs e) with
          | None => eret None
          | Some (indx, txn) => let@ raw := deref (receipts !! indx) in let@ status := deref (rc_Status raw) in eret (Some (sealed_receipt e indx txn raw status)) end
      end) n' l (Ok x)) → serves (eth_GetTransactionReceipt HeaderHash hash) n l (Ok x)) as Hgo.
  { intros x Hx. unfold eth_GetTransactionReceipt. eapply serves_bind; [by apply serves_read|]. intros n1 Hp1 Hi1.
    rewrite (da_txLookup _ _ Hdb), Eb. cbn [fmap option_fmap option_map]. eapply serves_bind; [by eapply serves_ByHash|]. intros n2 Hp2 Hi2. cbn beta iota.
    eapply serves_bind; [by apply serves_read|]. intros n3 Hp3 Hi3. rewrite Hrc by done. by apply Hx. }
  apply list_find_Some in Hf as Hk. destruct Hk as (Hk & _ & _). apply lookup_lt_Some in Hk.
  destruct (e_receipts e) as [rs|] eqn:Er; [|apply Hgo; intros; by apply serves_ret].
  destruct (Hm rs Er) as [Hlen Hst]. destruct (lookup_lt_is_Some_2 rs k) as [r Hr]; [lia|]. pose proof (Forall_lookup_1 _ _ _ _ Hst Hr) as [status Es].
  exists r, status. split; [done|]. split; [done|]. apply Hgo. intros n' Hi'. destruct rs as [|r0 rs]; [done|]. rewrite Hf.
  eapply serves_bind; [rewrite Hr; by apply serves_ret|]. intros n1 _ Hi1. eapply serves_bind; [rewrite Es; by apply serves_ret|]. intros n2 _ Hi2. by apply serves_ret.
Qed.

(** C15.  The endpoints serve the ledger.  On a node that holds a ledger of signed
    transactions, the block number is that of the head; a block asked for by number
    or by hash is the block of the ledger, with its transactions in order, each in
    full with its place or as a hash, and null above the head; a transaction
    asked for by hash is the first one with that hash in the last block that has it,
    with its place, and its receipt is the stored receipt of the same index; for a
    hash that no block has the answers are the pool's pending transaction and null.
    None of this changes the ledger, the state or the pool. *)
Theorem endpoints_serve_ledger n l :
  implements (n_chain n) l → Forall (λ e, Forall signed (e_txs e)) l → Forall receipts_match l →
  serves eth_BlockNumber n l (Ok (Z.of_nat (length l) - 1)) ∧
  (∀ number full num, GetNumericBlockNumber number (e_header <$> last l) = Ok num →
     ∃ r, serves (eth_GetBlockByNumber HeaderHash number full) n l (Ok r) ∧
       match l !! Z.to_nat num with Some e => ∃ j, r = Some j ∧ toBlock (e_block e) full = Ret j ∧ jb_Hash j = e_hash e ∧
         jb_Transactions j = imap (λ k t, if full then FullTransaction (sealed_json e k t) else TransactionHash (tx_Hash t)) (e_txs e) | None => r = None end) ∧
  (∀ i e full, l !! i = Some e → ∃ j, toBlock (e_block e) full = Ret j ∧ serves (eth_GetBlockByHash HeaderHash (e_hash e) full) n l (Ok (Some j))) ∧
  (∀ hash e, block_of_tx hash l = Some e → ∃ i k t, l !! i = Some e ∧ list_find (λ t, tx_Hash t = hash) (e_txs e) = Some (k, t) ∧
     serves (eth_GetTransactionByHash HeaderHash hash) n l (Ok (Some (sealed_json e k t))) ∧
     match e_receipts e with
     | None => serves (eth_GetTransactionReceipt HeaderHash hash) n l (Ok None)
     | Some rs => ∃ r status, rs !! k = Some r ∧ rc_Status r = Some status ∧
         serves (eth_GetTransactionReceipt HeaderHash hash) n l (Ok (Some (sealed_receipt e k t r status)))
     end) ∧
  (∀ hash, block_of_tx hash l = None →
     serves (eth_GetTransactionReceipt HeaderHash hash) n l (Ok None) ∧
     (pool_GetPendingTx hash (n_pool n) = None → serves (eth_GetTransactionByHash HeaderHash hash) n l (Ok None)) ∧
     (∀ t j, pool_GetPendingTx hash (n_pool n) = Some t → toPendingTransaction t = Ret j →
        serves (eth_GetTransactionByHash HeaderHash hash) n l (Ok (Some j)))).
Proof.
  intros Hi Hsig Hm. pose proof (im_header _ _ _ _ Hi) as Hh. split; [|split; [|split; [|split]]].
  - destruct (ledger_last _ _ _ (im_ledger _ _ _ _ Hi)) as (e & He & _ & Hn). eapply serves_bind; [by apply serves_read|]. intros n' _ Hi'.
    rewrite Hh, He. cbn [fmap option_fmap option_map]. rewrite Hn. by apply serves_ret.
  - intros number full num En. rewrite <- Hh in En. pose proof (numeric_range _ _ _ _ Hi En) as H0'.
    assert (∀ r, (∀ n', implements (n_chain n') l → serves (match l !! Z.to_nat num with None => eret None | Some e => lift (let~ b := toBlock (e_block e) full in Ret (Some b)) end) n' l (Ok r)) →
      serves (eth_GetBlockByNumber HeaderHash number full) n l (Ok r)) as Hgo.
    { intros r Hr. unfold eth_GetBlockByNumber. eapply serves_bind; [rewrite <- (f_equal (λ r, match r with Ok num => Ok num | Err e => Err (EJson e) end) En); by apply serves_numeric|].
      intros n1 _ Hi1. eapply serves_bind; [by apply serves_ByNumber|]. intros n2 _ Hi2. specialize (Hr n2 Hi2).
      destruct (l !! Z.to_nat num) as [e|]; [|exact Hr]. destruct Hr as (n3 & E3 & Hr). exists n3. split; [|exact Hr]. rewrite <- E3. unfold lift. cbn. by destruct (toBlock (e_block e) full). }
    destruct (l !! Z.to_nat num) as [e|] eqn:El; [|exists None; split; [apply Hgo; intros; by apply serves_ret|done]].
    destruct (toBlock_ok e full (Forall_lookup_1 _ _ _ _ Hsig El)) as (j & Ej & Ejh & _ & _ & _ & Ejt). exists (Some j).
    split; [apply Hgo; intros; apply serves_lift; [done|by rewrite Ej]|]. by exists j.
  - intros i e full Hl. destruct (toBlock_ok e full (Forall_lookup_1 _ _ _ _ Hsig Hl)) as (j & Ej & _). exists j. split; [done|].
    unfold eth_GetBlockByHash. eapply serves_bind; [by eapply serves_ByHash|]. intros n1 _ Hi1. exists n1. cbn beta iota. by rewrite Ej.
  - intros hash e Eb. destruct (block_of_tx_found _ _ _ Eb) as (i & k & t & Hl & Hk & _ & Hf). exists i, k, t. split; [done|]. split; [done|].
    split; [|eapply serves_receipt; [done..|exact (Forall_lookup_1 _ _ _ _ Hm Hl)]].
    eapply serves_sealed; [done..|]. exact (Forall_lookup_1 _ _ _ _ (Forall_lookup_1 _ _ _ _ Hsig Hl) Hk).
  - intros hash Eb. split; [|split].
    + unfold eth_GetTransactionReceipt. eapply serves_bind; [by apply serves_read|]. intros n1 _ Hi1. rewrite (da_txLookup _ _ (im_db _ _ _ _ Hi)), Eb. by apply serves_ret.
    + intros Ep. eapply serves_bind; [by apply serves_unsealed|]. intros n1 Hp Hi1. exists n1. cbn beta iota. by rewrite Hp, Ep.
    + intros t j Ep Ej. eapply serves_bind; [by apply serves_unsealed|]. intros n1 Hp Hi1. exists n1. cbn beta iota. rewrite Hp, Ep. unfold lift. by rewrite Ej.
Qed.
End ledger.

(** ** Balances and nonces *)

Section state.
Context `{External} `{RlpReader} `{!RlpLaws} `{LRULaws} `{ChainDeps} `{EthPool} `{FinMap Z RT}.
Variable HeaderHash : Header → Hash.
Variable genesis_config : Genesis.
#[local] Notation implements := (implements HeaderHash genesis_config).
#[local] Notation serves := (serves HeaderHash genesis_config).

(** The block that an argument of a request names; the pending block is not one. *)
Definition asks_for (filter : BlockNumberOrHash) (l : list entry) (e : entry) : Prop :=
  match bnh_BlockNumber filter, bnh_BlockHash filter with
  | Some number, _ => number ≠ PendingBlockNumber ∧ number < 2 ^ 63 ∧
      ∃ num, GetNumericBlockNumber number (e_header <$> last l) = Ok num ∧ l !! Z.to_nat num = Some e
  | None, Some hash => hash = e_hash e ∧ e ∈ l
  | None, None => last l = Some e
  end.

Lemma serves_header number n l e num :
  implements (n_chain n) l → number < 2 ^ 63 → GetNumericBlockNumber number (e_header <$> last l) = Ok num → l !! Z.to_nat num = Some e →
  serves (GetBlockHeader HeaderHash number) n l (Ok (Some (e_header e))).
Proof.
  intros Hi Hlt En El. pose proof (im_header _ _ _ _ Hi) as Hh. unfold GetBlockHeader. unfold GetNumericBlockNumber in En. rewrite orb_comm.
  destruct (ledger_last _ _ _ (im_ledger _ _ _ _ Hi)) as (x & Hx & Hlx & Hnx). rewrite Hx in En, Hh. cbn [fmap option_fmap option_map] in En, Hh.
  assert (∀ k, 0 ≤ k → l !! Z.to_nat k = Some e → serves (HeaderBy HeaderHash k) n l (Ok (Some (e_header e)))) as Hby.
  { intros k Hk Hl. destruct (GetHeaderByNumber_ok HeaderHash k (n_chain n) (im_caches _ _ _ _ Hi)) as (b' & E & Hs).
    exists (set_chain b' n). unfold HeaderBy, on_chain. rewrite E, (header_of_number HeaderHash genesis_config (n_chain n) l k Hi Hk), Hl. split; [done|].
    split; [by eapply silent_implements|done]. }
  destruct (_ || _) eqn:Eo.
  - injection En as <-. rewrite Hnx in El. assert (e = x) as ->.
    { apply (inj Some). rewrite <- Hlx, <- El. f_equal. apply lookup_lt_Some in Hlx. lia. }
    exists n. unfold read_chain. by rewrite Hh.
  - destruct (number =? EarliestBlockNumber).
    + injection En as <-. eapply serves_bind; [by apply Hby|]. intros n1 _ Hi1. by apply serves_ret.
    + destruct (Z.ltb_spec number 0); [done|]. injection En as <-. rewrite u64_small by (unfold is_u64, M64; lia).
      eapply serves_bind; [apply Hby; [lia|done]|]. intros n1 _ Hi1. by apply serves_ret.
Qed.

Lemma latest_number l e : ledger_ok HeaderHash genesis_config l → last l = Some e →
  ∃ num, GetNumericBlockNumber LatestBlockNumber (e_header <$> last l) = Ok num ∧ l !! Z.to_nat num = Some e.
Proof.
  intros Hl He. destruct (ledger_last _ _ _ Hl) as (x & Hx & Hlx & Hn). rewrite Hx in *. simplify_eq. eexists. split; [done|].
  rewrite Hn, <- Hlx. f_equal. apply lookup_lt_Some in Hlx. lia.
Qed.

Lemma serves_filter filter n l e : implements (n_chain n) l → asks_for filter l e →
  serves (GetHeaderFromBlockNumberOrHash HeaderHash filter) n l (Ok (Some (e_header e))).
Proof.
  intros Hi. unfold asks_for, GetHeaderFromBlockNumberOrHash. destruct (bnh_BlockNumber filter) as [number|].
  - intros (_ & Hlt & num & En & El). by eapply serves_header.
  - destruct (bnh_BlockHash filter) as [hash|].
    + intros [-> [i Hl]%list_elem_of_lookup]. eapply serves_bind; [by eapply serves_ByHash|]. intros n1 _ Hi1. by apply serves_ret.
    + intros He. destruct (latest_number _ _ (im_ledger _ _ _ _ Hi) He) as (num & En & El). by eapply serves_header.
Qed.

Lemma snapshot_GetAccount_storage a t s s' : st_storage s = st_storage s' → snapshot_GetAccount a t s = snapshot_GetAccount a t s'.
Proof. unfold snapshot_GetAccount. by intros ->. Qed.

(** What the hub reads of an account. *)
Lemma getAccountImpl_ok root a acc n t' c :
  NewSnapshotAt root (n_state n) = Ret (Ok t', mkState (st_storage (n_state n)) c) → account_at (n_state n) t' a acc →
  ∃ n', getAccountImpl root a n = Ret (match acc with Some x => Ok x | None => Err EStateNotFound end, n') ∧ st_storage (n_state n') = st_storage (n_state n).
Proof.
  intros En [t1 Ea]. exists (set_trie (mkState (st_storage (n_state n)) c) (set_trie (mkState (st_storage (n_state n)) c) n)).
  unfold getAccountImpl, ebind, on_trie. rewrite En. cbn [obind set_trie n_state].
  rewrite snapshot_GetAccount_storage with (s' := n_state n) by done. rewrite Ea. cbn [obind]. by destruct acc.
Qed.

Lemma served_account root a acc n t' c :
  NewSnapshotAt root (n_state n) = Ret (Ok t', mkState (st_storage (n_state n)) c) → account_at (n_state n) t' a acc →
  ∃ n', etry (hub_GetAccount root a) n = Ret (Ok (match acc with Some x => Ok (acc_Nonce x, acc_Balance x) | None => Err EStateNotFound end), n').
Proof.
  intros En Ea. destruct (getAccountImpl_ok root a acc n t' c En Ea) as (n' & E & _). exists n'.
  unfold etry, hub_GetAccount, ebind. rewrite E. by destruct acc.
Qed.

Lemma GetBalance_served filter a acc n l e t' c :
  implements (n_chain n) l → asks_for filter l e →
  NewSnapshotAt (hd_StateRoot (e_header e)) (n_state n) = Ret (Ok t', mkState (st_storage (n_state n)) c) → account_at (n_state n) t' a acc →
  ∃ n', eth_GetBalance HeaderHash a filter n = Ret (Ok (from_option acc_Balance 0 acc), n').
Proof.
  intros Hi Hf En Ea. destruct (serves_filter filter n l e Hi Hf) as (n1 & E1 & Hi1 & Es & _).
  unfold eth_GetBalance, ebind at 1. rewrite E1. cbn [obind]. unfold ebind at 1. cbn [deref eret obind].
  rewrite <- Es in En, Ea. destruct (served_account _ _ _ _ _ _ En Ea) as (n2 & E2). unfold ebind. rewrite E2. exists n2. by destruct acc.
Qed.

Lemma GetNextNonce_served number num a acc n l e t' c :
  implements (n_chain n) l → number ≠ PendingBlockNumber → number < 2 ^ 63 →
  GetNumericBlockNumber number (e_header <$> last l) = Ok num → l !! Z.to_nat num = Some e →
  NewSnapshotAt (hd_StateRoot (e_header e)) (n_state n) = Ret (Ok t', mkState (st_storage (n_state n)) c) → account_at (n_state n) t' a acc →
  ∃ n', GetNextNonce HeaderHash a number n = Ret (Ok (from_option acc_Nonce 0 acc), n').
Proof.
  intros Hi Hp Hlt En El Er Ea. destruct (serves_header number n l e num Hi Hlt En El) as (n1 & E1 & Hi1 & Es & _).
  unfold GetNextNonce. destruct (Z.eqb_spec number PendingBlockNumber); [done|]. unfold ebind at 1. rewrite E1. cbn [obind]. unfold ebind at 1. cbn [deref eret obind].
  rewrite <- Es in Er, Ea. destruct (served_account _ _ _ _ _ _ Er Ea) as (n2 & E2). unfold ebind. rewrite E2. exists n2. by destruct acc.
Qed.

Lemma GetTransactionCount_served filter a acc n l e t' c :
  implements (n_chain n) l → Z.of_nat (length l) < 2 ^ 63 → asks_for filter l e →
  NewSnapshotAt (hd_StateRoot (e_header e)) (n_state n) = Ret (Ok t', mkState (st_storage (n_state n)) c) → account_at (n_state n) t' a acc →
  ∃ n', eth_GetTransactionCount HeaderHash a filter n = Ret (Ok (from_option acc_Nonce 0 acc), n').
Proof.
  intros Hi Hlen Hf Er Ea.
  assert (∀ m number num n1, m n = Ret (Ok number, n1) → implements (n_chain n1) l → n_state n1 = n_state n → number ≠ PendingBlockNumber → number < 2 ^ 63 →
    GetNumericBlockNumber number (e_header <$> last l) = Ok num → l !! Z.to_nat num = Some e →
    ∃ n', ebind m (λ number, ebind (etry (GetNextNonce HeaderHash a number)) (λ nonce,
      match nonce with Err EStateNotFound => eret 0 | Err e => efail e | Ok nonce => eret nonce end)) n = Ret (Ok (from_option acc_Nonce 0 acc), n')) as Hgo.
  { intros m number num n1 Em Hi1 Es Hp Hlt En El. unfold ebind at 1. rewrite Em. cbn [obind]. rewrite <- Es in Er, Ea.
    destruct (GetNextNonce_served number num a acc n1 l e t' c Hi1 Hp Hlt En El Er Ea) as (n2 & E2). exists n2. unfold ebind, etry. by rewrite E2. }
  unfold eth_GetTransactionCount. pose proof Hf as Hf'. unfold asks_for in Hf'. destruct (bnh_BlockNumber filter) as [number|].
  - destruct Hf' as (Hp & Hlt & num & En & El). by eapply (Hgo _ number num n).
  - destruct (bnh_BlockHash filter) as [hash|].
    + destruct Hf' as [_ [i Hl]%list_elem_of_lookup]. destruct (serves_filter filter n l e Hi Hf) as (n1 & E1 & Hi1 & Es & _).
      pose proof (lookup_lt_Some _ _ _ Hl). pose proof (lo_number _ _ _ (im_ledger _ _ _ _ Hi) _ _ Hl) as Hn.
      assert (s64 (hd_Number (e_header e)) = Z.of_nat i) as Es64 by (rewrite Hn; apply s64_small; lia).
      eapply (Hgo _ (Z.of_nat i) (Z.of_nat i) n1); [|done|done|unfold PendingBlockNumber; lia|lia| |by rewrite Nat2Z.id].
      * unfold ebind at 1. rewrite E1. cbn [obind]. unfold ebind at 1. cbn [deref eret obind]. by rewrite Es64.
      * unfold GetNumericBlockNumber, LatestBlockNumber, PendingBlockNumber, EarliestBlockNumber.
        destruct (Z.eqb_spec (Z.of_nat i) (-2)), (Z.eqb_spec (Z.of_nat i) (-3)), (Z.eqb_spec (Z.of_nat i) (-1)), (Z.ltb_spec (Z.of_nat i) 0); try lia. done.
    + destruct (latest_number _ _ (im_ledger _ _ _ _ Hi) Hf') as (num & En & El). by eapply (Hgo _ LatestBlockNumber num n).
Qed.

(** [eth_getCode] of an account without code is an error, unless the code of the
    empty hash was stored. *)
Lemma code_of_plain_account filter a x n l e t' c :
  implements (n_chain n) l → asks_for filter l e →
  NewSnapshotAt (hd_StateRoot (e_header e)) (n_state n) = Ret (Ok t', mkState (st_storage (n_state n)) c) → account_at (n_state n) t' a (Some x) →
  state_GetCode (acc_CodeHash x) (n_state n) = None → ∃ n', eth_GetCode HeaderHash a filter n = Ret (Err ENoCode, n').
Proof.
  intros Hi Hf En Ea Hc. destruct (serves_filter filter n l e Hi Hf) as (n1 & E1 & Hi1 & Es & _).
  unfold eth_GetCode, ebind at 1. rewrite E1. cbn [obind]. unfold ebind at 1. cbn [deref eret obind].
  rewrite <- Es in En, Ea, Hc. destruct (getAccountImpl_ok _ a (Some x) n1 t' c En Ea) as (n2 & E2 & Est).
  exists n2. unfold etry, hub_GetCode, ebind, on_trie, state_GetCode in *. rewrite E2. cbn [obind]. rewrite Est, Hc. cbn. by destruct n2.
Qed.
End state.

Section served.
Context `{External} `{RlpReader} `{!RlpLaws} `{LRULaws} `{ChainDeps} `{EthPool} `{FinMap Z RT}.
Variable HeaderHash : Header → Hash.

(** C14.  What a block left is what clients are told.  However a block changed the
    state through its [Txn], once its objects are committed, [eth_getBalance] and
    [eth_getTransactionCount] on a node whose ledger has a block with the new state
    root answer, for a request that names this block by number, by hash, by a
    name or not at all, the balance and the nonce that the block left, zero for accounts that do
    not exist, unless two hashes collide. *)
Theorem committed_state_is_served N D K s t (tx : Txn (RT:=RT)) del objs :
  let tx1 := (Commit del tx).2 in
  state_ok N s → snapshot_ok N s t → sane D s t → N + Z.of_nat (length objs) + 2 < 2 ^ 32 →
  rtc txn_step (newTxn (to_snapshot (RT:=RT) D s t)) tx → in_range D K tx → hashes_apart D K →
  objs ≡ₚ map_to_list (Commit del tx).1 →
  (∀ nTrie root s1 batch, commit_batch t objs s = Ret (nTrie, root, s1, batch) → collision_free batch (db (st_storage s))) →
  ∃ nTrie root s', trie_Commit t objs s = Ret (nTrie, HashBytes root, s') ∧
    ∀ genesis_config n l e filter a, n_state n = s' → implements HeaderHash genesis_config (n_chain n) l → Z.of_nat (length l) < 2 ^ 63 →
      asks_for filter l e → hd_StateRoot (e_header e) = root → a ∈ D →
      (∃ n', eth_GetBalance HeaderHash a filter n = Ret (Ok (GetBalance a tx1), n')) ∧
      (∃ n', eth_GetTransactionCount HeaderHash a filter n = Ret (Ok (GetNonce a tx1), n')).
Proof.
  intros tx1 Hs Hsn Hsane HN Hrun Hr Hap Hl Hcf.
  pose proof (block_reloads N D K s t tx del objs Hs Hsn Hsane ltac:(lia) Hrun Hr Hap) as Hre. subst tx1. destruct (Commit del tx) as [objects tx1].
  destruct (Hre Hl) as (nTrie & root & s1 & batch & E & Hpost). destruct (Hpost (Hcf _ _ _ _ E)) as (s' & HC & _ & t' & c & En & _ & Hsane' & Hsame).
  exists nTrie, root, s'. split; [exact HC|]. intros genesis_config n l e filter a Hns Hi Hlen Hf Hroot Ha. cbn [snd].
  destruct (Hsane' a Ha) as (acc & Hat & Hok). destruct (Hsame a Ha) as (_ & Hb & Hn & _).
  rewrite <- Hb, <- Hn. unfold GetBalance, GetNonce. rewrite (newTxn_object D s' t' a acc Ha Hat). subst s' root. split.
  - destruct (GetBalance_served HeaderHash genesis_config filter a acc n l e t' c Hi Hf En Hat) as (n' & En'). exists n'. rewrite En'. destruct acc as [x|]; [|done]. destruct (Hok x eq_refl) as [Hx _]. cbn. by rewrite Z.abs_eq by apply Hx.
  - destruct (GetTransactionCount_served HeaderHash genesis_config filter a acc n l e t' c Hi Hlen Hf En Hat) as (n' & En'). exists n'. rewrite En'. destruct acc; reflexivity.
Qed.
End served.

(** ** What the hub runs *)

Section hub.
Context `{External} `{RlpReader} `{!Secp256k1} `{!Secp256k1Laws} `{!PrecompiledCrypto} `{!PrecompiledLaws} `{GoRuntime} `{!MachinePool} `{!MachinePoolLaws} `{LRULaws}
  `{ChainDeps} `{EthPool} `{FinMap Z RT}.
Variable exec : node → Executor (RT:=RT).

(** The executor refuses a transaction only with an error that [errors.Is] does not
    look into, so that a lack of intrinsic gas is not recognised. *)
Lemma hub_error_not_gas header txn n e n' : hub_ApplyTxn exec header txn n = Ret (Err e, n') → isGasApplyError e = false.
Proof.
  unfold hub_ApplyTxn, BeginTxn. destruct (call_dep _ _) as [[[creator|?] b]| |]; cbn [obind]; [|by intros [= <- _]|done..].
  destruct (e_NewSnapshotAt _ _) as [snap|]; [|by intros [= <- _]].
  destruct (Apply _ _) as [[[r|e'] h]| |]; cbn [obind]; [done|by intros [= <- _]|done..].
Qed.

(** The hub runs a transaction that cannot panic on the state of a block, with any
    gas, to the same end each time. *)
Lemma hub_runs ex who header t h :
  BeginTxn ex (hd_StateRoot header) header who = Ok h → ready h → msg_ok t →
  (∀ g, gas_ok g → ¬ may_panic_at (call_address (set_Gas g t)) (call_code (set_Gas g t) h)) →
  let P n := exec n = ex ∧ call_dep (GetBlockCreator header) (n_chain n) = Ret (Ok who, n_chain n) in
  let runs g := match Apply (set_Gas g t) h with Ret (Ok r, _) => Ok r | Ret (Err e, _) => Err (TxnApply e) | _ => Err TxnCreator end in
  ∀ g n, gas_ok g → P n → ∃ n', hub_ApplyTxn exec header (set_Gas g t) n = Ret (runs g, n') ∧ P n'.
Proof.
  intros Eb Hr Hm Hsafe P runs g n Hg [Ee Ec]. exists n. split; [|done].
  assert (set_chain (n_chain n) n = n) as En by (by destruct n).
  unfold hub_ApplyTxn, runs. rewrite Ec. cbn [obind]. rewrite En, Ee, Eb.
  assert (msg_ok (set_Gas g t)) as Hm' by (destruct Hm; split; done).
  pose proof (Apply_spec (set_Gas g t) h Hr Hm') as Ha. destruct (Apply (set_Gas g t) h) as [[[r|e] h']| |]; cbn [obind]; [done|done| |done].
  destruct Ha as [_ Hp]. by destruct (Hsafe g Hg).
Qed.
End hub.

(** ** The endpoints of the pool *)

From S2P Require Import GoHeap TxQueue TxAccount TxPool TxPoolInv TxPoolSpec.

Lemma by_nonce_snoc l tx : by_nonce (l ++ [tx]) = <[tx_Nonce tx := toTxPoolTransaction tx]> (by_nonce l).
Proof. unfold by_nonce. by rewrite foldl_app. Qed.

Lemma by_nonce_Some l n t : by_nonce l !! n = Some t → ∃ tx, tx ∈ l ∧ tx_Nonce tx = n ∧ t = toTxPoolTransaction tx.
Proof.
  induction l as [|x l IH] using rev_ind; [done|]. rewrite by_nonce_snoc. intros [[<- <-]|[_ Hl]]%lookup_insert_Some.
  - exists x. set_solver.
  - destruct (IH Hl) as (tx & ? & ? & ?). exists tx. set_solver.
Qed.

Lemma by_nonce_is_Some l tx : tx ∈ l → is_Some (by_nonce l !! tx_Nonce tx).
Proof.
  induction l as [|x l IH] using rev_ind; [by intros ?%elem_of_nil|]. rewrite by_nonce_snoc, lookup_insert_is_Some.
  intros [Hl| ->%list_elem_of_singleton]%elem_of_app; [|by left]. destruct (decide (tx_Nonce x = tx_Nonce tx)); [by left|right; auto].
Qed.

Lemma by_nonce_exact l : NoDup (tx_Nonce <$> l) →
  size (by_nonce l) = length l ∧ ∀ tx, tx ∈ l → by_nonce l !! tx_Nonce tx = Some (toTxPoolTransaction tx).
Proof.
  induction l as [|x l IH] using rev_ind; [split; [done|by intros ? ?%elem_of_nil]|]. rewrite fmap_app, NoDup_app. intros (Hl & Hx & _).
  destruct (IH Hl) as [Hs Hlk]. assert (by_nonce l !! tx_Nonce x = None) as Hn.
  { apply eq_None_not_Some. intros [t (tx & Hin & E & _)%by_nonce_Some]. apply (Hx (tx_Nonce tx)); [by apply list_elem_of_fmap_2|]. rewrite E. by left. }
  rewrite by_nonce_snoc. split; [rewrite map_size_insert_None, Hs, length_app by done; cbn; lia|].
  intros tx [Hin| ->%list_elem_of_singleton]%elem_of_app; [|by rewrite lookup_insert_eq].
  rewrite lookup_insert_ne; [by apply Hlk|]. intros E. apply (Hx (tx_Nonce tx)); [by apply list_elem_of_fmap_2|]. rewrite <- E. by left.
Qed.

Lemma mapsum_omap `{FinMap K MK} {A B} (f : A → option B) (g : B → Z) (h : A → Z) (m : MK A) :
  (∀ k a, m !! k = Some a → from_option g 0 (f a) = h a) → mapsum g (omap f m) = mapsum h m.
Proof.
  induction m as [|k a m Hk IH] using map_ind; intros Hf; [by rewrite omap_empty, !mapsum_empty|].
  rewrite (mapsum_insert_None h) by done. rewrite <- (Hf k a) by apply lookup_insert_eq.
  assert (mapsum g (omap f m) = mapsum h m) as <-.
  { apply IH. intros k' a' Hk'. apply (Hf k'). rewrite lookup_insert_ne; [done|]. intros <-. congruence. }
  destruct (f a) as [b|] eqn:E; cbn [from_option].
  - rewrite (omap_insert_Some _ _ _ _ b) by done. apply mapsum_insert_None. by rewrite lookup_omap, Hk.
  - rewrite omap_insert_None by done. rewrite delete_id; [lia|]. by rewrite lookup_omap, Hk.
Qed.

(** The transactions of one kind that [GetTxs] gives. *)
Definition picked (sel : account → list Transaction) (p : TxPool) : gmap Address (list Transaction) :=
  omap (λ a, if accountQueue.length (sel a) =? 0 then None else Some (sel a)) (accounts p).

Lemma picked_Some sel p addr l : picked sel p !! addr = Some l ↔ ∃ a, accounts p !! addr = Some a ∧ l = sel a ∧ l ≠ [].
Proof.
  unfold picked. rewrite lookup_omap. destruct (accounts p !! addr) as [a|]; cbn; [|naive_solver].
  unfold accountQueue.length. destruct (Z.eqb_spec (Z.of_nat (length (sel a))) 0) as [E|E].
  - split; [done|]. intros (a' & [= <-] & -> & Hn). destruct (sel a); done.
  - split; [intros [= <-]; exists a; by destruct (sel a)|]. by intros (a' & [= <-] & -> & _).
Qed.

Lemma picked_sum sel p : mapsum (λ l, Z.of_nat (length l)) (picked sel p) = mapsum (λ a, Z.of_nat (length (sel a))) (accounts p).
Proof.
  apply mapsum_omap. intros _ a _. unfold accountQueue.length. destruct (Z.eqb_spec (Z.of_nat (length (sel a))) 0) as [E|]; cbn; [by rewrite E|done].
Qed.

(** What the map of a sender and a nonce shows. *)
Definition shown (m : gmap Address (gmap Z txpoolTransaction)) (addr : Address) (n : Z) : option txpoolTransaction := m !! addr ≫= λ txs, txs !! n.

Lemma shown_Some sel p addr n t : shown (by_nonce <$> picked sel p) addr n = Some t →
  ∃ a tx, accounts p !! addr = Some a ∧ tx ∈ sel a ∧ tx_Nonce tx = n ∧ t = toTxPoolTransaction tx.
Proof.
  unfold shown. rewrite lookup_fmap. destruct (picked sel p !! addr) as [l|] eqn:E; [|done]. cbn. apply picked_Some in E as (a & Ha & -> & _).
  intros (tx & ? & ? & ?)%by_nonce_Some. by exists a, tx.
Qed.

Lemma shown_all sel p addr a tx : accounts p !! addr = Some a → tx ∈ sel a →
  shown (by_nonce <$> picked sel p) addr (tx_Nonce tx) = by_nonce (sel a) !! tx_Nonce tx.
Proof.
  intros Ha Htx. unfold shown. rewrite lookup_fmap. assert (picked sel p !! addr = Some (sel a)) as ->; [|done].
  apply picked_Some. exists a. split; [done|]. split; [done|]. intros E. rewrite E in Htx. by apply elem_of_nil in Htx.
Qed.

Section pool_endpoints.
Context `{External}.

Lemma promoted_nonces p addr a : reachable p → accounts p !! addr = Some a → NoDup (tx_Nonce <$> promoted a).
Proof. intros Hr Ha. destruct (pool_acc _ _ _ _ (reachable_inv p Hr) _ _ Ha) as [[] ? ?]. eapply NoDup_Permutation_proper; [done|]. apply NoDup_seqZ. Qed.

(** The endpoints of the pool tell what it holds.  In every reachable pool
    [txpool_content] shows as pending exactly the promoted transactions, each under its
    sender and nonce, and as queued a transaction under a nonce exactly if the
    sender has one enqueued there, and then one of these; [txpool_status] counts all of
    them, and as many pending ones as [txpool_content] shows. *)
Theorem pool_endpoints_exact p : reachable p →
  let '(pending, queued) := pool_Content p in let '(pendingCount, queuedCount) := pool_Status p in
  (∀ addr n t, shown pending addr n = Some t ↔ ∃ a tx, accounts p !! addr = Some a ∧ tx ∈ promoted a ∧ tx_Nonce tx = n ∧ t = toTxPoolTransaction tx) ∧
  (∀ addr n t, shown queued addr n = Some t → ∃ a tx, accounts p !! addr = Some a ∧ tx ∈ enqueued a ∧ tx_Nonce tx = n ∧ t = toTxPoolTransaction tx) ∧
  (∀ addr a tx, accounts p !! addr = Some a → tx ∈ enqueued a → is_Some (shown queued addr (tx_Nonce tx))) ∧
  pendingCount = u64 (mapsum (λ a, Z.of_nat (length (promoted a))) (accounts p)) ∧
  pendingCount = u64 (mapsum (λ m, Z.of_nat (size m)) pending) ∧
  queuedCount = u64 (mapsum (λ a, Z.of_nat (length (enqueued a))) (accounts p)).
Proof.
  intros Hr. assert (pool_Content p = (by_nonce <$> picked promoted p, by_nonce <$> picked enqueued p)) as -> by done.
  assert (pool_Status p = (u64 (mapsum (λ l, Z.of_nat (length l)) (picked promoted p)), u64 (mapsum (λ l, Z.of_nat (length l)) (picked enqueued p)))) as -> by done.
  split_and!.
  - intros addr n t. split; [apply shown_Some|]. intros (a & tx & Ha & Htx & <- & ->). erewrite shown_all by done.
    by apply (by_nonce_exact _ (promoted_nonces p addr a Hr Ha)).
  - apply shown_Some.
  - intros addr a tx Ha Htx. erewrite shown_all by done. by apply by_nonce_is_Some.
  - f_equal. apply picked_sum.
  - f_equal. symmetry. rewrite map_fmap_alt. apply mapsum_omap. intros addr l (a & Ha & -> & _)%picked_Some. cbn. f_equal.
    apply by_nonce_exact. by eapply promoted_nonces.
  - f_equal. apply picked_sum.
Qed.
End pool_endpoints.

(** Of two queued transactions with one nonce, which [txpool_status] counts both, the last
    in the queue is shown. *)
Lemma duplicate_is_hidden tx tx' : tx_Nonce tx = tx_Nonce tx' → by_nonce [tx; tx'] = {[ tx_Nonce tx := toTxPoolTransaction tx' ]}.
Proof. intros E. unfold by_nonce. cbn. rewrite E. by rewrite insert_insert_eq. Qed.

Module PoolEndpoints.
#[local] Existing Instance TxPoolSpec.Toy.ext.

(** A pool with two promoted transactions. *)
Lemma pool_endpoints_exact_witness : (pool_Status TxPoolSpec.Toy.p5).1 = 2 ∧
  ∀ addr n t, shown (pool_Content TxPoolSpec.Toy.p5).1 addr n = Some t ↔
    ∃ a tx, accounts TxPoolSpec.Toy.p5 !! addr = Some a ∧ tx ∈ promoted a ∧ tx_Nonce tx = n ∧ t = toTxPoolTransaction tx.
Proof.
  split; [by vm_compute|]. pose proof (pool_endpoints_exact TxPoolSpec.Toy.p5 TxPoolSpec.Toy.reach5) as Hp.
  destruct (pool_Content TxPoolSpec.Toy.p5) as [pending queued], (pool_Status TxPoolSpec.Toy.p5) as [np nq]. exact (proj1 Hp).
Defined.
End PoolEndpoints.
