(* ===== verification/Tracer.v ===== *)
(** Tracing a transaction: the struct tracer
    ([state/runtime/tracer/structtracer/tracer.go]), the points of the interpreter
    ([state.Run]) and of the executor that call it, the traces of the hub
    ([server/server.go]) and the endpoints of [jsonrpc/debug_endpoint.go].

    [Executor] is the transition whose tracer is nil.  Here it has one: the state of
    the host is the transition with its tracer ([traced]), and the functions of the
    executor are written again with their calls of the tracer.  The theorem is that
    these calls change nothing, and that the result of the trace is the result of
    the transaction.

    The timeout of a request is a goroutine that calls [Cancel]; when is not known. *)
From stdpp Require Import strings.
From S2P Require Import Prelude Types Runtime Crypto EvmState EvmInstr EvmRun EvmMeta TxAccount Intrinsic StateTxn StateTxnSpec Bloom Blake2f Precompiled Signer Executor ExecutorInv ExecutorSpec ExecutorFrame Text.

(** ** The names of the instructions ([opcodes.go]) *)

Definition opCodesToString (from to : Z) (name : bytes) : list (Z * bytes) :=
  let c := if from =? LOG0 then 0%nat else 1%nat in
  (λ i, (from + Z.of_nat i, name ++ FormatUint (Z.of_nat (c + i)) 10)) <$> seq 0 (Z.to_nat (to - from + 1)).

(** The map after [init]; the entries of [init] are other ones. *)
Definition opCodeToString : gmap Z bytes := list_to_map (
  [(STOP, str "STOP"); (ADD, str "ADD"); (MUL, str "MUL"); (SUB, str "SUB"); (DIV, str "DIV"); (SDIV, str "SDIV");
    (MOD, str "MOD"); (SMOD, str "SMOD"); (EXP, str "EXP"); (NOT, str "NOT"); (LT, str "LT"); (GT, str "GT");
    (SLT, str "SLT"); (SGT, str "SGT"); (EQ, str "EQ"); (ISZERO, str "ISZERO"); (SIGNEXTEND, str "SIGNEXTEND");
    (AND, str "AND"); (OR, str "OR"); (XOR, str "XOR"); (BYTE, str "BYTE"); (SHL, str "SHL"); (SHR, str "SHR");
    (SAR, str "SAR"); (ADDMOD, str "ADDMOD"); (MULMOD, str "MULMOD"); (SHA3, str "SHA3"); (ADDRESS, str "ADDRESS");
    (BALANCE, str "BALANCE"); (ORIGIN, str "ORIGIN"); (CALLER, str "CALLER"); (CALLVALUE, str "CALLVALUE");
    (CALLDATALOAD, str "CALLDATALOAD"); (CALLDATASIZE, str "CALLDATASIZE"); (CALLDATACOPY, str "CALLDATACOPY");
    (CODESIZE, str "CODESIZE"); (CODECOPY, str "CODECOPY"); (GASPRICE, str "GASPRICE");
    (EXTCODESIZE, str "EXTCODESIZE"); (EXTCODECOPY, str "EXTCODECOPY"); (RETURNDATASIZE, str "RETURNDATASIZE");
    (RETURNDATACOPY, str "RETURNDATACOPY"); (EXTCODEHASH, str "EXTCODEHASH"); (BLOCKHASH, str "BLOCKHASH");
    (COINBASE, str "COINBASE"); (TIMESTAMP, str "TIMESTAMP"); (NUMBER, str "NUMBER"); (DIFFICULTY, str "DIFFICULTY");
    (GASLIMIT, str "GASLIMIT"); (POP, str "POP"); (MLOAD, str "MLOAD"); (MSTORE, str "MSTORE");
    (MSTORE8, str "MSTORE8"); (SLOAD, str "SLOAD"); (SSTORE, str "SSTORE"); (JUMP, str "JUMP"); (JUMPI, str "JUMPI");
    (PC, str "PC"); (MSIZE, str "MSIZE"); (GAS, str "GAS"); (JUMPDEST, str "JUMPDEST"); (CREATE, str "CREATE");
    (CALL, str "CALL"); (RETURN, str "RETURN"); (CALLCODE, str "CALLCODE"); (DELEGATECALL, str "DELEGATECALL");
    (CREATE2, str "CREATE2"); (STATICCALL, str "STATICCALL"); (REVERT, str "REVERT");
    (SELFDESTRUCT, str "SELFDESTRUCT"); (CHAINID, str "CHAINID"); (SELFBALANCE, str "SELFBALANCE")] ++
  opCodesToString PUSH1 PUSH32 (str "PUSH") ++ opCodesToString DUP1 DUP16 (str "DUP") ++
  opCodesToString LOG0 LOG4 (str "LOG") ++ opCodesToString SWAP1 SWAP16 (str "SWAP")).

(** A missing entry is the empty string. *)
Definition OpCode_String (op : Z) : bytes := default [] (opCodeToString !! op).

(** ** The struct tracer *)

Record tracer_Config := mkTracerConfig {
  EnableMemory : bool;
  EnableStack : bool;
  EnableStorage : bool;
  EnableReturnData : bool;
}.

(** A nil slice or map is [None]. *)
Record StructLog := mkStructLog {
  sl_Pc : Z;
  sl_Op : bytes;
  sl_Gas : Z;
  sl_GasCost : Z;
  sl_Memory : option bytes;
  sl_MemorySize : Z;
  sl_Stack : option (list Z);
  sl_ReturnData : option bytes;
  sl_Storage : option (gmap Hash Hash);
  sl_Depth : Z;
  sl_RefundCounter : Z;
  sl_Err : option vmError;
}.

(** The reason of a cancellation. *)
Inductive trace_reason := ErrExecutionTimeout.

Record StructTracer := mkTracer {
  tr_Config : tracer_Config;
  tr_reason : option trace_reason;
  tr_interrupt : bool;
  tr_logs : list StructLog;
  tr_gasLimit : Z;
  tr_consumedGas : Z;
  tr_output : bytes;
  tr_err : option vmError;
  tr_storage : gmap Address (gmap Hash Hash);
  tr_currentMemory : bytes;
  tr_currentStack : list Z;
}.

Definition NewStructTracer (config : tracer_Config) : StructTracer := mkTracer config None false [] 0 0 [] None ∅ [] [].

Definition Cancel (reason : trace_reason) (t : StructTracer) : StructTracer :=
  mkTracer (tr_Config t) (Some reason) true (tr_logs t) (tr_gasLimit t) (tr_consumedGas t) (tr_output t) (tr_err t) (tr_storage t)
    (tr_currentMemory t) (tr_currentStack t).

Definition Clear (t : StructTracer) : StructTracer := mkTracer (tr_Config t) None false [] 0 0 [] None ∅ [] [].

Definition TxStart (gasLimit : Z) (t : StructTracer) : StructTracer :=
  mkTracer (tr_Config t) (tr_reason t) (tr_interrupt t) (tr_logs t) gasLimit (tr_consumedGas t) (tr_output t) (tr_err t) (tr_storage t)
    (tr_currentMemory t) (tr_currentStack t).

Definition TxEnd (gasLeft : Z) (t : StructTracer) : StructTracer :=
  mkTracer (tr_Config t) (tr_reason t) (tr_interrupt t) (tr_logs t) (tr_gasLimit t) (sub64 (tr_gasLimit t) gasLeft) (tr_output t) (tr_err t)
    (tr_storage t) (tr_currentMemory t) (tr_currentStack t).

(** [CallStart] does nothing. *)
Definition CallEnd (depth : Z) (output : bytes) (err : option vmError) (t : StructTracer) : StructTracer :=
  if depth =? 1
  then mkTracer (tr_Config t) (tr_reason t) (tr_interrupt t) (tr_logs t) (tr_gasLimit t) (tr_consumedGas t) output err (tr_storage t)
         (tr_currentMemory t) (tr_currentStack t)
  else t.

Definition captureMemory (memory : bytes) (t : StructTracer) : StructTracer :=
  if negb (EnableMemory (tr_Config t)) then t
  else mkTracer (tr_Config t) (tr_reason t) (tr_interrupt t) (tr_logs t) (tr_gasLimit t) (tr_consumedGas t) (tr_output t) (tr_err t)
         (tr_storage t) memory (tr_currentStack t).

(** The words of the machine are top first, those of a trace bottom first. *)
Definition captureStack (stack : list Z) (t : StructTracer) : StructTracer :=
  if negb (EnableStack (tr_Config t)) then t
  else mkTracer (tr_Config t) (tr_reason t) (tr_interrupt t) (tr_logs t) (tr_gasLimit t) (tr_consumedGas t) (tr_output t) (tr_err t)
         (tr_storage t) (tr_currentMemory t) (reverse stack).

Definition set_slot (contractAddress : Address) (slot value : Hash) (t : StructTracer) : StructTracer :=
  mkTracer (tr_Config t) (tr_reason t) (tr_interrupt t) (tr_logs t) (tr_gasLimit t) (tr_consumedGas t) (tr_output t) (tr_err t)
    (<[contractAddress := <[slot := value]> (default ∅ (tr_storage t !! contractAddress))]> (tr_storage t)) (tr_currentMemory t) (tr_currentStack t).

(** [GetStorage] is the host's, of a slot of the contract. *)
Definition captureStorage (stack : list Z) (opCode : Z) (contractAddress : Address) (GetStorage : Hash → Hash) (t : StructTracer) : StructTracer :=
  if negb (EnableStorage (tr_Config t)) then t
  else if opCode =? SLOAD then
    match stack with
    | x :: _ => let slot := BytesToHash (Bytes x) in set_slot contractAddress slot (GetStorage slot) t
    | [] => t
    end
  else if opCode =? SSTORE then
    match stack with
    | x :: y :: _ => set_slot contractAddress (BytesToHash (Bytes y)) (BytesToHash (Bytes x)) t
    | _ => t
    end
  else t.

(** Whether the machine is to halt, and the tracer. *)
Definition CaptureState (memory : bytes) (stack : list Z) (opCode : Z) (contractAddress : Address) (GetStorage : Hash → Hash) (t : StructTracer)
    : bool * StructTracer :=
  if tr_interrupt t then (true, t)
  else (false, captureStorage stack opCode contractAddress GetStorage (captureStack stack (captureMemory memory t))).

Definition ExecuteState (contractAddress : Address) (ip : Z) (opCode : bytes) (availableGas cost : Z) (lastReturnData : bytes) (depth : Z)
    (err : option vmError) (refund : Z) (t : StructTracer) : StructTracer :=
  let memory := if EnableMemory (tr_Config t) then Some (tr_currentMemory t) else None in
  let memorySize := if EnableMemory (tr_Config t) then Z.of_nat (length (tr_currentMemory t)) else 0 in
  let stack := if EnableStack (tr_Config t) then Some (tr_currentStack t) else None in
  let returnData := if EnableReturnData (tr_Config t) then Some lastReturnData else None in
  let storage := if EnableStorage (tr_Config t) then tr_storage t !! contractAddress else None in
  let log := mkStructLog ip opCode availableGas cost memory memorySize stack returnData storage depth refund err in
  mkTracer (tr_Config t) (tr_reason t) (tr_interrupt t) (tr_logs t ++ [log]) (tr_gasLimit t) (tr_consumedGas t) (tr_output t) (tr_err t)
    (tr_storage t) (tr_currentMemory t) (tr_currentStack t).

(** *** Results *)

(** The error of a log is written as its text. *)
Record StructLogRes := mkLogRes {
  sr_Pc : Z;
  sr_Op : bytes;
  sr_Gas : Z;
  sr_GasCost : Z;
  sr_Depth : Z;
  sr_Error : option vmError;
  sr_Stack : list bytes;
  sr_Memory : list bytes;
  sr_Storage : gmap bytes bytes;
  sr_RefundCounter : Z;
}.

(** The whole words of a memory. *)
Fixpoint memory_words (n : nat) (memory : bytes) : list bytes :=
  match n with
  | O => []
  | S n => EncodeToString (take 32 memory) :: memory_words n (drop 32 memory)
  end.

(** Hashes are told apart by their text, so the order of the entries is not seen. *)
Definition format_storage (storage : gmap Hash Hash) : gmap bytes bytes :=
  list_to_map ((λ '(key, value), (EncodeToString (HashBytes key), EncodeToString (HashBytes value))) <$> map_to_list storage).

Definition formatStructLogs (originalLogs : list StructLog) : list StructLogRes :=
  (λ log, mkLogRes (sl_Pc log) (sl_Op log) (sl_Gas log) (sl_GasCost log) (sl_Depth log) (sl_Err log)
     (EncodeBig <$> default [] (sl_Stack log))
     (match sl_Memory log with Some m => memory_words (length m / 32)%nat m | None => [] end)
     (format_storage (default ∅ (sl_Storage log))) (sl_RefundCounter log)) <$> originalLogs.

Record StructTraceResult := mkTraceResult {
  res_Failed : bool;
  res_Gas : Z;
  res_ReturnValue : bytes;
  res_StructLogs : list StructLogRes;
}.

Definition GetResult (t : StructTracer) : result trace_reason StructTraceResult :=
  match tr_reason t with
  | Some reason => Err reason
  | None =>
      let returnValue :=
        match tr_err t with
        | Some e => if decide (e = ErrExecutionReverted) then EncodeToString (tr_output t) else []
        | None => EncodeToString (tr_output t)
        end in
      Ok (mkTraceResult (bool_decide (tr_err t ≠ None)) (tr_consumedGas t) returnValue (formatStructLogs (tr_logs t)))
  end.

Section traced.
Context `{External} `{Secp256k1} `{PrecompiledCrypto} `{GoRuntime} `{MachinePool} `{LRU} `{FinMap Z RT}.

(** A transition with a tracer. *)
Definition traced : Type := Transition (RT:=RT) * StructTracer.

Definition on_transition (f : Transition (RT:=RT) → Transition (RT:=RT)) (h : traced) : traced := (f h.1, h.2).
Definition on_tracer (f : StructTracer → StructTracer) (h : traced) : traced := (h.1, f h.2).

(** ** The interpreter *)

Definition TracedHost (rec : Contract → traced → outcome (ExecutionResult * traced)) : Host traced := {|
  h_AccountExists a h := Exist a (t_state h.1);
  h_GetStorage a k h := GetState a k (t_state h.1);
  h_SetStorage a k v cfg h :=
    let '(status, s) := SetStorage a k v cfg (t_state h.1) in (status, on_transition (set_state s) h);
  h_GetBalance a h := GetBalance a (t_state h.1);
  h_GetCodeSize a h := let '(n, s) := GetCodeSize a (t_state h.1) in (n, on_transition (set_state s) h);
  h_GetCodeHash a h := GetCodeHash a (t_state h.1);
  h_GetCode a h := let '(code, s) := GetCode a (t_state h.1) in (code, on_transition (set_state s) h);
  h_Selfdestruct a b := on_transition (Selfdestruct a b);
  h_GetTxContext h := t_ctx h.1;
  h_GetBlockHash n h := t_getHash h.1 (u64 n);
  h_EmitLog a ts d := on_transition (λ t, set_state (EmitLog a ts d (t_state t)) t);
  h_Callx := rec;
  h_Empty a h := Empty a (t_state h.1);
  h_GetNonce a h := GetNonce a (t_state h.1);
|}.

Definition captureState (opCode : Z) : M traced unit := λ c h,
  let '(halt, tr) := CaptureState (vis (memory c)) (stack c) opCode (c_Address (msg c)) (λ k, GetState (c_Address (msg c)) k (t_state h.1)) h.2 in
  Ret (tt, if halt : bool then set_exit (err c) c else c, (h.1, tr)).

Definition captureSuccessfulExecution (opCode : bytes) (ip gas consumedGas : Z) : M traced unit := λ c h,
  Ret (tt, c, on_tracer (ExecuteState (c_Address (msg c)) ip opCode gas consumedGas (returnData c) (c_Depth (msg c)) (err c) (GetRefund (t_state h.1))) h).

Definition captureExecutionError (opCode : bytes) (ip gas consumedGas : Z) : M traced unit := λ c h,
  Ret (tt, c, on_tracer (ExecuteState (c_Address (msg c)) (u64 ip) opCode gas consumedGas (returnData c) (c_Depth (msg c)) (err c) (GetRefund (t_state h.1))) h).

Section run.
Variable rec : Contract → traced → outcome (ExecutionResult * traced).

(** A turn of [state.Run], with its captures. *)
Definition traced_turn : M traced turn := λ c h,
  match CurrentOpCode c with
  | Panic => Panic
  | NoFuel => NoFuel
  | Ret (op, ok) =>
      let gasCopy := gas c in
      let ipCopy := u64 (ip c) in
      (captureState op;;!
       if negb ok then Halt;;! ret_ Break
       else
         match dispatchTable (H1 := TracedHost rec) !! op with
         | None =>
             exit errOpCodeNotFound;;!
             let! ip := gets ip in captureExecutionError (OpCode_String op) ip gasCopy 0;;! ret_ Break
         | Some i =>
             let! sp := gets (λ c, Z.of_nat (length (stack c))) in
             if sp <? stack_ i then
               exit ErrStackUnderflow;;!
               let! ip := gets ip in captureExecutionError (OpCode_String op) ip gasCopy (gas_ i);;! ret_ Break
             else
               let! ok := consumeGas (gas_ i) in
               if negb ok then
                 exit ErrOutOfGas;;!
                 let! ip := gets ip in captureExecutionError (OpCode_String op) ip gasCopy (gas_ i);;! ret_ Break
               else
                 inst i;;!
                 let! gas := gets gas in
                 captureSuccessfulExecution (OpCode_String op) ipCopy gasCopy (sub64 gasCopy gas);;!
                 let! sp := gets (λ c, Z.of_nat (length (stack c))) in
                 if sp >? stackSize then exit ErrStackOverflow;;! ret_ Break
                 else modify (λ c, set_ip (EvmState.ip c + 1) c);;! ret_ Continue
         end) c h
  end.

Fixpoint traced_loop (fuel : nat) (c : state) (h : traced) : outcome (state * traced) :=
  if stop c then Ret (c, h)
  else
    match fuel with
    | O => NoFuel
    | S fuel =>
        match traced_turn c h with
        | Ret (Break, c, h) => Ret (c, h)
        | Ret (Continue, c, h) => traced_loop fuel c h
        | Panic => Panic
        | NoFuel => NoFuel
        end
    end.

(** ** The executor *)

Definition traced_run (contract : Contract) (h : traced) : outcome (ExecutionResult * traced) :=
  if CanRun contract (t_config h.1) then
    let~ r := Precompiled_Run contract (t_config h.1) in Ret (r, h)
  else
    let '(mem, bm) := pool_Get contract in
    let~ (s, h) := traced_loop (evm_fuel contract) (start mem bm contract (t_config h.1)) h in
    Ret (finish contract s, h).

Definition captureCallEnd (c : Contract) (result : ExecutionResult) : traced → traced :=
  on_tracer (CallEnd (c_Depth c) (ReturnValue result) (ExecErr result)).

Definition traced_revert (id : nat) (h : traced) : outcome traced := let~ t := revert id h.1 in Ret (t, h.2).

Definition traced_applyCall (c : Contract) (callType : CallType) (h : traced) : outcome (ExecutionResult * traced) :=
  if c_Depth c >? maxDepth then Ret (mkResult [] (c_Gas c) 0 (Some ErrDepth), h)
  else
    let '(snapshot, s) := Snapshot (t_state h.1) in
    let s := TouchAccount (c_Address c) s in
    match (if decide (callType = CallT) then transfer (c_Caller c) (c_Address c) (c_Value c) s else Ok s) with
    | Err err => Ret (mkResult [] (c_Gas c) 0 (Some err), on_transition (set_state s) h)
    | Ok s =>
        let~ (result, h) := traced_run c (on_transition (set_state s) h) in
        let~ h := (if Failed result then traced_revert snapshot h else Ret h) in
        Ret (result, captureCallEnd c result h)
    end.

(** The deferred [captureCallEnd] is given what [result] points to: the result of
    the run, also when what is returned is another one. *)
Definition traced_applyCreate (c : Contract) (h : traced) : outcome (ExecutionResult * traced) :=
  let gasLimit := c_Gas c in
  if c_Depth c >? maxDepth then Ret (mkResult [] gasLimit 0 (Some ErrDepth), h)
  else
    let s := IncrNonce (c_Caller c) (t_state h.1) in
    if hasCodeOrNonce (c_Address c) s
    then Ret (mkResult [] 0 0 (Some ErrContractAddressCollision), on_transition (set_state s) h)
    else
      let '(snapshot, s) := Snapshot s in
      let s := if EIP158 (t_config h.1) then IncrNonce (c_Address c) (CreateAccount (c_Address c) s) else s in
      match transfer (c_Caller c) (c_Address c) (c_Value c) s with
      | Err err => Ret (mkResult [] gasLimit 0 (Some err), on_transition (set_state s) h)
      | Ok s =>
          let~ (result, h) := traced_run c (on_transition (set_state s) h) in
          if Failed result then let~ h := traced_revert snapshot h in Ret (result, captureCallEnd c result h)
          else if EIP158 (t_config h.1) && (Z.of_nat (length (ReturnValue result)) >? spuriousDragonMaxCodeSize) then
            let~ h := traced_revert snapshot h in
            Ret (mkResult [] 0 0 (Some ErrMaxCodeSizeExceeded), captureCallEnd c result h)
          else
            let gasCost := mul64 (Z.of_nat (length (ReturnValue result))) 200 in
            if GasLeft result <? gasCost then
              let result := mkResult [] (GasLeft result) (GasUsed result) (Some ErrCodeStoreOutOfGas) in
              if Homestead (t_config h.1) then
                let~ h := traced_revert snapshot h in
                let result := mkResult (ReturnValue result) 0 (GasUsed result) (ExecErr result) in
                Ret (result, captureCallEnd c result h)
              else Ret (result, captureCallEnd c result h)
            else
              let result := mkResult (ReturnValue result) (sub64 (GasLeft result) gasCost) (GasUsed result) (ExecErr result) in
              Ret (result, captureCallEnd c result (on_transition (λ t, set_state (SetCode (c_Address c) (ReturnValue result) (t_state t)) t) h))
      end.
End run.

Fixpoint traced_Callx (fuel : nat) (c : Contract) (h : traced) : outcome (ExecutionResult * traced) :=
  match fuel with
  | O => NoFuel
  | S fuel =>
      if decide (c_Type c = CreateT) then traced_applyCreate (traced_Callx fuel) c h
      else traced_applyCall (traced_Callx fuel) c (c_Type c) h
  end.

Definition traced_Create2 (caller : Address) (code : bytes) (value gas : Z) (h : traced) : outcome (ExecutionResult * traced) :=
  let address := CreateAddress caller (GetNonce caller (t_state h.1)) in
  traced_applyCreate (traced_Callx callDepth) (NewContractCreation 1 caller caller address (Some value) gas code) h.

Definition traced_Call2 (caller to : Address) (input : bytes) (value gas : Z) (h : traced) : outcome (ExecutionResult * traced) :=
  let '(code, s) := GetCode to (t_state h.1) in
  traced_applyCall (traced_Callx callDepth) (NewContractCall 1 caller caller to (Some value) gas code input) CallT (on_transition (set_state s) h).

Definition traced_execute (msg : Transaction) (gasLeft : Z) (h : traced) : outcome (ExecutionResult * traced) :=
  let value := tx_Value msg in
  let h := on_transition (λ t, set_ctx (tx_ctx msg (t_ctx t)) t) h in
  match tx_To msg with
  | None => traced_Create2 (tx_From msg) (tx_Input msg) value gasLeft h
  | Some to =>
      traced_Call2 (tx_From msg) to (tx_Input msg) value gasLeft (on_transition (λ t, set_state (IncrNonce (tx_From msg) (t_state t)) t) h)
  end.

Definition traced_apply (msg : Transaction) (h : traced) : outcome (result TransitionApplicationError ExecutionResult * traced) :=
  if negb (nonceCheck msg h.1) then Ret (Err (NewTransitionApplicationError ErrNonceIncorrect true), h)
  else
    match subGasLimitPrice msg h.1 with
    | Err err => Ret (Err (NewTransitionApplicationError err true), h)
    | Ok t =>
        match subGasPool (tx_Gas msg) t with
        | Err err => Ret (Err (NewGasLimitReachedTransitionApplicationError err), (t, h.2))
        | Ok t =>
            let h := (t, TxStart (tx_Gas msg) h.2) in
            match TransactionGasCost msg (Homestead (t_config t)) (Istanbul (t_config t)) with
            | Err err => Ret (Err (NewTransitionApplicationError (ErrIntrinsic err) false), h)
            | Ok intrinsicGasCost =>
                let gasLeft := sub64 (tx_Gas msg) intrinsicGasCost in
                if gasLeft >? tx_Gas msg then Ret (Err (NewTransitionApplicationError ErrNotEnoughIntrinsicGas false), h)
                else if GetBalance (tx_From msg) (t_state t) <? tx_Value msg
                then Ret (Err (NewTransitionApplicationError ErrNotEnoughFundsForTransfer true), h)
                else
                  let~ (result, h) := traced_execute msg gasLeft h in
                  let '(result, t) := settle msg result h.1 in
                  Ret (Ok result, (t, TxEnd (GasLeft result) h.2))
            end
        end
    end.

Definition traced_Apply (msg : Transaction) (h : traced) : outcome (result TransitionApplicationError ExecutionResult * traced) :=
  let '(s, st) := Snapshot (t_state h.1) in
  let~ (res, h) := traced_apply msg (on_transition (set_state st) h) in
  match res with
  | Err _ => let~ h := traced_revert s h in Ret (res, h)
  | Ok _ => Ret (res, h)
  end.
End traced.

(** ** Tracing changes nothing *)

(** A tracer that is not cancelled, in a transaction with this gas. *)
Definition quiet (g : Z) (t : StructTracer) : Prop := tr_reason t = None ∧ tr_interrupt t = false ∧ tr_gasLimit t = g.

Lemma quiet_CaptureState g m st op a f t : quiet g t →
  (CaptureState m st op a f t).1 = false ∧ quiet g (CaptureState m st op a f t).2.
Proof.
  intros (Hr & Hi & Hg). unfold CaptureState. rewrite Hi. split; [done|]. cbn [snd].
  unfold captureStorage, captureStack, captureMemory, set_slot. by repeat case_match.
Qed.

Lemma quiet_ExecuteState g a ip op av co d de e r t : quiet g t → quiet g (ExecuteState a ip op av co d de e r t).
Proof. done. Qed.

Lemma quiet_CallEnd g d o e t : quiet g t → quiet g (CallEnd d o e t).
Proof. unfold CallEnd. by case_match. Qed.

Section transparent.
Context `{External} `{Secp256k1} `{PrecompiledCrypto} `{GoRuntime} `{MachinePool} `{LRU} `{FinMap Z RT}.
Variable g : Z.

Implicit Type h : traced (RT:=RT).

Definition calm h : Prop := quiet g h.2.

(** A traced computation that does what another one does. *)
Definition erases {A} (m : outcome (A * traced (RT:=RT))) (m' : outcome (A * Transition (RT:=RT))) : Prop :=
  m' = through fst m ∧ kept calm m.

Lemma erases_ret {A} (a : A) h : calm h → erases (Ret (a, h)) (Ret (a, h.1)).
Proof. done. Qed.

Lemma erases_bind {A B} (m : outcome (A * traced (RT:=RT))) m' (k : A → traced → outcome (B * traced)) k' :
  erases m m' → (∀ a h, calm h → erases (k a h) (k' a h.1)) →
  erases (let~ (a, h) := m in k a h) (let~ (a, t) := m' in k' a t).
Proof. intros [-> Hk] Hb. destruct m as [[a h]| |]; [by apply Hb|done..]. Qed.

Lemma erases_revert {A} id h (a : A) (k : traced → traced) :
  calm h → (∀ h, calm h → calm (k h)) → (∀ h, (k h).1 = h.1) →
  erases (let~ h := traced_revert id h in Ret (a, k h)) (let~ t := revert id h.1 in Ret (a, t)).
Proof.
  intros Hh Hk Hf. unfold traced_revert. destruct (revert id h.1) as [t| |]; cbn [obind]; [|done..].
  split; cbn [through]; [by rewrite Hf|by apply Hk].
Qed.

Lemma captureCallEnd_calm c r h : calm h → calm (captureCallEnd c r h).
Proof. apply quiet_CallEnd. Qed.

Section calls.
Variable rec : Contract → traced (RT:=RT) → outcome (ExecutionResult * traced (RT:=RT)).
Variable rec' : Contract → Transition (RT:=RT) → outcome (ExecutionResult * Transition (RT:=RT)).
Hypothesis rec_erases : ∀ c h, calm h → erases (rec c h) (rec' c h.1).

#[local] Instance host_traced : HostNatural (HA := TracedHost rec) (HB := TransitionHost rec') fst calm.
Proof.
  split; cbn [h_AccountExists h_GetStorage h_SetStorage h_GetBalance h_GetCodeSize h_GetCodeHash h_GetCode h_Selfdestruct
    h_GetTxContext h_GetBlockHash h_EmitLog h_Callx h_Empty h_GetNonce TransitionHost TracedHost]; try done.
  - intros a k v cfg h Hh. by destruct (SetStorage _ _ _ _ _).
  - intros a h Hh. by destruct (GetCodeSize _ _).
  - intros a h Hh. by destruct (GetCode _ _).
Qed.

Lemma nat_captureState op : natural fst calm (captureState op) (ret_ tt).
Proof.
  intros c h Hh. unfold captureState.
  destruct (quiet_CaptureState g (vis (memory c)) (stack c) op (c_Address (msg c)) (λ k, GetState (c_Address (msg c)) k (t_state h.1)) _ Hh) as [Hb Hq].
  destruct (CaptureState _ _ _ _ _ _) as [b tr]. cbn [fst snd] in *. by subst b.
Qed.

(** A capture before a computation. *)
Lemma nat_captured {A} (m : M traced unit) (k : M traced A) (k' : M Transition A) :
  natural fst calm m (ret_ tt) → natural fst calm k k' → natural fst calm (m;;! k) k'.
Proof. intros Hm Hk. exact (nat_bind fst calm m (ret_ tt) (λ _, k) (λ _, k') Hm (λ _, Hk)). Qed.

Lemma nat_captureExecutionError {A} op gc cost (k : M traced A) (k' : M Transition A) :
  natural fst calm k k' → natural fst calm (let! ip := gets ip in captureExecutionError op ip gc cost;;! k) k'.
Proof. intros Hk c h Hh. unfold mbind_, gets, captureExecutionError, captureSuccessfulExecution. by apply (Hk c (on_tracer _ h)). Qed.

Lemma nat_captureSuccess {A} op ip gc (k : M traced A) (k' : M Transition A) :
  natural fst calm k k' → natural fst calm (let! gas := gets gas in captureSuccessfulExecution op ip gc (sub64 gc gas);;! k) k'.
Proof. intros Hk c h Hh. unfold mbind_, gets, captureExecutionError, captureSuccessfulExecution. by apply (Hk c (on_tracer _ h)). Qed.

Lemma traced_turn_natural : natural fst calm (traced_turn rec) (Run_turn (H1 := TransitionHost rec')).
Proof.
  intros c h. unfold traced_turn, Run_turn. destruct (CurrentOpCode c) as [[op ok]| |]; [|done..]. cbv zeta.
  match goal with |- _ → ?m' c _ = match ?m c h with _ => _ end ∧ _ => cut (natural fst calm m m'); [intros Hm; apply Hm|] end.
  apply nat_captured; [apply nat_captureState|]. destruct (negb ok); [unfold Halt; natural|].
  pose proof (dispatch_natural (HA := TracedHost rec) (HB := TransitionHost rec') fst calm op) as Hd.
  destruct (dispatchTable (H1 := TracedHost rec) !! op) as [i|], (dispatchTable (H1 := TransitionHost rec') !! op) as [i'|]; [|done..|].
  2: { apply nat_bind; [unfold exit; natural|]. intros _. apply nat_captureExecutionError. natural. }
  destruct Hd as (<- & <- & Hi). apply nat_bind; [natural|]. intros sp. destruct (sp <? stack_ i).
  { apply nat_bind; [unfold exit; natural|]. intros _. apply nat_captureExecutionError. natural. }
  apply nat_bind; [unfold consumeGas, exit; natural|]. intros ok'. destruct (negb ok').
  { apply nat_bind; [unfold exit; natural|]. intros _. apply nat_captureExecutionError. natural. }
  apply nat_bind; [done|]. intros _. apply nat_captureSuccess. unfold exit. natural.
Qed.

Lemma traced_loop_erases fuel c h : calm h → erases (traced_loop rec fuel c h) (Run_loop (H1 := TransitionHost rec') fuel c h.1).
Proof.
  revert c h. induction fuel as [|fuel IH]; intros c h Hh; cbn [traced_loop Run_loop]; destruct (stop c); try done.
  destruct (traced_turn_natural c h Hh) as [-> Hp]. destruct (traced_turn rec c h) as [[[[] c'] h']| |]; try done. by apply IH.
Qed.

Lemma traced_run_erases c h : calm h → erases (traced_run rec c h) (run rec' c h.1).
Proof.
  intros Hh. unfold traced_run, run. destruct (CanRun _ _); [by destruct (Precompiled_Run _ _)|].
  destruct (pool_Get c) as [mem bm]. unfold EVM_Run.
  destruct (traced_loop_erases (evm_fuel c) (start mem bm c (t_config h.1)) h Hh) as [-> Hk].
  by destruct (traced_loop _ _ _ _) as [[]| |].
Qed.

Lemma traced_applyCall_erases c ty h : calm h → erases (traced_applyCall rec c ty h) (applyCall rec' c ty h.1).
Proof.
  intros Hh. unfold traced_applyCall, applyCall. destruct (_ >? _); [done|]. destruct (Snapshot _) as [id s].
  destruct (if decide (ty = CallT) then _ else _) as [s'|e]; [|done].
  apply (erases_bind (traced_run rec c _) (run rec' c (set_state s' h.1))); [by apply (traced_run_erases c (on_transition (set_state s') h))|].
  intros r h' Hh'. destruct (Failed r); [|by split; [|apply captureCallEnd_calm]].
  apply (erases_revert id h' r (captureCallEnd c r)); [done|apply captureCallEnd_calm|done].
Qed.

Lemma traced_applyCreate_erases c h : calm h → erases (traced_applyCreate rec c h) (applyCreate rec' c h.1).
Proof.
  intros Hh. unfold traced_applyCreate, applyCreate. cbv zeta. destruct (_ >? _); [done|]. destruct (hasCodeOrNonce _ _); [done|].
  destruct (Snapshot _) as [id s]. destruct (transfer _ _ _ _) as [s'|e]; [|done].
  apply (erases_bind (traced_run rec c _) (run rec' c (set_state s' h.1))); [by apply (traced_run_erases c (on_transition (set_state s') h))|].
  intros r h' Hh'. assert (∀ r' r'' : ExecutionResult, erases (let~ h := traced_revert id h' in Ret (r', captureCallEnd c r'' h)) (let~ t := revert id h'.1 in Ret (r', t))) as Hrev.
  { intros r' r''. apply (erases_revert id h' r' (captureCallEnd c r'')); [done|apply captureCallEnd_calm|done]. }
  destruct (Failed r); [apply Hrev|]. destruct (_ && _); [apply Hrev|].
  destruct (_ <? _); [destruct (Homestead _); [apply Hrev|]|]; (split; [done|by apply captureCallEnd_calm]).
Qed.
End calls.

Lemma traced_Callx_erases fuel c h : calm h → erases (traced_Callx fuel c h) (Callx fuel c h.1).
Proof.
  revert c h. induction fuel as [|fuel IH]; intros c h Hh; cbn [traced_Callx Callx]; [done|].
  destruct (decide _); [by apply traced_applyCreate_erases|by apply traced_applyCall_erases].
Qed.

Lemma traced_execute_erases msg gl h : calm h → erases (traced_execute msg gl h) (execute msg gl h.1).
Proof.
  intros Hh. unfold traced_execute, execute. destruct (tx_To msg) as [to|].
  - unfold traced_Call2, Call2. cbn [on_transition fst set_state set_ctx t_state]. destruct (GetCode to _) as [code s].
    by apply (traced_applyCall_erases _ _ (traced_Callx_erases callDepth) _ _ (set_state s (set_ctx (tx_ctx msg (t_ctx h.1)) h.1), h.2)).
  - by apply (traced_applyCreate_erases _ _ (traced_Callx_erases callDepth) _ (set_ctx (tx_ctx msg (t_ctx h.1)) h.1, h.2)).
Qed.
End transparent.

(** ** What the trace reports *)

Section reports.
Context `{External} `{Secp256k1} `{PrecompiledCrypto} `{GoRuntime} `{MachinePool} `{LRU} `{FinMap Z RT}.

Implicit Type h : traced (RT:=RT).

(** The tracer has the outcome of the transaction's call. *)
Definition reported (r : ExecutionResult) (t : StructTracer) : Prop := tr_output t = ReturnValue r ∧ tr_err t = ExecErr r.

Lemma captureCallEnd_reported c r h : c_Depth c = 1 → reported r (captureCallEnd c r h).2.
Proof. intros Hd. unfold captureCallEnd, CallEnd. cbn [on_tracer snd]. by rewrite Hd. Qed.

Lemma traced_revert_Ret {A} id h (a : A) (k : traced → traced) x h' :
  (let~ h := traced_revert id h in Ret (a, k h)) = Ret (x, h') → x = a ∧ ∃ h, h' = k h.
Proof. destruct (traced_revert id h); cbn [obind]; [|done..]. intros [= <- <-]. eauto. Qed.

(** A call whose value can be paid. *)
Lemma applyCall_reported rec c v h r h' :
  c_Depth c = 1 → c_Value c = Some v → 0 ≤ v ≤ GetBalance (c_Caller c) (t_state h.1) →
  traced_applyCall rec c CallT h = Ret (r, h') → reported r h'.2.
Proof.
  intros Hd Hv Hb. unfold traced_applyCall. rewrite Hd, Hv. change (1 >? maxDepth) with false. cbv iota.
  destruct (Snapshot (t_state h.1)) as [id s] eqn:Es. rewrite decide_True by done.
  destruct (transfer _ _ _ _) as [s'|e] eqn:Et.
  - destruct (traced_run _ _ _) as [[r1 h1]| |]; cbn [obind]; [|done..].
    destruct (Failed r1); [|intros [= <- <-]; by apply captureCallEnd_reported].
    intros (-> & h2 & ->)%(traced_revert_Ret id h1 r1 (captureCallEnd c r1)). by apply captureCallEnd_reported.
  - exfalso. unfold transfer in Et. destruct (SubBalance _ _ _) as [|e'] eqn:Ee; [done|].
    apply SubBalance_Err in Ee; [|lia]. unfold TouchAccount in Ee. rewrite GetBalance_keep in Ee by done.
    unfold Snapshot in Es. injection Es as <- <-. change (GetBalance ?a (mkTxn _ _ _ _)) with (GetBalance a (t_state h.1)) in Ee. lia.
Qed.

Definition unreported (e : option vmError) : Prop := e = Some ErrContractAddressCollision ∨ e = Some ErrMaxCodeSizeExceeded.

Lemma applyCreate_reported rec c v h r h' :
  c_Depth c = 1 → c_Value c = Some v → 0 ≤ v ≤ GetBalance (c_Caller c) (t_state h.1) → ¬ unreported (ExecErr r) →
  traced_applyCreate rec c h = Ret (r, h') → reported r h'.2.
Proof.
  intros Hd Hv Hb Hu. unfold traced_applyCreate. cbv zeta. rewrite Hd, Hv. change (1 >? maxDepth) with false. cbv iota.
  destruct (hasCodeOrNonce _ _); [intros [= <- <-]; destruct Hu; by left|].
  destruct (Snapshot (IncrNonce (c_Caller c) (t_state h.1))) as [id s] eqn:Es.
  destruct (transfer _ _ _ _) as [s'|e] eqn:Et.
  - destruct (traced_run _ _ _) as [[r1 h1]| |]; cbn [obind]; [|done..].
    destruct (Failed r1).
    { intros (-> & h2 & ->)%(traced_revert_Ret id h1 r1 (captureCallEnd c r1)). by apply captureCallEnd_reported. }
    destruct (_ && _).
    { intros (-> & h2 & ->)%(traced_revert_Ret id h1 _ (captureCallEnd c r1)). destruct Hu. by right. }
    destruct (_ <? _); [destruct (Homestead _)|].
    + intros (-> & h2 & ->)%(traced_revert_Ret id h1 _ (captureCallEnd c _)). by apply captureCallEnd_reported.
    + intros [= <- <-]. by apply captureCallEnd_reported.
    + intros [= <- <-]. by apply captureCallEnd_reported.
  - exfalso. unfold transfer in Et. destruct (SubBalance _ _ _) as [|e'] eqn:Ee; [done|]. apply SubBalance_Err in Ee; [|lia].
    change (if EIP158 (t_config h.1) then IncrNonce (c_Address c) (CreateAccount (c_Address c) s) else s) with (forced (t_config h.1) (c_Address c) s) in Ee.
    rewrite GetBalance_forced in Ee. unfold Snapshot in Es. injection Es as <- <-.
    change (GetBalance ?a (mkTxn _ _ _ _)) with (GetBalance a (IncrNonce (c_Caller c) (t_state h.1))) in Ee.
    unfold IncrNonce in Ee. rewrite GetBalance_keep in Ee by done. lia.
Qed.

Lemma GetBalance_IncrNonce a b (t : Txn (RT:=RT)) : GetBalance b (IncrNonce a t) = GetBalance b t.
Proof. by apply GetBalance_keep. Qed.

Lemma execute_reported msg gl h r h' :
  0 ≤ tx_Value msg ≤ GetBalance (tx_From msg) (t_state h.1) → (tx_To msg = None → ¬ unreported (ExecErr r)) →
  traced_execute msg gl h = Ret (r, h') → reported r h'.2.
Proof.
  intros Hv Hu. unfold traced_execute. destruct (tx_To msg) as [to|].
  - unfold traced_Call2. destruct (GetCode to _) as [code s] eqn:Eg. intros Hc. refine (applyCall_reported _ _ (tx_Value msg) _ _ _ _ _ _ Hc); [done..|].
    change (0 ≤ tx_Value msg ≤ GetBalance (tx_From msg) s).
    assert (GetBalance (tx_From msg) s = GetBalance (tx_From msg) (IncrNonce (tx_From msg) (t_state h.1))) as ->; [|by rewrite GetBalance_IncrNonce].
    cbn [on_transition fst set_state set_ctx t_state] in Eg. unfold GetCode in Eg. by repeat case_match; simplify_eq.
  - intros Hc. refine (applyCreate_reported _ _ (tx_Value msg) _ _ _ _ _ _ _ Hc); [done..|exact Hv|by apply Hu].
Qed.

(** The gas of the trace is the gas of the receipt. *)
Lemma consumed_is_used gl refund r :
  sub64 gl (GasLeft (UpdateGasUsed gl refund r)) = GasUsed (UpdateGasUsed gl refund r).
Proof.
  unfold UpdateGasUsed. cbv zeta. cbn [GasLeft GasUsed]. match goal with |- context [add64 (GasLeft r) ?y] => generalize y end. intros x.
  unfold sub64, add64, u64. rewrite Zminus_mod_idemp_r, Zminus_mod_idemp_l. f_equal. lia.
Qed.

(** What [GetResult] gives for a result. *)
Definition trace_result (r : ExecutionResult) (logs : list StructLog) : StructTraceResult :=
  mkTraceResult (Failed r) (GasUsed r) (if Succeeded r || Reverted r then EncodeToString (ReturnValue r) else []) (formatStructLogs logs).

Lemma GetResult_reported r t :
  tr_reason t = None → reported r t → tr_consumedGas t = GasUsed r → GetResult t = Ok (trace_result r (tr_logs t)).
Proof.
  intros Hr [Ho He] Hg. unfold GetResult, trace_result. rewrite Hr, Ho, He, Hg. unfold Failed, Succeeded, Reverted.
  destruct (ExecErr r) as [e|]; [|done]. cbn. by destruct (decide (e = ErrExecutionReverted)) as [->|];
    [rewrite (bool_decide_eq_true_2 (Some _ = Some _))|rewrite (bool_decide_eq_false_2 (Some e = Some _)) by congruence].
Qed.

Lemma traced_apply_erases msg h : calm (tr_gasLimit h.2) h →
  apply_ msg h.1 = through fst (traced_apply msg h) ∧
  match traced_apply msg h with
  | Ret (Ok r, h') => tr_reason h'.2 = None ∧ tr_interrupt h'.2 = false ∧ tr_consumedGas h'.2 = GasUsed r ∧
      (0 ≤ tx_Value msg → (tx_To msg = None → ¬ unreported (ExecErr r)) → reported r h'.2)
  | _ => True
  end.
Proof.
  intros (Hr & Hi & _). unfold traced_apply, apply_. destruct (negb _); [done|]. destruct (subGasLimitPrice _ _) as [t|]; [|done].
  destruct (subGasPool _ _) as [t'|]; [|done]. cbv zeta. destruct (TransactionGasCost _ _ _) as [ig|]; [|done].
  destruct (_ >? _); [done|]. destruct (Z.ltb_spec (GetBalance (tx_From msg) (t_state t')) (tx_Value msg)) as [|Hb]; [done|].
  set (h0 := (t', TxStart (tx_Gas msg) h.2)).
  destruct (traced_execute_erases (tx_Gas msg) msg (sub64 (tx_Gas msg) ig) h0) as [He Hk]; [done|].
  change (h0.1) with t' in He. rewrite He. clear He. destruct (traced_execute _ _ h0) as [[r h1]| |] eqn:Ex; cbn [obind through]; [|done..].
  destruct Hk as (Hr1 & Hi1 & Hg1). unfold settle. cbv zeta. split; [done|]. cbn [snd]. split_and!; [done|done| |].
  - unfold TxEnd. cbn [tr_consumedGas]. rewrite Hg1. apply consumed_is_used.
  - intros Hv Hu. apply (execute_reported msg (sub64 (tx_Gas msg) ig) h0 r h1) in Ex; [exact Ex|split; [done|exact Hb]|exact Hu].
Qed.
End reports.

(** ** Traces of the hub ([server.go]) and the debug endpoints ([debug_endpoint.go]) *)

From S2P Require Import Rlp RlpTypes ChainStorage Trie BuildRoot TrieState Blockchain JsonTypes EthEndpoint.

(** What a trace fails with. *)
Inductive trace_err :=
| TraceGenesis
| TraceNoParent
| TraceCreator
| TraceState (e : applyErr)
| TraceApply (e : TransitionApplicationError)
| TraceNoTarget
| TraceCancelled (reason : trace_reason).

Section hub_trace.
Context `{External} `{RlpReader} `{Secp256k1} `{PrecompiledCrypto} `{GoRuntime} `{MachinePool} `{LRU} `{ChainDeps} `{EthPool} `{FinMap Z RT}.
Variable HeaderHash : Header → Hash.
Variable exec : node → Executor (RT:=RT).

(** The start of a trace: the state that the block's transactions run on. *)
Definition trace_transition (stateRoot : Hash) (header : Header) (n : node) : outcome (result trace_err (Transition (RT:=RT)) * node) :=
  let~ (r, b) := call_dep (GetBlockCreator header) (n_chain n) in
  let n := set_chain b n in
  match r with
  | Err _ => Ret (Err TraceCreator, n)
  | Ok blockCreator =>
      match BeginTxn (exec n) stateRoot header blockCreator with
      | Err e => Ret (Err (TraceState e), n)
      | Ok transition => Ret (Ok transition, n)
      end
  end.

Definition block_transition (block : Block) (n : node) : outcome (result trace_err (Transition (RT:=RT)) * node) :=
  if hd_Number (bk_Header block) =? 0 then Ret (Err TraceGenesis, n)
  else
    let '(parentHeader, b) := readHeader HeaderHash (hd_ParentHash (bk_Header block)) (n_chain n) in
    let n := set_chain b n in
    match parentHeader with
    | None => Ret (Err TraceNoParent, n)
    | Some parentHeader => trace_transition (hd_StateRoot parentHeader) (bk_Header block) n
    end.

Definition finish_trace (tr : StructTracer) : result trace_err StructTraceResult :=
  match GetResult tr with Ok res => Ok res | Err reason => Err (TraceCancelled reason) end.

(** The loop of [TraceBlock]. *)
Fixpoint trace_txs (txs : list Transaction) (h : traced (RT:=RT)) : outcome (result trace_err (list StructTraceResult)) :=
  match txs with
  | [] => Ret (Ok [])
  | tx :: txs =>
      let~ (r, h) := traced_Apply tx (on_tracer Clear h) in
      match r with
      | Err e => Ret (Err (TraceApply e))
      | Ok _ =>
          match finish_trace h.2 with
          | Err e => Ret (Err e)
          | Ok res =>
              let~ rest := trace_txs txs h in
              Ret (match rest with Ok rest => Ok (res :: rest) | Err e => Err e end)
          end
      end
  end.

Definition hub_TraceBlock (block : Block) (tracer : StructTracer) (n : node) : outcome (result trace_err (list StructTraceResult) * node) :=
  let~ (r, n) := block_transition block n in
  match r with
  | Err e => Ret (Err e, n)
  | Ok transition => let~ r := trace_txs (bk_Transactions block) (transition, tracer) in Ret (r, n)
  end.

(** The transactions before the target are applied without a tracer. *)
Fixpoint apply_until (targetTxHash : Hash) (txs : list Transaction) (t : Transition (RT:=RT)) : outcome (result trace_err (Transaction * Transition (RT:=RT))) :=
  match txs with
  | [] => Ret (Err TraceNoTarget)
  | tx :: txs =>
      if tx_Hash tx =? targetTxHash then Ret (Ok (tx, t))
      else
        let~ (r, t) := Apply tx t in
        match r with Err e => Ret (Err (TraceApply e)) | Ok _ => apply_until targetTxHash txs t end
  end.

Definition trace_one (tx : Transaction) (t : Transition (RT:=RT)) (tracer : StructTracer) : outcome (result trace_err StructTraceResult) :=
  let~ (r, h) := traced_Apply tx (t, tracer) in
  Ret (match r with Err e => Err (TraceApply e) | Ok _ => finish_trace h.2 end).

Definition hub_TraceTxn (block : Block) (targetTxHash : Hash) (tracer : StructTracer) (n : node) : outcome (result trace_err StructTraceResult * node) :=
  let~ (r, n) := block_transition block n in
  match r with
  | Err e => Ret (Err e, n)
  | Ok transition =>
      let~ r := apply_until targetTxHash (bk_Transactions block) transition in
      match r with
      | Err e => Ret (Err e, n)
      | Ok (targetTx, transition) => let~ r := trace_one targetTx transition tracer in Ret (r, n)
      end
  end.

Definition hub_TraceCall (tx : Transaction) (parentHeader : Header) (tracer : StructTracer) (n : node) : outcome (result trace_err StructTraceResult * node) :=
  let~ (r, n) := trace_transition (hd_StateRoot parentHeader) parentHeader n in
  match r with
  | Err e => Ret (Err e, n)
  | Ok transition => let~ r := trace_one tx transition tracer in Ret (r, n)
  end.

(** *** The endpoints *)

Record TraceConfig := mkTraceConfig {
  tc_EnableMemory : bool;
  tc_DisableStack : bool;
  tc_DisableStorage : bool;
  tc_EnableReturnData : bool;
  tc_Timeout : option bytes;
}.

Inductive debug_err :=
| ErrTraceGenesisBlock
| ErrNoConfig
| ErrTimeoutFormat
| ErrBlockMissing
| ErrTxMissing
| ErrHeaderMissing
| ErrBlockHex
| ErrBlockRlp
| ErrTrace (e : trace_err).

(** [time.ParseDuration]: whether a text is a duration. *)
Variable ParseDuration : bytes → bool.

(** The tracer; on an error it and the [cancel] function are nil. *)
Definition newTracer (config : option TraceConfig) : result debug_err StructTracer :=
  match config with
  | None => Err ErrNoConfig
  | Some config =>
      if match tc_Timeout config with Some timeout => negb (ParseDuration timeout) | None => false end then Err ErrTimeoutFormat
      else Ok (NewStructTracer (mkTracerConfig (tc_EnableMemory config) (negb (tc_DisableStack config)) (negb (tc_DisableStorage config)) (tc_EnableReturnData config)))
  end.

Definition hub {A} (f : node → outcome (result trace_err A * node)) : eth (result debug_err A) := λ n,
  let~ (r, n) := f n in Ret (Ok (match r with Ok a => Ok a | Err e => Err (ErrTrace e) end), n).

(** [defer cancel()] comes before the test of the error: where [newTracer] failed,
    the deferred call is the one of a nil function. *)
Definition debug_traceBlock (block : Block) (config : option TraceConfig) : eth (result debug_err (list StructTraceResult)) :=
  if hd_Number (bk_Header block) =? 0 then eret (Err ErrTraceGenesisBlock)
  else match newTracer config with
       | Err _ => epanic
       | Ok tracer => hub (hub_TraceBlock block tracer)
       end.

Definition debug_TraceBlockByNumber (blockNumber : BlockNumber) (config : option TraceConfig) : eth (result debug_err (list StructTraceResult)) :=
  let@ num := numeric blockNumber in
  let@ block := ByNumber HeaderHash num true in
  match block with None => eret (Err ErrBlockMissing) | Some block => debug_traceBlock block config end.

Definition debug_TraceBlockByHash (blockHash : Hash) (config : option TraceConfig) : eth (result debug_err (list StructTraceResult)) :=
  let@ block := ByHash HeaderHash blockHash true in
  match block with None => eret (Err ErrBlockMissing) | Some block => debug_traceBlock block config end.

Definition debug_TraceBlock (input : bytes) (config : option TraceConfig) : eth (result debug_err (list StructTraceResult)) :=
  match DecodeHex input with
  | None => eret (Err ErrBlockHex)
  | Some blockByte =>
      match bk_UnmarshalRLP HeaderHash blockByte with
      | None => eret (Err ErrBlockRlp)
      | Some block => debug_traceBlock block config
      end
  end.

Definition debug_TraceTransaction (txHash : Hash) (config : option TraceConfig) : eth (result debug_err StructTraceResult) :=
  let@ found := GetTxAndBlockByTxHash HeaderHash txHash in
  match found with
  | None => eret (Err ErrTxMissing)
  | Some (tx, block) =>
      if hd_Number (bk_Header block) =? 0 then eret (Err ErrTraceGenesisBlock)
      else match newTracer config with
           | Err e => eret (Err e)
           | Ok tracer => hub (hub_TraceTxn block (tx_Hash tx) tracer)
           end
  end.

Definition debug_TraceCall (arg : txnArgs) (filter : BlockNumberOrHash) (config : option TraceConfig) : eth (result debug_err StructTraceResult) :=
  let@ header := etry (GetHeaderFromBlockNumberOrHash HeaderHash filter) in
  match header with
  | Err _ => eret (Err ErrHeaderMissing)
  | Ok header =>
      let@ tx := DecodeTxn HeaderHash arg in
      let@ gasLimit := (if tx_Gas tx =? 0 then let@ header := deref header in eret (hd_GasLimit header) else eret (tx_Gas tx)) in
      match newTracer config with
      | Err _ => epanic
      | Ok tracer => let@ header := deref header in hub (hub_TraceCall (set_Gas gasLimit tx) header tracer)
      end
  end.
End hub_trace.

(** ** Theorems *)

Section exact.
Context `{External} `{Secp256k1} `{PrecompiledCrypto} `{GoRuntime} `{MachinePool} `{LRU} `{FinMap Z RT}.

Lemma traced_Apply_erases msg (t : Transition (RT:=RT)) tr : tr_reason tr = None → tr_interrupt tr = false →
  Apply msg t = through fst (traced_Apply msg (t, tr)) ∧
  match traced_Apply msg (t, tr) with
  | Ret (Ok r, h') => tr_reason h'.2 = None ∧ tr_interrupt h'.2 = false ∧ tr_consumedGas h'.2 = GasUsed r ∧
      (0 ≤ tx_Value msg → (tx_To msg = None → ¬ unreported (ExecErr r)) → reported r h'.2)
  | _ => True
  end.
Proof.
  intros Hr Hi. unfold traced_Apply, Apply. cbn [fst]. destruct (Snapshot (t_state t)) as [id s].
  destruct (traced_apply_erases msg (on_transition (set_state s) (t, tr))) as [He Hp]; [done|].
  change (on_transition (set_state s) (t, tr)).1 with (set_state s t) in He. rewrite He. clear He.
  destruct (traced_apply _ _) as [[[r|e] h]| |]; cbn [obind through]; [done| |done..].
  unfold traced_revert. by destruct (revert id h.1).
Qed.

(** C17.  Tracing is exact.  A transaction applied with a tracer that is not cancelled
    has the outcome, the result and the state of the transaction applied without
    one.  The result of the trace has the gas of the receipt, whether the
    transaction failed, and what it returned unless it failed otherwise than by a
    revert; only the two failures of a creation that happen outside its run are
    not seen. *)
Theorem tracing_is_exact msg (t : Transition (RT:=RT)) tr : tr_reason tr = None → tr_interrupt tr = false → 0 ≤ tx_Value msg →
  Apply msg t = through fst (traced_Apply msg (t, tr)) ∧
  ∀ r h', traced_Apply msg (t, tr) = Ret (Ok r, h') → (tx_To msg = None → ¬ unreported (ExecErr r)) →
    GetResult h'.2 = Ok (trace_result r (tr_logs h'.2)).
Proof.
  intros Hr Hi Hv. destruct (traced_Apply_erases msg t tr Hr Hi) as [He Hp]. split; [done|].
  intros r h' Ha Hu. rewrite Ha in Hp. destruct Hp as (Hr' & _ & Hg & Hrep). apply GetResult_reported; auto.
Qed.

(** *** Blocks *)

(** The transactions of a block one after the other, as [Apply] runs them. *)
Fixpoint apply_all (txs : list Transaction) (t : Transition (RT:=RT)) : outcome (result TransitionApplicationError (list ExecutionResult)) :=
  match txs with
  | [] => Ret (Ok [])
  | tx :: txs =>
      let~ (r, t) := Apply tx t in
      match r with
      | Err e => Ret (Err e)
      | Ok r => let~ rest := apply_all txs t in Ret (match rest with Ok rest => Ok (r :: rest) | Err e => Err e end)
      end
  end.

(** The trace of a transaction that gave a result. *)
Definition trace_of (tx : Transaction) (r : ExecutionResult) (res : StructTraceResult) : Prop :=
  res_Gas res = GasUsed r ∧
  (0 ≤ tx_Value tx → (tx_To tx = None → ¬ unreported (ExecErr r)) → ∃ logs, res = trace_result r logs).

Lemma finish_trace_ok t : tr_reason t = None → ∃ res, finish_trace t = Ok res ∧ GetResult t = Ok res ∧ res_Gas res = tr_consumedGas t.
Proof. intros Hr. unfold finish_trace, GetResult. rewrite Hr. eauto. Qed.

Lemma trace_txs_exact txs (t : Transition (RT:=RT)) tr :
  match apply_all txs t with
  | Ret (Ok rs) => ∃ results, trace_txs txs (t, tr) = Ret (Ok results) ∧ Forall3 trace_of txs rs results
  | Ret (Err e) => trace_txs txs (t, tr) = Ret (Err (TraceApply e))
  | Panic => trace_txs txs (t, tr) = Panic
  | NoFuel => trace_txs txs (t, tr) = NoFuel
  end.
Proof.
  revert t tr. induction txs as [|tx txs IH]; intros t tr; cbn [apply_all trace_txs]; [eexists; split; [done|constructor]|].
  change (on_tracer Clear (t, tr)) with (t, Clear tr).
  destruct (traced_Apply_erases tx t (Clear tr) eq_refl eq_refl) as [-> Hp].
  destruct (traced_Apply tx _) as [[[r|e] h]| |]; cbn [obind through]; [|done..]. destruct Hp as (Hr & _ & Hg & Hrep).
  destruct (finish_trace_ok h.2 Hr) as (res & -> & Hres & Hgas). destruct h as [t1 tr1]. cbn [fst snd] in *. specialize (IH t1 tr1).
  destruct (apply_all txs t1) as [[rs|e]| |]; cbn [obind]; [|by rewrite IH..].
  destruct IH as (results & -> & IH). eexists. split; [done|]. constructor; [|done]. split; [congruence|].
  intros Hv Hu. rewrite (GetResult_reported r tr1 Hr (Hrep Hv Hu) Hg) in Hres. injection Hres as <-. eauto.
Qed.
End exact.

Section hub_exact.
Context `{External} `{RlpReader} `{Secp256k1} `{PrecompiledCrypto} `{GoRuntime} `{MachinePool} `{LRU} `{ChainDeps} `{EthPool} `{FinMap Z RT}.
Variable HeaderHash : Header → Hash.
Variable exec : node → Executor (RT:=RT).


(** [Clear] forgets a cancellation: a timeout that passes before the first
    transaction does not stop the trace of a block. *)
Lemma early_timeout_is_lost block reason tracer n :
  hub_TraceBlock HeaderHash exec block (Cancel reason tracer) n = hub_TraceBlock HeaderHash exec block tracer n.
Proof.
  unfold hub_TraceBlock. destruct (block_transition _ _ _ _) as [[[t|e] n']| |]; [|done..]. by destruct (bk_Transactions block).
Qed.

(** Without a configuration, or with a timeout that does not parse, the request
    calls a nil function. *)
Lemma trace_without_config_panics ParseDuration block n :
  hd_Number (bk_Header block) ≠ 0 → debug_traceBlock HeaderHash exec ParseDuration block None n = Panic.
Proof. intros Hn. unfold debug_traceBlock. by rewrite (proj2 (Z.eqb_neq _ _) Hn). Qed.

(** The block of [debug_traceBlock] is decoded without the senders of its
    transactions, and nothing recovers them: they are run as the zero address. *)
Lemma raw_block_has_no_senders data block :
  bk_UnmarshalRLP HeaderHash data = Some block → Forall (λ tx, tx_From tx = ZeroAddress) (bk_Transactions block).
Proof.
  unfold bk_UnmarshalRLP, UnmarshalRlp. intros (v & _ & Hb)%bind_Some. revert Hb. unfold bk_UnmarshalRLPFrom.
  intros (elems & _ & Hb)%bind_Some. destruct elems as [|e0 [|e1 [|e2 elems]]]; [done..|].
  apply bind_Some in Hb as (hd & _ & Hb). apply bind_Some in Hb as (txns & _ & Hb). apply bind_Some in Hb as (txs & Htx & Hb).
  apply bind_Some in Hb as (us & _ & Hb). apply bind_Some in Hb as (us' & _ & Hb). injection Hb as <-. cbn [bk_Transactions].
  apply mapM_Some in Htx. induction Htx as [|x y l l' Hxy _ IH]; constructor; [|done].
  unfold tx_UnmarshalRLPFrom in Hxy. apply bind_Some in Hxy as (es & _ & Hxy). repeat (case_match; [done|]).
  repeat (apply bind_Some in Hxy as (? & _ & Hxy)). by injection Hxy as <-.
Qed.
End hub_exact.

(** Every instruction has a name of its own. *)
Lemma instructions_are_named `{External} `{GoRuntime} `{Host HS} :
  (∀ op i, dispatchTable (HS:=HS) !! op = Some i → OpCode_String op ≠ []) ∧
  (∀ op op' i i', dispatchTable (HS:=HS) !! op = Some i → dispatchTable (HS:=HS) !! op' = Some i' → OpCode_String op = OpCode_String op' → op = op').
Proof.
  assert (∀ op i, dispatchTable (HS:=HS) !! op = Some i → op ∈ (registrations (HS:=HS)).*1) as Hin.
  { intros op i Hi%dispatch_iff. apply list_elem_of_fmap. by exists (op, i). }
  set (keys := (registrations (HS:=HS)).*1) in Hin.
  assert (forallb (λ op, negb (bool_decide (OpCode_String op = []))) keys = true) as Hne by (vm_compute; reflexivity).
  assert (forallb (λ op, forallb (λ op', bool_decide (op = op') || negb (bool_decide (OpCode_String op = OpCode_String op'))) keys) keys = true) as Hap
    by (vm_compute; reflexivity).
  rewrite forallb_forall in Hne, Hap. split.
  - intros op i Hi. specialize (Hne op (proj1 (list_elem_of_In _ _) (Hin _ _ Hi))). by apply negb_true_iff, bool_decide_eq_false in Hne.
  - intros op op' i i' Hi Hi' He. specialize (Hap op (proj1 (list_elem_of_In _ _) (Hin _ _ Hi))). rewrite forallb_forall in Hap.
    specialize (Hap op' (proj1 (list_elem_of_In _ _) (Hin _ _ Hi'))). rewrite (bool_decide_eq_true_2 _ He), orb_false_r in Hap. by apply bool_decide_eq_true in Hap.
Qed.

(** ** Concrete traces *)

From S2P Require Import ExecutorExample.

Module Tracing.
Import ToyState.

Definition full : StructTracer := NewStructTracer (mkTracerConfig true true true true).
Definition tx (nonce gas : Z) (to : option Z) (value : Z) (input : bytes) : Transaction :=
  mkTransaction nonce 2 gas to value input None None None 0 100.

(** A call of the contract that destroys itself. *)
Definition kill : Transaction := tx 0 60000 (Some 77) 0 [].

Lemma tracing_is_exact_witness :
  Apply kill h0 = through fst (traced_Apply kill (h0, full)) ∧
  ∀ r h', traced_Apply kill (h0, full) = Ret (Ok r, h') → (tx_To kill = None → ¬ unreported (ExecErr r)) →
    GetResult h'.2 = Ok (trace_result r (tr_logs h'.2)).
Proof. exact (tracing_is_exact kill h0 full eq_refl eq_refl ltac:(done)). Defined.

(** Refunds are not reset between the transactions of a traced block: the gas of a
    transfer after a contract's destruction is half of what its receipt says. *)
Definition next : Transaction := tx 1 21000 (Some 200) 7 [].
Lemma refund_leaks_into_next_trace :
  match trace_txs [kill; next] (h0, full) with Ret (Ok results) => res_Gas <$> results | _ => [] end = [13001; 10500] ∧
  match ProcessTransactions 10000000 [kill; next] h0 with Ret (Ok t) => rc_GasUsed <$> t_receipts t | _ => [] end = [13001; 21000].
Proof. by vm_compute. Qed.

(** [SSTORE] takes its slot from the top of the stack, the trace from below it:
    storing 7 in the slot 1 is written as 1 in the slot 7. *)
Definition store : Transaction := tx 0 200000 None 0 [0x60; 7; 0x60; 1; 0x55].
Lemma traced_store_is_swapped :
  match traced_Apply store (h0, full) with
  | Ret (Ok r, h) => (λ '(a, slots), (GetState a 1 (t_state h.1), slots)) <$> map_to_list (tr_storage h.2)
  | _ => []
  end = [(7, {[7 := 1]})].
Proof. by vm_compute. Qed.

(** A creation whose code is too long fails; its trace says that it did not. *)
Definition oversized : Transaction := tx 0 200000 None 0 [0x61; 0x60; 0x01; 0x60; 0; 0xF3].
Lemma oversized_creation_is_not_reported :
  match traced_Apply oversized (h0, full) with Ret (Ok r, h) => Some (ExecErr r, tr_err h.2) | _ => None end = Some (Some ErrMaxCodeSizeExceeded, None).
Proof. by vm_compute. Qed.
End Tracing.
