(* ===== verification/Network.v ===== *)
(** Package [network]: connection slots ([connections.go]), the queue of dials
    ([dial]), the table of peers ([server.go], [server_identity.go],
    [server_discovery.go], [bootnodes.go]), the handshake ([identity/identity.go])
    and the search for peers ([discovery/discovery.go]).

    libp2p is another package: what its host says of a peer, and what a peer
    answers, are arguments; so are the random numbers and the order in which Go
    visits a map.  The routing table is that of go-libp2p-kbucket ([RoutingTable]),
    with the callbacks it makes.  Events are appended to a list, metrics are left
    out.  Every method that the source marks as thread safe is one operation. *)
From stdpp Require Import strings.
From S2P Require Import Prelude Types Runtime GoHeap GoHeapIndex Text.

(** [peer.ID] and [network.Direction] of libp2p. *)
Definition PeerID : Type := bytes.

Inductive Direction := DirUnknown | DirInbound | DirOutbound.
#[export] Instance Direction_eq_dec : EqDecision Direction.
Proof. solve_decision. Defined.
#[export] Instance Direction_countable : Countable Direction.
Proof.
  apply (inj_countable' (λ d, match d with DirUnknown => None | DirInbound => Some true | DirOutbound => Some false end)
    (λ o, match o with None => DirUnknown | Some true => DirInbound | Some false => DirOutbound end)). by intros [].
Defined.

(** [peer.AddrInfo]: addresses are their text. *)
Record AddrInfo := mkAddrInfo {
  ai_ID : PeerID;
  ai_Addrs : list bytes;
}.

(** ** Connection counts ([connections.go]) *)

Record ConnectionInfo := mkCounts {
  inboundConnectionCount : Z;
  outboundConnectionCount : Z;
  pendingInboundConnectionCount : Z;
  pendingOutboundConnectionCount : Z;
  maxInboundConnectionCount : Z;
  maxOutboundConnectionCount : Z;
}.

Definition NewBlankConnectionInfo (maxInboundConnCount maxOutboundConnCount : Z) : ConnectionInfo :=
  mkCounts 0 0 0 0 maxInboundConnCount maxOutboundConnCount.

Definition incInboundConnCount (delta : Z) (ci : ConnectionInfo) : ConnectionInfo :=
  mkCounts (s64 (inboundConnectionCount ci + delta)) (outboundConnectionCount ci) (pendingInboundConnectionCount ci)
    (pendingOutboundConnectionCount ci) (maxInboundConnectionCount ci) (maxOutboundConnectionCount ci).
Definition incPendingInboundConnCount (delta : Z) (ci : ConnectionInfo) : ConnectionInfo :=
  mkCounts (inboundConnectionCount ci) (outboundConnectionCount ci) (s64 (pendingInboundConnectionCount ci + delta))
    (pendingOutboundConnectionCount ci) (maxInboundConnectionCount ci) (maxOutboundConnectionCount ci).
Definition incPendingOutboundConnCount (delta : Z) (ci : ConnectionInfo) : ConnectionInfo :=
  mkCounts (inboundConnectionCount ci) (outboundConnectionCount ci) (pendingInboundConnectionCount ci)
    (s64 (pendingOutboundConnectionCount ci + delta)) (maxInboundConnectionCount ci) (maxOutboundConnectionCount ci).
Definition incOutboundConnCount (delta : Z) (ci : ConnectionInfo) : ConnectionInfo :=
  mkCounts (inboundConnectionCount ci) (s64 (outboundConnectionCount ci + delta)) (pendingInboundConnectionCount ci)
    (pendingOutboundConnectionCount ci) (maxInboundConnectionCount ci) (maxOutboundConnectionCount ci).

Definition HasFreeOutboundConn (ci : ConnectionInfo) : bool :=
  s64 (outboundConnectionCount ci + pendingOutboundConnectionCount ci) <? maxOutboundConnectionCount ci.
Definition HasFreeInboundConn (ci : ConnectionInfo) : bool :=
  s64 (inboundConnectionCount ci + pendingInboundConnectionCount ci) <? maxInboundConnectionCount ci.

Definition UpdateConnCountByDirection (delta : Z) (direction : Direction) (ci : ConnectionInfo) : ConnectionInfo :=
  match direction with
  | DirInbound => incInboundConnCount delta ci
  | DirOutbound => incOutboundConnCount delta ci
  | DirUnknown => ci
  end.

Definition UpdatePendingConnCountByDirection (delta : Z) (direction : Direction) (ci : ConnectionInfo) : ConnectionInfo :=
  match direction with
  | DirInbound => incPendingInboundConnCount delta ci
  | DirOutbound => incPendingOutboundConnCount delta ci
  | DirUnknown => ci
  end.

Definition HasFreeConnectionSlot (direction : Direction) (ci : ConnectionInfo) : bool :=
  match direction with
  | DirInbound => HasFreeInboundConn ci
  | DirOutbound => HasFreeOutboundConn ci
  | DirUnknown => false
  end.

(** ** The dial queue ([dial]) *)

Definition PriorityRequestedDial : Z := 1.
Definition PriorityRandomDial : Z := 10.

Record DialTask := mkTask {
  dt_index : Z;
  dt_addrInfo : AddrInfo;
  dt_priority : Z;
}.
Definition set_index (i : Z) (t : DialTask) : DialTask := mkTask i (dt_addrInfo t) (dt_priority t).

(** [dialQueueImpl]: the tasks are pointers. *)
Definition priority_of (objs : list DialTask) (p : nat) : Z := from_option dt_priority 0 (objs !! p).

#[export] Instance task_store : ItemStore (list DialTask) := {|
  item_less objs a b := priority_of objs a <? priority_of objs b;
  item_index p objs := dt_index <$> objs !! p;
  set_item_index p i objs := alter (set_index i) p objs;
|}.

(** The goroutine in [PopTask]: elsewhere, between its try and the [select], in
    the [select], or woken. *)
Inductive waiter := Away | Tried | Waiting | Woken.

Record DialQueue := mkQueue {
  dq_objs : list DialTask;
  dq_heap : list nat;
  dq_tasks : gmap PeerID nat;
  dq_waiter : waiter;
}.
Definition set_heap (h : list nat * list DialTask) (d : DialQueue) : DialQueue := mkQueue h.2 h.1 (dq_tasks d) (dq_waiter d).
Definition set_tasks (m : gmap PeerID nat) (d : DialQueue) : DialQueue := mkQueue (dq_objs d) (dq_heap d) m (dq_waiter d).
Definition set_waiter (w : waiter) (d : DialQueue) : DialQueue := mkQueue (dq_objs d) (dq_heap d) (dq_tasks d) w.

Definition NewDialQueue : DialQueue := mkQueue [] [] ∅ Away.

Definition popTaskImpl (d : DialQueue) : outcome (option nat * DialQueue) :=
  if bool_decide (dq_heap d = []) then Ret (None, d)
  else
    let~ (task, h) := heap_Pop (dq_heap d, dq_objs d) in
    Ret (Some task, set_heap h d).

(** One turn of [PopTask] up to its [select]. *)
Definition PopTask_try (d : DialQueue) : outcome (option nat * DialQueue) :=
  let~ (task, d) := popTaskImpl d in
  Ret (task, set_waiter (match task with Some _ => Away | None => Tried end) d).
Definition PopTask_select (d : DialQueue) : DialQueue := set_waiter Waiting d.

Definition DeleteTask (peer : PeerID) (d : DialQueue) : outcome DialQueue :=
  match dq_tasks d !! peer with
  | None => Ret d
  | Some p =>
      match dq_objs d !! p with
      | None => Panic
      | Some item =>
          let~ d :=
            if 0 <=? dt_index item then
              let~ (_, h) := heap_Remove (dt_index item) (dq_heap d, dq_objs d) in Ret (set_heap h d)
            else Ret d in
          Ret (set_tasks (base.delete peer (dq_tasks d)) d)
      end
  end.

(** The signal is received only by a goroutine that waits for it. *)
Definition AddTask (addrInfo : AddrInfo) (priority : Z) (d : DialQueue) : DialQueue :=
  let p := length (dq_objs d) in
  let d := mkQueue (dq_objs d ++ [mkTask 0 addrInfo priority]) (dq_heap d) (<[ai_ID addrInfo := p]> (dq_tasks d)) (dq_waiter d) in
  let d := set_heap (heap_Push p (dq_heap d, dq_objs d)) d in
  match dq_waiter d with Waiting => set_waiter Woken d | _ => d end.

(** ** The server *)

(** A stream to a peer is known by a number. *)
Record PeerConnInfo := mkConnInfo {
  pc_Info : AddrInfo;
  pc_connDirections : gmap Direction bool;
  pc_protocolStreams : gmap bytes (option nat);
}.

Definition addProtocolStream (protocol : bytes) (stream : option nat) (pci : PeerConnInfo) : PeerConnInfo :=
  mkConnInfo (pc_Info pci) (pc_connDirections pci) (<[protocol := stream]> (pc_protocolStreams pci)).
(** The stream to close, if any. *)
Definition removeProtocolStream (protocol : bytes) (pci : PeerConnInfo) : option nat * PeerConnInfo :=
  match pc_protocolStreams pci !! protocol with
  | None => (None, pci)
  | Some stream => (stream, mkConnInfo (pc_Info pci) (pc_connDirections pci) (base.delete protocol (pc_protocolStreams pci)))
  end.
Definition getProtocolStream (protocol : bytes) (pci : PeerConnInfo) : option nat := mjoin (pc_protocolStreams pci !! protocol).

Record bootnodesWrapper := mkBootnodes {
  bootnodeArr : list AddrInfo;
  bootnodesMap : gmap PeerID AddrInfo;
  bootnodeConnCount : Z;
}.
Definition isBootnode (nodeID : PeerID) (bw : bootnodesWrapper) : bool := match bootnodesMap bw !! nodeID with Some _ => true | None => false end.
Definition increaseBootnodeConnCount (delta : Z) (bw : bootnodesWrapper) : bootnodesWrapper :=
  mkBootnodes (bootnodeArr bw) (bootnodesMap bw) (s64 (bootnodeConnCount bw + delta)).
Definition hasBootnodes (bw : bootnodesWrapper) : bool := (0 <? length (bootnodeArr bw))%nat.

Inductive PeerEventType := PeerConnected | PeerFailedToConnect | PeerDisconnected | PeerDialCompleted | PeerAddedToDialQueue.
Record PeerEvent := mkPeerEvent {
  pe_PeerID : PeerID;
  pe_Type : PeerEventType;
}.

Record Server := mkServer {
  sv_NoDiscover : bool;
  sv_peers : gmap PeerID PeerConnInfo;
  sv_dialQueue : DialQueue;
  sv_connectionCounts : ConnectionInfo;
  sv_temporaryDials : gmap PeerID bool;
  sv_bootnodes : bootnodesWrapper;
  sv_events : list PeerEvent;
}.
Definition set_peers (m : gmap PeerID PeerConnInfo) (s : Server) : Server :=
  mkServer (sv_NoDiscover s) m (sv_dialQueue s) (sv_connectionCounts s) (sv_temporaryDials s) (sv_bootnodes s) (sv_events s).
Definition set_dialQueue (d : DialQueue) (s : Server) : Server :=
  mkServer (sv_NoDiscover s) (sv_peers s) d (sv_connectionCounts s) (sv_temporaryDials s) (sv_bootnodes s) (sv_events s).
Definition set_counts (c : ConnectionInfo) (s : Server) : Server :=
  mkServer (sv_NoDiscover s) (sv_peers s) (sv_dialQueue s) c (sv_temporaryDials s) (sv_bootnodes s) (sv_events s).
Definition set_temporaryDials (m : gmap PeerID bool) (s : Server) : Server :=
  mkServer (sv_NoDiscover s) (sv_peers s) (sv_dialQueue s) (sv_connectionCounts s) m (sv_bootnodes s) (sv_events s).
Definition set_bootnodes (bw : bootnodesWrapper) (s : Server) : Server :=
  mkServer (sv_NoDiscover s) (sv_peers s) (sv_dialQueue s) (sv_connectionCounts s) (sv_temporaryDials s) bw (sv_events s).

Definition NewServer (noDiscover : bool) (maxInboundPeers maxOutboundPeers : Z) : Server :=
  mkServer noDiscover ∅ NewDialQueue (NewBlankConnectionInfo maxInboundPeers maxOutboundPeers) ∅ (mkBootnodes [] ∅ 0) [].

Definition emitEvent (peerID : PeerID) (type : PeerEventType) (s : Server) : Server :=
  mkServer (sv_NoDiscover s) (sv_peers s) (sv_dialQueue s) (sv_connectionCounts s) (sv_temporaryDials s) (sv_bootnodes s)
    (sv_events s ++ [mkPeerEvent peerID type]).

Inductive net_err := ErrNoBootnodes | ErrMinBootnodes | ErrParseBootnode | ErrProtocol.

(** The loop of [setupBootnodes]; an address is parsed by libp2p. *)
Fixpoint parse_bootnodes (StringToAddrInfo : bytes → option AddrInfo) (host : PeerID) (raw : list bytes)
    (arr : list AddrInfo) (m : gmap PeerID AddrInfo) : result net_err (list AddrInfo * gmap PeerID AddrInfo) :=
  match raw with
  | [] => Ok (arr, m)
  | rawAddr :: raw =>
      match StringToAddrInfo rawAddr with
      | None => Err ErrParseBootnode
      | Some bootnode =>
          if bool_decide (ai_ID bootnode = host) then parse_bootnodes StringToAddrInfo host raw arr m
          else parse_bootnodes StringToAddrInfo host raw (arr ++ [bootnode]) (<[ai_ID bootnode := bootnode]> m)
      end
  end.

Definition setupBootnodes (StringToAddrInfo : bytes → option AddrInfo) (host : PeerID) (bootnodes : option (list bytes)) (s : Server)
    : result net_err Server :=
  match bootnodes with
  | None => Err ErrNoBootnodes
  | Some raw =>
      if (length raw <? 1)%nat then Err ErrMinBootnodes
      else
        match parse_bootnodes StringToAddrInfo host raw [] ∅ with
        | Err e => Err e
        | Ok (arr, m) => Ok (set_bootnodes (mkBootnodes arr m 0) s)
        end
  end.

Definition numPeers (s : Server) : Z := Z.of_nat (size (sv_peers s)).
Definition hasPeer (peerID : PeerID) (s : Server) : bool := match sv_peers s !! peerID with Some _ => true | None => false end.

Definition updateBootnodeConnCount (peerID : PeerID) (delta : Z) (s : Server) : Server :=
  if sv_NoDiscover s || negb (isBootnode peerID (sv_bootnodes s)) then s
  else set_bootnodes (increaseBootnodeConnCount delta (sv_bootnodes s)) s.

(** What a connection in a direction adds to the counters. *)
Definition count_connection (peerID : PeerID) (delta : Z) (direction : Direction) (s : Server) : Server :=
  updateBootnodeConnCount peerID delta (set_counts (UpdateConnCountByDirection delta direction (sv_connectionCounts s)) s).

(** [PeerInfo] is what the peer store of the host knows. *)
Definition addPeerInfo (PeerInfo : PeerID → AddrInfo) (id : PeerID) (direction : Direction) (s : Server) : bool * Server :=
  let connectionInfo := sv_peers s !! id in
  if match connectionInfo with Some i => default false (pc_connDirections i !! direction) | None => false end then (true, s)
  else
    let connectionInfo := default (mkConnInfo (PeerInfo id) ∅ ∅) connectionInfo in
    let connectionInfo := mkConnInfo (pc_Info connectionInfo) (<[direction := true]> (pc_connDirections connectionInfo)) (pc_protocolStreams connectionInfo) in
    let s := set_peers (<[id := connectionInfo]> (sv_peers s)) s in
    (false, count_connection id 1 direction s).

Definition AddPeer (PeerInfo : PeerID → AddrInfo) (id : PeerID) (direction : Direction) (s : Server) : Server :=
  let '(connectionExists, s) := addPeerInfo PeerInfo id direction s in
  if connectionExists : bool then s else emitEvent id PeerConnected s.

Definition removePeerInfo (peerID : PeerID) (s : Server) : option PeerConnInfo * Server :=
  match sv_peers s !! peerID with
  | None => (None, s)
  | Some connectionInfo =>
      let s := set_peers (base.delete peerID (sv_peers s)) s in
      (Some connectionInfo,
       foldr (λ '(connDirection, active) s, if active : bool then count_connection peerID (-1) connDirection s else s) s
         (map_to_list (pc_connDirections connectionInfo)))
  end.

Definition removePeer (peerID : PeerID) (s : Server) : Server :=
  let '(connectionInfo, s) := removePeerInfo peerID s in
  match connectionInfo with None => s | Some _ => emitEvent peerID PeerDisconnected s end.

Definition UpdatePendingConnCount (delta : Z) (direction : Direction) (s : Server) : Server :=
  set_counts (UpdatePendingConnCountByDirection delta direction (sv_connectionCounts s)) s.
Definition IsTemporaryDial (peerID : PeerID) (s : Server) : bool := match sv_temporaryDials s !! peerID with Some _ => true | None => false end.
Definition FetchOrSetTemporaryDial (peerID : PeerID) (newValue : bool) (s : Server) : bool * Server :=
  match sv_temporaryDials s !! peerID with
  | Some _ => (true, s)
  | None => (false, set_temporaryDials (<[peerID := newValue]> (sv_temporaryDials s)) s)
  end.
Definition RemoveTemporaryDial (peerID : PeerID) (s : Server) : Server := set_temporaryDials (base.delete peerID (sv_temporaryDials s)) s.

(** *** Dialing *)

Definition addToDialQueue (addr : AddrInfo) (priority : Z) (s : Server) : Server :=
  emitEvent (ai_ID addr) PeerAddedToDialQueue (set_dialQueue (AddTask addr priority (sv_dialQueue s)) s).
Definition joinPeer (peerInfo : AddrInfo) (s : Server) : Server := addToDialQueue peerInfo PriorityRequestedDial s.
Definition TemporaryDialPeer (peerAddrInfo : AddrInfo) (s : Server) : Server := addToDialQueue peerAddrInfo PriorityRandomDial s.

(** The unconnected bootnodes, of which [randNum] chooses one. *)
Definition GetRandomBootnode (randNum : nat) (s : Server) : option AddrInfo :=
  filter (λ v, hasPeer (ai_ID v) s = false) (bootnodeArr (sv_bootnodes s)) !! randNum.

(** [order] is the order in which the map is visited. *)
Definition GetRandomPeer (order : list PeerID) (randNum : nat) (s : Server) : option PeerID :=
  if bool_decide (size (sv_peers s) = 0%nat) then None else order !! randNum.

(** A turn of [keepAliveMinimumPeerConnections]. *)
Definition keep_alive (connected : PeerID → bool) (PeerInfo : PeerID → AddrInfo) (order : list PeerID) (randNum : nat) (s : Server) : Server :=
  if numPeers s <? 1 then
    if sv_NoDiscover s || negb (hasBootnodes (sv_bootnodes s)) then
      match GetRandomPeer order randNum s with
      | Some randPeer => if connected randPeer then s else addToDialQueue (PeerInfo randPeer) PriorityRandomDial s
      | None => s
      end
    else
      match GetRandomBootnode randNum s with
      | Some randomNode => addToDialQueue randomNode PriorityRandomDial s
      | None => s
      end
  else s.

(** [runDial] looks for a free slot before it calls [PopTask], not when it is woken
    inside. *)
Definition may_pop (s : Server) : bool :=
  match dq_waiter (sv_dialQueue s) with
  | Away => HasFreeOutboundConn (sv_connectionCounts s)
  | Woken => true
  | Tried | Waiting => false
  end.

(** A turn of [runDial]: a task is popped; the host connects unless it is connected,
    and an error is an event.  The result is the address dialed. *)
Definition run_dial (connected : PeerID → bool) (connect_ok : AddrInfo → bool) (s : Server) : outcome (option AddrInfo * Server) :=
  if may_pop s then
    let~ (task, d) := PopTask_try (sv_dialQueue s) in
    let s := set_dialQueue d s in
    match task with
    | None => Ret (None, s)
    | Some p =>
        match dq_objs d !! p with
        | None => Panic
        | Some task =>
            let peerInfo := dt_addrInfo task in
            if connected (ai_ID peerInfo) then Ret (None, s)
            else Ret (Some peerInfo, if connect_ok peerInfo then s else emitEvent (ai_ID peerInfo) PeerFailedToConnect s)
        end
    end
  else Ret (None, s).

(** *** Streams *)

Definition getProtoStream (protocol : bytes) (peerID : PeerID) (s : Server) : option nat := sv_peers s !! peerID ≫= getProtocolStream protocol.
Definition SaveProtocolStream (protocol : bytes) (stream : option nat) (peerID : PeerID) (s : Server) : Server :=
  match sv_peers s !! peerID with
  | None => s
  | Some i => set_peers (<[peerID := addProtocolStream protocol stream i]> (sv_peers s)) s
  end.
Definition CloseProtocolStream (protocol : bytes) (peerID : PeerID) (s : Server) : option nat * Server :=
  match sv_peers s !! peerID with
  | None => (None, s)
  | Some i => let '(closed, i) := removeProtocolStream protocol i in (closed, set_peers (<[peerID := i]> (sv_peers s)) s)
  end.

Definition DiscProto : bytes := str "/disc/0.1".

(** A stream that exists, or a new one: [stream] is what opening it gives. *)
Definition NewDiscoveryClient (connected : PeerID → bool) (stream : option nat) (peerID : PeerID) (s : Server) : option nat * Server :=
  let isTemporaryDial := IsTemporaryDial peerID s in
  if negb (connected peerID) && negb isTemporaryDial then (None, s)
  else
    match getProtoStream DiscProto peerID s with
    | Some protoStream => (Some protoStream, s)
    | None =>
        match stream with
        | None => (None, s)
        | Some c => (Some c, if isTemporaryDial then s else SaveProtocolStream DiscProto (Some c) peerID s)
        end
    end.

(** ** The handshake ([identity.go]) *)

Record Status := mkStatus {
  st_PeerID : bytes;
  st_Chain : Z;
  st_TemporaryDial : bool;
}.

Record IdentityService := mkIdentity {
  id_chainID : Z;
  id_hostID : PeerID;
  id_pendingPeerConnections : gmap PeerID Direction;
}.
Definition set_pending (m : gmap PeerID Direction) (i : IdentityService) : IdentityService := mkIdentity (id_chainID i) (id_hostID i) m.

Record network := mkNetwork {
  nw_server : Server;
  nw_identity : IdentityService;
}.
Definition on_server (f : Server → Server) (n : network) : network := mkNetwork (f (nw_server n)) (nw_identity n).

Inductive id_err := ErrIdentityClient | ErrHello | ErrInvalidChainID.

Section identity.
(** [peer.ID.Pretty] and [peer.Decode]. *)
Variable Pretty : PeerID → bytes.
Variable Decode : bytes → option PeerID.

Definition hasPendingStatus (id : PeerID) (n : network) : bool :=
  match id_pendingPeerConnections (nw_identity n) !! id with Some _ => true | None => false end.
Definition removePendingStatus (peerID : PeerID) (n : network) : network :=
  match id_pendingPeerConnections (nw_identity n) !! peerID with
  | None => n
  | Some direction =>
      mkNetwork (UpdatePendingConnCount (-1) direction (nw_server n))
        (set_pending (base.delete peerID (id_pendingPeerConnections (nw_identity n))) (nw_identity n))
  end.
Definition addPendingStatus (id : PeerID) (direction : Direction) (n : network) : network :=
  match id_pendingPeerConnections (nw_identity n) !! id with
  | Some _ => n
  | None =>
      mkNetwork (UpdatePendingConnCount 1 direction (nw_server n))
        (set_pending (<[id := direction]> (id_pendingPeerConnections (nw_identity n))) (nw_identity n))
  end.

Definition constructStatus (peerID : PeerID) (n : network) : Status :=
  mkStatus (Pretty (id_hostID (nw_identity n))) (id_chainID (nw_identity n)) (IsTemporaryDial peerID (nw_server n)).

(** The server of the handshake. *)
Definition Hello (req : Status) (n : network) : option Status :=
  match Decode (st_PeerID req) with
  | None => None
  | Some peerID => Some (constructStatus peerID n)
  end.

(** The second half of [handleConnected]: what is done with the answer to [status]. *)
Definition handle_response (PeerInfo : PeerID → AddrInfo) (peerID : PeerID) (direction : Direction) (status : Status) (resp : option Status) (n : network)
    : result id_err () * network :=
  match resp with
  | None => (Err ErrHello, n)
  | Some resp =>
      if negb (st_Chain status =? st_Chain resp) then (Err ErrInvalidChainID, n)
      else if negb (st_TemporaryDial resp) && negb (st_TemporaryDial status) then (Ok (), on_server (AddPeer PeerInfo peerID direction) n)
      else (Ok (), n)
  end.

Definition handleConnected (PeerInfo : PeerID → AddrInfo) (client : bool) (hello : Status → option Status) (peerID : PeerID) (direction : Direction)
    (n : network) : result id_err () * network :=
  if negb client then (Err ErrIdentityClient, n)
  else let status := constructStatus peerID n in handle_response PeerInfo peerID direction status (hello status) n.

(** [ConnectedF]: whether the handshake goes on; if not, and the peer is not in one,
    it is disconnected. *)
Inductive admission := InHandshake | NoAvailableSlots | Accepted.
Definition judge_connection (peerID : PeerID) (direction : Direction) (n : network) : admission :=
  if hasPendingStatus peerID n then InHandshake
  else if negb (HasFreeConnectionSlot direction (sv_connectionCounts (nw_server n))) then NoAvailableSlots
  else Accepted.

(** The end of the goroutine of [ConnectedF]. *)
Definition handshake_done (peerID : PeerID) (r : result id_err ()) (n : network) : network :=
  on_server (emitEvent peerID (match r with Ok _ => PeerDialCompleted | Err _ => PeerFailedToConnect end)) (removePendingStatus peerID n).

(** All of [ConnectedF] with its goroutine, when nothing else happens meanwhile. *)
Definition ConnectedF (PeerInfo : PeerID → AddrInfo) (client : bool) (hello : Status → option Status) (peerID : PeerID) (direction : Direction)
    (n : network) : network :=
  match judge_connection peerID direction n with
  | Accepted =>
      let n := addPendingStatus peerID direction n in
      let '(r, n) := handleConnected PeerInfo client hello peerID direction n in
      handshake_done peerID r n
  | _ => n
  end.
End identity.

(** ** Discovery ([discovery.go]) *)

Definition maxDiscoveryPeerReqCount : Z := 16.

(** What the routing table calls back. *)
Inductive rt_callback := PeerAdded (p : PeerID) | PeerRemoved (p : PeerID).

(** [RoutingTable] of go-libp2p-kbucket. *)
Class RoutingTable := {
  routing_table : Type;
  TryAddPeer : PeerID → routing_table → bool * routing_table * list rt_callback;
  RemovePeer : PeerID → routing_table → routing_table * list rt_callback;
  NearestPeers : bytes → Z → routing_table → list PeerID;
}.

Section discovery.
Context `{RoutingTable}.
(** [common.StringToAddrInfo], [common.AddrInfoToString] and [kb.ConvertKey]. *)
Variable StringToAddrInfo : bytes → option AddrInfo.
Variable AddrInfoToString : AddrInfo → bytes.
Variable ConvertKey : bytes → bytes.
Variable ID_String : PeerID → bytes.
Variable PeerInfo : PeerID → AddrInfo.

Record discovery := mkDiscovery {
  ds_server : Server;
  ds_table : routing_table;
}.

(** The handlers that [setupDiscovery] sets. *)
Definition table_callback (c : rt_callback) (s : Server) : outcome Server :=
  match c with
  | PeerAdded p => Ret (addToDialQueue (PeerInfo p) PriorityRandomDial s)
  | PeerRemoved p => let~ d := DeleteTask p (sv_dialQueue s) in Ret (set_dialQueue d s)
  end.
Fixpoint table_callbacks (cs : list rt_callback) (s : Server) : outcome Server :=
  match cs with
  | [] => Ret s
  | c :: cs => let~ s := table_callback c s in table_callbacks cs s
  end.

Definition HandleNetworkEvent (e : PeerEvent) (d : discovery) : outcome discovery :=
  match pe_Type e with
  | PeerConnected =>
      let '(_, t, cs) := TryAddPeer (pe_PeerID e) (ds_table d) in
      let~ s := table_callbacks cs (ds_server d) in Ret (mkDiscovery s t)
  | PeerDisconnected | PeerFailedToConnect =>
      let '(t, cs) := RemovePeer (pe_PeerID e) (ds_table d) in
      let~ s := table_callbacks cs (ds_server d) in Ret (mkDiscovery s t)
  | _ => Ret d
  end.

(** The peer store is that of the host. *)
Definition addToTable (node : AddrInfo) (d : discovery) : outcome discovery :=
  let '(_, t, cs) := TryAddPeer (ai_ID node) (ds_table d) in
  let~ s := table_callbacks cs (ds_server d) in Ret (mkDiscovery s t).

Fixpoint addPeersToTable (nodeAddrStrs : list bytes) (d : discovery) : outcome discovery :=
  match nodeAddrStrs with
  | [] => Ret d
  | nodeAddrStr :: rest =>
      let~ d := match StringToAddrInfo nodeAddrStr with None => Ret d | Some nodeInfo => addToTable nodeInfo d end in
      addPeersToTable rest d
  end.

(** The search of [bootnodePeerDiscovery] for a bootnode: [rands] are the random
    numbers of its turns. *)
Fixpoint find_bootnode (rands : list nat) (s : Server) : outcome (option (AddrInfo * bool) * Server) :=
  match rands with
  | [] => NoFuel
  | randNum :: rands =>
      match GetRandomBootnode randNum s with
      | None => Ret (None, s)
      | Some bootnode =>
          if bootnodeConnCount (sv_bootnodes s) >? 0 then
            let '(alreadyTempDial, s) := FetchOrSetTemporaryDial (ai_ID bootnode) true s in
            if alreadyTempDial : bool then find_bootnode rands s else Ret (Some (bootnode, true), s)
          else Ret (Some (bootnode, false), s)
      end
  end.

(** [found] is what the bootnode answers. *)
Definition bootnodePeerDiscovery (rands : list nat) (connected : PeerID → bool) (stream : option nat) (found : option (list bytes)) (close_ok : bool) (d : discovery)
    : outcome discovery :=
  if negb (HasFreeConnectionSlot DirOutbound (sv_connectionCounts (ds_server d))) then Ret d
  else
    let~ (b, s) := find_bootnode rands (ds_server d) in
    match b with
    | None => Ret (mkDiscovery s (ds_table d))
    | Some (bootnode, isTemporaryDial) =>
        let s := TemporaryDialPeer bootnode s in
        let '(clt, s) := NewDiscoveryClient connected stream (ai_ID bootnode) s in
        let~ d :=
          match clt, found with
          | Some _, Some nodes =>
              let '(closed, s) := CloseProtocolStream DiscProto (ai_ID bootnode) s in
              match closed, close_ok with
              | Some _, false => Ret (mkDiscovery s (ds_table d))
              | _, _ => addPeersToTable nodes (mkDiscovery s (ds_table d))
              end
          | _, _ => Ret (mkDiscovery s (ds_table d))
          end in
        Ret (if isTemporaryDial : bool then mkDiscovery (RemoveTemporaryDial (ai_ID bootnode) (ds_server d)) (ds_table d) else d)
    end.

Definition regularPeerDiscovery (order : list PeerID) (randNum : nat) (connected : PeerID → bool) (stream : option nat)
    (found : option (list bytes)) (d : discovery) : outcome discovery :=
  if negb (HasFreeConnectionSlot DirOutbound (sv_connectionCounts (ds_server d))) then Ret d
  else
    match GetRandomPeer order randNum (ds_server d) with
    | None => Ret d
    | Some peerID =>
        let '(clt, s) := NewDiscoveryClient connected stream peerID (ds_server d) in
        match clt, found with
        | Some _, Some nodes => addPeersToTable nodes (mkDiscovery s (ds_table d))
        | _, _ => Ret (mkDiscovery s (ds_table d))
        end
    end.

(** The service of discovery, for a request from a peer. *)
Definition FindPeers (from : PeerID) (count : Z) (key : bytes) (d : discovery) : list bytes :=
  let count := if count >? maxDiscoveryPeerReqCount then maxDiscoveryPeerReqCount else count in
  let key := if bool_decide (key = []) then ID_String from else key in
  let nearestPeers := NearestPeers (ConvertKey key) count (ds_table d) in
  AddrInfoToString <$> filter (λ info, ai_Addrs info ≠ []) (PeerInfo <$> filter (λ id, id ≠ from) nearestPeers).
End discovery.
