(* ===== verification/NetworkSpec.v ===== *)
(** What the network keeps: the counters of connections are exact in every
    interleaving, the limits hold up to the handlers that run at once, a peer is in
    the table only after a handshake on the same chain, and the queue of dials hands
    out the most urgent task. *)
From stdpp Require Import strings.
From S2P Require Import Prelude Types Runtime GoHeap GoHeapIndex Text Network.

(** ** The dial queue *)

#[export] Instance task_store_laws : ItemStoreLaws (list DialTask).
Proof.
  split.
  - intros s. split; cbn; intros; lia.
  - intros p z s a b. cbn. assert (∀ a, priority_of (alter (set_index z) p s) a = priority_of s a) as E; [|by rewrite !E].
    intros c. unfold priority_of. destruct (decide (c = p)) as [->|]; [rewrite list_lookup_alter_eq; by destruct (s !! p)|by rewrite list_lookup_alter_ne].
  - intros p z q s. cbn. case_decide as Hq; [subst; rewrite list_lookup_alter_eq; by destruct (s !! p)|by rewrite list_lookup_alter_ne].
Qed.

(** What of a task never changes. *)
Lemma reindexed_task objs objs' : reindexed objs objs' → ∀ p, set_index 0 <$> objs' !! p = set_index 0 <$> objs !! p.
Proof.
  induction 1 as [|s s1 s2 (q & z & ->) _ IH]; intros p; [done|]. rewrite IH. cbn.
  destruct (decide (p = q)) as [->|]; [rewrite list_lookup_alter_eq; by destruct (s !! q)|by rewrite list_lookup_alter_ne].
Qed.

Lemma reindexed_length (objs objs' : list DialTask) : reindexed objs objs' → length objs' = length objs.
Proof. induction 1 as [|s s1 s2 (q & z & ->) _ IH]; [done|]. rewrite IH. cbn. apply length_alter. Qed.

Record dq_ok (d : DialQueue) : Prop := {
  dq_placed : placed (dq_heap d, dq_objs d);
  dq_ordered : heap (item_less (dq_objs d)) (dq_heap d);
  dq_mapped id p : dq_tasks d !! id = Some p → ∃ t, dq_objs d !! p = Some t ∧ ai_ID (dt_addrInfo t) = id;
  dq_popped p t : dq_objs d !! p = Some t → p ∉ dq_heap d → dt_index t = -1;
}.

Lemma NewDialQueue_ok : dq_ok NewDialQueue.
Proof. split; try done. split; [apply NoDup_nil_2|done]. Qed.

Lemma task_kept objs objs' p t : reindexed objs objs' → objs !! p = Some t → ∃ t', objs' !! p = Some t' ∧ dt_addrInfo t' = dt_addrInfo t ∧ dt_priority t' = dt_priority t.
Proof.
  intros Hr Hp. pose proof (reindexed_task _ _ Hr p) as E. rewrite Hp in E. destruct (objs' !! p) as [t'|]; [|done].
  injection E as Ea Ep. by exists t'.
Qed.

(** A queue whose heap and store moved, keeping the tasks by id. *)
Lemma moved_ok d q tasks w :
  dq_ok d → placed q → heap (item_less q.2) q.1 → reindexed (dq_objs d) q.2 →
  (∀ p, p ∉ q.1 → p ∉ dq_heap d ∧ item_index p q.2 = item_index p (dq_objs d) ∨ item_index p q.2 = Some (-1)) →
  (∀ id p, tasks !! id = Some p → dq_tasks d !! id = Some p) → dq_ok (mkQueue q.2 q.1 tasks w).
Proof.
  intros Hd Hp Hh Hr Hout Ht. split; cbn; [by destruct q|done| |].
  - intros id p (t & Hp' & Hid)%Ht%(dq_mapped _ Hd). destruct (task_kept _ _ _ _ Hr Hp') as (t' & E & Ea & _). exists t'. split; [done|congruence].
  - intros p t Hp' Hn. destruct (Hout p Hn) as [[Hnd E]|E]; cbn in E; rewrite Hp' in E; cbn in E.
    + destruct (dq_objs d !! p) as [t0|] eqn:E0; [|done]. injection E as ->. by eapply dq_popped.
    + by injection E.
Qed.

Lemma popTaskImpl_ok d : dq_ok d →
  if decide (dq_heap d = []) then popTaskImpl d = Ret (None, d)
  else ∃ p t d', popTaskImpl d = Ret (Some p, d') ∧ dq_ok d' ∧ dq_heap d ≡ₚ p :: dq_heap d' ∧ dq_objs d' !! p = Some t ∧ reindexed (dq_objs d) (dq_objs d') ∧
    dq_tasks d' = dq_tasks d ∧ dq_waiter d' = dq_waiter d ∧ ∀ p', p' ∈ dq_heap d → dt_priority t ≤ priority_of (dq_objs d) p'.
Proof.
  intros Hd. unfold popTaskImpl. destruct (decide (dq_heap d = [])) as [E|Hne]; [by rewrite bool_decide_true|]. rewrite bool_decide_false by done.
  destruct (heap_Pop_spec (dq_heap d, dq_objs d) (dq_placed _ Hd) (dq_ordered _ Hd) Hne) as (x & q' & -> & Hperm & Hh & Hp & Hr & Hx & Hout & Hmin). cbn [obind].
  cbn [fst snd] in *. assert (x ∈ dq_heap d) as Hin by (rewrite Hperm; by left).
  assert (∃ t, q'.2 !! x = Some t) as [t Ht] by (cbn in Hx; destruct (q'.2 !! x) as [t|]; [by exists t|done]).
  exists x, t, (set_heap q' d). split; [done|]. split; [|split; [done|split; [done|split; [done|split; [done|split; [done|]]]]]].
  - apply (moved_ok d q'); try done. intros p Hn. destruct (decide (p = x)) as [->|]; [by right|left].
    assert (p ∉ dq_heap d) as Hn' by (rewrite Hperm; set_solver). split; [done|by apply Hout].
  - intros p' Hp'. specialize (Hmin p' Hp'). cbn in Hmin. apply Z.ltb_ge in Hmin. unfold priority_of in Hmin at 1.
    destruct (dq_objs d !! x) as [t0|] eqn:E0; [|apply (dq_placed _ Hd) in Hin || idtac].
    + cbn in Hmin. destruct (task_kept _ _ _ _ Hr E0) as (t' & E & _ & Ep). rewrite Ht in E. injection E as <-. by rewrite Ep.
    + exfalso. pose proof (reindexed_task _ _ Hr x) as E. rewrite E0, Ht in E. done.
Qed.

Lemma AddTask_ok a pr d : dq_ok d →
  let d' := AddTask a pr d in
  dq_ok d' ∧ dq_heap d' ≡ₚ length (dq_objs d) :: dq_heap d ∧ dq_tasks d' = <[ai_ID a := length (dq_objs d)]> (dq_tasks d) ∧
  (∃ t, dq_objs d' !! length (dq_objs d) = Some t ∧ dt_addrInfo t = a ∧ dt_priority t = pr) ∧
  (∀ p, p ∈ dq_heap d → priority_of (dq_objs d') p = priority_of (dq_objs d) p) ∧
  ∀ p t, dq_objs d !! p = Some t → ∃ t', dq_objs d' !! p = Some t' ∧ dt_addrInfo t' = dt_addrInfo t ∧ dt_priority t' = dt_priority t.
Proof.
  intros Hd d'. set (p0 := length (dq_objs d)). set (objs1 := dq_objs d ++ [mkTask 0 a pr]).
  assert (∀ p, p ∈ dq_heap d → (p < p0)%nat) as Hlt.
  { intros p [i Hi]%list_elem_of_lookup. apply (proj2 (dq_placed _ Hd)) in Hi. cbn in Hi. destruct (dq_objs d !! p) as [t|] eqn:E; [|done]. by apply lookup_lt_Some in E. }
  assert (∀ p, (p < p0)%nat → objs1 !! p = dq_objs d !! p) as Hold by (intros p Hp; unfold objs1; by rewrite lookup_app_l).
  assert (objs1 !! p0 = Some (mkTask 0 a pr)) as Hnew by (unfold objs1, p0; by rewrite lookup_app_r, Nat.sub_diag by lia).
  assert (∀ p, p ∈ dq_heap d → priority_of objs1 p = priority_of (dq_objs d) p) as Hprio by (intros p Hp; unfold priority_of; by rewrite Hold by auto).
  destruct (heap_Push_spec p0 0 (dq_heap d, objs1)) as (Hperm & Hh & Hp & Hr & Hout); cbn [fst snd].
  - split; cbn; [apply (dq_placed _ Hd)|]. intros i p Hi. rewrite Hold by (apply Hlt; by eapply list_elem_of_lookup_2). by apply (proj2 (dq_placed _ Hd)) in Hi.
  - intros c Hc. rewrite <- (dq_ordered _ Hd c Hc). unfold lessAt. destruct (dq_heap d !! c) as [x|] eqn:Ex; [|done]. destruct (dq_heap d !! parent c) as [y|] eqn:Ey; [|done].
    cbn. by rewrite !Hprio by (by eapply list_elem_of_lookup_2).
  - intros Hin%Hlt. unfold p0 in *. lia.
  - cbn. by rewrite Hnew.
  - cbn [fst snd] in *. set (q' := heap_Push p0 (dq_heap d, objs1)) in *.
    assert (d' = mkQueue q'.2 q'.1 (<[ai_ID a := p0]> (dq_tasks d)) (dq_waiter d')) as Ed by (unfold d', AddTask; fold p0 objs1; cbn; by destruct (dq_waiter d)).
    clearbody d' q'. rewrite Ed. cbn [dq_heap dq_objs dq_tasks]. split_and!; [|exact Hperm|done| | |].
    + split; cbn; [by destruct q'|done| |].
      * intros id p Hid. destruct (decide (ai_ID a = id)) as [<-|Hne].
        -- rewrite lookup_insert_eq in Hid. injection Hid as <-. destruct (task_kept _ _ _ _ Hr Hnew) as (t' & E & Ea & _). exists t'. by rewrite Ea.
        -- rewrite lookup_insert_ne in Hid by done. destruct (dq_mapped _ Hd _ _ Hid) as (t & Ht & Hidt). pose proof (lookup_lt_Some _ _ _ Ht).
           rewrite <- Hold in Ht by done. destruct (task_kept _ _ _ _ Hr Ht) as (t' & E & Ea & _). exists t'. split; [done|congruence].
      * intros p t Ht Hn. rewrite Hperm in Hn. specialize (Hout p Hn). cbn in Hout. rewrite Ht in Hout. apply not_elem_of_cons in Hn as [Hp0 Hn].
        destruct (objs1 !! p) as [t0|] eqn:E0; [|done]. injection Hout as Ei. rewrite Ei. apply (dq_popped _ Hd p); [|done].
        assert (p < length objs1)%nat as Hl by (by apply lookup_lt_Some in E0). unfold objs1 in Hl. rewrite length_app in Hl. cbn in Hl.
        rewrite <- Hold; [done|]. unfold p0 in *. lia.
    + destruct (task_kept _ _ _ _ Hr Hnew) as (t' & E & Ea & Ep). by exists t'.
    + intros p Hp'. rewrite <- Hprio by done. unfold priority_of. pose proof (reindexed_task _ _ Hr p) as E. destruct (q'.2 !! p), (objs1 !! p); try done. by injection E.
    + intros p t Ht. pose proof (lookup_lt_Some _ _ _ Ht). rewrite <- Hold in Ht by done. by eapply task_kept.
Qed.

Lemma DeleteTask_ok id d : dq_ok d → ∃ d', DeleteTask id d = Ret d' ∧ dq_ok d' ∧ dq_tasks d' = base.delete id (dq_tasks d) ∧ reindexed (dq_objs d) (dq_objs d') ∧
  match dq_tasks d !! id with
  | Some p => if decide (p ∈ dq_heap d) then dq_heap d ≡ₚ p :: dq_heap d' else dq_heap d' = dq_heap d
  | None => dq_heap d' = dq_heap d
  end.
Proof.
  intros Hd. unfold DeleteTask. destruct (dq_tasks d !! id) as [p|] eqn:Hid.
  2: { exists d. split; [done|]. split; [done|]. by rewrite delete_id. }
  destruct (dq_mapped _ Hd _ _ Hid) as (t & Ht & _). rewrite Ht.
  assert (∀ id' p', base.delete id (dq_tasks d) !! id' = Some p' → dq_tasks d !! id' = Some p') as Hdel by (intros ? ? [_ ?]%lookup_delete_Some; done).
  destruct (decide (p ∈ dq_heap d)) as [[i Hi]%list_elem_of_lookup|Hn].
  - pose proof (proj2 (dq_placed _ Hd) i p Hi) as Hix. cbn in Hix. rewrite Ht in Hix. injection Hix as Hix. rewrite Hix, (proj2 (Z.leb_le _ _)) by lia.
    destruct (heap_Remove_spec i p (dq_heap d, dq_objs d) (dq_placed _ Hd) (dq_ordered _ Hd) Hi) as (q' & -> & Hperm & Hh & Hp & Hr & Hx & Hout). cbn [obind fst snd] in *.
    eexists. split; [done|]. split; [|by split_and!].
    apply (moved_ok d q'); try done. intros p' Hn. destruct (decide (p' = p)) as [->|]; [by right|left].
    assert (p' ∉ dq_heap d) as Hn' by (rewrite Hperm; set_solver). split; [done|by apply Hout].
  - rewrite (dq_popped _ Hd _ _ Ht Hn). cbn [obind Z.leb Z.compare]. eexists. split; [done|]. split; [|done].
    destruct d as [objs h tasks w]. apply (moved_ok (mkQueue objs h tasks w) (h, objs)); try done; [apply Hd|apply Hd|]. intros p' Hn'. by left.
Qed.

Lemma waiter_ok w d : dq_ok d → dq_ok (set_waiter w d).
Proof. by intros []. Qed.

(** The goroutines that share the queue: each method is a step. *)
Inductive dq_step : DialQueue → DialQueue → Prop :=
| dq_add a pr d : dq_step d (AddTask a pr d)
| dq_delete id d d' : DeleteTask id d = Ret d' → dq_step d d'
| dq_try d r d' : PopTask_try d = Ret (r, d') → dq_step d d'
| dq_select d : dq_waiter d = Tried → dq_step d (PopTask_select d).

Lemma dq_step_ok d d' : dq_step d d' → dq_ok d → dq_ok d'.
Proof.
  destruct 1 as [a pr d|id d d' E|d r d' E|d]; intros Hd.
  - by apply AddTask_ok.
  - destruct (DeleteTask_ok id d Hd) as (d1 & E1 & Hd1 & _). rewrite E in E1. by injection E1 as ->.
  - unfold PopTask_try in E. pose proof (popTaskImpl_ok d Hd) as Hp. destruct (decide (dq_heap d = [])).
    + rewrite Hp in E. cbn in E. injection E as <- <-. by apply waiter_ok.
    + destruct Hp as (p & t & d1 & Ep & Hd1 & _). rewrite Ep in E. cbn in E. injection E as <- <-. by apply waiter_ok.
  - by apply waiter_ok.
Qed.

Lemma dq_reachable_ok d : rtc dq_step NewDialQueue d → dq_ok d.
Proof.
  intros Hst. pose proof NewDialQueue_ok as Hn. revert Hn. induction Hst as [|d1 d2 d3 Hs _ IH]; [done|]. intros Hd. by eapply IH, dq_step_ok.
Qed.


(** A task added while the goroutine in [PopTask] is between its try and its
    [select] wakes nobody: the goroutine then waits with a task in the queue. *)
Lemma wakeup_is_lost d a pr : rtc dq_step NewDialQueue d → dq_waiter d = Tried →
  let d' := PopTask_select (AddTask a pr d) in rtc dq_step NewDialQueue d' ∧ dq_waiter d' = Waiting ∧ dq_heap d' ≠ [].
Proof.
  intros Hst Hw d'. assert (dq_waiter (AddTask a pr d) = Tried) as Hw' by (unfold AddTask; cbn; by rewrite Hw).
  split; [|split; [done|]].
  - eapply rtc_r; [eapply rtc_r; [exact Hst|apply (dq_add a pr)]|by apply dq_select].
  - destruct (AddTask_ok a pr d (dq_reachable_ok _ Hst)) as (_ & Hperm & _). cbn. intros E. rewrite E in Hperm. by apply Permutation_nil_cons in Hperm.
Qed.

(** A peer queued twice is still dialed after it is deleted: the first of its tasks
    stays in the heap. *)
Lemma deleted_peer_is_dialed a pr1 pr2 d : rtc dq_step NewDialQueue d →
  ∃ p t d', DeleteTask (ai_ID a) (AddTask a pr2 (AddTask a pr1 d)) = Ret d' ∧ p ∈ dq_heap d' ∧ dq_objs d' !! p = Some t ∧ dt_addrInfo t = a.
Proof.
  intros Hd%dq_reachable_ok. destruct (AddTask_ok a pr1 d Hd) as (Hd1 & Hp1 & _ & (t1 & Ht1 & Ha1 & _) & _ & _). set (d1 := AddTask a pr1 d) in *.
  destruct (AddTask_ok a pr2 d1 Hd1) as (Hd2 & Hp2 & Et2 & _ & _ & Hold).
  destruct (DeleteTask_ok (ai_ID a) _ Hd2) as (d' & E & _ & _ & Hr & Hh). set (p := length (dq_objs d)) in *.
  assert (p < length (dq_objs d1))%nat as Hlt by (by eapply lookup_lt_Some).
  assert (p ∈ dq_heap d') as Hin.
  { rewrite Et2, lookup_insert_eq in Hh. rewrite decide_True in Hh by (rewrite Hp2; by left).
    assert (p ∈ dq_heap (AddTask a pr2 d1)) as Hq by (rewrite Hp2, Hp1; right; by left). rewrite Hh in Hq.
    apply elem_of_cons in Hq as [->|]; [lia|done]. }
  destruct (Hold p t1 Ht1) as (t2 & Ht2 & Ha2 & _). destruct (task_kept _ _ _ _ Hr Ht2) as (t3 & Ht3 & Ha3 & _).
  exists p, t3, d'. split; [done|]. split; [done|]. split; [done|congruence].
Qed.

(** ** Counters *)

Section ksum.
Context `{Countable K} {V : Type}.
Implicit Types (f : K → V → Z) (m : gmap K V).

(** The sum over the entries of a map. *)
Definition ksum f m : Z := sumZ (λ kv, f kv.1 kv.2) (map_to_list m).

Lemma ksum_empty f : ksum f ∅ = 0.
Proof. unfold ksum. by rewrite map_to_list_empty. Qed.
Lemma ksum_insert_None f m k v : m !! k = None → ksum f (<[k:=v]> m) = f k v + ksum f m.
Proof. intros Hk. unfold ksum. by rewrite map_to_list_insert. Qed.
Lemma ksum_delete f m k v : m !! k = Some v → ksum f m = f k v + ksum f (base.delete k m).
Proof. intros Hk. unfold ksum. by rewrite <- (map_to_list_delete m k v). Qed.
Lemma ksum_insert_Some f m k v w : m !! k = Some v → ksum f (<[k:=w]> m) = ksum f m - f k v + f k w.
Proof. intros Hk. rewrite (ksum_delete f m k v Hk), <- insert_delete_eq, ksum_insert_None by apply lookup_delete_eq. lia. Qed.
Lemma ksum_range f m : (∀ k v, 0 ≤ f k v ≤ 1) → 0 ≤ ksum f m ≤ Z.of_nat (size m).
Proof.
  intros Hf. induction m as [|k v m Hk IH] using map_ind; [by rewrite ksum_empty|].
  rewrite ksum_insert_None, map_size_insert_None by done. specialize (Hf k v). lia.
Qed.
End ksum.

(** Whether a peer has a connection in a direction, and how many it has. *)
Definition weight (d : Direction) (i : PeerConnInfo) : Z := Z.b2z (default false (pc_connDirections i !! d)).
Definition weights (i : PeerConnInfo) : Z := weight DirUnknown i + weight DirInbound i + weight DirOutbound i.

(** The peers with a connection in a direction, the connections to bootnodes, and
    the peers in a handshake. *)
Definition conns (d : Direction) (s : Server) : Z := ksum (λ _, weight d) (sv_peers s).
Definition boots (s : Server) : Z :=
  if sv_NoDiscover s then 0 else ksum (λ p i, if isBootnode p (sv_bootnodes s) then weights i else 0) (sv_peers s).
Definition pend (d : Direction) (n : network) : Z := ksum (λ _ d', Z.b2z (bool_decide (d' = d))) (id_pendingPeerConnections (nw_identity n)).

Definition one_in (d d' : Direction) : Z := Z.b2z (bool_decide (d' = d)).

(** The counters of a server, up to the wrap-around of [int64]. *)
Record tallies (s : Server) (a b c : Z) : Prop := {
  tl_in : inboundConnectionCount (sv_connectionCounts s) = s64 a;
  tl_out : outboundConnectionCount (sv_connectionCounts s) = s64 b;
  tl_boot : bootnodeConnCount (sv_bootnodes s) = s64 c;
}.

(** Two servers that differ in these counters only. *)
Record recounted (s s' : Server) : Prop := {
  rc_discover : sv_NoDiscover s' = sv_NoDiscover s;
  rc_peers : sv_peers s' = sv_peers s;
  rc_boot p : isBootnode p (sv_bootnodes s') = isBootnode p (sv_bootnodes s);
  rc_pendIn : pendingInboundConnectionCount (sv_connectionCounts s') = pendingInboundConnectionCount (sv_connectionCounts s);
  rc_pendOut : pendingOutboundConnectionCount (sv_connectionCounts s') = pendingOutboundConnectionCount (sv_connectionCounts s);
  rc_maxIn : maxInboundConnectionCount (sv_connectionCounts s') = maxInboundConnectionCount (sv_connectionCounts s);
  rc_maxOut : maxOutboundConnectionCount (sv_connectionCounts s') = maxOutboundConnectionCount (sv_connectionCounts s);
}.

Lemma recounted_refl s : recounted s s.
Proof. by split. Qed.
Lemma recounted_trans s1 s2 s3 : recounted s1 s2 → recounted s2 s3 → recounted s1 s3.
Proof. intros [] []. split; intros; etrans; eauto. Qed.

Definition counted_boot (p : PeerID) (s : Server) : Z := if sv_NoDiscover s || negb (isBootnode p (sv_bootnodes s)) then 0 else 1.

Ltac decide_directions := repeat first [rewrite bool_decide_true by done|rewrite bool_decide_false by done]; cbn [Z.b2z andb].

Lemma count_connection_ok p delta d s a b c : tallies s a b c →
  recounted s (count_connection p delta d s) ∧
  tallies (count_connection p delta d s) (a + delta * one_in DirInbound d) (b + delta * one_in DirOutbound d) (c + delta * counted_boot p s).
Proof.
  intros [Ha Hb Hc]. unfold count_connection, updateBootnodeConnCount, counted_boot, one_in.
  cbn [sv_NoDiscover sv_bootnodes set_counts]. destruct (sv_NoDiscover s || _).
  all: split; [by destruct d|]; destruct d; split; cbn; rewrite ?Ha, ?Hb, ?Hc, ?s64_add_l; f_equal; decide_directions; lia.
Qed.

Lemma counted_boot_recounted p s s' : recounted s s' → counted_boot p s' = counted_boot p s.
Proof. intros []. unfold counted_boot. by rewrite rc_discover0, rc_boot0. Qed.

Definition taken (d : Direction) (l : list (Direction * bool)) : Z := sumZ (λ x, Z.b2z (bool_decide (x.1 = d) && x.2)) l.
Definition taken_all (l : list (Direction * bool)) : Z := sumZ (λ x, Z.b2z x.2) l.

Lemma fold_counts_ok p l s a b c : tallies s a b c →
  let s' := foldr (λ '(d, active) s, if active : bool then count_connection p (-1) d s else s) s l in
  recounted s s' ∧ tallies s' (a - taken DirInbound l) (b - taken DirOutbound l) (c - counted_boot p s * taken_all l).
Proof.
  intros Ht. induction l as [|[d active] l IH]; cbn [foldr].
  { split; [apply recounted_refl|]. unfold taken, taken_all. cbn. by rewrite Z.mul_0_r, !Z.sub_0_r. }
  destruct IH as [Hr Ht']. unfold taken, taken_all in *. rewrite !sumZ_cons. cbn [fst snd]. destruct active.
  - destruct (count_connection_ok p (-1) d _ _ _ _ Ht') as [Hr2 [H1 H2 H3]]. split; [by eapply recounted_trans|].
    rewrite (counted_boot_recounted _ _ _ Hr) in H3. unfold one_in in *. rewrite !andb_true_r. split; [rewrite H1|rewrite H2|rewrite H3]; f_equal; cbn [Z.b2z]; lia.
  - split; [done|]. rewrite !andb_false_r. cbn [Z.b2z]. destruct Ht' as [H1 H2 H3]. split; [rewrite H1|rewrite H2|rewrite H3]; f_equal; lia.
Qed.

Lemma taken_weight d i : taken d (map_to_list (pc_connDirections i)) = weight d i.
Proof.
  unfold weight. change (taken d (map_to_list (pc_connDirections i))) with (ksum (λ d' b, Z.b2z (bool_decide (d' = d) && b)) (pc_connDirections i)).
  induction (pc_connDirections i) as [|k v m Hk IH] using map_ind; [by rewrite ksum_empty, lookup_empty|].
  rewrite ksum_insert_None, IH by done. case_bool_decide as Hd.
  - subst. rewrite lookup_insert_eq, Hk. cbn. lia.
  - by rewrite lookup_insert_ne.
Qed.

Lemma taken_weights i : taken_all (map_to_list (pc_connDirections i)) = weights i.
Proof.
  unfold weights. rewrite <- !taken_weight. unfold taken, taken_all. induction (map_to_list (pc_connDirections i)) as [|[d b] l IH]; [done|].
  rewrite !sumZ_cons. cbn [fst snd]. rewrite IH. destruct d, b; decide_directions; lia.
Qed.

Record net_ok (n : network) : Prop := {
  no_tallies : tallies (nw_server n) (conns DirInbound (nw_server n)) (conns DirOutbound (nw_server n)) (boots (nw_server n));
  no_pendIn : pendingInboundConnectionCount (sv_connectionCounts (nw_server n)) = s64 (pend DirInbound n);
  no_pendOut : pendingOutboundConnectionCount (sv_connectionCounts (nw_server n)) = s64 (pend DirOutbound n);
}.

Lemma emitEvent_ok p e n : net_ok n → net_ok (on_server (emitEvent p e) n).
Proof. intros [[] ? ?]. by split. Qed.

Lemma recounted_conns s s' d : recounted s s' → conns d s' = conns d s ∧ boots s' = boots s.
Proof.
  intros Hr. unfold conns, boots. rewrite (rc_peers _ _ Hr), (rc_discover _ _ Hr). split; [done|]. case_match; [done|].
  unfold ksum. apply sumZ_ext. intros [p i] _. cbn. by rewrite (rc_boot _ _ Hr).
Qed.

(** A peer with one more connection. *)
Definition joined (d : Direction) (i : PeerConnInfo) : PeerConnInfo := mkConnInfo (pc_Info i) (<[d := true]> (pc_connDirections i)) (pc_protocolStreams i).

Lemma joined_weight d d' i : weight d i = 0 → weight d' (joined d i) = weight d' i + one_in d' d.
Proof.
  unfold weight, joined, one_in. cbn [pc_connDirections]. intros Hw. case_bool_decide as Hd.
  - subst. rewrite lookup_insert_eq, Hw. done.
  - rewrite lookup_insert_ne by done. cbn. lia.
Qed.

Lemma joined_weights d i : weight d i = 0 → weights (joined d i) = weights i + 1.
Proof. intros Hw. unfold weights. rewrite !joined_weight by done. unfold one_in. destruct d; decide_directions; lia. Qed.

(** What is put in the table for a peer. *)
Lemma insert_peer_sums s p (i : PeerConnInfo) d f :
  (sv_peers s !! p = Some i ∨ sv_peers s !! p = None ∧ ∀ q, f q i = 0) →
  ksum f (<[p := joined d i]> (sv_peers s)) = ksum f (sv_peers s) + (f p (joined d i) - f p i).
Proof.
  intros [Hp|[Hp Hz]]; [rewrite (ksum_insert_Some _ _ _ _ _ Hp); lia|]. rewrite ksum_insert_None by done. rewrite (Hz p). lia.
Qed.

Lemma addPeer_ok PeerInfo p d n : net_ok n →
  let n' := on_server (AddPeer PeerInfo p d) n in
  net_ok n' ∧ nw_identity n' = nw_identity n ∧
  (∀ d', conns d' (nw_server n') ≤ conns d' (nw_server n) + one_in d' d) ∧
  (∀ q i, sv_peers (nw_server n') !! q = Some i → q = p ∧ pc_connDirections i !! d = Some true ∨ sv_peers (nw_server n) !! q = Some i) ∧
  maxInboundConnectionCount (sv_connectionCounts (nw_server n')) = maxInboundConnectionCount (sv_connectionCounts (nw_server n)) ∧
  maxOutboundConnectionCount (sv_connectionCounts (nw_server n')) = maxOutboundConnectionCount (sv_connectionCounts (nw_server n)).
Proof.
  intros Hn n'. unfold n', on_server, AddPeer, addPeerInfo. destruct n as [s ident]. cbn [nw_server nw_identity].
  destruct (match sv_peers s !! p with Some i => _ | None => _ end) eqn:Eold.
  { split; [exact Hn|]. split; [done|]. split; [intros d'; unfold one_in; cbn [nw_server]; case_bool_decide; cbn; lia|]. split; [by right|done]. }
  set (i0 := default (mkConnInfo (PeerInfo p) ∅ ∅) (sv_peers s !! p)). fold (joined d i0).
  assert (weight d i0 = 0) as Hw.
  { unfold weight, i0. destruct (sv_peers s !! p) as [i|]; cbn in *; [by rewrite Eold|by rewrite lookup_empty]. }
  assert (∀ f, (∀ q, f q (mkConnInfo (PeerInfo p) ∅ ∅) = 0) →
    ksum f (<[p := joined d i0]> (sv_peers s)) = ksum f (sv_peers s) + (f p (joined d i0) - f p i0)) as Hsum.
  { intros f Hf. apply insert_peer_sums. unfold i0. destruct (sv_peers s !! p) as [i|]; [by left|right]. split; [done|]. exact Hf. }
  assert (∀ d', weight d' (mkConnInfo (PeerInfo p) ∅ ∅) = 0) as Hz by (intros d'; unfold weight; cbn; by rewrite lookup_empty).
  set (s1 := set_peers (<[p := joined d i0]> (sv_peers s)) s).
  assert (∀ d', conns d' s1 = conns d' s + one_in d' d) as Hconns.
  { intros d'. unfold conns, s1. cbn [sv_peers set_peers]. rewrite (Hsum (λ _, weight d') (λ _, Hz d')). rewrite joined_weight by done. lia. }
  assert (boots s1 = boots s + counted_boot p s) as Hboots.
  { unfold boots, counted_boot, s1. cbn [sv_peers set_peers sv_NoDiscover sv_bootnodes]. destruct (sv_NoDiscover s); [done|]. cbn [orb].
    rewrite Hsum; [|intros q; destruct (isBootnode q _); [unfold weights; by rewrite !Hz|done]]. destruct (isBootnode p (sv_bootnodes s)); cbn [negb]; [rewrite joined_weights by done|]; lia. }
  destruct (no_tallies _ Hn) as [H1 H2 H3]. cbn [nw_server] in *.
  assert (tallies s1 (conns DirInbound s) (conns DirOutbound s) (boots s)) as Ht by (by split).
  destruct (count_connection_ok p 1 d s1 _ _ _ Ht) as [Hr Ht']. set (s2 := count_connection p 1 d s1) in *.
  destruct (recounted_conns s1 s2 d Hr) as [_ Eb].
  assert (∀ d', conns d' s2 = conns d' s + one_in d' d) as Hconns2 by (intros d'; rewrite <- Hconns; by apply recounted_conns).
  split_and!.
  - apply (emitEvent_ok p PeerConnected (mkNetwork s2 ident)). split; cbn [nw_server].
    + rewrite !Hconns2, Eb, Hboots. destruct Ht' as [T1 T2 T3]. rewrite !Z.mul_1_l in *. by split.
    + rewrite (rc_pendIn _ _ Hr). apply (no_pendIn _ Hn).
    + rewrite (rc_pendOut _ _ Hr). apply (no_pendOut _ Hn).
  - done.
  - intros d'. change (conns d' (emitEvent p PeerConnected s2)) with (conns d' s2). rewrite Hconns2. lia.
  - intros q i. cbn [sv_peers emitEvent]. rewrite (rc_peers _ _ Hr). cbn [s1 sv_peers set_peers]. destruct (decide (p = q)) as [<-|].
    + rewrite lookup_insert_eq. intros [= <-]. left. split; [done|]. cbn. by rewrite lookup_insert_eq.
    + rewrite lookup_insert_ne by done. by right.
  - cbn. by rewrite (rc_maxIn _ _ Hr).
  - cbn. by rewrite (rc_maxOut _ _ Hr).
Qed.

Lemma removePeer_ok p n : net_ok n →
  let n' := on_server (removePeer p) n in
  net_ok n' ∧ nw_identity n' = nw_identity n ∧
  (∀ d', conns d' (nw_server n') ≤ conns d' (nw_server n)) ∧ sv_peers (nw_server n') = base.delete p (sv_peers (nw_server n)) ∧
  maxInboundConnectionCount (sv_connectionCounts (nw_server n')) = maxInboundConnectionCount (sv_connectionCounts (nw_server n)) ∧
  maxOutboundConnectionCount (sv_connectionCounts (nw_server n')) = maxOutboundConnectionCount (sv_connectionCounts (nw_server n)).
Proof.
  intros Hn n'. unfold n', on_server, removePeer, removePeerInfo. destruct n as [s ident]. cbn [nw_server nw_identity].
  destruct (sv_peers s !! p) as [i|] eqn:Hp; [|split; [done|]; split; [done|]; split; [done|]; split; [by rewrite delete_id|done]].
  set (s1 := set_peers (base.delete p (sv_peers s)) s).
  assert (∀ f, ksum f (base.delete p (sv_peers s)) = ksum f (sv_peers s) - f p i) as Hsum by (intros f; rewrite (ksum_delete f _ _ _ Hp); lia).
  destruct (no_tallies _ Hn) as [H1 H2 H3]. cbn [nw_server] in *.
  assert (tallies s1 (conns DirInbound s) (conns DirOutbound s) (boots s)) as Ht by (by split).
  destruct (fold_counts_ok p (map_to_list (pc_connDirections i)) s1 _ _ _ Ht) as [Hr Ht']. set (s2 := foldr _ s1 _) in *.
  rewrite !taken_weight, taken_weights in Ht'.
  assert (∀ d', conns d' s2 = conns d' s - weight d' i) as Hconns.
  { intros d'. destruct (recounted_conns s1 s2 d' Hr) as [-> _]. unfold conns, s1. cbn [sv_peers set_peers]. apply Hsum. }
  assert (boots s2 = boots s - counted_boot p s1 * weights i) as Hboots.
  { destruct (recounted_conns s1 s2 DirInbound Hr) as [_ ->]. unfold boots, s1, counted_boot. cbn [sv_peers set_peers sv_NoDiscover sv_bootnodes].
    destruct (sv_NoDiscover s); cbn [orb]; [lia|]. rewrite Hsum. destruct (isBootnode p (sv_bootnodes s)); cbn [negb]; lia. }
  split_and!.
  - apply (emitEvent_ok p PeerDisconnected (mkNetwork s2 ident)). split; cbn [nw_server].
    + by rewrite !Hconns, Hboots.
    + rewrite (rc_pendIn _ _ Hr). apply (no_pendIn _ Hn).
    + rewrite (rc_pendOut _ _ Hr). apply (no_pendOut _ Hn).
  - done.
  - intros d'. change (conns d' (emitEvent p PeerDisconnected s2)) with (conns d' s2). rewrite Hconns. unfold weight. destruct (default _ _); cbn; lia.
  - cbn. by rewrite (rc_peers _ _ Hr).
  - cbn. by rewrite (rc_maxIn _ _ Hr).
  - cbn. by rewrite (rc_maxOut _ _ Hr).
Qed.

Lemma addPending_ok p d n : net_ok n →
  let n' := addPendingStatus p d n in
  net_ok n' ∧ sv_peers (nw_server n') = sv_peers (nw_server n) ∧ id_chainID (nw_identity n') = id_chainID (nw_identity n) ∧
  (∀ d', conns d' (nw_server n') = conns d' (nw_server n) ∧ pend d' n ≤ pend d' n') ∧
  maxInboundConnectionCount (sv_connectionCounts (nw_server n')) = maxInboundConnectionCount (sv_connectionCounts (nw_server n)) ∧
  maxOutboundConnectionCount (sv_connectionCounts (nw_server n')) = maxOutboundConnectionCount (sv_connectionCounts (nw_server n)).
Proof.
  intros Hn n'. unfold n', addPendingStatus. destruct (id_pendingPeerConnections (nw_identity n) !! p) eqn:Hp; [split_and!; done|].
  assert (∀ d', ksum (λ _ x, Z.b2z (bool_decide (x = d'))) (<[p := d]> (id_pendingPeerConnections (nw_identity n))) = pend d' n + one_in d' d) as Hpend.
  { intros d'. rewrite ksum_insert_None by done. unfold pend, one_in. lia. }
  destruct Hn as [[H1 H2 H3] H4 H5]. split_and!; [|done|done| |by destruct d..].
  - split; [by destruct d|..]; unfold pend at 1; cbn [nw_identity nw_server id_pendingPeerConnections set_pending]; rewrite Hpend; unfold one_in;
      destruct d; cbn [UpdatePendingConnCount UpdatePendingConnCountByDirection sv_connectionCounts set_counts incPendingInboundConnCount incPendingOutboundConnCount
        pendingInboundConnectionCount pendingOutboundConnectionCount]; rewrite ?H4, ?H5, ?s64_add_l; f_equal; decide_directions; lia.
  - intros d'. split; [done|]. unfold pend at 2. cbn [nw_identity id_pendingPeerConnections set_pending]. rewrite Hpend. unfold one_in. case_bool_decide; cbn; lia.
Qed.

Lemma removePending_ok p n : net_ok n →
  let n' := removePendingStatus p n in
  net_ok n' ∧ sv_peers (nw_server n') = sv_peers (nw_server n) ∧ id_chainID (nw_identity n') = id_chainID (nw_identity n) ∧
  (∀ d', conns d' (nw_server n') = conns d' (nw_server n)) ∧
  maxInboundConnectionCount (sv_connectionCounts (nw_server n')) = maxInboundConnectionCount (sv_connectionCounts (nw_server n)) ∧
  maxOutboundConnectionCount (sv_connectionCounts (nw_server n')) = maxOutboundConnectionCount (sv_connectionCounts (nw_server n)).
Proof.
  intros Hn n'. unfold n', removePendingStatus. destruct (id_pendingPeerConnections (nw_identity n) !! p) as [d|] eqn:Hp; [|split_and!; done].
  assert (∀ d', ksum (λ _ x, Z.b2z (bool_decide (x = d'))) (base.delete p (id_pendingPeerConnections (nw_identity n))) = pend d' n - one_in d' d) as Hpend.
  { intros d'. unfold pend, one_in. rewrite (ksum_delete _ _ _ _ Hp). lia. }
  destruct Hn as [[H1 H2 H3] H4 H5]. split_and!; [|done|done|done|by destruct d..].
  split; [by destruct d|..]; unfold pend at 1; cbn [nw_identity nw_server id_pendingPeerConnections set_pending]; rewrite Hpend; unfold one_in;
    destruct d; cbn [UpdatePendingConnCount UpdatePendingConnCountByDirection sv_connectionCounts set_counts incPendingInboundConnCount incPendingOutboundConnCount
      pendingInboundConnectionCount pendingOutboundConnectionCount]; rewrite ?H4, ?H5, ?s64_add_l; f_equal; decide_directions; lia.
Qed.

(** ** Interleavings *)

(** What the other goroutines do to a server. *)
Inductive bystander : Server → Server → Prop :=
| by_dial a pr s : bystander s (addToDialQueue a pr s)
| by_queue d s : dq_step (sv_dialQueue s) d → bystander s (set_dialQueue d s)
| by_event p e s : bystander s (emitEvent p e s)
| by_temporary p v s : bystander s (FetchOrSetTemporaryDial p v s).2
| by_permanent p s : bystander s (RemoveTemporaryDial p s)
| by_save proto c p s : bystander s (SaveProtocolStream proto c p s)
| by_close proto p s : bystander s (CloseProtocolStream proto p s).2.

(** The network with the goroutines of [ConnectedF]: past the check of the slots,
    in a handshake, with a status sent, and with the answer handled; and the answers
    that came. *)
Record world := mkWorld {
  w_net : network;
  w_handlers : list (PeerID * Direction);
  w_handshakes : list (PeerID * Direction);
  w_greeted : list (PeerID * Direction * Status);
  w_closing : list (PeerID * result id_err ());
  w_answers : list (PeerID * Direction * Status * Status);
}.

Section steps.
Variable Pretty : PeerID → bytes.

Inductive net_step : world → world → Prop :=
| net_judge p d n hd hs gr cl an : judge_connection p d n = Accepted →
    net_step (mkWorld n hd hs gr cl an) (mkWorld n (hd ++ [(p, d)]) hs gr cl an)
| net_mark p d n hd1 hd2 hs gr cl an :
    net_step (mkWorld n (hd1 ++ (p, d) :: hd2) hs gr cl an) (mkWorld (addPendingStatus p d n) (hd1 ++ hd2) (hs ++ [(p, d)]) gr cl an)
| net_no_client p d n hd hs1 hs2 gr cl an :
    net_step (mkWorld n hd (hs1 ++ (p, d) :: hs2) gr cl an) (mkWorld n hd (hs1 ++ hs2) gr (cl ++ [(p, Err ErrIdentityClient)]) an)
| net_greet p d n hd hs1 hs2 gr cl an :
    net_step (mkWorld n hd (hs1 ++ (p, d) :: hs2) gr cl an) (mkWorld n hd (hs1 ++ hs2) (gr ++ [(p, d, constructStatus Pretty p n)]) cl an)
| net_answer PeerInfo p d st resp r n n' hd hs gr1 gr2 cl an : handle_response PeerInfo p d st resp n = (r, n') →
    net_step (mkWorld n hd hs (gr1 ++ (p, d, st) :: gr2) cl an)
      (mkWorld n' hd hs (gr1 ++ gr2) (cl ++ [(p, r)]) (an ++ match resp with Some resp => [(p, d, st, resp)] | None => [] end))
| net_done p r n hd hs gr cl1 cl2 an :
    net_step (mkWorld n hd hs gr (cl1 ++ (p, r) :: cl2) an) (mkWorld (handshake_done p r n) hd hs gr (cl1 ++ cl2) an)
| net_disconnected p n hd hs gr cl an :
    net_step (mkWorld n hd hs gr cl an) (mkWorld (on_server (removePeer p) n) hd hs gr cl an)
| net_other s n hd hs gr cl an : bystander (nw_server n) s →
    net_step (mkWorld n hd hs gr cl an) (mkWorld (mkNetwork s (nw_identity n)) hd hs gr cl an).

(** The goroutines that may still add a peer in a direction. *)
Definition unfinished (d : Direction) (w : world) : Z :=
  sumZ (λ x, one_in d x.2) (w_handlers w) + sumZ (λ x, one_in d x.2) (w_handshakes w) + sumZ (λ x, one_in d x.1.2) (w_greeted w).

Definition limit (d : Direction) (n : network) : Z :=
  match d with
  | DirInbound => maxInboundConnectionCount (sv_connectionCounts (nw_server n))
  | DirOutbound => maxOutboundConnectionCount (sv_connectionCounts (nw_server n))
  | DirUnknown => 0
  end.

(** An answer that makes a peer. *)
Definition shook_hands (n : network) (p : PeerID) (i : PeerConnInfo) (an : list (PeerID * Direction * Status * Status)) : Prop :=
  ∃ d st resp, (p, d, st, resp) ∈ an ∧ pc_connDirections i !! d = Some true ∧ st_Chain resp = id_chainID (nw_identity n) ∧
    st_TemporaryDial st = false ∧ st_TemporaryDial resp = false.

Record world_ok (w : world) : Prop := {
  wo_net : net_ok (w_net w);
  wo_greeted p d st : (p, d, st) ∈ w_greeted w → st_Chain st = id_chainID (nw_identity (w_net w));
  wo_peers p i : sv_peers (nw_server (w_net w)) !! p = Some i → shook_hands (w_net w) p i (w_answers w);
}.

(** What a bystander leaves. *)
Record untouched (s s' : Server) : Prop := {
  un_counts : sv_connectionCounts s' = sv_connectionCounts s;
  un_boot : sv_bootnodes s' = sv_bootnodes s;
  un_discover : sv_NoDiscover s' = sv_NoDiscover s;
  un_sum f : (∀ p i j, pc_connDirections i = pc_connDirections j → f p i = f p j) → ksum f (sv_peers s') = ksum f (sv_peers s);
  un_peers p i : sv_peers s' !! p = Some i → ∃ j, sv_peers s !! p = Some j ∧ pc_connDirections i = pc_connDirections j;
}.

Lemma replaced_untouched s p i j : sv_peers s !! p = Some i → pc_connDirections j = pc_connDirections i →
  untouched s (set_peers (<[p := j]> (sv_peers s)) s).
Proof.
  intros Hp Hd. split; try done.
  - intros f Hf. cbn. rewrite (ksum_insert_Some _ _ _ _ _ Hp), (Hf p j i Hd). lia.
  - cbn. intros q x. destruct (decide (p = q)) as [<-|]; [rewrite lookup_insert_eq; intros [= <-]; by exists i|rewrite lookup_insert_ne by done; by exists x].
Qed.

Lemma bystander_untouched s s' : bystander s s' → untouched s s'.
Proof.
  assert (∀ s s', sv_connectionCounts s' = sv_connectionCounts s → sv_bootnodes s' = sv_bootnodes s → sv_NoDiscover s' = sv_NoDiscover s → sv_peers s' = sv_peers s →
    untouched s s') as Hsame by (intros x y ? ? ? E; split; try done; [intros f _; by rewrite E|intros p i; rewrite E; eauto]).
  destruct 1 as [a pr s|d s|p e s|p v s|p s|proto c p s|proto p s]; try (by apply Hsame).
  - apply Hsame; unfold FetchOrSetTemporaryDial; by destruct (sv_temporaryDials s !! p).
  - unfold SaveProtocolStream. destruct (sv_peers s !! p) as [i|] eqn:E; [|by apply Hsame]. by eapply replaced_untouched.
  - unfold CloseProtocolStream. destruct (sv_peers s !! p) as [i|] eqn:E; [|by apply Hsame]. unfold removeProtocolStream.
    destruct (pc_protocolStreams i !! proto); by eapply replaced_untouched.
Qed.

Lemma weight_dirs i j d : pc_connDirections i = pc_connDirections j → weight d i = weight d j.
Proof. unfold weight. by intros ->. Qed.

Lemma untouched_ok s s' ident : untouched s s' → net_ok (mkNetwork s ident) → net_ok (mkNetwork s' ident) ∧ ∀ d, conns d s' = conns d s.
Proof.
  intros Hu Hn. assert (∀ d, conns d s' = conns d s) as Hc by (intros d; apply (un_sum _ _ Hu); intros; by apply weight_dirs). split; [|done].
  assert (boots s' = boots s) as Hb.
  { unfold boots. rewrite (un_discover _ _ Hu), (un_boot _ _ Hu). case_match; [done|]. apply (un_sum _ _ Hu). intros p i j E. case_match; [|done].
    unfold weights. by rewrite !(weight_dirs i j _ E). }
  destruct Hn as [[H1 H2 H3] H4 H5]. split; cbn [nw_server] in *; [|by rewrite (un_counts _ _ Hu)..].
  split; rewrite ?Hc, ?Hb, ?(un_counts _ _ Hu), ?(un_boot _ _ Hu); done.
Qed.

Lemma answer_ok PeerInfo p d st resp n r n' :
  handle_response PeerInfo p d st resp n = (r, n') → net_ok n →
  net_ok n' ∧ nw_identity n' = nw_identity n ∧ (∀ d', limit d' n' = limit d' n) ∧ (∀ d', conns d' (nw_server n') ≤ conns d' (nw_server n) + one_in d' d) ∧
  ∀ q i, sv_peers (nw_server n') !! q = Some i → sv_peers (nw_server n) !! q = Some i ∨
    q = p ∧ pc_connDirections i !! d = Some true ∧ ∃ rs, resp = Some rs ∧ st_Chain st = st_Chain rs ∧ st_TemporaryDial st = false ∧ st_TemporaryDial rs = false.
Proof.
  assert (∀ d d', 0 ≤ one_in d' d) as Hpos by (intros; unfold one_in; by case_bool_decide).
  assert (∀ m, m = n → net_ok n → net_ok m ∧ nw_identity m = nw_identity n ∧ (∀ d', limit d' m = limit d' n) ∧
    (∀ d', conns d' (nw_server m) ≤ conns d' (nw_server n) + one_in d' d) ∧ ∀ q i, sv_peers (nw_server m) !! q = Some i → sv_peers (nw_server n) !! q = Some i ∨
    q = p ∧ pc_connDirections i !! d = Some true ∧ ∃ rs, resp = Some rs ∧ st_Chain st = st_Chain rs ∧ st_TemporaryDial st = false ∧ st_TemporaryDial rs = false) as Hsame.
  { intros m -> Hn. split_and!; try done; [intros d'; specialize (Hpos d d'); lia|by left]. }
  unfold handle_response. destruct resp as [rs|]; [|intros [= <- <-]; by apply Hsame].
  destruct (Z.eqb_spec (st_Chain st) (st_Chain rs)); cbn [negb]; [|intros [= <- <-]; by apply Hsame].
  destruct (st_TemporaryDial rs) eqn:Et1; cbn [negb andb]; [intros [= <- <-]; by apply Hsame|].
  destruct (st_TemporaryDial st) eqn:Et2; cbn [negb andb]; [intros [= <- <-]; by apply Hsame|]. intros [= <- <-] Hn.
  destruct (addPeer_ok PeerInfo p d n Hn) as (Hn' & Hid & Hc & Hp & Hm1 & Hm2). split_and!; [done|done|by intros []|done|].
  intros q i [[-> Hd]|]%Hp; [right|by left]. split; [done|]. split; [done|]. by exists rs.
Qed.

Lemma shook_more n n' p i an an' : shook_hands n p i an → nw_identity n' = nw_identity n → an ⊆ an' → shook_hands n' p i an'.
Proof. intros (d & st & r & Hin & ? & ? & ?) Ei Hs. exists d, st, r. rewrite Ei. split; [by apply Hs|done]. Qed.

(** One step: the invariant, the limits, and the connections that there are or may
    come, which grow only when a slot is found free. *)
Lemma net_step_ok w w' : net_step w w' → world_ok w →
  world_ok w' ∧ (∀ d, limit d (w_net w') = limit d (w_net w)) ∧
  ∀ d, conns d (nw_server (w_net w')) + unfinished d w' ≤ conns d (nw_server (w_net w)) + unfinished d w ∨
       HasFreeConnectionSlot d (sv_connectionCounts (nw_server (w_net w))) = true ∧ w_net w' = w_net w ∧ unfinished d w' = unfinished d w + 1.
Proof.
  assert (∀ d d', 0 ≤ one_in d' d) as Hpos by (intros; unfold one_in; by case_bool_decide).
  destruct 1 as [p d n hd hs gr cl an Hj|p d n hd1 hd2 hs gr cl an|p d n hd hs1 hs2 gr cl an|p d n hd hs1 hs2 gr cl an
    |PeerInfo p d st resp r n n' hd hs gr1 gr2 cl an E|p r n hd hs gr cl1 cl2 an|p n hd hs gr cl an|s n hd hs gr cl an Hb]; unfold unfinished; cbn [w_net w_handlers w_handshakes w_greeted].
  - intros [Hn Hg Hp]. split; [by split|]. split; [done|]. intros d'. rewrite sumZ_app. cbn [sumZ foldr snd]. unfold one_in. case_bool_decide as Hd; cbn [Z.b2z]; [right|left; lia].
    subst d'. unfold judge_connection in Hj. destruct (hasPendingStatus p n); [done|]. destruct (HasFreeConnectionSlot d _); [|done]. split; [done|]. split; [done|lia].
  - intros [Hn Hg Hp]. destruct (addPending_ok p d n Hn) as (Hn' & Ep & Ei & Hc & Hm1 & Hm2). split; [|split; [by intros []|]].
    + split; cbn in *; [done|intros; rewrite Ei; eauto|]. intros q i. rewrite Ep. intros (d' & st & r & ? & ? & E & ?)%Hp. exists d', st, r. rewrite Ei. done.
    + intros d'. left. destruct (Hc d') as [-> _]. rewrite !sumZ_app, !sumZ_cons. cbn [sumZ foldr snd]. lia.
  - intros [Hn Hg Hp]. split; [by split|]. split; [done|]. intros d'. left. rewrite !sumZ_app, !sumZ_cons. specialize (Hpos d d'). cbn [snd]. lia.
  - intros [Hn Hg Hp]. split; [split; cbn in *; [done| |done]|].
    + intros q d' st [Hin|E%list_elem_of_singleton]%elem_of_app; [by eapply Hg|]. by injection E as -> -> ->.
    + split; [done|]. intros d'. left. rewrite !sumZ_app, !sumZ_cons. cbn [sumZ foldr fst snd]. lia.
  - intros [Hn Hg Hp]. cbn in *.
    destruct (answer_ok _ _ _ _ _ _ _ _ E Hn) as (Hn' & Ei & Hl & Hc & Hpeers). split; [|split; [done|]].
    + split; cbn; [done|intros q d' st' Hin; rewrite Ei; apply (Hg q d'); rewrite elem_of_app in *; set_solver|].
      intros q i [Hq|(-> & Hd & rs & -> & Hch & Ht1 & Ht2)]%Hpeers; [eapply shook_more; [by apply Hp|done|set_solver]|].
      exists d, st, rs. rewrite Ei, <- Hch, (Hg p d st) by set_solver. split_and!; try done. set_solver.
    + intros d'. left. specialize (Hc d'). rewrite !sumZ_app, !sumZ_cons. cbn [fst snd]. lia.
  - intros [Hn Hg Hp]. destruct (removePending_ok p n Hn) as (Hn' & Ep & Ei & Hc & Hm1 & Hm2). unfold handshake_done. split; [|split; [by intros []|]].
    + split; cbn in *; [by apply emitEvent_ok|intros; rewrite Ei; eauto|]. intros q i. rewrite Ep. intros (d' & st & r' & ? & ? & E & ?)%Hp. exists d', st, r'. cbn. rewrite Ei. done.
    + intros d'. left. change (conns d' (nw_server (on_server _ ?x))) with (conns d' (nw_server x)). rewrite Hc. lia.
  - intros [Hn Hg Hp]. destruct (removePeer_ok p n Hn) as (Hn' & Ei & Hc & Ep & Hm1 & Hm2). split; [|split; [by intros []|]].
    + split; cbn in *; [done|done|]. intros q i. rewrite Ep. intros [_ Hq]%lookup_delete_Some. eapply shook_more; [by apply Hp|done|done].
    + intros d'. left. specialize (Hc d'). lia.
  - intros [Hn Hg Hp]. apply bystander_untouched in Hb. destruct n as [s0 ident]. cbn in *. destruct (untouched_ok s0 s ident Hb Hn) as [Hn' Hc].
    split; [|split; [intros []; cbn; by rewrite ?(un_counts _ _ Hb)|]].
    + split; cbn; [done|done|]. intros q i (j & Hj & Ed)%(un_peers _ _ Hb). destruct (Hp _ _ Hj) as (d & st & r & ? & Hd & ?). exists d, st, r. by rewrite Ed.
    + intros d'. left. rewrite Hc. lia.
Qed.

(** ** Runs *)

(** A server after [NewServer], with the bootnodes [setupBootnodes] reads or
    without any. *)
Inductive started (maxIn maxOut : Z) : Server → Prop :=
| started_alone noDiscover : started maxIn maxOut (NewServer noDiscover maxIn maxOut)
| started_bootnodes parse host raw noDiscover s : setupBootnodes parse host raw (NewServer noDiscover maxIn maxOut) = Ok s → started maxIn maxOut s.

Definition at_start (s : Server) (chain : Z) (host : PeerID) : world := mkWorld (mkNetwork s (mkIdentity chain host ∅)) [] [] [] [] [].

Lemma started_fields maxIn maxOut s : started maxIn maxOut s →
  sv_peers s = ∅ ∧ sv_connectionCounts s = NewBlankConnectionInfo maxIn maxOut ∧ bootnodeConnCount (sv_bootnodes s) = 0.
Proof.
  destruct 1 as [|f h raw nd s E]; [done|]. unfold setupBootnodes in E. destruct raw as [raw|]; [|done]. destruct (_ <? 1)%nat; [done|].
  destruct (parse_bootnodes f h raw [] ∅) as [[arr m]|]; [|done]. by injection E as <-.
Qed.

Lemma fresh_net_ok maxIn maxOut s chain host : started maxIn maxOut s → world_ok (at_start s chain host).
Proof.
  intros (Ep & Ec & Eb)%started_fields. split; cbn; [|set_solver|by rewrite Ep].
  assert (∀ d, conns d s = 0) as Hc by (intros; unfold conns; by rewrite Ep). assert (boots s = 0) as Hb by (unfold boots; rewrite Ep; by case_match).
  split; [split|..]; cbn; by rewrite ?Hc, ?Hb, ?Ec, ?Eb.
Qed.

Lemma reachable_world_ok w w' : rtc net_step w w' → world_ok w → world_ok w'.
Proof. induction 1 as [|w1 w2 w3 Hs _ IH]; [done|]. intros Hw. apply IH, (net_step_ok _ _ Hs Hw). Qed.

(** Fewer peers than the counters can count. *)
Definition countable (n : network) : Prop := Z.of_nat (size (sv_peers (nw_server n))) + Z.of_nat (size (id_pendingPeerConnections (nw_identity n))) < 2 ^ 60.

Lemma sums_small n d : countable n →
  0 ≤ conns d (nw_server n) ∧ 0 ≤ pend d n ∧ conns d (nw_server n) + pend d n < 2 ^ 60.
Proof.
  intros H. unfold countable in H.
  assert (0 ≤ conns d (nw_server n) ≤ _) as Hc by (apply ksum_range; intros; unfold weight; destruct (default false _); cbn; lia).
  assert (0 ≤ pend d n ≤ _) as Hp by (apply ksum_range; intros; case_bool_decide; cbn; lia). lia.
Qed.

Lemma boots_small n : countable n → 0 ≤ boots (nw_server n) < 3 * 2 ^ 60.
Proof.
  intros H. unfold countable in H. unfold boots. case_match; [lia|].
  set (m := sv_peers (nw_server n)) in *. clearbody m. assert (0 ≤ ksum (λ p i, if isBootnode p (sv_bootnodes (nw_server n)) then weights i else 0) m ≤ 3 * Z.of_nat (size m)); [|lia].
  unfold ksum. rewrite <- length_map_to_list. induction (map_to_list m) as [|[p i] l IH]; [cbn; lia|]. rewrite sumZ_cons. cbn [fst snd length].
  assert (∀ d, 0 ≤ weight d i ≤ 1) as Hw by (intros; unfold weight; destruct (default false _); cbn; lia).
  pose proof (Hw DirUnknown). pose proof (Hw DirInbound). pose proof (Hw DirOutbound). unfold weights in *. case_match; lia.
Qed.

(** C23.  The connection counters are exact under every interleaving.  From a server
    just set up, after any steps of the handlers of connections (each of which
    checks the slots, marks the handshake, sends a status, handles the answer and
    clears the mark, with anything in between), of disconnections, dials and stream
    operations: each counter equals the number of connections of its direction in the
    table of peers, of handshakes marked in that direction, or of connections to
    bootnodes, so that none is leaked or counted twice; and every peer in the table
    has answered a handshake for its connection with the chain ID of this node,
    when neither side took the connection for a temporary one. *)
Theorem connection_counters_exact maxIn maxOut s chain host w :
  started maxIn maxOut s → rtc net_step (at_start s chain host) w → countable (w_net w) →
  let sv := nw_server (w_net w) in let ci := sv_connectionCounts sv in
  inboundConnectionCount ci = conns DirInbound sv ∧ outboundConnectionCount ci = conns DirOutbound sv ∧
  pendingInboundConnectionCount ci = pend DirInbound (w_net w) ∧ pendingOutboundConnectionCount ci = pend DirOutbound (w_net w) ∧
  bootnodeConnCount (sv_bootnodes sv) = boots sv ∧
  ∀ p i, sv_peers sv !! p = Some i → shook_hands (w_net w) p i (w_answers w).
Proof.
  intros Hs Hr Hc sv ci. destruct (reachable_world_ok _ _ Hr (fresh_net_ok _ _ _ _ _ Hs)) as [[[H1 H2 H3] H4 H5] _ Hp].
  pose proof (sums_small _ DirInbound Hc). pose proof (sums_small _ DirOutbound Hc). pose proof (boots_small _ Hc).
  unfold ci, sv. rewrite H1, H2, H3, H4, H5, !s64_small by lia. done.
Qed.

(** A world in which at most [K] handlers are between the check of the slots and
    their mark, counted as the goroutines without a mark of their own. *)
Definition calm (K : Z) (d : Direction) (w : world) : Prop := unfinished d w - pend d (w_net w) ≤ K ∧ countable (w_net w).

Lemma free_slot d n : net_ok n → countable n → HasFreeConnectionSlot d (sv_connectionCounts (nw_server n)) = true →
  conns d (nw_server n) + pend d n < limit d n.
Proof.
  intros [[H1 H2 H3] H4 H5] Hc. pose proof (sums_small _ d Hc). destruct d; cbn; [done|..]; unfold HasFreeInboundConn, HasFreeOutboundConn.
  - rewrite H1, H4, (s64_small (conns _ _)), (s64_small (pend _ _)), s64_small by lia. lia.
  - rewrite H2, H5, (s64_small (conns _ _)), (s64_small (pend _ _)), s64_small by lia. lia.
Qed.

Lemma calm_run_bounded K d w0 w : rtc (λ w w', net_step w w' ∧ calm K d w') w0 w → world_ok w0 →
  conns d (nw_server (w_net w0)) + unfinished d w0 < limit d (w_net w0) + K →
  limit d (w_net w) = limit d (w_net w0) ∧ conns d (nw_server (w_net w)) + unfinished d w < limit d (w_net w) + K.
Proof.
  induction 1 as [|w1 w2 w3 [Hs [Hk Hc]] _ IH]; [done|]. intros Hw Hb. destruct (net_step_ok _ _ Hs Hw) as (Hw2 & Hl & Hg).
  assert (conns d (nw_server (w_net w2)) + unfinished d w2 < limit d (w_net w2) + K) as Hb2; [|by destruct (IH Hw2 Hb2) as [-> ?]; rewrite <- Hl].
  destruct (Hg d) as [Hle|(Hf & En & Hu)]; [rewrite Hl; lia|].
  rewrite En in *. pose proof (free_slot _ _ (wo_net _ Hw) Hc Hf). lia.
Qed.

Lemma unfinished_nonneg d w : 0 ≤ unfinished d w.
Proof.
  unfold unfinished. assert (∀ d', 0 ≤ one_in d d') as H by (intros; unfold one_in; by case_bool_decide).
  repeat apply Z.add_nonneg_nonneg; by apply sumZ_nonneg.
Qed.

End steps.

(** [bootnodePeerDiscovery] turns without end when a bootnode is connected and all
    the others are dialed temporarily, as another turn of it may be doing. *)
Lemma bootnode_search_spins rands s : 0 < bootnodeConnCount (sv_bootnodes s) →
  (∀ b, b ∈ bootnodeArr (sv_bootnodes s) → hasPeer (ai_ID b) s = false → IsTemporaryDial (ai_ID b) s = true) →
  (∀ r, r ∈ rands → GetRandomBootnode r s ≠ None) → find_bootnode rands s = NoFuel.
Proof.
  intros Hb Ht. induction rands as [|r rands IH]; intros Hr; [done|]. cbn. destruct (GetRandomBootnode r s) as [b|] eqn:E; [|by destruct (Hr r); [set_solver|]].
  apply list_elem_of_lookup_2, list_elem_of_filter in E as [Hp Hin]. specialize (Ht b Hin Hp). unfold IsTemporaryDial in Ht. unfold FetchOrSetTemporaryDial.
  destruct (sv_temporaryDials s !! ai_ID b); [|done]. destruct (Z.gtb_spec (bootnodeConnCount (sv_bootnodes s)) 0); [|lia]. apply IH. set_solver.
Qed.

(** Without discovery, or without bootnodes, [keepAliveMinimumPeerConnections] dials
    nobody: it looks for a peer in the table only when the table is empty. *)
Lemma keep_alive_idle connected PeerInfo order randNum s : sv_NoDiscover s = true ∨ bootnodeArr (sv_bootnodes s) = [] →
  keep_alive connected PeerInfo order randNum s = s.
Proof.
  intros H. unfold keep_alive. destruct (Z.ltb_spec (numPeers s) 1) as [Hn|]; [|done].
  assert (sv_NoDiscover s || negb (hasBootnodes (sv_bootnodes s)) = true) as ->
    by (unfold hasBootnodes; destruct H as [->| ->]; [done|apply orb_true_r]).
  unfold GetRandomPeer. rewrite bool_decide_true; [done|]. unfold numPeers in Hn. lia.
Qed.

(** [FindPeers] answers with at most sixteen addresses, none of which is of the peer
    that asks, if the routing table gives no more peers than it is asked for. *)
Lemma FindPeers_small `{RoutingTable} AddrInfoToString ConvertKey ID_String PeerInfo from count key d :
  (∀ k n t, Z.of_nat (length (NearestPeers k n t)) ≤ Z.max 0 n) → (∀ p, ai_ID (PeerInfo p) = p) →
  let found := FindPeers AddrInfoToString ConvertKey ID_String PeerInfo from count key d in
  Z.of_nat (length found) ≤ maxDiscoveryPeerReqCount ∧ ∀ a, a ∈ found → ∃ i, a = AddrInfoToString i ∧ ai_ID i ≠ from ∧ ai_Addrs i ≠ [].
Proof.
  intros Hlen Hid found. unfold found, FindPeers. split.
  - rewrite length_fmap. set (k := if bool_decide _ then _ else _). set (n := if _ >? _ then _ else _).
    specialize (Hlen (ConvertKey k) n (ds_table d)). assert (n ≤ maxDiscoveryPeerReqCount) as Hn by (unfold n; destruct (Z.gtb_spec count maxDiscoveryPeerReqCount); lia).
    set (l := NearestPeers _ _ _) in *. clearbody l n. pose proof (length_filter (λ id, id ≠ from) l).
    pose proof (length_filter (λ info, ai_Addrs info ≠ []) (PeerInfo <$> filter (λ id, id ≠ from) l)) as Hf. rewrite length_fmap in Hf.
    unfold maxDiscoveryPeerReqCount in *. lia.
  - intros a (i & -> & [Ha (p & -> & [Hp _]%list_elem_of_filter)%list_elem_of_fmap]%list_elem_of_filter)%list_elem_of_fmap. exists (PeerInfo p). by rewrite Hid.
Qed.

(** ** Examples *)

Module NetworkExample.
Definition host : PeerID := [9].
Definition peer_a : PeerID := [1].
Definition peer_b : PeerID := [2].
Definition info (p : PeerID) : AddrInfo := mkAddrInfo p [].
Definition pretty (p : PeerID) : bytes := p.
Definition server : Server := NewServer true 1 1.
Definition answer (p : PeerID) : Status := mkStatus p 7 false.

(** One inbound connection, from the check to the end of its handshake. *)
Definition n1 : network := addPendingStatus peer_a DirInbound (w_net (at_start server 7 host)).
Definition greeting : Status := constructStatus pretty peer_a n1.
Definition n2 : network := (handle_response info peer_a DirInbound greeting (Some (answer peer_a)) n1).2.
Definition n3 : network := handshake_done peer_a (Ok ()) n2.
Definition one : world := mkWorld n3 [] [] [] [] [(peer_a, DirInbound, greeting, answer peer_a)].

Lemma one_at_a_time : rtc (λ w w', net_step pretty w w' ∧ calm 1 DirInbound w') (at_start server 7 host) one.
Proof.
  eapply rtc_l; [split; [apply (net_judge pretty peer_a DirInbound); by vm_compute|split; by vm_compute]|].
  eapply rtc_l; [split; [apply (net_mark pretty peer_a DirInbound _ [] [])|split; by vm_compute]|].
  eapply rtc_l; [split; [apply (net_greet pretty peer_a DirInbound _ [] [] [])|split; by vm_compute]|].
  eapply rtc_l; [split; [apply (net_answer pretty info peer_a DirInbound greeting (Some (answer peer_a)) (Ok ()) n1 n2 [] [] [] []); by vm_compute|split; by vm_compute]|].
  eapply rtc_l; [split; [apply (net_done pretty peer_a (Ok ()) n2 [] [] [] [] [])|split; by vm_compute]|]. apply rtc_refl.
Qed.


(** Two connections whose slots are checked before either is marked. *)
Definition m1 : network := addPendingStatus peer_b DirInbound (addPendingStatus peer_a DirInbound (w_net (at_start server 7 host))).
Definition greeting_a : Status := constructStatus pretty peer_a m1.
Definition greeting_b : Status := constructStatus pretty peer_b m1.
Definition m2 : network := (handle_response info peer_a DirInbound greeting_a (Some (answer peer_a)) m1).2.
Definition m3 : network := (handle_response info peer_b DirInbound greeting_b (Some (answer peer_b)) m2).2.
Definition two : world := mkWorld m3 [] [] [] [(peer_a, Ok ()); (peer_b, Ok ())]
  [(peer_a, DirInbound, greeting_a, answer peer_a); (peer_b, DirInbound, greeting_b, answer peer_b)].

Lemma two_at_once : rtc (net_step pretty) (at_start server 7 host) two.
Proof.
  eapply rtc_l; [apply (net_judge pretty peer_a DirInbound); by vm_compute|].
  eapply rtc_l; [apply (net_judge pretty peer_b DirInbound); by vm_compute|].
  eapply rtc_l; [apply (net_mark pretty peer_a DirInbound _ [] [(peer_b, DirInbound)])|].
  eapply rtc_l; [apply (net_mark pretty peer_b DirInbound _ [] [])|].
  eapply rtc_l; [apply (net_greet pretty peer_a DirInbound _ [] [] [(peer_b, DirInbound)])|].
  eapply rtc_l; [apply (net_greet pretty peer_b DirInbound _ [] [] [])|].
  eapply rtc_l; [apply (net_answer pretty info peer_a DirInbound greeting_a (Some (answer peer_a)) (Ok ()) m1 m2 [] [] [] [(peer_b, DirInbound, greeting_b)]); by vm_compute|].
  eapply rtc_l; [apply (net_answer pretty info peer_b DirInbound greeting_b (Some (answer peer_b)) (Ok ()) m2 m3 [] [] [] []); by vm_compute|]. apply rtc_refl.
Qed.

(** The limit of one inbound connection is exceeded. *)
Lemma limit_is_exceeded : rtc (net_step pretty) (at_start server 7 host) two ∧
  limit DirInbound (w_net two) = 1 ∧ conns DirInbound (nw_server (w_net two)) = 2.
Proof. split; [exact two_at_once|by vm_compute]. Qed.

Lemma connection_counters_exact_witness :
  let sv := nw_server (w_net two) in let ci := sv_connectionCounts sv in
  inboundConnectionCount ci = conns DirInbound sv ∧ outboundConnectionCount ci = conns DirOutbound sv ∧
  pendingInboundConnectionCount ci = pend DirInbound (w_net two) ∧ pendingOutboundConnectionCount ci = pend DirOutbound (w_net two) ∧
  bootnodeConnCount (sv_bootnodes sv) = boots sv ∧
  ∀ p i, sv_peers sv !! p = Some i → shook_hands (w_net two) p i (w_answers two).
Proof.
  apply (connection_counters_exact pretty 1 1 server 7 host two); [apply started_alone|exact two_at_once|by vm_compute].
Defined.

(** Two tasks, the second more urgent. *)
Definition queue : DialQueue := AddTask (info peer_b) 1 (AddTask (info peer_a) 10 NewDialQueue).

Lemma queue_reachable : rtc dq_step NewDialQueue queue.
Proof. eapply rtc_l; [apply dq_add|]. eapply rtc_l; [apply dq_add|]. apply rtc_refl. Qed.

End NetworkExample.
