(* ===== verification/NodeExample.v ===== *)
(** Two nodes: the theorems on synchronisation and backups at work, over the real
    encoding; and a node that answers, with its filters, queries, endpoints and traces. *)
From stdpp Require Import strings.
From S2P Require Import Prelude Types Intrinsic Runtime Crypto EvmState EvmLogic EvmMeta StateTxn StateTxnSpec Bloom Precompiled Signer Rlp RlpTypes ChainStorage Trie TrieHash TrieMap TrieState TrieStateSpec StateCommit BuildRoot Blockchain BlockchainSpec TrieExample ChainExample Executor ExecutorInv ExecutorSpec ExecutorBlock ExecutorExample Text Syncer SyncerSpec Archive ArchiveSpec JsonTypes Filters FiltersSpec EthEndpoint EthEndpointSpec Tracer.

Module Pair.
Import RealRlp.
#[local] Existing Instance ChainToy.deps.

(** A cache that keeps nothing, and an [append] that allocates what it needs. *)
Definition lru : LRU := {|
  cache _ := unit;
  lru_New _ := ();
  lru_Get _ _ c := (None, c);
  lru_Add _ _ _ c := c;
|}.
#[local] Existing Instance lru.
#[local] Instance forgetful_laws : LRULaws.
Proof. by split. Qed.
#[local] Instance exact_append : GoRuntime := {| append_spare _ _ := 0%nat |}.

Ltac small := vm_compute; split; [discriminate|reflexivity].

Definition hash : Header → Hash := defHeaderHash.
Definition config : Genesis := mkGenesis (replicate 8 0) 0 [] 5000000 1 0 0 6 0 0 ZeroHash.
Definition g : Header := genesis_header hash config.
Definition start : Blockchain := (ComputeGenesis hash config (NewBlockchain empty_db ())).2.

Definition tx : Transaction := ComputeHash (mkTransaction 0 5 21000 (Some 77) 3 [1; 2] (Some 27) (Some 11) (Some 12) 0 ZeroAddress).
Definition header : Header :=
  hd_ComputeHash hash
    (mkHeader (hd_Hash g) EmptyUncleHash [] 6 (ChainToy.value 0 (CalculateTransactionsRoot [tx]))
       (ChainToy.value 0 (CalculateReceiptsRoot (imap ChainToy.receipt_of [tx]))) (replicate 256 0) 1 1 5000000 21000 10 [] 0 (replicate 8 0) ZeroHash).
Definition block : Block := mkBlock header [tx] [].

Definition state_of {A} (o : outcome (A * Blockchain)) : Blockchain := match o with Ret (_, b) => b | _ => start end.
Definition accepted {A} (o : outcome (result chain_err A * Blockchain)) : bool := match o with Ret (r, _) => is_ok r | _ => false end.

Definition checked1 : Blockchain := state_of (VerifyFinalizedBlock hash (Some block) start).
(** The node that is ahead. *)
Definition ahead : Blockchain := state_of (chain_WriteBlock hash block [] checked1).

Lemma accepted_ok {A} (o : outcome (result chain_err A * Blockchain)) : accepted o = true → ∃ a, o = Ret (Ok a, state_of o).
Proof. destruct o as [[[a|] b]| |]; try done. intros _. by exists a. Qed.

Lemma verified1 : VerifyFinalizedBlock hash (Some block) start = Ret (Ok (), checked1).
Proof. destruct (accepted_ok (VerifyFinalizedBlock hash (Some block) start)) as [[] E]; [vm_compute; reflexivity|exact E]. Qed.
Lemma written1 : chain_WriteBlock hash block [] checked1 = Ret (Ok (), ahead).
Proof. destruct (accepted_ok (chain_WriteBlock hash block [] checked1)) as [[] E]; [vm_compute; reflexivity|exact E]. Qed.

Lemma pair_config_ok : genesis_ok hash config.
Proof. split; [reflexivity|reflexivity|]. vm_compute. discriminate. Qed.

Definition entry0 : entry := genesis_entry hash config.

Lemma pair_start_implements : implements hash config start [entry0].
Proof.
  destruct (start_ok hash config (λ _ _, eq_refl) pair_config_ok (() : @dep_state ChainToy.deps)) as (b & E & Hi).
  assert (start = b) as -> by (unfold start; by rewrite E). exact Hi.
Qed.

Lemma received_header : received_ok hash header.
Proof. split; vm_compute; (split; [discriminate|reflexivity]) || reflexivity || discriminate. Qed.

(** Nothing at the start has the hash of the block. *)
Lemma header_clean l : implements hash config start l → clean hash l [header].
Proof.
  intros Hi. split; [apply Forall_singleton, received_header|]. intros h1 h2 ->%list_elem_of_singleton Hh E.
  apply elem_of_app in Hh as [->%list_elem_of_singleton|(e & -> & [i He]%list_elem_of_lookup_1)%list_elem_of_fmap]; [done|].
  exfalso. pose proof (headers_at _ _ _ _ _ _ Hi He) as Hdb. unfold e_hash in Hdb. rewrite <- E in Hdb.
  assert (db_headers (bc_db start) !! hd_Hash header = None) as Hn by (vm_compute; reflexivity). discriminate (eq_trans (eq_sym Hn) Hdb).
Qed.

Lemma ahead_implements : ∃ x, implements hash config ahead [entry0; x] ∧ e_block x = mkBlock header [set_From 99 tx] [].
Proof.
  destruct (accepted_checked hash config ChainToy.sender_99 start [entry0] block checked1 pair_start_implements (header_clean _ pair_start_implements) verified1) as [Hi Hk].
  destruct (WriteBlock_appends hash config ChainToy.sender_99 checked1 [entry0] block [] (Ok ()) ahead entry0 Hi Hk eq_refl written1)
    as [(Hle & _)|(_ & [(err & _ & [=] & _)|(ts & rs & Hr & Hi' & _)])]; [vm_compute in Hle; by destruct Hle|].
  assert (recoverFromFieldsInBlock (bk_Transactions block) = Ret (Ok [set_From 99 tx])) as Hr' by (vm_compute; reflexivity).
  rewrite Hr' in Hr. injection Hr as <-. eexists. split; [exact Hi'|reflexivity].
Qed.

(** The blocks can be written and read. *)
Lemma g_wf : header_wf hash g.
Proof.
  split; [small..| | | |].
  - split; [reflexivity|]. apply Forall_replicate. unfold byte_range. lia.
  - split; [reflexivity|]. apply Forall_replicate. unfold byte_range. lia.
  - repeat constructor; vm_compute; discriminate || reflexivity.
  - vm_compute. reflexivity.
Qed.
Lemma header_is_wf : header_wf hash header.
Proof.
  split; [small..| | | |].
  - split; [reflexivity|]. apply Forall_replicate. unfold byte_range. lia.
  - split; [reflexivity|]. apply Forall_replicate. unfold byte_range. lia.
  - repeat constructor; vm_compute; discriminate || reflexivity.
  - vm_compute. reflexivity.
Qed.
Lemma tx_is_wf : RlpTypes.tx_wf (set_From 99 tx).
Proof.
  split; [small|small|vm_compute; discriminate|vm_compute; discriminate| |].
  - intros a [= <-]. small.
  - exists 27, 11, 12. split_and!; reflexivity || lia.
Qed.
Lemma genesis_archivable : archivable hash entry0.
Proof.
  split; [split; [exact g_wf|constructor|constructor]|]. vm_compute. discriminate.
Qed.
Definition sealed : Block := mkBlock header [set_From 99 tx] [].
Lemma sealed_wf : block_wf hash sealed.
Proof. split; [exact header_is_wf|apply Forall_singleton, tx_is_wf|constructor]. Qed.
Lemma sealed_archivable x : e_block x = sealed → archivable hash x.
Proof. intros E. unfold archivable. rewrite E. split; [exact sealed_wf|]. vm_compute. discriminate. Qed.

(** A node at the start accepts the block of the other. *)
Lemma accepts_one source b :
  accepted (VerifyFinalizedBlock hash (Some (wire_block sealed)) b) = true →
  accepted (chain_WriteBlock hash (wire_block sealed) source (state_of (VerifyFinalizedBlock hash (Some (wire_block sealed)) b))) = true →
  accepts hash source [wire_block sealed] b.
Proof.
  intros Hv Hw. apply accepted_ok in Hv as [[] Hv]. apply accepted_ok in Hw as [[] Hw].
  eexists _, _. split; [exact Hv|]. split; [exact Hw|exact I].
Qed.

Definition no_callback (block : Block) (c : nat) : bool * nat := (true, S c).

Lemma wire_prefix x : wire_ledger [entry0] `prefix_of` wire_ledger [entry0; x].
Proof. by eexists. Qed.


Lemma silent_same b b' : silent hash b b' → b' = b.
Proof.
  intros [[[Hdb Hg Hh Ht Hp Hc Hs] _ _] _]. destruct b as [db ge [] [] [] ch cd pr co st []], b' as [db' ge' [] [] [] ch' cd' pr' co' st' []].
  cbn in *. by subst.
Qed.

Lemma nothing_spare a n : Z.of_nat n ≤ maxAlloc → Z.of_nat (n + append_spare a n) ≤ maxAlloc.
Proof. cbn. by rewrite Nat.add_0_r. Qed.

Lemma backup_restores_witness : ∃ file b l x,
  CreateBackup hash (client_of hash 9 600 ahead) 0 None None = (Ok (0, 1), Some file) ∧
  RestoreChain hash 9 file start = Ret (Ok (), b) ∧ implements hash config b l ∧ wire_ledger l = wire_ledger [entry0; x].
Proof.
  destruct ahead_implements as (x & Hx & Ex).
  destruct (backup_restores hash config ChainToy.sender_99 nothing_spare
    9 600 ahead [entry0; x] x 9 start [entry0] Hx eq_refl) as (file & b & l & Eb & Er & Hi & Hw).
  - cbn. lia.
  - reflexivity.
  - unfold e_hash, e_header. rewrite Ex. small.
  - apply Forall_cons. split; [exact genesis_archivable|]. apply Forall_singleton, sealed_archivable, Ex.
  - exact pair_start_implements.
  - vm_compute. reflexivity.
  - apply wire_prefix.
  - cbn. lia.
  - intros b1 ->%silent_same. unfold wire_ledger, compose. cbn [length drop fmap list_fmap]. rewrite Ex.
    apply accepts_one; vm_compute; reflexivity.
  - exists file, b, l, x. split; [exact Eb|]. split; [exact Er|]. split; [exact Hi|exact Hw].
Defined.

(** ** One peer that delivers, one that announces more than it has *)

Definition honest : NoForkPeer := mkPeer (str "a") 1 5.
Definition liar : NoForkPeer := mkPeer (str "b") 9 3.
Definition open (p : peer_ID) (from : Z) : option (list arrival) :=
  if bool_decide (p = str "a") && (from =? 1) then stream_of hash ahead 9 1 else None.

Definition s0 : syncer := mkSyncer ∅ ∅ 0 false 0%nat start.
Definition turned (o : outcome (syncer (C:=nat))) (s : syncer (C:=nat)) : syncer (C:=nat) := match o with Ret s' => s' | _ => s end.
Definition s1 : syncer := turned (Sync_turn hash no_callback [honest; liar] open s0) s0.
Definition s2 : syncer := turned (Sync_turn hash no_callback [liar; honest] open s1) s1.

Lemma turn_ret {A} (o : outcome A) (f : outcome A → A) : (∀ a, f (Ret a) = a) → (if o is Ret _ then true else false) = true → o = Ret (f o).
Proof. intros Hf. destruct o; try done. by rewrite Hf. Qed.

Lemma turn1 : Sync_turn hash no_callback [honest; liar] open s0 = Ret s1.
Proof. apply (turn_ret _ (λ o, turned o s0)); [done|]. vm_compute. reflexivity. Qed.
Lemma turn2 : Sync_turn hash no_callback [liar; honest] open s1 = Ret s2.
Proof. apply (turn_ret _ (λ o, turned o s1)); [done|]. vm_compute. reflexivity. Qed.
Lemma chain1 : sy_chain s1 = start.
Proof. vm_compute. reflexivity. Qed.
Lemma callback1 : sy_callback s1 = 0%nat.
Proof. vm_compute. reflexivity. Qed.

Lemma stream_headers p from ch : open p from = Some ch → bk_Header <$> arrived ch = [header].
Proof.
  unfold open. case_match; [|done]. intros E. assert (stream_of hash ahead 9 1 = Some [Arrives (wire_block sealed)]) as Es by (vm_compute; reflexivity).
  rewrite Es in E. injection E as <-. reflexivity.
Qed.

Lemma honest_delivers n stop err c b :
  bulkSyncWithPeer hash no_callback open (p_ID honest) 0%nat start = Ret (n, stop, err, c, b) → p_Number honest ≤ n.
Proof.
  intros E. assert ((match bulkSyncWithPeer hash no_callback open (p_ID honest) 0%nat start with Ret (n, _, _, _, _) => n | _ => 0 end) = 1) as En
    by (vm_compute; reflexivity).
  rewrite E in En. cbn in *. lia.
Qed.

Lemma fair values s s' :
  values ≡ₚ [honest; liar] → sy_chain s = start → sy_callback s = 0%nat → Sync_turn hash no_callback values open s = Ret s' →
  fair_turn hash config no_callback [honest; liar] honest s s'.
Proof.
  intros Hv Hs Hc Ht. split. exists values, open. split; [done|]. split; [done|]. rewrite Hs, Hc. split; [|exact honest_delivers].
  intros p from ch l Ho Hl. rewrite (stream_headers _ _ _ Ho). by apply header_clean.
Qed.

End Pair.

Module Served.
Import RealRlp.
#[local] Existing Instance ChainToy.deps.
#[local] Existing Instance Pair.lru.
#[local] Existing Instance Pair.forgetful_laws.

Definition hash : Header → Hash := Pair.hash.
Definition b : Blockchain := Pair.ahead.

(** ** The ledger *)

Lemma ledger : ∃ x, implements hash Pair.config b [Pair.entry0; x] ∧ e_block x = Pair.sealed ∧ e_receipts x = Some (imap ChainToy.receipt_of [Pair.tx]).
Proof.
  destruct Pair.ahead_implements as (x & Hx & Ex). exists x. split; [exact Hx|]. split; [exact Ex|].
  pose proof (da_receipts _ _ (im_db _ _ _ _ Hx) (e_hash x)) as Hr. rewrite (by_hash_lookup [Pair.entry0; x] 1 x (lo_distinct _ _ _ (im_ledger _ _ _ _ Hx)) eq_refl) in Hr.
  cbn [mbind option_bind snd] in Hr. rewrite <- Hr. unfold e_hash, e_header. rewrite Ex. vm_compute. reflexivity.
Qed.

Lemma fit0 : receipts_fit Pair.entry0.
Proof. intros rs [=]. Qed.
Lemma fit1 x : e_block x = Pair.sealed → e_receipts x = Some (imap ChainToy.receipt_of [Pair.tx]) → receipts_fit x.
Proof. intros Eb Er rs E. unfold e_txs. rewrite Eb. rewrite Er in E. injection E as <-. cbn. lia. Qed.

(** ** A query for the logs of the chain *)

Definition query : LogQuery := mkQuery None EarliestBlockNumber LatestBlockNumber [] [].
Definition made (o : outcome (nat * FilterManager * Blockchain)) : nat * FilterManager * Blockchain :=
  match o with Ret r => r | _ => (0%nat, mkManager [] ∅ [] (newBlockStream (head_block Pair.header)) [] 0 0 (mkRun Top [] None), b) end.
Definition m0 : FilterManager := (made (NewFilterManager 1000 b)).1.2.
Definition b0 : Blockchain := (made (NewFilterManager 1000 b)).2.


(** ** A filter, an event and a poll *)

Definition id : bytes := str "id".
Definition m1 : FilterManager := (NewBlockFilter 0 id None m0).2.
Definition m3 : FilterManager := set_phase Selecting (run_top m1).
Definition ev : Event := mkEvent [] [Pair.header] (Some 6) EventHead (str "test").
Definition order (m : FilterManager) : list bytes := (map_to_list (fm_filters m)).*1.
Definition handled (o : outcome (FilterManager * Blockchain)) : FilterManager * Blockchain := match o with Ret r => r | _ => (m0, b0) end.
Definition m4 : FilterManager := (handled (run_event hash ev order m3 b0)).1.
Definition b4 : Blockchain := (handled (run_event hash ev order m3 b0)).2.
Definition polled (o : outcome (result json_err (nat * updates) * FilterManager)) : result json_err (nat * updates) * FilterManager :=
  match o with Ret r => r | _ => (Err ErrFilterNotFound, m0) end.
Definition r5 : result json_err (nat * updates) := (polled (getFilterAndChanges id m4)).1.
Definition m5 : FilterManager := (polled (getFilterAndChanges id m4)).2.

Definition is_ret {A} (o : outcome A) : bool := if o is Ret _ then true else false.
Lemma made_ret : NewFilterManager 1000 b = Ret ((made (NewFilterManager 1000 b)).1.1, m0, b0).
Proof. unfold m0, b0. assert (is_ret (NewFilterManager 1000 b) = true) as E by (vm_compute; reflexivity). by destruct (NewFilterManager 1000 b) as [[[? ?] ?]| |]. Qed.
Lemma handled_ret : run_event hash ev order m3 b0 = Ret (m4, b4).
Proof. unfold m4, b4. assert (is_ret (run_event hash ev order m3 b0) = true) as E by (vm_compute; reflexivity). by destruct (run_event hash ev order m3 b0) as [[? ?]| |]. Qed.
Lemma polled_ret : getFilterAndChanges id m4 = Ret (r5, m5).
Proof. unfold r5, m5. assert (is_ret (getFilterAndChanges id m4) = true) as E by (vm_compute; reflexivity). by destruct (getFilterAndChanges id m4) as [[? ?]| |]. Qed.

Definition w0 : world := mkWorld 0 m0 b0 [].
Definition w1 : world := mkWorld 0 m1 b0 [].
Definition w5 : world := mkWorld 0 m5 b4 (refreshing r5 []).

Lemma w0_starts : starts hash Pair.config w0.
Proof.
  destruct ledger as (x & Hx & Ex & Er). exists 0, 1000, b, [Pair.entry0; x], (made (NewFilterManager 1000 b)).1.1, m0, b0.
  split; [exact Hx|]. split; [apply Forall_cons; split; [exact fit0|apply Forall_singleton, fit1; [exact Ex|exact Er]]|]. split; [exact made_ret|reflexivity].
Qed.

Lemma w1_reachable : reachable hash Pair.config w1.
Proof.
  exists w0, [Quiet]. split; [exact w0_starts|]. eapply steps_cons; [|apply steps_nil].
  apply (step_block_filter hash Pair.config 0 id None m0 b0 []).
  - split; [discriminate|]. intros p f Hp. assert (fm_objs m0 = []) as E by (vm_compute; reflexivity). rewrite E in Hp. discriminate Hp.
  - discriminate.
Qed.

Lemma w5_steps : fm_steps hash Pair.config w1 [Quiet; Quiet; Dispatched [Pair.header]; told_by r5] w5.
Proof.
  eapply steps_cons; [apply (step_top hash Pair.config 0 m1 b0 []); vm_compute; reflexivity|].
  eapply steps_cons; [apply (step_select hash Pair.config 0 (run_top m1) b0 []); vm_compute; reflexivity|].
  eapply steps_cons; [apply (step_event hash Pair.config 0 ev order m3 b0 [] m4 b4)|].
  - vm_compute. reflexivity.
  - intros m. reflexivity.
  - apply Forall_singleton. vm_compute. by eexists.
  - exact handled_ret.
  - eapply steps_cons; [apply (step_poll hash Pair.config 0 id m4 b4 [] r5 m5 polled_ret)|apply steps_nil].
Qed.

Definition f1 : filter_obj := default (mkFilter (newFilterBase id None) (blockFilter 0)) (fm_objs m1 !! 0%nat).
Lemma m1_f1 : fm_objs m1 !! 0%nat = Some f1.
Proof. vm_compute. reflexivity. Qed.


End Served.

(** ** The endpoints *)

Module Endpoints.
Import RealRlp Served.
#[local] Existing Instance ChainToy.deps.
#[local] Existing Instance Pair.lru.
#[local] Existing Instance Pair.forgetful_laws.
#[local] Existing Instances ToyState.rt ToyState.pool ToyState.curve ToyState.crypto ToyState.pool_laws ToyState.curve_laws ToyState.crypto_laws.

(** A pool that keeps what it is given. *)
Definition eth_pool : EthPool := {|
  pool_state := list Transaction;
  pool_err := unit;
  pool_AddTx t p := Ret (None, t :: p);
  pool_GetPendingTx h p := snd <$> list_find (λ t, tx_Hash t = h) p;
  pool_GetNonce _ _ := 0;
|}.
#[local] Existing Instance eth_pool.
Definition n : node := mkNode b (NewState NewMemoryStorage) [].

Lemma endpoints_serve_ledger_witness : ∃ x,
  serves hash Pair.config eth_BlockNumber n [Pair.entry0; x] (Ok 1) ∧
  serves hash Pair.config (eth_GetTransactionByHash hash (tx_Hash Pair.tx)) n [Pair.entry0; x] (Ok (Some (sealed_json x 0 (set_From 99 Pair.tx)))).
Proof.
  destruct ledger as (x & Hx & Ex & Er). exists x.
  assert (e_txs x = [set_From 99 Pair.tx]) as Et by (unfold e_txs; rewrite Ex; reflexivity).
  destruct (endpoints_serve_ledger hash Pair.config n [Pair.entry0; x] Hx) as (Hn & _ & _ & Ht & _).
  - apply Forall_cons. split; [constructor|]. apply Forall_singleton. rewrite Et. apply Forall_singleton. split_and!; by eexists.
  - apply Forall_cons. split; [intros rs [=]|]. apply Forall_singleton. intros rs E. rewrite Er in E. injection E as <-. rewrite Et. split; [reflexivity|].
    apply Forall_singleton. by eexists.
  - split; [exact Hn|]. destruct (Ht (tx_Hash Pair.tx) x) as (i & k & t & _ & Hf & Hs & _).
    + unfold block_of_tx. rewrite filter_cons_False by (cbn; by intros ?%elem_of_nil). rewrite filter_cons_True by (rewrite Et; by left). reflexivity.
    + rewrite Et in Hf. cbn [list_find] in Hf. destruct (decide _) as [_|Hne]; [|by destruct Hne]. injection Hf as <- <-. exact Hs.
Defined.

(** *** An estimate for a contract that writes a slot *)

Definition code : bytes := [0x60; 0; 0x60; 0; 0x55].
Definition arg : txnArgs := mkArgs None None (Some 57000) None None (Some code) None None.
Definition t : Transaction := ComputeHash (mkTransaction 0 0 57000 None 0 code None None None ZeroHash ZeroAddress).
Definition nothing : readSnapshot (RT:=gmap Z) := {| snap_accounts := ∅; snap_GetStorage _ _ _ := ZeroHash; snap_GetCode _ := None |}.
Definition ex : Executor (RT:=gmap Z) := mkExecutor AllForksEnabled 5 (λ _, Some nothing) (λ _ _, ZeroHash).
Definition run : Header → Transaction → node → outcome (result txn_err ExecutionResult * node) := hub_ApplyTxn (λ _, ex).
Definition gas_of (o : outcome (result eth_err Z * node)) : Z := match o with Ret (Ok g, _) => g | _ => 0 end.

(** Searching runs the machine with each gas: the slot costs 2301 units beyond the
    base and the data, for the stipend must remain. *)
Lemma estimated_value : gas_of (eth_EstimateGas hash run AllForksEnabled arg None n) = 55363.
Proof. vm_compute. reflexivity. Qed.

Lemma nothing_ok : committed_ok nothing.
Proof. split; [vm_compute; reflexivity|discriminate]. Qed.
Lemma header_fits : header_ok Pair.header.
Proof. split; vm_compute; (split; [discriminate|reflexivity]). Qed.
Lemma t_fits : msg_ok t.
Proof. split; [discriminate|discriminate|by vm_compute|]. split; [|reflexivity]. repeat constructor; discriminate. Qed.
Lemma creator_55 (b' : Blockchain) : call_dep (GetBlockCreator Pair.header) b' = Ret (Ok 55, b').
Proof. destruct b' as [? ? ? ? ? ? ? ? ? ? []]. reflexivity. Qed.
Lemma code_safe g (h : Transition (RT:=gmap Z)) : ¬ may_panic_at (call_address (set_Gas g t)) (call_code (set_Gas g t) h).
Proof.
  intros [Ha|Hc].
  - change (call_address (set_Gas g t)) with (CreateAddress ZeroAddress 0) in Ha. revert Ha. vm_compute. discriminate.
  - assert (call_code (set_Gas g t) h ∈ [code; []]) as Hin by (unfold call_code; destruct (SubBalance _ _ _); [left|right; left]; reflexivity).
    assert (Forall (λ c, ¬ panicky c) [code; []]) as Hs.
    { apply Forall_cons. split; [|apply Forall_singleton]; unfold panicky; [|by intros ?%Exists_nil]. apply (bool_decide_unpack _). vm_compute. exact I. }
    by apply (proj1 (Forall_forall _ _) Hs _ Hin).
Qed.

Lemma latest_header : chain_Header (n_chain n) = Some Pair.header.
Proof. vm_compute. reflexivity. Qed.
Lemma latest_answer : answers (GetBlockHeader hash (default LatestBlockNumber None)) n (Some Pair.header) n.
Proof. unfold answers. rewrite <- latest_header. reflexivity. Qed.
Lemma decoded : answers (DecodeTxn hash arg) n t n.
Proof. reflexivity. Qed.
Lemma nobody_pays : answers (available_balance Pair.header t) n None n.
Proof. reflexivity. Qed.

End Endpoints.

(** ** Balances *)

Module Balances.
Import PrefixCode ChainToy.
#[local] Existing Instance Endpoints.eth_pool.

(** A chain whose first block has a given state. *)
Definition config (root : Hash) : Genesis := mkGenesis (replicate 8 0) 0 [] 5000000 1 0 0 root 0 0 ZeroHash.
Definition nobody : pool_state := ([] : list Transaction).
Lemma config_fits root : genesis_ok toyHash (config root).
Proof. split; [reflexivity|reflexivity|]. vm_compute. discriminate. Qed.

Lemma objects_free nTrie root s1 batch : commit_batch NewTrie objects state0 = Ret (nTrie, root, s1, batch) → collision_free batch (db (st_storage state0)).
Proof.
  intros E. assert (batch_free = true) as Hf by (vm_compute; reflexivity). unfold batch_free in Hf. rewrite E in Hf.
  apply andb_true_iff in Hf as [H1%bool_decide_eq_true H2%bool_decide_eq_true]. exact (distinct_free _ H1 H2).
Qed.
Lemma state0_snapshot : snapshot_ok 0 state0 NewTrie.
Proof. exists ∅. split; [apply NewTrie_rep|]. split; [|reflexivity]. intros k v Hk. discriminate Hk. Qed.
Lemma state0_sane : sane D state0 NewTrie.
Proof. intros a ->%list_elem_of_singleton. exists None. split; [|discriminate]. eexists. vm_compute. reflexivity. Qed.
Lemma D_apart : hashes_apart D K.
Proof. split; intros a b ->%list_elem_of_singleton ->%list_elem_of_singleton _; reflexivity. Qed.

(** The root is not the one that a genesis block replaces. *)
Definition zero_root (o : outcome (Trie * bytes * State)) : bool := match o with Ret (_, r, _) => bool_decide (r = HashBytes ZeroHash) | _ => true end.
Lemma root_kept nTrie root s' : trie_Commit NewTrie objects state0 = Ret (nTrie, HashBytes root, s') →
  hd_StateRoot (e_header (genesis_entry toyHash (config root))) = root.
Proof.
  intros E. assert (zero_root (trie_Commit NewTrie objects state0) = false) as Hz by (vm_compute; reflexivity). rewrite E in Hz. cbn [zero_root] in Hz.
  cbn. destruct (Z.eqb_spec root ZeroHash) as [->|]; [|reflexivity]. rewrite bool_decide_true in Hz by reflexivity. discriminate Hz.
Qed.

Lemma committed_state_is_served_witness : ∃ nTrie root s' b,
  trie_Commit NewTrie objects state0 = Ret (nTrie, HashBytes root, s') ∧
  ComputeGenesis toyHash (config root) (NewBlockchain empty_db ()) = (Ok (), b) ∧
  ∃ n', eth_GetBalance toyHash 77 (mkBnh None None) (mkNode b s' nobody) = Ret (Ok 10, n').
Proof.
  destruct (committed_state_is_served (RT:=gmap Z) toyHash 0 D K state0 NewTrie block_txn false objects) as (nTrie & root & s' & Ec & Hs).
  - exact state0_ok.
  - exact state0_snapshot.
  - exact state0_sane.
  - vm_compute. reflexivity.
  - exact block_txn_run.
  - exact block_txn_range.
  - exact D_apart.
  - reflexivity.
  - exact objects_free.
  - destruct (start_ok toyHash (config root) hash_ignores (config_fits root) (() : @dep_state deps)) as (b & E & Hi).
    exists nTrie, root, s', b. split; [exact Ec|]. split; [exact E|].
    destruct (Hs (config root) (mkNode b s' nobody) [genesis_entry toyHash (config root)] (genesis_entry toyHash (config root)) (mkBnh None None) 77
      eq_refl Hi eq_refl eq_refl (root_kept _ _ _ Ec) ltac:(by left)) as [(n' & En) _].
    exists n'. rewrite En. assert (GetBalance 77 (Commit false block_txn).2 = 10) as E10 by (vm_compute; reflexivity). rewrite E10. reflexivity.
Defined.
End Balances.

(** ** Traces *)

Module Traces.
Import RealRlp Served Endpoints.
#[local] Existing Instance ChainToy.deps.
#[local] Existing Instance Pair.lru.
#[local] Existing Instances ToyState.rt ToyState.pool ToyState.curve ToyState.crypto.
#[local] Existing Instance eth_pool.

(** A block on the genesis block, with a call and a transfer. *)
Definition traced_ex : node → Executor (RT:=gmap Z) := λ _, mkExecutor AllForksEnabled 5 (λ _, Some ToyState.committed) (λ _ _, ZeroHash).
Definition traced_block : Block := mkBlock Pair.header [Tracing.kill; Tracing.next] [].

Definition gas_used (o : outcome (result trace_err (Transition (RT:=gmap Z)) * node)) : list Z :=
  match o with
  | Ret (Ok t, _) => match apply_all (bk_Transactions traced_block) t with Ret (Ok rs) => GasUsed <$> rs | _ => [] end
  | _ => []
  end.
Lemma traced_gas : gas_used (block_transition hash traced_ex traced_block n) = [13001; 10500].
Proof. vm_compute. reflexivity. Qed.

Lemma trace_of_gas txs rs results : Forall3 trace_of txs rs results → res_Gas <$> results = GasUsed <$> rs.
Proof. induction 1 as [|tx r res txs rs results [E _] _ IH]; [reflexivity|]. cbn. rewrite E. f_equal. exact IH. Qed.

(** What the theorem says of a block whose transactions use this gas. *)
Lemma traced_block_gas (o : outcome (result trace_err (Transition (RT:=gmap Z)) * node)) (res : outcome (result trace_err (list StructTraceResult) * node)) gs :
  gs ≠ [] → gas_used o = gs →
  match o with
  | Ret (Ok t, n') =>
      match apply_all (bk_Transactions traced_block) t with
      | Ret (Ok rs) => ∃ results, res = Ret (Ok results, n') ∧ Forall3 trace_of (bk_Transactions traced_block) rs results
      | Ret (Err e) => res = Ret (Err (TraceApply e), n')
      | Panic => res = Panic
      | NoFuel => res = NoFuel
      end
  | Ret (Err e, n') => res = Ret (Err e, n')
  | Panic => res = Panic
  | NoFuel => res = NoFuel
  end → ∃ results n', res = Ret (Ok results, n') ∧ res_Gas <$> results = gs.
Proof.
  intros Hne Hg. unfold gas_used in Hg. destruct o as [[[t|e] n']| |]; [|by destruct Hne..].
  destruct (apply_all (bk_Transactions traced_block) t) as [[rs|e]| |]; [|by destruct Hne..].
  intros (results & E & Hr). exists results, n'. split; [exact E|]. rewrite <- Hg. exact (trace_of_gas _ _ _ Hr).
Qed.

End Traces.
